(* ===== verification/_CoqProject ===== *)
-Q . S2P
Prelude.v
Words.v
Board.v
PcBoard.v
PatternBitSet.v
BitsetMemory.v
PatternSet.v
CoverageMatrix.v
MinimumCover.v
ExactCover.v
Tiling.v
AllocationLedger.v
LeaseAuthority.v
Pieces.v
SupplyAutomaton.v
BagWindows.v
BagSequences.v
MultisetReach.v
CtkBigNat.v
CtkBits.v
CtkCells.v
CtkPages.v
CtkCodec.v
CtkTemporal.v
CtkTransport.v
CtkDocument.v
CtkTransform.v
Kicks.v
ForwardBoard.v
Reachability.v
ReachTemplate.v
ReachSearch.v
ReachLocks.v
Reach.v
Placements.v
Finesse.v
Bfs.v
FinesseRules.v
FinessePruning.v
FinesseSearch.v
FinesseCosts.v
FinesseEvidence.v
FinesseParents.v
FinesseWitness.v
FinesseLabels.v
FinesseQuery.v
QueueExpression.v
QueueLanguage.v
QueueParsing.v
QueueGrammar.v
QueueLaws.v
QueuePatterns.v
PcGraph.v
AreaFeasibility.v
PruningLedger.v
