(* ===== verification/Prelude.v ===== *)
(** * Verification of the core of Clearra

    Clearra searches perfect clears, setups and spins of falling-block
    puzzles.  A query is turned into a board, a source of pieces and a set of
    placement candidates; the search enumerates candidate solutions, a
    coverage matrix records for each of them the set of piece patterns it
    works for, and a cover solver picks few candidates that work for all
    required patterns.  This development models the layer of that pipeline
    that is written in Rust and has no input or output: board masks and text
    fields, pattern sets and coverage, cover selection, exact cover, the piece
    supply, the placements a piece can reach under a rotation system, the
    fewest inputs that place a piece, and
    CTK3, the text format in which boards and solutions are exchanged.

    ** Files

    - [Prelude]: [Result] and its [?] notation, panics, shared tactics.
    - [Words]: machine words as [Z] at an explicit width, with checked,
      saturating and wrapping arithmetic, bit operations, [count_ones] and
      [trailing_zeros]; sorted lists of indices.
    - [Board] (crates/clearra-core-domain/src/board/{board_size,cell,
      board_mask,board_state}.rs and src/field/*.rs): one-word masks, the
      occupancy field and the text parser.  The parser's shift of a [u64] is
      modelled for builds with and without overflow checks.
    - [PcBoard] (board/standard_pc_board.rs, extended_pc_state_masks.rs):
      four-word masks of up to 256 cells, mirror, storage kinds, operation and
      deleted-row sets of the extended search.
    - [PatternBitSet] (crates/clearra-coverage/src/pattern/pattern_bitset.rs):
      the dense/sparse set of pattern ids, its iterator and every operation;
      [pset] is the set a value denotes.  [BitsetMemory] is the memory
      accounting of the same file.
    - [PatternSet]: what the coverage layer relies on, as a class of operations
      with their laws; [PatternBitSet] is its instance, and the matrix and
      cover theorems are proved for any instance.
    - [CoverageMatrix] (row/, universe/ and matrix/ of the same crate): rows,
      the universe guard, untyped and typed matrices, spin and score matrices
      with their row budgets, and the import of raw words.
    - [MinimumCover] (cover/cover_selection.rs, minimum_cover_solver.rs): the
      bounded exact search and the greedy fallback behind
      [MinimumCoverSolver::solve].
    - [ExactCover] (crates/clearra-exact-cover/src/solver/*.rs and the
      candidate and problem types of model/): the DLX search with its limits,
      as state passing over the search record, and the plain backtracking
      solver.
    - [Tiling] (builder/, model/exact_cover_problem_schema.rs,
      model/generic_exact_cover_candidate.rs, bridge/): cell universes, area
      constraints, schemas and the three bridges that pose tilings as exact
      cover.
    - [AllocationLedger] (crates/clearra-supply/src/finite_allocation.rs): the
      ledger and its transactions; the allocator is a parameter.
    - [Pieces] (core-domain piece/piece_kind.rs, supply hold/, bag/bag_profile.rs,
      bag/bag_state.rs and [PieceMultisetKey]): piece kinds, counts per piece,
      hold slots, bag profiles and states.
    - [SupplyAutomaton] (execution_automaton/supply_execution_automaton.rs):
      states, the three hold branches of [transition], bag draws, the bag step
      visitor, the projection of an initial state, orderings and hashes.

    - [LeaseAuthority] (core-domain resource/shared_resource_lease.rs and
      execution_availability.rs): the lease authority, its allocations with
      parents, children and tombstones, and the handles that release or drop
      them.  The mutex makes each call atomic, so threads are histories of
      calls.
    - [BagWindows] (supply bag/bag_boundary.rs, bag/bag_pattern.rs,
      diagnostics/duplicate_witness.rs, normalize/observed_suffix_enumerator.rs
      and observed_queue_expansion.rs): windows of a bag series, boundary
      offsets, duplicates, and the enumeration of the queues that extend an
      observed one.
    - [BagSequences] (pattern_universe/standard_7_bag_sequence_space.rs,
      observed_standard_7_bag_sequence_space.rs and the sizes of
      pattern_universe_materializer.rs): spaces of bag sequences that are
      unranked on demand instead of stored.
    - [MultisetReach] (pattern_universe/hold_multiset_reachability.rs and
      bag_multiset_reachability.rs): which multisets of pieces can be placed,
      on a known queue and over a bag, with the memory accounting of the
      search.
    - CTK3 (crates/clearra-ctk3/src), bottom up.  [CtkBigNat] (big_nat.rs):
      naturals of 32-bit limbs, binomials, ranks of combinations.  [CtkBits]
      (bitstream.rs): bit writer and reader, the error type, and what it means
      for a writer and a reader to be inverse.  [CtkCells] (cell.rs): the cell
      encodings and the choice of the shortest.  [CtkPages] (lib.rs,
      geometry.rs): documents, operations and their canonical form, the normal
      form of a page.  [CtkCodec] (codec.rs, decoder.rs): the compact, legacy
      and temporal page streams; [CtkTemporal] proves the temporal one.
      [CtkTransport] (transport.rs): base 64 and base 85, the checksum, the
      search for a value in a text.  [CtkDocument] (lib.rs, codec.rs,
      decoder.rs): documents, bundles and writers into a sink.
      [CtkTransform] (transform.rs): split, combine, mirror and the other
      transforms of texts.  Strings are lists of bytes.
    - [Kicks] (core-domain piece/rotation.rs, piece-registry
      standard/tetromino_shapes.rs and registry/piece_registry.rs, rules
      rotation/rotation_request.rs and kicks/): rotation states, the shapes of
      the tetrominoes, the built-in kick tables and the verification of a
      table.
    - [ForwardBoard] (crates/clearra-forward-search/src/board.rs): boards of
      four words, line clearing on one, two and four words and cell by cell,
      the chunked arena and the hash table that gives boards their numbers.
    - [Reachability] (forward-search reachability.rs): the template of a piece
      (positions as indices, their cells, moves and kick tests), the
      breadth-first search whose marks are generation numbers, and the table
      of locks.  Its proof is in layers: [ReachTemplate] says what a compiled
      template holds, [ReachSearch] what a history of arrivals leaves in the
      scratch, [ReachLocks] what a history of insertions leaves in the table,
      [Reach] states the rules of movement as an inductive relation and
      matches the search with it, [Placements] concludes for a workspace.
    - [Finesse] (crates/clearra-finesse/src/lib.rs, the layouts of
      clearra-geometry/src/layout and rules spawn/spawn_profile.rs): boards,
      poses, inputs and the five breadth-first searches behind a query for the
      fewest inputs.  [Bfs] is breadth-first search with distances in general,
      with the vectors a program keeps them in; [FinesseRules] states what an
      input does as a relation and shows that the kernel follows it;
      [FinessePruning] compares the rules with and without ceilings;
      [FinesseSearch] relates the queues and the chains of targets to [Bfs];
      [FinesseCosts], [FinesseEvidence], [FinesseWitness] (over
      [FinesseParents]) and [FinesseLabels] are the searches, and
      [FinesseQuery] the methods of a query.
    - [QueueExpression] (supply queue/queue_pattern_expression.rs and
      queue_parser.rs): the texts that describe queues, their two readers and
      the expressions they give.  Characters are code points; what Unicode
      says of those beyond ASCII is a parameter.  [QueueLanguage] lists the
      draws of atoms in order and ranks them, [QueueParsing] shows that the
      readers agree, [QueueGrammar] is a grammar of the texts and matches the
      parser with it, [QueueLaws] relates expressions to their sequences, and
      [QueuePatterns] has the guarantees.
    - [PcGraph] (core-domain pc/pc_target.rs and, of clearra-pc-graph,
      partition/, dag/ and classification/): the partitions of a target into
      phases and the graph of checkpoints.
    - [AreaFeasibility] (clearra-geometry/src/area and the fingerprint of
      piece_registry_bridge.rs): whether pieces can fill an area.
    - [PruningLedger] (core-domain pruning/): the bounded record of why
      candidates were dropped.

    Rust's [Result] is [Result], a panic is [None] or [Err Panicked], a loop
    is a fixpoint on the list it runs over, or on fuel that is shown to
    suffice: the bit iterator takes at most one call per position of the
    range plus one, a DLX branch covers at least one column per level so
    [column_count + 1] levels are enough, the greedy loop removes a row per
    turn, the release loop of a lease removes an allocation per turn so the
    number of allocations plus one is enough, and the enumeration of suffixes
    recurs once per piece still to append; in CTK3 the binary search of a
    position has as many turns as its range, a run of cells or pages is not
    empty, so the number of cells or pages bounds the runs, and a digit takes
    at least one of the pending bits.  A probe of the board table visits a
    slot per turn and the table is never full, the search for placements
    takes a position from its queue per turn and no position enters it twice,
    and a word has at most 64 bits to drain; the finesse searches enter no
    state twice either, a drop passes a row per turn, an auto-shift a column,
    and following parents goes back an input per turn; an atom of a queue text
    takes at least one character, and a phase at least two lines.  Lengths and indices
    are [nat]; values whose width matters are [Z] with the width in the
    operation.

    ** What the theorems show

    - Boards: parsing is correct cell by cell and inverse to printing; the
      parser's behaviour past 64 cells in both build modes; masks behave as
      sets of cells; mirroring is an involution that moves each cell to its
      reflection; storage narrowing loses nothing.
    - Pattern sets: every constructor, operation, observer and the iterator
      agree with the set denoted, whatever the layout; memory projections are
      exact for the layout chosen, and the aggregate bounds are sound.
    - Coverage: a matrix holds only rows of its universe, kind and source;
      unions of rows are unions of sets; row budgets hold; raw words are
      imported bit for bit.
    - Covers: up to twenty rows the selection is the least minimum cover in
      lexicographic order, and incomplete only if there is none; past that it
      is a greedy cover, complete if any cover exists.
    - Exact cover: the DLX search enumerates exactly the exact covers, each
      once, all of them when it reports [complete], within its limits; the
      plain solver is sound and complete for covers of all columns, so the two
      agree without optional columns and can differ with them; tilings of a
      shape and exact covers of the problem posed for it coincide.
    - Supply: transitions conserve pieces; a bag source generates exactly the
      sequences of whole bags; the bag step visitor refines [transition]; a
      projected state never runs out of cursor or epoch; packed remainders
      round-trip; the ledger's counters account for every buffer.
    - Bag windows: boundary offsets and duplicates are exact; the expansion of
      an observed queue lists every continuation once, by offset and then in
      the order of the profile; the ranked spaces
      unrank to the same lists in the same order, within [u128].
    - Reachability: the closed form and the frontier search list exactly the
      multisets that runs of the supply automaton place, inside the memory
      reserved for them.
    - Leases: the counters account for every live lease at every moment and
      every call answers what the account before it gives, no history makes the authority panic, releasing terminates, and dropping
      what is left gives back the whole capacity.
    - CTK3: decoding what an encoder wrote gives the normal form of the
      document, for single documents, bundles and the incremental writer; the
      decoders accept any bytes without panicking and return well-formed
      documents only; a payload has one text; transforms of texts are
      transforms of documents.  A text that the exact decoder accepts and the
      compatible one rejects is exhibited.
    - Rules and placements: SRS kicks are differences of offsets and every
      kick turns the cells of a piece rigidly; the verification of a kick
      table accepts exactly the complete tables without duplicates; clearing
      removes exactly the full rows on every path; the board table numbers
      boards injectively through its growth; a search finds exactly the
      positions the rules reach in which the piece rests, with evidence that
      is true and complete, under a ceiling that loses nothing, for fields of
      up to 25 rows, and whatever the workspace was used for before.
    - Finesse: for boards of up to 256 cells the costs are least, the
      witnesses are shortest sequences of inputs of the rules, both with and
      without a condition on the evidence of the lock, the labels are least in
      each class of evidence, and the methods agree with one another.  The
      rules have no ceiling: the ceilings by which the code prunes poses and
      the stops of a soft drop lose nothing, for kick tables that do not climb
      in the open ([calm_kicks]; all built-in tables are such).
    - Queue expressions: a text is accepted exactly when its alternatives have
      a meaning by the grammar, up to the limit and the common length; the
      expression lists the sequences of that meaning in order, whether it
      stores or ranks them; prefixes and copies are prefixes of each sequence;
      texts of bags mean the sequences of a bag source; every error is true of
      the text.  That a shortened
      factorized expression matches nothing is shown too.
    - Checkpoints: the partitions of a target are all its compositions into
      even phases, once each and in order; the graph joins exactly the
      consecutive phases of a partition, and its tokens are unique.
    - Areas and evidence: the table of partial sums decides exactly the areas
      that some of the pieces fill; the ledger of pruning evidence accounts
      for every report made to it, kept or left out.

    ** Not modelled

    The C core and its executor and bindings, the applications, command line,
    GUI and WebAssembly layers, rendering and serialisation; from the modelled
    crates the branch-and-bound portfolios of cover/exact_minimum_cover*.rs,
    floating-point weights and probabilities, hash identities of universes,
    the finite piece sources and the parallel grouping of universes by
    multiset, the forward search over boards with its pools, recovery and
    threads, custom rules and pieces, the conversions of placement evidence to
    the types of scoring and replay, and the accessor and formatting code that
    only reads a field.  The fumen codec, spin recognition and scoring, and the
    requests of the perfect-clear graph are not reached either. *)

From stdpp Require Import prelude.

(** Facts of the form [in_width w x], proved from the shape of [x]; filled in
    [Words]. *)
Create HintDb widths discriminated.

Declare Scope clearra_scope.
Delimit Scope clearra_scope with clearra.

(** ** Results

    Rust's [Result<A, E>].  [Ok] and [Err] keep their Rust names; the [?]
    operator is the notation [let? x := c in k]. *)
Inductive Result (E A : Type) : Type :=
| Ok (a : A)
| Err (e : E).
Arguments Ok {E A} a.
Arguments Err {E A} e.

Definition rbind {E A B} (c : Result E A) (k : A -> Result E B) : Result E B :=
  match c with
  | Ok a => k a
  | Err e => Err e
  end.

Definition rmap {E A B} (f : A -> B) (c : Result E A) : Result E B :=
  match c with
  | Ok a => Ok (f a)
  | Err e => Err e
  end.

(** [Result::map_err]. *)
Definition rmap_err {E F A} (f : E -> F) (c : Result E A) : Result F A :=
  match c with
  | Ok a => Ok a
  | Err e => Err (f e)
  end.

(** [Option::ok_or]. *)
Definition ok_or {E A} (o : option A) (e : E) : Result E A :=
  match o with
  | Some a => Ok a
  | None => Err e
  end.

(** [Result::ok]. *)
Definition rok {E A} (c : Result E A) : option A :=
  match c with
  | Ok a => Some a
  | Err _ => None
  end.

(** A computation that may panic: [expect] and [unwrap] on an error value, an
    index out of range.  A theorem that such a computation is [Ok] says that
    the panic is unreachable. *)
Inductive Panic := Panicked.

(** [Result::expect]. *)
Definition expect {E A} (c : Result E A) : Result Panic A :=
  match c with
  | Ok a => Ok a
  | Err _ => Err Panicked
  end.

(** [Option::expect], and indexing a slice. *)
Definition expect_some {A} (o : option A) : Result Panic A :=
  match o with
  | Some a => Ok a
  | None => Err Panicked
  end.

Notation "'let?' x := c 'in' k" := (rbind c (fun x => k))
  (at level 10, x name, c at level 100, k at level 200) : clearra_scope.
Notation "'let?' ' p := c 'in' k" := (rbind c (fun x => match x with p => k end))
  (at level 10, p strict pattern, c at level 100, k at level 200) : clearra_scope.
Notation "c ;? k" := (rbind c (fun _ => k))
  (at level 100, right associativity) : clearra_scope.
Open Scope clearra_scope.

#[export] Instance result_eq_dec {E A} `{EqDecision E, EqDecision A} : EqDecision (Result E A).
Proof. solve_decision. Defined.

Lemma rbind_assoc {E A B C} (c : Result E A) (f : A -> Result E B) (g : B -> Result E C) :
  rbind (rbind c f) g = rbind c (fun a => rbind (f a) g).
Proof. by destruct c. Qed.

Lemma rbind_Ok {E A B} (c : Result E A) (k : A -> Result E B) (b : B) :
  rbind c k = Ok b <-> exists a, c = Ok a /\ k a = Ok b.
Proof. destruct c; simpl; naive_solver. Qed.

Lemma ok_or_Ok {E A} (o : option A) (e : E) (a : A) :
  ok_or o e = Ok a <-> o = Some a.
Proof. destruct o; simpl; naive_solver. Qed.

Lemma rmap_err_Ok {E F A} (f : E -> F) (c : Result E A) (a : A) :
  rmap_err f c = Ok a <-> c = Ok a.
Proof. destruct c; simpl; naive_solver. Qed.

Lemma Ok_inj {E A} (a b : A) : @Ok E A a = Ok b -> a = b.
Proof. by intros [= ->]. Qed.

Lemma Err_inj {E A} (a b : E) : @Err E A a = Err b -> a = b.
Proof. by intros [= ->]. Qed.

(** [rinv] splits every hypothesis about a successful [Result] computation
    into the successes of its steps, and discards the failing branches. *)
Ltac rinv_step :=
  match goal with
  | H : rbind _ _ = Ok _ |- _ =>
      let a := fresh "a" in let Ha := fresh "Ha" in
      apply rbind_Ok in H as (a & Ha & H)
  | H : ok_or _ _ = Ok _ |- _ => apply ok_or_Ok in H
  | H : rmap_err _ _ = Ok _ |- _ => apply rmap_err_Ok in H
  | H : Ok _ = Ok _ |- _ => apply Ok_inj in H
  | H : Err _ = Err _ |- _ => apply Err_inj in H
  | H : Ok _ = Err _ |- _ => discriminate H
  | H : Err _ = Ok _ |- _ => discriminate H
  | H : (if ?b then _ else _) = Ok _ |- _ =>
      let E := fresh "E" in destruct b eqn:E
  | H : (if ?b then _ else _) = Err _ |- _ =>
      let E := fresh "E" in destruct b eqn:E
  | H : match ?o with _ => _ end = Ok _ |- _ =>
      let E := fresh "E" in destruct o eqn:E
  | H : Some _ = Some _ |- _ => apply (inj Some) in H
  | H : Some _ = None |- _ => discriminate H
  | H : None = Some _ |- _ => discriminate H
  end.
Ltac rinv := repeat rinv_step; subst.

(** Turns boolean tests of the code (comparisons on [Z] and [nat], the
    connectives) into propositions. *)
Ltac bool_prop :=
  repeat match goal with
  | H : _ && _ = true |- _ => apply andb_true_iff in H as [? ?]
  | H : _ && _ = false |- _ => apply andb_false_iff in H
  | H : _ || _ = false |- _ => apply orb_false_iff in H as [? ?]
  | H : _ || _ = true |- _ => apply orb_true_iff in H
  | H : negb _ = true |- _ => apply negb_true_iff in H
  | H : negb _ = false |- _ => apply negb_false_iff in H
  | H : (_ =? _)%Z = true |- _ => apply Z.eqb_eq in H
  | H : (_ =? _)%Z = false |- _ => apply Z.eqb_neq in H
  | H : (_ <? _)%Z = true |- _ => apply Z.ltb_lt in H
  | H : (_ <? _)%Z = false |- _ => apply Z.ltb_ge in H
  | H : (_ <=? _)%Z = true |- _ => apply Z.leb_le in H
  | H : (_ <=? _)%Z = false |- _ => apply Z.leb_gt in H
  | H : (_ =? _)%nat = true |- _ => apply Nat.eqb_eq in H
  | H : (_ =? _)%nat = false |- _ => apply Nat.eqb_neq in H
  | H : (_ <? _)%nat = true |- _ => apply Nat.ltb_lt in H
  | H : (_ <? _)%nat = false |- _ => apply Nat.ltb_ge in H
  | H : (_ <=? _)%nat = true |- _ => apply Nat.leb_le in H
  | H : (_ <=? _)%nat = false |- _ => apply Nat.leb_gt in H
  | H : bool_decide _ = true |- _ => apply bool_decide_eq_true in H
  | H : bool_decide _ = false |- _ => apply bool_decide_eq_false in H
  end.

(** Evaluates a decidable closed proposition. *)
Ltac decided :=
  match goal with |- ?P => apply (bool_decide_eq_true_1 P); vm_compute; reflexivity end.

(** ** Lists *)

Lemma bind_filter {A B} (P : A -> Prop) `{forall x, Decision (P x)} (f : A -> list B) (l : list A) :
  (forall x, x ∈ l -> ~ P x -> f x = []) -> filter P l ≫= f = l ≫= f.
Proof.
  induction l as [|x l IH]; intros Hx; [done|]. rewrite filter_cons. csimpl.
  specialize (IH ltac:(intros y Hy; apply Hx; by right)).
  case_decide as HP; csimpl; rewrite IH; [done|]. by rewrite (Hx x) by (done || by left).
Qed.

Lemma list_fmap_of_bind {A B C} (f : B -> C) (g : A -> list B) (l : list A) :
  f <$> (l ≫= g) = l ≫= (fun x => f <$> g x).
Proof. induction l as [|x l IH]; [done|]. csimpl. by rewrite fmap_app, IH. Qed.

Lemma filter_ext_in {A} (P Q : A -> Prop) `{!forall x, Decision (P x), !forall x, Decision (Q x)} (l : list A) :
  (forall x, x ∈ l -> P x <-> Q x) -> filter P l = filter Q l.
Proof.
  induction l as [|x l IH]; intros Hx; [done|]. rewrite !filter_cons, IH by (intros; apply Hx; by right).
  specialize (Hx x ltac:(by left)). repeat case_decide; tauto.
Qed.
