(* ===== verification/Words.v ===== *)
(** * Machine words

    The unsigned integers of the sources ([u8], [u16], [u32], [u64], [u128]
    and [usize], the last at the 64 bits of the native hosts) are values of
    [Z] with their width written out: [in_width w x] is the range of a [w]-bit
    word, and each operator that can leave the range states what Rust does
    there (wrap, saturate, or return [None]).  The second half characterises
    masks by their bits, which is how every mask of the sources is read. *)

From Stdlib Require Import ZArith Lia Btauto Sorted.
From stdpp Require Import prelude.
From S2P Require Import Prelude.
Open Scope Z_scope.

Definition in_width (w x : Z) : Prop := 0 <= x < 2 ^ w.

(** [uN::MAX]. *)
Definition umax (w : Z) : Z := 2 ^ w - 1.

(** [!x]. *)
Definition wnot (w x : Z) : Z := Z.lxor (Z.ones w) x.

(** [x as uN] of a wider value, and the value of [+] and [*] in a build
    without overflow checks. *)
Definition wrap (w x : Z) : Z := x mod 2 ^ w.

(** [x << k] in a build without overflow checks: the shift amount is taken
    modulo the width.  A build with overflow checks panics instead when the
    amount reaches the width; below it the two agree. *)
Definition shl (w x k : Z) : Z := Z.land (Z.shiftl x (k mod w)) (Z.ones w).

Definition checked_add (w a b : Z) : option Z :=
  if a + b <? 2 ^ w then Some (a + b) else None.

Definition checked_mul (w a b : Z) : option Z :=
  if a * b <? 2 ^ w then Some (a * b) else None.

Definition checked_sub (a b : Z) : option Z :=
  if b <=? a then Some (a - b) else None.

Definition saturating_add (w a b : Z) : Z := Z.min (a + b) (umax w).

Definition saturating_mul (w a b : Z) : Z := Z.min (a * b) (umax w).

Definition saturating_sub (a b : Z) : Z := Z.max 0 (a - b).

Definition wrapping_mul (w a b : Z) : Z := wrap w (a * b).

(** [uN::try_from] of a wider value. *)
Definition try_from (w a : Z) : option Z :=
  if a <? 2 ^ w then Some a else None.

(** [count_ones]. *)
Fixpoint pos_count_ones (p : positive) : nat :=
  match p with
  | xH => 1
  | xO q => pos_count_ones q
  | xI q => S (pos_count_ones q)
  end.
Definition count_ones (x : Z) : nat :=
  match x with
  | Zpos p => pos_count_ones p
  | _ => 0%nat
  end.

(** [trailing_zeros], on the non-zero words the sources apply it to. *)
Fixpoint pos_trailing_zeros (p : positive) : nat :=
  match p with
  | xO q => S (pos_trailing_zeros q)
  | _ => 0
  end.
Definition trailing_zeros (x : Z) : nat :=
  match x with
  | Zpos p => pos_trailing_zeros p
  | _ => 0%nat
  end.

(** ** Ranges *)

Lemma in_width_mono w w' x : w <= w' -> in_width w x -> in_width w' x.
Proof. intros Hw [? ?]; split; [done|]. pose proof (Z.pow_le_mono_r 2 w w'). lia. Qed.

Lemma in_width_0 w : 0 <= w -> in_width w 0.
Proof. intros; split; [done|]. apply Z.pow_pos_nonneg; lia. Qed.

Lemma in_width_testbit w x i : in_width w x -> w <= i -> Z.testbit x i = false.
Proof.
  intros [H0 Hlt] Hi. destruct (Z.eq_dec x 0) as [->|Hx]; [apply Z.testbit_0_l|].
  apply Z.bits_above_log2; [done|]. apply Z.log2_lt_pow2; [lia|].
  eapply Z.lt_le_trans; [exact Hlt|]. apply Z.pow_le_mono_r; lia.
Qed.

Lemma in_width_of_bits w x :
  0 <= w -> 0 <= x -> (forall i, w <= i -> Z.testbit x i = false) -> in_width w x.
Proof.
  intros Hw Hx Hb; split; [done|]. destruct (Z.eq_dec x 0) as [->|Hne].
  { apply Z.pow_pos_nonneg; lia. }
  apply Z.log2_lt_pow2; [lia|]. destruct (Z.le_gt_cases w (Z.log2 x)) as [Hle|]; [|lia].
  pose proof (Z.bit_log2 x ltac:(lia)) as Hbit. by rewrite Hb in Hbit.
Qed.

Lemma in_width_land w x y : 0 <= w -> in_width w x -> 0 <= y -> in_width w (Z.land x y).
Proof.
  intros Hw Hx Hy. pose proof Hx as [? _]. apply in_width_of_bits; [done| |].
  - apply Z.land_nonneg; auto.
  - intros i Hi. by rewrite Z.land_spec, (in_width_testbit w x).
Qed.

Lemma in_width_lor w x y : 0 <= w -> in_width w x -> in_width w y -> in_width w (Z.lor x y).
Proof.
  intros Hw Hx Hy. pose proof Hx as [? _]; pose proof Hy as [? _].
  apply in_width_of_bits; [done| |].
  - apply Z.lor_nonneg; auto.
  - intros i Hi. by rewrite Z.lor_spec, (in_width_testbit w x), (in_width_testbit w y).
Qed.

Lemma in_width_ones w : 0 <= w -> in_width w (Z.ones w).
Proof. intros. rewrite Z.ones_equiv. pose proof (Z.pow_pos_nonneg 2 w). split; lia. Qed.

Lemma ones_umax w : Z.ones w = umax w.
Proof. rewrite Z.ones_equiv. unfold umax. lia. Qed.

Lemma in_width_wnot w x : 0 <= w -> in_width w x -> in_width w (wnot w x).
Proof.
  intros Hw Hx. pose proof Hx as [? _]. pose proof (in_width_ones w Hw) as Ho.
  pose proof Ho as [? _]. unfold wnot. apply in_width_of_bits; [done| |].
  - apply Z.lxor_nonneg; lia.
  - intros i Hi. by rewrite Z.lxor_spec, (in_width_testbit w x), (in_width_testbit w (Z.ones w)).
Qed.

Lemma in_width_shl w x k : 0 <= w -> 0 <= x -> in_width w (shl w x k).
Proof.
  intros Hw Hx. unfold shl. rewrite Z.land_comm.
  apply in_width_land; [done|by apply in_width_ones|by apply Z.shiftl_nonneg].
Qed.

#[export] Hint Resolve in_width_0 in_width_land in_width_lor in_width_ones in_width_wnot in_width_shl : widths.
#[export] Hint Extern 1 (_ <= _) => solve [unfold in_width in *; lia] : widths.

(** Closes [in_width] goals built from words and the bit operations. *)
Ltac width := auto with widths.

Lemma checked_add_Some w a b c : checked_add w a b = Some c <-> a + b < 2 ^ w /\ c = a + b.
Proof. unfold checked_add. destruct (Z.ltb_spec (a + b) (2 ^ w)); naive_solver lia. Qed.

Lemma checked_mul_Some w a b c : checked_mul w a b = Some c <-> a * b < 2 ^ w /\ c = a * b.
Proof. unfold checked_mul. destruct (Z.ltb_spec (a * b) (2 ^ w)); naive_solver lia. Qed.

Lemma checked_sub_Some a b c : checked_sub a b = Some c <-> b <= a /\ c = a - b.
Proof. unfold checked_sub. destruct (Z.leb_spec b a); naive_solver lia. Qed.

Lemma try_from_Some w a c : try_from w a = Some c <-> a < 2 ^ w /\ c = a.
Proof. unfold try_from. destruct (Z.ltb_spec a (2 ^ w)); naive_solver lia. Qed.

(** ** Bits *)

Lemma testbit_ones w i : 0 <= w -> Z.testbit (Z.ones w) i = (0 <=? i) && (i <? w).
Proof. intros. rewrite Z.testbit_ones by done. reflexivity. Qed.

Lemma testbit_wnot w x i :
  0 <= w -> in_width w x -> Z.testbit (wnot w x) i = (0 <=? i) && (i <? w) && negb (Z.testbit x i).
Proof.
  intros Hw Hx. unfold wnot. rewrite Z.lxor_spec, testbit_ones by done.
  destruct (Z.leb_spec 0 i), (Z.ltb_spec i w); simpl.
  - by destruct (Z.testbit x i).
  - by rewrite (in_width_testbit w x).
  - by rewrite Z.testbit_neg_r.
  - by rewrite Z.testbit_neg_r.
Qed.

Lemma wrap_small w x : in_width w x -> wrap w x = x.
Proof. apply Z.mod_small. Qed.

Lemma testbit_shl w x k i :
  0 <= k < w -> Z.testbit (shl w x k) i = (i <? w) && Z.testbit x (i - k).
Proof.
  intros Hk. unfold shl. rewrite Z.mod_small by done. rewrite Z.land_spec, testbit_ones by lia.
  destruct (Z.leb_spec 0 i).
  - rewrite Z.shiftl_spec by done. btauto.
  - rewrite !Z.testbit_neg_r by lia. btauto.
Qed.

Lemma testbit_1 i : Z.testbit 1 i = (i =? 0).
Proof.
  destruct (Z.eqb_spec i 0) as [->|]; [done|].
  destruct (Z.lt_ge_cases i 0); [by apply Z.testbit_neg_r|].
  apply (in_width_testbit 1); [split; lia|lia].
Qed.

Lemma testbit_bit w k i : 0 <= k < w -> Z.testbit (shl w 1 k) i = (i =? k).
Proof.
  intros. rewrite testbit_shl, testbit_1 by lia.
  destruct (Z.eqb_spec (i - k) 0), (Z.eqb_spec i k), (Z.ltb_spec i w); simpl; lia.
Qed.

Lemma shl1_pow2 w k : 0 <= k < w -> shl w 1 k = 2 ^ k.
Proof.
  intros. unfold shl. rewrite (Z.mod_small k w), Z.shiftl_1_l, Z.land_ones by lia.
  apply Z.mod_small. split; [lia|]. apply Z.pow_lt_mono_r; lia.
Qed.

Lemma low_mask_ones w t : 0 <= t < w -> shl w 1 t - 1 = Z.ones t.
Proof. intros. rewrite shl1_pow2, Z.ones_equiv by done. lia. Qed.

(** Bits above [n] and bits below it do not meet. *)
Lemma lor_shiftl_low r l n : 0 <= n -> in_width n l -> Z.lor (Z.shiftl r n) l = 2 ^ n * r + l.
Proof.
  intros Hn Hl. pose proof (Z.add_lor_land (Z.shiftl r n) l) as H.
  assert (Z.land (Z.shiftl r n) l = 0) as H0.
  { apply Z.bits_inj_iff. intros i. rewrite Z.land_spec, Z.bits_0. destruct (Z.ltb_spec i n).
    - by rewrite Z.shiftl_spec_low by lia.
    - rewrite (in_width_testbit n l) by done. apply andb_false_r. }
  rewrite H0 in H. rewrite Z.shiftl_mul_pow2 in H |- * by lia. lia.
Qed.

(** [(x & (1 << k)) != 0] reads bit [k]. *)
Lemma land_bit_eqb w x k : 0 <= k < w -> (Z.land x (shl w 1 k) =? 0) = negb (Z.testbit x k).
Proof.
  intros Hk. destruct (Z.testbit x k) eqn:Hb; simpl.
  - apply Z.eqb_neq. intros H0. apply (f_equal (fun z => Z.testbit z k)) in H0.
    rewrite Z.land_spec, testbit_bit, Z.eqb_refl, Hb, Z.testbit_0_l in H0 by done. done.
  - apply Z.eqb_eq, Z.bits_inj_0; intros i. rewrite Z.land_spec, testbit_bit by done.
    destruct (Z.eqb_spec i k) as [->|]; rewrite ?Hb; btauto.
Qed.

(** [x & y == 0] says the masks are disjoint. *)
Lemma land_eqb_0 x y :
  (Z.land x y =? 0) = true <-> (forall i, Z.testbit x i = true -> Z.testbit y i = false).
Proof.
  rewrite Z.eqb_eq; split.
  - intros H i Hx. apply (f_equal (fun z => Z.testbit z i)) in H.
    rewrite Z.land_spec, Hx, Z.testbit_0_l in H. done.
  - intros H. apply Z.bits_inj_0; intros i. rewrite Z.land_spec.
    destruct (Z.testbit x i) eqn:E; [rewrite H by done|]; done.
Qed.

(** The test [mask & !low_bits == 0] of the mask constructors. *)
Lemma land_wnot_ones_0 w n m :
  0 <= n <= w -> in_width w m -> (Z.land m (wnot w (Z.ones n)) =? 0) = true <-> in_width n m.
Proof.
  intros Hn Hm. assert (in_width w (Z.ones n)) as Ho
    by (apply (in_width_mono n); [lia|apply in_width_ones; lia]).
  rewrite land_eqb_0. split.
  - intros H. apply in_width_of_bits; [lia|apply Hm|]. intros i Hi.
    destruct (Z.testbit m i) eqn:Hb; [|done]. pose proof (H i Hb) as Hn'.
    rewrite testbit_wnot, testbit_ones in Hn' by (done || lia).
    destruct (Z.lt_ge_cases i w); [|by rewrite (in_width_testbit w m) in Hb].
    replace (i <? n) with false in Hn' by (symmetry; apply Z.ltb_ge; lia).
    rewrite andb_false_r, (proj2 (Z.leb_le 0 i)), (proj2 (Z.ltb_lt i w)) in Hn' by lia. done.
  - intros H i Hb. rewrite testbit_wnot, testbit_ones by (done || lia).
    destruct (Z.lt_ge_cases i n); [|by rewrite (in_width_testbit n m) in Hb].
    destruct (Z.lt_ge_cases i 0); [by rewrite Z.testbit_neg_r in Hb|].
    rewrite (proj2 (Z.leb_le 0 i)), (proj2 (Z.ltb_lt i n)) by lia. by rewrite andb_false_r.
Qed.

(** A word is determined by the bits below its width. *)
Lemma word_ext w x y :
  in_width w x -> in_width w y ->
  (forall i, 0 <= i < w -> Z.testbit x i = Z.testbit y i) -> x = y.
Proof.
  intros Hx Hy H. apply Z.bits_inj'; intros i Hi.
  destruct (Z.lt_ge_cases i w); [auto|].
  by rewrite (in_width_testbit w x), (in_width_testbit w y).
Qed.

Lemma word_0_iff x : 0 <= x -> x = 0 <-> forall i, 0 <= i -> Z.testbit x i = false.
Proof.
  intros Hx; split; [intros ->; intros; apply Z.testbit_0_l|].
  intros H. apply Z.bits_inj'; intros i Hi. rewrite H by done. by rewrite Z.testbit_0_l.
Qed.

(** The positions of the bits of [x] below [w], in increasing order. *)
Definition bits (w : nat) (x : Z) : list nat :=
  filter (fun i => Z.testbit x (Z.of_nat i)) (seq 0 w).

Lemma elem_of_bits w x i : i ∈ bits w x <-> (i < w)%nat /\ Z.testbit x (Z.of_nat i) = true.
Proof. unfold bits. rewrite list_elem_of_filter, elem_of_seq, <- Is_true_true. naive_solver lia. Qed.

Lemma NoDup_bits w x : NoDup (bits w x).
Proof. apply NoDup_filter, NoDup_seq. Qed.

Lemma filter_fmap_bool {A B} (f : A -> B) (P : B -> bool) (l : list A) :
  filter (fun x => P x) (f <$> l) = f <$> filter (fun x => P (f x)) l.
Proof.
  induction l as [|a l IH]; [done|]. rewrite fmap_cons, !filter_cons, IH.
  by repeat case_decide.
Qed.

Lemma bits_step w x :
  bits (S w) x = (if Z.testbit x 0 then [0%nat] else []) ++ (S <$> bits w (Z.div2 x)).
Proof.
  unfold bits. change (seq 0 (S w)) with (0%nat :: seq 1 w).
  rewrite <- (fmap_S_seq 0 w), filter_cons.
  rewrite (filter_fmap_bool S (fun i => Z.testbit x (Z.of_nat i))).
  assert (filter (fun i : nat => Z.testbit x (Z.of_nat (S i))) (seq 0 w) =
          filter (fun i : nat => Z.testbit (Z.div2 x) (Z.of_nat i)) (seq 0 w)) as ->.
  { apply list_filter_iff. intros i. rewrite Z.div2_spec, Z.shiftr_spec by lia.
    by replace (Z.of_nat i + 1) with (Z.of_nat (S i)) by lia. }
  change (Z.of_nat 0) with 0. destruct (Z.testbit x 0); by case_decide.
Qed.

Lemma count_ones_step x :
  0 <= x -> count_ones x = ((if Z.testbit x 0 then 1 else 0) + count_ones (Z.div2 x))%nat.
Proof. destruct x as [|[p|p|]|p]; simpl; lia. Qed.

(** [count_ones] counts the set bits. *)
Lemma count_ones_bits w x : in_width (Z.of_nat w) x -> count_ones x = length (bits w x).
Proof.
  revert x. induction w as [|w IH]; intros x Hx.
  { assert (x = 0) as -> by (unfold in_width in Hx; simpl in Hx; lia). done. }
  rewrite bits_step, length_app, length_fmap, count_ones_step, (IH (Z.div2 x)).
  - by destruct (Z.testbit x 0).
  - unfold in_width in *. rewrite Z.div2_div.
    replace (Z.of_nat (S w)) with (1 + Z.of_nat w) in Hx by lia.
    rewrite Z.pow_add_r in Hx by lia. change (2 ^ 1) with 2 in Hx.
    split; [apply Z.div_pos; lia|apply Z.div_lt_upper_bound; lia].
  - apply Hx.
Qed.

Lemma trailing_zeros_spec x :
  0 < x ->
  Z.testbit x (Z.of_nat (trailing_zeros x)) = true /\
  (forall i, 0 <= i < Z.of_nat (trailing_zeros x) -> Z.testbit x i = false).
Proof.
  destruct x as [|p|p]; try lia. intros _. simpl.
  induction p as [p _|p [IH1 IH2]|]; simpl pos_trailing_zeros.
  - split; [done|]. intros; lia.
  - rewrite Pos2Z.inj_xO, <- Z.double_spec. split.
    + by rewrite Nat2Z.inj_succ, Z.double_bits_succ.
    + intros i Hi. destruct (Z.eq_dec i 0) as [->|]; [apply Z.testbit_even_0|].
      replace i with (Z.succ (i - 1)) by lia. rewrite Z.double_bits_succ. apply IH2; lia.
  - split; [done|]. intros; lia.
Qed.

(** [x &= x - 1] clears the lowest set bit and no other. *)
Lemma clear_lowest_bit x i :
  0 < x ->
  Z.testbit (Z.land x (x - 1)) i = Z.testbit x i && negb (i =? Z.of_nat (trailing_zeros x)).
Proof.
  intros Hx. destruct (Z.lt_ge_cases i 0) as [Hi|Hi]; [by rewrite !Z.testbit_neg_r|].
  destruct x as [|p|p]; try lia. clear Hx. revert i Hi.
  induction p as [p _|p IH|]; intros i Hi; rewrite Z.land_spec;
    (destruct (Z.eq_dec i 0) as [->|Hne];
      [|assert (exists j, i = Z.succ j /\ 0 <= j) as (j & -> & Hj)
          by (exists (i - 1); lia)]).
  - done.
  - replace (Zpos p~1 - 1) with (2 * Zpos p) by lia.
    replace (Zpos p~1) with (2 * Zpos p + 1) by lia.
    rewrite Z.testbit_odd_succ, Z.testbit_even_succ by done. simpl trailing_zeros.
    replace (Z.succ j =? Z.of_nat 0) with false by (symmetry; apply Z.eqb_neq; lia). btauto.
  - simpl. btauto.
  - replace (Zpos p~0 - 1) with (2 * (Zpos p - 1) + 1) by lia.
    replace (Z.testbit (Zpos p~0)) with (Z.testbit (2 * Zpos p)) by done.
    rewrite Z.testbit_odd_succ, Z.testbit_even_succ by done.
    rewrite <- Z.land_spec, IH by done. f_equal. f_equal. simpl trailing_zeros.
    destruct (Z.eqb_spec j (Z.of_nat (pos_trailing_zeros p))),
      (Z.eqb_spec (Z.succ j) (Z.of_nat (S (pos_trailing_zeros p)))); lia.
  - done.
  - change (1 - 1) with 0. rewrite Z.testbit_0_l, testbit_1. simpl.
    destruct (Z.eqb_spec (Z.succ j) 0); [lia|done].
Qed.

Lemma filter_ext_bool {A} (P Q : A -> bool) (l : list A) :
  (forall x, x ∈ l -> P x = Q x) -> filter (fun x => P x) l = filter (fun x => Q x) l.
Proof.
  induction l as [|a l IH]; intros H; [done|].
  rewrite !filter_cons, (H a), IH; [done| |by left]. intros x Hx. apply H. by right.
Qed.

(** Two words with the same bits below [w] up to one position. *)
Lemma count_ones_clear w x x' k :
  in_width (Z.of_nat w) x -> in_width (Z.of_nat w) x' -> (k < w)%nat ->
  Z.testbit x (Z.of_nat k) = true ->
  (forall i : nat, (i < w)%nat -> Z.testbit x' (Z.of_nat i) = Z.testbit x (Z.of_nat i) && negb (i =? k)%nat) ->
  count_ones x = S (count_ones x').
Proof.
  intros Hx Hx' Hk Hb H. rewrite !(count_ones_bits w) by done.
  change (S (length (bits w x'))) with (length (k :: bits w x')).
  apply Permutation_length, NoDup_Permutation.
  - apply NoDup_bits.
  - constructor; [|apply NoDup_bits]. rewrite elem_of_bits, H, Nat.eqb_refl, andb_false_r by done. naive_solver.
  - intros i. rewrite elem_of_cons, !elem_of_bits. split.
    + intros [Hi Hbi]. destruct (decide (i = k)) as [->|Hne]; [by left|right].
      rewrite H, Hbi, (proj2 (Nat.eqb_neq i k)) by done. done.
    + intros [->|[Hi Hbi]]; [done|]. split; [done|]. rewrite H in Hbi by done. by bool_prop.
Qed.

Lemma word_ext_nat w x x' :
  in_width (Z.of_nat w) x -> in_width (Z.of_nat w) x' ->
  (forall i : nat, (i < w)%nat -> Z.testbit x (Z.of_nat i) = Z.testbit x' (Z.of_nat i)) -> x = x'.
Proof.
  intros Hx Hx' H. apply (word_ext (Z.of_nat w)); [done|done|]. intros i Hi.
  rewrite <- (Z2Nat.id i) by lia. apply H. lia.
Qed.

#[global] Arguments shl : simpl never.
#[global] Arguments wnot : simpl never.
#[global] Arguments umax : simpl never.
#[global] Arguments wrap : simpl never.

(** ** Strictly increasing lists

    Two strictly increasing lists with the same members are equal: this is why
    a sorted list of ids is a canonical set representation. *)

Lemma sorted_lt_head (x : nat) l : StronglySorted lt (x :: l) -> forall y, y ∈ l -> (x < y)%nat.
Proof.
  intros H y Hy. apply StronglySorted_inv in H as [_ H].
  rewrite Forall_forall in H. by apply H.
Qed.

Lemma sorted_lt_ext (l1 l2 : list nat) :
  StronglySorted lt l1 -> StronglySorted lt l2 -> (forall x, x ∈ l1 <-> x ∈ l2) -> l1 = l2.
Proof.
  revert l2. induction l1 as [|x l1 IH]; intros [|y l2] H1 H2 H.
  - done.
  - exfalso. assert (y ∈ []) as Hy by (apply H; by left). by apply elem_of_nil in Hy.
  - exfalso. assert (x ∈ []) as Hx by (apply H; by left). by apply elem_of_nil in Hx.
  - pose proof (sorted_lt_head _ _ H1) as Hx. pose proof (sorted_lt_head _ _ H2) as Hy.
    assert (x = y) as <-.
    { assert (x ∈ y :: l2) as [->|Hx2]%elem_of_cons by (apply H; by left); [done|].
      assert (y ∈ x :: l1) as [->|Hy1]%elem_of_cons by (apply H; by left); [done|].
      pose proof (Hy _ Hx2). pose proof (Hx _ Hy1). lia. }
    f_equal. apply StronglySorted_inv in H1 as [H1 _]. apply StronglySorted_inv in H2 as [H2 _].
    apply IH; [done|done|]. intros z. specialize (H z). rewrite !elem_of_cons in H. split; intros Hz.
    + destruct (proj1 H (or_intror Hz)) as [->|]; [|done]. by pose proof (Hx _ Hz); lia.
    + destruct (proj2 H (or_intror Hz)) as [->|]; [|done]. by pose proof (Hy _ Hz); lia.
Qed.

Lemma sorted_lt_NoDup l : StronglySorted lt l -> NoDup l.
Proof.
  induction l as [|x l IH]; intros H; [constructor|].
  pose proof (sorted_lt_head _ _ H) as Hx. apply StronglySorted_inv in H as [H _].
  constructor; [|by apply IH]. intros Hin. pose proof (Hx x Hin). lia.
Qed.

Lemma sorted_lt_seq m n : StronglySorted lt (seq m n).
Proof.
  revert m. induction n as [|n IH]; intros m; [constructor|]. simpl. constructor; [apply IH|].
  apply Forall_forall. intros x Hx%elem_of_seq. lia.
Qed.

Lemma sorted_lt_filter (P : nat -> bool) l :
  StronglySorted lt l -> StronglySorted lt (filter (fun x => P x) l).
Proof.
  induction l as [|x l IH]; intros H; [constructor|].
  pose proof (sorted_lt_head _ _ H) as Hx. apply StronglySorted_inv in H as [H _].
  rewrite filter_cons. case_decide; [|by apply IH]. constructor; [by apply IH|].
  apply Forall_forall. intros y [_ Hy]%list_elem_of_filter. by apply Hx.
Qed.

Lemma sorted_lt_app l1 l2 :
  StronglySorted lt l1 -> StronglySorted lt l2 ->
  (forall x y, x ∈ l1 -> y ∈ l2 -> (x < y)%nat) -> StronglySorted lt (l1 ++ l2).
Proof.
  induction l1 as [|x l1 IH]; intros H1 H2 H; [done|]. simpl.
  pose proof (sorted_lt_head _ _ H1) as Hx. apply StronglySorted_inv in H1 as [H1 _].
  constructor.
  - apply IH; [done|done|]. intros a b Ha Hb. apply H; [by right|done].
  - apply Forall_forall. intros y [Hy|Hy]%elem_of_app; [by apply Hx|apply H; [by left|done]].
Qed.

Lemma sorted_lt_app_inv l1 l2 :
  StronglySorted lt (l1 ++ l2) ->
  StronglySorted lt l1 /\ StronglySorted lt l2 /\ forall x y, x ∈ l1 -> y ∈ l2 -> (x < y)%nat.
Proof.
  induction l1 as [|a l1 IH]; intros Hs; [split; [constructor|]; split; [done|]; by intros x y ?%not_elem_of_nil|].
  inversion Hs as [|? ? Hs' Ha]; subst. apply Forall_app in Ha as [Ha1 Ha2]. destruct (IH Hs') as (H1 & H2 & H3).
  split; [by constructor|]. split; [done|]. intros x y [->|Hx]%elem_of_cons Hy; [|by apply H3]. rewrite Forall_forall in Ha2. by apply Ha2.
Qed.

Lemma sorted_lt_bits w x : StronglySorted lt (bits w x).
Proof. apply sorted_lt_filter, sorted_lt_seq. Qed.

Lemma sorted_lt_shift k l : StronglySorted lt l -> StronglySorted lt ((fun i => k + i)%nat <$> l).
Proof.
  induction l as [|x l IH]; intros H; [constructor|]. simpl.
  pose proof (sorted_lt_head _ _ H) as Hx. apply StronglySorted_inv in H as [H _].
  constructor; [by apply IH|]. apply Forall_forall. intros y (z & -> & Hz)%list_elem_of_fmap.
  pose proof (Hx z Hz). lia.
Qed.

(** The lowest set bit comes first. *)
Lemma bits_lowest w x :
  (0 < x)%Z -> in_width (Z.of_nat w) x ->
  bits w x = trailing_zeros x :: bits w (Z.land x (x - 1)).
Proof.
  intros Hpos Hx. destruct (trailing_zeros_spec x Hpos) as [Hb Hlow].
  assert (trailing_zeros x < w)%nat as Hw.
  { destruct (decide (trailing_zeros x < w)%nat); [done|].
    rewrite (in_width_testbit (Z.of_nat w)) in Hb by (done || lia). done. }
  assert (forall i : nat, Z.testbit (Z.land x (x - 1)) (Z.of_nat i) =
    Z.testbit x (Z.of_nat i) && negb (Z.of_nat i =? Z.of_nat (trailing_zeros x))) as Hc
    by (intros; by apply clear_lowest_bit).
  apply sorted_lt_ext; [apply sorted_lt_bits| |].
  - constructor; [apply sorted_lt_bits|]. apply Forall_forall. intros i [Hi Hbi]%elem_of_bits.
    rewrite Hc in Hbi. bool_prop. destruct (decide (trailing_zeros x < i)%nat); [done|].
    rewrite Hlow in * by lia. done.
  - intros i. rewrite elem_of_cons, !elem_of_bits, Hc. split.
    + intros [Hi Hbi]. destruct (decide (i = trailing_zeros x)); [by left|right]. split; [done|].
      rewrite Hbi. simpl. apply negb_true_iff, Z.eqb_neq. lia.
    + intros [->|[Hi Hbi]]; [done|]. by bool_prop.
Qed.

#[global] Arguments Nat.div : simpl never.
#[global] Arguments Nat.modulo : simpl never.

(** An element of a strictly increasing list that is not before [i] is at
    least [i]. *)
Lemma sorted_lt_after l1 i l2 j :
  StronglySorted lt (l1 ++ i :: l2) -> j ∈ l1 ++ i :: l2 -> j ∉ l1 -> (i <= j)%nat.
Proof.
  intros Hs [?|[->|Hj]%elem_of_cons]%elem_of_app Hn; [done|lia|].
  induction l1 as [|x l1 IH]; simpl in Hs.
  - pose proof (sorted_lt_head _ _ Hs j Hj). lia.
  - apply StronglySorted_inv in Hs as [Hs _]. apply IH; [done|]. set_solver.
Qed.

Lemma sorted_le_NoDup_lt l : StronglySorted le l -> NoDup l -> StronglySorted lt l.
Proof.
  induction 1 as [|x l Hs IH Hx]; intros Hnd; [constructor|]. apply NoDup_cons in Hnd as [Hni Hnd].
  constructor; [by apply IH|]. apply Forall_forall. intros y Hy. rewrite Forall_forall in Hx. specialize (Hx y Hy).
  assert (x <> y) by (by intros ->). lia.
Qed.

(** Linear arithmetic with division and remainder by constants. *)
Ltac euclid := Z.to_euclidean_division_equations; lia.
