(* ===== verification/Board.v ===== *)
(** * Boards of at most 64 cells

    [clearra-core-domain], directories [board] and [field]: sizes and cell
    coordinates, the one-word [BoardMask], [BoardState], the [OccupancyField]
    that every search problem is lowered to, and the parser that builds such a
    field from text rows. *)

From Stdlib Require Import ZArith Lia Btauto Ascii String.
From stdpp Require Import prelude.
From S2P Require Import Prelude Words.
Open Scope Z_scope.

(** ** Sizes, cells and one-word masks *)

Record BoardSize := mkBoardSize { bs_width : Z; bs_height : Z }.

Inductive BoardSizeError := ZeroWidth | ZeroHeight.

Definition BoardSize_standard_10x20 : BoardSize := mkBoardSize 10 20.

Definition BoardSize_new (width height : Z) : Result BoardSizeError BoardSize :=
  if width =? 0 then Err ZeroWidth
  else if height =? 0 then Err ZeroHeight
  else Ok (mkBoardSize width height).

Definition BoardSize_area (s : BoardSize) : Z := bs_width s * bs_height s.

Record CellCoord := mkCellCoord { cell_x : Z; cell_y : Z }.

Inductive CellCoordError :=
| XOutOfBounds (x width : Z)
| YOutOfBounds (y height : Z).

Definition CellCoord_new (x y : Z) (s : BoardSize) : Result CellCoordError CellCoord :=
  if bs_width s <=? x then Err (XOutOfBounds x (bs_width s))
  else if bs_height s <=? y then Err (YOutOfBounds y (bs_height s))
  else Ok (mkCellCoord x y).

Record BoardMask := mkBoardMask { BoardMask_bits : Z }.

Inductive BoardMaskError :=
| BoardTooLarge (area : Z)
| CellOutOfMaskRange (index : Z).

Definition BoardMask_EMPTY : BoardMask := mkBoardMask 0.

(** The product and the sum stay below [u32::MAX]: all three operands are
    [u16] (lemma [cell_index_u32]). *)
Definition cell_index (c : CellCoord) (s : BoardSize) : Result BoardMaskError Z :=
  let area := BoardSize_area s in
  if 64 <? area then Err (BoardTooLarge area)
  else
    let index := cell_y c * bs_width s + cell_x c in
    if 64 <=? index then Err (CellOutOfMaskRange index) else Ok index.

Definition BoardMask_from_cell (c : CellCoord) (s : BoardSize) : Result BoardMaskError BoardMask :=
  let? index := cell_index c s in Ok (mkBoardMask (shl 64 1 index)).

Definition BoardMask_contains (m : BoardMask) (c : CellCoord) (s : BoardSize) : bool :=
  match cell_index c s with
  | Ok index => negb (Z.land (BoardMask_bits m) (shl 64 1 index) =? 0)
  | Err _ => false
  end.

Definition BoardMask_intersects (a b : BoardMask) : bool :=
  negb (Z.land (BoardMask_bits a) (BoardMask_bits b) =? 0).

Definition BoardMask_union (a b : BoardMask) : BoardMask :=
  mkBoardMask (Z.lor (BoardMask_bits a) (BoardMask_bits b)).

Definition BoardMask_without (a b : BoardMask) : BoardMask :=
  mkBoardMask (Z.land (BoardMask_bits a) (wnot 64 (BoardMask_bits b))).

Definition BoardMask_is_empty (m : BoardMask) : bool := BoardMask_bits m =? 0.

Definition BoardMask_count_ones (m : BoardMask) : nat := count_ones (BoardMask_bits m).

Record BoardState := mkBoardState { st_size : BoardSize; st_occupied : BoardMask }.

Definition BoardState_empty (s : BoardSize) : BoardState := mkBoardState s BoardMask_EMPTY.

Definition BoardState_with_occupied (b : BoardState) (m : BoardMask) : BoardState :=
  mkBoardState (st_size b) m.

Definition BoardState_is_empty (b : BoardState) : bool := BoardMask_is_empty (st_occupied b).

(** ** Occupancy fields *)

Record OccupancyField := mkOccupancyField {
  of_width : Z;
  of_height : Z;
  of_mask : Z
}.

Inductive OccupancyFieldError :=
| EmptyDimensions
| Board64LimitExceeded (cells : Z)
| MaskOutsideField (mask field_mask : Z)
| CoordinateOutOfBounds (x y : Z).

Definition field_mask (cells : Z) : Z :=
  if cells =? 64 then umax 64 else shl 64 1 cells - 1.

Definition OccupancyField_new (width height mask : Z) : Result OccupancyFieldError OccupancyField :=
  if (width =? 0) || (height =? 0) then Err EmptyDimensions
  else
    let cells := width * height in
    if 64 <? cells then Err (Board64LimitExceeded cells)
    else
      let fm := field_mask cells in
      if negb (Z.land mask (wnot 64 fm) =? 0) then Err (MaskOutsideField mask fm)
      else Ok (mkOccupancyField width height mask).

Definition OccupancyField_empty (width height : Z) : Result OccupancyFieldError OccupancyField :=
  OccupancyField_new width height 0.

Definition OccupancyField_bit_index (f : OccupancyField) (x y : Z) : Result OccupancyFieldError Z :=
  if (of_width f <=? x) || (of_height f <=? y) then Err (CoordinateOutOfBounds x y)
  else Ok (wrap 8 (wrap 8 (y * of_width f) + x)).

Definition OccupancyField_is_occupied (f : OccupancyField) (x y : Z) : Result OccupancyFieldError bool :=
  let? bit := OccupancyField_bit_index f x y in
  Ok (negb (Z.land (of_mask f) (shl 64 1 bit) =? 0)).

Definition OccupancyField_field_mask (f : OccupancyField) : Z :=
  field_mask (of_width f * of_height f).

(** ** The text field parser

    A row is the list of the code points of its [chars()].  The parser shifts
    [1_u64] by the cell's bit position before the field's size is checked:
    [overflow_checks] says whether the build panics on a shift past the width
    ([None] is the panic) or masks the amount. *)

Definition chr (a : ascii) : Z := Z.of_N (N_of_ascii a).

Inductive TextFieldParserError :=
| EmptyRows
| WidthTooLarge (width : nat)
| HeightTooLarge (height : nat)
| RowWidthMismatch (expected actual : nat)
| InvalidCell (row column : nat) (value : Z)
| Occupancy (error : OccupancyFieldError).

Definition cell_occupied (value : Z) : option bool :=
  if bool_decide (value ∈ [chr "."; chr "0"; chr "_"; chr " "]) then Some false
  else if bool_decide (value ∈ [chr "#"; chr "X"; chr "x"; chr "1"]) then Some true
  else None.

Fixpoint parse_cells (overflow_checks : bool) (width top_down_row internal_y column : nat)
    (row : list Z) (mask : Z) : option (Result TextFieldParserError Z) :=
  match row with
  | [] => Some (Ok mask)
  | value :: row =>
      match cell_occupied value with
      | None => Some (Err (InvalidCell top_down_row column value))
      | Some false => parse_cells overflow_checks width top_down_row internal_y (S column) row mask
      | Some true =>
          let bit := Z.of_nat (internal_y * width + column) in
          if overflow_checks && (64 <=? bit) then None
          else parse_cells overflow_checks width top_down_row internal_y (S column) row
                 (Z.lor mask (shl 64 1 bit))
      end
  end.

Fixpoint parse_rows (overflow_checks : bool) (width height top_down_row : nat)
    (rows : list (list Z)) (mask : Z) : option (Result TextFieldParserError Z) :=
  match rows with
  | [] => Some (Ok mask)
  | row :: rows =>
      if negb (length row =? width)%nat then Some (Err (RowWidthMismatch width (length row)))
      else
        match parse_cells overflow_checks width top_down_row (height - 1 - top_down_row) 0 row mask with
        | Some (Ok mask) => parse_rows overflow_checks width height (S top_down_row) rows mask
        | other => other
        end
  end.

Definition parse_top_down_rows (overflow_checks : bool) (rows : list (list Z))
    : option (Result TextFieldParserError OccupancyField) :=
  match rows with
  | [] => Some (Err EmptyRows)
  | first :: _ =>
      let width := length first in
      let height := length rows in
      if (255 <? width)%nat then Some (Err (WidthTooLarge width))
      else if (255 <? height)%nat then Some (Err (HeightTooLarge height))
      else
        match parse_rows overflow_checks width height 0 rows 0 with
        | None => None
        | Some (Err e) => Some (Err e)
        | Some (Ok mask) =>
            Some (rmap_err Occupancy (OccupancyField_new (Z.of_nat width) (Z.of_nat height) mask))
        end
  end.

(** ** Cells and masks: the code's one-word sets *)

Definition cell_in (s : BoardSize) (c : CellCoord) : Prop :=
  0 <= cell_x c < bs_width s /\ 0 <= cell_y c < bs_height s.

Definition BoardMask_ok (m : BoardMask) : Prop := in_width 64 (BoardMask_bits m).

Lemma CellCoord_new_in x y s c :
  0 <= x -> 0 <= y -> CellCoord_new x y s = Ok c -> cell_in s c.
Proof. unfold CellCoord_new. intros Hx Hy H. rinv; bool_prop. split; simpl; lia. Qed.

Lemma cell_index_u32 c s :
  in_width 16 (cell_x c) -> in_width 16 (cell_y c) -> in_width 16 (bs_width s) ->
  in_width 32 (cell_y c * bs_width s + cell_x c).
Proof. unfold in_width. intros; nia. Qed.

Lemma cell_index_Ok c s :
  cell_in s c -> BoardSize_area s <= 64 ->
  cell_index c s = Ok (cell_y c * bs_width s + cell_x c) /\
  0 <= cell_y c * bs_width s + cell_x c < 64.
Proof.
  intros [Hx Hy] Ha. unfold BoardSize_area, cell_index, BoardSize_area in *.
  assert (0 <= cell_y c * bs_width s + cell_x c < 64) as Hb by nia.
  destruct (Z.ltb_spec 64 (bs_width s * bs_height s)); [lia|].
  destruct (Z.leb_spec 64 (cell_y c * bs_width s + cell_x c)); [lia|done].
Qed.

(** A successful index is always a bit of the word. *)
Lemma cell_index_range c s i :
  0 <= cell_x c -> 0 <= cell_y c -> 0 <= bs_width s -> cell_index c s = Ok i -> 0 <= i < 64.
Proof. unfold cell_index. intros Hx Hy Hw H. rinv; bool_prop. nia. Qed.

(** Row-major indexing is injective on the cells of a board. *)
Lemma cell_index_inj s c c' :
  cell_in s c -> cell_in s c' ->
  cell_y c * bs_width s + cell_x c = cell_y c' * bs_width s + cell_x c' -> c = c'.
Proof.
  destruct c as [x y], c' as [x' y']. unfold cell_in; simpl. intros [? ?] [? ?] Heq.
  assert (y = y') as -> by nia. f_equal. lia.
Qed.

Lemma BoardMask_contains_testbit m s c :
  cell_in s c -> BoardSize_area s <= 64 ->
  BoardMask_contains m c s = Z.testbit (BoardMask_bits m) (cell_y c * bs_width s + cell_x c).
Proof.
  intros Hc Ha. destruct (cell_index_Ok c s Hc Ha) as [Hi Hr].
  unfold BoardMask_contains. rewrite Hi, land_bit_eqb by done. apply negb_involutive.
Qed.

(** ** Occupancy fields *)

Definition OccupancyField_ok (f : OccupancyField) : Prop :=
  0 < of_width f /\ 0 < of_height f /\ of_width f * of_height f <= 64 /\
  in_width (of_width f * of_height f) (of_mask f).

Lemma field_mask_ones cells : 0 <= cells <= 64 -> field_mask cells = Z.ones cells.
Proof.
  intros. unfold field_mask. destruct (Z.eqb_spec cells 64) as [->|]; [by rewrite ones_umax|].
  apply low_mask_ones. lia.
Qed.

Lemma OccupancyField_new_Ok w h m f :
  0 <= w -> 0 <= h -> in_width 64 m ->
  OccupancyField_new w h m = Ok f <-> f = mkOccupancyField w h m /\ OccupancyField_ok f.
Proof.
  intros Hw Hh Hm. unfold OccupancyField_new.
  destruct (Z.eqb_spec w 0) as [->|]; [unfold OccupancyField_ok; naive_solver lia|].
  destruct (Z.eqb_spec h 0) as [->|]; [unfold OccupancyField_ok; naive_solver lia|]. simpl.
  destruct (Z.ltb_spec 64 (w * h)); [unfold OccupancyField_ok; naive_solver lia|].
  rewrite field_mask_ones by nia.
  destruct (Z.land m (wnot 64 (Z.ones (w * h))) =? 0) eqn:E; simpl.
  - apply land_wnot_ones_0 in E; [|nia|done]. split; [|naive_solver].
    intros [= <-]. unfold OccupancyField_ok; simpl. repeat split; try lia; apply E.
  - split; [done|]. intros [-> (_ & _ & _ & H')]; simpl in H'.
    apply (land_wnot_ones_0 64) in H'; [|nia|done]. congruence.
Qed.

Lemma bit_index_Ok f x y :
  OccupancyField_ok f -> 0 <= x < of_width f -> 0 <= y < of_height f ->
  OccupancyField_bit_index f x y = Ok (y * of_width f + x) /\ 0 <= y * of_width f + x < 64.
Proof.
  intros (Hw & Hh & Hc & _) Hx Hy.
  assert (0 <= y * of_width f /\ y * of_width f + x < 64) as [? ?] by nia.
  unfold OccupancyField_bit_index.
  rewrite (proj2 (Z.leb_gt _ _)), (proj2 (Z.leb_gt (of_height f) y)) by lia. simpl.
  rewrite (wrap_small 8 (y * of_width f)), wrap_small by (unfold in_width; lia).
  split; [done|lia].
Qed.

Lemma is_occupied_testbit f x y :
  OccupancyField_ok f -> 0 <= x < of_width f -> 0 <= y < of_height f ->
  OccupancyField_is_occupied f x y = Ok (Z.testbit (of_mask f) (y * of_width f + x)).
Proof.
  intros Hf Hx Hy. destruct (bit_index_Ok f x y Hf Hx Hy) as [Hi Hr].
  unfold OccupancyField_is_occupied. rewrite Hi. simpl. rewrite land_bit_eqb by done.
  by rewrite negb_involutive.
Qed.

(** ** The text parser

    [text_filled rows t x] reads the character at row [t] from the top and
    column [x]; [row_bits row base] is the part of a mask that [row] sets when
    its first column has bit position [base]. *)

Definition is_filled (value : Z) : bool := bool_decide (cell_occupied value = Some true).

Definition row_filled (row : list Z) (x : nat) : bool :=
  match row !! x with Some value => is_filled value | None => false end.

Definition text_filled (rows : list (list Z)) (t x : nat) : bool :=
  match rows !! t with Some row => row_filled row x | None => false end.

Definition row_bits (row : list Z) (base i : nat) : bool :=
  (base <=? i)%nat && row_filled row (i - base).

Definition row_valid (width : nat) (row : list Z) : Prop :=
  length row = width /\ Forall (fun value => is_Some (cell_occupied value)) row.

#[export] Instance row_valid_dec width row : Decision (row_valid width row).
Proof. unfold row_valid. apply _. Defined.

Lemma row_bits_cons v row base i :
  row_bits (v :: row) base i = ((i =? base)%nat && is_filled v) || row_bits row (S base) i.
Proof.
  unfold row_bits, row_filled. destruct (Nat.eqb_spec i base) as [->|Hne].
  - rewrite Nat.leb_refl, Nat.sub_diag, (proj2 (Nat.leb_gt (S base) base)) by lia. simpl.
    by rewrite orb_false_r.
  - rewrite andb_false_l, orb_false_l.
    destruct (Nat.leb_spec base i) as [Hle|]; [|by rewrite (proj2 (Nat.leb_gt (S base) i)) by lia].
    rewrite (proj2 (Nat.leb_le (S base) i)) by lia.
    by replace (i - base)%nat with (S (i - S base)) by lia.
Qed.

Lemma row_bits_range row base i :
  row_bits row base i = true -> (base <= i < base + length row)%nat.
Proof.
  unfold row_bits, row_filled. intros H. bool_prop.
  destruct (row !! (i - base)%nat) eqn:E; [|done]. apply lookup_lt_Some in E. lia.
Qed.

Lemma testbit_lor_bit m b i :
  0 <= b < 64 -> Z.testbit (Z.lor m (shl 64 1 b)) i = Z.testbit m i || (i =? b).
Proof. intros. by rewrite Z.lor_spec, testbit_bit. Qed.

Lemma in_width_lor_bit m b : in_width 64 m -> in_width 64 (Z.lor m (shl 64 1 b)).
Proof. width. Qed.

Lemma parse_cells_spec checks w t y c row m :
  (y * w + c + length row <= 64)%nat -> in_width 64 m ->
  Forall (fun value => is_Some (cell_occupied value)) row ->
  exists m', parse_cells checks w t y c row m = Some (Ok m') /\ in_width 64 m' /\
    forall i : nat, Z.testbit m' (Z.of_nat i) =
      Z.testbit m (Z.of_nat i) || row_bits row (y * w + c) i.
Proof.
  revert c m. induction row as [|v row IH]; intros c m Hlen Hm Hv.
  { exists m. split; [done|]. split; [done|]. intros i. unfold row_bits, row_filled.
    by rewrite lookup_nil, andb_false_r, orb_false_r. }
  apply Forall_cons in Hv as [[b Hb] Hv]. simpl in Hlen.
  assert (is_filled v = b) as Hf by (unfold is_filled; rewrite Hb; by destruct b).
  simpl. rewrite Hb. destruct b.
  - rewrite (proj2 (Z.leb_gt 64 _)), andb_false_r by lia.
    destruct (IH (S c) (Z.lor m (shl 64 1 (Z.of_nat (y * w + c))))) as (m' & Hp & Hw & Hb');
      [lia|by apply in_width_lor_bit|done|].
    exists m'. split; [done|]. split; [done|]. intros i.
    rewrite Hb', row_bits_cons, Hf, testbit_lor_bit, Nat.add_succ_r, <- orb_assoc by lia.
    f_equal. f_equal. rewrite andb_true_r.
    destruct (Z.eqb_spec (Z.of_nat i) (Z.of_nat (y * w + c))), (Nat.eqb_spec i (y * w + c)); lia.
  - destruct (IH (S c) m) as (m' & Hp & Hw & Hb'); [lia|done|done|].
    exists m'. split; [done|]. split; [done|]. intros i.
    by rewrite Hb', row_bits_cons, Hf, Nat.add_succ_r, andb_false_r.
Qed.

(** Row [t] of [rows] lands [height - 1 - t] rows above the bottom. *)
Lemma parse_rows_spec checks w h t rows m :
  (t + length rows = h)%nat -> (w * h <= 64)%nat -> in_width 64 m ->
  Forall (row_valid w) rows ->
  exists m', parse_rows checks w h t rows m = Some (Ok m') /\ in_width 64 m' /\
    forall i : nat, Z.testbit m' (Z.of_nat i) = true <->
      Z.testbit m (Z.of_nat i) = true \/
      exists k row, rows !! k = Some row /\ row_bits row ((h - 1 - (t + k)) * w) i = true.
Proof.
  revert t m. induction rows as [|row rows IH]; intros t m Hlen Hc Hm Hv.
  { exists m. split; [done|]. split; [done|]. intros i. split; [by left|].
    intros [?|(k & row & Hk & _)]; [done|]. by rewrite lookup_nil in Hk. }
  apply Forall_cons in Hv as [[Hrow Hvalid] Hv]. simpl in Hlen. simpl.
  rewrite Hrow, Nat.eqb_refl. simpl.
  destruct (parse_cells_spec checks w t (h - 1 - t) 0 row m) as (m1 & -> & Hm1 & Hb1);
    [rewrite Hrow; nia|done|done|].
  destruct (IH (S t) m1) as (m' & -> & Hm' & Hb'); [lia|done|done|done|].
  exists m'. split; [done|]. split; [done|]. intros i. rewrite Hb', Hb1, orb_true_iff, Nat.add_0_r.
  split.
  - intros [[?|?]|(k & r & Hk & Hr)]; [by left|right; exists 0%nat, row|right; exists (S k), r].
    + by rewrite Nat.add_0_r.
    + by rewrite Nat.add_succ_r.
  - intros [?|([|k] & r & Hk & Hr)]; [by left; left|left; right|right; exists k, r].
    + simpl in Hk. injection Hk as ->. by rewrite Nat.add_0_r in Hr.
    + by rewrite Nat.add_succ_r in Hr.
Qed.

Lemma text_bit_unique w h rows x y :
  Forall (row_valid w) rows -> length rows = h -> (x < w)%nat -> (y < h)%nat ->
  (exists k row, rows !! k = Some row /\ row_bits row ((h - 1 - k) * w) (y * w + x) = true) <->
  text_filled rows (h - 1 - y) x = true.
Proof.
  intros Hv Hlen Hx Hy. split.
  - intros (k & row & Hk & Hb). pose proof (row_bits_range _ _ _ Hb) as Hr.
    assert (length row = w) as Hw by (eapply Forall_lookup_1 in Hv; [apply Hv|done]).
    apply lookup_lt_Some in Hk as Hkl. rewrite Hw in Hr.
    assert (h - 1 - k = y)%nat as Heq by nia.
    unfold text_filled. replace (h - 1 - y)%nat with k by lia. rewrite Hk.
    unfold row_bits in Hb. rewrite Heq in Hb. bool_prop.
    by replace (y * w + x - y * w)%nat with x in * by lia.
  - unfold text_filled. destruct (rows !! (h - 1 - y)%nat) as [row|] eqn:Hk; [|done].
    intros Hf. exists (h - 1 - y)%nat, row. split; [done|].
    replace (h - 1 - (h - 1 - y))%nat with y by lia. unfold row_bits.
    rewrite (proj2 (Nat.leb_le _ _)) by lia. by replace (y * w + x - y * w)%nat with x by lia.
Qed.

Lemma parse_text_mask checks rows w :
  rows <> [] -> Forall (row_valid w) rows -> (0 < w)%nat -> (w * length rows <= 64)%nat ->
  exists m,
    let f := mkOccupancyField (Z.of_nat w) (Z.of_nat (length rows)) m in
    parse_top_down_rows checks rows = Some (Ok f) /\ OccupancyField_ok f /\
    forall x y, (x < w)%nat -> (y < length rows)%nat ->
      Z.testbit m (Z.of_nat y * Z.of_nat w + Z.of_nat x) = text_filled rows (length rows - 1 - y) x.
Proof.
  intros Hne Hv Hw Hc. remember (length rows) as h eqn:Hh.
  assert (0 < h)%nat as Hpos by (destruct rows; [done|simpl in Hh; lia]).
  assert (w <= 64 /\ h <= 64)%nat as [Hw64 Hh64] by nia.
  destruct (parse_rows_spec checks w h 0 rows 0) as (m & Hp & Hm & Hb);
    [lia|done|width|done|].
  assert (in_width (Z.of_nat w * Z.of_nat h) m) as Hin.
  { apply in_width_of_bits; [lia|apply Hm|]. intros i Hi.
    destruct (Z.testbit m i) eqn:E; [|done]. exfalso.
    rewrite <- (Z2Nat.id i) in E by lia. apply Hb in E as [E|(k & row & Hk & E)].
    { by rewrite Z.testbit_0_l in E. }
    apply row_bits_range in E. apply lookup_lt_Some in Hk as Hkl.
    assert (length row = w) as Hrw by (eapply Forall_lookup_1 in Hv; [apply Hv|done]).
    nia. }
  exists m. cbv zeta.
  assert (OccupancyField_ok (mkOccupancyField (Z.of_nat w) (Z.of_nat h) m)) as Hok
    by (unfold OccupancyField_ok; simpl; repeat split; try lia; apply Hin).
  split; [|split; [done|]].
  - unfold parse_top_down_rows. destruct rows as [|first rest]; [done|].
    assert (length first = w) as -> by (apply Forall_cons in Hv as [[? _] _]; done).
    rewrite <- Hh, (proj2 (Nat.ltb_ge 255 w)), (proj2 (Nat.ltb_ge 255 h)), Hp by lia.
    rewrite (proj2 (OccupancyField_new_Ok (Z.of_nat w) (Z.of_nat h) m
      (mkOccupancyField (Z.of_nat w) (Z.of_nat h) m) ltac:(lia) ltac:(lia) Hm)); done.
  - intros x y Hx Hy. apply eq_true_iff_eq.
    rewrite <- (text_bit_unique w h) by done.
    replace (Z.of_nat y * Z.of_nat w + Z.of_nat x) with (Z.of_nat (y * w + x)) by lia.
    rewrite Hb, Z.testbit_0_l. naive_solver.
Qed.

(** A text field whose rows have one width, hold only the characters of
    the alphabet and describe at most 64 cells is parsed without error or
    panic, in builds with and without overflow checks, into a well-formed
    field of that width and height; reading back the cell at column [x] and
    internal row [y] gives exactly the character [height - 1 - y] rows from the
    top. *)
Theorem parse_top_down_rows_correct (checks : bool) (rows : list (list Z)) (w : nat)
    (Hne : rows <> []) (Hrows : Forall (row_valid w) rows) (Hw : (0 < w)%nat)
    (Hcells : (w * length rows <= 64)%nat) :
  exists f, parse_top_down_rows checks rows = Some (Ok f) /\ OccupancyField_ok f /\
    of_width f = Z.of_nat w /\ of_height f = Z.of_nat (length rows) /\
    forall x y, (x < w)%nat -> (y < length rows)%nat ->
      OccupancyField_is_occupied f (Z.of_nat x) (Z.of_nat y) =
        Ok (text_filled rows (length rows - 1 - y) x).
Proof.
  destruct (parse_text_mask checks rows w Hne Hrows Hw Hcells) as (m & Hp & Hok & Hb).
  eexists. split; [exact Hp|]. split; [exact Hok|]. split; [done|]. split; [done|].
  intros x y Hx Hy. rewrite is_occupied_testbit by (done || (simpl; lia)). simpl. by rewrite Hb.
Qed.

Definition text_rows (l : list String.string) : list (list Z) :=
  (fun s => chr <$> list_ascii_of_string s) <$> l.

Lemma parse_top_down_rows_correct_witness :
  exists f, parse_top_down_rows true (text_rows ["#.."%string; "##."%string]) = Some (Ok f) /\
    OccupancyField_is_occupied f 1 0 = Ok true /\ OccupancyField_is_occupied f 1 1 = Ok false.
Proof.
  destruct (parse_top_down_rows_correct true (text_rows ["#.."%string; "##."%string]) 3) as (f & Hp & _ & _ & _ & Hb).
  - done.
  - decided.
  - lia.
  - simpl. lia.
  - exists f. split; [done|]. split; [apply (Hb 1%nat 0%nat)|apply (Hb 1%nat 1%nat)]; simpl; lia.
Defined.

(** The text of a field, top row first. *)
Definition render_rows (f : OccupancyField) : list (list Z) :=
  (fun t => (fun x => if Z.testbit (of_mask f) ((of_height f - 1 - Z.of_nat t) * of_width f + Z.of_nat x)
                      then chr "#" else chr ".") <$> seq 0 (Z.to_nat (of_width f)))
  <$> seq 0 (Z.to_nat (of_height f)).

Lemma render_rows_valid f : Forall (row_valid (Z.to_nat (of_width f))) (render_rows f).
Proof.
  unfold render_rows. apply Forall_fmap, Forall_true. intros t. split.
  - by rewrite length_fmap, length_seq.
  - apply Forall_fmap, Forall_true. intros x. simpl. case_match; by eexists.
Qed.

Lemma render_rows_filled f t x :
  (t < Z.to_nat (of_height f))%nat -> (x < Z.to_nat (of_width f))%nat ->
  text_filled (render_rows f) t x =
    Z.testbit (of_mask f) ((of_height f - 1 - Z.of_nat t) * of_width f + Z.of_nat x).
Proof.
  intros Ht Hx. unfold text_filled, render_rows.
  rewrite list_lookup_fmap, lookup_seq_lt by done. simpl. unfold row_filled.
  rewrite list_lookup_fmap, lookup_seq_lt by done. simpl. by case_match.
Qed.

(** Printing a well-formed occupancy field as text, top row first, and
    parsing the text gives back the same field. *)
Theorem text_field_roundtrip (checks : bool) (f : OccupancyField) (Hf : OccupancyField_ok f) :
  parse_top_down_rows checks (render_rows f) = Some (Ok f).
Proof.
  pose proof Hf as (Hw & Hh & Hc & Hm).
  assert (length (render_rows f) = Z.to_nat (of_height f)) as Hlen
    by (unfold render_rows; by rewrite length_fmap, length_seq).
  destruct (parse_text_mask checks (render_rows f) (Z.to_nat (of_width f))) as (m & -> & Hok & Hb).
  - intros H. rewrite H in Hlen. simpl in Hlen. lia.
  - apply render_rows_valid.
  - lia.
  - rewrite Hlen. nia.
  - rewrite Hlen, !Z2Nat.id in * by lia. do 2 f_equal. destruct f as [w h mask]; simpl in *.
    f_equal. apply (word_ext (w * h)); [apply Hok|done|]. intros i Hi.
    assert (0 <= i / w < h /\ 0 <= i mod w < w) as [? ?].
    { split; [|apply Z.mod_pos_bound; lia].
      split; [apply Z.div_pos; lia|apply Z.div_lt_upper_bound; lia]. }
    specialize (Hb (Z.to_nat (i mod w)) (Z.to_nat (i / w)) ltac:(lia) ltac:(lia)).
    rewrite !Z2Nat.id in Hb by lia. rewrite render_rows_filled in Hb by (simpl; lia). simpl in Hb.
    replace (i / w * w + i mod w) with i in Hb by (pose proof (Z.div_mod i w); lia).
    rewrite Hb. f_equal. pose proof (Z.div_mod i w). nia.
Qed.

Lemma text_field_roundtrip_witness :
  parse_top_down_rows false (render_rows (mkOccupancyField 3 2 11)) = Some (Ok (mkOccupancyField 3 2 11)).
Proof. apply text_field_roundtrip. unfold OccupancyField_ok, in_width; simpl; lia. Defined.

(** ** Fields past 64 cells: the shift comes before the size check *)

Lemma parse_cells_unchecked w t y c row m :
  Forall (fun value => is_Some (cell_occupied value)) row ->
  exists m', parse_cells false w t y c row m = Some (Ok m').
Proof.
  revert c m. induction row as [|v row IH]; intros c m Hv; [by eexists|].
  apply Forall_cons in Hv as [[[] Hb] Hv]; simpl; rewrite Hb; by apply IH.
Qed.

Lemma parse_cells_panic w t y c row m :
  Forall (fun value => is_Some (cell_occupied value)) row ->
  parse_cells true w t y c row m = None <->
  exists k, row_filled row k = true /\ (64 <= y * w + c + k)%nat.
Proof.
  revert c m. induction row as [|v row IH]; intros c m Hv.
  { split; [done|]. intros (k & Hk & _). unfold row_filled in Hk. by rewrite lookup_nil in Hk. }
  apply Forall_cons in Hv as [[b Hb] Hv].
  assert (row_filled (v :: row) 0 = b) as H0
    by (unfold row_filled, is_filled; simpl; rewrite Hb; by destruct b).
  assert ((exists k, row_filled (v :: row) k = true /\ (64 <= y * w + c + k)%nat) <->
          (b = true /\ (64 <= y * w + c)%nat) \/
          exists k, row_filled row k = true /\ (64 <= y * w + S c + k)%nat) as Hex.
  { split.
    - intros ([|k] & Hk & Hr); [left; split; [congruence|lia]|right; exists k; split; [done|lia]].
    - intros [[-> Hr]|(k & Hk & Hr)]; [exists 0%nat; split; [done|lia]|exists (S k); split; [done|lia]]. }
  rewrite Hex. simpl. rewrite Hb. destruct b; simpl.
  - destruct (Z.leb_spec 64 (Z.of_nat (y * w + c))) as [Hr|Hr].
    + split; [intros _; left; split; [done|lia]|done].
    + rewrite IH by done. split; [by right|]. intros [[_ ?]|?]; [lia|done].
  - rewrite IH by done. split; [by right|]. intros [[? _]|?]; done.
Qed.

Lemma parse_rows_unchecked w h t rows m :
  Forall (row_valid w) rows -> exists m', parse_rows false w h t rows m = Some (Ok m').
Proof.
  revert t m. induction rows as [|row rows IH]; intros t m Hv; [by eexists|].
  apply Forall_cons in Hv as [[Hlen Hrow] Hv]. simpl. rewrite Hlen, Nat.eqb_refl. simpl.
  destruct (parse_cells_unchecked w t (h - 1 - t) 0 row m Hrow) as [m' ->]. by apply IH.
Qed.

Lemma parse_rows_checked_err w h t rows m :
  Forall (row_valid w) rows ->
  (exists m', parse_rows true w h t rows m = Some (Ok m')) \/ parse_rows true w h t rows m = None.
Proof.
  revert t m. induction rows as [|row rows IH]; intros t m Hv; [left; by eexists|].
  apply Forall_cons in Hv as [[Hlen Hrow] Hv]. simpl. rewrite Hlen, Nat.eqb_refl. simpl.
  assert (forall c m0, (exists m', parse_cells true w t (h - 1 - t) c row m0 = Some (Ok m')) \/
                       parse_cells true w t (h - 1 - t) c row m0 = None) as Hc.
  { clear -Hrow. induction Hrow as [|v row [[] Hb] Hrow IH]; intros c m0; simpl; [left; by eexists| |];
      rewrite Hb; [case_match|]; auto. }
  destruct (Hc 0%nat m) as [[m' ->]| ->]; [by apply IH|by right].
Qed.

Lemma parse_rows_panic w h t rows m :
  Forall (row_valid w) rows ->
  parse_rows true w h t rows m = None <->
  exists k row x, rows !! k = Some row /\ row_filled row x = true /\
    (64 <= (h - 1 - (t + k)) * w + x)%nat.
Proof.
  revert t m. induction rows as [|row rows IH]; intros t m Hv.
  { split; [done|]. intros (k & row & x & Hk & _). by rewrite lookup_nil in Hk. }
  apply Forall_cons in Hv as [[Hlen Hrow] Hv]. simpl. rewrite Hlen, Nat.eqb_refl. simpl.
  pose proof (parse_cells_panic w t (h - 1 - t) 0 row m Hrow) as Hp.
  destruct (parse_cells true w t (h - 1 - t) 0 row m) as [[m'|e]|] eqn:Hc.
  - rewrite IH by done. split.
    + intros (k & r & x & ? & ? & ?). exists (S k), r, x. rewrite Nat.add_succ_r. done.
    + intros ([|k] & r & x & Hk & Hf & Hr).
      * exfalso. simpl in Hk. injection Hk as ->. rewrite Nat.add_0_r in Hr.
        by assert (@Some (Result TextFieldParserError Z) (Ok m') = None)
          by (apply Hp; exists x; split; [done|lia]).
      * rewrite Nat.add_succ_r in Hr. by exists k, r, x.
  - exfalso. destruct (parse_rows_checked_err w h t [row] m) as [[m' E]|E]; [by repeat constructor| |];
      simpl in E; rewrite Hlen, Nat.eqb_refl, Hc in E; done.
  - split; [intros _|done]. destruct (proj1 Hp eq_refl) as (x & Hf & Hr).
    exists 0%nat, row, x. rewrite Nat.add_0_r. split; [done|]. split; [done|lia].
Qed.

(** C36: Text that describes more than 64 cells.  A build without overflow
    checks always reports [Board64LimitExceeded]; a build with overflow checks
    reports the same error only when no filled cell lies at bit 64 or above,
    and panics otherwise, because [1_u64 << bit] is evaluated before
    [OccupancyField::new] rejects the size. *)
Theorem parse_oversized_text (rows : list (list Z)) (w : nat)
    (Hrows : Forall (row_valid w) rows) (Hsmall : (w <= 255)%nat /\ (length rows <= 255)%nat)
    (Hcells : (64 < w * length rows)%nat) :
  let limit := Occupancy (Board64LimitExceeded (Z.of_nat w * Z.of_nat (length rows))) in
  parse_top_down_rows false rows = Some (Err limit) /\
  (parse_top_down_rows true rows = None <->
    exists t x, text_filled rows t x = true /\ (64 <= (length rows - 1 - t) * w + x)%nat) /\
  (parse_top_down_rows true rows <> None -> parse_top_down_rows true rows = Some (Err limit)).
Proof.
  destruct rows as [|first rest] eqn:Hr; [simpl in Hcells; lia|].
  assert (length first = w) as Hw by (apply Forall_cons in Hrows as [[? _] _]; done).
  unfold parse_top_down_rows. rewrite Hw. rewrite <- Hr in *. remember (length rows) as h eqn:Hh.
  rewrite (proj2 (Nat.ltb_ge 255 w)), (proj2 (Nat.ltb_ge 255 h)) by lia.
  assert (forall m, OccupancyField_new (Z.of_nat w) (Z.of_nat h) m =
    Err (Board64LimitExceeded (Z.of_nat w * Z.of_nat h))) as Hnew.
  { intros m. unfold OccupancyField_new.
    rewrite (proj2 (Z.eqb_neq (Z.of_nat w) 0)), (proj2 (Z.eqb_neq (Z.of_nat h) 0)) by nia. simpl.
    by rewrite (proj2 (Z.ltb_lt 64 _)) by lia. }
  destruct (parse_rows_unchecked w h 0 rows 0 Hrows) as [m ->]. rewrite Hnew. split; [done|].
  pose proof (parse_rows_panic w h 0 rows 0 Hrows) as Hp.
  assert ((exists k row x, rows !! k = Some row /\ row_filled row x = true /\ (64 <= (h - 1 - (0 + k)) * w + x)%nat) <->
    (exists t x, text_filled rows t x = true /\ (64 <= (h - 1 - t) * w + x)%nat)) as Hex.
  { unfold text_filled. split.
    - intros (k & row & x & Hk & ? & ?). exists k, x. by rewrite Hk.
    - intros (t & x & Ht & ?). destruct (rows !! t) eqn:E; [|done]. by exists t, l, x. }
  rewrite <- Hex, <- Hp.
  destruct (parse_rows_checked_err w h 0 rows 0 Hrows) as [[m' ->]| ->]; [rewrite Hnew|]; done.
Qed.

Lemma parse_oversized_text_witness :
  let rows := text_rows (repeat "#........."%string 7) in
  parse_top_down_rows false rows = Some (Err (Occupancy (Board64LimitExceeded 70))) /\
  parse_top_down_rows true (text_rows (repeat "......#..."%string 7)) = None.
Proof.
  split.
  - destruct (parse_oversized_text (text_rows (repeat "#........."%string 7)) 10) as (H & _ & _);
      [decided|simpl; lia|simpl; lia|exact H].
  - destruct (parse_oversized_text (text_rows (repeat "......#..."%string 7)) 10) as (_ & H & _);
      [decided|simpl; lia|simpl; lia|].
    apply H. exists 0%nat, 6%nat. split; [done|]. simpl. lia.
Defined.

(** [OccupancyField::new] on [u8] dimensions and a [u64] mask: it accepts
    exactly the masks that stay inside a non-empty field of at most 64 cells,
    and each error names the check that failed, in the order the code makes
    them. *)
Theorem OccupancyField_new_spec (w h m : Z)
    (Hw : in_width 8 w) (Hh : in_width 8 h) (Hm : in_width 64 m) :
  match OccupancyField_new w h m with
  | Ok f => f = mkOccupancyField w h m /\ OccupancyField_ok f
  | Err EmptyDimensions => w = 0 \/ h = 0
  | Err (Board64LimitExceeded cells) => cells = w * h /\ 0 < w /\ 0 < h /\ 64 < cells
  | Err (MaskOutsideField m' fm) =>
      m' = m /\ fm = 2 ^ (w * h) - 1 /\ 0 < w * h <= 64 /\
      exists i, w * h <= i < 64 /\ Z.testbit m i = true
  | Err (CoordinateOutOfBounds _ _) => False
  end.
Proof.
  destruct Hw as [Hw _], Hh as [Hh _].
  pose proof (fun f => OccupancyField_new_Ok w h m f Hw Hh Hm) as HOk.
  unfold OccupancyField_new in *. destruct (Z.eqb_spec w 0); [by left|].
  destruct (Z.eqb_spec h 0); [by right|]. simpl in *.
  destruct (Z.ltb_spec 64 (w * h)); [lia|].
  rewrite field_mask_ones in * by nia.
  destruct (Z.land m (wnot 64 (Z.ones (w * h))) =? 0) eqn:E; simpl in *; [by apply HOk|].
  split; [done|]. split; [rewrite ones_umax; done|]. split; [nia|].
  destruct (decide (Exists (fun i : nat => Z.testbit m (Z.of_nat i) = true /\ w * h <= Z.of_nat i) (seq 0 64)))
    as [Hex|Hno].
  - apply Exists_exists in Hex as (i & Hi & Hb & Hr). apply elem_of_seq in Hi.
    exists (Z.of_nat i). split; [lia|done].
  - exfalso. apply not_true_iff_false in E. apply E, land_wnot_ones_0; [nia|done|].
    apply in_width_of_bits; [nia|apply Hm|]. intros i Hi.
    destruct (Z.testbit m i) eqn:Hb; [|done]. exfalso. apply Hno, Exists_exists.
    assert (i < 64) by (destruct (Z.lt_ge_cases i 64); [done|by rewrite (in_width_testbit 64) in Hb]).
    exists (Z.to_nat i). rewrite elem_of_seq, Z2Nat.id by nia. split; [nia|done].
Qed.

Lemma OccupancyField_new_spec_witness :
  match OccupancyField_new 10 4 (2 ^ 40) with
  | Err (MaskOutsideField _ fm) => fm = 2 ^ 40 - 1
  | _ => False
  end.
Proof.
  generalize (OccupancyField_new_spec 10 4 (2 ^ 40)). unfold in_width. vm_compute OccupancyField_new.
  intros H. destruct H as (_ & H & _); [lia|lia|lia|exact H].
Defined.

(** The one-word masks are the subsets of the cells of a board of at most
    64 cells: a cell's singleton is accepted and contains that cell and no
    other, and union, difference and the intersection test act cell by cell. *)
Theorem board_mask_cell_sets (s : BoardSize) (a b : BoardMask) (c : CellCoord)
    (Hs : BoardSize_area s <= 64) (Ha : BoardMask_ok a) (Hb : BoardMask_ok b) (Hc : cell_in s c) :
  (exists m, BoardMask_from_cell c s = Ok m /\ BoardMask_ok m /\
     forall c', cell_in s c' -> BoardMask_contains m c' s = true <-> c' = c) /\
  BoardMask_contains (BoardMask_union a b) c s = BoardMask_contains a c s || BoardMask_contains b c s /\
  BoardMask_contains (BoardMask_without a b) c s = BoardMask_contains a c s && negb (BoardMask_contains b c s) /\
  (BoardMask_contains a c s = true -> BoardMask_contains b c s = true -> BoardMask_intersects a b = true).
Proof.
  destruct (cell_index_Ok c s Hc Hs) as [Hi Hr]. rewrite !BoardMask_contains_testbit by done.
  split; [|split; [|split]].
  - exists (mkBoardMask (shl 64 1 (cell_y c * bs_width s + cell_x c))).
    unfold BoardMask_from_cell. rewrite Hi. split; [done|].
    split; [apply in_width_shl; lia|]. intros c' Hc'.
    rewrite BoardMask_contains_testbit by done. simpl. rewrite testbit_bit, Z.eqb_eq by done.
    split; [intros Heq; by apply (cell_index_inj s)|by intros ->].
  - apply Z.lor_spec.
  - simpl. rewrite Z.land_spec, testbit_wnot by (done || lia).
    by rewrite (proj2 (Z.leb_le _ _)), (proj2 (Z.ltb_lt _ _)) by lia.
  - intros H1 H2. unfold BoardMask_intersects. apply negb_true_iff, not_true_iff_false.
    rewrite land_eqb_0. intros H. by rewrite H in H2.
Qed.

Lemma board_mask_cell_sets_witness :
  BoardMask_contains (BoardMask_union (mkBoardMask 5) (mkBoardMask 8)) (mkCellCoord 3 0) (mkBoardSize 10 6) = true.
Proof.
  destruct (board_mask_cell_sets (mkBoardSize 10 6) (mkBoardMask 5) (mkBoardMask 8) (mkCellCoord 3 0))
    as (_ & H & _); [decided|split; simpl; lia|split; simpl; lia|split; simpl; lia|].
  rewrite H. reflexivity.
Defined.
