(* ===== verification/PcBoard.v ===== *)
(** * Boards of up to 24 rows

    [clearra-core-domain], [board/standard_pc_board.rs] and
    [board/extended_pc_state_masks.rs]: the four-word [Board256Mask], the mask
    type whose storage follows the number of lines, and the bit sets of the
    extended search states. *)

From Stdlib Require Import ZArith Lia Btauto.
From stdpp Require Import prelude.
From S2P Require Import Prelude Words.
Open Scope Z_scope.

Definition STANDARD_PC_BOARD_WIDTH : Z := 10.
Definition STANDARD_PC_COMPACT_MAX_LINES : Z := 6.
Definition STANDARD_PC_EXTENDED_MIN_LINES : Z := STANDARD_PC_COMPACT_MAX_LINES + 1.
Definition STANDARD_PC_MAX_LINES : Z := 24.
Definition BOARD256_WORD_COUNT : Z := 4.

(** ** [Board256Mask] *)

(** The [[u64; 4]] array of the mask; [m !!! i] is an array access, which
    every use below makes with an index under four. *)
Record Board256Mask := mkBoard256Mask { b256_words : list Z }.

Inductive Board256MaskError :=
| CellCountOutOfRange (cell_count : Z)
| CellOutOfRange (cell_index : Z)
| RowOutOfRange (y height : Z)
| Board256MaskOutsideField (cell_count : Z).

Definition Board256Mask_EMPTY : Board256Mask := mkBoard256Mask (replicate 4 0).

Definition validate_cell_count (cell_count : Z) : Result Board256MaskError () :=
  if (cell_count =? 0) || (BOARD256_WORD_COUNT * 64 <? cell_count)
  then Err (CellCountOutOfRange cell_count)
  else Ok ().

(** [words[..n].fill(v)]. *)
Definition fill_prefix (n : nat) (v : Z) (words : list Z) : list Z :=
  replicate n v ++ drop n words.

Definition Board256Mask_all_cells (cell_count : Z) : Result Board256MaskError Board256Mask :=
  validate_cell_count cell_count ;?
  let full_words := Z.to_nat (cell_count / 64) in
  let tail_bits := cell_count mod 64 in
  let words := fill_prefix full_words (umax 64) (replicate 4 0) in
  Ok (mkBoard256Mask
        (if negb (tail_bits =? 0) then <[full_words := shl 64 1 tail_bits - 1]> words else words)).

Definition Board256Mask_singleton (cell_index : Z) : Result Board256MaskError Board256Mask :=
  if BOARD256_WORD_COUNT * 64 <=? cell_index then Err (CellOutOfRange cell_index)
  else Ok (mkBoard256Mask (<[Z.to_nat (cell_index / 64) := shl 64 1 (cell_index mod 64)]> (replicate 4 0))).

Definition Board256Mask_union (a b : Board256Mask) : Board256Mask :=
  let a := b256_words a in let b := b256_words b in
  mkBoard256Mask [Z.lor (a !!! 0%nat) (b !!! 0%nat); Z.lor (a !!! 1%nat) (b !!! 1%nat);
                  Z.lor (a !!! 2%nat) (b !!! 2%nat); Z.lor (a !!! 3%nat) (b !!! 3%nat)].

Definition Board256Mask_without (a b : Board256Mask) : Board256Mask :=
  let a := b256_words a in let b := b256_words b in
  mkBoard256Mask [Z.land (a !!! 0%nat) (wnot 64 (b !!! 0%nat)); Z.land (a !!! 1%nat) (wnot 64 (b !!! 1%nat));
                  Z.land (a !!! 2%nat) (wnot 64 (b !!! 2%nat)); Z.land (a !!! 3%nat) (wnot 64 (b !!! 3%nat))].

Definition Board256Mask_intersects (a b : Board256Mask) : bool :=
  let a := b256_words a in let b := b256_words b in
  negb (Z.land (a !!! 0%nat) (b !!! 0%nat) =? 0) || negb (Z.land (a !!! 1%nat) (b !!! 1%nat) =? 0) ||
  negb (Z.land (a !!! 2%nat) (b !!! 2%nat) =? 0) || negb (Z.land (a !!! 3%nat) (b !!! 3%nat) =? 0).

Definition Board256Mask_is_empty (a : Board256Mask) : bool :=
  let a := b256_words a in
  (a !!! 0%nat =? 0) && (a !!! 1%nat =? 0) && (a !!! 2%nat =? 0) && (a !!! 3%nat =? 0).

Definition Board256Mask_count_ones (a : Board256Mask) : nat :=
  let a := b256_words a in
  (count_ones (a !!! 0%nat) + count_ones (a !!! 1%nat) + count_ones (a !!! 2%nat) + count_ones (a !!! 3%nat))%nat.

Definition Board256Mask_contains_index (a : Board256Mask) (cell_index : Z) : bool :=
  if 256 <=? cell_index then false
  else
    let word := b256_words a !!! Z.to_nat (cell_index / 64) in
    negb (Z.land word (shl 64 1 (cell_index mod 64)) =? 0).

(** [for x in xs { acc = step(acc, x)?; }]. *)
Fixpoint try_fold {E A B} (step : B -> A -> Result E B) (acc : B) (xs : list A) : Result E B :=
  match xs with
  | [] => Ok acc
  | x :: xs => let? acc := step acc x in try_fold step acc xs
  end.

Definition Board256Mask_row (width height y : Z) : Result Board256MaskError Board256Mask :=
  let? cell_count := ok_or (checked_mul 16 width height) (CellCountOutOfRange (umax 16)) in
  validate_cell_count cell_count ;?
  if height <=? y then Err (RowOutOfRange y height)
  else
    let start := y * width in
    try_fold (fun row offset =>
                let? cell := Board256Mask_singleton (start + offset) in
                Ok (Board256Mask_union row cell))
      Board256Mask_EMPTY (seqZ 0 width).

Definition Board256Mask_fits_cell_count (a : Board256Mask) (cell_count : Z) : Result Board256MaskError bool :=
  let? allowed := Board256Mask_all_cells cell_count in
  Ok (Board256Mask_is_empty (Board256Mask_without a allowed)).

(** The body of the inner loop: [words[target / 64] |= 1 << (target % 64)]. *)
Definition mirror_cell (a : Board256Mask) (width y : Z) (words : list Z) (x : Z) : list Z :=
  let source := y * width + x in
  if negb (Board256Mask_contains_index a source) then words
  else
    let target := y * width + (width - x - 1) in
    let i := Z.to_nat (target / 64) in
    <[i := Z.lor (words !!! i) (shl 64 1 (target mod 64))]> words.

Definition Board256Mask_mirrored_horizontally (a : Board256Mask) (width height : Z)
    : Result Board256MaskError Board256Mask :=
  let? cell_count := ok_or (checked_mul 16 width height) (CellCountOutOfRange (umax 16)) in
  validate_cell_count cell_count ;?
  let? fits := (if width =? 0 then Ok false else Board256Mask_fits_cell_count a cell_count) in
  if (width =? 0) || negb fits then Err (Board256MaskOutsideField cell_count)
  else
    Ok (mkBoard256Mask
          (foldl (fun words y => foldl (mirror_cell a width y) words (seqZ 0 width))
             (replicate 4 0) (seqZ 0 height))).

(** ** Boards whose storage follows the line count *)

Inductive StandardPcBoardStorageKind := Board64 | Board128 | Board256.

Inductive StandardPcBoardError :=
| ZeroLines
| TooManyLines (lines maximum : Z)
| MaskOutsideBoard (lines : Z)
| Mask (error : Board256MaskError).

Definition StorageKind_for_lines (lines : Z) : Result StandardPcBoardError StandardPcBoardStorageKind :=
  if (1 <=? lines) && (lines <=? STANDARD_PC_COMPACT_MAX_LINES) then Ok Board64
  else if (STANDARD_PC_EXTENDED_MIN_LINES <=? lines) && (lines <=? 12) then Ok Board128
  else if (13 <=? lines) && (lines <=? STANDARD_PC_MAX_LINES) then Ok Board256
  else if lines =? 0 then Err ZeroLines
  else Err (TooManyLines lines STANDARD_PC_MAX_LINES).

Definition StorageKind_cpu_word_count (k : StandardPcBoardStorageKind) : Z :=
  match k with Board64 => 1 | Board128 => 2 | Board256 => 4 end.

Inductive StandardPcBoardMask :=
| MaskBoard64 (mask : Z)
| MaskBoard128 (mask : Z)
| MaskBoard256 (mask : Board256Mask).

Definition StandardPcBoardMask_from_words (lines : Z) (words : list Z)
    : Result StandardPcBoardError StandardPcBoardMask :=
  let? storage := StorageKind_for_lines lines in
  let cell_count := lines * STANDARD_PC_BOARD_WIDTH in
  let mask := mkBoard256Mask words in
  let? fits := rmap_err Mask (Board256Mask_fits_cell_count mask cell_count) in
  if negb fits then Err (MaskOutsideBoard lines)
  else Ok (match storage with
           | Board64 => MaskBoard64 (words !!! 0%nat)
           | Board128 => MaskBoard128 (Z.lor (words !!! 0%nat) (shl 128 (words !!! 1%nat) 64))
           | Board256 => MaskBoard256 mask
           end).

Definition StandardPcBoardMask_storage_kind (m : StandardPcBoardMask) : StandardPcBoardStorageKind :=
  match m with
  | MaskBoard64 _ => Board64
  | MaskBoard128 _ => Board128
  | MaskBoard256 _ => Board256
  end.

Definition StandardPcBoardMask_words (m : StandardPcBoardMask) : list Z :=
  match m with
  | MaskBoard64 mask => [mask; 0; 0; 0]
  | MaskBoard128 mask => [wrap 64 mask; wrap 64 (Z.shiftr mask 64); 0; 0]
  | MaskBoard256 mask => b256_words mask
  end.

Definition StandardPcBoardMask_compact_board64 (m : StandardPcBoardMask) : option Z :=
  match m with
  | MaskBoard64 mask => Some mask
  | MaskBoard128 _ | MaskBoard256 _ => None
  end.

Definition StandardPcBoardMask_count_ones (m : StandardPcBoardMask) : nat :=
  match m with
  | MaskBoard64 mask => count_ones mask
  | MaskBoard128 mask => count_ones mask
  | MaskBoard256 mask => Board256Mask_count_ones mask
  end.

Record StandardPcBoard := mkStandardPcBoard {
  pb_lines : Z;
  pb_occupied : StandardPcBoardMask
}.

Definition StandardPcBoard_from_words (lines : Z) (words : list Z)
    : Result StandardPcBoardError StandardPcBoard :=
  let? occupied := StandardPcBoardMask_from_words lines words in
  Ok (mkStandardPcBoard lines occupied).

Definition StandardPcBoard_empty (lines : Z) : Result StandardPcBoardError StandardPcBoard :=
  StandardPcBoard_from_words lines (replicate 4 0).

Definition StandardPcBoard_cell_count (b : StandardPcBoard) : Z :=
  pb_lines b * STANDARD_PC_BOARD_WIDTH.

Definition StandardPcBoard_is_compact_board64 (b : StandardPcBoard) : bool :=
  match pb_occupied b with MaskBoard64 _ => true | _ => false end.

(** ** Extended search states: deleted rows and remaining operations *)

Definition EXTENDED_PC_MAX_PLACEMENTS : Z := (STANDARD_PC_BOARD_WIDTH * STANDARD_PC_MAX_LINES) / 4.

Record ExtendedPcDeletedRowMask := mkDeletedRowMask { drm_bits : Z }.
Record ExtendedPcOperationBitSet := mkOperationBitSet { obs_bits : Z }.

Inductive ExtendedPcStateMaskError :=
| CompactLinesRequireLegacyContract (target_lines : Z)
| ExtendedTooManyLines (target_lines maximum : Z)
| DeletedRowOutsideTarget (target_lines bits : Z)
| TooManyOperations (operation_count maximum : Z)
| OperationOutsideLayout (operation_count bits : Z)
| OperationIndexOutOfRange (operation_index operation_count : Z).

Definition validate_extended_lines (target_lines : Z) : Result ExtendedPcStateMaskError () :=
  if target_lines <? STANDARD_PC_EXTENDED_MIN_LINES
  then Err (CompactLinesRequireLegacyContract target_lines)
  else if STANDARD_PC_MAX_LINES <? target_lines
  then Err (ExtendedTooManyLines target_lines STANDARD_PC_MAX_LINES)
  else Ok ().

Definition validate_operation_count (operation_count : Z) : Result ExtendedPcStateMaskError () :=
  if EXTENDED_PC_MAX_PLACEMENTS <? operation_count
  then Err (TooManyOperations operation_count EXTENDED_PC_MAX_PLACEMENTS)
  else Ok ().

Definition low_u32_mask (bit_count : Z) : Z :=
  if bit_count =? 32 then umax 32 else shl 32 1 bit_count - 1.

Definition low_u64_mask (bit_count : Z) : Z :=
  if bit_count =? 64 then umax 64
  else if bit_count =? 0 then 0
  else shl 64 1 bit_count - 1.

Definition DeletedRowMask_from_bits (target_lines bits : Z)
    : Result ExtendedPcStateMaskError ExtendedPcDeletedRowMask :=
  validate_extended_lines target_lines ;?
  if negb (Z.land bits (wnot 32 (low_u32_mask target_lines)) =? 0)
  then Err (DeletedRowOutsideTarget target_lines bits)
  else Ok (mkDeletedRowMask bits).

Definition DeletedRowMask_contains (m : ExtendedPcDeletedRowMask) (row : Z) : bool :=
  (row <? 32) && negb (Z.land (drm_bits m) (shl 32 1 row) =? 0).

Definition DeletedRowMask_count (m : ExtendedPcDeletedRowMask) : nat := count_ones (drm_bits m).

Definition OperationBitSet_all (operation_count : Z)
    : Result ExtendedPcStateMaskError ExtendedPcOperationBitSet :=
  validate_operation_count operation_count ;?
  Ok (mkOperationBitSet (low_u64_mask operation_count)).

Definition OperationBitSet_from_bits (operation_count bits : Z)
    : Result ExtendedPcStateMaskError ExtendedPcOperationBitSet :=
  validate_operation_count operation_count ;?
  if negb (Z.land bits (wnot 64 (low_u64_mask operation_count)) =? 0)
  then Err (OperationOutsideLayout operation_count bits)
  else Ok (mkOperationBitSet bits).

Definition OperationBitSet_contains (m : ExtendedPcOperationBitSet) (operation_index : Z) : bool :=
  (operation_index <? 64) && negb (Z.land (obs_bits m) (shl 64 1 operation_index) =? 0).

Definition OperationBitSet_without (m : ExtendedPcOperationBitSet) (operation_count operation_index : Z)
    : Result ExtendedPcStateMaskError ExtendedPcOperationBitSet :=
  validate_operation_count operation_count ;?
  if operation_count <=? operation_index
  then Err (OperationIndexOutOfRange operation_index operation_count)
  else Ok (mkOperationBitSet (Z.land (obs_bits m) (wnot 64 (shl 64 1 operation_index)))).

Definition OperationBitSet_count (m : ExtendedPcOperationBitSet) : nat := count_ones (obs_bits m).

(** ** Reading a four-word mask bit by bit *)

Definition Board256Mask_ok (a : Board256Mask) : Prop :=
  length (b256_words a) = 4%nat /\ Forall (in_width 64) (b256_words a).

Definition b256_bit (a : Board256Mask) (i : Z) : bool :=
  (0 <=? i) && (i <? 256) && Z.testbit (b256_words a !!! Z.to_nat (i / 64)) (i mod 64).

Lemma b256_ok_of w0 w1 w2 w3 :
  in_width 64 w0 -> in_width 64 w1 -> in_width 64 w2 -> in_width 64 w3 ->
  Board256Mask_ok (mkBoard256Mask [w0; w1; w2; w3]).
Proof. intros. split; [done|]. by repeat (apply Forall_cons_2; [done|]). Qed.

Lemma b256_destruct a : Board256Mask_ok a ->
  exists w0 w1 w2 w3, a = mkBoard256Mask [w0; w1; w2; w3] /\
    in_width 64 w0 /\ in_width 64 w1 /\ in_width 64 w2 /\ in_width 64 w3.
Proof.
  destruct a as [[|w0 [|w1 [|w2 [|w3 [|]]]]]]; intros [Hl Hw]; simpl in Hl; try done.
  simpl in Hw. rewrite !Forall_cons in Hw. exists w0, w1, w2, w3. naive_solver.
Qed.

(** The word and bit a cell index below 256 selects. *)
Lemma cell_word_cases i :
  0 <= i < 256 ->
  0 <= i mod 64 < 64 /\ i = 64 * (i / 64) + i mod 64 /\
  (i / 64 = 0 \/ i / 64 = 1 \/ i / 64 = 2 \/ i / 64 = 3).
Proof.
  intros Hi. pose proof (Z.mod_pos_bound i 64 ltac:(lia)).
  pose proof (Z.div_mod i 64 ltac:(lia)).
  assert (0 <= i / 64 < 4) by (split; [apply Z.div_pos; lia|apply Z.div_lt_upper_bound; lia]). lia.
Qed.

Lemma cell_word_inj i j : i / 64 = j / 64 -> i mod 64 = j mod 64 -> i = j.
Proof. intros. pose proof (Z.div_mod i 64). pose proof (Z.div_mod j 64). lia. Qed.

Lemma b256_bit_out a i : i < 0 \/ 256 <= i -> b256_bit a i = false.
Proof.
  unfold b256_bit. intros [?|?];
    [rewrite (proj2 (Z.leb_gt 0 i)) by lia|rewrite (proj2 (Z.ltb_ge i 256)) by lia]; btauto.
Qed.

Lemma b256_bit_in a i :
  0 <= i < 256 -> b256_bit a i = Z.testbit (b256_words a !!! Z.to_nat (i / 64)) (i mod 64).
Proof. intros. unfold b256_bit. by rewrite (proj2 (Z.leb_le 0 i)), (proj2 (Z.ltb_lt i 256)) by lia. Qed.

(** Case analysis on the word a cell lies in, with the accesses evaluated. *)
Ltac cell_words i :=
  let H := fresh "Hword" in
  destruct (cell_word_cases i) as (? & ? & H); [lia|];
  destruct H as [H|[H|[H|H]]]; rewrite ?H; simpl.

Lemma b256_ext a b :
  Board256Mask_ok a -> Board256Mask_ok b ->
  (forall i, 0 <= i < 256 -> b256_bit a i = b256_bit b i) -> a = b.
Proof.
  intros Ha Hb H. destruct (b256_destruct a Ha) as (a0 & a1 & a2 & a3 & -> & ? & ? & ? & ?).
  destruct (b256_destruct b Hb) as (b0 & b1 & b2 & b3 & -> & ? & ? & ? & ?).
  assert (forall k j, 0 <= k < 4 -> 0 <= j < 64 ->
    Z.testbit ([a0; a1; a2; a3] !!! Z.to_nat k) j = Z.testbit ([b0; b1; b2; b3] !!! Z.to_nat k) j) as Hk.
  { intros k j ? ?. specialize (H (64 * k + j) ltac:(lia)). rewrite !b256_bit_in in H by lia.
    rewrite (Z.mul_comm 64), Z.div_add_l, Z.div_small, Z.add_0_r, Z.add_comm, Z.mod_add, Z.mod_small in H
      by lia. exact H. }
  f_equal. f_equal; [|f_equal; [|f_equal; [|f_equal]]]; apply (word_ext 64); try done; intros j Hj.
  - apply (Hk 0); lia.
  - apply (Hk 1); lia.
  - apply (Hk 2); lia.
  - apply (Hk 3); lia.
Qed.

Lemma contains_index_bit a i : 0 <= i -> Board256Mask_contains_index a i = b256_bit a i.
Proof.
  intros Hi. unfold Board256Mask_contains_index. destruct (Z.leb_spec 256 i).
  - rewrite b256_bit_out by lia. done.
  - rewrite b256_bit_in, land_bit_eqb by (try apply Z.mod_pos_bound; lia). apply negb_involutive.
Qed.

Lemma union_bit a b i : b256_bit (Board256Mask_union a b) i = b256_bit a i || b256_bit b i.
Proof.
  unfold b256_bit. destruct (decide (0 <= i < 256)); [|destruct (Z.leb_spec 0 i), (Z.ltb_spec i 256); simpl; lia || done].
  rewrite (proj2 (Z.leb_le 0 i)), (proj2 (Z.ltb_lt i 256)) by lia. simpl andb. unfold Board256Mask_union.
  cell_words i; apply Z.lor_spec.
Qed.

Lemma without_bit a b i :
  Board256Mask_ok b ->
  b256_bit (Board256Mask_without a b) i = b256_bit a i && negb (b256_bit b i).
Proof.
  intros Hb. destruct (decide (0 <= i < 256)); [|rewrite !b256_bit_out by lia; done].
  rewrite !b256_bit_in by done. destruct (b256_destruct b Hb) as (b0 & b1 & b2 & b3 & -> & ? & ? & ? & ?).
  unfold Board256Mask_without.
  cell_words i; rewrite Z.land_spec, testbit_wnot by (done || lia);
    by rewrite (proj2 (Z.leb_le 0 _)), (proj2 (Z.ltb_lt _ 64)) by lia.
Qed.

Lemma union_ok a b : Board256Mask_ok a -> Board256Mask_ok b -> Board256Mask_ok (Board256Mask_union a b).
Proof.
  intros Ha Hb. destruct (b256_destruct a Ha) as (a0 & a1 & a2 & a3 & -> & ? & ? & ? & ?).
  destruct (b256_destruct b Hb) as (b0 & b1 & b2 & b3 & -> & ? & ? & ? & ?).
  apply b256_ok_of; width.
Qed.

Lemma without_ok a b : Board256Mask_ok a -> Board256Mask_ok b -> Board256Mask_ok (Board256Mask_without a b).
Proof.
  intros Ha Hb. destruct (b256_destruct a Ha) as (a0 & a1 & a2 & a3 & -> & ? & ? & ? & ?).
  destruct (b256_destruct b Hb) as (b0 & b1 & b2 & b3 & -> & ? & ? & ? & ?).
  apply b256_ok_of; apply in_width_land; try apply in_width_wnot; (done || lia).
Qed.

Lemma is_empty_bits a :
  Board256Mask_ok a ->
  Board256Mask_is_empty a = true <-> forall i, 0 <= i < 256 -> b256_bit a i = false.
Proof.
  intros Ha. pose proof Ha as Ha'. destruct (b256_destruct a Ha') as (a0 & a1 & a2 & a3 & -> & ? & ? & ? & ?).
  unfold Board256Mask_is_empty. simpl. rewrite !andb_true_iff, !Z.eqb_eq. split.
  - intros [[[-> ->] ->] ->] i Hi. rewrite b256_bit_in by done. cell_words i; apply Z.testbit_0_l.
  - intros H'. assert (mkBoard256Mask [a0; a1; a2; a3] = Board256Mask_EMPTY) as Heq.
    { apply b256_ext; [done| |].
      - apply b256_ok_of; width.
      - intros i Hi. rewrite H' by done. rewrite b256_bit_in by done. cell_words i; by rewrite Z.testbit_0_l. }
    injection Heq as -> -> -> ->. done.
Qed.

Lemma EMPTY_ok : Board256Mask_ok Board256Mask_EMPTY.
Proof. apply b256_ok_of; width. Qed.

Lemma EMPTY_bit i : b256_bit Board256Mask_EMPTY i = false.
Proof.
  destruct (decide (0 <= i < 256)); [|apply b256_bit_out; lia].
  rewrite b256_bit_in by done. cell_words i; apply Z.testbit_0_l.
Qed.

Lemma all_cells_spec n :
  0 < n <= 256 ->
  exists m, Board256Mask_all_cells n = Ok m /\ Board256Mask_ok m /\
    forall i, b256_bit m i = (0 <=? i) && (i <? n).
Proof.
  intros Hn. unfold Board256Mask_all_cells, validate_cell_count.
  rewrite (proj2 (Z.eqb_neq n 0)), (proj2 (Z.ltb_ge (BOARD256_WORD_COUNT * 64) n)) by (unfold BOARD256_WORD_COUNT; lia).
  simpl. pose proof (Z.mod_pos_bound n 64 ltac:(lia)) as Ht. pose proof (Z.div_mod n 64 ltac:(lia)) as Hd.
  assert (n / 64 = 0 \/ n / 64 = 1 \/ n / 64 = 2 \/ n / 64 = 3 \/ n / 64 = 4) as Hk by lia.
  rewrite low_mask_ones, <- ones_umax by done.
  assert (in_width 64 (Z.ones 64)) as Ho by width.
  assert (in_width 64 0) as Hz by width.
  assert (in_width 64 (Z.ones (n mod 64))) as Hot
    by (apply (in_width_mono (n mod 64)); [lia|apply in_width_ones; lia]).
  eexists; split; [done|]. split.
  - destruct (Z.eqb_spec (n mod 64) 0); simpl;
      destruct Hk as [->|[->|[->|[->| ->]]]]; simpl; (lia || by apply b256_ok_of).
  - intros i. destruct (decide (0 <= i < 256)); cycle 1.
    { rewrite b256_bit_out by lia. destruct (Z.leb_spec 0 i), (Z.ltb_spec i n); simpl; lia || done. }
    rewrite b256_bit_in, (proj2 (Z.leb_le 0 i)) by lia. simpl.
    destruct (Z.eqb_spec (n mod 64) 0), (Z.ltb_spec i n); simpl;
      destruct Hk as [Hk|[Hk|[Hk|[Hk|Hk]]]]; rewrite Hk; simpl;
      cell_words i; rewrite ?testbit_ones, ?Z.testbit_0_l by lia; try lia;
      rewrite ?(proj2 (Z.leb_le 0 (i mod 64))) by lia; simpl;
      first [apply Z.ltb_lt; lia | apply Z.ltb_ge; lia | lia].
Qed.

Lemma fits_cell_count_spec a n :
  Board256Mask_ok a -> 0 < n <= 256 ->
  exists b, Board256Mask_fits_cell_count a n = Ok b /\
    (b = true <-> forall i, b256_bit a i = true -> i < n).
Proof.
  intros Ha Hn. destruct (all_cells_spec n Hn) as (m & Hm & Hok & Hb).
  unfold Board256Mask_fits_cell_count. rewrite Hm. simpl. eexists; split; [done|].
  rewrite is_empty_bits by (by apply without_ok). split.
  - intros H i Hi. destruct (Z.lt_ge_cases i n) as [|Hge]; [done|].
    destruct (decide (0 <= i < 256)); [|rewrite b256_bit_out in Hi by lia; done].
    specialize (H i ltac:(done)). rewrite without_bit, Hi, Hb, (proj2 (Z.ltb_ge i n)) in H by done.
    by rewrite andb_false_r in H.
  - intros H i Hi. rewrite without_bit, Hb by done. destruct (b256_bit a i) eqn:E; [|done].
    rewrite (proj2 (Z.leb_le 0 i)), (proj2 (Z.ltb_lt i n)) by (apply H in E; lia). done.
Qed.

(** Setting one bit of a word array. *)
Lemma set_bit_spec words t :
  Board256Mask_ok (mkBoard256Mask words) -> 0 <= t < 256 ->
  let i := Z.to_nat (t / 64) in
  let words' := <[i := Z.lor (words !!! i) (shl 64 1 (t mod 64))]> words in
  Board256Mask_ok (mkBoard256Mask words') /\
  forall j, b256_bit (mkBoard256Mask words') j = b256_bit (mkBoard256Mask words) j || (j =? t).
Proof.
  intros Hok Ht. destruct (cell_word_cases t Ht) as (Hm & Hd & Hk).
  destruct (b256_destruct _ Hok) as (a0 & a1 & a2 & a3 & [= ->] & H0 & H1 & H2 & H3).
  assert (in_width 64 (shl 64 1 (t mod 64))) as Hs by width.
  split.
  - destruct Hk as [->|[->|[->| ->]]]; simpl; apply b256_ok_of; try done; by apply in_width_lor.
  - intros j. destruct (decide (0 <= j < 256)); cycle 1.
    { rewrite !b256_bit_out by lia. destruct (Z.eqb_spec j t); [lia|done]. }
    rewrite !b256_bit_in by done. cbn [b256_words].
    destruct Hk as [Hk|[Hk|[Hk|Hk]]]; rewrite Hk; simpl; cell_words j;
      rewrite ?Z.lor_spec, ?testbit_bit by done;
      try (replace (j =? t) with false by (symmetry; apply Z.eqb_neq; congruence); btauto);
      f_equal; destruct (Z.eqb_spec (j mod 64) (t mod 64)), (Z.eqb_spec j t); lia || (subst; done).
Qed.

Lemma singleton_spec t :
  0 <= t < 256 ->
  exists m, Board256Mask_singleton t = Ok m /\ Board256Mask_ok m /\
    forall j, b256_bit m j = (j =? t).
Proof.
  intros Ht. unfold Board256Mask_singleton.
  rewrite (proj2 (Z.leb_gt (BOARD256_WORD_COUNT * 64) t)) by (unfold BOARD256_WORD_COUNT; lia).
  destruct (set_bit_spec (replicate 4 0) t EMPTY_ok Ht) as [Hok Hb].
  assert (replicate 4 0 !!! Z.to_nat (t / 64) = 0) as Hz
    by (destruct (cell_word_cases t Ht) as (_ & _ & [->|[->|[->| ->]]]); done).
  rewrite Hz, Z.lor_0_l in Hok, Hb. eexists; split; [done|]. split; [done|].
  intros j. rewrite Hb. change (mkBoard256Mask (replicate 4 0)) with Board256Mask_EMPTY.
  by rewrite EMPTY_bit.
Qed.

(** ** Rows and the horizontal mirror *)

Lemma row_fold_spec start offs acc :
  Board256Mask_ok acc -> Forall (fun o => 0 <= start + o < 256) offs ->
  exists m,
    try_fold (fun row offset =>
                let? cell := Board256Mask_singleton (start + offset) in
                Ok (Board256Mask_union row cell)) acc offs = Ok m /\
    Board256Mask_ok m /\
    forall j, b256_bit m j = true <-> b256_bit acc j = true \/ (j - start) ∈ offs.
Proof.
  revert acc. induction offs as [|o offs IH]; intros acc Hacc Ho.
  { exists acc. split; [done|]. split; [done|]. intros j. rewrite elem_of_nil. naive_solver. }
  apply Forall_cons in Ho as [Ho Hos].
  destruct (singleton_spec (start + o) Ho) as (c & Hc & Hcok & Hcb). simpl. rewrite Hc. simpl.
  destruct (IH (Board256Mask_union acc c)) as (m & -> & Hm & Hb); [by apply union_ok|done|].
  exists m. split; [done|]. split; [done|]. intros j.
  rewrite Hb, union_bit, orb_true_iff, Hcb, Z.eqb_eq, elem_of_cons.
  assert (j = start + o <-> j - start = o) by lia. tauto.
Qed.

Lemma row_spec w h y :
  0 < w -> 0 < h -> w * h <= 256 -> 0 <= y < h ->
  exists m, Board256Mask_row w h y = Ok m /\ Board256Mask_ok m /\
    forall j, b256_bit m j = true <-> y * w <= j < y * w + w.
Proof.
  intros Hw Hh Hc Hy. unfold Board256Mask_row, checked_mul, validate_cell_count.
  rewrite (proj2 (Z.ltb_lt (w * h) (2 ^ 16))) by lia. simpl.
  rewrite (proj2 (Z.eqb_neq (w * h) 0)), (proj2 (Z.ltb_ge (BOARD256_WORD_COUNT * 64) (w * h)))
    by (unfold BOARD256_WORD_COUNT; nia).
  simpl. rewrite (proj2 (Z.leb_gt h y)) by lia.
  destruct (row_fold_spec (y * w) (seqZ 0 w) Board256Mask_EMPTY EMPTY_ok) as (m & Hm & Hok & Hb).
  { apply Forall_forall. intros o Ho%elem_of_seqZ. nia. }
  exists m. split; [done|]. split; [done|]. intros j. rewrite Hb, EMPTY_bit, elem_of_seqZ. naive_solver lia.
Qed.

Lemma mirror_row_fold a w y xs words :
  Board256Mask_ok (mkBoard256Mask words) ->
  Forall (fun x => 0 <= y * w + x /\ 0 <= y * w + (w - x - 1) < 256) xs ->
  let words' := foldl (mirror_cell a w y) words xs in
  Board256Mask_ok (mkBoard256Mask words') /\
  forall j, b256_bit (mkBoard256Mask words') j = true <->
    b256_bit (mkBoard256Mask words) j = true \/
    exists x, x ∈ xs /\ b256_bit a (y * w + x) = true /\ j = y * w + (w - x - 1).
Proof.
  revert words. induction xs as [|x xs IH]; intros words Hok Hx.
  { split; [done|]. intros j. simpl. setoid_rewrite elem_of_nil. naive_solver. }
  apply Forall_cons in Hx as [[Hs Ht] Hxs]. cbn [foldl].
  unfold mirror_cell at 2 4. rewrite contains_index_bit by done.
  setoid_rewrite elem_of_cons.
  destruct (b256_bit a (y * w + x)) eqn:E; simpl.
  - destruct (set_bit_spec words _ Hok Ht) as [Hok' Hb'].
    destruct (IH _ Hok' Hxs) as [Hok'' Hb'']. split; [done|]. intros j.
    rewrite Hb'', Hb', orb_true_iff, Z.eqb_eq. clear -E. split.
    + intros [[?| ->]|(x' & ? & ?)]; [by left|right; exists x; tauto|right; exists x'; tauto].
    + intros [?|(x' & [->|?] & ? & ?)]; [by left; left|by left; right|right; by exists x'].
  - destruct (IH _ Hok Hxs) as [Hok'' Hb'']. split; [done|]. intros j. rewrite Hb''. clear -E. split.
    + intros [?|(x' & ? & ?)]; [by left|right; exists x'; tauto].
    + intros [?|(x' & [->|?] & ? & ?)]; [by left|congruence|right; by exists x'].
Qed.

Lemma mirror_rows_fold a w h ys words :
  0 < w -> w * h <= 256 -> Board256Mask_ok (mkBoard256Mask words) ->
  Forall (fun y => 0 <= y < h) ys ->
  let words' := foldl (fun words y => foldl (mirror_cell a w y) words (seqZ 0 w)) words ys in
  Board256Mask_ok (mkBoard256Mask words') /\
  forall j, b256_bit (mkBoard256Mask words') j = true <->
    b256_bit (mkBoard256Mask words) j = true \/
    exists y x, y ∈ ys /\ 0 <= x < w /\ b256_bit a (y * w + x) = true /\ j = y * w + (w - x - 1).
Proof.
  intros Hw Hc. revert words. induction ys as [|y ys IH]; intros words Hok Hy.
  { split; [done|]. intros j. simpl. setoid_rewrite elem_of_nil. naive_solver. }
  apply Forall_cons in Hy as [Hy Hys]. cbn [foldl].
  destruct (mirror_row_fold a w y (seqZ 0 w) words Hok) as [Hok' Hb'].
  { apply Forall_forall. intros x Hx%elem_of_seqZ. nia. }
  destruct (IH _ Hok' Hys) as [Hok'' Hb'']. split; [done|]. intros j.
  rewrite Hb'', Hb'. setoid_rewrite elem_of_cons. setoid_rewrite elem_of_seqZ. split.
  - intros [[?|(x & Hx & ?)]|(y' & x & ? & ?)]; [by left| |right; exists y', x; tauto].
    right. exists y, x. split; [by left|]. split; [lia|done].
  - intros [?|(y' & x & [->|?] & Hx & ?)]; [by left; left| |right; exists y', x; tauto].
    left. right. exists x. split; [lia|done].
Qed.

(** The cell a mirror image comes from, on a board of width [w]. *)
Definition mirror_index (w j : Z) : Z := j / w * w + (w - 1 - j mod w).

Lemma mirror_index_spec w h j :
  0 < w -> 0 <= j < w * h ->
  0 <= j / w < h /\ 0 <= j mod w < w /\ j = j / w * w + j mod w /\
  0 <= mirror_index w j < w * h.
Proof.
  intros Hw Hj. pose proof (Z.mod_pos_bound j w Hw). pose proof (Z.div_mod j w ltac:(lia)).
  assert (0 <= j / w < h) by (split; [apply Z.div_pos; lia|apply Z.div_lt_upper_bound; lia]).
  unfold mirror_index. repeat split; try lia; nia.
Qed.

Lemma mirror_index_invol w h j : 0 < w -> 0 <= j < w * h -> mirror_index w (mirror_index w j) = j.
Proof.
  intros Hw Hj. destruct (mirror_index_spec w h j Hw Hj) as (? & ? & Hd & _).
  unfold mirror_index at 1.
  assert (mirror_index w j / w = j / w) as ->
    by (symmetry; apply (Z.div_unique _ _ _ (w - 1 - j mod w)); unfold mirror_index; lia).
  assert (mirror_index w j mod w = w - 1 - j mod w) as ->
    by (symmetry; apply (Z.mod_unique _ _ (j / w)); unfold mirror_index; lia).
  lia.
Qed.

Lemma mirrored_spec a w h :
  Board256Mask_ok a -> 0 < w -> 0 < h -> w * h <= 256 ->
  (forall i, b256_bit a i = true -> i < w * h) ->
  exists m, Board256Mask_mirrored_horizontally a w h = Ok m /\ Board256Mask_ok m /\
    forall j, b256_bit m j = (0 <=? j) && (j <? w * h) && b256_bit a (mirror_index w j).
Proof.
  intros Ha Hw Hh Hc Hfit. unfold Board256Mask_mirrored_horizontally, checked_mul, validate_cell_count.
  rewrite (proj2 (Z.ltb_lt (w * h) (2 ^ 16))) by lia. simpl.
  rewrite (proj2 (Z.eqb_neq (w * h) 0)), (proj2 (Z.ltb_ge (BOARD256_WORD_COUNT * 64) (w * h)))
    by (unfold BOARD256_WORD_COUNT; nia). simpl.
  rewrite (proj2 (Z.eqb_neq w 0)) by lia.
  destruct (fits_cell_count_spec a (w * h) Ha ltac:(nia)) as (b & Hb & Hiff).
  rewrite Hb. simpl. rewrite (proj2 Hiff) by done. simpl.
  destruct (mirror_rows_fold a w h (seqZ 0 h) (replicate 4 0) Hw Hc EMPTY_ok) as [Hok Hbits].
  { apply Forall_forall. intros y Hy%elem_of_seqZ. lia. }
  eexists; split; [done|]. split; [done|]. intros j. apply eq_true_iff_eq.
  rewrite Hbits. change (mkBoard256Mask (replicate 4 0)) with Board256Mask_EMPTY.
  rewrite EMPTY_bit, !andb_true_iff, Z.leb_le, Z.ltb_lt. setoid_rewrite elem_of_seqZ. split.
  - intros [?|(y & x & Hy & Hx & Hsrc & ->)]; [done|]. split; [nia|].
    unfold mirror_index.
    assert ((y * w + (w - x - 1)) / w = y) as -> by (symmetry; apply (Z.div_unique _ _ _ (w - x - 1)); lia).
    assert ((y * w + (w - x - 1)) mod w = w - x - 1) as -> by (symmetry; apply (Z.mod_unique _ _ y); lia).
    by replace (w - 1 - (w - x - 1)) with x by lia.
  - intros [Hj Hsrc]. right. destruct (mirror_index_spec w h j Hw Hj) as (? & ? & Hd & _).
    exists (j / w), (w - 1 - j mod w). repeat split; try lia. exact Hsrc.
Qed.

(** ** Counting *)

Definition b256_positions (a : Board256Mask) : list Z := filter (fun i => b256_bit a i) (seqZ 0 256).

Lemma NoDup_positions a : NoDup (b256_positions a).
Proof. apply NoDup_filter, NoDup_seqZ. Qed.

Lemma elem_of_positions a i : i ∈ b256_positions a <-> b256_bit a i = true.
Proof.
  unfold b256_positions. rewrite list_elem_of_filter, elem_of_seqZ, Is_true_true.
  split; [tauto|]. intros H. split; [done|].
  destruct (decide (0 <= i < 256)); [lia|]. rewrite b256_bit_out in H by lia. done.
Qed.

Lemma segment_count a k :
  Board256Mask_ok a -> (k < 4)%nat ->
  length (filter (fun i => b256_bit a i) (seqZ (64 * Z.of_nat k) 64)) = count_ones (b256_words a !!! k).
Proof.
  intros [Hl Hw] Hk.
  assert (in_width (Z.of_nat 64) (b256_words a !!! k)) as Hin.
  { eapply Forall_lookup_1; [exact Hw|]. apply list_lookup_lookup_total_lt. lia. }
  rewrite (count_ones_bits 64) by done. unfold seqZ, bits.
  rewrite (filter_fmap_bool _ (b256_bit a)), length_fmap. f_equal.
  change (Z.to_nat 64) with 64%nat. apply filter_ext_bool. intros i Hi%elem_of_seq.
  rewrite b256_bit_in by lia.
  replace (Z.of_nat i + 64 * Z.of_nat k) with (Z.of_nat i + Z.of_nat k * 64) by lia.
  rewrite Z.div_add, Z.mod_add, Z.div_small, Z.mod_small by lia.
  by rewrite Z.add_0_l, Nat2Z.id.
Qed.

Lemma b256_count_positions a :
  Board256Mask_ok a -> Board256Mask_count_ones a = length (b256_positions a).
Proof.
  intros Ha. unfold b256_positions.
  assert (seqZ 0 256 = seqZ (64 * Z.of_nat 0) 64 ++ seqZ (64 * Z.of_nat 1) 64 ++
                       seqZ (64 * Z.of_nat 2) 64 ++ seqZ (64 * Z.of_nat 3) 64) as -> by reflexivity.
  rewrite !filter_app, !length_app, !segment_count by (done || lia).
  unfold Board256Mask_count_ones. lia.
Qed.

(** [m] is the mirror image of [a] on a [w] by [h] board. *)
Definition mirror_of (w h : Z) (a m : Board256Mask) : Prop :=
  forall j, b256_bit m j = (0 <=? j) && (j <? w * h) && b256_bit a (mirror_index w j).

Lemma mirror_of_at w h a m j :
  0 <= j < w * h -> mirror_of w h a m -> b256_bit m j = b256_bit a (mirror_index w j).
Proof. intros Hj H. by rewrite H, (proj2 (Z.leb_le 0 j)), (proj2 (Z.ltb_lt j (w * h))) by lia. Qed.

Lemma b256_bit_nonneg a i : b256_bit a i = true -> 0 <= i.
Proof. intros H. destruct (Z.lt_ge_cases i 0); [by rewrite b256_bit_out in H by lia|done]. Qed.

Lemma mirror_of_sym w h a m :
  0 < w -> (forall i, b256_bit a i = true -> i < w * h) -> mirror_of w h a m -> mirror_of w h m a.
Proof.
  intros Hw Hin Hm i. destruct (decide (0 <= i < w * h)) as [Hr|Hr].
  - pose proof (mirror_index_spec w h i Hw Hr) as (_ & _ & _ & Hmr).
    rewrite (mirror_of_at w h a m), (mirror_index_invol w h) by done.
    by rewrite (proj2 (Z.leb_le 0 i)), (proj2 (Z.ltb_lt i (w * h))) by lia.
  - destruct (b256_bit a i) eqn:E.
    + pose proof (Hin i E). apply b256_bit_nonneg in E. lia.
    + destruct (Z.leb_spec 0 i), (Z.ltb_spec i (w * h)); simpl; done || lia.
Qed.

Lemma mirror_of_count w h a m :
  Board256Mask_ok a -> Board256Mask_ok m -> 0 < w ->
  (forall i, b256_bit a i = true -> i < w * h) -> mirror_of w h a m ->
  Board256Mask_count_ones m = Board256Mask_count_ones a.
Proof.
  intros Ha Hok Hw Hin Hm.
  assert (forall i, b256_bit m i = true -> 0 <= i < w * h) as Hin'
    by (intros i Hi; rewrite Hm in Hi; bool_prop; lia).
  rewrite !b256_count_positions, <- (length_fmap (mirror_index w) (b256_positions m)) by done.
  apply Permutation_length, NoDup_Permutation; [|apply NoDup_positions|].
  - apply NoDup_fmap_2_strong; [|apply NoDup_positions]. intros i j Hi Hj Heq.
    apply elem_of_positions, Hin' in Hi. apply elem_of_positions, Hin' in Hj.
    by rewrite <- (mirror_index_invol w h i), Heq, (mirror_index_invol w h j) by lia.
  - intros i. rewrite list_elem_of_fmap, elem_of_positions. setoid_rewrite elem_of_positions. split.
    + intros (j & -> & Hj). pose proof (Hin' j Hj). by rewrite <- (mirror_of_at w h a m).
    + intros Hi. assert (0 <= i < w * h) as Hr by (split; [by apply (b256_bit_nonneg a)|by apply Hin]).
      pose proof (mirror_index_spec w h i Hw Hr) as (_ & _ & _ & Hmr).
      exists (mirror_index w i). by rewrite (mirror_of_at w h a m), (mirror_index_invol w h) by done.
Qed.

(** Reflecting a board of at most 256 cells.  For a mask inside the board,
    [mirrored_horizontally] succeeds, moves the cell at column [x] of every row
    to column [width - 1 - x], keeps the number of occupied cells, and undoes
    itself. *)
Theorem mirror_involution (a : Board256Mask) (w h : Z)
    (Ha : Board256Mask_ok a) (Hw : 0 < w) (Hh : 0 < h) (Hcells : w * h <= 256)
    (Hfits : Board256Mask_fits_cell_count a (w * h) = Ok true) :
  exists m, Board256Mask_mirrored_horizontally a w h = Ok m /\
    (forall x y, 0 <= x < w -> 0 <= y < h ->
       Board256Mask_contains_index m (y * w + (w - 1 - x)) = Board256Mask_contains_index a (y * w + x)) /\
    Board256Mask_count_ones m = Board256Mask_count_ones a /\
    Board256Mask_mirrored_horizontally m w h = Ok a.
Proof.
  destruct (fits_cell_count_spec a (w * h) Ha ltac:(nia)) as (b & Hb & Hiff).
  assert (b = true) as -> by congruence. pose proof (proj1 Hiff eq_refl) as Hin. clear Hiff Hb.
  destruct (mirrored_spec a w h Ha Hw Hh Hcells Hin) as (m & Hm & Hok & Hbit).
  assert (forall i, b256_bit m i = true -> i < w * h) as Hin'
    by (intros i Hi; rewrite Hbit in Hi; bool_prop; lia).
  destruct (mirrored_spec m w h Hok Hw Hh Hcells Hin') as (m2 & Hm2 & Hok2 & Hbit2).
  exists m. split; [done|]. split; [|split; [by apply (mirror_of_count w h)|]].
  - intros x y Hx Hy. rewrite !contains_index_bit, (mirror_of_at w h a m) by (done || nia).
    f_equal. unfold mirror_index.
    assert ((y * w + (w - 1 - x)) / w = y) as -> by (symmetry; apply (Z.div_unique _ _ _ (w - 1 - x)); lia).
    assert ((y * w + (w - 1 - x)) mod w = w - 1 - x) as -> by (symmetry; apply (Z.mod_unique _ _ y); lia).
    lia.
  - rewrite Hm2. f_equal. apply b256_ext; [done|done|]. intros i _.
    by rewrite Hbit2, (mirror_of_sym w h a m Hw Hin Hbit).
Qed.

Lemma mirror_involution_witness :
  exists m, Board256Mask_mirrored_horizontally (mkBoard256Mask [5; 0; 0; 0]) 10 8 = Ok m /\
    Board256Mask_mirrored_horizontally m 10 8 = Ok (mkBoard256Mask [5; 0; 0; 0]).
Proof.
  destruct (mirror_involution (mkBoard256Mask [5; 0; 0; 0]) 10 8) as (m & H1 & _ & _ & H2).
  - apply b256_ok_of; split; lia.
  - lia.
  - lia.
  - lia.
  - reflexivity.
  - by exists m.
Defined.

Lemma intersects_bits a b :
  Board256Mask_ok a -> Board256Mask_ok b ->
  Board256Mask_intersects a b = true <-> exists i, b256_bit a i = true /\ b256_bit b i = true.
Proof.
  intros Ha Hb. destruct (b256_destruct a Ha) as (a0 & a1 & a2 & a3 & -> & ? & ? & ? & ?).
  destruct (b256_destruct b Hb) as (b0 & b1 & b2 & b3 & -> & ? & ? & ? & ?).
  assert (forall (k : nat) (x y : Z), (k < 4)%nat -> [a0; a1; a2; a3] !!! k = x -> [b0; b1; b2; b3] !!! k = y ->
    in_width 64 x -> negb (Z.land x y =? 0) = true ->
    exists i, b256_bit (mkBoard256Mask [a0; a1; a2; a3]) i = true /\ b256_bit (mkBoard256Mask [b0; b1; b2; b3]) i = true)
    as Hword.
  { intros k x y Hk Hx Hy Hr Hne. apply negb_true_iff, Z.eqb_neq in Hne.
    assert (Z.testbit (Z.land x y) (Z.log2 (Z.land x y)) = true) as Hbit
      by (apply Z.bit_log2; pose proof (proj2 (Z.land_nonneg x y) (or_introl (proj1 Hr))); lia).
    set (j := Z.log2 (Z.land x y)) in *. rewrite Z.land_spec in Hbit. apply andb_true_iff in Hbit as [H1' H2'].
    assert (0 <= j < 64) as Hj.
    { split; [apply Z.log2_nonneg|]. destruct (Z.lt_ge_cases j 64); [done|].
      by rewrite (in_width_testbit 64 x) in H1'. }
    exists (j + Z.of_nat k * 64).
    rewrite !b256_bit_in, Z.div_add, Z.mod_add, Z.div_small, Z.mod_small, Z.add_0_l, Nat2Z.id by lia.
    cbn [b256_words]. by rewrite Hx, Hy. }
  unfold Board256Mask_intersects. cbn [b256_words]. split.
  - rewrite !orb_true_iff. intros [[[Hi|Hi]|Hi]|Hi];
      [apply (Hword 0%nat _ _) in Hi|apply (Hword 1%nat _ _) in Hi
      |apply (Hword 2%nat _ _) in Hi|apply (Hword 3%nat _ _) in Hi]; (done || lia).
  - intros (i & Hi1 & Hi2).
    assert (0 <= i < 256) as Hi
      by (destruct (decide (0 <= i < 256)); [done|]; rewrite b256_bit_out in Hi1 by lia; done).
    rewrite !b256_bit_in in * by done.
    assert (forall x y j, Z.testbit x j = true -> Z.testbit y j = true -> negb (Z.land x y =? 0) = true) as Hne.
    { intros x y j Hx Hy. apply negb_true_iff, not_true_iff_false. rewrite land_eqb_0. intros Hd. rewrite Hd in Hy; done. }
    destruct (cell_word_cases i Hi) as (_ & _ & [Hk|[Hk|[Hk|Hk]]]); rewrite Hk in *; simpl in *;
      rewrite (Hne _ _ _ Hi1 Hi2); btauto.
Qed.

(** The four-word masks are the subsets of 256 cells.  Membership after
    [union] and [without] is computed cell by cell, [intersects] and [is_empty]
    decide whether a common cell and whether any cell exists, [all_cells n] holds
    the first [n] cells, [row] the cells of one row, and [count_ones] is the
    number of members. *)
Theorem board256_cell_sets (a b : Board256Mask) (Ha : Board256Mask_ok a) (Hb : Board256Mask_ok b) :
  let mem m i := Board256Mask_contains_index m i in
  (forall i, 0 <= i -> mem (Board256Mask_union a b) i = mem a i || mem b i) /\
  (forall i, 0 <= i -> mem (Board256Mask_without a b) i = mem a i && negb (mem b i)) /\
  (Board256Mask_intersects a b = true <-> exists i, 0 <= i /\ mem a i = true /\ mem b i = true) /\
  (Board256Mask_is_empty a = true <-> forall i, 0 <= i -> mem a i = false) /\
  (forall n, 0 < n <= 256 -> exists m, Board256Mask_all_cells n = Ok m /\ forall i, 0 <= i -> mem m i = (i <? n)) /\
  (forall w h y, 0 < w -> 0 < h -> w * h <= 256 -> 0 <= y < h ->
     exists m, Board256Mask_row w h y = Ok m /\ forall i, 0 <= i -> mem m i = true <-> i / w = y) /\
  Board256Mask_count_ones a = length (filter (fun i => mem a i) (seqZ 0 256)).
Proof.
  cbv zeta. repeat split.
  - intros i Hi. rewrite !contains_index_bit by done. apply union_bit.
  - intros i Hi. rewrite !contains_index_bit by done. by apply without_bit.
  - intros (i & Hi1 & Hi2)%intersects_bits; [|done|done]. pose proof (b256_bit_nonneg a i Hi1).
    exists i. by rewrite !contains_index_bit.
  - intros (i & Hi & H1 & H2). apply intersects_bits; [done|done|]. exists i.
    by rewrite <- !contains_index_bit.
  - intros He i Hi. rewrite contains_index_bit by done. destruct (decide (i < 256)).
    + apply is_empty_bits; [done|done|lia].
    + apply b256_bit_out. lia.
  - intros He. apply is_empty_bits; [done|]. intros i Hi. rewrite <- contains_index_bit by lia. apply He. lia.
  - intros n Hn. destruct (all_cells_spec n Hn) as (m & Hm & _ & Hbit). exists m. split; [done|].
    intros i Hi. rewrite contains_index_bit, Hbit, (proj2 (Z.leb_le 0 i)) by lia. done.
  - intros w h y Hw Hh Hc Hy. destruct (row_spec w h y Hw Hh Hc Hy) as (m & Hm & _ & Hbit).
    exists m. split; [done|]. intros i Hi. rewrite contains_index_bit, Hbit by done. split.
    + intros Hr. symmetry. apply (Z.div_unique _ _ _ (i - y * w)); lia.
    + intros <-. pose proof (Z.div_mod i w). pose proof (Z.mod_pos_bound i w). lia.
  - rewrite b256_count_positions by done. unfold b256_positions. f_equal. apply filter_ext_bool.
    intros i Hi%elem_of_seqZ. by rewrite contains_index_bit by lia.
Qed.

Lemma board256_cell_sets_witness :
  Board256Mask_contains_index
    (Board256Mask_without (mkBoard256Mask [7; 1; 0; 0]) (mkBoard256Mask [2; 0; 0; 0])) 64 = true.
Proof.
  destruct (board256_cell_sets (mkBoard256Mask [7; 1; 0; 0]) (mkBoard256Mask [2; 0; 0; 0]))
    as (_ & H & _); [apply b256_ok_of; split; lia|apply b256_ok_of; split; lia|].
  rewrite H by lia. reflexivity.
Defined.

(** ** Boards by line count *)

Lemma for_lines_Ok lines k :
  StorageKind_for_lines lines = Ok k <->
  (1 <= lines <= 6 /\ k = Board64) \/ (7 <= lines <= 12 /\ k = Board128) \/ (13 <= lines <= 24 /\ k = Board256).
Proof.
  unfold StorageKind_for_lines. change STANDARD_PC_EXTENDED_MIN_LINES with 7.
  change STANDARD_PC_COMPACT_MAX_LINES with 6. change STANDARD_PC_MAX_LINES with 24. split.
  - intros H. rinv; bool_prop; [left|right; left|right; right]; (split; [lia|done]).
  - intros [[? ->]|[[? ->]|[? ->]]];
      repeat match goal with |- context [Z.leb ?a ?b] => destruct (Z.leb_spec a b); try lia end; done.
Qed.

(** The high words of a mask that fits [n] cells are zero. *)
Lemma fits_high_word a n k :
  Board256Mask_ok a -> (forall i, b256_bit a i = true -> i < n) -> (k < 4)%nat -> n <= 64 * Z.of_nat k ->
  b256_words a !!! k = 0.
Proof.
  intros [Hl Hw] Hin Hk Hn.
  assert (in_width 64 (b256_words a !!! k)) as Hr.
  { eapply Forall_lookup_1; [exact Hw|]. apply list_lookup_lookup_total_lt. lia. }
  apply (word_ext 64); [done|width|]. intros j Hj. rewrite Z.testbit_0_l.
  destruct (Z.testbit _ j) eqn:E; [|done].
  assert (b256_bit a (j + Z.of_nat k * 64) = true) as Hb.
  { rewrite b256_bit_in, Z.div_add, Z.mod_add, Z.div_small, Z.mod_small, Z.add_0_l, Nat2Z.id by lia. done. }
  apply Hin in Hb. lia.
Qed.

Lemma join_split_128 x y :
  in_width 64 x -> in_width 64 y ->
  let m := Z.lor x (shl 128 y 64) in
  in_width 128 m /\ wrap 64 m = x /\ wrap 64 (Z.shiftr m 64) = y.
Proof.
  intros Hx Hy. cbv zeta. assert (in_width 128 (Z.lor x (shl 128 y 64))) as Hm.
  { apply in_width_lor; [lia|by apply (in_width_mono 64)|]. apply in_width_shl; [lia|apply Hy]. }
  split; [done|]. unfold wrap. rewrite <- !Z.land_ones by lia. split.
  - apply Z.bits_inj'; intros i Hi. rewrite Z.land_spec, Z.lor_spec, testbit_shl, testbit_ones by lia.
    destruct (Z.ltb_spec i 64).
    + rewrite (Z.testbit_neg_r y) by lia. rewrite (proj2 (Z.leb_le 0 i)) by lia. btauto.
    + rewrite (in_width_testbit 64 x) by done. btauto.
  - apply Z.bits_inj'; intros i Hi.
    rewrite Z.land_spec, Z.shiftr_spec, Z.lor_spec, testbit_shl, testbit_ones by lia.
    rewrite (in_width_testbit 64 x) by (done || lia). replace (i + 64 - 64) with i by lia.
    destruct (Z.ltb_spec i 64).
    + rewrite (proj2 (Z.leb_le 0 i)), (proj2 (Z.ltb_lt (i + 64) 128)) by lia. btauto.
    + rewrite (in_width_testbit 64 y i) by done. btauto.
Qed.

(** [StandardPcBoardMask::from_words] accepts exactly the masks inside a
    board of 1 to 24 lines, picks one, two or four storage words by the line
    count, and [words] returns the words it was built from: narrowing to a
    64-bit or 128-bit mask loses nothing. *)
Theorem pc_board_words_roundtrip (lines : Z) (words : list Z)
    (Hlines : 0 <= lines) (Hwords : Board256Mask_ok (mkBoard256Mask words)) :
  ((exists m, StandardPcBoardMask_from_words lines words = Ok m) <->
     1 <= lines <= 24 /\
     forall i, 0 <= i -> Board256Mask_contains_index (mkBoard256Mask words) i = true -> i < 10 * lines) /\
  (forall m, StandardPcBoardMask_from_words lines words = Ok m ->
     StandardPcBoardMask_words m = words /\
     StorageKind_for_lines lines = Ok (StandardPcBoardMask_storage_kind m)).
Proof.
  assert (forall i, 0 <= i -> Board256Mask_contains_index (mkBoard256Mask words) i = b256_bit (mkBoard256Mask words) i)
    as Hci by (intros; by apply contains_index_bit).
  unfold StandardPcBoardMask_from_words.
  destruct (StorageKind_for_lines lines) as [k|e] eqn:Hk; cycle 1.
  { simpl. split; [|done]. split; [intros [? ?]; done|]. intros [Hr _]. exfalso.
    assert (exists k, StorageKind_for_lines lines = Ok k) as [k Hk'].
    { setoid_rewrite for_lines_Ok. destruct (decide (lines <= 6)); [exists Board64; left; split; [lia|done]|].
      destruct (decide (lines <= 12)); [exists Board128; right; left|exists Board256; right; right];
        (split; [lia|done]). }
    congruence. }
  apply for_lines_Ok in Hk as Hk'. simpl.
  destruct (fits_cell_count_spec (mkBoard256Mask words) (lines * STANDARD_PC_BOARD_WIDTH) Hwords) as (b & -> & Hb);
    [unfold STANDARD_PC_BOARD_WIDTH; lia|]. simpl. unfold STANDARD_PC_BOARD_WIDTH in *.
  destruct b; simpl.
  - pose proof (proj1 Hb eq_refl) as Hin. split.
    + split; [|by eexists]. intros _. split; [lia|]. intros i Hi. rewrite Hci by done. intros H%Hin. lia.
    + intros m [= <-].
      destruct (b256_destruct _ Hwords) as (a0 & a1 & a2 & a3 & [= ->] & ? & ? & ? & ?).
      pose proof (fits_high_word _ _ 1%nat Hwords Hin) as Hz1. pose proof (fits_high_word _ _ 2%nat Hwords Hin) as Hz2.
      pose proof (fits_high_word _ _ 3%nat Hwords Hin) as Hz3. simpl in Hz1, Hz2, Hz3.
      destruct Hk' as [[? ->]|[[? ->]|[? ->]]]; simpl; (split; [|done]).
      * rewrite Hz1, Hz2, Hz3 by lia. done.
      * destruct (join_split_128 a0 a1) as (_ & Hlo & Hhi); [done|done|]. rewrite Hlo, Hhi, Hz2, Hz3 by lia. done.
      * done.
  - split; [|done]. split; [by intros [? ?]|]. intros [_ H]. exfalso.
    assert (false = true) as Hf; [|done]. apply Hb. intros i Hi. pose proof (b256_bit_nonneg _ _ Hi).
    rewrite <- Hci in Hi by done. apply H in Hi; lia.
Qed.

Lemma pc_board_words_roundtrip_witness :
  exists m, StandardPcBoardMask_from_words 8 [3; 5; 0; 0] = Ok m /\ StandardPcBoardMask_words m = [3; 5; 0; 0].
Proof.
  destruct (pc_board_words_roundtrip 8 [3; 5; 0; 0]) as [_ H]; [lia|apply b256_ok_of; split; lia|].
  eexists; split; [reflexivity|]. by apply H.
Defined.

(** ** Extended state masks *)

Definition OperationBitSet_ok (n : Z) (m : ExtendedPcOperationBitSet) : Prop :=
  0 <= n <= EXTENDED_PC_MAX_PLACEMENTS /\ in_width n (obs_bits m).

Lemma low_u64_mask_ones n : 0 <= n <= 60 -> low_u64_mask n = Z.ones n.
Proof.
  intros. unfold low_u64_mask. rewrite (proj2 (Z.eqb_neq n 64)) by lia.
  destruct (Z.eqb_spec n 0) as [->|]; [done|]. apply low_mask_ones. lia.
Qed.

Lemma operation_contains_bit m i : 0 <= i -> OperationBitSet_contains m i = (i <? 64) && Z.testbit (obs_bits m) i.
Proof.
  intros. unfold OperationBitSet_contains. destruct (Z.ltb_spec i 64); [|done].
  by rewrite land_bit_eqb, negb_involutive by lia.
Qed.

Lemma without_Ok n m i :
  OperationBitSet_ok n m -> 0 <= i < n ->
  exists m', OperationBitSet_without m n i = Ok m' /\ OperationBitSet_ok n m' /\
    forall j, 0 <= j -> Z.testbit (obs_bits m') j = Z.testbit (obs_bits m) j && negb (j =? i).
Proof.
  intros [Hn Hm] Hi. change EXTENDED_PC_MAX_PLACEMENTS with 60 in Hn.
  unfold OperationBitSet_without, validate_operation_count. change EXTENDED_PC_MAX_PLACEMENTS with 60.
  rewrite (proj2 (Z.ltb_ge 60 n)), (proj2 (Z.leb_gt n i)) by lia. simpl.
  assert (in_width 64 (shl 64 1 i)) as Hs by width.
  eexists; split; [done|]. split.
  - split; [done|]. apply in_width_land; [lia|done|]. apply (in_width_wnot 64); [lia|done].
  - intros j Hj. simpl. rewrite Z.land_spec, testbit_wnot, testbit_bit by (done || lia).
    rewrite (proj2 (Z.leb_le 0 j)) by done. destruct (Z.ltb_spec j 64); [btauto|].
    rewrite (in_width_testbit n (obs_bits m)) by (done || lia). done.
Qed.

(** The remaining-operation sets of an extended search state.  [all n]
    holds the operations below [n]; [without] on a member removes it and
    nothing else and lowers the count by one, on a non-member it changes
    nothing, and it refuses an index outside the layout; the count of [all n]
    is [n], so a chain of removals reaches the empty set after exactly [n]
    placements. *)
Theorem operation_set_removal (n : Z) (Hn : 0 <= n <= EXTENDED_PC_MAX_PLACEMENTS) :
  (exists m, OperationBitSet_all n = Ok m /\ OperationBitSet_ok n m /\ OperationBitSet_count m = Z.to_nat n /\
     forall i, 0 <= i -> OperationBitSet_contains m i = (i <? n)) /\
  (forall m i, OperationBitSet_ok n m -> 0 <= i < n ->
     exists m', OperationBitSet_without m n i = Ok m' /\ OperationBitSet_ok n m' /\
       (forall j, 0 <= j -> OperationBitSet_contains m' j = OperationBitSet_contains m j && negb (j =? i)) /\
       (if OperationBitSet_contains m i
        then OperationBitSet_count m = S (OperationBitSet_count m') else m' = m)) /\
  (forall m i, n <= i -> OperationBitSet_without m n i = Err (OperationIndexOutOfRange i n)).
Proof.
  change EXTENDED_PC_MAX_PLACEMENTS with 60 in Hn. split; [|split].
  - unfold OperationBitSet_all, validate_operation_count. change EXTENDED_PC_MAX_PLACEMENTS with 60.
    rewrite (proj2 (Z.ltb_ge 60 n)) by lia. simpl. rewrite low_u64_mask_ones by done.
    assert (in_width n (Z.ones n)) as Ho by width.
    eexists; split; [done|]. split; [by split|]. split.
    + unfold OperationBitSet_count; simpl. rewrite (count_ones_bits (Z.to_nat n)) by (by rewrite Z2Nat.id by lia).
      unfold bits. rewrite <- (length_seq (Z.to_nat n) 0) at 2. f_equal.
      assert (forall l, Forall (fun i => Z.of_nat i < n) l ->
        filter (fun i : nat => Z.testbit (Z.ones n) (Z.of_nat i)) l = l) as Hall.
      { induction 1 as [|i l Hi Hl IH]; [done|]. rewrite filter_cons_True, IH; [done|].
        rewrite testbit_ones, (proj2 (Z.leb_le 0 _)), (proj2 (Z.ltb_lt _ n)) by lia. done. }
      apply Hall, Forall_forall. intros i Hi%elem_of_seq. lia.
    + intros i Hi. rewrite operation_contains_bit by done. simpl. rewrite testbit_ones, (proj2 (Z.leb_le 0 i)) by lia.
      destruct (Z.ltb_spec i 64), (Z.ltb_spec i n); simpl; done || lia.
  - intros m i Hm Hi. destruct (without_Ok n m i Hm Hi) as (m' & Hw & Hok & Hb).
    exists m'. split; [done|]. split; [done|]. split.
    + intros j Hj. rewrite !operation_contains_bit, Hb by done. btauto.
    + pose proof Hm as [_ Hr]. pose proof Hok as [_ Hr']. rewrite operation_contains_bit by lia.
      rewrite (proj2 (Z.ltb_lt i 64)) by lia. simpl. destruct (Z.testbit (obs_bits m) i) eqn:E.
      * apply (count_ones_clear (Z.to_nat n) _ _ (Z.to_nat i)); rewrite ?Z2Nat.id by lia; try done; [lia|].
        intros j Hj. rewrite Hb by lia. f_equal. f_equal.
        destruct (Z.eqb_spec (Z.of_nat j) i), (Nat.eqb_spec j (Z.to_nat i)); lia.
      * destruct m as [x], m' as [x']; simpl in *. f_equal. apply (word_ext n); [done|done|].
        intros j Hj. rewrite Hb by lia. destruct (Z.eqb_spec j i) as [->|]; rewrite ?E; btauto.
  - intros m i Hi. unfold OperationBitSet_without, validate_operation_count. change EXTENDED_PC_MAX_PLACEMENTS with 60.
    by rewrite (proj2 (Z.ltb_ge 60 n)), (proj2 (Z.leb_le n i)) by lia.
Qed.

Lemma operation_set_removal_witness :
  exists m, OperationBitSet_all 25 = Ok m /\ OperationBitSet_count m = 25%nat /\
    exists m', OperationBitSet_without m 25 7 = Ok m' /\ OperationBitSet_count m' = 24%nat.
Proof.
  destruct (operation_set_removal 25) as ((m & H1 & Hok & H2 & Hc) & H & _); [split; vm_compute; discriminate|].
  exists m. split; [done|]. split; [done|].
  destruct (H m 7 Hok ltac:(lia)) as (m' & Hw & _ & _ & Hn). exists m'. split; [done|].
  rewrite Hc in Hn by lia. simpl in Hn. rewrite H2 in Hn. change (Z.to_nat 25) with 25%nat in Hn. lia.
Defined.
