(* ===== verification/PatternBitSet.v ===== *)
(** * Pattern bit sets

    [clearra-coverage], [pattern/pattern_bitset.rs]: the canonical set of
    covered queue patterns.  A set over [pattern_count] patterns is stored
    either as dense 64-bit words or as a sorted list of pattern ids, whichever
    takes fewer bytes; every operation dispatches on the two layouts.

    A [usize] count or index is a [nat]; the widths matter only where the code
    saturates or narrows to [u32], which is written out.  The [Arc]s and the
    lazily filled dense cache of the sparse layout do not change what a set
    contains and are left out (the cache is recomputed where it is read). *)

From Stdlib Require Import ZArith Lia Btauto Sorted.
From stdpp Require Import prelude sorting gmap.
From S2P Require Import Prelude Words.

Inductive PatternBitStorage :=
| Dense (words : list Z)
| Sparse (pattern_ids : list nat).

Record PatternBitSet := mkPatternBitSet {
  pattern_count : nat;
  storage : PatternBitStorage
}.

Inductive PatternBitSetError :=
| PatternOutOfRange (index pattern_count : nat)
| PatternUniverseMismatch (left right : nat)
| WordCapacityExceeded (word_count word_limit : nat)
| WordCountMismatch (expected actual : nat).

(** [n.div_ceil(64)]. *)
Definition dense_word_count (n : nat) : nat := (n + 63) / 64.

(** [words[index / 64] |= 1 << (index % 64)]. *)
Definition set_word_bit (words : list Z) (index : nat) : list Z :=
  let i := (index / 64)%nat in
  <[i := Z.lor (words !!! i) (shl 64 1 (Z.of_nat (index mod 64)))]> words.

(** [SparsePatternStorage::words]. *)
Definition sparse_words (pattern_ids : list nat) (n : nat) : list Z :=
  foldl set_word_bit (replicate (dense_word_count n) 0%Z) pattern_ids.

(** The [while word != 0] loop of [compact_storage_from_words]; each turn
    clears a bit, so 64 turns empty a word. *)
Fixpoint word_pattern_ids (fuel word_index : nat) (word : Z) : list nat :=
  match fuel with
  | O => []
  | S fuel =>
      if (word =? 0)%Z then []
      else
        let bit := trailing_zeros word in
        (word_index * 64 + bit)%nat :: word_pattern_ids fuel word_index (Z.land word (word - 1))
  end.

Fixpoint words_pattern_ids (word_index : nat) (words : list Z) : list nat :=
  match words with
  | [] => []
  | word :: words => word_pattern_ids 64 word_index word ++ words_pattern_ids (S word_index) words
  end.

Definition size_of_u32 : Z := 4.
Definition size_of_u64 : Z := 8.

Definition compact_storage_from_words (n : nat) (words : list Z) : PatternBitStorage :=
  let covered_count := sum_list (count_ones <$> words) in
  let sparse_bytes := saturating_mul 64 (Z.of_nat covered_count) size_of_u32 in
  let dense_bytes := saturating_mul 64 (Z.of_nat (length words)) size_of_u64 in
  if ((umax 32 + 1 <? Z.of_nat n) || (dense_bytes <=? sparse_bytes))%Z then Dense words
  else Sparse (words_pattern_ids 0 words).

Definition compact_storage_from_pattern_ids (n : nat) (pattern_ids : list nat) : PatternBitStorage :=
  let word_count := dense_word_count n in
  let sparse_bytes := saturating_mul 64 (Z.of_nat (length pattern_ids)) size_of_u32 in
  let dense_bytes := saturating_mul 64 (Z.of_nat word_count) size_of_u64 in
  if (sparse_bytes <? dense_bytes)%Z then Sparse pattern_ids
  else Dense (foldl set_word_bit (replicate word_count 0%Z) pattern_ids).

(** The two-cursor loop, with the cursors as the remaining suffixes. *)
Fixpoint merge_pattern_ids (left : list nat) : list nat -> list nat :=
  fix merge_right (right : list nat) : list nat :=
    match left, right with
    | l :: left', r :: right' =>
        if (l <? r)%nat then l :: merge_pattern_ids left' right
        else if (r <? l)%nat then r :: merge_right right'
        else l :: merge_pattern_ids left' right'
    | l :: left', [] => l :: merge_pattern_ids left' []
    | [], r :: right' => r :: merge_right right'
    | [], [] => []
    end.

(** ** Constructors *)

Definition PatternBitSet_new (n : nat) : PatternBitSet :=
  mkPatternBitSet n (Dense (replicate (dense_word_count n) 0%Z)).

(** [if let Some(last) = words.last_mut() { if remainder != 0 { *last = f(last) } }]. *)
Definition update_last (remainder : nat) (f : Z -> Z) (words : list Z) : list Z :=
  if (remainder =? 0)%nat then words
  else alter f (length words - 1)%nat words.

Definition PatternBitSet_all (n : nat) : PatternBitSet :=
  let words := replicate (dense_word_count n) (umax 64) in
  let remainder := (n mod 64)%nat in
  mkPatternBitSet n (Dense (update_last remainder (fun _ => shl 64 1 (Z.of_nat remainder) - 1)%Z words)).

Definition PatternBitSet_from_words (n : nat) (words : list Z) : Result PatternBitSetError PatternBitSet :=
  if negb (length words =? dense_word_count n)%nat
  then Err (WordCountMismatch (dense_word_count n) (length words))
  else
    let remainder := (n mod 64)%nat in
    let words := update_last remainder (fun last => Z.land last (shl 64 1 (Z.of_nat remainder) - 1))%Z words in
    Ok (mkPatternBitSet n (compact_storage_from_words n words)).

Definition PatternBitSet_from_shared_words (n : nat) (words : list Z) : Result PatternBitSetError PatternBitSet :=
  if negb (length words =? dense_word_count n)%nat
  then Err (WordCountMismatch (dense_word_count n) (length words))
  else
    let remainder := (n mod 64)%nat in
    let low := (shl 64 1 (Z.of_nat remainder) - 1)%Z in
    if negb (remainder =? 0)%nat &&
       match last words with
       | Some l => negb (Z.land l (wnot 64 low) =? 0)%Z
       | None => false
       end
    then Ok (mkPatternBitSet n
               (compact_storage_from_words n (update_last remainder (fun l => Z.land l low) words)))
    else Ok (mkPatternBitSet n (Dense words)).

(** [sort_unstable] followed by [dedup]. *)
Fixpoint dedup (l : list nat) : list nat :=
  match l with
  | x :: (y :: _) as l' => if (x =? y)%nat then dedup l' else x :: dedup l'
  | _ => l
  end.
Definition sort_dedup (l : list nat) : list nat := dedup (merge_sort le l).

Definition PatternBitSet_from_pattern_indices (n : nat) (pattern_ids : list nat)
    : Result PatternBitSetError PatternBitSet :=
  let pattern_ids := sort_dedup pattern_ids in
  match last pattern_ids with
  | Some index =>
      if (n <=? index)%nat then Err (PatternOutOfRange index n)
      else Ok (mkPatternBitSet n (compact_storage_from_pattern_ids n pattern_ids))
  | None => Ok (mkPatternBitSet n (compact_storage_from_pattern_ids n pattern_ids))
  end.

Definition PatternBitSet_new_with_word_budget (n word_limit : nat) : Result PatternBitSetError PatternBitSet :=
  let word_count := dense_word_count n in
  if (word_limit <? word_count)%nat then Err (WordCapacityExceeded word_count word_limit)
  else Ok (PatternBitSet_new n).

(** ** Operations *)

Definition word_count (b : PatternBitSet) : nat := dense_word_count (pattern_count b).

Definition PatternBitSet_words (b : PatternBitSet) : list Z :=
  match storage b with
  | Dense words => words
  | Sparse pattern_ids => sparse_words pattern_ids (pattern_count b)
  end.

(** [partition_point]: the length of the prefix on which the predicate holds. *)
Fixpoint partition_point (p : nat -> bool) (l : list nat) : nat :=
  match l with
  | x :: l => if p x then S (partition_point p l) else O
  | [] => O
  end.

Fixpoint take_while (p : nat -> bool) (l : list nat) : list nat :=
  match l with
  | x :: l => if p x then x :: take_while p l else []
  | [] => []
  end.

Definition word_at (b : PatternBitSet) (word_index : nat) : Z :=
  match checked_mul 64 (Z.of_nat word_index) 64 with
  | None => 0%Z
  | Some _ =>
      let first_pattern := (word_index * 64)%nat in
      if (pattern_count b <=? first_pattern)%nat then 0%Z
      else
        match storage b with
        | Dense words => default 0%Z (words !! word_index)
        | Sparse pattern_ids =>
            let last_pattern := Nat.min (first_pattern + 64) (pattern_count b) in
            let first := partition_point (fun pattern => (pattern <? first_pattern)%nat) pattern_ids in
            foldl (fun word pattern => Z.lor word (shl 64 1 (Z.of_nat (pattern - first_pattern))))%Z 0%Z
              (take_while (fun pattern => (pattern <? last_pattern)%nat) (drop first pattern_ids))
        end
  end.

Definition to_owned_words (b : PatternBitSet) : list Z :=
  word_at b <$> seq 0 (word_count b).

(** [impl PartialEq]. *)
Definition PatternBitSet_eq (a b : PatternBitSet) : bool :=
  if negb (pattern_count a =? pattern_count b)%nat then false
  else
    match storage a, storage b with
    | Sparse ids_a, Sparse ids_b => bool_decide (ids_a = ids_b)
    | _, _ => forallb (fun i => (word_at a i =? word_at b i)%Z) (seq 0 (word_count a))
    end.

(** [dense_words_mut] leaves the set in the dense layout. *)
Definition dense_words_mut (b : PatternBitSet) : list Z := PatternBitSet_words b.

Definition PatternBitSet_insert (b : PatternBitSet) (index : nat) : Result PatternBitSetError PatternBitSet :=
  if (pattern_count b <=? index)%nat then Err (PatternOutOfRange index (pattern_count b))
  else Ok (mkPatternBitSet (pattern_count b) (Dense (set_word_bit (dense_words_mut b) index))).

(** [binary_search] on the sorted ids is membership. *)
Definition PatternBitSet_contains (b : PatternBitSet) (index : nat) : bool :=
  if (pattern_count b <=? index)%nat then false
  else
    match storage b with
    | Dense words =>
        negb (Z.land (words !!! (index / 64)%nat) (shl 64 1 (Z.of_nat (index mod 64))) =? 0)%Z
    | Sparse pattern_ids =>
        match try_from 32 (Z.of_nat index) with
        | Some _ => bool_decide (index ∈ pattern_ids)
        | None => false
        end
    end.

Definition PatternBitSet_union_with (a b : PatternBitSet) : Result PatternBitSetError PatternBitSet :=
  if negb (pattern_count a =? pattern_count b)%nat
  then Err (PatternUniverseMismatch (pattern_count a) (pattern_count b))
  else
    let n := pattern_count a in
    match storage a, storage b with
    | Sparse ids_a, Sparse ids_b =>
        Ok (mkPatternBitSet n (compact_storage_from_pattern_ids n (merge_pattern_ids ids_a ids_b)))
    | _, Sparse ids_b => Ok (mkPatternBitSet n (Dense (foldl set_word_bit (dense_words_mut a) ids_b)))
    | _, _ => Ok (mkPatternBitSet n (Dense (zip_with Z.lor (dense_words_mut a) (PatternBitSet_words b))))
    end.

Definition PatternBitSet_union (a b : PatternBitSet) : Result PatternBitSetError PatternBitSet :=
  PatternBitSet_union_with a b.

Definition PatternBitSet_is_superset (a required : PatternBitSet) : Result PatternBitSetError bool :=
  if negb (pattern_count a =? pattern_count required)%nat
  then Err (PatternUniverseMismatch (pattern_count a) (pattern_count required))
  else
    match storage required with
    | Sparse pattern_ids => Ok (forallb (PatternBitSet_contains a) pattern_ids)
    | Dense words =>
        Ok (forallb (fun '(index, required_word) =>
                       let current := default 0%Z (PatternBitSet_words a !! index) in
                       (Z.land current required_word =? required_word)%Z)
              (imap (fun index word => (index, word)) words))
    end.

Definition PatternBitSet_is_empty (b : PatternBitSet) : bool :=
  match storage b with
  | Dense words => forallb (fun word => (word =? 0)%Z) words
  | Sparse pattern_ids => bool_decide (pattern_ids = [])
  end.

Definition PatternBitSet_count_ones (b : PatternBitSet) : Z :=
  match storage b with
  | Dense words => foldl (fun count word => saturating_add 32 count (Z.of_nat (count_ones word))) 0%Z words
  | Sparse pattern_ids => default (umax 32) (try_from 32 (Z.of_nat (length pattern_ids)))
  end.

Fixpoint find_first_word (word_index : nat) (words : list Z) : option nat :=
  match words with
  | [] => None
  | word :: words =>
      if negb (word =? 0)%Z then Some (word_index * 64 + trailing_zeros word)%nat
      else find_first_word (S word_index) words
  end.

Definition first_pattern (b : PatternBitSet) : option nat :=
  match storage b with
  | Sparse pattern_ids => head pattern_ids
  | Dense words => find_first_word 0 words
  end.

(** [from_patterns]: ids that do not fit [u32] are inserted one by one. *)
Fixpoint insert_all (b : PatternBitSet) (patterns : list nat) : Result PatternBitSetError PatternBitSet :=
  match patterns with
  | [] => Ok b
  | pattern :: patterns => let? b := PatternBitSet_insert b pattern in insert_all b patterns
  end.

Definition PatternBitSet_from_patterns (n : nat) (patterns : list nat) : Result PatternBitSetError PatternBitSet :=
  if existsb (fun pattern => umax 32 <? Z.of_nat pattern)%Z patterns
  then insert_all (PatternBitSet_new n) patterns
  else PatternBitSet_from_pattern_indices n patterns.

(** ** The covered-pattern iterator *)

Inductive CoveredPatternIterStorage :=
| IterDense (words : list Z) (word_index : nat) (remaining_word : Z)
| IterSparse (pattern_ids : list nat) (index : nat).

Record CoveredPatternIter := mkCoveredPatternIter {
  it_storage : CoveredPatternIterStorage;
  it_end_exclusive : nat
}.

(** The [loop] of [next] on dense words: it ends at a set bit, at the end of
    the range, or past the last word, so [length words] turns are enough. *)
Fixpoint dense_next (fuel : nat) (words : list Z) (end_exclusive word_index : nat) (remaining_word : Z)
    : option nat * (nat * Z) :=
  if negb (remaining_word =? 0)%Z then
    let bit := trailing_zeros remaining_word in
    let remaining_word := Z.land remaining_word (remaining_word - 1) in
    let pattern_id := (word_index * 64 + bit)%nat in
    ((if (pattern_id <? end_exclusive)%nat then Some pattern_id else None), (word_index, remaining_word))
  else
    let word_index := S word_index in
    if (end_exclusive <=? word_index * 64)%nat then (None, (word_index, remaining_word))
    else
      match words !! word_index, fuel with
      | Some word, S fuel => dense_next fuel words end_exclusive word_index word
      | _, _ => (None, (word_index, remaining_word))
      end.

Definition iter_next (it : CoveredPatternIter) : option nat * CoveredPatternIter :=
  let end_exclusive := it_end_exclusive it in
  match it_storage it with
  | IterSparse pattern_ids index =>
      match pattern_ids !! index with
      | None => (None, it)
      | Some pattern_id =>
          if (end_exclusive <=? pattern_id)%nat then (None, it)
          else (Some pattern_id, mkCoveredPatternIter (IterSparse pattern_ids (S index)) end_exclusive)
      end
  | IterDense words word_index remaining_word =>
      let '(result, (word_index, remaining_word)) :=
        dense_next (length words) words end_exclusive word_index remaining_word in
      (result, mkCoveredPatternIter (IterDense words word_index remaining_word) end_exclusive)
  end.

(** [collect]: [next] until the first [None]. *)
Fixpoint iter_collect (fuel : nat) (it : CoveredPatternIter) : list nat :=
  match fuel with
  | O => []
  | S fuel =>
      match iter_next it with
      | (Some pattern, it) => pattern :: iter_collect fuel it
      | (None, _) => []
      end
  end.

Definition covered_patterns_in_range (b : PatternBitSet) (start_inclusive end_exclusive : nat) : CoveredPatternIter :=
  let end_exclusive := Nat.min end_exclusive (pattern_count b) in
  let start_inclusive := Nat.min start_inclusive end_exclusive in
  let storage :=
    match storage b with
    | Dense words =>
        let word_index := (start_inclusive / 64)%nat in
        let bit_offset := (start_inclusive mod 64)%nat in
        let remaining_word :=
          Z.land (default 0%Z (words !! word_index)) (shl 64 (umax 64) (Z.of_nat bit_offset)) in
        IterDense words word_index remaining_word
    | Sparse pattern_ids =>
        IterSparse pattern_ids (partition_point (fun pattern_id => (pattern_id <? start_inclusive)%nat) pattern_ids)
    end in
  mkCoveredPatternIter storage end_exclusive.

Definition covered_patterns_before (b : PatternBitSet) (end_exclusive : nat) : CoveredPatternIter :=
  covered_patterns_in_range b 0 end_exclusive.

Definition covered_patterns (b : PatternBitSet) : list nat :=
  iter_collect (S (pattern_count b)) (covered_patterns_before b (pattern_count b)).

(** ** Words as sets of positions *)

Definition words_bit (words : list Z) (i : nat) : bool :=
  Z.testbit (default 0%Z (words !! (i / 64)%nat)) (Z.of_nat (i mod 64)).

Lemma dense_word_count_index n i : (i < n)%nat -> (i / 64 < dense_word_count n)%nat.
Proof.
  intros. unfold dense_word_count. apply (Nat.lt_le_trans _ (i / 64 + 1)); [lia|].
  rewrite <- (Nat.div_add i 1 64) by lia. apply Nat.Div0.div_le_mono. lia.
Qed.

Lemma dense_word_count_bound n k : (k < dense_word_count n)%nat -> (k * 64 < n)%nat.
Proof.
  unfold dense_word_count. intros Hk. destruct (decide (k * 64 < n)%nat); [done|].
  assert ((n + 63) / 64 < k + 1)%nat; [|lia]. apply Nat.Div0.div_lt_upper_bound. lia.
Qed.

Lemma word_index_split k j : (j < 64)%nat -> ((k * 64 + j) / 64 = k /\ (k * 64 + j) mod 64 = j)%nat.
Proof.
  intros. split; [symmetry; apply (Nat.div_unique _ _ _ j); lia|symmetry; apply (Nat.mod_unique _ _ k); lia].
Qed.

Lemma mod64_lt i : (i mod 64 < 64)%nat.
Proof. apply Nat.mod_upper_bound. lia. Qed.

Lemma words_bit_split words k j :
  (j < 64)%nat -> words_bit words (k * 64 + j) = Z.testbit (default 0%Z (words !! k)) (Z.of_nat j).
Proof. intros Hj. unfold words_bit. by destruct (word_index_split k j Hj) as [-> ->]. Qed.

Lemma words_ext (a b : list Z) :
  length a = length b -> Forall (in_width 64) a -> Forall (in_width 64) b ->
  (forall i, words_bit a i = words_bit b i) -> a = b.
Proof.
  intros Hl Ha Hb H. apply (list_eq_same_length _ _ (length b)); [done|done|].
  intros k x y Hk Hx Hy. apply (word_ext 64).
  - by eapply Forall_lookup_1 in Ha.
  - by eapply Forall_lookup_1 in Hb.
  - intros j Hj. specialize (H (k * 64 + Z.to_nat j)%nat).
    rewrite !words_bit_split, Hx, Hy in H by lia. simpl in H. by rewrite Z2Nat.id in H by lia.
Qed.

Lemma set_word_bit_spec words i :
  (i / 64 < length words)%nat -> Forall (in_width 64) words ->
  length (set_word_bit words i) = length words /\ Forall (in_width 64) (set_word_bit words i) /\
  forall j, words_bit (set_word_bit words i) j = words_bit words j || (j =? i)%nat.
Proof.
  intros Hi Hw. unfold set_word_bit.
  destruct (lookup_lt_is_Some_2 words (i / 64)) as [x Hx]; [done|].
  rewrite (list_lookup_total_correct _ _ x Hx). split; [apply length_insert|]. split.
  - apply Forall_insert; [done|]. apply in_width_lor; [lia|by eapply Forall_lookup_1 in Hw|width].
  - intros j. unfold words_bit. pose proof (mod64_lt i). destruct (decide (i / 64 = j / 64)%nat) as [Heq|Hne].
    + rewrite <- Heq, list_lookup_insert_eq, Hx by done. simpl. rewrite Z.lor_spec, testbit_bit by lia. f_equal.
      pose proof (Nat.div_mod_eq i 64). pose proof (Nat.div_mod_eq j 64).
      destruct (Z.eqb_spec (Z.of_nat (j mod 64)) (Z.of_nat (i mod 64))), (Nat.eqb_spec j i); subst; lia.
    + rewrite list_lookup_insert_ne by done. destruct (Nat.eqb_spec j i) as [->|]; [done|]. btauto.
Qed.

Lemma set_words_spec ids words :
  Forall (fun i => i / 64 < length words)%nat ids -> Forall (in_width 64) words ->
  length (foldl set_word_bit words ids) = length words /\
  Forall (in_width 64) (foldl set_word_bit words ids) /\
  forall j, words_bit (foldl set_word_bit words ids) j = words_bit words j || bool_decide (j ∈ ids).
Proof.
  revert words. induction ids as [|i ids IH]; intros words Hi Hw.
  { split; [done|]. split; [done|]. intros j. by rewrite bool_decide_false, orb_false_r by apply not_elem_of_nil. }
  apply Forall_cons in Hi as [Hi Hids]. destruct (set_word_bit_spec words i Hi Hw) as (Hl & Hw' & Hb). simpl.
  destruct (IH (set_word_bit words i)) as (Hl' & Hw'' & Hb'); [by rewrite Hl|done|].
  split; [congruence|]. split; [done|]. intros j. rewrite Hb', Hb, <- orb_assoc. f_equal.
  apply eq_true_iff_eq. rewrite orb_true_iff, Nat.eqb_eq, !bool_decide_eq_true, elem_of_cons. done.
Qed.

Lemma zero_words_bit k i : words_bit (replicate k 0%Z) i = false.
Proof.
  unfold words_bit. destruct (replicate k 0%Z !! (i / 64)%nat) as [x|] eqn:E; [|apply Z.testbit_0_l].
  apply lookup_replicate in E as [-> _]. apply Z.testbit_0_l.
Qed.

Lemma zero_words_width k : Forall (in_width 64) (replicate k 0%Z).
Proof. apply Forall_replicate. width. Qed.

Lemma words_bit_zip_lor a b i :
  length a = length b -> words_bit (zip_with Z.lor a b) i = words_bit a i || words_bit b i.
Proof.
  intros Hl. unfold words_bit. rewrite lookup_zip_with.
  destruct (a !! (i / 64)%nat) as [x|] eqn:Ea, (b !! (i / 64)%nat) as [y|] eqn:Eb; simpl.
  - apply Z.lor_spec.
  - apply lookup_lt_Some in Ea. apply lookup_ge_None in Eb. lia.
  - apply lookup_lt_Some in Eb. apply lookup_ge_None in Ea. lia.
  - by rewrite Z.testbit_0_l.
Qed.

(** ** From words to sorted ids *)

Lemma word_pattern_ids_bits fuel k word :
  in_width 64 word -> (count_ones word <= fuel)%nat ->
  word_pattern_ids fuel k word = (fun b => k * 64 + b)%nat <$> bits 64 word.
Proof.
  revert word. induction fuel as [|fuel IH]; intros word Hw Hf; simpl.
  - assert (bits 64 word = []) as -> by (apply nil_length_inv; rewrite <- count_ones_bits by done; lia). done.
  - destruct (Z.eqb_spec word 0) as [->|Hne].
    { assert (bits 64 0 = []) as -> by (apply nil_length_inv; rewrite <- count_ones_bits by done; done). done. }
    assert (0 < word)%Z as Hpos by (destruct Hw; lia).
    assert (in_width 64 (Z.land word (word - 1))) as Hw' by width.
    rewrite (bits_lowest 64 word Hpos Hw). simpl. f_equal. apply IH; [done|].
    rewrite (count_ones_bits 64) in Hf |- * by done. rewrite (bits_lowest 64 word Hpos Hw) in Hf. simpl in Hf. lia.
Qed.

Lemma count_ones_le_64 word : in_width 64 word -> (count_ones word <= 64)%nat.
Proof.
  intros. rewrite (count_ones_bits 64) by done. unfold bits.
  etransitivity; [apply length_filter|]. by rewrite length_seq.
Qed.

Lemma words_pattern_ids_spec k words :
  Forall (in_width 64) words ->
  StronglySorted lt (words_pattern_ids k words) /\
  (forall i, i ∈ words_pattern_ids k words <-> (k * 64 <= i)%nat /\ words_bit words (i - k * 64) = true) /\
  length (words_pattern_ids k words) = sum_list (count_ones <$> words).
Proof.
  revert k. induction words as [|w words IH]; intros k Hw.
  { split; [constructor|]. split; [|done]. intros i. simpl. rewrite elem_of_nil. unfold words_bit.
    rewrite lookup_nil. simpl. rewrite Z.testbit_0_l. naive_solver. }
  apply Forall_cons in Hw as [Hw Hws]. destruct (IH (S k) Hws) as (Hs & Hm & Hl). cbn [words_pattern_ids].
  rewrite (word_pattern_ids_bits 64 k w Hw (count_ones_le_64 w Hw)). split; [|split].
  - apply sorted_lt_app; [apply sorted_lt_shift, sorted_lt_bits|done|].
    intros x y (b & -> & [Hb _]%elem_of_bits)%list_elem_of_fmap [Hy _]%Hm. lia.
  - intros i. rewrite elem_of_app, Hm, list_elem_of_fmap. setoid_rewrite elem_of_bits.
    destruct (decide (k * 64 <= i)%nat) as [Hki|]; [|split; [intros [(b & -> & _)|[? _]]; lia|lia]].
    destruct (decide (S k * 64 <= i)%nat) as [Hski|Hski].
    + assert (words_bit (w :: words) (i - k * 64) = words_bit words (i - S k * 64)) as ->.
      { unfold words_bit. replace (i - k * 64)%nat with (i - S k * 64 + 1 * 64)%nat by lia.
        rewrite Nat.div_add, Nat.Div0.mod_add by lia. by rewrite Nat.add_1_r. }
      split; [intros [(b & -> & ? & _)|[_ ?]]; [lia|done]|intros [_ ?]; by right].
    + assert (words_bit (w :: words) (i - k * 64) = Z.testbit w (Z.of_nat (i - k * 64))) as ->
        by (unfold words_bit; by rewrite Nat.div_small, Nat.mod_small by lia).
      split; [intros [(b & -> & ? & Hb)|[? _]]; [|lia]|intros [_ Hb]].
      * split; [lia|]. by replace (k * 64 + b - k * 64)%nat with b by lia.
      * left. exists (i - k * 64)%nat. split; [lia|]. split; [lia|done].
  - rewrite length_app, length_fmap, <- count_ones_bits, Hl by done. done.
Qed.

(** ** Merging sorted ids *)

Lemma merge_nil_l r : merge_pattern_ids [] r = r.
Proof. induction r as [|b r IH]; [done|]. cbn in *. by rewrite IH. Qed.

Lemma merge_nil_r l : merge_pattern_ids l [] = l.
Proof. induction l as [|a l IH]; [done|]. cbn. by rewrite IH. Qed.

Lemma merge_cons a l b r :
  merge_pattern_ids (a :: l) (b :: r) =
    if (a <? b)%nat then a :: merge_pattern_ids l (b :: r)
    else if (b <? a)%nat then b :: merge_pattern_ids (a :: l) r
    else a :: merge_pattern_ids l r.
Proof. done. Qed.

Lemma merge_pattern_ids_elem l r x : x ∈ merge_pattern_ids l r <-> x ∈ l \/ x ∈ r.
Proof.
  revert r. induction l as [|a l IHl]; intros r; [rewrite merge_nil_l, elem_of_nil; tauto|].
  induction r as [|b r IHr]; [rewrite merge_nil_r, elem_of_nil; tauto|]. rewrite merge_cons.
  destruct (Nat.ltb_spec a b); [|destruct (Nat.ltb_spec b a)].
  - rewrite elem_of_cons, IHl, !elem_of_cons. tauto.
  - rewrite elem_of_cons, IHr, !elem_of_cons. tauto.
  - assert (a = b) as -> by lia. rewrite elem_of_cons, IHl, !elem_of_cons. tauto.
Qed.

Lemma merge_pattern_ids_sorted l r :
  StronglySorted lt l -> StronglySorted lt r -> StronglySorted lt (merge_pattern_ids l r).
Proof.
  revert r. induction l as [|a l IHl]; intros r Hl Hr; [by rewrite merge_nil_l|].
  pose proof (sorted_lt_head _ _ Hl) as Ha. pose proof (StronglySorted_inv Hl) as [Hl0 _].
  induction r as [|b r IHr]; [by rewrite merge_nil_r|]. rewrite merge_cons.
  pose proof (sorted_lt_head _ _ Hr) as Hb. pose proof (StronglySorted_inv Hr) as [Hr0 _].
  destruct (Nat.ltb_spec a b); [|destruct (Nat.ltb_spec b a)].
  - constructor; [by apply IHl|]. apply Forall_forall.
    intros y [Hy|[->|Hy]%elem_of_cons]%merge_pattern_ids_elem; [auto|done|pose proof (Hb y Hy); lia].
  - constructor; [by apply IHr|]. apply Forall_forall.
    intros y [[->|Hy]%elem_of_cons|Hy]%merge_pattern_ids_elem; [done|pose proof (Ha y Hy); lia|auto].
  - assert (a = b) as <- by lia. constructor; [by apply IHl|]. apply Forall_forall.
    intros y [Hy|Hy]%merge_pattern_ids_elem; auto.
Qed.

(** ** Sorting input ids *)

Lemma dedup_elem l x : x ∈ dedup l <-> x ∈ l.
Proof.
  induction l as [|a l IH]; [done|]. destruct l as [|b l]; [done|].
  cbn [dedup]. destruct (Nat.eqb_spec a b) as [->|Hne].
  - rewrite IH, !elem_of_cons. tauto.
  - rewrite elem_of_cons, IH, (elem_of_cons (b :: l)). done.
Qed.

Lemma dedup_sorted l : StronglySorted le l -> StronglySorted lt (dedup l).
Proof.
  induction l as [|a l IH]; intros H; [constructor|]. destruct l as [|b l]; [constructor; constructor|].
  apply StronglySorted_inv in H as [H Ha]. cbn [dedup]. destruct (Nat.eqb_spec a b) as [->|Hne]; [by apply IH|].
  constructor; [by apply IH|]. apply Forall_forall. intros x Hx. apply (dedup_elem (b :: l)) in Hx.
  rewrite Forall_forall in Ha. pose proof (Ha b ltac:(by left)).
  apply StronglySorted_inv in H as [_ Hb]. rewrite Forall_forall in Hb.
  apply elem_of_cons in Hx as [->|Hx]; [lia|]. pose proof (Hb x Hx). lia.
Qed.

Lemma sort_dedup_spec l :
  StronglySorted lt (sort_dedup l) /\ (forall x, x ∈ sort_dedup l <-> x ∈ l).
Proof.
  unfold sort_dedup. split.
  - apply dedup_sorted, StronglySorted_merge_sort; [intros x y z; lia|intros x y; lia].
  - intros x. by rewrite dedup_elem, (merge_sort_Permutation le l).
Qed.

(** ** The storage invariant and the set it denotes *)

Definition storage_ok (n : nat) (st : PatternBitStorage) : Prop :=
  match st with
  | Dense words =>
      length words = dense_word_count n /\ Forall (in_width 64) words /\
      forall i, words_bit words i = true -> (i < n)%nat
  | Sparse ids =>
      StronglySorted lt ids /\ forall i, i ∈ ids -> (i < n)%nat /\ (Z.of_nat i < 2 ^ 32)%Z
  end.

Definition PatternBitSet_ok (b : PatternBitSet) : Prop := storage_ok (pattern_count b) (storage b).

Definition storage_mem (st : PatternBitStorage) (i : nat) : bool :=
  match st with
  | Dense words => words_bit words i
  | Sparse ids => bool_decide (i ∈ ids)
  end.

(** The set of patterns a bit set covers. *)
Definition pset (b : PatternBitSet) : gset nat :=
  list_to_set (filter (fun i => PatternBitSet_contains b i) (seq 0 (pattern_count b))).

Lemma storage_mem_lt n st i : storage_ok n st -> storage_mem st i = true -> (i < n)%nat.
Proof.
  destruct st as [words|ids]; simpl; [intros (_ & _ & H); apply H|].
  intros [_ H]. rewrite bool_decide_eq_true. apply H.
Qed.

Lemma contains_storage_mem b i :
  PatternBitSet_ok b -> PatternBitSet_contains b i = storage_mem (storage b) i.
Proof.
  intros Hok. unfold PatternBitSet_contains, PatternBitSet_ok in *.
  destruct (Nat.leb_spec (pattern_count b) i) as [Hge|Hlt].
  { destruct (storage_mem (storage b) i) eqn:E; [|done]. apply (storage_mem_lt _ _ _ Hok) in E. lia. }
  destruct (storage b) as [words|ids]; simpl in *.
  - destruct Hok as (Hl & _ & _). pose proof (mod64_lt i). pose proof (dense_word_count_index _ _ Hlt).
    rewrite land_bit_eqb, negb_involutive by lia. unfold words_bit.
    destruct (lookup_lt_is_Some_2 words (i / 64)) as [x Hx]; [lia|].
    by rewrite (list_lookup_total_correct _ _ x Hx), Hx.
  - destruct Hok as (_ & Hb). unfold try_from. destruct (Z.ltb_spec (Z.of_nat i) (2 ^ 32)); [done|].
    symmetry. apply bool_decide_eq_false. intros Hi%Hb. lia.
Qed.

Lemma elem_of_pset b i : i ∈ pset b <-> PatternBitSet_contains b i = true.
Proof.
  unfold pset. rewrite elem_of_list_to_set, list_elem_of_filter, elem_of_seq, Is_true_true.
  split; [tauto|]. intros H. split; [done|]. unfold PatternBitSet_contains in H.
  destruct (Nat.leb_spec (pattern_count b) i); [done|lia].
Qed.

Lemma pset_mem b i : PatternBitSet_ok b -> i ∈ pset b <-> storage_mem (storage b) i = true.
Proof. intros. by rewrite elem_of_pset, contains_storage_mem. Qed.

Lemma pset_bound b i : i ∈ pset b -> (i < pattern_count b)%nat.
Proof. unfold pset. rewrite elem_of_list_to_set, list_elem_of_filter, elem_of_seq. lia. Qed.

(** The dense words of either layout. *)
Lemma dense_words_spec b :
  PatternBitSet_ok b ->
  length (PatternBitSet_words b) = dense_word_count (pattern_count b) /\
  Forall (in_width 64) (PatternBitSet_words b) /\
  forall i, words_bit (PatternBitSet_words b) i = storage_mem (storage b) i.
Proof.
  intros Hok. unfold PatternBitSet_words, PatternBitSet_ok in *. destruct (storage b) as [words|ids]; simpl in *.
  - naive_solver.
  - destruct Hok as [_ Hb]. unfold sparse_words.
    destruct (set_words_spec ids (replicate (dense_word_count (pattern_count b)) 0%Z)) as (Hl & Hw & Hm).
    + apply Forall_forall. intros i [Hi _]%Hb. rewrite length_replicate. by apply dense_word_count_index.
    + apply zero_words_width.
    + rewrite length_replicate in Hl. split; [done|]. split; [done|]. intros i. by rewrite Hm, zero_words_bit.
Qed.

Lemma compact_ids_spec n ids :
  StronglySorted lt ids -> (forall i, i ∈ ids -> (i < n)%nat /\ (Z.of_nat i < 2 ^ 32)%Z) ->
  storage_ok n (compact_storage_from_pattern_ids n ids) /\
  forall i, storage_mem (compact_storage_from_pattern_ids n ids) i = bool_decide (i ∈ ids).
Proof.
  intros Hs Hb. unfold compact_storage_from_pattern_ids. case_match; [done|].
  destruct (set_words_spec ids (replicate (dense_word_count n) 0%Z)) as (Hl & Hw & Hm).
  { apply Forall_forall. intros i [Hi _]%Hb. rewrite length_replicate. by apply dense_word_count_index. }
  { apply zero_words_width. }
  rewrite length_replicate in Hl. assert (forall i, words_bit (foldl set_word_bit (replicate (dense_word_count n) 0%Z) ids) i
    = bool_decide (i ∈ ids)) as Hm' by (intros i; by rewrite Hm, zero_words_bit).
  split; [|done]. simpl. split; [done|]. split; [done|]. intros i. rewrite Hm', bool_decide_eq_true. apply Hb.
Qed.

Lemma compact_words_spec n words :
  storage_ok n (Dense words) ->
  storage_ok n (compact_storage_from_words n words) /\
  forall i, storage_mem (compact_storage_from_words n words) i = words_bit words i.
Proof.
  intros (Hl & Hw & Hb). unfold compact_storage_from_words. case_match eqn:E; [done|].
  apply orb_false_iff in E as [En _]. apply Z.ltb_ge in En. unfold umax in En.
  destruct (words_pattern_ids_spec 0 words Hw) as (Hs & Hm & _).
  assert (forall i, i ∈ words_pattern_ids 0 words <-> words_bit words i = true) as Hm'.
  { intros i. rewrite Hm. simpl. rewrite Nat.sub_0_r. split; [naive_solver|]. intros; split; [lia|done]. }
  split.
  - simpl. split; [done|]. intros i Hi%Hm'%Hb. lia.
  - intros i. simpl. apply eq_true_iff_eq. by rewrite bool_decide_eq_true, Hm'.
Qed.

(** Masking the last word to the bits below [n]. *)
Lemma mask_last_spec n words :
  length words = dense_word_count n -> Forall (in_width 64) words ->
  let words' := update_last (n mod 64) (fun last => Z.land last (shl 64 1 (Z.of_nat (n mod 64)) - 1))%Z words in
  storage_ok n (Dense words') /\ forall i, words_bit words' i = words_bit words i && (i <? n)%nat.
Proof.
  intros Hl Hw. pose proof (mod64_lt n) as Hr. pose proof (Nat.div_mod_eq n 64) as Hd.
  assert (forall i, words_bit words i = true -> (i / 64 < length words)%nat) as Hin.
  { intros i Hi. unfold words_bit in Hi. destruct (words !! (i / 64)%nat) eqn:E; [by apply lookup_lt_Some in E|].
    simpl in Hi. by rewrite Z.testbit_0_l in Hi. }
  unfold update_last. destruct (Nat.eqb_spec (n mod 64) 0) as [H0|H0].
  - assert (forall i, words_bit words i = true -> (i < n)%nat) as Hlt.
    { intros i Hi%Hin. rewrite Hl in Hi. apply dense_word_count_bound in Hi.
      pose proof (Nat.div_mod_eq i 64). pose proof (mod64_lt i). lia. }
    split; [done|]. intros i. destruct (words_bit words i) eqn:E; [|done].
    by rewrite (proj2 (Nat.ltb_lt i n)) by auto.
  - rewrite low_mask_ones by lia. assert (length words = S (n / 64)) as Hlen.
    { rewrite Hl. unfold dense_word_count. symmetry.
      apply (Nat.div_unique _ _ _ (n mod 64 - 1)); lia. }
    replace (length words - 1)%nat with (n / 64)%nat by lia.
    assert (forall i, words_bit (alter (fun last => Z.land last (Z.ones (Z.of_nat (n mod 64)))) (n / 64)%nat words) i =
                      words_bit words i && (i <? n)%nat) as Hb.
    { intros i. unfold words_bit. pose proof (Nat.div_mod_eq i 64). pose proof (mod64_lt i).
      destruct (decide (i / 64 = n / 64)%nat) as [Heq|Hne].
      - rewrite Heq, list_lookup_alter_eq. destruct (words !! (n / 64)%nat); simpl; [|by rewrite !Z.testbit_0_l].
        rewrite Z.land_spec, testbit_ones by lia. f_equal.
        rewrite (proj2 (Z.leb_le 0 _)) by lia. simpl.
        destruct (Z.ltb_spec (Z.of_nat (i mod 64)) (Z.of_nat (n mod 64))), (Nat.ltb_spec i n); lia.
      - rewrite list_lookup_alter_ne by done. destruct (words !! (i / 64)%nat) eqn:E; simpl; [|by rewrite Z.testbit_0_l].
        apply lookup_lt_Some in E. rewrite (proj2 (Nat.ltb_lt i n)) by nia. btauto. }
    split; [|done]. simpl. split; [by rewrite length_alter|]. split.
    + apply Forall_alter; [done|]. intros x _ Hx. apply in_width_land; [lia|done|]. apply (in_width_ones (Z.of_nat (n mod 64))). lia.
    + intros i. rewrite Hb. intros ?. by bool_prop.
Qed.

(** ** Reading words and comparing *)

Lemma drop_partition_point a l :
  StronglySorted lt l ->
  drop (partition_point (fun x => x <? a)%nat l) l = filter (fun x => (a <=? x)%nat) l.
Proof.
  induction l as [|x l IH]; intros Hs; [done|]. pose proof (sorted_lt_head _ _ Hs) as Hx.
  apply StronglySorted_inv in Hs as [Hs _]. simpl. rewrite filter_cons.
  destruct (Nat.ltb_spec x a).
  - rewrite decide_False by (intros ?%Is_true_true; bool_prop; lia). by apply IH.
  - rewrite decide_True by (by apply Is_true_true, Nat.leb_le). simpl. f_equal.
    assert (forall l', Forall (fun y => x < y)%nat l' -> l' = filter (fun y => (a <=? y)%nat) l') as Hall.
    { induction 1 as [|y l' Hy Hl' IH']; [done|].
      rewrite filter_cons_True by (apply Is_true_true, Nat.leb_le; lia). by rewrite <- IH'. }
    apply Hall, Forall_forall. auto.
Qed.

Lemma take_while_sorted a l :
  StronglySorted lt l -> take_while (fun x => x <? a)%nat l = filter (fun x => (x <? a)%nat) l.
Proof.
  induction l as [|x l IH]; intros Hs; [done|]. pose proof (sorted_lt_head _ _ Hs) as Hx.
  apply StronglySorted_inv in Hs as [Hs _]. simpl. rewrite filter_cons.
  destruct (Nat.ltb_spec x a).
  - rewrite decide_True by done. f_equal. by apply IH.
  - rewrite decide_False by (by intros ?%Is_true_true).
    assert (forall l', Forall (fun y => x < y)%nat l' -> [] = filter (fun y => (y <? a)%nat) l') as Hall.
    { induction 1 as [|y l' Hy Hl' IH']; [done|].
      rewrite filter_cons_False; [done|]. intros ?%Is_true_true. bool_prop. lia. }
    apply Hall, Forall_forall. auto.
Qed.

Lemma or_bits_fold base ids word :
  in_width 64 word -> (forall i, i ∈ ids -> (base <= i < base + 64)%nat) ->
  let word' := foldl (fun word pattern => Z.lor word (shl 64 1 (Z.of_nat (pattern - base)))) word ids in
  in_width 64 word' /\
  forall j, (j < 64)%nat ->
    Z.testbit word' (Z.of_nat j) = Z.testbit word (Z.of_nat j) || bool_decide ((base + j)%nat ∈ ids).
Proof.
  revert word. induction ids as [|i ids IH]; intros word Hw Hb; cbn [foldl]; cbv zeta.
  { split; [done|]. intros j _. by rewrite bool_decide_false, orb_false_r by apply not_elem_of_nil. }
  assert (base <= i < base + 64)%nat as Hi by (apply Hb; by left).
  destruct (IH (Z.lor word (shl 64 1 (Z.of_nat (i - base))))) as [Hw' Hm].
  { width. }
  { intros i' Hi'. apply Hb. by right. }
  split; [done|]. intros j Hj. rewrite Hm, Z.lor_spec, testbit_bit, <- orb_assoc by lia. f_equal.
  apply eq_true_iff_eq. rewrite orb_true_iff, Z.eqb_eq, !bool_decide_eq_true, elem_of_cons.
  assert (Z.of_nat j = Z.of_nat (i - base) <-> (base + j = i)%nat) by lia. tauto.
Qed.

Lemma word_at_spec b k :
  PatternBitSet_ok b -> (Z.of_nat (pattern_count b) < 2 ^ 64)%Z ->
  word_at b k = default 0%Z (PatternBitSet_words b !! k).
Proof.
  intros Hok Hn. destruct (dense_words_spec b Hok) as (Hl & Hw & Hm). unfold word_at, checked_mul.
  assert ((pattern_count b <= k * 64)%nat -> 0%Z = default 0%Z (PatternBitSet_words b !! k)) as Hge.
  { intros Hk. rewrite lookup_ge_None_2; [done|]. rewrite Hl.
    destruct (decide (dense_word_count (pattern_count b) <= k)%nat); [done|].
    assert (k * 64 < pattern_count b)%nat by (apply dense_word_count_bound; lia). lia. }
  destruct (Z.ltb_spec (Z.of_nat k * 64) (2 ^ 64)); [|apply Hge; lia].
  destruct (Nat.leb_spec (pattern_count b) (k * 64)) as [|Hlt]; [by apply Hge|]. clear Hge.
  pose proof Hok as Hok'. unfold PatternBitSet_words, PatternBitSet_ok in *.
  destruct (storage b) as [words|ids]; [done|]. destruct Hok as [Hs Hb].
  rewrite drop_partition_point, take_while_sorted by (done || by apply sorted_lt_filter).
  set (ids' := filter _ (filter _ ids)).
  assert (forall i, i ∈ ids' <-> i ∈ ids /\ (k * 64 <= i < k * 64 + 64)%nat) as Hids'.
  { intros i. subst ids'. rewrite !list_elem_of_filter, !Is_true_true, Nat.ltb_lt, Nat.leb_le.
    split; [intros (? & ? & ?); split; [done|lia]|]. intros [Hi ?]. pose proof (Hb i Hi).
    split; [lia|]. split; [lia|done]. }
  destruct (or_bits_fold (k * 64) ids' 0) as [Hw' Hm']; [width|intros i Hi; by apply Hids'|].
  apply (word_ext 64); [done| |].
  { destruct (sparse_words ids (pattern_count b) !! k) eqn:E; [by eapply Forall_lookup_1 in Hw|width]. }
  intros j Hj. rewrite <- (Z2Nat.id j) by lia. rewrite Hm' by lia.
  rewrite <- words_bit_split, Hm, Z.testbit_0_l by lia. simpl. apply bool_decide_ext. rewrite Hids'. naive_solver lia.
Qed.

Lemma to_owned_words_spec b :
  PatternBitSet_ok b -> (Z.of_nat (pattern_count b) < 2 ^ 64)%Z -> to_owned_words b = PatternBitSet_words b.
Proof.
  intros Hok Hn. destruct (dense_words_spec b Hok) as (Hl & _ & _). unfold to_owned_words, word_count.
  apply (list_eq_same_length _ _ (length (PatternBitSet_words b))); [done|by rewrite length_fmap, length_seq|].
  intros k x y Hk Hx Hy. rewrite list_lookup_fmap, lookup_seq_lt in Hx by lia. injection Hx as <-. simpl.
  by rewrite word_at_spec, Hy.
Qed.

Lemma set_ext_words a b :
  PatternBitSet_ok a -> PatternBitSet_ok b -> pattern_count a = pattern_count b ->
  pset a = pset b <-> PatternBitSet_words a = PatternBitSet_words b.
Proof.
  intros Ha Hb Hn. destruct (dense_words_spec a Ha) as (Hla & Hwa & Hma).
  destruct (dense_words_spec b Hb) as (Hlb & Hwb & Hmb). split.
  - intros Heq. apply words_ext; [congruence|done|done|]. intros i. rewrite Hma, Hmb.
    apply eq_true_iff_eq. by rewrite <- !pset_mem, Heq.
  - intros Heq. apply set_eq. intros i. by rewrite !pset_mem, <- Hma, <- Hmb, Heq.
Qed.

Lemma sparse_ext a b la lb :
  PatternBitSet_ok a -> PatternBitSet_ok b -> storage a = Sparse la -> storage b = Sparse lb ->
  pset a = pset b <-> la = lb.
Proof.
  intros Ha Hb Hsa Hsb. split.
  - intros Heq. pose proof Ha as Ha'. pose proof Hb as Hb'. unfold PatternBitSet_ok in Ha', Hb'.
    rewrite Hsa in Ha'. rewrite Hsb in Hb'. apply sorted_lt_ext; [apply Ha'|apply Hb'|].
    intros i. assert (i ∈ pset a <-> i ∈ pset b) as H by (by rewrite Heq).
    rewrite !pset_mem, Hsa, Hsb in H by done. simpl in H. by rewrite !bool_decide_eq_true in H.
  - intros ->. apply set_eq. intros i. by rewrite !pset_mem, Hsa, Hsb.
Qed.

Lemma forallb_words a b :
  PatternBitSet_ok a -> PatternBitSet_ok b -> pattern_count a = pattern_count b ->
  (Z.of_nat (pattern_count a) < 2 ^ 64)%Z ->
  forallb (fun i => (word_at a i =? word_at b i)%Z) (seq 0 (word_count a)) = true <->
  PatternBitSet_words a = PatternBitSet_words b.
Proof.
  intros Ha Hb Hn Hs. destruct (dense_words_spec a Ha) as (Hla & _ & _).
  destruct (dense_words_spec b Hb) as (Hlb & _ & _). rewrite forallb_forall. split.
  - intros H. apply (list_eq_same_length _ _ (length (PatternBitSet_words b))); [done|congruence|].
    intros k x y Hk Hx Hy. specialize (H k).
    rewrite !word_at_spec, Hx, Hy, Z.eqb_eq in H by (done || by rewrite <- Hn). apply H.
    rewrite <- list_elem_of_In, elem_of_seq. unfold word_count. rewrite Hn, <- Hlb. lia.
  - intros H i _. rewrite !word_at_spec, H by (done || by rewrite <- Hn). apply Z.eqb_refl.
Qed.

(** ** The iterator

    [iter_rest it] is what is left to visit, before the end bound is applied. *)

Definition iter_rest (it : CoveredPatternIter) : list nat :=
  match it_storage it with
  | IterSparse ids index => drop index ids
  | IterDense words k rem =>
      ((fun b => k * 64 + b)%nat <$> bits 64 rem) ++ words_pattern_ids (S k) (drop (S k) words)
  end.

Definition iter_ok (it : CoveredPatternIter) : Prop :=
  StronglySorted lt (iter_rest it) /\
  match it_storage it with
  | IterSparse _ _ => True
  | IterDense words _ rem => Forall (in_width 64) words /\ in_width 64 rem
  end.

Lemma dense_rest_sorted words k rem :
  Forall (in_width 64) words ->
  StronglySorted lt (((fun b => k * 64 + b)%nat <$> bits 64 rem) ++ words_pattern_ids (S k) (drop (S k) words)).
Proof.
  intros Hw. destruct (words_pattern_ids_spec (S k) (drop (S k) words)) as (Hs & Hm & _); [by apply Forall_drop|].
  apply sorted_lt_app; [apply sorted_lt_shift, sorted_lt_bits|done|].
  intros x y (b & -> & [Hb _]%elem_of_bits)%list_elem_of_fmap [Hy _]%Hm. lia.
Qed.

Lemma bits_0 w : bits w 0 = [].
Proof.
  apply nil_length_inv. rewrite <- count_ones_bits; [done|]. apply in_width_0. lia.
Qed.

Lemma dense_next_spec fuel words e k rem :
  Forall (in_width 64) words -> in_width 64 rem -> (length words <= S (k + fuel))%nat ->
  let rest := iter_rest (mkCoveredPatternIter (IterDense words k rem) e) in
  match dense_next fuel words e k rem with
  | (Some x, (k', rem')) =>
      rest = x :: iter_rest (mkCoveredPatternIter (IterDense words k' rem') e) /\ (x < e)%nat /\ in_width 64 rem'
  | (None, _) => forall x, x ∈ rest -> (e <= x)%nat
  end.
Proof.
  intros Hw. revert k rem. induction fuel as [|fuel IH]; intros k rem Hr Hlen; unfold iter_rest at 1;
    cbn [it_storage dense_next]; (destruct (Z.eqb_spec rem 0) as [->|Hne]; cbn [negb]); cycle 1.
  1, 3: assert (0 < rem)%Z as Hpos by (destruct Hr; lia); rewrite (bits_lowest 64 rem Hpos Hr), fmap_cons;
    destruct (Nat.ltb_spec (k * 64 + trailing_zeros rem) e) as [Hlt|Hge];
    [split; [done|]; split; [done|]; width|
     intros x Hx; pose proof (dense_rest_sorted words k rem Hw) as Hsort;
     rewrite (bits_lowest 64 rem Hpos Hr), fmap_cons in Hsort; rewrite <- app_comm_cons in Hx, Hsort;
     apply elem_of_cons in Hx as [->|Hx]; [done|]; pose proof (sorted_lt_head _ _ Hsort x Hx); lia].
  all: rewrite bits_0, fmap_nil, app_nil_l.
  all: destruct (words_pattern_ids_spec (S k) (drop (S k) words)) as (_ & Hm & _); [by apply Forall_drop|].
  all: destruct (Nat.leb_spec e (S k * 64)) as [He|He]; [intros x [Hx _]%Hm; lia|].
  - destruct (words !! S k) as [w|] eqn:E; cycle 1.
    { rewrite drop_ge by (by apply lookup_ge_None_1 in E). intros x Hx. by apply elem_of_nil in Hx. }
    rewrite (drop_S words w (S k) E). cbn [words_pattern_ids].
    assert (in_width 64 w) as Hww by (by eapply Forall_lookup_1 in Hw).
    rewrite (word_pattern_ids_bits 64 (S k) w Hww (count_ones_le_64 w Hww)).
    apply (IH (S k) w Hww). lia.
  - destruct (words !! S k) eqn:E; [apply lookup_lt_Some in E; lia|].
    rewrite drop_ge by (by apply lookup_ge_None_1 in E). intros x Hx. by apply elem_of_nil in Hx.
Qed.

Lemma iter_next_spec it :
  iter_ok it ->
  match iter_next it with
  | (Some x, it') =>
      iter_rest it = x :: iter_rest it' /\ (x < it_end_exclusive it)%nat /\ iter_ok it' /\
      it_end_exclusive it' = it_end_exclusive it
  | (None, _) => forall x, x ∈ iter_rest it -> (it_end_exclusive it <= x)%nat
  end.
Proof.
  destruct it as [[words k rem|ids index] e]; intros [Hs Hok]; unfold iter_next; cbn [it_storage it_end_exclusive] in *.
  - destruct Hok as [Hw Hr]. pose proof (dense_next_spec (length words) words e k rem Hw Hr ltac:(lia)) as Hn.
    destruct (dense_next (length words) words e k rem) as [[x|] [k' rem']]; [|done].
    destruct Hn as (Hrest & Hx & Hr'). split; [done|]. split; [done|]. split; [|done].
    split; [|done]. by apply dense_rest_sorted.
  - unfold iter_rest in *; cbn [it_storage] in *. destruct (ids !! index) as [x|] eqn:E; cycle 1.
    { rewrite drop_ge by (by apply lookup_ge_None_1 in E). intros x Hx. by apply elem_of_nil in Hx. }
    rewrite (drop_S ids x index E) in Hs |- *. destruct (Nat.leb_spec e x) as [He|He].
    + intros y [->|Hy]%elem_of_cons; [done|]. pose proof (sorted_lt_head _ _ Hs y Hy). lia.
    + split; [done|]. split; [done|]. apply StronglySorted_inv in Hs as [Hs _]. by repeat split.
Qed.

Lemma filter_all_false (P : nat -> bool) l : (forall x, x ∈ l -> P x = false) -> filter (fun x => P x) l = [].
Proof.
  induction l as [|x l IH]; intros H; [done|]. rewrite filter_cons_False.
  - apply IH. intros y Hy. apply H. by right.
  - rewrite (H x) by (by left). by intros [].
Qed.

Lemma iter_collect_spec fuel it :
  iter_ok it -> (length (filter (fun x => (x <? it_end_exclusive it)%nat) (iter_rest it)) < fuel)%nat ->
  iter_collect fuel it = filter (fun x => (x <? it_end_exclusive it)%nat) (iter_rest it).
Proof.
  revert it. induction fuel as [|fuel IH]; intros it Hok Hf; [lia|]. simpl.
  pose proof (iter_next_spec it Hok) as Hn. destruct (iter_next it) as [[x|] it'].
  - destruct Hn as (Hrest & Hx & Hok' & He). rewrite Hrest in Hf |- *.
    rewrite filter_cons_True in Hf |- * by (by apply Is_true_true, Nat.ltb_lt). simpl in Hf.
    rewrite <- He in Hf |- *. f_equal. apply IH; [done|lia].
  - symmetry. apply filter_all_false. intros x Hx%Hn. by apply Nat.ltb_ge.
Qed.

Lemma words_bit_drop words k i :
  (k * 64 <= i)%nat -> words_bit (drop k words) (i - k * 64) = words_bit words i.
Proof.
  intros Hi. unfold words_bit. rewrite lookup_drop.
  assert (i = i - k * 64 + k * 64)%nat as Heq by lia.
  replace (k + (i - k * 64) / 64)%nat with (i / 64)%nat by (rewrite Heq at 1; rewrite Nat.div_add by lia; lia).
  replace ((i - k * 64) mod 64)%nat with (i mod 64)%nat by (rewrite Heq at 1; apply Nat.Div0.mod_add). done.
Qed.

Lemma first_word_bit words s j :
  (j < 64)%nat ->
  Z.testbit (Z.land (default 0%Z (words !! (s / 64)%nat)) (shl 64 (umax 64) (Z.of_nat (s mod 64)))) (Z.of_nat j) =
  words_bit words (s / 64 * 64 + j) && (s mod 64 <=? j)%nat.
Proof.
  intros Hj. pose proof (mod64_lt s).
  rewrite Z.land_spec, testbit_shl, <- ones_umax, testbit_ones, words_bit_split by lia.
  f_equal. destruct (Nat.leb_spec (s mod 64) j); lia.
Qed.

Lemma dense_range_rest words s i :
  Forall (in_width 64) words ->
  i ∈ iter_rest (mkCoveredPatternIter (IterDense words (s / 64)
        (Z.land (default 0%Z (words !! (s / 64)%nat)) (shl 64 (umax 64) (Z.of_nat (s mod 64))))) 0) <->
  words_bit words i = true /\ (s <= i)%nat.
Proof.
  intros Hw. pose proof (mod64_lt s) as Hm64. pose proof (Nat.div_mod_eq s 64) as Hd.
  unfold iter_rest; cbn [it_storage].
  destruct (words_pattern_ids_spec (S (s / 64)) (drop (S (s / 64)) words)) as (_ & Hm & _); [by apply Forall_drop|].
  rewrite elem_of_app, Hm, list_elem_of_fmap. setoid_rewrite elem_of_bits. split.
  - intros [(j & -> & Hj & Hbj)|[Hi Hbi]].
    + rewrite first_word_bit in Hbj by done. bool_prop. split; [done|lia].
    + rewrite words_bit_drop in Hbi by done. split; [done|lia].
  - intros [Hbi Hi]. destruct (decide (S (s / 64) * 64 <= i)%nat).
    + right. split; [done|]. by rewrite words_bit_drop.
    + left. exists (i - s / 64 * 64)%nat. split; [lia|]. split; [lia|]. rewrite first_word_bit by lia.
      replace (s / 64 * 64 + (i - s / 64 * 64))%nat with i by lia. rewrite Hbi. apply Nat.leb_le. lia.
Qed.

Lemma range_rest_spec b s e :
  PatternBitSet_ok b ->
  let it := covered_patterns_in_range b s e in
  iter_ok it /\ it_end_exclusive it = Nat.min e (pattern_count b) /\
  forall i, i ∈ iter_rest it <-> storage_mem (storage b) i = true /\ (Nat.min s (Nat.min e (pattern_count b)) <= i)%nat.
Proof.
  intros Hok. cbv zeta. unfold covered_patterns_in_range. set (s' := Nat.min s _).
  unfold PatternBitSet_ok in Hok. destruct (storage b) as [words|ids]; simpl in Hok.
  - destruct Hok as (Hl & Hw & Hb). split; [|split; [done|intros i; by apply dense_range_rest]].
    split; [by apply dense_rest_sorted|]. split; [done|]. apply in_width_land; [lia| |].
    + destruct (words !! (s' / 64)%nat) eqn:E; [by eapply Forall_lookup_1 in Hw|width].
    + apply (in_width_shl 64); [lia|]. unfold umax. lia.
  - destruct Hok as [Hs Hb]. unfold iter_ok, iter_rest; cbn [it_storage it_end_exclusive storage_mem].
    rewrite drop_partition_point by done. split; [split; [by apply sorted_lt_filter|done]|]. split; [done|].
    intros i. rewrite list_elem_of_filter, Is_true_true, Nat.leb_le, bool_decide_eq_true. tauto.
Qed.

(** The covered-pattern iterator.  Started on any range [s..e] and run to
    its end, it yields exactly the covered patterns of the range, clipped to
    the universe, each once and in increasing order, on both layouts; as many
    calls to [next] as there are positions in the range, plus one, reach the
    end. *)
Theorem covered_patterns_in_range_spec (b : PatternBitSet) (s e fuel : nat)
    (Hok : PatternBitSet_ok b) (Hfuel : (pattern_count b < fuel)%nat) :
  let e' := Nat.min e (pattern_count b) in
  let s' := Nat.min s e' in
  iter_collect fuel (covered_patterns_in_range b s e) =
    filter (fun i => PatternBitSet_contains b i) (seq s' (e' - s')).
Proof.
  cbv zeta. destruct (range_rest_spec b s e Hok) as (Hit & He & Hm).
  set (e' := Nat.min e (pattern_count b)) in *. set (s' := Nat.min s e') in *.
  set (it := covered_patterns_in_range b s e) in *.
  assert (filter (fun x => (x <? it_end_exclusive it)%nat) (iter_rest it) =
          filter (fun i => PatternBitSet_contains b i) (seq s' (e' - s'))) as Heq.
  { apply sorted_lt_ext; [apply sorted_lt_filter, Hit|apply sorted_lt_filter, sorted_lt_seq|].
    intros i. rewrite !list_elem_of_filter, !Is_true_true, Nat.ltb_lt, Hm, elem_of_seq, contains_storage_mem, He by done.
    assert (s' <= e')%nat by lia. split; [intros (? & ? & ?)|intros (? & ? & ?)]; repeat split; try done; lia. }
  rewrite iter_collect_spec; [done|done|]. rewrite Heq.
  eapply Nat.le_lt_trans; [apply length_filter|]. rewrite length_seq. lia.
Qed.

Lemma covered_patterns_in_range_spec_witness :
  iter_collect 200 (covered_patterns_in_range (mkPatternBitSet 130 (Sparse [1; 64; 127]%nat)) 2 128) = [64; 127]%nat.
Proof.
  rewrite covered_patterns_in_range_spec; [reflexivity| |simpl; lia].
  split; [repeat constructor; lia|]. intros i Hi. simpl.
  repeat (apply elem_of_cons in Hi as [->|Hi]; [lia|]). by apply elem_of_nil in Hi.
Defined.

(** ** Set operations *)

Lemma pset_of_mem n st (P : nat -> Prop) :
  storage_ok n st -> (forall i, storage_mem st i = true <-> P i) ->
  PatternBitSet_ok (mkPatternBitSet n st) /\ forall i, i ∈ pset (mkPatternBitSet n st) <-> P i.
Proof. intros Hok Hm. split; [done|]. intros i. rewrite pset_mem by done. apply Hm. Qed.

Lemma new_spec n : PatternBitSet_ok (PatternBitSet_new n) /\ pset (PatternBitSet_new n) = ∅.
Proof.
  assert (storage_ok n (Dense (replicate (dense_word_count n) 0%Z))) as Hok.
  { split; [apply length_replicate|]. split; [apply zero_words_width|]. intros i. by rewrite zero_words_bit. }
  split; [done|]. apply set_eq. intros i. rewrite pset_mem by done. simpl. rewrite zero_words_bit. set_solver.
Qed.

Lemma union_with_spec a b :
  PatternBitSet_ok a -> PatternBitSet_ok b -> pattern_count a = pattern_count b ->
  exists c, PatternBitSet_union_with a b = Ok c /\ PatternBitSet_ok c /\
    pattern_count c = pattern_count a /\ pset c = pset a ∪ pset b.
Proof.
  intros Ha Hb Hn. unfold PatternBitSet_union_with. rewrite <- Hn, Nat.eqb_refl. simpl.
  destruct (dense_words_spec a Ha) as (Hla & Hwa & Hma). destruct (dense_words_spec b Hb) as (Hlb & Hwb & Hmb).
  assert (forall st, storage_ok (pattern_count a) st ->
    (forall i, storage_mem st i = storage_mem (storage a) i || storage_mem (storage b) i) ->
    exists c, Ok (mkPatternBitSet (pattern_count a) st) = @Ok PatternBitSetError _ c /\ PatternBitSet_ok c /\
      pattern_count c = pattern_count a /\ pset c = pset a ∪ pset b) as Hdone.
  { intros st Hst Hm. eexists; split; [done|]. split; [done|]. split; [done|]. apply set_eq. intros i.
    by rewrite elem_of_union, !pset_mem, <- orb_true_iff, <- Hm. }
  assert (forall words, length words = dense_word_count (pattern_count a) -> Forall (in_width 64) words ->
    (forall i, words_bit words i = storage_mem (storage a) i || storage_mem (storage b) i) ->
    storage_ok (pattern_count a) (Dense words)) as Hdense.
  { intros words Hl Hw Hm. split; [done|]. split; [done|]. intros i. rewrite Hm.
    intros [Hi|Hi]%orb_true_iff; [by apply (storage_mem_lt _ (storage a))|rewrite Hn; by apply (storage_mem_lt _ (storage b))]. }
  assert (forall ids, storage b = Sparse ids ->
    let words := foldl set_word_bit (PatternBitSet_words a) ids in
    length words = dense_word_count (pattern_count a) /\ Forall (in_width 64) words /\
    forall i, words_bit words i = storage_mem (storage a) i || storage_mem (storage b) i) as Hfold.
  { intros ids Hids. unfold PatternBitSet_ok in Hb. rewrite Hids in Hb |- *. destruct Hb as [_ Hb].
    destruct (set_words_spec ids (PatternBitSet_words a)) as (Hl & Hw & Hm); [|done|].
    - apply Forall_forall. intros i [Hi _]%Hb. rewrite Hla, Hn. by apply dense_word_count_index.
    - split; [congruence|]. split; [done|]. intros i. by rewrite Hm, Hma. }
  assert (let words := zip_with Z.lor (PatternBitSet_words a) (PatternBitSet_words b) in
    length words = dense_word_count (pattern_count a) /\ Forall (in_width 64) words /\
    forall i, words_bit words i = storage_mem (storage a) i || storage_mem (storage b) i) as Hzip.
  { split; [rewrite length_zip_with, Hla, Hlb, <- Hn; lia|]. split.
    - apply Forall_zip_with_fst with (P := in_width 64); [done|]. apply Forall_impl with (in_width 64); [done|].
      intros y Hy x Hx. width.
    - intros i. rewrite words_bit_zip_lor, Hma, Hmb by congruence. done. }
  unfold dense_words_mut.
  destruct (storage a) as [wa|ia] eqn:Ea, (storage b) as [wb|ib] eqn:Eb;
    [|destruct (Hfold ib eq_refl) as (? & ? & ?)| |].
  1, 3: destruct Hzip as (? & ? & ?); apply Hdone; [by apply Hdense|done].
  - apply Hdone; [by apply Hdense|done].
  - unfold PatternBitSet_ok in Ha, Hb. rewrite Ea in Ha. rewrite Eb in Hb. destruct Ha as [Hsa Hba], Hb as [Hsb Hbb].
    destruct (compact_ids_spec (pattern_count a) (merge_pattern_ids ia ib)) as [Hst Hm].
    + by apply merge_pattern_ids_sorted.
    + intros i [Hi|Hi]%merge_pattern_ids_elem; [by apply Hba|rewrite Hn; by apply Hbb].
    + apply Hdone; [done|]. intros i. rewrite Hm. simpl. apply eq_true_iff_eq.
      by rewrite orb_true_iff, !bool_decide_eq_true, merge_pattern_ids_elem.
Qed.

(** C21: Union is set union.  Over one universe, [union] succeeds on every
    combination of dense and sparse operands, keeps the storage invariant and
    covers exactly the patterns either operand covers (so a pattern covered by
    both is covered once); over different universes it is refused. *)
Theorem union_is_set_union (a b : PatternBitSet) (Ha : PatternBitSet_ok a) (Hb : PatternBitSet_ok b) :
  (pattern_count a = pattern_count b ->
     exists c, PatternBitSet_union a b = Ok c /\ PatternBitSet_ok c /\
       pattern_count c = pattern_count a /\ pset c = pset a ∪ pset b) /\
  (pattern_count a <> pattern_count b ->
     PatternBitSet_union a b = Err (PatternUniverseMismatch (pattern_count a) (pattern_count b))).
Proof.
  split; [by apply union_with_spec|]. intros Hne. unfold PatternBitSet_union, PatternBitSet_union_with.
  by rewrite (proj2 (Nat.eqb_neq _ _) Hne).
Qed.

Lemma sparse_ok_of n ids :
  bool_decide (Sorted lt ids) && forallb (fun i => (i <? n)%nat && (Z.of_nat i <? 2 ^ 32)%Z) ids = true ->
  PatternBitSet_ok (mkPatternBitSet n (Sparse ids)).
Proof.
  intros H. bool_prop. split.
  - apply Sorted_StronglySorted; [intros x y z; lia|done].
  - intros i Hi. rewrite forallb_forall in *. apply list_elem_of_In in Hi.
    match goal with H : forall x, _ -> _ |- _ => specialize (H i Hi) end. by bool_prop.
Qed.

Lemma union_is_set_union_witness :
  exists c, PatternBitSet_union (mkPatternBitSet 300 (Sparse [1; 7]%nat)) (mkPatternBitSet 300 (Sparse [7; 9]%nat)) = Ok c /\
    pset c = pset (mkPatternBitSet 300 (Sparse [1; 7]%nat)) ∪ pset (mkPatternBitSet 300 (Sparse [7; 9]%nat)).
Proof.
  destruct (union_is_set_union (mkPatternBitSet 300 (Sparse [1; 7]%nat)) (mkPatternBitSet 300 (Sparse [7; 9]%nat)))
    as [H _]; [by apply sparse_ok_of|by apply sparse_ok_of|].
  destruct (H eq_refl) as (c & Hc & _ & _ & Hp). by exists c.
Defined.

Lemma superset_dense_spec a words :
  PatternBitSet_ok a -> storage_ok (pattern_count a) (Dense words) ->
  forallb (fun '(index, required_word) =>
             let current := default 0%Z (PatternBitSet_words a !! index) in
             (Z.land current required_word =? required_word)%Z)
    (imap (fun index word => (index, word)) words) = true <->
  forall i, words_bit words i = true -> storage_mem (storage a) i = true.
Proof.
  intros Ha (Hl & Hw & _). destruct (dense_words_spec a Ha) as (Hla & Hwa & Hma).
  rewrite forallb_forall. split.
  - intros H i Hi. rewrite <- Hma. unfold words_bit in Hi |- *.
    destruct (words !! (i / 64)%nat) as [w|] eqn:E; simpl in Hi; [|by rewrite Z.testbit_0_l in Hi].
    specialize (H ((i / 64)%nat, w)). rewrite Z.eqb_eq in H.
    assert (Z.testbit (Z.land (default 0%Z (PatternBitSet_words a !! (i / 64)%nat)) w) (Z.of_nat (i mod 64)) = true) as Hb.
    { rewrite H; [done|]. apply list_elem_of_In, list_elem_of_lookup. exists (i / 64)%nat. by rewrite list_lookup_imap, E. }
    rewrite Z.land_spec in Hb. by bool_prop.
  - intros H [k w] Hin. apply list_elem_of_In, list_elem_of_lookup in Hin as [k' Hk].
    rewrite list_lookup_imap in Hk. destruct (words !! k') as [w'|] eqn:E; [|done]. injection Hk as -> ->.
    apply Z.eqb_eq. assert (in_width 64 w) as Hww by (by eapply Forall_lookup_1 in Hw).
    apply (word_ext 64); [rewrite Z.land_comm; apply in_width_land; [lia|done|]|done|].
    { destruct (PatternBitSet_words a !! k) eqn:E'; [|done]. eapply Forall_lookup_1 in Hwa; [apply Hwa|done]. }
    intros j Hj. rewrite Z.land_spec. destruct (Z.testbit w j) eqn:Eb; [|btauto].
    specialize (H (k * 64 + Z.to_nat j)%nat). rewrite <- Hma, !words_bit_split, E, Z2Nat.id in H by lia.
    simpl in H. by rewrite H.
Qed.

Lemma is_superset_spec a required :
  PatternBitSet_ok a -> PatternBitSet_ok required -> pattern_count a = pattern_count required ->
  exists r, PatternBitSet_is_superset a required = Ok r /\ (r = true <-> pset required ⊆ pset a).
Proof.
  intros Ha Hr Hn. unfold PatternBitSet_is_superset. rewrite Hn, Nat.eqb_refl. simpl.
  assert (pset required ⊆ pset a <->
    forall i, storage_mem (storage required) i = true -> storage_mem (storage a) i = true) as Hsub.
  { rewrite elem_of_subseteq. split; intros H i; specialize (H i); rewrite !pset_mem in * by done; done. }
  unfold PatternBitSet_ok in Hr. destruct (storage required) as [words|ids]; eexists; split; try done.
  - rewrite Hsub. simpl. apply superset_dense_spec; [done|]. by rewrite Hn.
  - rewrite Hsub, forallb_forall. split; intros H i; specialize (H i).
    + simpl. rewrite bool_decide_eq_true. intros Hi. rewrite <- contains_storage_mem by done. apply H.
      by apply list_elem_of_In.
    + intros Hi. rewrite contains_storage_mem by done. apply H. simpl. by apply bool_decide_eq_true, list_elem_of_In.
Qed.

Lemma is_empty_spec b : PatternBitSet_ok b -> PatternBitSet_is_empty b = true <-> pset b = ∅.
Proof.
  intros Hok. unfold PatternBitSet_is_empty.
  assert (pset b = ∅ <-> forall i, storage_mem (storage b) i = false) as ->.
  { rewrite set_eq. split.
    - intros H i. destruct (storage_mem (storage b) i) eqn:E; [|done]. apply pset_mem, H in E; [set_solver|done].
    - intros H i. rewrite pset_mem, H by done. set_solver. }
  unfold PatternBitSet_ok in Hok. destruct (storage b) as [words|ids]; simpl.
  - destruct Hok as (Hl & Hw & _). rewrite forallb_forall. split.
    + intros H i. unfold words_bit. destruct (words !! (i / 64)%nat) as [w|] eqn:E; [|apply Z.testbit_0_l]. simpl.
      assert (w = 0%Z) as ->; [|apply Z.testbit_0_l]. apply Z.eqb_eq, H, list_elem_of_In.
      apply list_elem_of_lookup. by eexists.
    + intros H w (k & Hk)%list_elem_of_In%list_elem_of_lookup. apply Z.eqb_eq.
      apply (word_ext 64); [by eapply Forall_lookup_1 in Hw|width|]. intros j Hj.
      specialize (H (k * 64 + Z.to_nat j)%nat). rewrite words_bit_split, Hk, Z2Nat.id in H by lia.
      by rewrite Z.testbit_0_l.
  - rewrite bool_decide_eq_true. split; [intros -> i; by apply bool_decide_eq_false, not_elem_of_nil|].
    destruct ids as [|x ids]; [done|]. intros H. specialize (H x). apply bool_decide_eq_false in H.
    exfalso. apply H. by left.
Qed.

Lemma find_first_word_spec k words :
  Forall (in_width 64) words -> find_first_word k words = head (words_pattern_ids k words).
Proof.
  revert k. induction words as [|w words IH]; intros k Hw; [done|]. apply Forall_cons in Hw as [Hw Hws].
  cbn [find_first_word words_pattern_ids].
  rewrite (word_pattern_ids_bits 64 k w Hw (count_ones_le_64 w Hw)).
  destruct (Z.eqb_spec w 0) as [->|Hne]; cbn [negb].
  - rewrite bits_0. apply IH, Hws.
  - rewrite (bits_lowest 64 w); [done|destruct Hw; lia|done].
Qed.

(** The storage of a set lists its members in increasing order. *)
Definition storage_ids (st : PatternBitStorage) : list nat :=
  match st with
  | Dense words => words_pattern_ids 0 words
  | Sparse ids => ids
  end.

Lemma storage_ids_spec b :
  PatternBitSet_ok b ->
  StronglySorted lt (storage_ids (storage b)) /\ forall i, i ∈ storage_ids (storage b) <-> i ∈ pset b.
Proof.
  intros Hok. assert (forall i, i ∈ pset b <-> storage_mem (storage b) i = true) as Hm by (intros; by apply pset_mem).
  setoid_rewrite Hm. unfold PatternBitSet_ok in Hok. destruct (storage b) as [words|ids]; simpl in *.
  - destruct Hok as (_ & Hw & _). destruct (words_pattern_ids_spec 0 words Hw) as (Hs & Hi & _). split; [done|].
    intros i. rewrite Hi. simpl. rewrite Nat.sub_0_r. split; [naive_solver|]. intros; split; [lia|done].
  - destruct Hok as [Hs _]. split; [done|]. intros i. by rewrite bool_decide_eq_true.
Qed.

Lemma storage_ids_size b : PatternBitSet_ok b -> length (storage_ids (storage b)) = size (pset b).
Proof.
  intros Hok. destruct (storage_ids_spec b Hok) as [Hs Hm].
  rewrite <- (size_list_to_set (C := gset nat)) by (by apply sorted_lt_NoDup). f_equal.
  apply set_eq. intros i. by rewrite elem_of_list_to_set, Hm.
Qed.

Lemma saturating_count words acc :
  (0 <= acc)%Z ->
  foldl (fun count word => saturating_add 32 count (Z.of_nat (count_ones word))) (Z.min acc (umax 32)) words =
  Z.min (acc + Z.of_nat (sum_list (count_ones <$> words))) (umax 32).
Proof.
  revert acc. induction words as [|w words IH]; intros acc Hacc; cbn [foldl fmap list_fmap sum_list sum_list_with];
    [by rewrite Z.add_0_r|].
  unfold saturating_add at 2.
  replace (Z.min (Z.min acc (umax 32) + Z.of_nat (count_ones w)) (umax 32))
    with (Z.min (acc + Z.of_nat (count_ones w)) (umax 32)) by lia.
  rewrite IH by lia. f_equal. simpl. lia.
Qed.

Lemma count_ones_spec b :
  PatternBitSet_ok b -> PatternBitSet_count_ones b = Z.min (Z.of_nat (size (pset b))) (umax 32).
Proof.
  intros Hok. rewrite <- storage_ids_size by done. unfold PatternBitSet_count_ones, PatternBitSet_ok in *.
  destruct (storage b) as [words|ids]; simpl in *.
  - destruct Hok as (_ & Hw & _). destruct (words_pattern_ids_spec 0 words Hw) as (_ & _ & ->).
    change 0%Z with (Z.min 0 (umax 32)). rewrite saturating_count by lia. done.
  - unfold try_from. destruct (Z.ltb_spec (Z.of_nat (length ids)) (2 ^ 32)); simpl; unfold umax in *; lia.
Qed.

Lemma head_sorted_min (l : list nat) x : StronglySorted lt l -> head l = Some x -> forall y, y ∈ l -> (x <= y)%nat.
Proof.
  destruct l as [|z l]; [done|]. intros Hs [= ->] y [->|Hy]%elem_of_cons; [done|].
  pose proof (sorted_lt_head _ _ Hs y Hy). lia.
Qed.

(** The observers of a bit set agree with the set it denotes:
    [is_superset] decides inclusion, [is_empty] emptiness, [count_ones] is the
    cardinality (saturating at [u32::MAX]), and [first_pattern] is the least
    covered pattern, if any. *)
Theorem bitset_observers (a b : PatternBitSet) (Ha : PatternBitSet_ok a) (Hb : PatternBitSet_ok b)
    (Hn : pattern_count a = pattern_count b) :
  (exists r, PatternBitSet_is_superset a b = Ok r /\ (r = true <-> pset b ⊆ pset a)) /\
  (PatternBitSet_is_empty a = true <-> pset a = ∅) /\
  PatternBitSet_count_ones a = Z.min (Z.of_nat (size (pset a))) (umax 32) /\
  match first_pattern a with
  | Some p => p ∈ pset a /\ forall q, q ∈ pset a -> (p <= q)%nat
  | None => pset a = ∅
  end.
Proof.
  split; [by apply is_superset_spec|]. split; [by apply is_empty_spec|]. split; [by apply count_ones_spec|].
  destruct (storage_ids_spec a Ha) as [Hs Hm].
  assert (first_pattern a = head (storage_ids (storage a))) as ->.
  { unfold first_pattern, PatternBitSet_ok in *. destruct (storage a) as [words|ids]; [|done]. simpl.
    apply find_first_word_spec, Ha. }
  destruct (head (storage_ids (storage a))) as [p|] eqn:E.
  - split.
    + apply Hm. destruct (storage_ids (storage a)); [done|]. injection E as ->. by left.
    + intros q Hq%Hm. by apply (head_sorted_min _ _ Hs E).
  - apply set_eq. intros i. rewrite <- Hm. destruct (storage_ids (storage a)); [set_solver|done].
Qed.

Lemma bitset_observers_witness :
  exists r, PatternBitSet_is_superset (mkPatternBitSet 300 (Sparse [1; 7]%nat)) (mkPatternBitSet 300 (Sparse [7]%nat)) = Ok r /\
    (r = true <-> pset (mkPatternBitSet 300 (Sparse [7]%nat)) ⊆ pset (mkPatternBitSet 300 (Sparse [1; 7]%nat))).
Proof.
  destruct (bitset_observers (mkPatternBitSet 300 (Sparse [1; 7]%nat)) (mkPatternBitSet 300 (Sparse [7]%nat)))
    as (H & _); [by apply sparse_ok_of|by apply sparse_ok_of|done|exact H].
Defined.

(** [PartialEq] is set equality: two bit sets compare equal exactly when
    they range over the same universe and cover the same patterns, whatever
    the layouts of the two sides. *)
Theorem bitset_eq_is_set_eq (a b : PatternBitSet) (Ha : PatternBitSet_ok a) (Hb : PatternBitSet_ok b)
    (Hsize : (Z.of_nat (pattern_count a) < 2 ^ 64)%Z) :
  PatternBitSet_eq a b = true <-> pattern_count a = pattern_count b /\ pset a = pset b.
Proof.
  unfold PatternBitSet_eq. destruct (Nat.eqb_spec (pattern_count a) (pattern_count b)) as [Hn|Hn]; simpl; [|naive_solver].
  pose proof (forallb_words a b Ha Hb Hn Hsize) as Hw. pose proof (set_ext_words a b Ha Hb Hn) as Hs.
  destruct (storage a) as [wa|ia] eqn:Ea, (storage b) as [wb|ib] eqn:Eb; [tauto|tauto|tauto|].
  rewrite bool_decide_eq_true, <- (sparse_ext a b ia ib) by done. tauto.
Qed.

Lemma bitset_eq_is_set_eq_witness :
  PatternBitSet_eq (mkPatternBitSet 1024 (Sparse [7]%nat))
    (mkPatternBitSet 1024 (Dense (set_word_bit (replicate 16 0%Z) 7))) = true /\
  pset (mkPatternBitSet 1024 (Sparse [7]%nat)) =
    pset (mkPatternBitSet 1024 (Dense (set_word_bit (replicate 16 0%Z) 7))).
Proof.
  assert (PatternBitSet_ok (mkPatternBitSet 1024 (Dense (set_word_bit (replicate 16 0%Z) 7)))) as Hd.
  { destruct (set_word_bit_spec (replicate 16 0%Z) 7) as (Hl & Hw & Hb); [by vm_compute; lia|apply zero_words_width|].
    split; [by rewrite Hl|]. split; [done|]. intros i. rewrite Hb, zero_words_bit. simpl. intros ?. bool_prop. lia. }
  assert (PatternBitSet_eq (mkPatternBitSet 1024 (Sparse [7]%nat))
    (mkPatternBitSet 1024 (Dense (set_word_bit (replicate 16 0%Z) 7))) = true) as He by reflexivity.
  split; [exact He|].
  apply (bitset_eq_is_set_eq (mkPatternBitSet 1024 (Sparse [7]%nat))
    (mkPatternBitSet 1024 (Dense (set_word_bit (replicate 16 0%Z) 7)))); [by apply sparse_ok_of|exact Hd|simpl; lia|exact He].
Defined.

(** ** Constructors *)

Lemma last_max (l : list nat) m : StronglySorted lt l -> last l = Some m -> m ∈ l /\ forall x, x ∈ l -> (x <= m)%nat.
Proof.
  intros Hs Hl. apply last_Some in Hl as [l' ->]. split; [apply elem_of_app; right; by left|].
  intros x [Hx|[->|Hx]%elem_of_cons]%elem_of_app; [|done|by apply elem_of_nil in Hx].
  induction l' as [|y l' IH]; [by apply elem_of_nil in Hx|]. simpl in Hs.
  pose proof (sorted_lt_head _ _ Hs) as Hy. apply StronglySorted_inv in Hs as [Hs _].
  apply elem_of_cons in Hx as [->|Hx]; [|by apply IH]. apply Nat.lt_le_incl, Hy, elem_of_app. right. by left.
Qed.

Lemma from_pattern_indices_spec n ids :
  (forall i, i ∈ ids -> (Z.of_nat i < 2 ^ 32)%Z) ->
  match PatternBitSet_from_pattern_indices n ids with
  | Ok b => pattern_count b = n /\ PatternBitSet_ok b /\ pset b = list_to_set ids
  | Err e => exists m, e = PatternOutOfRange m n /\ m ∈ ids /\ (n <= m)%nat /\ forall i, i ∈ ids -> (i <= m)%nat
  end.
Proof.
  intros Hu. unfold PatternBitSet_from_pattern_indices. destruct (sort_dedup_spec ids) as [Hs Hm].
  assert ((forall i, i ∈ sort_dedup ids -> (i < n)%nat) ->
    let b := mkPatternBitSet n (compact_storage_from_pattern_ids n (sort_dedup ids)) in
    pattern_count b = n /\ PatternBitSet_ok b /\ pset b = list_to_set ids) as Hok.
  { intros Hlt. destruct (compact_ids_spec n (sort_dedup ids) Hs) as [Hst Hmem].
    { intros i Hi. split; [by apply Hlt|by apply Hu, Hm]. }
    split; [done|]. split; [done|]. apply set_eq. intros i.
    by rewrite pset_mem, elem_of_list_to_set, <- Hm; simpl; rewrite ?Hmem, ?bool_decide_eq_true. }
  destruct (last (sort_dedup ids)) as [m|] eqn:El.
  - destruct (last_max _ _ Hs El) as [Hin Hmax]. destruct (Nat.leb_spec n m).
    + exists m. split; [done|]. split; [by apply Hm|]. split; [done|]. intros i Hi. by apply Hmax, Hm.
    + apply Hok. intros i Hi%Hmax. lia.
  - apply last_None in El. apply Hok. rewrite El. intros i Hi. by apply elem_of_nil in Hi.
Qed.

Lemma from_words_spec n words :
  length words = dense_word_count n -> Forall (in_width 64) words ->
  exists b, PatternBitSet_from_words n words = Ok b /\ pattern_count b = n /\ PatternBitSet_ok b /\
    forall i, i ∈ pset b <-> words_bit words i = true /\ (i < n)%nat.
Proof.
  intros Hl Hw. unfold PatternBitSet_from_words. rewrite Hl, Nat.eqb_refl. simpl.
  destruct (mask_last_spec n words Hl Hw) as [Hok Hb].
  destruct (compact_words_spec n _ Hok) as [Hst Hm]. eexists; split; [done|]. split; [done|]. split; [done|].
  intros i. rewrite pset_mem by done. simpl. by rewrite Hm, Hb, andb_true_iff, Nat.ltb_lt.
Qed.

Lemma last_word_clean n words :
  length words = dense_word_count n -> Forall (in_width 64) words ->
  (n mod 64 =? 0)%nat = true \/
  (forall l, last words = Some l -> Z.land l (wnot 64 (shl 64 1 (Z.of_nat (n mod 64)) - 1)) = 0%Z) ->
  storage_ok n (Dense words).
Proof.
  intros Hl Hw Hclean. destruct (mask_last_spec n words Hl Hw) as [Hok Hb].
  assert (update_last (n mod 64) (fun last => Z.land last (shl 64 1 (Z.of_nat (n mod 64)) - 1)) words = words) as Heq;
    [|by rewrite Heq in Hok].
  unfold update_last. destruct (Nat.eqb_spec (n mod 64) 0) as [|Hne]; [done|].
  destruct Hclean as [|Hclean]; [done|]. apply list_eq. intros k. pose proof (mod64_lt n).
  destruct (decide (k = length words - 1)%nat) as [->|Hk]; [|by apply list_lookup_alter_ne].
  rewrite list_lookup_alter_eq. replace (length words - 1)%nat with (pred (length words)) by lia.
  rewrite <- last_lookup. destruct (last words) as [l|] eqn:El; [|done]. simpl. f_equal.
  specialize (Hclean l eq_refl). rewrite low_mask_ones in * by lia.
  assert (in_width 64 l) as Hwl by (apply last_Some in El as [l' ->]; apply Forall_app in Hw as [_ Hw]; by apply Forall_cons in Hw as [? _]).
  apply Z.eqb_eq, land_wnot_ones_0 in Hclean; [|lia|done].
  rewrite Z.land_ones by lia. by apply Z.mod_small.
Qed.

Lemma all_spec n : PatternBitSet_ok (PatternBitSet_all n) /\ pset (PatternBitSet_all n) = set_seq 0 n.
Proof.
  destruct (mask_last_spec n (replicate (dense_word_count n) (umax 64))) as [Hok Hb];
    [apply length_replicate|apply Forall_replicate; unfold in_width, umax; lia|].
  assert (update_last (n mod 64) (fun _ => shl 64 1 (Z.of_nat (n mod 64)) - 1)%Z (replicate (dense_word_count n) (umax 64)) =
          update_last (n mod 64) (fun last => Z.land last (shl 64 1 (Z.of_nat (n mod 64)) - 1))%Z
            (replicate (dense_word_count n) (umax 64))) as Heq.
  { unfold update_last. pose proof (mod64_lt n). case_match; [done|]. rewrite low_mask_ones by lia. apply list_eq.
    intros k. rewrite !list_lookup_alter. case_decide; [|done].
    rewrite H1. destruct (replicate (dense_word_count n) (umax 64) !! k) as [x|] eqn:E; [|done]. apply lookup_replicate in E as [-> _]. simpl. f_equal.
    rewrite Z.land_comm, <- ones_umax. symmetry. rewrite Z.land_ones by lia. apply Z.mod_small.
    apply (in_width_mono (Z.of_nat (n mod 64))); [lia|]. apply in_width_ones. lia. }
  unfold PatternBitSet_all. rewrite Heq. split; [done|]. apply set_eq. intros i.
  rewrite pset_mem, elem_of_set_seq by done. simpl. rewrite Hb, andb_true_iff, Nat.ltb_lt.
  split; [intros [_ ?]; lia|]. intros [_ Hi]. split; [|lia]. unfold words_bit. pose proof (mod64_lt i).
  rewrite lookup_replicate_2 by (by apply dense_word_count_index). simpl.
  rewrite <- ones_umax, testbit_ones, (proj2 (Z.leb_le 0 _)), (proj2 (Z.ltb_lt _ 64)) by lia. done.
Qed.

Lemma insert_spec b i :
  PatternBitSet_ok b -> (i < pattern_count b)%nat ->
  exists c, PatternBitSet_insert b i = Ok c /\ PatternBitSet_ok c /\
    pattern_count c = pattern_count b /\ pset c = {[ i ]} ∪ pset b.
Proof.
  intros Hok Hi. unfold PatternBitSet_insert. rewrite (proj2 (Nat.leb_gt _ _)) by done.
  destruct (dense_words_spec b Hok) as (Hl & Hw & Hm).
  destruct (set_word_bit_spec (PatternBitSet_words b) i) as (Hl' & Hw' & Hb');
    [rewrite Hl; by apply dense_word_count_index|done|].
  assert (storage_ok (pattern_count b) (Dense (set_word_bit (PatternBitSet_words b) i))) as Hst.
  { split; [congruence|]. split; [done|]. intros j. rewrite Hb', Hm. intros [Hj|Hj]%orb_true_iff.
    - by apply (storage_mem_lt _ (storage b)).
    - apply Nat.eqb_eq in Hj as ->. done. }
  eexists; split; [done|]. split; [done|]. split; [done|]. apply set_eq. intros j.
  rewrite elem_of_union, elem_of_singleton, !pset_mem by done. simpl.
  rewrite Hb', Hm, orb_true_iff, Nat.eqb_eq. tauto.
Qed.

Lemma insert_all_spec b patterns :
  PatternBitSet_ok b -> (forall i, i ∈ patterns -> (i < pattern_count b)%nat) ->
  exists c, insert_all b patterns = Ok c /\ PatternBitSet_ok c /\
    pattern_count c = pattern_count b /\ pset c = list_to_set patterns ∪ pset b.
Proof.
  revert b. induction patterns as [|i patterns IH]; intros b Hok Hi.
  { exists b. simpl. split; [done|]. split; [done|]. split; [done|]. set_solver. }
  destruct (insert_spec b i Hok ltac:(apply Hi; by left)) as (c & Hc & Hokc & Hnc & Hpc). simpl. rewrite Hc. simpl.
  destruct (IH c Hokc) as (d & Hd & Hokd & Hnd & Hpd); [intros j Hj; rewrite Hnc; apply Hi; by right|].
  exists d. split; [done|]. split; [done|]. split; [congruence|]. rewrite Hpd, Hpc. set_solver.
Qed.

(** Every constructor builds the set its input names.  A list of pattern
    ids inside the universe gives the set of those ids, in any order and with
    repetitions, by the sorted path or (for ids past [u32]) by insertion; an
    id outside the universe is reported.  A vector of words of the right
    length gives the set of its bits below the universe size, tail bits being
    cleared.  [all] is the whole universe. *)
Theorem bitset_constructors (n : nat) :
  (forall patterns, (forall i, i ∈ patterns -> (i < n)%nat) ->
     exists b, PatternBitSet_from_patterns n patterns = Ok b /\ pattern_count b = n /\ PatternBitSet_ok b /\
       pset b = list_to_set patterns) /\
  (forall ids m, (forall i, i ∈ ids -> (Z.of_nat i < 2 ^ 32)%Z) -> m ∈ ids -> (n <= m)%nat ->
     exists m', PatternBitSet_from_pattern_indices n ids = Err (PatternOutOfRange m' n) /\ m' ∈ ids /\ (m <= m')%nat) /\
  (forall words, Forall (in_width 64) words ->
     (length words <> dense_word_count n ->
        PatternBitSet_from_words n words = Err (WordCountMismatch (dense_word_count n) (length words))) /\
     (length words = dense_word_count n ->
        exists b, PatternBitSet_from_words n words = Ok b /\ pattern_count b = n /\ PatternBitSet_ok b /\
          forall i, i ∈ pset b <-> words_bit words i = true /\ (i < n)%nat)) /\
  PatternBitSet_ok (PatternBitSet_all n) /\ pset (PatternBitSet_all n) = set_seq 0 n.
Proof.
  split; [|split; [|split; [|apply all_spec]]].
  - intros patterns Hp. unfold PatternBitSet_from_patterns. destruct (existsb _ _) eqn:E.
    + destruct (new_spec n) as [Hok Hnew]. destruct (insert_all_spec (PatternBitSet_new n) patterns Hok Hp)
        as (b & Hb & Hokb & Hnb & Hpb). exists b. split; [done|]. split; [done|]. split; [done|].
      rewrite Hpb, Hnew. set_solver.
    + assert (forall i, i ∈ patterns -> (Z.of_nat i < 2 ^ 32)%Z) as Hu.
      { intros i Hi. destruct (decide (Z.of_nat i < 2 ^ 32)%Z); [done|].
        exfalso. apply not_true_iff_false in E. apply E, existsb_exists. exists i.
        split; [by apply list_elem_of_In|]. apply Z.ltb_lt. unfold umax. lia. }
      pose proof (from_pattern_indices_spec n patterns) as H. destruct (PatternBitSet_from_pattern_indices n patterns) as [b|e].
      * exists b. split; [done|]. by apply H.
      * destruct H as (m & -> & Hm & Hge & _); [done|]. pose proof (Hp m Hm). lia.
  - intros ids m Hu Hm Hge. pose proof (from_pattern_indices_spec n ids Hu) as H.
    destruct (PatternBitSet_from_pattern_indices n ids) as [b|e].
    + destruct H as (Hn & Hok & Hp). assert (m ∈ pset b) as Hb by (rewrite Hp; by apply elem_of_list_to_set).
      apply pset_bound in Hb. lia.
    + destruct H as (m' & -> & Hm' & _ & Hmax). exists m'. split; [done|]. split; [done|by apply Hmax].
  - intros words Hw. split; [|intros Hl; by apply from_words_spec]. intros Hne. unfold PatternBitSet_from_words.
    by rewrite (proj2 (Nat.eqb_neq _ _) Hne).
Qed.

(** Exporting a set to dense words and importing the words again gives a
    set that covers the same patterns, whichever layout either side uses. *)
Theorem bitset_words_roundtrip (b : PatternBitSet) (Hok : PatternBitSet_ok b)
    (Hsize : (Z.of_nat (pattern_count b) < 2 ^ 64)%Z) :
  exists c, PatternBitSet_from_words (pattern_count b) (to_owned_words b) = Ok c /\
    pattern_count c = pattern_count b /\ pset c = pset b.
Proof.
  rewrite to_owned_words_spec by done. destruct (dense_words_spec b Hok) as (Hl & Hw & Hm).
  destruct (from_words_spec _ _ Hl Hw) as (c & Hc & Hn & Hokc & Hp). exists c. split; [done|]. split; [done|].
  apply set_eq. intros i. rewrite Hp, Hm, pset_mem by done. split; [tauto|]. intros Hi. split; [done|].
  by apply (storage_mem_lt _ (storage b)).
Qed.

Lemma bitset_words_roundtrip_witness :
  exists c, PatternBitSet_from_words 300 (to_owned_words (mkPatternBitSet 300 (Sparse [1; 299]%nat))) = Ok c /\
    pset c = pset (mkPatternBitSet 300 (Sparse [1; 299]%nat)).
Proof.
  destruct (bitset_words_roundtrip (mkPatternBitSet 300 (Sparse [1; 299]%nat))) as (c & Hc & _ & Hp);
    [by apply sparse_ok_of|simpl; lia|]. by exists c.
Defined.
