(* ===== verification/BitsetMemory.v ===== *)
(** Memory accounting of [PatternBitSet] (the projection part of
    [crates/clearra-coverage/src/pattern/pattern_bitset.rs]): the checked
    [u128] projections a caller consults before it builds a set, the
    constructors that refuse to allocate past a limit, and the byte count of a
    set that exists.  The theorems show that the projections are exact for the
    layout the constructors choose, and that the aggregate bounds hold.

    The sizes of the two owner structs are chosen by the compiler and are
    parameters; element sizes are the language's ([u32] is 4 bytes, [u64] 8). *)

From Stdlib Require Import ZArith Lia Sorted.
From stdpp Require Import prelude sorting gmap.
From S2P Require Import Prelude Words PatternBitSet.

Local Open Scope Z_scope.

Inductive PatternBitSetStorageLayout := LayoutDense | LayoutSparse.

Record PatternBitSetAllocationProjection := mkProjection {
  layout : PatternBitSetStorageLayout;
  input_pattern_id_bytes : Z;
  storage_retained_bytes : Z;
  constructor_peak_bytes : Z;
  shared_retained_bytes : Z
}.

Inductive PatternBitSetAllocationError :=
| InvalidPattern (e : PatternBitSetError)
| ProjectionOverflow
| MemoryCapacityExceeded (required_memory_bytes max_memory_bytes : Z).

Definition checked_dense_word_count (n : nat) : option Z := Some (Z.of_nat (dense_word_count n)).

Definition ensure_projection_fits (retained peak max : Z) : Result PatternBitSetAllocationError unit :=
  let? required := ok_or (checked_add 128 retained peak) ProjectionOverflow in
  if required <=? max then Ok tt else Err (MemoryCapacityExceeded required max).

(** A set with the identity of its heap blocks: the address of the storage
    (the dense words, or the sparse owner), of the sparse id slice, and the
    dense words a sparse set caches on demand. *)
Record StoredBitSet := mkStored {
  bitset : PatternBitSet;
  storage_address : Z;
  ids_address : Z;
  dense_cache : option (Z * list Z)
}.

Record PatternBitSetStorageComponent := mkComponent { address : Z; retained_bytes : Z }.

Definition nonempty {A} (l : list A) : bool := match l with [] => false | _ => true end.

Section sizes.
(** [size_of::<SparsePatternStorage>()] and [size_of::<PatternBitSet>()]. *)
Context (sparse_owner_bytes pattern_bitset_owner_bytes : Z).

Definition checked_all_projection (n : nat) : option PatternBitSetAllocationProjection :=
  words ← checked_dense_word_count n;
  dense_bytes ← checked_mul 128 words size_of_u64;
  shared ← checked_add 128 pattern_bitset_owner_bytes dense_bytes;
  twice ← checked_mul 128 dense_bytes 2;
  Some (mkProjection LayoutDense 0 dense_bytes (Z.max twice shared) shared).

Definition PatternBitSet_all_with_memory_limit (n : nat) (retained max : Z)
    : Result PatternBitSetAllocationError PatternBitSet :=
  let? projection := ok_or (checked_all_projection n) ProjectionOverflow in
  ensure_projection_fits retained (constructor_peak_bytes projection) max ;?
  Ok (PatternBitSet_all n).

Definition checked_external_words_materialize_union_future_bytes (n : nat) : option Z :=
  words ← checked_dense_word_count n;
  dense_bytes ← checked_mul 128 words size_of_u64;
  if dense_bytes =? 0 then Some 0
  else
    six ← checked_mul 128 dense_bytes 6;
    metadata ← checked_mul 128 sparse_owner_bytes 2;
    checked_add 128 six metadata.

Definition checked_allocation_projection (n unique_pattern_count input_capacity : nat)
    : option PatternBitSetAllocationProjection :=
  if (input_capacity <? unique_pattern_count)%nat || (n <? unique_pattern_count)%nat then None
  else
    words ← checked_dense_word_count n;
    dense_bytes ← checked_mul 128 words size_of_u64;
    sparse_payload_bytes ← checked_mul 128 (Z.of_nat unique_pattern_count) size_of_u32;
    input_bytes ← checked_mul 128 (Z.of_nat input_capacity) size_of_u32;
    '(chosen, retained, peak) ←
      (if sparse_payload_bytes <? dense_bytes then
         retained ← checked_add 128 sparse_owner_bytes sparse_payload_bytes;
         peak ← checked_add 128 input_bytes retained;
         Some (LayoutSparse, retained, peak)
       else
         twice ← checked_mul 128 dense_bytes 2;
         peak ← checked_add 128 input_bytes twice;
         Some (LayoutDense, dense_bytes, peak));
    shared ← checked_add 128 pattern_bitset_owner_bytes retained;
    Some (mkProjection chosen input_bytes retained (Z.max peak shared) shared).

(** [input_capacity] is the capacity of the vector that holds [pattern_ids];
    sorting and removing duplicates keeps it. *)
Definition PatternBitSet_from_pattern_indices_with_memory_limit (n : nat) (pattern_ids : list nat) (input_capacity : nat)
    (retained max : Z) : Result PatternBitSetAllocationError PatternBitSet :=
  let pattern_ids := sort_dedup pattern_ids in
  let build :=
    let? projection := ok_or (checked_allocation_projection n (length pattern_ids) input_capacity) ProjectionOverflow in
    ensure_projection_fits retained (constructor_peak_bytes projection) max ;?
    Ok (mkPatternBitSet n (compact_storage_from_pattern_ids n pattern_ids)) in
  match last pattern_ids with
  | Some index => if (n <=? index)%nat then Err (InvalidPattern (PatternOutOfRange index n)) else build
  | None => build
  end.

Definition checked_shared_storage_upper_bound (n : nat) (group_count total_pattern_ids : Z) : option Z :=
  words ← checked_dense_word_count n;
  dense_bytes ← checked_mul 128 words size_of_u64;
  fixed_per_group ← checked_add 128 pattern_bitset_owner_bytes (Z.max dense_bytes sparse_owner_bytes);
  fixed ← checked_mul 128 group_count fixed_per_group;
  ids ← checked_mul 128 total_pattern_ids size_of_u32;
  checked_add 128 fixed ids.

Definition checked_shared_construction_upper_bound (n : nat) (group_count total_pattern_ids : Z) : option Z :=
  words ← checked_dense_word_count n;
  dense_bytes ← checked_mul 128 words size_of_u64;
  dense_conversion_bytes ← checked_mul 128 dense_bytes 2;
  fixed_per_group ← checked_add 128 pattern_bitset_owner_bytes (Z.max dense_conversion_bytes sparse_owner_bytes);
  fixed ← checked_mul 128 group_count fixed_per_group;
  ids ← checked_mul 128 total_pattern_ids size_of_u32;
  twice ← checked_mul 128 ids 2;
  checked_add 128 fixed twice.

(** ** The bytes of a set that exists *)

Definition storage_component_count (s : StoredBitSet) : nat :=
  match storage (bitset s) with
  | Dense words => if nonempty words then 1 else 0
  | Sparse ids =>
      1 + (if nonempty ids then 1 else 0) +
      match dense_cache s with Some (_, words) => if nonempty words then 1 else 0 | None => 0 end
  end.

Definition storage_component (s : StoredBitSet) (index : nat) : option PatternBitSetStorageComponent :=
  match storage (bitset s) with
  | Dense words =>
      if (index =? 0)%nat && nonempty words
      then Some (mkComponent (storage_address s) (Z.of_nat (length words) * size_of_u64)) else None
  | Sparse ids =>
      if (index =? 0)%nat then Some (mkComponent (storage_address s) sparse_owner_bytes)
      else
        let remaining := (index - 1)%nat in
        if nonempty ids && (remaining =? 0)%nat
        then Some (mkComponent (ids_address s) (Z.of_nat (length ids) * size_of_u32))
        else
          let remaining := if nonempty ids then (remaining - 1)%nat else remaining in
          match dense_cache s with
          | Some (cache_address, words) =>
              if nonempty words && (remaining =? 0)%nat
              then Some (mkComponent cache_address (Z.of_nat (length words) * size_of_u64)) else None
          | None => None
          end
  end.

Definition checked_storage_retained_bytes (s : StoredBitSet) : option Z :=
  foldl (fun bytes index => bytes ← bytes; c ← storage_component s index; checked_add 128 bytes (retained_bytes c))
    (Some 0) (seq 0 (storage_component_count s)).

Definition PatternBitSet_retained_bytes (s : StoredBitSet) : Z :=
  default (umax 64) (try_from 64 (default (umax 128) (checked_storage_retained_bytes s))).

Definition checked_shared_retained_bytes (s : StoredBitSet) : option Z :=
  bytes ← checked_storage_retained_bytes s;
  checked_add 128 pattern_bitset_owner_bytes bytes.

Definition shares_storage_with (a b : StoredBitSet) : bool :=
  match storage (bitset a), storage (bitset b) with
  | Dense _, Dense _ | Sparse _, Sparse _ => storage_address a =? storage_address b
  | _, _ => false
  end.
End sizes.

(** ** Lemmas *)

Lemma checked_add_fits w a b : a + b < 2 ^ w -> checked_add w a b = Some (a + b).
Proof. intros. by apply checked_add_Some. Qed.

Lemma checked_mul_fits w a b : a * b < 2 ^ w -> checked_mul w a b = Some (a * b).
Proof. intros. by apply checked_mul_Some. Qed.

Lemma dense_word_count_range n : Z.of_nat n < 2 ^ 64 -> 0 <= Z.of_nat (dense_word_count n) <= 2 ^ 58.
Proof. intros. unfold dense_word_count. rewrite Nat2Z.inj_div. split; euclid. Qed.

(** The bytes of the dense words of a universe of [n] patterns. *)
Definition dense_bytes (n : nat) : Z := Z.of_nat (dense_word_count n) * size_of_u64.

(** Whether the id list of a set takes less room than its words. *)
Definition prefers_sparse (n unique : nat) : bool := Z.of_nat unique * size_of_u32 <? dense_bytes n.

Definition layout_of (b : PatternBitSet) : PatternBitSetStorageLayout :=
  match storage b with Dense _ => LayoutDense | Sparse _ => LayoutSparse end.

(** The saturating comparison of the constructor decides as the exact one. *)
Lemma compact_storage_layout n ids :
  Z.of_nat n < 2 ^ 64 ->
  compact_storage_from_pattern_ids n ids =
    if prefers_sparse n (length ids) then Sparse ids
    else Dense (foldl set_word_bit (replicate (dense_word_count n) 0) ids).
Proof.
  intros Hn%dense_word_count_range. unfold compact_storage_from_pattern_ids, prefers_sparse, dense_bytes, saturating_mul, umax.
  unfold size_of_u32, size_of_u64. repeat case_match; try done; lia.
Qed.

Lemma set_words_length ids words : length (foldl set_word_bit words ids) = length words.
Proof. revert words. induction ids as [|i ids IH]; intros words; [done|]. simpl. rewrite IH. unfold set_word_bit. by rewrite length_insert. Qed.

Lemma length_dedup l : (length (dedup l) <= length l)%nat.
Proof.
  induction l as [|x [|y l] IH]; [done..|]. cbn [dedup]. destruct (Nat.eqb x y); simpl in *; lia.
Qed.

Lemma length_sort_dedup l : (length (sort_dedup l) <= length l)%nat.
Proof.
  unfold sort_dedup. etrans; [apply length_dedup|]. by rewrite (Permutation_length (merge_sort_Permutation le l)).
Qed.

Lemma sorted_below_length n l : StronglySorted lt l -> (forall i, i ∈ l -> (i < n)%nat) -> (length l <= n)%nat.
Proof.
  intros Hs Hl. transitivity (length (seq 0 n)); [|by rewrite length_seq]. apply submseteq_length, NoDup_submseteq; [by apply sorted_lt_NoDup|].
  intros i Hi. apply elem_of_seq. specialize (Hl i Hi). lia.
Qed.

Section accounting.
Context (sparse_owner pattern_owner : Z).
Context (Hsparse : 0 <= sparse_owner < 2 ^ 64) (Howner : 0 <= pattern_owner < 2 ^ 64).

(** The projection, when nothing overflows. *)
Definition storage_bytes (n unique : nat) : Z :=
  if prefers_sparse n unique then sparse_owner + Z.of_nat unique * size_of_u32 else dense_bytes n.

Definition exact_projection (n unique cap : nat) : PatternBitSetAllocationProjection :=
  let input := Z.of_nat cap * size_of_u32 in
  let retained := storage_bytes n unique in
  let shared := pattern_owner + retained in
  let peak := input + if prefers_sparse n unique then retained else dense_bytes n * 2 in
  mkProjection (if prefers_sparse n unique then LayoutSparse else LayoutDense) input retained (Z.max peak shared) shared.

Lemma checked_allocation_projection_Some n unique cap p :
  checked_allocation_projection sparse_owner pattern_owner n unique cap = Some p ->
  (unique <= cap)%nat /\ (unique <= n)%nat /\ p = exact_projection n unique cap.
Proof.
  unfold checked_allocation_projection, checked_dense_word_count, exact_projection, storage_bytes, prefers_sparse.
  destruct (orb _ _) eqn:E; [done|]. apply orb_false_iff in E as [Hc%Nat.ltb_ge Hn%Nat.ltb_ge].
  intros H. cbn [mbind option_bind] in H.
  repeat match type of H with (_ ← _; _) = Some _ => apply bind_Some in H as (? & [_ ->]%checked_mul_Some & H) end.
  split; [done|]. split; [done|]. clear Hc Hn.
  apply bind_Some in H as ([[chosen retained] peak] & Hc & H).
  apply bind_Some in H as (shared & [_ ->]%checked_add_Some & [= <-]). unfold dense_bytes. revert Hc.
  destruct (_ <? _); intros Hc.
  - apply bind_Some in Hc as (? & [_ ->]%checked_add_Some & Hc). apply bind_Some in Hc as (? & [_ ->]%checked_add_Some & [= <- <- <-]). done.
  - apply bind_Some in Hc as (? & [_ ->]%checked_mul_Some & Hc). apply bind_Some in Hc as (? & [_ ->]%checked_add_Some & [= <- <- <-]). done.
Qed.

Lemma checked_allocation_projection_total n unique cap :
  Z.of_nat n < 2 ^ 64 -> Z.of_nat cap < 2 ^ 64 -> (unique <= cap)%nat -> (unique <= n)%nat ->
  checked_allocation_projection sparse_owner pattern_owner n unique cap = Some (exact_projection n unique cap).
Proof.
  intros Hn Hcap Hu Hun. pose proof (dense_word_count_range n Hn) as Hw.
  unfold checked_allocation_projection, checked_dense_word_count, exact_projection, storage_bytes, prefers_sparse, dense_bytes.
  unfold size_of_u32, size_of_u64 in *.
  rewrite (proj2 (Nat.ltb_ge _ _) Hu), (proj2 (Nat.ltb_ge _ _) Hun). cbn [orb mbind option_bind].
  rewrite !checked_mul_fits by lia. cbn [mbind option_bind]. rewrite checked_mul_fits by lia. cbn [mbind option_bind].
  destruct (_ <? _); repeat (rewrite checked_add_fits by lia; cbn [mbind option_bind]); done.
Qed.

(** A set that has just been built caches nothing. *)
Definition fresh_stored (b : PatternBitSet) (addr ids_addr : Z) : StoredBitSet := mkStored b addr ids_addr None.

Lemma fresh_retained n ids addr ids_addr :
  Z.of_nat n < 2 ^ 64 -> (length ids <= n)%nat ->
  checked_storage_retained_bytes sparse_owner
    (fresh_stored (mkPatternBitSet n (compact_storage_from_pattern_ids n ids)) addr ids_addr) =
  Some (storage_bytes n (length ids)).
Proof.
  intros Hn Hids. pose proof (dense_word_count_range n Hn) as Hw. rewrite (compact_storage_layout n ids Hn).
  unfold checked_storage_retained_bytes, storage_bytes, storage_component_count, storage_component, fresh_stored. cbn [bitset storage].
  destruct (prefers_sparse n (length ids)).
  - destruct ids as [|i ids]; cbn; unfold size_of_u32 in *; rewrite ?checked_add_fits by (simpl; lia); cbn;
      rewrite ?checked_add_fits by (simpl in *; lia); cbn; f_equal; lia.
  - pose proof (set_words_length ids (replicate (dense_word_count n) 0)) as Hl. rewrite length_replicate in Hl. unfold dense_bytes.
    destruct (foldl set_word_bit _ _) as [|w ws]; cbn in *; rewrite <- Hl in *; [done|]. unfold size_of_u64.
    rewrite checked_add_fits by lia. f_equal.
Qed.

Lemma ensure_projection_fits_spec retained peak max :
  0 <= peak -> retained + peak < 2 ^ 128 ->
  ensure_projection_fits retained peak max =
    if retained + peak <=? max then Ok tt else Err (MemoryCapacityExceeded (retained + peak) max).
Proof. intros. unfold ensure_projection_fits. by rewrite checked_add_fits. Qed.

Lemma exact_projection_range n unique cap :
  Z.of_nat n < 2 ^ 64 -> Z.of_nat cap < 2 ^ 64 -> (unique <= n)%nat ->
  0 <= constructor_peak_bytes (exact_projection n unique cap) < 2 ^ 68.
Proof.
  intros Hn%dense_word_count_range Hcap Hu. unfold exact_projection, storage_bytes, dense_bytes, size_of_u32, size_of_u64. cbn [constructor_peak_bytes].
  destruct (prefers_sparse n unique) eqn:E; [|lia].
  unfold prefers_sparse, dense_bytes, size_of_u32, size_of_u64 in E. lia.
Qed.

(** The limited constructor is the plain one with a check before it builds. *)
Lemma limited_from_plain n ids cap retained max :
  PatternBitSet_from_pattern_indices_with_memory_limit sparse_owner pattern_owner n ids cap retained max =
  match PatternBitSet_from_pattern_indices n ids with
  | Err e => Err (InvalidPattern e)
  | Ok b =>
      let? p := ok_or (checked_allocation_projection sparse_owner pattern_owner n (length (sort_dedup ids)) cap) ProjectionOverflow in
      ensure_projection_fits retained (constructor_peak_bytes p) max ;? Ok b
  end.
Proof.
  unfold PatternBitSet_from_pattern_indices, PatternBitSet_from_pattern_indices_with_memory_limit.
  destruct (last (sort_dedup ids)) as [m|]; [by destruct (n <=? m)%nat|done].
Qed.

Lemma from_pattern_indices_Ok n ids b :
  (forall i, i ∈ ids -> Z.of_nat i < 2 ^ 32) -> PatternBitSet_from_pattern_indices n ids = Ok b ->
  b = mkPatternBitSet n (compact_storage_from_pattern_ids n (sort_dedup ids)) /\
  size (pset b) = length (sort_dedup ids) /\ (length (sort_dedup ids) <= n)%nat.
Proof.
  intros Hu Hb. pose proof (from_pattern_indices_spec n ids Hu) as Hspec. rewrite Hb in Hspec. destruct Hspec as (Hn & _ & Hset).
  destruct (sort_dedup_spec ids) as [Hs Hm]. split; [|split].
  - unfold PatternBitSet_from_pattern_indices in Hb. destruct (last _) as [m|]; [destruct (n <=? m)%nat|]; congruence.
  - rewrite <- (size_list_to_set (C := gset nat)) by (by apply sorted_lt_NoDup). f_equal. rewrite Hset.
    apply set_eq. intros i. by rewrite !elem_of_list_to_set, Hm.
  - apply sorted_below_length; [done|]. intros i Hi%Hm. rewrite <- Hn. apply pset_bound. rewrite Hset. by apply elem_of_list_to_set.
Qed.

Lemma fresh_all_retained n addr ids_addr :
  Z.of_nat n < 2 ^ 64 ->
  checked_storage_retained_bytes sparse_owner (fresh_stored (PatternBitSet_all n) addr ids_addr) = Some (dense_bytes n).
Proof.
  intros Hn. pose proof (dense_word_count_range n Hn) as Hw. destruct (all_spec n) as [(Hl & _) _].
  unfold checked_storage_retained_bytes, storage_component_count, storage_component, fresh_stored, dense_bytes.
  cbn [bitset]. unfold PatternBitSet_all in *. cbn [storage pattern_count] in *. revert Hl.
  destruct (update_last _ _ _) as [|w ws]; intros Hl; cbn in *; rewrite <- Hl in *; [done|]. unfold size_of_u64.
  rewrite checked_add_fits by lia. f_equal.
Qed.

(** C35: The constructors with a memory limit agree with the plain ones and
    never overrun the limit.  On ids that the plain constructor rejects they
    report the same error; otherwise they build the plain constructor's set
    exactly when the retained bytes plus the projected peak fit the limit, and
    report the missing room if not.  The projection is exact: its layout is
    the layout the constructor chooses, and its retained and shared bytes are
    the bytes counted on the set that was built; the peak covers them. *)
Theorem memory_limited_construction (n cap : nat) (ids : list nat) (retained max addr ids_addr : Z)
    (Hn : Z.of_nat n < 2 ^ 64) (Hcap : Z.of_nat cap < 2 ^ 64) (Hids : (length ids <= cap)%nat)
    (Hu : forall i, i ∈ ids -> Z.of_nat i < 2 ^ 32) (Hr : 0 <= retained < 2 ^ 127) :
  match PatternBitSet_from_pattern_indices n ids with
  | Err e => PatternBitSet_from_pattern_indices_with_memory_limit sparse_owner pattern_owner n ids cap retained max = Err (InvalidPattern e)
  | Ok b =>
      exists p, checked_allocation_projection sparse_owner pattern_owner n (size (pset b)) cap = Some p /\
        PatternBitSet_from_pattern_indices_with_memory_limit sparse_owner pattern_owner n ids cap retained max =
          (if retained + constructor_peak_bytes p <=? max then Ok b
           else Err (MemoryCapacityExceeded (retained + constructor_peak_bytes p) max)) /\
        layout p = layout_of b /\
        checked_storage_retained_bytes sparse_owner (fresh_stored b addr ids_addr) = Some (storage_retained_bytes p) /\
        checked_shared_retained_bytes sparse_owner pattern_owner (fresh_stored b addr ids_addr) = Some (shared_retained_bytes p) /\
        shared_retained_bytes p <= constructor_peak_bytes p /\
        input_pattern_id_bytes p + storage_retained_bytes p <= constructor_peak_bytes p
  end /\
  exists p, checked_all_projection pattern_owner n = Some p /\
    PatternBitSet_all_with_memory_limit pattern_owner n retained max =
      (if retained + constructor_peak_bytes p <=? max then Ok (PatternBitSet_all n)
       else Err (MemoryCapacityExceeded (retained + constructor_peak_bytes p) max)) /\
    checked_storage_retained_bytes sparse_owner (fresh_stored (PatternBitSet_all n) addr ids_addr) = Some (storage_retained_bytes p).
Proof.
  pose proof (dense_word_count_range n Hn) as Hw. split.
  - rewrite limited_from_plain. destruct (PatternBitSet_from_pattern_indices n ids) as [b|e] eqn:Eb; [|done].
    destruct (from_pattern_indices_Ok n ids b Hu Eb) as (-> & -> & Hlen). pose proof (length_sort_dedup ids) as Hle.
    pose proof (exact_projection_range n (length (sort_dedup ids)) cap Hn Hcap Hlen) as Hpeak.
    rewrite checked_allocation_projection_total by lia. eexists. split; [reflexivity|]. cbn [ok_or rbind].
    rewrite ensure_projection_fits_spec by lia. split; [by destruct (_ <=? _)|].
    unfold layout_of, checked_shared_retained_bytes. rewrite fresh_retained by lia. cbn [storage mbind option_bind].
    rewrite compact_storage_layout by done. clear Hr. revert Hpeak. unfold exact_projection. cbn -[Z.max Z.mul Z.add Z.pow].
    intros Hpeak. rewrite checked_add_fits by lia. split; [by destruct (prefers_sparse _ _)|]. split; [done|]. split; [done|].
    split; [lia|]. unfold storage_bytes. destruct (prefers_sparse _ _); [lia|]. unfold dense_bytes, size_of_u64. lia.
  - assert (checked_all_projection pattern_owner n =
      Some (mkProjection LayoutDense 0 (dense_bytes n) (Z.max (dense_bytes n * 2) (pattern_owner + dense_bytes n)) (pattern_owner + dense_bytes n))) as Hp.
    { unfold checked_all_projection, checked_dense_word_count, dense_bytes, size_of_u64. cbn [mbind option_bind].
      rewrite checked_mul_fits by lia. cbn [mbind option_bind]. rewrite checked_add_fits by lia. cbn [mbind option_bind].
      by rewrite checked_mul_fits by lia. }
    eexists. split; [exact Hp|]. unfold PatternBitSet_all_with_memory_limit. rewrite Hp. cbn [ok_or rbind constructor_peak_bytes storage_retained_bytes].
    split; [|by apply fresh_all_retained].
    rewrite ensure_projection_fits_spec by (unfold dense_bytes, size_of_u64; lia). by destruct (_ <=? _).
Qed.

(** The aggregate bounds are sound: for any groups of ids over one
    universe, the projected shared bytes of the sets built from them add up to
    at most the storage bound, and the projected construction peaks to at most
    the construction bound, whatever mix of layouts the groups take. *)
Theorem shared_bounds_sound (n : nat) (groups : list (nat * nat)) (projections : list PatternBitSetAllocationProjection)
    (Hp : Forall2 (fun '(unique, cap) p => checked_allocation_projection sparse_owner pattern_owner n unique cap = Some p) groups projections) :
  (forall bound,
     checked_shared_storage_upper_bound sparse_owner pattern_owner n (Z.of_nat (length groups))
       (Z.of_nat (sum_list groups.*1)) = Some bound ->
     foldr Z.add 0 (shared_retained_bytes <$> projections) <= bound) /\
  (forall bound,
     checked_shared_construction_upper_bound sparse_owner pattern_owner n (Z.of_nat (length groups))
       (Z.of_nat (sum_list groups.*2)) = Some bound ->
     foldr Z.add 0 (constructor_peak_bytes <$> projections) <= bound).
Proof.
  pose proof (Nat2Z.is_nonneg (dense_word_count n)) as Hw.
  assert (forall G T bound, checked_shared_storage_upper_bound sparse_owner pattern_owner n G T = Some bound ->
    bound = G * (pattern_owner + Z.max (dense_bytes n) sparse_owner) + T * size_of_u32) as H1.
  { unfold checked_shared_storage_upper_bound, checked_dense_word_count. intros G T bound H. cbn [mbind option_bind] in H. apply bind_Some in H as (? & [_ ->]%checked_mul_Some & H).
    apply bind_Some in H as (? & [_ ->]%checked_add_Some & H). apply bind_Some in H as (? & [_ ->]%checked_mul_Some & H).
    apply bind_Some in H as (? & [_ ->]%checked_mul_Some & H). by apply checked_add_Some in H as [_ ->]. }
  assert (forall G T bound, checked_shared_construction_upper_bound sparse_owner pattern_owner n G T = Some bound ->
    bound = G * (pattern_owner + Z.max (dense_bytes n * 2) sparse_owner) + T * size_of_u32 * 2) as H2.
  { unfold checked_shared_construction_upper_bound, checked_dense_word_count. intros G T bound H. cbn [mbind option_bind] in H.
    apply bind_Some in H as (? & [_ ->]%checked_mul_Some & H). apply bind_Some in H as (? & [_ ->]%checked_mul_Some & H).
    apply bind_Some in H as (? & [_ ->]%checked_add_Some & H). apply bind_Some in H as (? & [_ ->]%checked_mul_Some & H).
    apply bind_Some in H as (? & [_ ->]%checked_mul_Some & H). apply bind_Some in H as (? & [_ ->]%checked_mul_Some & H).
    by apply checked_add_Some in H as [_ ->]. }
  split; intros bound Hb; [apply H1 in Hb as ->|apply H2 in Hb as ->]; clear H1 H2; unfold dense_bytes, size_of_u32, size_of_u64.
  - induction Hp as [|[u c] p groups projections Hpu _ IH]; [cbn; lia|].
    apply checked_allocation_projection_Some in Hpu as (Hu & _ & ->). cbn -[Z.mul Z.add Z.max] in *.
    unfold storage_bytes, dense_bytes, size_of_u32, size_of_u64. destruct (prefers_sparse _ _); lia.
  - induction Hp as [|[u c] p groups projections Hpu _ IH]; [cbn; lia|].
    apply checked_allocation_projection_Some in Hpu as (Hu & _ & ->). cbn -[Z.mul Z.add Z.max] in *.
    unfold storage_bytes, dense_bytes, size_of_u32, size_of_u64. destruct (prefers_sparse _ _); lia.
Qed.
End accounting.

Lemma memory_limited_construction_witness :
  PatternBitSet_from_pattern_indices_with_memory_limit 40 24 100 [7; 3; 7]%nat 4 1000 1100 = Ok (mkPatternBitSet 100 (Sparse [3; 7]%nat)).
Proof.
  destruct (memory_limited_construction 40 24 ltac:(lia) ltac:(lia) 100 4 [7; 3; 7]%nat 1000 1100 0 0) as [H _]; [lia|lia|simpl; lia| |lia|].
  { intros i Hi. do 3 (apply elem_of_cons in Hi as [->|Hi]; [lia|]). by apply elem_of_nil in Hi. }
  simpl in H. destruct H as (p & Hp & -> & _). vm_compute in Hp. injection Hp as <-. reflexivity.
Defined.

Lemma shared_bounds_sound_witness :
  foldr Z.add 0 (shared_retained_bytes <$> omap (fun '(u, c) => checked_allocation_projection 40 24 100 u c) [(2, 4); (90, 100)]%nat) <= 496.
Proof.
  apply (shared_bounds_sound 40 24 ltac:(lia) ltac:(lia) 100 [(2, 4); (90, 100)]%nat); [|reflexivity].
  repeat constructor.
Defined.

