(* ===== verification/PatternSet.v ===== *)
(** * The interface between pattern sets and their clients

    The coverage matrices ([matrix/*.rs]) and the cover solvers
    ([cover/minimum_cover_solver.rs]) use a [PatternBitSet] only through a few
    operations.  [PatternSetOps] is that vocabulary and [PatternSetLaws] what
    the clients rely on: a validity predicate, the set of patterns a value
    stands for, and the effect of every operation on it, the errors for values
    over different universes included.  The clients are written and proved
    against the two classes; [PatternBitSet] discharges them here. *)

From Stdlib Require Import ZArith Lia.
From stdpp Require Import prelude gmap.
From S2P Require Import Prelude Words PatternBitSet.

Class PatternSetOps (T : Type) := {
  ps_new : nat -> T;
  ps_pattern_count : T -> nat;
  ps_union_with : T -> T -> Result PatternBitSetError T;
  ps_is_superset : T -> T -> Result PatternBitSetError bool;
  ps_is_empty : T -> bool;
  ps_count_ones : T -> Z
}.

Class PatternSetLaws (T : Type) {O : PatternSetOps T} := {
  ps_ok : T -> Prop;
  ps_set : T -> gset nat;
  ps_new_spec n : ps_ok (ps_new n) /\ ps_pattern_count (ps_new n) = n /\ ps_set (ps_new n) = ∅;
  ps_union_spec a b :
    ps_ok a -> ps_ok b -> ps_pattern_count a = ps_pattern_count b ->
    exists c, ps_union_with a b = Ok c /\ ps_ok c /\
      ps_pattern_count c = ps_pattern_count a /\ ps_set c = ps_set a ∪ ps_set b;
  ps_union_mismatch a b :
    ps_pattern_count a <> ps_pattern_count b ->
    ps_union_with a b = Err (PatternUniverseMismatch (ps_pattern_count a) (ps_pattern_count b));
  ps_superset_spec a b :
    ps_ok a -> ps_ok b -> ps_pattern_count a = ps_pattern_count b ->
    ps_is_superset a b = Ok (bool_decide (ps_set b ⊆ ps_set a));
  ps_superset_mismatch a b :
    ps_pattern_count a <> ps_pattern_count b ->
    ps_is_superset a b = Err (PatternUniverseMismatch (ps_pattern_count a) (ps_pattern_count b));
  ps_is_empty_spec a : ps_ok a -> ps_is_empty a = bool_decide (ps_set a = ∅);
  ps_count_spec a : ps_ok a -> ps_count_ones a = Z.min (Z.of_nat (size (ps_set a))) (umax 32);
  ps_set_bound a i : i ∈ ps_set a -> (i < ps_pattern_count a)%nat
}.

#[export] Instance PatternBitSet_ops : PatternSetOps PatternBitSet := {
  ps_new := PatternBitSet_new;
  ps_pattern_count := pattern_count;
  ps_union_with := PatternBitSet_union_with;
  ps_is_superset := PatternBitSet_is_superset;
  ps_is_empty := PatternBitSet_is_empty;
  ps_count_ones := PatternBitSet_count_ones
}.

#[export, refine] Instance PatternBitSet_laws : PatternSetLaws PatternBitSet := {
  ps_ok := PatternBitSet_ok;
  ps_set := pset
}.
Proof.
  - intros n. destruct (new_spec n) as [? ?]. done.
  - intros a b. apply union_with_spec.
  - intros a b Hne. simpl in *. unfold PatternBitSet_union_with. by rewrite (proj2 (Nat.eqb_neq _ _) Hne).
  - intros a b Ha Hb Hn. destruct (is_superset_spec a b Ha Hb Hn) as (r & Hr & Hiff). simpl. rewrite Hr.
    f_equal. destruct r; symmetry; [by apply bool_decide_eq_true, Hiff|].
    apply bool_decide_eq_false. intros H%Hiff. done.
  - intros a b Hne. simpl in *. unfold PatternBitSet_is_superset. by rewrite (proj2 (Nat.eqb_neq _ _) Hne).
  - intros a Ha. simpl. pose proof (is_empty_spec a Ha). destruct (PatternBitSet_is_empty a); symmetry.
    + by apply bool_decide_eq_true, H.
    + apply bool_decide_eq_false. intros Hs%H. done.
  - intros a. apply count_ones_spec.
  - intros a i. apply pset_bound.
Defined.
