(* ===== verification/CoverageMatrix.v ===== *)
(** * Coverage matrices

    [clearra-coverage]: the rows of a coverage matrix and the identities that
    tie them to one pattern universe ([row/*.rs], [universe/*.rs]), the
    untyped and the typed matrix ([matrix/coverage_matrix.rs]), the budgeted
    spin-target and score-cell matrices ([matrix/spin_coverage_matrix.rs],
    [matrix/score_cell_matrix.rs]) and the import of a row from raw words
    ([matrix/coverage_row_bridge.rs]).

    A method with a [&mut self] receiver returns the new value of the object
    beside its result, also when the result is an error, so that "an error
    leaves the object unchanged" is a theorem.  The matrices are generic in
    the representation of a row's patterns, through [PatternSet]. *)

From Stdlib Require Import ZArith Lia.
From stdpp Require Import prelude gmap strings.
From S2P Require Import Prelude Words PatternBitSet PatternSet.

(** ** Rows and identities *)

Inductive CoverageRowKind :=
| KPc
| KSetup
| KBuild
| KSpinTarget (spin_target_id : string)
| KScoreCell (score_cell_id : string).

#[export] Instance CoverageRowKind_eq_dec : EqDecision CoverageRowKind.
Proof. solve_decision. Defined.

Inductive CoverageMatrixError :=
| MissingPieceSourceIdentity
| MissingPatternUniverseIdentity
| MissingPatternWeightModelIdentity
| RowPatternCountMismatch (expected actual : nat)
| RowIndexOutOfRange (index row_count : nat)
| PatternUniverseIdMismatch (expected actual : Z)
| PatternWeightModelIdMismatch (expected actual : Z)
| PieceSourceIdMismatch (expected actual : Z)
| RowKindMismatch (expected actual : CoverageRowKind)
| PatternBitSetCapacityExceeded (pattern_count max_pattern_count : nat)
| SpinCoverageCapacityExceeded (row_count row_limit : nat)
| ScoreCellCapacityExceeded (row_count row_limit : nat)
| Pattern (e : PatternBitSetError).

(** [CoveragePatternBudget { max_pattern_count: Option<usize> }]. *)
Definition CoveragePatternBudget_check (max_pattern_count : option nat) (n : nat) : Result CoverageMatrixError unit :=
  match max_pattern_count with
  | Some m => if (m <? n)%nat then Err (PatternBitSetCapacityExceeded n m) else Ok tt
  | None => Ok tt
  end.

Record CoverageUniverseGuard := mkGuard {
  guard_pattern_universe_id : Z;
  guard_pattern_weight_model_id : Z;
  guard_pattern_count : nat
}.

Definition CoverageUniverseGuard_with_capacity_limit (universe weights : Z) (n max : nat)
  : Result CoverageMatrixError CoverageUniverseGuard :=
  CoveragePatternBudget_check (Some max) n ;? Ok (mkGuard universe weights n).

Definition check_identity (g : CoverageUniverseGuard) : Result CoverageMatrixError unit :=
  if (guard_pattern_universe_id g =? 0)%Z then Err MissingPatternUniverseIdentity
  else if (guard_pattern_weight_model_id g =? 0)%Z then Err MissingPatternWeightModelIdentity
  else Ok tt.

Section Matrix.
Context {T : Type} {PO : PatternSetOps T}.

(** [matrix::coverage_row::CoverageRow]. *)
Record CoverageRow := mkCoverageRow {
  cr_candidate_id : nat;
  cr_patterns : T
}.

(** [row::coverage_row::CoverageRow]. *)
Record TypedCoverageRow := mkTypedCoverageRow {
  tr_candidate_id : Z;
  tr_row_kind : CoverageRowKind;
  tr_piece_source_id : Z;
  tr_pattern_universe_id : Z;
  tr_pattern_weight_model_id : Z;
  tr_coverage_bits : T
}.

Definition check_bits (g : CoverageUniverseGuard) (bits : T) : Result CoverageMatrixError unit :=
  check_identity g ;?
  if negb (ps_pattern_count bits =? guard_pattern_count g)%nat
  then Err (RowPatternCountMismatch (guard_pattern_count g) (ps_pattern_count bits))
  else Ok tt.

Definition check_row (g : CoverageUniverseGuard) (row : TypedCoverageRow) : Result CoverageMatrixError unit :=
  check_identity g ;?
  if (tr_pattern_universe_id row =? 0)%Z then Err MissingPatternUniverseIdentity
  else if (tr_pattern_weight_model_id row =? 0)%Z then Err MissingPatternWeightModelIdentity
  else if negb (tr_pattern_universe_id row =? guard_pattern_universe_id g)%Z
  then Err (PatternUniverseIdMismatch (guard_pattern_universe_id g) (tr_pattern_universe_id row))
  else if negb (tr_pattern_weight_model_id row =? guard_pattern_weight_model_id g)%Z
  then Err (PatternWeightModelIdMismatch (guard_pattern_weight_model_id g) (tr_pattern_weight_model_id row))
  else check_bits g (tr_coverage_bits row).

(** ** The untyped matrix *)

Record CoverageMatrix := mkCoverageMatrix {
  cm_pattern_count : nat;
  cm_rows : list CoverageRow
}.

Definition CoverageMatrix_new (n : nat) : CoverageMatrix := mkCoverageMatrix n [].

Definition CoverageMatrix_push (m : CoverageMatrix) (row : CoverageRow)
  : CoverageMatrix * Result CoverageMatrixError unit :=
  if negb (ps_pattern_count (cr_patterns row) =? cm_pattern_count m)%nat
  then (m, Err (RowPatternCountMismatch (cm_pattern_count m) (ps_pattern_count (cr_patterns row))))
  else (mkCoverageMatrix (cm_pattern_count m) (cm_rows m ++ [row]), Ok tt).

Fixpoint CoverageMatrix_push_all (m : CoverageMatrix) (rows : list CoverageRow)
  : Result CoverageMatrixError CoverageMatrix :=
  match rows with
  | [] => Ok m
  | row :: rows =>
      let '(m, r) := CoverageMatrix_push m row in
      r ;? CoverageMatrix_push_all m rows
  end.

Definition CoverageMatrix_from_rows (n : nat) (rows : list CoverageRow)
  : Result CoverageMatrixError CoverageMatrix :=
  CoverageMatrix_push_all (CoverageMatrix_new n) rows.

(** [for patterns in sets { union.union_with(patterns).expect(..) }]. *)
Fixpoint union_all_from (union : T) (sets : list T) : Result Panic T :=
  match sets with
  | [] => Ok union
  | s :: sets => let? union := expect (ps_union_with union s) in union_all_from union sets
  end.

Definition CoverageMatrix_union_all (m : CoverageMatrix) : Result Panic T :=
  union_all_from (ps_new (cm_pattern_count m)) (cr_patterns <$> cm_rows m).

(** [union_rows]: the outer result is the panic of [expect], the inner one the
    error the method returns. *)
Fixpoint CoverageMatrix_union_from (m : CoverageMatrix) (union : T) (row_indices : list nat)
  : Result Panic (Result CoverageMatrixError T) :=
  match row_indices with
  | [] => Ok (Ok union)
  | index :: row_indices =>
      match cm_rows m !! index with
      | None => Ok (Err (RowIndexOutOfRange index (length (cm_rows m))))
      | Some row =>
          let? union := expect (ps_union_with union (cr_patterns row)) in
          CoverageMatrix_union_from m union row_indices
      end
  end.

Definition CoverageMatrix_union_rows (m : CoverageMatrix) (row_indices : list nat)
  : Result Panic (Result CoverageMatrixError T) :=
  CoverageMatrix_union_from m (ps_new (cm_pattern_count m)) row_indices.

(** ** The typed matrix *)

Record TypedCoverageMatrix := mkTypedCoverageMatrix {
  tm_guard : CoverageUniverseGuard;
  tm_row_kind : CoverageRowKind;
  tm_piece_source_id : option Z;
  tm_rows : list TypedCoverageRow
}.

Definition tm_pattern_count (m : TypedCoverageMatrix) : nat := guard_pattern_count (tm_guard m).

Definition TypedCoverageMatrix_new (kind : CoverageRowKind) (universe weights : Z) (n : nat) : TypedCoverageMatrix :=
  mkTypedCoverageMatrix (mkGuard universe weights n) kind None [].

Definition TypedCoverageMatrix_new_with_piece_source (kind : CoverageRowKind) (source universe weights : Z) (n : nat)
  : TypedCoverageMatrix :=
  mkTypedCoverageMatrix (mkGuard universe weights n) kind (Some source) [].

Definition TypedCoverageMatrix_with_capacity_limit (kind : CoverageRowKind) (universe weights : Z) (n max : nat)
  : Result CoverageMatrixError TypedCoverageMatrix :=
  let? guard := CoverageUniverseGuard_with_capacity_limit universe weights n max in
  Ok (mkTypedCoverageMatrix guard kind None []).

(** [check_piece_source] records the source of the first row it sees. *)
Definition check_piece_source (m : TypedCoverageMatrix) (row : TypedCoverageRow)
  : TypedCoverageMatrix * Result CoverageMatrixError unit :=
  let actual := tr_piece_source_id row in
  if (actual =? 0)%Z then (m, Err MissingPieceSourceIdentity)
  else
    match tm_piece_source_id m with
    | Some expected =>
        if negb (expected =? actual)%Z then (m, Err (PieceSourceIdMismatch expected actual)) else (m, Ok tt)
    | None => (mkTypedCoverageMatrix (tm_guard m) (tm_row_kind m) (Some actual) (tm_rows m), Ok tt)
    end.

Definition TypedCoverageMatrix_push (m : TypedCoverageMatrix) (row : TypedCoverageRow)
  : TypedCoverageMatrix * Result CoverageMatrixError unit :=
  if negb (bool_decide (tr_row_kind row = tm_row_kind m))
  then (m, Err (RowKindMismatch (tm_row_kind m) (tr_row_kind row)))
  else
    match check_row (tm_guard m) row with
    | Err e => (m, Err e)
    | Ok _ =>
        match check_piece_source m row with
        | (m, Err e) => (m, Err e)
        | (m, Ok _) =>
            (mkTypedCoverageMatrix (tm_guard m) (tm_row_kind m) (tm_piece_source_id m) (tm_rows m ++ [row]), Ok tt)
        end
    end.

Fixpoint TypedCoverageMatrix_push_all (m : TypedCoverageMatrix) (rows : list TypedCoverageRow)
  : Result CoverageMatrixError TypedCoverageMatrix :=
  match rows with
  | [] => Ok m
  | row :: rows =>
      let '(m, r) := TypedCoverageMatrix_push m row in
      r ;? TypedCoverageMatrix_push_all m rows
  end.

Definition TypedCoverageMatrix_from_rows (kind : CoverageRowKind) (universe weights : Z) (n : nat)
    (rows : list TypedCoverageRow) : Result CoverageMatrixError TypedCoverageMatrix :=
  TypedCoverageMatrix_push_all (TypedCoverageMatrix_new kind universe weights n) rows.

Definition TypedCoverageMatrix_union_all (m : TypedCoverageMatrix) : Result Panic T :=
  union_all_from (ps_new (tm_pattern_count m)) (tr_coverage_bits <$> tm_rows m).

Fixpoint TypedCoverageMatrix_union_from (m : TypedCoverageMatrix) (union : T) (row_indices : list nat)
  : Result CoverageMatrixError T :=
  match row_indices with
  | [] => Ok union
  | index :: row_indices =>
      let? row := ok_or (tm_rows m !! index) (RowIndexOutOfRange index (length (tm_rows m))) in
      let? union := rmap_err Pattern (ps_union_with union (tr_coverage_bits row)) in
      TypedCoverageMatrix_union_from m union row_indices
  end.

Definition TypedCoverageMatrix_union_rows (m : TypedCoverageMatrix) (row_indices : list nat)
  : Result CoverageMatrixError T :=
  TypedCoverageMatrix_union_from m (ps_new (tm_pattern_count m)) row_indices.

End Matrix.
Arguments CoverageRow : clear implicits.
Arguments TypedCoverageRow : clear implicits.
Arguments CoverageMatrix : clear implicits.
Arguments TypedCoverageMatrix : clear implicits.

(** ** Budgeted matrices *)

Record MatrixBudget := mkMatrixBudget {
  max_rows : nat;
  max_pattern_words : nat
}.

Record SpinCoverageMatrix := mkSpinCoverageMatrix {
  spin_target_id : string;
  spin_inner : TypedCoverageMatrix PatternBitSet;
  spin_budget : option MatrixBudget
}.

Definition SpinCoverageMatrix_new (target : string) (universe weights : Z) (n : nat) : SpinCoverageMatrix :=
  mkSpinCoverageMatrix target (TypedCoverageMatrix_new (KSpinTarget target) universe weights n) None.

Definition SpinCoverageMatrix_with_capacity_limit (target : string) (universe weights : Z) (n max : nat)
  : Result CoverageMatrixError SpinCoverageMatrix :=
  let? inner := TypedCoverageMatrix_with_capacity_limit (KSpinTarget target) universe weights n max in
  Ok (mkSpinCoverageMatrix target inner None).

Definition SpinCoverageMatrix_with_memory_budget (target : string) (universe weights : Z) (n : nat) (budget : MatrixBudget)
  : Result CoverageMatrixError SpinCoverageMatrix :=
  rmap_err Pattern (PatternBitSet_new_with_word_budget n (max_pattern_words budget)) ;?
  Ok (mkSpinCoverageMatrix target (TypedCoverageMatrix_new (KSpinTarget target) universe weights n) (Some budget)).

Definition SpinCoverageRow_new (candidate source : Z) (target : string) (universe weights : Z) (bits : PatternBitSet)
  : TypedCoverageRow PatternBitSet :=
  mkTypedCoverageRow candidate (KSpinTarget target) source universe weights bits.

Definition SpinCoverageMatrix_push (m : SpinCoverageMatrix) (row : TypedCoverageRow PatternBitSet)
  : SpinCoverageMatrix * Result CoverageMatrixError unit :=
  let next_row_count := S (length (tm_rows (spin_inner m))) in
  let push :=
    let '(inner, r) := TypedCoverageMatrix_push (spin_inner m) row in
    (mkSpinCoverageMatrix (spin_target_id m) inner (spin_budget m), r) in
  match spin_budget m with
  | Some budget =>
      if (max_rows budget <? next_row_count)%nat
      then (m, Err (SpinCoverageCapacityExceeded next_row_count (max_rows budget)))
      else push
  | None => push
  end.

Record ScoreCellMatrix := mkScoreCellMatrix {
  score_cell_id : string;
  score_inner : TypedCoverageMatrix PatternBitSet;
  score_budget : option MatrixBudget
}.

Definition ScoreCellMatrix_new (cell : string) (universe weights : Z) (n : nat) : ScoreCellMatrix :=
  mkScoreCellMatrix cell (TypedCoverageMatrix_new (KScoreCell cell) universe weights n) None.

Definition ScoreCellMatrix_with_capacity_limit (cell : string) (universe weights : Z) (n max : nat)
  : Result CoverageMatrixError ScoreCellMatrix :=
  let? inner := TypedCoverageMatrix_with_capacity_limit (KScoreCell cell) universe weights n max in
  Ok (mkScoreCellMatrix cell inner None).

Definition ScoreCellMatrix_with_memory_budget (cell : string) (universe weights : Z) (n : nat) (budget : MatrixBudget)
  : Result CoverageMatrixError ScoreCellMatrix :=
  rmap_err Pattern (PatternBitSet_new_with_word_budget n (max_pattern_words budget)) ;?
  Ok (mkScoreCellMatrix cell (TypedCoverageMatrix_new (KScoreCell cell) universe weights n) (Some budget)).

Definition ScoreCellRow_new (candidate source : Z) (cell : string) (universe weights : Z) (bits : PatternBitSet)
  : TypedCoverageRow PatternBitSet :=
  mkTypedCoverageRow candidate (KScoreCell cell) source universe weights bits.

Definition ScoreCellMatrix_push (m : ScoreCellMatrix) (row : TypedCoverageRow PatternBitSet)
  : ScoreCellMatrix * Result CoverageMatrixError unit :=
  let next_row_count := S (length (tm_rows (score_inner m))) in
  let push :=
    let '(inner, r) := TypedCoverageMatrix_push (score_inner m) row in
    (mkScoreCellMatrix (score_cell_id m) inner (score_budget m), r) in
  match score_budget m with
  | Some budget =>
      if (max_rows budget <? next_row_count)%nat
      then (m, Err (ScoreCellCapacityExceeded next_row_count (max_rows budget)))
      else push
  | None => push
  end.

(** ** Rows from raw words *)

Inductive CoverageRowBridgeError :=
| BridgeEmptyPatternUniverse
| BridgeMissingPieceSourceIdentity
| BridgeMissingPatternUniverseIdentity
| BridgeMissingPatternWeightModelIdentity
| BridgeWordCountMismatch (expected actual : nat)
| BridgeWordCountExceedsInput (word_count input_words : nat)
| BridgeTailBitsOutsidePatternUniverse
| BridgeCandidateIdOutOfRange (candidate_id : Z)
| BridgePattern (e : PatternBitSetError).

Definition tail_bits_set (words : list Z) (n word_count : nat) : Result Panic bool :=
  if (word_count =? 0)%nat then Ok false
  else
    let used_bits_in_tail := (n mod 64)%nat in
    if (used_bits_in_tail =? 0)%nat then Ok false
    else
      let allowed_mask := (shl 64 1 (Z.of_nat used_bits_in_tail) - 1)%Z in
      let? word := expect_some (words !! (word_count - 1)%nat) in
      Ok (negb (Z.land word (wnot 64 allowed_mask) =? 0)%Z).

(** The inner loop over the 64 bits of the word at [word_index]. *)
Fixpoint insert_word_bits (b : PatternBitSet) (word_index : nat) (word : Z) (bit_indices : list nat)
  : Result PatternBitSetError PatternBitSet :=
  match bit_indices with
  | [] => Ok b
  | bit_index :: bit_indices =>
      if (Z.land word (shl 64 1 (Z.of_nat bit_index)) =? 0)%Z
      then insert_word_bits b word_index word bit_indices
      else
        let? b := PatternBitSet_insert b (word_index * 64 + bit_index) in
        insert_word_bits b word_index word bit_indices
  end.

Fixpoint insert_words (b : PatternBitSet) (word_index : nat) (words : list Z) : Result PatternBitSetError PatternBitSet :=
  match words with
  | [] => Ok b
  | word :: words =>
      let? b := insert_word_bits b word_index word (seq 0 64) in
      insert_words b (S word_index) words
  end.

Definition pattern_bitset_from_raw_words (n word_count : nat) (words : list Z)
  : Result Panic (Result CoverageRowBridgeError PatternBitSet) :=
  if (n =? 0)%nat then Ok (Err BridgeEmptyPatternUniverse)
  else
    let expected_word_count := dense_word_count n in
    if negb (word_count =? expected_word_count)%nat
    then Ok (Err (BridgeWordCountMismatch expected_word_count word_count))
    else if (length words <? word_count)%nat
    then Ok (Err (BridgeWordCountExceedsInput word_count (length words)))
    else
      let? tail := tail_bits_set words n word_count in
      if tail : bool then Ok (Err BridgeTailBitsOutsidePatternUniverse)
      else Ok (rmap_err BridgePattern (insert_words (PatternBitSet_new n) 0 (take word_count words))).

Definition coverage_row_from_raw_words_with_identity_and_piece_source
    (candidate_id : Z) (kind : CoverageRowKind) (source universe weights : Z) (n word_count : nat) (words : list Z)
  : Result Panic (Result CoverageRowBridgeError (TypedCoverageRow PatternBitSet)) :=
  if (source =? 0)%Z then Ok (Err BridgeMissingPieceSourceIdentity)
  else if (universe =? 0)%Z then Ok (Err BridgeMissingPatternUniverseIdentity)
  else if (weights =? 0)%Z then Ok (Err BridgeMissingPatternWeightModelIdentity)
  else
    rmap (rmap (mkTypedCoverageRow candidate_id kind source universe weights))
      (pattern_bitset_from_raw_words n word_count words).

(** ** Invariants and lemmas *)

Section MatrixFacts.
Context {T : Type} {PO : PatternSetOps T} {L : PatternSetLaws T}.
Implicit Types (m : TypedCoverageMatrix T) (row : TypedCoverageRow T).

(** The rows share the matrix's universe, kind and piece source. *)
Definition row_matches m row : Prop :=
  tr_row_kind row = tm_row_kind m /\
  tr_pattern_universe_id row = guard_pattern_universe_id (tm_guard m) /\
  tr_pattern_weight_model_id row = guard_pattern_weight_model_id (tm_guard m) /\
  ps_pattern_count (tr_coverage_bits row) = tm_pattern_count m /\
  tr_piece_source_id row <> 0%Z /\ tm_piece_source_id m = Some (tr_piece_source_id row).

Definition TypedCoverageMatrix_ok m : Prop :=
  Forall (fun row => row_matches m row /\ ps_ok (tr_coverage_bits row)) (tm_rows m) /\
  (tm_rows m <> [] -> guard_pattern_universe_id (tm_guard m) <> 0%Z /\ guard_pattern_weight_model_id (tm_guard m) <> 0%Z).

(** What [push] asks of a row. *)
Definition row_fits m row : Prop :=
  tr_row_kind row = tm_row_kind m /\
  guard_pattern_universe_id (tm_guard m) <> 0%Z /\ guard_pattern_weight_model_id (tm_guard m) <> 0%Z /\
  tr_pattern_universe_id row = guard_pattern_universe_id (tm_guard m) /\
  tr_pattern_weight_model_id row = guard_pattern_weight_model_id (tm_guard m) /\
  ps_pattern_count (tr_coverage_bits row) = tm_pattern_count m /\
  tr_piece_source_id row <> 0%Z /\
  (tm_piece_source_id m = None \/ tm_piece_source_id m = Some (tr_piece_source_id row)).

Lemma check_row_Ok g row :
  check_row g row = Ok tt <->
  guard_pattern_universe_id g <> 0%Z /\ guard_pattern_weight_model_id g <> 0%Z /\
  tr_pattern_universe_id row = guard_pattern_universe_id g /\
  tr_pattern_weight_model_id row = guard_pattern_weight_model_id g /\
  ps_pattern_count (tr_coverage_bits row) = guard_pattern_count g.
Proof.
  unfold check_row, check_bits, check_identity.
  destruct (Z.eqb_spec (guard_pattern_universe_id g) 0); simpl; [intuition congruence|].
  destruct (Z.eqb_spec (guard_pattern_weight_model_id g) 0); simpl; [intuition congruence|].
  destruct (Z.eqb_spec (tr_pattern_universe_id row) 0); simpl; [intuition congruence|].
  destruct (Z.eqb_spec (tr_pattern_weight_model_id row) 0); simpl; [intuition congruence|].
  destruct (Z.eqb_spec (tr_pattern_universe_id row) (guard_pattern_universe_id g)); simpl; [|intuition congruence].
  destruct (Z.eqb_spec (tr_pattern_weight_model_id row) (guard_pattern_weight_model_id g)); simpl; [|intuition congruence].
  destruct (Nat.eqb_spec (ps_pattern_count (tr_coverage_bits row)) (guard_pattern_count g)); simpl; intuition congruence.
Qed.

Lemma push_cases m row :
  (row_fits m row /\
   TypedCoverageMatrix_push m row =
     (mkTypedCoverageMatrix (tm_guard m) (tm_row_kind m) (Some (tr_piece_source_id row)) (tm_rows m ++ [row]), Ok tt)) \/
  (~ row_fits m row /\ exists e, TypedCoverageMatrix_push m row = (m, Err e)).
Proof.
  unfold TypedCoverageMatrix_push, row_fits. case_bool_decide as Hk; simpl; [|right; split; [intuition congruence|eauto]].
  pose proof (check_row_Ok (tm_guard m) row) as Hr. unfold tm_pattern_count.
  destruct (check_row (tm_guard m) row) as [[]|e]; [|right; split; [intuition congruence|eauto]].
  destruct (proj1 Hr eq_refl) as (? & ? & ? & ? & ?). unfold check_piece_source.
  destruct (Z.eqb_spec (tr_piece_source_id row) 0); [right; split; [intuition congruence|eauto]|].
  destruct (tm_piece_source_id m) as [s|] eqn:Es; simpl; [|left; intuition].
  destruct (Z.eqb_spec s (tr_piece_source_id row)); simpl; [left|right; split; [intuition congruence|eauto]].
  rewrite Es. subst s. intuition.
Qed.

Lemma row_matches_source m row x :
  row_matches m x -> row_fits m row ->
  row_matches (mkTypedCoverageMatrix (tm_guard m) (tm_row_kind m) (Some (tr_piece_source_id row)) (tm_rows m ++ [row])) x.
Proof. unfold row_matches, row_fits, tm_pattern_count. simpl. intuition congruence. Qed.

Lemma push_preserves_ok m row :
  TypedCoverageMatrix_ok m -> ps_ok (tr_coverage_bits row) ->
  TypedCoverageMatrix_ok (TypedCoverageMatrix_push m row).1.
Proof.
  intros [Hrows Hid] Hok. destruct (push_cases m row) as [[Hfit ->]|[_ [e ->]]]; [|done]. split; simpl.
  - apply Forall_app. split.
    + eapply Forall_impl; [exact Hrows|]. intros x [Hx ?]. split; [by apply row_matches_source|done].
    + apply Forall_singleton. split; [|done]. unfold row_matches, row_fits, tm_pattern_count in *. simpl. intuition congruence.
  - unfold row_fits in Hfit. intuition congruence.
Qed.

(** The patterns of the rows [row_indices] names. *)
Definition union_set (sets : list T) : gset nat := ⋃ (ps_set <$> sets).

Lemma union_all_from_spec n union sets :
  ps_ok union -> ps_pattern_count union = n -> Forall (fun s => ps_ok s /\ ps_pattern_count s = n) sets ->
  exists c, union_all_from union sets = Ok c /\ ps_ok c /\ ps_pattern_count c = n /\
    ps_set c = ps_set union ∪ union_set sets.
Proof.
  intros Hok Hn Hs. revert union Hok Hn. unfold union_set.
  induction Hs as [|s sets [Hs Hc] _ IH]; intros union Hok Hn; simpl.
  { exists union. split_and!; try done. set_solver. }
  destruct (ps_union_spec union s) as (c & -> & Hokc & Hnc & Hsc); [done|done|congruence|]. simpl.
  destruct (IH c) as (d & Hd & Hokd & Hnd & Hsd); [done|congruence|]. exists d. split_and!; [done..|].
  rewrite Hsd, Hsc. set_solver.
Qed.

(** The bits of the row at an index, the empty set past the end. *)
Definition row_set m (index : nat) : gset nat :=
  match tm_rows m !! index with Some row => ps_set (tr_coverage_bits row) | None => ∅ end.

Definition rows_set m (row_indices : list nat) : gset nat := ⋃ (row_set m <$> row_indices).

Lemma union_from_spec m union row_indices :
  TypedCoverageMatrix_ok m -> ps_ok union -> ps_pattern_count union = tm_pattern_count m ->
  Forall (fun i => i < length (tm_rows m))%nat row_indices ->
  exists c, TypedCoverageMatrix_union_from m union row_indices = Ok c /\ ps_ok c /\
    ps_pattern_count c = tm_pattern_count m /\ ps_set c = ps_set union ∪ rows_set m row_indices.
Proof.
  intros [Hm _] Hok Hn Hi. revert union Hok Hn. unfold rows_set.
  induction Hi as [|i rest Hi _ IH]; intros union Hok Hn; simpl.
  { exists union. split_and!; try done. set_solver. }
  destruct (lookup_lt_is_Some_2 _ _ Hi) as [row Hrow]. unfold row_set at 1. rewrite Hrow. simpl.
  pose proof (Forall_lookup_1 _ _ _ _ Hm Hrow) as [Hmr Hokr]. destruct Hmr as (_ & _ & _ & Hcr & _).
  destruct (ps_union_spec union (tr_coverage_bits row)) as (c & -> & Hokc & Hnc & Hsc); [done|done|congruence|]. simpl.
  destruct (IH c) as (d & Hd & Hokd & Hnd & Hsd); [done|congruence|]. exists d. split_and!; [done..|].
  rewrite Hsd, Hsc. set_solver.
Qed.

Lemma union_rows_spec m row_indices :
  TypedCoverageMatrix_ok m -> Forall (fun i => i < length (tm_rows m))%nat row_indices ->
  exists c, TypedCoverageMatrix_union_rows m row_indices = Ok c /\ ps_ok c /\
    ps_pattern_count c = tm_pattern_count m /\ ps_set c = rows_set m row_indices.
Proof.
  intros Hm Hi. destruct (ps_new_spec (tm_pattern_count m)) as (Hok & Hn & Hs).
  destruct (union_from_spec m (ps_new (tm_pattern_count m)) row_indices Hm Hok Hn Hi) as (c & Hc & Hokc & Hnc & Hsc).
  exists c. split_and!; [done..|]. rewrite Hsc, Hs. set_solver.
Qed.

Lemma union_from_out_of_range m union before i after :
  TypedCoverageMatrix_ok m -> ps_ok union -> ps_pattern_count union = tm_pattern_count m ->
  Forall (fun i => i < length (tm_rows m))%nat before -> (length (tm_rows m) <= i)%nat ->
  TypedCoverageMatrix_union_from m union (before ++ i :: after) = Err (RowIndexOutOfRange i (length (tm_rows m))).
Proof.
  intros [Hm _] Hok Hn Hb Hi. revert union Hok Hn. induction Hb as [|j before Hj _ IH]; intros union Hok Hn; simpl.
  { by rewrite (lookup_ge_None_2 _ _ Hi). }
  destruct (lookup_lt_is_Some_2 _ _ Hj) as [row Hrow]. rewrite Hrow. simpl.
  pose proof (Forall_lookup_1 _ _ _ _ Hm Hrow) as [(_ & _ & _ & Hcr & _) Hokr].
  destruct (ps_union_spec union (tr_coverage_bits row)) as (c & -> & Hokc & Hnc & Hsc); [done|done|congruence|]. simpl.
  apply IH; congruence.
Qed.

Lemma union_set_seq m : union_set (tr_coverage_bits <$> tm_rows m) = rows_set m (seq 0 (length (tm_rows m))).
Proof.
  unfold union_set, rows_set. f_equal. apply list_eq. intros i. rewrite !list_lookup_fmap.
  destruct (decide (i < length (tm_rows m))%nat) as [Hi|Hi].
  - rewrite lookup_seq_lt by done. destruct (lookup_lt_is_Some_2 _ _ Hi) as [row Hrow]. simpl.
    unfold row_set. by rewrite Hrow.
  - rewrite (lookup_ge_None_2 (tm_rows m)) by lia. by rewrite lookup_seq_ge by lia.
Qed.

(** [TypedCoverageMatrix::push] accepts a row exactly when its kind,
    universe, weight model, pattern count and piece source agree with the
    matrix (the first accepted row fixing an open piece source); the row is
    appended, every invariant of the matrix holds again, and a rejected row
    leaves the matrix as it was. *)
Theorem typed_push_spec m row (Hm : TypedCoverageMatrix_ok m) (Hrow : ps_ok (tr_coverage_bits row)) :
  let '(m', r) := TypedCoverageMatrix_push m row in
  TypedCoverageMatrix_ok m' /\ (r = Ok tt <-> row_fits m row) /\
  (r <> Ok tt -> m' = m) /\
  (r = Ok tt -> tm_rows m' = tm_rows m ++ [row] /\ tm_piece_source_id m' = Some (tr_piece_source_id row) /\
     tm_pattern_count m' = tm_pattern_count m).
Proof.
  pose proof (push_preserves_ok m row Hm Hrow) as Hok.
  destruct (push_cases m row) as [[Hfit Hp]|[Hnot [e Hp]]]; rewrite Hp in *; simpl in *.
  - split; [done|]. split; [naive_solver|]. split; [done|]. done.
  - split; [done|]. split; [split; [done|naive_solver]|]. done.
Qed.

(** On a matrix that satisfies its invariant, [union_rows] returns the
    union of the selected rows' patterns when every index is in range, and
    otherwise reports the first index that is not; [union_all] never reaches
    its [expect] and is the union over all rows. *)
Theorem union_rows_correct m row_indices (Hm : TypedCoverageMatrix_ok m) :
  (Forall (fun i => i < length (tm_rows m))%nat row_indices ->
     exists c, TypedCoverageMatrix_union_rows m row_indices = Ok c /\ ps_ok c /\
       ps_pattern_count c = tm_pattern_count m /\ ps_set c = rows_set m row_indices) /\
  (forall before i after, row_indices = before ++ i :: after ->
     Forall (fun j => j < length (tm_rows m))%nat before -> (length (tm_rows m) <= i)%nat ->
     TypedCoverageMatrix_union_rows m row_indices = Err (RowIndexOutOfRange i (length (tm_rows m)))) /\
  exists c, TypedCoverageMatrix_union_all m = Ok c /\ ps_ok c /\
    ps_set c = rows_set m (seq 0 (length (tm_rows m))).
Proof.
  destruct (ps_new_spec (tm_pattern_count m)) as (Hok & Hn & Hs).
  split; [by apply union_rows_spec|]. split.
  - intros before i after -> Hb Hi. by apply union_from_out_of_range.
  - destruct (union_all_from_spec (tm_pattern_count m) (ps_new (tm_pattern_count m))
      (tr_coverage_bits <$> tm_rows m)) as (c & Hc & Hokc & _ & Hsc); [done|done| |].
    + apply Forall_fmap. destruct Hm as [Hm _]. eapply Forall_impl; [exact Hm|]. intros row [(_ & _ & _ & ? & _) ?]. done.
    + exists c. split_and!; [done..|]. rewrite Hsc, Hs, union_set_seq. set_solver.
Qed.

End MatrixFacts.

(** A two-row matrix over 70 patterns, one row sparse, used by the witnesses. *)
Definition sample_row (candidate : Z) (ids : list nat) : TypedCoverageRow PatternBitSet :=
  mkTypedCoverageRow candidate KPc 9 1 2 (mkPatternBitSet 300 (Sparse ids)).

Definition sample_matrix : TypedCoverageMatrix PatternBitSet :=
  mkTypedCoverageMatrix (mkGuard 1 2 300) KPc (Some 9%Z)
    [sample_row 0 [1; 4]%nat; sample_row 1 [4; 299]%nat].

Lemma sample_matrix_ok : TypedCoverageMatrix_ok sample_matrix.
Proof.
  split; [|done]. repeat apply Forall_cons_2; try apply Forall_nil_2; (split; [done|by apply sparse_ok_of]).
Defined.

Lemma typed_push_spec_witness :
  tm_rows (TypedCoverageMatrix_push sample_matrix (sample_row 2 [7]%nat)).1 =
    tm_rows sample_matrix ++ [sample_row 2 [7]%nat].
Proof.
  pose proof (typed_push_spec sample_matrix (sample_row 2 [7]%nat) sample_matrix_ok ltac:(by apply sparse_ok_of)) as H.
  destruct (TypedCoverageMatrix_push sample_matrix (sample_row 2 [7]%nat)) as [m' r] eqn:E.
  destruct H as (_ & _ & _ & H). apply H. vm_compute in E. by injection E as <- <-.
Defined.

Lemma union_rows_correct_witness :
  exists c, TypedCoverageMatrix_union_rows sample_matrix [0; 1]%nat = Ok c /\ ps_set c = rows_set sample_matrix [0; 1]%nat.
Proof.
  destruct (union_rows_correct sample_matrix [0; 1]%nat sample_matrix_ok) as [H _].
  destruct H as (c & Hc & _ & _ & Hs); [repeat constructor|]. exists c. split; assumption.
Defined.

(** ** The budgets *)

Definition within_budget (rows : nat) (budget : option MatrixBudget) : Prop :=
  match budget with Some b => (rows <= max_rows b)%nat | None => True end.

(** What a budgeted push does, whichever error constructor it uses. *)
Lemma budgeted_push (m : TypedCoverageMatrix PatternBitSet) row budget e :
  TypedCoverageMatrix_ok m -> PatternBitSet_ok (tr_coverage_bits row) ->
  within_budget (length (tm_rows m)) budget ->
  let '(m', r) :=
    match budget with
    | Some b => if (max_rows b <? S (length (tm_rows m)))%nat then (m, Err (e b)) else TypedCoverageMatrix_push m row
    | None => TypedCoverageMatrix_push m row
    end in
  TypedCoverageMatrix_ok m' /\ within_budget (length (tm_rows m')) budget /\ (r <> Ok tt -> m' = m) /\
  (r = Ok tt <-> within_budget (S (length (tm_rows m))) budget /\ row_fits m row).
Proof.
  intros Hm Hrow Hb.
  assert (within_budget (S (length (tm_rows m))) budget ->
    let '(m', r) := TypedCoverageMatrix_push m row in
    TypedCoverageMatrix_ok m' /\ within_budget (length (tm_rows m')) budget /\ (r <> Ok tt -> m' = m) /\
    (r = Ok tt <-> within_budget (S (length (tm_rows m))) budget /\ row_fits m row)) as Hpush.
  { intros Hn. pose proof (push_preserves_ok m row Hm Hrow) as Hok.
    destruct (push_cases m row) as [[Hfit Hp]|[Hnot [e' Hp]]]; rewrite Hp in *; simpl in *.
    - split_and!; try done. rewrite length_app. simpl. by rewrite Nat.add_1_r.
    - split_and!; try done. intuition congruence. }
  destruct budget as [b|]; [|by apply Hpush].
  destruct (Nat.ltb_spec (max_rows b) (S (length (tm_rows m)))); [|by apply Hpush].
  split_and!; try done. simpl. split; [done|]. intros [? _]. lia.
Qed.

(** The spin-target matrix never holds more rows than its budget: [push]
    keeps the bound, reports an error for the row past it, otherwise behaves
    as [push] of the inner matrix, and leaves the matrix unchanged when it
    reports an error.  The score-cell matrix has the same contract. *)
Theorem push_within_budget (row : TypedCoverageRow PatternBitSet) (Hrow : PatternBitSet_ok (tr_coverage_bits row)) :
  (forall m, TypedCoverageMatrix_ok (spin_inner m) ->
     within_budget (length (tm_rows (spin_inner m))) (spin_budget m) ->
     let '(m', r) := SpinCoverageMatrix_push m row in
     TypedCoverageMatrix_ok (spin_inner m') /\
     within_budget (length (tm_rows (spin_inner m'))) (spin_budget m) /\ (r <> Ok tt -> m' = m) /\
     (r = Ok tt <-> within_budget (S (length (tm_rows (spin_inner m)))) (spin_budget m) /\ row_fits (spin_inner m) row)) /\
  (forall m, TypedCoverageMatrix_ok (score_inner m) ->
     within_budget (length (tm_rows (score_inner m))) (score_budget m) ->
     let '(m', r) := ScoreCellMatrix_push m row in
     TypedCoverageMatrix_ok (score_inner m') /\
     within_budget (length (tm_rows (score_inner m'))) (score_budget m) /\ (r <> Ok tt -> m' = m) /\
     (r = Ok tt <-> within_budget (S (length (tm_rows (score_inner m)))) (score_budget m) /\ row_fits (score_inner m) row)).
Proof.
  split; intros m Hm Hb.
  - pose proof (budgeted_push (spin_inner m) row (spin_budget m)
      (fun b => SpinCoverageCapacityExceeded (S (length (tm_rows (spin_inner m)))) (max_rows b)) Hm Hrow Hb) as H.
    unfold SpinCoverageMatrix_push. destruct m as [id inner budget]; simpl in *.
    destruct budget as [b|]; [destruct (_ <? _)%nat|]; try done;
      destruct (TypedCoverageMatrix_push inner row) as [inner' r]; simpl;
      (destruct H as (H1 & H2 & H3 & H4); split; [done|]; split; [done|]; split; [|done]; intros Hr; f_equal; by apply H3).
  - pose proof (budgeted_push (score_inner m) row (score_budget m)
      (fun b => ScoreCellCapacityExceeded (S (length (tm_rows (score_inner m)))) (max_rows b)) Hm Hrow Hb) as H.
    unfold ScoreCellMatrix_push. destruct m as [id inner budget]; simpl in *.
    destruct budget as [b|]; [destruct (_ <? _)%nat|]; try done;
      destruct (TypedCoverageMatrix_push inner row) as [inner' r]; simpl;
      (destruct H as (H1 & H2 & H3 & H4); split; [done|]; split; [done|]; split; [|done]; intros Hr; f_equal; by apply H3).
Qed.

Lemma push_within_budget_witness :
  within_budget (length (tm_rows (spin_inner
    (SpinCoverageMatrix_push (mkSpinCoverageMatrix "t" sample_matrix (Some (mkMatrixBudget 2 9))) (sample_row 2 [7]%nat)).1)))
    (Some (mkMatrixBudget 2 9)).
Proof.
  destruct (push_within_budget (sample_row 2 [7]%nat) ltac:(by apply sparse_ok_of)) as [H _].
  specialize (H (mkSpinCoverageMatrix "t" sample_matrix (Some (mkMatrixBudget 2 9))) sample_matrix_ok (le_n 2)).
  destruct (SpinCoverageMatrix_push _ _) as [m' r]. apply H.
Defined.

(** ** Raw words *)

Lemma insert_word_bits_spec b k word idxs :
  PatternBitSet_ok b -> (forall j, j ∈ idxs -> (j < 64)%nat) ->
  (forall j, j ∈ idxs -> Z.testbit word (Z.of_nat j) = true -> (k * 64 + j < pattern_count b)%nat) ->
  exists c, insert_word_bits b k word idxs = Ok c /\ PatternBitSet_ok c /\ pattern_count c = pattern_count b /\
    forall i, i ∈ pset c <-> i ∈ pset b \/ exists j, j ∈ idxs /\ Z.testbit word (Z.of_nat j) = true /\ i = (k * 64 + j)%nat.
Proof.
  revert b. induction idxs as [|j idxs IH]; intros b Hok Hj Hbit; cbn [insert_word_bits].
  { exists b. split; [done|]. split; [done|]. split; [done|]. intros i. split; [by left|]. intros [?|(j & Hj0 & _)]; [done|]. by apply elem_of_nil in Hj0. }
  rewrite land_bit_eqb by (specialize (Hj j ltac:(by left)); lia).
  destruct (Z.testbit word (Z.of_nat j)) eqn:Ej; cbn [negb].
  - destruct (insert_spec b (k * 64 + j) Hok) as (b' & -> & Hok' & Hn' & Hp'); [apply Hbit; [by left|done]|].
    cbn [rbind]. destruct (IH b' Hok') as (c & Hc & Hokc & Hnc & Hpc);
      [intros; apply Hj; by right|intros; rewrite Hn'; apply Hbit; [by right|done]|].
    exists c. split; [done|]. split; [done|]. split; [congruence|]. intros i.
    rewrite Hpc, Hp', elem_of_union, elem_of_singleton. split.
    + intros [[->|?]|(j' & ? & ? & ->)]; [right; exists j|by left|right; exists j']; by rewrite elem_of_cons; auto.
    + intros [?|(j' & [->|?]%elem_of_cons & ? & ->)]; [by left; right|by left; left|right; by exists j'].
  - destruct (IH b Hok) as (c & Hc & Hokc & Hnc & Hpc); [intros; apply Hj; by right|intros; apply Hbit; [by right|done]|].
    exists c. split; [done|]. split; [done|]. split; [done|]. intros i. rewrite Hpc.
    split; intros [?|(j' & Hj' & Ht & ->)]; [by left| |by left|]; right; exists j'.
    + rewrite elem_of_cons. auto.
    + apply elem_of_cons in Hj' as [->|?]; [congruence|done].
Qed.

Lemma insert_words_spec b k words :
  PatternBitSet_ok b -> (forall i, words_bit words i = true -> (k * 64 + i < pattern_count b)%nat) ->
  exists c, insert_words b k words = Ok c /\ PatternBitSet_ok c /\ pattern_count c = pattern_count b /\
    forall i, i ∈ pset c <-> i ∈ pset b \/ exists j, words_bit words j = true /\ i = (k * 64 + j)%nat.
Proof.
  revert b k. induction words as [|word words IH]; intros b k Hok Hbit; cbn [insert_words].
  { exists b. split; [done|]. split; [done|]. split; [done|]. intros i. split; [by left|].
    intros [?|(j & Hj & _)]; [done|]. unfold words_bit in Hj. rewrite lookup_nil in Hj. simpl in Hj.
    by rewrite Z.testbit_0_l in Hj. }
  assert (forall j, words_bit (word :: words) (64 + j) = words_bit words j) as Hskip.
  { intros j. pose proof (words_bit_drop (word :: words) 1 (64 + j) ltac:(lia)) as <-. simpl drop. f_equal. lia. }
  assert (forall j, (j < 64)%nat -> words_bit (word :: words) j = Z.testbit word (Z.of_nat j)) as Hfirst
    by (intros j Hj; by apply (words_bit_split (word :: words) 0 j)).
  destruct (insert_word_bits_spec b k word (seq 0 64) Hok) as (b' & -> & Hok' & Hn' & Hp').
  { intros j ?%elem_of_seq. lia. }
  { intros j ?%elem_of_seq Ht. apply Hbit. by rewrite Hfirst by lia. }
  cbn [rbind]. destruct (IH b' (S k) Hok') as (c & Hc & Hokc & Hnc & Hpc).
  { intros i Hi. rewrite Hn'. specialize (Hbit (64 + i)%nat). rewrite Hskip in Hbit. specialize (Hbit Hi). lia. }
  exists c. split; [done|]. split; [done|]. split; [congruence|]. intros i. rewrite Hpc, Hp'. split.
  - intros [[?|(j & ?%elem_of_seq & Ht & ->)]|(j & Hj & ->)]; [by left|right; exists j|right; exists (64 + j)%nat].
    + by rewrite Hfirst by lia.
    + rewrite Hskip. split; [done|lia].
  - intros [?|(j & Hj & ->)]; [by left; left|]. destruct (decide (j < 64)%nat) as [Hlt|Hge].
    + left. right. exists j. rewrite elem_of_seq, <- Hfirst by done. split; [lia|done].
    + right. exists (j - 64)%nat. rewrite <- Hskip. replace (64 + (j - 64))%nat with j by lia. split; [done|lia].
Qed.

Lemma high_bit_of_not_width t w x :
  (0 <= t)%Z -> in_width w x -> ~ in_width t x -> exists i, (t <= i < w)%Z /\ Z.testbit x i = true.
Proof.
  unfold in_width. intros Ht [Hx Hw] Hn. assert (2 ^ t <= x)%Z as Hge by lia.
  assert (0 < x)%Z by (pose proof (Z.pow_pos_nonneg 2 t ltac:(lia) Ht); lia).
  exists (Z.log2 x). split; [split; [by apply Z.log2_le_pow2|by apply Z.log2_lt_pow2]|]. by apply Z.bit_log2.
Qed.

Lemma words_bit_take words k i : (i < k * 64)%nat -> words_bit (take k words) i = words_bit words i.
Proof. intros Hi. unfold words_bit. rewrite lookup_take_lt; [done|]. apply Nat.Div0.div_lt_upper_bound. lia. Qed.

(** What [tail_bits_set] decides for an input of the right length. *)
Lemma tail_bits_set_spec n words :
  Forall (in_width 64) words -> (0 < n)%nat -> (dense_word_count n <= length words)%nat ->
  exists t, tail_bits_set words n (dense_word_count n) = Ok t /\
    (t = true -> exists i, (n <= i < dense_word_count n * 64)%nat /\ words_bit words i = true) /\
    (t = false -> storage_ok n (Dense (take (dense_word_count n) words))).
Proof.
  intros Hw Hn Hl. unfold tail_bits_set. set (k := dense_word_count n) in *.
  assert (0 < k)%nat as Hk by (pose proof (dense_word_count_index n 0 Hn); subst k; simpl in *; lia).
  assert (length (take k words) = k) as Htl by (rewrite length_take; lia).
  assert (Forall (in_width 64) (take k words)) as Htw by (by apply Forall_take).
  rewrite (proj2 (Nat.eqb_neq k 0)) by lia. destruct (Nat.eqb_spec (n mod 64) 0) as [H0|H0].
  { exists false. split; [done|]. split; [done|]. intros _. apply last_word_clean; [done|done|].
    left. by apply Nat.eqb_eq. }
  pose proof (mod64_lt n) as Hmod. destruct (lookup_lt_is_Some_2 words (k - 1)) as [word Hword]; [lia|].
  rewrite Hword. cbn [expect_some rbind]. rewrite low_mask_ones by lia.
  assert (in_width 64 word) as Hww by (by apply (Forall_lookup_1 _ _ _ _ Hw Hword)).
  eexists; split; [done|]. pose proof (land_wnot_ones_0 64 (Z.of_nat (n mod 64)) word ltac:(lia) Hww) as Hiff.
  split; intros Ht; [apply negb_true_iff in Ht|apply negb_false_iff in Ht].
  - destruct (high_bit_of_not_width (Z.of_nat (n mod 64)) 64 word) as (i & Hi & Hti);
      [lia|done|intros H%Hiff; congruence|].
    exists ((k - 1) * 64 + Z.to_nat i)%nat. split.
    + pose proof (Nat.div_mod_eq n 64). subst k. unfold dense_word_count in *.
      assert ((n + 63) / 64 = n / 64 + 1)%nat as ->; [|lia].
      symmetry. apply (Nat.div_unique _ _ _ (n mod 64 - 1)); lia.
    + rewrite words_bit_split, Hword, Z2Nat.id by lia. done.
  - apply last_word_clean; [done|done|]. right. intros l Hlast.
    rewrite last_lookup, Htl, lookup_take_lt in Hlast by lia.
    replace (Init.Nat.pred k) with (k - 1)%nat in Hlast by lia. simplify_eq.
    rewrite low_mask_ones by lia. by apply Z.eqb_eq.
Qed.

(** Importing a row from raw words never panics.  It succeeds exactly for
    a non-empty universe whose word count is right, present in the buffer and
    free of bits past the universe, and then the set is the bits of the
    words; otherwise the error names the check that failed (and the bitset's
    own out-of-range error is unreachable). *)
Theorem raw_words_import_correct (n word_count : nat) (words : list Z) (Hw : Forall (in_width 64) words) :
  exists r, pattern_bitset_from_raw_words n word_count words = Ok r /\
    match r with
    | Ok b => PatternBitSet_ok b /\ pattern_count b = n /\ (0 < n)%nat /\
        word_count = dense_word_count n /\ (word_count <= length words)%nat /\
        (forall i, (i < word_count * 64)%nat -> i ∈ pset b <-> words_bit words i = true)
    | Err BridgeEmptyPatternUniverse => n = 0%nat
    | Err (BridgeWordCountMismatch e a) => e = dense_word_count n /\ a = word_count /\ a <> e
    | Err (BridgeWordCountExceedsInput w l) => w = word_count /\ l = length words /\ (l < w)%nat
    | Err BridgeTailBitsOutsidePatternUniverse =>
        exists i, (n <= i < word_count * 64)%nat /\ words_bit words i = true
    | Err _ => False
    end.
Proof.
  unfold pattern_bitset_from_raw_words. destruct (Nat.eqb_spec n 0) as [Hn|Hn]; [by eexists|].
  destruct (Nat.eqb_spec word_count (dense_word_count n)) as [->|Hne]; simpl negb; [|by eexists].
  destruct (Nat.ltb_spec (length words) (dense_word_count n)) as [Hlt|Hge]; [by eexists|].
  destruct (tail_bits_set_spec n words Hw ltac:(lia) Hge) as (t & -> & Ht & Hf). cbn [rbind].
  destruct t; [eexists; split; [done|]; by apply Ht|]. destruct (Hf eq_refl) as (_ & _ & Hb).
  destruct (new_spec n) as [Hok Hnew].
  destruct (insert_words_spec (PatternBitSet_new n) 0 (take (dense_word_count n) words) Hok Hb)
    as (b & -> & Hokb & Hnb & Hpb).
  eexists; split; [done|]. simpl. split_and!; [done|done|lia|done|done|].
  intros i Hi. rewrite Hpb, Hnew. rewrite <- (words_bit_take words (dense_word_count n)) by done. split.
  - intros [?|(j & Hj & ->)]; [set_solver|done].
  - intros H. right. by exists i.
Qed.

Lemma raw_words_import_correct_witness :
  exists b, pattern_bitset_from_raw_words 70 2 [5; 32; 77]%Z = Ok (Ok b) /\ (69%nat ∈ pset b <-> words_bit [5; 32; 77]%Z 69 = true).
Proof.
  destruct (raw_words_import_correct 70 2 [5; 32; 77]%Z) as (r & Hr & H);
    [repeat constructor; unfold in_width; lia|].
  destruct r as [b|e].
  - exists b. split; [exact Hr|]. destruct H as (_ & _ & _ & _ & _ & H). apply H. lia.
  - exfalso. vm_compute in Hr. discriminate Hr.
Defined.
