(* ===== verification/MinimumCover.v ===== *)
(** * Minimum cover

    [clearra-coverage], [cover/cover_selection.rs] and
    [cover/minimum_cover_solver.rs]: given a typed coverage matrix and a set
    of required patterns, [MinimumCoverSolver::solve] selects rows that cover
    the requirement, by exhaustive search in order of size up to
    [EXACT_MIN_COVER_ROW_LIMIT] rows and greedily past it.  [expect] is
    modelled, so that a result [Ok _] is the absence of panics.  The unbounded
    branch-and-bound authority ([exact_minimum_cover.rs]) is a separate
    component and is not modelled here. *)

From Stdlib Require Import ZArith Lia Sorted.
From stdpp Require Import prelude gmap sorting.
From S2P Require Import Prelude Words PatternBitSet PatternSet CoverageMatrix.

Inductive CoverSelectionStrategy := NotRequestedStrategy | ExactSearch | GreedyFallback.
Inductive CoverSelectionOptimality := NotRequested | ProvenMinimum | Approximate | NoCompleteCover.
Inductive CoverSelectionLimit :=
| NoLimit
| ExactSearchRowLimitExceeded (row_count limit : nat).

#[export] Instance CoverSelectionStrategy_eq_dec : EqDecision CoverSelectionStrategy.
Proof. solve_decision. Defined.
#[export] Instance CoverSelectionOptimality_eq_dec : EqDecision CoverSelectionOptimality.
Proof. solve_decision. Defined.

Definition EXACT_MIN_COVER_ROW_LIMIT : nat := 20.

(** The first [Some] of [f] over [l], as a [for] loop that returns early. *)
Fixpoint try_first {A} (f : nat -> Result Panic (option A)) (l : list nat) : Result Panic (option A) :=
  match l with
  | [] => Ok None
  | i :: l =>
      let? r := f i in
      match r with Some a => Ok (Some a) | None => try_first f l end
  end.

Section Solver.
Context {T : Type} {PO : PatternSetOps T}.

Record CoverSelection := mkCoverSelection {
  row_indices : list nat;
  sel_covered_patterns : T;
  complete : bool;
  strategy : CoverSelectionStrategy;
  optimality : CoverSelectionOptimality;
  limit : CoverSelectionLimit
}.

Definition CoverSelection_not_requested (n : nat) : CoverSelection :=
  mkCoverSelection [] (ps_new n) false NotRequestedStrategy NotRequested NoLimit.

Definition exact_minimum (indices : list nat) (covered : T) : CoverSelection :=
  mkCoverSelection indices covered true ExactSearch ProvenMinimum NoLimit.

Definition exact_incomplete (covered : T) : CoverSelection :=
  mkCoverSelection [] covered false ExactSearch NoCompleteCover NoLimit.

Definition greedy_fallback (indices : list nat) (covered : T) (is_complete : bool) (row_count exact_row_limit : nat)
  : CoverSelection :=
  mkCoverSelection indices covered is_complete GreedyFallback Approximate
    (ExactSearchRowLimitExceeded row_count exact_row_limit).

Definition is_proven_minimum (s : CoverSelection) : bool := bool_decide (optimality s = ProvenMinimum).
Definition used_greedy_fallback (s : CoverSelection) : bool := bool_decide (strategy s = GreedyFallback).
Definition exceeded_exact_search_budget (s : CoverSelection) : bool :=
  match limit s with ExactSearchRowLimitExceeded _ _ => true | NoLimit => false end.

Variables (matrix : TypedCoverageMatrix T) (required : T).

(** [choose_rows]: [current] is the stack of chosen indices, popped on the way
    back by the recursion itself. *)
Fixpoint choose_rows (remaining start : nat) (current : list nat) : Result Panic (option CoverSelection) :=
  match remaining with
  | O =>
      let? covered := expect (TypedCoverageMatrix_union_rows matrix current) in
      let? superset := expect (ps_is_superset covered required) in
      Ok (if superset : bool then Some (exact_minimum current covered) else None)
  | S remaining' =>
      let max_start := (length (tm_rows matrix) - remaining)%nat in
      try_first (fun index => choose_rows remaining' (S index) (current ++ [index]))
        (seq start (S max_start - start))
  end.

Definition bounded_exact_minimum_cover : Result Panic CoverSelection :=
  let? found := try_first (fun size => choose_rows size 0 []) (seq 1 (length (tm_rows matrix))) in
  match found with
  | Some selection => Ok selection
  | None => Ok (exact_incomplete (ps_new (tm_pattern_count matrix)))
  end.

(** [max_by_key] keeps the last position with the largest key. *)
Fixpoint best_position (covered : T) (best : option (nat * Z)) (position : nat) (remaining : list nat)
  : Result Panic (option nat) :=
  match remaining with
  | [] => Ok (fst <$> best)
  | row_index :: remaining =>
      let? row := expect_some (tm_rows matrix !! row_index) in
      let? candidate := expect (ps_union_with covered (tr_coverage_bits row)) in
      let key := ps_count_ones candidate in
      let best :=
        match best with
        | Some (p, k) => if (k <=? key)%Z then Some (position, key) else Some (p, k)
        | None => Some (position, key)
        end in
      best_position covered best (S position) remaining
  end.

(** The [while] loop of [greedy_cover]; one row leaves [remaining] per round,
    so [length remaining + 1] rounds are enough. *)
Fixpoint greedy_loop (fuel : nat) (selected : list nat) (covered : T) (remaining : list nat)
  : Result Panic (list nat * T) :=
  match fuel with
  | O => Err Panicked
  | S fuel =>
      let? superset := expect (ps_is_superset covered required) in
      if negb superset && negb (bool_decide (remaining = [])) then
        let? best := best_position covered None 0 remaining in
        match best with
        | None => Ok (selected, covered)
        | Some position =>
            let? row_index := expect_some (remaining !! position) in
            let remaining := delete position remaining in
            let? row := expect_some (tm_rows matrix !! row_index) in
            let? covered := expect (ps_union_with covered (tr_coverage_bits row)) in
            greedy_loop fuel (selected ++ [row_index]) covered remaining
        end
      else Ok (selected, covered)
  end.

Definition greedy_cover : Result Panic CoverSelection :=
  let rows := length (tm_rows matrix) in
  let? '(selected, covered) := greedy_loop (S rows) [] (ps_new (tm_pattern_count matrix)) (seq 0 rows) in
  let? is_complete := expect (ps_is_superset covered required) in
  Ok (greedy_fallback selected covered is_complete rows EXACT_MIN_COVER_ROW_LIMIT).

Definition MinimumCoverSolver_solve : Result Panic CoverSelection :=
  if ps_is_empty required then Ok (exact_minimum [] (ps_new (tm_pattern_count matrix)))
  else if (length (tm_rows matrix) <=? EXACT_MIN_COVER_ROW_LIMIT)%nat then bounded_exact_minimum_cover
  else greedy_cover.

End Solver.
Arguments CoverSelection : clear implicits.

(** ** Correctness *)

(** Lexicographic order on index lists. *)
Fixpoint lex_le (a b : list nat) : Prop :=
  match a, b with
  | [], _ => True
  | _ :: _, [] => False
  | x :: a, y :: b => (x < y)%nat \/ x = y /\ lex_le a b
  end.

Lemma try_first_spec {A} (f : nat -> Result Panic (option A)) l :
  (forall i, i ∈ l -> exists r, f i = Ok r) ->
  exists r, try_first f l = Ok r /\
    match r with
    | Some a => exists l1 i l2, l = l1 ++ i :: l2 /\ f i = Ok (Some a) /\ forall j, j ∈ l1 -> f j = Ok None
    | None => forall i, i ∈ l -> f i = Ok None
    end.
Proof.
  induction l as [|i l IH]; intros Hf; simpl.
  { exists None. split; [done|]. intros i Hi. by apply elem_of_nil in Hi. }
  destruct (Hf i) as [[a|] Hi]; [by left| |]; rewrite Hi; simpl.
  - exists (Some a). split; [done|]. exists [], i, l. split; [done|]. split; [done|]. intros j Hj. by apply elem_of_nil in Hj.
  - destruct IH as ([a|] & -> & H); [intros j Hj; apply Hf; by right| |].
    + exists (Some a). split; [done|]. destruct H as (l1 & k & l2 & -> & Hk & Hl1).
      exists (i :: l1), k, l2. split; [done|]. split; [done|]. intros j [->|Hj]%elem_of_cons; [done|by apply Hl1].
    + exists None. split; [done|]. intros j [->|Hj]%elem_of_cons; [done|by apply H].
Qed.

(** A strictly increasing list below [n] leaves room above its head. *)
Lemma sorted_lt_room x l n :
  StronglySorted lt (x :: l) -> Forall (fun i => i < n)%nat (x :: l) -> (x + length (x :: l) <= n)%nat.
Proof.
  revert x. induction l as [|y l IH]; intros x Hs Hl.
  - apply Forall_cons in Hl as [? _]. simpl. lia.
  - pose proof (sorted_lt_head x (y :: l) Hs y ltac:(by left)).
    apply StronglySorted_inv in Hs as [Hs _]. apply Forall_cons in Hl as [_ Hl].
    specialize (IH y Hs Hl). simpl in *. lia.
Qed.

Section Correctness.
Context {T : Type} {PO : PatternSetOps T} {PL : PatternSetLaws T}.
Variables (m : TypedCoverageMatrix T) (required : T).
Hypothesis Hm : TypedCoverageMatrix_ok m.
Hypothesis Hreq : ps_ok required.
Hypothesis Hn : ps_pattern_count required = tm_pattern_count m.

(** A list of row indices of the matrix that covers the requirement. *)
Definition in_range (l : list nat) : Prop := Forall (fun i => i < length (tm_rows m))%nat l.
Definition covers (l : list nat) : Prop := in_range l /\ ps_set required ⊆ rows_set m l.

Lemma rows_set_elem l p : p ∈ rows_set m l <-> exists i, i ∈ l /\ p ∈ row_set m i.
Proof. unfold rows_set. rewrite elem_of_union_list. setoid_rewrite list_elem_of_fmap. naive_solver. Qed.

Lemma rows_set_mono l l' : (forall i, i ∈ l -> i ∈ l') -> rows_set m l ⊆ rows_set m l'.
Proof. intros H p. rewrite !rows_set_elem. naive_solver. Qed.

Lemma rows_set_app l l' : rows_set m (l ++ l') = rows_set m l ∪ rows_set m l'.
Proof. unfold rows_set. rewrite fmap_app, union_list_app_L. done. Qed.

Definition extension (k start : nat) (ext : list nat) : Prop :=
  length ext = k /\ StronglySorted lt ext /\ Forall (fun i => start <= i < length (tm_rows m))%nat ext.

Lemma extension_cons k start i ext :
  extension (S k) start (i :: ext) <-> (start <= i < length (tm_rows m))%nat /\ extension k (S i) ext.
Proof.
  unfold extension. simpl. split.
  - intros (Hl & Hs & Hr). apply Forall_cons in Hr as [Hi Hr]. split; [done|]. split; [lia|].
    pose proof (sorted_lt_head _ _ Hs) as Hh. apply StronglySorted_inv in Hs as [Hs _]. split; [done|].
    apply Forall_forall. intros j Hj. pose proof (Hh j Hj). rewrite Forall_forall in Hr. specialize (Hr j Hj). lia.
  - intros (Hi & Hl & Hs & Hr). split; [lia|]. split.
    + constructor; [done|]. eapply Forall_impl; [exact Hr|]. simpl. lia.
    + constructor; [done|]. eapply Forall_impl; [exact Hr|]. simpl. lia.
Qed.

Lemma extension_head k start i ext :
  extension (S k) start (i :: ext) -> (i <= length (tm_rows m) - S k)%nat.
Proof.
  intros (Hl & Hs & Hr). pose proof (sorted_lt_room i ext (length (tm_rows m)) Hs) as Hroom.
  rewrite Hl in Hroom. assert (i + S k <= length (tm_rows m))%nat; [|lia].
  apply Hroom. eapply Forall_impl; [exact Hr|]. simpl. lia.
Qed.

(** What a call of [choose_rows] returns: the first extension, in
    lexicographic order, with which [current] covers the requirement. *)
Definition choose_post (k start : nat) (current : list nat) (r : option (CoverSelection T)) : Prop :=
  match r with
  | Some sel => exists ext covered,
      sel = exact_minimum (current ++ ext) covered /\ extension k start ext /\ covers (current ++ ext) /\
      ps_ok covered /\ ps_set covered = rows_set m (current ++ ext) /\
      forall ext', extension k start ext' -> covers (current ++ ext') -> lex_le ext ext'
  | None => forall ext, extension k start ext -> ~ covers (current ++ ext)
  end.

Lemma choose_leaf current :
  in_range current -> exists r, choose_rows m required 0 0 current = Ok r /\ forall start, choose_post 0 start current r.
Proof.
  intros Hc. simpl. destruct (union_rows_spec m current Hm Hc) as (covered & -> & Hok & Hcount & Hset). simpl.
  rewrite ps_superset_spec by (done || congruence). simpl. eexists; split; [done|]. intros start.
  assert (forall ext, extension 0 start ext -> ext = []) as Hnil by (intros ext [?%nil_length_inv _]; done).
  case_bool_decide as Hsub; simpl.
  - exists [], covered. rewrite app_nil_r. split; [done|]. split; [split; [done|split; constructor]|].
    split; [split; [done|by rewrite <- Hset]|]. split; [done|]. split; [done|]. by intros ext' ->%Hnil _.
  - intros ext ->%Hnil. rewrite app_nil_r. intros [_ H]. by rewrite Hset in Hsub.
Qed.

Lemma choose_rows_spec k : forall start current,
  (k <= length (tm_rows m))%nat -> in_range current ->
  exists r, choose_rows m required k start current = Ok r /\ choose_post k start current r.
Proof.
  induction k as [|k IH]; intros start current Hk Hc.
  { destruct (choose_leaf current Hc) as (r & Hr & Hpost). exists r. by split; [exact Hr|]. }
  cbn [choose_rows]. set (l := seq start (S (length (tm_rows m) - S k) - start)).
  assert (forall i, i ∈ l <-> (start <= i <= length (tm_rows m) - S k)%nat) as Hl
    by (intros i; unfold l; rewrite elem_of_seq; lia).
  assert (forall i, i ∈ l -> exists r, choose_rows m required k (S i) (current ++ [i]) = Ok r /\
    choose_post k (S i) (current ++ [i]) r) as Hrec.
  { intros i Hi%Hl. apply IH; [lia|]. apply Forall_app. split; [done|]. apply Forall_singleton. lia. }
  assert (forall i ext, extension (S k) start (i :: ext) -> i ∈ l /\ extension k (S i) ext) as Hsplit.
  { intros i ext He. pose proof (extension_head _ _ _ _ He). apply extension_cons in He as [? ?]. rewrite Hl. split; [lia|done]. }
  assert (forall i, i ∈ l -> choose_rows m required k (S i) (current ++ [i]) = Ok None ->
    forall ext, extension k (S i) ext -> ~ covers (current ++ i :: ext)) as Hnone.
  { intros i Hi Hi0 ext He. destruct (Hrec i Hi) as (r & Hr & Hp). rewrite Hr in Hi0. injection Hi0 as ->.
    specialize (Hp ext He). by rewrite <- app_assoc in Hp. }
  destruct (try_first_spec (fun index => choose_rows m required k (S index) (current ++ [index])) l) as (r & -> & Hr).
  { intros i Hi. destruct (Hrec i Hi) as (r & ? & _). by exists r. }
  exists r. split; [done|]. destruct r as [sel|]; simpl.
  - destruct Hr as (l1 & i & l2 & El & Hi & Hl1). assert (i ∈ l) as Hil by (rewrite El; set_solver).
    destruct (Hrec i Hil) as (r & Hr & Hp). rewrite Hr in Hi. injection Hi as ->.
    destruct Hp as (ext & covered & -> & He & Hcov & Hok & Hset & Hmin). rewrite <- !app_assoc in *. simpl in *.
    exists (i :: ext), covered. split; [done|]. split; [apply extension_cons; split; [apply Hl in Hil; lia|done]|].
    split; [done|]. split; [done|]. split; [done|]. intros [|j ext'] He' Hcov'; [by destruct He'|].
    destruct (Hsplit _ _ He') as [Hj Hext']. destruct (decide (j ∈ l1)) as [Hj1|Hj1].
    { exfalso. by apply (Hnone j Hj (Hl1 j Hj1) ext'). }
    assert (i <= j)%nat as Hij.
    { apply (sorted_lt_after l1 i l2); [|by rewrite <- El|done]. rewrite <- El. apply sorted_lt_seq. }
    simpl. destruct (decide (i = j)) as [->|]; [right|left; lia]. split; [done|]. apply Hmin; [done|].
    by rewrite <- app_assoc.
  - intros [|j ext'] He'; [by destruct He'|]. destruct (Hsplit _ _ He') as [Hj Hext']. by apply Hnone; [|apply Hr|].
Qed.

Lemma dedup_length l : (length (dedup l) <= length l)%nat.
Proof.
  induction l as [|x l IH]; [simpl; lia|]. simpl. destruct l as [|y l]; [simpl; lia|].
  destruct (x =? y)%nat; simpl in *; lia.
Qed.

(** Any cover can be listed in increasing order without growing. *)
Lemma covers_sorted l :
  covers l -> exists l', covers l' /\ StronglySorted lt l' /\ (length l' <= length l)%nat.
Proof.
  intros [Hr Hc]. destruct (sort_dedup_spec l) as [Hs He]. exists (sort_dedup l). split; [split|split].
  - apply Forall_forall. intros i Hi. rewrite He in Hi. unfold in_range in Hr. rewrite Forall_forall in Hr. by apply Hr.
  - etransitivity; [exact Hc|]. apply rows_set_mono. intros i. apply He.
  - done.
  - unfold sort_dedup. etransitivity; [apply dedup_length|]. rewrite (Permutation_length (merge_sort_Permutation le l)). done.
Qed.

Lemma sorted_cover_extension l : covers l -> StronglySorted lt l -> extension (length l) 0 l.
Proof.
  intros [Hr _] Hs. split; [done|]. split; [done|]. eapply Forall_impl; [exact Hr|]. simpl. lia.
Qed.

Lemma sorted_lt_below l n : StronglySorted lt l -> Forall (fun i => i < n)%nat l -> (length l <= n)%nat.
Proof. destruct l as [|x l]; [simpl; lia|]. intros Hs Hl. pose proof (sorted_lt_room x l n Hs Hl). lia. Qed.

(** A selection that is a minimum cover, the lexicographically first one. *)
Definition first_minimum_cover (l : list nat) : Prop :=
  covers l /\ StronglySorted lt l /\ (forall l', covers l' -> (length l <= length l')%nat) /\
  (forall l', covers l' -> StronglySorted lt l' -> length l' = length l -> lex_le l l').

Lemma bounded_exact_spec :
  ps_set required <> ∅ ->
  exists sel, bounded_exact_minimum_cover m required = Ok sel /\
    ((exists covered, sel = exact_minimum (row_indices sel) covered /\ first_minimum_cover (row_indices sel) /\
        ps_ok covered /\ ps_set covered = rows_set m (row_indices sel)) \/
     (sel = exact_incomplete (ps_new (tm_pattern_count m)) /\ forall l, ~ covers l)).
Proof.
  intros Hne. unfold bounded_exact_minimum_cover.
  assert (forall k, k ∈ seq 1 (length (tm_rows m)) ->
    exists r, choose_rows m required k 0 [] = Ok r /\ choose_post k 0 [] r) as Hrec.
  { intros k Hk%elem_of_seq. apply choose_rows_spec; [lia|apply Forall_nil_2]. }
  assert (forall l, covers l -> StronglySorted lt l -> length l ∈ seq 1 (length (tm_rows m))) as Hsize.
  { intros l [Hr Hc] Hs. apply elem_of_seq. pose proof (sorted_lt_below l (length (tm_rows m)) Hs Hr).
    destruct l; [|simpl in *; lia]. exfalso. apply Hne. unfold rows_set in Hc. simpl in Hc. set_solver. }
  assert (forall k l, k ∈ seq 1 (length (tm_rows m)) -> choose_rows m required k 0 [] = Ok None ->
    covers l -> StronglySorted lt l -> length l <> k) as Hnone.
  { intros k l Hk Hk0 Hl Hs <-. destruct (Hrec _ Hk) as (r & Hr & Hp). rewrite Hr in Hk0. injection Hk0 as ->.
    apply (Hp l); [by apply sorted_cover_extension|done]. }
  destruct (try_first_spec (fun size => choose_rows m required size 0 []) (seq 1 (length (tm_rows m)))) as (r & -> & Hr).
  { intros k Hk. destruct (Hrec k Hk) as (r & ? & _). by exists r. }
  simpl. destruct r as [sel|].
  - exists sel. split; [done|]. left. destruct Hr as (l1 & k & l2 & El & Hk & Hl1).
    assert (k ∈ seq 1 (length (tm_rows m))) as Hks by (rewrite El; set_solver).
    destruct (Hrec k Hks) as (r & Hr & Hp). rewrite Hr in Hk. injection Hk as ->. simpl in Hp.
    destruct Hp as (ext & covered & -> & (Hlen & Hs & Hrng) & Hcov & Hok & Hset & Hmin). simpl in *.
    exists covered. split; [done|]. split; [|done]. split; [done|]. split; [done|]. split.
    + intros l' Hl'. destruct (covers_sorted l' Hl') as (l'' & Hl'' & Hs'' & Hle).
      assert (length ext <= length l'')%nat; [|lia]. rewrite Hlen. pose proof (Hsize _ Hl'' Hs'') as Hin.
      destruct (decide (length l'' ∈ l1)) as [Hin1|Hin1]; [by destruct (Hnone (length l'') l'' Hin (Hl1 _ Hin1) Hl'' Hs'')|].
      apply (sorted_lt_after l1 k l2); [|by rewrite <- El|done]. rewrite <- El. apply sorted_lt_seq.
    + intros l' Hl' Hs' Hlen'. apply Hmin; [|done]. rewrite <- Hlen, <- Hlen'. by apply sorted_cover_extension.
  - eexists; split; [done|]. right. split; [done|]. intros l Hl. destruct (covers_sorted l Hl) as (l' & Hl' & Hs' & _).
    pose proof (Hsize _ Hl' Hs') as Hin. by apply (Hnone (length l') l' Hin (Hr _ Hin) Hl' Hs').
Qed.

(** The key [greedy_cover] maximises: the patterns covered after adding row [i]. *)
Definition gain_key (covered : gset nat) (i : nat) : Z :=
  Z.min (Z.of_nat (size (covered ∪ row_set m i))) (umax 32).

Definition best_ok (covered : gset nat) (seen : list nat) (best : option (nat * Z)) : Prop :=
  match best with
  | None => seen = []
  | Some (p, k) => exists i, seen !! p = Some i /\ k = gain_key covered i /\
      forall j, j ∈ seen -> (gain_key covered j <= k)%Z
  end.

Lemma row_union covered i :
  ps_ok covered -> ps_pattern_count covered = tm_pattern_count m -> (i < length (tm_rows m))%nat ->
  exists row c, tm_rows m !! i = Some row /\ ps_union_with covered (tr_coverage_bits row) = Ok c /\ ps_ok c /\
    ps_pattern_count c = tm_pattern_count m /\ ps_set c = ps_set covered ∪ row_set m i.
Proof.
  intros Hok Hc Hi. destruct (lookup_lt_is_Some_2 _ _ Hi) as [row Hrow]. unfold row_set. rewrite Hrow.
  destruct Hm as [Hrows _]. pose proof (Forall_lookup_1 _ _ _ _ Hrows Hrow) as [(_ & _ & _ & Hcr & _) Hokr].
  destruct (ps_union_spec covered (tr_coverage_bits row)) as (c & ? & ? & ? & ?); [done|done|congruence|].
  exists row, c. split_and!; congruence || done.
Qed.

Lemma best_position_spec covered best seen remaining :
  ps_ok covered -> ps_pattern_count covered = tm_pattern_count m -> in_range remaining ->
  best_ok (ps_set covered) seen best ->
  exists best', best_position m covered best (length seen) remaining = Ok (fst <$> best') /\
    best_ok (ps_set covered) (seen ++ remaining) best'.
Proof.
  intros Hok Hc Hr. revert best seen. induction Hr as [|i remaining Hi _ IH]; intros best seen Hb; cbn [best_position].
  { exists best. rewrite app_nil_r. done. }
  destruct (row_union covered i Hok Hc Hi) as (row & c & -> & Hu & Hokc & Hcc & Hsc). cbn [expect_some rbind].
  rewrite Hu. cbn [expect rbind]. rewrite (ps_count_spec c Hokc), Hsc. fold (gain_key (ps_set covered) i).
  replace (S (length seen)) with (length (seen ++ [i])) by (rewrite length_app; simpl; lia).
  replace (seen ++ i :: remaining) with ((seen ++ [i]) ++ remaining) by (by rewrite <- app_assoc). apply IH.
  assert ((seen ++ [i]) !! length seen = Some i) as Hlast by (by apply list_lookup_middle).
  destruct best as [[p k]|]; simpl in *.
  - destruct Hb as (i0 & Hp & -> & Hmax). destruct (Z.leb_spec (gain_key (ps_set covered) i0) (gain_key (ps_set covered) i)).
    + exists i. split_and!; [done|done|]. intros j [Hj| ->%list_elem_of_singleton]%elem_of_app; [|lia]. specialize (Hmax j Hj). lia.
    + exists i0. split_and!; [by apply lookup_app_l_Some|done|].
      intros j [Hj| ->%list_elem_of_singleton]%elem_of_app; [by apply Hmax|lia].
  - subst seen. exists i. split_and!; [done|done|]. intros j ->%list_elem_of_singleton. lia.
Qed.

(** The rows [greedy_cover] selected, in order: every step was taken while the
    requirement was not met, and took a row of largest gain among the rows
    not selected before. *)
Definition greedy_trace (selected : list nat) : Prop :=
  forall before i after, selected = before ++ i :: after ->
    ~ ps_set required ⊆ rows_set m before /\
    forall j, (j < length (tm_rows m))%nat -> j ∉ before ->
      (gain_key (rows_set m before) j <= gain_key (rows_set m before) i)%Z.

Definition greedy_state (selected : list nat) (covered : T) (remaining : list nat) : Prop :=
  selected ++ remaining ≡ₚ seq 0 (length (tm_rows m)) /\ greedy_trace selected /\
  ps_ok covered /\ ps_pattern_count covered = tm_pattern_count m /\ ps_set covered = rows_set m selected.

Lemma greedy_trace_snoc selected i :
  greedy_trace selected -> ~ ps_set required ⊆ rows_set m selected ->
  (forall j, (j < length (tm_rows m))%nat -> j ∉ selected ->
     (gain_key (rows_set m selected) j <= gain_key (rows_set m selected) i)%Z) ->
  greedy_trace (selected ++ [i]).
Proof.
  intros Ht Hn' Hmax before i' after E. destruct after as [|a after _] using rev_ind.
  - apply app_inj_tail in E as [<- <-]. done.
  - rewrite app_comm_cons, app_assoc in E. apply app_inj_tail in E as [-> _]. by apply (Ht before i' after).
Qed.

Lemma greedy_step selected covered remaining :
  greedy_state selected covered remaining -> ~ ps_set required ⊆ ps_set covered -> remaining <> [] ->
  exists position i row c, best_position m covered None 0 remaining = Ok (Some position) /\
    remaining !! position = Some i /\ tm_rows m !! i = Some row /\
    ps_union_with covered (tr_coverage_bits row) = Ok c /\
    greedy_state (selected ++ [i]) c (delete position remaining).
Proof.
  intros (Hp & Ht & Hok & Hc & Hs) Hsub Hne.
  assert (forall j, j ∈ selected ++ remaining <-> (j < length (tm_rows m))%nat) as Hmem
    by (intros j; rewrite Hp, elem_of_seq; lia).
  assert (in_range remaining) as Hr by (apply Forall_forall; intros j Hj; apply Hmem; set_solver).
  destruct (best_position_spec covered None [] remaining Hok Hc Hr eq_refl) as (best & Hb & Hbest). simpl in *.
  destruct best as [[position k]|]; [|done]. destruct Hbest as (i & Hi & -> & Hmax).
  pose proof (list_elem_of_lookup_2 _ _ _ Hi) as Hin. pose proof (Forall_forall (fun i => i < length (tm_rows m))%nat remaining) as HF.
  destruct (row_union covered i Hok Hc (proj1 HF Hr i Hin)) as (row & c & Hrow & Hu & Hokc & Hcc & Hsc).
  exists position, i, row, c. split_and!; try done. split_and!; try done.
  - rewrite <- Hp, <- app_assoc. f_equiv. symmetry. simpl. by apply delete_Permutation.
  - rewrite Hs in *. apply greedy_trace_snoc; [done|done|]. intros j Hj Hnj. apply Hmax.
    apply Hmem in Hj. set_solver.
  - rewrite Hsc, Hs, rows_set_app. f_equal. unfold rows_set. simpl. set_solver.
Qed.

Lemma greedy_loop_spec fuel selected covered remaining :
  (length remaining < fuel)%nat -> greedy_state selected covered remaining ->
  exists selected' covered' remaining', greedy_loop m required fuel selected covered remaining = Ok (selected', covered') /\
    greedy_state selected' covered' remaining' /\ (ps_set required ⊆ ps_set covered' \/ remaining' = []).
Proof.
  revert selected covered remaining. induction fuel as [|fuel IH]; intros selected covered remaining Hf Hst; [lia|].
  cbn [greedy_loop]. pose proof Hst as (Hp & Ht & Hok & Hc & Hs). rewrite ps_superset_spec by (done || congruence).
  cbn [expect rbind]. case_bool_decide as Hsub; cbn [negb andb].
  { exists selected, covered, remaining. split; [done|]. split; [done|]. by left. }
  case_bool_decide as Hne; cbn [negb].
  { exists selected, covered, remaining. split; [done|]. split; [done|]. by right. }
  destruct (greedy_step selected covered remaining Hst Hsub Hne) as (position & i & row & c & -> & Hi & Hrow & Hu & Hst').
  cbn [rbind]. rewrite Hi. cbn [expect_some rbind]. rewrite Hrow. cbn [expect_some rbind]. rewrite Hu. cbn [expect rbind].
  apply IH; [|done]. rewrite length_delete by (by exists i). apply lookup_lt_Some in Hi. lia.
Qed.

Lemma greedy_cover_spec :
  exists sel, greedy_cover m required = Ok sel /\
    sel = greedy_fallback (row_indices sel) (sel_covered_patterns sel) (complete sel) (length (tm_rows m)) EXACT_MIN_COVER_ROW_LIMIT /\
    NoDup (row_indices sel) /\ in_range (row_indices sel) /\ greedy_trace (row_indices sel) /\
    ps_ok (sel_covered_patterns sel) /\ ps_set (sel_covered_patterns sel) = rows_set m (row_indices sel) /\
    (complete sel = true <-> covers (row_indices sel)) /\
    (complete sel = true <-> exists l, covers l).
Proof.
  unfold greedy_cover. set (n := length (tm_rows m)). destruct (ps_new_spec (tm_pattern_count m)) as (Hok0 & Hc0 & Hs0).
  destruct (greedy_loop_spec (S n) [] (ps_new (tm_pattern_count m)) (seq 0 n)) as (sel & cov & rem & -> & Hst & Hend).
  { rewrite length_seq. lia. }
  { split_and!; try done. intros before i after E. by destruct before. }
  destruct Hst as (Hp & Ht & Hok & Hc & Hs). fold n in Hp. cbn [rbind]. rewrite ps_superset_spec by (done || congruence). cbn [expect rbind].
  eexists; split; [done|]. simpl. split; [done|].
  assert (NoDup (sel ++ rem)) as Hnd by (rewrite Hp; apply NoDup_seq).
  assert (in_range sel) as Hr.
  { apply Forall_forall. intros i Hi. assert (i ∈ seq 0 n) as Hin by (rewrite <- Hp; set_solver). apply elem_of_seq in Hin. unfold n in Hin. lia. }
  assert (bool_decide (ps_set required ⊆ ps_set cov) = true <-> covers sel) as Hcov.
  { rewrite bool_decide_eq_true, Hs. unfold covers. tauto. }
  split_and!; [by apply NoDup_app in Hnd as (? & _ & _)|done|done|done|done|exact Hcov|]. split.
  - intros ?%Hcov. by exists sel.
  - intros (l & Hl & Hsub). apply bool_decide_eq_true. destruct Hend as [?| ->]; [done|].
    rewrite app_nil_r in Hp. rewrite Hs. etransitivity; [exact Hsub|]. apply rows_set_mono. intros i Hi.
    rewrite Hp, elem_of_seq. unfold in_range in Hl. rewrite Forall_forall in Hl. specialize (Hl i Hi). unfold n. lia.
Qed.

End Correctness.

(** C5: Up to [EXACT_MIN_COVER_ROW_LIMIT] rows [MinimumCoverSolver::solve]
    decides the minimum cover problem exactly and never panics: either it
    returns a complete selection marked as a proven minimum, whose indices
    are a cover of least cardinality and the lexicographically first one, and
    whose [covered_patterns] is the union of the selected rows; or no set of
    rows covers the requirement and the selection says so. *)
Theorem solve_small_is_minimum {T} {PO : PatternSetOps T} {PL : PatternSetLaws T}
    (m : TypedCoverageMatrix T) (required : T) (Hm : TypedCoverageMatrix_ok m) (Hreq : ps_ok required)
    (Hn : ps_pattern_count required = tm_pattern_count m) (Hsmall : (length (tm_rows m) <= EXACT_MIN_COVER_ROW_LIMIT)%nat) :
  exists sel, MinimumCoverSolver_solve m required = Ok sel /\
    strategy sel = ExactSearch /\ limit sel = NoLimit /\
    (if complete sel
     then optimality sel = ProvenMinimum /\ first_minimum_cover m required (row_indices sel) /\
          ps_set (sel_covered_patterns sel) = rows_set m (row_indices sel)
     else optimality sel = NoCompleteCover /\ row_indices sel = [] /\ forall l, ~ covers m required l).
Proof.
  unfold MinimumCoverSolver_solve. rewrite ps_is_empty_spec by done. case_bool_decide as He.
  - eexists; split; [done|]. simpl. split; [done|]. split; [done|]. split; [done|].
    destruct (ps_new_spec (tm_pattern_count m)) as (_ & _ & Hs). unfold rows_set. simpl. split; [|done].
    unfold first_minimum_cover, covers, in_range. rewrite He. split_and!; [constructor|set_solver|constructor|simpl; lia|done].
  - rewrite (proj2 (Nat.leb_le _ _)) by done.
    destruct (bounded_exact_spec m required Hm Hreq Hn He) as (sel & -> & [(covered & Hsel & Hmin & Hok & Hs)|[-> Hno]]).
    + exists sel. split; [done|]. rewrite Hsel. simpl. split_and!; try done.
    + eexists; split; [done|]. done.
Qed.

Lemma solve_small_is_minimum_witness :
  exists sel, MinimumCoverSolver_solve sample_matrix (mkPatternBitSet 300 (Sparse [4; 299]%nat)) = Ok sel /\
    row_indices sel = [1]%nat /\ first_minimum_cover sample_matrix (mkPatternBitSet 300 (Sparse [4; 299]%nat)) (row_indices sel).
Proof.
  destruct (solve_small_is_minimum sample_matrix (mkPatternBitSet 300 (Sparse [4; 299]%nat)) sample_matrix_ok)
    as (sel & Hsel & _ & _ & H); [by apply sparse_ok_of|reflexivity|simpl; unfold EXACT_MIN_COVER_ROW_LIMIT; lia|].
  exists sel. split; [exact Hsel|]. vm_compute in Hsel. injection Hsel as <-. split; [reflexivity|]. apply H.
Defined.

(** Past the row limit [solve] falls back to the greedy heuristic and
    reports it as approximate, with the row count and the limit.  The loop
    ends within one round per row and never panics; every round takes a row
    of largest coverage gain while the requirement is not met; no row is
    taken twice; and the selection is complete exactly when some set of rows
    covers the requirement. *)
Theorem solve_large_is_greedy {T} {PO : PatternSetOps T} {PL : PatternSetLaws T}
    (m : TypedCoverageMatrix T) (required : T) (Hm : TypedCoverageMatrix_ok m) (Hreq : ps_ok required)
    (Hn : ps_pattern_count required = tm_pattern_count m) (Hne : ps_set required <> ∅)
    (Hlarge : (EXACT_MIN_COVER_ROW_LIMIT < length (tm_rows m))%nat) :
  exists sel, MinimumCoverSolver_solve m required = Ok sel /\
    strategy sel = GreedyFallback /\ optimality sel = Approximate /\
    limit sel = ExactSearchRowLimitExceeded (length (tm_rows m)) EXACT_MIN_COVER_ROW_LIMIT /\
    NoDup (row_indices sel) /\ in_range m (row_indices sel) /\ greedy_trace m required (row_indices sel) /\
    ps_set (sel_covered_patterns sel) = rows_set m (row_indices sel) /\
    (complete sel = true <-> covers m required (row_indices sel)) /\
    (complete sel = true <-> exists l, covers m required l).
Proof.
  unfold MinimumCoverSolver_solve. rewrite ps_is_empty_spec by done. rewrite bool_decide_eq_false_2 by done.
  rewrite (proj2 (Nat.leb_gt _ _)) by done.
  destruct (greedy_cover_spec m required Hm Hreq Hn) as (sel & -> & Hsel & H). exists sel. split; [done|].
  split; [by rewrite Hsel|]. split; [by rewrite Hsel|]. split; [by rewrite Hsel|]. tauto.
Qed.

Definition sample_large_matrix : TypedCoverageMatrix PatternBitSet :=
  mkTypedCoverageMatrix (mkGuard 1 2 300) KPc (Some 9%Z) (replicate 21 (sample_row 0 [4; 299]%nat)).

Lemma solve_large_is_greedy_witness :
  exists sel, MinimumCoverSolver_solve sample_large_matrix (mkPatternBitSet 300 (Sparse [4]%nat)) = Ok sel /\
    row_indices sel = [20]%nat /\ strategy sel = GreedyFallback.
Proof.
  destruct (solve_large_is_greedy sample_large_matrix (mkPatternBitSet 300 (Sparse [4]%nat))) as (sel & Hsel & Hst & _).
  - split; [|done]. apply Forall_replicate. split; [done|by apply sparse_ok_of].
  - by apply sparse_ok_of.
  - reflexivity.
  - intros H. apply (not_elem_of_empty (C := gset nat) 4%nat). rewrite <- H. apply elem_of_pset. reflexivity.
  - simpl. unfold EXACT_MIN_COVER_ROW_LIMIT. lia.
  - exists sel. split; [exact Hsel|]. split; [|exact Hst]. vm_compute in Hsel. by injection Hsel as <-.
Defined.
