(* ===== verification/ExactCover.v ===== *)
(** * Exact cover

    [clearra-exact-cover]: the problem ([model/*.rs]), the DLX-style search
    with its limits and report ([solver/dlx_solver.rs]), the plain
    backtracking solver ([solver/bitset_exact_cover_solver.rs]) and the
    builders that turn cells, masks and areas into a problem ([builder/*.rs]).

    Columns, candidate indices and ids are [nat]; the search limits and the
    node counter are [Z], because [solve_first] passes [usize::MAX].  An index
    into [covered], [rows_by_column] or the candidates is read with a default:
    [build_rows_by_column] has rejected every column out of range before the
    search starts, and [rows_sound] shows that the rows hold candidate
    indices only. *)

From Stdlib Require Import ZArith Lia Sorted.
From stdpp Require Import prelude gmap sorting.
From S2P Require Import Prelude Words.

(** ** The problem *)

Record ExactCoverCandidate := mkCandidate {
  cand_id : nat;
  cand_columns : list nat
}.

Record ExactCoverProblem := mkProblem {
  required_column_count : nat;
  optional_column_count : nat;
  candidates : list ExactCoverCandidate
}.

Definition ExactCoverProblem_new (n : nat) (cands : list ExactCoverCandidate) : ExactCoverProblem := mkProblem n 0 cands.
Definition with_optional_columns (required optional : nat) (cands : list ExactCoverCandidate) : ExactCoverProblem :=
  mkProblem required optional cands.
Definition column_count (p : ExactCoverProblem) : nat := required_column_count p + optional_column_count p.
Definition has_optional_columns (p : ExactCoverProblem) : bool := (0 <? optional_column_count p)%nat.

(** ** DLX *)

Inductive DlxSolverError :=
| ZeroMaxSolutions
| ZeroMaxNodes
| EmptyCandidate (candidate_id : nat)
| CandidateColumnOutOfRange (candidate_id column column_count : nat)
| DuplicateColumnInCandidate (candidate_id column : nat).

Record DlxSearchLimits := mkLimits {
  max_solutions : Z;
  max_nodes : Z
}.

Definition DlxSearchLimits_default : DlxSearchLimits := mkLimits 1024 1000000.

Inductive DlxTruncatedReason := MaxSolutions | MaxNodes.

Record DlxSolveReport := mkReport {
  solutions : list (list nat);
  searched_nodes : Z;
  report_complete : bool;
  truncated_reason : option DlxTruncatedReason
}.

(** The first pair of equal neighbours, [windows(2)] over the sorted columns. *)
Fixpoint first_equal_window (l : list nat) : option nat :=
  match l with
  | x :: (y :: _) as tl => if (x =? y)%nat then Some x else first_equal_window tl
  | _ => None
  end.

Fixpoint push_columns (id total index : nat) (columns : list nat) (rows : list (list nat))
  : Result DlxSolverError (list (list nat)) :=
  match columns with
  | [] => Ok rows
  | column :: columns =>
      if (total <=? column)%nat then Err (CandidateColumnOutOfRange id column total)
      else push_columns id total index columns (alter (fun row => row ++ [index]) column rows)
  end.

Fixpoint push_candidates (total index : nat) (cands : list ExactCoverCandidate) (rows : list (list nat))
  : Result DlxSolverError (list (list nat)) :=
  match cands with
  | [] => Ok rows
  | candidate :: cands =>
      if bool_decide (cand_columns candidate = []) then Err (EmptyCandidate (cand_id candidate))
      else
        match first_equal_window (merge_sort le (cand_columns candidate)) with
        | Some column => Err (DuplicateColumnInCandidate (cand_id candidate) column)
        | None =>
            let? rows := push_columns (cand_id candidate) total index (cand_columns candidate) rows in
            push_candidates total (S index) cands rows
        end
  end.

Definition build_rows_by_column (p : ExactCoverProblem) : Result DlxSolverError (list (list nat)) :=
  push_candidates (column_count p) 0 (candidates p) (replicate (column_count p) []).

(** The mutable part of [DlxSearch]. *)
Record DlxSearch := mkSearch {
  covered : list bool;
  chosen_candidate_ids : list nat;
  found : list (list nat);
  nodes : Z;
  truncated : option DlxTruncatedReason
}.

Definition is_covered (cov : list bool) (column : nat) : bool := default false (cov !! column).
Definition set_columns (b : bool) (cov : list bool) (columns : list nat) : list bool :=
  foldl (fun cov column => <[column := b]> cov) cov columns.
Definition can_choose (cov : list bool) (candidate : ExactCoverCandidate) : bool :=
  forallb (fun column => negb (is_covered cov column)) (cand_columns candidate).

Definition choose (candidate : ExactCoverCandidate) (s : DlxSearch) : DlxSearch :=
  mkSearch (set_columns true (covered s) (cand_columns candidate))
    (chosen_candidate_ids s ++ [cand_id candidate]) (found s) (nodes s) (truncated s).

Definition unchoose (candidate : ExactCoverCandidate) (s : DlxSearch) : DlxSearch :=
  mkSearch (set_columns false (covered s) (cand_columns candidate))
    (removelast (chosen_candidate_ids s)) (found s) (nodes s) (truncated s).

Section Search.
Variables (p : ExactCoverProblem) (rows_by_column : list (list nat)) (limits : DlxSearchLimits).

Definition candidate_at (index : nat) : ExactCoverCandidate := default (mkCandidate 0 []) (candidates p !! index).
Definition row_at (column : nat) : list nat := default [] (rows_by_column !! column).

Definition all_required_covered (cov : list bool) : bool :=
  forallb (fun value : bool => value) (take (required_column_count p) cov).

Definition choosable_count (cov : list bool) (column : nat) : nat :=
  length (filter (fun index => can_choose cov (candidate_at index)) (row_at column)).

Fixpoint choose_column (cov : list bool) (best : option (nat * nat)) (columns : list nat) : option nat :=
  match columns with
  | [] => fst <$> best
  | column :: columns =>
      if is_covered cov column then choose_column cov best columns
      else
        let count := choosable_count cov column in
        if (count =? 0)%nat then None
        else
          let best :=
            match best with
            | Some (_, best_count) => if (count <? best_count)%nat then Some (column, count) else best
            | None => Some (column, count)
            end in
          choose_column cov best columns
  end.

Definition choose_uncovered_column_with_fewest_rows (cov : list bool) : option nat :=
  choose_column cov None (seq 0 (required_column_count p)).

(** The loop over the candidates of the chosen column; [rec] is the recursive
    [search], [None] its running out of fuel. *)
Fixpoint try_candidates (rec : DlxSearch -> option DlxSearch) (indexes : list nat) (s : DlxSearch) : option DlxSearch :=
  match indexes with
  | [] => Some s
  | index :: indexes =>
      match truncated s with
      | Some _ => Some s
      | None =>
          let candidate := candidate_at index in
          if negb (can_choose (covered s) candidate) then try_candidates rec indexes s
          else
            match rec (choose candidate s) with
            | None => None
            | Some s' => try_candidates rec indexes (unchoose candidate s')
            end
      end
  end.

Fixpoint search (fuel : nat) (s : DlxSearch) : option DlxSearch :=
  match fuel with
  | O => None
  | S fuel =>
      match truncated s with
      | Some _ => Some s
      | None =>
          if (max_nodes limits <=? nodes s)%Z
          then Some (mkSearch (covered s) (chosen_candidate_ids s) (found s) (nodes s) (Some MaxNodes))
          else
            let s := mkSearch (covered s) (chosen_candidate_ids s) (found s) (nodes s + 1) (truncated s) in
            if all_required_covered (covered s) then
              let found' := found s ++ [chosen_candidate_ids s] in
              Some (mkSearch (covered s) (chosen_candidate_ids s) found' (nodes s)
                (if (max_solutions limits <=? Z.of_nat (length found'))%Z then Some MaxSolutions else truncated s))
            else
              match choose_uncovered_column_with_fewest_rows (covered s) with
              | None => Some s
              | Some column => try_candidates (search fuel) (row_at column) s
              end
      end
  end.

Definition DlxSearch_new : DlxSearch := mkSearch (replicate (column_count p) false) [] [] 0 None.

Definition finish (s : DlxSearch) : DlxSolveReport :=
  mkReport (found s) (nodes s) (bool_decide (truncated s = None)) (truncated s).

(** Every nested call covers at least one more column, so the depth is bounded
    by the number of columns. *)
Definition run : option DlxSolveReport := finish <$> search (S (column_count p)) DlxSearch_new.
End Search.

#[export] Instance DlxTruncatedReason_eq_dec : EqDecision DlxTruncatedReason.
Proof. solve_decision. Defined.

(** [None] inside the result would be a search out of fuel. *)
Definition solve_all_limited (p : ExactCoverProblem) (limits : DlxSearchLimits)
  : Result DlxSolverError (option DlxSolveReport) :=
  if (max_solutions limits =? 0)%Z then Err ZeroMaxSolutions
  else if (max_nodes limits =? 0)%Z then Err ZeroMaxNodes
  else
    let? rows_by_column := build_rows_by_column p in
    Ok (run p rows_by_column limits).

Definition solve_all (p : ExactCoverProblem) : Result DlxSolverError (option DlxSolveReport) :=
  solve_all_limited p DlxSearchLimits_default.

Definition solve_first (p : ExactCoverProblem) : Result DlxSolverError (option (option (list nat))) :=
  let? report := solve_all_limited p (mkLimits 1 (umax 64)) in
  Ok ((fun r => head (solutions r)) <$> report).

(** ** The plain backtracking solver *)

Fixpoint solve_at (cands : list ExactCoverCandidate) (cov : list bool) (chosen : list nat) : option (list nat) :=
  if forallb (fun value : bool => value) cov then Some chosen
  else
    (fix loop (cs : list ExactCoverCandidate) : option (list nat) :=
       match cs with
       | [] => None
       | candidate :: cs =>
           if existsb (fun column => (length cov <=? column)%nat || is_covered cov column) (cand_columns candidate)
           then loop cs
           else
             match solve_at cs (set_columns true cov (cand_columns candidate)) (chosen ++ [cand_id candidate]) with
             | Some solution => Some solution
             | None => loop cs
             end
       end) cands.

Definition BitsetExactCoverSolver_solve_first (p : ExactCoverProblem) : option (list nat) :=
  solve_at (candidates p) (replicate (column_count p) false) [].

(** ** Covered columns *)

Lemma length_set_columns b cov cols : length (set_columns b cov cols) = length cov.
Proof. revert cov. induction cols as [|c cols IH]; intros cov; [done|]. simpl. rewrite IH. apply length_insert. Qed.

Lemma is_covered_set b cov cols c :
  (c < length cov)%nat ->
  is_covered (set_columns b cov cols) c = if bool_decide (c ∈ cols) then b else is_covered cov c.
Proof.
  revert cov. induction cols as [|d cols IH]; intros cov Hc; [done|]. simpl.
  rewrite IH by (by rewrite length_insert). unfold is_covered.
  destruct (decide (d = c)) as [->|Hne].
  - rewrite list_lookup_insert_eq by done. rewrite (bool_decide_eq_true_2 (c ∈ c :: cols)) by set_solver. by case_bool_decide.
  - rewrite list_lookup_insert_ne by done.
    rewrite (bool_decide_ext (c ∈ d :: cols) (c ∈ cols)) by (rewrite elem_of_cons; naive_solver). done.
Qed.

Lemma cov_ext cov cov' :
  length cov = length cov' -> (forall c, (c < length cov)%nat -> is_covered cov c = is_covered cov' c) -> cov = cov'.
Proof.
  intros Hl H. apply list_eq. intros c. destruct (decide (c < length cov)%nat) as [Hc|Hc].
  - specialize (H c Hc). unfold is_covered in H. destruct (lookup_lt_is_Some_2 cov c Hc) as [x Hx].
    destruct (lookup_lt_is_Some_2 cov' c ltac:(lia)) as [y Hy]. rewrite Hx, Hy in *. simpl in H. by subst.
  - rewrite !lookup_ge_None_2 by lia. done.
Qed.

Lemma can_choose_spec cov cand :
  can_choose cov cand = true <-> forall c, c ∈ cand_columns cand -> is_covered cov c = false.
Proof.
  unfold can_choose. rewrite forallb_forall. setoid_rewrite negb_true_iff. setoid_rewrite <- list_elem_of_In. done.
Qed.

(** [unchoose] undoes [choose]. *)
Lemma set_columns_restore cov cols :
  (forall c, c ∈ cols -> is_covered cov c = false) ->
  set_columns false (set_columns true cov cols) cols = cov.
Proof.
  intros H. apply cov_ext; rewrite !length_set_columns; [done|]. intros c Hc.
  rewrite !is_covered_set by (by rewrite ?length_set_columns). case_bool_decide; [|done]. by rewrite H.
Qed.

(** The number of columns still open, the measure of the search. *)
Fixpoint uncovered (cov : list bool) : nat :=
  match cov with
  | [] => 0
  | b :: cov => (if b then 0 else 1) + uncovered cov
  end.

Lemma uncovered_le cov : (uncovered cov <= length cov)%nat.
Proof. induction cov as [|[] cov IH]; simpl; lia. Qed.

Lemma uncovered_insert cov c :
  is_covered cov c = false -> (c < length cov)%nat -> (uncovered cov = S (uncovered (<[c := true]> cov)))%nat.
Proof.
  revert c. induction cov as [|b cov IH]; intros [|c] Hf Hc; simpl in *; try lia.
  - unfold is_covered in Hf. simpl in Hf. by subst b.
  - rewrite (IH c) by (done || lia). lia.
Qed.

Lemma uncovered_set_le cov cols : (uncovered (set_columns true cov cols) <= uncovered cov)%nat.
Proof.
  revert cov. induction cols as [|c cols IH]; intros cov; [done|]. simpl. etransitivity; [apply IH|].
  destruct (decide (c < length cov)%nat) as [Hc|Hc]; [|by rewrite list_insert_ge by lia].
  destruct (is_covered cov c) eqn:E.
  - destruct (lookup_lt_is_Some_2 cov c Hc) as [b Hb]. unfold is_covered in E. rewrite Hb in E. simpl in E. subst b.
    by rewrite list_insert_id.
  - rewrite (uncovered_insert cov c E Hc). lia.
Qed.

Lemma uncovered_choose cov cand :
  can_choose cov cand = true -> cand_columns cand <> [] ->
  (forall c, c ∈ cand_columns cand -> (c < length cov)%nat) ->
  (uncovered (set_columns true cov (cand_columns cand)) < uncovered cov)%nat.
Proof.
  rewrite can_choose_spec. destruct (cand_columns cand) as [|c cols]; [done|]. intros Hf _ Hr. simpl.
  rewrite (uncovered_insert cov c) by (apply Hf || apply Hr; by left).
  pose proof (uncovered_set_le (<[c := true]> cov) cols). lia.
Qed.

(** ** What the row index holds *)

Definition candidate_ok (total : nat) (cand : ExactCoverCandidate) : Prop :=
  cand_columns cand <> [] /\ NoDup (cand_columns cand) /\ forall c, c ∈ cand_columns cand -> (c < total)%nat.

Lemma first_equal_window_None l : StronglySorted le l -> first_equal_window l = None -> NoDup l.
Proof.
  induction l as [|x l IH]; intros Hs H; [constructor|]. pose proof Hs as [Hs' Hx]%StronglySorted_inv.
  destruct l as [|y l]; [apply NoDup_singleton|]. simpl in H.
  destruct (Nat.eqb_spec x y) as [|Hne]; [done|]. constructor; [|by apply IH].
  intros Hin. assert (x < y)%nat by (apply Forall_cons in Hx as [? _]; lia).
  apply StronglySorted_inv in Hs' as [_ Hy]. apply elem_of_cons in Hin as [?|Hin]; [lia|].
  rewrite Forall_forall in Hy. specialize (Hy x Hin). lia.
Qed.

Lemma first_equal_window_Some l c : first_equal_window l = Some c -> c ∈ l /\ ~ NoDup l.
Proof.
  induction l as [|x l IH]; [done|]. destruct l as [|y l]; [done|]. cbn [first_equal_window].
  destruct (Nat.eqb_spec x y) as [->|Hne].
  - intros [= ->]. split; [by left|]. intros [Hn _]%NoDup_cons. set_solver.
  - intros [Hin Hd]%IH. split; [by right|]. intros [_ Hn]%NoDup_cons. done.
Qed.

Lemma columns_window cols :
  match first_equal_window (merge_sort le cols) with
  | None => NoDup cols
  | Some c => c ∈ cols /\ ~ NoDup cols
  end.
Proof.
  pose proof (merge_sort_Permutation le cols) as Hp. destruct (first_equal_window _) as [c|] eqn:E.
  - apply first_equal_window_Some in E as [Hc Hd]. rewrite Hp in Hc. split; [done|]. by rewrite <- Hp.
  - rewrite <- Hp. apply first_equal_window_None; [|done]. apply (StronglySorted_merge_sort le).
Qed.

(** [rows] indexes the first [k] candidates. *)
Definition rows_upto (p : ExactCoverProblem) (k : nat) (rows : list (list nat)) : Prop :=
  length rows = column_count p /\
  forall c, (c < column_count p)%nat ->
    rows !! c = Some (filter (fun i => c ∈ cand_columns (candidate_at p i)) (seq 0 k)).

Lemma push_columns_spec id total index cols rows :
  length rows = total -> NoDup cols ->
  match push_columns id total index cols rows with
  | Ok rows' => (forall c, c ∈ cols -> (c < total)%nat) /\ length rows' = total /\
      forall c row, rows !! c = Some row -> rows' !! c = Some (if bool_decide (c ∈ cols) then row ++ [index] else row)
  | Err e => exists c, c ∈ cols /\ (total <= c)%nat /\ e = CandidateColumnOutOfRange id c total
  end.
Proof.
  revert rows. induction cols as [|c cols IH]; intros rows Hl Hnd; cbn [push_columns].
  { split; [set_solver|]. split; [done|]. intros c row ->. done. }
  apply NoDup_cons in Hnd as [Hc Hnd]. destruct (Nat.leb_spec total c) as [Hge|Hlt].
  { exists c. split; [by left|done]. }
  specialize (IH (alter (fun row => row ++ [index]) c rows) ltac:(by rewrite length_alter) Hnd).
  destruct (push_columns _ _ _ _ _) as [rows'|e].
  - destruct IH as (Hr & Hl' & Hlook). split; [set_solver|]. split; [done|]. intros d row Hd.
    destruct (decide (d = c)) as [->|Hne].
    + rewrite (Hlook c (row ++ [index])) by (by rewrite list_lookup_alter_eq, Hd).
      rewrite bool_decide_eq_false_2, bool_decide_eq_true_2 by set_solver. done.
    + rewrite (Hlook d row) by (by rewrite list_lookup_alter_ne by done).
      by rewrite (bool_decide_ext (d ∈ c :: cols) (d ∈ cols)) by (rewrite elem_of_cons; naive_solver).
  - destruct IH as (d & Hd & ? & ?). exists d. split; [by right|done].
Qed.

(** What an error of the row index says about the candidate it names. *)
Definition candidate_error (total : nat) (cand : ExactCoverCandidate) (e : DlxSolverError) : Prop :=
  match e with
  | EmptyCandidate id => id = cand_id cand /\ cand_columns cand = []
  | DuplicateColumnInCandidate id c => id = cand_id cand /\ c ∈ cand_columns cand /\ ~ NoDup (cand_columns cand)
  | CandidateColumnOutOfRange id c t => id = cand_id cand /\ c ∈ cand_columns cand /\ t = total /\ (total <= c)%nat
  | _ => False
  end.

Lemma rows_upto_step p k rows rows' cand :
  candidates p !! k = Some cand -> rows_upto p k rows -> length rows' = column_count p ->
  (forall c row, rows !! c = Some row ->
     rows' !! c = Some (if bool_decide (c ∈ cand_columns cand) then row ++ [k] else row)) ->
  rows_upto p (S k) rows'.
Proof.
  intros Hk [Hl Hrows] Hl' Hstep. split; [done|]. intros c Hc. rewrite (Hstep c _ (Hrows c Hc)).
  assert (candidate_at p k = cand) as Hcand by (unfold candidate_at; by rewrite Hk).
  rewrite seq_S, filter_app, filter_cons, filter_nil, Nat.add_0_l, Hcand. f_equal.
  case_decide; [by rewrite bool_decide_eq_true_2|]. rewrite bool_decide_eq_false_2 by done. by rewrite app_nil_r.
Qed.

Lemma push_candidates_spec p before cands rows :
  candidates p = before ++ cands -> rows_upto p (length before) rows ->
  match push_candidates (column_count p) (length before) cands rows with
  | Ok rows' => Forall (candidate_ok (column_count p)) cands /\ rows_upto p (length (candidates p)) rows'
  | Err e => exists pre cand post, cands = pre ++ cand :: post /\ Forall (candidate_ok (column_count p)) pre /\
      candidate_error (column_count p) cand e
  end.
Proof.
  revert before rows. induction cands as [|cand cands IH]; intros before rows Hp Hrows; cbn [push_candidates].
  { split; [constructor|]. by rewrite Hp, app_nil_r. }
  case_bool_decide as He; [by exists [], cand, cands|].
  pose proof (columns_window (cand_columns cand)) as Hw.
  destruct (first_equal_window _) as [c|]; [destruct Hw; by exists [], cand, cands|].
  pose proof (push_columns_spec (cand_id cand) (column_count p) (length before) (cand_columns cand) rows (proj1 Hrows) Hw) as Hpush.
  destruct (push_columns _ _ _ _ _) as [rows'|e]; cbn [rbind].
  - destruct Hpush as (Hr & Hl & Hstep).
    assert (candidates p !! length before = Some cand) as Hk by (rewrite Hp; by apply list_lookup_middle).
    pose proof (rows_upto_step p (length before) rows rows' cand Hk Hrows Hl Hstep) as Hrows'.
    specialize (IH (before ++ [cand]) rows'). rewrite length_app, Nat.add_1_r, <- app_assoc in IH. specialize (IH Hp Hrows').
    destruct (push_candidates _ _ _ _) as [rows''|e].
    + destruct IH as [Hok ?]. split; [|done]. constructor; [done|done].
    + destruct IH as (pre & cand' & post & -> & Hok & He'). exists (cand :: pre), cand', post. split; [done|]. split; [|done].
      constructor; [done|done].
  - destruct Hpush as (c & Hc & Hge & ->). by exists [], cand, cands.
Qed.

Lemma build_rows_spec p :
  match build_rows_by_column p with
  | Ok rows => Forall (candidate_ok (column_count p)) (candidates p) /\ rows_upto p (length (candidates p)) rows
  | Err e => exists pre cand post, candidates p = pre ++ cand :: post /\
      Forall (candidate_ok (column_count p)) pre /\ candidate_error (column_count p) cand e
  end.
Proof.
  apply (push_candidates_spec p []); [done|]. split; [apply length_replicate|].
  intros c Hc. by rewrite lookup_replicate_2.
Qed.

Lemma candidate_error_not_ok total cand e : candidate_error total cand e -> ~ candidate_ok total cand.
Proof.
  unfold candidate_ok. destruct e as [| |id|id c t|id c]; simpl; try done.
  - intros [_ ?] [? _]. done.
  - intros (_ & Hc & _ & Hge) (_ & _ & Hr). specialize (Hr c Hc). lia.
  - intros (_ & _ & Hd) (_ & ? & _). done.
Qed.

(** [build_rows_by_column] accepts a problem exactly when every candidate
    is non-empty, has no repeated column and stays inside the columns, and
    then lists, for each column, the candidates that contain it in order.
    Otherwise it reports the first offending candidate and a column that
    shows the violation. *)
Theorem build_rows_correct (p : ExactCoverProblem) :
  (Forall (candidate_ok (column_count p)) (candidates p) <-> exists rows, build_rows_by_column p = Ok rows) /\
  (forall rows, build_rows_by_column p = Ok rows -> rows_upto p (length (candidates p)) rows) /\
  (forall e, build_rows_by_column p = Err e ->
     exists pre cand post, candidates p = pre ++ cand :: post /\
       Forall (candidate_ok (column_count p)) pre /\ candidate_error (column_count p) cand e).
Proof.
  pose proof (build_rows_spec p) as H. destruct (build_rows_by_column p) as [rows|e].
  - destruct H as [Hok Hrows]. split; [split; [by exists rows|done]|]. split; [by intros ? [= <-]|done].
  - split; [split; [|by intros [? ?]]|split; [done|by intros ? [= <-]]]. intros Hall.
    destruct H as (pre & cand & post & Hp & _ & He). rewrite Hp in Hall. apply Forall_app in Hall as [_ Hall].
    apply Forall_cons in Hall as [Hc _]. by apply candidate_error_not_ok in He.
Qed.

(** ** Exact covers *)

Section Spec.
Variable p : ExactCoverProblem.
Notation cols i := (cand_columns (candidate_at p i)).

(** A set of candidates with pairwise disjoint columns. *)
Definition packing (ext : list nat) : Prop :=
  NoDup ext /\ Forall (fun i => i < length (candidates p))%nat ext /\
  forall i j c, i ∈ ext -> j ∈ ext -> c ∈ cols i -> c ∈ cols j -> i = j.

(** [ext] completes a partial cover: it packs into the open columns, fills
    every open required column, and each of its candidates is there for some
    required column. *)
Definition completes (cov : list bool) (ext : list nat) : Prop :=
  packing ext /\ (forall i c, i ∈ ext -> c ∈ cols i -> is_covered cov c = false) /\
  (forall c, (c < required_column_count p)%nat -> is_covered cov c = false -> exists i, i ∈ ext /\ c ∈ cols i) /\
  (forall i, i ∈ ext -> exists c, c ∈ cols i /\ (c < required_column_count p)%nat).

(** The exact covers of the problem: disjoint candidates that contain every
    required column, optional columns at most once, and no candidate of
    optional columns only. *)
Definition exact_cover (ext : list nat) : Prop :=
  packing ext /\ (forall c, (c < required_column_count p)%nat -> exists i, i ∈ ext /\ c ∈ cols i) /\
  (forall i, i ∈ ext -> exists c, c ∈ cols i /\ (c < required_column_count p)%nat).

Lemma exact_cover_completes ext n : exact_cover ext <-> completes (replicate n false) ext.
Proof.
  assert (forall c, is_covered (replicate n false) c = false) as Hf.
  { intros c. unfold is_covered. destruct (replicate n false !! c) eqn:E; [|done]. by apply lookup_replicate in E as [-> _]. }
  unfold exact_cover, completes. naive_solver.
Qed.

Lemma completes_perm cov ext ext' : ext ≡ₚ ext' -> completes cov ext -> completes cov ext'.
Proof.
  intros Hp. unfold completes, packing. setoid_rewrite Hp. done.
Qed.

Hypothesis Hok : Forall (candidate_ok (column_count p)) (candidates p).

Lemma candidate_at_ok i : (i < length (candidates p))%nat -> candidate_ok (column_count p) (candidate_at p i).
Proof.
  intros [cand Hc]%lookup_lt_is_Some_2. unfold candidate_at. rewrite Hc. by apply (Forall_lookup_1 _ _ _ _ Hok Hc).
Qed.

Lemma completes_cons cov i ext :
  length cov = column_count p -> (i < length (candidates p))%nat ->
  can_choose cov (candidate_at p i) = true ->
  (exists c, c ∈ cols i /\ (c < required_column_count p)%nat) ->
  completes (set_columns true cov (cols i)) ext <-> completes cov (i :: ext).
Proof.
  intros Hl Hi Hcc Hrel. rewrite can_choose_spec in Hcc. destruct (candidate_at_ok i Hi) as (_ & _ & Hr).
  assert (forall c, (c < column_count p)%nat ->
    is_covered (set_columns true cov (cols i)) c = false <-> c ∉ cols i /\ is_covered cov c = false) as Hset.
  { intros c Hc. rewrite is_covered_set by lia. case_bool_decide; naive_solver. }
  assert (forall j c, (j < length (candidates p))%nat -> c ∈ cols j -> (c < column_count p)%nat) as Hcr.
  { intros j c Hj. by apply candidate_at_ok. }
  assert (forall c, (c < required_column_count p)%nat -> (c < column_count p)%nat) as Hreq by (unfold column_count; lia).
  unfold completes, packing. rewrite NoDup_cons, Forall_cons. split.
  - intros ((Hnd & Hrng & Hdis) & Hopen & Hfill & Hrel'). rewrite Forall_forall in Hrng.
    assert (forall j c, j ∈ ext -> c ∈ cols j -> c ∉ cols i /\ is_covered cov c = false) as Hj.
    { intros j c Hje Hcj. apply Hset; [by apply (Hcr j c); [apply Hrng|]|by apply (Hopen j c)]. }
    assert (i ∉ ext) as Hni. { intros Hie. destruct Hrel as (c & Hc & _). by destruct (Hj i c Hie Hc). }
    split_and!; [done|done|done|by apply Forall_forall|..].
    + intros a b c [->|Ha]%elem_of_cons [->|Hb]%elem_of_cons Hca Hcb; [done| | |by eapply Hdis].
      * by destruct (Hj b c Hb Hcb).
      * by destruct (Hj a c Ha Hca).
    + intros a c [->|Ha]%elem_of_cons Hc; [by apply Hcc|by eapply Hj].
    + intros c Hc Hoc. destruct (decide (c ∈ cols i)) as [Hci|Hci]; [exists i; split; [by left|done]|].
      destruct (Hfill c Hc) as (j & ? & ?); [apply Hset; [by apply Hreq|done]|]. exists j. split; [by right|done].
    + intros a [->|Ha]%elem_of_cons; [done|by apply Hrel'].
  - intros (([Hni Hnd] & [_ Hrng] & Hdis) & Hopen & Hfill & Hrel'). rewrite Forall_forall in Hrng.
    split_and!; [done|by apply Forall_forall|..].
    + intros a b c Ha Hb. apply Hdis; by right.
    + intros a c Ha Hc. apply Hset; [by apply (Hcr a c); [apply Hrng|]|]. split; [|by apply (Hopen a c); [right|]].
      intros Hci. assert (i = a) as -> by (apply (Hdis i a c); [by left|by right|done|done]). done.
    + intros c Hc Hoc%Hset; [|by apply Hreq]. destruct Hoc as [Hci Hoc].
      destruct (Hfill c Hc Hoc) as (j & [->|Hj]%elem_of_cons & Hcj); [done|]. by exists j.
    + intros a Ha. apply Hrel'. by right.
Qed.

Lemma all_required_covered_spec cov :
  length cov = column_count p ->
  all_required_covered p cov = true <-> forall c, (c < required_column_count p)%nat -> is_covered cov c = true.
Proof.
  intros Hl. unfold all_required_covered. rewrite forallb_forall. setoid_rewrite <- list_elem_of_In.
  unfold is_covered, column_count in *. split.
  - intros H c Hc. destruct (lookup_lt_is_Some_2 cov c ltac:(lia)) as [b Hb]. rewrite Hb. simpl. apply H.
    apply (list_elem_of_lookup_2 _ c). by rewrite lookup_take_lt.
  - intros H b [c Hb]%list_elem_of_lookup_1. apply lookup_take_Some in Hb as [Hb Hc]. specialize (H c Hc). by rewrite Hb in H.
Qed.

(** ** The reference enumeration *)

Variable rows : list (list nat).
Hypothesis Hrows : rows_upto p (length (candidates p)) rows.

Lemma row_at_elem c i :
  (c < column_count p)%nat -> i ∈ row_at rows c <-> (i < length (candidates p))%nat /\ c ∈ cols i.
Proof.
  intros Hc. destruct Hrows as [_ H]. unfold row_at. rewrite (H c Hc). simpl.
  rewrite list_elem_of_filter, elem_of_seq. intuition lia.
Qed.

Lemma row_at_NoDup c : (c < column_count p)%nat -> NoDup (row_at rows c).
Proof. intros Hc. destruct Hrows as [_ H]. unfold row_at. rewrite (H c Hc). simpl. apply NoDup_filter, NoDup_seq. Qed.

Lemma choosable_count_0 cov c i :
  choosable_count p rows cov c = 0%nat -> i ∈ row_at rows c -> can_choose cov (candidate_at p i) = false.
Proof.
  unfold choosable_count. intros H%nil_length_inv Hi. apply not_true_iff_false. intros Ht.
  apply (not_elem_of_nil i). rewrite <- H. apply list_elem_of_filter. by rewrite Ht.
Qed.

Lemma choose_column_spec cov best columns :
  match choose_column p rows cov best columns with
  | Some c => (exists k, best = Some (c, k)) \/ (c ∈ columns /\ is_covered cov c = false)
  | None => (best = None /\ forall c, c ∈ columns -> is_covered cov c = true) \/
      exists c, c ∈ columns /\ is_covered cov c = false /\ choosable_count p rows cov c = 0%nat
  end.
Proof.
  revert best. induction columns as [|c columns IH]; intros best; cbn [choose_column].
  { destruct best as [[c k]|]; simpl; [left; by exists k|left; set_solver]. }
  destruct (is_covered cov c) eqn:Ec.
  - specialize (IH best). destruct (choose_column _ _ _ _ _); set_solver.
  - destruct (Nat.eqb_spec (choosable_count p rows cov c) 0) as [H0|H0].
    { right. exists c. split; [by left|done]. }
    set (best' := match best with Some _ => _ | None => _ end). specialize (IH best').
    destruct (choose_column _ _ _ _ _) as [d|].
    + destruct IH as [[k Hk]|[Hd ?]]; [|right; split; [by right|done]].
      subst best'. destruct best as [[b kb]|]; [destruct (_ <? _)%nat|]; simplify_eq;
        (left; by eexists) || (right; split; [by left|done]).
    + destruct IH as [[Hn _]|(d & ? & ?)]; [|right; exists d; split; [by right|done]].
      subst best'. destruct best as [[b kb]|]; [destruct (_ <? _)%nat|]; done.
Qed.

(** All completions of [cov], in the order the search meets them. *)
Fixpoint completions (fuel : nat) (cov : list bool) : list (list nat) :=
  match fuel with
  | O => []
  | S fuel =>
      if all_required_covered p cov then [[]]
      else
        match choose_uncovered_column_with_fewest_rows p rows cov with
        | None => []
        | Some column =>
            row_at rows column ≫= fun i =>
              if can_choose cov (candidate_at p i)
              then (cons i) <$> completions fuel (set_columns true cov (cols i))
              else []
        end
  end.

(** The nodes of the unlimited search. *)
Fixpoint total_nodes (fuel : nat) (cov : list bool) : Z :=
  match fuel with
  | O => 0
  | S fuel =>
      if all_required_covered p cov then 1
      else
        match choose_uncovered_column_with_fewest_rows p rows cov with
        | None => 1
        | Some column =>
            1 + foldr (fun i sum =>
                  (if can_choose cov (candidate_at p i) then total_nodes fuel (set_columns true cov (cols i)) else 0) + sum)
                0 (row_at rows column)
        end
  end.

Lemma chosen_column cov :
  match choose_uncovered_column_with_fewest_rows p rows cov with
  | Some c => (c < required_column_count p)%nat /\ is_covered cov c = false
  | None => (forall c, (c < required_column_count p)%nat -> is_covered cov c = true) \/
      exists c, (c < required_column_count p)%nat /\ is_covered cov c = false /\
        forall i, i ∈ row_at rows c -> can_choose cov (candidate_at p i) = false
  end.
Proof.
  unfold choose_uncovered_column_with_fewest_rows.
  pose proof (choose_column_spec cov None (seq 0 (required_column_count p))) as H.
  destruct (choose_column _ _ _ _ _) as [c|].
  - destruct H as [[? ?]|[Hc%elem_of_seq ?]]; [done|]. split; [lia|done].
  - destruct H as [[_ H]|(c & Hc%elem_of_seq & Hf & H0)].
    + left. intros c Hc. apply H, elem_of_seq. lia.
    + right. exists c. split; [lia|]. split; [done|]. intros i. by apply choosable_count_0.
Qed.

Lemma required_lt c : (c < required_column_count p)%nat -> (c < column_count p)%nat.
Proof. unfold column_count. lia. Qed.

Lemma completions_sound fuel cov ext :
  length cov = column_count p -> ext ∈ completions fuel cov -> completes cov ext.
Proof.
  revert cov ext. induction fuel as [|fuel IH]; intros cov ext Hl; cbn [completions]; [set_solver|].
  destruct (all_required_covered p cov) eqn:Eall.
  { intros ->%list_elem_of_singleton. rewrite all_required_covered_spec in Eall by done.
    split; [split; [constructor|split; [constructor|set_solver]]|]. split; [set_solver|]. split; [|set_solver].
    intros c Hc Hf. rewrite (Eall c Hc) in Hf. done. }
  pose proof (chosen_column cov) as Hcol. destruct (choose_uncovered_column_with_fewest_rows p rows cov) as [c|]; [|set_solver].
  destruct Hcol as [Hc Hf]. intros (i & He & Hi)%list_elem_of_bind. destruct (can_choose cov (candidate_at p i)) eqn:Ecc; [|set_solver].
  apply list_elem_of_fmap in He as (ext' & -> & He'). apply row_at_elem in Hi as [Hi Hci]; [|by apply required_lt].
  apply completes_cons; try done; [by exists c|]. apply IH; [by rewrite length_set_columns|done].
Qed.

Lemma completions_complete fuel cov ext :
  length cov = column_count p -> (length ext < fuel)%nat -> completes cov ext ->
  exists ext', ext' ∈ completions fuel cov /\ ext' ≡ₚ ext.
Proof.
  revert cov ext. induction fuel as [|fuel IH]; intros cov ext Hl Hfuel Hcomp; [lia|]. cbn [completions].
  pose proof Hcomp as ((Hnd & Hrng & Hdis) & Hopen & Hfill & Hrel). rewrite Forall_forall in Hrng.
  destruct (all_required_covered p cov) eqn:Eall.
  { exists []. split; [set_solver|]. rewrite all_required_covered_spec in Eall by done.
    destruct ext as [|i ext]; [done|]. destruct (Hrel i ltac:(by left)) as (c & Hc & Hcr).
    specialize (Hopen i c ltac:(by left) Hc). rewrite (Eall c Hcr) in Hopen. done. }
  assert (forall c, (c < required_column_count p)%nat -> is_covered cov c = false ->
    exists i, i ∈ ext /\ c ∈ cols i /\ i ∈ row_at rows c /\ can_choose cov (candidate_at p i) = true) as Hpick.
  { intros c Hc Hf. destruct (Hfill c Hc Hf) as (i & Hi & Hci). exists i. split; [done|]. split; [done|].
    split; [apply row_at_elem; [by apply required_lt|]; split; [by apply Hrng|done]|].
    apply can_choose_spec. intros d. by apply Hopen. }
  pose proof (chosen_column cov) as Hcol. destruct (choose_uncovered_column_with_fewest_rows p rows cov) as [c|].
  - destruct Hcol as [Hc Hf]. destruct (Hpick c Hc Hf) as (i & Hi & Hci & Hir & Hcc).
    apply elem_of_Permutation in Hi as [ext0 Hp0]. pose proof (Permutation_length Hp0) as Hlen. simpl in Hlen.
    apply (completes_perm cov _ _ Hp0) in Hcomp. apply completes_cons in Hcomp; try done;
      [|by apply (row_at_elem c); [apply required_lt|]|by exists c].
    destruct (IH _ ext0 ltac:(by rewrite length_set_columns) ltac:(lia) Hcomp) as (ext' & He' & Hp').
    exists (i :: ext'). split; [|by rewrite Hp0, Hp']. apply list_elem_of_bind. exists i. rewrite Hcc. split; [|done].
    by apply list_elem_of_fmap_2.
  - destruct Hcol as [Hall|(c & Hc & Hf & Hnone)].
    + exfalso. apply not_true_iff_false in Eall. by apply Eall, all_required_covered_spec.
    + exfalso. destruct (Hpick c Hc Hf) as (i & _ & _ & Hir & Hcc). by rewrite Hnone in Hcc.
Qed.

Lemma completions_NoDup fuel cov :
  length cov = column_count p -> NoDup ((list_to_set : list nat -> gset nat) <$> completions fuel cov).
Proof.
  revert cov. induction fuel as [|fuel IH]; intros cov Hl; [constructor|].
  assert (forall e, e ∈ completions (S fuel) cov -> completes cov e) as Hs by (intros e; by apply completions_sound).
  cbn [completions] in *. destruct (all_required_covered p cov); [apply NoDup_singleton|].
  pose proof (chosen_column cov) as Hcol. destruct (choose_uncovered_column_with_fewest_rows p rows cov) as [c|]; [|constructor].
  destruct Hcol as [Hc _]. set (branch := fun i => if can_choose cov (candidate_at p i) then _ else _) in *.
  assert (forall i e, i ∈ row_at rows c -> e ∈ branch i -> exists e', e = i :: e' /\ completes cov e /\
    e' ∈ completions fuel (set_columns true cov (cols i))) as Hb.
  { intros i e Hi He. assert (completes cov e) by (apply Hs, list_elem_of_bind; by exists i).
    unfold branch in He. destruct (can_choose cov (candidate_at p i)); [|set_solver].
    apply list_elem_of_fmap in He as (e' & -> & He'). by exists e'. }
  rewrite list_fmap_of_bind. apply NoDup_bind; [| |by apply row_at_NoDup, required_lt].
  - intros i j y Hi Hj (e & -> & He)%list_elem_of_fmap (e2 & Heq & He2)%list_elem_of_fmap.
    destruct (Hb i e Hi He) as (e' & -> & ((_ & _ & Hdis) & _) & _).
    destruct (Hb j e2 Hj He2) as (e2' & -> & _). apply (Hdis i j c); [by left| |by apply row_at_elem; [apply required_lt|]..].
    apply (elem_of_list_to_set (C := gset nat)). rewrite Heq. set_solver.
  - intros i Hi. assert (forall e, e ∈ completions fuel (set_columns true cov (cols i)) ->
      can_choose cov (candidate_at p i) = true -> i ∉ e) as Hni.
    { intros e He Hcc. assert (i :: e ∈ branch i) as Hin by (unfold branch; rewrite Hcc; by apply list_elem_of_fmap_2).
      destruct (Hb i _ Hi Hin) as (e' & [= <-] & ((Hnd & _) & _) & _). by apply NoDup_cons in Hnd as [? _]. }
    unfold branch. destruct (can_choose cov (candidate_at p i)); [|constructor].
    rewrite <- list_fmap_compose.
    change (NoDup (((fun S : gset nat => {[i]} ∪ S) ∘ (list_to_set : list nat -> gset nat)) <$> completions fuel (set_columns true cov (cols i)))).
    rewrite list_fmap_compose.
    apply NoDup_fmap_2_strong; [|apply IH; by rewrite length_set_columns].
    intros x y (ex & -> & Hx)%list_elem_of_fmap (ey & -> & Hy)%list_elem_of_fmap Heq.
    specialize (Hni ex Hx eq_refl) as Hnx. specialize (Hni ey Hy eq_refl) as Hny. set_solver.
Qed.

(** ** The search refines the enumeration *)

Variable limits : DlxSearchLimits.

Definition with_ids (chosen : list nat) (ext : list nat) : list nat :=
  chosen ++ ((fun i => cand_id (candidate_at p i)) <$> ext).

(** What a call leaves behind: the stack and the columns as they were, a
    prefix of the expected solutions appended, all of them unless a limit was
    hit, and the limits respected. *)
Definition outcome (full : list (list nat)) (total : Z) (s s' : DlxSearch) : Prop :=
  covered s' = covered s /\ chosen_candidate_ids s' = chosen_candidate_ids s /\
  (nodes s <= nodes s' <= max_nodes limits)%Z /\
  exists pre, found s' = found s ++ pre /\ pre `prefix_of` full /\
    match truncated s' with
    | None => pre = full /\ nodes s' = (nodes s + total)%Z /\ (Z.of_nat (length (found s')) < max_solutions limits)%Z
    | Some MaxSolutions => Z.of_nat (length (found s')) = max_solutions limits
    | Some MaxNodes => nodes s' = max_nodes limits /\ (max_nodes limits < nodes s + total)%Z /\
        (Z.of_nat (length (found s')) < max_solutions limits)%Z
    end.

Definition ready (s : DlxSearch) : Prop :=
  length (covered s) = column_count p /\ truncated s = None /\ (nodes s <= max_nodes limits)%Z /\
  (Z.of_nat (length (found s)) < max_solutions limits)%Z.

Lemma outcome_refl s : ready s -> outcome [] 0 s s.
Proof.
  intros (_ & Ht & Hn & Hf). split; [done|]. split; [done|]. split; [lia|]. exists []. rewrite app_nil_r, Ht.
  split_and!; [done|done|done|lia|done].
Qed.

Lemma outcome_then full1 total1 full2 total2 s s1 s2 :
  outcome full1 total1 s s1 -> truncated s1 = None -> outcome full2 total2 s1 s2 ->
  outcome (full1 ++ full2) (total1 + total2) s s2.
Proof.
  intros (Hc1 & Hi1 & Hn1 & pre1 & Hf1 & _ & H1) Ht (Hc2 & Hi2 & Hn2 & pre2 & Hf2 & Hp2 & H2).
  rewrite Ht in H1. destruct H1 as (-> & Hnodes & _). split; [congruence|]. split; [congruence|]. split; [lia|].
  exists (full1 ++ pre2). rewrite Hf2, Hf1, app_assoc. split; [done|]. split; [by apply prefix_app|].
  destruct (truncated s2) as [[]|].
  - by rewrite <- Hf1, <- Hf2.
  - rewrite <- Hf1, <- Hf2. destruct H2 as (? & ? & ?). split_and!; [done|lia|done].
  - rewrite <- Hf1, <- Hf2. destruct H2 as (-> & ? & ?). split_and!; [done|lia|done].
Qed.

Lemma outcome_stop full1 total1 full2 total2 s s1 :
  outcome full1 total1 s s1 -> truncated s1 <> None -> (0 <= total2)%Z ->
  outcome (full1 ++ full2) (total1 + total2) s s1.
Proof.
  intros (Hc1 & Hi1 & Hn1 & pre1 & Hf1 & Hp1 & H1) Ht Ht2. split; [done|]. split; [done|]. split; [done|].
  exists pre1. split; [done|]. split; [by apply prefix_app_r|]. destruct (truncated s1) as [[]|]; [done| |done].
  destruct H1 as (? & ? & ?). split_and!; [done|lia|done].
Qed.

Lemma total_nodes_nonneg fuel cov : (0 <= total_nodes fuel cov)%Z.
Proof.
  revert cov. induction fuel as [|fuel IH]; intros cov; cbn [total_nodes]; [lia|].
  destruct (all_required_covered p cov); [lia|]. destruct (choose_uncovered_column_with_fewest_rows p rows cov) as [c|]; [|lia].
  induction (row_at rows c) as [|i l IHl]; simpl; [lia|].
  specialize (IH (set_columns true cov (cols i))). destruct (can_choose cov (candidate_at p i)); lia.
Qed.

Lemma total_nodes_pos fuel cov : (0 < total_nodes (S fuel) cov)%Z.
Proof.
  cbn [total_nodes]. destruct (all_required_covered p cov); [lia|].
  destruct (choose_uncovered_column_with_fewest_rows p rows cov) as [c|]; [|lia].
  induction (row_at rows c) as [|i l IHl]; simpl; [lia|].
  pose proof (total_nodes_nonneg fuel (set_columns true cov (cols i))). destruct (can_choose cov (candidate_at p i)); lia.
Qed.

Definition branches (fuel : nat) (cov : list bool) (indexes : list nat) : list (list nat) :=
  indexes ≫= fun i =>
    if can_choose cov (candidate_at p i) then (cons i) <$> completions fuel (set_columns true cov (cols i)) else [].

Definition branch_nodes (fuel : nat) (cov : list bool) (indexes : list nat) : Z :=
  foldr (fun i sum =>
      (if can_choose cov (candidate_at p i) then total_nodes fuel (set_columns true cov (cols i)) else 0) + sum)%Z
    0%Z indexes.

Lemma branch_nodes_nonneg fuel cov indexes : (0 <= branch_nodes fuel cov indexes)%Z.
Proof.
  induction indexes as [|i l IHl]; simpl; [lia|]. pose proof (total_nodes_nonneg fuel (set_columns true cov (cols i))).
  destruct (can_choose cov (candidate_at p i)); lia.
Qed.

(** [choose], the recursive call and [unchoose] together. *)
Lemma choose_outcome full total s s' i :
  (i < length (candidates p))%nat -> can_choose (covered s) (candidate_at p i) = true ->
  outcome (with_ids (chosen_candidate_ids s ++ [cand_id (candidate_at p i)]) <$> full) total (choose (candidate_at p i) s) s' ->
  outcome (with_ids (chosen_candidate_ids s) <$> (cons i <$> full)) total s (unchoose (candidate_at p i) s').
Proof.
  intros Hi Hcc (Hc & Hids & Hn & pre & Hf & Hp & H). unfold outcome, unchoose. simpl in *.
  split; [rewrite Hc; apply set_columns_restore; by apply can_choose_spec|].
  split; [rewrite Hids; apply removelast_last|]. split; [done|]. exists pre. split; [done|].
  assert (with_ids (chosen_candidate_ids s) <$> (cons i <$> full) =
    with_ids (chosen_candidate_ids s ++ [cand_id (candidate_at p i)]) <$> full) as ->; [|done].
  rewrite <- list_fmap_compose. apply list_fmap_ext. intros k e _. unfold with_ids. simpl. by rewrite <- app_assoc.
Qed.

Lemma ready_choose s i :
  (i < length (candidates p))%nat -> ready s -> ready (choose (candidate_at p i) s).
Proof. intros Hi (Hl & Ht & Hn & Hf). unfold ready, choose. simpl. by rewrite length_set_columns. Qed.

Lemma outcome_ready full total s s' : ready s -> outcome full total s s' -> truncated s' = None -> ready s'.
Proof.
  intros (Hl & _) (Hc & _ & Hn & pre & Hf & _ & H) Ht. rewrite Ht in H. destruct H as (_ & _ & ?).
  unfold ready. rewrite Hc. split_and!; [done|done|lia|done].
Qed.

Lemma try_candidates_truncated rec indexes s : truncated s <> None -> try_candidates p rec indexes s = Some s.
Proof. destruct indexes; simpl; [done|]. by destruct (truncated s). Qed.

Lemma try_candidates_spec fuel rec indexes s :
  (forall s, ready s -> (uncovered (covered s) < fuel)%nat ->
     exists s', rec s = Some s' /\
       outcome (with_ids (chosen_candidate_ids s) <$> completions fuel (covered s)) (total_nodes fuel (covered s)) s s') ->
  (forall i, i ∈ indexes -> (i < length (candidates p))%nat) ->
  ready s -> (uncovered (covered s) <= fuel)%nat ->
  exists s', try_candidates p rec indexes s = Some s' /\
    outcome (with_ids (chosen_candidate_ids s) <$> branches fuel (covered s) indexes) (branch_nodes fuel (covered s) indexes) s s'.
Proof.
  intros Hrec. revert s. induction indexes as [|i indexes IH]; intros s Hi Hs Hu; cbn [try_candidates].
  { exists s. split; [done|]. by apply outcome_refl. }
  pose proof Hs as (Hl & Ht & _). rewrite Ht. unfold branches, branch_nodes. csimpl. fold (branches fuel (covered s) indexes).
  fold (branch_nodes fuel (covered s) indexes). destruct (can_choose (covered s) (candidate_at p i)) eqn:Ecc; cbn [negb].
  - assert (i < length (candidates p))%nat as Hi' by (apply Hi; by left).
    destruct (candidate_at_ok i Hi') as (Hne & _ & Hr).
    destruct (Hrec (choose (candidate_at p i) s) (ready_choose s i Hi' Hs)) as (s1 & Hs1 & Hout).
    { simpl. pose proof (uncovered_choose (covered s) (candidate_at p i) Ecc Hne) as Hlt. rewrite Hl in Hlt. specialize (Hlt Hr). lia. }
    rewrite Hs1. apply (choose_outcome _ _ s s1 i Hi' Ecc) in Hout. set (s1' := unchoose (candidate_at p i) s1) in *.
    rewrite fmap_app. destruct (truncated s1') as [r|] eqn:Et.
    + exists s1'. split; [apply try_candidates_truncated; congruence|].
      apply outcome_stop; [done|congruence|apply branch_nodes_nonneg].
    + pose proof (outcome_ready _ _ _ _ Hs Hout Et) as Hs1'. pose proof Hout as (Hc1 & Hi1 & _).
      destruct (IH s1') as (s2 & Hs2 & Hout2); [intros; apply Hi; by right|done|by rewrite Hc1|].
      exists s2. split; [done|]. rewrite Hc1, Hi1 in Hout2. by eapply outcome_then.
  - destruct (IH s) as (s2 & Hs2 & Hout2); [intros; apply Hi; by right|done|done|]. exists s2. split; [done|]. done.
Qed.

Lemma search_spec fuel s :
  ready s -> (uncovered (covered s) < fuel)%nat ->
  exists s', search p rows limits fuel s = Some s' /\
    outcome (with_ids (chosen_candidate_ids s) <$> completions fuel (covered s)) (total_nodes fuel (covered s)) s s'.
Proof.
  revert s. induction fuel as [|fuel IH]; intros s Hs Hu; [lia|]. pose proof Hs as (Hl & Ht & Hn & Hf).
  cbn [search]. rewrite Ht. destruct (Z.leb_spec (max_nodes limits) (nodes s)) as [Hmax|Hmax].
  { eexists; split; [done|]. split; [done|]. split; [done|]. cbn [nodes found truncated]. split; [lia|]. exists [].
    rewrite app_nil_r. split; [done|]. split; [apply prefix_nil|]. split_and!; [lia| |done].
    pose proof (total_nodes_pos fuel (covered s)). lia. }
  cbn [covered chosen_candidate_ids found nodes truncated]. cbn [completions total_nodes].
  destruct (all_required_covered p (covered s)) eqn:Eall.
  { eexists; split; [done|]. split; [done|]. split; [done|]. simpl. split; [lia|].
    exists [chosen_candidate_ids s]. unfold with_ids. simpl. rewrite app_nil_r. split; [done|]. split; [done|].
    rewrite length_app. simpl. destruct (Z.leb_spec (max_solutions limits) (Z.of_nat (length (found s) + 1))); [lia|].
    split_and!; [done|lia|lia]. }
  set (s1 := mkSearch _ _ _ _ _). assert (ready s1) as Hs1 by (split_and!; [done|done|simpl; lia|done]).
  pose proof (chosen_column (covered s)) as Hcol.
  destruct (choose_uncovered_column_with_fewest_rows p rows (covered s)) as [c|].
  - destruct Hcol as [Hc _]. destruct (try_candidates_spec fuel (search p rows limits fuel) (row_at rows c) s1) as (s' & Hs' & Hout).
    + exact IH.
    + intros i Hi. by apply row_at_elem in Hi as [? _]; [|apply required_lt].
    + done.
    + simpl. lia.
    + exists s'. split; [done|]. destruct Hout as (? & ? & Hn' & pre & ? & ? & Hm). simpl in *. split; [done|]. split; [done|].
      split; [lia|]. exists pre. split; [done|]. split; [done|]. unfold branch_nodes in Hm.
      destruct (truncated s') as [[]|]; [done|destruct Hm as (? & ? & ?)|destruct Hm as (? & ? & ?)]; split_and!; done || lia.
  - exists s1. split; [done|]. split; [done|]. split; [done|]. simpl. split; [lia|]. exists [].
    rewrite app_nil_r. split_and!; [done|done|done|done|done].
Qed.
End Spec.

Lemma completes_length p (Hok : Forall (candidate_ok (column_count p)) (candidates p)) cov ext :
  length cov = column_count p -> completes p cov ext -> (length ext <= uncovered cov)%nat.
Proof.
  revert cov. induction ext as [|i ext IH]; intros cov Hl Hc; [simpl; lia|].
  pose proof Hc as ((_ & Hr & _) & Hopen & _ & Hrel). apply Forall_cons in Hr as [Hi _].
  destruct (candidate_at_ok p Hok i Hi) as (Hne & _ & Hcr).
  assert (can_choose cov (candidate_at p i) = true) as Hcc.
  { apply can_choose_spec. intros c. apply Hopen. by left. }
  apply completes_cons in Hc; try done; [|apply Hrel; by left].
  specialize (IH _ ltac:(by rewrite length_set_columns) Hc). simpl.
  pose proof (uncovered_choose cov (candidate_at p i) Hcc Hne ltac:(by rewrite Hl)). lia.
Qed.

(** The ids of a list of candidate indices. *)
Definition ids_of (p : ExactCoverProblem) (ext : list nat) : list nat := (fun i => cand_id (candidate_at p i)) <$> ext.

Definition empty_cover (p : ExactCoverProblem) : list bool := replicate (column_count p) false.

Lemma run_spec p limits rows :
  Forall (candidate_ok (column_count p)) (candidates p) -> rows_upto p (length (candidates p)) rows ->
  (0 < max_solutions limits)%Z -> (0 < max_nodes limits)%Z ->
  exists s, run p rows limits = Some (finish s) /\
    outcome limits (ids_of p <$> completions p rows (S (column_count p)) (empty_cover p))
      (total_nodes p rows (S (column_count p)) (empty_cover p)) (DlxSearch_new p) s.
Proof.
  intros Hok Hrows Hms Hmn. unfold run.
  destruct (search_spec p Hok rows Hrows limits (S (column_count p)) (DlxSearch_new p)) as (s & Hs & Hout).
  - split_and!; simpl; [apply length_replicate|done|lia|lia].
  - simpl. pose proof (uncovered_le (replicate (column_count p) false)). rewrite length_replicate in *. lia.
  - exists s. rewrite Hs. split; [done|]. exact Hout.
Qed.

Lemma completions_exact p rows :
  Forall (candidate_ok (column_count p)) (candidates p) -> rows_upto p (length (candidates p)) rows ->
  let all := completions p rows (S (column_count p)) (empty_cover p) in
  Forall (exact_cover p) all /\ NoDup ((list_to_set : list nat -> gset nat) <$> all) /\
  forall ext, exact_cover p ext -> exists ext', ext' ∈ all /\ ext' ≡ₚ ext.
Proof.
  intros Hok Hrows all. assert (length (empty_cover p) = column_count p) as Hl by apply length_replicate.
  split; [|split].
  - apply Forall_forall. intros ext He. apply (exact_cover_completes p ext (column_count p)).
    by apply (completions_sound p Hok rows Hrows (S (column_count p))).
  - by apply completions_NoDup.
  - intros ext He%(exact_cover_completes p ext (column_count p)). apply completions_complete; try done.
    pose proof (completes_length p Hok _ ext Hl He). pose proof (uncovered_le (empty_cover p)). lia.
Qed.

Lemma prefix_fmap {A B} (f : A -> B) (pre : list B) (l : list A) :
  pre `prefix_of` (f <$> l) -> exists l', l' `prefix_of` l /\ pre = f <$> l'.
Proof.
  intros [k Hk]. exists (take (length pre) l). split; [by exists (drop (length pre) l); rewrite take_drop|].
  rewrite fmap_take, Hk, take_app_length. done.
Qed.

(** What a report promises about the covers [is_cover] describes: its
    solutions are id lists of pairwise different covers, of all of them when
    it says [complete], and the limits are respected. *)
Definition report_enumerates (p : ExactCoverProblem) (limits : DlxSearchLimits) (is_cover : list nat -> Prop)
    (report : DlxSolveReport) : Prop :=
  exists exts, solutions report = ids_of p <$> exts /\ Forall is_cover exts /\
    NoDup ((list_to_set : list nat -> gset nat) <$> exts) /\
    (report_complete report = true -> forall ext, is_cover ext -> exists ext', ext' ∈ exts /\ ext' ≡ₚ ext) /\
    (report_complete report = true <-> truncated_reason report = None) /\
    (Z.of_nat (length (solutions report)) <= max_solutions limits)%Z /\ (searched_nodes report <= max_nodes limits)%Z /\
    (truncated_reason report = Some MaxSolutions -> Z.of_nat (length (solutions report)) = max_solutions limits) /\
    (truncated_reason report = Some MaxNodes -> searched_nodes report = max_nodes limits).

Lemma report_enumerates_iff p limits P Q report :
  (forall ext, P ext <-> Q ext) -> report_enumerates p limits P report -> report_enumerates p limits Q report.
Proof.
  intros HPQ (exts & Hs & HP & Hnd & Hc & Hrest). exists exts. split; [done|]. split.
  - eapply Forall_impl; [exact HP|]. intros ext. apply HPQ.
  - split; [done|]. split; [|done]. intros Hcomp ext Hq. apply Hc; [done|]. by apply HPQ.
Qed.

Lemma dlx_enumeration (p : ExactCoverProblem) (limits : DlxSearchLimits) :
  Forall (candidate_ok (column_count p)) (candidates p) ->
  (0 < max_solutions limits)%Z -> (0 < max_nodes limits)%Z ->
  exists report, solve_all_limited p limits = Ok (Some report) /\ report_enumerates p limits (exact_cover p) report.
Proof.
  intros Hok Hms Hmn. pose proof (build_rows_spec p) as Hb. unfold solve_all_limited.
  rewrite (proj2 (Z.eqb_neq _ _)), (proj2 (Z.eqb_neq _ _)) by lia. destruct (build_rows_by_column p) as [rows|e].
  - destruct Hb as [_ Hrows]. cbn [rbind]. destruct (run_spec p limits rows Hok Hrows Hms Hmn) as (s & -> & Hout).
    destruct (completions_exact p rows Hok Hrows) as (Hsound & Hnd & Hcomp).
    destruct Hout as (_ & _ & Hn & pre & Hf & Hp & Ht). simpl in Hf, Hn.
    apply prefix_fmap in Hp as (exts & [rest Hpre] & ->). rewrite Hpre in Hsound, Hnd. apply Forall_app in Hsound as [Hsound _].
    rewrite fmap_app in Hnd. apply NoDup_app in Hnd as (Hnd & _ & _).
    exists (finish s). split; [done|]. exists exts. unfold finish. cbn [solutions report_complete truncated_reason searched_nodes].
    rewrite bool_decide_eq_true. split; [done|]. split; [done|]. split; [done|]. split; [|split; [done|]].
    + intros Hnone. rewrite Hnone in Ht. destruct Ht as (Heq & _). intros ext He. destruct (Hcomp ext He) as (ext' & Hin & Hpm).
      exists ext'. split; [|done]. rewrite Hpre in Heq, Hin. apply (f_equal length) in Heq.
      rewrite !length_fmap, length_app in Heq. assert (rest = []) as -> by (apply nil_length_inv; lia). by rewrite app_nil_r in Hin.
    + destruct (truncated s) as [[]|]; [|destruct Ht as (? & ? & ?)|destruct Ht as (? & ? & ?)]; split_and!; try done; lia.
  - destruct Hb as (pre & cand & post & Hp & _ & He). exfalso. rewrite Hp in Hok. apply Forall_app in Hok as [_ Hok].
    apply Forall_cons in Hok as [Hc _]. by apply candidate_error_not_ok in He.
Qed.

(** C1: For well-formed candidates and non-zero limits the DLX search
    terminates and is an exact enumeration: every reported solution is the id
    list of an exact cover of the required columns (optional columns at most
    once), no exact cover is reported twice, and a report that says
    [complete] contains every exact cover.  The limits are respected:
    [complete] is false exactly when a truncation reason is given, no more
    than [max_solutions] solutions and [max_nodes] nodes are used, and the
    reason names the limit that was reached. *)
Theorem dlx_enumerates_exact_covers (p : ExactCoverProblem) (limits : DlxSearchLimits)
    (Hok : Forall (candidate_ok (column_count p)) (candidates p))
    (Hms : (0 < max_solutions limits)%Z) (Hmn : (0 < max_nodes limits)%Z) :
  exists report, solve_all_limited p limits = Ok (Some report) /\ report_enumerates p limits (exact_cover p) report.
Proof. by apply dlx_enumeration. Qed.

(** Three candidates over two required columns and an optional one: the exact
    covers are {0} and {1, 2}. *)
Definition sample_problem : ExactCoverProblem :=
  with_optional_columns 2 1 [mkCandidate 10 [0; 1]; mkCandidate 11 [0; 2]; mkCandidate 12 [1]]%nat.

Lemma sample_problem_ok : Forall (candidate_ok (column_count sample_problem)) (candidates sample_problem).
Proof.
  repeat apply Forall_cons_2; try apply Forall_nil_2;
    (split; [done|]; split; [decided|]; unfold column_count; simpl; intros c; set_unfold; lia).
Defined.

Lemma dlx_enumerates_exact_covers_witness :
  exists report, solve_all_limited sample_problem DlxSearchLimits_default = Ok (Some report) /\
    solutions report = [[10]; [11; 12]]%nat /\ report_complete report = true.
Proof.
  destruct (dlx_enumerates_exact_covers sample_problem DlxSearchLimits_default sample_problem_ok ltac:(simpl; lia) ltac:(simpl; lia))
    as (report & Hr & _). exists report. split; [exact Hr|]. vm_compute in Hr. by injection Hr as <-.
Defined.

(** [solve_first] returns the ids of an exact cover when it returns one,
    and, as long as the search tree has at most [usize::MAX] nodes, it returns
    none exactly when the problem has no exact cover. *)
Theorem dlx_solve_first_correct (p : ExactCoverProblem) (Hok : Forall (candidate_ok (column_count p)) (candidates p)) :
  exists rows r, build_rows_by_column p = Ok rows /\ solve_first p = Ok (Some r) /\
    (forall sol, r = Some sol -> exists ext, exact_cover p ext /\ sol = ids_of p ext) /\
    ((total_nodes p rows (S (column_count p)) (empty_cover p) <= umax 64)%Z ->
       r = None -> forall ext, ~ exact_cover p ext).
Proof.
  pose proof (build_rows_spec p) as Hb. unfold solve_first, solve_all_limited. cbn [max_solutions max_nodes].
  rewrite (proj2 (Z.eqb_neq 1 0)), (proj2 (Z.eqb_neq (umax 64) 0)) by (unfold umax; lia).
  destruct (build_rows_by_column p) as [rows|e].
  - destruct Hb as [_ Hrows]. destruct (run_spec p (mkLimits 1 (umax 64)) rows Hok Hrows) as (s & Hrun & Hout);
      [simpl; lia|simpl; unfold umax; lia|]. exists rows. cbn [rbind]. rewrite Hrun. eexists. split; [done|]. split; [done|].
    destruct (completions_exact p rows Hok Hrows) as (Hsound & _ & Hcomp). rewrite Forall_forall in Hsound.
    destruct Hout as (_ & _ & Hn & pre & Hf & Hp & Ht). cbn [finish solutions]. simpl in Hf. rewrite Hf in *. split.
    + intros sol Hsol. apply prefix_fmap in Hp as (exts & [rest Hpre] & ->). destruct exts as [|ext exts]; [done|].
      injection Hsol as <-. exists ext. split; [|done]. apply Hsound. rewrite Hpre. by left.
    + intros Hnodes Hnone ext He. destruct pre as [|x pre]; [|done]. destruct (Hcomp ext He) as (ext' & Hin & _).
      cbn [max_nodes max_solutions nodes DlxSearch_new found length app] in Ht.
      destruct (truncated s) as [[]|]; [done|lia|]. destruct Ht as (Heq & _).
      symmetry in Heq. apply fmap_nil_inv in Heq. rewrite Heq in Hin. by apply elem_of_nil in Hin.
  - destruct Hb as (pre & cand & post & Hp & _ & He). exfalso. rewrite Hp in Hok. apply Forall_app in Hok as [_ Hok].
    apply Forall_cons in Hok as [Hc _]. by apply candidate_error_not_ok in He.
Qed.

Lemma dlx_solve_first_correct_witness :
  exists ext, exact_cover sample_problem ext /\ solve_first sample_problem = Ok (Some (Some (ids_of sample_problem ext))).
Proof.
  destruct (dlx_solve_first_correct sample_problem sample_problem_ok) as (rows & r & _ & Hr & Hs & _).
  destruct r as [sol|]; [|exfalso; vm_compute in Hr; discriminate Hr].
  destruct (Hs sol eq_refl) as (ext & He & ->). exists ext. split; assumption.
Defined.

(** ** The plain backtracking solver *)

Section Bitset.
Variable p : ExactCoverProblem.
Notation cols i := (cand_columns (candidate_at p i)).

(** [ext] fills every open column of [cov] exactly once. *)
Definition completes_all (cov : list bool) (ext : list nat) : Prop :=
  packing p ext /\ (forall i c, i ∈ ext -> c ∈ cols i -> (c < length cov)%nat /\ is_covered cov c = false) /\
  (forall c, (c < length cov)%nat -> is_covered cov c = false -> exists i, i ∈ ext /\ c ∈ cols i).

(** Covers of all columns, the optional ones included. *)
Definition full_cover (ext : list nat) : Prop :=
  packing p ext /\ (forall i c, i ∈ ext -> c ∈ cols i -> (c < column_count p)%nat) /\
  (forall c, (c < column_count p)%nat -> exists i, i ∈ ext /\ c ∈ cols i).

Lemma full_cover_completes ext : full_cover ext <-> completes_all (empty_cover p) ext.
Proof.
  assert (forall c, is_covered (empty_cover p) c = false) as Hf.
  { intros c. unfold is_covered, empty_cover. destruct (replicate _ false !! c) eqn:E; [|done]. by apply lookup_replicate in E as [-> _]. }
  assert (length (empty_cover p) = column_count p) as Hl by apply length_replicate.
  unfold full_cover, completes_all. rewrite Hl. naive_solver.
Qed.

Definition free (cov : list bool) (i : nat) : Prop :=
  forall c, c ∈ cols i -> (c < length cov)%nat /\ is_covered cov c = false.

Lemma blocked_spec cov cand :
  existsb (fun column => (length cov <=? column)%nat || is_covered cov column) (cand_columns cand) = false <->
  forall c, c ∈ cand_columns cand -> (c < length cov)%nat /\ is_covered cov c = false.
Proof.
  rewrite <- not_true_iff_false, existsb_exists. setoid_rewrite <- list_elem_of_In. setoid_rewrite orb_true_iff.
  setoid_rewrite Nat.leb_le. split.
  - intros H c Hc. split; [apply Nat.nle_gt; intros ?|apply not_true_iff_false; intros ?]; apply H; exists c; auto.
  - intros H (c & Hc & Hor). destruct (H c Hc) as [? Hf]. destruct Hor as [?|Ht]; [lia|congruence].
Qed.

Lemma completes_all_cons cov i ext :
  (i < length (candidates p))%nat -> free cov i -> i ∉ ext ->
  completes_all (set_columns true cov (cols i)) ext <-> completes_all cov (i :: ext).
Proof.
  intros Hi Hfree Hni. unfold completes_all, packing. rewrite NoDup_cons, Forall_cons, length_set_columns.
  assert (forall c, (c < length cov)%nat ->
    is_covered (set_columns true cov (cols i)) c = false <-> c ∉ cols i /\ is_covered cov c = false) as Hset.
  { intros c Hc. rewrite is_covered_set by done. case_bool_decide; naive_solver. }
  split.
  - intros ((Hnd & Hr & Hdis) & Hopen & Hfill).
    assert (forall j c, j ∈ ext -> c ∈ cols j -> c ∉ cols i /\ (c < length cov)%nat /\ is_covered cov c = false) as Hj.
    { intros j c Hje Hc. destruct (Hopen j c Hje Hc) as [Hl Hf]. apply (Hset c Hl) in Hf. tauto. }
    split_and!; try done.
    + intros a b c [->|Ha]%elem_of_cons [->|Hb]%elem_of_cons Hca Hcb; [done| | |by eapply Hdis].
      * by destruct (Hj b c Hb Hcb).
      * by destruct (Hj a c Ha Hca).
    + intros a c [->|Ha]%elem_of_cons Hc; [by apply Hfree|by apply (Hj a c)].
    + intros c Hc Hoc. destruct (decide (c ∈ cols i)) as [Hci|Hci]; [exists i; split; [by left|done]|].
      destruct (Hfill c Hc) as (j & ? & ?); [by apply Hset|]. exists j. split; [by right|done].
  - intros (([_ Hnd] & [_ Hr] & Hdis) & Hopen & Hfill). split_and!; try done.
    + intros a b c Ha Hb. apply Hdis; by right.
    + intros a c Ha Hc. destruct (Hopen a c ltac:(by right) Hc) as [Hl Hf]. split; [done|]. apply Hset; [done|]. split; [|done].
      intros Hci. apply Hni. by rewrite (Hdis i a c ltac:(by left) ltac:(by right) Hci Hc).
    + intros c Hc Hoc. apply (Hset c Hc) in Hoc as [Hci Hoc].
      destruct (Hfill c Hc Hoc) as (j & [->|Hj]%elem_of_cons & Hcj); [done|]. by exists j.
Qed.

Lemma solve_at_cons c cs cov chosen :
  forallb (fun value : bool => value) cov = false ->
  solve_at (c :: cs) cov chosen =
    if existsb (fun column => (length cov <=? column)%nat || is_covered cov column) (cand_columns c)
    then solve_at cs cov chosen
    else
      match solve_at cs (set_columns true cov (cand_columns c)) (chosen ++ [cand_id c]) with
      | Some solution => Some solution
      | None => solve_at cs cov chosen
      end.
Proof. intros H. destruct cs; simpl; rewrite H; done. Qed.

Lemma all_covered_spec cov :
  forallb (fun value : bool => value) cov = true <-> forall c, (c < length cov)%nat -> is_covered cov c = true.
Proof.
  rewrite forallb_forall. setoid_rewrite <- list_elem_of_In. unfold is_covered. split.
  - intros H c Hc. destruct (lookup_lt_is_Some_2 cov c Hc) as [b Hb]. rewrite Hb. apply H. by apply (list_elem_of_lookup_2 _ c).
  - intros H b [c Hb]%list_elem_of_lookup_1. specialize (H c (lookup_lt_Some _ _ _ Hb)). by rewrite Hb in H.
Qed.

Definition from_index (start : nat) (ext : list nat) : Prop :=
  StronglySorted lt ext /\ Forall (fun i => start <= i)%nat ext.

Lemma from_index_cons start ext :
  from_index (S start) ext -> from_index start (start :: ext).
Proof.
  intros [Hs Hf]. split; constructor; try done. eapply Forall_impl; [exact Hf|]. simpl. lia.
Qed.

Lemma from_index_case start ext :
  from_index start ext -> from_index (S start) ext \/ exists ext', ext = start :: ext' /\ from_index (S start) ext'.
Proof.
  intros [Hs Hf]. destruct ext as [|i ext]; [left; split; constructor|].
  pose proof (sorted_lt_head i ext Hs) as Hh. apply Forall_cons in Hf as [Hi Hf].
  pose proof Hs as [Hs' _]%StronglySorted_inv. destruct (decide (i = start)) as [->|Hne].
  - right. exists ext. split; [done|]. split; [done|]. apply Forall_forall. intros j Hj. by apply Hh in Hj.
  - left. split; [done|]. constructor; [lia|]. apply Forall_forall. intros j Hj%Hh. lia.
Qed.

Lemma from_index_weaken start ext : from_index (S start) ext -> from_index start ext.
Proof. intros [Hs Hf]. split; [done|]. eapply Forall_impl; [exact Hf|]. simpl. lia. Qed.

Lemma completes_all_nil cov : completes_all cov [] <-> forallb (fun value : bool => value) cov = true.
Proof.
  rewrite all_covered_spec. unfold completes_all, packing. split.
  - intros (_ & _ & Hfill) c Hc. apply not_false_iff_true. intros Hf. destruct (Hfill c Hc Hf) as (i & Hi & _).
    by apply elem_of_nil in Hi.
  - intros Hall. split_and!; [constructor|constructor|set_solver|set_solver|]. intros c Hc Hf. rewrite (Hall c Hc) in Hf. done.
Qed.

Lemma solve_at_spec cs start cov chosen :
  drop start (candidates p) = cs ->
  match solve_at cs cov chosen with
  | Some sol => exists ext, from_index start ext /\ completes_all cov ext /\ sol = with_ids p chosen ext
  | None => forall ext, from_index start ext -> ~ completes_all cov ext
  end.
Proof.
  revert start cov chosen. induction cs as [|c cs IH]; intros start cov chosen Hd;
    (destruct (forallb (fun value : bool => value) cov) eqn:Eall;
     [replace (solve_at _ cov chosen) with (Some chosen) by (simpl; by rewrite Eall); exists [];
      split; [split; constructor|]; split; [by apply completes_all_nil|unfold with_ids; by rewrite app_nil_r]|]).
  { simpl. rewrite Eall. intros ext [_ Hf] Hcomp. destruct ext as [|i ext].
    - apply completes_all_nil in Hcomp. congruence.
    - destruct Hcomp as ((_ & Hr & _) & _). apply Forall_cons in Hr as [Hi _]. apply Forall_cons in Hf as [Hs _].
      apply (f_equal length) in Hd. rewrite length_drop in Hd. simpl in Hd. lia. }
  rewrite solve_at_cons by done.
  assert (candidates p !! start = Some c) as Hstart.
  { rewrite <- (Nat.add_0_r start), <- lookup_drop, Hd. done. }
  assert (candidate_at p start = c) as Hc by (unfold candidate_at; by rewrite Hstart).
  assert (drop (S start) (candidates p) = cs) as Hd' by (rewrite <- Nat.add_1_r, <- drop_drop, Hd; done).
  pose proof (lookup_lt_Some _ _ _ Hstart) as Hlt.
  assert (forall ext, from_index (S start) ext -> start ∉ ext) as Hnot.
  { intros ext [_ Hf] Hin. rewrite Forall_forall in Hf. specialize (Hf start Hin). lia. }
  pose proof (IH (S start) cov chosen Hd') as Hskip. destruct (existsb _ _) eqn:Eb.
  - assert (forall ext, completes_all cov ext -> start ∉ ext) as Hbl.
    { intros ext (_ & Hopen & _) Hin. apply not_false_iff_true in Eb. apply Eb, blocked_spec. intros d Hdc.
      apply (Hopen start d Hin). by rewrite Hc. }
    destruct (solve_at cs cov chosen) as [sol|].
    + destruct Hskip as (ext & Hf & ? & ?). exists ext. split; [by apply from_index_weaken|done].
    + intros ext Hfrom Hcomp. destruct (from_index_case start ext Hfrom) as [Hf|(ext' & -> & _)]; [by apply (Hskip ext)|].
      apply (Hbl _ Hcomp). by left.
  - assert (free cov start) as Hfree by (unfold free; rewrite Hc; by apply blocked_spec).
    specialize (IH (S start) (set_columns true cov (cand_columns c)) (chosen ++ [cand_id c]) Hd').
    destruct (solve_at cs (set_columns true cov (cand_columns c)) (chosen ++ [cand_id c])) as [sol|].
    + destruct IH as (ext & Hf & Hcomp & ->). exists (start :: ext). split; [by apply from_index_cons|]. split.
      * apply completes_all_cons; try done; [by apply Hnot|]. by rewrite Hc.
      * unfold with_ids. simpl. by rewrite Hc, <- app_assoc.
    + assert (forall ext, from_index start ext -> completes_all cov ext -> from_index (S start) ext) as Hno.
      { intros ext Hfrom Hcomp. destruct (from_index_case start ext Hfrom) as [Hf|(ext' & -> & Hf)]; [done|]. exfalso.
        apply (IH ext' Hf). rewrite <- Hc. apply completes_all_cons; try done. by apply Hnot. }
      destruct (solve_at cs cov chosen) as [sol|].
      * destruct Hskip as (ext & Hf & ? & ?). exists ext. split; [by apply from_index_weaken|done].
      * intros ext Hfrom Hcomp. by apply (Hskip ext (Hno ext Hfrom Hcomp)).
Qed.
End Bitset.

Lemma full_cover_perm p ext ext' : ext ≡ₚ ext' -> full_cover p ext -> full_cover p ext'.
Proof. intros Hp. unfold full_cover, packing. setoid_rewrite Hp. done. Qed.

Lemma full_cover_sorted p ext : full_cover p ext -> exists ext', full_cover p ext' /\ from_index 0 ext'.
Proof.
  intros H. exists (merge_sort le ext). pose proof (merge_sort_Permutation le ext) as Hp. split.
  - by apply (full_cover_perm p ext).
  - destruct H as ((Hnd & _) & _). rewrite <- Hp in Hnd. split; [|apply Forall_forall; intros; lia].
    apply sorted_le_NoDup_lt; [apply (StronglySorted_merge_sort le)|done].
Qed.

(** [BitsetExactCoverSolver::solve_first] is sound and complete for covers
    of all columns: a result is the id list of disjoint candidates that
    contain every column, listed in candidate order, and no result means that
    there is no such set. *)
Theorem bitset_solver_correct (p : ExactCoverProblem) :
  match BitsetExactCoverSolver_solve_first p with
  | Some sol => exists ext, full_cover p ext /\ StronglySorted lt ext /\ sol = ids_of p ext
  | None => forall ext, ~ full_cover p ext
  end.
Proof.
  unfold BitsetExactCoverSolver_solve_first. pose proof (solve_at_spec p (candidates p) 0 (empty_cover p) [] eq_refl) as H.
  unfold empty_cover in *. destruct (solve_at _ _ _) as [sol|].
  - destruct H as (ext & [Hs _] & Hc & ->). exists ext. split; [by apply full_cover_completes|]. done.
  - intros ext Hf. destruct (full_cover_sorted p ext Hf) as (ext' & Hf' & Hfrom).
    apply (H ext' Hfrom). by apply full_cover_completes.
Qed.

(** A cover of all columns contains one of the required columns: the
    candidates of optional columns only are left out. *)
Lemma full_cover_exact (p : ExactCoverProblem) ext : full_cover p ext -> exists ext', exact_cover p ext'.
Proof.
  intros ((Hnd & Hlt & Hdis) & _ & Hall). exists (filter (fun i => Exists (fun c => c < required_column_count p)%nat (cand_columns (candidate_at p i))) ext). split; [|split].
  - split; [by apply NoDup_filter|]. split; [apply Forall_forall; intros i [_ Hi]%list_elem_of_filter; rewrite Forall_forall in Hlt; by apply Hlt|]. intros i j c [_ Hi]%list_elem_of_filter [_ Hj]%list_elem_of_filter. by apply Hdis.
  - intros c Hc. destruct (Hall c ltac:(unfold column_count; lia)) as (i & Hi & Hci). exists i. split; [|done]. apply list_elem_of_filter. split; [|done]. apply Exists_exists. by exists c.
  - intros i [(c & Hc & Hlt')%Exists_exists _]%list_elem_of_filter. by exists c.
Qed.

Lemma exact_cover_full (p : ExactCoverProblem) ext : Forall (candidate_ok (column_count p)) (candidates p) -> has_optional_columns p = false -> exact_cover p ext -> full_cover p ext.
Proof.
  intros Hok Hno (Hp & Hall & _). unfold has_optional_columns in Hno. apply Nat.ltb_ge in Hno. split; [done|]. split; [|intros c Hc; apply Hall; unfold column_count in Hc; lia].
  intros i c Hi Hc. destruct Hp as (_ & Hlt & _). rewrite Forall_forall in Hlt. destruct (candidate_at_ok p Hok i (Hlt i Hi)) as (_ & _ & H). by apply H.
Qed.

(** C37: The two solvers on optional columns.  Within the node limit DLX finds
    a solution exactly if there is an exact cover of the required columns, and
    the plain solver exactly if there is a cover of all columns, the optional
    ones included.  So what the plain solver solves DLX solves too, and without
    optional columns they agree; but on every problem with a column that no
    candidate contains the plain solver finds nothing, also when the column is
    optional and DLX finds an exact cover. *)
Theorem optional_columns_disagree (p : ExactCoverProblem) (rows : list (list nat)) (Hok : Forall (candidate_ok (column_count p)) (candidates p))
    (Hrows : build_rows_by_column p = Ok rows) (Hnodes : (total_nodes p rows (S (column_count p)) (empty_cover p) <= umax 64)%Z) :
  exists r, solve_first p = Ok (Some r) /\
    (is_Some r <-> exists ext, exact_cover p ext) /\
    (is_Some (BitsetExactCoverSolver_solve_first p) <-> exists ext, full_cover p ext) /\
    (is_Some (BitsetExactCoverSolver_solve_first p) -> is_Some r) /\
    (has_optional_columns p = false -> is_Some r -> is_Some (BitsetExactCoverSolver_solve_first p)) /\
    forall c, (c < column_count p)%nat -> Forall (fun cand => c ∉ cand_columns cand) (candidates p) -> BitsetExactCoverSolver_solve_first p = None.
Proof.
  destruct (dlx_solve_first_correct p Hok) as (rows' & r & Hb & Hr & Hsound & Hcomplete). rewrite Hrows in Hb. injection Hb as <-. specialize (Hcomplete Hnodes). exists r. split; [done|].
  assert (is_Some r <-> exists ext, exact_cover p ext) as H1.
  { split; [intros [sol E]; destruct (Hsound sol E) as (ext & He & _); by exists ext|]. intros [ext He]. destruct r as [sol|]; [by eexists|]. by destruct (Hcomplete eq_refl ext). }
  assert (is_Some (BitsetExactCoverSolver_solve_first p) <-> exists ext, full_cover p ext) as H2.
  { pose proof (bitset_solver_correct p) as Hp. destruct (BitsetExactCoverSolver_solve_first p) as [sol|]; [destruct Hp as (ext & He & _); split; [by exists ext|by eexists]|]. split; [by intros []|]. intros [ext He]. by destruct (Hp ext). }
  split; [done|]. split; [done|]. rewrite H1, H2. split; [intros [ext He]; by apply (full_cover_exact p ext)|]. split; [intros Hno [ext He]; exists ext; by apply exact_cover_full|].
  intros c Hc Hnone. destruct (BitsetExactCoverSolver_solve_first p) as [sol|]; [|done]. exfalso. destruct (proj1 H2 ltac:(by eexists)) as (ext & (_ & Hlt & _) & _ & Hall). destruct (Hall c Hc) as (i & Hi & Hci). rewrite Forall_forall in Hlt. specialize (Hlt i Hi).
  destruct (lookup_lt_is_Some_2 _ _ Hlt) as [cand Hcand]. unfold candidate_at in Hci. rewrite Hcand in Hci. cbn in Hci. apply (Forall_lookup_1 _ _ _ _ Hnone Hcand), Hci.
Qed.

(** One candidate for the required column, and none for the optional one. *)
Definition uncovered_optional : ExactCoverProblem := with_optional_columns 1 1 [mkCandidate 0 [0%nat]].

Lemma optional_columns_disagree_witness : (exists sol, solve_first uncovered_optional = Ok (Some (Some sol))) /\ BitsetExactCoverSolver_solve_first uncovered_optional = None.
Proof.
  destruct (optional_columns_disagree uncovered_optional [[0%nat]; []]) as (r & Hr & H1 & _ & _ & _ & H2).
  - apply Forall_cons_2; [|apply Forall_nil_2]. split; [discriminate|]. split; [apply NoDup_singleton|]. intros c ->%list_elem_of_singleton. unfold column_count. simpl. lia.
  - reflexivity.
  - vm_compute. discriminate.
  - split; [|apply (H2 1%nat); [unfold column_count; simpl; lia|apply Forall_cons_2; [|apply Forall_nil_2]; intros E%list_elem_of_singleton; discriminate E]].
    destruct H1 as [_ H1]. destruct H1 as [sol E]; [|exists sol; rewrite Hr, E; reflexivity]. exists [0%nat]. split; [|split].
    + split; [apply NoDup_singleton|]. split; [apply Forall_cons_2; [simpl; lia|apply Forall_nil_2]|]. intros i j c ->%list_elem_of_singleton ->%list_elem_of_singleton _ _. reflexivity.
    + intros c Hc. exists 0%nat. split; [by left|]. simpl in Hc. assert (c = 0%nat) as -> by lia. by left.
    + intros i ->%list_elem_of_singleton. exists 0%nat. split; [by left|]. simpl. lia.
Defined.
