(* ===== verification/Tiling.v ===== *)
(** * Building exact cover problems

    [clearra-exact-cover]: the cell universe that renumbers board cells as
    columns, the candidates made from masks or cells, the area constraint with
    its subset-sum table ([builder/*.rs], [model/generic_exact_cover_candidate.rs]),
    the problem schema and its validation ([model/exact_cover_problem_schema.rs])
    and the bridges that hand tiling questions to the DLX solver
    ([bridge/*.rs]).  Labels and piece ids are strings and take no part in the
    search; the labels of columns are formatted from cells and left out. *)

From Stdlib Require Import ZArith Lia Sorted.
From stdpp Require Import prelude gmap sorting strings.
From S2P Require Import Prelude Words ExactCover.

(** ** Cell universes *)

Inductive CellUniverseBuilderError :=
| EmptyUniverse
| DuplicateCell (cell : nat).

(** [compact_by_cell] is a [BTreeMap<u32, usize>]. *)
Record CellUniverse := mkCellUniverse {
  universe_cells : list nat;
  compact_by_cell : gmap nat nat
}.

Fixpoint insert_cells (compact_index : nat) (cells : list nat) (m : gmap nat nat)
  : Result CellUniverseBuilderError (gmap nat nat) :=
  match cells with
  | [] => Ok m
  | cell :: cells =>
      match m !! cell with
      | Some _ => Err (DuplicateCell cell)
      | None => insert_cells (S compact_index) cells (<[cell := compact_index]> m)
      end
  end.

Definition CellUniverse_new (cells : list nat) : Result CellUniverseBuilderError CellUniverse :=
  if bool_decide (cells = []) then Err EmptyUniverse
  else
    let? m := insert_cells 0 cells ∅ in
    Ok (mkCellUniverse cells m).

Definition universe_column_count (u : CellUniverse) : nat := length (universe_cells u).

Definition compact_column_for_cell (u : CellUniverse) (cell : nat) : option nat := compact_by_cell u !! cell.

(** The [collect] of a [Result] stops at the first cell without a column. *)
Fixpoint compact_columns_for_cells (u : CellUniverse) (cells : list nat) : Result nat (list nat) :=
  match cells with
  | [] => Ok []
  | cell :: cells =>
      let? column := ok_or (compact_column_for_cell u cell) cell in
      let? columns := compact_columns_for_cells u cells in
      Ok (column :: columns)
  end.

Definition from_mask (mask : Z) : list nat :=
  filter (fun index => (Z.land mask (shl 64 1 (Z.of_nat index)) =? 0)%Z = false) (seq 0 64).

Definition universe_from_mask (mask : Z) : Result CellUniverseBuilderError CellUniverse :=
  CellUniverse_new (from_mask mask).

Definition universe_from_cells (cells : list nat) : Result CellUniverseBuilderError CellUniverse :=
  CellUniverse_new cells.

(** ** Candidates *)

Definition PlacementCandidateBuilder_from_masks (masks : list Z) : list ExactCoverCandidate :=
  imap (fun id mask => mkCandidate id (from_mask mask)) masks.

Inductive GenericExactCoverCandidateError :=
| EmptyCells (candidate_id : nat)
| ZeroPieceAreaOf (candidate_id : nat)
| PieceAreaDoesNotMatchCells (candidate_id piece_area cell_count : nat)
| CellOutsideUniverse (candidate_id cell : nat).

Record GenericExactCoverCandidate := mkGeneric {
  gc_candidate_id : nat;
  gc_piece_id : string;
  gc_piece_area : nat;
  gc_cells : list nat;
  gc_columns : list nat
}.

Definition GenericExactCoverCandidate_from_cells (id : nat) (piece : string) (area : nat) (cells : list nat) (u : CellUniverse)
  : Result GenericExactCoverCandidateError GenericExactCoverCandidate :=
  if bool_decide (cells = []) then Err (EmptyCells id)
  else if (area =? 0)%nat then Err (ZeroPieceAreaOf id)
  else if negb (area =? length cells)%nat then Err (PieceAreaDoesNotMatchCells id area (length cells))
  else
    let? columns := rmap_err (CellOutsideUniverse id) (compact_columns_for_cells u cells) in
    Ok (mkGeneric id piece area cells columns).

Definition to_exact_cover_candidate (c : GenericExactCoverCandidate) : ExactCoverCandidate :=
  mkCandidate (gc_candidate_id c) (gc_columns c).

(** ** Areas *)

Inductive PieceAreaConstraintError := ZeroTargetArea | EmptyPieceAreas | ZeroPieceArea.

Record PieceAreaConstraint := mkAreaConstraint {
  target_area : nat;
  available_piece_areas : list nat
}.

Definition PieceAreaConstraint_new (target : nat) (areas : list nat) : Result PieceAreaConstraintError PieceAreaConstraint :=
  if (target =? 0)%nat then Err ZeroTargetArea
  else if bool_decide (areas = []) then Err EmptyPieceAreas
  else if bool_decide (0%nat ∈ areas) then Err ZeroPieceArea
  else Ok (mkAreaConstraint target areas).

(** [for candidate in (area..=target).rev()]. *)
Definition relax_area (area : nat) (reachable : list bool) (candidate : nat) : list bool :=
  <[candidate := is_covered reachable candidate || is_covered reachable (candidate - area)]> reachable.

Definition add_area (target : nat) (reachable : list bool) (area : nat) : list bool :=
  if (target <? area)%nat then reachable
  else foldl (relax_area area) reachable (rev (seq area (S target - area))).

Definition bounded_area_subset_sum (target : nat) (areas : list nat) : bool :=
  let reachable := <[0%nat := true]> (replicate (S target) false) in
  is_covered (foldl (add_area target) reachable areas) target.

Definition can_fill_target (c : PieceAreaConstraint) : bool :=
  bounded_area_subset_sum (target_area c) (available_piece_areas c).

(** ** The problem schema *)

Inductive ExactCoverProblemSchemaError :=
| EmptyCellUniverse
| EmptyRequiredColumns
| EmptyCandidateRows
| InvalidPieceUsageConstraint (piece_id : string)
| ZeroAreaConstraint (label : string)
| CandidateWithoutRequiredColumns (row_id : nat)
| RequiredColumnOutOfRange (row_id column : nat)
| OptionalColumnOutOfRange (row_id column : nat).

Record AreaConstraintColumn := mkAreaColumn { area_label : string; component_area : nat }.
Record PieceUsageConstraint := mkUsage { usage_piece_id : string; min_usage : nat; max_usage : nat }.
Record SlotConstraintColumn := mkSlot { slot_id : string; slot_required : bool }.
Record ExactCoverCandidateRow := mkRow { row_id : nat; row_required : list nat; row_optional : list nat }.

Inductive ExactCoverColumnKind := Required | Optional.
Record ExactCoverColumn := mkColumn { column_id : nat; column_kind : ExactCoverColumnKind }.

Record ExactCoverProblemSchema := mkSchema {
  schema_cells : list nat;
  schema_usage : list PieceUsageConstraint;
  schema_slots : list SlotConstraintColumn;
  schema_areas : list AreaConstraintColumn;
  schema_required : list ExactCoverColumn;
  schema_optional : list ExactCoverColumn;
  schema_rows : list ExactCoverCandidateRow
}.

Fixpoint first_error {A E} (f : A -> Result E unit) (l : list A) : Result E unit :=
  match l with
  | [] => Ok tt
  | a :: l => f a ;? first_error f l
  end.

Definition validate_candidate_row (required optional : nat) (row : ExactCoverCandidateRow)
  : Result ExactCoverProblemSchemaError unit :=
  if bool_decide (row_required row = []) then Err (CandidateWithoutRequiredColumns (row_id row))
  else
    first_error (fun column =>
      if (required <=? column)%nat then Err (RequiredColumnOutOfRange (row_id row) column) else Ok tt) (row_required row) ;?
    first_error (fun column =>
      if (optional <=? column)%nat then Err (OptionalColumnOutOfRange (row_id row) column) else Ok tt) (row_optional row).

Definition validate_schema (cells : list nat) (usage : list PieceUsageConstraint) (areas : list AreaConstraintColumn)
    (required optional : list ExactCoverColumn) (rows : list ExactCoverCandidateRow)
  : Result ExactCoverProblemSchemaError unit :=
  if bool_decide (cells = []) then Err EmptyCellUniverse
  else if bool_decide (required = []) then Err EmptyRequiredColumns
  else if bool_decide (rows = []) then Err EmptyCandidateRows
  else
    first_error (fun c =>
      if bool_decide (usage_piece_id c = EmptyString) || (max_usage c <? min_usage c)%nat
      then Err (InvalidPieceUsageConstraint (usage_piece_id c)) else Ok tt) usage ;?
    first_error (fun c =>
      if (component_area c =? 0)%nat then Err (ZeroAreaConstraint (area_label c)) else Ok tt) areas ;?
    first_error (validate_candidate_row (length required) (length optional)) rows.

Definition ExactCoverProblemSchema_new (cells : list nat) (usage : list PieceUsageConstraint) (slots : list SlotConstraintColumn)
    (areas : list AreaConstraintColumn) (required optional : list ExactCoverColumn) (rows : list ExactCoverCandidateRow)
  : Result ExactCoverProblemSchemaError ExactCoverProblemSchema :=
  validate_schema cells usage areas required optional rows ;?
  Ok (mkSchema cells usage slots areas required optional rows).

Definition to_problem (s : ExactCoverProblemSchema) : ExactCoverProblem :=
  let required_count := length (schema_required s) in
  with_optional_columns required_count (length (schema_optional s))
    ((fun row => mkCandidate (row_id row) (row_required row ++ ((fun c => required_count + c)%nat <$> row_optional row)))
       <$> schema_rows s).

(** ** The setup tiling bridge *)

Definition compact_columns_for_mask (mask : Z) (u : CellUniverse) : list nat :=
  omap (compact_column_for_cell u)
    (filter (fun cell => (Z.land mask (shl 64 1 (Z.of_nat cell)) =? 0)%Z = false) (universe_cells u)).

Definition required_cell_columns (u : CellUniverse) : list ExactCoverColumn :=
  imap (fun index _ => mkColumn index Required) (universe_cells u).

Definition problem_schema_from_shape_and_candidates (shape : Z) (masks : list Z)
  : Result ExactCoverProblemSchemaError ExactCoverProblemSchema :=
  match universe_from_mask shape with
  | Err _ => ExactCoverProblemSchema_new [] [] [] [] [] [] []
  | Ok u =>
      ExactCoverProblemSchema_new (universe_cells u) [] []
        [mkAreaColumn "setup-shape-area" (universe_column_count u)] (required_cell_columns u) []
        (imap (fun id mask => mkRow id (compact_columns_for_mask mask u) []) masks)
  end.

Definition problem_from_shape_and_candidates (shape : Z) (masks : list Z) : ExactCoverProblem :=
  match universe_from_mask shape with
  | Err _ => ExactCoverProblem_new 0 []
  | Ok u =>
      match problem_schema_from_shape_and_candidates shape masks with
      | Ok schema => to_problem schema
      | Err _ =>
          ExactCoverProblem_new (universe_column_count u)
            (imap (fun id mask => mkCandidate id (compact_columns_for_mask mask u)) masks)
      end
  end.

Definition SetupTilingBridge_enumerate (shape : Z) (masks : list Z) (limits : DlxSearchLimits)
  : Result DlxSolverError (option DlxSolveReport) :=
  solve_all_limited (problem_from_shape_and_candidates shape masks) limits.

(** ** The custom piece bridge *)

Inductive CustomPieceBridgeError := ZeroTargetCells | CustomDlx (e : DlxSolverError).

Record CustomPiecePlacementColumns := mkCustomPlacement { placement_id : nat; placement_columns : list nat }.

Definition problem_from_placements (target : nat) (placements : list CustomPiecePlacementColumns)
  : Result CustomPieceBridgeError ExactCoverProblem :=
  if (target =? 0)%nat then Err ZeroTargetCells
  else Ok (ExactCoverProblem_new target ((fun pl => mkCandidate (placement_id pl) (placement_columns pl)) <$> placements)).

Definition CustomPieceBridge_enumerate_tilings (target : nat) (placements : list CustomPiecePlacementColumns) (limits : DlxSearchLimits)
  : Result CustomPieceBridgeError (option DlxSolveReport) :=
  let? problem := problem_from_placements target placements in
  rmap_err CustomDlx (solve_all_limited problem limits).

(** ** The generic bridge *)

Inductive GenericExactCoverBridgeError :=
| PieceArea (e : PieceAreaConstraintError)
| AreaInfeasibleShape (target : nat) (areas : list nat)
| GenericDlx (e : DlxSolverError)
| Schema (e : ExactCoverProblemSchemaError).

Definition problem_from_candidates (u : CellUniverse) (cands : list GenericExactCoverCandidate) : ExactCoverProblem :=
  ExactCoverProblem_new (universe_column_count u) (to_exact_cover_candidate <$> cands).

Definition problem_schema_from_candidates (u : CellUniverse) (cands : list GenericExactCoverCandidate)
    (usage : list PieceUsageConstraint) (areas : list AreaConstraintColumn)
  : Result GenericExactCoverBridgeError ExactCoverProblemSchema :=
  rmap_err Schema
    (ExactCoverProblemSchema_new (universe_cells u) usage [] areas (required_cell_columns u) []
       ((fun c => mkRow (gc_candidate_id c) (gc_columns c) []) <$> cands)).

Definition GenericExactCoverBridge_enumerate_tilings (u : CellUniverse) (cands : list GenericExactCoverCandidate)
    (areas : list nat) (limits : DlxSearchLimits) : Result GenericExactCoverBridgeError (option DlxSolveReport) :=
  let? constraint := rmap_err PieceArea (PieceAreaConstraint_new (universe_column_count u) areas) in
  if negb (can_fill_target constraint) then Err (AreaInfeasibleShape (target_area constraint) areas)
  else
    let? schema := problem_schema_from_candidates u cands []
      [mkAreaColumn "cell-universe-area" (universe_column_count u)] in
    rmap_err GenericDlx (solve_all_limited (to_problem schema) limits).

(** ** The subset-sum table *)

Lemma is_covered_insert r c d b :
  (d < length r)%nat -> is_covered (<[d := b]> r) c = if (c =? d)%nat then b else is_covered r c.
Proof.
  intros Hd. unfold is_covered. destruct (Nat.eqb_spec c d) as [->|Hne].
  - by rewrite list_lookup_insert_eq by done.
  - by rewrite list_lookup_insert_ne by done.
Qed.

(** The descending loop reads only entries it has not written. *)
Lemma relax_loop area k r c :
  (area + k <= length r)%nat ->
  is_covered (foldl (relax_area area) r (rev (seq area k))) c =
    if (area <=? c)%nat && (c <? area + k)%nat then is_covered r c || is_covered r (c - area) else is_covered r c.
Proof.
  revert r. induction k as [|k IH]; intros r Hl.
  { simpl. destruct (Nat.leb_spec area c), (Nat.ltb_spec c (area + 0)); try done; lia. }
  rewrite seq_S, rev_app_distr. simpl. unfold relax_area at 2.
  rewrite IH by (rewrite length_insert; lia). rewrite !is_covered_insert by lia.
  destruct (Nat.leb_spec area c), (Nat.ltb_spec c (area + k)), (Nat.ltb_spec c (area + S k)); simpl; try lia.
  - rewrite (proj2 (Nat.eqb_neq c _)), (proj2 (Nat.eqb_neq (c - area) _)) by lia. done.
  - rewrite (proj2 (Nat.eqb_eq c (area + k))) by lia. replace c with (area + k)%nat by lia. done.
  - by rewrite (proj2 (Nat.eqb_neq c _)) by lia.
  - by rewrite (proj2 (Nat.eqb_neq c _)) by lia.
Qed.

Lemma length_relax area r l : length (foldl (relax_area area) r l) = length r.
Proof. revert r. induction l as [|c l IH]; intros r; simpl; [done|]. rewrite IH. apply length_insert. Qed.

Lemma add_area_spec target r area c :
  length r = S target -> (c <= target)%nat ->
  length (add_area target r area) = S target /\
  (is_covered (add_area target r area) c = true <->
     is_covered r c = true \/ ((area <= c)%nat /\ is_covered r (c - area) = true)).
Proof.
  intros Hl Hc. unfold add_area. destruct (Nat.ltb_spec target area); [split; [done|]; intuition lia|].
  split; [by rewrite length_relax|]. rewrite relax_loop by lia.
  destruct (Nat.leb_spec area c), (Nat.ltb_spec c (area + (S target - area))); simpl; try lia;
    rewrite ?orb_true_iff; intuition lia.
Qed.

Lemma add_areas_spec target seen areas r :
  length r = S target ->
  (forall c, (c <= target)%nat -> is_covered r c = true <-> exists sub, sub `sublist_of` seen /\ sum_list sub = c) ->
  forall c, (c <= target)%nat ->
    is_covered (foldl (add_area target) r areas) c = true <-> exists sub, sub `sublist_of` (seen ++ areas) /\ sum_list sub = c.
Proof.
  revert seen r. induction areas as [|area areas IH]; intros seen r Hl Hr; simpl; [by rewrite app_nil_r|].
  replace (seen ++ area :: areas) with ((seen ++ [area]) ++ areas) by (by rewrite <- app_assoc).
  apply IH; [by apply (add_area_spec target r area 0); [|lia]|]. intros c Hc.
  destruct (add_area_spec target r area c Hl Hc) as [_ ->]. rewrite Hr by done. split.
  - intros [(sub & Hs & Hsum)|[Ha Hcov]].
    + exists sub. split; [by apply sublist_inserts_r|done].
    + apply Hr in Hcov as (sub & Hs & Hsum); [|lia]. exists (sub ++ [area]). split; [by apply sublist_app|].
      rewrite sum_list_with_app. simpl. lia.
  - intros (sub & (l1 & l2 & -> & H1 & H2)%sublist_app_r & Hsum). rewrite sum_list_with_app in Hsum.
    apply sublist_cons_r in H2 as [->%sublist_nil_r|(l & -> & ->%sublist_nil_r)]; simpl in Hsum.
    + left. exists l1. split; [done|]. lia.
    + right. split; [lia|]. apply Hr; [lia|]. exists l1. split; [done|]. lia.
Qed.

Lemma subset_sum_spec target areas :
  bounded_area_subset_sum target areas = true <-> exists sub, sub `sublist_of` areas /\ sum_list sub = target.
Proof.
  unfold bounded_area_subset_sum. apply (add_areas_spec target []); [rewrite length_insert; apply length_replicate| |lia].
  intros c Hc. rewrite is_covered_insert by (rewrite length_replicate; lia). destruct (Nat.eqb_spec c 0) as [->|Hne].
  - split; [|done]. intros _. by exists [].
  - unfold is_covered. rewrite lookup_replicate_2 by lia. simpl. split; [done|].
    intros (sub & ->%sublist_nil_r & ?). simpl in *. lia.
Qed.

(** [bounded_area_subset_sum], the in-place table of [PieceAreaConstraint],
    decides whether some selection of the available pieces (each used at most
    once) has the target area. *)
Theorem area_constraint_correct (c : PieceAreaConstraint) :
  can_fill_target c = true <-> exists sub, sub `sublist_of` available_piece_areas c /\ sum_list sub = target_area c.
Proof. apply subset_sum_spec. Qed.

(** ** Cell universes *)

Definition indexes (m : gmap nat nat) (cells : list nat) : Prop :=
  forall c k, m !! c = Some k <-> cells !! k = Some c.

Lemma insert_cells_spec before cells m :
  NoDup before -> indexes m before ->
  match insert_cells (length before) cells m with
  | Ok m' => NoDup (before ++ cells) /\ indexes m' (before ++ cells)
  | Err e => exists pre c post, cells = pre ++ c :: post /\ NoDup (before ++ pre) /\ c ∈ before ++ pre /\ e = DuplicateCell c
  end.
Proof.
  revert before m. induction cells as [|c cells IH]; intros before m Hnd Hm; cbn [insert_cells].
  { by rewrite app_nil_r. }
  destruct (m !! c) as [k|] eqn:Ec.
  - exists [], c, cells. rewrite app_nil_r. split_and!; [done|done| |done]. apply Hm in Ec. by eapply list_elem_of_lookup_2.
  - assert (c ∉ before) as Hc. { intros [k Hk]%list_elem_of_lookup_1. apply Hm in Hk. congruence. }
    specialize (IH (before ++ [c]) (<[c := length before]> m)).
    rewrite length_app, Nat.add_1_r, <- app_assoc in IH. cbn [app] in IH.
    assert (NoDup (before ++ [c])) as Hnd'.
    { apply NoDup_app. split_and!; [done| |apply NoDup_singleton]. intros x Hx ->%list_elem_of_singleton. done. }
    assert (indexes (<[c := length before]> m) (before ++ [c])) as Hm'.
    { intros d k. destruct (decide (d = c)) as [->|Hne].
      - rewrite lookup_insert_eq. split; [intros [= <-]; by apply list_lookup_middle|].
        intros [?|[? ?]]%lookup_app_Some; [by exfalso; apply Hc; eapply list_elem_of_lookup_2|].
        f_equal. destruct (k - length before)%nat eqn:E; simpl in *; [lia|done].
      - rewrite lookup_insert_ne by done. rewrite (Hm d k). split; [intros; by apply lookup_app_l_Some|].
        intros [?|[? ?]]%lookup_app_Some; [done|]. destruct (k - length before)%nat; simpl in *; [congruence|done]. }
    specialize (IH Hnd' Hm'). destruct (insert_cells _ _ _) as [m'|e]; [done|].
    destruct IH as (pre & d & post & -> & ? & ? & ?). exists (c :: pre), d, post. by rewrite <- app_assoc in *.
Qed.

Lemma universe_new_spec cells :
  match CellUniverse_new cells with
  | Ok u => universe_cells u = cells /\ cells <> [] /\ NoDup cells /\ indexes (compact_by_cell u) cells
  | Err EmptyUniverse => cells = []
  | Err (DuplicateCell c) => exists pre post, cells = pre ++ c :: post /\ NoDup pre /\ c ∈ pre
  end.
Proof.
  unfold CellUniverse_new. case_bool_decide as He; [done|].
  pose proof (insert_cells_spec [] cells ∅ ltac:(constructor)) as H. simpl in H.
  destruct (insert_cells 0 cells ∅) as [m|e]; simpl.
  - destruct H as [Hnd Hm]; [by intros c k; rewrite lookup_empty, lookup_nil|]. done.
  - destruct H as (pre & c & post & -> & ? & ? & ->); [by intros c k; rewrite lookup_empty, lookup_nil|]. by exists pre, post.
Qed.

(** A cell universe numbers its cells as columns one to one, in order:
    construction fails exactly on an empty list or at the first repeated
    cell, and [compact_column_for_cell] is the inverse of indexing. *)
Theorem cell_universe_correct (cells : list nat) :
  match CellUniverse_new cells with
  | Ok u => universe_column_count u = length cells /\ NoDup cells /\
      forall cell column, compact_column_for_cell u cell = Some column <-> cells !! column = Some cell
  | Err EmptyUniverse => cells = []
  | Err (DuplicateCell c) => exists pre post, cells = pre ++ c :: post /\ NoDup pre /\ c ∈ pre
  end.
Proof.
  pose proof (universe_new_spec cells) as H. destruct (CellUniverse_new cells) as [u|[]]; [|done|done].
  destruct H as (Hc & _ & Hnd & Hm). unfold universe_column_count. rewrite Hc. done.
Qed.

(** ** Tilings as exact covers *)

(** A problem without optional columns whose column [k] stands for the cell
    [cells !! k]: its exact covers are the selections that cover every cell
    exactly once. *)
Definition exact_tiling (n : nat) (cells : list nat) (takes : nat -> nat -> Prop) (ext : list nat) : Prop :=
  NoDup ext /\ Forall (fun i => i < n)%nat ext /\
  (forall i j x, i ∈ ext -> j ∈ ext -> x ∈ cells -> takes i x -> takes j x -> i = j) /\
  (forall x, x ∈ cells -> exists i, i ∈ ext /\ takes i x).

Lemma exact_cover_tiling cells cands (takes : nat -> nat -> Prop) ext :
  let p := ExactCoverProblem_new (length cells) cands in
  Forall (candidate_ok (length cells)) cands ->
  (forall i k, (i < length cands)%nat -> k ∈ cand_columns (candidate_at p i) <-> exists x, cells !! k = Some x /\ takes i x) ->
  exact_cover p ext <-> exact_tiling (length cands) cells takes ext.
Proof.
  intros p Hok Hcols. unfold exact_cover, packing, exact_tiling. cbn [required_column_count candidates p].
  assert (forall i, i ∈ ext -> Forall (fun i => i < length cands)%nat ext -> (i < length cands)%nat) as Hr.
  { intros i Hi HF. rewrite Forall_forall in HF. by apply HF. }
  split.
  - intros ((Hnd & Hrng & Hdis) & Hfill & _). split_and!; [done|done| |].
    + intros i j x Hi Hj [k Hk]%list_elem_of_lookup_1 Hti Htj.
      apply (Hdis i j k Hi Hj); apply Hcols; try (by apply Hr); by exists x.
    + intros x [k Hk]%list_elem_of_lookup_1. destruct (Hfill k (lookup_lt_Some _ _ _ Hk)) as (i & Hi & Hc).
      apply Hcols in Hc as (y & Hy & Ht); [|by apply Hr]. exists i. split; [done|]. congruence.
  - intros (Hnd & Hrng & Hdis & Hfill). split_and!; [done|done| | |].
    + intros i j k Hi Hj (x & Hx & Hti)%Hcols (y & Hy & Htj)%Hcols; try (by apply Hr).
      assert (x = y) as <- by congruence. apply (Hdis i j x); try done. by eapply list_elem_of_lookup_2.
    + intros k Hk. destruct (lookup_lt_is_Some_2 cells k Hk) as [x Hx].
      destruct (Hfill x) as (i & Hi & Ht); [by eapply list_elem_of_lookup_2|]. exists i. split; [done|].
      apply Hcols; [by apply Hr|]. by exists x.
    + intros i Hi. pose proof (Hr i Hi Hrng) as Hlt. destruct (lookup_lt_is_Some_2 cands i Hlt) as [cand Hc].
      pose proof (Forall_lookup_1 _ _ _ _ Hok Hc) as (Hne & _ & Hcr). unfold candidate_at, p. cbn [candidates ExactCoverProblem_new]. rewrite Hc. simpl.
      destruct (cand_columns cand) as [|k ks]; [done|]. exists k. split; [by left|]. apply Hcr. by left.
Qed.

Lemma NoDup_omap_inj {A B} (f : A -> option B) (l : list A) :
  NoDup l -> (forall x y z, x ∈ l -> y ∈ l -> f x = Some z -> f y = Some z -> x = y) -> NoDup (omap f l).
Proof.
  induction 1 as [|x l Hx Hnd IH]; intros Hinj; simpl; [constructor|].
  assert (NoDup (omap f l)) by (apply IH; intros a b z Ha Hb; apply Hinj; by right).
  destruct (f x) as [z|] eqn:Ef; [|done]. constructor; [|done].
  intros (y & Hy & Hz)%list_elem_of_omap. apply Hx. rewrite (Hinj x y z); [done|by left|by right|done|done].
Qed.

Lemma from_mask_elem mask i : i ∈ from_mask mask <-> (i < 64)%nat /\ Z.testbit mask (Z.of_nat i) = true.
Proof.
  unfold from_mask. rewrite list_elem_of_filter, elem_of_seq. split.
  - intros [Hb Hi]. split; [lia|]. rewrite land_bit_eqb in Hb by lia. by apply negb_false_iff.
  - intros [Hi Hb]. split; [|lia]. rewrite land_bit_eqb by lia. by rewrite Hb.
Qed.

Lemma from_mask_NoDup mask : NoDup (from_mask mask).
Proof. apply NoDup_filter, NoDup_seq. Qed.

Lemma from_mask_nil mask : in_width 64 mask -> from_mask mask = [] <-> mask = 0%Z.
Proof.
  intros Hw. split; intros H.
  - apply word_0_iff; [by destruct Hw|]. intros i Hi. destruct (Z.testbit mask i) eqn:E; [|done]. exfalso.
    assert (i < 64)%Z. { destruct (Z.lt_ge_cases i 64); [done|]. rewrite (in_width_testbit 64 mask i) in E by done. done. }
    apply (not_elem_of_nil (Z.to_nat i)). rewrite <- H. apply from_mask_elem. rewrite Z2Nat.id by lia. split; [lia|done].
  - subst mask. destruct (from_mask 0) as [|i l] eqn:E; [done|]. exfalso.
    assert (i ∈ from_mask 0) as [_ Hb]%from_mask_elem by (rewrite E; by left). by rewrite Z.testbit_0_l in Hb.
Qed.

(** The columns of a mask: the numbers of the universe's cells it contains. *)
Lemma compact_columns_spec u mask k :
  indexes (compact_by_cell u) (universe_cells u) -> (forall x, x ∈ universe_cells u -> (x < 64)%nat) ->
  k ∈ compact_columns_for_mask mask u <-> exists x, universe_cells u !! k = Some x /\ Z.testbit mask (Z.of_nat x) = true.
Proof.
  intros Hm H64. unfold compact_columns_for_mask, compact_column_for_cell. rewrite list_elem_of_omap. split.
  - intros (x & (Hb & Hx)%list_elem_of_filter & Hk). exists x. split; [by apply Hm|].
    specialize (H64 x Hx). rewrite land_bit_eqb in Hb by lia. by apply negb_false_iff.
  - intros (x & Hx & Hb). exists x. pose proof (list_elem_of_lookup_2 _ _ _ Hx) as Hin. split; [|by apply Hm].
    apply list_elem_of_filter. split; [|done]. specialize (H64 x Hin). rewrite land_bit_eqb by lia. by rewrite Hb.
Qed.

Lemma compact_columns_NoDup u mask :
  NoDup (universe_cells u) -> indexes (compact_by_cell u) (universe_cells u) -> NoDup (compact_columns_for_mask mask u).
Proof.
  intros Hnd Hm. apply NoDup_omap_inj; [by apply NoDup_filter|]. intros x y k _ _ Hx Hy.
  apply Hm in Hx, Hy. congruence.
Qed.

(** Both ways the bridge builds its problem give the same one. *)
Lemma problem_from_shape_eq shape masks :
  in_width 64 shape -> shape <> 0%Z ->
  exists u, universe_from_mask shape = Ok u /\ universe_cells u = from_mask shape /\
    indexes (compact_by_cell u) (universe_cells u) /\
    problem_from_shape_and_candidates shape masks =
      ExactCoverProblem_new (length (universe_cells u)) (imap (fun id mask => mkCandidate id (compact_columns_for_mask mask u)) masks).
Proof.
  intros Hw Hne. pose proof (universe_new_spec (from_mask shape)) as Hu.
  unfold problem_from_shape_and_candidates, problem_schema_from_shape_and_candidates, universe_from_mask in *.
  destruct (CellUniverse_new (from_mask shape)) as [u|[|c]].
  - destruct Hu as (Hc & _ & _ & Hm). exists u. rewrite Hc in *. split_and!; [done|done|done|].
    unfold ExactCoverProblemSchema_new. destruct (validate_schema _ _ _ _ _ _) as [[]|e]; cbn [rbind]; [|unfold universe_column_count; by rewrite Hc].
    unfold to_problem, required_cell_columns. cbn [schema_required schema_optional schema_rows].
    rewrite length_imap, Hc. unfold ExactCoverProblem_new, with_optional_columns. f_equal.
    rewrite fmap_imap. apply imap_ext. intros i mask _. simpl. by rewrite app_nil_r.
  - exfalso. by apply Hne, from_mask_nil.
  - exfalso. destruct Hu as (pre & post & Heq & Hnd & Hin). pose proof (from_mask_NoDup shape) as Hnd'. rewrite Heq in Hnd'.
    apply NoDup_app in Hnd' as (_ & Hdis & _). apply (Hdis c Hin). by left.
Qed.

(** A selection of masks that covers every cell of the shape exactly once;
    the part of a mask outside the shape does not count. *)
Definition tiles_shape (shape : Z) (masks : list Z) : list nat -> Prop :=
  exact_tiling (length masks) (from_mask shape) (fun i x => Z.testbit (default 0%Z (masks !! i)) (Z.of_nat x) = true).

Lemma setup_candidates_ok shape masks u :
  in_width 64 shape -> Forall (fun mask => Z.land mask shape <> 0%Z /\ (0 <= mask)%Z) masks ->
  universe_cells u = from_mask shape -> indexes (compact_by_cell u) (universe_cells u) ->
  Forall (candidate_ok (length (universe_cells u))) (imap (fun id mask => mkCandidate id (compact_columns_for_mask mask u)) masks).
Proof.
  intros Hw Hmasks Hc Hm. assert (forall x, x ∈ universe_cells u -> (x < 64)%nat) as H64.
  { intros x. rewrite Hc, from_mask_elem. tauto. }
  apply Forall_lookup. intros i cand Hi. rewrite list_lookup_imap in Hi.
  destruct (masks !! i) as [mask|] eqn:Em; [|done]. injection Hi as <-. simpl.
  pose proof (Forall_lookup_1 _ _ _ _ Hmasks Em) as [Hland Hpos]. split_and!; simpl.
  - intros Hnil. apply Hland. apply word_0_iff; [apply Z.land_nonneg; by left|]. intros b Hb. rewrite Z.land_spec.
    destruct (Z.testbit mask b && Z.testbit shape b) eqn:E; [|done]. exfalso. bool_prop.
    assert (Z.to_nat b ∈ universe_cells u) as Hin.
    { rewrite Hc, from_mask_elem, Z2Nat.id by done. split; [|done].
      destruct (Z.lt_ge_cases b 64); [lia|]. rewrite (in_width_testbit 64 shape b) in * by done. done. }
    apply list_elem_of_lookup_1 in Hin as [k Hk]. apply (not_elem_of_nil k). rewrite <- Hnil.
    apply compact_columns_spec; try done. exists (Z.to_nat b). by rewrite Z2Nat.id.
  - apply compact_columns_NoDup; [rewrite Hc; apply from_mask_NoDup|done].
  - intros k (x & Hx & _)%compact_columns_spec; try done. by apply lookup_lt_Some in Hx.
Qed.

(** For a non-empty shape and candidates that each meet it,
    [SetupTilingBridge::enumerate] enumerates the tilings: the reported id
    lists are the selections of candidates whose masks, cut to the shape,
    partition it, without repetition, all of them when the report is
    [complete]. *)
Theorem setup_tilings_correct (shape : Z) (masks : list Z) (limits : DlxSearchLimits)
    (Hw : in_width 64 shape) (Hne : shape <> 0%Z)
    (Hmasks : Forall (fun mask => Z.land mask shape <> 0%Z /\ (0 <= mask)%Z) masks)
    (Hms : (0 < max_solutions limits)%Z) (Hmn : (0 < max_nodes limits)%Z) :
  exists report, SetupTilingBridge_enumerate shape masks limits = Ok (Some report) /\
    report_enumerates (problem_from_shape_and_candidates shape masks) limits (tiles_shape shape masks) report.
Proof.
  destruct (problem_from_shape_eq shape masks Hw Hne) as (u & _ & Hc & Hm & Hp).
  pose proof (setup_candidates_ok shape masks u Hw Hmasks Hc Hm) as Hok. unfold SetupTilingBridge_enumerate.
  destruct (dlx_enumeration (problem_from_shape_and_candidates shape masks) limits) as (report & Hr & Henum); [|exact Hms|exact Hmn|exists report; split; [exact Hr|]].
  - rewrite Hp. unfold column_count. simpl. by rewrite Nat.add_0_r.
  - eapply report_enumerates_iff; [|exact Henum]. intros ext. rewrite Hp.
    rewrite (exact_cover_tiling (universe_cells u) _ (fun i x => Z.testbit (default 0%Z (masks !! i)) (Z.of_nat x) = true)).
    + unfold tiles_shape. by rewrite length_imap, Hc.
    + done.
    + intros i k Hi. unfold candidate_at. cbn [candidates ExactCoverProblem_new]. rewrite list_lookup_imap.
      rewrite length_imap in Hi. destruct (lookup_lt_is_Some_2 masks i Hi) as [mask ->]. simpl.
      apply compact_columns_spec; [done|]. intros x. rewrite Hc, from_mask_elem. tauto.
Qed.

Lemma setup_tilings_correct_witness :
  exists report, SetupTilingBridge_enumerate 15 [3; 12; 5; 10]%Z (mkLimits 8 128) = Ok (Some report) /\
    solutions report = [[0; 1]; [2; 3]]%nat /\ report_complete report = true.
Proof.
  destruct (setup_tilings_correct 15 [3; 12; 5; 10]%Z (mkLimits 8 128)) as (report & Hr & _).
  - unfold in_width. lia.
  - lia.
  - repeat apply Forall_cons_2; try apply Forall_nil_2; (split; [done|lia]).
  - simpl. lia.
  - simpl. lia.
  - exists report. split; [exact Hr|]. vm_compute in Hr. by injection Hr as <-.
Defined.

(** ** Schemas *)

Lemma first_error_Ok {A E} (f : A -> Result E unit) l : first_error f l = Ok tt <-> forall a, a ∈ l -> f a = Ok tt.
Proof.
  induction l as [|a l IH]; simpl; [split; [by intros _ a ?%elem_of_nil|done]|].
  destruct (f a) as [[]|e] eqn:Ef; simpl.
  - rewrite IH. setoid_rewrite elem_of_cons. split; [by intros H b [->|?]; auto|auto].
  - split; [done|]. intros H. rewrite <- Ef. apply H. by left.
Qed.

Lemma validate_candidate_row_Ok required optional row :
  validate_candidate_row required optional row = Ok tt <->
  row_required row <> [] /\ (forall c, c ∈ row_required row -> (c < required)%nat) /\
  (forall c, c ∈ row_optional row -> (c < optional)%nat).
Proof.
  assert (forall n id l (e : nat -> nat -> ExactCoverProblemSchemaError),
    first_error (fun column => if (n <=? column)%nat then Err (e id column) else Ok tt) l = Ok tt <->
    forall c, c ∈ l -> (c < n)%nat) as Hrange.
  { intros n id l e. rewrite first_error_Ok. split; intros H c Hc; specialize (H c Hc); destruct (Nat.leb_spec n c); done || lia. }
  unfold validate_candidate_row. case_bool_decide as He; [split; [done|intros [? _]; done]|].
  pose proof (Hrange required (row_id row) (row_required row) RequiredColumnOutOfRange) as H1.
  pose proof (Hrange optional (row_id row) (row_optional row) OptionalColumnOutOfRange) as H2.
  destruct (first_error _ (row_required row)) as [[]|e]; simpl; [rewrite H2; tauto|].
  split; [done|]. intros (_ & Hr & _). by apply H1 in Hr.
Qed.

(** A schema that passes validation gives a problem the solver can only
    reject for a repeated column: every candidate has a required column and
    stays inside the required and optional columns, the optional ones
    numbered after the required ones. *)
Theorem schema_problem_wellformed cells usage slots areas required optional rows s
    (Hs : ExactCoverProblemSchema_new cells usage slots areas required optional rows = Ok s) :
  required_column_count (to_problem s) = length required /\ (0 < length required)%nat /\
  (forall cand, cand ∈ candidates (to_problem s) ->
     (exists c, c ∈ cand_columns cand /\ (c < required_column_count (to_problem s))%nat) /\
     forall c, c ∈ cand_columns cand -> (c < column_count (to_problem s))%nat) /\
  (forall e, build_rows_by_column (to_problem s) = Err e -> exists id c, e = DuplicateColumnInCandidate id c).
Proof.
  unfold ExactCoverProblemSchema_new in Hs. apply rbind_Ok in Hs as ([] & Hv & [= <-]).
  unfold validate_schema in Hv. repeat case_bool_decide; try done.
  apply rbind_Ok in Hv as ([] & _ & Hv). apply rbind_Ok in Hv as ([] & _ & Hv). rewrite first_error_Ok in Hv.
  assert (forall cand, cand ∈ candidates (to_problem (mkSchema cells usage slots areas required optional rows)) ->
    (exists c, c ∈ cand_columns cand /\ (c < length required)%nat) /\
    forall c, c ∈ cand_columns cand -> (c < length required + length optional)%nat) as Hcand.
  { intros cand (row & -> & Hrow)%list_elem_of_fmap. apply Hv, validate_candidate_row_Ok in Hrow as (Hne & Hr & Ho). simpl in *.
    split.
    - destruct (row_required row) as [|c l] eqn:E; [done|]. exists c. split; [by left|]. apply Hr. by left.
    - intros c [Hc|(d & -> & Hd)%list_elem_of_fmap]%elem_of_app; [specialize (Hr c Hc)|specialize (Ho d Hd)]; lia. }
  split; [done|]. split; [by destruct required; simpl; [|lia]|]. split; [done|]. intros e He.
  pose proof (build_rows_spec (to_problem (mkSchema cells usage slots areas required optional rows))) as Hb. rewrite He in Hb.
  destruct Hb as (pre & cand & post & Hp & _ & Herr). destruct (Hcand cand) as [(c & Hc & _) Hall]; [rewrite Hp; set_solver|].
  destruct e as [| |id|id d t|id d]; simpl in Herr; try done.
  - destruct Herr as [_ Hnil]. rewrite Hnil in Hc. by apply elem_of_nil in Hc.
  - destruct Herr as (_ & Hd & _ & Hge). specialize (Hall d Hd). unfold column_count in Hge. simpl in Hge. lia.
  - by eexists _, _.
Qed.

Lemma schema_problem_wellformed_witness :
  exists s, ExactCoverProblemSchema_new [0; 1]%nat [] [] [] [mkColumn 0 Required] [mkColumn 0 Optional] [mkRow 1 [0] [0]]%nat = Ok s /\
    required_column_count (to_problem s) = 1%nat.
Proof.
  eexists. split; [reflexivity|].
  by destruct (schema_problem_wellformed [0; 1]%nat [] [] [] [mkColumn 0 Required] [mkColumn 0 Optional] [mkRow 1 [0] [0]]%nat _ eq_refl) as [H _].
Defined.

(** ** The generic bridge *)

Lemma compact_columns_for_cells_spec u cells :
  match compact_columns_for_cells u cells with
  | Ok columns => Forall2 (fun cell column => compact_column_for_cell u cell = Some column) cells columns
  | Err cell => cell ∈ cells /\ compact_column_for_cell u cell = None
  end.
Proof.
  induction cells as [|cell cells IH]; simpl; [constructor|].
  destruct (compact_column_for_cell u cell) as [k|] eqn:E; simpl; [|split; [by left|done]].
  destruct (compact_columns_for_cells u cells) as [ks|c]; simpl; [by constructor|]. destruct IH. split; [by right|done].
Qed.

Lemma columns_of_cells u cells columns :
  indexes (compact_by_cell u) (universe_cells u) -> NoDup cells ->
  Forall2 (fun cell column => compact_column_for_cell u cell = Some column) cells columns ->
  NoDup columns /\ forall k, k ∈ columns <-> exists x, universe_cells u !! k = Some x /\ x ∈ cells.
Proof.
  intros Hm Hnd HF. assert (columns = omap (compact_column_for_cell u) cells) as ->.
  { clear Hnd. induction HF as [|c k cs ks Hc _ IH]; simpl; [done|]. rewrite Hc. by f_equal. }
  split.
  - apply NoDup_omap_inj; [done|]. intros x y k _ _ Hx Hy. apply Hm in Hx, Hy. congruence.
  - intros k. rewrite list_elem_of_omap. split; intros (x & ? & ?); exists x; split; try done; by apply Hm.
Qed.

(** A candidate as [from_cells] builds it, over distinct cells. *)
Definition built (u : CellUniverse) (c : GenericExactCoverCandidate) : Prop :=
  NoDup (gc_cells c) /\
  GenericExactCoverCandidate_from_cells (gc_candidate_id c) (gc_piece_id c) (gc_piece_area c) (gc_cells c) u = Ok c.

Lemma built_columns u c :
  indexes (compact_by_cell u) (universe_cells u) -> built u c ->
  candidate_ok (length (universe_cells u)) (to_exact_cover_candidate c) /\
  forall k, k ∈ gc_columns c <-> exists x, universe_cells u !! k = Some x /\ x ∈ gc_cells c.
Proof.
  intros Hm [Hnd Hb]. unfold GenericExactCoverCandidate_from_cells in Hb. case_bool_decide as He; [done|].
  destruct (gc_piece_area c =? 0)%nat; [done|]. destruct (negb _); [done|].
  pose proof (compact_columns_for_cells_spec u (gc_cells c)) as Hc.
  destruct (compact_columns_for_cells u (gc_cells c)) as [columns|]; [|done]. simpl in Hb.
  assert (gc_columns c = columns) as Hcol by (by injection Hb as <-). rewrite Hcol.
  destruct (columns_of_cells u (gc_cells c) columns Hm Hnd Hc) as [Hndc Hiff]. split; [|done].
  unfold candidate_ok, to_exact_cover_candidate. simpl. rewrite Hcol. split_and!; [|done|].
  - intros ->. apply He. by apply Forall2_nil_inv_r in Hc.
  - intros k (x & Hx & _)%Hiff. by apply lookup_lt_Some in Hx.
Qed.

Lemma generic_problem u cands schema :
  problem_schema_from_candidates u cands [] [mkAreaColumn "cell-universe-area" (universe_column_count u)] = Ok schema ->
  to_problem schema = problem_from_candidates u cands.
Proof.
  unfold problem_schema_from_candidates, ExactCoverProblemSchema_new. intros H.
  destruct (validate_schema _ _ _ _ _ _) as [[]|]; [|done]. injection H as <-.
  unfold to_problem, problem_from_candidates, required_cell_columns. cbn [schema_required schema_optional schema_rows].
  rewrite length_imap. unfold with_optional_columns, ExactCoverProblem_new, universe_column_count. f_equal.
  rewrite <- list_fmap_compose. apply list_fmap_ext. intros i c _. simpl. unfold to_exact_cover_candidate. by rewrite app_nil_r.
Qed.

Lemma generic_schema_Ok u cands :
  universe_cells u <> [] -> cands <> [] -> Forall (fun c => candidate_ok (length (universe_cells u)) (to_exact_cover_candidate c)) cands ->
  exists schema, problem_schema_from_candidates u cands [] [mkAreaColumn "cell-universe-area" (universe_column_count u)] = Ok schema.
Proof.
  intros Hu Hc Hok. unfold problem_schema_from_candidates, ExactCoverProblemSchema_new, validate_schema.
  rewrite bool_decide_eq_false_2 by done. rewrite bool_decide_eq_false_2; cycle 1.
  { intros H%(f_equal length). unfold required_cell_columns in H. rewrite length_imap in H. by destruct (universe_cells u). }
  rewrite bool_decide_eq_false_2 by (by destruct cands). cbn [first_error rbind component_area area_label].
  rewrite (proj2 (Nat.eqb_neq _ _)) by (unfold universe_column_count; by destruct (universe_cells u)). cbn [rbind].
  rewrite (proj2 (first_error_Ok _ _)); [by eexists|]. intros row (c & -> & Hin)%list_elem_of_fmap.
  apply validate_candidate_row_Ok. simpl. rewrite Forall_forall in Hok. destruct (Hok c Hin) as (Hne & _ & Hr). simpl in *.
  unfold required_cell_columns. rewrite length_imap. split_and!; [done|done|by intros c' ?%elem_of_nil].
Qed.

(** [GenericExactCoverBridge::enumerate_tilings] rejects a shape exactly
    when no selection of the available piece areas adds up to its size, and
    otherwise, for candidates built over distinct cells of the universe,
    enumerates the selections whose cells partition the universe. *)
Theorem generic_tilings_correct (cells : list nat) (u : CellUniverse) (cands : list GenericExactCoverCandidate)
    (areas : list nat) (limits : DlxSearchLimits)
    (Hu : CellUniverse_new cells = Ok u) (Hcands : Forall (built u) cands) (Hne : cands <> [])
    (Hareas : areas <> [] /\ 0%nat ∉ areas) (Hms : (0 < max_solutions limits)%Z) (Hmn : (0 < max_nodes limits)%Z) :
  ((forall sub, sub `sublist_of` areas -> sum_list sub <> length cells) ->
     GenericExactCoverBridge_enumerate_tilings u cands areas limits = Err (AreaInfeasibleShape (length cells) areas)) /\
  ((exists sub, sub `sublist_of` areas /\ sum_list sub = length cells) ->
     exists report, GenericExactCoverBridge_enumerate_tilings u cands areas limits = Ok (Some report) /\
       report_enumerates (problem_from_candidates u cands) limits
         (exact_tiling (length cands) cells (fun i x => exists c, cands !! i = Some c /\ x ∈ gc_cells c)) report).
Proof.
  pose proof (universe_new_spec cells) as Hspec. rewrite Hu in Hspec. destruct Hspec as (Hc & Hcells & Hnd & Hm).
  assert (length cells <> 0)%nat as Hlen by (by destruct cells). destruct Hareas as [Ha0 Ha1].
  unfold GenericExactCoverBridge_enumerate_tilings, PieceAreaConstraint_new, universe_column_count. rewrite Hc.
  rewrite (proj2 (Nat.eqb_neq _ _)), !bool_decide_eq_false_2 by done. cbn [rmap_err rbind].
  unfold can_fill_target. cbn [target_area available_piece_areas]. pose proof (subset_sum_spec (length cells) areas) as Hsum. split.
  - intros Hno. destruct (bounded_area_subset_sum (length cells) areas); [|done].
    destruct (proj1 Hsum eq_refl) as (sub & Hs & Ht). by destruct (Hno sub Hs).
  - intros Hyes. rewrite (proj2 Hsum Hyes). cbn [negb]. rewrite <- Hc in Hm.
    assert (Forall (fun c => candidate_ok (length (universe_cells u)) (to_exact_cover_candidate c)) cands) as Hok.
    { eapply Forall_impl; [exact Hcands|]. intros c Hb. by apply built_columns. }
    destruct (generic_schema_Ok u cands) as (schema & Hschema); [by rewrite Hc|done|done|].
    unfold universe_column_count in Hschema. rewrite Hc in Hschema. rewrite Hschema. cbn [rbind].
    rewrite (generic_problem u cands schema) by (unfold universe_column_count; by rewrite Hc).
    destruct (dlx_enumeration (problem_from_candidates u cands) limits) as (report & -> & Henum); [|done|done|].
    + unfold column_count, problem_from_candidates. simpl. rewrite Nat.add_0_r. by apply Forall_fmap.
    + exists report. split; [done|]. eapply report_enumerates_iff; [|exact Henum]. intros ext.
      unfold problem_from_candidates, universe_column_count. rewrite Hc.
      rewrite (exact_cover_tiling cells _ (fun i x => exists c, cands !! i = Some c /\ x ∈ gc_cells c));
        [by rewrite length_fmap|by apply Forall_fmap; rewrite <- Hc|].
      intros i k Hi. rewrite length_fmap in Hi. destruct (lookup_lt_is_Some_2 cands i Hi) as [c Hci].
      unfold candidate_at. cbn [candidates ExactCoverProblem_new]. rewrite list_lookup_fmap, Hci. simpl.
      pose proof (Forall_lookup_1 _ _ _ _ Hcands Hci) as Hb. destruct (built_columns u c Hm Hb) as [_ Hiff].
      rewrite Hiff, Hc. naive_solver.
Qed.

Definition sample_universe : CellUniverse := mkCellUniverse [4; 9]%nat (<[9 := 1]> (<[4 := 0]> ∅))%nat.

Lemma generic_tilings_correct_witness :
  exists report, GenericExactCoverBridge_enumerate_tilings sample_universe
      [mkGeneric 7 "A" 1 [9] [1]; mkGeneric 8 "B" 1 [4] [0]]%nat [1; 1; 3]%nat (mkLimits 8 128) = Ok (Some report) /\
    solutions report = [[8; 7]]%nat.
Proof.
  destruct (generic_tilings_correct [4; 9]%nat sample_universe [mkGeneric 7 "A" 1 [9] [1]; mkGeneric 8 "B" 1 [4] [0]]%nat
    [1; 1; 3]%nat (mkLimits 8 128)) as [_ H].
  - reflexivity.
  - repeat apply Forall_cons_2; try apply Forall_nil_2; (split; [apply NoDup_singleton|reflexivity]).
  - done.
  - split; [done|]. decided.
  - simpl. lia.
  - simpl. lia.
  - destruct H as (report & Hr & _); [by exists [1; 1]%nat; split; [repeat constructor|]|].
    exists report. split; [exact Hr|]. vm_compute in Hr. by injection Hr as <-.
Defined.
