(* ===== verification/AllocationLedger.v ===== *)
(** * The finite allocation ledger

    [clearra-supply], [finite_allocation.rs]: the byte budget that governs the
    buffers of the supply materializer.  A transaction works on its own copy
    of the counters and writes them back on [commit]; dropping it without a
    commit leaves the ledger as it was.

    The allocator is a parameter: [reserve size capacity] is the capacity a
    vector of elements of [size] bytes has after [try_reserve_exact(capacity)],
    or [None] when the allocation fails.  Of it the development assumes only
    what the standard library documents, that a successful call gives at least
    the requested capacity. *)

From Stdlib Require Import ZArith Lia.
From stdpp Require Import prelude.
From S2P Require Import Prelude Words.

Inductive FiniteSupplyAllocationError :=
| ProjectionOverflow
| AccountingUnderflow
| MemoryCapacityExceeded (required_memory_bytes max_memory_bytes : Z)
| AllocationFailed (requested_capacity_bytes : Z).

Record FiniteSupplyAllocationLedger := mkLedger {
  max_memory_bytes : Z;
  live_memory_bytes : Z;
  peak_memory_bytes : Z
}.

Definition ensure_within_limit (required max : Z) : Result FiniteSupplyAllocationError unit :=
  if (max <? required)%Z then Err (MemoryCapacityExceeded required max) else Ok tt.

Definition FiniteSupplyAllocationLedger_try_new (max live : Z) : Result FiniteSupplyAllocationError FiniteSupplyAllocationLedger :=
  ensure_within_limit live max ;? Ok (mkLedger max live live).

Record FiniteSupplyAllocationTransaction := mkTransaction {
  tx_ledger : FiniteSupplyAllocationLedger;
  tx_live : Z;
  tx_peak : Z
}.

Definition ledger_transaction (l : FiniteSupplyAllocationLedger) : FiniteSupplyAllocationTransaction :=
  mkTransaction l (live_memory_bytes l) (peak_memory_bytes l).

Definition tx_commit (t : FiniteSupplyAllocationTransaction) : FiniteSupplyAllocationLedger :=
  mkLedger (max_memory_bytes (tx_ledger t)) (tx_live t) (tx_peak t).

(** Dropping the transaction: the borrowed ledger was never written. *)
Definition tx_drop (t : FiniteSupplyAllocationTransaction) : FiniteSupplyAllocationLedger := tx_ledger t.

Definition authorize_additional_bytes (t : FiniteSupplyAllocationTransaction) (additional : Z)
  : Result FiniteSupplyAllocationError unit :=
  let? required := ok_or (checked_add 128 (tx_live t) additional) ProjectionOverflow in
  ensure_within_limit required (max_memory_bytes (tx_ledger t)).

Definition commit_actual_allocation (t : FiniteSupplyAllocationTransaction) (actual : Z)
  : Result FiniteSupplyAllocationError FiniteSupplyAllocationTransaction :=
  let? required := ok_or (checked_add 128 (tx_live t) actual) ProjectionOverflow in
  ensure_within_limit required (max_memory_bytes (tx_ledger t)) ;?
  Ok (mkTransaction (tx_ledger t) required (Z.max (tx_peak t) required)).

Definition checked_capacity_bytes (size capacity : Z) : Result FiniteSupplyAllocationError Z :=
  ok_or (checked_mul 128 capacity size) ProjectionOverflow.

(** [&mut self]: an error leaves the transaction as it was. *)
Definition release_retained_bytes (t : FiniteSupplyAllocationTransaction) (retained : Z)
  : FiniteSupplyAllocationTransaction * Result FiniteSupplyAllocationError unit :=
  match checked_sub (tx_live t) retained with
  | Some live => (mkTransaction (tx_ledger t) live (tx_peak t), Ok tt)
  | None => (t, Err AccountingUnderflow)
  end.

Section Allocator.
Variable reserve : Z -> Z -> option Z.

(** The result is the capacity of the vector that is returned; when an error
    follows the allocation the vector is dropped. *)
Definition try_vec_with_capacity (size capacity : Z) (t : FiniteSupplyAllocationTransaction)
  : FiniteSupplyAllocationTransaction * Result FiniteSupplyAllocationError Z :=
  let allocate :=
    let? requested := checked_capacity_bytes size capacity in
    authorize_additional_bytes t requested ;?
    let? actual_capacity := ok_or (reserve size capacity) (AllocationFailed requested) in
    let? actual := checked_capacity_bytes size actual_capacity in
    let? t' := commit_actual_allocation t actual in
    Ok (t', actual_capacity) in
  match allocate with
  | Ok (t', capacity) => (t', Ok capacity)
  | Err e => (t, Err e)
  end.

Definition try_string_with_capacity (capacity : Z) (t : FiniteSupplyAllocationTransaction)
  : FiniteSupplyAllocationTransaction * Result FiniteSupplyAllocationError Z :=
  let allocate :=
    authorize_additional_bytes t capacity ;?
    let? actual_capacity := ok_or (reserve 1 capacity) (AllocationFailed capacity) in
    let? t' := commit_actual_allocation t actual_capacity in
    Ok (t', actual_capacity) in
  match allocate with
  | Ok (t', capacity) => (t', Ok capacity)
  | Err e => (t, Err e)
  end.

(** A client's use of a transaction: a sequence of allocations and releases. *)
Inductive LedgerOp :=
| AllocVec (size capacity : Z)
| AllocString (capacity : Z)
| Release (retained : Z).

(** One operation, with the change of live bytes it reports to the client: the
    bytes of the buffer it returned, or minus the bytes released. *)
Definition run_op (op : LedgerOp) (t : FiniteSupplyAllocationTransaction) : FiniteSupplyAllocationTransaction * Z :=
  match op with
  | AllocVec size capacity =>
      let '(t', r) := try_vec_with_capacity size capacity t in
      (t', match r with Ok actual => actual * size | Err _ => 0 end)
  | AllocString capacity =>
      let '(t', r) := try_string_with_capacity capacity t in
      (t', match r with Ok actual => actual | Err _ => 0 end)
  | Release retained =>
      let '(t', r) := release_retained_bytes t retained in
      (t', match r with Ok _ => - retained | Err _ => 0 end)
  end.

Fixpoint run_ops (ops : list LedgerOp) (t : FiniteSupplyAllocationTransaction) : FiniteSupplyAllocationTransaction * list Z :=
  match ops with
  | [] => (t, [])
  | op :: ops =>
      let '(t, d) := run_op op t in
      let '(t, ds) := run_ops ops t in
      (t, d :: ds)
  end.

(** ** Accounting *)

Definition op_ok (op : LedgerOp) : Prop :=
  match op with
  | AllocVec size capacity => 0 <= size /\ 0 <= capacity
  | AllocString capacity => 0 <= capacity
  | Release retained => 0 <= retained
  end.

Definition counters_ok (max live peak : Z) : Prop := 0 <= live <= peak /\ peak <= max /\ max < 2 ^ 128.

Definition ledger_ok (l : FiniteSupplyAllocationLedger) : Prop :=
  counters_ok (max_memory_bytes l) (live_memory_bytes l) (peak_memory_bytes l).

Definition tx_ok (t : FiniteSupplyAllocationTransaction) : Prop :=
  counters_ok (max_memory_bytes (tx_ledger t)) (tx_live t) (tx_peak t).

Hypothesis reserve_ge : forall size capacity actual, reserve size capacity = Some actual -> capacity <= actual.

Lemma authorize_Ok t additional :
  authorize_additional_bytes t additional = Ok tt <->
  tx_live t + additional < 2 ^ 128 /\ tx_live t + additional <= max_memory_bytes (tx_ledger t).
Proof.
  unfold authorize_additional_bytes, ensure_within_limit, checked_add.
  destruct (Z.ltb_spec (tx_live t + additional) (2 ^ 128)); simpl; [|intuition (discriminate || lia)].
  destruct (Z.ltb_spec (max_memory_bytes (tx_ledger t)) (tx_live t + additional)); intuition (discriminate || lia).
Qed.

Lemma commit_actual_Ok t actual t' :
  commit_actual_allocation t actual = Ok t' <->
  tx_live t + actual < 2 ^ 128 /\ tx_live t + actual <= max_memory_bytes (tx_ledger t) /\
  t' = mkTransaction (tx_ledger t) (tx_live t + actual) (Z.max (tx_peak t) (tx_live t + actual)).
Proof.
  unfold commit_actual_allocation, ensure_within_limit, checked_add.
  destruct (Z.ltb_spec (tx_live t + actual) (2 ^ 128)); simpl; [|intuition (discriminate || lia)].
  destruct (Z.ltb_spec (max_memory_bytes (tx_ledger t)) (tx_live t + actual)); simpl; [intuition (discriminate || lia)|].
  split; [intros [= <-]; done|]. by intros (_ & _ & ->).
Qed.

(** The effect of one operation: what it reports is what the live count moved
    by, the peak follows, the ledger behind the transaction does not move. *)
Lemma run_op_spec op t :
  tx_ok t -> op_ok op ->
  let '(t', d) := run_op op t in
  tx_ok t' /\ tx_ledger t' = tx_ledger t /\ tx_live t' = tx_live t + d /\ tx_peak t' = Z.max (tx_peak t) (tx_live t').
Proof.
  unfold tx_ok, counters_ok. intros Ht Hop.
  assert (forall t' d, (t' = t /\ d = 0) \/ (exists actual, 0 <= actual /\ d = actual /\ commit_actual_allocation t actual = Ok t') ->
    counters_ok (max_memory_bytes (tx_ledger t')) (tx_live t') (tx_peak t') /\ tx_ledger t' = tx_ledger t /\
    tx_live t' = tx_live t + d /\ tx_peak t' = Z.max (tx_peak t) (tx_live t')) as Halloc.
  { unfold counters_ok. intros t' d [[-> ->]|(actual & Hpos & -> & (? & ? & ->)%commit_actual_Ok)]; simpl; [split_and!; lia || done|].
    split_and!; lia || done. }
  destruct op as [size capacity|capacity|retained]; simpl in *.
  - unfold try_vec_with_capacity. destruct Hop as [Hsize Hcap]. unfold checked_capacity_bytes, checked_mul.
    destruct (Z.ltb_spec (capacity * size) (2 ^ 128)); simpl; [|apply Halloc; by left].
    destruct (authorize_additional_bytes t (capacity * size)) as [[]|e]; simpl; [|apply Halloc; by left].
    destruct (reserve size capacity) as [actual|] eqn:Er; simpl; [|apply Halloc; by left].
    apply reserve_ge in Er. destruct (Z.ltb_spec (actual * size) (2 ^ 128)); simpl; [|apply Halloc; by left].
    destruct (commit_actual_allocation t (actual * size)) as [t'|e] eqn:Ec; simpl; [|apply Halloc; by left].
    apply Halloc. right. exists (actual * size). split; [nia|]. done.
  - unfold try_string_with_capacity.
    destruct (authorize_additional_bytes t capacity) as [[]|e]; simpl; [|apply Halloc; by left].
    destruct (reserve 1 capacity) as [actual|] eqn:Er; simpl; [|apply Halloc; by left]. apply reserve_ge in Er.
    destruct (commit_actual_allocation t actual) as [t'|e] eqn:Ec; simpl; [|apply Halloc; by left].
    apply Halloc. right. exists actual. split; [lia|]. done.
  - unfold release_retained_bytes, checked_sub. destruct (Z.leb_spec retained (tx_live t)); simpl; split_and!; lia || done.
Qed.

(** The live counts a sequence of changes passes through. *)
Fixpoint running (live : Z) (ds : list Z) : list Z :=
  match ds with
  | [] => []
  | d :: ds => (live + d) :: running (live + d) ds
  end.

Lemma run_ops_spec ops t :
  tx_ok t -> Forall op_ok ops ->
  let '(t', ds) := run_ops ops t in
  tx_ok t' /\ tx_ledger t' = tx_ledger t /\ length ds = length ops /\
  tx_live t' = foldl Z.add (tx_live t) ds /\ tx_peak t' = foldl Z.max (tx_peak t) (running (tx_live t) ds).
Proof.
  intros Ht Hops. revert t Ht. induction Hops as [|op ops Hop _ IH]; intros t Ht; simpl; [done|].
  pose proof (run_op_spec op t Ht Hop) as H. destruct (run_op op t) as [t1 d]. destruct H as (Ht1 & Hl1 & Hlive & Hpeak).
  specialize (IH t1 Ht1). destruct (run_ops ops t1) as [t2 ds]. destruct IH as (Ht2 & Hl2 & Hlen & Hlive2 & Hpeak2).
  simpl. split; [done|]. split; [congruence|]. split; [by f_equal|]. rewrite <- Hlive, <- Hpeak. done.
Qed.

(** Whatever allocations and releases a transaction performs, and however
    each of them ends, the counters stay inside the budget
    ([live <= peak <= max]); on [commit] the live count is the old one plus
    the bytes of the buffers handed out minus the bytes released, and the peak
    is the largest count passed through; a dropped transaction leaves the
    ledger untouched. *)
Theorem ledger_accounting (l : FiniteSupplyAllocationLedger) (ops : list LedgerOp)
    (Hl : ledger_ok l) (Hops : Forall op_ok ops) :
  let '(t, ds) := run_ops ops (ledger_transaction l) in
  tx_drop t = l /\ ledger_ok (tx_commit t) /\ max_memory_bytes (tx_commit t) = max_memory_bytes l /\
  live_memory_bytes (tx_commit t) = foldl Z.add (live_memory_bytes l) ds /\
  peak_memory_bytes (tx_commit t) = foldl Z.max (peak_memory_bytes l) (running (live_memory_bytes l) ds).
Proof.
  pose proof (run_ops_spec ops (ledger_transaction l) Hl Hops) as H.
  destruct (run_ops ops (ledger_transaction l)) as [t ds]. destruct H as (Ht & Hled & _ & Hlive & Hpeak). simpl in *.
  unfold tx_drop, tx_commit, ledger_ok. simpl. split_and!; try done; try apply Ht. by rewrite Hled.
Qed.

(** [try_vec_with_capacity] hands out a buffer exactly when both the
    requested and the actual payload fit under the limit and neither byte
    count overflows [u128]; the error names the first check that failed, and
    on an error the transaction is unchanged. *)
Theorem try_vec_decides (t : FiniteSupplyAllocationTransaction) (size capacity : Z)
    (Ht : tx_ok t) (Hs : 0 <= size) (Hc : 0 <= capacity) :
  let '(t', r) := try_vec_with_capacity size capacity t in
  let room := max_memory_bytes (tx_ledger t) - tx_live t in
  match r with
  | Ok actual => reserve size capacity = Some actual /\ capacity <= actual /\ actual * size <= room
  | Err e => t' = t /\
      match e with
      | ProjectionOverflow => 2 ^ 128 <= tx_live t + capacity * size \/
          exists actual, reserve size capacity = Some actual /\ 2 ^ 128 <= tx_live t + actual * size
      | MemoryCapacityExceeded required max => max = max_memory_bytes (tx_ledger t) /\ max < required /\
          (required = tx_live t + capacity * size \/
           exists actual, reserve size capacity = Some actual /\ required = tx_live t + actual * size)
      | AllocationFailed requested => requested = capacity * size /\ requested <= room /\ reserve size capacity = None
      | AccountingUnderflow => False
      end
  end.
Proof.
  destruct Ht as [Hlive _]. unfold try_vec_with_capacity, checked_capacity_bytes, checked_mul.
  destruct (Z.ltb_spec (capacity * size) (2 ^ 128)); simpl; [|split; [done|]; left; lia].
  unfold authorize_additional_bytes, commit_actual_allocation, ensure_within_limit, checked_add.
  destruct (Z.ltb_spec (tx_live t + capacity * size) (2 ^ 128)); simpl; [|split; [done|]; by left].
  destruct (Z.ltb_spec (max_memory_bytes (tx_ledger t)) (tx_live t + capacity * size)); simpl; [by split_and!; auto|].
  destruct (reserve size capacity) as [actual|] eqn:Er; simpl; [|split_and!; done || lia].
  pose proof (reserve_ge _ _ _ Er). destruct (Z.ltb_spec (actual * size) (2 ^ 128)); simpl; [|split; [done|]; right; exists actual; split; [done|lia]].
  destruct (Z.ltb_spec (tx_live t + actual * size) (2 ^ 128)); simpl; [|split; [done|]; right; by exists actual].
  destruct (Z.ltb_spec (max_memory_bytes (tx_ledger t)) (tx_live t + actual * size)); simpl; split_and!; try done; try lia.
  right. by exists actual.
Qed.
End Allocator.

(** An allocator that rounds the capacity up to a multiple of four and fails
    past a thousand elements. *)
Definition rounding_reserve (size capacity : Z) : option Z :=
  if 1000 <? capacity then None else Some (4 * ((capacity + 3) / 4)).

Lemma rounding_reserve_ge size capacity actual : rounding_reserve size capacity = Some actual -> capacity <= actual.
Proof.
  unfold rounding_reserve. destruct (1000 <? capacity); [done|]. intros [= <-].
  pose proof (Z.div_mod (capacity + 3) 4 ltac:(lia)). pose proof (Z.mod_pos_bound (capacity + 3) 4 ltac:(lia)). lia.
Qed.

Lemma ledger_accounting_witness :
  ledger_ok (tx_commit (run_ops rounding_reserve [AllocVec 4 5; Release 3; AllocString 2000] (ledger_transaction (mkLedger 64 7 7))).1).
Proof.
  pose proof (ledger_accounting rounding_reserve rounding_reserve_ge (mkLedger 64 7 7) [AllocVec 4 5; Release 3; AllocString 2000]) as H.
  destruct (run_ops _ _ _) as [t ds]. apply H.
  - unfold ledger_ok, counters_ok. simpl. lia.
  - repeat apply Forall_cons_2; try apply Forall_nil_2; simpl; lia.
Defined.

Lemma try_vec_decides_witness :
  (try_vec_with_capacity rounding_reserve 4 5 (ledger_transaction (mkLedger 64 7 7))).2 = Ok 8 /\ 8 * 4 <= 64 - 7.
Proof.
  pose proof (try_vec_decides rounding_reserve rounding_reserve_ge (ledger_transaction (mkLedger 64 7 7)) 4 5) as H.
  destruct (try_vec_with_capacity rounding_reserve 4 5 (ledger_transaction (mkLedger 64 7 7))) as [t' r] eqn:E.
  vm_compute in E. injection E as <- <-. split; [reflexivity|]. apply H; [unfold tx_ok, counters_ok; simpl; lia|lia|lia].
Defined.
