(* ===== verification/LeaseAuthority.v ===== *)
(** * The shared resource lease authority

    [clearra-core-domain], [resource/shared_resource_lease.rs] and the
    availability evidence it reports ([resource/execution_availability.rs]):
    an authority owns a capacity of compute units and memory; leases are
    acquired from it or, as children, from another lease, and come back by
    [release] or by [drop].  A dropped parent with live children stays as a
    tombstone ([release_pending]) until the last child returns.

    Every method takes the authority's mutex for its whole body, so threads
    that share the authority produce a sequence of the operations below.  A
    method returns the new state beside its result, also when the result is an
    error; [expect] and the subtractions that Rust checks in debug builds are
    modelled as panics.  The loop of [release_ready_allocation] runs on fuel. *)

From Stdlib Require Import ZArith Lia.
From stdpp Require Import prelude gmap.
From S2P Require Import Prelude Words.

Local Open Scope Z_scope.

(** ** Availability evidence *)

Inductive ExecutionAvailabilityState := Available | Unavailable | Deferred | Exhausted | Cancelled | Incomplete.

Inductive ExecutionAvailabilityReason :=
| NotExecuted | CapabilityUnavailable | PatternCountAddressSpaceExceeded | DensePatternRepresentationUnavailable
| ComputeBudgetExceeded | MemoryBudgetExceeded | SharedResourceContention | CancelledByCaller | PartialExecution.

Record ExecutionAvailability := mkAvailability {
  availability_state : ExecutionAvailabilityState;
  availability_reason : option ExecutionAvailabilityReason;
  descriptor_pattern_count : option Z;
  dense_pattern_count : option Z;
  required_dense_bytes : option Z;
  required_memory_bytes : option Z
}.

Definition non_available (state : ExecutionAvailabilityState) (reason : ExecutionAvailabilityReason) : ExecutionAvailability :=
  mkAvailability state (Some reason) None None None None.

Definition unavailable (reason : ExecutionAvailabilityReason) : ExecutionAvailability := non_available Unavailable reason.
Definition deferred (reason : ExecutionAvailabilityReason) : ExecutionAvailability := non_available Deferred reason.
Definition exhausted (reason : ExecutionAvailabilityReason) : ExecutionAvailability := non_available Exhausted reason.

(** ** Leases *)

Definition ResourceLeaseOwnerId_new (value : Z) : option Z := if value =? 0 then None else Some value.

Record ResourceLeaseCapacity := mkCapacity { cap_compute_units : Z; cap_memory_bytes : Z }.

Record ResourceLeaseRequest := mkRequest { compute_units : Z; memory_bytes : Z }.

#[export] Instance ResourceLeaseRequest_eq_dec : EqDecision ResourceLeaseRequest.
Proof. solve_decision. Defined.

Definition ResourceLeaseRequest_new (compute memory : Z) : option ResourceLeaseRequest :=
  if compute =? 0 then None else Some (mkRequest compute memory).

Definition fits (r : ResourceLeaseRequest) (c : ResourceLeaseCapacity) : bool :=
  (compute_units r <=? cap_compute_units c) && (memory_bytes r <=? cap_memory_bytes c).

Record ResourceLeaseToken := mkToken {
  token_authority_id : Z;
  epoch : Z;
  owner : Z;
  parent_epoch : option Z;
  grant : ResourceLeaseRequest
}.

#[export] Instance ResourceLeaseToken_eq_dec : EqDecision ResourceLeaseToken.
Proof. solve_decision. Defined.

Record ResourceLeaseAcquireError := mkAcquireError {
  error_availability : ExecutionAvailability;
  error_requested : ResourceLeaseRequest;
  error_available : ResourceLeaseCapacity
}.

Inductive ResourceLeaseReleaseError :=
| AuthorityMismatch | OwnerMismatch | StaleEpoch | AlreadyReleased | ChildrenActive | AccountingInvariantViolated.

Record Allocation := mkAllocation {
  token : ResourceLeaseToken;
  remaining : ResourceLeaseRequest;
  child_count : Z;
  release_pending : bool
}.

Record AuthorityState := mkAuthority {
  authority_id : Z;
  capacity : ResourceLeaseCapacity;
  used : ResourceLeaseRequest;
  next_epoch : Z;
  allocations : gmap Z Allocation
}.

Definition with_identity_and_epoch (c : ResourceLeaseCapacity) (id next : Z) : AuthorityState :=
  mkAuthority id c (mkRequest 0 0) next ∅.

(** [SharedResourceLeaseAuthority::new], given the identity drawn from the
    global counter. *)
Definition SharedResourceLeaseAuthority_new (c : ResourceLeaseCapacity) (id : Z) : AuthorityState :=
  with_identity_and_epoch c id 0.

Definition acquire_error (requested : ResourceLeaseRequest) (available : ResourceLeaseCapacity)
    (availability : ExecutionAvailability) : ResourceLeaseAcquireError := mkAcquireError availability requested available.

Definition exceeded_reason (r : ResourceLeaseRequest) (c : ResourceLeaseCapacity) : ExecutionAvailabilityReason :=
  if cap_compute_units c <? compute_units r then ComputeBudgetExceeded else MemoryBudgetExceeded.

Definition zero_capacity : ResourceLeaseCapacity := mkCapacity 0 0.

Definition authority_available (s : AuthorityState) : Result Panic ResourceLeaseCapacity :=
  let? c := expect_some (checked_sub (cap_compute_units (capacity s)) (compute_units (used s))) in
  let? m := expect_some (checked_sub (cap_memory_bytes (capacity s)) (memory_bytes (used s))) in
  Ok (mkCapacity c m).

(** [next_epoch]: the state and the epoch, or why there is none. *)
Definition take_epoch (s : AuthorityState) : Result ExecutionAvailability (AuthorityState * Z) :=
  match checked_add 64 (next_epoch s) 1 with
  | Some e => Ok (mkAuthority (authority_id s) (capacity s) (used s) e (allocations s), e)
  | None => Err (unavailable CapabilityUnavailable)
  end.

Definition set_allocations (m : gmap Z Allocation) (s : AuthorityState) : AuthorityState :=
  mkAuthority (authority_id s) (capacity s) (used s) (next_epoch s) m.

Definition set_used (u : ResourceLeaseRequest) (s : AuthorityState) : AuthorityState :=
  mkAuthority (authority_id s) (capacity s) u (next_epoch s) (allocations s).

(** The new entry both acquire paths end with. *)
Definition insert_lease (s : AuthorityState) (e own : Z) (parent : option Z) (r : ResourceLeaseRequest)
  : AuthorityState * ResourceLeaseToken :=
  let t := mkToken (authority_id s) e own parent r in
  (set_allocations (<[e := mkAllocation t r 0 false]> (allocations s)) s, t).

Definition try_acquire (s : AuthorityState) (own : Z) (r : ResourceLeaseRequest)
  : Result Panic (AuthorityState * Result ResourceLeaseAcquireError ResourceLeaseToken) :=
  let? available := authority_available s in
  if negb (fits r (capacity s))
  then Ok (s, Err (acquire_error r available (exhausted (exceeded_reason r (capacity s)))))
  else if negb (fits r available)
  then Ok (s, Err (acquire_error r available (deferred SharedResourceContention)))
  else
    match take_epoch s with
    | Err availability => Ok (s, Err (acquire_error r available availability))
    | Ok (s, e) =>
        let? c := expect_some (checked_add 32 (compute_units (used s)) (compute_units r)) in
        let? m := expect_some (checked_add 64 (memory_bytes (used s)) (memory_bytes r)) in
        let '(s, t) := insert_lease (set_used (mkRequest c m) s) e own None r in
        Ok (s, Ok t)
    end.

Definition try_acquire_child (s : AuthorityState) (parent : ResourceLeaseToken) (own : Z) (r : ResourceLeaseRequest)
  : Result Panic (AuthorityState * Result ResourceLeaseAcquireError ResourceLeaseToken) :=
  let gone := Ok (s, Err (acquire_error r zero_capacity (unavailable CapabilityUnavailable))) in
  if negb (token_authority_id parent =? authority_id s) then gone
  else
    match allocations s !! epoch parent with
    | None => gone
    | Some a =>
        if negb (bool_decide (token a = parent)) then gone
        else
          let parent_capacity := mkCapacity (compute_units (grant parent)) (memory_bytes (grant parent)) in
          let remaining_capacity := mkCapacity (compute_units (remaining a)) (memory_bytes (remaining a)) in
          if negb (fits r parent_capacity)
          then Ok (s, Err (acquire_error r remaining_capacity (exhausted (exceeded_reason r parent_capacity))))
          else if negb (fits r remaining_capacity)
          then Ok (s, Err (acquire_error r remaining_capacity (deferred SharedResourceContention)))
          else
            match take_epoch s with
            | Err availability => Ok (s, Err (acquire_error r remaining_capacity availability))
            | Ok (s, e) =>
                let? c := expect_some (checked_sub (compute_units (remaining a)) (compute_units r)) in
                let? m := expect_some (checked_sub (memory_bytes (remaining a)) (memory_bytes r)) in
                let? n := expect_some (checked_add 32 (child_count a) 1) in
                let a := mkAllocation (token a) (mkRequest c m) n (release_pending a) in
                let '(s, t) := insert_lease (set_allocations (<[epoch parent := a]> (allocations s)) s) e own (Some (epoch parent)) r in
                Ok (s, Ok t)
            end
    end.

Definition validate_release (s : AuthorityState) (t : ResourceLeaseToken) (releasing_owner : Z)
  : Result ResourceLeaseReleaseError Allocation :=
  if negb (token_authority_id t =? authority_id s) then Err AuthorityMismatch
  else if negb (owner t =? releasing_owner) then Err OwnerMismatch
  else
    match allocations s !! epoch t with
    | None => Err StaleEpoch
    | Some a => if bool_decide (token a = t) then Ok a else Err StaleEpoch
    end.

(** No child is live and the whole grant is back. *)
Definition is_ready (a : Allocation) : bool := (child_count a =? 0) && bool_decide (remaining a = grant (token a)).

(** One turn of the loop for a lease with a parent: the parent after the
    child's grant has come back. *)
Definition returned_to_parent (parent : Allocation) (r : ResourceLeaseRequest) : Result ResourceLeaseReleaseError Allocation :=
  let? c := ok_or (checked_add 32 (compute_units (remaining parent)) (compute_units r)) AccountingInvariantViolated in
  let? m := ok_or (checked_add 64 (memory_bytes (remaining parent)) (memory_bytes r)) AccountingInvariantViolated in
  let? n := ok_or (checked_sub (child_count parent) 1) AccountingInvariantViolated in
  if (compute_units (grant (token parent)) <? c) || (memory_bytes (grant (token parent)) <? m)
  then Err AccountingInvariantViolated
  else Ok (mkAllocation (token parent) (mkRequest c m) n (release_pending parent)).

(** [None] is the end of the fuel. *)
Fixpoint release_ready_allocation (fuel : nat) (s : AuthorityState) (e : Z)
  : option (Result Panic (AuthorityState * Result ResourceLeaseReleaseError unit)) :=
  match fuel with
  | O => None
  | S fuel =>
      match allocations s !! e with
      | None => Some (Ok (s, Err StaleEpoch))
      | Some a =>
          if negb (is_ready a) then Some (Ok (s, Err ChildrenActive))
          else
            match parent_epoch (token a) with
            | None =>
                match checked_sub (compute_units (used s)) (compute_units (grant (token a))),
                      checked_sub (memory_bytes (used s)) (memory_bytes (grant (token a))) with
                | Some c, Some m => Some (Ok (set_used (mkRequest c m) (set_allocations (delete e (allocations s)) s), Ok tt))
                | _, _ => Some (Ok (s, Err AccountingInvariantViolated))
                end
            | Some p =>
                match allocations s !! p with
                | None => Some (Ok (s, Err AccountingInvariantViolated))
                | Some parent =>
                    match returned_to_parent parent (grant (token a)) with
                    | Err err => Some (Ok (s, Err err))
                    | Ok parent' =>
                        let m := delete e (allocations s) in
                        match m !! p with
                        | None => Some (Err Panicked)
                        | Some _ =>
                            let s := set_allocations (<[p := parent']> m) s in
                            if release_pending parent' && is_ready parent'
                            then release_ready_allocation fuel s p
                            else Some (Ok (s, Ok tt))
                        end
                    end
                end
            end
      end
  end.

(** The loop with enough fuel: each turn that continues removes an entry. *)
Definition release_loop (s : AuthorityState) (e : Z) := release_ready_allocation (S (size (allocations s))) s e.

Definition release_token (s : AuthorityState) (t : ResourceLeaseToken) (releasing_owner : Z)
  : option (Result Panic (AuthorityState * Result ResourceLeaseReleaseError unit)) :=
  match validate_release s t releasing_owner with
  | Err e => Some (Ok (s, Err e))
  | Ok a => if is_ready a then release_loop s (epoch t) else Some (Ok (s, Err ChildrenActive))
  end.

Definition abandon_token (s : AuthorityState) (t : ResourceLeaseToken) (releasing_owner : Z)
  : option (Result Panic (AuthorityState * Result ResourceLeaseReleaseError unit)) :=
  match validate_release s t releasing_owner with
  | Err e => Some (Ok (s, Err e))
  | Ok a =>
      if is_ready a then release_loop s (epoch t)
      else Some (Ok (set_allocations (<[epoch t := mkAllocation (token a) (remaining a) (child_count a) true]> (allocations s)) s, Ok tt))
  end.

(** ** Handles *)

Record ResourceLease := mkLease { lease_token : ResourceLeaseToken; released : bool }.

Definition lease_try_child (s : AuthorityState) (h : ResourceLease) (own : Z) (r : ResourceLeaseRequest)
  : Result Panic (AuthorityState * Result ResourceLeaseAcquireError ResourceLeaseToken) :=
  if released h then Ok (s, Err (acquire_error r zero_capacity (unavailable CapabilityUnavailable)))
  else try_acquire_child s (lease_token h) own r.

Definition lease_release_as (s : AuthorityState) (h : ResourceLease) (own : Z)
  : option (Result Panic (AuthorityState * ResourceLease * Result ResourceLeaseReleaseError unit)) :=
  if released h then Some (Ok (s, h, Err AlreadyReleased))
  else
    o ← release_token s (lease_token h) own;
    Some (let? '(s, r) := o in
          match r with
          | Err e => Ok (s, h, Err e)
          | Ok _ => Ok (s, mkLease (lease_token h) true, Ok tt)
          end).

Definition lease_release (s : AuthorityState) (h : ResourceLease) := lease_release_as s h (owner (lease_token h)).

(** [Drop::drop]; the handle is gone afterwards. *)
Definition lease_drop (s : AuthorityState) (h : ResourceLease) : option (Result Panic AuthorityState) :=
  if released h then Some (Ok s)
  else
    o ← abandon_token s (lease_token h) (owner (lease_token h));
    Some (let? '(s, _) := o in Ok s).

(** ** Sums over the allocations *)

Definition msum (f : Allocation -> Z) (m : gmap Z Allocation) : Z := map_fold (fun _ a acc => f a + acc) 0 m.

Lemma msum_empty f : msum f ∅ = 0.
Proof. unfold msum. by rewrite map_fold_empty. Qed.

Lemma msum_insert f m e a : m !! e = None -> msum f (<[e := a]> m) = f a + msum f m.
Proof. intros H. unfold msum. rewrite map_fold_insert_L; [done| |done]. intros. lia. Qed.

Lemma msum_delete f m e a : m !! e = Some a -> msum f m = f a + msum f (delete e m).
Proof. intros H. rewrite <- (msum_insert f _ e a) by apply lookup_delete_eq. by rewrite insert_delete_id. Qed.

Lemma msum_update f m e a b : m !! e = Some a -> msum f (<[e := b]> m) = msum f m - f a + f b.
Proof.
  intros H. rewrite (msum_delete f m e a H), <- insert_delete_eq, msum_insert by apply lookup_delete_eq. lia.
Qed.

Lemma msum_ext f g m : (forall e a, m !! e = Some a -> f a = g a) -> msum f m = msum g m.
Proof.
  induction m as [|e a m He IH] using map_ind; intros H; [by rewrite !msum_empty|].
  rewrite !msum_insert by done. rewrite (H e a) by apply lookup_insert_eq. rewrite IH; [done|].
  intros e' a' H'. apply (H e'). rewrite lookup_insert_ne; [done|]. intros ->. congruence.
Qed.

Lemma msum_nonneg f m : (forall e a, m !! e = Some a -> 0 <= f a) -> 0 <= msum f m.
Proof.
  induction m as [|e a m He IH] using map_ind; intros H; [by rewrite msum_empty|].
  rewrite msum_insert by done. pose proof (H e a (lookup_insert_eq _ _ _)).
  assert (0 <= msum f m); [|lia]. apply IH. intros e' a' H'. apply (H e'). rewrite lookup_insert_ne; [done|]. intros ->. congruence.
Qed.

Lemma msum_le f g m : (forall e a, m !! e = Some a -> f a <= g a) -> msum f m <= msum g m.
Proof.
  intros H. assert (0 <= msum (fun a => g a - f a) m) as Hs.
  { apply msum_nonneg. intros e a Ha%H. lia. }
  assert (forall h k, msum (fun a => h a - k a) m = msum h m - msum k m) as Hsub.
  { intros h k. clear. induction m as [|e a m He IH] using map_ind; [by rewrite !msum_empty|]. rewrite !msum_insert by done. lia. }
  rewrite Hsub in Hs. lia.
Qed.

Lemma msum_member f m e a : m !! e = Some a -> (forall e a, m !! e = Some a -> 0 <= f a) -> f a <= msum f m.
Proof.
  intros Ha H. rewrite (msum_delete f m e a Ha). assert (0 <= msum f (delete e m)); [|lia].
  apply msum_nonneg. intros e' a' [_ Ha']%lookup_delete_Some. by apply (H e').
Qed.

Lemma msum_pos f m : msum f m <> 0 -> exists e a, m !! e = Some a /\ f a <> 0.
Proof.
  induction m as [|e a m He IH] using map_ind; [by rewrite msum_empty|]. rewrite msum_insert by done. intros H.
  destruct (decide (f a = 0)) as [E|E]; [|exists e, a; split; [apply lookup_insert_eq|done]].
  destruct IH as (e' & a' & H' & Hf); [lia|]. exists e', a'. split; [|done]. rewrite lookup_insert_ne; [done|]. intros ->. congruence.
Qed.

(** The two resources, treated alike by the invariant. *)
Inductive Part := Compute | Memory.

Definition part (q : Part) (r : ResourceLeaseRequest) : Z := match q with Compute => compute_units r | Memory => memory_bytes r end.
Definition cap_part (q : Part) (c : ResourceLeaseCapacity) : Z :=
  match q with Compute => cap_compute_units c | Memory => cap_memory_bytes c end.
Definition part_width (q : Part) : Z := match q with Compute => 32 | Memory => 64 end.

(** What the allocations under [c] (the roots for [None]) hold together. *)
Definition under (c : option Z) (f : Allocation -> Z) (a : Allocation) : Z :=
  if bool_decide (parent_epoch (token a) = c) then f a else 0.
Definition granted (q : Part) (c : option Z) (m : gmap Z Allocation) : Z := msum (under c (fun a => part q (grant (token a)))) m.
Definition children (c : option Z) (m : gmap Z Allocation) : Z := msum (under c (fun _ => 1)) m.

(** ** The invariant

    Every entry carries its own epoch, its parent is an older live entry, its
    grant is what it still has plus what its children hold, the roots hold
    exactly what is in use, and a tombstone has live children.  [but] is the
    entry the release loop is about to remove, for which the last clause is
    suspended. *)
Record alloc_ok (s : AuthorityState) (e : Z) (a : Allocation) : Prop := {
  alloc_epoch : epoch (token a) = e /\ token_authority_id (token a) = authority_id s /\ 1 <= e <= next_epoch s;
  alloc_grant : 1 <= compute_units (grant (token a)) /\ 0 <= memory_bytes (grant (token a)) /\
    forall q, part q (grant (token a)) < 2 ^ part_width q;
  alloc_remaining : forall q, 0 <= part q (remaining a) /\
    part q (remaining a) + granted q (Some e) (allocations s) = part q (grant (token a));
  alloc_children : child_count a = children (Some e) (allocations s);
  alloc_parent : forall p, parent_epoch (token a) = Some p -> p < e /\ is_Some (allocations s !! p)
}.

Record authority_ok_but (but : option Z) (s : AuthorityState) : Prop := {
  ok_capacity : forall q, 0 <= cap_part q (capacity s) < 2 ^ part_width q;
  ok_epoch : 0 <= next_epoch s < 2 ^ 64;
  ok_used : forall q, part q (used s) = granted q None (allocations s) /\ part q (used s) <= cap_part q (capacity s);
  ok_allocs : forall e a, allocations s !! e = Some a -> alloc_ok s e a;
  ok_pending : forall e a, allocations s !! e = Some a -> release_pending a = true -> but <> Some e -> child_count a <> 0
}.

Definition authority_ok := authority_ok_but None.

Lemma grants_nonneg but s e a q :
  authority_ok_but but s -> allocations s !! e = Some a -> 0 <= part q (grant (token a)).
Proof. intros Hs Ha. destruct (ok_allocs _ _ Hs e a Ha) as [_ (? & ? & _) _ _ _]. destruct q; simpl; lia. Qed.

Lemma under_nonneg but s c q :
  authority_ok_but but s -> forall e a, allocations s !! e = Some a -> 0 <= under c (fun a => part q (grant (token a))) a.
Proof. intros Hs e a Ha. unfold under. case_bool_decide; [|done]. by eapply grants_nonneg. Qed.

Lemma granted_nonneg but s c q : authority_ok_but but s -> 0 <= granted q c (allocations s).
Proof. intros Hs. apply msum_nonneg. by eapply under_nonneg. Qed.

Lemma children_nonneg c m : 0 <= children c m.
Proof. apply msum_nonneg. intros e a _. unfold under. case_bool_decide; lia. Qed.

Lemma msum_zero f m : (forall e a, m !! e = Some a -> f a = 0) -> msum f m = 0.
Proof.
  intros H. rewrite (msum_ext f (fun _ => 0)) by done. clear H.
  induction m as [|e a m He IH] using map_ind; [apply msum_empty|]. by rewrite msum_insert.
Qed.

(** No entry under [c]: the sums vanish. *)
Lemma nothing_under c m q :
  (forall e a, m !! e = Some a -> parent_epoch (token a) <> c) -> granted q c m = 0 /\ children c m = 0.
Proof.
  intros H. split; apply msum_zero; intros e a Ha; unfold under; rewrite bool_decide_eq_false_2; eauto.
Qed.

Lemma no_children c m e a :
  children c m = 0 -> m !! e = Some a -> parent_epoch (token a) <> c.
Proof.
  intros H Ha Hp. assert (under c (fun _ => 1) a <= msum (under c (fun _ => 1)) m) as Hle.
  { apply (msum_member _ _ e); [done|]. intros e' a' _. unfold under. case_bool_decide; lia. }
  unfold children in H. rewrite H in Hle. unfold under in Hle. rewrite bool_decide_eq_true_2 in Hle by done. lia.
Qed.

(** An entry is ready to be released exactly when it has no live child. *)
Lemma is_ready_spec s e a : alloc_ok s e a -> is_ready a = true <-> child_count a = 0.
Proof.
  intros Ha. unfold is_ready. rewrite andb_true_iff, Z.eqb_eq, bool_decide_eq_true. split; [by intros [? _]|].
  intros H0. split; [done|]. rewrite (alloc_children _ _ _ Ha) in H0.
  assert (forall q, part q (remaining a) = part q (grant (token a))) as Heq.
  { intros q. destruct (alloc_remaining _ _ _ Ha q) as [_ <-].
    rewrite (proj1 (nothing_under (Some e) (allocations s) q (fun e' a' => no_children _ _ e' a' H0))). lia. }
  pose proof (Heq Compute) as H1. pose proof (Heq Memory) as H2. simpl in *.
  destruct (remaining a), (grant (token a)); simpl in *. by subst.
Qed.

Lemma granted_insert q c m e a : m !! e = None ->
  granted q c (<[e := a]> m) = under c (fun a => part q (grant (token a))) a + granted q c m.
Proof. apply msum_insert. Qed.

Lemma children_insert c m e a : m !! e = None -> children c (<[e := a]> m) = under c (fun _ => 1) a + children c m.
Proof. apply msum_insert. Qed.

(** Replacing an entry by one with the same token changes no sum. *)
Lemma sums_update q c m e a b :
  m !! e = Some a -> token b = token a -> granted q c (<[e := b]> m) = granted q c m /\ children c (<[e := b]> m) = children c m.
Proof.
  intros Ha Ht. unfold granted, children. rewrite !(msum_update _ _ _ _ _ Ha). unfold under. rewrite Ht. lia.
Qed.

Lemma sums_delete q c m e a :
  m !! e = Some a ->
  granted q c (delete e m) = granted q c m - under c (fun a => part q (grant (token a))) a /\
  children c (delete e m) = children c m - under c (fun _ => 1) a.
Proof. intros Ha. unfold granted, children. rewrite !(msum_delete _ m _ _ Ha). lia. Qed.

(** An entry stays well-formed when its sums and its parent survive. *)
Lemma alloc_ok_mono s s' e a :
  alloc_ok s e a -> authority_id s' = authority_id s -> next_epoch s <= next_epoch s' ->
  (forall q, granted q (Some e) (allocations s') = granted q (Some e) (allocations s)) ->
  children (Some e) (allocations s') = children (Some e) (allocations s) ->
  (forall p, parent_epoch (token a) = Some p -> is_Some (allocations s !! p) -> is_Some (allocations s' !! p)) ->
  alloc_ok s' e a.
Proof.
  intros [(He & Hid & H1) Hg Hr Hc Hp] Hid' Hn Hgr Hch Hpar. split.
  - rewrite Hid'. split; [done|]. split; [done|]. lia.
  - done.
  - intros q. rewrite Hgr. apply Hr.
  - by rewrite Hch.
  - intros p Hpe. destruct (Hp p Hpe) as [? ?]. split; [done|]. by apply Hpar.
Qed.

(** The epoch handed out next is not in use, as an entry or as a parent. *)
Lemma fresh_epoch s :
  authority_ok s -> allocations s !! (next_epoch s + 1) = None /\
  (forall q, granted q (Some (next_epoch s + 1)) (allocations s) = 0) /\ children (Some (next_epoch s + 1)) (allocations s) = 0.
Proof.
  intros Hs. assert (forall e a, allocations s !! e = Some a -> parent_epoch (token a) <> Some (next_epoch s + 1)) as Hn.
  { intros e a Ha Hp. destruct (ok_allocs _ _ Hs e a Ha) as [(_ & _ & ?) _ _ _ Hpar]. destruct (Hpar _ Hp). lia. }
  split; [|split; [intros q; by apply nothing_under|by apply (nothing_under _ _ Compute)]].
  destruct (allocations s !! _) as [a|] eqn:Ha; [|done]. destruct (ok_allocs _ _ Hs _ a Ha) as [(_ & _ & ?) _ _ _ _]. lia.
Qed.

(** The leases as their holders see them: token and tombstone flag. *)
Definition view (a : Allocation) : ResourceLeaseToken * bool := (token a, release_pending a).
Definition views (s : AuthorityState) : gmap Z (ResourceLeaseToken * bool) := view <$> allocations s.

Definition request_ok (r : ResourceLeaseRequest) : Prop := 1 <= compute_units r < 2 ^ 32 /\ 0 <= memory_bytes r < 2 ^ 64.

Lemma fits_spec r c : fits r c = true <-> forall q, part q r <= cap_part q c.
Proof.
  unfold fits. rewrite andb_true_iff, !Z.leb_le. split; [intros [? ?] []; done|]. intros H. split; [apply (H Compute)|apply (H Memory)].
Qed.

(** The capacity not in use. *)
Definition free_capacity (s : AuthorityState) : ResourceLeaseCapacity :=
  mkCapacity (cap_compute_units (capacity s) - compute_units (used s)) (cap_memory_bytes (capacity s) - memory_bytes (used s)).

Lemma available_free but s : authority_ok_but but s -> authority_available s = Ok (free_capacity s).
Proof.
  intros Hs. pose proof (ok_used _ _ Hs Compute) as [_ H1]. pose proof (ok_used _ _ Hs Memory) as [_ H2]. simpl in *.
  unfold authority_available, checked_sub. rewrite (proj2 (Z.leb_le _ _) H1), (proj2 (Z.leb_le _ _) H2). done.
Qed.

(** ** Acquiring *)

(** What an acquire does: on success the request fitted, and one fresh lease
    with the whole request as its grant is added; otherwise nothing changes. *)
Definition acquired (s s' : AuthorityState) (own : Z) (parent : option Z) (r : ResourceLeaseRequest) (t : ResourceLeaseToken) : Prop :=
  t = mkToken (authority_id s) (next_epoch s + 1) own parent r /\ authority_ok s' /\
  allocations s !! epoch t = None /\ views s' = <[epoch t := (t, false)]> (views s) /\
  next_epoch s' = next_epoch s + 1 /\ authority_id s' = authority_id s /\ capacity s' = capacity s.

Lemma take_epoch_spec s :
  take_epoch s =
    if next_epoch s + 1 <? 2 ^ 64
    then Ok (mkAuthority (authority_id s) (capacity s) (used s) (next_epoch s + 1) (allocations s), next_epoch s + 1)
    else Err (unavailable CapabilityUnavailable).
Proof. unfold take_epoch, checked_add. by destruct (_ <? _). Qed.

Lemma checked_sub_fits a b : b <= a -> checked_sub a b = Some (a - b).
Proof. intros. by apply checked_sub_Some. Qed.

Lemma checked_add_fits' w a b : a + b < 2 ^ w -> checked_add w a b = Some (a + b).
Proof. intros. by apply checked_add_Some. Qed.

Lemma try_acquire_spec s own r :
  authority_ok s -> request_ok r ->
  exists s' res, try_acquire s own r = Ok (s', res) /\
    match res with
    | Ok t => fits r (free_capacity s) = true /\ acquired s s' own None r t
    | Err err => s' = s /\ error_requested err = r /\ error_available err = free_capacity s /\
        error_availability err =
          (if negb (fits r (capacity s)) then exhausted (exceeded_reason r (capacity s))
           else if negb (fits r (free_capacity s)) then deferred SharedResourceContention else unavailable CapabilityUnavailable) /\
        (fits r (free_capacity s) = true -> next_epoch s = umax 64)
    end.
Proof.
  intros Hs Hr. unfold try_acquire. rewrite (available_free _ _ Hs). cbn [rbind].
  assert (forall q, 0 <= part q (used s)) as Hnn.
  { intros q. destruct (ok_used _ _ Hs q) as [-> _]. by eapply granted_nonneg. }
  assert (fits r (free_capacity s) = true -> fits r (capacity s) = true) as Hfit.
  { rewrite !fits_spec. intros Hf q. specialize (Hf q). specialize (Hnn q). destruct q; simpl in *; lia. }
  destruct (fits r (capacity s)) eqn:Ec; cbn [negb].
  2: { do 2 eexists. split; [done|]. simpl. split; [done|]. split; [done|]. split; [done|]. split; [done|]. intros H%Hfit. done. }
  destruct (fits r (free_capacity s)) eqn:Ef; cbn [negb]; [|do 2 eexists; split; [done|]; done].
  rewrite take_epoch_spec. destruct (Z.ltb_spec (next_epoch s + 1) (2 ^ 64)) as [He|He].
  2: { do 2 eexists. split; [done|]. simpl. do 4 (split; [done|]). intros _. pose proof (ok_epoch _ _ Hs). unfold umax. lia. }
  pose proof (proj1 (fits_spec _ _) Ef) as Hle. pose proof (ok_capacity _ _ Hs) as Hcap.
  cbn [used]. rewrite !checked_add_fits'.
  2: { specialize (Hle Memory). specialize (Hcap Memory). simpl in *. lia. }
  2: { specialize (Hle Compute). specialize (Hcap Compute). simpl in *. lia. }
  cbn [expect_some rbind]. do 2 eexists. split; [reflexivity|]. split; [done|].
  destruct (fresh_epoch s Hs) as (Hfresh & Hg0 & Hc0). split; [done|]. split; [|split; [done|]].
  2: { split; [|done]. unfold views. cbn. by rewrite fmap_insert. }
  destruct Hr as [[Hr1 Hr2] [Hr3 Hr4]]. split; cbn.
  - done.
  - pose proof (ok_epoch _ _ Hs). lia.
  - intros q. rewrite granted_insert by done. unfold under. cbn. rewrite bool_decide_eq_true_2 by done.
    destruct (ok_used _ _ Hs q) as [Hu _]. rewrite <- Hu. specialize (Hle q). destruct q; simpl in *; lia.
  - intros e a [(<- & <-)|[Hne Ha]]%lookup_insert_Some.
    + split; cbn.
      * split; [done|]. split; [done|]. pose proof (ok_epoch _ _ Hs). lia.
      * split; [done|]. split; [done|]. intros []; done.
      * intros q. rewrite granted_insert, Hg0 by done. unfold under. cbn. destruct q; simpl; lia.
      * rewrite children_insert, Hc0 by done. done.
      * done.
    + eapply alloc_ok_mono; [by apply (ok_allocs _ _ Hs)|done|simpl; lia| | |]; cbn.
      * intros q. rewrite granted_insert by done. unfold under. cbn. done.
      * rewrite children_insert by done. done.
      * intros p _ Hp. apply lookup_insert_is_Some. destruct (decide (next_epoch s + 1 = p)); [by left|by right].
  - intros e a [(<- & <-)|[Hne Ha]]%lookup_insert_Some; [done|]. intros Hpend _. by apply (ok_pending _ _ Hs e).
Qed.

Lemma try_acquire_child_spec s parent own r :
  authority_ok s -> request_ok r ->
  exists s' res, try_acquire_child s parent own r = Ok (s', res) /\
    match res with
    | Ok t => (exists a, allocations s !! epoch parent = Some a /\ token a = parent /\ forall q, part q r <= part q (remaining a)) /\
        acquired s s' own (Some (epoch parent)) r t
    | Err _ => s' = s
    end.
Proof.
  intros Hs Hr. unfold try_acquire_child. destruct (Z.eqb_spec (token_authority_id parent) (authority_id s)) as [_|_]; cbn [negb]; [|by do 2 eexists].
  destruct (allocations s !! epoch parent) as [a|] eqn:Ha; [|by do 2 eexists].
  case_bool_decide as Ht; cbn [negb]; [|by do 2 eexists].
  destruct (fits r (mkCapacity (compute_units (grant parent)) _)); cbn [negb]; [|by do 2 eexists].
  destruct (fits r (mkCapacity (compute_units (remaining a)) _)) eqn:Ef; cbn [negb]; [|by do 2 eexists].
  rewrite take_epoch_spec. destruct (Z.ltb_spec (next_epoch s + 1) (2 ^ 64)) as [He|He]; [|by do 2 eexists].
  pose proof (proj1 (fits_spec _ _) Ef) as Hle.
  assert (forall q, part q r <= part q (remaining a)) as Hle' by (intros q; specialize (Hle q); by destruct q). clear Hle Ef.
  pose proof (ok_allocs _ _ Hs _ _ Ha) as Hok. destruct (fresh_epoch s Hs) as (Hfresh & Hg0 & Hc0).
  assert (child_count a + 1 < 2 ^ 32) as Hcount.
  { rewrite (alloc_children _ _ _ Hok). destruct (alloc_remaining _ _ _ Hok Compute) as [Hr0 Hrem].
    assert (children (Some (epoch parent)) (allocations s) <= granted Compute (Some (epoch parent)) (allocations s)) as Hc.
    { apply msum_le. intros e' a' Ha'. unfold under. case_bool_decide; [|done].
      by destruct (alloc_grant _ _ _ (ok_allocs _ _ Hs e' a' Ha')) as (? & _). }
    destruct (alloc_grant _ _ _ Hok) as (_ & _ & Hg). specialize (Hg Compute). specialize (Hle' Compute).
    destruct Hr as [[? ?] _]. simpl in *. lia. }
  rewrite !checked_sub_fits by (apply (Hle' Compute) || apply (Hle' Memory)). rewrite checked_add_fits' by done.
  cbn [expect_some rbind]. do 2 eexists. split; [reflexivity|]. split; [by exists a|].
  assert (epoch parent <> next_epoch s + 1) as Hpe by congruence.
  cbn [allocations set_allocations authority_id capacity used next_epoch epoch].
  set (a' := mkAllocation (token a) _ _ (release_pending a)). remember (<[epoch parent := a']> (allocations s)) as m' eqn:Em'.
  assert (m' !! (next_epoch s + 1) = None) as Hfresh' by (rewrite Em'; by rewrite lookup_insert_ne).
  assert (forall q c, granted q c m' = granted q c (allocations s) /\ children c m' = children c (allocations s)) as Hsums.
  { intros q c. rewrite Em'. by apply (sums_update q c _ _ a). }
  split; [done|]. split; [|split; [done|]].
  2: { split; [|done]. unfold views. cbn. rewrite Em', !fmap_insert. f_equal. unfold view. cbn. apply insert_id. rewrite lookup_fmap, Ha. done. }
  destruct Hr as [[Hr1 Hr2] [Hr3 Hr4]]. split; cbn.
  - apply (ok_capacity _ _ Hs).
  - pose proof (ok_epoch _ _ Hs). lia.
  - intros q. rewrite granted_insert by done. unfold under. cbn. rewrite (proj1 (Hsums q None)). apply (ok_used _ _ Hs).
  - intros e b [(<- & <-)|[Hne Hb]]%lookup_insert_Some.
    + split; cbn.
      * split; [done|]. split; [done|]. pose proof (ok_epoch _ _ Hs). lia.
      * split; [done|]. split; [done|]. intros []; done.
      * intros q. rewrite granted_insert, (proj1 (Hsums q _)), Hg0 by done. unfold under. cbn.
        rewrite bool_decide_eq_false_2 by (intros [= ?]; done). destruct q; simpl; lia.
      * rewrite children_insert, (proj2 (Hsums Compute _)), Hc0 by done. unfold under. cbn.
        rewrite bool_decide_eq_false_2 by (intros [= ?]; done). done.
      * intros p [= <-]. destruct (alloc_epoch _ _ _ Hok) as (_ & _ & ?). split; [lia|].
        rewrite lookup_insert_ne by done. rewrite Em', lookup_insert_eq. by eexists.
    + rewrite Em' in Hb. apply lookup_insert_Some in Hb as [(<- & <-)|[Hne' Hb]].
      * destruct Hok as [Ho1 Ho2 Ho3 Ho4 Ho5]. split; cbn.
        -- split; [apply Ho1|]. split; [apply Ho1|]. destruct Ho1 as (_ & _ & ?). lia.
        -- done.
        -- intros q. rewrite granted_insert, (proj1 (Hsums q _)) by done. unfold under. cbn. rewrite bool_decide_eq_true_2 by done.
           destruct (Ho3 q) as [? Hq]. specialize (Hle' q). rewrite <- Hq. destruct q; simpl in *; lia.
        -- rewrite children_insert, (proj2 (Hsums Compute _)), Ho4 by done. unfold under. cbn. rewrite bool_decide_eq_true_2 by done. lia.
        -- intros p Hp. destruct (Ho5 p Hp) as [? ?]. split; [done|]. apply lookup_insert_is_Some. right.
           split; [|rewrite Em'; apply lookup_insert_is_Some; right; split; [lia|done]]. destruct Ho1 as (_ & _ & ?). lia.
      * eapply alloc_ok_mono; [by apply (ok_allocs _ _ Hs)|done|simpl; lia| | |]; cbn.
        -- intros q. rewrite granted_insert, (proj1 (Hsums q _)) by done. unfold under. cbn. by rewrite bool_decide_eq_false_2 by (intros [= ?]; done).
        -- rewrite children_insert, (proj2 (Hsums Compute _)) by done. unfold under. cbn. by rewrite bool_decide_eq_false_2 by (intros [= ?]; done).
        -- intros p _ Hp. rewrite Em', !lookup_insert_is_Some. destruct (decide (next_epoch s + 1 = p)); [by left|]. right. split; [done|].
           destruct (decide (epoch parent = p)); [by left|by right].
  - intros e b [(<- & <-)|[Hne Hb]]%lookup_insert_Some; [done|]. intros Hpend _.
    rewrite Em' in Hb. apply lookup_insert_Some in Hb as [(<- & <-)|[Hne' Hb]]; [|by apply (ok_pending _ _ Hs e)].
    cbn. rewrite (alloc_children _ _ _ Hok). pose proof (children_nonneg (Some (epoch parent)) (allocations s)). lia.
Qed.

(** ** Releasing *)

(** What a release leaves: the lease at [e] is gone, no lease appears, and no
    lease whose holder is alive disappears with it. *)
Definition released_from (s : AuthorityState) (e : Z) (s' : AuthorityState) : Prop :=
  views s' ⊆ delete e (views s) /\
  (forall e' t, e' <> e -> views s !! e' = Some (t, false) -> views s' !! e' = Some (t, false)) /\
  authority_id s' = authority_id s /\ capacity s' = capacity s /\ next_epoch s' = next_epoch s.

Lemma ready_leaf s e a e' a' :
  alloc_ok s e a -> is_ready a = true -> allocations s !! e' = Some a' -> parent_epoch (token a') <> Some e.
Proof.
  intros Ha Hr. apply (is_ready_spec _ _ _ Ha) in Hr. rewrite (alloc_children _ _ _ Ha) in Hr. by apply no_children.
Qed.

Lemma member_under but s e a q :
  authority_ok_but but s -> allocations s !! e = Some a ->
  part q (grant (token a)) <= granted q (parent_epoch (token a)) (allocations s) /\
  1 <= children (parent_epoch (token a)) (allocations s).
Proof.
  intros Hs Ha. split.
  - transitivity (under (parent_epoch (token a)) (fun a => part q (grant (token a))) a).
    { unfold under. by rewrite bool_decide_eq_true_2. }
    apply (msum_member _ _ e); [done|]. by eapply under_nonneg.
  - transitivity (under (parent_epoch (token a)) (fun _ => 1) a).
    { unfold under. by rewrite bool_decide_eq_true_2. }
    apply (msum_member _ _ e); [done|]. intros ? ? _. unfold under. case_bool_decide; lia.
Qed.

Lemma release_root_ok s e a :
  authority_ok_but (Some e) s -> allocations s !! e = Some a -> is_ready a = true -> parent_epoch (token a) = None ->
  authority_ok (set_used (mkRequest (compute_units (used s) - compute_units (grant (token a)))
    (memory_bytes (used s) - memory_bytes (grant (token a)))) (set_allocations (delete e (allocations s)) s)).
Proof.
  intros Hs Ha Hr Hp. pose proof (ok_allocs _ _ Hs _ _ Ha) as Hok. split; cbn.
  - apply (ok_capacity _ _ Hs).
  - apply (ok_epoch _ _ Hs).
  - intros q. rewrite (proj1 (sums_delete q None _ _ _ Ha)). unfold under. rewrite Hp, bool_decide_eq_true_2 by done.
    destruct (ok_used _ _ Hs q) as [Hu Hc]. rewrite <- Hu. pose proof (grants_nonneg _ _ _ _ q Hs Ha). destruct q; simpl in *; lia.
  - intros e' a' [Hne Ha']%lookup_delete_Some. eapply alloc_ok_mono; [by apply (ok_allocs _ _ Hs)|done|done| | |]; cbn.
    + intros q. rewrite (proj1 (sums_delete q _ _ _ _ Ha)). unfold under. rewrite Hp. simpl. lia.
    + rewrite (proj2 (sums_delete Compute _ _ _ _ Ha)). unfold under. rewrite Hp. simpl. lia.
    + intros p Hp' Hsome. rewrite lookup_delete_ne; [done|]. intros ->. by eapply (ready_leaf s p a).
  - intros e' a' [Hne Ha']%lookup_delete_Some Hpend _. apply (ok_pending _ _ Hs e'); congruence.
Qed.

Lemma returned_to_parent_spec s e a p b :
  authority_ok_but (Some e) s -> allocations s !! e = Some a -> parent_epoch (token a) = Some p -> allocations s !! p = Some b ->
  returned_to_parent b (grant (token a)) = Ok (mkAllocation (token b)
    (mkRequest (compute_units (remaining b) + compute_units (grant (token a))) (memory_bytes (remaining b) + memory_bytes (grant (token a))))
    (child_count b - 1) (release_pending b)).
Proof.
  intros Hs Ha Hp Hb. pose proof (ok_allocs _ _ Hs _ _ Hb) as Hok.
  assert (forall q, part q (remaining b) + part q (grant (token a)) <= part q (grant (token b)) < 2 ^ part_width q) as Hle.
  { intros q. destruct (alloc_remaining _ _ _ Hok q) as [_ <-]. pose proof (proj1 (member_under _ _ _ _ q Hs Ha)) as Hm. rewrite Hp in Hm.
    destruct (alloc_grant _ _ _ Hok) as (_ & _ & Hg). specialize (Hg q). destruct (alloc_remaining _ _ _ Hok q) as [_ Hr]. lia. }
  pose proof (Hle Compute) as H1. pose proof (Hle Memory) as H2. simpl in H1, H2.
  assert (1 <= child_count b) as H3.
  { rewrite (alloc_children _ _ _ Hok). pose proof (proj2 (member_under _ _ _ _ Compute Hs Ha)) as Hm. by rewrite Hp in Hm. }
  unfold returned_to_parent. rewrite !checked_add_fits', checked_sub_fits by lia. cbn [ok_or rbind].
  by rewrite (proj2 (Z.ltb_ge _ _)), (proj2 (Z.ltb_ge _ _)) by lia.
Qed.

Lemma release_child_ok s e a p b b' :
  authority_ok_but (Some e) s -> allocations s !! e = Some a -> is_ready a = true -> parent_epoch (token a) = Some p ->
  allocations s !! p = Some b -> returned_to_parent b (grant (token a)) = Ok b' ->
  authority_ok_but (Some p) (set_allocations (<[p := b']> (delete e (allocations s))) s).
Proof.
  intros Hs Ha Hr Hp Hb Hret. rewrite (returned_to_parent_spec s e a p b) in Hret by done. injection Hret as <-.
  pose proof (ok_allocs _ _ Hs _ _ Ha) as Hoka. pose proof (ok_allocs _ _ Hs _ _ Hb) as Hokb.
  destruct (alloc_parent _ _ _ Hoka p Hp) as [Hlt _]. assert (delete e (allocations s) !! p = Some b) as Hb'.
  { rewrite lookup_delete_ne; [done|lia]. }
  set (b' := mkAllocation _ _ _ _). remember (<[p := b']> (delete e (allocations s))) as m' eqn:Em'.
  assert (forall q c, granted q c m' = granted q c (allocations s) - under c (fun a => part q (grant (token a))) a /\
    children c m' = children c (allocations s) - under c (fun _ => 1) a) as Hsums.
  { intros q c. rewrite Em', <- (proj1 (sums_delete q c _ _ _ Ha)), <- (proj2 (sums_delete q c _ _ _ Ha)). by apply (sums_update q c _ _ b). }
  split; cbn.
  - apply (ok_capacity _ _ Hs).
  - apply (ok_epoch _ _ Hs).
  - intros q. rewrite (proj1 (Hsums q None)). unfold under. rewrite Hp. simpl. rewrite Z.sub_0_r. apply (ok_used _ _ Hs).
  - intros e' a' Ha'. rewrite Em' in Ha'. apply lookup_insert_Some in Ha' as [(<- & <-)|[Hne Ha']].
    + destruct Hokb as [Ho1 Ho2 Ho3 Ho4 Ho5]. split; cbn.
      * done.
      * done.
      * intros q. rewrite (proj1 (Hsums q _)). unfold under. rewrite Hp, bool_decide_eq_true_2 by done.
        destruct (Ho3 q) as [? Hq]. rewrite <- Hq. pose proof (grants_nonneg _ _ _ _ q Hs Ha). destruct q; simpl in *; lia.
      * rewrite (proj2 (Hsums Compute _)), Ho4. unfold under. rewrite Hp, bool_decide_eq_true_2 by done. lia.
      * intros p' Hp'. destruct (Ho5 p' Hp') as [? ?]. split; [done|]. rewrite Em'. apply lookup_insert_is_Some. right. split; [lia|].
        rewrite lookup_delete_ne; [done|lia].
    + apply lookup_delete_Some in Ha' as [Hne' Ha'].
      eapply alloc_ok_mono; [by apply (ok_allocs _ _ Hs)|done|done| | |]; cbn.
      * intros q. rewrite (proj1 (Hsums q _)). unfold under. rewrite Hp, bool_decide_eq_false_2 by (intros [= ?]; done). lia.
      * rewrite (proj2 (Hsums Compute _)). unfold under. rewrite Hp, bool_decide_eq_false_2 by (intros [= ?]; done). lia.
      * intros p' Hp' Hsome. rewrite Em', lookup_insert_is_Some. destruct (decide (p = p')); [by left|]. right. split; [done|].
        rewrite lookup_delete_ne; [done|]. intros <-. by eapply (ready_leaf s e a).
  - intros e' a' Ha'. rewrite Em' in Ha'. apply lookup_insert_Some in Ha' as [(<- & <-)|[Hne Ha']]; [done|].
    apply lookup_delete_Some in Ha' as [Hne' Ha']. intros Hpend _. apply (ok_pending _ _ Hs e'); congruence.
Qed.

(** The loop ends within its fuel, without an error, in a valid state. *)
Lemma release_ready_spec fuel s e a :
  authority_ok_but (Some e) s -> allocations s !! e = Some a -> is_ready a = true -> (size (allocations s) <= fuel)%nat ->
  exists s', release_ready_allocation fuel s e = Some (Ok (s', Ok tt)) /\ authority_ok s' /\ released_from s e s'.
Proof.
  revert s e a. induction fuel as [|fuel IH]; intros s e a Hs Ha Hr Hfuel.
  { apply Nat.le_0_r, map_size_empty_inv in Hfuel. rewrite Hfuel in Ha. by rewrite lookup_empty in Ha. }
  cbn [release_ready_allocation]. rewrite Ha, Hr. cbn [negb]. pose proof (ok_allocs _ _ Hs _ _ Ha) as Hok.
  destruct (parent_epoch (token a)) as [p|] eqn:Hp.
  - destruct (alloc_parent _ _ _ Hok p Hp) as [Hlt [b Hb]]. rewrite Hb.
    pose proof (returned_to_parent_spec s e a p b Hs Ha Hp Hb) as Hret. set (b' := mkAllocation _ _ _ _) in Hret.
    pose proof (release_child_ok s e a p b b' Hs Ha Hr Hp Hb Hret) as Hs1. rewrite Hret.
    rewrite lookup_delete_ne by lia. rewrite Hb. set (s1 := set_allocations _ s) in *.
    assert (views s1 = delete e (views s)) as Hv.
    { unfold views, s1. cbn. rewrite fmap_insert, fmap_delete. apply insert_id.
      rewrite lookup_delete_ne by lia. by rewrite lookup_fmap, Hb. }
    assert (allocations s1 !! p = Some b') as Hb1 by apply lookup_insert_eq.
    destruct (release_pending b') eqn:Epend; cbn [andb].
    + destruct (is_ready b') eqn:Er.
      * destruct (IH s1 p b' Hs1 Hb1 Er) as (s' & Hrun & Hok' & Hsub & Hkeep & Hframe).
        { unfold s1. cbn. rewrite map_size_insert_Some by (rewrite lookup_delete_ne by lia; by eexists).
          rewrite map_size_delete_Some by (by eexists). lia. }
        exists s'. split; [done|]. split; [done|]. split; [|split; [|done]].
        { etrans; [exact Hsub|]. rewrite Hv. apply delete_subseteq. }
        intros e' t Hne Hview. apply Hkeep; [|rewrite Hv; by rewrite lookup_delete_ne].
        intros ->. unfold views in Hview. rewrite lookup_fmap, Hb in Hview. injection Hview as _ Hf. unfold b' in Epend. simpl in Epend. congruence.
      * exists s1. split; [done|]. split; [|split; [by rewrite Hv|split; [|done]]].
        -- destruct Hs1 as [H1 H2 H3 H4 H5]. split; [done|done|done|done|]. intros e' a' Ha' Hpend _.
           destruct (decide (e' = p)) as [->|Hne]; [|apply (H5 e'); congruence].
           intros H0. apply (is_ready_spec _ _ _ (H4 _ _ Ha')) in H0. congruence.
        -- intros e' t Hne Hview. rewrite Hv. by rewrite lookup_delete_ne.
    + exists s1. split; [done|]. split; [|split; [by rewrite Hv|split; [|done]]].
      * destruct Hs1 as [H1 H2 H3 H4 H5]. split; [done|done|done|done|]. intros e' a' Ha' Hpend _.
        destruct (decide (e' = p)) as [->|Hne]; [congruence|apply (H5 e'); congruence].
      * intros e' t Hne Hview. rewrite Hv. by rewrite lookup_delete_ne.
  - assert (forall q, part q (grant (token a)) <= part q (used s)) as Hle.
    { intros q. destruct (ok_used _ _ Hs q) as [-> _]. rewrite <- Hp. by eapply member_under. }
    rewrite !checked_sub_fits by (apply (Hle Compute) || apply (Hle Memory)).
    eexists. split; [reflexivity|]. split; [by apply release_root_ok|].
    assert (views (set_used (mkRequest (compute_units (used s) - compute_units (grant (token a)))
      (memory_bytes (used s) - memory_bytes (grant (token a)))) (set_allocations (delete e (allocations s)) s)) = delete e (views s)) as Hv.
    { unfold views. cbn. apply fmap_delete. }
    split; [by rewrite Hv|]. split; [|done]. intros e' t Hne Hview. rewrite Hv. by rewrite lookup_delete_ne.
Qed.

(** The loop ends on any state, valid or not: every turn that goes on has
    removed an entry. *)
Lemma release_ready_terminates fuel s e :
  (size (allocations s) < fuel)%nat -> is_Some (release_ready_allocation fuel s e).
Proof.
  revert s e. induction fuel as [|fuel IH]; intros s e Hf; [lia|]. cbn [release_ready_allocation].
  destruct (allocations s !! e) as [a|] eqn:Ha; [|by eexists]. destruct (negb (is_ready a)); [by eexists|].
  destruct (parent_epoch (token a)) as [p|]; [|by repeat case_match; eexists].
  destruct (allocations s !! p) as [b|]; [|by eexists]. destruct (returned_to_parent b _) as [b'|]; [|by eexists].
  destruct (delete e (allocations s) !! p) as [b0|] eqn:Hb; [|by eexists].
  destruct (_ && _); [|by eexists]. apply IH. cbn. rewrite map_size_insert_Some by (by eexists).
  assert (size (allocations s) <> 0%nat) by (intros H0%map_size_empty_inv; rewrite H0, lookup_empty in Ha; done).
  rewrite map_size_delete_Some by (by eexists). lia.
Qed.

Lemma validate_release_spec s t own a :
  validate_release s t own = Ok a <->
  token_authority_id t = authority_id s /\ owner t = own /\ allocations s !! epoch t = Some a /\ token a = t.
Proof.
  unfold validate_release. destruct (Z.eqb_spec (token_authority_id t) (authority_id s)); cbn [negb]; [|naive_solver].
  destruct (Z.eqb_spec (owner t) own); cbn [negb]; [|naive_solver].
  destruct (allocations s !! epoch t) as [b|]; [|naive_solver]. case_bool_decide; naive_solver.
Qed.

Lemma authority_ok_weaken but s : authority_ok s -> authority_ok_but but s.
Proof. intros [H1 H2 H3 H4 H5]. split; [done..|]. intros e a Ha Hp _. by apply (H5 e). Qed.

Lemma release_loop_spec s e a :
  authority_ok s -> allocations s !! e = Some a -> is_ready a = true ->
  exists s', release_loop s e = Some (Ok (s', Ok tt)) /\ authority_ok s' /\ released_from s e s'.
Proof. intros Hs Ha Hr. apply (release_ready_spec _ s e a); [by apply authority_ok_weaken|done|done|lia]. Qed.

(** Releasing through a handle whose lease is live. *)
Lemma release_token_spec s t own :
  authority_ok s -> views s !! epoch t = Some (t, false) ->
  exists s' r, release_token s t own = Some (Ok (s', r)) /\
    match r with
    | Ok _ => authority_ok s' /\ released_from s (epoch t) s'
    | Err e => s' = s /\ (e = OwnerMismatch /\ own <> owner t \/ e = ChildrenActive)
    end.
Proof.
  intros Hs Hv. unfold views in Hv. rewrite lookup_fmap in Hv. apply fmap_Some in Hv as (a & Ha & [= -> Hpend]).
  pose proof (ok_allocs _ _ Hs _ _ Ha) as Hok. destruct (alloc_epoch _ _ _ Hok) as (_ & Hid & _).
  unfold release_token. destruct (decide (owner (token a) = own)) as [<-|Hne].
  - rewrite (proj2 (validate_release_spec s (token a) _ a)) by done. destruct (is_ready a) eqn:Er.
    + destruct (release_loop_spec s _ a Hs Ha Er) as (s' & -> & Hok' & Hrel). by exists s', (Ok tt).
    + exists s, (Err ChildrenActive). split; [done|]. split; [done|by right].
  - unfold validate_release. rewrite (proj2 (Z.eqb_eq _ _) Hid), (proj2 (Z.eqb_neq _ _) Hne). cbn [negb].
    exists s, (Err OwnerMismatch). split; [done|]. split; [done|]. left. done.
Qed.

(** Dropping such a handle: the lease goes at once or becomes a tombstone. *)
Lemma abandon_token_spec s t :
  authority_ok s -> views s !! epoch t = Some (t, false) ->
  exists s', abandon_token s t (owner t) = Some (Ok (s', Ok tt)) /\ authority_ok s' /\
    (released_from s (epoch t) s' \/
     views s' = <[epoch t := (t, true)]> (views s) /\ authority_id s' = authority_id s /\ capacity s' = capacity s /\ next_epoch s' = next_epoch s).
Proof.
  intros Hs Hv. unfold views in Hv. rewrite lookup_fmap in Hv. apply fmap_Some in Hv as (a & Ha & [= -> Hpend]).
  pose proof (ok_allocs _ _ Hs _ _ Ha) as Hok. destruct (alloc_epoch _ _ _ Hok) as (_ & Hid & _).
  unfold abandon_token. rewrite (proj2 (validate_release_spec s (token a) _ a)) by done. destruct (is_ready a) eqn:Er.
  - destruct (release_loop_spec s _ a Hs Ha Er) as (s' & -> & Hok' & Hrel). exists s'. split; [done|]. split; [done|by left].
  - eexists. split; [reflexivity|]. set (b := mkAllocation _ _ _ true).
    assert (forall q c, granted q c (<[epoch (token a) := b]> (allocations s)) = granted q c (allocations s) /\
      children c (<[epoch (token a) := b]> (allocations s)) = children c (allocations s)) as Hsums by (intros q c; by apply (sums_update q c _ _ a)).
    split; [|right; split; [by unfold views; cbn; rewrite fmap_insert|done]].
    split; cbn [set_allocations capacity next_epoch used allocations].
    + apply (ok_capacity _ _ Hs).
    + apply (ok_epoch _ _ Hs).
    + intros q. rewrite (proj1 (Hsums q None)). apply (ok_used _ _ Hs).
    + intros e c Hc. assert (exists c0, allocations s !! e = Some c0 /\ token c = token c0 /\ remaining c = remaining c0 /\ child_count c = child_count c0)
        as (c0 & Hc0 & Ht & Hrem & Hcc).
      { apply lookup_insert_Some in Hc as [(<- & <-)|[Hne Hc]]; [by exists a|by exists c]. }
      assert (alloc_ok (set_allocations (<[epoch (token a) := b]> (allocations s)) s) e c0) as [O1 O2 O3 O4 O5].
      { eapply alloc_ok_mono; [by apply (ok_allocs _ _ Hs)|done|done|intros q; apply Hsums|apply (Hsums Compute)|].
        intros p _ Hp. apply lookup_insert_is_Some. destruct (decide (epoch (token a) = p)); [by left|by right]. }
      by split; rewrite ?Ht, ?Hrem, ?Hcc.
    + intros e c [(<- & <-)|[Hne Hc]]%lookup_insert_Some; [|intros Hp _; by apply (ok_pending _ _ Hs e)].
      intros _ _ H0. cbn in H0. apply (is_ready_spec _ _ _ Hok) in H0. congruence.
Qed.

(** ** Histories *)

(** An authority and the handles in scope, by the epoch of their lease. *)
Record World := mkWorld { authority : AuthorityState; handles : gmap Z ResourceLease }.

Inductive LeaseOp :=
| OpAcquire (own : Z) (r : ResourceLeaseRequest)
| OpChild (h own : Z) (r : ResourceLeaseRequest)
| OpRelease (h own : Z)
| OpDrop (h : Z).

Inductive LeaseResult :=
| Acquired (r : Result ResourceLeaseAcquireError ResourceLeaseToken)
| Returned (r : Result ResourceLeaseReleaseError unit)
| Dropped
| NoHandle.

(** A successful acquire puts a new handle in scope. *)
Definition after_acquire (w : World) (s : AuthorityState) (r : Result ResourceLeaseAcquireError ResourceLeaseToken) : World * LeaseResult :=
  (mkWorld s (match r with Ok t => <[epoch t := mkLease t false]> (handles w) | Err _ => handles w end), Acquired r).

Definition run_lease_op (w : World) (op : LeaseOp) : option (Result Panic (World * LeaseResult)) :=
  match op with
  | OpAcquire own r => Some (rmap (fun '(s, res) => after_acquire w s res) (try_acquire (authority w) own r))
  | OpChild h own r =>
      match handles w !! h with
      | None => Some (Ok (w, NoHandle))
      | Some l => Some (rmap (fun '(s, res) => after_acquire w s res) (lease_try_child (authority w) l own r))
      end
  | OpRelease h own =>
      match handles w !! h with
      | None => Some (Ok (w, NoHandle))
      | Some l => rmap (fun '(s, l, res) => (mkWorld s (<[h := l]> (handles w)), Returned res)) <$> lease_release_as (authority w) l own
      end
  | OpDrop h =>
      match handles w !! h with
      | None => Some (Ok (w, NoHandle))
      | Some l => rmap (fun s => (mkWorld s (delete h (handles w)), Dropped)) <$> lease_drop (authority w) l
      end
  end.

Fixpoint run_lease_ops (w : World) (ops : list LeaseOp) : option (Result Panic (World * list LeaseResult)) :=
  match ops with
  | [] => Some (Ok (w, []))
  | op :: ops =>
      o ← run_lease_op w op;
      match o with
      | Err p => Some (Err p)
      | Ok (w, r) => rmap (fun '(w, rs) => (w, r :: rs)) <$> run_lease_ops w ops
      end
  end.

Definition op_request_ok (op : LeaseOp) : Prop :=
  match op with OpAcquire _ r | OpChild _ _ r => request_ok r | _ => True end.

(** A live handle holds the lease of its epoch, and every lease that is not a
    tombstone has its handle. *)
Record world_ok (w : World) : Prop := {
  world_authority : authority_ok (authority w);
  world_handles : forall e h, handles w !! e = Some h -> epoch (lease_token h) = e /\ e <= next_epoch (authority w) /\
    (released h = false -> views (authority w) !! e = Some (lease_token h, false));
  world_leases : forall e t, views (authority w) !! e = Some (t, false) -> handles w !! e = Some (mkLease t false)
}.

Lemma world_acquire w s' own parent r t :
  world_ok w -> acquired (authority w) s' own parent r t -> world_ok (mkWorld s' (<[epoch t := mkLease t false]> (handles w))).
Proof.
  intros [Hs Hh Hl] (Ht & Hs' & Hfresh & Hv & Hn & _). split; cbn.
  - done.
  - intros e h [(<- & <-)|[Hne Ha]]%lookup_insert_Some; rewrite Hv, Hn.
    + split; [done|]. split; [by rewrite Ht|]. intros _. apply lookup_insert_eq.
    + destruct (Hh e h Ha) as (He & Hle & Hview). split; [done|]. split; [lia|]. intros Hr. rewrite lookup_insert_ne by done. by apply Hview.
  - intros e t'. rewrite Hv. intros [(<- & [= <-])|[Hne Ht']]%lookup_insert_Some; [apply lookup_insert_eq|].
    rewrite lookup_insert_ne by done. by apply Hl.
Qed.

(** The handle of a returned lease is marked or gone; the others keep theirs. *)
Lemma world_release w e s' hs :
  world_ok w -> authority_ok s' -> released_from (authority w) e s' ->
  (forall e', e' <> e -> hs !! e' = handles w !! e') ->
  (forall h, hs !! e = Some h -> epoch (lease_token h) = e /\ e <= next_epoch (authority w) /\ released h = true) ->
  world_ok (mkWorld s' hs).
Proof.
  intros [Hs Hh Hl] Hs' (Hsub & Hkeep & _ & _ & Hn) Hsame He. split; cbn.
  - done.
  - intros e' h Ha. rewrite Hn. destruct (decide (e' = e)) as [->|Hne].
    + destruct (He h Ha) as (? & ? & Hr). split; [done|]. split; [done|]. congruence.
    + rewrite Hsame in Ha by done. destruct (Hh e' h Ha) as (? & ? & Hview). split; [done|]. split; [done|]. intros Hr. apply Hkeep; [done|by apply Hview].
  - intros e' t Ht. pose proof (lookup_weaken _ _ _ _ Ht Hsub) as [Hne Ht']%lookup_delete_Some. rewrite Hsame by done. by apply Hl.
Qed.

Lemma world_tombstone w e t s' :
  world_ok w -> authority_ok s' -> views s' = <[e := (t, true)]> (views (authority w)) -> next_epoch s' = next_epoch (authority w) ->
  world_ok (mkWorld s' (delete e (handles w))).
Proof.
  intros [Hs Hh Hl] Hs' Hv Hn. split; cbn.
  - done.
  - intros e' h [Hne Ha]%lookup_delete_Some. rewrite Hv, Hn. destruct (Hh e' h Ha) as (? & ? & Hview).
    split; [done|]. split; [done|]. intros Hr. rewrite lookup_insert_ne by done. by apply Hview.
  - intros e' t'. rewrite Hv. intros [[_ [=]]|[Hne Ht']]%lookup_insert_Some. rewrite lookup_delete_ne by done. by apply Hl.
Qed.

(** What an operation must answer, from the account of what is granted alone:
    what is left of a capacity after the leases under [c], ... *)
Definition rest_of (total : ResourceLeaseCapacity) (c : option Z) (s : AuthorityState) : ResourceLeaseCapacity :=
  mkCapacity (cap_compute_units total - granted Compute c (allocations s)) (cap_memory_bytes total - granted Memory c (allocations s)).

(** ... an acquire of [r] from it: a request beyond the whole is exhausted for
    the first resource it exceeds, one beyond what is left is deferred, one
    that fits gets the next epoch unless the epochs are used up, ... *)
Definition acquire_answer (s : AuthorityState) (total : ResourceLeaseCapacity) (c : option Z) (own : Z) (r : ResourceLeaseRequest) : Result ResourceLeaseAcquireError ResourceLeaseToken :=
  let rest := rest_of total c s in
  if cap_compute_units total <? compute_units r then Err (mkAcquireError (exhausted ComputeBudgetExceeded) r rest)
  else if cap_memory_bytes total <? memory_bytes r then Err (mkAcquireError (exhausted MemoryBudgetExceeded) r rest)
  else if (cap_compute_units rest <? compute_units r) || (cap_memory_bytes rest <? memory_bytes r) then Err (mkAcquireError (deferred SharedResourceContention) r rest)
  else if next_epoch s =? 2 ^ 64 - 1 then Err (mkAcquireError (unavailable CapabilityUnavailable) r rest)
  else Ok (mkToken (authority_id s) (next_epoch s + 1) own c r).

(** ... and a release: a handle gives its lease back once, for its owner, and
    only while no child lives. *)
Definition release_answer (s : AuthorityState) (l : ResourceLease) (own : Z) : Result ResourceLeaseReleaseError unit :=
  if released l then Err AlreadyReleased
  else if negb (owner (lease_token l) =? own) then Err OwnerMismatch
  else if 0 <? children (Some (epoch (lease_token l))) (allocations s) then Err ChildrenActive
  else Ok tt.

Definition lease_answer (w : World) (op : LeaseOp) : LeaseResult :=
  match op with
  | OpAcquire own r => Acquired (acquire_answer (authority w) (capacity (authority w)) None own r)
  | OpChild h own r =>
      match handles w !! h with
      | None => NoHandle
      | Some l =>
          Acquired (if released l then Err (mkAcquireError (unavailable CapabilityUnavailable) r (mkCapacity 0 0))
                    else acquire_answer (authority w) (mkCapacity (compute_units (grant (lease_token l))) (memory_bytes (grant (lease_token l)))) (Some h) own r)
      end
  | OpRelease h own => match handles w !! h with None => NoHandle | Some l => Returned (release_answer (authority w) l own) end
  | OpDrop h => match handles w !! h with None => NoHandle | Some _ => Dropped end
  end.

Lemma fits_ltb r c : fits r c = negb (cap_compute_units c <? compute_units r) && negb (cap_memory_bytes c <? memory_bytes r).
Proof. unfold fits. by rewrite <- !Z.leb_antisym. Qed.

(** The branches both acquire paths take, as the answer. *)
Lemma acquire_branches s total c own r : 0 <= next_epoch s < 2 ^ 64 ->
  acquire_answer s total c own r =
    if negb (fits r total) then Err (acquire_error r (rest_of total c s) (exhausted (exceeded_reason r total)))
    else if negb (fits r (rest_of total c s)) then Err (acquire_error r (rest_of total c s) (deferred SharedResourceContention))
    else match take_epoch s with Err availability => Err (acquire_error r (rest_of total c s) availability) | Ok (_, e) => Ok (mkToken (authority_id s) e own c r) end.
Proof.
  intros He. unfold acquire_answer, exceeded_reason. rewrite !fits_ltb, take_epoch_spec. destruct (cap_compute_units total <? compute_units r); cbn [negb andb]; [done|]. destruct (cap_memory_bytes total <? memory_bytes r); cbn [negb]; [done|].
  rewrite <- negb_orb, negb_involutive. destruct (_ || _); [done|]. by destruct (Z.eqb_spec (next_epoch s) (2 ^ 64 - 1)), (Z.ltb_spec (next_epoch s + 1) (2 ^ 64)); try lia.
Qed.

Lemma rest_of_capacity s : authority_ok s -> rest_of (capacity s) None s = free_capacity s.
Proof. intros Hs. unfold rest_of, free_capacity. rewrite <- (proj1 (ok_used _ _ Hs Compute)), <- (proj1 (ok_used _ _ Hs Memory)). done. Qed.

Lemma try_acquire_answer s own r s' res : authority_ok s -> try_acquire s own r = Ok (s', res) -> res = acquire_answer s (capacity s) None own r.
Proof.
  intros Hs. rewrite acquire_branches by apply (ok_epoch _ _ Hs). rewrite rest_of_capacity by done. unfold try_acquire. rewrite (available_free _ _ Hs). cbn [rbind]. destruct (negb (fits r (capacity s))); [by intros [= <- <-]|]. destruct (negb (fits r (free_capacity s))); [by intros [= <- <-]|].
  rewrite take_epoch_spec. destruct (_ <? _); [|by intros [= <- <-]]. cbn [used authority_id]. destruct (checked_add 32 _ _); cbn [expect_some rbind]; [|done]. destruct (checked_add 64 _ _); cbn [expect_some rbind]; [|done]. unfold insert_lease. by intros [= _ <-].
Qed.

Lemma try_acquire_child_answer s t own r s' res : authority_ok s -> views s !! epoch t = Some (t, false) -> try_acquire_child s t own r = Ok (s', res) ->
  res = acquire_answer s (mkCapacity (compute_units (grant t)) (memory_bytes (grant t))) (Some (epoch t)) own r.
Proof.
  intros Hs Hv. unfold views in Hv. rewrite lookup_fmap in Hv. apply fmap_Some in Hv as (a & Ha & [= -> Hpend]). pose proof (ok_allocs _ _ Hs _ _ Ha) as Hok. destruct (alloc_epoch _ _ _ Hok) as (_ & Hid & _).
  assert (mkCapacity (compute_units (remaining a)) (memory_bytes (remaining a)) = rest_of (mkCapacity (compute_units (grant (token a))) (memory_bytes (grant (token a)))) (Some (epoch (token a))) s) as Hrest.
  { pose proof (alloc_remaining _ _ _ Hok Compute) as [_ H1]. pose proof (alloc_remaining _ _ _ Hok Memory) as [_ H2]. unfold rest_of. cbn in *. f_equal; lia. }
  rewrite acquire_branches by apply (ok_epoch _ _ Hs). unfold try_acquire_child. rewrite (proj2 (Z.eqb_eq _ _) Hid), Ha, bool_decide_eq_true_2, Hrest by done. cbn [negb]. destruct (negb (fits r (mkCapacity _ _))); [by intros [= <- <-]|]. destruct (negb (fits r (rest_of _ _ _))); [by intros [= <- <-]|].
  rewrite take_epoch_spec. destruct (_ <? _); [|by intros [= <- <-]]. destruct (checked_sub (compute_units _) _); cbn [expect_some rbind]; [|done]. destruct (checked_sub _ _); cbn [expect_some rbind]; [|done]. destruct (checked_add _ _ _); cbn [expect_some rbind]; [|done]. unfold insert_lease. by intros [= _ <-].
Qed.

Lemma release_token_answer s l own s' res : authority_ok s -> released l = false -> views s !! epoch (lease_token l) = Some (lease_token l, false) -> release_token s (lease_token l) own = Some (Ok (s', res)) -> res = release_answer s l own.
Proof.
  intros Hs Hl Hv. unfold release_answer. rewrite Hl. unfold views in Hv. rewrite lookup_fmap in Hv. apply fmap_Some in Hv as (a & Ha & [= Et Hpend]). pose proof (ok_allocs _ _ Hs _ _ Ha) as Hok. destruct (alloc_epoch _ _ _ Hok) as (_ & Hid & _). rewrite Et in *.
  unfold release_token, validate_release. rewrite (proj2 (Z.eqb_eq _ _) Hid), Ha, bool_decide_eq_true_2 by done. cbn [negb]. destruct (negb (owner (token a) =? own)); [by intros [= <- <-]|]. rewrite <- (alloc_children _ _ _ Hok). pose proof (children_nonneg (Some (epoch (token a))) (allocations s)) as Hnn. rewrite <- (alloc_children _ _ _ Hok) in Hnn.
  destruct (is_ready a) eqn:Er.
  - destruct (release_loop_spec s _ a Hs Ha Er) as (s2 & -> & _). apply (is_ready_spec _ _ _ Hok) in Er. rewrite Er. by intros [= _ <-].
  - intros [= <- <-]. destruct (Z.ltb_spec 0 (child_count a)); [done|]. assert (is_ready a = true) by (apply (is_ready_spec _ _ _ Hok); lia). congruence.
Qed.

Lemma run_lease_op_ok w op :
  world_ok w -> op_request_ok op ->
  exists w' r, run_lease_op w op = Some (Ok (w', r)) /\ world_ok w' /\ r = lease_answer w op /\
    capacity (authority w') = capacity (authority w).
Proof.
  intros Hw Hop. pose proof Hw as [Hs Hh Hl]. destruct w as [s hs]. cbn [authority handles] in *.
  assert (forall own r parent s' res, match res with Ok t => acquired s s' own parent r t | Err _ => s' = s end ->
    world_ok (after_acquire (mkWorld s hs) s' res).1 /\ capacity (authority (after_acquire (mkWorld s hs) s' res).1) = capacity s) as Hacq.
  { intros own r parent s' [t|err] Hres; unfold after_acquire; cbn.
    - split; [by eapply (world_acquire (mkWorld s hs))|]. by destruct Hres as (_ & _ & _ & _ & _ & _ & ->).
    - subst s'. done. }
  destruct op as [own r|h own r|h own|h]; cbn [run_lease_op authority handles].
  - destruct (try_acquire_spec s own r Hs Hop) as (s' & res & E & Hres). rewrite E. cbn. apply try_acquire_answer in E; [|done].
    destruct (Hacq own r None s' res) as [Hok Hcap]; [by destruct res as [t|]; destruct Hres|].
    do 2 eexists. split; [reflexivity|]. split; [exact Hok|]. split; [by rewrite E|exact Hcap].
  - cbn [lease_answer handles authority]. destruct (hs !! h) as [l|] eqn:Eh; [|by do 2 eexists]. destruct (Hh h l Eh) as (He & Hle & Hview). unfold lease_try_child. destruct (released l) eqn:Er.
    { do 2 eexists. split; [reflexivity|]. cbn. done. }
    specialize (Hview eq_refl). subst h.
    destruct (try_acquire_child_spec s (lease_token l) own r Hs Hop) as (s' & res & E & Hres). rewrite E. cbn. apply try_acquire_child_answer in E; [|done|done].
    destruct (Hacq own r (Some (epoch (lease_token l))) s' res) as [Hok Hcap]; [by destruct res as [t|]; [destruct Hres|]|].
    do 2 eexists. split; [reflexivity|]. split; [exact Hok|]. split; [by rewrite E|exact Hcap].
  - cbn [lease_answer handles authority]. destruct (hs !! h) as [l|] eqn:Eh; [|by do 2 eexists]. destruct (Hh h l Eh) as (He & Hle & Hview).
    unfold lease_release_as. destruct (released l) eqn:Er.
    { do 2 eexists. split; [reflexivity|]. cbn. rewrite insert_id by done. split; [done|]. split; [|done]. unfold release_answer. by rewrite Er. }
    subst h. destruct (release_token_spec s (lease_token l) own Hs (Hview eq_refl)) as (s' & res & E & Hres). rewrite E. cbn. apply (release_token_answer s l) in E; [|done|done|by apply Hview].
    destruct res as [u|err].
    + destruct Hres as [Hok Hrel]. do 2 eexists. split; [reflexivity|]. cbn. split; [|split; [rewrite <- E; by destruct u|apply Hrel]].
      eapply (world_release (mkWorld s hs)); [done|done|exact Hrel| |]; cbn.
      * intros e' Hne. by rewrite lookup_insert_ne.
      * intros h' [= <-]%lookup_insert_rev. done.
    + destruct Hres as [-> Hres]. do 2 eexists. split; [reflexivity|]. cbn. rewrite insert_id by done.
      split; [done|]. split; [by rewrite <- E|done].
  - cbn [lease_answer handles authority]. destruct (hs !! h) as [l|] eqn:Eh; [|by do 2 eexists]. destruct (Hh h l Eh) as (He & Hle & Hview).
    unfold lease_drop. destruct (released l) eqn:Er.
    + do 2 eexists. split; [reflexivity|]. cbn. split; [|done]. split; cbn; [done| |].
      * intros e' h' [Hne Ha]%lookup_delete_Some. by apply Hh.
      * intros e' t Ht. rewrite lookup_delete_ne; [by apply Hl|]. intros <-. apply Hl in Ht. rewrite Eh in Ht. injection Ht as ->. done.
    + subst h. destruct (abandon_token_spec s (lease_token l) Hs (Hview eq_refl)) as (s' & -> & Hok & Hres). cbn.
      do 2 eexists. split; [reflexivity|]. cbn. destruct Hres as [Hrel|(Hv & _ & Hcap & Hn)].
      * split; [|split; [done|apply Hrel]]. eapply (world_release (mkWorld s hs)); [done|done|exact Hrel| |]; cbn.
        -- intros e' Hne. by rewrite lookup_delete_ne.
        -- intros h' Hd. by rewrite lookup_delete_eq in Hd.
      * split; [by eapply (world_tombstone (mkWorld s hs))|done].
Qed.

(** The answers of a history: each is the one the account before it gives. *)
Definition answers_follow (w0 : World) (ops : list LeaseOp) (rs : list LeaseResult) : Prop :=
  length rs = length ops /\
  forall i op, ops !! i = Some op -> exists w, run_lease_ops w0 (take i ops) = Some (Ok (w, take i rs)) /\ rs !! i = Some (lease_answer w op).

Lemma run_lease_ops_ok w ops :
  world_ok w -> Forall op_request_ok ops ->
  exists w' rs, run_lease_ops w ops = Some (Ok (w', rs)) /\ world_ok w' /\ answers_follow w ops rs /\
    capacity (authority w') = capacity (authority w).
Proof.
  intros Hw Hops. revert w Hw. induction Hops as [|op ops Hop _ IH]; intros w Hw; [by do 2 eexists|]. cbn [run_lease_ops].
  destruct (run_lease_op_ok w op Hw Hop) as (w1 & r & E & Hw1 & Hr & Hc1). rewrite E. cbn.
  destruct (IH w1 Hw1) as (w2 & rs & -> & Hw2 & [Hlen Hrs] & Hc2). cbn. do 2 eexists. split; [reflexivity|].
  split; [done|]. split; [|by rewrite Hc2]. split; [cbn; by rewrite Hlen|]. intros [|i] op' Hi; cbn in Hi.
  - injection Hi as <-. exists w. cbn. split; [done|by rewrite Hr].
  - destruct (Hrs i op' Hi) as (w' & Hrun & Ha). exists w'. split; [|done]. cbn [take run_lease_ops]. rewrite E. cbn. by rewrite Hrun.
Qed.

Lemma new_world_ok c id : (forall q, 0 <= cap_part q c < 2 ^ part_width q) -> world_ok (mkWorld (SharedResourceLeaseAuthority_new c id) ∅).
Proof.
  intros Hc. split; cbn.
  - split; cbn; [done|lia| |by intros e a ?%lookup_empty_Some|by intros e a ?%lookup_empty_Some].
    intros q. unfold granted. rewrite msum_empty. specialize (Hc q). destruct q; simpl in *; lia.
  - by intros e h ?%lookup_empty_Some.
  - intros e t. unfold views. cbn. rewrite fmap_empty. by intros ?%lookup_empty_Some.
Qed.

(** Tombstones alone cannot stay: each of them has a younger live child. *)
Lemma tombstones_empty s :
  authority_ok s -> (forall e a, allocations s !! e = Some a -> release_pending a = true) -> allocations s = ∅.
Proof.
  intros Hs Hp. assert (forall k e a, allocations s !! e = Some a -> (Z.to_nat (next_epoch s - e) < k)%nat -> False) as H.
  { induction k as [|k IH]; intros e a Ha Hk; [lia|]. pose proof (ok_allocs _ _ Hs e a Ha) as Hok.
    pose proof (ok_pending _ _ Hs e a Ha (Hp e a Ha) ltac:(done)) as Hc. rewrite (alloc_children _ _ _ Hok) in Hc.
    apply msum_pos in Hc as (e' & a' & Ha' & Hu). unfold under in Hu. case_bool_decide as Hpar; [|done].
    pose proof (ok_allocs _ _ Hs e' a' Ha') as Hok'. destruct (alloc_parent _ _ _ Hok' e Hpar) as [Hlt _].
    destruct (alloc_epoch _ _ _ Hok') as (_ & _ & ?). apply (IH e' a' Ha'). lia. }
  apply map_eq. intros e. rewrite lookup_empty. destruct (allocations s !! e) as [a|] eqn:Ha; [|done].
  exfalso. apply (H (S (Z.to_nat (next_epoch s - e))) e a Ha). lia.
Qed.

(** C6: Over any history of acquires, child acquires, releases and drops,
    by any number of threads and in any order, the authority never panics, and
    every call answers what the account before it gives: an acquire succeeds
    exactly when the request fits what the authority (or the parent lease) has
    left and an epoch is free, and otherwise tells apart a request beyond the
    whole, one beyond what is left and a lack of epochs, with what is left; a
    release succeeds exactly for the owner of a lease that is held and has no
    child.  Afterwards the capacity is split exactly between what is available
    and what the root leases hold, every lease's grant is what it keeps plus
    what its children hold, the handles that are held are those of the leases
    that are not tombstones, and every tombstone still has a child. *)
Theorem lease_accounting (c : ResourceLeaseCapacity) (id : Z) (ops : list LeaseOp)
    (Hc : forall q, 0 <= cap_part q c < 2 ^ part_width q) (Hops : Forall op_request_ok ops) :
  exists w rs, run_lease_ops (mkWorld (SharedResourceLeaseAuthority_new c id) ∅) ops = Some (Ok (w, rs)) /\
    answers_follow (mkWorld (SharedResourceLeaseAuthority_new c id) ∅) ops rs /\
    (exists av, authority_available (authority w) = Ok av /\
       forall q, 0 <= cap_part q av /\ cap_part q av + granted q None (allocations (authority w)) = cap_part q c) /\
    (forall e a q, allocations (authority w) !! e = Some a ->
      0 <= part q (remaining a) /\ part q (remaining a) + granted q (Some e) (allocations (authority w)) = part q (grant (token a))) /\
    (forall e t, handles w !! e = Some (mkLease t false) <-> exists a, allocations (authority w) !! e = Some a /\ token a = t /\ release_pending a = false) /\
    forall e a, allocations (authority w) !! e = Some a -> release_pending a = true -> 0 < children (Some e) (allocations (authority w)).
Proof.
  destruct (run_lease_ops_ok _ ops (new_world_ok c id Hc) Hops) as (w & rs & Hrun & Hw & Hrs & Hcap). pose proof Hw as [Hs Hh Hl].
  exists w, rs. split; [done|]. split; [done|]. split; [|split; [|split]].
  - exists (free_capacity (authority w)). split; [by apply (available_free None)|]. intros q. destruct (ok_used _ _ Hs q) as [Hu Hle].
    cbn in Hcap. rewrite <- Hu. destruct q; simpl in *; rewrite Hcap in *; lia.
  - intros e a q Ha. by apply (alloc_remaining _ _ _ (ok_allocs _ _ Hs e a Ha)).
  - intros e t. split.
    + intros He. destruct (Hh e _ He) as (_ & _ & Hv). specialize (Hv eq_refl). unfold views in Hv. rewrite lookup_fmap in Hv. apply fmap_Some in Hv as (a & Ha & [= -> Hp]). by exists a.
    + intros (a & Ha & <- & Hp). apply Hl. unfold views. rewrite lookup_fmap, Ha. cbn. unfold view. by rewrite Hp.
  - intros e a Ha Hp. pose proof (ok_pending _ _ Hs e a Ha Hp ltac:(done)) as H0. rewrite (alloc_children _ _ _ (ok_allocs _ _ Hs e a Ha)) in H0. pose proof (children_nonneg (Some e) (allocations (authority w))). lia.
Qed.

Lemma run_drops w es :
  world_ok w -> (forall e, is_Some (handles w !! e) -> e ∈ es) ->
  exists w' rs, run_lease_ops w (OpDrop <$> es) = Some (Ok (w', rs)) /\ world_ok w' /\ handles w' = ∅ /\
    capacity (authority w') = capacity (authority w).
Proof.
  revert w. induction es as [|e es IH]; intros w Hw Hes.
  { exists w, []. split; [done|]. split; [done|]. split; [|done]. apply map_eq. intros e. rewrite lookup_empty.
    destruct (handles w !! e) eqn:E; [|done]. exfalso. apply (not_elem_of_nil e), Hes. by eexists. }
  cbn [fmap list_fmap run_lease_ops]. destruct (run_lease_op_ok w (OpDrop e) Hw I) as (w1 & r & Hrun & Hw1 & _ & Hc1). rewrite Hrun. cbn.
  destruct (IH w1 Hw1) as (w2 & rs & -> & Hw2 & Hh & Hc2).
  - assert (handles w1 = delete e (handles w)) as ->.
    { cbn [run_lease_op] in Hrun. destruct (handles w !! e) as [l|] eqn:E.
      - destruct (lease_drop (authority w) l) as [[s'|]|]; [|done|done]. by injection Hrun as <- _.
      - injection Hrun as <- _. by rewrite delete_id. }
    intros e' Hsome. rewrite lookup_delete_is_Some in Hsome. destruct Hsome as [Hne Hsome].
    by apply Hes, elem_of_cons in Hsome as [->|?].
  - cbn. do 2 eexists. split; [reflexivity|]. split; [done|]. split; [done|]. by rewrite Hc2.
Qed.

(** C34: Nothing leaks: after any history, dropping the handles that are left,
    in any order (children before or after their parents), always succeeds and
    leaves no allocation behind; the whole capacity is available again. *)
Theorem lease_recovery (c : ResourceLeaseCapacity) (id : Z) (ops : list LeaseOp) (w : World) (rs : list LeaseResult) (es : list Z)
    (Hc : forall q, 0 <= cap_part q c < 2 ^ part_width q) (Hops : Forall op_request_ok ops)
    (Hrun : run_lease_ops (mkWorld (SharedResourceLeaseAuthority_new c id) ∅) ops = Some (Ok (w, rs)))
    (Hes : forall e, is_Some (handles w !! e) -> e ∈ es) :
  exists w' rs', run_lease_ops w (OpDrop <$> es) = Some (Ok (w', rs')) /\
    allocations (authority w') = ∅ /\ authority_available (authority w') = Ok c.
Proof.
  destruct (run_lease_ops_ok _ ops (new_world_ok c id Hc) Hops) as (w0 & rs0 & Hrun0 & Hw & _ & Hcap).
  rewrite Hrun in Hrun0. injection Hrun0 as <- <-. destruct (run_drops w es Hw Hes) as (w' & rs' & Hd & [Hs Hh Hl] & Hempty & Hcap').
  exists w', rs'. split; [done|]. assert (allocations (authority w') = ∅) as He.
  { apply tombstones_empty; [done|]. intros e a Ha. destruct (release_pending a) eqn:E; [done|].
    assert (views (authority w') !! e = Some (token a, false)) as Hv by (unfold views; rewrite lookup_fmap, Ha; simpl; by rewrite <- E).
    apply Hl in Hv. by rewrite Hempty, lookup_empty in Hv. }
  split; [done|]. rewrite (available_free None) by done. pose proof (ok_used _ _ Hs) as Hu. rewrite He in Hu. unfold granted in Hu.
  pose proof (proj1 (Hu Compute)) as H1. pose proof (proj1 (Hu Memory)) as H2. rewrite !msum_empty in *. simpl in *.
  cbn in Hcap. unfold free_capacity. rewrite H1, H2, Hcap', Hcap, !Z.sub_0_r. by destruct c.
Qed.

(** C39: Releasing terminates: on any state of the authority, consistent or
    not, both ways of giving a lease back end, because every turn of the
    cascade over tombstones removes an allocation. *)
Theorem lease_release_terminates (s : AuthorityState) (t : ResourceLeaseToken) (own : Z) :
  is_Some (release_token s t own) /\ is_Some (abandon_token s t own).
Proof.
  unfold release_token, abandon_token, release_loop.
  destruct (validate_release s t own) as [a|]; [|split; by eexists]. destruct (is_ready a); [|split; by eexists].
  split; apply release_ready_terminates; lia.
Qed.

(** A parent of six units whose handle is dropped before its two children. *)
Definition sample_capacity : ResourceLeaseCapacity := mkCapacity 8 800.
Definition sample_ops : list LeaseOp :=
  [OpAcquire 1 (mkRequest 6 600); OpChild 1 2 (mkRequest 2 200); OpChild 1 3 (mkRequest 4 400); OpDrop 1; OpRelease 2 2].

Lemma sample_ok : (forall q, 0 <= cap_part q sample_capacity < 2 ^ part_width q) /\ Forall op_request_ok sample_ops.
Proof. split; [intros []; simpl; lia|]. unfold sample_ops, op_request_ok, request_ok. repeat apply Forall_cons_2; simpl; try lia; done. Defined.

Lemma lease_accounting_witness :
  exists w rs, run_lease_ops (mkWorld (SharedResourceLeaseAuthority_new sample_capacity 7) ∅) sample_ops = Some (Ok (w, rs)) /\
    answers_follow (mkWorld (SharedResourceLeaseAuthority_new sample_capacity 7) ∅) sample_ops rs.
Proof.
  destruct sample_ok as [Hc Hops]. destruct (lease_accounting sample_capacity 7 sample_ops Hc Hops) as (w & rs & H & Hr & _).
  exists w, rs. split; [exact H|exact Hr].
Defined.

(** The sample leaves the handles of the two children in scope. *)
Definition sample_handles : list Z :=
  match run_lease_ops (mkWorld (SharedResourceLeaseAuthority_new sample_capacity 7) ∅) sample_ops with
  | Some (Ok (w, _)) => fst <$> map_to_list (handles w)
  | _ => [0]
  end.

Lemma sample_run : sample_handles = [3; 2] \/ sample_handles = [2; 3].
Proof. vm_compute. auto. Qed.

Lemma lease_recovery_witness :
  exists w rs w' rs', run_lease_ops (mkWorld (SharedResourceLeaseAuthority_new sample_capacity 7) ∅) sample_ops = Some (Ok (w, rs)) /\
    run_lease_ops w (OpDrop <$> [3; 2]) = Some (Ok (w', rs')) /\ authority_available (authority w') = Ok sample_capacity.
Proof.
  destruct sample_ok as [Hc Hops]. pose proof sample_run as Hm. unfold sample_handles in Hm.
  destruct (run_lease_ops (mkWorld (SharedResourceLeaseAuthority_new sample_capacity 7) ∅) sample_ops) as [[[w rs]|]|] eqn:Hrun;
    [|by destruct Hm..].
  assert (forall e, is_Some (handles w !! e) -> e ∈ [3; 2]) as Hes.
  { intros e [h Hh]. apply elem_of_map_to_list, (list_elem_of_fmap_2 fst) in Hh. simpl in Hh.
    clear Hrun. revert Hh. generalize (map_to_list (handles w)) Hm. intros l [->| ->]; rewrite !elem_of_cons; tauto. }
  destruct (lease_recovery sample_capacity 7 sample_ops w rs [3; 2] Hc Hops Hrun Hes) as (w' & rs' & Hd & _ & Hav).
  exists w, rs, w', rs'. split; [reflexivity|]. split; [exact Hd|exact Hav].
Defined.
