(* ===== verification/Pieces.v ===== *)
(** * Pieces, piece multisets, hold and bags

    [clearra-core-domain], [piece/piece_kind.rs], and [clearra-supply]:
    [PieceMultisetKey] ([pattern_universe/piece_multiset_group.rs]), the hold
    slot ([hold/*.rs]), bag profiles and bag states ([bag/bag_profile.rs],
    [bag/bag_state.rs]).  A [u8; 7] of counts is a list of seven [Z]; the
    saturating arithmetic of the key is kept. *)

From Stdlib Require Import ZArith Lia Ascii.
From stdpp Require Import prelude strings.
From S2P Require Import Prelude Words.

(** [PieceKind::{I, O, T, S, Z, J, L}]. *)
Inductive PieceKind := PI | PO | PT | PS | PZ | PJ | PL.

#[export] Instance PieceKind_eq_dec : EqDecision PieceKind.
Proof. solve_decision. Defined.

Definition STANDARD_TETROMINOES : list PieceKind := [PI; PO; PT; PS; PZ; PJ; PL].

Definition to_ascii_uppercase (c : ascii) : ascii :=
  let n := nat_of_ascii c in
  if (97 <=? n)%nat && (n <=? 122)%nat then ascii_of_nat (n - 32) else c.

Inductive UnknownPieceKind := UnknownPiece.

Definition PieceKind_from_ascii (value : ascii) : Result UnknownPieceKind PieceKind :=
  match to_ascii_uppercase value with
  | "I"%char => Ok PI
  | "O"%char => Ok PO
  | "T"%char => Ok PT
  | "S"%char => Ok PS
  | "Z"%char => Ok PZ
  | "J"%char => Ok PJ
  | "L"%char => Ok PL
  | _ => Err UnknownPiece
  end.

Definition as_ascii (p : PieceKind) : ascii :=
  match p with
  | PI => "I" | PO => "O" | PT => "T" | PS => "S" | PZ => "Z" | PJ => "J" | PL => "L"
  end%char.

Definition piece_index (p : PieceKind) : nat :=
  match p with PI => 0 | PO => 1 | PT => 2 | PS => 3 | PZ => 4 | PJ => 5 | PL => 6 end.

(** ** Multisets *)

Record PieceMultisetKey := mkKey {
  counts : list Z;
  total_count : Z
}.

Definition PieceMultisetKey_default : PieceMultisetKey := mkKey (replicate 7 0%Z) 0.

Definition PieceMultisetKey_from_counts (cs : list Z) : PieceMultisetKey :=
  mkKey cs (foldl (saturating_add 8) 0%Z cs).

Definition count_at (cs : list Z) (p : PieceKind) : Z := default 0%Z (cs !! piece_index p).
Definition count (k : PieceMultisetKey) (p : PieceKind) : Z := count_at (counts k) p.

Definition PieceMultisetKey_push (k : PieceMultisetKey) (p : PieceKind) : PieceMultisetKey :=
  mkKey (<[piece_index p := saturating_add 8 (count k p) 1]> (counts k)) (saturating_add 8 (total_count k) 1).

Definition PieceMultisetKey_remove (k : PieceMultisetKey) (p : PieceKind) : PieceMultisetKey * bool :=
  if (count k p =? 0)%Z then (k, false)
  else (mkKey (<[piece_index p := (count k p - 1)%Z]> (counts k)) (total_count k - 1), true).

Definition PieceMultisetKey_from_pieces (pieces : list PieceKind) : PieceMultisetKey :=
  foldl PieceMultisetKey_push PieceMultisetKey_default pieces.

Definition componentwise_max (a b : PieceMultisetKey) : PieceMultisetKey :=
  PieceMultisetKey_from_counts (zip_with Z.max (counts a) (counts b)).

(** ** Hold *)

Inductive HoldPolicy := Forbidden | Allowed | Required.

#[export] Instance HoldPolicy_eq_dec : EqDecision HoldPolicy.
Proof. solve_decision. Defined.

Definition allows_hold (p : HoldPolicy) : bool := match p with Forbidden => false | _ => true end.

Inductive HoldSlot := HoldEmpty | HoldOccupied (p : PieceKind).

Definition HoldSlot_piece (s : HoldSlot) : option PieceKind :=
  match s with HoldEmpty => None | HoldOccupied p => Some p end.

Record HoldSwap := mkHoldSwap { swap_before : HoldSlot; swap_after : HoldSlot; swap_active : PieceKind }.

Definition HoldTransition_no_swap (active : PieceKind) (hold : HoldSlot) : HoldSwap := mkHoldSwap hold hold active.
Definition HoldTransition_swap (current : PieceKind) (hold : HoldSlot) : HoldSwap :=
  mkHoldSwap hold (HoldOccupied current) (default current (HoldSlot_piece hold)).

(** ** Bag profiles *)

Record BagProfileEntry := mkEntry { entry_piece : PieceKind; multiplicity : nat; weight : Z }.

Record BagProfile := mkProfile { profile_id : string; entries : list BagProfileEntry }.

Inductive BagProfileError :=
| EmptyBag
| ZeroMultiplicity (piece : PieceKind)
| ZeroWeight (piece : PieceKind)
| DuplicatePiece (piece : PieceKind).

(** The loop of [BagProfile::new]; [seen] is [entries[..index]]. *)
Fixpoint check_entries (seen entries : list BagProfileEntry) : Result BagProfileError unit :=
  match entries with
  | [] => Ok tt
  | e :: rest =>
      if (multiplicity e =? 0)%nat then Err (ZeroMultiplicity (entry_piece e))
      else if (weight e =? 0)%Z then Err (ZeroWeight (entry_piece e))
      else if existsb (fun c => bool_decide (entry_piece c = entry_piece e)) seen then Err (DuplicatePiece (entry_piece e))
      else check_entries (seen ++ [e]) rest
  end.

Definition BagProfile_new (id : string) (es : list BagProfileEntry) : Result BagProfileError BagProfile :=
  if bool_decide (es = []) then Err EmptyBag
  else check_entries [] es ;? Ok (mkProfile id es).

Definition BagProfile_standard_7 : BagProfile :=
  mkProfile "standard-7-bag" ((fun p => mkEntry p 1 1) <$> STANDARD_TETROMINOES).

Definition bag_size (b : BagProfile) : nat := sum_list (multiplicity <$> entries b).

Definition multiplicity_for (b : BagProfile) (p : PieceKind) : nat :=
  default 0%nat (multiplicity <$> find (fun e => bool_decide (entry_piece e = p)) (entries b)).

(** ** Bag states *)

Inductive BagStateError :=
| NoStandardPieces
| MultiplicityTooLarge (piece : PieceKind) (multiplicity : nat)
| RemainderExceedsProfile (piece : PieceKind) (remaining profile_count : Z).

Record BagState := mkBagState {
  bs_epoch : Z;
  generated_count : Z;
  remainder_counts : list Z
}.

Fixpoint profile_counts_from (b : BagProfile) (pieces : list PieceKind) : Result BagStateError (list Z) :=
  match pieces with
  | [] => Ok []
  | p :: pieces =>
      let m := multiplicity_for b p in
      if (15 <? m)%nat then Err (MultiplicityTooLarge p m)
      else
        let? rest := profile_counts_from b pieces in
        Ok (Z.of_nat m :: rest)
  end.

Definition profile_counts (b : BagProfile) : Result BagStateError (list Z) :=
  let? cs := profile_counts_from b STANDARD_TETROMINOES in
  if forallb (fun c => (c =? 0)%Z) cs then Err NoStandardPieces else Ok cs.

Fixpoint check_remainder (pieces : list PieceKind) (remainder full : list Z) : Result BagStateError unit :=
  match pieces, remainder, full with
  | p :: pieces, r :: remainder, f :: full =>
      if (f <? r)%Z then Err (RemainderExceedsProfile p r f) else check_remainder pieces remainder full
  | _, _, _ => Ok tt
  end.

Definition BagState_from_remainder (b : BagProfile) (epoch generated : Z) (remainder : list Z) : Result BagStateError BagState :=
  let? full := profile_counts b in
  check_remainder STANDARD_TETROMINOES remainder full ;?
  Ok (mkBagState epoch generated remainder).

Definition BagState_fresh (b : BagProfile) : Result BagStateError BagState :=
  let? cs := profile_counts b in
  BagState_from_remainder b 0 0 cs.

(** [fold(0, |key, (index, count)| key | count << ((index + 1) * 4))]. *)
Definition pack_counts (cs : list Z) : Z :=
  foldl (fun key '(index, c) => Z.lor key (shl 64 c (Z.of_nat ((index + 1) * 4)))) 0%Z (imap (fun i c => (i, c)) cs).

Definition packed_remainder_key (s : BagState) : Z := pack_counts (remainder_counts s).

(** ** Lemmas *)

Definition counts_ok (bound : Z) (cs : list Z) : Prop := length cs = 7%nat /\ Forall (fun c => 0 <= c <= bound)%Z cs.

Definition count_of (pieces : list PieceKind) (p : PieceKind) : nat := length (filter (fun q => q = p) pieces).

Lemma piece_index_lt p : (piece_index p < 7)%nat.
Proof. destruct p; simpl; lia. Qed.

Lemma piece_index_inj p q : piece_index p = piece_index q -> p = q.
Proof. by destruct p, q. Qed.

Lemma piece_in_standard p : p ∈ STANDARD_TETROMINOES.
Proof. destruct p; set_solver. Qed.

Lemma count_at_insert cs p q c :
  length cs = 7%nat -> count_at (<[piece_index p := c]> cs) q = if bool_decide (q = p) then c else count_at cs q.
Proof.
  intros Hl. unfold count_at. pose proof (piece_index_lt p). case_bool_decide as He.
  - subst q. by rewrite list_lookup_insert_eq by lia.
  - rewrite list_lookup_insert_ne; [done|]. intros ?%piece_index_inj. by apply He.
Qed.

Lemma counts_ext cs cs' :
  length cs = 7%nat -> length cs' = 7%nat -> (forall p, count_at cs p = count_at cs' p) -> cs = cs'.
Proof.
  intros Hl Hl' H. pose proof (H PI). pose proof (H PO). pose proof (H PT). pose proof (H PS). pose proof (H PZ).
  pose proof (H PJ). pose proof (H PL). clear H. unfold count_at in *.
  do 8 (destruct cs as [|? cs]; try done). do 8 (destruct cs' as [|? cs']; try done). simpl in *. congruence.
Qed.

Lemma counts_at_ok bound cs p : counts_ok bound cs -> (0 <= count_at cs p <= bound)%Z.
Proof.
  intros [Hl Hf]. unfold count_at. pose proof (piece_index_lt p).
  destruct (lookup_lt_is_Some_2 cs (piece_index p)) as [c Hc]; [lia|]. rewrite Hc. by apply (Forall_lookup_1 _ _ _ _ Hf Hc).
Qed.

Lemma counts_ok_insert bound cs p c : counts_ok bound cs -> (0 <= c <= bound)%Z -> counts_ok bound (<[piece_index p := c]> cs).
Proof. intros [Hl Hf] Hc. split; [by rewrite length_insert|]. by apply Forall_insert. Qed.

(** The sum of the seven counts. *)
Definition counts_total (cs : list Z) : Z := foldr Z.add 0%Z cs.

Lemma counts_total_insert cs p c :
  length cs = 7%nat -> counts_total (<[piece_index p := c]> cs) = (counts_total cs - count_at cs p + c)%Z.
Proof.
  intros Hl. do 8 (destruct cs as [|? cs]; try done). unfold counts_total, count_at. destruct p; simpl; lia.
Qed.

Lemma counts_total_bound bound cs : counts_ok bound cs -> (0 <= counts_total cs <= 7 * bound)%Z.
Proof.
  intros [Hl Hf]. do 8 (destruct cs as [|? cs]; try done). unfold counts_total. simpl.
  repeat match goal with H : Forall _ (_ :: _) |- _ => apply Forall_cons in H as [? H] end. lia.
Qed.

Lemma saturating_total cs acc :
  Forall (fun c => 0 <= c)%Z cs -> (0 <= acc)%Z -> (acc + counts_total cs < 256)%Z ->
  foldl (saturating_add 8) acc cs = (acc + counts_total cs)%Z.
Proof.
  intros Hf. revert acc. induction Hf as [|c cs Hc Hf IH]; intros acc Ha Hs; simpl in *; [lia|].
  assert (0 <= counts_total cs)%Z by (clear IH Hs; induction Hf; simpl; lia).
  unfold saturating_add at 2. replace (Z.min (acc + c) (umax 8)) with (acc + c)%Z by (unfold umax; lia). rewrite IH by lia. lia.
Qed.

(** With four-bit counts nothing saturates. *)
Lemma from_counts_total cs : counts_ok 15 cs -> total_count (PieceMultisetKey_from_counts cs) = counts_total cs.
Proof.
  intros Hok. simpl. pose proof (counts_total_bound 15 cs Hok). destruct Hok as [_ Hf].
  rewrite saturating_total; [lia| |lia|lia]. eapply Forall_impl; [exact Hf|]. simpl. lia.
Qed.

Lemma count_of_cons q pieces p : count_of (q :: pieces) p = ((if bool_decide (p = q) then 1 else 0) + count_of pieces p)%nat.
Proof.
  unfold count_of. rewrite filter_cons. case_decide as H; [rewrite bool_decide_eq_true_2 by done|rewrite bool_decide_eq_false_2 by done]; done.
Qed.

Lemma count_of_snoc pieces q p : count_of (pieces ++ [q]) p = (count_of pieces p + (if bool_decide (p = q) then 1 else 0))%nat.
Proof.
  unfold count_of. rewrite filter_app, length_app. f_equal. rewrite filter_cons, filter_nil.
  case_decide as H; [rewrite bool_decide_eq_true_2 by done|rewrite bool_decide_eq_false_2 by done]; done.
Qed.

(** The key of a list of pieces counts them, saturating at 255. *)
Lemma from_pieces_spec pieces :
  let k := PieceMultisetKey_from_pieces pieces in
  length (counts k) = 7%nat /\ total_count k = Z.min (Z.of_nat (length pieces)) 255 /\
  forall p, count k p = Z.min (Z.of_nat (count_of pieces p)) 255.
Proof.
  unfold PieceMultisetKey_from_pieces. induction pieces as [|q pieces IH] using rev_ind.
  { split; [done|]. split; [done|]. intros p. by destruct p. }
  rewrite foldl_app. simpl. destruct IH as (Hl & Ht & Hc).
  set (k := foldl PieceMultisetKey_push PieceMultisetKey_default pieces) in *.
  split; [by rewrite length_insert|]. split.
  - unfold saturating_add, umax. rewrite Ht, length_app. simpl. lia.
  - intros p. unfold count. simpl. rewrite count_at_insert by done. rewrite count_of_snoc. unfold saturating_add, umax.
    case_bool_decide as He; [subst q|]; change (count_at (counts k) p) with (count k p); rewrite !Hc; lia.
Qed.

(** A list of pieces a table of counts stands for. *)
Definition represents (cs : list Z) (pieces : list PieceKind) : Prop :=
  length cs = 7%nat /\ forall p, count_at cs p = Z.of_nat (count_of pieces p).

Lemma represents_total cs pieces : represents cs pieces -> counts_total cs = Z.of_nat (length pieces).
Proof.
  intros [Hl Hc]. assert (length pieces = count_of pieces PI + count_of pieces PO + count_of pieces PT + count_of pieces PS +
    count_of pieces PZ + count_of pieces PJ + count_of pieces PL)%nat as ->.
  { clear Hc. induction pieces as [|q pieces IH]; [done|]. rewrite !count_of_cons. simpl. destruct q; simpl; lia. }
  pose proof (Hc PI). pose proof (Hc PO). pose proof (Hc PT). pose proof (Hc PS). pose proof (Hc PZ). pose proof (Hc PJ).
  pose proof (Hc PL). clear Hc. do 8 (destruct cs as [|? cs]; try done). unfold counts_total, count_at in *. simpl in *. lia.
Qed.

Lemma count_of_perm pieces pieces' p : pieces ≡ₚ pieces' -> count_of pieces p = count_of pieces' p.
Proof. intros H. unfold count_of. by rewrite H. Qed.

Lemma represents_perm cs pieces pieces' : represents cs pieces -> pieces ≡ₚ pieces' -> represents cs pieces'.
Proof. intros [Hl Hc] Hp. split; [done|]. intros p. by rewrite <- (count_of_perm _ _ _ Hp). Qed.

Lemma count_of_pos pieces p : (0 < count_of pieces p)%nat <-> p ∈ pieces.
Proof.
  unfold count_of. split.
  - intros H. destruct (filter (fun q => q = p) pieces) as [|q l] eqn:E; simpl in H; [lia|].
    assert (q ∈ filter (fun q => q = p) pieces) as [-> ?]%list_elem_of_filter by (rewrite E; by left). done.
  - intros H. destruct (filter (fun q => q = p) pieces) as [|q l] eqn:E; simpl; [|lia].
    exfalso. apply (not_elem_of_nil p). rewrite <- E. by apply list_elem_of_filter.
Qed.

(** Removing a piece from the counts removes it from the list. *)
Lemma represents_remove cs pieces p rest :
  represents cs pieces -> pieces ≡ₚ p :: rest -> represents (<[piece_index p := (count_at cs p - 1)%Z]> cs) rest.
Proof.
  intros [Hl Hc] Hp. split; [by rewrite length_insert|]. intros q. rewrite count_at_insert by done.
  rewrite !Hc. rewrite !(count_of_perm _ _ _ Hp), !count_of_cons.
  repeat case_bool_decide; subst; try done; lia.
Qed.

(** Every table of counts stands for some list. *)
Definition pieces_of_counts (cs : list Z) : list PieceKind :=
  concat (zip_with (fun c p => replicate (Z.to_nat c) p) cs STANDARD_TETROMINOES).

Lemma count_of_app l l' p : count_of (l ++ l') p = (count_of l p + count_of l' p)%nat.
Proof. unfold count_of. by rewrite filter_app, length_app. Qed.

Lemma count_of_replicate n q p : count_of (replicate n q) p = if bool_decide (p = q) then n else 0%nat.
Proof. induction n as [|n IH]; simpl; [by case_bool_decide|]. rewrite count_of_cons, IH. by case_bool_decide. Qed.

Lemma represents_pieces_of_counts bound cs : counts_ok bound cs -> represents cs (pieces_of_counts cs).
Proof.
  intros Hok. pose proof (fun p => counts_at_ok bound cs p Hok) as Hc. destruct Hok as [Hl _]. split; [done|]. intros p.
  specialize (Hc p). do 8 (destruct cs as [|? cs]; try done). unfold pieces_of_counts, STANDARD_TETROMINOES. cbn [zip_with concat].
  rewrite !count_of_app, !count_of_replicate. unfold count_of. unfold count_at in *. destruct p; simpl in *; lia.
Qed.

Lemma submseteq_of_counts l l' : (forall p, (count_of l p <= count_of l' p)%nat) -> l ⊆+ l'.
Proof.
  revert l'. induction l as [|p l IH]; intros l' H; [apply submseteq_nil_l|].
  assert (p ∈ l') as [l'' Hp]%elem_of_Permutation.
  { apply count_of_pos. specialize (H p). rewrite count_of_cons, bool_decide_eq_true_2 in H by done. lia. }
  rewrite Hp. apply submseteq_skip, IH. intros q. specialize (H q). rewrite (count_of_perm _ _ _ Hp), !count_of_cons in H. lia.
Qed.

Lemma count_of_submseteq l l' p : l ⊆+ l' -> (count_of l p <= count_of l' p)%nat.
Proof. intros [k Hk]%submseteq_Permutation. rewrite (count_of_perm _ _ _ Hk), count_of_app. lia. Qed.

From stdpp Require Import countable.

(** Pieces index maps and sets. *)
#[export] Instance PieceKind_countable : Countable PieceKind.
Proof.
  refine (inj_countable' piece_index (fun n => nth n STANDARD_TETROMINOES PI) _). by intros [].
Defined.
