(* ===== verification/SupplyAutomaton.v ===== *)
(** * The supply execution automaton

    [clearra-supply], [execution_automaton/supply_execution_automaton.rs]: how
    pieces leave a source one placement at a time.  A state holds the cursor
    into the queue, the hold slot and, for a bag source, the epoch and the
    packed remainder of the current bag.  [transition] is the rule for a known
    queue, [for_each_matching_bag_step] enumerates the branches of a bag
    source that can place a wanted piece.

    [u16], [u64] and [u8] values are [Z] with their checked and wrapping
    operations.  The visitor closure of [for_each_matching_bag_step] is the
    list of the steps it is called with, beside the result: steps visited
    before an error have been visited. *)

From Stdlib Require Import ZArith Lia.
From stdpp Require Import prelude.
From S2P Require Import Prelude Words Pieces.

Inductive PieceSourceKind := FixedQueue | BagUniverse | ObservedWindow | MaterializedPatternUniverse.

#[export] Instance PieceSourceKind_eq_dec : EqDecision PieceSourceKind.
Proof. solve_decision. Defined.

Definition as_u32 (k : PieceSourceKind) : Z :=
  match k with FixedQueue => 1 | BagUniverse => 2 | ObservedWindow => 3 | MaterializedPatternUniverse => 4 end.

Inductive QueueObservationPolicy := FullQueueOracle | VisibleSeven.

Record SupplyObservationIdentity := mkObservation {
  obs_policy : QueueObservationPolicy;
  observation_id : Z
}.

Definition full_queue_oracle : SupplyObservationIdentity := mkObservation FullQueueOracle 0.

Definition policy_tag (o : SupplyObservationIdentity) : Z :=
  match obs_policy o with FullQueueOracle => 1 | VisibleSeven => 2 end.

Inductive SupplyHoldState := HoldDisabled | HoldStateEmpty | HoldStateOccupied (p : PieceKind).
Inductive SupplyBranchKind := BranchCurrent | BranchSwapHeld | BranchStoreCurrent.

#[export] Instance SupplyHoldState_eq_dec : EqDecision SupplyHoldState.
Proof. solve_decision. Defined.

Record SupplyExecutionState := mkState {
  piece_source_id : Z;
  source_kind : PieceSourceKind;
  cursor : Z;
  hold_piece : option PieceKind;
  hold_empty : bool;
  hold_policy : HoldPolicy;
  bag_epoch : Z;
  bag_remainder_key : Z;
  observation : SupplyObservationIdentity;
  provenance : Z
}.

Definition is_none {A} (o : option A) : bool := match o with None => true | Some _ => false end.

Definition SupplyExecutionState_with_contract (source : Z) (kind : PieceSourceKind) (c : Z) (hold : option PieceKind)
    (policy : HoldPolicy) (epoch key : Z) (obs : SupplyObservationIdentity) (prov : Z) : SupplyExecutionState :=
  mkState source kind c hold (is_none hold) policy epoch key obs prov.

Definition SupplyExecutionState_new (source c : Z) (hold : option PieceKind) (epoch key prov : Z) : SupplyExecutionState :=
  SupplyExecutionState_with_contract source MaterializedPatternUniverse c hold Allowed epoch key full_queue_oracle prov.

Definition hold_state (s : SupplyExecutionState) : SupplyHoldState :=
  match hold_policy s, hold_piece s with
  | Forbidden, _ => HoldDisabled
  | _, Some p => HoldStateOccupied p
  | _, None => HoldStateEmpty
  end.

(** Field updates of the mutable copies the code makes of a state. *)
Definition set_cursor (c : Z) (s : SupplyExecutionState) : SupplyExecutionState :=
  mkState (piece_source_id s) (source_kind s) c (hold_piece s) (hold_empty s) (hold_policy s) (bag_epoch s)
    (bag_remainder_key s) (observation s) (provenance s).
Definition set_hold_piece (h : option PieceKind) (s : SupplyExecutionState) : SupplyExecutionState :=
  mkState (piece_source_id s) (source_kind s) (cursor s) h (is_none h) (hold_policy s) (bag_epoch s)
    (bag_remainder_key s) (observation s) (provenance s).
Definition set_bag (epoch key : Z) (s : SupplyExecutionState) : SupplyExecutionState :=
  mkState (piece_source_id s) (source_kind s) (cursor s) (hold_piece s) (hold_empty s) (hold_policy s) epoch
    key (observation s) (provenance s).
Definition set_contract (kind : PieceSourceKind) (policy : HoldPolicy) (s : SupplyExecutionState) : SupplyExecutionState :=
  mkState (piece_source_id s) kind (cursor s) (hold_piece s) (hold_empty s) policy (bag_epoch s)
    (bag_remainder_key s) (observation s) (provenance s).

Inductive SupplyExecutionError :=
| EmptyBagProfile
| InvalidHoldState
| InvalidBagRemainder
| HoldForbidden
| HoldRequired
| MissingHeldPiece
| HoldSlotOccupied
| MissingNextPiece
| CursorExhausted
| BagEpochExhausted.

Record SupplyTransitionEvidence := mkEvidence {
  ev_used_piece : PieceKind;
  queue_current_piece : PieceKind;
  queue_next_piece : option PieceKind;
  queue_advances : Z;
  cursor_before : Z;
  cursor_after : Z;
  hold_before : SupplyHoldState;
  hold_after : SupplyHoldState;
  branch_kind : SupplyBranchKind;
  ev_piece_source_id : Z;
  ev_source_kind : PieceSourceKind;
  ev_observation : SupplyObservationIdentity;
  ev_provenance : Z
}.

Record SupplyExecutionStep := mkStep {
  used_piece : PieceKind;
  next_state : SupplyExecutionState;
  evidence : SupplyTransitionEvidence
}.

Definition step (before next : SupplyExecutionState) (used current : PieceKind) (next_piece : option PieceKind)
    (advances : Z) (branch : SupplyBranchKind) : SupplyExecutionStep :=
  mkStep used next
    (mkEvidence used current next_piece advances (cursor before) (cursor next) (hold_state before) (hold_state next)
       branch (piece_source_id before) (source_kind before) (observation before) (provenance before)).

Definition checked_advance (c amount : Z) : Result SupplyExecutionError Z :=
  ok_or (checked_add 16 c amount) CursorExhausted.

Definition validate (s : SupplyExecutionState) : Result SupplyExecutionError unit :=
  if negb (Bool.eqb (hold_empty s) (is_none (hold_piece s)))
     || (bool_decide (hold_policy s = Forbidden) && negb (is_none (hold_piece s)))
  then Err InvalidHoldState
  else Ok tt.

(** ** Known queues *)

Definition transition (s : SupplyExecutionState) (branch : SupplyBranchKind) (current : PieceKind) (next : option PieceKind)
  : Result SupplyExecutionError SupplyExecutionStep :=
  validate s ;?
  match branch with
  | BranchCurrent =>
      if bool_decide (hold_policy s = Required) then Err HoldRequired
      else
        let? c := checked_advance (cursor s) 1 in
        Ok (step s (set_cursor c s) current current None 1 branch)
  | BranchSwapHeld =>
      if bool_decide (hold_policy s = Forbidden) then Err HoldForbidden
      else
        let? held := ok_or (hold_piece s) MissingHeldPiece in
        let? c := checked_advance (cursor s) 1 in
        Ok (step s (set_hold_piece (Some current) (set_cursor c s)) held current None 1 branch)
  | BranchStoreCurrent =>
      if bool_decide (hold_policy s = Forbidden) then Err HoldForbidden
      else if negb (is_none (hold_piece s)) then Err HoldSlotOccupied
      else
        let? next_piece := ok_or next MissingNextPiece in
        let? c := checked_advance (cursor s) 2 in
        Ok (step s (set_hold_piece (Some current) (set_cursor c s)) next_piece current (Some next_piece) 2 branch)
  end.

Inductive HoldTransition := UseCurrent | SwapHeld | StoreCurrentThenUseNext.

Definition HoldTransition_branch (t : HoldTransition) : SupplyBranchKind :=
  match t with
  | UseCurrent => BranchCurrent
  | SwapHeld => BranchSwapHeld
  | StoreCurrentThenUseNext => BranchStoreCurrent
  end.

Definition SupplyExecutionState_apply (s : SupplyExecutionState) (t : HoldTransition) (current : PieceKind) (next : option PieceKind)
  : Result SupplyExecutionError SupplyExecutionStep :=
  transition s (HoldTransition_branch t) current next.

(** ** Bag remainders *)

Definition storage_mask : Z :=
  foldl (fun mask piece => Z.lor mask (shl 64 15 (Z.of_nat (piece * 4)))) 0%Z (seq 1 7).

Definition decode_remainder (key : Z) : Result SupplyExecutionError PieceMultisetKey :=
  if negb (Z.land key (wnot 64 storage_mask) =? 0)%Z then Err InvalidBagRemainder
  else
    Ok (PieceMultisetKey_from_counts
          ((fun index => Z.land (Z.shiftr key (Z.of_nat ((index + 1) * 4))) 15) <$> seq 0 7)).

Definition encode_remainder (k : PieceMultisetKey) : Z := pack_counts (counts k).

Definition piece_tag (p : PieceKind) : Z :=
  match p with PI => 1 | PO => 2 | PT => 3 | PS => 4 | PZ => 5 | PJ => 6 | PL => 7 end.

Definition remove_piece (k : PieceMultisetKey) (p : PieceKind) : option PieceMultisetKey :=
  let index := Z.to_nat (piece_tag p - 1) in
  let c := default 0%Z (counts k !! index) in
  if (c =? 0)%Z then None else Some (PieceMultisetKey_from_counts (<[index := (c - 1)%Z]> (counts k))).

(** Some count above the bag's. *)
Definition exceeds (remainder full : PieceMultisetKey) : bool :=
  existsb (fun p => (count full p <? count remainder p)%Z) STANDARD_TETROMINOES.

Definition decode_initial_remainder (key : Z) (full : PieceMultisetKey) (fresh : bool)
  : Result SupplyExecutionError PieceMultisetKey :=
  if (key =? 0)%Z && fresh then Ok full
  else
    let? remainder := decode_remainder key in
    if exceeds remainder full then Err InvalidBagRemainder else Ok remainder.

(** ** The automaton: [full_bag: Option<PieceMultisetKey>] *)

Definition SupplyExecutionAutomaton := option PieceMultisetKey.

Definition SupplyExecutionAutomaton_sequence : SupplyExecutionAutomaton := None.

Definition SupplyExecutionAutomaton_for_bag (pattern : list PieceKind) : Result SupplyExecutionError SupplyExecutionAutomaton :=
  let full := PieceMultisetKey_from_pieces pattern in
  if (total_count full =? 0)%Z then Err EmptyBagProfile
  else if existsb (fun c => (15 <? c)%Z) (counts full) then Err InvalidBagRemainder
  else Ok (Some full).

Definition validate_bag_state (a : SupplyExecutionAutomaton) (s : SupplyExecutionState) : Result SupplyExecutionError unit :=
  validate s ;?
  let? full := ok_or a EmptyBagProfile in
  let? remainder := decode_remainder (bag_remainder_key s) in
  if exceeds remainder full then Err InvalidBagRemainder else Ok tt.

Definition draw_bag_piece (a : SupplyExecutionAutomaton) (s : SupplyExecutionState) (p : PieceKind)
  : Result SupplyExecutionError (option SupplyExecutionState) :=
  let? full := ok_or a EmptyBagProfile in
  let? remainder := decode_remainder (bag_remainder_key s) in
  let? '(epoch, remainder) :=
    (if (total_count remainder =? 0)%Z then
       let? epoch :=
         (if negb (cursor s =? 0)%Z then ok_or (checked_add 16 (bag_epoch s) 1) BagEpochExhausted else Ok (bag_epoch s)) in
       Ok (epoch, full)
     else Ok (bag_epoch s, remainder)) in
  match remove_piece remainder p with
  | None => Ok None
  | Some remainder =>
      let? c := checked_advance (cursor s) 1 in
      Ok (Some (set_bag epoch (encode_remainder remainder) (set_cursor c s)))
  end.

Definition advance_bag_cursor (a : SupplyExecutionAutomaton) (s : SupplyExecutionState) (p : PieceKind)
  : Result SupplyExecutionError (option SupplyExecutionState) :=
  validate_bag_state a s ;? draw_bag_piece a s p.

(** The loops over [STANDARD_TETROMINOES]: [visit] gives the step for a
    candidate, if any; the steps visited before an error are kept. *)
Fixpoint visit_pieces (visit : PieceKind -> Result SupplyExecutionError (option SupplyExecutionStep)) (pieces : list PieceKind)
  : list SupplyExecutionStep * Result SupplyExecutionError unit :=
  match pieces with
  | [] => ([], Ok tt)
  | p :: pieces =>
      match visit p with
      | Err e => ([], Err e)
      | Ok o =>
          let '(steps, r) := visit_pieces visit pieces in
          (match o with Some st => st :: steps | None => steps end, r)
      end
  end.

Definition visit_swap (a : SupplyExecutionAutomaton) (s : SupplyExecutionState) (desired current : PieceKind)
  : Result SupplyExecutionError (option SupplyExecutionStep) :=
  let? drawn := draw_bag_piece a s current in
  Ok ((fun n => step s (set_hold_piece (Some current) n) desired current None 1 BranchSwapHeld) <$> drawn).

Definition visit_store (a : SupplyExecutionAutomaton) (s : SupplyExecutionState) (desired current : PieceKind)
  : Result SupplyExecutionError (option SupplyExecutionStep) :=
  let? after_current := draw_bag_piece a s current in
  match after_current with
  | None => Ok None
  | Some after_current =>
      let? drawn := draw_bag_piece a after_current desired in
      Ok ((fun n => step s (set_hold_piece (Some current) n) desired current (Some desired) 2 BranchStoreCurrent) <$> drawn)
  end.

Definition visit_hold (a : SupplyExecutionAutomaton) (s : SupplyExecutionState) (desired : PieceKind)
  : list SupplyExecutionStep * Result SupplyExecutionError unit :=
  match hold_state s with
  | HoldDisabled => ([], Ok tt)
  | HoldStateOccupied held =>
      if bool_decide (held = desired) then visit_pieces (visit_swap a s desired) STANDARD_TETROMINOES else ([], Ok tt)
  | HoldStateEmpty => visit_pieces (visit_store a s desired) STANDARD_TETROMINOES
  end.

Definition for_each_matching_bag_step (a : SupplyExecutionAutomaton) (s : SupplyExecutionState) (desired : PieceKind)
  : list SupplyExecutionStep * Result SupplyExecutionError unit :=
  match validate_bag_state a s with
  | Err e => ([], Err e)
  | Ok _ =>
      if negb (bool_decide (hold_policy s = Required)) then
        match draw_bag_piece a s desired with
        | Err e => ([], Err e)
        | Ok drawn =>
            let first := match drawn with Some n => [step s n desired desired None 1 BranchCurrent] | None => [] end in
            let '(rest, r) := visit_hold a s desired in
            (first ++ rest, r)
        end
      else visit_hold a s desired
  end.

(** [write_matching_bag_steps] clears the vector first. *)
Definition write_matching_bag_steps (a : SupplyExecutionAutomaton) (s : SupplyExecutionState) (desired : PieceKind)
    (branches : list SupplyExecutionStep) : list SupplyExecutionStep * Result SupplyExecutionError unit :=
  let '(steps, r) := for_each_matching_bag_step a s desired in
  ([] ++ steps, r).

(** [usize] sums of the projection; [placed_piece_count] is a [usize]. *)
Definition project_bag_initial_state (a : SupplyExecutionAutomaton) (s : SupplyExecutionState) (hold_enabled : bool) (placed : Z)
  : Result SupplyExecutionError SupplyExecutionState :=
  let? full := ok_or a EmptyBagProfile in
  if negb (Bool.eqb (hold_empty s) (is_none (hold_piece s))) || (negb hold_enabled && negb (is_none (hold_piece s)))
  then Err InvalidHoldState
  else
    let policy :=
      if hold_enabled
      then (if bool_decide (hold_policy s = Required) then Required else Allowed)
      else Forbidden in
    let s := set_contract BagUniverse policy s in
    let? remainder := decode_initial_remainder (bag_remainder_key s) full (cursor s =? 0)%Z in
    let s := set_bag (bag_epoch s) (encode_remainder remainder) s in
    validate_bag_state a s ;?
    let optional_hold_draw := (if hold_enabled && is_none (hold_piece s) then 1 else 0)%Z in
    let? maximum_draw_count := ok_or (checked_add 64 placed optional_hold_draw) CursorExhausted in
    let? maximum_draw_count_u16 := ok_or (try_from 16 maximum_draw_count) CursorExhausted in
    ok_or (checked_add 16 (cursor s) maximum_draw_count_u16) CursorExhausted ;?
    let refill_draw_count := saturating_sub maximum_draw_count (total_count remainder) in
    let full_bag_size := total_count full in
    let? maximum_refills :=
      (if (refill_draw_count =? 0)%Z then Ok 0%Z
       else
         let? sum := ok_or (checked_add 64 refill_draw_count (full_bag_size - 1)) BagEpochExhausted in
         Ok (sum / full_bag_size)%Z) in
    let? maximum_refills := ok_or (try_from 16 maximum_refills) BagEpochExhausted in
    ok_or (checked_add 16 (bag_epoch s) maximum_refills) BagEpochExhausted ;?
    Ok s.

(** ** Keys *)

Definition hold_policy_tag (p : HoldPolicy) : Z := match p with Forbidden => 1 | Allowed => 2 | Required => 3 end.

Definition piece_tag_or_0 (o : option PieceKind) : Z := match o with Some p => piece_tag p | None => 0 end.
Definition bool_u8 (b : bool) : Z := if b then 1 else 0.

Definition ordering_key (s : SupplyExecutionState) : list Z :=
  [piece_source_id s; as_u32 (source_kind s); cursor s; piece_tag_or_0 (hold_piece s); bool_u8 (hold_empty s);
   hold_policy_tag (hold_policy s); bag_epoch s; bag_remainder_key s; policy_tag (observation s);
   observation_id (observation s); provenance s].

Fixpoint lex_cmp (a b : list Z) : comparison :=
  match a, b with
  | [], [] => Eq
  | [], _ => Lt
  | _, [] => Gt
  | x :: a, y :: b => match (x ?= y)%Z with Eq => lex_cmp a b | c => c end
  end.

Definition SupplyExecutionState_cmp (a b : SupplyExecutionState) : comparison := lex_cmp (ordering_key a) (ordering_key b).

Definition fnv_seed : Z := 14695981039346656037.
Definition mix_u8 (hash value : Z) : Z := wrapping_mul 64 (Z.lxor hash value) 1099511628211.
Definition mix_bytes (hash value : Z) (shifts : list nat) : Z :=
  foldl (fun h shift => mix_u8 h (Z.land (Z.shiftr value (Z.of_nat shift)) 255)) hash shifts.
Definition mix_u16 (hash value : Z) : Z := mix_bytes hash value [0; 8]%nat.
Definition mix_u32 (hash value : Z) : Z := mix_bytes hash value [0; 8; 16; 24]%nat.
Definition mix_u64 (hash value : Z) : Z := mix_bytes hash value [0; 8; 16; 24; 32; 40; 48; 56]%nat.

(** [SupplyExecutionMemoKey] has the fields of the state it is taken from. *)
Definition stable_hash (k : SupplyExecutionState) : Z :=
  let hash := mix_u64 fnv_seed (piece_source_id k) in
  let hash := mix_u32 hash (as_u32 (source_kind k)) in
  let hash := mix_u16 hash (cursor k) in
  let hash := mix_u8 hash (piece_tag_or_0 (hold_piece k)) in
  let hash := mix_u8 hash (bool_u8 (hold_empty k)) in
  let hash := mix_u8 hash (hold_policy_tag (hold_policy k)) in
  let hash := mix_u16 hash (bag_epoch k) in
  let hash := mix_u64 hash (bag_remainder_key k) in
  let hash := mix_u8 hash (policy_tag (observation k)) in
  let hash := mix_u64 hash (observation_id (observation k)) in
  mix_u64 hash (provenance k).

(** ** Packed remainders *)

Lemma lor_shl_add a c k :
  (0 <= k < 64)%Z -> (0 <= a < 2 ^ k)%Z -> (0 <= c)%Z -> (c * 2 ^ k < 2 ^ 64)%Z ->
  Z.lor a (shl 64 c k) = (a + c * 2 ^ k)%Z.
Proof.
  intros Hk Ha Hc Hw. unfold shl. rewrite Z.mod_small, Z.land_ones, Z.shiftl_mul_pow2 by lia.
  rewrite Z.mod_small by (split; [apply Z.mul_nonneg_nonneg; lia|done]).
  rewrite <- Z.shiftl_mul_pow2 by lia. rewrite <- Z.lxor_lor, <- Z.add_nocarry_lxor; [done| |];
    apply Z.bits_inj'; intros n Hn; rewrite Z.land_spec, Z.testbit_0_l;
    (destruct (Z.lt_ge_cases n k); [by rewrite Z.shiftl_spec_low, andb_false_r|]);
    rewrite (in_width_testbit k a n) by (done || unfold in_width; lia); done.
Qed.

Lemma pack_counts_sum c0 c1 c2 c3 c4 c5 c6 :
  counts_ok 15 [c0; c1; c2; c3; c4; c5; c6] ->
  pack_counts [c0; c1; c2; c3; c4; c5; c6] =
    (c0 * 16 + c1 * 256 + c2 * 4096 + c3 * 65536 + c4 * 1048576 + c5 * 16777216 + c6 * 268435456)%Z.
Proof.
  intros [_ Hf]. repeat match goal with H : Forall _ (_ :: _) |- _ => apply Forall_cons in H as [? H] end.
  unfold pack_counts. cbn [imap foldl Nat.add Nat.mul compose].
  rewrite (lor_shl_add 0 c0) by (simpl; lia). rewrite (lor_shl_add _ c1) by (simpl; lia).
  rewrite (lor_shl_add _ c2) by (simpl; lia). rewrite (lor_shl_add _ c3) by (simpl; lia).
  rewrite (lor_shl_add _ c4) by (simpl; lia). rewrite (lor_shl_add _ c5) by (simpl; lia).
  rewrite (lor_shl_add _ c6) by (simpl; lia). simpl. lia.
Qed.

(** The keys [decode_remainder] accepts: four-bit counts in bits 4 to 31. *)
Lemma storage_mask_ok key :
  in_width 64 key -> (Z.land key (wnot 64 storage_mask) =? 0)%Z = true <-> (key mod 16 = 0 /\ key < 2 ^ 32)%Z.
Proof.
  intros Hw. assert (forall j, (0 <= j < 64)%Z -> Z.testbit storage_mask j = (4 <=? j)%Z && (j <? 32)%Z) as Hmask.
  { intros j Hj. change storage_mask with (Z.shiftl (Z.ones 28) 4). rewrite Z.shiftl_spec, testbit_ones by lia.
    destruct (Z.leb_spec 0 (j - 4)), (Z.leb_spec 4 j), (Z.ltb_spec (j - 4) 28), (Z.ltb_spec j 32); simpl; try done; lia. }
  assert (in_width 64 storage_mask) as Hmw by (unfold in_width; vm_compute; split; [discriminate|reflexivity]).
  rewrite Z.eqb_eq, word_0_iff by (apply Z.land_nonneg; left; by destruct Hw).
  assert ((forall i, (0 <= i)%Z -> Z.testbit (Z.land key (wnot 64 storage_mask)) i = false) <->
    forall i, (0 <= i < 64)%Z -> (i < 4)%Z \/ (32 <= i)%Z -> Z.testbit key i = false) as ->.
  { split; intros H i Hi.
    - intros Hr. specialize (H i ltac:(lia)). rewrite Z.land_spec, testbit_wnot, Hmask in H by (lia || done).
      destruct (Z.leb_spec 4 i), (Z.ltb_spec i 32); simpl in H; try lia;
        rewrite (proj2 (Z.leb_le 0 i)), (proj2 (Z.ltb_lt i 64)) in H by lia; by rewrite andb_true_r in H.
    - rewrite Z.land_spec. destruct (Z.lt_ge_cases i 64) as [Hlt|Hge]; [|by rewrite (in_width_testbit 64 key i)].
      rewrite testbit_wnot, Hmask by (lia || done). destruct (Z.leb_spec 4 i), (Z.ltb_spec i 32); simpl; rewrite ?andb_false_r; try done;
        rewrite H by lia; done. }
  split.
  - intros H. split.
    + change 16%Z with (2 ^ 4)%Z. rewrite <- Z.land_ones by lia. apply Z.bits_inj'. intros i Hi.
      rewrite Z.land_spec, Z.testbit_0_l, testbit_ones by lia. destruct (Z.ltb_spec i 4); [|by rewrite !andb_false_r].
      rewrite H by lia. done.
    + apply in_width_of_bits; [lia|by destruct Hw|]. intros i Hi. destruct (Z.lt_ge_cases i 64); [apply H; lia|].
      by apply (in_width_testbit 64).
  - intros [Hmod Hlt] i Hi [Hlo|Hhi].
    + change 16%Z with (2 ^ 4)%Z in Hmod. rewrite <- Z.land_ones in Hmod by lia.
      apply (f_equal (fun z => Z.testbit z i)) in Hmod. rewrite Z.land_spec, Z.testbit_0_l, testbit_ones in Hmod by lia.
      rewrite (proj2 (Z.leb_le 0 i)), (proj2 (Z.ltb_lt i 4)), !andb_true_r in Hmod by lia. done.
    + apply (in_width_testbit 32); [|done]. split; [by destruct Hw|done].
Qed.

Lemma nibble_spec key i : (0 <= i)%Z -> Z.land (Z.shiftr key i) 15 = ((key / 2 ^ i) mod 16)%Z.
Proof.
  intros Hi. change 15%Z with (Z.ones 4). rewrite Z.land_ones by lia. by rewrite Z.shiftr_div_pow2.
Qed.

Lemma pack_counts_width cs : counts_ok 15 cs -> in_width 64 (pack_counts cs).
Proof.
  intros Hok. pose proof Hok as [Hl Hf]. do 8 (destruct cs as [|? cs]; try done). rewrite pack_counts_sum by done.
  repeat match goal with H : Forall _ (_ :: _) |- _ => apply Forall_cons in H as [? H] end. unfold in_width. lia.
Qed.

Lemma nibble_mid low c high b : (0 <= low < b)%Z -> (0 <= c <= 15)%Z -> (((low + b * (c + 16 * high)) / b) mod 16 = c)%Z.
Proof.
  intros Hl Hc. rewrite (Z.mul_comm b), Z.div_add, Z.div_small, Z.add_0_l by lia.
  rewrite (Z.mul_comm 16), Z.mod_add by lia. apply Z.mod_small. lia.
Qed.

Lemma decode_encode cs : counts_ok 15 cs -> decode_remainder (pack_counts cs) = Ok (PieceMultisetKey_from_counts cs).
Proof.
  intros Hok. unfold decode_remainder. pose proof (pack_counts_width cs Hok) as Hw. pose proof Hok as [Hl Hf].
  destruct cs as [|c0 [|c1 [|c2 [|c3 [|c4 [|c5 [|c6 [|? ?]]]]]]]]; try done. rewrite pack_counts_sum in * by done.
  repeat match goal with H : Forall _ (_ :: _) |- _ => apply Forall_cons in H as [? H] end.
  rewrite (proj2 (storage_mask_ok _ Hw)) by (split; [euclid|lia]). cbn [negb]. do 2 f_equal.
  cbn [seq fmap list_fmap]. rewrite !nibble_spec by lia. simpl Z.of_nat. simpl Z.pow.
  f_equal; [rewrite <- (nibble_mid 0 c0 (c1 + 16 * c2 + 256 * c3 + 4096 * c4 + 65536 * c5 + 1048576 * c6) 16) at 2 by lia; do 2 f_equal; lia|].
  f_equal; [rewrite <- (nibble_mid (c0 * 16) c1 (c2 + 16 * c3 + 256 * c4 + 4096 * c5 + 65536 * c6) 256) at 2 by lia; do 2 f_equal; lia|].
  f_equal; [rewrite <- (nibble_mid (c0 * 16 + c1 * 256) c2 (c3 + 16 * c4 + 256 * c5 + 4096 * c6) 4096) at 2 by lia; do 2 f_equal; lia|].
  f_equal; [rewrite <- (nibble_mid (c0 * 16 + c1 * 256 + c2 * 4096) c3 (c4 + 16 * c5 + 256 * c6) 65536) at 2 by lia; do 2 f_equal; lia|].
  f_equal; [rewrite <- (nibble_mid (c0 * 16 + c1 * 256 + c2 * 4096 + c3 * 65536) c4 (c5 + 16 * c6) 1048576) at 2 by lia; do 2 f_equal; lia|].
  f_equal; [rewrite <- (nibble_mid (c0 * 16 + c1 * 256 + c2 * 4096 + c3 * 65536 + c4 * 1048576) c5 c6 16777216) at 2 by lia; do 2 f_equal; lia|].
  f_equal. rewrite <- (nibble_mid (c0 * 16 + c1 * 256 + c2 * 4096 + c3 * 65536 + c4 * 1048576 + c5 * 16777216) c6 0 268435456) at 2 by lia. do 2 f_equal. lia.
Qed.

Lemma encode_decode key k :
  in_width 64 key -> decode_remainder key = Ok k ->
  counts_ok 15 (counts k) /\ k = PieceMultisetKey_from_counts (counts k) /\ pack_counts (counts k) = key.
Proof.
  intros Hw. unfold decode_remainder. destruct (Z.land key (wnot 64 storage_mask) =? 0)%Z eqn:E; cbn [negb]; [|done].
  apply storage_mask_ok in E as [Hmod Hlt]; [|done]. intros [= <-]. cbn [counts PieceMultisetKey_from_counts].
  cbn [seq fmap list_fmap]. rewrite !nibble_spec by lia. simpl Z.of_nat. simpl Z.pow.
  assert (counts_ok 15 [(key / 16) mod 16; (key / 256) mod 16; (key / 4096) mod 16; (key / 65536) mod 16;
    (key / 1048576) mod 16; (key / 16777216) mod 16; (key / 268435456) mod 16]%Z) as Hok.
  { split; [done|]. repeat apply Forall_cons_2; try apply Forall_nil_2;
      (match goal with |- context [(?x mod 16)%Z] => pose proof (Z.mod_pos_bound x 16 ltac:(lia)); lia end). }
  split; [done|]. split; [done|]. rewrite pack_counts_sum by done. destruct Hw as [H0 _].
  pose proof (Z.div_mod key 16 ltac:(lia)). pose proof (Z.div_pos key 16 H0 ltac:(lia)).
  change (2 ^ Z.of_nat 4)%Z with 16%Z. change (2 ^ Z.of_nat 8)%Z with 256%Z. change (2 ^ Z.of_nat 12)%Z with 4096%Z.
  change (2 ^ Z.of_nat 16)%Z with 65536%Z. change (2 ^ Z.of_nat 20)%Z with 1048576%Z.
  change (2 ^ Z.of_nat 24)%Z with 16777216%Z. change (2 ^ Z.of_nat 28)%Z with 268435456%Z.
  replace (key / 256)%Z with (key / 16 / 16)%Z by (by rewrite !Z.div_div).
  replace (key / 4096)%Z with (key / 16 / 16 / 16)%Z by (by rewrite !Z.div_div).
  replace (key / 65536)%Z with (key / 16 / 16 / 16 / 16)%Z by (by rewrite !Z.div_div).
  replace (key / 1048576)%Z with (key / 16 / 16 / 16 / 16 / 16)%Z by (by rewrite !Z.div_div).
  replace (key / 16777216)%Z with (key / 16 / 16 / 16 / 16 / 16 / 16)%Z by (by rewrite !Z.div_div).
  replace (key / 268435456)%Z with (key / 16 / 16 / 16 / 16 / 16 / 16 / 16)%Z by (by rewrite !Z.div_div).
  repeat match goal with |- context [(?q mod 16)%Z] =>
    lazymatch goal with H : q = (16 * (q / 16) + q mod 16)%Z |- _ => fail | _ => pose proof (Z.div_mod q 16 ltac:(lia)) end end.
  assert (key / 16 / 16 / 16 / 16 / 16 / 16 / 16 / 16 = 0)%Z; [|lia].
  rewrite !Z.div_div by done. apply Z.div_small. split; [done|exact Hlt].
Qed.

(** The packed bag remainder is a faithful encoding: decoding what
    [encode_remainder] (and [BagState::packed_remainder_key]) wrote gives the
    counts back, every accepted key is the encoding of its counts, and the
    keys rejected are exactly those with a bit outside the seven four-bit
    fields. *)
Theorem remainder_roundtrip :
  (forall cs, counts_ok 15 cs -> decode_remainder (encode_remainder (PieceMultisetKey_from_counts cs)) = Ok (PieceMultisetKey_from_counts cs)) /\
  (forall s, counts_ok 15 (remainder_counts s) ->
     decode_remainder (packed_remainder_key s) = Ok (PieceMultisetKey_from_counts (remainder_counts s))) /\
  (forall key k, in_width 64 key -> decode_remainder key = Ok k -> encode_remainder k = key) /\
  (forall key, in_width 64 key ->
     decode_remainder key = Err InvalidBagRemainder <-> (key mod 16 <> 0 \/ 2 ^ 32 <= key)%Z).
Proof.
  split; [intros cs; apply decode_encode|]. split; [intros s; apply decode_encode|]. split.
  - intros key k Hw H. by apply encode_decode in H as (_ & _ & ?).
  - intros key Hw. pose proof (storage_mask_ok key Hw) as Hm. unfold decode_remainder.
    destruct (Z.land key (wnot 64 storage_mask) =? 0)%Z; cbn [negb].
    + destruct (proj1 Hm eq_refl). split; [done|lia].
    + split; [|done]. intros _. destruct (decide (key mod 16 = 0)%Z); [|by left]. right.
      destruct (decide (key < 2 ^ 32)%Z); [|lia]. discriminate (proj2 Hm (conj e l)).
Qed.

(** ** Hold and queue *)

Definition hold_ok (s : SupplyExecutionState) : Prop :=
  hold_empty s = is_none (hold_piece s) /\ (hold_policy s = Forbidden -> hold_piece s = None).

Lemma validate_Ok s : validate s = Ok tt <-> hold_ok s.
Proof.
  unfold validate, hold_ok. destruct (hold_piece s) as [p|], (hold_empty s); simpl; try case_bool_decide; simpl;
    intuition (discriminate || congruence).
Qed.

Lemma validate_cases s : validate s = Ok tt \/ validate s = Err InvalidHoldState.
Proof. unfold validate. destruct (_ || _); auto. Qed.

(** The queue pieces a step consumed, as its evidence records them. *)
Definition consumed (e : SupplyTransitionEvidence) : list PieceKind :=
  queue_current_piece e :: option_list (queue_next_piece e).

(** What a branch needs. *)
Definition enabled (s : SupplyExecutionState) (branch : SupplyBranchKind) (next : option PieceKind) : Prop :=
  hold_ok s /\
  match branch with
  | BranchCurrent => hold_policy s <> Required /\ (cursor s + 1 < 2 ^ 16)%Z
  | BranchSwapHeld => hold_policy s <> Forbidden /\ hold_piece s <> None /\ (cursor s + 1 < 2 ^ 16)%Z
  | BranchStoreCurrent => hold_policy s <> Forbidden /\ hold_piece s = None /\ next <> None /\ (cursor s + 2 < 2 ^ 16)%Z
  end.

Lemma checked_advance_Ok c n c' : checked_advance c n = Ok c' <-> (c + n < 2 ^ 16)%Z /\ c' = (c + n)%Z.
Proof. unfold checked_advance. by rewrite ok_or_Ok, checked_add_Some. Qed.

Lemma transition_Ok s branch current next st :
  transition s branch current next = Ok st <->
  enabled s branch next /\
  st =
    match branch with
    | BranchCurrent => step s (set_cursor (cursor s + 1) s) current current None 1 branch
    | BranchSwapHeld =>
        step s (set_hold_piece (Some current) (set_cursor (cursor s + 1) s)) (default current (hold_piece s)) current None 1 branch
    | BranchStoreCurrent =>
        step s (set_hold_piece (Some current) (set_cursor (cursor s + 2) s)) (default current next) current next 2 branch
    end.
Proof.
  unfold transition, enabled. pose proof (validate_Ok s) as Hv.
  destruct (validate_cases s) as [E|E]; rewrite E in *; cbn [rbind]; [|split; [done|intros [[H _] _]; by apply Hv in H]].
  assert (hold_ok s) as Hok by (by apply Hv). destruct branch; case_bool_decide as Hp; try (split; [done|intuition congruence]).
  - rewrite rbind_Ok. split.
    + intros (c & [Hc ->]%checked_advance_Ok & [= <-]). done.
    + intros ((_ & _ & Hc) & ->). exists (cursor s + 1)%Z. by rewrite checked_advance_Ok.
  - destruct (hold_piece s) as [held|] eqn:Eh; simpl; [|split; [done|naive_solver]]. rewrite rbind_Ok. split.
    + intros (c & [Hc ->]%checked_advance_Ok & [= <-]). naive_solver.
    + intros ((_ & _ & _ & Hc) & ->). exists (cursor s + 1)%Z. by rewrite checked_advance_Ok.
  - destruct (hold_piece s) as [held|] eqn:Eh; simpl; [split; [done|naive_solver]|].
    destruct next as [n|]; simpl; [|split; [done|naive_solver]]. rewrite rbind_Ok. split.
    + intros (c & [Hc ->]%checked_advance_Ok & [= <-]). naive_solver.
    + intros ((_ & _ & _ & _ & Hc) & ->). exists (cursor s + 2)%Z. by rewrite checked_advance_Ok.
Qed.

(** [transition] succeeds exactly when the branch is enabled (a valid
    hold slot, a policy that permits the branch, the pieces it needs, room in
    the cursor), and then no piece is lost or invented: the piece used plus
    the hold slot afterwards are the hold slot before plus the queue pieces
    consumed; the cursor advances by the number consumed; the new state is
    valid and everything else in it is unchanged. *)
Theorem transition_conserves (s : SupplyExecutionState) (branch : SupplyBranchKind) (current : PieceKind) (next : option PieceKind) :
  ((exists st, transition s branch current next = Ok st) <-> enabled s branch next) /\
  forall st, transition s branch current next = Ok st ->
    used_piece st :: option_list (hold_piece (next_state st)) ≡ₚ option_list (hold_piece s) ++ consumed (evidence st) /\
    queue_current_piece (evidence st) = current /\
    cursor (next_state st) = (cursor s + queue_advances (evidence st))%Z /\
    queue_advances (evidence st) = Z.of_nat (length (consumed (evidence st))) /\
    hold_ok (next_state st) /\ branch_kind (evidence st) = branch /\ ev_used_piece (evidence st) = used_piece st /\
    exists c h, next_state st = set_hold_piece h (set_cursor c s).
Proof.
  split.
  - split; [intros (st & [? _]%transition_Ok); done|]. intros He. eexists. apply transition_Ok. split; [done|reflexivity].
  - intros st [[Hok He] ->]%transition_Ok. destruct s as [src kind c h he pol ep key obs prov]; unfold hold_ok in *; simpl in *.
    destruct Hok as [-> Hforb]. destruct branch; simpl; unfold consumed; simpl.
    + split_and!; try done; [destruct h; simpl; by constructor|]. by exists (c + 1)%Z, h.
    + destruct He as (Hp & Hh & _). destruct h as [held|]; [|done]. simpl. split_and!; try done. by exists (c + 1)%Z, (Some current).
    + destruct He as (Hp & -> & Hn & _). destruct next as [n|]; [|done]. simpl.
      split_and!; try done; [apply Permutation_swap|]. by exists (c + 2)%Z, (Some current).
Qed.

(** A run over a known queue: the state reads the queue at its cursor. *)
Inductive queue_run (queue : list PieceKind) : SupplyExecutionState -> list PieceKind -> SupplyExecutionState -> Prop :=
| queue_run_nil s : queue_run queue s [] s
| queue_run_step s branch current st placed s' :
    queue !! Z.to_nat (cursor s) = Some current ->
    transition s branch current (queue !! S (Z.to_nat (cursor s))) = Ok st ->
    queue_run queue (next_state st) placed s' ->
    queue_run queue s (used_piece st :: placed) s'.

Definition segment (queue : list PieceKind) (from to : Z) : list PieceKind :=
  take (Z.to_nat (to - from)) (drop (Z.to_nat from) queue).

Lemma segment_app queue a b c : (0 <= a <= b)%Z -> (b <= c)%Z -> segment queue a c = segment queue a b ++ segment queue b c.
Proof.
  intros Hab Hbc. unfold segment. replace (Z.to_nat (c - a)) with (Z.to_nat (b - a) + Z.to_nat (c - b))%nat by lia.
  rewrite <- take_take_drop, drop_drop. do 3 f_equal. lia.
Qed.

(** A step over a queue consumes the next one or two pieces of it. *)
Lemma transition_segment queue s branch current st :
  (0 <= cursor s)%Z -> queue !! Z.to_nat (cursor s) = Some current ->
  transition s branch current (queue !! S (Z.to_nat (cursor s))) = Ok st ->
  consumed (evidence st) = segment queue (cursor s) (cursor (next_state st)) /\
  (cursor s < cursor (next_state st) <= Z.of_nat (length queue))%Z.
Proof.
  intros Hc Hq [[_ He] ->]%transition_Ok. pose proof (lookup_lt_Some _ _ _ Hq) as Hlt.
  assert (segment queue (cursor s) (cursor s + 1) = [current]) as H1.
  { unfold segment. rewrite (drop_S _ _ _ Hq). replace (Z.to_nat (cursor s + 1 - cursor s)) with 1%nat by lia. done. }
  destruct branch; unfold consumed; simpl; [rewrite H1; split; [done|lia]..|].
  destruct He as (_ & _ & Hn & _). destruct (queue !! S (Z.to_nat (cursor s))) as [n|] eqn:En; [|done].
  pose proof (lookup_lt_Some _ _ _ En). split; [|lia]. unfold segment. rewrite (drop_S _ _ _ Hq), (drop_S _ _ _ En).
  replace (Z.to_nat (cursor s + 2 - cursor s)) with 2%nat by lia. done.
Qed.

Lemma queue_run_balance (queue : list PieceKind) (s s' : SupplyExecutionState) (placed : list PieceKind)
    (Hrun : queue_run queue s placed s') (Hc : (0 <= cursor s <= Z.of_nat (length queue))%Z) :
  placed ++ option_list (hold_piece s') ≡ₚ option_list (hold_piece s) ++ segment queue (cursor s) (cursor s') /\
  (cursor s + Z.of_nat (length placed) <= cursor s' <= Z.of_nat (length queue))%Z.
Proof.
  induction Hrun as [s|s branch current st placed s' Hq Ht _ IH].
  { unfold segment. rewrite Z.sub_diag. simpl. rewrite app_nil_r. split; [done|lia]. }
  destruct (transition_segment queue s branch current st ltac:(lia) Hq Ht) as [Hseg Hlt].
  destruct IH as [IHp IHc]; [lia|]. split; [|simpl; lia]. simpl.
  rewrite IHp. rewrite (segment_app queue (cursor s) (cursor (next_state st)) (cursor s')) by lia.
  rewrite <- Hseg, app_comm_cons, app_assoc. f_equiv.
  apply transition_Ok in Ht as [[_ He] ->]. destruct s as [src kind c h he pol ep key obs prov]; simpl in *.
  destruct branch; simpl; unfold consumed; simpl.
  - destruct h; simpl; [apply Permutation_swap|done].
  - destruct He as (_ & Hh & _). by destruct h.
  - destruct He as (_ & -> & Hn & _). destruct (queue !! S (Z.to_nat c)); [|done]. apply Permutation_swap.
Qed.

(** Along any run over a known queue, the pieces placed and the piece left
    in hold are, as a multiset, the piece held at the start and the part of
    the queue between the two cursors; the cursor never passes the end of the
    queue. *)
Theorem queue_run_conserves (queue : list PieceKind) (s s' : SupplyExecutionState) (placed : list PieceKind)
    (Hrun : queue_run queue s placed s') (Hc : (0 <= cursor s <= Z.of_nat (length queue))%Z) :
  placed ++ option_list (hold_piece s') ≡ₚ option_list (hold_piece s) ++ segment queue (cursor s) (cursor s') /\
  (cursor s + Z.of_nat (length placed) <= cursor s' <= Z.of_nat (length queue))%Z.
Proof. exact (queue_run_balance queue s s' placed Hrun Hc). Qed.

Lemma queue_run_conserves_witness :
  let s := SupplyExecutionState_new 1 0 None 0 0 0 in
  exists s', queue_run [PT; PI; PO] s [PI; PT] s' /\ hold_piece s' = Some PO /\
    [PI; PT] ++ option_list (hold_piece s') ≡ₚ [PT; PI; PO].
Proof.
  intros s. set (s1 := set_hold_piece (Some PT) (set_cursor 2 s)). set (s2 := set_hold_piece (Some PO) (set_cursor 3 s)).
  assert (queue_run [PT; PI; PO] s [PI; PT] s2) as Hrun.
  { apply (queue_run_step _ s BranchStoreCurrent PT (step s s1 PI PT (Some PI) 2 BranchStoreCurrent)); [reflexivity..|].
    apply (queue_run_step _ s1 BranchSwapHeld PO (step s1 s2 PT PO None 1 BranchSwapHeld)); [reflexivity..|]. constructor. }
  exists s2. split; [exact Hrun|]. split; [reflexivity|].
  destruct (queue_run_conserves [PT; PI; PO] s s2 [PI; PT] Hrun) as [H _]; [simpl; lia|]. exact H.
Defined.

(** ** Bag sources *)

Section Bag.
Variables (pattern : list PieceKind) (full : PieceMultisetKey).
Hypothesis Hbag : SupplyExecutionAutomaton_for_bag pattern = Ok (Some full).

Lemma for_bag_spec :
  counts_ok 15 (counts full) /\ represents (counts full) pattern /\ pattern <> [] /\
  total_count full = Z.of_nat (length pattern).
Proof.
  revert Hbag. unfold SupplyExecutionAutomaton_for_bag. destruct (from_pieces_spec pattern) as (Hl & Ht & Hc).
  set (k := PieceMultisetKey_from_pieces pattern) in *. destruct (Z.eqb_spec (total_count k) 0) as [H0|H0]; [done|].
  destruct (existsb _ _) eqn:Eb; [done|]. intros [= <-].
  assert (forall p, (count k p <= 15)%Z) as H15.
  { intros p. unfold count, count_at. destruct (counts k !! piece_index p) as [c|] eqn:Ec; [|simpl; lia]. simpl.
    destruct (decide (c <= 15)%Z); [done|]. exfalso. apply not_true_iff_false in Eb. apply Eb, existsb_exists. exists c.
    split; [by eapply list_elem_of_In, list_elem_of_lookup_2|]. apply Z.ltb_lt. lia. }
  assert (represents (counts k) pattern) as Hr.
  { split; [done|]. intros p. change (count_at (counts k) p) with (count k p). specialize (H15 p). rewrite Hc in *. lia. }
  assert (counts_ok 15 (counts k)) as Hok.
  { split; [done|]. apply Forall_lookup. intros i c Hi. pose proof (lookup_lt_Some _ _ _ Hi) as Hlt. rewrite Hl in Hlt.
    assert (exists p, piece_index p = i) as [p <-].
    { do 7 (destruct i as [|i]; [first [by exists PI|by exists PO|by exists PT|by exists PS|by exists PZ|by exists PJ|by exists PL]|]). lia. }
    assert (count k p = c) as <- by (unfold count, count_at; by rewrite Hi). specialize (H15 p). rewrite Hc in *. lia. }
  split; [done|]. split; [done|]. split; [intros ->; by apply H0|].
  pose proof (counts_total_bound 15 _ Hok) as Hb. rewrite (represents_total _ _ Hr) in Hb. rewrite Ht. lia.
Qed.

(** The state's key stands for the pieces [rest] left in the current bag. *)
Definition holds_bag (s : SupplyExecutionState) (rest : list PieceKind) : Prop :=
  exists cs, counts_ok 15 cs /\ represents cs rest /\ bag_remainder_key s = pack_counts cs.

Lemma holds_bag_decode s rest :
  holds_bag s rest -> exists cs, counts_ok 15 cs /\ represents cs rest /\
    decode_remainder (bag_remainder_key s) = Ok (PieceMultisetKey_from_counts cs) /\
    total_count (PieceMultisetKey_from_counts cs) = Z.of_nat (length rest).
Proof.
  intros (cs & Hok & Hr & ->). exists cs. split; [done|]. split; [done|]. split; [by apply decode_encode|].
  rewrite from_counts_total by done. by apply represents_total.
Qed.

Lemma remove_piece_spec cs rest p :
  counts_ok 15 cs -> represents cs rest ->
  match remove_piece (PieceMultisetKey_from_counts cs) p with
  | None => p ∉ rest
  | Some k => p ∈ rest /\ counts_ok 15 (counts k) /\ forall rest', rest ≡ₚ p :: rest' -> represents (counts k) rest'
  end.
Proof.
  intros Hok Hr. unfold remove_piece. assert (Z.to_nat (piece_tag p - 1) = piece_index p) as -> by (by destruct p).
  cbn [counts PieceMultisetKey_from_counts]. change (default 0%Z (cs !! piece_index p)) with (count_at cs p).
  pose proof Hr as [_ Hc]. pose proof (counts_at_ok 15 cs p Hok). pose proof (count_of_pos rest p) as Hpos. rewrite Hc in *.
  destruct (Z.eqb_spec (Z.of_nat (count_of rest p)) 0) as [H0|H0].
  - rewrite <- Hpos. lia.
  - split; [apply Hpos; lia|]. cbn [counts]. split; [apply counts_ok_insert; [done|lia]|]. intros rest' Hp. rewrite <- Hc.
    by apply (represents_remove cs rest).
Qed.

(** The bag a draw is made from, and whether it opens a new one. *)
Definition open_bag (rest : list PieceKind) : list PieceKind := if decide (rest = []) then pattern else rest.
Definition refill (s : SupplyExecutionState) (rest : list PieceKind) : Z :=
  if decide (rest = []) then (if (cursor s =? 0)%Z then 0 else 1) else 0.

(** What a draw from a state with [rest] left in its bag gives. *)
Definition draw_post (s : SupplyExecutionState) (rest : list PieceKind) (p : PieceKind)
    (r : Result SupplyExecutionError (option SupplyExecutionState)) : Prop :=
  match r with
  | Ok (Some s') => p ∈ open_bag rest /\ (cursor s + 1 < 2 ^ 16)%Z /\ (refill s rest = 0 \/ bag_epoch s + 1 < 2 ^ 16)%Z /\
      (exists key, s' = set_bag (bag_epoch s + refill s rest) key (set_cursor (cursor s + 1) s)) /\
      forall rest', open_bag rest ≡ₚ p :: rest' -> holds_bag s' rest'
  | Ok None => p ∉ open_bag rest
  | Err CursorExhausted => (2 ^ 16 <= cursor s + 1)%Z
  | Err BagEpochExhausted => refill s rest = 1%Z /\ (2 ^ 16 <= bag_epoch s + 1)%Z
  | Err _ => False
  end.

(** The part of a draw after the bag to draw from has been fixed. *)
Lemma draw_from_spec s rest p epoch cs :
  counts_ok 15 cs -> represents cs (open_bag rest) -> (refill s rest = 0 \/ bag_epoch s + 1 < 2 ^ 16)%Z ->
  epoch = (bag_epoch s + refill s rest)%Z ->
  draw_post s rest p
    (match remove_piece (PieceMultisetKey_from_counts cs) p with
     | Some remainder => let? c := checked_advance (cursor s) 1 in
         Ok (Some (set_bag epoch (encode_remainder remainder) (set_cursor c s)))
     | None => Ok None
     end).
Proof.
  intros Hok Hr Href ->. pose proof (remove_piece_spec cs (open_bag rest) p Hok Hr) as Hrm.
  destruct (remove_piece _ p) as [k'|]; [|done]. destruct Hrm as (Hin & Hokk & Hrk).
  unfold checked_advance, checked_add. destruct (Z.ltb_spec (cursor s + 1) (2 ^ 16)); cbn [ok_or rbind]; [|done].
  split; [done|]. split; [done|]. split; [done|]. split; [by eexists|]. intros rest' Hp. exists (counts k').
  split; [done|]. split; [by apply Hrk|done].
Qed.

Lemma full_from_counts : full = PieceMultisetKey_from_counts (counts full).
Proof.
  destruct for_bag_spec as (Hfok & Hfr & _ & Hft). destruct full as [fc ft]. unfold PieceMultisetKey_from_counts. simpl in *.
  f_equal. rewrite Hft, <- (represents_total fc pattern Hfr). symmetry. by apply from_counts_total.
Qed.

Lemma draw_bag_spec s rest p : holds_bag s rest -> draw_post s rest p (draw_bag_piece (Some full) s p).
Proof.
  intros Hb. destruct (holds_bag_decode s rest Hb) as (cs & Hok & Hr & Hd & Ht).
  destruct for_bag_spec as (Hfok & Hfr & Hne & Hft). unfold draw_bag_piece. cbn [ok_or rbind]. rewrite Hd. cbn [rbind].
  rewrite Ht. destruct (decide (rest = [])) as [->|Hrest].
  - assert (open_bag [] = pattern) as Ho by (unfold open_bag; by rewrite decide_True).
    assert (refill s [] = if (cursor s =? 0)%Z then 0 else 1)%Z as Href by (unfold refill; by rewrite decide_True).
    cbn [length Z.of_nat Z.eqb]. destruct (Z.eqb_spec (cursor s) 0) as [Hc0|Hc0]; cbn [negb rbind].
    + rewrite full_from_counts. apply draw_from_spec; [done|by rewrite Ho|by left|lia].
    + unfold checked_add. destruct (Z.ltb_spec (bag_epoch s + 1) (2 ^ 16)); cbn [ok_or rbind]; [|done].
      rewrite full_from_counts. apply draw_from_spec; [done|by rewrite Ho|by right|lia].
  - assert (open_bag rest = rest) as Ho by (unfold open_bag; by rewrite decide_False).
    assert (refill s rest = 0)%Z as Href by (unfold refill; by rewrite decide_False).
    rewrite (proj2 (Z.eqb_neq _ _)) by (by destruct rest). cbn [rbind].
    apply draw_from_spec; [done|by rewrite Ho|by left|lia].
Qed.

(** ** Bag sequences *)

(** Drawing a sequence of pieces one after the other. *)
Fixpoint draw_all (a : SupplyExecutionAutomaton) (s : SupplyExecutionState) (ps : list PieceKind)
  : Result SupplyExecutionError (option SupplyExecutionState) :=
  match ps with
  | [] => Ok (Some s)
  | p :: ps =>
      let? drawn := draw_bag_piece a s p in
      match drawn with
      | None => Ok None
      | Some s => draw_all a s ps
      end
  end.

(** The language of a bag source: draws without replacement, the bag being
    refilled when it is empty. *)
Inductive bag_stream : list PieceKind -> list PieceKind -> Prop :=
| bag_stream_nil rest : bag_stream rest []
| bag_stream_draw rest rest' p ps : rest ≡ₚ p :: rest' -> bag_stream rest' ps -> bag_stream rest (p :: ps)
| bag_stream_refill p ps : bag_stream pattern (p :: ps) -> bag_stream [] (p :: ps).

(** Whole bags, each a permutation of the pattern, then a part of one. *)
Definition bag_sequence (ps : list PieceKind) : Prop :=
  exists bags last, ps = concat bags ++ last /\ Forall (fun b => b ≡ₚ pattern) bags /\ last ⊆+ pattern.

(** The order of the pieces left in a bag does not matter. *)
#[local] Instance bag_stream_proper : Proper ((≡ₚ) ==> eq ==> iff) bag_stream.
Proof.
  assert (forall rest rest' ps, rest ≡ₚ rest' -> bag_stream rest ps -> bag_stream rest' ps) as H.
  { intros rest rest' ps Hp Hs. destruct Hs as [|rest rest'' p ps Hp' Hs|p ps Hs].
    - constructor.
    - apply (bag_stream_draw _ rest''); [by rewrite <- Hp, Hp'|done].
    - apply Permutation_nil_l in Hp as <-. by apply bag_stream_refill. }
  intros rest rest' Hp ps ? <-. split; apply H; done.
Qed.

Lemma bag_stream_split rest ps :
  bag_stream rest ps -> ps ⊆+ rest \/ exists first more, ps = first ++ more /\ first ≡ₚ rest /\ bag_sequence more.
Proof.
  induction 1 as [rest|rest rest' p ps Hp _ IH|p ps _ IH].
  - left. apply submseteq_nil_l.
  - destruct IH as [Hs|(first & more & -> & Hf & Hm)]; [left; rewrite Hp; by apply submseteq_skip|].
    right. exists (p :: first), more. split; [done|]. split; [by rewrite Hp, Hf|done].
  - right. exists [], (p :: ps). split; [done|]. split; [done|]. destruct IH as [Hs|(first & more & -> & Hf & Hm)].
    + exists [], (p :: ps). split; [done|]. split; [constructor|done].
    + destruct Hm as (bags & last & -> & Hb & Hl). exists (first :: bags), last. simpl. rewrite app_assoc.
      split; [done|]. split; [by constructor|done].
Qed.

Lemma bag_stream_sub rest ps : ps ⊆+ rest -> bag_stream rest ps.
Proof.
  revert rest. induction ps as [|p ps IH]; intros rest Hs; [constructor|].
  apply submseteq_cons_l in Hs as (rest' & Hp & Hs). apply (bag_stream_draw _ rest'); [done|by apply IH].
Qed.

Lemma bag_stream_app rest first more :
  first ≡ₚ rest -> bag_stream pattern more -> bag_stream rest (first ++ more).
Proof.
  revert rest. induction first as [|p first IH]; intros rest Hp Hm; simpl.
  - apply Permutation_nil_l in Hp as <-. destruct more; [constructor|by apply bag_stream_refill].
  - apply (bag_stream_draw _ first); [done|by apply IH].
Qed.

Lemma bag_stream_sequence ps : bag_stream pattern ps <-> bag_sequence ps.
Proof.
  split.
  - intros [Hs|(first & more & -> & Hf & (bags & last & -> & Hb & Hl))]%bag_stream_split.
    + exists [], ps. split; [done|]. split; [constructor|done].
    + exists (first :: bags), last. simpl. rewrite app_assoc. split; [done|]. split; [by constructor|done].
  - intros (bags & last & -> & Hb & Hl). induction Hb as [|b bags Hb _ IH]; simpl; [by apply bag_stream_sub|].
    rewrite <- app_assoc. by apply bag_stream_app.
Qed.

Lemma bag_stream_cons rest p ps :
  bag_stream rest (p :: ps) <-> exists rest', open_bag rest ≡ₚ p :: rest' /\ bag_stream rest' ps.
Proof.
  unfold open_bag. split.
  - inversion 1 as [|? rest' ? ? Hp Hs|? ? Hs]; subst.
    + rewrite decide_False by (intros ->; by apply Permutation_nil_cons in Hp). by exists rest'.
    + rewrite decide_True by done. destruct for_bag_spec as (_ & _ & Hne & _).
      inversion Hs as [|? rest' ? ? Hp Hs'|? ? Hs' Heq]; [by exists rest'|by destruct Hne].
  - intros (rest' & Hp & Hs). destruct (decide (rest = [])) as [->|Hne]; [apply bag_stream_refill|]; by eapply bag_stream_draw.
Qed.

Lemma draw_all_spec s rest ps :
  holds_bag s rest -> (cursor s + Z.of_nat (length ps) < 2 ^ 16)%Z -> (bag_epoch s + Z.of_nat (length ps) < 2 ^ 16)%Z ->
  exists o, draw_all (Some full) s ps = Ok o /\
    match o with
    | Some s' => bag_stream rest ps /\ cursor s' = (cursor s + Z.of_nat (length ps))%Z /\ exists rest', holds_bag s' rest'
    | None => ~ bag_stream rest ps
    end.
Proof.
  revert s rest. induction ps as [|p ps IH]; intros s rest Hb Hc He; cbn [draw_all].
  { exists (Some s). split; [done|]. split; [constructor|]. split; [simpl; lia|by exists rest]. }
  cbn [length] in Hc, He. pose proof (draw_bag_spec s rest p Hb) as Hd.
  destruct (draw_bag_piece (Some full) s p) as [[s'|]|e]; cbn [rbind].
  - destruct Hd as (Hin & _ & _ & (key & Hs') & Hrest). apply elem_of_Permutation in Hin as [rest' Hp].
    assert (refill s rest = 0 \/ refill s rest = 1)%Z by (unfold refill; destruct (decide _); [destruct (_ =? _)%Z|]; auto).
    destruct (IH s' rest' (Hrest rest' Hp)) as (o & Ho & Hpost); [subst s'; simpl; lia|subst s'; simpl; lia|].
    exists o. split; [done|]. destruct o as [s''|].
    + destruct Hpost as (Hst & Hcur & Hh). split; [apply bag_stream_cons; by exists rest'|]. split; [|done]. rewrite Hcur, Hs'. simpl. lia.
    + intros (rest'' & Hp' & Hst)%bag_stream_cons. apply Hpost.
      assert (rest' ≡ₚ rest'') as -> by (apply (Permutation_cons_inv (a := p)); by rewrite <- Hp, <- Hp'). done.
  - exists None. split; [done|]. intros (rest' & Hp & _)%bag_stream_cons. apply Hd. rewrite Hp. by left.
  - unfold draw_post in Hd. destruct e; try done; lia.
Qed.
End Bag.

(** C25: A bag source produces exactly the bag sequences: starting with a fresh
    bag, the draws of [ps] all succeed if and only if [ps] is a series of
    whole bags, each a permutation of the pattern, followed by a part of one;
    no draw reports an error while the [u16] counters have room. *)
Theorem bag_draws_are_bag_sequences (pattern : list PieceKind) (full : PieceMultisetKey) (s : SupplyExecutionState) (ps : list PieceKind)
    (Hbag : SupplyExecutionAutomaton_for_bag pattern = Ok (Some full))
    (Hkey : bag_remainder_key s = encode_remainder full)
    (Hc : (0 <= cursor s /\ cursor s + Z.of_nat (length ps) < 2 ^ 16)%Z)
    (He : (bag_epoch s + Z.of_nat (length ps) < 2 ^ 16)%Z) :
  exists o, draw_all (Some full) s ps = Ok o /\
    match o with
    | Some s' => bag_sequence pattern ps /\ cursor s' = (cursor s + Z.of_nat (length ps))%Z
    | None => ~ bag_sequence pattern ps
    end.
Proof.
  destruct (for_bag_spec pattern full Hbag) as (Hok & Hr & _).
  destruct (draw_all_spec pattern full Hbag s pattern ps) as (o & Ho & Hpost); [by exists (counts full)|lia|lia|].
  exists o. split; [done|]. destruct o as [s'|].
  - destruct Hpost as (Hst & Hcur & _). split; [|done]. by apply bag_stream_sequence.
  - intros Hs. by apply Hpost, bag_stream_sequence.
Qed.

Lemma bag_draws_are_bag_sequences_witness :
  exists full, SupplyExecutionAutomaton_for_bag STANDARD_TETROMINOES = Ok (Some full) /\
    bag_sequence STANDARD_TETROMINOES [PT; PI; PO; PS; PZ; PJ; PL; PT; PL].
Proof.
  eexists. split; [reflexivity|].
  destruct (bag_draws_are_bag_sequences STANDARD_TETROMINOES (PieceMultisetKey_from_pieces STANDARD_TETROMINOES)
    (SupplyExecutionState_new 1 0 None 0 (encode_remainder (PieceMultisetKey_from_pieces STANDARD_TETROMINOES)) 0)
    [PT; PI; PO; PS; PZ; PJ; PL; PT; PL]) as (o & Ho & H); [reflexivity|reflexivity|simpl; lia|simpl; lia|].
  destruct o as [s'|]; [apply H|]. exfalso. vm_compute in Ho. discriminate Ho.
Defined.

(** ** Bag steps refine transitions *)

Lemma draw_shape a s p n :
  draw_bag_piece a s p = Ok (Some n) ->
  n = set_bag (bag_epoch n) (bag_remainder_key n) (set_cursor (cursor s + 1) s) /\ (cursor s + 1 < 2 ^ 16)%Z.
Proof.
  unfold draw_bag_piece. intros H. apply rbind_Ok in H as (full & _ & H). apply rbind_Ok in H as (rem & _ & H).
  apply rbind_Ok in H as ([epoch rem'] & _ & H). destruct (remove_piece rem' p) as [k|]; [|done].
  apply rbind_Ok in H as (c & [Hc ->]%checked_advance_Ok & [= <-]). done.
Qed.

Lemma visit_pieces_Ok visit pieces :
  (visit_pieces visit pieces).2 = Ok tt ->
  forall st, st ∈ (visit_pieces visit pieces).1 <-> exists p, p ∈ pieces /\ visit p = Ok (Some st).
Proof.
  induction pieces as [|p pieces IH]; simpl; intros H st; [split; [by intros ?%elem_of_nil|by intros (? & ?%elem_of_nil & _)]|].
  destruct (visit p) as [o|e] eqn:Ev; [|done]. destruct (visit_pieces visit pieces) as [steps r]. simpl in *.
  specialize (IH H st). setoid_rewrite elem_of_cons. split.
  - intros Hin. assert (o = Some st \/ st ∈ steps) as [->|Hs].
    { destruct o as [x|]; [|by right]. apply elem_of_cons in Hin as [->|?]; [by left|by right]. }
    + exists p. split; [by left|done].
    + apply IH in Hs as (q & ? & ?). exists q. split; [by right|done].
  - intros (q & [->|Hq] & Hv).
    + rewrite Ev in Hv. injection Hv as ->. by left.
    + assert (st ∈ steps) by (apply IH; by exists q). destruct o; [by right|done].
Qed.

(** A placement from a bag source: the queue pieces of the branch are drawn
    from the bag, and the branch is a [transition] on them that uses the
    wanted piece. *)
Definition bag_placement (a : SupplyExecutionAutomaton) (s : SupplyExecutionState) (desired : PieceKind) (st : SupplyExecutionStep) : Prop :=
  exists branch current next n t,
    draw_all a s (current :: option_list next) = Ok (Some n) /\
    transition s branch current next = Ok t /\ used_piece t = desired /\
    (is_Some next <-> branch = BranchStoreCurrent) /\
    st = mkStep (used_piece t) (set_bag (bag_epoch n) (bag_remainder_key n) (next_state t)) (evidence t).

Lemma placement_current a s desired n :
  hold_ok s -> hold_policy s <> Required -> draw_bag_piece a s desired = Ok (Some n) ->
  bag_placement a s desired (step s n desired desired None 1 BranchCurrent).
Proof.
  intros Hok Hp Hd. destruct (draw_shape _ _ _ _ Hd) as [Hn Hc].
  exists BranchCurrent, desired, None, n, (step s (set_cursor (cursor s + 1) s) desired desired None 1 BranchCurrent).
  split; [simpl; by rewrite Hd|]. split; [by apply transition_Ok|]. split; [done|]. split; [split; [by intros [? ?]|done]|].
  rewrite Hn. done.
Qed.

Lemma placement_swap a s desired current st :
  hold_ok s -> hold_policy s <> Forbidden -> hold_piece s = Some desired ->
  visit_swap a s desired current = Ok (Some st) -> bag_placement a s desired st.
Proof.
  intros Hok Hp Hh Hv. unfold visit_swap in Hv. apply rbind_Ok in Hv as ([n|] & Hd & Hv); [|done]. injection Hv as <-.
  destruct (draw_shape _ _ _ _ Hd) as [Hn Hc].
  exists BranchSwapHeld, current, None, n,
    (step s (set_hold_piece (Some current) (set_cursor (cursor s + 1) s)) desired current None 1 BranchSwapHeld).
  split; [simpl; by rewrite Hd|]. split; [apply transition_Ok; split; [split_and!; by rewrite ?Hh|by rewrite Hh]|].
  split; [done|]. split; [split; [by intros [? ?]|done]|]. rewrite Hn. done.
Qed.

Lemma placement_store a s desired current st :
  hold_ok s -> hold_policy s <> Forbidden -> hold_piece s = None ->
  visit_store a s desired current = Ok (Some st) -> bag_placement a s desired st.
Proof.
  intros Hok Hp Hh Hv. unfold visit_store in Hv. apply rbind_Ok in Hv as ([m|] & Hd & Hv); [|done].
  apply rbind_Ok in Hv as ([n|] & Hd2 & Hv); [|done]. injection Hv as <-.
  destruct (draw_shape _ _ _ _ Hd) as [Hm Hc]. destruct (draw_shape _ _ _ _ Hd2) as [Hn Hc2].
  assert (cursor m = cursor s + 1)%Z as Hcm by (by rewrite Hm). rewrite Hcm in *.
  replace (cursor s + 1 + 1)%Z with (cursor s + 2)%Z in * by lia.
  exists BranchStoreCurrent, current, (Some desired), n,
    (step s (set_hold_piece (Some current) (set_cursor (cursor s + 2) s)) desired current (Some desired) 2 BranchStoreCurrent).
  split; [simpl; rewrite Hd; simpl; by rewrite Hd2|]. split; [by apply transition_Ok; split_and!|].
  split; [done|]. split; [done|]. rewrite Hn, Hm. done.
Qed.

Lemma visit_hold_Ok a s desired st :
  hold_ok s -> (visit_hold a s desired).2 = Ok tt ->
  st ∈ (visit_hold a s desired).1 <->
  hold_policy s <> Forbidden /\
  ((hold_piece s = Some desired /\ exists current, visit_swap a s desired current = Ok (Some st)) \/
   (hold_piece s = None /\ exists current, visit_store a s desired current = Ok (Some st))).
Proof.
  intros Hok. unfold visit_hold, hold_state. intros Hr.
  assert (forall visit, (visit_pieces visit STANDARD_TETROMINOES).2 = Ok tt ->
    st ∈ (visit_pieces visit STANDARD_TETROMINOES).1 <-> exists current, visit current = Ok (Some st)) as Hvis.
  { intros visit Hv. rewrite visit_pieces_Ok by done. split; [intros (p & _ & ?); by exists p|].
    intros (p & ?). exists p. split; [apply piece_in_standard|done]. }
  destruct (hold_policy s) eqn:Ep.
  { simpl. split; [by intros ?%elem_of_nil|by intros [? _]]. }
  all: destruct (hold_piece s) as [h|] eqn:Eh;
    [case_bool_decide as Hd; [subst h; rewrite Hvis by done; naive_solver|
       simpl; split; [by intros ?%elem_of_nil|intros [_ [[[= ?] _]|[? _]]]; done]]
    |rewrite Hvis by done; naive_solver].
Qed.

Lemma matching_steps_placement (a : SupplyExecutionAutomaton) (s : SupplyExecutionState) (desired : PieceKind)
    (steps : list SupplyExecutionStep) (Hrun : for_each_matching_bag_step a s desired = (steps, Ok tt)) (st : SupplyExecutionStep) :
  st ∈ steps <-> bag_placement a s desired st.
Proof.
  unfold for_each_matching_bag_step in Hrun. destruct (validate_bag_state a s) as [[]|] eqn:Ev; [|done].
  assert (hold_ok s) as Hok.
  { unfold validate_bag_state in Ev. apply rbind_Ok in Ev as ([] & Hv & _). by apply validate_Ok. }
  assert (st ∈ steps <-> (hold_policy s <> Required /\ exists n, draw_bag_piece a s desired = Ok (Some n) /\
      st = step s n desired desired None 1 BranchCurrent) \/ st ∈ (visit_hold a s desired).1) as Hsplit.
  { revert Hrun. case_bool_decide as Hp; cbn [negb].
    - intros ->. simpl. naive_solver.
    - destruct (draw_bag_piece a s desired) as [[n|]|]; [| |done]; destruct (visit_hold a s desired) as [rest r]; simpl;
        intros [= <- _]; rewrite ?elem_of_cons; naive_solver. }
  assert ((visit_hold a s desired).2 = Ok tt) as Hhold.
  { revert Hrun. case_bool_decide; cbn [negb]; [by intros ->|].
    destruct (draw_bag_piece a s desired) as [o|]; [|done]. destruct (visit_hold a s desired) as [rest r]. by intros [= _ ->]. }
  rewrite Hsplit, visit_hold_Ok by done. split.
  - intros [(Hp & n & Hd & ->)|[Hp [[Hh (c & Hv)]|[Hh (c & Hv)]]]];
      [by apply placement_current|by eapply placement_swap|by eapply placement_store].
  - intros (branch & current & next & n & t & Hd & [[_ He] ->]%transition_Ok & Hu & Hnext & ->).
    assert (branch <> BranchStoreCurrent -> next = None) as Hnone.
    { intros Hb. destruct next; [|done]. destruct Hb. apply Hnext. by eexists. }
    clear Hnext. destruct branch; simpl in *.
    + rewrite (Hnone ltac:(done)) in *. subst desired. left. destruct He as [Hp _]. split; [done|]. exists n.
      simpl in Hd. destruct (draw_bag_piece a s current) as [[m|]|] eqn:E; [|done|done]. injection Hd as ->.
      split; [done|]. destruct (draw_shape _ _ _ _ E) as [-> _]. done.
    + rewrite (Hnone ltac:(done)) in *. right. destruct He as (Hp & Hh & _). split; [done|]. left.
      destruct (hold_piece s) as [h|] eqn:Eh; [|done]. simpl in *. subst h. split; [done|]. exists current. unfold visit_swap.
      destruct (draw_bag_piece a s current) as [[m|]|] eqn:E; [|done|done]. injection Hd as ->. simpl.
      destruct (draw_shape _ _ _ _ E) as [-> _]. done.
    + destruct He as (Hp & Hh & Hn & _). destruct next as [q|]; [|done]. simpl in *. subst q. right. split; [done|]. right.
      split; [done|]. exists current. unfold visit_store.
      destruct (draw_bag_piece a s current) as [[m|]|] eqn:E; [|done|done]. simpl in *.
      destruct (draw_bag_piece a m desired) as [[m'|]|] eqn:E2; [|done|done]. injection Hd as ->. simpl.
      destruct (draw_shape _ _ _ _ E) as [Hm _]. destruct (draw_shape _ _ _ _ E2) as [-> _].
      assert (cursor m = cursor s + 1)%Z as -> by (by rewrite Hm). rewrite Hm.
      replace (cursor s + 1 + 1)%Z with (cursor s + 2)%Z by lia. done.
Qed.

(** C20: [for_each_matching_bag_step] is sound and complete: on a valid bag
    state it visits exactly the placements of the wanted piece that
    [transition] allows on pieces drawn from the bag, whichever branch they
    take, with the evidence [transition] would record. *)
Theorem matching_bag_steps_correct (a : SupplyExecutionAutomaton) (s : SupplyExecutionState) (desired : PieceKind)
    (steps : list SupplyExecutionStep) (Hrun : for_each_matching_bag_step a s desired = (steps, Ok tt)) (st : SupplyExecutionStep) :
  st ∈ steps <-> bag_placement a s desired st.
Proof. exact (matching_steps_placement a s desired steps Hrun st). Qed.

Lemma matching_bag_steps_correct_witness :
  exists full st, SupplyExecutionAutomaton_for_bag STANDARD_TETROMINOES = Ok (Some full) /\
    bag_placement (Some full) (SupplyExecutionState_new 1 0 None 2 (encode_remainder full) 0) PT st /\ used_piece st = PT.
Proof.
  pose (full := PieceMultisetKey_from_pieces STANDARD_TETROMINOES).
  pose (s := SupplyExecutionState_new 1 0 None 2 (encode_remainder full) 0).
  pose (run := for_each_matching_bag_step (Some full) s PT).
  exists full, (default (mkStep PT s (evidence (step s s PT PT None 1 BranchCurrent))) (head run.1)). split; [reflexivity|]. split; [|reflexivity].
  apply (matching_bag_steps_correct (Some full) s PT run.1); [reflexivity|]. vm_compute. left.
Defined.

(** ** The projection of an initial state *)

Section Projection.
Variables (pattern : list PieceKind) (full : PieceMultisetKey).
Hypothesis Hbag : SupplyExecutionAutomaton_for_bag pattern = Ok (Some full).

(** The refills that [draws] draws can take, with [left] pieces in the bag. *)
Definition refills (draws left : Z) : Z :=
  ((Z.max 0 (draws - left) + Z.of_nat (length pattern) - 1) / Z.of_nat (length pattern))%Z.

(** The counters have room for [draws] more draws. *)
Definition room (draws : Z) (s : SupplyExecutionState) : Prop :=
  (0 <= cursor s /\ cursor s + draws < 2 ^ 16)%Z /\
  exists rest, holds_bag s rest /\ rest ⊆+ pattern /\ (bag_epoch s + refills draws (Z.of_nat (length rest)) < 2 ^ 16)%Z.

(** The draws that [n] placements can take: one more while hold is empty. *)
Definition draws_needed (n : Z) (s : SupplyExecutionState) : Z :=
  (n + if negb (bool_decide (hold_policy s = Forbidden)) && is_none (hold_piece s) then 1 else 0)%Z.

Definition budget (n : Z) (s : SupplyExecutionState) : Prop := hold_ok s /\ room (draws_needed n s) s.

Lemma pattern_length : (0 < Z.of_nat (length pattern))%Z.
Proof. destruct (for_bag_spec _ _ Hbag) as (_ & _ & Hne & _). destruct pattern; [done|simpl; lia]. Qed.

Lemma refills_nonneg draws left : (0 <= refills draws left)%Z.
Proof. pose proof pattern_length. apply Z.div_pos; lia. Qed.

Lemma refills_mono draws draws' left : (draws <= draws')%Z -> (refills draws left <= refills draws' left)%Z.
Proof. pose proof pattern_length. intros. apply Z.div_le_mono; lia. Qed.

(** Opening a bag and drawing from it costs one refill. *)
Lemma refills_open draws :
  (1 <= draws -> refills (draws - 1) (Z.of_nat (length pattern) - 1) + 1 <= refills draws 0)%Z.
Proof.
  pose proof pattern_length as Hp. unfold refills. set (k := Z.of_nat (length pattern)) in *. intros Hd.
  destruct (Z.le_gt_cases k draws) as [Hk|Hk].
  - rewrite <- Z.div_add by lia. apply Z.div_le_mono; lia.
  - rewrite (Z.div_small _ k) by lia. simpl. apply Z.div_le_lower_bound; lia.
Qed.

Lemma room_mono draws draws' s : (draws <= draws')%Z -> room draws' s -> room draws s.
Proof.
  intros Hd [[Hc0 Hc] (rest & Hb & Hs & He)]. split; [lia|]. exists rest. split; [done|]. split; [done|].
  pose proof (refills_mono draws draws' (Z.of_nat (length rest)) Hd). lia.
Qed.

Lemma room_hold draws s h : room draws s -> room draws (set_hold_piece h s).
Proof. done. Qed.

(** With room for a draw, a draw reports no error and uses up one. *)
Lemma room_draw draws s p :
  (1 <= draws)%Z -> room draws s ->
  exists o, draw_bag_piece (Some full) s p = Ok o /\ forall s', o = Some s' -> room (draws - 1) s'.
Proof.
  intros Hd [[Hc0 Hc] (rest & Hb & Hs & He)]. pose proof pattern_length as Hlen.
  pose proof (draw_bag_spec pattern full Hbag s rest p Hb) as Hpost.
  assert (rest = [] -> bag_epoch s + 1 + refills (draws - 1) (Z.of_nat (length pattern) - 1) < 2 ^ 16)%Z as Hopen.
  { intros ->. pose proof (refills_open draws Hd). change (Z.of_nat (length [])) with 0%Z in He. lia. }
  pose proof (refills_nonneg (draws - 1) (Z.of_nat (length pattern) - 1)) as Hnn.
  destruct (draw_bag_piece (Some full) s p) as [o|e]; simpl in Hpost.
  2: { unfold refill in Hpost. destruct e, (decide (rest = [])) as [E|E]; try done; try lia; specialize (Hopen E); lia. }
  exists o. split; [done|]. intros s' ->. destruct Hpost as (Hin & _ & _ & (key & ->) & Hh).
  assert (exists rest', open_bag pattern rest ≡ₚ p :: rest') as (rest' & Hp) by (by apply elem_of_Permutation).
  assert (length (open_bag pattern rest) = S (length rest')) as Hl by (by rewrite Hp).
  split; [simpl; lia|]. exists rest'. split; [by apply Hh|].
  assert (open_bag pattern rest ⊆+ pattern) as Hsub by (unfold open_bag; by destruct (decide (rest = []))).
  split; [etrans; [|exact Hsub]; rewrite Hp; by apply submseteq_cons|]. simpl. unfold refill, open_bag in *.
  destruct (decide (rest = [])) as [E|E].
  - specialize (Hopen E). replace (Z.of_nat (length rest')) with (Z.of_nat (length pattern) - 1)%Z by lia.
    destruct (cursor s =? 0)%Z; lia.
  - unfold refills in *. replace (draws - 1 - Z.of_nat (length rest'))%Z with (draws - Z.of_nat (length rest))%Z by lia. lia.
Qed.

(** A state whose remainder is a part of the bag is valid. *)
Lemma part_valid s rest : hold_ok s -> holds_bag s rest -> rest ⊆+ pattern -> validate_bag_state (Some full) s = Ok tt.
Proof.
  intros Hok Hb Hs. destruct (holds_bag_decode s rest Hb) as (cs & Hc & [_ Hr] & Hd & _).
  destruct (for_bag_spec _ _ Hbag) as (_ & [_ Hf] & _). unfold validate_bag_state.
  rewrite (proj2 (validate_Ok s) Hok). cbn [rbind ok_or]. rewrite Hd. cbn [rbind].
  destruct (exceeds _ _) eqn:Ee; [|done]. unfold exceeds in Ee. apply existsb_exists in Ee as (p & _ & Hlt%Z.ltb_lt). exfalso.
  unfold count in Hlt. cbn [counts PieceMultisetKey_from_counts] in Hlt. rewrite Hf, Hr in Hlt.
  pose proof (count_of_submseteq rest pattern p Hs). lia.
Qed.

Lemma room_valid draws s : hold_ok s -> room draws s -> validate_bag_state (Some full) s = Ok tt.
Proof. intros Hok [_ (rest & Hb & Hs & _)]. by apply (part_valid s rest). Qed.

(** With a budget for one placement, no visit of a loop fails, and each step
    visited leaves the budget for the rest. *)
Lemma visit_pieces_total visit (post : SupplyExecutionStep -> Prop) pieces :
  (forall p, exists o, visit p = Ok o /\ forall st, o = Some st -> post st) ->
  exists steps, visit_pieces visit pieces = (steps, Ok tt) /\ Forall post steps.
Proof.
  intros H. induction pieces as [|p pieces (steps & IH & Hs)]; simpl; [by exists []|].
  destruct (H p) as (o & -> & Ho). rewrite IH. destruct o as [st|]; eexists; (split; [reflexivity|]); [|done].
  constructor; [by apply Ho|done].
Qed.

Lemma draws_needed_bounds n s : (n <= draws_needed n s <= n + 1)%Z.
Proof. unfold draws_needed. destruct (_ && _); lia. Qed.

(** A draw keeps the hold slot, so it keeps a budget of one placement less. *)
Lemma budget_draw n s p :
  (1 <= n)%Z -> budget n s ->
  exists o, draw_bag_piece (Some full) s p = Ok o /\
    forall s', o = Some s' -> room (draws_needed n s - 1) s' /\ budget (n - 1) s' /\ hold_policy s' = hold_policy s.
Proof.
  intros Hn [Hok Hroom]. pose proof (draws_needed_bounds n s).
  destruct (room_draw (draws_needed n s) s p) as (o & Ho & Hr); [lia|done|]. exists o. split; [done|]. intros s' ->.
  specialize (Hr s' eq_refl). destruct (draw_shape _ _ _ _ Ho) as [Hs' _].
  assert (hold_piece s' = hold_piece s /\ hold_empty s' = hold_empty s /\ hold_policy s' = hold_policy s) as (Hh & Hm & Hp) by (by rewrite Hs').
  split; [done|]. split; [|done]. split; [unfold hold_ok; by rewrite Hh, Hm, Hp|].
  unfold draws_needed in *. rewrite Hh, Hp. revert Hr. destruct (_ && _); apply room_mono; lia.
Qed.

(** Filling the hold slot leaves the draws the placements need. *)
Lemma budget_hold n s c : hold_policy s <> Forbidden -> room n s -> budget n (set_hold_piece (Some c) s).
Proof.
  intros Hp Hr. split; [split; [done|by intros ?]|]. apply room_hold. unfold draws_needed. cbn [set_hold_piece hold_piece is_none].
  rewrite andb_false_r, Z.add_0_r. done.
Qed.

Lemma visit_hold_budget n s desired :
  (1 <= n)%Z -> budget n s ->
  exists steps, visit_hold (Some full) s desired = (steps, Ok tt) /\ Forall (fun st => budget (n - 1) (next_state st)) steps.
Proof.
  intros Hn Hb. unfold visit_hold, hold_state. destruct (decide (hold_policy s = Forbidden)) as [Ep|Ep].
  { rewrite Ep. by exists []. }
  destruct (hold_piece s) as [h|] eqn:Eh.
  - replace (match hold_policy s with Forbidden => HoldDisabled | _ => HoldStateOccupied h end) with (HoldStateOccupied h) by (by destruct (hold_policy s)).
    case_bool_decide; [|by exists []]. apply visit_pieces_total. intros current. unfold visit_swap.
    destruct (budget_draw n s current Hn Hb) as (o & -> & Ho). cbn [rbind]. eexists. split; [reflexivity|].
    intros st Hst. apply fmap_Some in Hst as (s' & -> & ->). destruct (Ho s' eq_refl) as (Hr & _ & Hp).
    apply budget_hold; [by rewrite Hp|]. revert Hr. apply room_mono. pose proof (draws_needed_bounds n s). lia.
  - replace (match hold_policy s with Forbidden => HoldDisabled | _ => HoldStateEmpty end) with HoldStateEmpty by (by destruct (hold_policy s)).
    apply visit_pieces_total. intros current. unfold visit_store.
    destruct (budget_draw n s current Hn Hb) as (o & -> & Ho). cbn [rbind]. destruct o as [s'|]; [|by exists None].
    destruct (Ho s' eq_refl) as (Hr & _ & Hp).
    assert (draws_needed n s = n + 1)%Z as Hd.
    { unfold draws_needed. rewrite Eh, bool_decide_eq_false_2 by done. done. }
    rewrite Hd in Hr. destruct (room_draw (n + 1 - 1) s' desired) as (o & Ho2 & Hr2); [lia|done|]. rewrite Ho2. cbn [rbind].
    eexists. split; [reflexivity|]. intros st Hst. apply fmap_Some in Hst as (s'' & -> & ->).
    destruct (draw_shape _ _ _ _ Ho2) as [Hs'' _]. specialize (Hr2 s'' eq_refl).
    apply budget_hold; [by rewrite Hs''; simpl; rewrite Hp|]. revert Hr2. apply room_mono. lia.
Qed.

Lemma budget_step n s desired :
  (1 <= n)%Z -> budget n s ->
  exists steps, for_each_matching_bag_step (Some full) s desired = (steps, Ok tt) /\
    Forall (fun st => budget (n - 1) (next_state st)) steps.
Proof.
  intros Hn Hb. destruct (visit_hold_budget n s desired Hn Hb) as (rest & Hrest & Hpost).
  destruct (budget_draw n s desired Hn Hb) as (o & Hd & Ho). destruct Hb as [Hok Hroom].
  unfold for_each_matching_bag_step. rewrite (room_valid (draws_needed n s)), Hd, Hrest by done.
  destruct (negb _); [|by exists rest]. eexists. split; [reflexivity|].
  destruct o as [s'|]; [|done]. constructor; [|done]. by destruct (Ho s' eq_refl) as (_ & ? & _).
Qed.

Inductive bag_path : nat -> SupplyExecutionState -> SupplyExecutionState -> Prop :=
| bag_path_nil s : bag_path 0 s s
| bag_path_step k s desired st s' :
    st ∈ (for_each_matching_bag_step (Some full) s desired).1 -> bag_path k (next_state st) s' -> bag_path (S k) s s'.

Lemma bag_path_budget k s s' n : bag_path k s s' -> (Z.of_nat k <= n)%Z -> budget n s -> budget (n - Z.of_nat k) s'.
Proof.
  intros Hpath. revert n. induction Hpath as [s|k s desired st s' Hst _ IH]; intros n Hk Hb; [by rewrite Z.sub_0_r|].
  destruct (budget_step n s desired) as (steps & Hrun & Hpost); [lia|done|]. rewrite Hrun in Hst. simpl in Hst.
  rewrite Forall_forall in Hpost. replace (n - Z.of_nat (S k))%Z with (n - 1 - Z.of_nat k)%Z by lia.
  apply IH; [lia|]. by apply Hpost.
Qed.

(** The remainder a projection starts from is a part of the bag. *)
Lemma initial_remainder key fresh rem :
  in_width 64 key -> decode_initial_remainder key full fresh = Ok rem ->
  exists rest, counts_ok 15 (counts rem) /\ represents (counts rem) rest /\ rest ⊆+ pattern /\ total_count rem = Z.of_nat (length rest).
Proof.
  intros Hw H. destruct (for_bag_spec _ _ Hbag) as (Hfok & Hfr & _ & Hft). unfold decode_initial_remainder in H.
  destruct (_ && _); [injection H as <-; by exists pattern|]. apply rbind_Ok in H as (k & Hd & H).
  destruct (exceeds k full) eqn:Ee; [done|]. injection H as ->. destruct (encode_decode key rem Hw Hd) as (Hok & Hk & _).
  pose proof (represents_pieces_of_counts 15 _ Hok) as Hr. exists (pieces_of_counts (counts rem)).
  split; [done|]. split; [done|]. split.
  - apply submseteq_of_counts. intros p. destruct Hr as [_ Hr], Hfr as [_ Hfr].
    destruct (decide (count full p < count rem p)%Z) as [Hlt|Hge].
    + exfalso. apply not_true_iff_false in Ee. apply Ee, existsb_exists. exists p.
      split; [apply list_elem_of_In, piece_in_standard|by apply Z.ltb_lt].
    + unfold count in Hge. rewrite Hr, Hfr in Hge. lia.
  - rewrite Hk, from_counts_total by done. by apply represents_total.
Qed.

Lemma projection_budget s0 hold_enabled n s :
  in_width 64 (bag_remainder_key s0) -> (0 <= cursor s0)%Z -> (0 <= n)%Z ->
  project_bag_initial_state (Some full) s0 hold_enabled n = Ok s -> budget n s.
Proof.
  intros Hw Hc Hn H. unfold project_bag_initial_state in H. cbn [ok_or rbind] in H.
  destruct (negb _ || _) eqn:Eh; [done|]. apply orb_false_iff in Eh as [Eh%negb_false_iff%eqb_prop Ef].
  set (policy := if hold_enabled then _ else _) in *.
  apply rbind_Ok in H as (rem & Hrem & H). apply rbind_Ok in H as ([] & Hv & H).
  apply rbind_Ok in H as (D & HD & H). apply rbind_Ok in H as (D16 & HD16 & H). apply rbind_Ok in H as (c' & Hc' & H).
  apply rbind_Ok in H as (R & HR & H). apply rbind_Ok in H as (R16 & HR16 & H). apply rbind_Ok in H as (e' & He' & [= <-]).
  apply ok_or_Ok, checked_add_Some in HD as [_ ->]. apply ok_or_Ok, try_from_Some in HD16 as [_ ->].
  apply ok_or_Ok, checked_add_Some in Hc' as [Hc' _]. apply ok_or_Ok, try_from_Some in HR16 as [_ ->].
  apply ok_or_Ok, checked_add_Some in He' as [He' _].
  cbn [set_bag set_contract cursor hold_piece bag_epoch] in *.
  destruct (initial_remainder (bag_remainder_key s0) (cursor s0 =? 0)%Z rem Hw Hrem) as (rest & Hok & Hr & Hsub & Ht).
  destruct (for_bag_spec _ _ Hbag) as (_ & _ & _ & Hft). pose proof pattern_length as Hlen.
  assert (draws_needed n (set_bag (bag_epoch s0) (encode_remainder rem) (set_contract BagUniverse policy s0)) =
    n + if hold_enabled && is_none (hold_piece s0) then 1 else 0)%Z as Hneed.
  { unfold draws_needed, policy. cbn [set_bag set_contract hold_policy hold_piece]. by destruct hold_enabled, (bool_decide (hold_policy s0 = Required)). }
  unfold budget. rewrite Hneed. set (D := (n + _)%Z) in *.
  split; [split; [done|]|split; [split; [done|exact Hc']|]].
  - cbn [set_bag set_contract hold_policy hold_piece]. unfold policy. destruct hold_enabled; [by destruct (bool_decide _)|]. intros _. by destruct (hold_piece s0).
  - exists rest. split; [by exists (counts rem)|]. split; [done|]. cbn [set_bag set_contract bag_epoch].
    assert (R = refills D (Z.of_nat (length rest))) as <-; [|done]. unfold refills. unfold saturating_sub in HR. rewrite Ht in HR.
    destruct (Z.eqb_spec (Z.max 0 (D - Z.of_nat (length rest))) 0) as [E|E].
    + injection HR as <-. rewrite E. symmetry. apply Z.div_small. lia.
    + apply rbind_Ok in HR as (sum & Hsum & [= <-]). apply ok_or_Ok, checked_add_Some in Hsum as [_ ->]. rewrite Hft. f_equal. lia.
Qed.
End Projection.

(** C33: A projected initial state has room for all its placements: when
    [project_bag_initial_state] accepts a state for [n] placements, every
    [for_each_matching_bag_step] along any path of fewer than [n] placements
    from it completes without an error, whatever pieces and branches the path
    takes; neither the cursor nor the bag epoch runs out. *)
Theorem projection_has_room (pattern : list PieceKind) (full : PieceMultisetKey) (s0 s s' : SupplyExecutionState)
    (hold_enabled : bool) (n : Z) (k : nat) (desired : PieceKind)
    (Hbag : SupplyExecutionAutomaton_for_bag pattern = Ok (Some full))
    (Hkey : in_width 64 (bag_remainder_key s0)) (Hc : (0 <= cursor s0)%Z)
    (Hproj : project_bag_initial_state (Some full) s0 hold_enabled n = Ok s)
    (Hpath : bag_path full k s s') (Hk : (Z.of_nat k < n)%Z) :
  exists steps, for_each_matching_bag_step (Some full) s' desired = (steps, Ok tt).
Proof.
  assert (budget pattern n s) as Hb by (apply (projection_budget pattern full Hbag s0 hold_enabled); (done || lia)).
  apply (bag_path_budget pattern full Hbag k s s' n Hpath) in Hb; [|lia].
  destruct (budget_step pattern full Hbag (n - Z.of_nat k) s' desired) as (steps & Hs & _); [lia|done|]. by exists steps.
Qed.

Lemma projection_has_room_witness :
  let full := PieceMultisetKey_from_pieces STANDARD_TETROMINOES in
  let s0 := SupplyExecutionState_new 1 65532 None 65535 (encode_remainder full) 0 in
  exists s, project_bag_initial_state (Some full) s0 true 2 = Ok s /\
    exists steps, for_each_matching_bag_step (Some full) s PT = (steps, Ok tt).
Proof.
  set (full := PieceMultisetKey_from_pieces STANDARD_TETROMINOES).
  set (s0 := SupplyExecutionState_new 1 65532 None 65535 (encode_remainder full) 0).
  exists (set_contract BagUniverse Allowed s0). split; [reflexivity|].
  apply (projection_has_room STANDARD_TETROMINOES full s0 (set_contract BagUniverse Allowed s0) _ true 2 0 PT);
    [reflexivity|vm_compute; split; congruence|vm_compute; congruence|reflexivity|constructor|lia].
Defined.
