(* ===== verification/BagWindows.v ===== *)
(** * Windows of a bag source

    [clearra-supply]: duplicate witnesses ([diagnostics/duplicate_witness.rs]),
    boundary reports ([bag/bag_boundary.rs]), the enumeration and the memoised
    count of visible suffixes ([normalize/observed_suffix_enumerator.rs]) and
    the expansion of an observed queue up to its probabilities
    ([normalize/observed_queue_expansion.rs]); the remaining functions of
    [bag/bag_profile.rs] and [bag/bag_pattern.rs].

    An observed window starts [initial_offset] pieces into a bag.  The state of
    the walk over it is the offset in the current bag and how often each entry
    of the profile was used in it; [words] enumerates what such a state can
    produce, in the order of the profile's entries. *)

From Stdlib Require Import ZArith Lia Sorting.Sorted.
From stdpp Require Import prelude gmap strings.
From S2P Require Import Prelude Words Pieces SupplyAutomaton.

(** ** Profiles *)

Definition profile_entry_pieces (b : BagProfile) : list PieceKind := entry_piece <$> entries b.

(** [entries.iter().position(..)]. *)
Fixpoint position_of (p : PieceKind) (es : list BagProfileEntry) : option nat :=
  match es with
  | [] => None
  | e :: es => if bool_decide (entry_piece e = p) then Some 0%nat else S <$> position_of p es
  end.

Definition entry_index (b : BagProfile) (p : PieceKind) : option nat := position_of p (entries b).

Definition total_weight (b : BagProfile) : Z := foldr Z.add 0%Z (weight <$> entries b).

Inductive PatternUniverseHint := DenseMaterializedAcceptable | SparseRecommended.

(** [u128::saturating_pow], by repeated saturating products. *)
Fixpoint saturating_pow (w base : Z) (exponent : nat) : Z :=
  match exponent with
  | O => 1
  | S exponent => saturating_mul w (saturating_pow w base exponent) base
  end.

Definition pattern_universe_hint (b : BagProfile) (target_len : nat) : PatternUniverseHint :=
  let size := Nat.max (bag_size b) 1 in
  let visible_depth := Nat.min target_len size in
  let branch_count := saturating_pow 128 (Z.of_nat (Nat.max (length (entries b)) 1)) visible_depth in
  let bag_span := saturating_add 64 (Z.of_nat (target_len / size)) 1 in
  if (4096 <? saturating_mul 128 branch_count bag_span)%Z then SparseRecommended else DenseMaterializedAcceptable.

(** [BagPattern]. *)
Inductive BagPatternError := EmptyPattern | DuplicatePatternPiece (piece : PieceKind).

Fixpoint check_pattern (seen pieces : list PieceKind) : Result BagPatternError unit :=
  match pieces with
  | [] => Ok tt
  | p :: rest => if bool_decide (p ∈ seen) then Err (DuplicatePatternPiece p) else check_pattern (seen ++ [p]) rest
  end.

Definition BagPattern_new (pieces : list PieceKind) : Result BagPatternError (list PieceKind) :=
  if bool_decide (pieces = []) then Err EmptyPattern else check_pattern [] pieces ;? Ok pieces.

Definition BagState_bag_size (s : BagState) : Z := foldr Z.add 0%Z (remainder_counts s).
Definition BagState_offset (s : BagState) : Z := (generated_count s mod 7)%Z.

(** ** Duplicate witnesses *)

Record DuplicateWitness := mkDuplicate {
  dup_piece : PieceKind;
  first_index : nat;
  duplicate_index : nat;
  bag_start_index : nat;
  dup_initial_offset : nat
}.

(** The loop of [duplicate_for_boundary_offset_with_profile]; [index] is the
    position of the head of [pieces]. *)
Fixpoint duplicate_scan (b : BagProfile) (initial_offset index offset bag_start : nat) (seen : gmap PieceKind (nat * nat))
    (pieces : list PieceKind) : option DuplicateWitness :=
  match pieces with
  | [] => None
  | p :: pieces =>
      let '(offset, seen, bag_start) :=
        if (offset =? bag_size b)%nat then (0%nat, ∅, index) else (offset, seen, bag_start) in
      let allowed := multiplicity_for b p in
      if (allowed =? 0)%nat then Some (mkDuplicate p index index bag_start initial_offset)
      else
        let '(first, n) := default (index, 0%nat) (seen !! p) in
        if (allowed <? n + 1)%nat then Some (mkDuplicate p first index bag_start initial_offset)
        else duplicate_scan b initial_offset (index + 1) (offset + 1) bag_start (<[p := (first, (n + 1)%nat)]> seen) pieces
  end.

Definition duplicate_for_boundary_offset_with_profile (pieces : list PieceKind) (b : BagProfile) (initial_offset : nat)
  : option DuplicateWitness :=
  if (bag_size b =? 0)%nat || (bag_size b <=? initial_offset)%nat then None
  else duplicate_scan b initial_offset 0 initial_offset 0 ∅ pieces.

(** The loop of [duplicate_for_boundary_offset] for sizes other than seven. *)
Fixpoint duplicate_scan_plain (size initial_offset index offset bag_start : nat) (seen : gmap PieceKind nat)
    (pieces : list PieceKind) : option DuplicateWitness :=
  match pieces with
  | [] => None
  | p :: pieces =>
      let '(offset, seen, bag_start) :=
        if (offset =? size)%nat then (0%nat, ∅, index) else (offset, seen, bag_start) in
      match seen !! p with
      | Some first => Some (mkDuplicate p first index bag_start initial_offset)
      | None => duplicate_scan_plain size initial_offset (index + 1) (offset + 1) bag_start (<[p := index]> seen) pieces
      end
  end.

Definition duplicate_for_boundary_offset (pieces : list PieceKind) (size initial_offset : nat) : option DuplicateWitness :=
  if (size =? 7)%nat then duplicate_for_boundary_offset_with_profile pieces BagProfile_standard_7 initial_offset
  else if (size =? 0)%nat || (size <=? initial_offset)%nat then None
  else duplicate_scan_plain size initial_offset 0 initial_offset 0 ∅ pieces.

(** [min_by_key(|w| (w.duplicate_index(), w.initial_offset()))]: the first of
    the least. *)
Definition witness_before (a b : DuplicateWitness) : bool :=
  (duplicate_index a <? duplicate_index b)%nat ||
  ((duplicate_index a =? duplicate_index b)%nat && (dup_initial_offset a <? dup_initial_offset b)%nat).

Definition min_witness (ws : list DuplicateWitness) : option DuplicateWitness :=
  foldl (fun best w =>
    match best with
    | None => Some w
    | Some b => if witness_before w b then Some w else best
    end) None ws.

Definition first_duplicate_across_offsets (pieces : list PieceKind) (size : nat) : option DuplicateWitness :=
  min_witness (omap (duplicate_for_boundary_offset pieces size) (seq 0 size)).

Definition first_duplicate_across_offsets_with_profile (pieces : list PieceKind) (b : BagProfile) : option DuplicateWitness :=
  min_witness (omap (duplicate_for_boundary_offset_with_profile pieces b) (seq 0 (bag_size b))).

(** ** Boundary reports *)

(** A [BagBoundaryCandidate] is its initial offset. *)
Record BagBoundaryReport := mkReport {
  report_bag_size : nat;
  candidates : list nat;
  duplicate_witness : option DuplicateWitness
}.

Definition analyze_observed_window (pieces : list PieceKind) (size : nat) : BagBoundaryReport :=
  if (size =? 0)%nat then mkReport size [] None
  else
    let found := filter (fun offset => is_none (duplicate_for_boundary_offset pieces size offset)) (seq 0 size) in
    mkReport size found (if bool_decide (found = []) then first_duplicate_across_offsets pieces size else None).

Definition analyze_observed_window_with_profile (pieces : list PieceKind) (b : BagProfile) : BagBoundaryReport :=
  let size := bag_size b in
  if (size =? 0)%nat then mkReport size [] None
  else
    let found := filter (fun offset => is_none (duplicate_for_boundary_offset_with_profile pieces b offset)) (seq 0 size) in
    mkReport size found (if bool_decide (found = []) then first_duplicate_across_offsets_with_profile pieces b else None).

Definition analyze_fixed_queue (pieces : list PieceKind) (size : nat) : BagBoundaryReport :=
  if (size =? 0)%nat then mkReport size [] None
  else
    let dup := duplicate_for_boundary_offset pieces size 0 in
    mkReport size (if is_none dup then [0%nat] else []) dup.

Definition analyze_fixed_queue_with_profile (pieces : list PieceKind) (b : BagProfile) : BagBoundaryReport :=
  let size := bag_size b in
  if (size =? 0)%nat then mkReport size [] None
  else
    let dup := duplicate_for_boundary_offset_with_profile pieces b 0 in
    mkReport size (if is_none dup then [0%nat] else []) dup.

Definition is_compatible (r : BagBoundaryReport) : bool := negb (bool_decide (candidates r = [])).
Definition is_ambiguous (r : BagBoundaryReport) : bool := negb (length (candidates r) =? 1)%nat.

(** ** Counting and enumerating visible suffixes *)

Definition used_at (used : list nat) (i : nat) : nat := default 0%nat (used !! i).

(** [used_counts[entry_index] += 1]. *)
Definition use_entry (used : list nat) (i : nat) : list nat := <[i := (used_at used i + 1)%nat]> used.

Definition normalized_bag_state (b : BagProfile) (st : nat * list nat) : nat * list nat :=
  if (fst st =? bag_size b)%nat then (0%nat, (fun _ => 0%nat) <$> snd st) else st.

(** One turn of the loop of [boundary_state_after_prefix_with_profile]. *)
Definition boundary_step (b : BagProfile) (st : nat * list nat) (p : PieceKind) : option (nat * list nat) :=
  let '(offset, used) := normalized_bag_state b st in
  i ← entry_index b p;
  let used := use_entry used i in
  if (default 0%nat (multiplicity <$> entries b !! i) <? used_at used i)%nat then None else Some ((offset + 1)%nat, used).

Fixpoint boundary_run (b : BagProfile) (st : nat * list nat) (pieces : list PieceKind) : option (nat * list nat) :=
  match pieces with
  | [] => Some st
  | p :: pieces => st' ← boundary_step b st p; boundary_run b st' pieces
  end.

Definition boundary_state_after_prefix_with_profile (pieces : list PieceKind) (candidate : nat) (b : BagProfile)
  : option (nat * list nat) :=
  boundary_run b (candidate, replicate (length (entries b)) 0%nat) pieces.

(** The memo table of [count_suffixes]. *)
Notation Memo := (gmap (nat * nat * list nat) Z).

Fixpoint count_suffixes (b : BagProfile) (remaining : nat) (st : nat * list nat) (memo : Memo) : Z * Memo :=
  match remaining with
  | O => (1%Z, memo)
  | S remaining' =>
      let '(offset, used) := normalized_bag_state b st in
      match memo !! (remaining, offset, used) with
      | Some count => (count, memo)
      | None =>
          let '(count, memo) :=
            foldl (fun acc ie =>
              if (used_at used (fst ie) <? multiplicity (snd ie))%nat then
                let '(c, memo) := count_suffixes b remaining' ((offset + 1)%nat, use_entry used (fst ie)) (snd acc) in
                (saturating_add 128 (fst acc) c, memo)
              else acc)
              (0%Z, memo) (imap pair (entries b)) in
          (count, <[(remaining, offset, used) := count]> memo)
      end
  end.

Definition count_visible_suffixes_for_candidate (prefix : list PieceKind) (target_len candidate : nat) (b : BagProfile)
  : option Z :=
  st ← boundary_state_after_prefix_with_profile prefix candidate b;
  Some (fst (count_suffixes b (target_len - length prefix) st ∅)).

Fixpoint total_suffix_count (prefix : list PieceKind) (target_len : nat) (cs : list nat) (b : BagProfile) (total : Z) : option Z :=
  match cs with
  | [] => Some total
  | c :: cs =>
      count ← count_visible_suffixes_for_candidate prefix target_len c b;
      total_suffix_count prefix target_len cs b (saturating_add 128 total count)
  end.

Definition total_visible_suffix_count_with_profile (prefix : list PieceKind) (target_len : nat) (cs : list nat) (b : BagProfile)
  : option Z :=
  total ← total_suffix_count prefix target_len cs b 0;
  if (0 <? total)%Z then Some total else None.

(** The raw patterns found so far, and the [truncated] flag. *)
Notation RawPatterns := (list (nat * list PieceKind) * bool)%type.

(** A [for] loop that returns or breaks once [truncated] is set. *)
Fixpoint until_truncated {A} (visit : A -> RawPatterns -> option RawPatterns) (xs : list A) (out : RawPatterns) : option RawPatterns :=
  match xs with
  | [] => Some out
  | x :: xs =>
      out' ← visit x out;
      if snd (out' : RawPatterns) then Some out' else until_truncated visit xs out'
  end.

(** [enumerate_visible_suffixes_with_profile]; the fuel counts the pieces that
    are still to be appended, plus one. *)
Fixpoint enumerate_visible_suffixes (fuel : nat) (b : BagProfile) (target_len candidate max_patterns : nat) (prefix : list PieceKind)
    (out : RawPatterns) : option RawPatterns :=
  match fuel with
  | O => None
  | S fuel =>
      let '(patterns, truncated) := out in
      if (max_patterns <=? length patterns)%nat then Some (patterns, true)
      else if (length prefix =? target_len)%nat then Some (patterns ++ [(candidate, prefix)], truncated)
      else
        until_truncated (fun p out =>
          if is_none (duplicate_for_boundary_offset_with_profile (prefix ++ [p]) b candidate)
          then enumerate_visible_suffixes fuel b target_len candidate max_patterns (prefix ++ [p]) out
          else Some out)
          (profile_entry_pieces b) out
  end.

(** The loop over the candidates in [expand_observed_queue]. *)
Definition enumerate_candidates (b : BagProfile) (target_len max_patterns : nat) (prefix : list PieceKind) (cs : list nat)
  : option RawPatterns :=
  until_truncated (fun c out =>
    enumerate_visible_suffixes (S (target_len - length prefix)) b target_len c max_patterns prefix out) cs ([], false).

Inductive ObservedQueueExpansionError := ZeroPatternLimit | IncompatibleBoundary | NoPatterns.

(** What [expand_observed_queue] computes before it attaches probabilities. *)
Record RawExpansion := mkExpansion {
  boundary_report : BagBoundaryReport;
  total_pattern_count : Z;
  raw_patterns : list (nat * list PieceKind);
  expansion_truncated : bool
}.

Definition expand_observed_queue (queue : list PieceKind) (minimum_len max_patterns : nat) (b : BagProfile)
  : option (Result ObservedQueueExpansionError RawExpansion) :=
  if (max_patterns =? 0)%nat then Some (Err ZeroPatternLimit)
  else
    let report := analyze_observed_window_with_profile queue b in
    if negb (is_compatible report) then Some (Err IncompatibleBoundary)
    else
      let target_len := Nat.max minimum_len (length queue) in
      match total_visible_suffix_count_with_profile queue target_len (candidates report) b with
      | None => Some (Err NoPatterns)
      | Some total =>
          out ← enumerate_candidates b target_len max_patterns queue (candidates report);
          Some (Ok (mkExpansion report total (fst out) (snd out)))
      end.

(** ** Words of an automaton

    A deterministic source of pieces: from a state, the pieces it may produce
    next, in order, with the states after them. *)

(** The lexicographic order of words by an order of pieces. *)
Inductive lex_by (R : PieceKind -> PieceKind -> Prop) : list PieceKind -> list PieceKind -> Prop :=
| lex_head p q w v : R p q -> lex_by R (p :: w) (q :: v)
| lex_tail p w v : lex_by R w v -> lex_by R (p :: w) (p :: v).

Lemma lex_by_app R u w v : lex_by R w v -> lex_by R (u ++ w) (u ++ v).
Proof. intros H. induction u as [|p u IH]; [done|]. by constructor. Qed.

Lemma StronglySorted_app_lt {A} (R : A -> A -> Prop) l l' :
  StronglySorted R l -> StronglySorted R l' -> (forall x y, x ∈ l -> y ∈ l' -> R x y) -> StronglySorted R (l ++ l').
Proof.
  induction 1 as [|x l _ IH Hx]; intros Hl' HR; [done|]. cbn [app]. constructor.
  - apply IH; [done|]. intros y z Hy. apply HR. by right.
  - apply Forall_app. split; [done|]. apply Forall_forall. intros y Hy. apply HR; [by left|done].
Qed.

Section Words.
Context {St : Type} (next : St -> list (PieceKind * St)).

Fixpoint words (n : nat) (s : St) : list (list PieceKind) :=
  match n with
  | O => [[]]
  | S n => next s ≫= (fun ps => cons (fst ps) <$> words n (snd ps))
  end.

Definition words_count (n : nat) (s : St) : Z := Z.of_nat (length (words n s)).

Lemma word_count_bind n (bs : list (PieceKind * St)) :
  Z.of_nat (length (bs ≫= (fun ps => cons (fst ps) <$> words n (snd ps)))) = foldr (fun ps c => (words_count n (snd ps) + c)%Z) 0%Z bs.
Proof. induction bs as [|ps bs IH]; [done|]. csimpl. rewrite length_app, length_fmap, Nat2Z.inj_add, IH. done. Qed.

Lemma word_count_S n s : words_count (S n) s = foldr (fun ps c => (words_count n (snd ps) + c)%Z) 0%Z (next s).
Proof. apply word_count_bind. Qed.

Lemma words_length n s w : w ∈ words n s -> length w = n.
Proof.
  revert s w. induction n as [|n IH]; intros s w Hw; cbn [words] in Hw.
  { by apply list_elem_of_singleton in Hw as ->. }
  apply list_elem_of_bind in Hw as (ps & Hw & _). apply list_elem_of_fmap in Hw as (w' & -> & Hw).
  simpl. by rewrite (IH _ _ Hw).
Qed.

(** If the pieces a state offers are distinct, so are its words. *)
Lemma words_NoDup n s (Hnext : forall s, NoDup (fst <$> next s)) : NoDup (words n s).
Proof.
  revert s. induction n as [|n IH]; intros s; cbn [words]; [apply NoDup_singleton|].
  specialize (Hnext s). induction (next s) as [|ps bs IHbs]; csimpl; [constructor|].
  apply NoDup_cons in Hnext as [Hnotin Hnext]. apply NoDup_app. split; [by apply NoDup_fmap_2_strong; [by intros ???? [=]|]|].
  split; [|by apply IHbs]. intros w Hw Hw'. apply list_elem_of_fmap in Hw as (w' & -> & _).
  apply list_elem_of_bind in Hw' as (ps' & Hw' & Hin). apply list_elem_of_fmap in Hw' as (w'' & [=Heq _] & _).
  apply Hnotin. rewrite Heq. by apply list_elem_of_fmap_2.
Qed.

(** If a state offers its pieces in order, its words come in the lexicographic
    one. *)
Lemma words_sorted (R : PieceKind -> PieceKind -> Prop) (ok : St -> Prop) n s :
  (forall s, ok s -> StronglySorted (fun ps qt => R (fst ps) (fst qt)) (next s) /\ Forall (fun ps => ok (snd ps)) (next s)) ->
  ok s -> StronglySorted (lex_by R) (words n s).
Proof.
  intros Hnext. revert s. induction n as [|n IH]; intros s Hs; cbn [words]; [repeat constructor|].
  destruct (Hnext s Hs) as [Hsort Hok]. induction Hsort as [|ps l _ IHl Hps]; csimpl; [constructor|]. apply Forall_cons in Hok as [Hps_ok Hok]. apply StronglySorted_app_lt; [|by apply IHl|].
  - induction (IH (snd ps) Hps_ok) as [|w ws _ IHw Hw]; csimpl; constructor; [done|]. apply Forall_fmap.
    eapply Forall_impl; [exact Hw|]. intros v Hv. by constructor.
  - intros x y (w & -> & _)%list_elem_of_fmap (qt & (v & -> & _)%list_elem_of_fmap & Hqt)%list_elem_of_bind.
    rewrite Forall_forall in Hps. constructor. by apply Hps.
Qed.

(** Words can be continued wherever they start. *)
Definition live (ok : St -> Prop) : Prop :=
  forall s, ok s -> next s <> [] /\ Forall (fun ps => ok (snd ps)) (next s).

Lemma words_nonempty ok n s : live ok -> ok s -> words n s <> [].
Proof.
  intros Hlive. revert s. induction n as [|n IH]; intros s Hs; cbn [words]; [done|].
  destruct (Hlive s Hs) as [Hne Hall]. destruct (next s) as [|ps bs]; [done|]. apply Forall_cons in Hall as [Hps _]. csimpl.
  specialize (IH _ Hps). destruct (words n (snd ps)); [done|]. done.
Qed.

Lemma word_count_pos ok n s : live ok -> ok s -> (0 < words_count n s)%Z.
Proof. intros Hl Hs. pose proof (words_nonempty ok n s Hl Hs). unfold words_count. destruct (words n s); [done|simpl; lia]. Qed.

(** The branch a rank falls into, and the rank within it. *)
Fixpoint select (size : St -> Z) (rank : Z) (bs : list (PieceKind * St)) : option (PieceKind * St * Z) :=
  match bs with
  | [] => None
  | ps :: bs => if (rank <? size (snd ps))%Z then Some (fst ps, snd ps, rank) else select size (rank - size (snd ps)) bs
  end.

(** A size that is right, or at least as large as any rank that is asked for. *)
Definition good_size (bound : Z) (size : St -> Z) (n : nat) (bs : list (PieceKind * St)) : Prop :=
  Forall (fun ps => size (snd ps) = Z.min (words_count n (snd ps)) bound) bs.

Lemma select_words bound size n rank bs :
  good_size bound size n bs -> (0 <= rank < bound)%Z ->
  match select size rank bs with
  | Some (p, s', r) => (p, s') ∈ bs /\ (0 <= r <= rank)%Z /\ (r < words_count n s')%Z /\
      (bs ≫= (fun ps => cons (fst ps) <$> words n (snd ps))) !! Z.to_nat rank = cons p <$> words n s' !! Z.to_nat r
  | None => (Z.of_nat (length (bs ≫= (fun ps => cons (fst ps) <$> words n (snd ps)))) <= rank)%Z
  end.
Proof.
  intros Hg. revert rank. induction Hg as [|[p s'] bs Hsize _ IH]; intros rank Hr; cbn [select]; [simpl; lia|].
  csimpl. cbn [snd] in Hsize. rewrite Hsize. unfold words_count in *. rewrite length_app, length_fmap.
  destruct (Z.ltb_spec rank (Z.min (Z.of_nat (length (words n s'))) bound)) as [Hlt|Hge].
  - split; [by left|]. split; [lia|]. split; [lia|]. rewrite lookup_app_l by (rewrite length_fmap; lia). by rewrite list_lookup_fmap.
  - assert (Z.min (Z.of_nat (length (words n s'))) bound = Z.of_nat (length (words n s'))) as -> by lia.
    specialize (IH (rank - Z.of_nat (length (words n s')))%Z ltac:(lia)).
    destruct (select size _ bs) as [[[q t] r]|]; [|lia]. destruct IH as (Hin & Hr' & Hlt & IH).
    split; [by right|]. split; [lia|]. split; [done|].
    rewrite lookup_app_r by (rewrite length_fmap; lia). rewrite length_fmap, <- IH. f_equal. lia.
Qed.
End Words.

(** Automata that step alike produce the same words. *)
Lemma words_bisim {S T} (next : S -> list (PieceKind * S)) (next' : T -> list (PieceKind * T)) (R : S -> T -> Prop)
    (Hstep : forall s t, R s t -> Forall2 (fun ps qt => fst ps = fst qt /\ R (snd ps) (snd qt)) (next s) (next' t)) n s t :
  R s t -> words next n s = words next' n t.
Proof.
  revert s t. induction n as [|n IH]; intros s t HR; cbn [words]; [done|].
  induction (Hstep s t HR) as [|ps qt bs bs' [Hp Hr] _ IHbs]; [done|]. csimpl. by rewrite Hp, (IH _ _ Hr), IHbs.
Qed.

(** ** The automaton of a profile *)

(** What [BagProfile::new] checks. *)
Definition profile_ok (b : BagProfile) : Prop :=
  entries b <> [] /\ Forall (fun e => 0 < multiplicity e)%nat (entries b) /\ NoDup (profile_entry_pieces b).

Lemma check_entries_Ok seen es :
  check_entries seen es = Ok tt ->
  Forall (fun e => 0 < multiplicity e)%nat es /\ NoDup (entry_piece <$> es) /\
  forall e e', e ∈ seen -> e' ∈ es -> entry_piece e <> entry_piece e'.
Proof.
  revert seen. induction es as [|e es IH]; intros seen H; cbn [check_entries] in H.
  { split; [constructor|]. split; [constructor|]. intros e e' _ []%not_elem_of_nil. }
  destruct (multiplicity e =? 0)%nat eqn:Em; [done|]. destruct (weight e =? 0)%Z; [done|].
  destruct (existsb _ seen) eqn:Ex; [done|]. destruct (IH _ H) as (Hm & Hn & Hs). bool_prop.
  assert (forall c, c ∈ seen -> entry_piece c <> entry_piece e) as Hne.
  { intros c Hc Heq. apply not_true_iff_false in Ex. apply Ex, existsb_exists. exists c.
    split; [by apply list_elem_of_In|]. by apply bool_decide_eq_true. }
  split; [constructor; [lia|done]|]. split.
  - csimpl. apply NoDup_cons. split; [|done]. intros (e' & He & Hin)%list_elem_of_fmap.
    apply (Hs e e'); [apply elem_of_app; right; by left|done|done].
  - intros c e' Hc [->|Hin]%elem_of_cons; [by apply Hne|]. apply (Hs c e'); [apply elem_of_app; by left|done].
Qed.

Lemma BagProfile_new_ok id es b : BagProfile_new id es = Ok b -> profile_ok b.
Proof.
  unfold BagProfile_new. case_bool_decide as He; [done|]. destruct (check_entries [] es) as [[]|] eqn:Hc; [|done].
  intros [= <-]. destruct (check_entries_Ok _ _ Hc) as (Hm & Hn & _). done.
Qed.

Lemma standard_7_ok : profile_ok BagProfile_standard_7.
Proof. apply (BagProfile_new_ok "standard-7-bag" (entries BagProfile_standard_7)). reflexivity. Qed.

Definition next_states (b : BagProfile) (st : nat * list nat) : list (PieceKind * (nat * list nat)) :=
  let '(offset, used) := normalized_bag_state b st in
  omap (fun ie => if (used_at used (fst ie) <? multiplicity (snd ie))%nat
                  then Some (entry_piece (snd ie), ((offset + 1)%nat, use_entry used (fst ie))) else None)
    (imap pair (entries b)).

(** The multiset one bag of the profile holds. *)
Definition profile_pieces (b : BagProfile) : list PieceKind :=
  entries b ≫= (fun e => replicate (multiplicity e) (entry_piece e)).

(** The windows that can be seen [offset] pieces into a bag. *)
Definition bag_window (b : BagProfile) (offset : nat) (pieces : list PieceKind) : Prop :=
  exists before, length before = offset /\ bag_sequence (profile_pieces b) (before ++ pieces).

Lemma position_of_Some p es i :
  position_of p es = Some i -> exists e, es !! i = Some e /\ entry_piece e = p.
Proof.
  revert i. induction es as [|e es IH]; intros i H; cbn [position_of] in H; [done|].
  case_bool_decide as He; [injection H as <-; by exists e|].
  destruct (position_of p es) as [j|]; [|done]. injection H as <-. by apply IH.
Qed.

Lemma position_of_lookup es i e :
  NoDup (entry_piece <$> es) -> es !! i = Some e -> position_of (entry_piece e) es = Some i.
Proof.
  revert i. induction es as [|e' es IH]; intros i Hn Hi; [done|]. csimpl in Hn. apply NoDup_cons in Hn as [Hnot Hn].
  cbn [position_of]. destruct i as [|i]; simpl in Hi.
  - injection Hi as ->. by rewrite bool_decide_eq_true_2.
  - rewrite bool_decide_eq_false_2; [by rewrite (IH i)|]. intros Heq. apply Hnot. rewrite Heq.
    apply list_elem_of_fmap_2. by eapply list_elem_of_lookup_2.
Qed.

Lemma find_position p es :
  find (fun e => bool_decide (entry_piece e = p)) es = position_of p es ≫= (fun i => es !! i).
Proof.
  induction es as [|e es IH]; [done|]. cbn [find position_of]. destruct (bool_decide (entry_piece e = p)); [done|].
  rewrite IH. by destruct (position_of p es).
Qed.

Lemma multiplicity_for_index b p :
  multiplicity_for b p = default 0%nat (i ← entry_index b p; multiplicity <$> entries b !! i).
Proof. unfold multiplicity_for, entry_index. rewrite find_position. by destruct (position_of p (entries b)). Qed.

Lemma count_of_not_in es p :
  p ∉ (entry_piece <$> es) -> count_of (es ≫= (fun e => replicate (multiplicity e) (entry_piece e))) p = 0%nat.
Proof.
  induction es as [|e es IH]; [done|]. csimpl. rewrite not_elem_of_cons. intros [Hne Hnot].
  rewrite count_of_app, count_of_replicate, bool_decide_eq_false_2, IH by done. done.
Qed.

Lemma omap_imap_sublist {B} (h : nat -> nat) (sel : nat * BagProfileEntry -> bool) (k : nat * BagProfileEntry -> B) es :
  fst <$> omap (fun ie => if sel ie then Some (entry_piece (snd ie), k ie) else None) (imap (fun i e => (h i, e)) es)
  `sublist_of` entry_piece <$> es.
Proof.
  revert h. induction es as [|e es IH]; intros h; [done|]. csimpl. specialize (IH (h ∘ S)).
  destruct (sel (h 0%nat, e)); csimpl; [by apply sublist_skip|by apply sublist_cons].
Qed.

(** ** Walking a window *)

Section Profile.
Context (b : BagProfile) (Hb : profile_ok b).

Lemma count_profile_pieces p : count_of (profile_pieces b) p = multiplicity_for b p.
Proof.
  destruct Hb as (_ & _ & Hn). unfold profile_pieces, multiplicity_for, profile_entry_pieces in *.
  induction (entries b) as [|e es IH]; [done|]. csimpl in *. apply NoDup_cons in Hn as [Hnot Hn].
  rewrite count_of_app, count_of_replicate. destruct (decide (entry_piece e = p)) as [<-|Hne].
  - rewrite !bool_decide_eq_true_2, count_of_not_in by done. simpl. lia.
  - rewrite !bool_decide_eq_false_2 by naive_solver. by rewrite IH.
Qed.

Lemma length_profile_pieces : length (profile_pieces b) = bag_size b.
Proof.
  unfold profile_pieces, bag_size. clear Hb. induction (entries b) as [|e es IH]; [done|]. csimpl.
  by rewrite length_app, length_replicate, IH.
Qed.

Lemma bag_size_pos : (0 < bag_size b)%nat.
Proof.
  destruct Hb as (Hne & Hm & _). unfold bag_size. destruct (entries b) as [|e es]; [done|].
  apply Forall_cons in Hm as [Hm _]. csimpl. lia.
Qed.

(** How often a piece was used in the current bag. *)
Definition used_of (used : list nat) (p : PieceKind) : nat := default 0%nat (i ← entry_index b p; used !! i).

Lemma entry_index_inj p q i : entry_index b p = Some i -> entry_index b q = Some i -> p = q.
Proof.
  intros (e & He & <-)%position_of_Some (e' & He' & <-)%position_of_Some. rewrite He in He'. by injection He' as ->.
Qed.

Lemma entry_index_lt p i : entry_index b p = Some i -> (i < length (entries b))%nat.
Proof. intros (e & He & _)%position_of_Some. by eapply lookup_lt_Some. Qed.

Lemma used_of_use used p q i :
  length used = length (entries b) -> entry_index b p = Some i ->
  used_of (use_entry used i) q = ((if bool_decide (q = p) then 1 else 0) + used_of used q)%nat.
Proof.
  intros Hl Hi. unfold used_of, use_entry, used_at. case_bool_decide as Hq.
  - subst q. rewrite Hi. cbn. rewrite list_lookup_insert_eq by (rewrite Hl; by eapply entry_index_lt). simpl. lia.
  - destruct (entry_index b q) as [j|] eqn:Hj; [|done]. cbn.
    rewrite list_lookup_insert_ne; [done|]. intros <-. apply Hq. by eapply entry_index_inj.
Qed.

Lemma used_of_zeros p (used : list nat) : used_of ((fun _ => 0%nat) <$> used) p = 0%nat.
Proof. unfold used_of. destruct (entry_index b p) as [i|]; [|done]. cbn. rewrite list_lookup_fmap. by destruct (used !! i). Qed.

Lemma used_of_replicate p n : used_of (replicate n 0%nat) p = 0%nat.
Proof.
  unfold used_of. destruct (entry_index b p) as [i|]; [|done]. cbn.
  destruct (replicate n 0%nat !! i) as [x|] eqn:E; [|done]. by apply lookup_replicate in E as [-> _].
Qed.

(** A state within a bag. *)
Definition state_ok (st : nat * list nat) : Prop :=
  length (snd st) = length (entries b) /\ (fst st <= bag_size b)%nat.

Lemma normalized_ok st : state_ok st -> state_ok (normalized_bag_state b st) /\ (fst (normalized_bag_state b st) < bag_size b)%nat.
Proof.
  intros [Hl Ho]. pose proof bag_size_pos. unfold normalized_bag_state, state_ok. destruct (Nat.eqb_spec (fst st) (bag_size b)); simpl.
  - rewrite length_fmap. lia.
  - lia.
Qed.

(** A step succeeds exactly if the bag still holds the piece. *)
Lemma boundary_step_spec st p :
  state_ok st ->
  let '(offset, used) := normalized_bag_state b st in
  match boundary_step b st p with
  | Some st' => (used_of used p < multiplicity_for b p)%nat /\ fst st' = S offset /\ state_ok st' /\
      forall q, used_of (snd st') q = ((if bool_decide (q = p) then 1 else 0) + used_of used q)%nat
  | None => (multiplicity_for b p <= used_of used p)%nat
  end.
Proof.
  intros Hst. destruct (normalized_ok st Hst) as [[Hl Ho] Hlt]. unfold boundary_step.
  destruct (normalized_bag_state b st) as [offset used]. simpl in *. rewrite multiplicity_for_index.
  destruct (entry_index b p) as [i|] eqn:Hi; cbn; [|lia].
  assert (used_at (use_entry used i) i = S (used_of used p)) as ->.
  { unfold used_at at 1, use_entry, used_of. rewrite Hi. cbn. rewrite list_lookup_insert_eq by (rewrite Hl; by eapply entry_index_lt).
    unfold used_at. simpl. lia. }
  destruct (Nat.leb_spec (default 0%nat (multiplicity <$> entries b !! i)) (used_of used p)); [lia|].
  split; [lia|]. split; [simpl; lia|]. split; [split; simpl; [unfold use_entry; by rewrite length_insert|lia]|].
  intros q. by apply used_of_use.
Qed.

(** What the walk still accepts: the rest of the current bag, then bags. *)
Lemma submseteq_counts l : l ⊆+ profile_pieces b <-> forall q, (count_of l q <= multiplicity_for b q)%nat.
Proof.
  split.
  - intros Hs q. rewrite <- count_profile_pieces. by apply count_of_submseteq.
  - intros H. apply submseteq_of_counts. intros q. rewrite count_profile_pieces. apply H.
Qed.

Lemma bag_sequence_split qs :
  bag_sequence (profile_pieces b) qs <->
  take (bag_size b) qs ⊆+ profile_pieces b /\ bag_sequence (profile_pieces b) (drop (bag_size b) qs).
Proof.
  pose proof length_profile_pieces as Hlen. split.
  - intros (bags & last & -> & Hbags & Hlast). destruct Hbags as [|bag bags Hbag Hbags].
    + cbn [concat app]. pose proof (submseteq_length _ _ Hlast) as Hll. rewrite Hlen in Hll.
      rewrite take_ge, drop_ge by lia. split; [done|]. exists [], []. split; [done|]. split; [constructor|apply submseteq_nil_l].
    + cbn [concat]. rewrite <- app_assoc. pose proof (Permutation_length Hbag) as Hbl. rewrite Hlen in Hbl.
      rewrite take_app_length', drop_app_length' by done. split; [by rewrite Hbag|]. by exists bags, last.
  - intros [Ht Hd]. destruct (decide (length qs <= bag_size b)%nat) as [Hle|Hgt].
    + rewrite take_ge in Ht by done. exists [], qs. split; [done|]. split; [constructor|done].
    + destruct Hd as (bags & last & Hd & Hbags & Hlast). exists (take (bag_size b) qs :: bags), last. cbn [concat].
      rewrite <- app_assoc, <- Hd, take_drop. split; [done|]. split; [constructor; [|done]|done].
      apply submseteq_length_Permutation; [done|]. rewrite Hlen, length_take. lia.
Qed.

Lemma bag_sequence_nil : bag_sequence (profile_pieces b) [].
Proof. exists [], []. split; [done|]. split; [constructor|apply submseteq_nil_l]. Qed.

Definition fits_rest (used : list nat) (l : list PieceKind) : Prop :=
  forall q, (used_of used q + count_of l q <= multiplicity_for b q)%nat.

Lemma fits_rest_zeros (used : list nat) l : (forall q, used_of used q = 0%nat) -> fits_rest used l <-> l ⊆+ profile_pieces b.
Proof. intros Hz. rewrite submseteq_counts. unfold fits_rest. split; intros H q; specialize (H q); rewrite Hz in *; lia. Qed.

Lemma boundary_run_spec st ps :
  state_ok st -> (forall q, used_of (snd st) q <= multiplicity_for b q)%nat ->
  is_Some (boundary_run b st ps) <->
  fits_rest (snd st) (take (bag_size b - fst st) ps) /\ bag_sequence (profile_pieces b) (drop (bag_size b - fst st) ps).
Proof.
  revert st. induction ps as [|p ps IH]; intros st Hst Hused; cbn [boundary_run].
  { rewrite take_nil, drop_nil. split; [|by eexists]. intros _. split; [|apply bag_sequence_nil].
    intros q. specialize (Hused q). unfold count_of. rewrite filter_nil. simpl. lia. }
  assert (fits_rest (snd st) (take (bag_size b - fst st) (p :: ps)) /\ bag_sequence (profile_pieces b) (drop (bag_size b - fst st) (p :: ps)) <->
    let '(o, u) := normalized_bag_state b st in
    fits_rest u (take (bag_size b - o) (p :: ps)) /\ bag_sequence (profile_pieces b) (drop (bag_size b - o) (p :: ps))) as ->.
  { unfold normalized_bag_state. destruct st as [o u]. cbn [fst snd]. destruct (Nat.eqb_spec o (bag_size b)) as [->|]; [|done].
    rewrite Nat.sub_diag, Nat.sub_0_r, take_0, drop_0, bag_sequence_split, (fits_rest_zeros ((fun _ => 0%nat) <$> u)) by (intros; apply used_of_zeros).
    split; [by intros [_ ?]|]. intros H. split; [|done]. intros q. specialize (Hused q). cbn [snd] in Hused. unfold count_of.
    rewrite filter_nil. simpl. lia. }
  pose proof (boundary_step_spec st p Hst) as Hstep. destruct (normalized_ok st Hst) as [_ Hlt].
  assert (forall q, used_of (snd (normalized_bag_state b st)) q <= multiplicity_for b q)%nat as Hu.
  { unfold normalized_bag_state. destruct (fst st =? bag_size b)%nat; [|done]. intros q. simpl. rewrite used_of_zeros. lia. }
  destruct (normalized_bag_state b st) as [o u]. cbn [fst snd] in Hlt, Hu.
  replace (bag_size b - o)%nat with (S (bag_size b - S o)) by lia. cbn [take drop firstn skipn].
  destruct (boundary_step b st p) as [st'|]; cbn.
  - destruct Hstep as (Hav & Ho & Hst' & Hused'). rewrite (IH st' Hst').
    + rewrite Ho. unfold fits_rest. split; intros [Hf Hs]; (split; [|done]); intros q; specialize (Hf q);
        pose proof (Hused' q); pose proof (count_of_cons p (take (bag_size b - S o) ps) q); unfold take in *; lia.
    + intros q. rewrite Hused'. specialize (Hu q). case_bool_decide; [subst q|]; lia.
  - split; [by intros [? [=]]|]. intros [Hf _]. specialize (Hf p). rewrite count_of_cons, bool_decide_eq_true_2 in Hf by done. lia.
Qed.

(** A window is accepted at an offset exactly if it can be seen there. *)
Lemma boundary_state_window offset ps :
  (offset <= bag_size b)%nat -> is_Some (boundary_state_after_prefix_with_profile ps offset b) <-> bag_window b offset ps.
Proof.
  intros Ho. unfold boundary_state_after_prefix_with_profile. rewrite boundary_run_spec.
  2:{ split; [apply length_replicate|done]. }
  2:{ intros q. simpl. rewrite used_of_replicate. lia. }
  cbn [fst snd]. rewrite (fits_rest_zeros (replicate _ _)) by (intros; apply used_of_replicate).
  pose proof length_profile_pieces as Hlen. split.
  - intros [Ht Hd]. destruct (submseteq_Permutation _ _ Ht) as [rest Hrest].
    pose proof (Permutation_length Hrest) as Hl. rewrite Hlen, length_app in Hl.
    pose proof (length_take ps (bag_size b - offset)) as Hlt.
    exists (take offset rest). split; [rewrite length_take; lia|]. rewrite bag_sequence_split.
    assert (length (take offset rest) = offset) as Hof by (rewrite length_take; lia).
    rewrite take_app_ge, drop_app_ge, Hof by lia. split; [|done].
    rewrite Hrest, Permutation_app_comm. apply submseteq_app; [done|]. apply sublist_submseteq, sublist_take.
  - intros (before & <- & Hs). rewrite bag_sequence_split, take_app_ge, drop_app_ge in Hs by done. destruct Hs as [Ht Hd].
    split; [|done]. etrans; [|exact Ht]. by apply submseteq_inserts_l.
Qed.

(** ** Duplicate witnesses and the walk *)

Definition seen_matches (seen : gmap PieceKind (nat * nat)) (used : list nat) : Prop :=
  forall q, default 0%nat (snd <$> seen !! q) = used_of used q.

Lemma duplicate_scan_run off0 index st start seen ps :
  state_ok st -> seen_matches seen (snd st) ->
  duplicate_scan b off0 index (fst st) start seen ps = None <-> is_Some (boundary_run b st ps).
Proof.
  revert index st start seen. induction ps as [|p ps IH]; intros index st start seen Hst Hseen.
  { split; [by eexists|done]. }
  cbn [duplicate_scan boundary_run]. pose proof (boundary_step_spec st p Hst) as Hstep.
  assert (exists seen' start', (if (fst st =? bag_size b)%nat then (0%nat, ∅, index) else (fst st, seen, start)) =
    (fst (normalized_bag_state b st), seen', start') /\ seen_matches seen' (snd (normalized_bag_state b st))) as (seen' & start' & -> & Hseen').
  { unfold normalized_bag_state. destruct (fst st =? bag_size b)%nat; [exists ∅, index|by exists seen, start].
    split; [done|]. intros q. cbn [snd]. rewrite lookup_empty. symmetry. apply used_of_zeros. }
  destruct (normalized_bag_state b st) as [o u]. cbn [fst snd] in *. specialize (Hseen' p) as Hp.
  destruct (Nat.eqb_spec (multiplicity_for b p) 0) as [Hz|Hz].
  { destruct (boundary_step b st p); [destruct Hstep; lia|]. split; [done|by intros [? [=]]]. }
  destruct (default (index, 0%nat) (seen' !! p)) as [first n] eqn:Hd.
  assert (n = used_of u p) as -> by (rewrite <- Hp; destruct (seen' !! p) as [[]|]; simpl in *; congruence).
  destruct (Nat.ltb_spec (multiplicity_for b p) (used_of u p + 1)) as [Hlt|Hge].
  { destruct (boundary_step b st p); [destruct Hstep; lia|]. split; [done|by intros [? [=]]]. }
  destruct (boundary_step b st p) as [st'|]; [|lia]. destruct Hstep as (_ & Ho & Hst' & Hused). cbn [mbind option_bind].
  rewrite Nat.add_1_r with (n := o), <- Ho. apply IH; [done|]. intros q. rewrite Hused. case_bool_decide as Hq.
  - subst q. rewrite lookup_insert_eq. simpl. lia.
  - rewrite lookup_insert_ne by done. simpl. apply Hseen'.
Qed.

Lemma duplicate_None offset ps :
  (offset < bag_size b)%nat ->
  duplicate_for_boundary_offset_with_profile ps b offset = None <-> is_Some (boundary_state_after_prefix_with_profile ps offset b).
Proof.
  intros Ho. unfold duplicate_for_boundary_offset_with_profile, boundary_state_after_prefix_with_profile.
  destruct (Nat.eqb_spec (bag_size b) 0); [lia|]. destruct (Nat.leb_spec (bag_size b) offset); [lia|]. cbn [orb].
  apply (duplicate_scan_run offset 0 (offset, _)).
  - split; [apply length_replicate|simpl; lia].
  - intros q. rewrite lookup_empty. symmetry. apply used_of_replicate.
Qed.

(** ** The words of the walk *)

(** The branch the loops over the entries take at one entry. *)
Definition entry_branch (st : nat * list nat) (ie : nat * BagProfileEntry) : option (PieceKind * (nat * list nat)) :=
  if (used_at (snd st) (fst ie) <? multiplicity (snd ie))%nat
  then Some (entry_piece (snd ie), ((fst st + 1)%nat, use_entry (snd st) (fst ie))) else None.

Lemma next_states_branch st : next_states b st = omap (entry_branch (normalized_bag_state b st)) (imap pair (entries b)).
Proof. unfold next_states. by destruct (normalized_bag_state b st). Qed.

Lemma entry_branch_step st i e :
  state_ok st -> entries b !! i = Some e ->
  entry_branch (normalized_bag_state b st) (i, e) = (fun st' => (entry_piece e, st')) <$> boundary_step b st (entry_piece e).
Proof.
  intros Hst He. destruct (normalized_ok st Hst) as [[Hl _] _]. unfold entry_branch, boundary_step.
  destruct (normalized_bag_state b st) as [o u]. cbn [snd fst] in *. unfold entry_index.
  rewrite (position_of_lookup _ i e) by (try done; apply Hb). cbn [mbind option_bind]. rewrite He.
  unfold used_at at 2, use_entry at 2. rewrite list_lookup_insert_eq by (rewrite Hl; by eapply lookup_lt_Some).
  cbn [fmap option_fmap option_map default]; unfold id.
  destruct (Nat.ltb_spec (multiplicity e) (used_at u i + 1)), (Nat.ltb_spec (used_at u i) (multiplicity e)); try lia; done.
Qed.

Lemma imap_pair_elem i e : (i, e) ∈ imap pair (entries b) <-> entries b !! i = Some e.
Proof.
  rewrite list_elem_of_lookup. split.
  - intros (j & Hj). rewrite list_lookup_imap in Hj. destruct (entries b !! j) eqn:He; [|done]. by injection Hj as -> ->.
  - intros He. exists i. by rewrite list_lookup_imap, He.
Qed.

Lemma next_states_step st p st' : state_ok st -> (p, st') ∈ next_states b st <-> boundary_step b st p = Some st'.
Proof.
  intros Hst. rewrite next_states_branch, list_elem_of_omap. split.
  - intros ([i e] & He%imap_pair_elem & H). rewrite entry_branch_step in H by done.
    destruct (boundary_step b st (entry_piece e)) eqn:Hs; [|done]. injection H as <- <-. done.
  - intros Hs. assert (exists i, entry_index b p = Some i) as [i Hi].
    { unfold boundary_step in Hs. destruct (normalized_bag_state b st). destruct (entry_index b p) as [i|]; [by exists i|done]. }
    apply position_of_Some in Hi as (e & He & <-). exists (i, e). split; [by apply imap_pair_elem|].
    by rewrite entry_branch_step, Hs by done.
Qed.

Lemma boundary_step_ok st p st' : state_ok st -> boundary_step b st p = Some st' -> state_ok st'.
Proof.
  intros Hst Hs. pose proof (boundary_step_spec st p Hst) as H. rewrite Hs in H.
  destruct (normalized_bag_state b st). apply H.
Qed.

Lemma words_run n st w : state_ok st -> w ∈ words (next_states b) n st <-> length w = n /\ is_Some (boundary_run b st w).
Proof.
  revert st w. induction n as [|n IH]; intros st w Hst; cbn [words].
  { rewrite list_elem_of_singleton. split; [intros ->; split; [done|by eexists]|]. by intros [->%nil_length_inv _]. }
  rewrite list_elem_of_bind. split.
  - intros ([p st'] & Hw & Hin). apply list_elem_of_fmap in Hw as (w' & -> & Hw). cbn [fst snd] in Hw.
    apply next_states_step in Hin; [|done]. apply IH in Hw as [Hl Hr]; [|by eapply boundary_step_ok].
    cbn [length boundary_run fst]. rewrite Hin. cbn [mbind option_bind]. split; [by rewrite Hl|done].
  - intros [Hl [st'' Hr]]. destruct w as [|p w]; [done|]. injection Hl as Hl. cbn [boundary_run] in Hr.
    destruct (boundary_step b st p) as [st'|] eqn:Hs; [|done]. exists (p, st'). split.
    + apply list_elem_of_fmap_2. apply IH; [by eapply boundary_step_ok|]. split; [done|by eexists].
    + by apply next_states_step.
Qed.

Lemma next_states_NoDup st : NoDup (fst <$> next_states b st).
Proof.
  unfold next_states. destruct (normalized_bag_state b st) as [o u]. destruct Hb as (_ & _ & Hn).
  eapply sublist_NoDup; [exact Hn|]. apply (omap_imap_sublist (fun i => i)).
Qed.

(** A walk never gets stuck: in a bag that is not used up, a piece is left. *)
Definition walk_ok (st : nat * list nat) : Prop := state_ok st /\ (sum_list (snd st) <= fst st)%nat.

Lemma sum_use_entry used i : (i < length used)%nat -> sum_list (use_entry used i) = S (sum_list used).
Proof.
  unfold use_entry, used_at. revert i. induction used as [|x used IH]; intros i Hi; [simpl in Hi; lia|].
  destruct i as [|i]; simpl in *; [unfold id; lia|]. rewrite IH by lia. lia.
Qed.

Lemma sum_zeros (used : list nat) : sum_list ((fun _ => 0%nat) <$> used) = 0%nat.
Proof. induction used; [done|]. csimpl. lia. Qed.

Lemma walk_normalized st : walk_ok st -> walk_ok (normalized_bag_state b st).
Proof.
  intros [Hst Hsum]. split; [by apply normalized_ok|]. unfold normalized_bag_state.
  destruct (fst st =? bag_size b)%nat; [|done]. cbn [fst snd]. rewrite sum_zeros. lia.
Qed.

Lemma sum_exhausted (h : nat -> nat) (u : list nat) es :
  (forall i e, es !! i = Some e -> (multiplicity e <= used_at u (h i))%nat) -> (forall i, h i = h 0 + i)%nat ->
  (h 0 + length es <= length u)%nat -> (sum_list (multiplicity <$> es) <= sum_list (drop (h 0) u))%nat.
Proof.
  revert h. induction es as [|e es IH]; intros h Hex Hh Hl; [simpl; lia|]. csimpl. simpl in Hl.
  destruct (lookup_lt_is_Some_2 u (h 0%nat)) as [x Hx]; [lia|]. rewrite (drop_S _ _ _ Hx). csimpl.
  specialize (Hex 0%nat e eq_refl) as H0. unfold used_at in H0. rewrite Hx in H0. simpl in H0. unfold id in H0.
  specialize (IH (fun i => h (S i))). cbn beta in IH. rewrite (Hh 1%nat), Nat.add_1_r in IH.
  assert (sum_list (multiplicity <$> es) <= sum_list (drop (S (h 0%nat)) u))%nat; [|lia].
  apply IH; [intros i e'; apply (Hex (S i))|intros i; rewrite (Hh (S i)); lia|lia].
Qed.

Lemma next_states_live : live (next_states b) walk_ok.
Proof.
  intros st Hw. pose proof (walk_normalized st Hw) as [[Hl _] Hsum]. destruct (normalized_ok st (proj1 Hw)) as [_ Hlt].
  rewrite next_states_branch. destruct (normalized_bag_state b st) as [o u]. cbn [fst snd] in *. split.
  - intros Hnil. assert (bag_size b <= sum_list (drop 0 u))%nat; [|rewrite drop_0 in *; lia].
    apply (sum_exhausted (fun i => i)); [|done|simpl; lia]. intros i e He.
    destruct (Nat.ltb_spec (used_at u i) (multiplicity e)) as [Hlt'|]; [|done]. exfalso.
    apply (not_elem_of_nil (entry_piece e, ((o + 1)%nat, use_entry u i))). rewrite <- Hnil. apply list_elem_of_omap.
    exists (i, e). split; [by apply imap_pair_elem|]. unfold entry_branch. cbn [fst snd].
    by destruct (Nat.ltb_spec (used_at u i) (multiplicity e)); [|lia].
  - apply Forall_forall. intros [p st'] ([i e] & He%imap_pair_elem & H)%list_elem_of_omap. unfold entry_branch in H. cbn [fst snd] in H.
    destruct (_ <? _)%nat; [|done]. injection H as <- <-. apply lookup_lt_Some in He. cbn [snd].
    split; [split; simpl; [unfold use_entry; by rewrite length_insert|lia]|]. cbn [fst snd]. rewrite sum_use_entry by lia. lia.
Qed.

Lemma start_walk_ok offset : (offset <= bag_size b)%nat -> walk_ok (offset, replicate (length (entries b)) 0%nat).
Proof.
  intros Ho. split; [split; [apply length_replicate|done]|]. cbn [fst snd].
  assert (sum_list (replicate (length (entries b)) 0%nat) = 0%nat) as ->; [|lia]. induction (length (entries b)); [done|by simpl].
Qed.

Lemma step_walk_ok st p st' : walk_ok st -> boundary_step b st p = Some st' -> walk_ok st'.
Proof.
  intros Hw Hs. destruct (next_states_live st Hw) as [_ Hall]. rewrite Forall_forall in Hall.
  apply (Hall (p, st')). apply next_states_step; [apply Hw|done].
Qed.

Lemma run_walk_ok st ps st' : walk_ok st -> boundary_run b st ps = Some st' -> walk_ok st'.
Proof.
  revert st. induction ps as [|p ps IH]; intros st Hw Hr; cbn [boundary_run] in Hr; [by injection Hr as <-|].
  destruct (boundary_step b st p) as [st1|] eqn:Hs; [|done]. cbn in Hr. eapply IH; [by eapply step_walk_ok|done].
Qed.

(** ** The memoised count *)

Lemma next_states_normalized st : next_states b (normalized_bag_state b st) = next_states b st.
Proof.
  rewrite !next_states_branch. f_equal. f_equal. unfold normalized_bag_state at 1. pose proof bag_size_pos.
  destruct (Nat.eqb_spec (fst (normalized_bag_state b st)) (bag_size b)) as [He|]; [|done].
  unfold normalized_bag_state in *. destruct (Nat.eqb_spec (fst st) (bag_size b)); [simpl in He; lia|done].
Qed.

Definition capped (n : nat) (st : nat * list nat) : Z := Z.min (words_count (next_states b) n st) (umax 128).

Definition memo_ok (memo : Memo) : Prop :=
  forall n o u c, memo !! (n, o, u) = Some c -> c = capped n (o, u).

Lemma saturating_add_capped x y :
  (0 <= x)%Z -> (0 <= y)%Z -> saturating_add 128 (Z.min x (umax 128)) (Z.min y (umax 128)) = Z.min (x + y) (umax 128).
Proof. unfold saturating_add, umax. lia. Qed.

Lemma count_suffixes_spec n st memo :
  memo_ok memo -> fst (count_suffixes b n st memo) = capped n st /\ memo_ok (snd (count_suffixes b n st memo)).
Proof.
  revert st memo. induction n as [|n IH]; intros st memo Hm; cbn [count_suffixes]; [done|].
  assert (capped (S n) (normalized_bag_state b st) = capped (S n) st) as Hcap.
  { unfold capped. by rewrite !word_count_S, next_states_normalized. }
  pose proof (next_states_branch st) as Hnext. destruct (normalized_bag_state b st) as [o u] eqn:Hst.
  destruct (memo !! (S n, o, u)) as [c|] eqn:Hc; [by rewrite (Hm _ _ _ _ Hc), Hcap|].
  set (body := fun acc ie => _).
  assert (forall l x memo, (0 <= x)%Z -> memo_ok memo ->
    fst (foldl body (Z.min x (umax 128), memo) l) =
      Z.min (x + foldr (fun ps c => (words_count (next_states b) n (snd ps) + c)%Z) 0%Z (omap (entry_branch (o, u)) l)) (umax 128) /\
    memo_ok (snd (foldl body (Z.min x (umax 128), memo) l))) as Hfold.
  { induction l as [|ie l IHl]; intros x memo' Hx Hm'; [simpl; split; [lia|done]|].
    cbn [foldl]. unfold body at 2 4. cbn [fst snd]. cbn [omap list_omap]. unfold entry_branch at 1. cbn [fst snd].
    destruct (_ <? _)%nat; [|by apply IHl].
    destruct (IH ((o + 1)%nat, use_entry u (fst ie)) memo' Hm') as [Hcount Hmemo].
    destruct (count_suffixes b n _ memo') as [c m]. cbn [fst snd] in Hcount, Hmemo. rewrite Hcount. unfold capped.
    assert (0 <= words_count (next_states b) n ((o + 1)%nat, use_entry u (fst ie)))%Z by (unfold words_count; lia).
    rewrite saturating_add_capped by done. destruct (IHl (x + words_count (next_states b) n ((o + 1)%nat, use_entry u (fst ie)))%Z m) as [H1 H2]; [lia|done|].
    split; [|done]. rewrite H1. cbn [foldr snd]. f_equal. lia. }
  destruct (Hfold (imap pair (entries b)) 0%Z memo ltac:(lia) Hm) as [H1 H2].
  change (Z.min 0 (umax 128)) with 0%Z in H1, H2. destruct (foldl body (0%Z, memo) (imap pair (entries b))) as [c m].
  cbn [fst snd] in *. rewrite Z.add_0_l, <- Hnext, <- word_count_S in H1. split; [done|].
  intros n' o' u' c' Hl. destruct (decide ((n', o', u') = (S n, o, u))) as [[= -> -> ->]|Hne].
  - rewrite lookup_insert_eq in Hl. injection Hl as <-. by rewrite H1, Hcap.
  - rewrite lookup_insert_ne in Hl by done. by apply H2.
Qed.

(** ** The enumeration *)

(** What appending [ws] to [acc] gives under the limit. *)
Definition emit (max : nat) (acc ws : list (nat * list PieceKind)) : RawPatterns :=
  (take max (acc ++ ws), bool_decide (max < length acc + length ws)%nat).

Lemma emit_full max acc ws : length acc = max -> ws <> [] -> emit max acc ws = (acc, true).
Proof.
  intros Hl Hne. unfold emit. rewrite take_app_length' by done. rewrite bool_decide_eq_true_2; [done|].
  destruct ws; [done|simpl; lia].
Qed.

(** A loop whose turns append [f x], the first in line to exceed the limit
    setting the flag, appends all of them under the limit. *)
Lemma until_truncated_emit {A} max (visit : A -> RawPatterns -> option RawPatterns) (f : A -> list (nat * list PieceKind)) xs acc :
  (forall x acc, x ∈ xs -> (length acc <= max)%nat -> visit x (acc, false) = Some (emit max acc (f x))) ->
  (length acc <= max)%nat -> until_truncated visit xs (acc, false) = Some (emit max acc (xs ≫= f)).
Proof.
  revert acc. induction xs as [|x xs IH]; intros acc Hv Hacc; cbn [until_truncated].
  { unfold emit. cbn. rewrite app_nil_r, take_ge by lia. by rewrite bool_decide_eq_false_2 by lia. }
  rewrite Hv by (done || by left). cbn [mbind option_bind snd emit]. csimpl.
  destruct (decide (max < length acc + length (f x))%nat) as [Hlt|Hge].
  - rewrite bool_decide_eq_true_2 by done. unfold emit. rewrite app_assoc, (take_app_le (acc ++ f x)) by (rewrite length_app; lia).
    rewrite length_app. by rewrite !bool_decide_eq_true_2 by lia.
  - rewrite bool_decide_eq_false_2 by done. unfold emit at 1. rewrite take_ge by (rewrite length_app; lia).
    rewrite bool_decide_eq_false_2 by done. rewrite IH.
    + unfold emit. rewrite app_assoc, !length_app. f_equal. f_equal. apply bool_decide_ext. lia.
    + intros y acc' Hy. apply Hv. by right.
    + rewrite length_app. lia.
Qed.

Lemma boundary_run_app st ps qs : boundary_run b st (ps ++ qs) = boundary_run b st ps ≫= (fun st' => boundary_run b st' qs).
Proof. revert st. induction ps as [|p ps IH]; intros st; [done|]. simpl. destruct (boundary_step b st p); [apply IH|done]. Qed.

Lemma duplicate_snoc candidate prefix st p :
  (candidate < bag_size b)%nat -> boundary_state_after_prefix_with_profile prefix candidate b = Some st ->
  is_none (duplicate_for_boundary_offset_with_profile (prefix ++ [p]) b candidate) = bool_decide (is_Some (boundary_step b st p)).
Proof.
  intros Hc Hst. pose proof (duplicate_None candidate (prefix ++ [p]) Hc) as H.
  unfold boundary_state_after_prefix_with_profile in *. rewrite boundary_run_app, Hst in H. cbn [mbind option_bind boundary_run] in H.
  assert (is_Some (st' ← boundary_step b st p; Some st') <-> is_Some (boundary_step b st p)) as Hs by by destruct (boundary_step b st p).
  destruct (duplicate_for_boundary_offset_with_profile _ _ _).
  - symmetry. apply bool_decide_eq_false_2. intros Hss. apply Hs, H in Hss. done.
  - symmetry. apply bool_decide_eq_true_2. by apply Hs, H.
Qed.

Lemma next_states_words st n (f : list PieceKind -> nat * list PieceKind) :
  state_ok st -> f <$> words (next_states b) (S n) st =
    profile_entry_pieces b ≫= (fun p =>
      match boundary_step b st p with Some st' => (fun w => f (p :: w)) <$> words (next_states b) n st' | None => [] end).
Proof.
  intros Hst. cbn [words]. rewrite next_states_branch. unfold profile_entry_pieces.
  assert (forall l, (forall i e, (i, e) ∈ l -> entries b !! i = Some e) ->
    f <$> (omap (entry_branch (normalized_bag_state b st)) l ≫= (fun ps => cons (fst ps) <$> words (next_states b) n (snd ps))) =
    (entry_piece ∘ snd <$> l) ≫= (fun p =>
      match boundary_step b st p with Some st' => (fun w => f (p :: w)) <$> words (next_states b) n st' | None => [] end)) as H.
  { induction l as [|[i e] l IH]; intros Hl; [done|]. cbn [omap list_omap]. rewrite entry_branch_step by (try done; apply Hl; by left).
    specialize (IH ltac:(intros i' e' Hin; apply Hl; by right)).
    csimpl. destruct (boundary_step b st (entry_piece e)) as [st'|]; csimpl; [|done]. rewrite fmap_app, IH, <- list_fmap_compose. done. }
  rewrite H by (intros i e; apply imap_pair_elem). f_equal. rewrite fmap_imap. apply imap_const.
Qed.

Lemma enumerate_unfold fuel target candidate max prefix acc :
  enumerate_visible_suffixes (S fuel) b target candidate max prefix (acc, false) =
  if (max <=? length acc)%nat then Some (acc, true)
  else if (length prefix =? target)%nat then Some (acc ++ [(candidate, prefix)], false)
  else until_truncated (fun p out =>
    if is_none (duplicate_for_boundary_offset_with_profile (prefix ++ [p]) b candidate)
    then enumerate_visible_suffixes fuel b target candidate max (prefix ++ [p]) out else Some out) (profile_entry_pieces b) (acc, false).
Proof. reflexivity. Qed.

Lemma enumerate_spec candidate target max k prefix st acc :
  (candidate < bag_size b)%nat -> boundary_state_after_prefix_with_profile prefix candidate b = Some st ->
  walk_ok st -> (length prefix + k)%nat = target -> (length acc <= max)%nat ->
  enumerate_visible_suffixes (S k) b target candidate max prefix (acc, false) =
    Some (emit max acc ((fun w => (candidate, prefix ++ w)) <$> words (next_states b) k st)).
Proof.
  intros Hc. revert prefix st acc. induction k as [|k IH]; intros prefix st acc Hst Hw Hk Hacc;
    rewrite enumerate_unfold; destruct (Nat.leb_spec max (length acc)) as [Hmax|Hmax].
  1,3: rewrite emit_full; [done|lia|]; intros ?%fmap_nil_inv; by eapply (words_nonempty _ _ _ st next_states_live Hw).
  - destruct (Nat.eqb_spec (length prefix) target); [|lia]. cbn [words]. unfold emit. csimpl. rewrite app_nil_r.
    rewrite take_ge by (rewrite length_app; simpl; lia). by rewrite bool_decide_eq_false_2 by lia.
  - destruct (Nat.eqb_spec (length prefix) target); [lia|]. rewrite next_states_words by apply Hw.
    apply until_truncated_emit; [|done]. intros p acc' _ Hacc'. rewrite (duplicate_snoc candidate prefix st p Hc Hst).
    destruct (boundary_step b st p) as [st'|] eqn:Hs.
    + rewrite bool_decide_eq_true_2 by by eexists. rewrite (IH (prefix ++ [p]) st').
      * f_equal. f_equal. apply list_fmap_ext. intros ? w _. by rewrite <- app_assoc.
      * unfold boundary_state_after_prefix_with_profile in *. rewrite boundary_run_app, Hst. cbn. by rewrite Hs.
      * by eapply step_walk_ok.
      * rewrite length_app. simpl. lia.
      * done.
    + rewrite bool_decide_eq_false_2 by by intros [? [=]]. unfold emit. rewrite app_nil_r, take_ge by lia.
      by rewrite bool_decide_eq_false_2 by (simpl; lia).
Qed.

(** The continuations of a window seen at one offset. *)
Definition continuations (queue : list PieceKind) (target offset : nat) : list (nat * list PieceKind) :=
  match boundary_state_after_prefix_with_profile queue offset b with
  | Some st => (fun w => (offset, queue ++ w)) <$> words (next_states b) (target - length queue) st
  | None => []
  end.

Definition all_continuations (queue : list PieceKind) (target : nat) : list (nat * list PieceKind) :=
  seq 0 (bag_size b) ≫= continuations queue target.

Lemma report_candidates pieces :
  candidates (analyze_observed_window_with_profile pieces b) =
  filter (fun o => is_Some (boundary_state_after_prefix_with_profile pieces o b)) (seq 0 (bag_size b)).
Proof.
  unfold analyze_observed_window_with_profile. pose proof bag_size_pos. destruct (Nat.eqb_spec (bag_size b) 0); [lia|].
  cbn [candidates]. apply filter_ext_in. intros o Ho%elem_of_seq.
  rewrite <- duplicate_None by lia. by destruct (duplicate_for_boundary_offset_with_profile pieces b o).
Qed.

(** The order of an expansion: by offset, then word by word as the profile
    lists the pieces. *)
Definition listed_before (p q : PieceKind) : Prop := exists i j, entry_index b p = Some i /\ entry_index b q = Some j /\ (i < j)%nat.

Definition window_before (x y : nat * list PieceKind) : Prop := (fst x < fst y)%nat \/ (fst x = fst y /\ lex_by listed_before (snd x) (snd y)).

Lemma next_states_sorted st : state_ok st -> StronglySorted (fun ps qt => listed_before (fst ps) (fst qt)) (next_states b st) /\ Forall (fun ps => state_ok (snd ps)) (next_states b st).
Proof.
  intros Hst. split.
  - rewrite next_states_branch. assert (forall i e qt, (i, e) ∈ imap pair (entries b) -> entry_branch (normalized_bag_state b st) (i, e) = Some qt -> entry_index b (fst qt) = Some i) as Hindex.
    { intros i e qt He%imap_pair_elem. unfold entry_branch. destruct (_ <? _)%nat; [|done]. intros [= <-]. cbn. apply position_of_lookup; [apply Hb|done]. }
    assert (StronglySorted (fun x y : nat * BagProfileEntry => fst x < fst y)%nat (imap pair (entries b))) as Hs.
    { generalize (entries b) as es. assert (forall k es, StronglySorted (fun x y : nat * BagProfileEntry => fst x < fst y)%nat (imap (fun i e => (k + i, e)%nat) es)) as H; [|apply (H 0%nat)]. intros k es. revert k. induction es as [|e es IH]; intros k; cbn; constructor.
      - specialize (IH (S k)). erewrite imap_ext; [exact IH|]. intros i e' _. cbn. f_equal. lia.
      - apply Forall_lookup. intros i x Hx. rewrite list_lookup_imap in Hx. destruct (es !! i); [|done]. injection Hx as <-. cbn. lia. }
    induction Hs as [|[i e] l _ IH Hall]; [constructor|]. cbn [omap list_omap]. assert (StronglySorted (fun ps qt : PieceKind * (nat * list nat) => listed_before (fst ps) (fst qt)) (omap (entry_branch (normalized_bag_state b st)) l)) as Hl by (apply IH; intros; eapply Hindex; [by right|done]).
    destruct (entry_branch _ (i, e)) as [ps|] eqn:E; [|done]. constructor; [done|]. rewrite Forall_forall in Hall. apply Forall_forall. intros qt ([j e'] & Hin & Hqt)%list_elem_of_omap. exists i, j. split; [apply (Hindex i e); [by left|done]|]. split; [apply (Hindex j e'); [by right|done]|]. exact (Hall _ Hin).
  - apply Forall_forall. intros [p st'] Hin. apply next_states_step in Hin; [|done]. by apply (boundary_step_ok st p).
Qed.

Section Expansion.
Context (queue : list PieceKind) (target : nat) (Htarget : (length queue <= target)%nat).

Let cs : list nat := filter (fun o => is_Some (boundary_state_after_prefix_with_profile queue o b)) (seq 0 (bag_size b)).

Lemma candidate_state c : c ∈ cs -> (c < bag_size b)%nat /\
  exists st, boundary_state_after_prefix_with_profile queue c b = Some st /\ walk_ok st.
Proof.
  intros [[st Hst] Hc%elem_of_seq]%list_elem_of_filter. split; [lia|]. exists st. split; [done|].
  eapply run_walk_ok; [|exact Hst]. apply start_walk_ok. lia.
Qed.

Lemma candidates_continuations : cs ≫= continuations queue target = all_continuations queue target.
Proof.
  apply bind_filter. intros o _ Hn. unfold continuations.
  destruct (boundary_state_after_prefix_with_profile queue o b); [|done]. by destruct Hn.
Qed.

Lemma continuations_nonempty c : c ∈ cs -> continuations queue target c <> [].
Proof.
  intros (_ & st & Hst & Hw)%candidate_state. unfold continuations. rewrite Hst. intros ?%fmap_nil_inv.
  by eapply (words_nonempty _ _ _ st next_states_live Hw).
Qed.

Lemma enumerate_candidates_spec max :
  (0 < max)%nat -> enumerate_candidates b target max queue cs = Some (emit max [] (all_continuations queue target)).
Proof.
  intros Hmax. unfold enumerate_candidates. rewrite <- candidates_continuations. apply until_truncated_emit; [|simpl; lia].
  intros c acc (Hc & st & Hst & Hw)%candidate_state Hacc. rewrite (enumerate_spec c target max _ queue st) by (done || lia).
  unfold continuations. by rewrite Hst.
Qed.

Lemma total_suffix_count_spec l x :
  (forall c, c ∈ l -> c ∈ cs) -> (0 <= x)%Z ->
  total_suffix_count queue target l b (Z.min x (umax 128)) =
  Some (Z.min (x + Z.of_nat (length (l ≫= continuations queue target))) (umax 128)).
Proof.
  revert x. induction l as [|c l IH]; intros x Hl Hx; cbn [total_suffix_count]; [f_equal; simpl; lia|].
  destruct (candidate_state c) as (_ & st & Hst & Hw); [apply Hl; by left|].
  unfold count_visible_suffixes_for_candidate. rewrite Hst. cbn [mbind option_bind].
  destruct (count_suffixes_spec (target - length queue) st ∅) as [-> _]; [by intros n o u c'; rewrite lookup_empty|].
  unfold capped. rewrite saturating_add_capped by (unfold words_count; lia). csimpl. rewrite IH; [|intros; apply Hl; by right|unfold words_count; lia].
  f_equal. rewrite length_app. unfold continuations at 2. rewrite Hst, length_fmap. unfold words_count. f_equal. lia.
Qed.

Lemma all_continuations_nil : all_continuations queue target = [] <-> cs = [].
Proof.
  rewrite <- candidates_continuations. split; [|by intros ->]. destruct cs as [|c l] eqn:E; [done|]. csimpl.
  intros [H _]%app_eq_nil. exfalso. apply (continuations_nonempty c); [fold cs; rewrite E; by left|done].
Qed.

Lemma expand_spec max minimum_len :
  (0 < max)%nat -> target = Nat.max minimum_len (length queue) ->
  let all := all_continuations queue target in
  expand_observed_queue queue minimum_len max b =
    Some (if bool_decide (all = []) then Err IncompatibleBoundary
          else Ok (mkExpansion (analyze_observed_window_with_profile queue b) (Z.min (Z.of_nat (length all)) (umax 128))
                     (take max all) (bool_decide (max < length all)%nat))).
Proof.
  intros Hmax Ht all. unfold expand_observed_queue, is_compatible. destruct (Nat.eqb_spec max 0); [lia|].
  rewrite report_candidates. fold cs. rewrite negb_involutive. destruct (decide (all = [])) as [Hnil|Hnil].
  { rewrite !bool_decide_eq_true_2; [done|done|]. by apply all_continuations_nil. }
  rewrite (bool_decide_eq_false_2 (all = [])), (bool_decide_eq_false_2 (cs = [])) by (done || by rewrite <- all_continuations_nil).
  rewrite <- Ht.
  unfold total_visible_suffix_count_with_profile. pose proof (total_suffix_count_spec cs 0 ltac:(done) ltac:(lia)) as Htotal.
  change (Z.min 0 (umax 128)) with 0%Z in Htotal. rewrite Htotal. cbn [mbind option_bind]. rewrite candidates_continuations, Z.add_0_l. fold all.
  assert (0 < length all)%nat by (destruct all; [done|simpl; lia]).
  destruct (Z.ltb_spec 0 (Z.min (Z.of_nat (length all)) (umax 128))); [|unfold umax in *; lia].
  rewrite enumerate_candidates_spec by done. reflexivity.
Qed.

Lemma all_continuations_elem offset w :
  (offset, w) ∈ all_continuations queue target <->
  (offset < bag_size b)%nat /\ length w = target /\ (exists suffix, w = queue ++ suffix) /\ bag_window b offset w.
Proof.
  unfold all_continuations. rewrite list_elem_of_bind. split.
  - intros (o & Hin & Ho%elem_of_seq). unfold continuations in Hin.
    destruct (boundary_state_after_prefix_with_profile queue o b) as [st|] eqn:Hst; [|by apply not_elem_of_nil in Hin].
    apply list_elem_of_fmap in Hin as (w' & [= -> ->] & Hw').
    assert (walk_ok st) as Hw by (eapply run_walk_ok; [apply start_walk_ok|exact Hst]; lia).
    apply words_run in Hw' as [Hl Hr]; [|apply Hw]. split; [lia|]. split; [rewrite length_app; lia|]. split; [by eexists|].
    apply boundary_state_window; [lia|]. unfold boundary_state_after_prefix_with_profile in *. by rewrite boundary_run_app, Hst.
  - intros (Ho & Hl & (s & ->) & Hwin). apply boundary_state_window in Hwin; [|lia].
    exists offset. split; [|apply elem_of_seq; lia]. unfold continuations, boundary_state_after_prefix_with_profile in *.
    rewrite boundary_run_app in Hwin. destruct (boundary_run b _ queue) as [st|] eqn:Hst; [|by destruct Hwin].
    apply list_elem_of_fmap. exists s. split; [done|].
    assert (walk_ok st) as Hw by (eapply run_walk_ok; [apply start_walk_ok|exact Hst]; lia).
    apply words_run; [apply Hw|]. rewrite length_app in Hl. split; [lia|done].
Qed.

(** Offsets ascend, and at an offset the windows come in the lexicographic
    order of the profile's entries. *)
Lemma all_continuations_sorted : StronglySorted window_before (all_continuations queue target).
Proof.
  unfold all_continuations. assert (forall from n, (from + n <= bag_size b)%nat -> StronglySorted window_before (seq from n ≫= continuations queue target)) as H; [|by apply H].
  assert (forall o ow, ow ∈ continuations queue target o -> fst ow = o) as Hfst.
  { intros o ow Hin. unfold continuations in Hin. destruct (boundary_state_after_prefix_with_profile queue o b); [|by apply not_elem_of_nil in Hin]. by apply list_elem_of_fmap in Hin as (w & -> & _). }
  intros from n. revert from. induction n as [|n IH]; intros from Hle; csimpl; [constructor|]. apply StronglySorted_app_lt; [|by apply IH; lia|].
  - unfold continuations. destruct (boundary_state_after_prefix_with_profile queue from b) as [st|] eqn:Hst; [|constructor]. assert (walk_ok st) as [Hok _] by (eapply run_walk_ok; [apply start_walk_ok|exact Hst]; lia).
    induction (words_sorted (next_states b) listed_before state_ok (target - length queue) st next_states_sorted Hok) as [|w ws _ IHw Hw]; csimpl; constructor; [done|]. apply Forall_fmap. eapply Forall_impl; [exact Hw|]. intros v Hv. right. split; [done|]. by apply lex_by_app.
  - intros x y Hx (o & Hy & Ho%elem_of_seq)%list_elem_of_bind. left. rewrite (Hfst _ _ Hx), (Hfst _ _ Hy). lia.
Qed.

Lemma all_continuations_NoDup : NoDup (all_continuations queue target).
Proof.
  unfold all_continuations. assert (forall l, NoDup l -> NoDup (l ≫= continuations queue target)) as H; [|apply H, NoDup_seq].
  assert (forall o ow, ow ∈ continuations queue target o -> fst ow = o) as Hfst.
  { intros o ow Hin. unfold continuations in Hin. destruct (boundary_state_after_prefix_with_profile queue o b); [|by apply not_elem_of_nil in Hin].
    by apply list_elem_of_fmap in Hin as (w & -> & _). }
  induction 1 as [|o l Hnot Hn IH]; csimpl; [constructor|]. apply NoDup_app. split.
  - unfold continuations. destruct (boundary_state_after_prefix_with_profile queue o b); [|constructor].
    apply NoDup_fmap_2_strong; [|apply words_NoDup, next_states_NoDup]. intros x y _ _ [= H]. by apply app_inv_head in H.
  - split; [|done]. intros ow Hin Hin'. apply Hfst in Hin. apply list_elem_of_bind in Hin' as (o' & Hin' & Ho'). apply Hfst in Hin'. congruence.
Qed.
End Expansion.
End Profile.

(** ** What a duplicate witness says *)

(** [l[from..to]]. *)
Definition slice {A} (l : list A) (from to : nat) : list A := take (to - from) (drop from l).

(** Between [bag_start_index] and [duplicate_index], which lie in one bag, the
    piece occurs more often than the profile allows. *)
Definition duplicate_real (b : BagProfile) (pieces : list PieceKind) (offset : nat) (w : DuplicateWitness) : Prop :=
  dup_initial_offset w = offset /\
  pieces !! first_index w = Some (dup_piece w) /\ pieces !! duplicate_index w = Some (dup_piece w) /\
  (bag_start_index w <= first_index w <= duplicate_index w)%nat /\
  (multiplicity_for b (dup_piece w) < count_of (slice pieces (bag_start_index w) (duplicate_index w + 1)) (dup_piece w))%nat /\
  ((bag_start_index w = 0 /\ duplicate_index w + offset < bag_size b)%nat \/
   ((bag_start_index w + offset) mod bag_size b = 0 /\ duplicate_index w < bag_start_index w + bag_size b)%nat).

Definition seen_ok (pieces : list PieceKind) (start index : nat) (seen : gmap PieceKind (nat * nat)) : Prop :=
  forall q, match seen !! q with
  | Some (f, n) => count_of (slice pieces start index) q = n /\ pieces !! f = Some q /\ (start <= f < index)%nat
  | None => count_of (slice pieces start index) q = 0%nat
  end.

Definition place_ok (b : BagProfile) (offset0 index start offset : nat) : Prop :=
  (start <= index)%nat /\ (offset <= bag_size b)%nat /\
  ((start = 0 /\ offset = offset0 + index)%nat \/ ((start + offset0) mod bag_size b = 0 /\ offset = index - start)%nat).

Lemma slice_snoc {A} (l : list A) from to x :
  (from <= to)%nat -> l !! to = Some x -> slice l from (to + 1) = slice l from to ++ [x].
Proof.
  intros Hle Hx. unfold slice. replace (to + 1 - from)%nat with (S (to - from)) by lia.
  apply take_S_r. rewrite lookup_drop. by replace (from + (to - from))%nat with to by lia.
Qed.

Lemma seen_ok_start pieces index : seen_ok pieces index index ∅.
Proof. intros q. rewrite lookup_empty. unfold slice. by rewrite Nat.sub_diag. Qed.

Lemma duplicate_scan_real b offset0 pieces rest index offset start seen w :
  (0 < bag_size b)%nat -> drop index pieces = rest -> seen_ok pieces start index seen -> place_ok b offset0 index start offset ->
  duplicate_scan b offset0 index offset start seen rest = Some w -> duplicate_real b pieces offset0 w.
Proof.
  intros Hsize. revert index offset start seen. induction rest as [|p rest IH]; intros index offset start seen Hdrop Hseen Hplace Hs;
    [done|]. cbn [duplicate_scan] in Hs.
  assert (exists offset' seen' start', (if (offset =? bag_size b)%nat then (0%nat, ∅, index) else (offset, seen, start)) =
    (offset', seen', start') /\ seen_ok pieces start' index seen' /\ place_ok b offset0 index start' offset' /\ (offset' < bag_size b)%nat)
    as (offset' & seen' & start' & Heq & Hseen' & Hplace' & Hlt').
  { destruct Hplace as (Hle & Hob & Hcase). destruct (Nat.eqb_spec offset (bag_size b)) as [He|Hne].
    - exists 0%nat, ∅, index. split; [done|]. split; [apply seen_ok_start|]. split; [|done]. split; [done|]. split; [lia|]. right.
      split; [|lia]. destruct Hcase as [[-> Ho]|[Hm Ho]].
      + replace (index + offset0)%nat with (1 * bag_size b)%nat by lia. apply Nat.Div0.mod_mul.
      + replace (index + offset0)%nat with (start + offset0 + 1 * bag_size b)%nat by lia. by rewrite Nat.Div0.mod_add.
    - exists offset, seen, start. split; [done|]. split; [done|]. split; [done|lia]. }
  rewrite Heq in Hs. clear Heq Hseen Hplace. destruct Hplace' as (Hle & _ & Hcase).
  assert (pieces !! index = Some p) as Hp by (rewrite <- (Nat.add_0_r index), <- lookup_drop, Hdrop; done).
  pose proof (slice_snoc pieces start' index p Hle Hp) as Hsl.
  assert (forall first n, (pieces !! first = Some p /\ start' <= first <= index)%nat ->
    count_of (slice pieces start' (index + 1)) p = (n + 1)%nat -> (multiplicity_for b p < n + 1)%nat ->
    duplicate_real b pieces offset0 (mkDuplicate p first index start' offset0)) as Hreal.
  { intros first n [Hf Hfb] Hc Hm. unfold duplicate_real. cbn [dup_piece first_index duplicate_index bag_start_index dup_initial_offset]. split; [done|]. split; [done|]. split; [done|]. split; [done|].
    split; [by rewrite Hc|]. destruct Hcase as [[-> Ho]|[Hmod Ho]]; [left; lia|right; split; [done|lia]]. }
  assert (forall q, count_of (slice pieces start' (index + 1)) q =
    (count_of (slice pieces start' index) q + (if bool_decide (q = p) then 1 else 0))%nat) as Hcount by (intros q; rewrite Hsl; apply count_of_snoc).
  specialize (Hseen' p) as Hsp. pose proof (Hcount p) as Hcp. rewrite bool_decide_eq_true_2 in Hcp by done.
  assert (exists first, default (index, 0%nat) (seen' !! p) = (first, count_of (slice pieces start' index) p) /\
    pieces !! first = Some p /\ (start' <= first <= index)%nat) as (first & Hdef & Hfirst).
  { destruct (seen' !! p) as [[f n]|]; simpl; [|exists index; rewrite Hsp; split; [done|]; split; [done|lia]].
    exists f. destruct Hsp as (-> & ? & ?). split; [done|]. split; [done|lia]. }
  destruct (Nat.eqb_spec (multiplicity_for b p) 0) as [Hz|Hz].
  { injection Hs as <-. apply (Hreal index (count_of (slice pieces start' index) p)); [split; [done|lia]|done|lia]. }
  rewrite Hdef in Hs. destruct (Nat.ltb_spec (multiplicity_for b p) (count_of (slice pieces start' index) p + 1)) as [Hlt|Hge].
  { injection Hs as <-. by apply (Hreal first (count_of (slice pieces start' index) p)). }
  eapply IH; [| | |exact Hs].
  - by rewrite <- drop_drop, Hdrop.
  - intros q. destruct (decide (q = p)) as [->|Hne].
    + rewrite lookup_insert_eq. split; [done|]. split; [apply Hfirst|lia].
    + rewrite lookup_insert_ne by done. specialize (Hseen' q). rewrite Hcount, bool_decide_eq_false_2, Nat.add_0_r by done.
      destruct (seen' !! q) as [[f n]|]; [|done]. destruct Hseen' as (? & ? & ?). split; [done|]. split; [done|lia].
  - split; [lia|]. split; [lia|]. destruct Hcase as [[-> Ho]|[Hmod Ho]]; [left; lia|right; split; [done|lia]].
Qed.

Lemma duplicate_offset_real b pieces offset w :
  duplicate_for_boundary_offset_with_profile pieces b offset = Some w -> (offset < bag_size b)%nat /\ duplicate_real b pieces offset w.
Proof.
  unfold duplicate_for_boundary_offset_with_profile. destruct (Nat.eqb_spec (bag_size b) 0); [done|].
  destruct (Nat.leb_spec (bag_size b) offset); [done|]. cbn [orb]. intros Hs. split; [done|].
  eapply (duplicate_scan_real b offset pieces pieces 0 offset 0 ∅); [lia|done|apply seen_ok_start| |exact Hs].
  split; [done|]. split; [lia|]. left. lia.
Qed.

(** The witness reported is one of the earliest. *)
Lemma min_witness_least ws :
  match min_witness ws with
  | Some w => w ∈ ws /\ forall w', w' ∈ ws -> (duplicate_index w <= duplicate_index w')%nat
  | None => ws = []
  end.
Proof.
  unfold min_witness. induction ws as [|w ws IH] using rev_ind; [done|]. rewrite foldl_app. cbn [foldl].
  destruct (foldl _ None ws) as [best|].
  - destruct IH as [Hin Hle]. unfold witness_before.
    destruct (Nat.ltb_spec (duplicate_index w) (duplicate_index best)) as [Hlt|Hge]; cbn [orb].
    { split; [apply elem_of_app; right; by left|]. intros w' [Hw'|Hw'%list_elem_of_singleton]%elem_of_app; [specialize (Hle w' Hw'); lia|by subst]. }
    destruct (_ && _) eqn:E; bool_prop.
    + split; [apply elem_of_app; right; by left|]. intros w' [Hw'|Hw'%list_elem_of_singleton]%elem_of_app; [specialize (Hle w' Hw'); lia|by subst].
    + split; [apply elem_of_app; by left|]. intros w' [Hw'|Hw'%list_elem_of_singleton]%elem_of_app; [by apply Hle|by subst].
  - subst ws. split; [by left|]. intros w' Hw'%list_elem_of_singleton. by subst.
Qed.

(** The boundary report of an observed window is exact: its candidates are
    the offsets, in order, at which the window can occur in a series of bags of
    the profile; if there are none, the report names a piece that occurs too
    often within one bag, and no offset fails earlier in the window. *)
Theorem boundary_report_correct (id : string) (es : list BagProfileEntry) (b : BagProfile) (pieces : list PieceKind)
    (Hb : BagProfile_new id es = Ok b) :
  let r := analyze_observed_window_with_profile pieces b in
  (forall offset, offset ∈ candidates r <-> (offset < bag_size b)%nat /\ bag_window b offset pieces) /\
  candidates r `sublist_of` seq 0 (bag_size b) /\
  match duplicate_witness r with
  | None => candidates r <> []
  | Some w => candidates r = [] /\ duplicate_real b pieces (dup_initial_offset w) w /\
      forall offset, (offset < bag_size b)%nat -> exists w',
        duplicate_for_boundary_offset_with_profile pieces b offset = Some w' /\ (duplicate_index w <= duplicate_index w')%nat
  end.
Proof.
  intros r. apply BagProfile_new_ok in Hb. pose proof (bag_size_pos b Hb) as Hsize.
  pose proof (report_candidates b Hb pieces) as Hcs. fold r in Hcs. split.
  { intros o. rewrite Hcs, list_elem_of_filter, elem_of_seq. split.
    - intros [Hs Ho]. split; [lia|]. apply boundary_state_window; [done|lia|done].
    - intros [Ho Hw]. split; [|lia]. apply boundary_state_window; [done|lia|done]. }
  split; [rewrite Hcs; apply sublist_filter|].
  assert (duplicate_witness r = if bool_decide (candidates r = []) then first_duplicate_across_offsets_with_profile pieces b else None) as ->.
  { unfold r, analyze_observed_window_with_profile. by destruct (Nat.eqb_spec (bag_size b) 0); [lia|]. }
  case_bool_decide as Hnil; [|done]. unfold first_duplicate_across_offsets_with_profile.
  assert (forall o, (o < bag_size b)%nat -> is_Some (duplicate_for_boundary_offset_with_profile pieces b o)) as Hdup.
  { intros o Ho. destruct (duplicate_for_boundary_offset_with_profile pieces b o) eqn:Hd; [by eexists|]. exfalso.
    apply duplicate_None in Hd; [|done|done]. apply (not_elem_of_nil o). rewrite <- Hnil, Hcs. apply list_elem_of_filter.
    split; [done|apply elem_of_seq; lia]. }
  pose proof (min_witness_least (omap (duplicate_for_boundary_offset_with_profile pieces b) (seq 0 (bag_size b)))) as Hmin.
  destruct (min_witness _) as [w|].
  - destruct Hmin as [Hin Hle]. apply list_elem_of_omap in Hin as (o & _ & Hw). split; [done|].
    destruct (duplicate_offset_real _ _ _ _ Hw) as [_ Hreal]. pose proof Hreal as [-> _]. split; [done|].
    intros o' Ho'. destruct (Hdup o' Ho') as [w' Hw']. exists w'. split; [done|]. apply Hle, list_elem_of_omap. exists o'.
    split; [apply elem_of_seq; lia|done].
  - exfalso. destruct (Hdup 0%nat Hsize) as [w Hw]. apply (not_elem_of_nil w). rewrite <- Hmin. apply list_elem_of_omap.
    exists 0%nat. split; [apply elem_of_seq; lia|done].
Qed.

Lemma boundary_report_correct_witness :
  BagProfile_new "standard-7-bag" (entries BagProfile_standard_7) = Ok BagProfile_standard_7 /\
  candidates (analyze_observed_window_with_profile [PI; PO; PI] BagProfile_standard_7) `sublist_of` seq 0 7.
Proof.
  split; [reflexivity|]. apply (boundary_report_correct "standard-7-bag" (entries BagProfile_standard_7) BagProfile_standard_7 [PI; PO; PI]). reflexivity.
Defined.

(** C23: The expansion of an observed queue lists the windows of the requested
    length that extend the queue, paired with every offset at which they can
    occur, in ascending order of the offset and, at an offset, in the
    lexicographic order in which the profile lists the pieces, each once and up
    to the pattern limit; it reports truncation exactly if there are more than
    the limit, the memoised total is their number capped at [u128::MAX], and it
    fails exactly if there are none. *)
Theorem expansion_correct (id : string) (es : list BagProfileEntry) (b : BagProfile) (queue : list PieceKind) (minimum_len max : nat)
    (Hb : BagProfile_new id es = Ok b) (Hmax : (0 < max)%nat) :
  let target := Nat.max minimum_len (length queue) in
  exists all : list (nat * list PieceKind), NoDup all /\ StronglySorted (window_before b) all /\
    (forall offset w, (offset, w) ∈ all <->
      (offset < bag_size b)%nat /\ length w = target /\ (exists suffix, w = queue ++ suffix) /\ bag_window b offset w) /\
    expand_observed_queue queue minimum_len max b =
      Some (if bool_decide (all = []) then Err IncompatibleBoundary
            else Ok (mkExpansion (analyze_observed_window_with_profile queue b) (Z.min (Z.of_nat (length all)) (umax 128))
                       (take max all) (bool_decide (max < length all)%nat))).
Proof.
  intros target. apply BagProfile_new_ok in Hb. assert (length queue <= target)%nat as Hle by lia.
  exists (all_continuations b queue target). split; [by apply all_continuations_NoDup|]. split; [by apply all_continuations_sorted|].
  split; [by apply all_continuations_elem|by apply expand_spec].
Qed.

Lemma expansion_correct_witness :
  exists all : list (nat * list PieceKind), expand_observed_queue [PI; PO; PI] 4 3 BagProfile_standard_7 =
    Some (Ok (mkExpansion (analyze_observed_window_with_profile [PI; PO; PI] BagProfile_standard_7)
      (Z.min (Z.of_nat (length all)) (umax 128)) (take 3 all) true)).
Proof.
  destruct (expansion_correct "standard-7-bag" (entries BagProfile_standard_7) BagProfile_standard_7 [PI; PO; PI] 4 3) as (all & _ & _ & _ & H);
    [reflexivity|lia|]. exists all. rewrite H. f_equal. destruct (bool_decide (all = [])) eqn:E; [exfalso|].
  - assert (expand_observed_queue [PI; PO; PI] 4 3 BagProfile_standard_7 <> Some (Err IncompatibleBoundary)) by (vm_compute; discriminate).
    by rewrite H in H0.
  - destruct (bool_decide (3 < length all)%nat) eqn:E3; [reflexivity|exfalso].
    assert (expand_observed_queue [PI; PO; PI] 4 3 BagProfile_standard_7 <>
      Some (Ok (mkExpansion (analyze_observed_window_with_profile [PI; PO; PI] BagProfile_standard_7)
        (Z.min (Z.of_nat (length all)) (umax 128)) (take 3 all) false))) as Hne.
    { assert (match expand_observed_queue [PI; PO; PI] 4 3 BagProfile_standard_7 with
              | Some (Ok e) => expansion_truncated e | _ => false end = true) as Ht by (vm_compute; reflexivity).
      intros Heq. rewrite Heq in Ht. discriminate Ht. }
    apply Hne. by rewrite H.
Defined.
