(* ===== verification/BagSequences.v ===== *)
(** * Ranked bag sequences

    [clearra-supply], [pattern_universe/]: the lexicographic spaces of
    [standard_7_bag_sequence_space.rs] and
    [observed_standard_7_bag_sequence_space.rs], which rebuild a sequence from
    its rank instead of storing it, and the part of
    [pattern_universe_materializer.rs] that sizes the standard space.

    Masks are [u8] values as [Z]; a rank and a count are [u128].  The panics of
    the standard space ([assert!], [expect]) are [Err Panicked]. *)

From Stdlib Require Import ZArith Lia Sorted.
From stdpp Require Import prelude.
From S2P Require Import Prelude Words Pieces SupplyAutomaton BagWindows.

(** ** The standard space *)

Definition FULL_STANDARD_BAG : Z := 127.
Definition BAG_SIZE : nat := 7.
Definition FULL_BAG_PERMUTATIONS : Z := 5040.

(** [1_u8 << piece_index]. *)
Definition index_bit (i : nat) : Z := shl 8 1 (Z.of_nat i).

(** [while index < count { product *= value - index }]. *)
Fixpoint falling_from (value index count : nat) (product : Z) : Z :=
  match count with
  | O => product
  | S count => falling_from value (index + 1) count (product * Z.of_nat (value - index))%Z
  end.

Definition falling_factorial (value count : nat) : Z := falling_from value 0 count 1.

(** [suffix_count]; the recursion returns to a full bag, and from there takes
    seven pieces at a time. *)
Fixpoint suffix_count_fuel (fuel remaining : nat) (available : Z) : option Z :=
  match fuel with
  | O => None
  | S fuel =>
      if (remaining =? 0)%nat then Some 1%Z
      else
        let available_count := count_ones available in
        if (remaining <=? available_count)%nat then Some (falling_factorial available_count remaining)
        else
          rest ← suffix_count_fuel fuel (remaining - available_count) FULL_STANDARD_BAG;
          Some (saturating_mul 128 (falling_factorial available_count available_count) rest)
  end.

Definition suffix_count (remaining : nat) (available : Z) : Z := default 0%Z (suffix_count_fuel (remaining + 2) remaining available).

Record Standard7BagSequenceSpace := mkSpace { space_sequence_len : nat; space_pattern_count : Z }.

(** The loop over the pieces of [write_sequence]: the piece, its bit and the
    rank within its branch. *)
Fixpoint select_available (remaining : nat) (available rank : Z) (pieces : list (nat * PieceKind)) : option (PieceKind * Z * Z) :=
  match pieces with
  | [] => None
  | (i, p) :: pieces =>
      let bit := index_bit i in
      if (Z.land available bit =? 0)%Z then select_available remaining available rank pieces
      else
        let branch_size := suffix_count remaining (Z.land available (wnot 8 bit)) in
        if (rank <? branch_size)%Z then Some (p, bit, rank)
        else select_available remaining available (rank - branch_size) pieces
  end.

(** The loop over the depths; [remaining] is the number of pieces to come. *)
Fixpoint write_available (remaining : nat) (available rank : Z) (output : list PieceKind) : Result Panic (list PieceKind) :=
  match remaining with
  | O => Ok output
  | S remaining =>
      let available := if (available =? 0)%Z then FULL_STANDARD_BAG else available in
      let? '(p, bit, rank) := expect_some (select_available remaining available rank (imap pair STANDARD_TETROMINOES)) in
      write_available remaining (Z.land available (wnot 8 bit)) rank (output ++ [p])
  end.

Definition standard_write_sequence (sp : Standard7BagSequenceSpace) (index : Z) : Result Panic (list PieceKind) :=
  if negb (index <? space_pattern_count sp)%Z then Err Panicked
  else write_available (space_sequence_len sp) FULL_STANDARD_BAG index [].

(** ** Sizing the standard space *)

Definition factorial (value : nat) : Z := falling_factorial value value.

(** [full_bags as u32] drops the high bits. *)
Definition standard_7_bag_pattern_count (sequence_len : nat) : Z :=
  let full_bags := (sequence_len / 7)%nat in
  let remainder := (sequence_len mod 7)%nat in
  saturating_mul 128 (saturating_pow 128 (factorial 7) (Z.to_nat (wrap 32 (Z.of_nat full_bags)))) (falling_factorial 7 remainder).

Inductive MaterializationError := MatNoPatterns | MatPatternCountOverflow | MatSequenceStorageOverflow.

(** The sequence storage and counters of the universe that
    [PatternUniverseMaterializer::standard_7_bag] builds. *)
Record StandardUniverse := mkStandardUniverse {
  universe_space : Standard7BagSequenceSpace;
  universe_total : Z;
  universe_complete : bool
}.

Definition standard_7_bag (minimum_len : nat) (max_patterns : Z) : Result MaterializationError StandardUniverse :=
  if (minimum_len =? 0)%nat then Err MatNoPatterns
  else
    let total := standard_7_bag_pattern_count minimum_len in
    let? representable := ok_or (try_from 64 total) MatPatternCountOverflow in
    let limit := if (max_patterns =? 0)%Z then representable else Z.min max_patterns representable in
    let complete := (limit =? total)%Z in
    let? len := ok_or (try_from 16 (Z.of_nat minimum_len)) MatSequenceStorageOverflow in
    Ok (mkStandardUniverse (mkSpace (Z.to_nat len) limit) total complete).

(** ** The observed space *)

Inductive ObservedSpaceError :=
| SequenceTooShort
| SpaceIncompatibleBoundary
| InvalidBoundaryOffset
| SpaceNoPatterns
| PatternCountOverflow
| PatternIndexOutOfRange
| RankInvariantViolated.

Record CandidateState := mkCandidate {
  cand_initial_offset : Z;
  cand_offset : Z;
  cand_used_mask : Z;
  cand_suffix_count : Z
}.

Record ObservedStandard7BagSequenceSpace := mkObservedSpace {
  observed : list PieceKind;
  sequence_len : nat;
  space_candidates : list CandidateState;
  pattern_count : Z;
  space_total_pattern_count : Z
}.

Definition piece_bit (p : PieceKind) : Z :=
  match p with
  | PI => 1 | PO => 2 | PT => 4 | PS => 8 | PZ => 16 | PJ => 32 | PL => 64
  end.

Definition normalized_state (offset used_mask : Z) : Result ObservedSpaceError (Z * Z) :=
  if (offset =? Z.of_nat BAG_SIZE)%Z then Ok (0, 0)%Z
  else if (offset <=? 6)%Z then Ok (offset, used_mask)
  else Err InvalidBoundaryOffset.

Fixpoint prefix_state (pieces : list PieceKind) (offset used_mask : Z) : Result ObservedSpaceError (Z * Z) :=
  match pieces with
  | [] => Ok (offset, used_mask)
  | p :: pieces =>
      let? '(offset, used_mask) := normalized_state offset used_mask in
      let bit := piece_bit p in
      if negb (Z.land used_mask bit =? 0)%Z then Err SpaceIncompatibleBoundary
      else prefix_state pieces (offset + 1) (Z.lor used_mask bit)
  end.

Fixpoint checked_falling_from (value index count : nat) (product : Z) : option Z :=
  match count with
  | O => Some product
  | S count =>
      product ← checked_mul 128 product (Z.of_nat (value - index));
      checked_falling_from value (index + 1) count product
  end.

Definition checked_falling_factorial (value count : nat) : option Z :=
  if (value <? count)%nat then Some 0%Z else checked_falling_from value 0 count 1.

(** [for _ in 0..full_bags { count = count.checked_mul(5040)? }]. *)
Fixpoint checked_bags (full_bags : nat) (count : Z) : option Z :=
  match full_bags with
  | O => Some count
  | S full_bags =>
      count ← checked_mul 128 count FULL_BAG_PERMUTATIONS;
      checked_bags full_bags count
  end.

Definition aligned_suffix_count (remaining : nat) : option Z :=
  let full_bags := (remaining / BAG_SIZE)%nat in
  let tail := (remaining mod BAG_SIZE)%nat in
  count ← checked_bags full_bags 1;
  f ← checked_falling_factorial BAG_SIZE tail;
  checked_mul 128 count f.

Definition count_from_state (remaining : nat) (offset used_mask : Z) : option Z :=
  if (remaining =? 0)%nat then Some 1%Z
  else
    st ← rok (normalized_state offset used_mask);
    slots ← checked_sub (Z.of_nat BAG_SIZE) (fst st);
    let draws := Nat.min remaining (Z.to_nat slots) in
    available ← checked_sub (Z.of_nat BAG_SIZE) (Z.of_nat (count_ones (snd st)));
    prefix_count ← checked_falling_factorial (Z.to_nat available) draws;
    tail_count ← aligned_suffix_count (remaining - draws);
    checked_mul 128 prefix_count tail_count.

(** The loop of [ObservedStandard7BagSequenceSpace::new] over the boundary
    candidates. *)
Fixpoint collect_candidates (pieces : list PieceKind) (remaining : nat) (offsets : list nat) (found : list CandidateState) (total : Z)
  : Result ObservedSpaceError (list CandidateState * Z) :=
  match offsets with
  | [] => Ok (found, total)
  | o :: offsets =>
      let? initial_offset := ok_or (try_from 8 (Z.of_nat o)) InvalidBoundaryOffset in
      let? '(offset, used_mask) := prefix_state pieces initial_offset 0 in
      let? suffix := ok_or (count_from_state remaining offset used_mask) PatternCountOverflow in
      if (suffix =? 0)%Z then collect_candidates pieces remaining offsets found total
      else
        let? total := ok_or (checked_add 128 total suffix) PatternCountOverflow in
        collect_candidates pieces remaining offsets (found ++ [mkCandidate initial_offset offset used_mask suffix]) total
  end.

Definition checked_pattern_count (total : Z) : Result ObservedSpaceError Z := ok_or (try_from 64 total) PatternCountOverflow.

Definition ObservedStandard7BagSequenceSpace_new (pieces : list PieceKind) (len : nat)
  : Result ObservedSpaceError ObservedStandard7BagSequenceSpace :=
  if (len <? length pieces)%nat then Err SequenceTooShort
  else
    let report := analyze_observed_window pieces BAG_SIZE in
    if negb (is_compatible report) then Err SpaceIncompatibleBoundary
    else
      let? '(found, total) := collect_candidates pieces (len - length pieces) (candidates report) [] 0 in
      if bool_decide (found = []) || (total =? 0)%Z then Err SpaceNoPatterns
      else
        let? count := checked_pattern_count total in
        Ok (mkObservedSpace pieces len found count total).

Definition checked_count_bytes (count item_size : Z) : option Z := checked_mul 128 count item_size.

(** [checked_retained_capacity_bytes]; the capacities and the sizes of an item
    are those of the two buffers. *)
Definition space_retained_capacity_bytes (observed_capacity piece_size candidate_capacity candidate_size : Z) : option Z :=
  a ← checked_count_bytes observed_capacity piece_size;
  c ← checked_count_bytes candidate_capacity candidate_size;
  checked_add 128 a c.

(** The loop over the candidates of [write_sequence]. *)
Fixpoint select_candidate (rank : Z) (cs : list CandidateState) : option (CandidateState * Z) :=
  match cs with
  | [] => None
  | c :: cs => if (rank <? cand_suffix_count c)%Z then Some (c, rank) else select_candidate (rank - cand_suffix_count c) cs
  end.

(** The loop over the pieces: the piece, the state after it and the rank
    within its branch. *)
Fixpoint select_unused (remaining : nat) (offset used_mask rank : Z) (pieces : list (nat * PieceKind))
  : Result ObservedSpaceError (option (PieceKind * (Z * Z) * Z)) :=
  match pieces with
  | [] => Ok None
  | (i, p) :: pieces =>
      let bit := index_bit i in
      if negb (Z.land used_mask bit =? 0)%Z then select_unused remaining offset used_mask rank pieces
      else
        let next_offset := (offset + 1)%Z in
        let next_mask := Z.lor used_mask bit in
        let? branch_count := ok_or (count_from_state remaining next_offset next_mask) PatternCountOverflow in
        if (rank <? branch_count)%Z then Ok (Some (p, (next_offset, next_mask), rank))
        else select_unused remaining offset used_mask (rank - branch_count) pieces
  end.

Fixpoint write_unused (remaining : nat) (offset used_mask rank : Z) (output : list PieceKind)
  : Result ObservedSpaceError (list PieceKind) :=
  match remaining with
  | O => Ok output
  | S remaining =>
      let? '(offset, used_mask) := normalized_state offset used_mask in
      let? selected := select_unused remaining offset used_mask rank (imap pair STANDARD_TETROMINOES) in
      let? '(p, st, rank) := ok_or selected RankInvariantViolated in
      write_unused remaining (fst st) (snd st) rank (output ++ [p])
  end.

Definition observed_write_sequence (sp : ObservedStandard7BagSequenceSpace) (index : Z) : Result ObservedSpaceError (list PieceKind) :=
  if (pattern_count sp <=? index)%Z then Err PatternIndexOutOfRange
  else
    let? '(c, rank) := ok_or (select_candidate index (space_candidates sp)) PatternIndexOutOfRange in
    write_unused (sequence_len sp - length (observed sp)) (cand_offset c) (cand_used_mask c) rank (observed sp).

(** ** The two sources as automata *)

(** The branches the loops over the pieces take. *)
Definition available_branches (available : Z) : list (PieceKind * Z) :=
  omap (fun ip => if (Z.land available (index_bit (fst ip)) =? 0)%Z then None
                  else Some (snd ip, Z.land available (wnot 8 (index_bit (fst ip))))) (imap pair STANDARD_TETROMINOES).

Definition next_available (available : Z) : list (PieceKind * Z) :=
  available_branches (if (available =? 0)%Z then FULL_STANDARD_BAG else available).

Definition unused_branches (offset used_mask : Z) : list (PieceKind * (Z * Z)) :=
  omap (fun ip => if negb (Z.land used_mask (index_bit (fst ip)) =? 0)%Z then None
                  else Some (snd ip, (offset + 1, Z.lor used_mask (index_bit (fst ip)))%Z)) (imap pair STANDARD_TETROMINOES).

Definition next_unused (st : Z * Z) : list (PieceKind * (Z * Z)) :=
  match normalized_state (fst st) (snd st) with Ok (offset, used_mask) => unused_branches offset used_mask | Err _ => [] end.

(** A state of the observed source. *)
Definition mask_ok (st : Z * Z) : Prop :=
  (0 <= fst st <= 7)%Z /\ (0 <= snd st < 128)%Z /\ (Z.of_nat (count_ones (snd st)) <= fst st)%Z.

(** Statements about all masks are checked by evaluation. *)
Definition masks : list Z := Z.of_nat <$> seq 0 128.
Definition offsets8 : list Z := Z.of_nat <$> seq 0 8.

Lemma for_masks (P : Z -> bool) : forallb P masks = true -> forall m, (0 <= m < 128)%Z -> P m = true.
Proof.
  intros H m Hm. rewrite forallb_forall in H. apply H, list_elem_of_In, list_elem_of_fmap. exists (Z.to_nat m).
  split; [lia|]. apply elem_of_seq. lia.
Qed.

Lemma for_states (P : Z -> Z -> bool) :
  forallb (fun o => forallb (P o) masks) offsets8 = true -> forall o m, (0 <= o <= 7)%Z -> (0 <= m < 128)%Z -> P o m = true.
Proof.
  intros H o m Ho Hm. rewrite forallb_forall in H. apply (for_masks (P o)); [|done]. apply H, list_elem_of_In, list_elem_of_fmap.
  exists (Z.to_nat o). split; [lia|]. apply elem_of_seq. lia.
Qed.

(** The counts that go with a mask, and the mask of the pieces drawn. *)
Definition mask_counts (m : Z) : list nat := (fun i => if Z.testbit m (Z.of_nat i) then 1%nat else 0%nat) <$> seq 0 7.
Definition profile_state (st : Z * Z) : nat * list nat := (Z.to_nat (fst st), mask_counts (snd st)).
Definition drawn_state (available : Z) : Z * Z := (Z.of_nat (count_ones (127 - available)), (127 - available)%Z).

Definition step_agrees (o m : Z) : bool :=
  implb (Z.of_nat (count_ones m) <=? o)%Z (bool_decide (
    next_states BagProfile_standard_7 (profile_state (o, m)) = (fun ps => (fst ps, profile_state (snd ps))) <$> next_unused (o, m) /\
    Forall (fun ps => (0 <= fst (snd ps) <= 7)%Z /\ (0 <= snd (snd ps) < 128)%Z /\
      (Z.of_nat (count_ones (snd (snd ps))) <= fst (snd ps))%Z) (next_unused (o, m)))).

Lemma unused_profile_step st :
  mask_ok st ->
  next_states BagProfile_standard_7 (profile_state st) = (fun ps => (fst ps, profile_state (snd ps))) <$> next_unused st /\
  Forall (fun ps => mask_ok (snd ps)) (next_unused st).
Proof.
  destruct st as [o m]. intros (Ho & Hm & Hc). cbn [fst snd] in *.
  pose proof (for_states step_agrees ltac:(vm_compute; reflexivity) o m Ho Hm) as H.
  unfold step_agrees in H. rewrite (proj2 (Z.leb_le _ _)) in H by done. cbn [implb] in H. bool_prop. exact H.
Qed.

Definition available_agrees (a : Z) : bool :=
  bool_decide (next_unused (drawn_state a) = (fun ps => (fst ps, drawn_state (snd ps))) <$> next_available a /\
    Forall (fun ps => (0 <= snd ps < 128)%Z) (next_available a)).

Lemma available_unused_step a :
  (0 <= a < 128)%Z ->
  next_unused (drawn_state a) = (fun ps => (fst ps, drawn_state (snd ps))) <$> next_available a /\
  Forall (fun ps => (0 <= snd ps < 128)%Z) (next_available a).
Proof.
  intros Ha.
  pose proof (for_masks available_agrees ltac:(vm_compute; reflexivity) a Ha) as H.
  unfold available_agrees in H. bool_prop. exact H.
Qed.

(** Relabelling the states keeps the words. *)
Lemma words_relabel {S T} (next : S -> list (PieceKind * S)) (next' : T -> list (PieceKind * T)) (f : S -> T) (ok : S -> Prop)
    (Hstep : forall s, ok s -> next' (f s) = (fun ps => (fst ps, f (snd ps))) <$> next s /\ Forall (fun ps => ok (snd ps)) (next s)) n s :
  ok s -> words next n s = words next' n (f s).
Proof.
  intros Hs. apply (words_bisim next next' (fun s t => ok s /\ t = f s)); [|done].
  intros s0 t [Hs0 ->]. destruct (Hstep s0 Hs0) as [-> Hall]. induction Hall as [|ps l Hps _ IH]; csimpl; constructor; done.
Qed.

Lemma unused_words n st : mask_ok st -> words next_unused n st = words (next_states BagProfile_standard_7) n (profile_state st).
Proof. apply (words_relabel _ _ profile_state). apply unused_profile_step. Qed.

Lemma available_words n a : (0 <= a < 128)%Z -> words next_available n a = words next_unused n (drawn_state a).
Proof. apply (words_relabel _ _ drawn_state (fun a => 0 <= a < 128)%Z). apply available_unused_step. Qed.

(** ** How many sequences there are *)

(** [5040 ^ (n / 7) * falling_factorial 7 (n mod 7)], the number of bag
    sequences of length [n]. *)
Definition aligned_size (n : nat) : Z := (5040 ^ Z.of_nat (n / 7) * falling_factorial 7 (n mod 7))%Z.

(** With [offset] pieces of the bag drawn, [used] of them known. *)
Definition space_size (n offset used : nat) : Z :=
  if (offset =? 7)%nat then aligned_size n
  else
    let d := Nat.min n (7 - offset) in
    (falling_factorial (7 - used) d * aligned_size (n - d))%Z.

Lemma aligned_size_pos n : (1 <= aligned_size n)%Z.
Proof.
  unfold aligned_size. assert (1 <= 5040 ^ Z.of_nat (n / 7))%Z by (pose proof (Z.pow_pos_nonneg 5040 (Z.of_nat (n / 7))); lia).
  assert (forall k, (k < 7)%nat -> 1 <= falling_factorial 7 k)%Z as Hf by (intros k Hk; do 7 (destruct k as [|k]; [vm_compute; discriminate|]); lia).
  specialize (Hf (n mod 7)%nat ltac:(apply Nat.mod_upper_bound; lia)). nia.
Qed.

Lemma aligned_size_bag n : (7 <= n)%nat -> aligned_size n = (5040 * aligned_size (n - 7))%Z.
Proof.
  intros Hn. unfold aligned_size. replace n with (n - 7 + 1 * 7)%nat at 1 2 by lia.
  rewrite Nat.div_add, Nat.Div0.mod_add, Nat2Z.inj_add, Z.pow_add_r by lia. change (Z.of_nat 1) with 1%Z. lia.
Qed.

Lemma aligned_size_space n : space_size n 0 0 = aligned_size n.
Proof.
  unfold space_size. cbn [Nat.eqb]. rewrite !Nat.sub_0_r. destruct (decide (7 <= n)%nat) as [Hn|Hn].
  - rewrite Nat.min_r by lia. by rewrite (aligned_size_bag n) by done.
  - rewrite Nat.min_l, Nat.sub_diag by lia. change (aligned_size 0) with 1%Z. unfold aligned_size.
    rewrite Nat.div_small, Nat.mod_small by lia. change (5040 ^ Z.of_nat 0)%Z with 1%Z. lia.
Qed.

(** Drawing one more piece. *)
Lemma falling_shift v d : (v <= 7)%nat -> (S d <= v)%nat -> falling_factorial v (S d) = (Z.of_nat v * falling_factorial (v - 1) d)%Z.
Proof. intros Hv Hd. do 8 (destruct v as [|v]; [do 8 (destruct d as [|d]; [try lia; vm_compute; reflexivity|]); lia|]). lia. Qed.

Lemma space_size_step n offset used :
  (offset < 7)%nat -> (used <= offset)%nat -> space_size (S n) offset used = (Z.of_nat (7 - used) * space_size n (S offset) (S used))%Z.
Proof.
  intros Ho Hu. unfold space_size. destruct (Nat.eqb_spec offset 7); [lia|].
  replace (Nat.min (S n) (7 - offset)) with (S (Nat.min n (6 - offset))) by lia.
  rewrite falling_shift by lia. replace (S n - S (Nat.min n (6 - offset)))%nat with (n - Nat.min n (6 - offset))%nat by lia.
  replace (7 - S used)%nat with (7 - used - 1)%nat by lia. destruct (Nat.eqb_spec (S offset) 7) as [He|He].
  - replace (6 - offset)%nat with 0%nat by lia. rewrite Nat.min_0_r, Nat.sub_0_r. cbn [falling_factorial falling_from]. lia.
  - replace (7 - S offset)%nat with (6 - offset)%nat by lia. lia.
Qed.

Definition branches_agree (m : Z) : bool :=
  bool_decide ((count_ones m <= 7)%nat /\ length (unused_branches 0 m) = (7 - count_ones m)%nat /\
    Forall (fun ps => count_ones (snd (snd ps)) = S (count_ones m)) (unused_branches 0 m)).

(** Every branch uses one more piece, and there is one per unused piece. *)
Lemma unused_branches_count o m :
  (0 <= m < 128)%Z -> (count_ones m <= 7)%nat /\ length (unused_branches o m) = (7 - count_ones m)%nat /\
  Forall (fun ps => fst (snd ps) = (o + 1)%Z /\ count_ones (snd (snd ps)) = S (count_ones m)) (unused_branches o m).
Proof.
  intros Hm. pose proof (for_masks branches_agree ltac:(vm_compute; reflexivity) m Hm) as H.
  unfold branches_agree in H. bool_prop. destruct H as (H1 & H2 & H3).
  assert (unused_branches o m = (fun ps => (fst ps, (o + 1, snd (snd ps))%Z)) <$> unused_branches 0 m) as ->.
  { unfold unused_branches. generalize (imap pair STANDARD_TETROMINOES). induction l as [|ip l IH]; [done|]. csimpl.
    destruct (negb _); [done|]. csimpl. by rewrite IH. }
  split; [done|]. split; [by rewrite length_fmap|]. apply Forall_fmap. eapply Forall_impl; [exact H3|]. by intros ps Hps.
Qed.

Lemma foldr_const {A} (f : A -> Z) c l : Forall (fun x => f x = c) l -> foldr (fun x s => (f x + s)%Z) 0%Z l = (Z.of_nat (length l) * c)%Z.
Proof. induction 1 as [|x l Hx _ IH]; [simpl; lia|]. cbn [foldr length]. rewrite Hx, IH. lia. Qed.

Lemma unused_word_count n st :
  mask_ok st -> words_count next_unused n st = space_size n (Z.to_nat (fst st)) (count_ones (snd st)).
Proof.
  revert st. induction n as [|n IH]; intros st Hst.
  { unfold space_size. destruct (_ =? 7)%nat; reflexivity. }
  pose proof Hst as (Ho & Hm & Hc). rewrite word_count_S. unfold next_unused.
  pose proof (unused_profile_step st Hst) as [_ Hall]. unfold next_unused in Hall. unfold normalized_state in *.
  assert (forall o m, (0 <= o < 7)%Z -> (0 <= m < 128)%Z -> (Z.of_nat (count_ones m) <= o)%Z ->
    Forall (fun ps => mask_ok (snd ps)) (unused_branches o m) ->
    foldr (fun ps c => (words_count next_unused n (snd ps) + c)%Z) 0%Z (unused_branches o m) = space_size (S n) (Z.to_nat o) (count_ones m)) as Hsum.
  { intros o m Ho' Hm' Hc' Hok. destruct (unused_branches_count o m Hm') as (Hle & Hlen & Hcount).
    rewrite (foldr_const _ (space_size n (S (Z.to_nat o)) (S (count_ones m)))); [rewrite Hlen, space_size_step by lia; done|].
    rewrite Forall_forall in *. intros ps Hin. rewrite IH by by apply Hok. destruct (Hcount ps Hin) as [-> ->]. f_equal. lia. }
  destruct (Z.eqb_spec (fst st) (Z.of_nat BAG_SIZE)) as [He|He].
  - rewrite Hsum by (try done; try lia; vm_compute; discriminate). rewrite He.
    change (space_size (S n) (Z.to_nat 0) (count_ones 0)) with (space_size (S n) 0 0). by rewrite aligned_size_space.
  - unfold BAG_SIZE in He. destruct (Z.leb_spec (fst st) 6); [|lia]. apply Hsum; [lia|done|done|done].
Qed.

(** ** The counting functions *)

(** A count that does not fit is not returned. *)
Definition fits_u128 (x : Z) : option Z := if (x <? 2 ^ 128)%Z then Some x else None.

Lemma mul_fits_u128 a b : checked_mul 128 a b = fits_u128 (a * b).
Proof. reflexivity. Qed.

Lemma fits_small x : (x < 2 ^ 128)%Z -> fits_u128 x = Some x.
Proof. intros Hx. unfold fits_u128. by destruct (Z.ltb_spec x (2 ^ 128)); [|lia]. Qed.

Lemma fits_bind a b : (1 <= a)%Z -> (1 <= b)%Z -> (x ← fits_u128 a; y ← fits_u128 b; checked_mul 128 x y) = fits_u128 (a * b).
Proof.
  intros Ha Hb. unfold fits_u128. destruct (Z.ltb_spec a (2 ^ 128)); [destruct (Z.ltb_spec b (2 ^ 128))|]; cbn [mbind option_bind].
  - apply mul_fits_u128.
  - destruct (Z.ltb_spec (a * b) (2 ^ 128)); [nia|done].
  - destruct (Z.ltb_spec (a * b) (2 ^ 128)); [nia|done].
Qed.

Lemma checked_bags_spec k c : (1 <= c < 2 ^ 128)%Z -> checked_bags k c = fits_u128 (c * 5040 ^ Z.of_nat k).
Proof.
  revert c. induction k as [|k IH]; intros c Hc; cbn [checked_bags].
  { rewrite Z.mul_1_r. unfold fits_u128. by destruct (Z.ltb_spec c (2 ^ 128)); [|lia]. }
  rewrite mul_fits_u128. unfold fits_u128 at 1, FULL_BAG_PERMUTATIONS. rewrite Nat2Z.inj_succ, Z.pow_succ_r by lia.
  pose proof (Z.pow_pos_nonneg 5040 (Z.of_nat k)). destruct (Z.ltb_spec (c * 5040) (2 ^ 128)); cbn [mbind option_bind].
  - rewrite IH by lia. f_equal. lia.
  - unfold fits_u128. destruct (Z.ltb_spec (c * (5040 * 5040 ^ Z.of_nat k)) (2 ^ 128)); [nia|done].
Qed.

Lemma checked_falling_spec v c :
  (c <= v)%nat -> (v <= 7)%nat -> checked_falling_factorial v c = Some (falling_factorial v c) /\ (1 <= falling_factorial v c <= 5040)%Z.
Proof.
  intros Hc Hv. do 8 (destruct v as [|v]; [do 8 (destruct c as [|c]; [first [lia|split; [vm_compute; reflexivity|vm_compute; split; discriminate]]|]); lia|]). lia.
Qed.

Lemma aligned_suffix_count_spec n : aligned_suffix_count n = fits_u128 (aligned_size n).
Proof.
  unfold aligned_suffix_count. rewrite checked_bags_spec, Z.mul_1_l by lia. unfold BAG_SIZE.
  destruct (checked_falling_spec 7 (n mod 7)) as [-> Hf]; [pose proof (Nat.mod_upper_bound n 7); lia|lia|].
  pose proof (Z.pow_pos_nonneg 5040 (Z.of_nat (n / 7))) as Hpow.
  unfold aligned_size. rewrite <- fits_bind, (fits_small (falling_factorial _ _)) by lia. done.
Qed.

Lemma normalized_state_ok st :
  mask_ok st -> exists o m, normalized_state (fst st) (snd st) = Ok (o, m) /\ mask_ok (o, m) /\ (o <= 6)%Z /\
    forall n, space_size (S n) (Z.to_nat (fst st)) (count_ones (snd st)) = space_size (S n) (Z.to_nat o) (count_ones m).
Proof.
  intros Hst. pose proof Hst as (Ho & Hm & Hc). unfold normalized_state, BAG_SIZE.
  destruct (Z.eqb_spec (fst st) (Z.of_nat 7)) as [He|He].
  - exists 0%Z, 0%Z. split; [done|]. split; [vm_compute; intuition discriminate|]. split; [lia|]. intros n.
    change (space_size (S n) (Z.to_nat 0) (count_ones 0)) with (space_size (S n) 0 0). rewrite aligned_size_space, He. reflexivity.
  - destruct (Z.leb_spec (fst st) 6); [|lia]. exists (fst st), (snd st). split; [done|]. split; [done|]. split; [lia|done].
Qed.

Lemma count_from_state_spec n st :
  mask_ok st -> count_from_state n (fst st) (snd st) = fits_u128 (words_count next_unused n st).
Proof.
  intros Hst. rewrite unused_word_count by done. unfold count_from_state. destruct n as [|n].
  { cbn [Nat.eqb]. unfold space_size. destruct (_ =? 7)%nat; [vm_compute; reflexivity|]. cbn [Nat.min]. reflexivity. }
  cbn [Nat.eqb]. destruct (normalized_state_ok st Hst) as (o & m & -> & (Ho & Hm & Hc) & Hlt & ->). cbn [rok mbind option_bind fst snd] in *.
  destruct (unused_branches_count o m Hm) as [Hle _]. unfold BAG_SIZE.
  assert (forall b, (b <= Z.of_nat 7)%Z -> checked_sub (Z.of_nat 7) b = Some (Z.of_nat 7 - b)%Z) as Hsub by (intros; by apply checked_sub_Some).
  rewrite (Hsub o), (Hsub (Z.of_nat (count_ones m))) by lia. cbn [mbind option_bind].
  set (d := Nat.min (S n) (Z.to_nat (Z.of_nat 7 - o))).
  replace (Z.to_nat (Z.of_nat 7 - Z.of_nat (count_ones m))) with (7 - count_ones m)%nat by lia.
  destruct (checked_falling_spec (7 - count_ones m) d) as [-> Hf]; [lia|lia|].
  rewrite aligned_suffix_count_spec. unfold space_size. destruct (Nat.eqb_spec (Z.to_nat o) 7); [lia|].
  replace (Nat.min (S n) (7 - Z.to_nat o)) with d by lia. rewrite <- fits_bind, (fits_small (falling_factorial _ _)) by (lia || apply aligned_size_pos).
  done.
Qed.

(** [suffix_count] saturates where the count does not fit. *)
Lemma drawn_ok a : (0 <= a < 128)%Z -> mask_ok (drawn_state a) /\ (count_ones (127 - a) = 7 - count_ones a)%nat /\ (count_ones a <= 7)%nat.
Proof.
  intros Ha. pose proof (for_masks (fun a => (count_ones (127 - a) =? 7 - count_ones a)%nat && (count_ones a <=? 7)%nat)
    ltac:(vm_compute; reflexivity) a Ha) as H. cbv beta in H. bool_prop. split; [|done].
  unfold mask_ok, drawn_state. cbn [fst snd]. lia.
Qed.

Definition available_size (n : nat) (a : Z) : Z := space_size n (7 - count_ones a) (7 - count_ones a).

Lemma available_word_count n a : (0 <= a < 128)%Z -> words_count next_available n a = available_size n a.
Proof.
  intros Ha. destruct (drawn_ok a Ha) as (Hok & Hc & Hle). unfold words_count. rewrite available_words by done.
  change (Z.of_nat (length (words next_unused n (drawn_state a)))) with (words_count next_unused n (drawn_state a)).
  rewrite unused_word_count by done. unfold drawn_state, available_size. cbn [fst snd]. rewrite Hc. f_equal. lia.
Qed.

Lemma saturating_mul_capped x y :
  (1 <= x)%Z -> (0 <= y)%Z -> saturating_mul 128 x (Z.min y (umax 128)) = Z.min (x * y) (umax 128).
Proof.
  intros Hx Hy. unfold saturating_mul, umax. destruct (Z.le_gt_cases y (2 ^ 128 - 1)); [by rewrite (Z.min_l y) by lia|].
  rewrite (Z.min_r y) by lia. rewrite !Z.min_r by nia. done.
Qed.

Lemma suffix_count_fuel_spec fuel n a :
  (0 <= a < 128)%Z -> (n < fuel)%nat -> (0 < count_ones a)%nat -> suffix_count_fuel fuel n a = Some (Z.min (available_size n a) (umax 128)).
Proof.
  revert n a. induction fuel as [|fuel IH]; intros n a Ha Hf Hc; [lia|]. cbn [suffix_count_fuel].
  destruct (drawn_ok a Ha) as (_ & _ & Hle). unfold available_size, space_size.
  destruct (Nat.eqb_spec (7 - count_ones a) 7); [lia|]. replace (7 - (7 - count_ones a))%nat with (count_ones a) by lia.
  destruct (Nat.eqb_spec n 0) as [->|Hn]; [done|]. destruct (Nat.leb_spec n (count_ones a)) as [Hle'|Hgt].
  - rewrite Nat.min_l, Nat.sub_diag by lia. change (aligned_size 0) with 1%Z.
    destruct (checked_falling_spec (count_ones a) n) as [_ Hf']; [lia|lia|]. f_equal. unfold umax. lia.
  - rewrite IH; [|vm_compute; intuition discriminate|lia|vm_compute; lia]. cbn [mbind option_bind].
    assert (available_size (n - count_ones a) FULL_STANDARD_BAG = aligned_size (n - count_ones a)) as -> by apply aligned_size_space.
    destruct (checked_falling_spec (count_ones a) (count_ones a)) as [_ Hf']; [lia|lia|].
    pose proof (aligned_size_pos (n - count_ones a)). rewrite saturating_mul_capped by lia.
    rewrite Nat.min_r by lia. done.
Qed.

Lemma suffix_count_spec n a : (0 <= a < 128)%Z -> suffix_count n a = Z.min (words_count next_available n a) (umax 128).
Proof.
  intros Ha. rewrite available_word_count by done. unfold suffix_count. destruct (decide (0 < count_ones a)%nat) as [Hc|Hc].
  { rewrite suffix_count_fuel_spec by (done || lia). done. }
  rewrite Nat.add_comm. cbn [Nat.add suffix_count_fuel]. unfold available_size. assert (count_ones a = 0)%nat as -> by lia.
  destruct (Nat.eqb_spec n 0) as [->|Hn]; [done|]. destruct (Nat.leb_spec n 0); [lia|]. rewrite Nat.sub_0_r.
  destruct (Nat.eqb_spec n 0); [lia|].
  pose proof (suffix_count_fuel_spec (S n) n FULL_STANDARD_BAG ltac:(vm_compute; intuition discriminate) ltac:(lia) ltac:(vm_compute; lia)) as Hs.
  cbn [suffix_count_fuel] in Hs. destruct (Nat.eqb_spec n 0); [lia|]. rewrite Hs. cbn [mbind option_bind default].
  assert (available_size n FULL_STANDARD_BAG = aligned_size n) as -> by apply aligned_size_space.
  pose proof (aligned_size_pos n). change (falling_factorial 0 0) with 1%Z. unfold id. rewrite saturating_mul_capped by lia.
  by rewrite Z.mul_1_l.
Qed.

(** ** Unranking *)

Lemma select_available_spec n a rank l :
  (fun x : PieceKind * Z * Z => let '(p, bit, r) := x in (p, Z.land a (wnot 8 bit), r)) <$> select_available n a rank l =
  select (suffix_count n) rank
    (omap (fun ip => if (Z.land a (index_bit (fst ip)) =? 0)%Z then None
                     else Some (snd ip, Z.land a (wnot 8 (index_bit (fst ip))))) l).
Proof.
  revert rank. induction l as [|[i p] l IH]; intros rank; [done|]. cbn [select_available omap list_omap fst snd].
  destruct (_ =? 0)%Z; [apply IH|]. cbn [select fst snd]. destruct (_ <? _)%Z; [done|apply IH].
Qed.

Lemma write_available_spec n a rank output :
  (0 <= a < 128)%Z -> (0 <= rank < words_count next_available n a)%Z -> (rank < umax 128)%Z ->
  exists w, words next_available n a !! Z.to_nat rank = Some w /\ write_available n a rank output = Ok (output ++ w).
Proof.
  revert a rank output. induction n as [|n IH]; intros a rank output Ha Hr Hmax.
  { unfold words_count in Hr. cbn in Hr. assert (rank = 0)%Z as -> by lia. exists []. by rewrite app_nil_r. }
  cbn [write_available]. set (a' := if (a =? 0)%Z then FULL_STANDARD_BAG else a).
  destruct (available_unused_step a Ha) as [_ Hok].
  assert (good_size next_available (umax 128) (suffix_count n) n (next_available a)) as Hg.
  { eapply Forall_impl; [exact Hok|]. intros ps Hps. by apply suffix_count_spec. }
  pose proof (select_words next_available (umax 128) (suffix_count n) n rank (next_available a) Hg ltac:(lia)) as Hsel.
  pose proof (select_available_spec n a' rank (imap pair STANDARD_TETROMINOES)) as Heq.
  change (omap _ _) with (next_available a) in Heq. rewrite <- Heq in Hsel.
  destruct (select_available n a' rank (imap pair STANDARD_TETROMINOES)) as [[[p bit] r]|]; cbn [fmap option_fmap option_map] in Hsel.
  - destruct Hsel as (Hin & Hr' & Hlt & Hw). rewrite Forall_forall in Hok. specialize (Hok _ Hin). cbn [snd] in Hok.
    cbn [expect_some rbind]. destruct (IH (Z.land a' (wnot 8 bit)) r (output ++ [p])) as (w & Hw' & ->); [done|lia|lia|].
    exists (p :: w). split; [|by rewrite <- app_assoc]. cbn [words]. by rewrite Hw, Hw'.
  - unfold words_count in Hr. cbn [words] in Hr. lia.
Qed.

Lemma select_unused_spec n o m rank l :
  Forall (fun ps => mask_ok (snd ps) /\ (words_count next_unused n (snd ps) < 2 ^ 128)%Z)
    (omap (fun ip => if negb (Z.land m (index_bit (fst ip)) =? 0)%Z then None
                     else Some (snd ip, (o + 1, Z.lor m (index_bit (fst ip)))%Z)) l) ->
  select_unused n o m rank l = Ok (select (words_count next_unused n) rank
    (omap (fun ip => if negb (Z.land m (index_bit (fst ip)) =? 0)%Z then None
                     else Some (snd ip, (o + 1, Z.lor m (index_bit (fst ip)))%Z)) l)).
Proof.
  revert rank. induction l as [|[i p] l IH]; intros rank Hl; [done|]. cbn [select_unused omap list_omap fst snd] in *.
  destruct (negb _); [by apply IH|]. apply Forall_cons in Hl as [[Hok Hfit] Hl]. cbn [snd] in Hok, Hfit.
  pose proof (count_from_state_spec n _ Hok) as Hc. cbn [fst snd] in Hc. rewrite Hc, fits_small by done. cbn [ok_or rbind select fst snd].
  destruct (_ <? _)%Z; [done|by apply IH].
Qed.

Lemma branch_count_le n st ps : ps ∈ next_unused st -> (words_count next_unused n (snd ps) <= words_count next_unused (S n) st)%Z.
Proof.
  intros Hin. rewrite word_count_S. induction (next_unused st) as [|ps' l IH]; [by apply not_elem_of_nil in Hin|]. cbn [foldr].
  assert (forall l : list (PieceKind * (Z * Z)), 0 <= foldr (fun ps c => words_count next_unused n (snd ps) + c) 0 l)%Z as Hpos
    by (intros l'; induction l'; cbn [foldr]; unfold words_count in *; lia).
  apply elem_of_cons in Hin as [->|Hin]; [specialize (Hpos l); lia|]. specialize (IH Hin). unfold words_count at 2. lia.
Qed.

Lemma write_unused_spec n st rank output :
  mask_ok st -> (0 <= rank < words_count next_unused n st)%Z -> (words_count next_unused n st < 2 ^ 128)%Z ->
  exists w, words next_unused n st !! Z.to_nat rank = Some w /\ write_unused n (fst st) (snd st) rank output = Ok (output ++ w).
Proof.
  revert st rank output. induction n as [|n IH]; intros st rank output Hst Hr Hfit.
  { unfold words_count in Hr. cbn in Hr. assert (rank = 0)%Z as -> by lia. exists []. by rewrite app_nil_r. }
  cbn [write_unused]. destruct (unused_profile_step st Hst) as [_ Hok].
  destruct (normalized_state_ok st Hst) as (o & m & Hn & _). rewrite Hn. cbn [rbind].
  assert (next_unused st = unused_branches o m) as Hnext by (unfold next_unused; by rewrite Hn).
  assert (Forall (fun ps => mask_ok (snd ps) /\ (words_count next_unused n (snd ps) < 2 ^ 128)%Z) (next_unused st)) as Hall.
  { rewrite Forall_forall in *. intros ps Hin. split; [by apply Hok|]. pose proof (branch_count_le n st ps Hin). lia. }
  rewrite Hnext in Hall. rewrite select_unused_spec by exact Hall.
  change (omap _ (imap pair STANDARD_TETROMINOES)) with (unused_branches o m). rewrite <- Hnext. cbn [rbind].
  pose proof (select_words next_unused (2 ^ 128) (words_count next_unused n) n rank (next_unused st)) as Hsel.
  destruct (select (words_count next_unused n) rank (next_unused st)) as [[[p st'] r]|].
  - destruct Hsel as (Hin & Hr' & Hlt & Hw); [rewrite Hnext; eapply Forall_impl; [exact Hall|]; intros ps [_ Hps]; lia|lia|].
    rewrite Forall_forall in Hok. specialize (Hok _ Hin). pose proof (branch_count_le n st _ Hin) as Hle. cbn [snd] in Hok, Hle.
    cbn [ok_or rbind]. destruct (IH st' r (output ++ [p])) as (w & Hw' & ->); [done|lia|lia|].
    exists (p :: w). split; [|by rewrite <- app_assoc]. cbn [words]. by rewrite Hw, Hw'.
  - exfalso. enough (words_count next_unused (S n) st <= rank)%Z by lia.
    apply Hsel; [|lia]. rewrite Hnext. eapply Forall_impl; [exact Hall|]. intros ps [_ Hps]. lia.
Qed.

(** ** Lexicographic order *)

(** The order of the pieces themselves. *)
Notation lex_lt := (lex_by (fun p q => piece_index p < piece_index q)%nat).

Lemma omap_pieces_sorted {B} (f : nat * PieceKind -> option (PieceKind * B)) :
  (forall ip qt, f ip = Some qt -> fst qt = snd ip) ->
  StronglySorted (fun ps qt : PieceKind * B => piece_index (fst ps) < piece_index (fst qt))%nat (omap f (imap pair STANDARD_TETROMINOES)).
Proof.
  intros Hf. assert (StronglySorted (fun ip iq => piece_index (snd ip) < piece_index (snd iq))%nat (imap pair STANDARD_TETROMINOES)) as Hs
    by (repeat constructor).
  induction Hs as [|ip l _ IH Hip]; [constructor|]. cbn [omap list_omap]. destruct (f ip) as [qt|] eqn:E; [|done].
  constructor; [done|]. rewrite Forall_forall in Hip. apply Forall_forall. intros rt (iq & Hiq & Hrt)%list_elem_of_omap.
  rewrite (Hf _ _ E), (Hf _ _ Hrt). by apply Hip.
Qed.

Lemma next_available_sorted a : StronglySorted (fun ps qt => piece_index (fst ps) < piece_index (fst qt))%nat (next_available a).
Proof. apply omap_pieces_sorted. intros ip qt. destruct (_ =? 0)%Z; [done|]. by intros [= <-]. Qed.

(** ** The standard space enumerates the bag sequences *)

Lemma standard_words_elem n w :
  w ∈ words next_available n FULL_STANDARD_BAG <-> length w = n /\ bag_sequence STANDARD_TETROMINOES w.
Proof.
  rewrite available_words by (vm_compute; intuition discriminate). change (drawn_state FULL_STANDARD_BAG) with (0%Z, 0%Z).
  rewrite unused_words by (vm_compute; intuition discriminate).
  change (profile_state (0%Z, 0%Z)) with (0%nat, replicate (length (entries BagProfile_standard_7)) 0%nat).
  rewrite words_run; [|apply standard_7_ok|split; [reflexivity|vm_compute; lia]].
  pose proof (boundary_state_window BagProfile_standard_7 standard_7_ok 0 w ltac:(vm_compute; lia)) as Hwin.
  unfold boundary_state_after_prefix_with_profile in Hwin. rewrite Hwin. unfold bag_window.
  change (profile_pieces BagProfile_standard_7) with STANDARD_TETROMINOES.
  split; intros [Hl H]; (split; [done|]); [by destruct H as (before & ->%nil_length_inv & H)|by exists []].
Qed.

Lemma standard_words_count n : Z.of_nat (length (words next_available n FULL_STANDARD_BAG)) = aligned_size n.
Proof.
  change (words_count next_available n FULL_STANDARD_BAG = aligned_size n).
  rewrite available_word_count by (vm_compute; intuition discriminate). apply aligned_size_space.
Qed.

Lemma saturating_pow_capped k : saturating_pow 128 5040 k = Z.min (5040 ^ Z.of_nat k) (umax 128).
Proof.
  induction k as [|k IH]; [done|]. cbn [saturating_pow]. rewrite IH, Nat2Z.inj_succ, Z.pow_succ_r by lia.
  pose proof (Z.pow_pos_nonneg 5040 (Z.of_nat k)). unfold saturating_mul. rewrite Z.mul_comm.
  change (Z.min (5040 * Z.min (5040 ^ Z.of_nat k) (umax 128)) (umax 128)) with (saturating_mul 128 5040 (Z.min (5040 ^ Z.of_nat k) (umax 128))).
  apply saturating_mul_capped; lia.
Qed.

Lemma pattern_count_capped n : (Z.of_nat (n / 7) < 2 ^ 32)%Z -> standard_7_bag_pattern_count n = Z.min (aligned_size n) (umax 128).
Proof.
  intros Hn. unfold standard_7_bag_pattern_count, aligned_size. change (factorial 7) with 5040%Z.
  unfold wrap. rewrite Z.mod_small, Nat2Z.id by lia. rewrite saturating_pow_capped.
  destruct (checked_falling_spec 7 (n mod 7)) as [_ Hf]; [pose proof (Nat.mod_upper_bound n 7); lia|lia|].
  pose proof (Z.pow_pos_nonneg 5040 (Z.of_nat (n / 7))). rewrite (Z.mul_comm (5040 ^ _)).
  rewrite <- saturating_mul_capped by lia. unfold saturating_mul. by rewrite Z.mul_comm.
Qed.

Lemma aligned_size_large n : (6 <= n / 7)%nat -> (2 ^ 64 <= aligned_size n)%Z.
Proof.
  intros Hn. unfold aligned_size. destruct (checked_falling_spec 7 (n mod 7)) as [_ Hf]; [pose proof (Nat.mod_upper_bound n 7); lia|lia|].
  assert (5040 ^ 6 <= 5040 ^ Z.of_nat (n / 7))%Z by (apply Z.pow_le_mono_r; lia).
  assert (2 ^ 64 <= 5040 ^ 6)%Z by (vm_compute; discriminate). nia.
Qed.

(** C22: The universe of a standard 7-bag is the first [max_patterns] (all, if
    that is zero) of the bag sequences of the requested length in lexicographic
    order: every rank below the count is rebuilt as the sequence of that rank,
    and no rank within it panics.  The universe is refused exactly if the length
    is zero or there are [2^64] sequences or more. *)
Theorem standard_space_correct (len : nat) (max_patterns : Z) (Hmax : (0 <= max_patterns)%Z) :
  exists all : list (list PieceKind), StronglySorted lex_lt all /\
    (forall w, w ∈ all <-> length w = len /\ bag_sequence STANDARD_TETROMINOES w) /\
    match standard_7_bag len max_patterns with
    | Ok u =>
        let count := space_pattern_count (universe_space u) in
        len <> 0%nat /\ (Z.of_nat (length all) < 2 ^ 64)%Z /\ universe_total u = Z.of_nat (length all) /\
        count = (if (max_patterns =? 0)%Z then Z.of_nat (length all) else Z.min max_patterns (Z.of_nat (length all))) /\
        (universe_complete u = true <-> count = Z.of_nat (length all)) /\
        forall index, (0 <= index)%Z -> standard_write_sequence (universe_space u) index =
          if (index <? count)%Z then expect_some (all !! Z.to_nat index) else Err Panicked
    | Err MatNoPatterns => len = 0%nat
    | Err _ => (2 ^ 64 <= Z.of_nat (length all))%Z
    end.
Proof.
  exists (words next_available len FULL_STANDARD_BAG). split; [apply (words_sorted _ _ (fun _ => True)); [intros a _; split; [apply next_available_sorted|by apply Forall_true]|done]|].
  split; [apply standard_words_elem|]. rewrite standard_words_count. unfold standard_7_bag.
  destruct (Nat.eqb_spec len 0) as [|Hlen]; [done|]. destruct (try_from 64 (standard_7_bag_pattern_count len)) as [rep|] eqn:Hrep; cbn [ok_or rbind].
  2:{ destruct (decide (6 <= len / 7)%nat) as [Hbig|Hsmall]; [by apply aligned_size_large|].
      unfold try_from in Hrep. rewrite pattern_count_capped in Hrep by lia.
      destruct (Z.ltb_spec (Z.min (aligned_size len) (umax 128)) (2 ^ 64)); [done|lia]. }
  destruct (try_from 16 (Z.of_nat len)) as [l|] eqn:Hl; cbn [ok_or rbind].
  2:{ apply aligned_size_large. unfold try_from in Hl. destruct (Z.ltb_spec (Z.of_nat len) (2 ^ 16)); [done|].
      apply Nat.div_le_lower_bound; lia. }
  unfold try_from in Hl, Hrep. destruct (Z.ltb_spec (Z.of_nat len) (2 ^ 16)) as [Hl16|]; [|done]. injection Hl as <-.
  assert (len / 7 <= len)%nat as Hd by (apply Nat.Div0.div_le_upper_bound; lia).
  assert (Z.of_nat (len / 7) < 2 ^ 32)%Z as Hd32 by lia.
  rewrite (pattern_count_capped len Hd32) in *.
  destruct (Z.ltb_spec (Z.min (aligned_size len) (umax 128)) (2 ^ 64)) as [H64|]; [|done]. injection Hrep as <-.
  assert (Z.min (aligned_size len) (umax 128) = aligned_size len) as -> by (unfold umax in *; lia).
  cbn [space_pattern_count universe_space universe_total universe_complete]. pose proof (aligned_size_pos len) as Hpos.
  split; [done|]. split; [unfold umax in *; lia|]. split; [done|]. split; [done|]. split; [by rewrite Z.eqb_eq|].
  intros index Hi. unfold standard_write_sequence. cbn [space_pattern_count space_sequence_len].
  set (count := if (max_patterns =? 0)%Z then _ else _).
  assert (count <= aligned_size len)%Z as Hcount by (unfold count; destruct (max_patterns =? 0)%Z; lia).
  destruct (Z.ltb_spec index count); cbn [negb]; [|done]. rewrite Nat2Z.id.
  destruct (write_available_spec len FULL_STANDARD_BAG index []) as (w & -> & ->);
    [vm_compute; intuition discriminate| |unfold umax in *; lia|done].
  unfold words_count. rewrite standard_words_count. lia.
Qed.

Lemma standard_space_correct_witness :
  exists all : list (list PieceKind), StronglySorted lex_lt all /\
    standard_write_sequence (mkSpace 3 210) 209 = expect_some (all !! 209%nat).
Proof.
  destruct (standard_space_correct 3 0 ltac:(lia)) as (all & Hs & _ & H). exists all. split; [exact Hs|].
  change (standard_7_bag 3 0) with (@Ok MaterializationError _ (mkStandardUniverse (mkSpace 3 210) 210 true)) in H.
  cbn [universe_space space_pattern_count] in H. destruct H as (_ & _ & _ & _ & _ & H).
  rewrite (H 209%Z ltac:(lia)). reflexivity.
Defined.

(** ** The observed space and the eager expansion *)

Definition piece_step (o m : Z) (p : PieceKind) : option (Z * Z) :=
  match normalized_state o m with
  | Ok (o, m) => if negb (Z.land m (piece_bit p) =? 0)%Z then None else Some (o + 1, Z.lor m (piece_bit p))%Z
  | Err _ => None
  end.

Definition prefix_agrees (o m : Z) : bool :=
  implb (Z.of_nat (count_ones m) <=? o)%Z (forallb (fun p =>
    bool_decide (profile_state <$> piece_step o m p = boundary_step BagProfile_standard_7 (profile_state (o, m)) p) &&
    match piece_step o m p with
    | Some st => bool_decide ((0 <= fst st <= 7)%Z /\ (0 <= snd st < 128)%Z /\ (Z.of_nat (count_ones (snd st)) <= fst st)%Z)
    | None => true
    end) STANDARD_TETROMINOES).

Lemma piece_step_profile st p :
  mask_ok st -> profile_state <$> piece_step (fst st) (snd st) p = boundary_step BagProfile_standard_7 (profile_state st) p /\
  match piece_step (fst st) (snd st) p with Some st' => mask_ok st' | None => True end.
Proof.
  destruct st as [o m]. intros (Ho & Hm & Hc). cbn [fst snd] in *.
  pose proof (for_states prefix_agrees ltac:(vm_compute; reflexivity) o m Ho Hm) as H. unfold prefix_agrees in H.
  rewrite (proj2 (Z.leb_le _ _) Hc) in H. cbn [implb] in H. rewrite forallb_forall in H.
  specialize (H p ltac:(apply list_elem_of_In, piece_in_standard)). bool_prop. split; [done|].
  destruct (piece_step o m p); bool_prop; done.
Qed.

Lemma prefix_state_spec pieces st :
  mask_ok st ->
  match prefix_state pieces (fst st) (snd st) with
  | Ok st' => mask_ok st' /\ boundary_run BagProfile_standard_7 (profile_state st) pieces = Some (profile_state st')
  | Err _ => boundary_run BagProfile_standard_7 (profile_state st) pieces = None
  end.
Proof.
  revert st. induction pieces as [|p pieces IH]; intros st Hst; cbn [prefix_state boundary_run]; [by destruct st|].
  destruct (piece_step_profile st p Hst) as [Hstep Hok]. rewrite <- Hstep. unfold piece_step in *.
  destruct (normalized_state (fst st) (snd st)) as [[o m]|e]; cbn [rbind]; [|done].
  destruct (negb _); cbn [fmap option_fmap option_map mbind option_bind]; [done|]. apply (IH (o + 1, Z.lor m (piece_bit p))%Z Hok).
Qed.

Section Observed.
Context (pieces : list PieceKind) (len : nat) (Hlen : (length pieces <= len)%nat).

Notation b7 := BagProfile_standard_7.
Notation remaining := (len - length pieces)%nat.

(** What [new] records for an offset. *)
Definition candidate_for (o : nat) (c : CandidateState) : Prop :=
  exists st, boundary_state_after_prefix_with_profile pieces o b7 = Some (profile_state st) /\ mask_ok st /\
    (words_count next_unused remaining st < 2 ^ 128)%Z /\
    c = mkCandidate (Z.of_nat o) (fst st) (snd st) (words_count next_unused remaining st).

Definition is_candidate (o : nat) : Prop := (o < 7)%nat /\ is_Some (boundary_state_after_prefix_with_profile pieces o b7).

Lemma candidate_prefix o : is_candidate o -> exists st, prefix_state pieces (Z.of_nat o) 0 = Ok st /\ mask_ok st /\
  boundary_state_after_prefix_with_profile pieces o b7 = Some (profile_state st) /\
  continuations b7 pieces len o = (fun w => (o, pieces ++ w)) <$> words next_unused remaining st.
Proof.
  intros [Ho [st' Hst']]. assert (mask_ok (Z.of_nat o, 0%Z)) as Hm by (unfold mask_ok; cbn [fst snd]; change (count_ones 0) with 0%nat; lia).
  pose proof (prefix_state_spec pieces _ Hm) as H. cbn [fst snd] in H.
  unfold continuations, boundary_state_after_prefix_with_profile in *.
  assert (profile_state (Z.of_nat o, 0%Z) = (o, replicate (length (entries b7)) 0%nat)) as Hp
    by (unfold profile_state; cbn [fst snd]; by rewrite Nat2Z.id).
  rewrite Hp in H. destruct (prefix_state pieces (Z.of_nat o) 0) as [st|]; [|congruence]. destruct H as [Hok Hrun].
  exists st. split; [done|]. split; [done|]. split; [done|]. rewrite Hrun. by rewrite unused_words by done.
Qed.

Lemma continuations_count o st :
  continuations b7 pieces len o = (fun w => (o, pieces ++ w)) <$> words next_unused remaining st ->
  Z.of_nat (length (continuations b7 pieces len o)) = words_count next_unused remaining st.
Proof. intros ->. by rewrite length_fmap. Qed.

Lemma unused_count_pos n st : mask_ok st -> (1 <= words_count next_unused n st)%Z.
Proof.
  intros Hst. rewrite unused_word_count by done. destruct Hst as (Ho & Hm & Hc). unfold space_size.
  destruct (Nat.eqb_spec (Z.to_nat (fst st)) 7); [apply aligned_size_pos|].
  destruct (checked_falling_spec (7 - count_ones (snd st)) (Nat.min n (7 - Z.to_nat (fst st)))) as [_ Hf]; [lia|lia|].
  pose proof (aligned_size_pos (n - Nat.min n (7 - Z.to_nat (fst st)))). nia.
Qed.

Lemma collect_candidates_spec l found total :
  Forall is_candidate l -> (0 <= total < 2 ^ 128)%Z ->
  let sum := Z.of_nat (length (l ≫= continuations b7 pieces len)) in
  match collect_candidates pieces remaining l found total with
  | Ok (cs, total') => (total + sum < 2 ^ 128)%Z /\ total' = (total + sum)%Z /\ exists new, cs = found ++ new /\ Forall2 candidate_for l new
  | Err e => e = PatternCountOverflow /\ (2 ^ 128 <= total + sum)%Z
  end.
Proof.
  intros Hl. revert found total. induction Hl as [|o l Ho Hl IH]; intros found total Ht sum; cbn [collect_candidates].
  { unfold sum. cbn. split; [lia|]. split; [lia|]. exists []. split; [by rewrite app_nil_r|constructor]. }
  destruct (candidate_prefix o Ho) as (st & Hpre & Hok & Hst & Hcont). pose proof (continuations_count o st Hcont) as Hcount.
  assert (sum = words_count next_unused remaining st + Z.of_nat (length (l ≫= continuations b7 pieces len)))%Z as ->.
  { unfold sum. csimpl. rewrite length_app, Nat2Z.inj_add, Hcount. done. }
  unfold try_from. destruct Ho as [Ho _]. destruct (Z.ltb_spec (Z.of_nat o) (2 ^ 8)); [|lia]. cbn [ok_or rbind]. rewrite Hpre. cbn [rbind].
  destruct st as [so sm]. pose proof (count_from_state_spec remaining (so, sm) Hok) as Hc. cbn [fst snd] in Hc. rewrite Hc.
  pose proof (unused_count_pos remaining (so, sm) Hok) as Hpos. unfold fits_u128.
  destruct (Z.ltb_spec (words_count next_unused remaining (so, sm)) (2 ^ 128)) as [Hfit|]; cbn [ok_or rbind]; [|split; [done|lia]].
  destruct (Z.eqb_spec (words_count next_unused remaining (so, sm)) 0); [lia|]. unfold checked_add.
  destruct (Z.ltb_spec (total + words_count next_unused remaining (so, sm)) (2 ^ 128)); cbn [ok_or rbind]; [|split; [done|lia]].
  specialize (IH (found ++ [mkCandidate (Z.of_nat o) so sm (words_count next_unused remaining (so, sm))])
    (total + words_count next_unused remaining (so, sm))%Z ltac:(lia)).
  destruct (collect_candidates pieces remaining l _ _) as [[cs total']|e].
  - destruct IH as (H1 & -> & new & -> & Hnew). split; [lia|]. split; [lia|].
    exists (mkCandidate (Z.of_nat o) so sm (words_count next_unused remaining (so, sm)) :: new). split; [by rewrite <- app_assoc|].
    constructor; [|done]. by exists (so, sm).
  - destruct IH as [-> ?]. split; [done|lia].
Qed.

Lemma select_candidate_spec l cs rank :
  Forall2 candidate_for l cs -> Forall is_candidate l -> (0 <= rank)%Z ->
  match select_candidate rank cs with
  | Some (c, r) => exists o st, cand_offset c = fst st /\ cand_used_mask c = snd st /\ mask_ok st /\
      (0 <= r < words_count next_unused remaining st)%Z /\ (words_count next_unused remaining st < 2 ^ 128)%Z /\
      (l ≫= continuations b7 pieces len) !! Z.to_nat rank = (fun w => (o, pieces ++ w)) <$> words next_unused remaining st !! Z.to_nat r
  | None => (Z.of_nat (length (l ≫= continuations b7 pieces len)) <= rank)%Z
  end.
Proof.
  intros H2. revert rank. induction H2 as [|o c l cs Hc _ IH]; intros rank Hl Hr; cbn [select_candidate]; [simpl; lia|].
  apply Forall_cons in Hl as [Ho Hl]. destruct Hc as (st & Hst & Hok & Hfit & ->). cbn [cand_suffix_count].
  destruct (candidate_prefix o Ho) as (st' & _ & Hok' & Hst' & Hcont).
  assert (words next_unused remaining st' = words next_unused remaining st) as Hw.
  { rewrite !unused_words by done. rewrite Hst in Hst'. apply (inj Some) in Hst'. by rewrite Hst'. }
  rewrite Hw in Hcont. pose proof (continuations_count o st Hcont) as Hcount. csimpl. rewrite length_app.
  destruct (Z.ltb_spec rank (words_count next_unused remaining st)) as [Hlt|Hge].
  - exists o, st. split; [done|]. split; [done|]. split; [done|]. split; [done|]. split; [done|].
    rewrite lookup_app_l by lia. by rewrite Hcont, list_lookup_fmap.
  - specialize (IH (rank - words_count next_unused remaining st)%Z Hl ltac:(lia)).
    destruct (select_candidate _ cs) as [[c r]|]; [|lia]. destruct IH as (o' & st2 & ? & ? & ? & ? & ? & Hlk).
    exists o', st2. do 5 (split; [done|]). rewrite lookup_app_r by lia. rewrite <- Hlk. f_equal. lia.
Qed.
End Observed.

(** C19: The lazy space of an observed queue agrees with the eager expansion: it
    is built exactly if the queue fits the length, has a compatible boundary and
    has fewer than [2^64] continuations; then its counts are the expansion's
    and rank [i] rebuilds the [i]-th pattern the expansion lists, in the same
    order, whatever the expansion's limit.  A rank out of range is an error,
    and the invariant errors of the code never occur. *)
Theorem lazy_space_matches_expansion (pieces : list PieceKind) (len : nat) :
  exists all : list (nat * list PieceKind),
    (forall max, (length pieces <= len)%nat -> (0 < max)%nat ->
      expand_observed_queue pieces len max BagProfile_standard_7 =
        Some (if bool_decide (all = []) then Err IncompatibleBoundary
              else Ok (mkExpansion (analyze_observed_window_with_profile pieces BagProfile_standard_7)
                         (Z.min (Z.of_nat (length all)) (umax 128)) (take max all) (bool_decide (max < length all)%nat)))) /\
    match ObservedStandard7BagSequenceSpace_new pieces len with
    | Ok sp =>
        (length pieces <= len)%nat /\ all <> [] /\ (Z.of_nat (length all) < 2 ^ 64)%Z /\
        pattern_count sp = Z.of_nat (length all) /\ space_total_pattern_count sp = Z.of_nat (length all) /\
        forall index, (0 <= index)%Z -> observed_write_sequence sp index =
          match all !! Z.to_nat index with Some (_, w) => Ok w | None => Err PatternIndexOutOfRange end
    | Err SequenceTooShort => (len < length pieces)%nat
    | Err SpaceIncompatibleBoundary => (length pieces <= len)%nat /\ all = []
    | Err PatternCountOverflow => (length pieces <= len)%nat /\ (2 ^ 64 <= Z.of_nat (length all))%Z
    | Err _ => False
    end.
Proof.
  exists (all_continuations BagProfile_standard_7 pieces len). split.
  { intros max Hle Hmax. apply (expand_spec _ standard_7_ok pieces len Hle max len Hmax). lia. }
  unfold ObservedStandard7BagSequenceSpace_new. destruct (Nat.ltb_spec len (length pieces)) as [|Hle]; [done|].
  change (analyze_observed_window pieces BAG_SIZE) with (analyze_observed_window_with_profile pieces BagProfile_standard_7).
  unfold is_compatible. rewrite report_candidates, negb_involutive by apply standard_7_ok.
  rewrite <- (candidates_continuations BagProfile_standard_7 pieces len).
  set (cs := filter _ _). assert (Forall (is_candidate pieces) cs) as Hcs.
  { apply Forall_forall. intros o [Hs Ho%elem_of_seq]%list_elem_of_filter. change (bag_size BagProfile_standard_7) with 7%nat in Ho. split; [lia|done]. }
  destruct (bool_decide (cs = [])) eqn:Hnil; bool_prop; [by rewrite Hnil|].
  pose proof (collect_candidates_spec pieces len Hle cs [] 0 Hcs ltac:(lia)) as Hcol. cbn zeta in Hcol. rewrite Z.add_0_l in Hcol.
  destruct (collect_candidates pieces (len - length pieces) cs [] 0) as [[found total]|e]; cbn [rbind].
  2:{ destruct Hcol as [-> ?]. split; [done|lia]. }
  destruct Hcol as (Hfit & -> & new & -> & Hnew). cbn [app].
  assert (cs ≫= continuations BagProfile_standard_7 pieces len <> []) as Hne.
  { intros H. apply Hnil, (proj1 (all_continuations_nil _ standard_7_ok pieces len Hle)). rewrite <- candidates_continuations. exact H. }
  assert (0 < length (cs ≫= continuations BagProfile_standard_7 pieces len))%nat as Hlen0
    by (destruct (cs ≫= continuations BagProfile_standard_7 pieces len); [done|simpl; lia]).
  rewrite bool_decide_eq_false_2 by (intros ->; by apply Forall2_nil_inv_r in Hnew). cbn [orb].
  destruct (Z.eqb_spec (Z.of_nat (length (cs ≫= continuations BagProfile_standard_7 pieces len))) 0); [lia|].
  unfold checked_pattern_count, try_from. destruct (Z.ltb_spec (Z.of_nat (length (cs ≫= continuations BagProfile_standard_7 pieces len))) (2 ^ 64)) as [H64|H64];
    cbn [ok_or rbind]; [|done].
  split; [done|]. split; [done|]. split; [done|]. split; [done|]. split; [done|]. intros index Hi.
  unfold observed_write_sequence. cbn [pattern_count space_candidates observed sequence_len].
  destruct (Z.leb_spec (Z.of_nat (length (cs ≫= continuations BagProfile_standard_7 pieces len))) index) as [Hge|Hlt].
  { by rewrite lookup_ge_None_2 by lia. }
  pose proof (select_candidate_spec pieces len Hle cs new index Hnew Hcs Hi) as Hsel.
  destruct (select_candidate index new) as [[c r]|]; [|lia]. cbn [ok_or rbind].
  destruct Hsel as (o & st & -> & -> & Hok & Hr & Hf & ->).
  destruct (write_unused_spec _ st r pieces Hok Hr Hf) as (w & -> & ->). done.
Qed.
