(* ===== verification/MultisetReach.v ===== *)
(** * Reachable piece multisets

    [clearra-supply], [pattern_universe/hold_multiset_reachability.rs] and
    [pattern_universe/bag_multiset_reachability.rs]: which multisets of pieces
    can be placed from one concrete queue, and from a bag source, with a hold
    slot.  Packing works on these multisets instead of on orders of play, so
    both must be exact: the first replaces the runs of the hold automaton by a
    closed form, the second explores the automaton of the bag breadth first.

    The buffers of the exploration are charged against a memory limit.  As in
    [AllocationLedger] the allocator is a parameter: [reserve size capacity] is
    the capacity of a vector after [try_reserve_exact], or [None]. *)

From Stdlib Require Import ZArith Lia Sorted.
From stdpp Require Import prelude.
From S2P Require Import Prelude Words Pieces SupplyAutomaton.

(** ** Sorting

    [sort_unstable] by a derived order, then [dedup].  [key] lists the fields
    the derived order compares, in order. *)

Section SortDedup.
Context {A : Type} `{EqDecision A} (key : A -> list Z).

Fixpoint insert_sorted (x : A) (l : list A) : list A :=
  match l with
  | [] => [x]
  | y :: l' => match lex_cmp (key x) (key y) with Gt => y :: insert_sorted x l' | _ => x :: l end
  end.

Definition sort_unstable (l : list A) : list A := foldr insert_sorted [] l.

Fixpoint vec_dedup (l : list A) : list A :=
  match l with
  | x :: (y :: _) as l' => if decide (x = y) then vec_dedup l' else x :: vec_dedup l'
  | _ => l
  end.

Definition sorted_dedup (l : list A) : list A := vec_dedup (sort_unstable l).
End SortDedup.

(** The derived order of [PieceMultisetKey]. *)
Definition multiset_order (k : PieceMultisetKey) : list Z := counts k ++ [total_count k].

#[export] Instance PieceMultisetKey_eq_dec : EqDecision PieceMultisetKey.
Proof. solve_decision. Defined.

(** ** One queue *)

Definition hold_bit (p : PieceKind) : Z := shl 8 1 (Z.of_nat (piece_index p)).

(** [slice.get(..n)]. *)
Definition get_prefix {A} (l : list A) (n : nat) : option (list A) := if (n <=? length l)%nat then Some (take n l) else None.

Definition record_final_hold_options (available : PieceMultisetKey) (initial_hold : option PieceKind) (drawn : list PieceKind)
  : list PieceMultisetKey :=
  let final_hold_mask := foldl (fun m p => Z.lor m (hold_bit p)) (from_option hold_bit 0%Z initial_hold) drawn in
  omap (fun p =>
    if (Z.land final_hold_mask (hold_bit p) =? 0)%Z then None
    else let '(placed, removed) := PieceMultisetKey_remove available p in if removed then Some placed else None)
    STANDARD_TETROMINOES.

Definition reachable_multisets (sequence : list PieceKind) (n : nat) (initial_hold : SupplyExecutionState) (hold_enabled : bool)
  : list PieceMultisetKey :=
  let start := Z.to_nat (cursor initial_hold) in
  if (length sequence <? start)%nat then []
  else
    let available := drop start sequence in
    if negb hold_enabled then
      match get_prefix available n with Some prefix => [PieceMultisetKey_from_pieces prefix] | None => [] end
    else
      match hold_piece initial_hold with
      | Some p =>
          match get_prefix available n with
          | None => []
          | Some prefix =>
              sorted_dedup multiset_order
                (record_final_hold_options (PieceMultisetKey_push (PieceMultisetKey_from_pieces prefix) p) (Some p) prefix)
          end
      | None =>
          let unused := match get_prefix available n with Some prefix => [PieceMultisetKey_from_pieces prefix] | None => [] end in
          let used :=
            match get_prefix available (n + 1) with
            | Some prefix => record_final_hold_options (PieceMultisetKey_from_pieces prefix) None prefix
            | None => []
            end in
          sorted_dedup multiset_order (unused ++ used)
      end.

(** ** A bag source *)

Record BagPlacementState := mkPlacement {
  bp_cursor : Z;
  bp_hold_piece : option PieceKind;
  bp_bag_epoch : Z;
  bp_bag_remainder : PieceMultisetKey
}.

Record BagSupplyBranch := mkBranch {
  branch_used_piece : PieceKind;
  branch_next_state : BagPlacementState;
  branch_branch_kind : SupplyBranchKind
}.

Record BagPlacementAutomaton := mkPlacementAutomaton {
  inner : SupplyExecutionAutomaton;
  state_identity : SupplyExecutionState
}.

#[export] Instance SupplyBranchKind_eq_dec : EqDecision SupplyBranchKind.
Proof. solve_decision. Defined.
#[export] Instance BagPlacementState_eq_dec : EqDecision BagPlacementState.
Proof. solve_decision. Defined.
#[export] Instance BagSupplyBranch_eq_dec : EqDecision BagSupplyBranch.
Proof. solve_decision. Defined.

Definition compact_state (s : SupplyExecutionState) : Result SupplyExecutionError BagPlacementState :=
  let? remainder := decode_remainder (bag_remainder_key s) in
  Ok (mkPlacement (cursor s) (hold_piece s) (bag_epoch s) remainder).

Definition from_initial_hold (pattern : list PieceKind) (initial_hold : SupplyExecutionState) (hold_enabled : bool) (n : nat)
  : Result SupplyExecutionError (BagPlacementAutomaton * BagPlacementState) :=
  let? inner := SupplyExecutionAutomaton_for_bag pattern in
  let? identity := project_bag_initial_state inner initial_hold hold_enabled (Z.of_nat n) in
  let? initial := compact_state identity in
  Ok (mkPlacementAutomaton inner identity, initial).

(** [SupplyExecutionState { cursor, hold_piece, .., ..self.state_identity }]. *)
Definition execution_state (a : BagPlacementAutomaton) (st : BagPlacementState) : SupplyExecutionState :=
  let id := state_identity a in
  mkState (piece_source_id id) (source_kind id) (bp_cursor st) (bp_hold_piece st) (is_none (bp_hold_piece st)) (hold_policy id)
    (bp_bag_epoch st) (encode_remainder (bp_bag_remainder st)) (observation id) (provenance id).

(** Derived orders: fields in order, [None] before [Some], variants in order. *)
Definition placement_order (st : BagPlacementState) : list Z :=
  [bp_cursor st; match bp_hold_piece st with None => 0 | Some p => 1 + Z.of_nat (piece_index p) end; bp_bag_epoch st]%Z ++
  multiset_order (bp_bag_remainder st).

Definition branch_order (b : BagSupplyBranch) : list Z :=
  Z.of_nat (piece_index (branch_used_piece b)) :: placement_order (branch_next_state b) ++
  [match branch_branch_kind b with BranchCurrent => 0 | BranchSwapHeld => 1 | BranchStoreCurrent => 2 end]%Z.

(** The closure run on each step: the branches pushed and the last error. *)
Definition visit_branch (acc : list BagSupplyBranch * option SupplyExecutionError) (st : SupplyExecutionStep)
  : list BagSupplyBranch * option SupplyExecutionError :=
  match compact_state (next_state st) with
  | Ok next => (fst acc ++ [mkBranch (used_piece st) next (branch_kind (evidence st))], snd acc)
  | Err e => (fst acc, Some e)
  end.

Definition write_matching_branches (a : BagPlacementAutomaton) (st : BagPlacementState) (desired : PieceKind)
  : Result SupplyExecutionError (list BagSupplyBranch) :=
  let '(steps, r) := for_each_matching_bag_step (inner a) (execution_state a st) desired in
  r ;?
  let '(branches, projection_error) := foldl visit_branch ([], None) steps in
  match projection_error with
  | Some e => Err e
  | None => Ok (sorted_dedup branch_order branches)
  end.

(** *** The frontier *)

Record BagMultisetFrontierState := mkFrontier {
  supply : BagPlacementState;
  placed_multiset : PieceMultisetKey
}.

#[export] Instance BagMultisetFrontierState_eq_dec : EqDecision BagMultisetFrontierState.
Proof. solve_decision. Defined.

Definition frontier_order (f : BagMultisetFrontierState) : list Z := placement_order (supply f) ++ multiset_order (placed_multiset f).

Definition MAX_MATCHING_BRANCHES_PER_DESIRED_PIECE : Z := 8.
Definition BAG_BRANCH_BUFFER_CAPACITY : Z := 16.

Inductive BoundedBagMultisetError :=
| BagProjection (e : SupplyExecutionError)
| BagProjectionOverflow
| BagAllocationFailed (required_memory_bytes : Z)
| BagMemoryCapacityExceeded (required_memory_bytes max_memory_bytes : Z).

Record BagMultisetAllocationReport := mkBagReport { bag_peak_bytes : Z; bag_retained_bytes : Z }.

Definition push_child (f : BagMultisetFrontierState) (b : BagSupplyBranch) : BagMultisetFrontierState :=
  mkFrontier (branch_next_state b) (PieceMultisetKey_push (placed_multiset f) (branch_used_piece b)).

(** The loop over the pieces for one state of the frontier. *)
Fixpoint expand_pieces (a : BagPlacementAutomaton) (f : BagMultisetFrontierState) (pieces : list PieceKind)
    (next : list BagMultisetFrontierState) : Result SupplyExecutionError (list BagMultisetFrontierState) :=
  match pieces with
  | [] => Ok next
  | p :: pieces =>
      let? branches := write_matching_branches a (supply f) p in
      expand_pieces a f pieces (next ++ (push_child f <$> branches))
  end.

Fixpoint expand_frontier (a : BagPlacementAutomaton) (current : list BagMultisetFrontierState) (next : list BagMultisetFrontierState)
  : Result SupplyExecutionError (list BagMultisetFrontierState) :=
  match current with
  | [] => Ok next
  | f :: current =>
      let? next := expand_pieces a f STANDARD_TETROMINOES next in
      expand_frontier a current next
  end.

Definition ensure_bag_memory_limit (limit : option (Z * Z)) (live : Z) : Result BoundedBagMultisetError unit :=
  match limit with
  | None => Ok tt
  | Some (already, max) =>
      let? required := ok_or (checked_add 128 already live) BagProjectionOverflow in
      if (required <=? max)%Z then Ok tt else Err (BagMemoryCapacityExceeded required max)
  end.

Section Bounded.
(** The allocator, and the sizes in bytes of the three element types. *)
Context (reserve : Z -> Z -> option Z) (frontier_size branch_size key_size : Z).

Definition bag_vec_bytes (size capacity : Z) : Result BoundedBagMultisetError Z :=
  ok_or (checked_mul 128 capacity size) BagProjectionOverflow.

(** [reserve_bag_capacity] on a vector of length zero (each caller has just
    created or cleared it): the new capacity and the new peak. *)
Definition reserve_bag_capacity (size capacity required other_live : Z) (limit : option (Z * Z)) (peak : Z)
  : Result BoundedBagMultisetError (Z * Z) :=
  let? capacity :=
    (if (capacity <? required)%Z then
       let? bytes := ok_or (checked_mul 128 required size) BagProjectionOverflow in
       let? projected := ok_or (checked_add 128 bytes other_live) BagProjectionOverflow in
       ensure_bag_memory_limit limit projected ;?
       ok_or (reserve size required)
         (BagAllocationFailed (match limit with None => projected | Some (already, _) => saturating_add 128 already projected end))
     else Ok capacity) in
  let? bytes := bag_vec_bytes size capacity in
  let? live := ok_or (checked_add 128 bytes other_live) BagProjectionOverflow in
  ensure_bag_memory_limit limit live ;?
  Ok (capacity, Z.max peak live).

(** The state of the loop over the depths: the frontier, the capacities of
    [current] and [next], and the peak. *)
Record BagSearch := mkBagSearch {
  frontier : list BagMultisetFrontierState;
  current_capacity : Z;
  next_capacity : Z;
  search_peak : Z
}.

Definition bag_depth (a : BagPlacementAutomaton) (branch_capacity : Z) (limit : option (Z * Z)) (b : BagSearch)
  : Result BoundedBagMultisetError BagSearch :=
  let? seven := ok_or (checked_mul 64 (Z.of_nat (length (frontier b))) 7) BagProjectionOverflow in
  let? max_children := ok_or (checked_mul 64 seven MAX_MATCHING_BRANCHES_PER_DESIRED_PIECE) BagProjectionOverflow in
  let? current_bytes := bag_vec_bytes frontier_size (current_capacity b) in
  let? branch_bytes := bag_vec_bytes branch_size branch_capacity in
  let? other_live := ok_or (checked_add 128 current_bytes branch_bytes) BagProjectionOverflow in
  let? '(next_cap, peak) := reserve_bag_capacity frontier_size (next_capacity b) max_children other_live limit (search_peak b) in
  let? next := rmap_err BagProjection (expand_frontier a (frontier b) []) in
  Ok (mkBagSearch (sorted_dedup frontier_order next) next_cap (current_capacity b) peak).

Fixpoint bag_depths (n : nat) (a : BagPlacementAutomaton) (branch_capacity : Z) (limit : option (Z * Z)) (b : BagSearch)
  : Result BoundedBagMultisetError BagSearch :=
  match n with
  | O => Ok b
  | S n => let? b := bag_depth a branch_capacity limit b in bag_depths n a branch_capacity limit b
  end.

Definition reachable_bag_multisets_internal (pattern : list PieceKind) (n : nat) (initial_hold : SupplyExecutionState) (hold_enabled : bool)
    (limit : option (Z * Z)) : Result BoundedBagMultisetError (list PieceMultisetKey * BagMultisetAllocationReport) :=
  let? '(automaton, initial) := rmap_err BagProjection (from_initial_hold pattern initial_hold hold_enabled n) in
  let? '(current_cap, peak) := reserve_bag_capacity frontier_size 0 1 0 limit 0 in
  let? current_bytes := bag_vec_bytes frontier_size current_cap in
  let? next_bytes := bag_vec_bytes frontier_size 0 in
  let? other_live := ok_or (checked_add 128 current_bytes next_bytes) BagProjectionOverflow in
  let? '(branch_cap, peak) := reserve_bag_capacity branch_size 0 BAG_BRANCH_BUFFER_CAPACITY other_live limit peak in
  let? b := bag_depths n automaton branch_cap limit
              (mkBagSearch [mkFrontier initial PieceMultisetKey_default] current_cap 0 peak) in
  let? current_bytes := bag_vec_bytes frontier_size (current_capacity b) in
  let? '(multiset_cap, peak) :=
    reserve_bag_capacity key_size 0 (Z.of_nat (length (frontier b))) current_bytes limit (search_peak b) in
  let multisets := sorted_dedup multiset_order (placed_multiset <$> frontier b) in
  let? retained := bag_vec_bytes key_size multiset_cap in
  Ok (multisets, mkBagReport (Z.max peak retained) retained).

(** [reachable_bag_multisets] has no limit and folds the memory errors. *)
Definition reachable_bag_multisets (pattern : list PieceKind) (n : nat) (initial_hold : SupplyExecutionState) (hold_enabled : bool)
  : Result SupplyExecutionError (list PieceMultisetKey) :=
  match reachable_bag_multisets_internal pattern n initial_hold hold_enabled None with
  | Ok (multisets, _) => Ok multisets
  | Err (BagProjection e) => Err e
  | Err _ => Err BagEpochExhausted
  end.

Definition reachable_bag_multisets_with_memory_limit (pattern : list PieceKind) (n : nat) (initial_hold : SupplyExecutionState)
    (hold_enabled : bool) (already max : Z) : Result BoundedBagMultisetError (list PieceMultisetKey * BagMultisetAllocationReport) :=
  reachable_bag_multisets_internal pattern n initial_hold hold_enabled (Some (already, max)).

(** [(1..=6).try_fold(1, |count, d| (count * (total + d)) / d)]. *)
Fixpoint unordered_count (divisors : list Z) (total count : Z) : option Z :=
  match divisors with
  | [] => Some count
  | d :: divisors =>
      sum ← checked_add 128 total d;
      product ← checked_mul 128 count sum;
      unordered_count divisors total (product / d)%Z
  end.

Definition checked_unordered_multiset_count (total : nat) : option Z :=
  unordered_count [1; 2; 3; 4; 5; 6]%Z (Z.of_nat total) 1.

Definition depth_states (depth : nat) : option Z :=
  if (depth =? 0)%nat then Some 1%Z else c ← checked_unordered_multiset_count depth; checked_mul 128 c 16.

(** The loop of [checked_reachable_bag_multiset_peak_upper_bound]. *)
Fixpoint bound_depths (depths : list nat) (branch_bytes prior peak : Z) : option (Z * Z) :=
  match depths with
  | [] => Some (prior, peak)
  | depth :: depths =>
      states ← depth_states depth;
      seven ← checked_mul 128 states 7;
      next ← checked_mul 128 seven MAX_MATCHING_BRANCHES_PER_DESIRED_PIECE;
      sum ← checked_add 128 prior next;
      bytes ← checked_mul 128 sum frontier_size;
      live ← checked_add 128 bytes branch_bytes;
      bound_depths depths branch_bytes next (Z.max peak live)
  end.

Definition checked_reachable_bag_multiset_peak_upper_bound (n : nat) : option Z :=
  branch_bytes ← checked_mul 128 BAG_BRANCH_BUFFER_CAPACITY branch_size;
  peak ← checked_add 128 frontier_size branch_bytes;
  pp ← bound_depths (seq 0 n) branch_bytes 1 peak;
  final_states ← depth_states n;
  final_keys ← checked_mul 128 final_states key_size;
  prior_bytes ← checked_mul 128 (fst pp) frontier_size;
  last ← checked_add 128 prior_bytes final_keys;
  Some (Z.max (snd pp) last).
End Bounded.

(** ** Sorting is a set operation *)

Lemma lex_cmp_eq a b : lex_cmp a b = Eq <-> a = b.
Proof.
  revert b. induction a as [|x a IH]; intros [|y b]; cbn [lex_cmp]; try done.
  destruct (Z.compare_spec x y) as [->|Hlt|Hlt]; [rewrite IH; split; [by intros ->|by intros [= ->]]| |];
    (split; [done|intros [= -> _]; lia]).
Qed.

Lemma lex_cmp_antisym a b : lex_cmp b a = CompOpp (lex_cmp a b).
Proof.
  revert b. induction a as [|x a IH]; intros [|y b]; cbn [lex_cmp]; try done.
  rewrite Z.compare_antisym. destruct (x ?= y)%Z; [apply IH|done|done].
Qed.

Lemma lex_cmp_trans a b c : lex_cmp a b = Lt -> lex_cmp b c = Lt -> lex_cmp a c = Lt.
Proof.
  revert b c. induction a as [|x a IH]; intros [|y b] [|z c]; cbn [lex_cmp]; try done.
  destruct (Z.compare_spec x y) as [->|Hxy|], (Z.compare_spec y z) as [->|Hyz|]; try done; intros H1 H2.
  - by eapply IH.
  - by rewrite (proj2 (Z.compare_lt_iff x z)) by lia.
  - by rewrite (proj2 (Z.compare_lt_iff x z)) by lia.
Qed.

Section SortLemmas.
Context {A : Type} `{EqDecision A} (key : A -> list Z).

Notation before := (fun x y => lex_cmp (key x) (key y) = Lt).

Lemma insert_sorted_elem x l y : y ∈ insert_sorted key x l <-> y = x \/ y ∈ l.
Proof.
  induction l as [|z l IH]; cbn [insert_sorted]; [rewrite list_elem_of_singleton; set_solver|].
  destruct (lex_cmp (key x) (key z)); rewrite !elem_of_cons, ?IH; tauto.
Qed.

Lemma sort_unstable_elem l y : y ∈ sort_unstable key l <-> y ∈ l.
Proof. induction l as [|x l IH]; [done|]. cbn [sort_unstable foldr]. rewrite insert_sorted_elem, elem_of_cons. unfold sort_unstable in IH. tauto. Qed.

Lemma vec_dedup_cons (x y : A) (l : list A) : vec_dedup (x :: y :: l) = if decide (x = y) then vec_dedup (y :: l) else x :: vec_dedup (y :: l).
Proof. reflexivity. Qed.

Lemma vec_dedup_elem (l : list A) (y : A) : y ∈ vec_dedup l <-> y ∈ l.
Proof.
  induction l as [|x l IH]; [done|]. destruct l as [|z l]; [done|]. rewrite vec_dedup_cons.
  destruct (decide (x = z)) as [->|]; [rewrite IH|rewrite elem_of_cons, IH]; rewrite !elem_of_cons; tauto.
Qed.

Lemma sorted_dedup_elem (l : list A) (y : A) : y ∈ sorted_dedup key l <-> y ∈ l.
Proof. unfold sorted_dedup. by rewrite vec_dedup_elem, sort_unstable_elem. Qed.

Lemma vec_dedup_length (l : list A) : (length (vec_dedup l) <= length l)%nat.
Proof.
  induction l as [|x l IH]; [done|]. destruct l as [|z l]; [done|]. rewrite vec_dedup_cons. destruct (decide (x = z)); simpl in *; lia.
Qed.

Lemma sorted_dedup_length (l : list A) : (length (sorted_dedup key l) <= length l)%nat.
Proof.
  unfold sorted_dedup. etrans; [apply vec_dedup_length|]. unfold sort_unstable. induction l as [|x l IH]; [done|]. cbn [foldr length].
  assert (forall l, length (insert_sorted key x l) = S (length l)) as H.
  { induction l0 as [|y l0 IHl]; [done|]. cbn [insert_sorted]. destruct (lex_cmp (key x) (key y)); cbn [length]; by rewrite ?IHl. }
  rewrite H. lia.
Qed.

Context (Hinj : Inj eq eq key).

Lemma insert_sorted_le x l :
  StronglySorted (fun x y => x = y \/ before x y) l -> StronglySorted (fun x y => x = y \/ before x y) (insert_sorted key x l).
Proof.
  induction 1 as [|y l Hl IH Hy]; cbn [insert_sorted]; [repeat constructor|].
  destruct (lex_cmp (key x) (key y)) eqn:E.
  - apply lex_cmp_eq, Hinj in E as ->. constructor; [by constructor|]. constructor; [by left|done].
  - constructor; [by constructor|]. constructor; [by right|]. eapply Forall_impl; [exact Hy|].
    intros z [<-|Hz]; right; [done|by eapply lex_cmp_trans].
  - assert (before y x) as Hyx by (rewrite lex_cmp_antisym, E; done).
    constructor; [done|]. apply Forall_forall. intros z [->|Hz]%insert_sorted_elem; [by right|]. by rewrite Forall_forall in Hy; apply Hy.
Qed.

Lemma sorted_dedup_sorted l : StronglySorted before (sorted_dedup key l).
Proof.
  unfold sorted_dedup, sort_unstable. assert (StronglySorted (fun x y => x = y \/ before x y) (foldr (insert_sorted key) [] l)) as Hs
    by (induction l; cbn [foldr]; [constructor|by apply insert_sorted_le]).
  induction Hs as [|x l' Hs IH Hx]; [constructor|]. destruct l' as [|y l']; [repeat constructor|]. rewrite vec_dedup_cons.
  destruct (decide (x = y)) as [->|Hne]; [done|]. constructor; [done|].
  apply Forall_forall. intros z Hz. rewrite vec_dedup_elem in Hz. inversion Hs as [|? ? _ Hy]; subst. rewrite Forall_forall in Hx, Hy.
  assert (before x y) as Hxy by (destruct (Hx y ltac:(by left)); [done|done]).
  apply elem_of_cons in Hz as [->|Hz]; [exact Hxy|]. destruct (Hy z Hz) as [<-|Hyz]; [exact Hxy|exact (lex_cmp_trans _ _ _ Hxy Hyz)].
Qed.
End SortLemmas.

#[local] Instance multiset_order_inj : Inj eq eq multiset_order.
Proof. intros [c t] [c' t'] H. apply app_inj_tail in H as [H1 H2]. simpl in *. congruence. Qed.

(** ** Keys of multisets *)

(** While nothing saturates, a key is the multiset it counts. *)
Lemma from_pieces_perm l l' : l ≡ₚ l' -> PieceMultisetKey_from_pieces l = PieceMultisetKey_from_pieces l'.
Proof.
  intros Hp. destruct (from_pieces_spec l) as (Hl & Ht & Hc). destruct (from_pieces_spec l') as (Hl' & Ht' & Hc').
  destruct (PieceMultisetKey_from_pieces l) as [c t], (PieceMultisetKey_from_pieces l') as [c' t']. simpl in *. f_equal.
  - apply counts_ext; [done|done|]. intros p. specialize (Hc p). specialize (Hc' p). unfold count in *. simpl in *.
    rewrite Hc, Hc', (count_of_perm _ _ p Hp). done.
  - by rewrite Ht, Ht', Hp.
Qed.

Lemma from_pieces_snoc l p : PieceMultisetKey_push (PieceMultisetKey_from_pieces l) p = PieceMultisetKey_from_pieces (l ++ [p]).
Proof. unfold PieceMultisetKey_from_pieces. by rewrite foldl_app. Qed.

Lemma count_of_le_length l p : (count_of l p <= length l)%nat.
Proof. unfold count_of. apply length_filter. Qed.

Lemma from_pieces_remove l p rest :
  l ≡ₚ p :: rest -> (length l <= 255)%nat ->
  PieceMultisetKey_remove (PieceMultisetKey_from_pieces l) p = (PieceMultisetKey_from_pieces rest, true).
Proof.
  intros Hp Hlen. pose proof (Permutation_length Hp) as Hpl. simpl in Hpl.
  destruct (from_pieces_spec l) as (Hl & Ht & Hc). destruct (from_pieces_spec rest) as (Hl' & Ht' & Hc').
  unfold PieceMultisetKey_remove. pose proof (Hc p) as Hcp. pose proof (count_of_perm _ _ p Hp) as Hq. rewrite count_of_cons, bool_decide_eq_true_2 in Hq by done.
  pose proof (count_of_le_length l p). destruct (Z.eqb_spec (count (PieceMultisetKey_from_pieces l) p) 0) as [He|He]; [lia|]. f_equal.
  destruct (PieceMultisetKey_from_pieces rest) as [c' t'] eqn:Er. cbn [counts total_count] in *. f_equal.
  - apply counts_ext; [by rewrite length_insert|done|]. intros q. rewrite count_at_insert by done.
    pose proof (Hc q) as Hcq. pose proof (Hc' q) as Hcq'. pose proof (count_of_perm _ _ q Hp) as Hqq. rewrite count_of_cons in Hqq.
    pose proof (count_of_le_length l q). unfold count in *. cbn [counts] in *. case_bool_decide as Hqp; [subst q|]; lia.
  - rewrite Ht, Ht'. lia.
Qed.

(** The hold options are the ways to take one piece out. *)
Definition hold_mask (ps : list PieceKind) : Z := foldl (fun m p => Z.lor m (hold_bit p)) 0%Z ps.

Lemma hold_mask_foldl m ps : foldl (fun m p => Z.lor m (hold_bit p)) m ps = Z.lor m (hold_mask ps).
Proof.
  unfold hold_mask. revert m. induction ps as [|p ps IH]; intros m; cbn [foldl]; [by rewrite Z.lor_0_r|].
  rewrite (IH (Z.lor m _)), (IH (Z.lor 0 _)). by rewrite Z.lor_0_l, Z.lor_assoc.
Qed.

Lemma hold_bit_testbit p i : Z.testbit (hold_bit p) i = bool_decide (i = Z.of_nat (piece_index p)).
Proof.
  assert (hold_bit p = 2 ^ Z.of_nat (piece_index p))%Z as -> by by destruct p.
  destruct (decide (i < 0)%Z) as [Hn|Hn]; [rewrite Z.testbit_neg_r by lia; symmetry; apply bool_decide_eq_false_2; lia|].
  rewrite Z.pow2_bits_eqb by lia. destruct (Z.eqb_spec (Z.of_nat (piece_index p)) i); symmetry; [by apply bool_decide_eq_true_2|].
  apply bool_decide_eq_false_2. congruence.
Qed.

Lemma hold_mask_testbit ps p : Z.testbit (hold_mask ps) (Z.of_nat (piece_index p)) = bool_decide (p ∈ ps).
Proof.
  induction ps as [|q ps IH]; [rewrite bool_decide_eq_false_2 by apply not_elem_of_nil; apply Z.testbit_0_l|].
  unfold hold_mask. cbn [foldl]. rewrite hold_mask_foldl, Z.lor_spec, IH, Z.lor_0_l, hold_bit_testbit.
  destruct (bool_decide (p ∈ ps)) eqn:E; bool_prop.
  - rewrite orb_true_r. symmetry. apply bool_decide_eq_true_2. by right.
  - rewrite orb_false_r. apply bool_decide_ext. rewrite elem_of_cons. split; [intros ->%Nat2Z.inj%piece_index_inj; by left|].
    by intros [->|].
Qed.

Lemma mask_land_bit m p : (Z.land m (hold_bit p) =? 0)%Z = negb (Z.testbit m (Z.of_nat (piece_index p))).
Proof.
  apply eq_true_iff_eq. rewrite Z.eqb_eq, negb_true_iff. split.
  - intros H. apply (f_equal (fun z => Z.testbit z (Z.of_nat (piece_index p)))) in H.
    rewrite Z.land_spec, hold_bit_testbit, bool_decide_eq_true_2, andb_true_r, Z.bits_0 in H by done. done.
  - intros H. apply Z.bits_inj. intros i. rewrite Z.land_spec, hold_bit_testbit, Z.bits_0.
    case_bool_decide as E; [rewrite E, H; done|by rewrite andb_false_r].
Qed.

Lemma record_options_elem l hold drawn k :
  l ≡ₚ option_list hold ++ drawn -> (length l <= 255)%nat ->
  k ∈ record_final_hold_options (PieceMultisetKey_from_pieces l) hold drawn <->
  exists p rest, l ≡ₚ p :: rest /\ k = PieceMultisetKey_from_pieces rest.
Proof.
  intros Hl Hlen. unfold record_final_hold_options. rewrite list_elem_of_omap.
  assert (foldl (fun m p => Z.lor m (hold_bit p)) (from_option hold_bit 0%Z hold) drawn = hold_mask (option_list hold ++ drawn)) as ->.
  { unfold hold_mask at 1. destruct hold as [h|]; [|done]. cbn. by rewrite Z.lor_0_l. }
  setoid_rewrite mask_land_bit. setoid_rewrite hold_mask_testbit. split.
  - intros (p & _ & H). destruct (bool_decide (p ∈ option_list hold ++ drawn)) eqn:E; bool_prop; [|done]. cbn [negb] in H.
    assert (p ∈ l) as [rest Hp]%elem_of_Permutation by by rewrite Hl. rewrite (from_pieces_remove l p rest) in H by done. injection H as <-.
    by exists p, rest.
  - intros (p & rest & Hp & ->). exists p. split; [apply piece_in_standard|].
    rewrite bool_decide_eq_true_2 by (rewrite <- Hl, Hp; by left). cbn [negb]. by rewrite (from_pieces_remove l p rest).
Qed.

(** ** One queue: runs of the hold automaton *)

Lemma queue_run_app queue s placed s' placed' s'' :
  queue_run queue s placed s' -> queue_run queue s' placed' s'' -> queue_run queue s (placed ++ placed') s''.
Proof. induction 1; intros H2; [done|]. simpl. econstructor; [done..|]. by apply IHqueue_run. Qed.

(** What stays as it was along a run. *)
Lemma queue_run_frame queue s placed s' :
  queue_run queue s placed s' -> hold_ok s ->
  hold_ok s' /\ hold_policy s' = hold_policy s /\ (hold_piece s <> None -> hold_piece s' <> None).
Proof.
  induction 1 as [s|s branch current st placed s' Hq Ht _ IH]; intros Hok; [done|].
  apply transition_Ok in Ht as [[_ He] ->]. destruct s as [src kind c h he pol ep key obs prov]. unfold hold_ok in *. simpl in *.
  destruct branch; simpl in *.
  - destruct IH as (H1 & H2 & H3); [done|]. done.
  - destruct IH as (H1 & H2 & H3); [split; [done|by intros ->; destruct He]|]. split; [done|]. split; [done|]. intros _. by apply H3.
  - destruct IH as (H1 & H2 & H3); [split; [done|by intros ->; destruct He]|]. split; [done|]. split; [done|]. intros _. by apply H3.
Qed.

(** A state of the hold automaton on [queue], whose cursor can reach the end. *)
Definition on_queue (queue : list PieceKind) (s : SupplyExecutionState) : Prop :=
  hold_ok s /\ hold_policy s <> Required /\ (0 <= cursor s)%Z /\ (Z.of_nat (length queue) < 2 ^ 16)%Z.

Lemma on_queue_next queue s c h :
  on_queue queue s -> (0 <= c)%Z -> (hold_policy s = Forbidden -> h = None) -> on_queue queue (set_hold_piece h (set_cursor c s)).
Proof. intros (Hok & Hp & _ & Hl) Hc Hh. split; [split; [done|exact Hh]|]. split; [done|]. split; [done|done]. Qed.

Lemma drop_cons_cursor {A} (queue : list A) c x l :
  (0 <= c)%Z -> drop (Z.to_nat c) queue = x :: l ->
  queue !! Z.to_nat c = Some x /\ drop (Z.to_nat (c + 1)) queue = l /\ (c + 1 <= Z.of_nat (length queue))%Z.
Proof.
  intros Hc Hd. assert (queue !! Z.to_nat c = Some x) as Hx by (rewrite <- (Nat.add_0_r (Z.to_nat c)), <- lookup_drop, Hd; done).
  split; [done|]. pose proof (lookup_lt_Some _ _ _ Hx). split; [|lia]. replace (Z.to_nat (c + 1)) with (Z.to_nat c + 1)%nat by lia.
  by rewrite <- drop_drop, Hd.
Qed.

(** Placing the current piece, over and over. *)
Lemma run_current queue s l rest :
  on_queue queue s -> drop (Z.to_nat (cursor s)) queue = l ++ rest ->
  exists s', queue_run queue s l s' /\ on_queue queue s' /\ hold_piece s' = hold_piece s /\ hold_policy s' = hold_policy s /\
    drop (Z.to_nat (cursor s')) queue = rest.
Proof.
  revert s. induction l as [|x l IH]; intros s Hs Hd; [exists s; split; [constructor|done]|].
  pose proof Hs as (Hok & Hp & Hc & Hlen). destruct (drop_cons_cursor _ _ _ _ Hc Hd) as (Hx & Hd' & Hle).
  assert (on_queue queue (set_cursor (cursor s + 1) s)) as Hn by (split; [done|]; split; [done|]; split; [simpl; lia|done]).
  destruct (IH _ Hn Hd') as (s' & Hrun & Hs' & Hh & Hpp & Hdd). exists s'. split; [|done].
  apply (queue_run_step _ s BranchCurrent x (step s (set_cursor (cursor s + 1) s) x x None 1 BranchCurrent)); [done| |done].
  apply transition_Ok. split; [|done]. split; [done|]. split; [done|lia].
Qed.

Lemma run_swap queue s h x rest :
  on_queue queue s -> hold_piece s = Some h -> drop (Z.to_nat (cursor s)) queue = x :: rest ->
  exists s', queue_run queue s [h] s' /\ on_queue queue s' /\ drop (Z.to_nat (cursor s')) queue = rest.
Proof.
  intros Hs Hh Hd. pose proof Hs as ([He Hf] & Hp & Hc & Hlen). destruct (drop_cons_cursor _ _ _ _ Hc Hd) as (Hx & Hd' & Hle).
  assert (hold_policy s <> Forbidden) as Hpf by (intros E; rewrite (Hf E) in Hh; done).
  set (s' := set_hold_piece (Some x) (set_cursor (cursor s + 1) s)). exists s'. split; [|split; [|done]].
  - apply (queue_run_step _ s BranchSwapHeld x (step s s' h x None 1 BranchSwapHeld)); [done| |constructor].
    apply transition_Ok. rewrite Hh. split; [|done]. split; [done|]. split; [done|]. split; [by rewrite Hh|lia].
  - apply on_queue_next; [done|lia|done].
Qed.

Lemma run_store queue s x y rest :
  on_queue queue s -> hold_piece s = None -> hold_policy s <> Forbidden -> drop (Z.to_nat (cursor s)) queue = x :: y :: rest ->
  exists s', queue_run queue s [y] s' /\ on_queue queue s' /\ drop (Z.to_nat (cursor s')) queue = rest.
Proof.
  intros Hs Hh Hpf Hd. pose proof Hs as (Hok & Hp & Hc & Hlen). destruct (drop_cons_cursor _ _ _ _ Hc Hd) as (Hx & Hd' & Hle).
  destruct (drop_cons_cursor queue (cursor s + 1) y rest) as (Hy & Hd'' & Hle'); [lia|done|].
  replace (cursor s + 1 + 1)%Z with (cursor s + 2)%Z in * by lia. replace (Z.to_nat (cursor s + 1)) with (S (Z.to_nat (cursor s))) in Hy by lia.
  set (s' := set_hold_piece (Some x) (set_cursor (cursor s + 2) s)). exists s'. split; [|split; [|done]].
  - apply (queue_run_step _ s BranchStoreCurrent x (step s s' y x (Some y) 2 BranchStoreCurrent)); [done| |constructor].
    rewrite Hy. apply transition_Ok. split; [|done]. split; [done|]. split; [done|]. split; [done|]. split; [done|lia].
  - apply on_queue_next; [done|lia|done].
Qed.

(** The multisets the runs of [n] placements produce. *)
Definition placeable (queue : list PieceKind) (s : SupplyExecutionState) (n : nat) (k : PieceMultisetKey) : Prop :=
  exists placed s', queue_run queue s placed s' /\ length placed = n /\ k = PieceMultisetKey_from_pieces placed.

Lemma placeable_run queue s placed s' n : queue_run queue s placed s' -> length placed = n -> placeable queue s n (PieceMultisetKey_from_pieces placed).
Proof. intros. by exists placed, s'. Qed.

(** With a piece held, any one of the pieces seen can be the one left over. *)
Lemma placeable_swap queue s h prefix rest p others :
  on_queue queue s -> hold_piece s = Some h -> drop (Z.to_nat (cursor s)) queue = prefix ++ rest ->
  h :: prefix ≡ₚ p :: others -> placeable queue s (length prefix) (PieceMultisetKey_from_pieces others).
Proof.
  intros Hs Hh Hd Hp. destruct (decide (p = h)) as [->|Hne].
  - apply Permutation_cons_inv in Hp. rewrite <- (from_pieces_perm _ _ Hp).
    destruct (run_current queue s prefix rest Hs Hd) as (s' & Hrun & _). by eapply placeable_run.
  - assert (p ∈ prefix) as (l1 & l2 & ->)%list_elem_of_split.
    { assert (p ∈ h :: prefix) as Hin by (rewrite Hp; by left). by apply elem_of_cons in Hin as [->|]. }
    assert (others ≡ₚ l1 ++ h :: l2) as Ho.
    { apply (Permutation_cons_inv (a := p)). rewrite <- Hp, !Permutation_middle. apply Permutation_swap || (rewrite Permutation_swap; done). }
    rewrite (from_pieces_perm _ _ Ho). rewrite <- app_assoc in Hd. simpl in Hd.
    destruct (run_current queue s l1 _ Hs Hd) as (s1 & Hrun1 & Hs1 & Hh1 & _ & Hd1).
    destruct (run_swap queue s1 h p _ Hs1 ltac:(by rewrite Hh1) Hd1) as (s2 & Hrun2 & Hs2 & Hd2).
    destruct (run_current queue s2 l2 rest Hs2 Hd2) as (s3 & Hrun3 & _).
    eapply placeable_run; [|rewrite !length_app; simpl; done].
    eapply queue_run_app; [exact Hrun1|]. exact (queue_run_app _ _ _ _ _ _ Hrun2 Hrun3).
Qed.

(** With the slot empty, a piece can be stored on the way; the last one seen is
    left over by not holding at all. *)
Lemma placeable_store queue s prefix rest p others :
  on_queue queue s -> hold_piece s = None -> hold_policy s <> Forbidden -> drop (Z.to_nat (cursor s)) queue = prefix ++ rest ->
  prefix ≡ₚ p :: others -> placeable queue s (length prefix - 1) (PieceMultisetKey_from_pieces others).
Proof.
  intros Hs Hh Hpf Hd Hp. assert (p ∈ prefix) as (l1 & l2 & ->)%list_elem_of_split by (rewrite Hp; by left).
  assert (others ≡ₚ l1 ++ l2) as Ho by (apply (Permutation_cons_inv (a := p)); rewrite <- Hp, Permutation_middle; done).
  rewrite (from_pieces_perm _ _ Ho). rewrite <- app_assoc in Hd. simpl in Hd.
  destruct (run_current queue s l1 _ Hs Hd) as (s1 & Hrun1 & Hs1 & Hh1 & Hp1 & Hd1). destruct l2 as [|y l2].
  - rewrite app_nil_r. eapply placeable_run; [exact Hrun1|]. rewrite length_app. simpl. lia.
  - destruct (run_store queue s1 p y (l2 ++ rest) Hs1) as (s2 & Hrun2 & Hs2 & Hd2); [by rewrite Hh1|by rewrite Hp1|done|].
    destruct (run_current queue s2 l2 rest Hs2 Hd2) as (s3 & Hrun3 & _).
    eapply placeable_run; [|rewrite !length_app; simpl; lia].
    eapply queue_run_app; [exact Hrun1|]. exact (queue_run_app _ _ _ _ _ _ Hrun2 Hrun3).
Qed.

Lemma get_prefix_Some {A} (l : list A) n prefix :
  get_prefix l n = Some prefix <-> length prefix = n /\ exists rest, l = prefix ++ rest.
Proof.
  unfold get_prefix. destruct (Nat.leb_spec n (length l)) as [Hle|Hgt].
  - split.
    + intros [= <-]. split; [rewrite length_take; lia|]. exists (drop n l). by rewrite take_drop.
    + intros (<- & rest & ->). by rewrite take_app_length.
  - split; [done|]. intros (<- & rest & ->). rewrite length_app in Hgt. lia.
Qed.

(** The pieces between two cursors of a run. *)
Lemma segment_prefix queue c c' :
  (0 <= c <= c')%Z -> (c' <= Z.of_nat (length queue))%Z -> get_prefix (drop (Z.to_nat c) queue) (Z.to_nat (c' - c)) = Some (segment queue c c').
Proof. intros H1 H2. unfold get_prefix, segment. rewrite length_drop. destruct (Nat.leb_spec (Z.to_nat (c' - c)) (length queue - Z.to_nat c)); [done|lia]. Qed.

Section OneQueue.
Context (queue : list PieceKind) (n : nat) (s : SupplyExecutionState).
Context (Hok : hold_ok s) (Hc : (0 <= cursor s <= Z.of_nat (length queue))%Z) (Hlen : (Z.of_nat (length queue) < 2 ^ 16)%Z) (Hn : (n < 255)%nat).

Notation available := (drop (Z.to_nat (cursor s)) queue).

(** The balance of a run, in terms of the pieces after the start cursor. *)
Lemma run_balance placed s' :
  queue_run queue s placed s' -> length placed = n ->
  exists drawn, get_prefix available (length drawn) = Some drawn /\ placed ++ option_list (hold_piece s') ≡ₚ option_list (hold_piece s) ++ drawn.
Proof.
  intros Hrun Hl. destruct (queue_run_balance queue s s' placed Hrun Hc) as [Hp Hcc]. exists (segment queue (cursor s) (cursor s')).
  split; [|done]. pose proof (segment_prefix queue (cursor s) (cursor s') ltac:(lia) ltac:(lia)) as Hs.
  pose proof (proj1 (get_prefix_Some _ _ _) Hs) as [-> _]. exact Hs.
Qed.

Lemma reachable_occupied h k :
  hold_policy s = Allowed -> hold_piece s = Some h ->
  k ∈ reachable_multisets queue n s true <-> placeable queue s n k.
Proof.
  intros Hp Hh. unfold reachable_multisets. destruct (Nat.ltb_spec (length queue) (Z.to_nat (cursor s))); [lia|]. cbn [negb]. rewrite Hh.
  assert (on_queue queue s) as Hs by (split; [done|]; split; [by rewrite Hp|]; split; [lia|done]). split.
  - destruct (get_prefix available n) as [prefix|] eqn:Hg; [|by intros ?%not_elem_of_nil]. rewrite sorted_dedup_elem, from_pieces_snoc.
    apply get_prefix_Some in Hg as (Hl & rest & Hd).
    rewrite (record_options_elem (prefix ++ [h]) (Some h) prefix); [|by rewrite Permutation_app_comm|rewrite length_app; simpl; lia].
    intros (p & others & Hp' & ->). rewrite <- Hl. apply (placeable_swap queue s h prefix rest p others Hs Hh Hd).
    by rewrite <- Hp', Permutation_app_comm.
  - intros (placed & s' & Hrun & Hl & ->). destruct (run_balance placed s' Hrun Hl) as (drawn & Hg & Hbal).
    destruct (queue_run_frame _ _ _ _ Hrun Hok) as (_ & _ & Hocc). rewrite Hh in Hocc, Hbal.
    destruct (hold_piece s') as [x|]; [|by destruct Hocc]. cbn [option_list] in Hbal.
    pose proof (Permutation_length Hbal) as Hbl. rewrite !length_app in Hbl. simpl in Hbl.
    assert (length drawn = n) as Hdn by lia. rewrite Hdn in Hg. rewrite Hg, sorted_dedup_elem, from_pieces_snoc.
    apply (record_options_elem (drawn ++ [h]) (Some h) drawn); [by rewrite Permutation_app_comm|rewrite length_app; simpl; lia|].
    exists x, placed. split; [|done]. rewrite Permutation_app_comm. simpl in *. by rewrite <- Hbal, Permutation_app_comm.
Qed.

Lemma reachable_empty k :
  hold_policy s = Allowed -> hold_piece s = None ->
  k ∈ reachable_multisets queue n s true <-> placeable queue s n k.
Proof.
  intros Hp Hh. unfold reachable_multisets. destruct (Nat.ltb_spec (length queue) (Z.to_nat (cursor s))); [lia|]. cbn [negb]. rewrite Hh.
  assert (on_queue queue s) as Hs by (split; [done|]; split; [by rewrite Hp|]; split; [lia|done]).
  rewrite sorted_dedup_elem, elem_of_app. split.
  - intros [Hk|Hk].
    + destruct (get_prefix available n) as [prefix|] eqn:Hg; [|by apply not_elem_of_nil in Hk].
      apply list_elem_of_singleton in Hk as ->. apply get_prefix_Some in Hg as (Hl & rest & Hd).
      destruct (run_current queue s prefix rest Hs Hd) as (s' & Hrun & _). by eapply placeable_run.
    + destruct (get_prefix available (n + 1)) as [prefix|] eqn:Hg; [|by apply not_elem_of_nil in Hk].
      apply get_prefix_Some in Hg as (Hl & rest & Hd).
      apply (record_options_elem prefix None prefix) in Hk as (p & others & Hp' & ->); [|done|lia].
      replace n with (length prefix - 1)%nat by lia.
      apply (placeable_store queue s prefix rest p others); [done|done|by rewrite Hp|done|done].
  - intros (placed & s' & Hrun & Hl & ->). destruct (run_balance placed s' Hrun Hl) as (drawn & Hg & Hbal).
    rewrite Hh in Hbal. simpl in Hbal. pose proof (Permutation_length Hbal) as Hbl. rewrite length_app in Hbl.
    destruct (hold_piece s') as [x|]; simpl in Hbl, Hbal.
    + right. replace (length drawn) with (n + 1)%nat in Hg by lia. rewrite Hg.
      apply (record_options_elem drawn None drawn); [done|lia|]. exists x, placed. split; [|done]. by rewrite <- Hbal, Permutation_app_comm.
    + left. replace (length drawn) with n in Hg by lia. rewrite Hg. apply list_elem_of_singleton, from_pieces_perm.
      by rewrite <- Hbal, app_nil_r.
Qed.

Lemma reachable_forbidden k :
  hold_policy s = Forbidden -> k ∈ reachable_multisets queue n s false <-> placeable queue s n k.
Proof.
  intros Hp. unfold reachable_multisets. destruct (Nat.ltb_spec (length queue) (Z.to_nat (cursor s))); [lia|]. cbn [negb].
  assert (on_queue queue s) as Hs by (split; [done|]; split; [by rewrite Hp|]; split; [lia|done]).
  destruct Hok as [_ Hnone]. specialize (Hnone Hp). split.
  - destruct (get_prefix available n) as [prefix|] eqn:Hg; [|by intros ?%not_elem_of_nil]. intros ->%list_elem_of_singleton.
    apply get_prefix_Some in Hg as (Hl & rest & Hd). destruct (run_current queue s prefix rest Hs Hd) as (s' & Hrun & _). by eapply placeable_run.
  - intros (placed & s' & Hrun & Hl & ->). destruct (run_balance placed s' Hrun Hl) as (drawn & Hg & Hbal).
    destruct (queue_run_frame _ _ _ _ Hrun Hok) as ([_ Hf] & Hpp & _). rewrite Hnone, Hf in Hbal by congruence. simpl in Hbal. rewrite app_nil_r in Hbal.
    pose proof (Permutation_length Hbal). replace (length drawn) with n in Hg by lia. rewrite Hg.
    by apply list_elem_of_singleton, from_pieces_perm.
Qed.
End OneQueue.

(** C24: The closed form is the hold automaton: from a valid state on a queue,
    [reachable_multisets] lists, in increasing order and once each, exactly the
    multisets that some run of [n] placements through the one-slot hold
    automaton places, with hold enabled or not and the slot empty or
    occupied. *)
Theorem reachable_multisets_correct (queue : list PieceKind) (n : nat) (s : SupplyExecutionState) (hold_enabled : bool)
    (Hok : hold_ok s) (Hp : hold_policy s = if hold_enabled then Allowed else Forbidden)
    (Hc : (0 <= cursor s <= Z.of_nat (length queue))%Z) (Hlen : (Z.of_nat (length queue) < 2 ^ 16)%Z) (Hn : (n < 255)%nat) :
  StronglySorted (fun a b => lex_cmp (multiset_order a) (multiset_order b) = Lt) (reachable_multisets queue n s hold_enabled) /\
  forall k, k ∈ reachable_multisets queue n s hold_enabled <->
    exists placed s', queue_run queue s placed s' /\ length placed = n /\ k = PieceMultisetKey_from_pieces placed.
Proof.
  split.
  - unfold reachable_multisets. destruct (_ <? _)%nat; [constructor|]. destruct hold_enabled; cbn [negb].
    + destruct (hold_piece s); [|apply (sorted_dedup_sorted multiset_order); apply _].
      destruct (get_prefix _ _); [|constructor]. apply (sorted_dedup_sorted multiset_order); apply _.
    + destruct (get_prefix _ _); repeat constructor.
  - intros k. destruct hold_enabled; [|by apply reachable_forbidden]. destruct (hold_piece s) as [h|] eqn:Hh;
      [by eapply reachable_occupied|by apply reachable_empty].
Qed.

Lemma reachable_multisets_correct_witness :
  let s := SupplyExecutionState_new 1 0 None 0 0 0 in
  length (reachable_multisets [PT; PI; PO] 2 s true) = 3%nat /\
  exists placed s', queue_run [PT; PI; PO] s placed s' /\ length placed = 2%nat /\
    PieceMultisetKey_from_pieces [PI; PO] = PieceMultisetKey_from_pieces placed.
Proof.
  intros s. split; [reflexivity|].
  apply (reachable_multisets_correct [PT; PI; PO] 2 s true); [split; done|reflexivity|simpl; lia|simpl; lia|lia|].
  vm_compute. repeat (first [by left|right]).
Defined.

(** ** A bag source: placements *)






Lemma visit_pieces_length visit pieces : (length (visit_pieces visit pieces).1 <= length pieces)%nat.
Proof.
  induction pieces as [|p pieces IH]; cbn [visit_pieces]; [done|]. destruct (visit p) as [o|]; [|simpl; lia].
  destruct (visit_pieces visit pieces) as [steps r]. destruct o; simpl in *; lia.
Qed.

(** At most eight branches lead to one piece. *)
Lemma matching_steps_length a s desired : (length (for_each_matching_bag_step a s desired).1 <= 8)%nat.
Proof.
  assert (length (visit_hold a s desired).1 <= 7)%nat as Hh.
  { unfold visit_hold. destruct (hold_state s); [simpl; lia|apply visit_pieces_length|].
    case_bool_decide; [apply visit_pieces_length|simpl; lia]. }
  unfold for_each_matching_bag_step. destruct (validate_bag_state a s); [|simpl; lia]. destruct (negb _); [|lia].
  destruct (draw_bag_piece a s desired) as [o|]; [|simpl; lia]. destruct (visit_hold a s desired) as [rest r]. simpl in *.
  destruct o; simpl; lia.
Qed.


Section BagSearch.
Context (pattern : list PieceKind) (full : PieceMultisetKey) (Hbag : SupplyExecutionAutomaton_for_bag pattern = Ok (Some full)).
Context (s0 : SupplyExecutionState) (n : nat) (Hbudget : budget pattern (Z.of_nat n) s0).

Notation automaton := (mkPlacementAutomaton (Some full) s0).











(** ** Memory *)




Section Accounting.
Context (reserve : Z -> Z -> option Z) (frontier_size branch_size key_size : Z).
(** [try_reserve_exact] gives at least the capacity asked for. *)
Context (Hreserve : forall size required capacity, reserve size required = Some capacity -> (required <= capacity)%Z).




End Accounting.
End BagSearch.

(** ** A bag run is a run over a queue the bag can produce *)




















Section Search.
Context (reserve : Z -> Z -> option Z) (frontier_size branch_size key_size : Z) (Hsize : (0 <= frontier_size)%Z).
Context (Hreserve : forall size required capacity, reserve size required = Some capacity -> (required <= capacity)%Z).
Context (pattern : list PieceKind) (full : PieceMultisetKey) (Hbag : SupplyExecutionAutomaton_for_bag pattern = Ok (Some full)).
Context (s0 : SupplyExecutionState) (n : nat) (Hb : budget pattern (Z.of_nat n) s0) (limit : option (Z * Z)).



End Search.

(** ** When an initial state is refused *)










(** ** The reservations suffice *)

Lemma visit_branches_length steps acc : (length (foldl visit_branch acc steps).1 <= length acc.1 + length steps)%nat.
Proof.
  revert acc. induction steps as [|st steps IH]; intros acc; cbn [foldl]; [lia|]. etrans; [apply IH|]. unfold visit_branch.
  destruct (compact_state (next_state st)); cbn [fst length]; [rewrite length_app; simpl|]; lia.
Qed.

Lemma write_branches_length a c desired bs :
  write_matching_branches a c desired = Ok bs -> (Z.of_nat (length bs) <= MAX_MATCHING_BRANCHES_PER_DESIRED_PIECE)%Z.
Proof.
  unfold write_matching_branches. pose proof (matching_steps_length (inner a) (execution_state a c) desired) as Hl.
  destruct (for_each_matching_bag_step _ _ _) as [steps r]. intros H. apply rbind_Ok in H as ([] & _ & H).
  pose proof (visit_branches_length steps ([], None)) as Hv. destruct (foldl visit_branch ([], None) steps) as [bs' err]. cbn [fst length Nat.add] in Hl, Hv.
  destruct err; [done|]. apply Ok_inj in H as <-. pose proof (sorted_dedup_length branch_order bs'). unfold MAX_MATCHING_BRANCHES_PER_DESIRED_PIECE. lia.
Qed.

Lemma expand_pieces_length a f pieces next next' :
  expand_pieces a f pieces next = Ok next' ->
  (Z.of_nat (length next') <= Z.of_nat (length next) + Z.of_nat (length pieces) * MAX_MATCHING_BRANCHES_PER_DESIRED_PIECE)%Z.
Proof.
  unfold MAX_MATCHING_BRANCHES_PER_DESIRED_PIECE.
  revert next. induction pieces as [|p pieces IH]; intros next H; cbn [expand_pieces] in H; [injection H as <-; simpl; lia|].
  apply rbind_Ok in H as (bs & Hbs%write_branches_length & H%IH). unfold MAX_MATCHING_BRANCHES_PER_DESIRED_PIECE in Hbs. rewrite length_app, length_fmap in H. cbn [length]. lia.
Qed.

(** The buffers of the search never grow past what was reserved and
    charged for them: a state of the frontier has at most eight branches to a
    piece, which fit the branch buffer, and the children pushed while a
    frontier is expanded fit the capacity reserved for the next one. *)
Theorem search_fits_reservation (a : BagPlacementAutomaton) :
  (forall c desired bs, write_matching_branches a c desired = Ok bs -> (Z.of_nat (length bs) <= BAG_BRANCH_BUFFER_CAPACITY)%Z) /\
  forall current next, expand_frontier a current [] = Ok next ->
    (Z.of_nat (length next) <= Z.of_nat (length current) * 7 * MAX_MATCHING_BRANCHES_PER_DESIRED_PIECE)%Z.
Proof.
  split.
  - intros c desired bs H%write_branches_length. unfold BAG_BRANCH_BUFFER_CAPACITY, MAX_MATCHING_BRANCHES_PER_DESIRED_PIECE in *. lia.
  - intros current next. assert (forall acc, expand_frontier a current acc = Ok next ->
      (Z.of_nat (length next) <= Z.of_nat (length acc) + Z.of_nat (length current) * 7 * MAX_MATCHING_BRANCHES_PER_DESIRED_PIECE)%Z) as Hgen;
      [|intros H; specialize (Hgen [] H); cbn [length] in Hgen; lia].
    unfold MAX_MATCHING_BRANCHES_PER_DESIRED_PIECE.
    induction current as [|f current IH]; intros acc H; cbn [expand_frontier] in H; [injection H as <-; simpl; lia|].
    apply rbind_Ok in H as (acc' & Hp%expand_pieces_length & H%IH). change (Z.of_nat (length STANDARD_TETROMINOES)) with 7%Z in Hp.
    unfold MAX_MATCHING_BRANCHES_PER_DESIRED_PIECE in Hp. cbn [length]. lia.
Qed.
