(* ===== verification/CtkBigNat.v ===== *)
(** * Big naturals and combination ranks of the CTK3 codec

    [clearra-ctk3/src/big_nat.rs]: naturals as little-endian lists of 32-bit
    limbs, and the combinatorial number system on top of them, which numbers
    the sets of [k] positions below [n] from zero to [binom n k - 1].

    [bn_val] is the natural a limb list stands for; [bn_ok] is the
    representation invariant (limbs in range, no leading zero limb), under
    which comparison by limbs is comparison of values. *)

From Stdlib Require Import ZArith Lia Sorted.
From stdpp Require Import prelude.
From S2P Require Import Prelude Words.

Local Open Scope Z_scope.

(** [u32::leading_zeros]. *)
Definition leading_zeros (w x : Z) : Z := if x =? 0 then w else w - 1 - Z.log2 x.

Record BigNat := mkBigNat { limbs : list Z }.

#[export] Instance BigNat_eq_dec : EqDecision BigNat.
Proof. solve_decision. Defined.

Definition bn_zero : BigNat := mkBigNat [].
Definition bn_one : BigNat := mkBigNat [1].

Definition is_zero (a : BigNat) : bool := bool_decide (limbs a = []).

Definition bit_len (a : BigNat) : Z :=
  match last (limbs a) with
  | None => 0
  | Some top => (Z.of_nat (length (limbs a)) - 1) * 32 + (32 - leading_zeros 32 top)
  end.

Definition bit (a : BigNat) (index : nat) : bool :=
  match limbs a !! (index / 32)%nat with
  | Some limb => negb (Z.land limb (shl 32 1 (Z.of_nat (index mod 32))) =? 0)
  | None => false
  end.

(** [Vec::resize]. *)
Definition resize {A} (n : nat) (x : A) (l : list A) : list A := take n l ++ replicate (n - length l) x.

Definition set_bit (a : BigNat) (index : nat) : BigNat :=
  let limb := (index / 32)%nat in
  let ls := if (length (limbs a) <=? limb)%nat then resize (limb + 1) 0 (limbs a) else limbs a in
  mkBigNat (alter (fun l => Z.lor l (shl 32 1 (Z.of_nat (index mod 32)))) limb ls).

(** The loop of [add_assign]; [other] is read from the same index, zero past
    its end. *)
Fixpoint add_limbs (self other : list Z) (carry : Z) : list Z :=
  match self with
  | [] => if carry =? 0 then [] else [wrap 32 carry]
  | l :: self =>
      let value := l + default 0 (head other) + carry in
      wrap 32 value :: add_limbs self (tail other) (Z.shiftr value 32)
  end.

Definition add_assign (a b : BigNat) : BigNat :=
  let self := if (length (limbs a) <? length (limbs b))%nat then resize (length (limbs b)) 0 (limbs a) else limbs a in
  mkBigNat (add_limbs self (limbs b) 0).

(** [Iterator::cmp] on the limbs from the most significant one. *)
Fixpoint compare_limbs (a b : list Z) : comparison :=
  match a, b with
  | [], [] => Eq
  | [], _ :: _ => Lt
  | _ :: _, [] => Gt
  | x :: a, y :: b => match Z.compare x y with Eq => compare_limbs a b | c => c end
  end.

Definition bn_cmp (a b : BigNat) : comparison :=
  match Nat.compare (length (limbs a)) (length (limbs b)) with
  | Eq => compare_limbs (rev (limbs a)) (rev (limbs b))
  | c => c
  end.

Definition bn_leb (a b : BigNat) : bool := match bn_cmp a b with Gt => false | _ => true end.
Definition bn_ltb (a b : BigNat) : bool := match bn_cmp a b with Lt => true | _ => false end.

(** [while limbs.last() == Some(&0) { limbs.pop() }]. *)
Fixpoint normalize (ls : list Z) : list Z :=
  match ls with
  | [] => []
  | l :: ls =>
      match normalize ls with
      | [] => if l =? 0 then [] else [l]
      | ls' => l :: ls'
      end
  end.

Fixpoint sub_limbs (self other : list Z) (borrow : Z) : list Z :=
  match self with
  | [] => []
  | lhs :: self =>
      let rhs := default 0 (head other) + borrow in
      if rhs <=? lhs then wrap 32 (lhs - rhs) :: sub_limbs self (tail other) 0
      else wrap 32 (2 ^ 32 + lhs - rhs) :: sub_limbs self (tail other) 1
  end.

(** [checked_sub_assign]: [None] where it returns [false]. *)
Definition checked_sub_assign (a b : BigNat) : option BigNat :=
  match bn_cmp a b with
  | Lt => None
  | _ => Some (mkBigNat (normalize (sub_limbs (limbs a) (limbs b) 0)))
  end.

Fixpoint mul_limbs (ls : list Z) (factor carry : Z) : list Z :=
  match ls with
  | [] => if carry =? 0 then [] else [wrap 32 carry]
  | l :: ls =>
      let value := l * factor + carry in
      wrap 32 value :: mul_limbs ls factor (Z.shiftr value 32)
  end.

Definition mul_u32_assign (a : BigNat) (factor : Z) : BigNat :=
  if (factor =? 0) || is_zero a then mkBigNat [] else mkBigNat (mul_limbs (limbs a) factor 0).

(** The loop of [div_u32_assign] over the limbs from the top: quotient limbs
    and remainder. *)
Fixpoint div_limbs (ls : list Z) (divisor : Z) : list Z * Z :=
  match ls with
  | [] => ([], 0)
  | l :: ls =>
      let '(quotient, remainder) := div_limbs ls divisor in
      let value := Z.lor (Z.shiftl remainder 32) l in
      (wrap 32 (value / divisor) :: quotient, value mod divisor)
  end.

Definition div_u32_assign (a : BigNat) (divisor : Z) : BigNat * Z :=
  let '(quotient, remainder) := div_limbs (limbs a) divisor in
  (mkBigNat (normalize quotient), wrap 32 remainder).

Definition subtract_one (a : BigNat) : BigNat := default a (checked_sub_assign a bn_one).

(** ** Combinations *)

(** The turns [index, index + 1, ..] of the loop of [combination_count]. *)
Fixpoint combination_loop (base : nat) (index turns : nat) (value : BigNat) : BigNat :=
  match turns with
  | O => value
  | S turns =>
      let value := mul_u32_assign value (wrap 32 (Z.of_nat (base + index))) in
      let '(value, _) := div_u32_assign value (wrap 32 (Z.of_nat index)) in
      combination_loop base (index + 1) turns value
  end.

Definition combination_count (total selected : nat) : BigNat :=
  if (total <? selected)%nat then bn_zero
  else
    let count := Nat.min selected (total - selected) in
    combination_loop (total - count) 1 count bn_one.

Fixpoint combination_rank_from (index : nat) (positions : list nat) (rank : BigNat) : BigNat :=
  match positions with
  | [] => rank
  | position :: positions =>
      combination_rank_from (index + 1) positions (add_assign rank (combination_count position (index + 1)))
  end.

Definition combination_rank (positions : list nat) : BigNat := combination_rank_from 0 positions bn_zero.

(** The binary search for the last position with [combination_count <= rank];
    [None] when the fuel runs out. *)
Fixpoint search_position (fuel : nat) (index : nat) (rank : BigNat) (low high position : nat) : option nat :=
  match fuel with
  | O => None
  | S fuel =>
      if (low <=? high)%nat then
        let candidate := (low + (high - low) / 2)%nat in
        if bn_leb (combination_count candidate index) rank
        then search_position fuel index rank (candidate + 1) high candidate
        else if (candidate =? 0)%nat then Some position
        else search_position fuel index rank low (candidate - 1) position
      else Some position
  end.

(** The loop over [index = selected, .., 1]; [positions] holds the entries
    already assigned, from [index] on. *)
Fixpoint unrank_from (index upper : nat) (rank : BigNat) (positions : list nat) : option (list nat) :=
  match index with
  | O => if is_zero rank then Some positions else None
  | S below =>
      position ← search_position (upper + 2) index rank below upper below;
      rank ← checked_sub_assign rank (combination_count position index);
      match below with
      | O => unrank_from below upper rank (position :: positions)
      | S _ =>
          if (position =? 0)%nat then None
          else unrank_from below (position - 1) rank (position :: positions)
      end
  end.

Definition combination_unrank (total selected : nat) (source_rank : BigNat) : option (list nat) :=
  if (total <? selected)%nat then None
  else if (selected =? 0)%nat then (if is_zero source_rank then Some [] else None)
  else if (total =? 0)%nat then None
  else unrank_from selected (total - 1) source_rank [].

(** ** Values *)

Fixpoint bn_val_limbs (ls : list Z) : Z :=
  match ls with
  | [] => 0
  | l :: ls => l + 2 ^ 32 * bn_val_limbs ls
  end.

Definition bn_val (a : BigNat) : Z := bn_val_limbs (limbs a).

Definition limbs_ok (ls : list Z) : Prop := Forall (in_width 32) ls.

(** No leading zero limb. *)
Definition canonical (ls : list Z) : Prop := ls = [] \/ 2 ^ (32 * (Z.of_nat (length ls) - 1)) <= bn_val_limbs ls.

Definition bn_ok (a : BigNat) : Prop := limbs_ok (limbs a) /\ canonical (limbs a).

(** Binomial coefficients by Pascal's rule. *)
Fixpoint binom (n k : nat) : Z :=
  match k, n with
  | O, _ => 1
  | S _, O => 0
  | S k', S n' => binom n' k' + binom n' k
  end.

#[global] Arguments Z.pow : simpl never.
#[global] Arguments Z.mul : simpl never.
#[global] Arguments Z.shiftr : simpl never.

Lemma wrap_split v : v = wrap 32 v + 2 ^ 32 * Z.shiftr v 32.
Proof. unfold wrap. rewrite Z.shiftr_div_pow2 by lia. pose proof (Z.div_mod v (2 ^ 32) ltac:(lia)). lia. Qed.

Lemma wrap_in_width w v : 0 <= w -> in_width w (wrap w v).
Proof. intros. apply Z.mod_pos_bound. by apply Z.pow_pos_nonneg. Qed.
#[export] Hint Resolve wrap_in_width : widths.

Lemma pow32_S (n : nat) : 2 ^ (32 * Z.of_nat (S n)) = 2 ^ 32 * 2 ^ (32 * Z.of_nat n).
Proof. rewrite <- Z.pow_add_r by lia. f_equal. lia. Qed.

Lemma bn_val_bounds ls : limbs_ok ls -> 0 <= bn_val_limbs ls < 2 ^ (32 * Z.of_nat (length ls)).
Proof.
  induction 1 as [|l ls [Hl1 Hl2] _ IH]; [simpl; lia|].
  cbn [bn_val_limbs length]. rewrite pow32_S. nia.
Qed.

Lemma canonical_cons l ls : limbs_ok (l :: ls) -> canonical (l :: ls) <-> (ls = [] /\ l <> 0) \/ (ls <> [] /\ canonical ls).
Proof.
  intros [[Hl1 Hl2] Hls]%Forall_cons. unfold canonical. destruct ls as [|l' ls]; cbn [bn_val_limbs length].
  { replace (32 * (Z.of_nat 1 - 1)) with 0 by lia. change (2 ^ 0) with 1. naive_solver lia. }
  set (n := length ls). replace (32 * (Z.of_nat (S (S n)) - 1)) with (32 * Z.of_nat (S n)) by lia.
  replace (32 * (Z.of_nat (S n) - 1)) with (32 * Z.of_nat n) by lia. rewrite pow32_S.
  pose proof (Z.pow_pos_nonneg 2 (32 * Z.of_nat n) ltac:(lia) ltac:(lia)).
  set (v := l' + 2 ^ 32 * bn_val_limbs ls) in *. set (P := 2 ^ (32 * Z.of_nat n)) in *.
  assert (2 ^ 32 * P <= l + 2 ^ 32 * v <-> P <= v) as Hiff by (split; intros; nia).
  split; [intros [?|H']; [done|right; split; [done|right; by apply Hiff]]|].
  intros [[? _]|[_ [?|H']]]; [done|done|]. right. by apply Hiff.
Qed.

Lemma canonical_last ls : limbs_ok ls -> canonical ls <-> last ls <> Some 0.
Proof.
  induction ls as [|l ls IH]; intros Hok; [split; [done|by left]|].
  rewrite canonical_cons by done. apply Forall_cons in Hok as [Hl Hls]. destruct ls as [|l' ls].
  - simpl. naive_solver.
  - rewrite IH by done. change (last (l :: l' :: ls)) with (last (l' :: ls)). naive_solver.
Qed.

(** Canonical lists with the same value are equal. *)
Lemma canonical_length a b :
  limbs_ok a -> limbs_ok b -> canonical a -> canonical b -> bn_val_limbs a <= bn_val_limbs b -> (length a <= length b)%nat.
Proof.
  intros Ha Hb [->|Ca] Cb Hv; [simpl; lia|]. apply bn_val_bounds in Hb.
  destruct (Nat.le_gt_cases (length a) (length b)) as [|Hgt]; [done|]. exfalso.
  assert (2 ^ (32 * Z.of_nat (length b)) <= 2 ^ (32 * (Z.of_nat (length a) - 1))) by (apply Z.pow_le_mono_r; lia). lia.
Qed.

Lemma canonical_unique a b :
  limbs_ok a -> limbs_ok b -> canonical a -> canonical b -> bn_val_limbs a = bn_val_limbs b -> a = b.
Proof.
  intros Ha Hb Ca Cb Hv.
  assert (length a = length b) as Hlen by (apply Nat.le_antisymm; apply canonical_length; auto; lia).
  clear Ca Cb. revert b Hb Hlen Hv. induction Ha as [|x a [Hx1 Hx2] Ha IH]; intros [|y b] Hb Hlen Hv; try done.
  apply Forall_cons in Hb as [[Hy1 Hy2] Hb]. cbn [bn_val_limbs] in Hv.
  apply bn_val_bounds in Ha as Ba. apply bn_val_bounds in Hb as Bb.
  assert (x = y) by nia. subst. f_equal. apply IH; [done|simpl in Hlen; lia|nia].
Qed.

Lemma bn_unique a b : bn_ok a -> bn_ok b -> bn_val a = bn_val b -> a = b.
Proof. destruct a, b. intros [? ?] [? ?] ?. f_equal. by apply canonical_unique. Qed.

Lemma bn_val_nonneg a : bn_ok a -> 0 <= bn_val a.
Proof. intros [H _]. apply (bn_val_bounds _ H). Qed.

Lemma bn_ok_zero : bn_ok bn_zero. Proof. split; [constructor|by left]. Qed.
Lemma bn_ok_one : bn_ok bn_one.
Proof. split; [by repeat constructor|]. right. by vm_compute. Qed.
Lemma bn_val_zero : bn_val bn_zero = 0. Proof. done. Qed.
Lemma bn_val_one : bn_val bn_one = 1. Proof. done. Qed.

Lemma is_zero_spec a : bn_ok a -> is_zero a = bool_decide (bn_val a = 0).
Proof.
  intros Ha. apply bool_decide_ext. split; [intros H; unfold bn_val; by rewrite H|].
  intros H. by rewrite (bn_unique a bn_zero Ha bn_ok_zero H).
Qed.

(** *** Comparison *)

Lemma bn_val_app a b : bn_val_limbs (a ++ b) = bn_val_limbs a + 2 ^ (32 * Z.of_nat (length a)) * bn_val_limbs b.
Proof.
  induction a as [|x a IH]; [cbn [bn_val_limbs length app]; change (2 ^ (32 * Z.of_nat 0)) with 1; lia|].
  cbn [bn_val_limbs app length]. rewrite IH, pow32_S. lia.
Qed.

Lemma compare_limbs_spec a b :
  limbs_ok a -> limbs_ok b -> length a = length b -> compare_limbs (rev a) (rev b) = Z.compare (bn_val_limbs a) (bn_val_limbs b).
Proof.
  revert b. induction a as [|x a IH] using rev_ind; intros b Ha Hb Hlen.
  { by destruct b. }
  destruct b as [|y b _] using rev_ind; [rewrite length_app in Hlen; simpl in Hlen; lia|].
  rewrite !length_app in Hlen. simpl in Hlen. assert (length a = length b) as Hl by lia.
  apply Forall_app in Ha as [Ha [[Hx1 Hx2] _]%Forall_cons]. apply Forall_app in Hb as [Hb [[Hy1 Hy2] _]%Forall_cons].
  rewrite !rev_unit. cbn [compare_limbs]. rewrite IH by done. rewrite !bn_val_app, Hl. cbn [bn_val_limbs].
  apply bn_val_bounds in Ha. apply bn_val_bounds in Hb. rewrite Hl in Ha.
  set (P := 2 ^ (32 * Z.of_nat (length b))) in *.
  destruct (Z.compare_spec x y) as [->|?|?]; [|symmetry; apply Z.compare_lt_iff; nia|symmetry; apply Z.compare_gt_iff; nia].
  destruct (Z.compare_spec (bn_val_limbs a) (bn_val_limbs b)); symmetry;
    [apply Z.compare_eq_iff|apply Z.compare_lt_iff|apply Z.compare_gt_iff]; lia.
Qed.

Lemma bn_cmp_spec a b : bn_ok a -> bn_ok b -> bn_cmp a b = Z.compare (bn_val a) (bn_val b).
Proof.
  intros [Ha Ca] [Hb Cb]. unfold bn_cmp, bn_val. destruct (Nat.compare_spec (length (limbs a)) (length (limbs b))) as [He|Hl|Hg].
  - by apply compare_limbs_spec.
  - symmetry. apply Z.compare_lt_iff. apply Z.nle_gt. intros Hle.
    pose proof (canonical_length _ _ Hb Ha Cb Ca Hle). lia.
  - symmetry. apply Z.compare_gt_iff. apply Z.nle_gt. intros Hle.
    pose proof (canonical_length _ _ Ha Hb Ca Cb Hle). lia.
Qed.

Lemma bn_leb_spec a b : bn_ok a -> bn_ok b -> bn_leb a b = (bn_val a <=? bn_val b).
Proof. intros. unfold bn_leb, Z.leb. by rewrite bn_cmp_spec. Qed.

Lemma bn_ltb_spec a b : bn_ok a -> bn_ok b -> bn_ltb a b = (bn_val a <? bn_val b).
Proof. intros. unfold bn_ltb, Z.ltb. by rewrite bn_cmp_spec. Qed.

(** *** Arithmetic *)

Lemma normalize_spec ls : limbs_ok ls -> limbs_ok (normalize ls) /\ canonical (normalize ls) /\ bn_val_limbs (normalize ls) = bn_val_limbs ls.
Proof.
  induction 1 as [|l ls Hl Hls (IH1 & IH2 & IH3)]; [repeat split; [constructor|by left]|]. cbn [normalize bn_val_limbs].
  destruct (normalize ls) as [|l' ls'] eqn:E.
  - simpl in IH3. rewrite <- IH3. destruct (Z.eqb_spec l 0) as [->|Hne].
    + split; [constructor|]. split; [by left|simpl; lia].
    + assert (limbs_ok [l]) by (constructor; [done|constructor]). split; [done|]. split; [|simpl; lia]. apply canonical_cons; [done|]. by left.
  - assert (limbs_ok (l :: l' :: ls')) by by constructor. split; [done|]. split; [|cbn [bn_val_limbs] in *; lia].
    apply canonical_cons; [done|]. by right.
Qed.

Lemma canonical_of_bound ls n : length ls = n -> n <> 0%nat -> 2 ^ (32 * (Z.of_nat n - 1)) <= bn_val_limbs ls -> canonical ls.
Proof. intros <- _ H. by right. Qed.

Lemma resize_grow {A} n (x : A) l : (length l <= n)%nat -> resize n x l = l ++ replicate (n - length l) x.
Proof. intros. unfold resize. by rewrite take_ge. Qed.

Lemma bn_val_replicate_0 n : bn_val_limbs (replicate n 0) = 0.
Proof. induction n as [|n IH]; [done|]. cbn [replicate bn_val_limbs]. rewrite IH. lia. Qed.

Lemma limbs_ok_pad ls n : limbs_ok ls -> limbs_ok (ls ++ replicate n 0).
Proof. intros. apply Forall_app. split; [done|]. by apply Forall_replicate. Qed.

(** What the loops with a carry do to the length: one limb more only if the
    value needs it. *)
Definition grown (n : nat) (ls : list Z) : Prop :=
  length ls = n \/ (length ls = S n /\ 2 ^ (32 * Z.of_nat n) <= bn_val_limbs ls).

Lemma grown_cons n x ls : 0 <= x -> grown n ls -> grown (S n) (x :: ls).
Proof.
  intros Hx [H|[H1 H2]]; [left; simpl; lia|right]. cbn [length bn_val_limbs]. rewrite pow32_S. split; [lia|nia].
Qed.

Lemma grown_carry carry : in_width 32 carry ->
  let ls := if carry =? 0 then [] else [wrap 32 carry] in limbs_ok ls /\ bn_val_limbs ls = carry /\ grown 0 ls.
Proof.
  intros Hc. destruct (Z.eqb_spec carry 0) as [->|Hne]; cbn zeta.
  - split; [constructor|]. split; [done|by left].
  - rewrite wrap_small by done. split; [constructor; [done|constructor]|]. split; [simpl; lia|]. right. split; [done|].
    change (2 ^ (32 * Z.of_nat 0)) with 1. cbn [bn_val_limbs]. unfold in_width in Hc. lia.
Qed.

Lemma grown_canonical n ls : grown n ls -> (n <> 0%nat -> 2 ^ (32 * (Z.of_nat n - 1)) <= bn_val_limbs ls) -> canonical ls.
Proof.
  intros [H|[H1 H2]] Hb.
  - destruct ls; [by left|]. right. rewrite H. apply Hb. simpl in H. lia.
  - right. rewrite H1. by replace (32 * (Z.of_nat (S n) - 1)) with (32 * Z.of_nat n) by lia.
Qed.

Lemma shiftr_32_width v m : 0 <= m -> 0 <= v < 2 ^ 32 * 2 ^ m -> 0 <= Z.shiftr v 32 < 2 ^ m.
Proof.
  intros Hm Hv. rewrite Z.shiftr_div_pow2 by lia. split; [apply Z.div_pos; lia|]. apply Z.div_lt_upper_bound; lia.
Qed.

Lemma head_tail_limbs ls : limbs_ok ls ->
  limbs_ok (tail ls) /\ in_width 32 (default 0 (head ls)) /\ bn_val_limbs ls = default 0 (head ls) + 2 ^ 32 * bn_val_limbs (tail ls).
Proof. intros [|x ls' Hx Hls]; simpl; [split; [constructor|]; split; [done|lia]|done]. Qed.

Lemma add_limbs_spec self other carry :
  limbs_ok self -> limbs_ok other -> in_width 32 carry -> (length other <= length self)%nat ->
  limbs_ok (add_limbs self other carry) /\
  bn_val_limbs (add_limbs self other carry) = bn_val_limbs self + bn_val_limbs other + carry /\
  grown (length self) (add_limbs self other carry).
Proof.
  intros Hs. revert other carry. induction Hs as [|l self [Hl1 Hl2] Hs IH]; intros other carry Ho Hc Hlen; cbn [add_limbs].
  { destruct other; [|simpl in Hlen; lia]. destruct (grown_carry carry Hc) as (H1 & H2 & H3). split; [done|]. split; [simpl in *; lia|done]. }
  destruct (head_tail_limbs _ Ho) as (Ht & [Hh1 Hh2] & Hv). unfold in_width in Hc.
  set (value := l + default 0 (head other) + carry).
  destruct (IH (tail other) (Z.shiftr value 32) Ht) as (IH1 & IH2 & IH3).
  { apply shiftr_32_width; lia. }
  { destruct other; simpl in *; lia. }
  pose proof (wrap_split value) as Hw. pose proof (wrap_in_width 32 value ltac:(lia)) as Hww.
  split; [by constructor|]. cbn [bn_val_limbs length]. split; [lia|]. apply grown_cons; [apply Hww|done].
Qed.

Lemma add_assign_spec a b : bn_ok a -> bn_ok b -> bn_ok (add_assign a b) /\ bn_val (add_assign a b) = bn_val a + bn_val b.
Proof.
  intros [Ha Ca] [Hb Cb]. unfold add_assign, bn_ok, bn_val. cbn [limbs].
  set (self := if (length (limbs a) <? length (limbs b))%nat then _ else _).
  assert (limbs_ok self /\ bn_val_limbs self = bn_val_limbs (limbs a) /\ length self = Nat.max (length (limbs a)) (length (limbs b))) as (Hs & Hv & Hl).
  { unfold self. destruct (Nat.ltb_spec (length (limbs a)) (length (limbs b))); [|split; [done|]; split; [done|lia]].
    rewrite resize_grow by lia. split; [by apply limbs_ok_pad|]. rewrite bn_val_app, bn_val_replicate_0, length_app, length_replicate. lia. }
  destruct (add_limbs_spec self (limbs b) 0 Hs Hb) as (H1 & H2 & H3); [done|lia|].
  split; [split; [done|]|lia]. eapply grown_canonical; [exact H3|]. intros Hne. rewrite H2, Hl, Hv.
  apply bn_val_bounds in Ha, Hb. destruct (Nat.max_spec (length (limbs a)) (length (limbs b))) as [[? ->]|[? ->]].
  - destruct Cb as [Cb|Cb]; [rewrite Cb in *; simpl in *; lia|]. lia.
  - destruct Ca as [Ca|Ca]; [rewrite Ca in *; simpl in *; lia|]. lia.
Qed.

Lemma sub_limbs_spec self other borrow :
  limbs_ok self -> limbs_ok other -> (borrow = 0 \/ borrow = 1) -> (length other <= length self)%nat ->
  bn_val_limbs other + borrow <= bn_val_limbs self ->
  limbs_ok (sub_limbs self other borrow) /\ bn_val_limbs (sub_limbs self other borrow) = bn_val_limbs self - bn_val_limbs other - borrow.
Proof.
  intros Hs. revert other borrow. induction Hs as [|l self [Hl1 Hl2] Hs IH]; intros other borrow Ho Hb Hlen Hle; cbn [sub_limbs].
  { destruct other; [|simpl in Hlen; lia]. split; [constructor|]. simpl in *. lia. }
  destruct (head_tail_limbs _ Ho) as (Ht & [Hh1 Hh2] & Hv). cbn [bn_val_limbs] in Hle.
  assert (length (tail other) <= length self)%nat by (destruct other; simpl in *; lia).
  destruct (Z.leb_spec (default 0 (head other) + borrow) l) as [Hc|Hc]; rewrite wrap_small by (unfold in_width; lia); cbn [bn_val_limbs].
  - destruct (IH (tail other) 0) as [H1 H2]; [done|by left|done|lia|]. split; [constructor; [unfold in_width; lia|done]|lia].
  - destruct (IH (tail other) 1) as [H1 H2]; [done|by right|done|lia|]. split; [constructor; [unfold in_width; lia|done]|lia].
Qed.

Lemma checked_sub_assign_spec a b : bn_ok a -> bn_ok b ->
  match checked_sub_assign a b with
  | None => bn_val a < bn_val b
  | Some c => bn_ok c /\ bn_val b <= bn_val a /\ bn_val c = bn_val a - bn_val b
  end.
Proof.
  intros Ha Hb. unfold checked_sub_assign. rewrite bn_cmp_spec by done.
  destruct (Z.compare_spec (bn_val a) (bn_val b)) as [Hc|Hc|Hc]; [|done|];
    (destruct Ha as [Ha Ca], Hb as [Hb Cb]; destruct (sub_limbs_spec (limbs a) (limbs b) 0 Ha Hb) as [H1 H2];
      [by left|apply canonical_length; auto; unfold bn_val in *; lia|unfold bn_val in *; lia|]; destruct (normalize_spec _ H1) as (N1 & N2 & N3);
      split; [done|]; unfold bn_val in *; cbn [limbs]; lia).
Qed.

Lemma mul_limbs_spec ls factor carry :
  limbs_ok ls -> in_width 32 factor -> in_width 32 carry ->
  limbs_ok (mul_limbs ls factor carry) /\ bn_val_limbs (mul_limbs ls factor carry) = bn_val_limbs ls * factor + carry /\
  grown (length ls) (mul_limbs ls factor carry).
Proof.
  intros Hs Hf. revert carry. induction Hs as [|l ls [Hl1 Hl2] Hs IH]; intros carry Hc; cbn [mul_limbs].
  { destruct (grown_carry carry Hc) as (H1 & H2 & H3). split; [done|]. split; [simpl in *; lia|done]. }
  unfold in_width in Hf, Hc. set (value := l * factor + carry).
  destruct (IH (Z.shiftr value 32)) as (IH1 & IH2 & IH3).
  { apply shiftr_32_width; [lia|]. split; [nia|]. unfold value. nia. }
  pose proof (wrap_split value) as Hw. pose proof (wrap_in_width 32 value ltac:(lia)) as Hww.
  split; [by constructor|]. cbn [bn_val_limbs length]. split; [unfold value in *; lia|]. apply grown_cons; [apply Hww|done].
Qed.

Lemma mul_u32_assign_spec a factor : bn_ok a -> in_width 32 factor ->
  bn_ok (mul_u32_assign a factor) /\ bn_val (mul_u32_assign a factor) = bn_val a * factor.
Proof.
  intros Ha Hf. unfold mul_u32_assign. rewrite is_zero_spec by done.
  destruct (Z.eqb_spec factor 0) as [->|Hne]; [split; [apply bn_ok_zero|unfold bn_val; simpl; lia]|]. cbn [orb].
  case_bool_decide as Hz; [split; [apply bn_ok_zero|rewrite Hz; unfold bn_val; simpl; lia]|].
  destruct Ha as [Ha Ca]. destruct (mul_limbs_spec (limbs a) factor 0 Ha Hf) as (H1 & H2 & H3); [done|].
  unfold bn_ok, bn_val in *. cbn [limbs]. split; [split; [done|]|lia].
  eapply grown_canonical; [exact H3|]. intros _. rewrite H2. apply bn_val_bounds in Ha. unfold in_width in Hf.
  destruct Ca as [Ca|Ca]; [rewrite Ca in Hz; done|]. nia.
Qed.

Lemma div_limbs_spec ls d : limbs_ok ls -> 0 < d < 2 ^ 32 ->
  limbs_ok (fst (div_limbs ls d)) /\ 0 <= snd (div_limbs ls d) < d /\
  bn_val_limbs ls = d * bn_val_limbs (fst (div_limbs ls d)) + snd (div_limbs ls d).
Proof.
  intros Hs Hd. induction Hs as [|l ls [Hl1 Hl2] Hs (IH1 & IH2 & IH3)]; cbn [div_limbs].
  { simpl. split; [constructor|lia]. }
  destruct (div_limbs ls d) as [q r]. cbn [fst snd] in *. rewrite lor_shiftl_low by (unfold in_width; lia).
  set (v := 2 ^ 32 * r + l). pose proof (Z.div_mod v d ltac:(lia)) as Hdm. pose proof (Z.mod_pos_bound v d ltac:(lia)) as Hm.
  assert (in_width 32 (v / d)) as Hq.
  { split; [apply Z.div_pos; lia|]. apply Z.div_lt_upper_bound; [lia|]. unfold v. nia. }
  rewrite wrap_small by done. split; [by constructor|]. split; [done|]. cbn [bn_val_limbs]. rewrite IH3. unfold v in *. lia.
Qed.

Lemma div_u32_assign_spec a d : bn_ok a -> 0 < d < 2 ^ 32 ->
  bn_ok (fst (div_u32_assign a d)) /\ bn_val (fst (div_u32_assign a d)) = bn_val a / d /\ snd (div_u32_assign a d) = bn_val a mod d.
Proof.
  intros [Ha _] Hd. unfold div_u32_assign, bn_val. destruct (div_limbs_spec (limbs a) d Ha Hd) as (H1 & H2 & H3).
  destruct (div_limbs (limbs a) d) as [q r]. cbn [fst snd limbs] in *.
  destruct (normalize_spec _ H1) as (N1 & N2 & N3). split; [done|]. rewrite N3, wrap_small by (unfold in_width; lia).
  split; [by apply (Z.div_unique_pos _ d _ r)|by apply (Z.mod_unique_pos _ d (bn_val_limbs q))].
Qed.

Lemma subtract_one_spec a : bn_ok a -> 1 <= bn_val a -> bn_ok (subtract_one a) /\ bn_val (subtract_one a) = bn_val a - 1.
Proof.
  intros Ha H. pose proof (checked_sub_assign_spec a bn_one Ha bn_ok_one) as Hs. unfold subtract_one.
  rewrite bn_val_one in Hs. destruct (checked_sub_assign a bn_one); simpl; [naive_solver lia|lia].
Qed.

(** *** Bits *)

Lemma bit_spec ls (i : nat) : limbs_ok ls ->
  match ls !! (i / 32)%nat with Some l => Z.testbit l (Z.of_nat (i mod 32)) | None => false end = Z.testbit (bn_val_limbs ls) (Z.of_nat i).
Proof.
  intros Hok. revert i. induction Hok as [|l ls Hl Hls IH]; intros i; [rewrite lookup_nil; symmetry; apply Z.bits_0|].
  cbn [bn_val_limbs]. rewrite Z.add_comm, <- lor_shiftl_low, Z.lor_spec by (done || lia).
  destruct (Nat.lt_ge_cases i 32) as [Hi|Hi].
  - rewrite Nat.div_small, Nat.mod_small, Z.shiftl_spec_low by lia. done.
  - rewrite Z.shiftl_spec, (in_width_testbit 32 l), orb_false_r by (done || lia).
    assert (i / 32 = S ((i - 32) / 32) /\ i mod 32 = (i - 32) mod 32)%nat as [-> ->].
    { replace i with ((i - 32) + 1 * 32)%nat at 1 3 by lia. rewrite Nat.div_add, Nat.Div0.mod_add by lia. lia. }
    cbn [lookup list_lookup]. rewrite IH. f_equal. lia.
Qed.

Lemma bit_testbit a i : bn_ok a -> bit a i = Z.testbit (bn_val a) (Z.of_nat i).
Proof.
  intros [Ha _]. unfold bit, bn_val. rewrite <- bit_spec by done. destruct (limbs a !! (i / 32)%nat) as [l|]; [|done].
  pose proof (Nat.mod_upper_bound i 32). rewrite land_bit_eqb by lia. apply negb_involutive.
Qed.

Lemma lor_ge_l a b : 0 <= a -> 0 <= b -> a <= Z.lor a b.
Proof.
  intros Ha Hb. apply Z.ldiff_le; [apply Z.lor_nonneg; lia|]. apply Z.bits_inj'. intros i Hi.
  rewrite Z.ldiff_spec, Z.lor_spec, Z.bits_0. by destruct (Z.testbit a i), (Z.testbit b i).
Qed.

Lemma bn_set_bit_spec a i : bn_ok a -> bn_ok (set_bit a i) /\ bn_val (set_bit a i) = Z.lor (bn_val a) (2 ^ Z.of_nat i).
Proof.
  intros [Ha Ca]. unfold set_bit, bn_ok, bn_val. cbn [limbs]. set (n := (i / 32)%nat).
  set (ls := if (length (limbs a) <=? n)%nat then _ else _).
  pose proof (Nat.mod_upper_bound i 32 ltac:(lia)) as Hm. pose proof (Nat.div_mod_eq i 32) as Hdm. fold n in Hdm.
  assert (limbs_ok ls /\ bn_val_limbs ls = bn_val_limbs (limbs a) /\ (n < length ls)%nat /\ length ls = Nat.max (S n) (length (limbs a))) as (Hs & Hv & Hn & Hl).
  { unfold ls. destruct (Nat.leb_spec (length (limbs a)) n); [|split; [done|]; split; [done|lia]].
    rewrite resize_grow by lia. split; [by apply limbs_ok_pad|]. rewrite bn_val_app, bn_val_replicate_0, length_app, length_replicate. lia. }
  set (f := fun l => Z.lor l (shl 32 1 (Z.of_nat (i mod 32)))).
  assert (limbs_ok (alter f n ls)) as Hok.
  { apply Forall_lookup. intros j x. destruct (decide (j = n)) as [->|].
    - rewrite list_lookup_alter_eq. intros (l & Hl' & ->)%fmap_Some. unfold f. apply in_width_lor; [lia|by apply (Forall_lookup_1 _ _ _ _ Hs Hl')|].
      apply in_width_shl; lia.
    - rewrite list_lookup_alter_ne by done. apply (Forall_lookup_1 _ _ _ _ Hs). }
  assert (bn_val_limbs (alter f n ls) = Z.lor (bn_val_limbs (limbs a)) (2 ^ Z.of_nat i)) as Hval.
  { apply Z.bits_inj'. intros j Hj. rewrite <- (Z2Nat.id j) by done. set (j' := Z.to_nat j).
    rewrite <- bit_spec, Z.lor_spec, Z.pow2_bits_eqb, <- Hv, <- bit_spec by (done || lia).
    pose proof (Nat.div_mod_eq j' 32) as Hdm'. pose proof (Nat.mod_upper_bound j' 32 ltac:(lia)) as Hm'.
    destruct (decide (j' / 32 = n)%nat) as [He|He].
    - rewrite He, list_lookup_alter_eq. destruct (lookup_lt_is_Some_2 ls n Hn) as [l ->]. cbn [fmap option_fmap option_map].
      unfold f. rewrite Z.lor_spec, testbit_bit by lia. f_equal. apply eq_true_iff_eq. rewrite !Z.eqb_eq. lia.
    - rewrite list_lookup_alter_ne by done. replace (Z.of_nat i =? Z.of_nat j') with false; [by rewrite orb_false_r|].
      symmetry. apply Z.eqb_neq. intros Hij. apply He. unfold n. f_equal. lia. }
  split; [split; [done|]|done]. right. rewrite length_alter, Hval, Hl.
  pose proof (bn_val_bounds _ Ha). pose proof (Z.pow_pos_nonneg 2 (Z.of_nat i) ltac:(lia) ltac:(lia)).
  destruct (Nat.max_spec (S n) (length (limbs a))) as [[? ->]|[? ->]].
  - destruct Ca as [Ca|Ca]; [rewrite Ca in *; simpl in *; lia|]. etrans; [exact Ca|]. apply lor_ge_l; lia.
  - rewrite Z.lor_comm. etrans; [|apply lor_ge_l; lia]. apply Z.pow_le_mono_r; lia.
Qed.

(** [bit_len] is the number of binary digits. *)
Lemma bit_len_spec a : bn_ok a -> bit_len a = if bn_val a =? 0 then 0 else Z.log2 (bn_val a) + 1.
Proof.
  intros [Ha Ca]. unfold bit_len, bn_val. destruct (limbs a) as [|top ls _] using rev_ind; [done|].
  rewrite last_snoc, length_app, bn_val_app. cbn [length bn_val_limbs].
  apply Forall_app in Ha as [Hls [[Ht1 Ht2] _]%Forall_cons].
  assert (top <> 0) as Ht.
  { intros ->. apply canonical_last in Ca; [|apply Forall_app; split; [done|by repeat constructor]]. by rewrite last_snoc in Ca. }
  pose proof (bn_val_bounds _ Hls) as Hb. set (P := Z.of_nat (length ls)) in *. set (v := bn_val_limbs ls) in *.
  pose proof (Z.pow_pos_nonneg 2 (32 * P) ltac:(lia) ltac:(lia)).
  replace (v + 2 ^ (32 * P) * (top + 2 ^ 32 * 0)) with (2 ^ (32 * P) * top + v) by lia.
  destruct (Z.eqb_spec (2 ^ (32 * P) * top + v) 0); [nia|]. unfold leading_zeros. destruct (Z.eqb_spec top 0); [done|].
  rewrite (Z.log2_unique (2 ^ (32 * P) * top + v) (32 * P + Z.log2 top)).
  - lia.
  - pose proof (Z.log2_nonneg top). lia.
  - pose proof (Z.log2_spec top ltac:(lia)) as [Hlo Hhi]. pose proof (Z.log2_nonneg top).
    rewrite <- Z.add_succ_r, !Z.pow_add_r by lia. nia.
Qed.

(** ** Binomial coefficients *)

Lemma binom_0_r n : binom n 0 = 1.
Proof. by destruct n. Qed.

Lemma binom_S n k : binom (S n) (S k) = binom n k + binom n (S k).
Proof. done. Qed.

Lemma binom_nonneg n k : 0 <= binom n k.
Proof. revert k. induction n as [|n IH]; intros [|k]; simpl; try lia. pose proof (IH k). pose proof (IH (S k)). lia. Qed.

Lemma binom_small n k : (n < k)%nat -> binom n k = 0.
Proof. revert k. induction n as [|n IH]; intros [|k] H; try lia; [done|]. rewrite binom_S, !IH by lia. done. Qed.

Lemma binom_diag n : binom n n = 1.
Proof. induction n as [|n IH]; [done|]. rewrite binom_S, IH, binom_small by lia. done. Qed.

Lemma binom_mono n m k : (n <= m)%nat -> binom n k <= binom m k.
Proof.
  induction 1 as [|m _ IH]; [done|]. destruct k as [|k]; [by rewrite !binom_0_r|]. rewrite binom_S.
  pose proof (binom_nonneg m k). lia.
Qed.

Lemma binom_pos n k : (k <= n)%nat -> 1 <= binom n k.
Proof. intros H. rewrite <- (binom_diag k). by apply binom_mono. Qed.

Lemma binom_absorb n k : Z.of_nat (S k) * binom (S n) (S k) = Z.of_nat (S n) * binom n k.
Proof.
  revert k. induction n as [|n IH]; intros k.
  { destruct k as [|k]; [done|]. rewrite binom_S. change (binom 0 (S k)) with 0. change (binom 0 (S (S k))) with 0. lia. }
  rewrite binom_S. destruct k as [|k].
  - specialize (IH 0%nat). rewrite !binom_0_r in *. lia.
  - pose proof (IH k) as H1. pose proof (IH (S k)) as H2. rewrite binom_S in H1 |- *. nia.
Qed.

Lemma binom_sym n k : (k <= n)%nat -> binom n (n - k) = binom n k.
Proof.
  revert k. induction n as [|n IH]; intros k Hk; [by replace k with 0%nat by lia|].
  destruct k as [|k]; [rewrite Nat.sub_0_r, binom_diag, binom_0_r; done|]. rewrite binom_S.
  destruct (decide (k = n)) as [->|].
  { rewrite Nat.sub_diag, binom_0_r, binom_diag, binom_small by lia. lia. }
  replace (S n - S k)%nat with (S (n - S k)) by lia. rewrite binom_S, IH by lia.
  replace (S (n - S k)) with (n - k)%nat by lia. rewrite IH by lia. lia.
Qed.

Lemma combination_loop_spec base index turns value :
  (1 <= index)%nat -> Z.of_nat (base + index + turns) < 2 ^ 32 -> bn_ok value -> bn_val value = binom (base + index - 1) (index - 1) ->
  bn_ok (combination_loop base index turns value) /\
  bn_val (combination_loop base index turns value) = binom (base + index - 1 + turns) (index - 1 + turns).
Proof.
  revert index value. induction turns as [|turns IH]; intros index value Hi Hb Hok Hv; cbn [combination_loop].
  { by rewrite !Nat.add_0_r. }
  rewrite !wrap_small by (unfold in_width; lia).
  destruct (mul_u32_assign_spec value (Z.of_nat (base + index)) Hok) as [M1 M2]; [unfold in_width; lia|].
  destruct (div_u32_assign_spec _ (Z.of_nat index) M1) as (D1 & D2 & _); [lia|].
  destruct (div_u32_assign _ _) as [value' r]. cbn [fst] in *.
  assert (bn_val value' = binom (base + index) index) as Hv'.
  { rewrite D2, M2, Hv. destruct index as [|j]; [lia|]. replace (base + S j)%nat with (S (base + j)) by lia.
    replace (S (base + j) - 1)%nat with (base + j)%nat by lia. replace (S j - 1)%nat with j by lia.
    rewrite (Z.mul_comm (binom _ _)), <- binom_absorb, (Z.mul_comm (Z.of_nat _)). apply Z.div_mul. lia. }
  destruct (IH (index + 1)%nat value') as [H1 H2]; [lia|lia|done|rewrite Hv'; f_equal; lia|]. split; [done|]. rewrite H2. f_equal; lia.
Qed.

(** [combination_count] is the binomial coefficient. *)
Lemma combination_count_spec total selected : Z.of_nat total < 2 ^ 32 - 1 ->
  bn_ok (combination_count total selected) /\ bn_val (combination_count total selected) = binom total selected.
Proof.
  intros Ht. unfold combination_count. destruct (Nat.ltb_spec total selected) as [H|H].
  { rewrite binom_small by done. split; [apply bn_ok_zero|done]. }
  set (count := Nat.min selected (total - selected)).
  destruct (combination_loop_spec (total - count) 1 count bn_one) as [H1 H2]; [done|lia|apply bn_ok_one|by rewrite binom_0_r|].
  split; [done|]. rewrite H2. replace (total - count + 1 - 1 + count)%nat with total by lia. replace (1 - 1 + count)%nat with count by lia.
  unfold count. destruct (Nat.min_spec selected (total - selected)) as [[_ ->]|[_ ->]]; [done|by apply binom_sym].
Qed.

(** ** Ranks *)

(** Positions in increasing order, all below [total]. *)
Definition combination (total : nat) (ps : list nat) : Prop := StronglySorted lt ps /\ Forall (fun p => (p < total)%nat) ps.

(** The rank of a combination, by the definition of the number system. *)
Fixpoint rank_from (index : nat) (ps : list nat) : Z :=
  match ps with
  | [] => 0
  | p :: ps => binom p (index + 1) + rank_from (index + 1) ps
  end.

Lemma rank_from_app index ps qs : rank_from index (ps ++ qs) = rank_from index ps + rank_from (index + length ps) qs.
Proof.
  revert index. induction ps as [|p ps IH]; intros index; cbn [rank_from app length]; [rewrite Nat.add_0_r; lia|].
  rewrite IH. replace (index + S (length ps))%nat with (index + 1 + length ps)%nat by lia. lia.
Qed.

Lemma combination_rank_from_spec total index ps rank :
  Z.of_nat total < 2 ^ 32 -> Forall (fun p => (p < total)%nat) ps -> bn_ok rank ->
  bn_ok (combination_rank_from index ps rank) /\ bn_val (combination_rank_from index ps rank) = bn_val rank + rank_from index ps.
Proof.
  intros Ht Hps. revert index rank. induction Hps as [|p ps Hp _ IH]; intros index rank Hok; cbn [combination_rank_from rank_from]; [split; [done|lia]|].
  destruct (combination_count_spec p (index + 1)) as [C1 C2]; [lia|].
  destruct (add_assign_spec rank _ Hok C1) as [A1 A2]. destruct (IH (index + 1)%nat _ A1) as [I1 I2]. split; [done|]. lia.
Qed.

Lemma combination_rank_spec total ps : Z.of_nat total < 2 ^ 32 -> combination total ps ->
  bn_ok (combination_rank ps) /\ bn_val (combination_rank ps) = rank_from 0 ps.
Proof.
  intros Ht [_ Hps]. destruct (combination_rank_from_spec total 0 ps bn_zero Ht Hps bn_ok_zero) as [H1 H2]. split; [done|]. by rewrite bn_val_zero in H2.
Qed.

Lemma combination_app total ps p : combination total (ps ++ [p]) <-> combination p ps /\ (p < total)%nat.
Proof.
  unfold combination. rewrite Forall_app, Forall_singleton. split.
  - intros [Hs [_ Hp]]. split; [|done]. split.
    + clear Hp. induction ps as [|q ps IH]; [constructor|]. inversion Hs as [|? ? Hs' Hq]; subst. constructor; [by apply IH|].
      by apply Forall_app in Hq as [Hq _].
    + apply Forall_forall. intros q Hq%list_elem_of_In. apply in_split in Hq as (l1 & l2 & ->).
      clear Hp. induction l1 as [|x l1 IH]; simpl in Hs; inversion Hs as [|? ? Hs' Hx]; subst; [|by apply IH].
      apply Forall_app in Hx as [_ Hx]. by apply Forall_cons in Hx as [Hx _].
  - intros [[Hs Hps] Hp]. split; [|split; [|done]].
    + clear Hp. induction Hs as [|q ps Hs IH Hq]; [by repeat constructor|]. apply Forall_cons in Hps as [Hqp Hps]. simpl. constructor; [by apply IH|].
      apply Forall_app. split; [done|]. by apply Forall_singleton.
    + eapply Forall_impl; [exact Hps|]. simpl. lia.
Qed.

(** The rank of a combination of [k] positions below [total] is below
    [binom total k]. *)
Lemma rank_bound total ps : combination total ps -> 0 <= rank_from 0 ps < binom total (length ps).
Proof.
  revert total. induction ps as [|p ps IH] using rev_ind; intros total Hc; [simpl; rewrite binom_0_r; lia|].
  apply combination_app in Hc as [Hc Hp]. apply IH in Hc. rewrite rank_from_app, length_app. cbn [rank_from length].
  replace (0 + length ps + 1)%nat with (S (length ps)) by lia. replace (length ps + 1)%nat with (S (length ps)) by lia.
  pose proof (binom_mono (S p) total (S (length ps)) Hp) as Hm. rewrite binom_S in Hm. pose proof (binom_nonneg p (S (length ps))). lia.
Qed.

(** [p] is the last position in [below .. upper] whose count does not exceed
    the rank. *)
Definition last_fit (index : nat) (r : Z) (below upper p : nat) : Prop :=
  (below <= p <= upper)%nat /\ binom p index <= r /\ (p = upper \/ r < binom (p + 1) index).

Lemma search_position_spec fuel below rank upper low high position :
  Z.of_nat upper < 2 ^ 32 - 1 -> bn_ok rank ->
  (below <= low <= high + 1)%nat -> (high <= upper)%nat -> (below <= position <= upper)%nat ->
  binom position (S below) <= bn_val rank ->
  (position + 1 = low \/ low = below /\ position = below)%nat ->
  high = upper \/ bn_val rank < binom (high + 1) (S below) ->
  (high + 1 - low < fuel)%nat ->
  exists p, search_position fuel (S below) rank low high position = Some p /\ last_fit (S below) (bn_val rank) below upper p.
Proof.
  intros Hu Hok. revert low high position. induction fuel as [|fuel IH]; intros low high position Hl Hh Hp Hb Hpos Hhigh Hf; [lia|].
  pose proof (bn_val_nonneg _ Hok). pose proof (binom_small below (S below) ltac:(lia)). cbn [search_position].
  destruct (Nat.leb_spec low high) as [Hle|Hgt].
  - pose proof (Nat.Div0.div_le_mono (high - low) (high - low) 2) as _. pose proof (Nat.Div0.div_le_upper_bound (high - low) 2 (high - low) ltac:(lia)).
    set (candidate := (low + (high - low) / 2)%nat) in *.
    destruct (combination_count_spec candidate (S below)) as [C1 C2]; [lia|]. rewrite bn_leb_spec, C2 by done.
    destruct (Z.leb_spec (binom candidate (S below)) (bn_val rank)).
    + apply IH; try lia.
    + destruct (Nat.eqb_spec candidate 0) as [Hz|Hz]; [rewrite Hz, (binom_small 0) in *; lia|].
      apply IH; try lia. right. by replace (candidate - 1 + 1)%nat with candidate by lia.
  - exists position. split; [done|]. split; [done|]. split; [done|]. destruct Hpos as [Hpos|[-> ->]].
    + replace high with position in Hhigh by lia. naive_solver.
    + exfalso. destruct Hhigh as [->|Hhigh]; [lia|]. replace (high + 1)%nat with below in Hhigh by lia. lia.
Qed.

Lemma last_fit_unique index r below upper p q : last_fit index r below upper p -> last_fit index r below upper q -> p = q.
Proof.
  intros ([? ?] & Hp & Hp') ([? ?] & Hq & Hq').
  destruct (Nat.lt_trichotomy p q) as [Hlt|[?|Hlt]]; [|done|].
  - destruct Hp' as [->|Hp']; [lia|]. pose proof (binom_mono (p + 1) q index ltac:(lia)). lia.
  - destruct Hq' as [->|Hq']; [lia|]. pose proof (binom_mono (q + 1) p index ltac:(lia)). lia.
Qed.

(** One turn of the loop of [combination_unrank]. *)
Lemma unrank_step below upper rank positions :
  Z.of_nat upper < 2 ^ 32 - 1 -> bn_ok rank -> (below <= upper)%nat -> bn_val rank < binom (upper + 1) (S below) ->
  exists p rank', last_fit (S below) (bn_val rank) below upper p /\ bn_ok rank' /\
    bn_val rank' = bn_val rank - binom p (S below) /\ bn_val rank' < binom p below /\
    unrank_from (S below) upper rank positions = unrank_from below (p - 1) rank' (p :: positions).
Proof.
  intros Hu Hok Hb Hr. pose proof (bn_val_nonneg _ Hok).
  destruct (search_position_spec (upper + 2) below rank upper below upper below) as (p & Hs & Hfit); try done; try lia.
  { rewrite binom_small by lia. done. }
  destruct Hfit as (Hp & Hle & Hlast). destruct (combination_count_spec p (S below)) as [C1 C2]; [lia|].
  pose proof (checked_sub_assign_spec rank _ Hok C1) as Hsub. cbn [unrank_from]. rewrite Hs. cbn [mbind option_bind].
  destruct (checked_sub_assign rank (combination_count p (S below))) as [rank'|]; [|lia]. destruct Hsub as (R1 & R2 & R3).
  exists p, rank'. split; [done|]. split; [done|]. split; [lia|]. split.
  { destruct Hlast as [->|Hlast]; [rewrite Nat.add_1_r, binom_S in Hr; lia|rewrite Nat.add_1_r, binom_S in Hlast; lia]. }
  cbn [mbind option_bind]. destruct below as [|below]; [done|].
  destruct (Nat.eqb_spec p 0); [lia|done].
Qed.

Lemma unrank_from_spec index upper rank positions :
  Z.of_nat upper < 2 ^ 32 - 1 -> bn_ok rank -> bn_val rank < binom (upper + 1) index -> (index <= upper + 1)%nat ->
  exists ps, unrank_from index upper rank positions = Some (ps ++ positions) /\ length ps = index /\
    combination (upper + 1) ps /\ rank_from 0 ps = bn_val rank.
Proof.
  revert upper rank positions. induction index as [|below IH]; intros upper rank positions Hu Hok Hr Hi.
  - rewrite binom_0_r in Hr. pose proof (bn_val_nonneg _ Hok). cbn [unrank_from]. rewrite is_zero_spec by done.
    rewrite bool_decide_true by lia. exists []. split; [done|]. split; [done|]. split; [by split; constructor|simpl; lia].
  - destruct (unrank_step below upper rank positions Hu Hok) as (p & rank' & (Hp & Hle & _) & R1 & R2 & R3 & ->); [lia|done|].
    destruct below as [|below].
    { rewrite binom_0_r in R3. pose proof (bn_val_nonneg _ R1). cbn [unrank_from]. rewrite is_zero_spec, bool_decide_true by (done || lia).
      exists [p]. split; [done|]. split; [done|]. split; [split; [by repeat constructor|constructor; [lia|constructor]]|]. cbn [rank_from]. change (0 + 1)%nat with 1%nat. lia. }
    destruct (IH (p - 1)%nat rank' (p :: positions)) as (ps & -> & Hl & Hc & Hrk); [lia|done|by replace (p - 1 + 1)%nat with p by lia|lia|].
    replace (p - 1 + 1)%nat with p in Hc by lia. exists (ps ++ [p]). split; [by rewrite <- app_assoc|]. rewrite length_app, Hl. split; [simpl; lia|].
    split; [apply combination_app; split; [done|lia]|]. rewrite rank_from_app, Hl. cbn [rank_from]. replace (0 + S below + 1)%nat with (S (S below)) by lia. lia.
Qed.

(** Ranks determine combinations. *)
Lemma rank_from_inj total ps qs :
  combination total ps -> combination total qs -> length ps = length qs -> rank_from 0 ps = rank_from 0 qs -> ps = qs.
Proof.
  revert total qs. induction ps as [|p ps IH] using rev_ind; intros total qs Hp Hq Hl Hr; [by destruct qs|].
  destruct qs as [|q qs _] using rev_ind; [rewrite length_app in Hl; simpl in Hl; lia|].
  rewrite !length_app in Hl. simpl in Hl. assert (length ps = length qs) as Hl' by lia.
  apply combination_app in Hp as [Hp Hpt], Hq as [Hq Hqt]. rewrite !rank_from_app, Hl' in Hr. cbn [rank_from] in Hr.
  pose proof (rank_bound _ _ Hp) as Bp. pose proof (rank_bound _ _ Hq) as Bq. rewrite Hl' in Bp.
  replace (0 + length qs + 1)%nat with (S (length qs)) in Hr by lia.
  assert (p = q) as ->.
  { destruct (Nat.lt_trichotomy p q) as [Hlt|[?|Hlt]]; [|done|].
    - pose proof (binom_mono (S p) q (S (length qs)) Hlt) as Hm. rewrite binom_S in Hm. lia.
    - pose proof (binom_mono (S q) p (S (length qs)) Hlt) as Hm. rewrite binom_S in Hm. lia. }
  f_equal. apply (IH q); [done|done|done|lia].
Qed.

(** Unranking succeeds exactly below the number of combinations, with the
    combination of that rank. *)
Lemma combination_unrank_spec total selected rank :
  Z.of_nat total < 2 ^ 32 - 1 -> (selected <= total)%nat -> bn_ok rank -> bn_val rank < binom total selected ->
  exists ps, combination_unrank total selected rank = Some ps /\ length ps = selected /\ combination total ps /\ combination_rank ps = rank.
Proof.
  intros Ht Hs Hok Hr. assert (exists ps, combination_unrank total selected rank = Some ps /\ length ps = selected /\ combination total ps /\
    rank_from 0 ps = bn_val rank) as (ps & H1 & H2 & H3 & H4).
  { unfold combination_unrank. destruct (Nat.ltb_spec total selected); [lia|]. destruct (Nat.eqb_spec selected 0) as [->|Hne].
    - rewrite binom_0_r in Hr. pose proof (bn_val_nonneg _ Hok). rewrite is_zero_spec, bool_decide_true by (done || lia).
      exists []. split; [done|]. split; [done|]. split; [by split; constructor|simpl; lia].
    - destruct (Nat.eqb_spec total 0); [lia|].
      destruct (unrank_from_spec selected (total - 1) rank []) as (ps & -> & Hl & Hc & Hrk); [lia|done|by replace (total - 1 + 1)%nat with total by lia|lia|].
      replace (total - 1 + 1)%nat with total in Hc by lia. exists ps. by rewrite app_nil_r. }
  exists ps. split; [done|]. split; [done|]. split; [done|].
  destruct (combination_rank_spec total ps) as [C1 C2]; [lia|done|]. apply bn_unique; [done|done|lia].
Qed.

Lemma combination_unrank_rank total ps :
  Z.of_nat total < 2 ^ 32 - 1 -> combination total ps -> combination_unrank total (length ps) (combination_rank ps) = Some ps.
Proof.
  intros Ht Hc. destruct (combination_rank_spec total ps) as [C1 C2]; [lia|done|]. pose proof (rank_bound _ _ Hc) as Hb.
  assert (length ps <= total)%nat as Hl.
  { destruct (Nat.le_gt_cases (length ps) total) as [|Hgt]; [done|]. rewrite (binom_small _ _ Hgt) in Hb. lia. }
  destruct (combination_unrank_spec total (length ps) (combination_rank ps) Ht Hl C1) as (qs & -> & Hlq & Hcq & Hrq); [lia|].
  f_equal. apply (rank_from_inj total); [done|done|done|]. destruct (combination_rank_spec total qs) as [_ D2]; [lia|done|].
  rewrite Hrq in D2. lia.
Qed.

(** Ranking and unranking are inverse: the combinations of [k] positions
    below [n], in increasing order, and the numbers below [binom n k]
    correspond one to one, [combination_rank] gives the number of a
    combination and [combination_unrank] finds it again, whatever the size of
    the numbers; the binary search never runs past its range. *)
Theorem combination_ranks_roundtrip (total selected : nat) (Ht : Z.of_nat total < 2 ^ 32 - 1) (Hs : (selected <= total)%nat) :
  bn_val (combination_count total selected) = binom total selected /\
  (forall ps, combination total ps -> length ps = selected ->
     bn_val (combination_rank ps) < binom total selected /\ combination_unrank total selected (combination_rank ps) = Some ps) /\
  (forall rank, bn_ok rank -> bn_val rank < binom total selected ->
     exists ps, combination_unrank total selected rank = Some ps /\ combination total ps /\ length ps = selected /\ combination_rank ps = rank).
Proof.
  split; [by apply combination_count_spec|]. split.
  - intros ps Hc <-. split; [|by apply combination_unrank_rank]. destruct (combination_rank_spec total ps) as [_ ->]; [lia|done|]. by apply rank_bound.
  - intros rank Hok Hr. destruct (combination_unrank_spec total selected rank Ht Hs Hok Hr) as (ps & ? & ? & ? & ?). by exists ps.
Qed.

Lemma combination_ranks_roundtrip_witness :
  bn_val (combination_count 8 3) = 56 /\ combination_unrank 8 3 (combination_rank [1; 4; 6]%nat) = Some [1; 4; 6]%nat.
Proof.
  destruct (combination_ranks_roundtrip 8 3) as (H1 & H2 & _); [done|lia|]. split; [rewrite H1; reflexivity|].
  destruct (H2 [1; 4; 6]%nat) as [_ H3]; [|done|exact H3]. split; [repeat constructor|repeat constructor].
Defined.
