(* ===== verification/CtkBits.v ===== *)
(** * The bit stream of the CTK3 codec

    [clearra-ctk3/src/bitstream.rs]: a writer that appends bits to a byte
    vector and a reader over a byte slice, least significant bit first, with
    fixed-width, variable-width and signed integers; the errors of
    [clearra-ctk3/src/lib.rs].

    A function that takes [&mut BitWriter] is a [Writer], one that takes
    [&mut BitReader] a [Reader]: state passing with the code's errors, and
    [CtkPanic] where the code would panic.  [writes m bs] and [reads rd bs a]
    describe them by the bits they append and consume, and [roundtrip m rd a]
    says that the reader gets [a] back from what the writer wrote; it composes
    along sequencing, which is how the codec's theorems are proved. *)

From Stdlib Require Import ZArith Lia.
From stdpp Require Import prelude strings.
From S2P Require Import Prelude Words CtkBigNat.

Local Open Scope Z_scope.

(** ** Errors *)

Inductive Ctk3CodecError :=
| InvalidWidth (width : nat)
| InvalidPageCount (count : Z)
| InvalidHeight (page height : nat)
| InvalidCellCount (page expected actual : nat)
| CommentTooLong (page bytes : nat)
| InvalidGarbageWidth (page expected actual : nat)
| InvalidOperationCoordinate (page : nat)
| InvalidBundleSegmentCount (count : nat)
| BundleSegmentCountMismatch (expected actual : nat)
| InvalidBundleSegment (index : nat)
| BundleWidthMismatch (index : nat)
| BundlePageLimitExceeded
| PayloadTooLarge (bytes : nat)
| InvalidPayload (reason : string)
| InvalidUtf8
| IntegerOverflow.

(** An error of the codec, or a panic. *)
Inductive CtkFailure := Failed (e : Ctk3CodecError) | CtkPanic.

Definition fail {A} (e : Ctk3CodecError) : Result CtkFailure A := Err (Failed e).
Definition invalid {A} (reason : string) : Result CtkFailure A := fail (InvalidPayload reason).
Definition panic_none {A} (o : option A) : Result CtkFailure A := ok_or o CtkPanic.

(** ** The writer *)

Record BitWriter := mkWriter { w_bytes : list Z; w_bit_len : nat }.

Definition BitWriter_default : BitWriter := mkWriter [] 0.

(** The byte at [bit_len / 8] is the one pushed or the last one, so the
    assignment is in range. *)
Definition write_bit (value : bool) (w : BitWriter) : BitWriter :=
  let byte_index := (w_bit_len w / 8)%nat in
  let bit_index := (w_bit_len w mod 8)%nat in
  let bytes := if (byte_index =? length (w_bytes w))%nat then w_bytes w ++ [0] else w_bytes w in
  let bytes := if value then alter (fun b => Z.lor b (shl 8 1 (Z.of_nat bit_index))) byte_index bytes else bytes in
  mkWriter bytes (w_bit_len w + 1).

Definition Writer : Type := BitWriter -> Result CtkFailure BitWriter.

Definition wr_skip : Writer := fun w => Ok w.
Definition wr_seq (m k : Writer) : Writer := fun w => rbind (m w) k.
Definition wr_bit (value : bool) : Writer := fun w => Ok (write_bit value w).
Definition wr_fail (e : Ctk3CodecError) : Writer := fun _ => fail e.
Definition wr_if (b : bool) (m k : Writer) : Writer := if b then m else k.

(** [for x in xs { f(x)? }]. *)
Fixpoint wr_each {A} (f : A -> Writer) (xs : list A) : Writer :=
  match xs with
  | [] => wr_skip
  | x :: xs => wr_seq (f x) (wr_each f xs)
  end.

Notation "m ;; k" := (wr_seq m k) (at level 100, right associativity) : clearra_scope.

Definition write_bits (value : Z) (width : nat) : Writer :=
  if (32 <? width)%nat || ((width <? 32)%nat && (shl 64 1 (Z.of_nat width) <=? value)) then wr_fail IntegerOverflow
  else wr_each (fun bit => wr_bit (negb (Z.land value (shl 32 1 (Z.of_nat bit)) =? 0))) (seq 0 width).

Definition write_big_bits (value : BigNat) (width : Z) : Writer :=
  if width <? bit_len value then wr_fail IntegerOverflow
  else wr_each (fun i => wr_bit (bit value i)) (seq 0 (Z.to_nat width)).

Definition write_var_uint (value : Z) : Writer :=
  if umax 32 <? value then wr_fail IntegerOverflow
  else if value <? 16 then wr_bit false ;; write_bits value 4
  else if value <? 256 then write_bits 1 2 ;; write_bits value 8
  else if value <? 65536 then write_bits 3 3 ;; write_bits value 16
  else write_bits 7 3 ;; write_bits value 32.

(** An [i64] result, if it fits. *)
Definition checked_i64 (x : Z) : option Z := if (- 2 ^ 63 <=? x) && (x <? 2 ^ 63) then Some x else None.

Definition write_signed_var_int (value : Z) : Writer :=
  match (if 0 <=? value then checked_i64 (value * 2)
         else doubled ← checked_i64 (value * -2); checked_i64 (doubled - 1)) with
  | Some encoded => write_var_uint (wrap 64 encoded)
  | None => wr_fail IntegerOverflow
  end.

Definition write_bytes (bytes : list Z) : Writer := wr_each (fun byte => write_bits byte 8) bytes.

Definition append (other : BitWriter) : Writer :=
  wr_each (fun i => wr_bit (negb (Z.land (default 0 (w_bytes other !! (i / 8)%nat)) (shl 8 1 (Z.of_nat (i mod 8))) =? 0)))
    (seq 0 (w_bit_len other)).

(** The loop both [append_shortest] functions run over the remaining
    candidates. *)
Fixpoint shortest_of (shortest : BitWriter) (candidates : list BitWriter) : BitWriter :=
  match candidates with
  | [] => shortest
  | c :: candidates => shortest_of (if (w_bit_len c <? w_bit_len shortest)%nat then c else shortest) candidates
  end.

Definition append_shortest (candidates : list BitWriter) : Writer :=
  match candidates with
  | [] => fun _ => Err CtkPanic
  | c :: candidates => append (shortest_of c candidates)
  end.

(** ** The reader *)

Record BitReader := mkReader { r_bytes : list Z; r_bit_offset : nat }.

Definition BitReader_new (bytes : list Z) : BitReader := mkReader bytes 0.

Definition Reader (A : Type) : Type := BitReader -> Result CtkFailure (A * BitReader).

Definition rd_ret {A} (a : A) : Reader A := fun r => Ok (a, r).
Definition rd_lift {A} (c : Result CtkFailure A) : Reader A := fun r => rmap (fun a => (a, r)) c.
Definition rd_bind {A B} (m : Reader A) (k : A -> Reader B) : Reader B := fun r => rbind (m r) (fun p => k (fst p) (snd p)).

Notation "'let*' x := m 'in' k" := (rd_bind m (fun x => k))
  (at level 10, x name, m at level 100, k at level 200) : clearra_scope.
Notation "'let*' ' p := m 'in' k" := (rd_bind m (fun x => match x with p => k end))
  (at level 10, p strict pattern, m at level 100, k at level 200) : clearra_scope.

(** [(0..n).map(|_| m).collect()]. *)
Fixpoint rd_repeat {A} (n : nat) (m : Reader A) : Reader (list A) :=
  match n with
  | O => rd_ret []
  | S n => let* x := m in let* xs := rd_repeat n m in rd_ret (x :: xs)
  end.

Definition read_bit : Reader bool := fun r =>
  if (length (r_bytes r) * 8 <=? r_bit_offset r)%nat then invalid "payload ended unexpectedly"
  else
    let? byte := panic_none (r_bytes r !! (r_bit_offset r / 8)%nat) in
    Ok (negb (Z.land byte (shl 8 1 (Z.of_nat (r_bit_offset r mod 8))) =? 0), mkReader (r_bytes r) (r_bit_offset r + 1)).

Fixpoint read_bits_from (bit width : nat) (value : Z) : Reader Z :=
  match width with
  | O => rd_ret value
  | S width => let* b := read_bit in read_bits_from (bit + 1) width (if b then Z.lor value (shl 32 1 (Z.of_nat bit)) else value)
  end.

Definition read_bits (width : nat) : Reader Z :=
  if (32 <? width)%nat then rd_lift (invalid "bit width is invalid") else read_bits_from 0 width 0.

Fixpoint read_big_bits_from (bit width : nat) (value : BigNat) : Reader BigNat :=
  match width with
  | O => rd_ret value
  | S width => let* b := read_bit in read_big_bits_from (bit + 1) width (if b then set_bit value bit else value)
  end.

Definition read_big_bits (width : Z) : Reader BigNat := read_big_bits_from 0 (Z.to_nat width) bn_zero.

Definition read_var_uint : Reader Z :=
  let* b := read_bit in
  if negb b then read_bits 4
  else
    let* b := read_bit in
    if negb b then read_bits 8
    else
      let* b := read_bit in
      if negb b then read_bits 16 else read_bits 32.

Definition read_signed_var_int : Reader Z :=
  let* value := read_var_uint in
  rd_ret (if Z.land value 1 =? 1 then - (Z.quot value 2 + 1) else Z.quot value 2).

Definition read_bytes (length : Z) : Reader (list Z) := fun r =>
  let? required_bits := ok_or (checked_mul 64 length 8) (Failed IntegerOverflow) in
  let remaining_bits := saturating_sub (Z.of_nat (List.length (r_bytes r)) * 8) (Z.of_nat (r_bit_offset r)) in
  if remaining_bits <? required_bits then invalid "payload ended unexpectedly"
  else rd_repeat (Z.to_nat length) (let* b := read_bits 8 in rd_ret (wrap 8 b)) r.

(** [while bit_offset < bytes.len() * 8]: one turn per remaining bit. *)
Fixpoint zero_padding (turns : nat) : Reader unit :=
  match turns with
  | O => rd_ret tt
  | S turns => let* b := read_bit in if (b : bool) then rd_lift (invalid "payload has trailing data") else zero_padding turns
  end.

Definition assert_zero_padding : Reader unit := fun r => zero_padding (length (r_bytes r) * 8 - r_bit_offset r) r.

(** ** Bits *)

(** The low [n] bits of a value, least significant first. *)
Definition bits_le (v : Z) (n : nat) : list bool := (fun i => Z.testbit v (Z.of_nat i)) <$> seq 0 n.

Definition byte_bits (b : Z) : list bool := bits_le b 8.
Definition all_bits (bytes : list Z) : list bool := bytes ≫= byte_bits.

(** The writer holds the bits [bs]: its bytes are these bits, and zeros up to
    the next byte. *)
Definition holds (w : BitWriter) (bs : list bool) : Prop :=
  Forall (in_width 8) (w_bytes w) /\ w_bit_len w = length bs /\
  all_bits (w_bytes w) = bs ++ replicate ((8 - length bs mod 8) mod 8) false.

(** What is left to read. *)
Definition rbits (r : BitReader) : list bool := drop (r_bit_offset r) (all_bits (r_bytes r)).

Definition writes (m : Writer) (bs : list bool) : Prop :=
  forall w bs0, holds w bs0 -> exists w', m w = Ok w' /\ holds w' (bs0 ++ bs).

Definition reads {A} (rd : Reader A) (bs : list bool) (a : A) : Prop :=
  forall r rest, rbits r = bs ++ rest -> exists r', rd r = Ok (a, r') /\ rbits r' = rest.

Definition roundtrip {A} (m : Writer) (rd : Reader A) (a : A) : Prop := exists bs, writes m bs /\ reads rd bs a.

(** *** Facts on bit lists *)

Lemma length_bits_le v n : length (bits_le v n) = n.
Proof. unfold bits_le. by rewrite length_fmap, length_seq. Qed.

Lemma bits_le_lookup v n i : (i < n)%nat -> bits_le v n !! i = Some (Z.testbit v (Z.of_nat i)).
Proof. intros H. unfold bits_le. by rewrite list_lookup_fmap, lookup_seq_lt. Qed.

Lemma length_all_bits bytes : length (all_bits bytes) = (8 * length bytes)%nat.
Proof. induction bytes as [|b bytes IH]; [done|]. unfold all_bits in *. cbn [mbind list_bind]. rewrite length_app, IH. unfold byte_bits. rewrite length_bits_le. simpl. lia. Qed.

Lemma all_bits_cons b bytes : all_bits (b :: bytes) = byte_bits b ++ all_bits bytes.
Proof. done. Qed.

Lemma all_bits_app l k : all_bits (l ++ k) = all_bits l ++ all_bits k.
Proof. apply bind_app. Qed.

Lemma all_bits_lookup bytes i b :
  bytes !! (i / 8)%nat = Some b -> all_bits bytes !! i = Some (Z.testbit b (Z.of_nat (i mod 8))).
Proof.
  revert i. induction bytes as [|c bytes IH]; intros i Hb; [done|]. rewrite all_bits_cons.
  destruct (Nat.lt_ge_cases i 8) as [Hi|Hi].
  - rewrite Nat.div_small in Hb by done. injection Hb as ->. rewrite Nat.mod_small by done.
    rewrite lookup_app_l by (unfold byte_bits; by rewrite length_bits_le). by apply bits_le_lookup.
  - assert (i / 8 = S ((i - 8) / 8) /\ i mod 8 = (i - 8) mod 8)%nat as [E1 E2].
    { replace i with ((i - 8) + 1 * 8)%nat at 1 3 by lia. rewrite Nat.div_add, Nat.Div0.mod_add by lia. lia. }
    rewrite E1 in Hb. rewrite E2, lookup_app_r by (unfold byte_bits; by rewrite length_bits_le).
    unfold byte_bits. rewrite length_bits_le. by apply IH.
Qed.

Lemma byte_bits_set b k : (k < 8)%nat -> byte_bits (Z.lor b (shl 8 1 (Z.of_nat k))) = <[k := true]> (byte_bits b).
Proof.
  intros Hk. apply list_eq. intros i. destruct (Nat.lt_ge_cases i 8) as [Hi|Hi].
  - unfold byte_bits at 1. rewrite bits_le_lookup, Z.lor_spec, testbit_bit by lia. destruct (decide (i = k)) as [->|Hne].
    + rewrite list_lookup_insert_eq by (unfold byte_bits; by rewrite length_bits_le). by rewrite Z.eqb_refl, orb_true_r.
    + rewrite list_lookup_insert_ne by done. unfold byte_bits. rewrite bits_le_lookup by done.
      replace (Z.of_nat i =? Z.of_nat k) with false by (symmetry; apply Z.eqb_neq; lia). by rewrite orb_false_r.
  - rewrite !lookup_ge_None_2; [done|rewrite length_insert| ]; unfold byte_bits; rewrite length_bits_le; lia.
Qed.

Lemma all_bits_alter bytes j k : (k < 8)%nat -> (j < length bytes)%nat ->
  all_bits (alter (fun b => Z.lor b (shl 8 1 (Z.of_nat k))) j bytes) = <[(8 * j + k)%nat := true]> (all_bits bytes).
Proof.
  intros Hk. revert j. induction bytes as [|b bytes IH]; intros j Hj; [simpl in Hj; lia|]. destruct j as [|j]; cbn [alter list_alter].
  - rewrite !all_bits_cons, byte_bits_set by done. rewrite insert_app_l; [done|]. unfold byte_bits. rewrite length_bits_le. lia.
  - rewrite !all_bits_cons, IH by (simpl in Hj; lia). replace (8 * S j + k)%nat with (length (byte_bits b) + (8 * j + k))%nat
      by (unfold byte_bits; rewrite length_bits_le; lia). by rewrite insert_app_r.
Qed.

Lemma byte_bits_0 : byte_bits 0 = replicate 8 false.
Proof. done. Qed.

(** *** The writer *)

Lemma holds_default : holds BitWriter_default [].
Proof. split; [constructor|]. by split. Qed.

Lemma pad_length n : ((n + (8 - n mod 8) mod 8) mod 8 = 0)%nat.
Proof.
  pose proof (Nat.mod_upper_bound n 8 ltac:(lia)). pose proof (Nat.div_mod_eq n 8). set (d := (n / 8)%nat) in *. set (m := (n mod 8)%nat) in *.
  destruct (decide (m = 0%nat)) as [->|]; [change ((8 - 0) mod 8)%nat with 0%nat|rewrite (Nat.mod_small (8 - m)) by lia];
    (rewrite Nat.Lcm0.mod_divide || apply Nat.Div0.mod_divides); [exists d|exists (S d)]; lia.
Qed.

Lemma write_bit_holds b w bs : holds w bs -> holds (write_bit b w) (bs ++ [b]).
Proof.
  intros (Hok & Hl & Hb). unfold write_bit. rewrite Hl. set (n := length bs) in *.
  pose proof (f_equal length Hb) as Hlen. rewrite length_all_bits, length_app, length_replicate in Hlen. fold n in Hlen.
  pose proof (Nat.mod_upper_bound n 8 ltac:(lia)) as Hm. pose proof (Nat.div_mod_eq n 8) as Hdm.
  set (j := (n / 8)%nat) in *. set (k := (n mod 8)%nat) in *.
  set (bytes := if (j =? length (w_bytes w))%nat then _ else _).
  assert (Forall (in_width 8) bytes /\ (j < length bytes)%nat /\ all_bits bytes = bs ++ false :: replicate (7 - k) false) as (Hok' & Hj & Hb').
  { unfold bytes. destruct (decide (k = 0%nat)) as [Hk|Hk].
    - rewrite Hk in *. change ((8 - 0) mod 8)%nat with 0%nat in *. assert (j = length (w_bytes w)) as He by lia. rewrite He, Nat.eqb_refl.
      split; [apply Forall_app; split; [done|by repeat constructor]|]. rewrite length_app. split; [simpl; lia|].
      rewrite all_bits_app, Hb. rewrite app_nil_r. by rewrite all_bits_cons, byte_bits_0.
    - rewrite (Nat.mod_small (8 - k)) in Hlen, Hb by lia. destruct (Nat.eqb_spec j (length (w_bytes w))) as [He|He]; [lia|].
      split; [done|]. split; [lia|]. rewrite Hb. f_equal. by replace (8 - k)%nat with (S (7 - k)) by lia. }
  assert (replicate (7 - k) false = replicate ((8 - (n + 1) mod 8) mod 8) false) as Hpad.
  { f_equal. replace ((n + 1) mod 8)%nat with ((k + 1) mod 8)%nat by (unfold k; by rewrite Nat.Div0.add_mod_idemp_l).
    destruct (decide (k = 7%nat)) as [->|]; [done|]. rewrite (Nat.mod_small (k + 1)), Nat.mod_small by lia. lia. }
  unfold holds. cbn [w_bytes w_bit_len]. rewrite length_app. fold n. cbn [length]. rewrite <- Hpad. destruct b.
  - split; [|split; [done|]].
    + apply Forall_alter; [done|]. intros x _ Hx. apply in_width_lor; [lia|done|apply in_width_shl; lia].
    + rewrite all_bits_alter, Hb' by lia. replace (8 * j + k)%nat with (length bs + 0)%nat by (fold n; lia).
      rewrite insert_app_r. by rewrite <- app_assoc.
  - split; [done|]. split; [done|]. rewrite Hb'. by rewrite <- app_assoc.
Qed.

Lemma writes_skip : writes wr_skip [].
Proof. intros w bs Hw. exists w. by rewrite app_nil_r. Qed.

Lemma writes_bit b : writes (wr_bit b) [b].
Proof. intros w bs Hw. exists (write_bit b w). split; [done|]. by apply write_bit_holds. Qed.

Lemma writes_seq m k bs1 bs2 : writes m bs1 -> writes k bs2 -> writes (m ;; k) (bs1 ++ bs2).
Proof.
  intros Hm Hk w bs Hw. destruct (Hm w bs Hw) as (w1 & E1 & H1). destruct (Hk w1 _ H1) as (w2 & E2 & H2).
  exists w2. unfold wr_seq. rewrite E1. cbn [rbind]. split; [done|]. by rewrite app_assoc.
Qed.

Lemma writes_each {A} (f : A -> Writer) (g : A -> list bool) xs :
  Forall (fun x => writes (f x) (g x)) xs -> writes (wr_each f xs) (xs ≫= g).
Proof. induction 1 as [|x xs Hx _ IH]; [apply writes_skip|]. by apply writes_seq. Qed.

Lemma bind_singleton {A B} (f : A -> B) (xs : list A) : xs ≫= (fun x => [f x]) = f <$> xs.
Proof. induction xs as [|x xs IH]; [done|]. csimpl. by rewrite <- IH. Qed.

Lemma writes_each_bit {A} (f : A -> bool) xs : writes (wr_each (fun x => wr_bit (f x)) xs) (f <$> xs).
Proof. rewrite <- bind_singleton. apply writes_each. apply Forall_forall. intros x _. apply writes_bit. Qed.

Lemma write_bits_writes value width : (width <= 32)%nat -> in_width (Z.of_nat width) value -> writes (write_bits value width) (bits_le value width).
Proof.
  intros Hw Hv. unfold write_bits. unfold in_width in Hv. replace ((32 <? width)%nat || _) with false.
  - replace (bits_le value width) with ((fun b => negb (Z.land value (shl 32 1 (Z.of_nat b)) =? 0)) <$> seq 0 width); [apply writes_each_bit|].
    unfold bits_le. apply list_fmap_ext. intros i x Hx%lookup_seq. rewrite land_bit_eqb, negb_involutive by lia. done.
  - symmetry. apply orb_false_iff. split; [apply Nat.ltb_ge; lia|]. destruct (Nat.ltb_spec width 32); [|done]. cbn [andb].
    apply Z.leb_gt. rewrite shl1_pow2 by lia. lia.
Qed.

Lemma write_big_bits_writes value width : bn_ok value -> 0 <= width -> in_width width (bn_val value) ->
  writes (write_big_bits value width) (bits_le (bn_val value) (Z.to_nat width)).
Proof.
  intros Hok Hw [Hv1 Hv2]. unfold write_big_bits. rewrite bit_len_spec by done.
  replace (width <? _) with false.
  - replace (bits_le _ _) with ((fun i => bit value i) <$> seq 0 (Z.to_nat width)); [apply writes_each_bit|].
    unfold bits_le. apply list_fmap_ext. intros i x _. by apply bit_testbit.
  - symmetry. apply Z.ltb_ge. destruct (Z.eqb_spec (bn_val value) 0); [done|]. apply Z.log2_lt_pow2 in Hv2; lia.
Qed.

Lemma append_writes other bs : holds other bs -> writes (append other) bs.
Proof.
  intros (Hok & Hl & Hb). unfold append. rewrite Hl.
  replace bs with ((fun i => negb (Z.land (default 0 (w_bytes other !! (i / 8)%nat)) (shl 8 1 (Z.of_nat (i mod 8))) =? 0)) <$> seq 0 (length bs)) at 2;
    [apply writes_each_bit|].
  pose proof (f_equal length Hb) as Hlen. rewrite length_all_bits, length_app in Hlen.
  apply list_eq. intros i. rewrite list_lookup_fmap. destruct (Nat.lt_ge_cases i (length bs)) as [Hi|Hi].
  - rewrite lookup_seq_lt by done. cbn [fmap option_fmap option_map]. rewrite Nat.add_0_l.
    pose proof (Nat.mod_upper_bound i 8 ltac:(lia)). rewrite land_bit_eqb, negb_involutive by lia.
    destruct (lookup_lt_is_Some_2 (w_bytes other) (i / 8)) as [b Hbi]; [apply Nat.Div0.div_lt_upper_bound; lia|].
    rewrite Hbi. change (default 0 (Some b)) with b. rewrite <- (all_bits_lookup _ _ _ Hbi), Hb. by rewrite lookup_app_l.
  - rewrite lookup_seq_ge, lookup_ge_None_2 by done. done.
Qed.

Lemma shortest_of_elem c cs : shortest_of c cs ∈ c :: cs.
Proof. revert c. induction cs as [|d cs IH]; intros c; cbn [shortest_of]; [by constructor|]. specialize (IH (if (w_bit_len d <? w_bit_len c)%nat then d else c)). destruct (_ <? _)%nat; set_solver. Qed.

Lemma shortest_of_least c cs d : d ∈ c :: cs -> (w_bit_len (shortest_of c cs) <= w_bit_len d)%nat.
Proof.
  revert c d. induction cs as [|x cs IH]; intros c d Hd; cbn [shortest_of].
  { apply list_elem_of_singleton in Hd as ->. done. }
  set (c' := if (w_bit_len x <? w_bit_len c)%nat then x else c).
  assert (w_bit_len c' <= w_bit_len x /\ w_bit_len c' <= w_bit_len c)%nat by (unfold c'; destruct (Nat.ltb_spec (w_bit_len x) (w_bit_len c)); lia).
  pose proof (IH c' c' ltac:(constructor)). apply elem_of_cons in Hd as [->|[->|Hd]%elem_of_cons]; [lia|lia|].
  apply IH. by constructor.
Qed.

(** *** The reader *)

Lemma read_bit_reads b : reads read_bit [b] b.
Proof.
  intros r rest H. unfold read_bit. unfold rbits in *.
  assert (all_bits (r_bytes r) !! r_bit_offset r = Some b) as Hl.
  { rewrite <- (Nat.add_0_r (r_bit_offset r)), <- lookup_drop, H. done. }
  pose proof (lookup_lt_Some _ _ _ Hl) as Hlt. rewrite length_all_bits in Hlt.
  replace (length (r_bytes r) * 8 <=? r_bit_offset r)%nat with false by (symmetry; apply Nat.leb_gt; lia).
  destruct (lookup_lt_is_Some_2 (r_bytes r) (r_bit_offset r / 8)) as [byte Hb]; [apply Nat.Div0.div_lt_upper_bound; lia|].
  rewrite Hb. cbn [panic_none ok_or rbind]. rewrite (all_bits_lookup _ _ _ Hb) in Hl. injection Hl as <-.
  pose proof (Nat.mod_upper_bound (r_bit_offset r) 8 ltac:(lia)). rewrite land_bit_eqb, negb_involutive by lia.
  eexists. split; [done|]. cbn [r_bytes r_bit_offset]. by rewrite <- drop_drop, H.
Qed.

Lemma reads_ret {A} (a : A) : reads (rd_ret a) [] a.
Proof. intros r rest H. by exists r. Qed.

Lemma reads_lift {A} (a : A) : reads (rd_lift (Ok a)) [] a.
Proof. intros r rest H. by exists r. Qed.

Lemma reads_bind {A B} (m : Reader A) (k : A -> Reader B) bs1 bs2 a b :
  reads m bs1 a -> reads (k a) bs2 b -> reads (rd_bind m k) (bs1 ++ bs2) b.
Proof.
  intros Hm Hk r rest H. rewrite <- app_assoc in H. destruct (Hm r _ H) as (r1 & E1 & H1). destruct (Hk r1 _ H1) as (r2 & E2 & H2).
  exists r2. unfold rd_bind. rewrite E1. cbn [rbind fst snd]. done.
Qed.

(** A reader that starts by reading the bit at hand. *)
Lemma reads_bit_then {B} (k : bool -> Reader B) b bs a : reads (k b) bs a -> reads (rd_bind read_bit k) (b :: bs) a.
Proof. intros H. apply (reads_bind _ _ [b] _ b); [apply read_bit_reads|done]. Qed.

Lemma bits_le_S v n : bits_le v (S n) = bits_le v n ++ [Z.testbit v (Z.of_nat n)].
Proof. unfold bits_le. by rewrite seq_S, fmap_app. Qed.

Lemma bits_le_tail v k n : (fun i => Z.testbit v (Z.of_nat i)) <$> seq k (S n) = Z.testbit v (Z.of_nat k) :: ((fun i => Z.testbit v (Z.of_nat i)) <$> seq (k + 1) n).
Proof. rewrite Nat.add_1_r. done. Qed.

(** The value built from the bits below [k]. *)
Lemma low_bits_step v k : 0 <= v -> Z.lor (v mod 2 ^ Z.of_nat k) (if Z.testbit v (Z.of_nat k) then 2 ^ Z.of_nat k else 0) = v mod 2 ^ Z.of_nat (k + 1).
Proof.
  intros Hv. apply Z.bits_inj'. intros i Hi. rewrite Z.lor_spec, !Z.testbit_mod_pow2 by lia.
  destruct (Z.testbit v (Z.of_nat k)) eqn:Ek.
  - rewrite Z.pow2_bits_eqb by lia. destruct (Z.eqb_spec (Z.of_nat k) i) as [<-|Hne].
    + rewrite Ek, orb_true_r, andb_true_r. symmetry. apply Z.ltb_lt. lia.
    + rewrite orb_false_r. f_equal. apply eq_true_iff_eq. rewrite !Z.ltb_lt. lia.
  - rewrite Z.bits_0, orb_false_r. destruct (Z.eqb_spec (Z.of_nat k) i) as [<-|Hne]; [by rewrite Ek, !andb_false_r|].
    f_equal. apply eq_true_iff_eq. rewrite !Z.ltb_lt. lia.
Qed.

Lemma read_bits_from_reads v k n : 0 <= v -> (k + n <= 32)%nat ->
  reads (read_bits_from k n (v mod 2 ^ Z.of_nat k)) ((fun i => Z.testbit v (Z.of_nat i)) <$> seq k n) (v mod 2 ^ Z.of_nat (k + n)).
Proof.
  intros Hv. revert k. induction n as [|n IH]; intros k Hk; [rewrite Nat.add_0_r; apply reads_ret|].
  rewrite bits_le_tail. cbn [read_bits_from]. apply reads_bit_then.
  replace (if Z.testbit v (Z.of_nat k) then _ else _) with (v mod 2 ^ Z.of_nat (k + 1)).
  - replace (k + S n)%nat with (k + 1 + n)%nat by lia. apply IH. lia.
  - rewrite <- low_bits_step by done. destruct (Z.testbit v (Z.of_nat k)); [by rewrite shl1_pow2 by lia|by rewrite Z.lor_0_r].
Qed.

Lemma read_bits_reads v n : (n <= 32)%nat -> in_width (Z.of_nat n) v -> reads (read_bits n) (bits_le v n) v.
Proof.
  intros Hn [Hv1 Hv2]. unfold read_bits. replace (32 <? n)%nat with false by (symmetry; apply Nat.ltb_ge; lia).
  pose proof (read_bits_from_reads v 0 n Hv1 ltac:(lia)) as H. change (Z.of_nat 0) with 0 in H. rewrite Z.pow_0_r, Z.mod_1_r in H.
  rewrite Nat.add_0_l, Z.mod_small in H by lia. done.
Qed.

Lemma read_big_bits_from_reads v a k n : 0 <= v -> bn_ok a -> bn_val a = v mod 2 ^ Z.of_nat k ->
  exists b, bn_ok b /\ bn_val b = v mod 2 ^ Z.of_nat (k + n) /\ reads (read_big_bits_from k n a) ((fun i => Z.testbit v (Z.of_nat i)) <$> seq k n) b.
Proof.
  intros Hv. revert k a. induction n as [|n IH]; intros k a Ha Hk; [exists a; rewrite Nat.add_0_r; split; [done|]; split; [done|]; apply reads_ret|].
  rewrite bits_le_tail. cbn [read_big_bits_from]. destruct (bn_set_bit_spec a k Ha) as [S1 S2].
  destruct (IH (k + 1)%nat (if Z.testbit v (Z.of_nat k) then set_bit a k else a)) as (b & B1 & B2 & B3).
  - by destruct (Z.testbit v (Z.of_nat k)).
  - rewrite <- low_bits_step by done. destruct (Z.testbit v (Z.of_nat k)); [by rewrite S2, Hk|by rewrite Z.lor_0_r].
  - exists b. split; [done|]. split; [by replace (k + S n)%nat with (k + 1 + n)%nat by lia|]. by apply reads_bit_then.
Qed.

Lemma read_big_bits_reads a width : bn_ok a -> 0 <= width -> in_width width (bn_val a) -> reads (read_big_bits width) (bits_le (bn_val a) (Z.to_nat width)) a.
Proof.
  intros Ha Hw [H1 H2]. unfold read_big_bits.
  destruct (read_big_bits_from_reads (bn_val a) bn_zero 0 (Z.to_nat width)) as (b & B1 & B2 & B3); [done|apply bn_ok_zero|by rewrite Z.mod_1_r|].
  rewrite Nat.add_0_l, Z2Nat.id, Z.mod_small in B2 by lia. pose proof (bn_unique _ _ B1 Ha B2) as ->. exact B3.
Qed.

(** *** Variable-width integers *)

(** The bits of [write_var_uint]. *)
Definition var_bits (v : Z) : list bool :=
  if v <? 16 then false :: bits_le v 4
  else if v <? 256 then [true; false] ++ bits_le v 8
  else if v <? 65536 then [true; true; false] ++ bits_le v 16
  else [true; true; true] ++ bits_le v 32.

Lemma write_var_uint_writes v : in_width 32 v -> writes (write_var_uint v) (var_bits v).
Proof.
  intros [Hv1 Hv2]. unfold write_var_uint, var_bits. replace (umax 32 <? v) with false by (symmetry; apply Z.ltb_ge; unfold umax; lia).
  destruct (Z.ltb_spec v 16); [|destruct (Z.ltb_spec v 256); [|destruct (Z.ltb_spec v 65536)]].
  - apply (writes_seq _ _ [false]); [apply writes_bit|]. apply write_bits_writes; [lia|]. by split.
  - apply (writes_seq _ _ [true; false]); [apply (write_bits_writes 1 2); [lia|by split]|]. apply write_bits_writes; [lia|]. by split.
  - apply (writes_seq _ _ [true; true; false]); [apply (write_bits_writes 3 3); [lia|by split]|]. apply write_bits_writes; [lia|]. by split.
  - apply (writes_seq _ _ [true; true; true]); [apply (write_bits_writes 7 3); [lia|by split]|]. apply write_bits_writes; [lia|]. by split.
Qed.

Lemma read_var_uint_reads v : in_width 32 v -> reads read_var_uint (var_bits v) v.
Proof.
  intros [Hv1 Hv2]. unfold read_var_uint, var_bits.
  destruct (Z.ltb_spec v 16); [|destruct (Z.ltb_spec v 256); [|destruct (Z.ltb_spec v 65536)]]; cbn [app]; apply reads_bit_then; cbn [negb];
    [|apply reads_bit_then; cbn [negb]..]; [| |apply reads_bit_then; cbn [negb]..]; (apply read_bits_reads; [lia|by split]).
Qed.

(** Zigzag coding of a signed integer. *)
Definition zigzag (v : Z) : Z := if 0 <=? v then v * 2 else v * -2 - 1.

Lemma zigzag_back v : (if Z.land (zigzag v) 1 =? 1 then - (Z.quot (zigzag v) 2 + 1) else Z.quot (zigzag v) 2) = v.
Proof.
  change 1 with (Z.ones 1) at 1. rewrite Z.land_ones by lia. change (2 ^ 1) with 2. unfold zigzag. destruct (Z.leb_spec 0 v).
  - rewrite Z.mod_mul by lia. cbn. rewrite Z.quot_mul by lia. done.
  - replace (v * -2 - 1) with (1 + (- v - 1) * 2) by lia. rewrite Z.mod_add by lia. change (1 mod 2 =? 1) with true. cbn [negb].
    rewrite Z.quot_div_nonneg, Z.div_add by lia. change (1 / 2) with 0. lia.
Qed.

Lemma write_signed_writes v : in_width 32 (zigzag v) -> writes (write_signed_var_int v) (var_bits (zigzag v)).
Proof.
  intros Hz. assert (exists e, (if 0 <=? v then checked_i64 (v * 2) else doubled ← checked_i64 (v * -2); checked_i64 (doubled - 1)) = Some e /\ e = zigzag v) as (e & He & ->).
  { exists (zigzag v). split; [|done]. unfold zigzag, in_width in *. destruct (Z.leb_spec 0 v).
    - unfold checked_i64. rewrite (proj2 (Z.leb_le _ _)), (proj2 (Z.ltb_lt _ _)) by lia. done.
    - unfold checked_i64. rewrite (proj2 (Z.leb_le _ _)), (proj2 (Z.ltb_lt _ _)) by lia. cbn [andb mbind option_bind].
      rewrite (proj2 (Z.leb_le _ _)), (proj2 (Z.ltb_lt _ _)) by lia. done. }
  unfold write_signed_var_int. rewrite He. rewrite wrap_small by (eapply in_width_mono; [|done]; lia). by apply write_var_uint_writes.
Qed.

Lemma read_signed_reads v : in_width 32 (zigzag v) -> reads read_signed_var_int (var_bits (zigzag v)) v.
Proof.
  intros Hz. rewrite <- (app_nil_r (var_bits _)). eapply reads_bind; [by apply read_var_uint_reads|]. rewrite zigzag_back. apply reads_ret.
Qed.

(** *** Bytes and padding *)

Lemma write_bytes_writes bytes : Forall (in_width 8) bytes -> writes (write_bytes bytes) (all_bits bytes).
Proof.
  intros H. apply writes_each. eapply Forall_impl; [exact H|]. intros b Hb. by apply write_bits_writes; [lia|].
Qed.

Lemma reads_repeat {A} (m : Reader A) (g : A -> list bool) xs :
  Forall (fun x => reads m (g x) x) xs -> reads (rd_repeat (length xs) m) (xs ≫= g) xs.
Proof.
  induction 1 as [|x xs Hx _ IH]; [apply reads_ret|]. cbn [rd_repeat length mbind list_bind]. eapply reads_bind; [exact Hx|].
  rewrite <- (app_nil_r (xs ≫= g)). eapply reads_bind; [exact IH|]. apply reads_ret.
Qed.

Lemma length_rbits r : length (rbits r) = (8 * length (r_bytes r) - r_bit_offset r)%nat.
Proof. unfold rbits. by rewrite length_drop, length_all_bits. Qed.

Lemma read_bytes_reads bytes : Z.of_nat (length bytes) < 2 ^ 61 -> Forall (in_width 8) bytes ->
  reads (read_bytes (Z.of_nat (length bytes))) (all_bits bytes) bytes.
Proof.
  intros Hl Hb r rest Hr. unfold read_bytes. rewrite (proj2 (checked_mul_Some 64 _ 8 (Z.of_nat (length bytes) * 8))) by (split; [lia|done]).
  cbn [ok_or rbind]. pose proof (f_equal length Hr) as Hlen. rewrite length_rbits, length_app, length_all_bits in Hlen.
  rewrite (proj2 (Z.ltb_ge _ _)) by (unfold saturating_sub; lia). rewrite Nat2Z.id.
  revert r rest Hr Hlen. change (reads (rd_repeat (length bytes) (let* b := read_bits 8 in rd_ret (wrap 8 b))) (all_bits bytes) bytes) || idtac.
  intros r rest Hr _. refine (reads_repeat _ byte_bits bytes _ r rest Hr). eapply Forall_impl; [exact Hb|]. intros b Hbb.
  rewrite <- (app_nil_r (byte_bits b)). eapply reads_bind; [by apply read_bits_reads; [lia|]|]. rewrite wrap_small by done. apply reads_ret.
Qed.

Lemma zero_padding_ok turns r : rbits r = replicate turns false -> exists r', zero_padding turns r = Ok (tt, r').
Proof.
  revert r. induction turns as [|n IH]; intros r H; [by exists r|]. cbn [zero_padding].
  destruct (read_bit_reads false r (replicate n false) H) as (r1 & E1 & H1). unfold rd_bind. rewrite E1. cbn [rbind fst snd]. by apply IH.
Qed.

Lemma assert_zero_padding_ok n r : rbits r = replicate n false -> exists r', assert_zero_padding r = Ok (tt, r').
Proof.
  intros H. apply zero_padding_ok. pose proof (f_equal length H) as Hl. rewrite length_rbits, length_replicate in Hl. rewrite H. f_equal. lia.
Qed.

(** A reader over the bytes of a writer sees what was written and the
    padding. *)
Lemma reader_of_writer w bs : holds w bs -> exists n, rbits (BitReader_new (w_bytes w)) = bs ++ replicate n false.
Proof. intros (_ & _ & H). eexists. unfold rbits. cbn [r_bytes r_bit_offset BitReader_new]. rewrite drop_0. exact H. Qed.

(** ** Round trips *)

Lemma rt_seq {A B} (m k : Writer) (rd : Reader A) (f : A -> Reader B) a b :
  roundtrip m rd a -> roundtrip k (f a) b -> roundtrip (m ;; k) (rd_bind rd f) b.
Proof. intros (bs1 & W1 & R1) (bs2 & W2 & R2). exists (bs1 ++ bs2). split; [by apply writes_seq|by eapply reads_bind]. Qed.

(** The last step of a sequence: the reader returns what it has read. *)
Lemma rt_last {A B} (m : Writer) (rd : Reader A) (f : A -> Reader B) a b :
  roundtrip m rd a -> reads (f a) [] b -> roundtrip m (rd_bind rd f) b.
Proof. intros (bs & W & R) Hf. exists bs. split; [done|]. rewrite <- (app_nil_r bs). by eapply reads_bind. Qed.

Lemma rt_skip {A} (rd : Reader A) a : reads rd [] a -> roundtrip wr_skip rd a.
Proof. intros H. exists []. split; [apply writes_skip|done]. Qed.

Lemma rt_bit b : roundtrip (wr_bit b) read_bit b.
Proof. exists [b]. split; [apply writes_bit|apply read_bit_reads]. Qed.

Lemma rt_bits v n : (n <= 32)%nat -> in_width (Z.of_nat n) v -> roundtrip (write_bits v n) (read_bits n) v.
Proof. intros. exists (bits_le v n). split; [by apply write_bits_writes|by apply read_bits_reads]. Qed.

Lemma rt_big_bits a width : bn_ok a -> 0 <= width -> in_width width (bn_val a) -> roundtrip (write_big_bits a width) (read_big_bits width) a.
Proof. intros. exists (bits_le (bn_val a) (Z.to_nat width)). split; [by apply write_big_bits_writes|by apply read_big_bits_reads]. Qed.

Lemma rt_var_uint v : in_width 32 v -> roundtrip (write_var_uint v) read_var_uint v.
Proof. intros. exists (var_bits v). split; [by apply write_var_uint_writes|by apply read_var_uint_reads]. Qed.

Lemma rt_signed v : in_width 32 (zigzag v) -> roundtrip (write_signed_var_int v) read_signed_var_int v.
Proof. intros. exists (var_bits (zigzag v)). split; [by apply write_signed_writes|by apply read_signed_reads]. Qed.

Lemma rt_bytes bytes : Z.of_nat (length bytes) < 2 ^ 61 -> Forall (in_width 8) bytes ->
  roundtrip (write_bytes bytes) (read_bytes (Z.of_nat (length bytes))) bytes.
Proof. intros. exists (all_bits bytes). split; [by apply write_bytes_writes|by apply read_bytes_reads]. Qed.

Lemma rt_assoc {A} (m1 m2 m3 : Writer) (rd : Reader A) a : roundtrip (m1 ;; (m2 ;; m3)) rd a -> roundtrip ((m1 ;; m2) ;; m3) rd a.
Proof.
  intros (bs & W & R). exists bs. split; [|done]. intros w b0 Hw. destruct (W w b0 Hw) as (w' & E & H). exists w'. split; [|done].
  revert E. unfold wr_seq. by destruct (m1 w).
Qed.

(** A step of the reader that consumes nothing. *)
Lemma rt_pure {A B} (m : Writer) (k : A -> Reader B) a b : roundtrip m (k a) b -> roundtrip m (rd_bind (rd_lift (Ok a)) k) b.
Proof. done. Qed.

Lemma reads_pure {A B} (k : A -> Reader B) bs a b : reads (k a) bs b -> reads (rd_bind (rd_lift (Ok a)) k) bs b.
Proof. done. Qed.

(** A loop of writes against [rd_repeat]. *)
Lemma rt_each {A B} (f : A -> Writer) (rd : Reader B) (g : A -> B) xs :
  Forall (fun x => roundtrip (f x) rd (g x)) xs -> roundtrip (wr_each f xs) (rd_repeat (length xs) rd) (g <$> xs).
Proof.
  induction 1 as [|x xs Hx _ IH]; [apply rt_skip, reads_ret|]. cbn [wr_each length rd_repeat fmap list_fmap].
  eapply rt_seq; [exact Hx|]. eapply rt_last; [exact IH|]. apply reads_ret.
Qed.

(** A finished candidate: the reader gets [a] from its bits. *)
Definition candidate {A} (c : BitWriter) (rd : Reader A) (a : A) : Prop := exists bs, holds c bs /\ reads rd bs a.

Lemma candidate_run {A} (m : Writer) (rd : Reader A) a :
  roundtrip m rd a -> exists c, m BitWriter_default = Ok c /\ candidate c rd a.
Proof. intros (bs & W & R). destruct (W _ _ holds_default) as (c & E & H). exists c. split; [done|]. by exists bs. Qed.

Lemma candidate_append {A} c (rd : Reader A) a : candidate c rd a -> roundtrip (append c) rd a.
Proof. intros (bs & H & R). exists bs. split; [by apply append_writes|done]. Qed.

Lemma rt_shortest {A} cs (rd : Reader A) a : cs <> [] -> Forall (fun c => candidate c rd a) cs -> roundtrip (append_shortest cs) rd a.
Proof.
  intros Hne Hall. destruct cs as [|c cs]; [done|]. apply candidate_append. cbn [append_shortest].
  rewrite Forall_forall in Hall. apply Hall, shortest_of_elem.
Qed.

(** ** What a reader can return

    [rd_post rd Q]: on any input the reader does not panic, and if it succeeds
    the result satisfies [Q]. *)

Definition no_panic {A} (c : Result CtkFailure A) (Q : A -> Prop) : Prop :=
  match c with
  | Ok a => Q a
  | Err (Failed _) => True
  | Err CtkPanic => False
  end.

Definition rd_post {A} (rd : Reader A) (Q : A -> Prop) : Prop := forall r, no_panic (rd r) (fun p => Q (fst p)).

Lemma post_ret {A} (a : A) (Q : A -> Prop) : Q a -> rd_post (rd_ret a) Q.
Proof. by intros H r. Qed.

Lemma post_fail {A} e (Q : A -> Prop) : rd_post (rd_lift (fail e)) Q.
Proof. by intros r. Qed.

Lemma post_lift {A} (c : Result CtkFailure A) (Q : A -> Prop) : no_panic c Q -> rd_post (rd_lift c) Q.
Proof. intros H r. unfold rd_lift. by destruct c as [|[]]. Qed.

Lemma post_bind {A B} (m : Reader A) (k : A -> Reader B) (Q : A -> Prop) (R : B -> Prop) :
  rd_post m Q -> (forall a, Q a -> rd_post (k a) R) -> rd_post (rd_bind m k) R.
Proof. intros Hm Hk r. unfold rd_bind. specialize (Hm r). destruct (m r) as [[a r']|[]]; simpl in *; [by apply Hk|done|done]. Qed.

Lemma post_weaken {A} (m : Reader A) (Q R : A -> Prop) : rd_post m Q -> (forall a, Q a -> R a) -> rd_post m R.
Proof. intros Hm H r. specialize (Hm r). destruct (m r) as [[a r']|[]]; simpl in *; auto. Qed.

Lemma post_repeat {A} (m : Reader A) (Q : A -> Prop) n : rd_post m Q -> rd_post (rd_repeat n m) (fun xs => length xs = n /\ Forall Q xs).
Proof.
  intros Hm. induction n as [|n IH]; cbn [rd_repeat]; [by apply post_ret|]. eapply post_bind; [exact Hm|]. intros x Hx.
  eapply post_bind; [exact IH|]. intros xs [Hl Hxs]. apply post_ret. split; [simpl; lia|by constructor].
Qed.

Lemma post_read_bit : rd_post read_bit (fun _ => True).
Proof.
  intros r. unfold read_bit. destruct (Nat.leb_spec (length (r_bytes r) * 8) (r_bit_offset r)) as [|H]; [done|].
  destruct (lookup_lt_is_Some_2 (r_bytes r) (r_bit_offset r / 8)) as [b ->]; [apply Nat.Div0.div_lt_upper_bound; lia|]. done.
Qed.

Lemma post_read_bits_from k n v : (k + n <= 32)%nat -> in_width (Z.of_nat k) v -> rd_post (read_bits_from k n v) (in_width (Z.of_nat (k + n))).
Proof.
  revert k v. induction n as [|n IH]; intros k v Hk Hv; cbn [read_bits_from]; [apply post_ret; by rewrite Nat.add_0_r|].
  eapply post_bind; [apply post_read_bit|]. intros b _. replace (k + S n)%nat with (k + 1 + n)%nat by lia. apply IH; [lia|].
  assert (in_width (Z.of_nat (k + 1)) v) by (eapply in_width_mono; [|exact Hv]; lia). destruct b; [|done].
  apply in_width_lor; [lia|done|]. rewrite shl1_pow2 by lia. split; [lia|]. apply Z.pow_lt_mono_r; lia.
Qed.

Lemma post_read_bits n : rd_post (read_bits n) (in_width (Z.of_nat n)).
Proof.
  unfold read_bits. destruct (Nat.ltb_spec 32 n) as [|H]; [apply post_fail|]. by apply (post_read_bits_from 0 n 0).
Qed.

Lemma post_read_big_bits_from k n a : bn_ok a -> rd_post (read_big_bits_from k n a) bn_ok.
Proof.
  revert k a. induction n as [|n IH]; intros k a Ha; cbn [read_big_bits_from]; [by apply post_ret|].
  eapply post_bind; [apply post_read_bit|]. intros b _. apply IH. destruct b; [by apply bn_set_bit_spec|done].
Qed.

Lemma post_read_big_bits width : rd_post (read_big_bits width) bn_ok.
Proof. apply post_read_big_bits_from, bn_ok_zero. Qed.

Lemma post_read_var_uint : rd_post read_var_uint (in_width 32).
Proof.
  unfold read_var_uint. do 3 (eapply post_bind; [apply post_read_bit|]; intros [] _; cbn [negb];
    [|eapply post_weaken; [apply post_read_bits|]; intros v Hv; eapply in_width_mono; [|exact Hv]; lia]).
  apply (post_read_bits 32).
Qed.

Lemma post_read_signed : rd_post read_signed_var_int (fun v => - 2 ^ 32 <= v < 2 ^ 32).
Proof.
  eapply post_bind; [apply post_read_var_uint|]. intros v [Hv1 Hv2]. apply post_ret. rewrite Z.quot_div_nonneg by lia.
  pose proof (Z.div_le_upper_bound v 2 v ltac:(lia) ltac:(lia)). pose proof (Z.div_pos v 2 ltac:(lia) ltac:(lia)). destruct (_ =? 1); lia.
Qed.

Lemma post_read_bytes n : 0 <= n -> rd_post (read_bytes n) (fun bytes => Z.of_nat (length bytes) = n /\ Forall (in_width 8) bytes).
Proof.
  intros Hn r. unfold read_bytes. destruct (checked_mul 64 n 8) as [b|]; [|done]. cbn [ok_or rbind]. destruct (_ <? b); [done|].
  assert (rd_post (rd_repeat (Z.to_nat n) (let* b := read_bits 8 in rd_ret (wrap 8 b))) (fun bytes => length bytes = Z.to_nat n /\ Forall (in_width 8) bytes)) as Hp.
  { apply post_repeat. eapply post_bind; [apply post_read_bits|]. intros v _. apply post_ret. apply wrap_in_width. lia. }
  specialize (Hp r). destruct (rd_repeat _ _ r) as [[bytes r']|[]]; simpl in *; [|done|done]. split; [lia|naive_solver].
Qed.

Lemma post_zero_padding : rd_post assert_zero_padding (fun _ => True).
Proof.
  intros r. unfold assert_zero_padding. set (n := (_ - _)%nat). clearbody n. revert r. induction n as [|n IH]; intros r; [done|]. cbn [zero_padding].
  change (no_panic (rd_bind read_bit (fun b : bool => if b then rd_lift (invalid "payload has trailing data") else zero_padding n) r) (fun p => (fun _ => True) (fst p))).
  apply (post_bind _ _ (fun _ => True) (fun _ => True) post_read_bit). intros [] _; [apply post_fail|]. intros r'. apply IH.
Qed.
