(* ===== verification/CtkCells.v ===== *)
(** * Cell encodings of the CTK3 codec

    [clearra-ctk3/src/cell.rs]: the twelve encodings of a field of color codes,
    the choice of the shortest, and the decoder that reads any of them.

    A color code is a [u8] from 0 to 8.  Flag vectors ([u8] values 0 and 1 in
    the code) are lists of booleans; vectors the code extends at the end are
    kept in that order.  Assignments and lookups by index are [CtkPanic] out
    of range. *)

From Stdlib Require Import ZArith Lia Sorted.
From stdpp Require Import prelude strings.
From S2P Require Import Prelude Words CtkBigNat CtkBits.

Local Open Scope Z_scope.

(** [xs.get(index).copied().unwrap_or(0)]. *)
Definition cell_at (codes : list Z) (index : nat) : Z := default 0 (codes !! index).

(** [codes[index] = code]. *)
Definition set_cell (codes : list Z) (index : nat) (code : Z) : Result CtkFailure (list Z) :=
  if (index <? length codes)%nat then Ok (<[index := code]> codes) else Err CtkPanic.

(** ** Palettes *)

Fixpoint mark_present (codes : list Z) (present : list bool) : Result CtkFailure (list bool) :=
  match codes with
  | [] => Ok present
  | code :: codes =>
      if (Z.to_nat code <? length present)%nat then mark_present codes (<[Z.to_nat code := true]> present) else Err CtkPanic
  end.

Definition unique_codes (codes : list Z) : Result CtkFailure (list Z) :=
  let? present := mark_present codes (replicate 9 false) in
  Ok (omap (fun ip : nat * bool => if snd ip then Some (Z.of_nat (fst ip)) else None) (imap pair present)).

Definition color_mask (codes : list Z) : Z := foldl (fun mask code => Z.lor mask (shl 32 1 code)) 0 codes.

Definition palette_from_mask (mask : Z) (minimum : nat) : list Z :=
  filter (fun code => negb (Z.land mask (shl 32 1 code) =? 0) = true) (Z.of_nat <$> seq minimum (9 - minimum)).

Definition bits_for_choices (choice_count : nat) : nat :=
  if (choice_count <=? 1)%nat then 0%nat else Z.to_nat (64 - leading_zeros 64 (Z.of_nat choice_count - 1)).

Definition bits_for_big_choices (choice_count : BigNat) : Z :=
  if bn_leb choice_count bn_one then 0 else bit_len (subtract_one choice_count).

Definition assert_color_code (code : Z) : Result CtkFailure unit := if code <=? 8 then Ok tt else invalid "field color is invalid".

(** [iter().position(..)]. *)
Fixpoint position {A} `{EqDecision A} (x : A) (l : list A) : option nat :=
  match l with
  | [] => None
  | y :: l => if decide (y = x) then Some 0%nat else S <$> position x l
  end.

(** The index of a color in a palette, in [width] bits; the color is expected
    to be there. *)
Definition write_palette_code (palette : list Z) (width : nat) (code : Z) : Writer :=
  match position code palette with
  | Some index => write_bits (Z.of_nat index) width
  | None => fun _ => Err CtkPanic
  end.

Definition read_palette_code (palette : list Z) (width : nat) (context : string) : Reader Z :=
  let* index := read_bits width in
  rd_lift (ok_or (palette !! Z.to_nat index) (Failed (InvalidPayload context))).

(** ** Masks *)

(** Runs of equal flags: [current] has been seen [run] times. *)
Fixpoint write_mask_runs (current : bool) (run : nat) (rest : list bool) : Writer :=
  match rest with
  | [] => write_var_uint (Z.of_nat (run - 1))
  | v :: rest =>
      if eqb v current then write_mask_runs current (run + 1) rest
      else write_var_uint (Z.of_nat (run - 1)) ;; write_mask_runs v 1 rest
  end.

Definition write_occupancy_mask (occupied : list bool) : Writer := fun w =>
  let? raw := (wr_bit false ;; wr_each wr_bit occupied) BitWriter_default in
  let? runs := (wr_bit true ;;
                match occupied with
                | [] => wr_skip
                | first :: rest => wr_bit first ;; write_mask_runs first 1 rest
                end) BitWriter_default in
  append (if (w_bit_len raw <=? w_bit_len runs)%nat then raw else runs) w.

(** [while occupied.len() < cell_count]; every turn adds at least one flag, so
    [cell_count] turns are enough. *)
Fixpoint read_mask_runs (fuel cell_count : nat) (value : bool) (occupied : list bool) : Reader (list bool) :=
  if (cell_count <=? length occupied)%nat then rd_ret occupied
  else
    match fuel with
    | O => rd_lift (Err CtkPanic)
    | S fuel =>
        let* n := read_var_uint in
        if Z.of_nat (cell_count - length occupied) <? n + 1 then rd_lift (invalid "occupancy run exceeds the field")
        else read_mask_runs fuel cell_count (negb value) (occupied ++ replicate (Z.to_nat (n + 1)) value)
    end.

Definition read_occupancy_mask (cell_count : nat) : Reader (list bool) :=
  let* runs := read_bit in
  if negb runs then rd_repeat cell_count read_bit
  else if (0 <? cell_count)%nat then
    let* value := read_bit in
    read_mask_runs cell_count cell_count value []
  else rd_ret [].

(** ** Encodings *)

Definition single_mode_encoding (mode : Z) (mode_width : nat) : Result CtkFailure BitWriter := write_bits mode mode_width BitWriter_default.

Definition or_zero (palette : list Z) : list Z := match palette with [] => [0] | _ => palette end.

Definition palette_encoding (codes : list Z) (mode_width : nat) : Result CtkFailure BitWriter :=
  let? palette := unique_codes codes in
  let palette := or_zero palette in
  (write_bits 0 mode_width ;;
   write_bits (color_mask palette) 9 ;;
   wr_each (write_palette_code palette (bits_for_choices (length palette))) codes) BitWriter_default.

(** The runs of equal colors; the last run is the head of [runs]. *)
Fixpoint color_runs (codes : list Z) (runs : list (Z * nat)) : list (Z * nat) :=
  match codes with
  | [] => rev runs
  | code :: codes =>
      color_runs codes
        (match runs with
         | (last_code, len) :: runs' => if last_code =? code then (last_code, (len + 1)%nat) :: runs' else (code, 1%nat) :: runs
         | [] => [(code, 1%nat)]
         end)
  end.

Definition run_length_encoding (codes : list Z) (mode_width : nat) : Result CtkFailure BitWriter :=
  let runs := color_runs codes [] in
  (write_bits 1 mode_width ;;
   write_var_uint (Z.of_nat (length runs)) ;;
   wr_each (fun run : Z * nat => write_bits (fst run) 4 ;; write_var_uint (Z.of_nat (snd run - 1))) runs) BitWriter_default.

(** Which cells differ from the fitted previous field. *)
Definition changed_flags (codes previous : list Z) : list bool := imap (fun i code => negb (code =? cell_at previous i)) codes.

Definition changed_cells (codes previous : list Z) : list (nat * Z) :=
  filter (fun ic : nat * Z => negb (snd ic =? cell_at previous (fst ic)) = true) (imap pair codes).

Definition flagged {A} (xs : list A) (flags : list bool) : list A :=
  omap (fun xb : A * bool => if snd xb then Some (fst xb) else None) (zip xs flags).

Fixpoint write_changes (prior : option nat) (changes : list (nat * Z)) : Writer :=
  match changes with
  | [] => wr_skip
  | (index, code) :: changes =>
      let gap := match prior with None => index | Some prior => (index - prior - 1)%nat end in
      write_var_uint (Z.of_nat gap) ;;
      write_bits code 4 ;;
      write_changes (Some index) changes
  end.

Definition delta_encoding (codes previous : list Z) (mode_width : nat) : Result CtkFailure BitWriter :=
  let changes := changed_cells codes previous in
  (write_bits 2 mode_width ;;
   write_var_uint (Z.of_nat (length changes)) ;;
   write_changes None changes) BitWriter_default.

Definition change_mask_encoding (codes previous : list Z) (mode_width : nat) : Result CtkFailure BitWriter :=
  let changed := changed_flags codes previous in
  let changed_codes := flagged codes changed in
  let? palette := unique_codes changed_codes in
  (write_bits 8 mode_width ;;
   write_occupancy_mask changed ;;
   write_bits (color_mask palette) 9 ;;
   wr_each (write_palette_code palette (bits_for_choices (length palette))) changed_codes) BitWriter_default.

(** Runs of adjacent changed cells, as start and colors; the last run is the
    head of [runs]. *)
Fixpoint change_runs (changes : list (nat * Z)) (runs : list (nat * list Z)) : list (nat * list Z) :=
  match changes with
  | [] => rev runs
  | (index, code) :: changes =>
      change_runs changes
        (match runs with
         | (start, values) :: runs' =>
             if (start + length values =? index)%nat then (start, values ++ [code]) :: runs' else (index, [code]) :: runs
         | [] => [(index, [code])]
         end)
  end.

Fixpoint write_run_spans (previous_end : nat) (runs : list (nat * list Z)) : Writer :=
  match runs with
  | [] => wr_skip
  | (start, values) :: runs =>
      write_var_uint (Z.of_nat (start - previous_end)) ;;
      write_var_uint (Z.of_nat (length values - 1)) ;;
      write_run_spans (start + length values) runs
  end.

Definition delta_run_encoding (codes previous : list Z) (mode_width : nat) : Result CtkFailure BitWriter :=
  let runs := change_runs (changed_cells codes previous) [] in
  let flattened := runs ≫= snd in
  let? palette := unique_codes flattened in
  (write_bits 9 mode_width ;;
   write_bits (color_mask palette) 9 ;;
   write_var_uint (Z.of_nat (length runs)) ;;
   write_run_spans 0 runs ;;
   wr_each (write_palette_code palette (bits_for_choices (length palette))) flattened) BitWriter_default.

Definition single_color_delta_encoding (codes previous : list Z) (mode_width : nat) : Result CtkFailure (option BitWriter) :=
  let changed := changed_flags codes previous in
  let? colors := unique_codes (flagged codes changed) in
  match colors with
  | [color] =>
      let? w := (write_bits 10 mode_width ;; write_bits color 4 ;; write_occupancy_mask changed) BitWriter_default in
      Ok (Some w)
  | _ => Ok None
  end.

(** [codes[index]] for each index. *)
Fixpoint cells_at (codes : list Z) (positions : list nat) : Result CtkFailure (list Z) :=
  match positions with
  | [] => Ok []
  | p :: positions => let? c := panic_none (codes !! p) in let? cs := cells_at codes positions in Ok (c :: cs)
  end.

(** The rank of [positions] among the combinations of [total] cells. *)
Definition write_rank (total : nat) (positions : list nat) (count : nat) : Writer :=
  write_big_bits (combination_rank positions) (bits_for_big_choices (combination_count total count)).

Definition combinatorial_delta_encoding (codes previous : list Z) (mode_width : nat) : Result CtkFailure BitWriter :=
  let positions := fst <$> changed_cells codes previous in
  let? colors := cells_at codes positions in
  let? palette := unique_codes colors in
  (write_bits 11 mode_width ;;
   write_var_uint (Z.of_nat (length positions)) ;;
   write_rank (length codes) positions (length positions) ;;
   write_bits (color_mask palette) 9 ;;
   wr_each (write_palette_code palette (bits_for_choices (length palette))) colors) BitWriter_default.

Definition occupied_flags (codes : list Z) : list bool := (fun code => negb (code =? 0)) <$> codes.

Definition non_empty_codes (codes : list Z) : list Z := filter (fun code => negb (code =? 0) = true) codes.

Definition occupancy_encoding (codes : list Z) (mode_width : nat) : Result CtkFailure BitWriter :=
  let non_empty := non_empty_codes codes in
  let? palette := unique_codes non_empty in
  (write_bits 3 mode_width ;;
   write_occupancy_mask (occupied_flags codes) ;;
   write_bits (Z.shiftr (color_mask palette) 1) 8 ;;
   wr_each (write_palette_code palette (bits_for_choices (length palette))) non_empty) BitWriter_default.

(** The positions in [remaining] of the cells with a color. *)
Fixpoint relative_positions (codes : list Z) (code : Z) (index : nat) (remaining : list nat) : Result CtkFailure (list nat) :=
  match remaining with
  | [] => Ok []
  | source :: remaining =>
      let? c := panic_none (codes !! source) in
      let? rest := relative_positions codes code (index + 1) remaining in
      Ok (if c =? code then index :: rest else rest)
  end.

(** [values.retain(..)]: drops the entries at the given positions, which are
    sorted, so the binary search finds exactly those. *)
Definition remove_relative_positions (values : list nat) (positions : list nat) : list nat :=
  omap (fun iv : nat * nat => if bool_decide (fst iv ∈ positions) then None else Some (snd iv)) (imap pair values).

(** The loop over all colors of the palette but the last; [counted] is whether
    the number of cells is written. *)
Fixpoint write_color_groups (counted : bool) (codes palette : list Z) (remaining : list nat) : Writer :=
  match palette with
  | code :: ((_ :: _) as rest) =>
      fun w =>
        let? positions := relative_positions codes code 0 remaining in
        ((if counted then write_var_uint (Z.of_nat (length positions)) else wr_skip) ;;
         write_rank (length remaining) positions (if counted then length positions else 4%nat) ;;
         write_color_groups counted codes rest (remove_relative_positions remaining positions)) w
  | _ => wr_skip
  end.

Definition multiset_encoding (codes : list Z) (mode_width : nat) : Result CtkFailure BitWriter :=
  let? palette := unique_codes codes in
  let palette := or_zero palette in
  (write_bits 4 mode_width ;;
   write_bits (color_mask palette) 9 ;;
   write_color_groups true codes palette (seq 0 (length codes))) BitWriter_default.

(** [counts[code]] for the codes of the field; [None] on the early return for
    a gray cell. *)
Fixpoint count_colors (codes : list Z) (counts : list nat) : Result CtkFailure (option (list nat)) :=
  match codes with
  | [] => Ok (Some counts)
  | code :: codes =>
      if code =? 1 then Ok None
      else if code =? 0 then count_colors codes counts
      else if (Z.to_nat code <? length counts)%nat then count_colors codes (alter S (Z.to_nat code) counts)
      else Err CtkPanic
  end.

Definition occupied_positions (flags : list bool) : list nat :=
  omap (fun ib : nat * bool => if snd ib then Some (fst ib) else None) (imap pair flags).

Definition tetromino_color_encoding (codes : list Z) (mode_width : nat) : Result CtkFailure (option BitWriter) :=
  let? counts := count_colors codes (replicate 9 0%nat) in
  match counts with
  | None => Ok None
  | Some counts =>
      let count_of code := default 0%nat (counts !! Z.to_nat code) in
      let palette := filter (fun code => negb (count_of code =? 0)%nat = true) (Z.of_nat <$> seq 2 7) in
      if bool_decide (palette = []) || existsb (fun code => negb (count_of code =? 4)%nat) palette then Ok None
      else
        let? w := (write_bits 5 mode_width ;;
                   write_occupancy_mask (occupied_flags codes) ;;
                   write_bits (Z.shiftr (color_mask palette) 2) 7 ;;
                   write_color_groups false codes palette (occupied_positions (occupied_flags codes))) BitWriter_default in
        Ok (Some w)
  end.

Definition arrays_equal_fitted (codes previous : list Z) : bool := forallb negb (changed_flags codes previous).

(** [candidates.push(candidate)] for an optional candidate. *)
Definition push_some {A} (xs : list A) (x : option A) : list A := match x with Some x => xs ++ [x] | None => xs end.

Definition write_best_cell_encoding (codes : list Z) (previous : option (list Z)) (mode_width : nat) (include_multiset : bool) : Writer :=
  fun w =>
  let? c0 := palette_encoding codes mode_width in
  let? c1 := run_length_encoding codes mode_width in
  let? c3 := occupancy_encoding codes mode_width in
  let candidates := [c0; c1; c3] in
  let? candidates :=
    match previous with
    | None => Ok candidates
    | Some previous =>
        let? c2 := delta_encoding codes previous mode_width in
        let candidates := candidates ++ [c2] in
        if (4 <=? mode_width)%nat then
          let? c8 := change_mask_encoding codes previous mode_width in
          let? c9 := delta_run_encoding codes previous mode_width in
          let candidates := candidates ++ [c8; c9] in
          let? c10 := single_color_delta_encoding codes previous mode_width in
          let candidates := push_some candidates c10 in
          let? c11 := combinatorial_delta_encoding codes previous mode_width in
          Ok (candidates ++ [c11])
        else Ok candidates
    end in
  let? candidates :=
    if include_multiset then
      let? candidates :=
        if forallb (fun code => code =? 0) codes then
          let? c7 := single_mode_encoding 7 mode_width in Ok (candidates ++ [c7])
        else Ok candidates in
      let? candidates :=
        if match previous with Some prior => arrays_equal_fitted codes prior | None => false end then
          let? c6 := single_mode_encoding 6 mode_width in Ok (candidates ++ [c6])
        else Ok candidates in
      let? c4 := multiset_encoding codes mode_width in
      let candidates := candidates ++ [c4] in
      let? c5 := tetromino_color_encoding codes mode_width in
      Ok (push_some candidates c5)
    else Ok candidates in
  append_shortest candidates w.

Definition write_best_predicted_cell_encoding (codes predictor : list Z) (mode_width : nat) : Writer :=
  fun w =>
  let? c2 := delta_encoding codes predictor mode_width in
  let? c8 := change_mask_encoding codes predictor mode_width in
  let? c9 := delta_run_encoding codes predictor mode_width in
  let? c11 := combinatorial_delta_encoding codes predictor mode_width in
  let candidates := [c2; c8; c9; c11] in
  let? candidates :=
    if bool_decide (codes = predictor) then
      let? c6 := single_mode_encoding 6 mode_width in Ok (candidates ++ [c6])
    else Ok candidates in
  let? c10 := single_color_delta_encoding codes predictor mode_width in
  append_shortest (push_some candidates c10) w.

(** ** The decoder *)

Definition fitted_previous (previous : option (list Z)) (cell_count : nat) : Result CtkFailure (list Z) :=
  match previous with
  | None => invalid "delta field has no predictor"
  | Some previous => Ok (cell_at previous <$> seq 0 cell_count)
  end.

(** Mode 1: the runs of colors. *)
Fixpoint read_color_runs (cell_count turns : nat) (codes : list Z) : Reader (list Z) :=
  match turns with
  | O => if (length codes =? cell_count)%nat then rd_ret codes else rd_lift (invalid "color runs do not fill the field")
  | S turns =>
      let* code := read_bits 4 in
      let* _ := rd_lift (assert_color_code code) in
      let* n := read_var_uint in
      if Z.of_nat (cell_count - length codes) <? n + 1 then rd_lift (invalid "color run exceeds the field")
      else read_color_runs cell_count turns (codes ++ replicate (Z.to_nat (n + 1)) code)
  end.

(** Mode 2: the changed cells, by gaps; [previous_index] is a [usize]. *)
Fixpoint read_changes (cell_count turns : nat) (previous_index : option Z) (codes : list Z) : Reader (list Z) :=
  match turns with
  | O => rd_ret codes
  | S turns =>
      let* gap := read_var_uint in
      let index := match previous_index with None => gap | Some prior => saturating_add 64 (saturating_add 64 prior gap) 1 end in
      let* code := read_bits 4 in
      let* _ := rd_lift (assert_color_code code) in
      if (Z.of_nat cell_count <=? index) || match previous_index with Some prior => index <=? prior | None => false end
      then rd_lift (invalid "delta cell index is invalid")
      else
        let* codes := rd_lift (set_cell codes (Z.to_nat index) code) in
        read_changes cell_count turns (Some index) codes
  end.

(** [codes[index] = read_palette_code(..)] for each index. *)
Fixpoint read_into (palette : list Z) (width : nat) (context : string) (indexes : list nat) (codes : list Z) : Reader (list Z) :=
  match indexes with
  | [] => rd_ret codes
  | i :: indexes =>
      let* code := read_palette_code palette width context in
      let* codes := rd_lift (set_cell codes i code) in
      read_into palette width context indexes codes
  end.

(** Mode 8: only the cells whose flag is set. *)
Fixpoint read_flagged (palette : list Z) (width : nat) (changed : list bool) (indexes : list nat) (codes : list Z) : Reader (list Z) :=
  match indexes with
  | [] => rd_ret codes
  | i :: indexes =>
      let* flag := rd_lift (panic_none (changed !! i)) in
      if (flag : bool) then
        let* code := read_palette_code palette width "delta palette index" in
        let* codes := rd_lift (set_cell codes i code) in
        read_flagged palette width changed indexes codes
      else read_flagged palette width changed indexes codes
  end.

(** Mode 9: the spans of the runs, as start and length. *)
Fixpoint read_run_spans (cell_count turns : nat) (previous_end : Z) (runs : list (nat * nat)) : Reader (list (nat * nat)) :=
  match turns with
  | O => rd_ret runs
  | S turns =>
      let* gap := read_var_uint in
      let* start := rd_lift (ok_or (checked_add 64 previous_end gap) (Failed IntegerOverflow)) in
      let* n := read_var_uint in
      let len := n + 1 in
      if (start <? previous_end) || (Z.of_nat cell_count <? start) || (Z.of_nat cell_count - start <? len)
      then rd_lift (invalid "delta run is invalid")
      else read_run_spans cell_count turns (start + len) (runs ++ [(Z.to_nat start, Z.to_nat len)])
  end.

Definition span_cells (runs : list (nat * nat)) : list nat := runs ≫= (fun r => seq (fst r) (snd r)).

(** A rank and the positions it stands for. *)
Definition read_positions (total count : nat) (reason : string) : Reader (list nat) :=
  let choices := combination_count total count in
  let* rank := read_big_bits (bits_for_big_choices choices) in
  if bn_leb choices rank then rd_lift (invalid reason)
  else rd_lift (ok_or (combination_unrank total count rank) (Failed (InvalidPayload reason))).

(** [for position in &positions { codes[remaining[*position]] = code }]. *)
Fixpoint paint (remaining : list nat) (code : Z) (positions : list nat) (codes : list Z) : Result CtkFailure (list Z) :=
  match positions with
  | [] => Ok codes
  | p :: positions =>
      let? target := panic_none (remaining !! p) in
      let? codes := set_cell codes target code in
      paint remaining code positions codes
  end.

(** The loop over all colors of the palette but the last; [fixed] is the count
    of a color when it is not read. *)
Fixpoint read_color_groups (fixed : option nat) (reason : string) (palette : list Z) (remaining : list nat) (codes : list Z)
  : Reader (list nat * list Z) :=
  match palette with
  | code :: ((_ :: _) as rest) =>
      let* count := match fixed with Some n => rd_ret (Z.of_nat n) | None => read_var_uint end in
      if match fixed with Some _ => false | None => Z.of_nat (length remaining) <? count end
      then rd_lift (invalid "multiset count exceeds the field")
      else
        let* positions := read_positions (length remaining) (Z.to_nat count) reason in
        let* codes := rd_lift (paint remaining code positions codes) in
        read_color_groups fixed reason rest (remove_relative_positions remaining positions) codes
  | _ => rd_ret (remaining, codes)
  end.

(** The last color fills what remains. *)
Fixpoint fill_remaining (code : Z) (remaining : list nat) (codes : list Z) : Result CtkFailure (list Z) :=
  match remaining with
  | [] => Ok codes
  | i :: remaining => let? codes := set_cell codes i code in fill_remaining code remaining codes
  end.

Definition finish_groups (palette : list Z) (state : list nat * list Z) : Result CtkFailure (list Z) :=
  match fst state with
  | [] => Ok (snd state)
  | _ => let? code := panic_none (last palette) in fill_remaining code (fst state) (snd state)
  end.

Definition read_multiset_encoding (cell_count : nat) : Reader (list Z) :=
  let* mask := read_bits 9 in
  let palette := palette_from_mask mask 0 in
  if bool_decide (palette = []) then rd_lift (invalid "multiset palette is empty")
  else
    let* state := read_color_groups None "multiset rank is invalid" palette (seq 0 cell_count) (replicate cell_count 255) in
    rd_lift (finish_groups palette state).

Definition read_tetromino_color_encoding (cell_count : nat) : Reader (list Z) :=
  let* occupied := read_occupancy_mask cell_count in
  let* mask := read_bits 7 in
  let palette := palette_from_mask (shl 32 mask 2) 2 in
  let occupied_count := length (filter (fun b => b = true) occupied) in
  if bool_decide (palette = []) || negb (occupied_count =? length palette * 4)%nat then rd_lift (invalid "tetromino color field is invalid")
  else
    let* state := read_color_groups (Some 4%nat) "tetromino color rank is invalid" palette (occupied_positions occupied) (replicate cell_count 0) in
    rd_lift (finish_groups palette state).

(** Mode 10: one color over the flagged cells. *)
Definition paint_flagged (code : Z) (codes : list Z) (changed : list bool) : list Z :=
  imap (fun i c => match changed !! i with Some true => code | _ => c end) codes.

(** Mode 3: a color for each occupied cell, zero for the others. *)
Fixpoint read_occupied (palette : list Z) (width : nat) (occupied : list bool) : Reader (list Z) :=
  match occupied with
  | [] => rd_ret []
  | o :: occupied =>
      let* c := if (o : bool) then read_palette_code palette width "occupied color index" else rd_ret 0 in
      let* cs := read_occupied palette width occupied in
      rd_ret (c :: cs)
  end.

Definition read_cell_encoding (cell_count : nat) (previous : option (list Z)) (mode_width : nat) : Reader (list Z) :=
  let* mode := read_bits mode_width in
  if mode =? 0 then
    let* mask := read_bits 9 in
    let palette := palette_from_mask mask 0 in
    if bool_decide (palette = []) then rd_lift (invalid "palette is empty")
    else rd_repeat cell_count (read_palette_code palette (bits_for_choices (length palette)) "palette index is invalid")
  else if mode =? 1 then
    let* run_count := read_var_uint in
    if Z.of_nat cell_count <? run_count then rd_lift (invalid "color run count is invalid")
    else read_color_runs cell_count (Z.to_nat run_count) []
  else if mode =? 2 then
    let* codes := rd_lift (fitted_previous previous cell_count) in
    let* change_count := read_var_uint in
    if Z.of_nat cell_count <? change_count then rd_lift (invalid "delta count exceeds the field")
    else read_changes cell_count (Z.to_nat change_count) None codes
  else if (mode =? 4) && (3 <=? mode_width)%nat then read_multiset_encoding cell_count
  else if (mode =? 5) && (3 <=? mode_width)%nat then read_tetromino_color_encoding cell_count
  else if (mode =? 6) && (3 <=? mode_width)%nat then rd_lift (fitted_previous previous cell_count)
  else if (mode =? 7) && (3 <=? mode_width)%nat then rd_ret (replicate cell_count 0)
  else if (mode =? 8) && (4 <=? mode_width)%nat then
    let* codes := rd_lift (fitted_previous previous cell_count) in
    let* changed := read_occupancy_mask cell_count in
    let* mask := read_bits 9 in
    let palette := palette_from_mask mask 0 in
    if existsb id changed && bool_decide (palette = []) then rd_lift (invalid "delta palette is empty")
    else read_flagged palette (bits_for_choices (length palette)) changed (seq 0 cell_count) codes
  else if (mode =? 9) && (4 <=? mode_width)%nat then
    let* codes := rd_lift (fitted_previous previous cell_count) in
    let* mask := read_bits 9 in
    let palette := palette_from_mask mask 0 in
    let* run_count := read_var_uint in
    if Z.of_nat cell_count <? run_count then rd_lift (invalid "delta run count is invalid")
    else
      let* runs := read_run_spans cell_count (Z.to_nat run_count) 0 [] in
      if (0 <? length (span_cells runs))%nat && bool_decide (palette = []) then rd_lift (invalid "delta palette is empty")
      else read_into palette (bits_for_choices (length palette)) "delta palette index" (span_cells runs) codes
  else if (mode =? 10) && (4 <=? mode_width)%nat then
    let* codes := rd_lift (fitted_previous previous cell_count) in
    let* code := read_bits 4 in
    let* _ := rd_lift (assert_color_code code) in
    let* changed := read_occupancy_mask cell_count in
    rd_ret (paint_flagged code codes changed)
  else if (mode =? 11) && (4 <=? mode_width)%nat then
    let* codes := rd_lift (fitted_previous previous cell_count) in
    let* count := read_var_uint in
    if Z.of_nat cell_count <? count then rd_lift (invalid "delta count exceeds the field")
    else
      let* positions := read_positions cell_count (Z.to_nat count) "delta rank is invalid" in
      let* mask := read_bits 9 in
      let palette := palette_from_mask mask 0 in
      if (0 <? count) && bool_decide (palette = []) then rd_lift (invalid "delta palette is empty")
      else read_into palette (bits_for_choices (length palette)) "delta palette index" positions codes
  else if negb (mode =? 3) then rd_lift (invalid "field encoding mode is invalid")
  else
    let* occupied := read_occupancy_mask cell_count in
    let* mask := read_bits 8 in
    let palette := palette_from_mask (shl 32 mask 1) 1 in
    if existsb id occupied && bool_decide (palette = []) then rd_lift (invalid "occupied color palette is empty")
    else read_occupied palette (bits_for_choices (length palette)) occupied.

(** ** Palettes *)

Definition code_ok (c : Z) : Prop := 0 <= c <= 8.

(** The codes from [minimum] to 8. *)
Definition code_range (minimum : nat) : list Z := Z.of_nat <$> seq minimum (9 - minimum).

Lemma elem_of_code_range m c : c ∈ code_range m <-> Z.of_nat m <= c <= 8.
Proof.
  unfold code_range. rewrite list_elem_of_fmap. setoid_rewrite elem_of_seq. split.
  - intros (i & -> & Hi). lia.
  - intros H. exists (Z.to_nat c). lia.
Qed.

Lemma mark_present_spec codes present : Forall code_ok codes -> length present = 9%nat ->
  exists present', mark_present codes present = Ok present' /\ length present' = 9%nat /\
    forall c, code_ok c -> present' !! Z.to_nat c = Some true <-> present !! Z.to_nat c = Some true \/ c ∈ codes.
Proof.
  intros Hc. revert present. induction Hc as [|c codes [Hc1 Hc2] _ IH]; intros present Hl; cbn [mark_present].
  { exists present. split; [done|]. split; [done|]. intros c _. split; [by left|]. by intros [?|?%not_elem_of_nil]. }
  rewrite (proj2 (Nat.ltb_lt _ _)) by lia. destruct (IH (<[Z.to_nat c := true]> present)) as (p' & E & L & H); [by rewrite length_insert|].
  exists p'. split; [done|]. split; [done|]. intros d Hd. rewrite H by done. rewrite elem_of_cons. destruct (decide (d = c)) as [->|Hne].
  - rewrite list_lookup_insert_eq by lia. naive_solver.
  - rewrite list_lookup_insert_ne by (unfold code_ok in Hd; lia). naive_solver.
Qed.

Lemma present_codes (present : list bool) :
  omap (fun ip : nat * bool => if snd ip then Some (Z.of_nat (fst ip)) else None) (imap pair present) =
  filter (fun c => present !! Z.to_nat c = Some true) (Z.of_nat <$> seq 0 (length present)).
Proof.
  induction present as [|b present IH] using rev_ind; [done|].
  rewrite imap_app, omap_app, IH, length_app, seq_app, fmap_app, filter_app. f_equal.
  - apply filter_ext_in. intros c (i & -> & Hi%elem_of_seq)%list_elem_of_fmap. rewrite Nat2Z.id, lookup_app_l by lia. done.
  - cbn. rewrite Nat.add_0_r, Nat2Z.id. assert ((present ++ [b]) !! length present = Some b) as -> by (by rewrite lookup_app_r, Nat.sub_diag). destruct b; by case_decide.
Qed.

(** The palette of a list of codes: the codes that occur, in order. *)
Definition palette_of (codes : list Z) : list Z := filter (fun c => c ∈ codes) (code_range 0).

Lemma unique_codes_spec codes : Forall code_ok codes -> unique_codes codes = Ok (palette_of codes).
Proof.
  intros Hc. unfold unique_codes. destruct (mark_present_spec codes (replicate 9 false) Hc) as (p & -> & Hl & Hp); [done|]. cbn [rbind].
  rewrite present_codes, Hl. f_equal. apply filter_ext_in. intros c Hcr%(elem_of_code_range 0). rewrite Hp by done.
  split; [|by right]. intros [H|H]; [|done]. apply lookup_replicate in H as [H _]. done.
Qed.

Lemma elem_of_palette codes c : Forall code_ok codes -> c ∈ palette_of codes <-> c ∈ codes.
Proof.
  intros Hc. unfold palette_of. rewrite list_elem_of_filter, elem_of_code_range. split; [naive_solver|]. intros H. split; [done|].
  rewrite Forall_forall in Hc. apply (Hc c H).
Qed.

Lemma palette_range codes c : c ∈ palette_of codes -> code_ok c.
Proof. unfold palette_of. rewrite list_elem_of_filter, elem_of_code_range. unfold code_ok. lia. Qed.

Lemma length_palette codes : (length (palette_of codes) <= 9)%nat.
Proof. apply (length_filter (fun c => c ∈ codes) (code_range 0)). Qed.

Lemma color_mask_testbit (palette : list Z) i : (forall c, c ∈ palette -> code_ok c) -> 0 <= i ->
  Z.testbit (color_mask palette) i = bool_decide (i ∈ palette).
Proof.
  intros Hp Hi. unfold color_mask.
  assert (forall m, Z.testbit (foldl (fun mask code => Z.lor mask (shl 32 1 code)) m palette) i = Z.testbit m i || bool_decide (i ∈ palette)) as H.
  { induction palette as [|c palette IH]; intros m; cbn [foldl]; [by rewrite orb_false_r|].
    rewrite IH by set_solver. pose proof (Hp c ltac:(set_solver)) as [? ?]. rewrite Z.lor_spec, testbit_bit by lia.
    rewrite <- orb_assoc. f_equal. destruct (Z.eqb_spec i c) as [->|Hne]; [symmetry; rewrite bool_decide_true by set_solver; done|].
    apply bool_decide_ext. set_solver. }
  by rewrite H, Z.bits_0.
Qed.

Lemma color_mask_width (palette : list Z) : (forall c, c ∈ palette -> code_ok c) -> in_width 9 (color_mask palette).
Proof.
  intros Hp. apply in_width_of_bits; [lia| |].
  - unfold color_mask. assert (forall m, 0 <= m -> 0 <= foldl (fun mask code => Z.lor mask (shl 32 1 code)) m palette) as H; [|by apply H].
    clear Hp. induction palette as [|c palette IH]; intros m Hm; [done|]. apply IH. apply Z.lor_nonneg. split; [done|].
    apply (in_width_shl 32 1 c); lia.
  - intros i Hi. rewrite color_mask_testbit by (done || lia). apply bool_decide_eq_false. intros H%Hp. unfold code_ok in H. lia.
Qed.

(** A mask with the bits of the palette from [minimum] on gives the palette
    back. *)
Lemma palette_from_mask_spec codes mask minimum :
  Forall code_ok codes -> (minimum <= 9)%nat -> (forall c, c ∈ codes -> Z.of_nat minimum <= c) ->
  (forall c, Z.of_nat minimum <= c <= 8 -> Z.testbit mask c = Z.testbit (color_mask (palette_of codes)) c) ->
  palette_from_mask mask minimum = palette_of codes.
Proof.
  intros Hc Hm Hmin Hmask. unfold palette_from_mask, palette_of. fold (code_range minimum).
  assert (code_range 0 = (Z.of_nat <$> seq 0 minimum) ++ code_range minimum) as ->.
  { unfold code_range. rewrite <- fmap_app. f_equal. replace (9 - 0)%nat with (minimum + (9 - minimum))%nat by lia. by rewrite seq_app. }
  rewrite filter_app.
  assert (filter (fun c => c ∈ codes) (Z.of_nat <$> seq 0 minimum) = []) as ->.
  { rewrite (filter_ext_in _ (fun _ => False)); [by induction (Z.of_nat <$> seq 0 minimum)|]. intros c (i & -> & Hi%elem_of_seq)%list_elem_of_fmap. split; [|done].
    intros H%Hmin. lia. }
  apply filter_ext_in. intros c Hr%elem_of_code_range. rewrite land_bit_eqb, negb_involutive, Hmask by lia.
  rewrite color_mask_testbit by (lia || apply palette_range). rewrite bool_decide_eq_true. by apply elem_of_palette.
Qed.

(** *** Color indexes *)

Lemma position_spec {A} `{EqDecision A} (x : A) l : x ∈ l -> exists i, position x l = Some i /\ l !! i = Some x.
Proof.
  induction l as [|y l IH]; [by intros ?%not_elem_of_nil|]. intros H. cbn [position]. destruct (decide (y = x)) as [->|Hne]; [by exists 0%nat|].
  apply elem_of_cons in H as [->|H]; [done|]. destruct (IH H) as (i & -> & Hi). by exists (S i).
Qed.

Lemma bits_for_choices_width n i : (i < n)%nat -> Z.of_nat n < 2 ^ 32 -> in_width (Z.of_nat (bits_for_choices n)) (Z.of_nat i) /\ (bits_for_choices n <= 32)%nat.
Proof.
  intros Hi Hn. unfold bits_for_choices. destruct (Nat.leb_spec n 1); [replace i with 0%nat by lia; split; [done|lia]|].
  unfold leading_zeros. rewrite (proj2 (Z.eqb_neq _ _)) by lia. pose proof (Z.log2_nonneg (Z.of_nat n - 1)).
  pose proof (Z.log2_spec (Z.of_nat n - 1) ltac:(lia)) as [_ H2]. pose proof (proj1 (Z.log2_lt_pow2 (Z.of_nat n - 1) 32 ltac:(lia)) ltac:(lia)).
  rewrite Z2Nat.id by lia. replace (64 - (64 - 1 - Z.log2 (Z.of_nat n - 1))) with (Z.succ (Z.log2 (Z.of_nat n - 1))) by lia.
  split; [split; lia|lia].
Qed.

Lemma bits_for_big_choices_width choices v : bn_ok choices -> 0 <= v < bn_val choices ->
  0 <= bits_for_big_choices choices /\ in_width (bits_for_big_choices choices) v.
Proof.
  intros Hc Hv. unfold bits_for_big_choices. rewrite bn_leb_spec, bn_val_one by (done || apply bn_ok_one).
  destruct (Z.leb_spec (bn_val choices) 1); [split; [done|]; unfold in_width; lia|].
  destruct (subtract_one_spec choices Hc) as [S1 S2]; [lia|]. rewrite bit_len_spec, S2 by done.
  rewrite (proj2 (Z.eqb_neq _ _)) by lia. pose proof (Z.log2_nonneg (bn_val choices - 1)).
  pose proof (Z.log2_spec (bn_val choices - 1) ltac:(lia)) as [_ H2]. split; [lia|]. split; [lia|].
  replace (Z.log2 (bn_val choices - 1) + 1) with (Z.succ (Z.log2 (bn_val choices - 1))) by lia. lia.
Qed.

Lemma rt_palette_code (palette : list Z) c context : c ∈ palette -> (length palette <= 9)%nat ->
  roundtrip (write_palette_code palette (bits_for_choices (length palette)) c)
    (read_palette_code palette (bits_for_choices (length palette)) context) c.
Proof.
  intros Hc Hl. unfold write_palette_code, read_palette_code. destruct (position_spec c palette Hc) as (i & -> & Hi).
  pose proof (lookup_lt_Some _ _ _ Hi) as Hlt. destruct (bits_for_choices_width (length palette) i Hlt) as [W1 W2]; [lia|].
  eapply rt_last; [by apply rt_bits|]. rewrite Nat2Z.id, Hi. apply reads_lift.
Qed.

(** ** Masks *)

Lemma read_mask_runs_done fuel n value acc : (n <= length acc)%nat -> read_mask_runs fuel n value acc = rd_ret acc.
Proof. intros H. destruct fuel; cbn [read_mask_runs]; by rewrite (proj2 (Nat.leb_le _ _)). Qed.

Lemma read_mask_runs_step fuel n value acc : (length acc < n)%nat -> read_mask_runs (S fuel) n value acc =
  let* k := read_var_uint in
  if Z.of_nat (n - length acc) <? k + 1 then rd_lift (invalid "occupancy run exceeds the field")
  else read_mask_runs fuel n (negb value) (acc ++ replicate (Z.to_nat (k + 1)) value).
Proof. intros H. cbn [read_mask_runs]. by rewrite (proj2 (Nat.leb_gt _ _)). Qed.

Lemma rt_mask_runs rest current run acc fuel :
  (1 <= run)%nat -> Z.of_nat (length acc + run + length rest) < 2 ^ 32 -> (length rest < fuel)%nat ->
  roundtrip (write_mask_runs current run rest) (read_mask_runs fuel (length acc + run + length rest) current acc)
    (acc ++ replicate run current ++ rest).
Proof.
  revert current run acc fuel. induction rest as [|v rest IH]; intros current run acc fuel Hr Hn Hf; cbn [write_mask_runs length] in *.
  - destruct fuel as [|fuel]; [lia|]. rewrite read_mask_runs_step by lia. eapply rt_last; [apply rt_var_uint; unfold in_width; lia|].
    rewrite (proj2 (Z.ltb_ge _ _)) by lia. replace (Z.to_nat (Z.of_nat (run - 1) + 1)) with run by lia.
    rewrite read_mask_runs_done by (rewrite length_app, length_replicate; lia). rewrite app_nil_r. apply reads_ret.
  - destruct (eqb_spec v current) as [->|Hv].
    + replace (length acc + run + S (length rest))%nat with (length acc + (run + 1) + length rest)%nat by lia.
      replace (replicate run current ++ current :: rest) with (replicate (run + 1) current ++ rest); [apply IH; lia|].
      by rewrite replicate_add, <- app_assoc.
    + destruct fuel as [|fuel]; [lia|]. rewrite read_mask_runs_step by lia. eapply rt_seq; [apply rt_var_uint; unfold in_width; lia|].
      rewrite (proj2 (Z.ltb_ge _ _)) by lia. replace (Z.to_nat (Z.of_nat (run - 1) + 1)) with run by lia.
      replace (negb current) with v by (destruct v, current; done).
      replace (length acc + run + S (length rest))%nat with (length (acc ++ replicate run current) + 1 + length rest)%nat
        by (rewrite length_app, length_replicate; lia).
      replace (acc ++ replicate run current ++ v :: rest) with ((acc ++ replicate run current) ++ replicate 1 v ++ rest) by (by rewrite <- app_assoc).
      apply IH; [lia|rewrite length_app, length_replicate; lia|lia].
Qed.

Lemma rt_occupancy_mask occupied : Z.of_nat (length occupied) < 2 ^ 32 ->
  roundtrip (write_occupancy_mask occupied) (read_occupancy_mask (length occupied)) occupied.
Proof.
  intros Hl.
  destruct (candidate_run (wr_bit false ;; wr_each wr_bit occupied) (read_occupancy_mask (length occupied)) occupied) as (raw & Er & Cr).
  { eapply rt_seq; [apply rt_bit|]. cbn [negb]. rewrite <- (list_fmap_id occupied) at 3. apply rt_each. apply Forall_forall. intros b _. apply rt_bit. }
  set (k := match occupied with [] => wr_skip | first :: rest => wr_bit first ;; write_mask_runs first 1 rest end).
  destruct (candidate_run (wr_bit true ;; k) (read_occupancy_mask (length occupied)) occupied) as (runs & Eu & Cu).
  { eapply rt_seq; [apply rt_bit|]. cbn [negb]. unfold k. destruct occupied as [|first rest]; [apply rt_skip, reads_ret|].
    cbn [length]. rewrite (proj2 (Nat.ltb_lt _ _)) by lia. eapply rt_seq; [apply rt_bit|].
    apply (rt_mask_runs rest first 1 [] (S (length rest))); simpl in *; lia. }
  assert (exists bs, writes (append (if (w_bit_len raw <=? w_bit_len runs)%nat then raw else runs)) bs /\ reads (read_occupancy_mask (length occupied)) bs occupied) as (bs & W & R).
  { by destruct (_ <=? _)%nat; apply candidate_append. }
  exists bs. split; [|done]. intros w bs0 Hw. unfold write_occupancy_mask. fold k. rewrite Er. cbn [rbind]. rewrite Eu. cbn [rbind]. by apply W.
Qed.

(** ** Encodings *)

(** The encoder succeeds and the decoder reads the field back. *)
Definition encodes (enc : Result CtkFailure BitWriter) (rd : Reader (list Z)) (codes : list Z) : Prop :=
  exists c, enc = Ok c /\ candidate c rd codes.

Definition encodes_opt (enc : Result CtkFailure (option BitWriter)) (rd : Reader (list Z)) (codes : list Z) : Prop :=
  exists o, enc = Ok o /\ forall c, o = Some c -> candidate c rd codes.

Lemma encodes_run m rd codes : roundtrip m rd codes -> encodes (m BitWriter_default) rd codes.
Proof. apply candidate_run. Qed.

Lemma rt_color_mask src : Forall code_ok src ->
  roundtrip (write_bits (color_mask (palette_of src)) 9) (read_bits 9) (color_mask (palette_of src)) /\
  palette_from_mask (color_mask (palette_of src)) 0 = palette_of src.
Proof.
  intros Hs. split.
  - apply rt_bits; [lia|]. apply color_mask_width. apply palette_range.
  - apply palette_from_mask_spec; [done|lia| |done]. intros c Hc. rewrite Forall_forall in Hs. apply (Hs c Hc).
Qed.

(** An empty palette is replaced by the color zero. *)
Lemma or_zero_palette codes : Forall code_ok codes ->
  exists src, Forall code_ok src /\ (forall c, c ∈ codes -> c ∈ src) /\ or_zero (palette_of codes) = palette_of src /\ palette_of src <> [].
Proof.
  intros Hc. destruct (palette_of codes) as [|p ps] eqn:E.
  - exists [0]. split; [by repeat constructor|]. split; [|done]. intros c Hcc%elem_of_palette; [|done]. rewrite E in Hcc. by apply not_elem_of_nil in Hcc.
  - exists codes. rewrite E. split; [done|]. by split.
Qed.

Lemma rt_palette_codes src codes context : (forall c, c ∈ codes -> c ∈ palette_of src) ->
  Forall (fun c => roundtrip (write_palette_code (palette_of src) (bits_for_choices (length (palette_of src))) c)
    (read_palette_code (palette_of src) (bits_for_choices (length (palette_of src))) context) c) codes.
Proof. intros H. apply Forall_forall. intros c Hc. apply rt_palette_code; [by apply H|apply length_palette]. Qed.

Lemma mode_width_ok (mw : nat) (Hmw : (2 <= mw <= 32)%nat) mode : 0 <= mode < 4 \/ (0 <= mode < 8 /\ (3 <= mw)%nat) \/ (0 <= mode < 16 /\ (4 <= mw)%nat) -> in_width (Z.of_nat mw) mode.
Proof.
  intros H. assert (2 ^ 2 <= 2 ^ Z.of_nat mw) by (apply Z.pow_le_mono_r; lia). split; [lia|].
  destruct H as [?|[[? ?]|[? ?]]]; [lia| |].
  - assert (2 ^ 3 <= 2 ^ Z.of_nat mw) by (apply Z.pow_le_mono_r; lia). lia.
  - assert (2 ^ 4 <= 2 ^ Z.of_nat mw) by (apply Z.pow_le_mono_r; lia). lia.
Qed.

(** *** Runs of colors *)

Definition expand_runs (runs : list (Z * nat)) : list Z := runs ≫= (fun r => replicate (snd r) (fst r)).

Lemma color_runs_spec cs runs : Forall (fun r => (1 <= snd r)%nat) runs ->
  Forall (fun r => (1 <= snd r)%nat) (color_runs cs runs) /\ expand_runs (color_runs cs runs) = expand_runs (rev runs) ++ cs /\
  (forall r, r ∈ color_runs cs runs -> fst r ∈ cs \/ fst r ∈ (fst <$> runs)).
Proof.
  revert runs. induction cs as [|c cs IH]; intros runs Hr; cbn [color_runs].
  { rewrite app_nil_r. split; [by apply Forall_rev|]. split; [done|]. intros r Hin. right. apply list_elem_of_fmap. exists r. split; [done|].
    by rewrite list_elem_of_In, <- in_rev, <- list_elem_of_In in Hin. }
  set (runs' := match runs with [] => [(c, 1%nat)] | (l, n) :: rs => if l =? c then (l, (n + 1)%nat) :: rs else (c, 1%nat) :: runs end).
  assert (Forall (fun r => (1 <= snd r)%nat) runs' /\ expand_runs (rev runs') = expand_runs (rev runs) ++ [c] /\
    forall x, x ∈ fst <$> runs' -> x = c \/ x ∈ fst <$> runs) as (R1 & R2 & R3).
  { unfold runs'. destruct runs as [|[l n] rs]; [by repeat constructor; set_solver|]. apply Forall_cons in Hr as [Hn Hrs].
    unfold expand_runs. destruct (Z.eqb_spec l c) as [->|Hne]; cbn [rev].
    - split; [constructor; [simpl; lia|done]|]. split; [|set_solver]. rewrite !bind_app. cbn [mbind list_bind fst snd].
      rewrite !app_nil_r, replicate_add, <- !app_assoc. done.
    - split; [by repeat constructor|]. split; [|set_solver]. rewrite !bind_app. cbn. done. }
  destruct (IH runs' R1) as (I1 & I2 & I3). split; [done|]. split; [rewrite I2, R2, <- app_assoc; done|].
  intros r [Hr'|Hr']%I3; [left; set_solver|]. apply R3 in Hr' as [->|?]; [left; set_solver|by right].
Qed.

Lemma length_expand_runs runs : Forall (fun r => (1 <= snd r)%nat) runs -> (length runs <= length (expand_runs runs))%nat.
Proof. unfold expand_runs. induction 1 as [|r rs Hr _ IH]; [done|]. cbn [mbind list_bind length]. rewrite length_app, length_replicate. simpl in *. lia. Qed.

Lemma rt_color_runs n runs acc : Forall (fun r => (1 <= snd r)%nat /\ code_ok (fst r)) runs -> length (acc ++ expand_runs runs) = n -> Z.of_nat n < 2 ^ 32 ->
  roundtrip (wr_each (fun run : Z * nat => write_bits (fst run) 4 ;; write_var_uint (Z.of_nat (snd run - 1))) runs)
    (read_color_runs n (length runs) acc) (acc ++ expand_runs runs).
Proof.
  intros Hr Hl Hn. unfold expand_runs in *. revert acc Hl. induction Hr as [|[c k] rs [Hk [Hc1 Hc2]] _ IH]; intros acc Hl; cbn [wr_each length read_color_runs fst snd mbind list_bind] in *.
  { rewrite app_nil_r in Hl |- *. rewrite Hl, Nat.eqb_refl. apply rt_skip, reads_ret. }
  rewrite !length_app, length_replicate in Hl.
  apply rt_assoc. eapply rt_seq; [apply rt_bits; [lia|unfold in_width; lia]|].
  unfold assert_color_code. rewrite (proj2 (Z.leb_le _ _)) by lia.
  apply rt_pure. eapply rt_seq; [apply rt_var_uint; unfold in_width; lia|].
  rewrite (proj2 (Z.ltb_ge _ _)) by lia. replace (Z.to_nat (Z.of_nat (k - 1) + 1)) with k by lia.
  rewrite app_assoc. apply IH. rewrite !length_app, length_replicate. lia.
Qed.

Section Encodings.
Context (codes : list Z) (Hok : Forall code_ok codes) (Hlen : Z.of_nat (length codes) < 2 ^ 32 - 1).
Context (previous : option (list Z)) (mw : nat) (Hmw : (2 <= mw <= 32)%nat).

Lemma palette_encodes : encodes (palette_encoding codes mw) (read_cell_encoding (length codes) previous mw) codes.
Proof.
  unfold palette_encoding. rewrite unique_codes_spec by done. cbn [rbind].
  destruct (or_zero_palette codes Hok) as (src & Hs & Hin & -> & Hne). destruct (rt_color_mask src Hs) as [Rm Pm].
  apply encodes_run. eapply rt_seq; [apply rt_bits; [lia|apply (mode_width_ok mw Hmw); lia]|]. cbn [Z.eqb].
  eapply rt_seq; [exact Rm|]. rewrite Pm, bool_decide_false by done. rewrite <- (list_fmap_id codes) at 3.
  apply rt_each. apply rt_palette_codes. intros c Hc. apply elem_of_palette; auto.
Qed.

Lemma run_length_encodes : encodes (run_length_encoding codes mw) (read_cell_encoding (length codes) previous mw) codes.
Proof.
  unfold run_length_encoding. destruct (color_runs_spec codes [] ltac:(constructor)) as (R1 & R2 & R3). set (runs := color_runs codes []) in *.
  cbn [rev] in R2. change (expand_runs [] ++ codes) with codes in R2. pose proof (length_expand_runs runs R1) as Hl. rewrite R2 in Hl.
  apply encodes_run. eapply rt_seq; [apply rt_bits; [lia|apply (mode_width_ok mw Hmw); lia]|]. cbn [Z.eqb Pos.eqb].
  eapply rt_seq; [apply rt_var_uint; unfold in_width; lia|]. rewrite (proj2 (Z.ltb_ge _ _)) by lia. rewrite Nat2Z.id.
  rewrite <- R2 at 2. rewrite <- (app_nil_l (expand_runs runs)). apply rt_color_runs; [|simpl; by rewrite R2|lia].
  apply Forall_forall. intros r Hr. split; [rewrite Forall_forall in R1; by apply R1|]. rewrite Forall_forall in Hok. apply R3 in Hr as [Hr|Hr]; [by apply Hok|].
  by apply not_elem_of_nil in Hr.
Qed.
End Encodings.

(** *** Patches

    [patch ps base target]: the fields agree except at the positions [ps],
    which are still to be assigned. *)

Definition patch (ps : list nat) (base target : list Z) : Prop :=
  length base = length target /\ forall i, i ∉ ps -> base !! i = target !! i.

Lemma patch_done base target : patch [] base target -> base = target.
Proof. intros [_ H]. apply list_eq. intros i. apply H. apply not_elem_of_nil. Qed.

Lemma patch_set p ps base target v : patch (p :: ps) base target -> target !! p = Some v ->
  set_cell base p v = Ok (<[p := v]> base) /\ patch ps (<[p := v]> base) target.
Proof.
  intros [Hl H] Hv. pose proof (lookup_lt_Some _ _ _ Hv) as Hp. unfold set_cell. rewrite (proj2 (Nat.ltb_lt _ _)) by lia.
  split; [done|]. split; [by rewrite length_insert|]. intros i Hi. destruct (decide (i = p)) as [->|Hne].
  - by rewrite list_lookup_insert_eq by lia.
  - rewrite list_lookup_insert_ne by done. apply H. set_solver.
Qed.

(** Positions of the set flags, from [k] on. *)
Fixpoint positions_from (k : nat) (flags : list bool) : list nat :=
  match flags with
  | [] => []
  | b :: flags => if b then k :: positions_from (S k) flags else positions_from (S k) flags
  end.

Lemma occupied_positions_from flags : occupied_positions flags = positions_from 0 flags.
Proof.
  unfold occupied_positions. assert (forall k, omap (fun ib : nat * bool => if snd ib then Some (fst ib) else None) (imap (fun i b => ((k + i)%nat, b)) flags) = positions_from k flags) as H; [|apply (H 0%nat)].
  induction flags as [|b flags IH]; intros k; [done|]. cbn [imap positions_from]. rewrite <- (IH (S k)). rewrite Nat.add_0_r.
  replace (imap ((fun (i : nat) (b0 : bool) => ((k + i)%nat, b0)) ∘ S) flags) with (imap (fun (i : nat) (b0 : bool) => ((S k + i)%nat, b0)) flags)
    by (apply imap_ext; intros i x _; cbn; f_equal; lia).
  destruct b; done.
Qed.

Lemma elem_of_positions_from k flags i : i ∈ positions_from k flags <-> (k <= i)%nat /\ flags !! (i - k)%nat = Some true.
Proof.
  revert k. induction flags as [|b flags IH]; intros k; cbn [positions_from].
  { rewrite lookup_nil. split; [by intros ?%not_elem_of_nil|by intros [_ ?]]. }
  assert (i ∈ positions_from (S k) flags <-> (S k <= i)%nat /\ (b :: flags) !! (i - k)%nat = Some true) as Hs.
  { rewrite IH. split; intros [H1 H2]; (split; [done|]); [replace (i - k)%nat with (S (i - S k)) by lia; done|].
    replace (i - k)%nat with (S (i - S k)) in H2 by lia. done. }
  destruct b; [rewrite elem_of_cons|]; rewrite Hs; destruct (decide (i = k)) as [->|]; try rewrite Nat.sub_diag; cbn [lookup list_lookup].
  - naive_solver lia.
  - assert (S k <= i <-> k <= i)%nat as -> by lia. naive_solver.
  - naive_solver lia.
  - assert (S k <= i <-> k <= i)%nat as -> by lia. done.
Qed.

Lemma positions_from_sorted k flags : StronglySorted lt (positions_from k flags).
Proof.
  revert k. induction flags as [|b flags IH]; intros k; cbn [positions_from]; [constructor|]. destruct b; [|apply IH]. constructor; [apply IH|].
  apply Forall_forall. intros i Hi%elem_of_positions_from. lia.
Qed.

Lemma positions_from_combination flags : combination (length flags) (positions_from 0 flags).
Proof.
  split; [apply positions_from_sorted|]. apply Forall_forall. intros i [_ H]%elem_of_positions_from. rewrite Nat.sub_0_r in H. by apply lookup_lt_Some in H.
Qed.

(** The flagged values are those at the flagged positions. *)
Lemma flagged_positions {A} (xs : list A) flags : length xs = length flags ->
  Forall2 (fun i x => xs !! i = Some x) (positions_from 0 flags) (flagged xs flags).
Proof.
  unfold flagged. assert (forall k ys, length xs = length flags -> drop k ys = xs ->
    Forall2 (fun i x => ys !! i = Some x) (positions_from k flags) (omap (fun xb : A * bool => if snd xb then Some (fst xb) else None) (zip xs flags))) as H;
    [|intros Hl; by apply (H 0%nat xs)].
  revert flags. induction xs as [|x xs IH]; intros [|b flags] k ys Hl Hd; try done. cbn [positions_from zip zip_with omap list_omap fst snd].
  assert (ys !! k = Some x) by (rewrite <- (Nat.add_0_r k), <- lookup_drop, Hd; done).
  assert (drop (S k) ys = xs) by (replace (S k) with (k + 1)%nat by lia; by rewrite <- drop_drop, Hd).
  simpl in Hl. destruct b; [constructor; [done|]|]; (apply IH; [lia|done]).
Qed.

Lemma length_changed_flags codes previous : length (changed_flags codes previous) = length codes.
Proof. apply length_imap. Qed.

Lemma changed_flags_lookup codes previous i c : codes !! i = Some c -> changed_flags codes previous !! i = Some (negb (c =? cell_at previous i)).
Proof. intros H. unfold changed_flags. by rewrite list_lookup_imap, H. Qed.

Lemma changed_cells_zip codes previous :
  changed_cells codes previous = zip (positions_from 0 (changed_flags codes previous)) (flagged codes (changed_flags codes previous)).
Proof.
  unfold changed_cells, changed_flags, flagged.
  assert (forall k, filter (fun ic : nat * Z => negb (snd ic =? cell_at previous (fst ic)) = true) (imap (fun i c => ((k + i)%nat, c)) codes) =
    zip (positions_from k (imap (fun i c => negb (c =? cell_at previous (k + i))) codes))
      (omap (fun xb : Z * bool => if snd xb then Some (fst xb) else None) (zip codes (imap (fun i c => negb (c =? cell_at previous (k + i))) codes)))) as H; [|apply (H 0%nat)].
  induction codes as [|c codes IH]; intros k; [done|]. cbn [imap zip zip_with omap list_omap positions_from fst snd]. rewrite Nat.add_0_r.
  replace (imap ((fun (i : nat) (c0 : Z) => ((k + i)%nat, c0)) ∘ S) codes) with (imap (fun (i : nat) (c0 : Z) => ((S k + i)%nat, c0)) codes)
    by (apply imap_ext; intros i x _; cbn; f_equal; lia).
  replace (imap ((fun (i : nat) (c0 : Z) => negb (c0 =? cell_at previous (k + i))) ∘ S) codes) with (imap (fun (i : nat) (c0 : Z) => negb (c0 =? cell_at previous (S k + i))) codes)
    by (apply imap_ext; intros i x _; cbn; do 3 f_equal; lia).
  rewrite filter_cons, (IH (S k)). cbn [fst snd]. destruct (negb (c =? cell_at previous k)) eqn:E; case_decide as D; congruence || done.
Qed.

Lemma length_flagged {A} (xs : list A) flags : length xs = length flags -> length (flagged xs flags) = length (positions_from 0 flags).
Proof. intros H. symmetry. eapply Forall2_length. by apply flagged_positions. Qed.

Lemma changed_cells_fst codes previous : fst <$> changed_cells codes previous = positions_from 0 (changed_flags codes previous).
Proof. rewrite changed_cells_zip. apply fst_zip. rewrite length_flagged; [done|by rewrite length_changed_flags]. Qed.

Lemma changed_cells_snd codes previous : snd <$> changed_cells codes previous = flagged codes (changed_flags codes previous).
Proof. rewrite changed_cells_zip. apply snd_zip. rewrite length_flagged; [done|by rewrite length_changed_flags]. Qed.

Lemma elem_of_changed codes previous i c : (i, c) ∈ changed_cells codes previous -> codes !! i = Some c.
Proof. unfold changed_cells. rewrite list_elem_of_filter, elem_of_lookup_imap. intros (_ & j & y & [= -> ->] & H). done. Qed.

(** The fitted previous field differs from the new one at the changed cells. *)
Lemma patch_fitted codes previous :
  patch (positions_from 0 (changed_flags codes previous)) (cell_at previous <$> seq 0 (length codes)) codes.
Proof.
  split; [by rewrite length_fmap, length_seq|]. intros i Hi. rewrite list_lookup_fmap.
  destruct (Nat.lt_ge_cases i (length codes)) as [Hl|Hl].
  - rewrite lookup_seq_lt by done. cbn. destruct (lookup_lt_is_Some_2 codes i Hl) as [c Hc]. rewrite Hc. f_equal.
    rewrite elem_of_positions_from, Nat.sub_0_r, (changed_flags_lookup _ _ _ _ Hc) in Hi.
    destruct (Z.eqb_spec c (cell_at previous i)) as [He|]; [by symmetry|]. exfalso. apply Hi. split; [lia|done].
  - rewrite lookup_seq_ge, lookup_ge_None_2 by done. done.
Qed.

(** *** Deltas *)

Lemma rt_changes target changes prior base :
  Z.of_nat (length target) < 2 ^ 32 - 1 -> Forall code_ok target ->
  patch (fst <$> changes) base target -> (forall i c, (i, c) ∈ changes -> target !! i = Some c) ->
  StronglySorted lt (fst <$> changes) -> (forall p, prior = Some p -> Forall (fun i => (p < i)%nat) (fst <$> changes)) ->
  roundtrip (write_changes prior changes) (read_changes (length target) (length changes) (Z.of_nat <$> prior) base) target.
Proof.
  intros Hn Hok. revert prior base. induction changes as [|[i c] changes IH]; intros prior base Hp Hin Hs Hpr; cbn [write_changes length read_changes].
  { apply patch_done in Hp as ->. apply rt_skip, reads_ret. }
  cbn [fmap list_fmap fst] in *. pose proof (Hin i c ltac:(set_solver)) as Hic. pose proof (lookup_lt_Some _ _ _ Hic) as Hi.
  assert (code_ok c) as [Hc1 Hc2] by (rewrite Forall_forall in Hok; apply Hok; by eapply list_elem_of_lookup_2).
  inversion Hs as [|? ? Hs' Hgt]; subst.
  assert (match prior with Some p => (p < i)%nat | None => True end) as Hpi.
  { destruct prior as [p|]; [|done]. specialize (Hpr p eq_refl). by apply Forall_cons in Hpr as [? _]. }
  eapply rt_seq; [apply rt_var_uint; unfold in_width; destruct prior; lia|].
  set (index := match Z.of_nat <$> prior with None => _ | Some _ => _ end).
  assert (index = Z.of_nat i) as ->.
  { unfold index. destruct prior as [p|]; cbn [fmap option_fmap option_map]; [|done]. unfold saturating_add, umax. lia. }
  eapply rt_seq; [apply rt_bits; [lia|unfold in_width; lia]|]. unfold assert_color_code. rewrite (proj2 (Z.leb_le _ _)) by lia. apply rt_pure.
  replace ((Z.of_nat (length target) <=? Z.of_nat i) || _) with false.
  2: { symmetry. apply orb_false_iff. split; [apply Z.leb_gt; lia|]. destruct prior as [p|]; cbn [fmap option_fmap option_map]; [apply Z.leb_gt; lia|done]. }
  rewrite Nat2Z.id. destruct (patch_set i (fst <$> changes) base target c Hp Hic) as [-> Hp']. apply rt_pure.
  apply (IH (Some i)); [done|set_solver|done|]. intros p [= <-]. done.
Qed.

Lemma rt_read_into palette context target indexes values base :
  Forall2 (fun i v => target !! i = Some v) indexes values -> patch indexes base target ->
  Forall (fun c => roundtrip (write_palette_code palette (bits_for_choices (length palette)) c)
    (read_palette_code palette (bits_for_choices (length palette)) context) c) values ->
  roundtrip (wr_each (write_palette_code palette (bits_for_choices (length palette))) values)
    (read_into palette (bits_for_choices (length palette)) context indexes base) target.
Proof.
  intros H. revert base. induction H as [|i v indexes values Hi _ IH]; intros base Hp Hv; cbn [wr_each read_into].
  { apply patch_done in Hp as ->. apply rt_skip, reads_ret. }
  apply Forall_cons in Hv as [Hv Hvs]. eapply rt_seq; [exact Hv|].
  destruct (patch_set i indexes base target v Hp Hi) as [-> Hp']. apply rt_pure. by apply IH.
Qed.

(** Reading under flags is reading at the flagged positions. *)
Lemma read_flagged_into palette width changed indexes base r : (forall i, i ∈ indexes -> (i < length changed)%nat) ->
  read_flagged palette width changed indexes base r =
  read_into palette width "delta palette index" (filter (fun i => changed !! i = Some true) indexes) base r.
Proof.
  revert base r. induction indexes as [|i indexes IH]; intros base r Hlt; [done|]. cbn [read_flagged]. rewrite filter_cons.
  destruct (lookup_lt_is_Some_2 changed i ltac:(set_solver)) as [b Hb]. rewrite Hb. cbn [panic_none ok_or].
  change (rd_bind (rd_lift (Ok b)) ?k r) with (k b r). destruct b.
  - rewrite decide_True by done. cbn [read_into]. unfold rd_bind. destruct (read_palette_code _ _ _ r) as [[c r']|]; [|done]. cbn [rbind fst snd].
    unfold rd_lift. destruct (set_cell base i c); cbn [rmap rbind fst snd]; [|done]. apply IH. set_solver.
  - rewrite decide_False by done. apply IH. set_solver.
Qed.

Lemma filter_flags flags : filter (fun i => flags !! i = Some true) (seq 0 (length flags)) = positions_from 0 flags.
Proof.
  assert (forall k fs, drop k flags = fs -> filter (fun i => flags !! i = Some true) (seq k (length fs)) = positions_from k fs) as H; [|by apply H].
  intros k fs. revert k. induction fs as [|b fs IH]; intros k Hd; [done|]. cbn [length seq positions_from]. rewrite filter_cons.
  assert (flags !! k = Some b) as -> by (rewrite <- (Nat.add_0_r k), <- lookup_drop, Hd; done).
  rewrite IH by (replace (S k) with (k + 1)%nat by lia; by rewrite <- drop_drop, Hd). destruct b; by case_decide.
Qed.

(** *** Runs of changes *)

Definition run_cells (runs : list (nat * list Z)) : list nat := runs ≫= (fun r => seq (fst r) (length (snd r))).

Lemma change_runs_spec changes runs : Forall (fun r => snd r <> []) runs ->
  Forall (fun r => snd r <> []) (change_runs changes runs) /\
  run_cells (change_runs changes runs) = run_cells (rev runs) ++ (fst <$> changes) /\
  change_runs changes runs ≫= snd = (rev runs ≫= snd) ++ (snd <$> changes).
Proof.
  revert runs. induction changes as [|[i c] changes IH]; intros runs Hr; cbn [change_runs].
  { rewrite !app_nil_r. split; [by apply Forall_rev|done]. }
  set (runs' := match runs with [] => [(i, [c])] | (s, vs) :: rs => if (s + length vs =? i)%nat then (s, vs ++ [c]) :: rs else (i, [c]) :: runs end).
  assert (Forall (fun r => snd r <> []) runs' /\ run_cells (rev runs') = run_cells (rev runs) ++ [i] /\ rev runs' ≫= snd = (rev runs ≫= snd) ++ [c]) as (R1 & R2 & R3).
  { unfold runs', run_cells. destruct runs as [|[s vs] rs]; [by repeat constructor|]. apply Forall_cons in Hr as [Hv Hrs].
    destruct (Nat.eqb_spec (s + length vs) i) as [<-|Hne]; cbn [rev].
    - split; [constructor; [|done]; cbn; by destruct vs|]. rewrite !bind_app. cbn [mbind list_bind fst snd]. rewrite !app_nil_r, length_app, seq_app, <- !app_assoc. done.
    - split; [by repeat constructor|]. rewrite !bind_app. done. }
  destruct (IH runs' R1) as (I1 & I2 & I3). split; [done|]. cbn [fmap list_fmap fst snd]. rewrite I2, R2, I3, R3, <- !app_assoc. done.
Qed.

Lemma rt_run_spans n runs e acc : Z.of_nat n < 2 ^ 32 - 1 -> Forall (fun r => snd r <> []) runs ->
  StronglySorted lt (run_cells runs) -> (forall i, i ∈ run_cells runs -> (e <= i < n)%nat) ->
  roundtrip (write_run_spans e runs) (read_run_spans n (length runs) (Z.of_nat e) acc) (acc ++ ((fun r => (fst r, length (snd r))) <$> runs)).
Proof.
  intros Hn Hr. unfold run_cells. revert e acc. induction Hr as [|[s vs] runs Hv Hr IH]; intros e acc Hs Hin; cbn [write_run_spans length read_run_spans].
  { rewrite app_nil_r. apply rt_skip, reads_ret. }
  cbn [mbind list_bind fst snd] in *. assert (0 < length vs)%nat as Hl by (destruct vs; simpl; [done|lia]).
  pose proof (Hin s ltac:(apply elem_of_app; left; apply elem_of_seq; lia)). pose proof (Hin (s + length vs - 1)%nat ltac:(apply elem_of_app; left; apply elem_of_seq; lia)).
  eapply rt_seq; [apply rt_var_uint; unfold in_width; lia|].
  rewrite (proj2 (checked_add_Some 64 _ _ (Z.of_nat s))) by (split; lia). cbn [ok_or]. apply rt_pure.
  eapply rt_seq; [apply rt_var_uint; unfold in_width; lia|]. replace (Z.of_nat (length vs - 1) + 1) with (Z.of_nat (length vs)) by lia.
  replace ((Z.of_nat s <? Z.of_nat e) || _ || _) with false.
  2: { symmetry. rewrite !orb_false_iff. repeat split; apply Z.ltb_ge; lia. }
  rewrite <- Nat2Z.inj_add, !Nat2Z.id. cbn [fmap list_fmap fst snd].
  replace (acc ++ (s, length vs) :: ((fun r : nat * list Z => (fst r, length (snd r))) <$> runs)) with ((acc ++ [(s, length vs)]) ++ ((fun r : nat * list Z => (fst r, length (snd r))) <$> runs))
    by (by rewrite <- app_assoc).
  apply sorted_lt_app_inv in Hs as (_ & Hs & Hlt).
  apply IH; [done|]. intros i Hi. split; [|apply Hin; set_solver].
  specialize (Hlt (s + length vs - 1)%nat i ltac:(apply elem_of_seq; lia) Hi). lia.
Qed.

(** *** The modes against a previous field *)

Lemma flagged_subset {A} (xs : list A) flags x : x ∈ flagged xs flags -> x ∈ xs.
Proof. unfold flagged. rewrite list_elem_of_omap. intros ([y b] & Hin & Hy). cbn in Hy. destruct b; [|done]. injection Hy as ->. by apply elem_of_zip_l in Hin. Qed.

Lemma flagged_ok codes flags : Forall code_ok codes -> Forall code_ok (flagged codes flags).
Proof. rewrite !Forall_forall. intros H c Hc. by eapply H, flagged_subset. Qed.

Lemma length_positions_le k flags : (length (positions_from k flags) <= length flags)%nat.
Proof. revert k. induction flags as [|[] flags IH]; intros k; cbn [positions_from length]; [done|specialize (IH (S k)); lia|specialize (IH (S k)); lia]. Qed.

Section PredictedEncodings.
Context (codes : list Z) (Hok : Forall code_ok codes) (Hlen : Z.of_nat (length codes) < 2 ^ 32 - 1).
Context (prior : list Z) (mw : nat) (Hmw : (2 <= mw <= 32)%nat).

Local Notation flags := (changed_flags codes prior).
Local Notation reader := (read_cell_encoding (length codes) (Some prior) mw).

Let Hflags : length codes = length flags.
Proof. by rewrite length_changed_flags. Qed.

Let Hpos : (length (positions_from 0 flags) <= length codes)%nat.
Proof. rewrite Hflags. apply length_positions_le. Qed.

Lemma delta_encodes : encodes (delta_encoding codes prior mw) reader codes.
Proof.
  unfold delta_encoding. apply encodes_run. eapply rt_seq; [apply rt_bits; [lia|apply (mode_width_ok mw Hmw); lia]|]. cbn [Z.eqb Pos.eqb fitted_previous].
  apply rt_pure. assert (length (changed_cells codes prior) = length (positions_from 0 flags)) as Hl by (rewrite <- changed_cells_fst; by rewrite length_fmap).
  eapply rt_seq; [apply rt_var_uint; unfold in_width; lia|]. rewrite (proj2 (Z.ltb_ge _ _)) by lia. rewrite Nat2Z.id.
  apply (rt_changes codes (changed_cells codes prior) None); [done|done| | | |done].
  - rewrite changed_cells_fst. apply patch_fitted.
  - intros i c. apply elem_of_changed.
  - rewrite changed_cells_fst. apply positions_from_sorted.
Qed.

Lemma same_encodes : (3 <= mw)%nat -> arrays_equal_fitted codes prior = true -> encodes (single_mode_encoding 6 mw) reader codes.
Proof.
  intros H3 He. unfold single_mode_encoding. apply encodes_run. eapply rt_last; [apply rt_bits; [lia|apply (mode_width_ok mw Hmw); lia]|].
  cbn [Z.eqb Pos.eqb andb]. rewrite (proj2 (Nat.leb_le _ _)) by done. cbn [fitted_previous].
  assert (positions_from 0 flags = []) as Hp.
  { destruct (positions_from 0 flags) as [|i ps] eqn:E; [done|]. assert (i ∈ positions_from 0 flags) as Hi by (rewrite E; constructor).
    apply elem_of_positions_from in Hi as [_ Hi]. rewrite Nat.sub_0_r in Hi. unfold arrays_equal_fitted in He. rewrite forallb_forall in He.
    specialize (He true). discriminate He. apply list_elem_of_In. by eapply list_elem_of_lookup_2. }
  pose proof (patch_fitted codes prior) as P.  rewrite Hp in P. apply patch_done in P as ->. apply reads_lift.
Qed.

Lemma change_mask_encodes : (4 <= mw)%nat -> encodes (change_mask_encoding codes prior mw) reader codes.
Proof.
  intros H4. unfold change_mask_encoding. rewrite unique_codes_spec by (by apply flagged_ok). cbn [rbind].
  set (src := flagged codes flags). assert (Forall code_ok src) as Hs by (by apply flagged_ok). destruct (rt_color_mask src Hs) as [Rm Pm].
  apply encodes_run. eapply rt_seq; [apply rt_bits; [lia|apply (mode_width_ok mw Hmw); lia]|]. cbn [Z.eqb Pos.eqb andb]. rewrite !(proj2 (Nat.leb_le _ _)) by lia.
  cbn [fitted_previous]. apply rt_pure. eapply rt_seq; [rewrite Hflags; apply rt_occupancy_mask; lia|]. eapply rt_seq; [exact Rm|]. rewrite Pm.
  assert (existsb id flags && bool_decide (palette_of src = []) = false) as ->.
  { destruct (existsb id flags) eqn:E; [|done]. cbn [andb]. apply bool_decide_eq_false. intros Hnil. apply existsb_exists in E as (b & Hb & E).
    destruct b; [|done]. apply list_elem_of_In, list_elem_of_lookup in Hb as [i Hi].
    assert (i ∈ positions_from 0 flags) as Hin by (apply elem_of_positions_from; rewrite Nat.sub_0_r; split; [lia|done]).
    apply list_elem_of_lookup in Hin as [j Hj]. destruct (Forall2_lookup_l _ _ _ _ _ (flagged_positions codes flags Hflags) Hj) as (c & Hc & _).
    assert (c ∈ palette_of src) as Hcp by (apply elem_of_palette; [done|by eapply list_elem_of_lookup_2]). rewrite Hnil in Hcp. by apply not_elem_of_nil in Hcp. }
  assert (roundtrip (wr_each (write_palette_code (palette_of src) (bits_for_choices (length (palette_of src)))) src)
    (read_into (palette_of src) (bits_for_choices (length (palette_of src))) "delta palette index" (positions_from 0 flags) (cell_at prior <$> seq 0 (length codes))) codes) as (bs & W & R).
  { eapply rt_read_into; [by apply flagged_positions|apply patch_fitted|]. apply rt_palette_codes. intros c Hc. by apply elem_of_palette. }
  exists bs. split; [done|]. intros r rest Hr. rewrite read_flagged_into by (intros i Hi%elem_of_seq; lia).
  pose proof (filter_flags flags) as Hf. rewrite <- Hflags in Hf. rewrite Hf. by apply R.
Qed.

Lemma delta_run_encodes : (4 <= mw)%nat -> encodes (delta_run_encoding codes prior mw) reader codes.
Proof.
  intros H4. unfold delta_run_encoding. set (runs := change_runs (changed_cells codes prior) []).
  destruct (change_runs_spec (changed_cells codes prior) [] ltac:(constructor)) as (R1 & R2 & R3). fold runs in R1, R2, R3.
  cbn [rev] in R2, R3. change (run_cells []) with (@nil nat) in R2. rewrite changed_cells_fst in R2. cbn [app] in R2. cbn [mbind list_bind app] in R3.
  rewrite changed_cells_snd in R3.  rewrite R3.
  set (src := flagged codes flags). assert (Forall code_ok src) as Hs by (by apply flagged_ok).
  rewrite unique_codes_spec by done. cbn [rbind]. destruct (rt_color_mask src Hs) as [Rm Pm].
  assert (span_cells ((fun r : nat * list Z => (fst r, length (snd r))) <$> runs) = positions_from 0 flags) as Hsp.
  { rewrite <- R2. unfold span_cells, run_cells. clear. induction runs as [|r runs IH]; [done|]. cbn [fmap list_fmap mbind list_bind fst snd]. f_equal. exact IH. }
  assert (length runs <= length codes)%nat as Hrl.
  { etrans; [|exact Hpos]. rewrite <- R2. unfold run_cells. clear - R1. induction R1 as [|r rs Hr _ IH]; [done|]. cbn [mbind list_bind length].
    rewrite length_app, length_seq. destruct (snd r); [done|]. simpl in *. lia. }
  apply encodes_run. eapply rt_seq; [apply rt_bits; [lia|apply (mode_width_ok mw Hmw); lia]|]. cbn [Z.eqb Pos.eqb andb]. rewrite !(proj2 (Nat.leb_le _ _)) by lia.
  cbn [fitted_previous]. apply rt_pure. eapply rt_seq; [exact Rm|]. rewrite Pm. eapply rt_seq; [apply rt_var_uint; unfold in_width; lia|].
  rewrite (proj2 (Z.ltb_ge _ _)) by lia. rewrite Nat2Z.id.
  eapply rt_seq.
  { apply (rt_run_spans (length codes) runs 0 []); [done|done|rewrite R2; apply positions_from_sorted|].
    rewrite R2. intros i Hi%elem_of_positions_from. rewrite Nat.sub_0_r in Hi. destruct Hi as [_ Hi%lookup_lt_Some]. rewrite Hflags. lia. }
  cbn [app]. rewrite Hsp.
  replace (_ && _) with false.
  2: { symmetry. destruct (Nat.ltb_spec 0 (length (positions_from 0 flags))) as [Hl|]; [|done]. cbn [andb]. apply bool_decide_eq_false. intros Hnil.
    pose proof (length_flagged codes flags Hflags) as Hfl. fold src in Hfl. destruct src as [|c src'] eqn:E; [simpl in *; lia|].
    assert (c ∈ palette_of (c :: src')) as Hcp by (apply elem_of_palette; [done|constructor]). rewrite Hnil in Hcp. by apply not_elem_of_nil in Hcp. }
  eapply rt_read_into; [by apply flagged_positions|apply patch_fitted|]. apply rt_palette_codes. intros c Hc. by apply elem_of_palette.
Qed.
End PredictedEncodings.

(** *** Ranked positions *)

Lemma rt_positions total ps reason : Z.of_nat total < 2 ^ 32 - 1 -> combination total ps ->
  roundtrip (write_rank total ps (length ps)) (read_positions total (length ps) reason) ps.
Proof.
  intros Ht Hc. unfold write_rank, read_positions. destruct (combination_count_spec total (length ps) Ht) as [C1 C2].
  destruct (combination_rank_spec total ps ltac:(lia) Hc) as [R1 R2]. pose proof (rank_bound total ps Hc) as Hb.
  destruct (bits_for_big_choices_width (combination_count total (length ps)) (bn_val (combination_rank ps)) C1 ltac:(lia)) as [B1 B2].
  eapply rt_last; [by apply rt_big_bits|]. rewrite bn_leb_spec by done. rewrite (proj2 (Z.leb_gt _ _)) by lia.
  rewrite combination_unrank_rank by done. apply reads_lift.
Qed.

Lemma cells_at_spec codes positions values : Forall2 (fun i v => codes !! i = Some v) positions values -> cells_at codes positions = Ok values.
Proof. induction 1 as [|i v ps vs Hi _ IH]; [done|]. cbn [cells_at]. rewrite Hi. cbn [panic_none ok_or rbind]. by rewrite IH. Qed.

Section PredictedEncodings2.
Context (codes : list Z) (Hok : Forall code_ok codes) (Hlen : Z.of_nat (length codes) < 2 ^ 32 - 1).
Context (prior : list Z) (mw : nat) (Hmw : (4 <= mw <= 32)%nat).

Local Notation flags := (changed_flags codes prior).
Local Notation reader := (read_cell_encoding (length codes) (Some prior) mw).

Let Hflags : length codes = length flags.
Proof. by rewrite length_changed_flags. Qed.

Let Hpos : (length (positions_from 0 flags) <= length codes)%nat.
Proof. rewrite Hflags. apply length_positions_le. Qed.

Lemma combinatorial_delta_encodes : encodes (combinatorial_delta_encoding codes prior mw) reader codes.
Proof.
  unfold combinatorial_delta_encoding. rewrite changed_cells_fst. rewrite (cells_at_spec codes _ (flagged codes flags)) by (by apply flagged_positions).
  cbn [rbind]. set (src := flagged codes flags). assert (Forall code_ok src) as Hs by (by apply flagged_ok).
  rewrite unique_codes_spec by done. cbn [rbind]. destruct (rt_color_mask src Hs) as [Rm Pm].
  apply encodes_run. eapply rt_seq; [apply rt_bits; [lia|apply (mode_width_ok mw ltac:(lia)); lia]|]. cbn [Z.eqb Pos.eqb andb]. rewrite !(proj2 (Nat.leb_le _ _)) by lia.
  cbn [fitted_previous]. apply rt_pure. eapply rt_seq; [apply rt_var_uint; unfold in_width; lia|]. rewrite (proj2 (Z.ltb_ge _ _)) by lia. rewrite Nat2Z.id.
  eapply rt_seq; [apply rt_positions; [done|rewrite Hflags; apply positions_from_combination]|]. eapply rt_seq; [exact Rm|]. rewrite Pm.
  replace (_ && _) with false.
  2: { symmetry. destruct (Z.ltb_spec 0 (Z.of_nat (length (positions_from 0 flags)))) as [Hl|]; [|done]. cbn [andb]. apply bool_decide_eq_false. intros Hnil.
    pose proof (length_flagged codes flags Hflags) as Hfl. fold src in Hfl. destruct src as [|c src'] eqn:E; [simpl in *; lia|].
    assert (c ∈ palette_of (c :: src')) as Hcp by (apply elem_of_palette; [done|constructor]). rewrite Hnil in Hcp. by apply not_elem_of_nil in Hcp. }
  eapply rt_read_into; [by apply flagged_positions|apply patch_fitted|]. apply rt_palette_codes. intros c Hc. by apply elem_of_palette.
Qed.

Lemma paint_single color : palette_of (flagged codes flags) = [color] -> paint_flagged color (cell_at prior <$> seq 0 (length codes)) flags = codes.
Proof.
  intros Hpal. unfold paint_flagged. apply list_eq. intros i. rewrite list_lookup_imap, list_lookup_fmap.
  destruct (Nat.lt_ge_cases i (length codes)) as [Hi|Hi]; [|rewrite lookup_seq_ge by done; by rewrite (lookup_ge_None_2 codes)].
  rewrite lookup_seq_lt by done. cbn [fmap option_fmap option_map]. destruct (lookup_lt_is_Some_2 codes i Hi) as [c Hc].
  rewrite (changed_flags_lookup _ _ _ _ Hc), Hc, Nat.add_0_l. f_equal. destruct (Z.eqb_spec c (cell_at prior i)) as [He|Hne]; cbn [negb]; [by symmetry|].
  assert (i ∈ positions_from 0 flags) as Hin.
  { apply elem_of_positions_from. rewrite Nat.sub_0_r, (changed_flags_lookup _ _ _ _ Hc). rewrite (proj2 (Z.eqb_neq _ _)) by done. split; [lia|done]. }
  apply list_elem_of_lookup in Hin as [j Hj]. destruct (Forall2_lookup_l _ _ _ _ _ (flagged_positions codes flags Hflags) Hj) as (c' & Hc' & Hic).
  cbn in Hic. rewrite Hc in Hic. injection Hic as <-. assert (c ∈ palette_of (flagged codes flags)) as Hcp.
  { apply elem_of_palette; [by apply flagged_ok|by eapply list_elem_of_lookup_2]. }
  rewrite Hpal in Hcp. by apply list_elem_of_singleton in Hcp as ->.
Qed.

Lemma single_color_delta_encodes : encodes_opt (single_color_delta_encoding codes prior mw) reader codes.
Proof.
  unfold single_color_delta_encoding. rewrite unique_codes_spec by (by apply flagged_ok). cbn [rbind].
  destruct (palette_of (flagged codes flags)) as [|color [|? ?]] eqn:Hpal; [by eexists| |by eexists].
  destruct (palette_range (flagged codes flags) color) as [Hc1 Hc2]; [rewrite Hpal; constructor|].
  destruct (encodes_run (write_bits 10 mw ;; write_bits color 4 ;; write_occupancy_mask flags) reader codes) as (c & E & C).
  { eapply rt_seq; [apply rt_bits; [lia|apply (mode_width_ok mw ltac:(lia)); lia]|]. cbn [Z.eqb Pos.eqb andb]. rewrite !(proj2 (Nat.leb_le _ _)) by lia.
    cbn [fitted_previous]. apply rt_pure. eapply rt_seq; [apply rt_bits; [lia|unfold in_width; lia]|]. unfold assert_color_code. rewrite (proj2 (Z.leb_le _ _)) by lia.
    apply rt_pure. eapply rt_last; [rewrite Hflags; apply rt_occupancy_mask; lia|]. rewrite paint_single by done. apply reads_ret. }
  exists (Some c). rewrite E. split; [done|]. by intros c' [= <-].
Qed.
End PredictedEncodings2.

(** *** Occupied cells *)

Lemma non_empty_ok codes : Forall code_ok codes -> Forall code_ok (non_empty_codes codes) /\ forall c, c ∈ non_empty_codes codes <-> c ∈ codes /\ c <> 0.
Proof.
  intros H. assert (forall c, c ∈ non_empty_codes codes <-> c ∈ codes /\ c <> 0) as Hiff.
  { intros c. unfold non_empty_codes. rewrite list_elem_of_filter, negb_true_iff, Z.eqb_neq. naive_solver. }
  split; [|done]. rewrite Forall_forall in H |- *. intros c [Hc _]%Hiff. by apply H.
Qed.

Lemma rt_read_occupied palette codes :
  Forall (fun c => roundtrip (write_palette_code palette (bits_for_choices (length palette)) c)
    (read_palette_code palette (bits_for_choices (length palette)) "occupied color index") c) (non_empty_codes codes) ->
  roundtrip (wr_each (write_palette_code palette (bits_for_choices (length palette))) (non_empty_codes codes))
    (read_occupied palette (bits_for_choices (length palette)) (occupied_flags codes)) codes.
Proof.
  unfold non_empty_codes. induction codes as [|c codes IH]; [intros _; apply rt_skip, reads_ret|].
  cbn [occupied_flags fmap list_fmap read_occupied]. rewrite filter_cons. destruct (Z.eqb_spec c 0) as [->|Hne]; cbn [negb].
  - rewrite decide_False by done. intros H. apply (rt_pure _ _ 0 _). eapply rt_last; [by apply IH|]. apply reads_ret.
  - rewrite decide_True by done. intros [Hc Hcs]%Forall_cons. cbn [wr_each]. eapply rt_seq; [exact Hc|]. eapply rt_last; [by apply IH|]. apply reads_ret.
Qed.

(** A palette without its low colors, shifted down and up again. *)
Lemma rt_shifted_mask src minimum : Forall code_ok src -> (minimum <= 8)%nat -> (forall c, c ∈ src -> Z.of_nat minimum <= c) ->
  roundtrip (write_bits (Z.shiftr (color_mask (palette_of src)) (Z.of_nat minimum)) (9 - minimum)) (read_bits (9 - minimum)) (Z.shiftr (color_mask (palette_of src)) (Z.of_nat minimum)) /\
  palette_from_mask (shl 32 (Z.shiftr (color_mask (palette_of src)) (Z.of_nat minimum)) (Z.of_nat minimum)) minimum = palette_of src.
Proof.
  intros Hs Hm Hmin. pose proof (color_mask_width (palette_of src) (palette_range src)) as [Hw1 Hw2]. split.
  - apply rt_bits; [lia|]. split; [by apply Z.shiftr_nonneg|]. rewrite Z.shiftr_div_pow2 by lia. apply Z.div_lt_upper_bound; [apply Z.pow_pos_nonneg; lia|].
    rewrite <- Z.pow_add_r by lia. by replace (Z.of_nat minimum + Z.of_nat (9 - minimum)) with 9 by lia.
  - apply palette_from_mask_spec; [done|lia|done|]. intros c Hc. rewrite testbit_shl by lia.
    rewrite Z.shiftr_spec by lia. replace (c - Z.of_nat minimum + Z.of_nat minimum) with c by lia. by rewrite (proj2 (Z.ltb_lt _ _)) by lia.
Qed.

(** *** Groups of cells by color *)

Lemma patch_mono ps qs base target : (forall i, i ∈ ps -> i ∈ qs) -> patch ps base target -> patch qs base target.
Proof. intros H [Hl Hp]. split; [done|]. intros i Hi. apply Hp. auto. Qed.

(** Which of the remaining cells have the color. *)
Definition color_flags (codes : list Z) (code : Z) (remaining : list nat) : list bool :=
  (fun i => bool_decide (codes !! i = Some code)) <$> remaining.

Lemma relative_positions_spec codes code remaining : (forall i, i ∈ remaining -> (i < length codes)%nat) ->
  relative_positions codes code 0 remaining = Ok (positions_from 0 (color_flags codes code remaining)).
Proof.
  unfold color_flags. generalize 0%nat. induction remaining as [|i remaining IH]; intros k Hin; [done|]. cbn [relative_positions fmap list_fmap positions_from].
  destruct (lookup_lt_is_Some_2 codes i ltac:(set_solver)) as [c Hc]. rewrite Hc. cbn [panic_none ok_or rbind]. rewrite IH by set_solver.
  cbn [rbind]. rewrite Nat.add_1_r. destruct (Z.eqb_spec c code) as [->|Hne]; [by rewrite bool_decide_true|]. rewrite bool_decide_false by congruence. done.
Qed.

Lemma remove_relative_spec (f : nat -> bool) values : remove_relative_positions values (positions_from 0 (f <$> values)) = filter (fun v => f v = false) values.
Proof.
  unfold remove_relative_positions.
  assert (forall (ps : list nat) k, (forall i, i ∈ ps <-> (i < k)%nat /\ i ∈ ps \/ i ∈ positions_from k (f <$> values)) ->
    omap (fun iv : nat * nat => if bool_decide (fst iv ∈ ps) then None else Some (snd iv)) (imap (fun i v => ((k + i)%nat, v)) values) = filter (fun v => f v = false) values) as H.
  2: { apply (H _ 0%nat). intros i. naive_solver lia. }
  intros ps. induction values as [|v values IH]; intros k Hps; [done|]. cbn [imap omap list_omap fst snd]. rewrite Nat.add_0_r, filter_cons.
  replace (imap ((fun (i v0 : nat) => ((k + i)%nat, v0)) ∘ S) values) with (imap (fun (i v0 : nat) => ((S k + i)%nat, v0)) values)
    by (apply imap_ext; intros i x _; cbn; f_equal; lia).
  cbn [fmap list_fmap positions_from] in Hps.
  assert (forall i, i ∈ positions_from (S k) (f <$> values) -> (S k <= i)%nat) as Hge by (intros i; rewrite elem_of_positions_from; lia).
  rewrite IH.
  - destruct (f v) eqn:E; [rewrite bool_decide_true by (apply Hps; right; constructor); by rewrite decide_False|].
    rewrite bool_decide_false by (intros [[? _]|Hk%Hge]%Hps; lia). by rewrite decide_True.
  - intros i. rewrite (Hps i). destruct (f v); [rewrite elem_of_cons|]; (split; [intros [[H1 H2]|H1]|intros [[H1 H2]|H1]]); try naive_solver lia.
Qed.

Lemma paint_spec codes code remaining positions ts qs base :
  Forall2 (fun p t => remaining !! p = Some t) positions ts -> Forall (fun t => codes !! t = Some code) ts -> patch (ts ++ qs) base codes ->
  exists base', paint remaining code positions base = Ok base' /\ patch qs base' codes.
Proof.
  intros H. revert base. induction H as [|p t ps ts Hp _ IH]; intros base Ht Hb; cbn [paint]; [by exists base|].
  apply Forall_cons in Ht as [Ht Hts]. rewrite Hp. cbn [panic_none ok_or rbind].
  destruct (patch_set t (ts ++ qs) base codes code Hb Ht) as [-> Hb']. cbn [rbind]. by apply IH.
Qed.

Lemma fill_remaining_spec codes code remaining base :
  Forall (fun t => codes !! t = Some code) remaining -> patch remaining base codes -> fill_remaining code remaining base = Ok codes.
Proof.
  intros H. revert base. induction H as [|t ts Ht _ IH]; intros base Hb; cbn [fill_remaining]; [by apply patch_done in Hb as ->|].
  destruct (patch_set t ts base codes code Hb Ht) as [-> Hb']. cbn [rbind]. by apply IH.
Qed.

(** The number of remaining cells of a color. *)
Definition color_count (codes : list Z) (remaining : list nat) (code : Z) : nat := length (filter (fun i => codes !! i = Some code) remaining).

Lemma length_color_positions codes code remaining :
  length (positions_from 0 (color_flags codes code remaining)) = color_count codes remaining code.
Proof.
  unfold color_count, color_flags. generalize 0%nat. induction remaining as [|i remaining IH]; intros k; [done|]. cbn [fmap list_fmap positions_from].
  rewrite filter_cons. case_bool_decide; case_decide; try done; cbn [length]; by rewrite IH.
Qed.

Lemma color_count_filter codes remaining code code' : code <> code' ->
  color_count codes (filter (fun i => bool_decide (codes !! i = Some code) = false) remaining) code' = color_count codes remaining code'.
Proof.
  intros Hne. unfold color_count. induction remaining as [|i remaining IH]; [done|]. rewrite !filter_cons.
  repeat (case_decide || case_bool_decide); rewrite ?filter_cons; repeat case_decide; cbn [length]; congruence || naive_solver.
Qed.

Section Groups.
Context (codes : list Z) (Hlen : Z.of_nat (length codes) < 2 ^ 32 - 1).

(** The two variants: counts written, or four cells of every color. *)
Definition counts_fit (counted : bool) (fixed : option nat) (palette : list Z) (remaining : list nat) : Prop :=
  (counted = true /\ fixed = None) \/ (counted = false /\ fixed = Some 4%nat /\ Forall (fun c => color_count codes remaining c = 4%nat) palette).

Lemma rt_color_groups counted fixed reason palette remaining base :
  NoDup palette -> palette <> [] -> (length remaining <= length codes)%nat -> patch remaining base codes ->
  (forall i, i ∈ remaining -> exists c, codes !! i = Some c /\ c ∈ palette) ->
  counts_fit counted fixed palette remaining ->
  exists remaining' base', roundtrip (write_color_groups counted codes palette remaining) (read_color_groups fixed reason palette remaining base) (remaining', base') /\
    patch remaining' base' codes /\ Forall (fun i => codes !! i = last palette) remaining'.
Proof.
  revert remaining base. induction palette as [|code [|code2 rest] IH]; intros remaining base Hnd Hne Hl Hp Hin Hcnt; [done| |].
  { exists remaining, base. split; [apply rt_skip, reads_ret|]. split; [done|]. apply Forall_forall. intros i Hi.
    destruct (Hin i Hi) as (c & Hc & Hcc%list_elem_of_singleton). cbn. congruence. }
  apply NoDup_cons in Hnd as [Hnin Hnd]. set (positions := positions_from 0 (color_flags codes code remaining)).
  assert (length remaining = length (color_flags codes code remaining)) as Hfl by (unfold color_flags; by rewrite length_fmap).
  assert (combination (length remaining) positions) as Hcomb by (rewrite Hfl; apply positions_from_combination).
  assert (length positions = color_count codes remaining code) as Hlp by apply length_color_positions.
  assert (length positions <= length remaining)%nat as Hle by (rewrite Hfl; apply length_positions_le).
  set (remaining2 := filter (fun i => bool_decide (codes !! i = Some code) = false) remaining).
  assert (remove_relative_positions remaining positions = remaining2) as Hrem by apply remove_relative_spec.
  destruct (paint_spec codes code remaining positions (flagged remaining (color_flags codes code remaining)) remaining2 base) as (base2 & Hpaint & Hp2).
  { by apply flagged_positions. }
  { apply Forall_forall. intros t Ht. apply list_elem_of_omap in Ht as ([t' b] & Ht & Hb). cbn in Hb. destruct b; [|done]. injection Hb as ->.
    apply elem_of_lookup_zip_with in Ht as (j & x & b & [= <- <-] & Hx & Hbj). unfold color_flags in Hbj. rewrite list_lookup_fmap, Hx in Hbj. cbn in Hbj.
    injection Hbj as Hbj. by apply bool_decide_eq_true in Hbj. }
  { eapply patch_mono; [|exact Hp]. intros i Hi. rewrite elem_of_app. destruct (decide (codes !! i = Some code)) as [He|He].
    - left. apply list_elem_of_lookup in Hi as [j Hj]. apply list_elem_of_omap. exists (i, true). split; [|done].
      apply elem_of_lookup_zip_with. exists j, i, true. split; [done|]. split; [done|]. unfold color_flags. rewrite list_lookup_fmap, Hj. cbn. by rewrite bool_decide_true.
    - right. apply list_elem_of_filter. by rewrite bool_decide_false. }
  destruct (IH remaining2 base2) as (rem' & base' & R & Hp' & Hall); [done|done| |done| | |].
  { etrans; [apply length_filter|done]. }
  { intros i [Hi1 Hi2]%list_elem_of_filter. destruct (Hin i Hi2) as (c & Hc & Hcp). exists c. split; [done|].
    apply elem_of_cons in Hcp as [->|Hcp]; [|done]. by apply bool_decide_eq_false in Hi1. }
  { destruct Hcnt as [?|(? & ? & H4)]; [by left|right]. split; [done|]. split; [done|]. apply Forall_cons in H4 as [_ H4].
    rewrite Forall_forall in H4 |- *. intros c Hc. unfold remaining2. rewrite color_count_filter; [by apply H4|]. intros ->. done. }
  exists rem', base'. split; [|split; [done|exact Hall]].
  cbn [write_color_groups read_color_groups]. rewrite relative_positions_spec.
  2: { intros i Hi. destruct (Hin i Hi) as (c & Hc & _). by apply lookup_lt_Some in Hc. }
  fold positions. change (roundtrip ((if counted then write_var_uint (Z.of_nat (length positions)) else wr_skip) ;;
    write_rank (length remaining) positions (if counted then length positions else 4%nat) ;;
    write_color_groups counted codes (code2 :: rest) (remove_relative_positions remaining positions))
    (let* count := match fixed with Some n => rd_ret (Z.of_nat n) | None => read_var_uint end in
      if match fixed with Some _ => false | None => Z.of_nat (length remaining) <? count end then rd_lift (invalid "multiset count exceeds the field")
      else let* positions := read_positions (length remaining) (Z.to_nat count) reason in
        let* codes := rd_lift (paint remaining code positions base) in
        read_color_groups fixed reason (code2 :: rest) (remove_relative_positions remaining positions) codes) (rem', base')).
  apply (rt_seq _ _ _ _ (Z.of_nat (length positions))).
  { destruct Hcnt as [[-> ->]|(-> & -> & H4)]; [apply rt_var_uint; unfold in_width; lia|]. apply Forall_cons in H4 as [H4 _].
    rewrite Hlp, H4. apply rt_skip, reads_ret. }
  replace (match fixed with Some _ => false | None => _ end) with false.
  2: { destruct Hcnt as [[-> ->]|(-> & -> & H4)]; [symmetry; apply Z.ltb_ge; lia|done]. }
  rewrite Nat2Z.id. replace (if counted then length positions else 4%nat) with (length positions).
  2: { destruct Hcnt as [[-> ->]|(-> & -> & H4)]; [done|]. apply Forall_cons in H4 as [H4 _]. by rewrite Hlp. }
  eapply rt_seq; [apply rt_positions; [lia|done]|]. rewrite Hpaint. apply rt_pure. by rewrite Hrem.
Qed.

Lemma finish_groups_spec palette remaining base : palette <> [] -> patch remaining base codes -> Forall (fun i => codes !! i = last palette) remaining ->
  finish_groups palette (remaining, base) = Ok codes.
Proof.
  intros Hne Hp Hall. unfold finish_groups. cbn [fst snd]. destruct remaining as [|i rest]; [by apply patch_done in Hp as ->|].
  destruct (last palette) as [code|] eqn:E; [|by apply last_None in E]. cbn [panic_none ok_or rbind]. by apply fill_remaining_spec.
Qed.
End Groups.

Lemma seq_patch codes v : patch (seq 0 (length codes)) (replicate (length codes) v) codes.
Proof.
  split; [by rewrite length_replicate|]. intros i Hi. rewrite elem_of_seq in Hi. rewrite !lookup_ge_None_2; [done|lia|rewrite length_replicate; lia].
Qed.

Lemma palette_NoDup src : NoDup (palette_of src).
Proof. apply NoDup_filter. apply NoDup_fmap; [apply _|apply NoDup_seq]. Qed.

Section PlainEncodings.
Context (codes : list Z) (Hok : Forall code_ok codes) (Hlen : Z.of_nat (length codes) < 2 ^ 32 - 1).
Context (previous : option (list Z)) (mw : nat) (Hmw : (2 <= mw <= 32)%nat).

Local Notation reader := (read_cell_encoding (length codes) previous mw).

Let Hflags : length codes = length (occupied_flags codes).
Proof. unfold occupied_flags. by rewrite length_fmap. Qed.

Lemma occupancy_encodes : encodes (occupancy_encoding codes mw) reader codes.
Proof.
  unfold occupancy_encoding. destruct (non_empty_ok codes Hok) as [Hne Hiff]. rewrite unique_codes_spec by done. cbn [rbind].
  destruct (rt_shifted_mask (non_empty_codes codes) 1 Hne) as [Rm Pm]; [lia| |].
  { intros c Hc. pose proof Hc as [_ Hc0]%Hiff. rewrite Forall_forall in Hne. destruct (Hne c Hc). lia. }
  apply encodes_run. eapply rt_seq; [apply rt_bits; [lia|apply (mode_width_ok mw Hmw); lia]|]. cbn [Z.eqb Pos.eqb andb negb].
  eapply rt_seq; [rewrite Hflags; apply rt_occupancy_mask; lia|]. change (Z.of_nat 1) with 1 in Rm, Pm. eapply rt_seq; [exact Rm|]. rewrite Pm.
  replace (_ && _) with false.
  2: { symmetry. destruct (existsb id (occupied_flags codes)) eqn:E; [|done]. cbn [andb]. apply bool_decide_eq_false. intros Hnil.
    apply existsb_exists in E as (b & Hb%list_elem_of_In & Eb). apply list_elem_of_fmap in Hb as (c & -> & Hc). unfold id in Eb. apply negb_true_iff, Z.eqb_neq in Eb.
    assert (c ∈ palette_of (non_empty_codes codes)) as Hcp by (apply elem_of_palette; [done|by apply Hiff]). rewrite Hnil in Hcp. by apply not_elem_of_nil in Hcp. }
  apply rt_read_occupied. apply rt_palette_codes. intros c Hc. by apply elem_of_palette.
Qed.

Lemma zeros_encodes : (3 <= mw)%nat -> forallb (fun code => code =? 0) codes = true -> encodes (single_mode_encoding 7 mw) reader codes.
Proof.
  intros H3 Hz. apply encodes_run. eapply rt_last; [apply rt_bits; [lia|apply (mode_width_ok mw Hmw); lia]|].
  cbn [Z.eqb Pos.eqb andb]. rewrite (proj2 (Nat.leb_le _ _)) by done.
  assert (replicate (length codes) 0 = codes) as ->; [|apply reads_ret]. apply replicate_as_elem_of. split; [done|].
  intros c Hc. rewrite forallb_forall in Hz. by apply Z.eqb_eq, Hz, list_elem_of_In.
Qed.

Lemma multiset_encodes : (3 <= mw)%nat -> encodes (multiset_encoding codes mw) reader codes.
Proof.
  intros H3. unfold multiset_encoding. rewrite unique_codes_spec by done. cbn [rbind].
  destruct (or_zero_palette codes Hok) as (src & Hs & Hin & -> & Hne). destruct (rt_color_mask src Hs) as [Rm Pm].
  destruct (rt_color_groups codes Hlen true None "multiset rank is invalid" (palette_of src) (seq 0 (length codes)) (replicate (length codes) 255)) as (rem' & base' & R & Hp & Hall);
    [apply palette_NoDup|done|by rewrite length_seq|apply seq_patch| |by left|].
  { intros i Hi%elem_of_seq. destruct (lookup_lt_is_Some_2 codes i ltac:(lia)) as [c Hc]. exists c. split; [done|]. apply elem_of_palette; [done|].
    apply Hin. by eapply list_elem_of_lookup_2. }
  apply encodes_run. eapply rt_seq; [apply rt_bits; [lia|apply (mode_width_ok mw Hmw); lia]|]. cbn [Z.eqb Pos.eqb andb]. rewrite (proj2 (Nat.leb_le _ _)) by done.
  unfold read_multiset_encoding. eapply rt_seq; [exact Rm|]. rewrite Pm, bool_decide_false by done. eapply rt_last; [exact R|].
  rewrite (finish_groups_spec codes) by done. apply reads_lift.
Qed.
End PlainEncodings.

(** *** Four cells of every color *)

Definition occurrences (c : Z) (codes : list Z) : nat := length (filter (fun d => d = c) codes).

Lemma count_colors_spec codes counts : Forall code_ok codes -> length counts = 9%nat ->
  exists o, count_colors codes counts = Ok o /\ match o with
  | None => True
  | Some counts' => 1 ∉ codes /\ forall c, 2 <= c <= 8 -> default 0%nat (counts' !! Z.to_nat c) = (default 0%nat (counts !! Z.to_nat c) + occurrences c codes)%nat
  end.
Proof.
  intros Hc. revert counts. unfold occurrences. induction Hc as [|d codes [Hd1 Hd2] _ IH]; intros counts Hl; cbn [count_colors].
  { exists (Some counts). split; [done|]. split; [apply not_elem_of_nil|]. intros c _. simpl. lia. }
  destruct (Z.eqb_spec d 1) as [->|H1]; [by exists None|]. destruct (Z.eqb_spec d 0) as [->|H0].
  - destruct (IH counts Hl) as ([counts'|] & E & H); [|by exists None]. exists (Some counts'). split; [done|]. destruct H as [Hn H]. split; [set_solver|].
    intros c Hc. rewrite filter_cons, decide_False by lia. by apply H.
  - rewrite (proj2 (Nat.ltb_lt _ _)) by lia. destruct (IH (alter S (Z.to_nat d) counts)) as ([counts'|] & E & H); [by rewrite length_alter| |by exists None].
    exists (Some counts'). split; [done|]. destruct H as [Hn H]. split; [set_solver|]. intros c Hcr. rewrite H by done. rewrite filter_cons.
    destruct (decide (d = c)) as [->|Hne].
    + rewrite list_lookup_alter_eq. destruct (lookup_lt_is_Some_2 counts (Z.to_nat c) ltac:(lia)) as [x ->]. cbn. lia.
    + rewrite list_lookup_alter_ne by lia. done.
Qed.

Lemma length_partition {A} (P : A -> Prop) `{!forall x, Decision (P x)} (l : list A) : length l = (length (filter P l) + length (filter (fun x => ~ P x) l))%nat.
Proof. induction l as [|x l IH]; [done|]. rewrite !filter_cons. repeat case_decide; cbn [length]; tauto || lia. Qed.

Lemma occurrences_total palette l : NoDup palette -> (forall c, c ∈ l -> c ∈ palette) -> Forall (fun c => occurrences c l = 4%nat) palette ->
  length l = (length palette * 4)%nat.
Proof.
  intros Hnd. revert l. induction Hnd as [|c palette Hc Hnd IH]; intros l Hin Hall.
  { destruct l as [|x l]; [done|]. specialize (Hin x ltac:(constructor)). by apply not_elem_of_nil in Hin. }
  apply Forall_cons in Hall as [H4 Hall]. rewrite (length_partition (fun d => d = c) l). unfold occurrences in *. rewrite H4, (IH (filter (fun d => ~ d = c) l)).
  - simpl. lia.
  - intros d [Hd1 Hd2]%list_elem_of_filter. specialize (Hin d Hd2). set_solver.
  - rewrite Forall_forall in Hall |- *. intros d Hd. rewrite <- (Hall d Hd). rewrite list_filter_filter. f_equal. apply filter_ext_in. intros x _. split; [naive_solver|].
    intros ->. split; [done|]. intros ->. done.
Qed.

Lemma occupied_count codes : length (filter (fun b => b = true) (occupied_flags codes)) = length (non_empty_codes codes).
Proof.
  unfold occupied_flags, non_empty_codes. induction codes as [|c codes IH]; [done|]. cbn [fmap list_fmap]. rewrite !filter_cons.
  repeat case_decide; try done. cbn [length]. by rewrite IH.
Qed.

Lemma occurrences_positions codes c : c <> 0 -> color_count codes (positions_from 0 (occupied_flags codes)) c = occurrences c codes.
Proof.
  intros Hc. unfold color_count, occurrences, occupied_flags.
  assert (forall k cs, drop k codes = cs -> length (filter (fun i => codes !! i = Some c) (positions_from k ((fun code => negb (code =? 0)) <$> cs))) = length (filter (fun d => d = c) cs)) as H;
    [|by apply H].
  intros k cs. revert k. induction cs as [|d cs IH]; intros k Hd; [done|]. cbn [fmap list_fmap positions_from].
  assert (codes !! k = Some d) as Hk by (rewrite <- (Nat.add_0_r k), <- lookup_drop, Hd; done).
  assert (drop (S k) codes = cs) as Hd' by (replace (S k) with (k + 1)%nat by lia; by rewrite <- drop_drop, Hd).
  rewrite (filter_cons (fun d0 => d0 = c)). destruct (Z.eqb_spec d 0) as [->|Hne]; cbn [negb]; [rewrite decide_False by congruence; by apply IH|].
  rewrite filter_cons, Hk. repeat case_decide; try congruence; cbn [length]; by rewrite IH.
Qed.

Lemma tetromino_palette codes (counts : list nat) : Forall code_ok codes -> 1 ∉ codes ->
  (forall c, 2 <= c <= 8 -> default 0%nat (counts !! Z.to_nat c) = occurrences c codes) ->
  filter (fun code => negb (default 0%nat (counts !! Z.to_nat code) =? 0)%nat = true) (Z.of_nat <$> seq 2 7) = palette_of (non_empty_codes codes).
Proof.
  intros Hok H1 Hcount. destruct (non_empty_ok codes Hok) as [Hne Hiff]. unfold palette_of. change (code_range 0) with ([0; 1] ++ code_range 2).
  rewrite filter_app. assert (filter (fun c => c ∈ non_empty_codes codes) [0; 1] = []) as ->.
  { rewrite !filter_cons, !decide_False; [done| |]; rewrite Hiff; naive_solver. }
  apply filter_ext_in. intros c Hc%(elem_of_code_range 2). rewrite Hcount, negb_true_iff, Nat.eqb_neq, Hiff by lia. unfold occurrences. split.
  - intros Hl. split; [|lia]. destruct (filter (fun d => d = c) codes) as [|x l] eqn:E; [done|]. assert (x ∈ filter (fun d => d = c) codes) as Hx by (rewrite E; constructor).
    apply list_elem_of_filter in Hx as [-> Hx]. done.
  - intros [Hin _] Hl. apply length_zero_iff_nil in Hl. assert (c ∈ filter (fun d => d = c) codes) as Hx by (by apply list_elem_of_filter). rewrite Hl in Hx. by apply not_elem_of_nil in Hx.
Qed.

Lemma tetromino_encodes codes previous mw : Forall code_ok codes -> Z.of_nat (length codes) < 2 ^ 32 - 1 -> (3 <= mw <= 32)%nat ->
  encodes_opt (tetromino_color_encoding codes mw) (read_cell_encoding (length codes) previous mw) codes.
Proof.
  intros Hok Hlen Hmw. unfold tetromino_color_encoding. destruct (count_colors_spec codes (replicate 9 0%nat) Hok) as (o & -> & Ho); [done|]. cbn [rbind].
  destruct o as [counts|]; [|by eexists]. destruct Ho as [H1 Hcount].
  set (count_of := fun code => default 0%nat (counts !! Z.to_nat code)).
  assert (forall c, 2 <= c <= 8 -> count_of c = occurrences c codes) as Hcount'.
  { intros c Hc. unfold count_of. rewrite Hcount by done. rewrite lookup_replicate_2 by lia. done. }
  cbn zeta. rewrite (tetromino_palette codes counts Hok H1 Hcount'). destruct (non_empty_ok codes Hok) as [Hne Hiff]. set (src := non_empty_codes codes) in *.
  destruct (_ || _) eqn:E; [by eexists|]. apply orb_false_iff in E as [E1%bool_decide_eq_false E2].
  assert (forall c, c ∈ src -> 2 <= c) as Hge.
  { intros c Hc. pose proof Hc as [Hcc Hc0]%Hiff. rewrite Forall_forall in Hne. destruct (Hne c Hc). destruct (decide (c = 1)) as [->|]; [done|lia]. }
  assert (Forall (fun c => occurrences c codes = 4%nat) (palette_of src)) as H4.
  { apply Forall_forall. intros c Hc. pose proof (palette_range _ _ Hc) as [? ?]. assert (c ∈ src) as Hcs by (by apply elem_of_palette). apply Hge in Hcs. rewrite <- Hcount' by lia.
    destruct (Nat.eqb_spec (count_of c) 4) as [|Hn]; [done|]. exfalso. eapply eq_true_false_abs; [|exact E2]. apply existsb_exists. exists c. split; [by apply list_elem_of_In|].
    apply negb_true_iff, Nat.eqb_neq. exact Hn. }
  assert (length codes = length (occupied_flags codes)) as Hflags by (unfold occupied_flags; by rewrite length_fmap).
  destruct (rt_shifted_mask src 2 Hne) as [Rm Pm]; [lia|exact Hge|].
  destruct (rt_color_groups codes Hlen false (Some 4%nat) "tetromino color rank is invalid" (palette_of src) (positions_from 0 (occupied_flags codes)) (replicate (length codes) 0)) as (rem' & base' & R & Hp & Hall);
    [apply palette_NoDup|done|rewrite Hflags; apply length_positions_le| | | |].
  { split; [by rewrite length_replicate|]. intros i Hi. destruct (Nat.lt_ge_cases i (length codes)) as [Hl|Hl]; [|rewrite !lookup_ge_None_2; [done|lia|rewrite length_replicate; lia]].
    rewrite lookup_replicate_2 by done. destruct (lookup_lt_is_Some_2 codes i Hl) as [c Hc]. rewrite Hc. f_equal. rewrite elem_of_positions_from, Nat.sub_0_r in Hi.
    unfold occupied_flags in Hi. rewrite list_lookup_fmap, Hc in Hi. cbn in Hi. destruct (Z.eqb_spec c 0); [done|]. exfalso. apply Hi. split; [lia|done]. }
  { intros i [_ Hi]%elem_of_positions_from. rewrite Nat.sub_0_r in Hi. unfold occupied_flags in Hi. rewrite list_lookup_fmap in Hi.
    apply fmap_Some in Hi as (c & Hc & Hc0). exists c. split; [done|]. apply elem_of_palette; [done|]. apply Hiff. split; [by eapply list_elem_of_lookup_2|].
    symmetry in Hc0. by apply negb_true_iff, Z.eqb_neq in Hc0. }
  { right. split; [done|]. split; [done|]. rewrite Forall_forall in H4 |- *. intros c Hc. rewrite occurrences_positions; [by apply H4|].
    apply (proj1 (elem_of_palette _ _ Hne)) in Hc. by apply Hiff in Hc as [_ ?]. }
  destruct (encodes_run (write_bits 5 mw ;; write_occupancy_mask (occupied_flags codes) ;; write_bits (Z.shiftr (color_mask (palette_of src)) 2) 7 ;;
    write_color_groups false codes (palette_of src) (occupied_positions (occupied_flags codes))) (read_cell_encoding (length codes) previous mw) codes) as (c & Ec & C).
  { eapply rt_seq; [apply rt_bits; [lia|apply (mode_width_ok mw ltac:(lia)); lia]|]. cbn [Z.eqb Pos.eqb andb]. rewrite (proj2 (Nat.leb_le _ _)) by lia.
    unfold read_tetromino_color_encoding. eapply rt_seq; [rewrite Hflags; apply rt_occupancy_mask; lia|]. 
    change (Z.of_nat 2) with 2 in Rm, Pm. eapply rt_seq; [exact Rm|]. rewrite Pm, occupied_count. fold src.
    replace (_ || _) with false.
    2: { symmetry. apply orb_false_iff. split; [by apply bool_decide_eq_false|]. apply negb_false_iff, Nat.eqb_eq. apply occurrences_total; [apply palette_NoDup|intros d Hd; by apply elem_of_palette|].
      rewrite Forall_forall in H4 |- *. intros d Hd. rewrite <- (H4 d Hd). unfold occurrences, src, non_empty_codes. rewrite list_filter_filter. f_equal. apply filter_ext_in. intros x _.
      split; [naive_solver|]. intros ->. split; [done|]. apply negb_true_iff, Z.eqb_neq. apply (proj1 (elem_of_palette _ _ Hne)) in Hd. by apply Hiff in Hd as [_ ?]. }
    rewrite occupied_positions_from. eapply rt_last; [exact R|]. rewrite (finish_groups_spec codes) by done. apply reads_lift. }
  exists (Some c). rewrite Ec. split; [done|]. by intros c' [= <-].
Qed.

(** ** The shortest encoding *)

Lemma rt_candidates {A} (m : Writer) cs (rd : Reader A) a :
  (forall w, m w = append_shortest cs w) -> cs <> [] -> Forall (fun c => candidate c rd a) cs -> roundtrip m rd a.
Proof. intros Hm Hne Hall. destruct (rt_shortest cs rd a Hne Hall) as (bs & W & R). exists bs. split; [|done]. intros w bs0 Hw. rewrite Hm. by apply W. Qed.

Lemma push_some_all {A} (P : A -> Prop) xs o : Forall P xs -> (forall x, o = Some x -> P x) -> Forall P (push_some xs o).
Proof. intros Hxs Ho. destruct o as [x|]; [|done]. cbn. apply Forall_app. split; [done|]. constructor; [by apply Ho|constructor]. Qed.

Lemma push_some_ne {A} (xs : list A) o : xs <> [] -> push_some xs o <> [].
Proof. destruct o; [|done]. intros _ H%app_eq_nil. naive_solver. Qed.

(** The candidates against a previous field. *)
Lemma delta_candidates codes previous mw cs :
  Forall code_ok codes -> Z.of_nat (length codes) < 2 ^ 32 - 1 -> (2 <= mw <= 32)%nat -> cs <> [] ->
  Forall (fun c => candidate c (read_cell_encoding (length codes) previous mw) codes) cs ->
  exists cs', match previous with
    | None => Ok cs
    | Some previous =>
        let? c2 := delta_encoding codes previous mw in
        let candidates := cs ++ [c2] in
        if (4 <=? mw)%nat then
          let? c8 := change_mask_encoding codes previous mw in
          let? c9 := delta_run_encoding codes previous mw in
          let candidates := candidates ++ [c8; c9] in
          let? c10 := single_color_delta_encoding codes previous mw in
          let candidates := push_some candidates c10 in
          let? c11 := combinatorial_delta_encoding codes previous mw in
          Ok (candidates ++ [c11])
        else Ok candidates
    end = Ok cs' /\ cs' <> [] /\ Forall (fun c => candidate c (read_cell_encoding (length codes) previous mw) codes) cs'.
Proof.
  intros Hok Hlen Hmw Hne Hcs. destruct previous as [prior|]; [|by exists cs].
  destruct (delta_encodes codes Hok Hlen prior mw Hmw) as (c2 & -> & C2). cbn [rbind]. destruct (Nat.leb_spec 4 mw) as [H4|].
  2: { eexists. split; [done|]. split; [by destruct cs|]. apply Forall_app. split; [done|]. by repeat constructor. }
  destruct (change_mask_encodes codes Hok Hlen prior mw Hmw H4) as (c8 & -> & C8). cbn [rbind].
  destruct (delta_run_encodes codes Hok Hlen prior mw Hmw H4) as (c9 & -> & C9). cbn [rbind].
  destruct (single_color_delta_encodes codes Hok Hlen prior mw ltac:(lia)) as (o10 & -> & C10). cbn [rbind].
  destruct (combinatorial_delta_encodes codes Hok Hlen prior mw ltac:(lia)) as (c11 & -> & C11). cbn [rbind].
  eexists. split; [done|]. split; [intros [H _]%app_eq_nil; revert H; apply push_some_ne; by destruct cs|].
  apply Forall_app. split; [|by repeat constructor]. apply push_some_all; [|done]. rewrite !Forall_app. split; [split; [done|]|]; by repeat constructor.
Qed.

Lemma rt_best codes previous mw :
  Forall code_ok codes -> Z.of_nat (length codes) < 2 ^ 32 - 1 -> (3 <= mw <= 32)%nat ->
  roundtrip (write_best_cell_encoding codes previous mw true) (read_cell_encoding (length codes) previous mw) codes.
Proof.
  intros Hok Hlen Hmw. assert (2 <= mw <= 32)%nat as Hmw2 by lia. set (rd := read_cell_encoding (length codes) previous mw).
  destruct (palette_encodes codes Hok previous mw Hmw2) as (c0 & E0 & C0). destruct (run_length_encodes codes Hok Hlen previous mw Hmw2) as (c1 & E1 & C1).
  destruct (occupancy_encodes codes Hok Hlen previous mw Hmw2) as (c3 & E3 & C3). fold rd in C0, C1, C3.
  destruct (delta_candidates codes previous mw [c0; c1; c3] Hok Hlen Hmw2) as (cs & Ecs & Hne & Hcs); [done|by repeat constructor|]. fold rd in Hcs.
  assert (exists cs2, (if forallb (fun code => code =? 0) codes then let? c7 := single_mode_encoding 7 mw in Ok (cs ++ [c7]) else Ok cs) = Ok cs2 /\
    cs2 <> [] /\ Forall (fun c => candidate c rd codes) cs2) as (cs2 & Ecs2 & Hne2 & Hcs2).
  { destruct (forallb _ codes) eqn:Hz; [|by exists cs]. destruct (zeros_encodes codes previous mw Hmw2 ltac:(lia) Hz) as (c7 & -> & C7).
    eexists. split; [done|]. split; [by destruct cs|]. apply Forall_app. split; [done|by repeat constructor]. }
  assert (exists cs3, (if match previous with Some prior => arrays_equal_fitted codes prior | None => false end then let? c6 := single_mode_encoding 6 mw in Ok (cs2 ++ [c6]) else Ok cs2) = Ok cs3 /\
    cs3 <> [] /\ Forall (fun c => candidate c rd codes) cs3) as (cs3 & Ecs3 & Hne3 & Hcs3).
  { destruct previous as [prior|]; [|by exists cs2]. destruct (arrays_equal_fitted codes prior) eqn:He; [|by exists cs2].
    destruct (same_encodes codes prior mw Hmw2 ltac:(lia) He) as (c6 & -> & C6).
    eexists. split; [done|]. split; [by destruct cs2|]. apply Forall_app. split; [done|by repeat constructor]. }
  destruct (multiset_encodes codes Hok Hlen previous mw Hmw2 ltac:(lia)) as (c4 & E4 & C4).
  destruct (tetromino_encodes codes previous mw Hok Hlen Hmw) as (o5 & E5 & C5).
  apply (rt_candidates _ (push_some (cs3 ++ [c4]) o5)).
  - intros w. unfold write_best_cell_encoding. rewrite E0, E1, E3. cbn [rbind]. cbn zeta in Ecs. cbn zeta. rewrite Ecs. cbn [rbind]. rewrite Ecs2. cbn [rbind].
    rewrite Ecs3. cbn [rbind]. rewrite E4. cbn [rbind]. rewrite E5. done.
  - apply push_some_ne. by destruct cs3.
  - apply push_some_all; [|done]. apply Forall_app. split; [done|by repeat constructor].
Qed.

Lemma rt_best_predicted codes predictor mw :
  Forall code_ok codes -> Z.of_nat (length codes) < 2 ^ 32 - 1 -> (4 <= mw <= 32)%nat ->
  roundtrip (write_best_predicted_cell_encoding codes predictor mw) (read_cell_encoding (length codes) (Some predictor) mw) codes.
Proof.
  intros Hok Hlen Hmw. assert (2 <= mw <= 32)%nat as Hmw2 by lia. set (rd := read_cell_encoding (length codes) (Some predictor) mw).
  destruct (delta_encodes codes Hok Hlen predictor mw Hmw2) as (c2 & E2 & C2). destruct (change_mask_encodes codes Hok Hlen predictor mw Hmw2 ltac:(lia)) as (c8 & E8 & C8).
  destruct (delta_run_encodes codes Hok Hlen predictor mw Hmw2 ltac:(lia)) as (c9 & E9 & C9).
  destruct (combinatorial_delta_encodes codes Hok Hlen predictor mw Hmw) as (c11 & E11 & C11).
  destruct (single_color_delta_encodes codes Hok Hlen predictor mw Hmw) as (o10 & E10 & C10).
  assert (exists cs, (if bool_decide (codes = predictor) then let? c6 := single_mode_encoding 6 mw in Ok ([c2; c8; c9; c11] ++ [c6]) else Ok [c2; c8; c9; c11]) = Ok cs /\
    cs <> [] /\ Forall (fun c => candidate c rd codes) cs) as (cs & Ecs & Hne & Hcs).
  { case_bool_decide as He; [|eexists; split; [done|]; split; [done|by repeat constructor]].
    destruct (same_encodes codes predictor mw Hmw2 ltac:(lia)) as (c6 & -> & C6); [|eexists; split; [done|]; split; [done|by repeat constructor]].
    subst predictor. unfold arrays_equal_fitted. apply forallb_forall. intros b Hb%list_elem_of_In. apply elem_of_lookup_imap in Hb as (i & c & -> & Hc).
    unfold cell_at. rewrite Hc. cbn. by rewrite Z.eqb_refl. }
  apply (rt_candidates _ (push_some cs o10)).
  - intros w. unfold write_best_predicted_cell_encoding. rewrite E2. cbn [rbind]. rewrite E8. cbn [rbind]. rewrite E9. cbn [rbind]. rewrite E11. cbn [rbind]. cbn zeta. rewrite Ecs. cbn [rbind].
    rewrite E10. done.
  - by apply push_some_ne.
  - by apply push_some_all.
Qed.

(** ** What the decoder can return

    On any bits the decoder of cells does not panic, and a field it returns
    has the requested size and valid colors. *)

Definition field_ok (n : nat) (codes : list Z) : Prop := length codes = n /\ Forall code_ok codes.

Lemma code_ok_0 : code_ok 0.
Proof. by split. Qed.

Lemma palette_from_mask_ok mask minimum : (minimum <= 9)%nat -> Forall code_ok (palette_from_mask mask minimum).
Proof.
  intros Hm. unfold palette_from_mask. fold (code_range minimum). apply Forall_forall. intros c [_ Hc]%list_elem_of_filter.
  apply elem_of_code_range in Hc. unfold code_ok. lia.
Qed.

Lemma set_cell_ok n codes i c : field_ok n codes -> (i < n)%nat -> code_ok c -> exists codes', set_cell codes i c = Ok codes' /\ field_ok n codes'.
Proof.
  intros [Hl Hc] Hi Hcc. unfold set_cell. rewrite (proj2 (Nat.ltb_lt _ _)) by lia. eexists. split; [done|]. split; [by rewrite length_insert|by apply Forall_insert].
Qed.

Lemma fitted_ok previous n : (forall p, previous = Some p -> Forall code_ok p) -> no_panic (fitted_previous previous n) (field_ok n).
Proof.
  intros Hp. unfold fitted_previous. destruct previous as [p|]; [|done]. cbn. split; [by rewrite length_fmap, length_seq|]. specialize (Hp p eq_refl).
  apply Forall_fmap, Forall_forall. intros i _. cbn. unfold cell_at. destruct (p !! i) as [c|] eqn:E; cbn; [|apply code_ok_0]. rewrite Forall_forall in Hp. apply Hp.
  by eapply list_elem_of_lookup_2.
Qed.

Lemma post_palette_code palette width context : Forall code_ok palette -> rd_post (read_palette_code palette width context) code_ok.
Proof.
  intros Hp. eapply post_bind; [apply post_read_bits|]. intros i _. apply post_lift. destruct (palette !! Z.to_nat i) as [c|] eqn:E; [|done]. cbn.
  rewrite Forall_forall in Hp. apply Hp. by eapply list_elem_of_lookup_2.
Qed.

Lemma assert_color_ok code : 0 <= code -> no_panic (assert_color_code code) (fun _ => code_ok code).
Proof. intros H. unfold assert_color_code. destruct (Z.leb_spec code 8); [by split|done]. Qed.

Lemma post_mask_runs fuel n value acc : (n - length acc <= fuel)%nat -> (length acc <= n)%nat -> rd_post (read_mask_runs fuel n value acc) (fun m => length m = n).
Proof.
  revert value acc. induction fuel as [|fuel IH]; intros value acc Hf Hl.
  - rewrite read_mask_runs_done by lia. apply post_ret. lia.
  - destruct (Nat.le_gt_cases n (length acc)); [rewrite read_mask_runs_done by lia; apply post_ret; lia|]. rewrite read_mask_runs_step by done.
    eapply post_bind; [apply post_read_var_uint|]. intros k [Hk1 Hk2]. destruct (Z.ltb_spec (Z.of_nat (n - length acc)) (k + 1)); [apply post_fail|].
    apply IH; rewrite length_app, length_replicate; lia.
Qed.

Lemma post_occupancy_mask n : rd_post (read_occupancy_mask n) (fun m => length m = n).
Proof.
  eapply post_bind; [apply post_read_bit|]. intros [] _; cbn [negb].
  - destruct (Nat.ltb_spec 0 n); [|apply post_ret; simpl; lia]. eapply post_bind; [apply post_read_bit|]. intros v _. apply post_mask_runs; simpl; lia.
  - eapply post_weaken; [apply (post_repeat _ (fun _ => True)), post_read_bit|]. naive_solver.
Qed.

Lemma post_color_runs n turns acc : (length acc <= n)%nat -> Forall code_ok acc -> rd_post (read_color_runs n turns acc) (field_ok n).
Proof.
  revert acc. induction turns as [|turns IH]; intros acc Hl Hc; cbn [read_color_runs].
  - destruct (Nat.eqb_spec (length acc) n); [by apply post_ret|apply post_fail].
  - eapply post_bind; [apply post_read_bits|]. intros code [Hcode _]. eapply post_bind; [apply post_lift, assert_color_ok, Hcode|]. intros ? Hok.
    eapply post_bind; [apply post_read_var_uint|]. intros k [Hk _]. destruct (Z.ltb_spec (Z.of_nat (n - length acc)) (k + 1)); [apply post_fail|].
    apply IH; [rewrite length_app, length_replicate; lia|]. apply Forall_app. split; [done|by apply Forall_replicate].
Qed.

Lemma post_set {B} n codes i c (k : list Z -> Reader B) Q : field_ok n codes -> (i < n)%nat -> code_ok c -> (forall codes', field_ok n codes' -> rd_post (k codes') Q) ->
  rd_post (rd_bind (rd_lift (set_cell codes i c)) k) Q.
Proof. intros H Hi Hc Hk. destruct (set_cell_ok n codes i c H Hi Hc) as (codes' & -> & H'). by apply (Hk codes'). Qed.

Lemma post_changes n turns prior codes : (forall p, prior = Some p -> 0 <= p) -> field_ok n codes -> rd_post (read_changes n turns prior codes) (field_ok n).
Proof.
  revert prior codes. induction turns as [|turns IH]; intros prior codes Hp Hf; cbn [read_changes]; [by apply post_ret|].
  eapply post_bind; [apply post_read_var_uint|]. intros gap [Hg _]. eapply post_bind; [apply post_read_bits|]. intros code [Hcode _].
  eapply post_bind; [apply post_lift, assert_color_ok, Hcode|]. intros ? Hok. set (index := match prior with None => gap | Some _ => _ end).
  assert (0 <= index). { unfold index. destruct prior as [p|]; [|done]. specialize (Hp p eq_refl). unfold saturating_add, umax. lia. }
  destruct (_ || _) eqn:E; [apply post_fail|]. apply orb_false_iff in E as [E%Z.leb_gt _]. apply (post_set n); [done|lia|done|]. intros codes' Hf'.
  apply IH; [|done]. by intros p [= <-].
Qed.

Lemma post_into palette width context n indexes codes : Forall code_ok palette -> field_ok n codes -> Forall (fun i => (i < n)%nat) indexes ->
  rd_post (read_into palette width context indexes codes) (field_ok n).
Proof.
  intros Hp Hf Hi. revert codes Hf. induction Hi as [|i indexes Hi _ IH]; intros codes Hf; cbn [read_into]; [by apply post_ret|].
  eapply post_bind; [by apply post_palette_code|]. intros c Hc. by apply (post_set n).
Qed.

Lemma post_flagged palette width n changed codes : Forall code_ok palette -> length changed = n -> field_ok n codes ->
  rd_post (read_flagged palette width changed (seq 0 n) codes) (field_ok n).
Proof.
  intros Hp Hc Hf r. rewrite read_flagged_into by (intros i Hi%elem_of_seq; lia).
  apply (post_into palette width "delta palette index" n); [done|done|]. apply Forall_forall. intros i [_ Hi%elem_of_seq]%list_elem_of_filter. lia.
Qed.

Lemma post_run_spans n turns e runs : 0 <= e -> Forall (fun i => (i < n)%nat) (span_cells runs) ->
  rd_post (read_run_spans n turns e runs) (fun runs => Forall (fun i => (i < n)%nat) (span_cells runs)).
Proof.
  revert e runs. induction turns as [|turns IH]; intros e runs He Hr; cbn [read_run_spans]; [by apply post_ret|].
  eapply post_bind; [apply post_read_var_uint|]. intros gap [Hg _]. eapply (post_bind _ _ (fun s => s = e + gap)).
  { apply post_lift. destruct (checked_add 64 e gap) as [s|] eqn:E; [|done]. apply checked_add_Some in E as [_ ->]. done. }
  intros s ->. eapply post_bind; [apply post_read_var_uint|]. intros k [Hk _]. destruct (_ || _) eqn:E; [apply post_fail|].
  apply orb_false_iff in E as [E E3%Z.ltb_ge]. apply orb_false_iff in E as [E1%Z.ltb_ge E2%Z.ltb_ge]. apply IH; [lia|].
  unfold span_cells in *. rewrite bind_app. apply Forall_app. split; [done|]. cbn. rewrite app_nil_r. apply Forall_forall. intros i Hi%elem_of_seq. lia.
Qed.

Lemma post_positions total count reason : Z.of_nat total < 2 ^ 32 - 1 -> (count <= total)%nat ->
  rd_post (read_positions total count reason) (fun ps => combination total ps /\ length ps = count).
Proof.
  intros Ht Hc. destruct (combination_count_spec total count Ht) as [C1 C2]. eapply post_bind; [apply post_read_big_bits|]. intros rank Hr.
  rewrite bn_leb_spec by done. destruct (Z.leb_spec (bn_val (combination_count total count)) (bn_val rank)); [apply post_fail|].
  destruct (combination_unrank_spec total count rank Ht Hc Hr) as (ps & -> & Hl & Hps & _); [lia|]. by apply post_lift.
Qed.

Lemma elem_of_remove_relative values ps i : i ∈ remove_relative_positions values ps <-> exists p, values !! p = Some i /\ p ∉ ps.
Proof.
  unfold remove_relative_positions. rewrite list_elem_of_omap. split.
  - intros ([p v] & Hin & Hv). apply elem_of_lookup_imap in Hin as (j & y & [= -> ->] & Hj). cbn in Hv. case_bool_decide; [done|]. injection Hv as ->. by exists j.
  - intros (p & Hp & Hn). exists (p, i). split; [apply elem_of_lookup_imap; by exists p, i|]. cbn. by rewrite bool_decide_false.
Qed.

Lemma length_remove_relative values ps : combination (length values) ps -> length (remove_relative_positions values ps) = (length values - length ps)%nat.
Proof.
  intros [Hs Hb]. unfold remove_relative_positions.
  assert (length (omap (fun iv : nat * nat => if bool_decide (fst iv ∈ ps) then None else Some (snd iv)) (imap pair values)) = length (filter (fun i => ~ i ∈ ps) (seq 0 (length values)))) as ->.
  { assert (forall k, length (omap (fun iv : nat * nat => if bool_decide (fst iv ∈ ps) then None else Some (snd iv)) (imap (fun i v => ((k + i)%nat, v)) values)) =
      length (filter (fun i => ~ i ∈ ps) (seq k (length values)))) as H; [|apply (H 0%nat)].
    clear Hb. induction values as [|v values IH]; intros k; [done|]. cbn [imap omap list_omap fst snd length seq]. rewrite Nat.add_0_r, filter_cons.
    replace (imap ((fun (i v0 : nat) => ((k + i)%nat, v0)) ∘ S) values) with (imap (fun (i v0 : nat) => ((S k + i)%nat, v0)) values)
      by (apply imap_ext; intros i x _; cbn; f_equal; lia).
    specialize (IH (S k)). destruct (decide (k ∈ ps)) as [Hk|Hk].
    - rewrite bool_decide_true by done. rewrite decide_False by tauto. exact IH.
    - rewrite bool_decide_false by done. rewrite decide_True by done. cbn [length]. by rewrite IH. }
  pose proof (length_partition (fun i => i ∈ ps) (seq 0 (length values))) as Hp. rewrite length_seq in Hp.
  assert (filter (fun i => i ∈ ps) (seq 0 (length values)) ≡ₚ ps) as Hperm.
  { apply NoDup_Permutation; [apply NoDup_filter, NoDup_seq|by apply sorted_lt_NoDup|]. intros i. rewrite list_elem_of_filter, elem_of_seq. split; [naive_solver|].
    intros Hi. split; [done|]. rewrite Forall_forall in Hb. specialize (Hb i Hi). lia. }
  rewrite Hperm in Hp. lia.
Qed.

(** A field in which only the remaining cells lack a valid color. *)
Definition partial_ok (n : nat) (remaining : list nat) (codes : list Z) : Prop :=
  length codes = n /\ Forall (fun i => (i < n)%nat) remaining /\ forall i c, codes !! i = Some c -> i ∈ remaining \/ code_ok c.

Lemma paint_ok n remaining code positions codes :
  length codes = n -> Forall (fun i => (i < n)%nat) remaining -> Forall (fun p => (p < length remaining)%nat) positions ->
  exists codes', paint remaining code positions codes = Ok codes' /\ length codes' = n /\
    forall i c, codes' !! i = Some c -> c = code \/ (codes !! i = Some c /\ forall p, p ∈ positions -> remaining !! p <> Some i).
Proof.
  intros Hl Hr Hp. revert codes Hl. induction Hp as [|p positions Hp _ IH]; intros codes Hl; cbn [paint].
  { exists codes. split; [done|]. split; [done|]. intros i c Hc. right. split; [done|]. by intros p ?%not_elem_of_nil. }
  destruct (lookup_lt_is_Some_2 remaining p Hp) as [t Ht]. rewrite Ht. cbn [panic_none ok_or rbind]. rewrite Forall_forall in Hr.
  pose proof (Hr t ltac:(by eapply list_elem_of_lookup_2)) as Htn. unfold set_cell. rewrite (proj2 (Nat.ltb_lt _ _)) by lia. cbn [rbind].
  destruct (IH (<[t := code]> codes)) as (codes' & -> & Hl' & H); [by rewrite length_insert|]. exists codes'. split; [done|]. split; [done|].
  intros i c Hc. destruct (H i c Hc) as [->|[Hi Hn]]; [by left|]. destruct (decide (i = t)) as [->|Hne].
  - rewrite list_lookup_insert_eq in Hi by lia. injection Hi as <-. by left.
  - rewrite list_lookup_insert_ne in Hi by done. right. split; [done|]. intros q [->|Hq]%elem_of_cons; [congruence|by apply Hn].
Qed.

Lemma post_color_groups n fixed reason palette remaining codes :
  Z.of_nat n < 2 ^ 32 - 1 -> Forall code_ok palette -> (length remaining <= n)%nat -> partial_ok n remaining codes ->
  (fixed = None \/ (fixed = Some 4%nat /\ length remaining = (length palette * 4)%nat)) ->
  rd_post (read_color_groups fixed reason palette remaining codes) (fun st => partial_ok n (fst st) (snd st)).
Proof.
  intros Hn Hp. revert remaining codes. induction Hp as [|code palette Hcode Hp IH]; intros remaining codes Hl Hok Hf; [by apply post_ret|].
  destruct palette as [|code2 rest]; [by apply post_ret|]. cbn [read_color_groups].
  eapply (post_bind _ _ (fun count => 0 <= count /\ forall k, fixed = Some k -> count = Z.of_nat k)).
  { destruct Hf as [->|[-> _]]; [eapply post_weaken; [apply post_read_var_uint|]; intros v [? ?]; by split|]. apply post_ret. split; [lia|]. by intros k [= <-]. }
  intros count [Hc Hk]. destruct (match fixed with Some _ => false | None => _ end) eqn:E; [apply post_fail|].
  assert (Z.to_nat count <= length remaining)%nat as Hcl.
  { destruct Hf as [->|[-> H4]]; [apply Z.ltb_ge in E; lia|]. rewrite (Hk _ eq_refl). simpl in H4. lia. }
  eapply post_bind; [apply post_positions; [lia|done]|]. intros ps [Hps Hlp]. destruct Hok as (L & R & V).
  destruct (paint_ok n remaining code ps codes L R (proj2 Hps)) as (codes' & -> & L' & V'). change (rd_bind (rd_lift (Ok codes')) ?k) with (k codes').
  pose proof (length_remove_relative remaining ps Hps) as Hlr. apply IH; [lia| |].
  - split; [done|]. split.
    + apply Forall_forall. intros i (p & Hi & _)%elem_of_remove_relative. rewrite Forall_forall in R. apply R. by eapply list_elem_of_lookup_2.
    + intros i c Hic. destruct (V' i c Hic) as [->|[Hi Hnot]]; [by right|]. destruct (V i c Hi) as [Hir|]; [|by right]. left.
      apply list_elem_of_lookup in Hir as [p Hpi]. apply elem_of_remove_relative. exists p. split; [done|]. intros Hpp. by eapply Hnot.
  - destruct Hf as [->|[-> H4]]; [by left|right]. split; [done|]. rewrite Hlr, Hlp, (Hk _ eq_refl). simpl in *. lia.
Qed.

Lemma finish_groups_ok n palette st : palette <> [] -> Forall code_ok palette -> partial_ok n (fst st) (snd st) -> no_panic (finish_groups palette st) (field_ok n).
Proof.
  intros Hne Hp. destruct st as [remaining codes]. cbn [fst snd]. intros (L & R & V). unfold finish_groups. cbn [fst snd].
  assert (forall code, code_ok code -> no_panic (fill_remaining code remaining codes) (field_ok n)) as Hfill.
  { intros code Hc. clear Hne Hp. revert codes L V. induction R as [|i remaining Hi _ IH]; intros codes L V; cbn [fill_remaining].
    - split; [done|]. apply Forall_forall. intros c Hcc. apply list_elem_of_lookup in Hcc as [j Hj]. destruct (V j c Hj) as [?%not_elem_of_nil|?]; done.
    - unfold set_cell. rewrite (proj2 (Nat.ltb_lt _ _)) by lia. cbn [rbind]. apply IH; [by rewrite length_insert|]. intros j c Hj. destruct (decide (i = j)) as [->|Hij].
      + rewrite list_lookup_insert_eq in Hj by lia. injection Hj as <-. by right.
      + rewrite list_lookup_insert_ne in Hj by done. destruct (V j c Hj) as [[->|?]%elem_of_cons|?]; [done|by left|by right]. }
  destruct remaining as [|i rest]; [exact (Hfill 0 code_ok_0)|]. destruct (last palette) as [code|] eqn:E; [|by apply last_None in E]. apply (Hfill code).
  rewrite Forall_forall in Hp. apply Hp. apply last_Some in E as [l ->]. set_solver.
Qed.

Lemma post_multiset n : Z.of_nat n < 2 ^ 32 - 1 -> rd_post (read_multiset_encoding n) (field_ok n).
Proof.
  intros Hn. eapply post_bind; [apply post_read_bits|]. intros mask _. pose proof (palette_from_mask_ok mask 0 ltac:(lia)) as Hp. cbn zeta. destruct (bool_decide _) eqn:Hb; [apply post_fail|]; apply bool_decide_eq_false in Hb.
  eapply post_bind.
  - apply (post_color_groups n); [done|done|by rewrite length_seq| |by left]. split; [by rewrite length_replicate|]. split; [apply Forall_forall; intros i Hi%elem_of_seq; lia|].
    intros i c Hi%lookup_lt_Some. rewrite length_replicate in Hi. left. apply elem_of_seq. lia.
  - intros st Hst. apply post_lift. by apply finish_groups_ok.
Qed.

Lemma length_true_positions k flags : length (positions_from k flags) = length (filter (fun b => b = true) flags).
Proof. revert k. induction flags as [|[] flags IH]; intros k; cbn [positions_from]; [done| |]; rewrite filter_cons; case_decide; try done; cbn [length]; by rewrite IH. Qed.

Lemma post_tetromino n : Z.of_nat n < 2 ^ 32 - 1 -> rd_post (read_tetromino_color_encoding n) (field_ok n).
Proof.
  intros Hn. eapply post_bind; [apply post_occupancy_mask|]. intros occupied Ho. eapply post_bind; [apply post_read_bits|]. intros mask _.
  pose proof (palette_from_mask_ok (shl 32 mask 2) 2 ltac:(lia)) as Hp. cbn zeta. destruct (_ || _) eqn:E; [apply post_fail|].
  apply orb_false_iff in E as [E1%bool_decide_eq_false E2%negb_false_iff%Nat.eqb_eq]. rewrite occupied_positions_from. eapply post_bind.
  - apply (post_color_groups n); [done|done|rewrite <- Ho; apply length_positions_le| |right; split; [done|by rewrite length_true_positions]].
    split; [by rewrite length_replicate|]. split; [rewrite <- Ho; apply positions_from_combination|]. intros i c Hi. right. apply lookup_replicate in Hi as [-> _]. apply code_ok_0.
  - intros st Hst. apply post_lift. by apply finish_groups_ok.
Qed.

Lemma post_occupied palette width occupied : Forall code_ok palette -> rd_post (read_occupied palette width occupied) (field_ok (length occupied)).
Proof.
  intros Hp. induction occupied as [|o occupied IH]; cbn [read_occupied]; [apply post_ret; by split|]. eapply (post_bind _ _ code_ok).
  { destruct o; [by apply post_palette_code|apply post_ret, code_ok_0]. }
  intros c Hc. eapply post_bind; [exact IH|]. intros cs [Hl Hcs]. apply post_ret. split; [simpl; by rewrite Hl|by constructor].
Qed.

Lemma paint_flagged_ok n code codes changed : code_ok code -> field_ok n codes -> field_ok n (paint_flagged code codes changed).
Proof.
  intros Hc [Hl Hcs]. unfold paint_flagged. split; [by rewrite length_imap|]. apply Forall_forall. intros c Hin. apply elem_of_lookup_imap in Hin as (i & d & -> & Hd).
  rewrite Forall_forall in Hcs. destruct (changed !! i) as [[]|]; [done| |]; apply Hcs; by eapply list_elem_of_lookup_2.
Qed.

Lemma post_cells n previous mw : Z.of_nat n < 2 ^ 32 - 1 -> (forall p, previous = Some p -> Forall code_ok p) ->
  rd_post (read_cell_encoding n previous mw) (field_ok n).
Proof.
  intros Hn Hprev. pose proof (fitted_ok previous n Hprev) as Hfit. eapply post_bind; [apply post_read_bits|]. intros mode _.
  assert (forall mask, Forall code_ok (palette_from_mask mask 0)) as Hpal by (intros; apply palette_from_mask_ok; lia).
  destruct (mode =? 0). { eapply post_bind; [apply post_read_bits|]. intros mask _. cbn zeta. destruct (bool_decide _); [apply post_fail|].
    apply post_repeat. by apply post_palette_code. }
  destruct (mode =? 1). { eapply post_bind; [apply post_read_var_uint|]. intros k _. destruct (_ <? k); [apply post_fail|]. apply post_color_runs; [simpl; lia|constructor]. }
  destruct (mode =? 2). { eapply post_bind; [apply post_lift, Hfit|]. intros codes Hc. eapply post_bind; [apply post_read_var_uint|]. intros k _. destruct (_ <? k); [apply post_fail|].
    by apply post_changes. }
  destruct ((mode =? 4) && _); [by apply post_multiset|]. destruct ((mode =? 5) && _); [by apply post_tetromino|].
  destruct ((mode =? 6) && _); [by apply post_lift|]. destruct ((mode =? 7) && _).
  { apply post_ret. split; [by rewrite length_replicate|apply Forall_replicate, code_ok_0]. }
  destruct ((mode =? 8) && _). { eapply post_bind; [apply post_lift, Hfit|]. intros codes Hc. eapply post_bind; [apply post_occupancy_mask|]. intros changed Hch.
    eapply post_bind; [apply post_read_bits|]. intros mask _. cbn zeta. destruct (_ && _); [apply post_fail|]. by apply post_flagged. }
  destruct ((mode =? 9) && _). { eapply post_bind; [apply post_lift, Hfit|]. intros codes Hc. eapply post_bind; [apply post_read_bits|]. intros mask _.
    eapply post_bind; [apply post_read_var_uint|]. intros k _. destruct (_ <? k); [apply post_fail|]. eapply post_bind; [apply post_run_spans; [done|constructor]|]. intros runs Hr.
    cbn zeta. destruct (_ && _); [apply post_fail|]. by apply post_into. }
  destruct ((mode =? 10) && _). { eapply post_bind; [apply post_lift, Hfit|]. intros codes Hc. eapply post_bind; [apply post_read_bits|]. intros code [Hcode _].
    eapply post_bind; [apply post_lift, assert_color_ok, Hcode|]. intros ? Hok. eapply post_bind; [apply post_occupancy_mask|]. intros changed _. apply post_ret.
    by apply paint_flagged_ok. }
  destruct ((mode =? 11) && _). { eapply post_bind; [apply post_lift, Hfit|]. intros codes Hc. eapply post_bind; [apply post_read_var_uint|]. intros k [Hk _].
    destruct (Z.ltb_spec (Z.of_nat n) k); [apply post_fail|]. eapply post_bind; [apply post_positions; [done|lia]|]. intros ps [[_ Hps] _]. eapply post_bind; [apply post_read_bits|]. intros mask _.
    cbn zeta. destruct (_ && _); [apply post_fail|]. by apply post_into. }
  destruct (negb _); [apply post_fail|]. eapply post_bind; [apply post_occupancy_mask|]. intros occupied Ho. eapply post_bind; [apply post_read_bits|]. intros mask _.
  cbn zeta. destruct (_ && _); [apply post_fail|]. rewrite <- Ho. apply post_occupied. apply palette_from_mask_ok. lia.
Qed.

(** ** The property of the cell encodings *)

(** Whatever encoding is the shortest, the decoder reads the field back
    from the bytes written, for any earlier field both sides know; and on
    arbitrary bytes the decoder does not panic and returns a field of the
    requested size with valid colors. *)
Theorem cell_encodings_roundtrip (codes : list Z) (previous : option (list Z)) (mode_width : nat) :
  Forall code_ok codes -> Z.of_nat (length codes) < 2 ^ 32 - 1 -> (3 <= mode_width <= 32)%nat -> (forall p, previous = Some p -> Forall code_ok p) ->
  (exists w r, write_best_cell_encoding codes previous mode_width true BitWriter_default = Ok w /\
    read_cell_encoding (length codes) previous mode_width (BitReader_new (w_bytes w)) = Ok (codes, r)) /\
  (forall bytes, no_panic (read_cell_encoding (length codes) previous mode_width (BitReader_new bytes)) (fun result => field_ok (length codes) (fst result))).
Proof.
  intros Hok Hlen Hmw Hprev. split.
  - destruct (rt_best codes previous mode_width Hok Hlen Hmw) as (bs & W & R). destruct (W _ _ holds_default) as (w & Ew & Hw). destruct (reader_of_writer w _ Hw) as (n & Hn).
    destruct (R _ _ Hn) as (r & Er & _). by exists w, r.
  - intros bytes. by apply post_cells.
Qed.

Lemma cell_encodings_roundtrip_witness : exists w r, write_best_cell_encoding [2; 2; 0; 5; 2] (Some [2; 2; 2; 5]) 4 true BitWriter_default = Ok w /\
  read_cell_encoding 5 (Some [2; 2; 2; 5]) 4 (BitReader_new (w_bytes w)) = Ok ([2; 2; 0; 5; 2], r).
Proof.
  apply (cell_encodings_roundtrip [2; 2; 0; 5; 2] (Some [2; 2; 2; 5]) 4); [by repeat constructor|simpl; lia|lia|]. intros p [= <-]. by repeat constructor.
Defined.
