(* ===== verification/CtkPages.v ===== *)
(** * Pages of the CTK3 codec

    [clearra-ctk3/src/lib.rs] (pieces, colors, operations, pages and their
    normal form) and [clearra-ctk3/src/geometry.rs] (the cells of an
    operation and its canonical form).

    A comment is the list of its UTF-8 bytes; [utf8_valid] is the check of
    [String::from_utf8], and the [String] invariant is that it holds. *)

From Stdlib Require Import ZArith Lia Sorted.
From stdpp Require Import prelude strings sorting.
From S2P Require Import Prelude Words CtkBigNat CtkBits CtkCells.

Local Open Scope Z_scope.

Definition CTK3_MAX_SEGMENT_PAGES : Z := 4096.
Definition MAX_WIDTH : nat := 31.
Definition MAX_HEIGHT : nat := 31.
Definition MAX_COMMENT_BYTES : Z := 2 ^ 20.
Definition MAX_OPERATION_COORDINATE : Z := 2 ^ 30 - 1.

(** ** Pieces, colors, rotations *)

Inductive Ctk3Piece := PieceI | PieceO | PieceT | PieceS | PieceZ | PieceJ | PieceL.

#[export] Instance Ctk3Piece_eq_dec : EqDecision Ctk3Piece.
Proof. solve_decision. Defined.

Definition wire_index (p : Ctk3Piece) : Z :=
  match p with PieceI => 0 | PieceO => 1 | PieceT => 2 | PieceS => 3 | PieceZ => 4 | PieceJ => 5 | PieceL => 6 end.

Definition from_wire_index (index : Z) : option Ctk3Piece :=
  match index with
  | 0 => Some PieceI | 1 => Some PieceO | 2 => Some PieceT | 3 => Some PieceS | 4 => Some PieceZ | 5 => Some PieceJ | 6 => Some PieceL
  | _ => None
  end.

Definition color_code (p : Ctk3Piece) : Z := wire_index p + 2.

Inductive Ctk3Color := ColorEmpty | ColorGray | ColorPiece (p : Ctk3Piece).

#[export] Instance Ctk3Color_eq_dec : EqDecision Ctk3Color.
Proof. solve_decision. Defined.

Definition code_of_color (c : Ctk3Color) : Z := match c with ColorEmpty => 0 | ColorGray => 1 | ColorPiece p => color_code p end.

Definition color_of_code (code : Z) : option Ctk3Color :=
  match code with
  | 0 => Some ColorEmpty | 1 => Some ColorGray
  | 2 => Some (ColorPiece PieceI) | 3 => Some (ColorPiece PieceO) | 4 => Some (ColorPiece PieceT) | 5 => Some (ColorPiece PieceS)
  | 6 => Some (ColorPiece PieceZ) | 7 => Some (ColorPiece PieceJ) | 8 => Some (ColorPiece PieceL)
  | _ => None
  end.

Inductive Ctk3Rotation := Spawn | Right | Reverse | Left.

#[export] Instance Ctk3Rotation_eq_dec : EqDecision Ctk3Rotation.
Proof. solve_decision. Defined.

Definition from_quarter_turns (index : Z) : option Ctk3Rotation :=
  match index with 0 => Some Spawn | 1 => Some Right | 2 => Some Reverse | 3 => Some Left | _ => None end.

Record Ctk3Operation := mkOp { op_piece : Ctk3Piece; op_rotation : Ctk3Rotation; op_x : Z; op_y : Z }.

#[export] Instance Ctk3Operation_eq_dec : EqDecision Ctk3Operation.
Proof. solve_decision. Defined.

Record Ctk3PageFlags := mkFlags { fl_lock : bool; fl_mirror : bool; fl_colorize : bool; fl_rise : bool; fl_quiz : bool }.

#[export] Instance Ctk3PageFlags_eq_dec : EqDecision Ctk3PageFlags.
Proof. solve_decision. Defined.

Definition default_flags : Ctk3PageFlags := mkFlags true false true false false.

Definition flag_bits (f : Ctk3PageFlags) : Z :=
  Z.lor (Z.lor (Z.lor (Z.lor (Z.b2z (fl_lock f)) (Z.shiftl (Z.b2z (fl_mirror f)) 1)) (Z.shiftl (Z.b2z (fl_colorize f)) 2))
    (Z.shiftl (Z.b2z (fl_rise f)) 3)) (Z.shiftl (Z.b2z (fl_quiz f)) 4).

Definition flags_from_bits (bits : Z) : Ctk3PageFlags :=
  mkFlags (negb (Z.land bits 1 =? 0)) (negb (Z.land bits 2 =? 0)) (negb (Z.land bits 4 =? 0)) (negb (Z.land bits 8 =? 0)) (negb (Z.land bits 16 =? 0)).

(** ** Pages *)

Record Ctk3Page := mkPage {
  page_height : nat;
  page_cells : list Ctk3Color;
  page_comment : list Z;
  page_operation : option Ctk3Operation;
  page_flags : Ctk3PageFlags;
  page_garbage : option (list Ctk3Color)
}.

Record Ctk3Document := mkDocument { doc_width : nat; doc_pages : list Ctk3Page }.

Record NormalizedPage := mkNormalized {
  np_height : nat;
  np_codes : list Z;
  np_comment : list Z;
  np_operation : option Ctk3Operation;
  np_flags : Ctk3PageFlags;
  np_garbage : option (list Z)
}.

#[export] Instance NormalizedPage_eq_dec : EqDecision NormalizedPage.
Proof. solve_decision. Defined.

#[export] Instance Ctk3Page_eq_dec : EqDecision Ctk3Page.
Proof. solve_decision. Defined.

#[export] Instance Ctk3Document_eq_dec : EqDecision Ctk3Document.
Proof. solve_decision. Defined.

#[export] Instance Ctk3CodecError_eq_dec : EqDecision Ctk3CodecError.
Proof. solve_decision. Defined.

#[export] Instance CtkFailure_eq_dec : EqDecision CtkFailure.
Proof. solve_decision. Defined.

(** ** UTF-8 *)

Definition byte_in (lo hi b : Z) : bool := (lo <=? b) && (b <=? hi).

(** The well-formed byte sequences of the Unicode standard. *)
Fixpoint utf8_valid (bytes : list Z) : bool :=
  match bytes with
  | [] => true
  | a :: rest =>
      if a <? 128 then utf8_valid rest
      else
        match rest with
        | b :: rest2 =>
            if byte_in 194 223 a then byte_in 128 191 b && utf8_valid rest2
            else
              match rest2 with
              | c :: rest3 =>
                  if byte_in 224 239 a then
                    byte_in (if a =? 224 then 160 else 128) (if a =? 237 then 159 else 191) b && byte_in 128 191 c && utf8_valid rest3
                  else
                    match rest3 with
                    | d :: rest4 =>
                        byte_in 240 244 a && byte_in (if a =? 240 then 144 else 128) (if a =? 244 then 143 else 191) b &&
                        byte_in 128 191 c && byte_in 128 191 d && utf8_valid rest4
                    | [] => false
                    end
              | [] => false
              end
        | [] => false
        end
  end.

(** ** Operations *)

Definition operation_rotations (piece : Ctk3Piece) : list Ctk3Rotation :=
  match piece with
  | PieceO => [Spawn]
  | PieceI | PieceS | PieceZ => [Spawn; Right]
  | PieceT | PieceJ | PieceL => [Spawn; Right; Reverse; Left]
  end.

Definition quarter_turn (p : Z * Z) : Z * Z := (snd p, - fst p).

Definition operation_offsets (piece : Ctk3Piece) (rotation : Ctk3Rotation) : list (Z * Z) :=
  let offsets :=
    match piece with
    | PieceI => [(-1, 0); (0, 0); (1, 0); (2, 0)]
    | PieceO => [(0, 0); (1, 0); (0, 1); (1, 1)]
    | PieceT => [(-1, 0); (0, 0); (1, 0); (0, 1)]
    | PieceS => [(-1, 0); (0, 0); (0, 1); (1, 1)]
    | PieceZ => [(-1, 1); (0, 1); (0, 0); (1, 0)]
    | PieceJ => [(-1, 1); (-1, 0); (0, 0); (1, 0)]
    | PieceL => [(1, 1); (-1, 0); (0, 0); (1, 0)]
    end in
  if bool_decide (piece = PieceO) then offsets
  else
    let turns := match rotation with Spawn => 0 | Right => 1 | Reverse => 2 | Left => 3 end%nat in
    Nat.iter turns (fmap quarter_turn) offsets.

Definition operation_cells (op : Ctk3Operation) : list (Z * Z) :=
  (fun o => (op_x op + fst o, op_y op + snd o)) <$> operation_offsets (op_piece op) (op_rotation op).

(** The key [(y, x)] of [sort_by_key]. *)
Definition cell_le (p q : Z * Z) : Prop := snd p < snd q \/ (snd p = snd q /\ fst p <= fst q).

#[export] Instance cell_le_dec p q : Decision (cell_le p q).
Proof. unfold cell_le. apply _. Defined.

Definition sort_cells (cells : list (Z * Z)) : list (Z * Z) := merge_sort cell_le cells.

(** [i32::try_from]. *)
Definition try_i32 (x : Z) : option Z := if (- 2 ^ 31 <=? x) && (x <? 2 ^ 31) then Some x else None.

(** The candidate for one cell and offset, if its cells are the target's. *)
Definition match_operation (piece : Ctk3Piece) (rotation : Ctk3Rotation) (target_cells : list (Z * Z)) (cell offset : Z * Z) : option Ctk3Operation :=
  x ← try_i32 (fst cell - fst offset);
  y ← try_i32 (snd cell - snd offset);
  let candidate := mkOp piece rotation x y in
  if forallb (fun c => bool_decide (c ∈ target_cells)) (operation_cells candidate) then Some candidate else None.

(** The first result of a loop that returns from its body. *)
Fixpoint first_some {A B} (f : A -> option B) (xs : list A) : option B :=
  match xs with
  | [] => None
  | x :: xs => match f x with Some b => Some b | None => first_some f xs end
  end.

Definition operation_from_cells (piece : Ctk3Piece) (target_cells : list (Z * Z)) : option Ctk3Operation :=
  let target_cells := sort_cells target_cells in
  first_some (fun rotation =>
    first_some (fun cell =>
      first_some (match_operation piece rotation target_cells cell) (operation_offsets piece rotation)) target_cells)
    (operation_rotations piece).

Definition canonicalize_operation (op : Ctk3Operation) : option Ctk3Operation :=
  operation_from_cells (op_piece op) (sort_cells (operation_cells op)).

(** ** Normal form *)

(** [while height > 0 && row is empty { height -= 1 }]. *)
Fixpoint trim_height (width : nat) (codes : list Z) (height : nat) : nat :=
  match height with
  | O => O
  | S h => if forallb (fun code => code =? 0) (take width (drop (h * width) codes)) then trim_height width codes h else height
  end.

Definition coordinates_fit (op : Ctk3Operation) : bool :=
  (Z.abs (op_x op) <=? MAX_OPERATION_COORDINATE) && (Z.abs (op_y op) <=? MAX_OPERATION_COORDINATE).

Definition normalize_operation (index : nat) (op : option Ctk3Operation) : Result CtkFailure (option Ctk3Operation) :=
  match op with
  | None => Ok None
  | Some op =>
      if negb (coordinates_fit op) then fail (InvalidOperationCoordinate index)
      else
        let? canonical := ok_or (canonicalize_operation op) (Failed (InvalidOperationCoordinate index)) in
        if negb (coordinates_fit canonical) then fail (InvalidOperationCoordinate index) else Ok (Some canonical)
  end.

Definition normalize_garbage (width index : nat) (garbage : option (list Ctk3Color)) : Result CtkFailure (option (list Z)) :=
  match garbage with
  | None => Ok None
  | Some garbage =>
      if negb (length garbage =? width)%nat then fail (InvalidGarbageWidth index width (length garbage))
      else
        let codes := code_of_color <$> garbage in
        Ok (if existsb (fun code => negb (code =? 0)) codes then Some codes else None)
  end.

(** [comment.starts_with("#Q=")]. *)
Definition is_quiz_comment (comment : list Z) : bool := bool_decide (take 3 comment = [35; 81; 61]).

Definition set_quiz (f : Ctk3PageFlags) : Ctk3PageFlags := mkFlags (fl_lock f) (fl_mirror f) (fl_colorize f) (fl_rise f) true.

Definition normalize_page (width index : nat) (page : Ctk3Page) : Result CtkFailure NormalizedPage :=
  if (MAX_HEIGHT <? page_height page)%nat then fail (InvalidHeight index (page_height page))
  else
    let? _ := ok_or (checked_mul 64 (Z.of_nat (page_height page)) (Z.of_nat width)) (Failed IntegerOverflow) in
    let expected := (page_height page * width)%nat in
    if negb (length (page_cells page) =? expected)%nat then fail (InvalidCellCount index expected (length (page_cells page)))
    else if MAX_COMMENT_BYTES <? Z.of_nat (length (page_comment page)) then fail (CommentTooLong index (length (page_comment page)))
    else
      let codes := code_of_color <$> page_cells page in
      let height := trim_height width codes (page_height page) in
      let? operation := normalize_operation index (page_operation page) in
      let? garbage_codes := normalize_garbage width index (page_garbage page) in
      let flags := if is_quiz_comment (page_comment page) then set_quiz (page_flags page) else page_flags page in
      Ok (mkNormalized height (take (height * width) codes) (page_comment page) operation flags garbage_codes).

Fixpoint normalize_pages (width index : nat) (pages : list Ctk3Page) : Result CtkFailure (list NormalizedPage) :=
  match pages with
  | [] => Ok []
  | page :: pages =>
      let? p := normalize_page width index page in
      let? ps := normalize_pages width (index + 1) pages in
      Ok (p :: ps)
  end.

Definition normalize_document (document : Ctk3Document) : Result CtkFailure (list NormalizedPage) :=
  if (doc_width document =? 0)%nat || (MAX_WIDTH <? doc_width document)%nat then fail (InvalidWidth (doc_width document))
  else if bool_decide (doc_pages document = []) || (CTK3_MAX_SEGMENT_PAGES <? Z.of_nat (length (doc_pages document)))
  then fail (InvalidPageCount (Z.of_nat (length (doc_pages document))))
  else normalize_pages (doc_width document) 0 (doc_pages document).

(** [iter().map(from_code).collect()]. *)
Fixpoint colors_of_codes (reason : string) (codes : list Z) : Result CtkFailure (list Ctk3Color) :=
  match codes with
  | [] => Ok []
  | code :: codes =>
      let? c := ok_or (color_of_code code) (Failed (InvalidPayload reason)) in
      let? cs := colors_of_codes reason codes in
      Ok (c :: cs)
  end.

Definition normalized_to_page (page : NormalizedPage) : Result CtkFailure Ctk3Page :=
  let? cells := colors_of_codes "field color is invalid" (np_codes page) in
  let? garbage :=
    match np_garbage page with
    | None => Ok None
    | Some codes => rmap Some (colors_of_codes "garbage color is invalid" codes)
    end in
  Ok (mkPage (np_height page) cells (np_comment page) (np_operation page) (np_flags page) garbage).

(** ** Colors and flags *)

Lemma code_of_color_ok c : code_ok (code_of_color c).
Proof. destruct c as [| |[]]; by split. Qed.

Lemma color_of_code_of_color c : color_of_code (code_of_color c) = Some c.
Proof. by destruct c as [| |[]]. Qed.

Lemma code_of_color_of_code code c : color_of_code code = Some c -> code_of_color c = code.
Proof.
  intros H. destruct (decide (code ∈ code_range 0)) as [Hr|Hr].
  - change (code_range 0) with [0; 1; 2; 3; 4; 5; 6; 7; 8] in Hr. repeat (apply elem_of_cons in Hr as [->|Hr]; [injection H as <-; done|]). by apply not_elem_of_nil in Hr.
  - rewrite elem_of_code_range in Hr. destruct code as [|p|p]; [simpl in Hr; lia| |done].
    do 4 (destruct p as [p|p|]; try (exfalso; apply Hr; simpl; lia)); try done.
Qed.

Lemma color_of_code_total code : code_ok code -> exists c, color_of_code code = Some c.
Proof.
  intros [H1 H2]. assert (code ∈ code_range 0) as Hr by (apply elem_of_code_range; simpl; lia).
  change (code_range 0) with [0; 1; 2; 3; 4; 5; 6; 7; 8] in Hr. repeat (apply elem_of_cons in Hr as [->|Hr]; [by eexists|]). by apply not_elem_of_nil in Hr.
Qed.

Lemma colors_of_codes_spec reason codes : Forall code_ok codes -> exists cells, colors_of_codes reason codes = Ok cells /\ code_of_color <$> cells = codes.
Proof.
  induction 1 as [|code codes Hc _ (cells & IH & Hcells)]; [by exists []|]. cbn [colors_of_codes]. destruct (color_of_code_total code Hc) as [c Hcc]. rewrite Hcc. cbn [ok_or rbind].
  rewrite IH. exists (c :: cells). split; [done|]. cbn. f_equal; [by apply code_of_color_of_code|done].
Qed.

Lemma colors_of_codes_back reason cells : colors_of_codes reason (code_of_color <$> cells) = Ok cells.
Proof. induction cells as [|c cells IH]; [done|]. cbn [fmap list_fmap colors_of_codes]. rewrite color_of_code_of_color. cbn [ok_or rbind]. unfold fmap in IH |- *. by rewrite IH. Qed.

Lemma flag_bits_width f : in_width 5 (flag_bits f).
Proof. destruct f as [[] [] [] [] []]; by split. Qed.

Lemma flags_roundtrip f : flags_from_bits (flag_bits f) = f.
Proof. by destruct f as [[] [] [] [] []]. Qed.

(** ** Canonical operations *)

Lemma first_some_Some {A B} (f : A -> option B) xs b : first_some f xs = Some b -> exists x, x ∈ xs /\ f x = Some b.
Proof.
  induction xs as [|x xs IH]; [done|]. cbn [first_some]. destruct (f x) as [b'|] eqn:E.
  - intros [= ->]. exists x. split; [constructor|done].
  - intros H. destruct (IH H) as (y & Hy & Hf). exists y. split; [by constructor|done].
Qed.

Lemma NoDup_offsets piece rotation : NoDup (operation_offsets piece rotation).
Proof. apply (bool_decide_eq_true_1 _). destruct piece, rotation; vm_compute; reflexivity. Qed.

Lemma NoDup_cells op : NoDup (operation_cells op).
Proof.
  unfold operation_cells. apply NoDup_fmap; [|apply NoDup_offsets]. intros [x1 y1] [x2 y2]. cbn. intros [= H1 H2]. f_equal; lia.
Qed.

Lemma length_cells op : length (operation_cells op) = 4%nat.
Proof. unfold operation_cells. rewrite length_fmap. by destruct (op_piece op), (op_rotation op). Qed.

#[export] Instance cell_le_total : Total cell_le.
Proof. intros p q. unfold cell_le. lia. Qed.

#[export] Instance cell_le_trans : Transitive cell_le.
Proof. intros p q r. unfold cell_le. lia. Qed.

#[export] Instance cell_le_antisymm : AntiSymm (=) cell_le.
Proof. intros [x1 y1] [x2 y2]. unfold cell_le. cbn. intros H1 H2. f_equal; lia. Qed.

Lemma sort_cells_perm l1 l2 : l1 ≡ₚ l2 -> sort_cells l1 = sort_cells l2.
Proof.
  intros H. unfold sort_cells. apply (StronglySorted_unique cell_le); [apply StronglySorted_merge_sort; apply _..|].
  by rewrite !merge_sort_Permutation.
Qed.

Lemma sort_cells_idem l : sort_cells (sort_cells l) = sort_cells l.
Proof. apply sort_cells_perm. apply merge_sort_Permutation. Qed.

Lemma canonicalize_spec op c : canonicalize_operation op = Some c ->
  canonicalize_operation c = Some c /\ op_rotation c ∈ operation_rotations (op_piece c) /\ op_piece c = op_piece op /\ operation_cells c ≡ₚ operation_cells op.
Proof.
  intros H. pose proof H as H'. unfold canonicalize_operation, operation_from_cells in H'. rewrite sort_cells_idem in H'.
  apply first_some_Some in H' as (rotation & Hrot & H'). apply first_some_Some in H' as (cell & _ & H'). apply first_some_Some in H' as (offset & _ & H').
  unfold match_operation in H'. destruct (try_i32 (fst cell - fst offset)) as [x|]; cbn [mbind option_bind] in H'; [|done]. destruct (try_i32 (snd cell - snd offset)) as [y|]; cbn [mbind option_bind] in H'; [|done].
  destruct (forallb _ _) eqn:E; [|done]. injection H' as <-. cbn [op_rotation op_piece].
  set (c := mkOp (op_piece op) rotation x y) in *.
  assert (operation_cells c ≡ₚ operation_cells op) as Hperm.
  { apply submseteq_length_Permutation; [|by rewrite !length_cells].
    apply NoDup_submseteq; [apply NoDup_cells|]. intros p Hp. rewrite forallb_forall in E. specialize (E p (proj1 (list_elem_of_In _ _) Hp)). apply bool_decide_eq_true in E.
    unfold sort_cells in E. by rewrite merge_sort_Permutation in E. }
  split; [|by split]. unfold canonicalize_operation in *. cbn [op_piece]. by rewrite (sort_cells_perm _ _ Hperm).
Qed.

(** ** The normal form *)

(** A [String]. *)
Definition string_ok (bytes : list Z) : Prop := Forall (in_width 8) bytes /\ utf8_valid bytes = true.

Definition operation_ok (op : Ctk3Operation) : Prop := canonicalize_operation op = Some op /\ coordinates_fit op = true.

(** What the encoders rely on. *)
Definition page_ok (width : nat) (p : NormalizedPage) : Prop :=
  (np_height p <= MAX_HEIGHT)%nat /\ field_ok (np_height p * width) (np_codes p) /\
  string_ok (np_comment p) /\ Z.of_nat (length (np_comment p)) <= MAX_COMMENT_BYTES /\
  (forall op, np_operation p = Some op -> operation_ok op) /\
  (forall g, np_garbage p = Some g -> field_ok width g).

Definition pages_ok (width : nat) (pages : list NormalizedPage) : Prop :=
  (1 <= width <= MAX_WIDTH)%nat /\ pages <> [] /\ Z.of_nat (length pages) <= CTK3_MAX_SEGMENT_PAGES /\ Forall (page_ok width) pages.

Lemma trim_height_le width codes height : (trim_height width codes height <= height)%nat.
Proof. induction height as [|h IH]; [done|]. cbn [trim_height]. destruct (forallb _ _); lia. Qed.

Lemma codes_ok_of_colors cells : Forall code_ok (code_of_color <$> cells).
Proof. apply Forall_fmap, Forall_forall. intros c _. apply code_of_color_ok. Qed.

Lemma normalize_page_ok width index page p : (width <= MAX_WIDTH)%nat -> string_ok (page_comment page) -> normalize_page width index page = Ok p -> page_ok width p.
Proof.
  intros Hw Hs H. unfold normalize_page in H. destruct (Nat.ltb_spec MAX_HEIGHT (page_height page)); [done|]. apply rbind_Ok in H as (x & _ & H).
  destruct (Nat.eqb_spec (length (page_cells page)) (page_height page * width)) as [Hl|]; [|done]. cbn [negb] in H.
  destruct (Z.ltb_spec MAX_COMMENT_BYTES (Z.of_nat (length (page_comment page)))); [done|].
  apply rbind_Ok in H as (operation & Hop & H). apply rbind_Ok in H as (garbage & Hg & H). apply Ok_inj in H. subst p. unfold page_ok. cbn [np_height np_codes np_comment np_operation np_garbage].
  pose proof (trim_height_le width (code_of_color <$> page_cells page) (page_height page)) as Ht. set (h := trim_height _ _ _) in *.
  split; [lia|]. split; [split|split; [done|split; [done|split]]].
  - rewrite length_take, length_fmap. assert (h * width <= page_height page * width)%nat by (apply Nat.mul_le_mono_r; lia). lia.
  - apply Forall_take, codes_ok_of_colors.
  - intros op ->. unfold normalize_operation in Hop. destruct (page_operation page) as [op0|]; [|done]. destruct (negb (coordinates_fit op0)); [done|].
    apply rbind_Ok in Hop as (c & Hc & Hop). apply ok_or_Ok in Hc. destruct (coordinates_fit c) eqn:Hfit; cbn [negb] in Hop; [|done]. injection Hop as <-.
    split; [by eapply canonicalize_spec|done].
  - intros g ->. unfold normalize_garbage in Hg. destruct (page_garbage page) as [g0|]; [|done]. destruct (Nat.eqb_spec (length g0) width); [|done]. cbn [negb] in Hg.
    destruct (existsb _ _); [|done]. injection Hg as <-. split; [by rewrite length_fmap|apply codes_ok_of_colors].
Qed.

Lemma normalize_pages_ok width index pages ps : (width <= MAX_WIDTH)%nat -> Forall (fun p => string_ok (page_comment p)) pages ->
  normalize_pages width index pages = Ok ps -> Forall (page_ok width) ps /\ length ps = length pages.
Proof.
  intros Hw Hs. revert index ps. induction Hs as [|page pages Hp _ IH]; intros index ps H; cbn [normalize_pages] in H; [by injection H as <-|].
  apply rbind_Ok in H as (p & Hpp & H). apply rbind_Ok in H as (qs & Hqs & H). injection H as <-. destruct (IH _ _ Hqs) as [I1 I2].
  split; [constructor; [by eapply normalize_page_ok|done]|simpl; by rewrite I2].
Qed.

Lemma normalize_document_ok document ps : Forall (fun p => string_ok (page_comment p)) (doc_pages document) -> normalize_document document = Ok ps -> pages_ok (doc_width document) ps.
Proof.
  intros Hs H. unfold normalize_document in H. destruct (_ || _) eqn:E1; [done|]. apply orb_false_iff in E1 as [E1%Nat.eqb_neq E2%Nat.ltb_ge].
  destruct (_ || _) eqn:E3 in H; [done|]. apply orb_false_iff in E3 as [E3%bool_decide_eq_false E4%Z.ltb_ge].
  destruct (normalize_pages_ok (doc_width document) 0 (doc_pages document) ps E2 Hs H) as [Hok Hl].
  split; [lia|]. split; [|split; [by rewrite Hl|done]]. intros ->. by destruct (doc_pages document).
Qed.
