(* ===== verification/CtkCodec.v ===== *)
(** * Page streams of the CTK3 codec

    The writers of [clearra-ctk3/src/codec.rs] and the readers of
    [clearra-ctk3/src/decoder.rs] for pages: the compact stream (revision 1),
    the temporal streams (revisions 2 and 3), which refer to earlier pages, and
    the legacy stream (revision 0), which is only read.

    The two files have the same predictors ([predict_locked_codes],
    [fit_codes], [grayscale_codes], [mirror_codes]); they are defined once
    here.  A [HashMap] from what was seen to the last page that had it is an
    association list with the latest entry first. *)

From Stdlib Require Import ZArith Lia.
From stdpp Require Import prelude strings.
From S2P Require Import Prelude Words CtkBigNat CtkBits CtkCells CtkPages.

Local Open Scope Z_scope.

Definition TEMPORAL_REFERENCE_WINDOW : nat := 16.

(** [index.checked_sub(1).map(|prior| &pages[prior])]; the index is at most
    the number of pages. *)
Definition previous_page (pages : list NormalizedPage) (index : nat) : option NormalizedPage :=
  match index with O => None | S prior => pages !! prior end.

(** ** Predictors *)

Definition fit_codes (codes : list Z) (target_len : nat) : list Z := cell_at codes <$> seq 0 target_len.

Definition grayscale_codes (codes : list Z) (target_len : nat) : list Z := (fun i => Z.b2z (negb (cell_at codes i =? 0))) <$> seq 0 target_len.

Definition mirror_color (code : Z) : Z := match code with 5 => 6 | 6 => 5 | 7 => 8 | 8 => 7 | _ => code end.

Definition mirror_codes (source : list Z) (source_height width target_height : nat) : list Z :=
  foldl (fun mirrored y =>
    foldl (fun mirrored x => <[(y * width + (width - x - 1))%nat := mirror_color (cell_at source (y * width + x))]> mirrored) mirrored (seq 0 width))
    (replicate (target_height * width) 0) (seq 0 (Nat.min source_height target_height)).

Definition chunks_exact (width : nat) (cells : list Z) : list (list Z) :=
  (fun row => take width (drop (row * width) cells)) <$> seq 0 (length cells / width).

(** The cells the operation of a page occupies. *)
Definition occupied_cells (page : NormalizedPage) : list (Z * Z) := from_option operation_cells [] (np_operation page).

Definition locked_cell_index (width : nat) (c : Z * Z) : nat := (Z.to_nat (snd c) * width + Z.to_nat (fst c))%nat.

Definition lock_operation (previous : NormalizedPage) (width source_height : nat) (cells : list Z) : list Z :=
  match np_operation previous with
  | Some operation =>
      if fl_lock (np_flags previous) then
        if forallb (fun c : Z * Z => (0 <=? fst c) && (fst c <? Z.of_nat width) && (0 <=? snd c) && (snd c <? Z.of_nat source_height) &&
             (cell_at cells (locked_cell_index width c) =? 0)) (occupied_cells previous)
        then
          let code := if fl_colorize (np_flags previous) then wire_index (op_piece operation) + 2 else 1 in
          foldl (fun cells c => <[locked_cell_index width c := code]> cells) cells (occupied_cells previous)
        else cells
      else cells
  | None => cells
  end.

Definition predict_locked_codes (previous : NormalizedPage) (width target_height : nat) (clear_rows grayscale : bool) : list Z :=
  let operation_height := foldl (fun h (c : Z * Z) => Z.max h (snd c + 1)) 0 (occupied_cells previous) in
  let source_height :=
    if (0 <=? operation_height) && (operation_height <=? Z.of_nat MAX_HEIGHT) then Nat.max (np_height previous) (Z.to_nat operation_height)
    else np_height previous in
  let cells := lock_operation previous width source_height (fit_codes (np_codes previous) (source_height * width)) in
  let transformed :=
    chunks_exact width cells ≫= (fun row =>
      if clear_rows && forallb (fun code => negb (code =? 0)) row then []
      else (fun code => if grayscale && negb (code =? 0) then 1 else code) <$> row) in
  fit_codes transformed (target_height * width).

(** ** Writers *)

Definition write_operation_body (op : Ctk3Operation) : Writer :=
  write_bits (wire_index (op_piece op)) 3 ;;
  let rotations := operation_rotations (op_piece op) in
  match position (op_rotation op) rotations with
  | None => wr_fail (InvalidPayload "operation rotation is not canonical")
  | Some rotation =>
      write_bits (Z.of_nat rotation) (bits_for_choices (length rotations)) ;;
      write_signed_var_int (op_x op) ;;
      write_signed_var_int (op_y op)
  end.

Definition write_comment_literal (comment : list Z) : Writer :=
  write_var_uint (Z.of_nat (length comment)) ;; write_bytes comment.

Definition is_some {A} (o : option A) : bool := match o with Some _ => true | None => false end.

Definition write_compact_page (page : NormalizedPage) (previous : option NormalizedPage) : Writer :=
  let flag_mode :=
    if bool_decide (np_flags page = default_flags) then 0
    else if bool_decide (np_flags <$> previous = Some (np_flags page)) then 1
    else 2 in
  write_bits flag_mode 2 ;;
  wr_if (flag_mode =? 2) (write_bits (flag_bits (np_flags page)) 5) wr_skip ;;
  wr_bit (negb (bool_decide (np_comment page = []))) ;;
  wr_bit (is_some (np_operation page)) ;;
  wr_bit (is_some (np_garbage page)) ;;
  match previous with
  | Some previous =>
      let same_height := (np_height page =? np_height previous)%nat in
      wr_bit same_height ;;
      wr_if (negb same_height) (write_var_uint (Z.of_nat (np_height page))) wr_skip
  | None => write_var_uint (Z.of_nat (np_height page))
  end ;;
  write_best_cell_encoding (np_codes page) (np_codes <$> previous) 3 true ;;
  match np_garbage page with Some garbage => write_best_cell_encoding garbage None 3 true | None => wr_skip end ;;
  wr_if (negb (bool_decide (np_comment page = []))) (write_comment_literal (np_comment page)) wr_skip ;;
  match np_operation page with Some operation => write_operation_body operation | None => wr_skip end.

Fixpoint write_compact_pages (previous : option NormalizedPage) (pages : list NormalizedPage) : Writer :=
  match pages with
  | [] => wr_skip
  | page :: pages => write_compact_page page previous ;; write_compact_pages (Some page) pages
  end.

(** *** The shared field *)

Record SharedFieldPredictor := mkShared { sh_height : nat; sh_codes : list Z }.

Definition build_shared_field (pages : list NormalizedPage) (width : nat) : option SharedFieldPredictor :=
  match pages with
  | first :: ((_ :: _) as rest) =>
      if bool_decide (np_codes first = []) then None
      else
        let common :=
          foldl (fun common page => imap (fun i code => if negb (code =? 0) && negb (code =? cell_at (np_codes page) i) then 0 else code) common)
            (np_codes first) rest in
        let height := trim_height width common ((length common + width - 1) / width) in
        if (height =? 0)%nat then None else Some (mkShared height (take (height * width) common))
  | _ => None
  end.

(** *** Temporal pages *)

(** [HashMap::get]. *)
Fixpoint latest {K} `{EqDecision K} (key : K) (entries : list (K * nat)) : option nat :=
  match entries with
  | [] => None
  | (k, i) :: entries => if decide (k = key) then Some i else latest key entries
  end.

Record TemporalContext := mkContext {
  ctx_pages : list NormalizedPage;
  ctx_shared : option SharedFieldPredictor;
  latest_field : list ((nat * list Z) * nat);
  latest_page : list (NormalizedPage * nat);
  latest_comment : list (list Z * nat)
}.

(** [.filter(|prior| *prior + 1 != index)]. *)
Definition not_previous (index : nat) (o : option nat) : option nat :=
  match o with Some prior => if (prior + 1 =? index)%nat then None else Some prior | None => None end.

Definition record_temporal_page (context : TemporalContext) (index : nat) : TemporalContext :=
  match ctx_pages context !! index with
  | None => context
  | Some page =>
      mkContext (ctx_pages context) (ctx_shared context)
        (((np_height page, np_codes page), index) :: latest_field context)
        ((page, index) :: latest_page context)
        (if bool_decide (np_comment page = []) then latest_comment context else (np_comment page, index) :: latest_comment context)
  end.

Definition write_temporal_flags (flags : Ctk3PageFlags) (previous : option Ctk3PageFlags) : Writer :=
  if bool_decide (flags = default_flags) then wr_bit false
  else if bool_decide (previous = Some flags) then write_bits 1 2
  else write_bits 3 2 ;; write_bits (flag_bits flags) 5.

Definition write_temporal_garbage (garbage previous : option (list Z)) : Writer :=
  match garbage with
  | None => wr_bit false
  | Some garbage =>
      if bool_decide (previous = Some garbage) then write_bits 1 2
      else write_bits 3 2 ;; write_best_cell_encoding garbage previous 4 true
  end.

Definition write_temporal_comment (comment : list Z) (context : TemporalContext) (index : nat) : Writer :=
  if bool_decide (comment = []) then wr_bit false
  else fun w =>
    let? literal := (write_bits 7 3 ;; write_comment_literal comment) BitWriter_default in
    let candidates := [literal] in
    let? candidates :=
      if bool_decide (np_comment <$> previous_page (ctx_pages context) index = Some comment) then
        let? copied := write_bits 1 2 BitWriter_default in Ok (candidates ++ [copied])
      else Ok candidates in
    let? candidates :=
      match not_previous index (latest comment (latest_comment context)) with
      | Some prior =>
          let? referenced := (write_bits 3 3 ;; write_var_uint (Z.of_nat (index - prior - 1))) BitWriter_default in
          Ok (candidates ++ [referenced])
      | None => Ok candidates
      end in
    append_shortest candidates w.

Definition write_temporal_operation (operation previous : option Ctk3Operation) : Writer :=
  match operation with
  | None => wr_bit false
  | Some operation =>
      if bool_decide (previous = Some operation) then write_bits 1 2
      else fun w =>
        let? literal := (write_bits 7 3 ;; write_operation_body operation) BitWriter_default in
        let? candidates :=
          match previous with
          | Some previous =>
              if bool_decide (op_piece previous = op_piece operation) && bool_decide (op_rotation previous = op_rotation operation) then
                let? delta := (write_bits 3 3 ;; write_signed_var_int (op_x operation - op_x previous) ;;
                               write_signed_var_int (op_y operation - op_y previous)) BitWriter_default in
                Ok [literal; delta]
              else Ok [literal]
          | None => Ok [literal]
          end in
        append_shortest candidates w
  end.

(** A way to write a field: mode, predictor, distance of the page referred
    to. *)
Definition FieldCandidate : Type := Z * option (list Z) * option nat.

Definition add_field_candidate (codes : list Z) (c : FieldCandidate) : Result CtkFailure BitWriter :=
  let '(mode, predictor, reference_distance) := c in
  (write_bits mode 4 ;;
   match reference_distance with Some distance => write_var_uint (Z.of_nat (distance - 1)) | None => wr_skip end ;;
   match predictor with
   | Some predictor => write_best_predicted_cell_encoding codes predictor 4
   | None => write_best_cell_encoding codes None 4 true
   end) BitWriter_default.

Fixpoint add_field_candidates (codes : list Z) (cs : list FieldCandidate) : Result CtkFailure (list BitWriter) :=
  match cs with
  | [] => Ok []
  | c :: cs =>
      let? w := add_field_candidate codes c in
      let? ws := add_field_candidates codes cs in
      Ok (w :: ws)
  end.

(** The earlier pages tried as references. *)
Definition field_references (page : NormalizedPage) (context : TemporalContext) (index : nat) : list nat :=
  let first := match not_previous index (latest (np_height page, np_codes page) (latest_field context)) with Some prior => [prior] | None => [] end in
  let start := (index - TEMPORAL_REFERENCE_WINDOW)%nat in
  foldl (fun references prior => if bool_decide (prior ∈ references) then references else references ++ [prior])
    first (seq start (index - 1 - start)).

Definition field_candidates (page : NormalizedPage) (context : TemporalContext) (index width : nat) : list FieldCandidate :=
  let target_len := (np_height page * width)%nat in
  [(0, None, None)] ++
  match previous_page (ctx_pages context) index with
  | None => []
  | Some previous =>
      [(1, Some (fit_codes (np_codes previous) target_len), None);
       (2, Some (grayscale_codes (np_codes previous) target_len), None);
       (3, Some (mirror_codes (np_codes previous) (np_height previous) width (np_height page)), None);
       (4, Some (predict_locked_codes previous width (np_height page) false false), None);
       (5, Some (predict_locked_codes previous width (np_height page) false true), None);
       (6, Some (predict_locked_codes previous width (np_height page) true false), None);
       (7, Some (predict_locked_codes previous width (np_height page) true true), None)]
  end ++
  (field_references page context index ≫= (fun prior =>
     match ctx_pages context !! prior with
     | None => []
     | Some reference =>
         [(8, Some (fit_codes (np_codes reference) target_len), Some (index - prior)%nat);
          (9, Some (mirror_codes (np_codes reference) (np_height reference) width (np_height page)), Some (index - prior)%nat)]
     end)) ++
  match ctx_shared context with
  | None => []
  | Some shared => [(10, Some (fit_codes (sh_codes shared) target_len), None)]
  end.

Definition write_temporal_field (page : NormalizedPage) (context : TemporalContext) (index width : nat) : Writer := fun w =>
  let? candidates := add_field_candidates (np_codes page) (field_candidates page context index width) in
  append_shortest candidates w.

Definition write_temporal_page (page : NormalizedPage) (context : TemporalContext) (index width : nat) : Writer :=
  let previous := previous_page (ctx_pages context) index in
  write_temporal_flags (np_flags page) (np_flags <$> previous) ;;
  match previous with
  | Some previous =>
      let same_height := (np_height page =? np_height previous)%nat in
      wr_bit (negb same_height) ;;
      wr_if (negb same_height) (write_var_uint (Z.of_nat (np_height page))) wr_skip
  | None => write_var_uint (Z.of_nat (np_height page))
  end ;;
  write_temporal_field page context index width ;;
  write_temporal_garbage (np_garbage page) (previous ≫= np_garbage) ;;
  write_temporal_comment (np_comment page) context index ;;
  write_temporal_operation (np_operation page) (previous ≫= np_operation).

(** How many of the pages equal the given one, from the start. *)
Fixpoint equal_prefix (page : NormalizedPage) (pages : list NormalizedPage) : nat :=
  match pages with
  | p :: pages => if bool_decide (p = page) then S (equal_prefix page pages) else O
  | [] => O
  end.

(** The run of copies starting at [index], if it is worth writing: its
    length and the bits. *)
Definition repeat_run (pages : list NormalizedPage) (page : NormalizedPage) (index : nat) : Result CtkFailure (option (nat * BitWriter)) :=
  if bool_decide (previous_page pages index = Some page) then
    let repeat_count := (1 + equal_prefix page (drop (index + 1) pages))%nat in
    if (2 <=? repeat_count)%nat then
      let? run := (write_bits 3 2 ;; write_var_uint (Z.of_nat (repeat_count - 2))) BitWriter_default in
      Ok (if (w_bit_len run <? repeat_count * 2)%nat then Some (repeat_count, run) else None)
    else Ok None
  else Ok None.

(** The candidates for one page. *)
Definition page_candidates (page : NormalizedPage) (context : TemporalContext) (index width : nat) : Result CtkFailure (list BitWriter) :=
  let? normal := (write_bits 0 2 ;; write_temporal_page page context index width) BitWriter_default in
  let? candidates :=
    if bool_decide (previous_page (ctx_pages context) index = Some page) then
      let? copied := write_bits 1 2 BitWriter_default in Ok [normal; copied]
    else Ok [normal] in
  match not_previous index (latest page (latest_page context)) with
  | Some prior =>
      let? referenced := (write_bits 2 2 ;; write_var_uint (Z.of_nat (index - prior - 1))) BitWriter_default in
      Ok (candidates ++ [referenced])
  | None => Ok candidates
  end.

(** The loop of [write_temporal_pages]; the index grows on every turn. *)
Fixpoint write_temporal_from (fuel : nat) (context : TemporalContext) (index width : nat) : Writer := fun w =>
  match ctx_pages context !! index with
  | None => Ok w
  | Some page =>
      match fuel with
      | O => Err CtkPanic
      | S fuel =>
          let? run := repeat_run (ctx_pages context) page index in
          match run with
          | Some (repeat_count, run) =>
              let? w := append run w in
              write_temporal_from fuel (foldl record_temporal_page context (seq index repeat_count)) (index + repeat_count) width w
          | None =>
              let? candidates := page_candidates page context index width in
              let? w := append_shortest candidates w in
              write_temporal_from fuel (record_temporal_page context index) (index + 1) width w
          end
      end
  end.

Definition write_temporal_pages (pages : list NormalizedPage) (width : nat) (shared : option SharedFieldPredictor) : Writer :=
  write_temporal_from (length pages) (mkContext pages shared [] [] []) 0 width.

(** ** Readers *)

Definition read_coordinate : Reader Z :=
  let* value := read_signed_var_int in
  if MAX_OPERATION_COORDINATE <? Z.abs value then rd_lift (invalid "operation coordinate is invalid")
  else rd_lift (ok_or (try_i32 value) (Failed (InvalidPayload "operation coordinate is invalid"))).

Definition normalize_decoded_operation (op : Ctk3Operation) : Result CtkFailure Ctk3Operation :=
  if negb (coordinates_fit op) then invalid "operation is invalid"
  else
    let? canonical := ok_or (canonicalize_operation op) (Failed (InvalidPayload "operation is invalid")) in
    if negb (coordinates_fit canonical) then invalid "operation is invalid" else Ok canonical.

Definition read_operation_body : Reader Ctk3Operation :=
  let* i := read_bits 3 in
  let* piece := rd_lift (ok_or (from_wire_index i) (Failed (InvalidPayload "operation piece is invalid"))) in
  let rotations := operation_rotations piece in
  let* j := read_bits (bits_for_choices (length rotations)) in
  let* rotation := rd_lift (ok_or (rotations !! Z.to_nat j) (Failed (InvalidPayload "operation rotation is invalid"))) in
  let* x := read_coordinate in
  let* y := read_coordinate in
  rd_lift (normalize_decoded_operation (mkOp piece rotation x y)).

Definition read_comment_literal : Reader (list Z) :=
  let* len := read_var_uint in
  if MAX_COMMENT_BYTES <? len then rd_lift (invalid "page comment is too long")
  else
    let* bytes := read_bytes len in
    if utf8_valid bytes then rd_ret bytes else rd_lift (fail InvalidUtf8).

Definition read_compact_page (width : nat) (previous : option NormalizedPage) : Reader NormalizedPage :=
  let* flag_mode := read_bits 2 in
  let* flags :=
    if flag_mode =? 0 then rd_ret default_flags
    else if flag_mode =? 1 then rd_lift (ok_or (np_flags <$> previous) (Failed (InvalidPayload "page flag reference is invalid")))
    else if flag_mode =? 2 then (let* bits := read_bits 5 in rd_ret (flags_from_bits bits))
    else rd_lift (invalid "page flag mode is invalid") in
  let* has_comment := read_bit in
  let* has_operation := read_bit in
  let* has_garbage := read_bit in
  let* height :=
    match previous with
    | Some previous =>
        let* same := read_bit in
        if (same : bool) then rd_ret (Z.of_nat (np_height previous)) else read_var_uint
    | None => read_var_uint
    end in
  if Z.of_nat MAX_HEIGHT <? height then rd_lift (invalid "page height is invalid")
  else
    let* _ := rd_lift (ok_or (checked_mul 64 (Z.of_nat width) height) (Failed IntegerOverflow)) in
    let height := Z.to_nat height in
    let* codes := read_cell_encoding (width * height) (np_codes <$> previous) 3 in
    let* garbage_codes := if (has_garbage : bool) then (let* g := read_cell_encoding width None 3 in rd_ret (Some g)) else rd_ret None in
    let* comment := if (has_comment : bool) then read_comment_literal else rd_ret [] in
    let* operation := if (has_operation : bool) then (let* op := read_operation_body in rd_ret (Some op)) else rd_ret None in
    rd_ret (mkNormalized height codes comment operation flags garbage_codes).

Definition read_legacy_page (width : nat) (previous : option NormalizedPage) : Reader NormalizedPage :=
  let* metadata := read_bits 8 in
  let flags := flags_from_bits (Z.land metadata 31) in
  let* height := read_var_uint in
  if Z.of_nat MAX_HEIGHT <? height then rd_lift (invalid "page height is invalid")
  else
    let* _ := rd_lift (ok_or (checked_mul 64 (Z.of_nat width) height) (Failed IntegerOverflow)) in
    let height := Z.to_nat height in
    let* codes := read_cell_encoding (width * height) (np_codes <$> previous) 2 in
    let* garbage_codes := if negb (Z.land metadata 128 =? 0) then (let* g := read_cell_encoding width None 2 in rd_ret (Some g)) else rd_ret None in
    let* comment := if negb (Z.land metadata 32 =? 0) then read_comment_literal else rd_ret [] in
    let* operation :=
      if negb (Z.land metadata 64 =? 0) then
        let* i := read_bits 3 in
        let* piece := rd_lift (ok_or (from_wire_index i) (Failed (InvalidPayload "operation piece is invalid"))) in
        let* j := read_bits 2 in
        let* rotation := rd_lift (ok_or (from_quarter_turns j) (Failed (InvalidPayload "operation rotation is invalid"))) in
        let* x := read_coordinate in
        let* y := read_coordinate in
        let* op := rd_lift (normalize_decoded_operation (mkOp piece rotation x y)) in
        rd_ret (Some op)
      else rd_ret None in
    rd_ret (mkNormalized height codes comment operation flags garbage_codes).

Definition COMPACT_SCHEMA_REVISION : Z := 1.
Definition LEGACY_SCHEMA_REVISION : Z := 0.

(** The loop of [read_linear_pages]: [pages] are those read so far. *)
Fixpoint read_linear_from (turns width : nat) (revision : Z) (pages : list NormalizedPage) : Reader (list NormalizedPage) :=
  match turns with
  | O => rd_ret pages
  | S turns =>
      let* page := (if revision =? LEGACY_SCHEMA_REVISION then read_legacy_page width (last pages) else read_compact_page width (last pages)) in
      read_linear_from turns width revision (pages ++ [page])
  end.

Definition read_linear_pages (width page_count : nat) (revision : Z) : Reader (list NormalizedPage) := read_linear_from page_count width revision [].

Definition read_temporal_flags (previous : option Ctk3PageFlags) : Reader Ctk3PageFlags :=
  let* b := read_bit in
  if negb b then rd_ret default_flags
  else
    let* b := read_bit in
    if negb b then rd_lift (ok_or previous (Failed (InvalidPayload "page flag reference is invalid")))
    else let* bits := read_bits 5 in rd_ret (flags_from_bits bits).

Definition read_temporal_garbage (width : nat) (previous : option (list Z)) : Reader (option (list Z)) :=
  let* b := read_bit in
  if negb b then rd_ret None
  else
    let* b := read_bit in
    if negb b then (let* codes := rd_lift (ok_or previous (Failed (InvalidPayload "garbage reference is invalid"))) in rd_ret (Some codes))
    else let* codes := read_cell_encoding width previous 4 in rd_ret (Some codes).

(** [history.len().checked_sub(distance)] and the page there. *)
Definition referenced_page (history : list NormalizedPage) (distance : Z) (reason : string) : Result CtkFailure NormalizedPage :=
  if Z.of_nat (length history) <? distance then invalid reason
  else panic_none (history !! Z.to_nat (Z.of_nat (length history) - distance)).

Definition read_temporal_comment (history : list NormalizedPage) : Reader (list Z) :=
  let* b := read_bit in
  if negb b then rd_ret []
  else
    let* b := read_bit in
    if negb b then rd_lift (ok_or (np_comment <$> last history) (Failed (InvalidPayload "comment reference is invalid")))
    else
      let* b := read_bit in
      if negb b then
        let* n := read_var_uint in
        let* page := rd_lift (referenced_page history (n + 1) "comment reference is invalid") in
        if bool_decide (np_comment page = []) then rd_lift (invalid "comment reference is empty") else rd_ret (np_comment page)
      else read_comment_literal.

Definition read_temporal_operation (previous : option Ctk3Operation) : Reader (option Ctk3Operation) :=
  let* b := read_bit in
  if negb b then rd_ret None
  else
    let* b := read_bit in
    if negb b then (let* op := rd_lift (ok_or previous (Failed (InvalidPayload "operation reference is invalid"))) in rd_ret (Some op))
    else
      let* b := read_bit in
      if negb b then
        let* previous := rd_lift (ok_or previous (Failed (InvalidPayload "operation delta has no reference"))) in
        let* dx := read_signed_var_int in
        let* x := rd_lift (ok_or (checked_i64 (op_x previous + dx)) (Failed IntegerOverflow)) in
        let* dy := read_signed_var_int in
        let* y := rd_lift (ok_or (checked_i64 (op_y previous + dy)) (Failed IntegerOverflow)) in
        let* x := rd_lift (ok_or (try_i32 x) (Failed (InvalidPayload "operation is invalid"))) in
        let* y := rd_lift (ok_or (try_i32 y) (Failed (InvalidPayload "operation is invalid"))) in
        let* op := rd_lift (normalize_decoded_operation (mkOp (op_piece previous) (op_rotation previous) x y)) in
        rd_ret (Some op)
      else let* op := read_operation_body in rd_ret (Some op).

(** The predictor a field mode names. *)
Definition field_predictor (width height : nat) (history : list NormalizedPage) (shared : option (list Z)) (mode : Z) : Reader (option (list Z)) :=
  let target_len := (width * height)%nat in
  if mode =? 0 then rd_ret None
  else if mode <=? 7 then
    let* previous := rd_lift (ok_or (last history) (Failed (InvalidPayload "temporal field has no previous page"))) in
    rd_ret (Some (
      if mode =? 1 then fit_codes (np_codes previous) target_len
      else if mode =? 2 then grayscale_codes (np_codes previous) target_len
      else if mode =? 3 then mirror_codes (np_codes previous) (np_height previous) width height
      else if mode =? 4 then predict_locked_codes previous width height false false
      else if mode =? 5 then predict_locked_codes previous width height false true
      else if mode =? 6 then predict_locked_codes previous width height true false
      else predict_locked_codes previous width height true true))
  else if mode <=? 9 then
    let* n := read_var_uint in
    let* reference := rd_lift (referenced_page history (n + 1) "temporal field reference is invalid") in
    rd_ret (Some (if mode =? 8 then fit_codes (np_codes reference) target_len else mirror_codes (np_codes reference) (np_height reference) width height))
  else if mode =? 10 then
    let* codes := rd_lift (ok_or shared (Failed (InvalidPayload "shared field reference is invalid"))) in
    rd_ret (Some (fit_codes codes target_len))
  else rd_lift (invalid "temporal field mode is invalid").

Definition read_temporal_field (width height : nat) (history : list NormalizedPage) (shared : option (list Z)) : Reader (list Z) :=
  let* mode := read_bits 4 in
  let* _ := rd_lift (ok_or (checked_mul 64 (Z.of_nat width) (Z.of_nat height)) (Failed IntegerOverflow)) in
  let* predictor := field_predictor width height history shared mode in
  read_cell_encoding (width * height) predictor 4.

Definition read_temporal_page (width : nat) (history : list NormalizedPage) (shared : option (list Z)) : Reader NormalizedPage :=
  let previous := last history in
  let* flags := read_temporal_flags (np_flags <$> previous) in
  let* height :=
    match previous with
    | Some previous =>
        let* changed := read_bit in
        if (changed : bool) then read_var_uint else rd_ret (Z.of_nat (np_height previous))
    | None => read_var_uint
    end in
  if Z.of_nat MAX_HEIGHT <? height then rd_lift (invalid "page height is invalid")
  else
    let height := Z.to_nat height in
    let* codes := read_temporal_field width height history shared in
    let* garbage_codes := read_temporal_garbage width (previous ≫= np_garbage) in
    let* comment := read_temporal_comment history in
    let* operation := read_temporal_operation (previous ≫= np_operation) in
    rd_ret (mkNormalized height codes comment operation flags garbage_codes).

(** One turn of the loop of [read_temporal_pages]: the pages it pushes. *)
Definition read_temporal_step (width page_count : nat) (shared : option (list Z)) (pages : list NormalizedPage) : Reader (list NormalizedPage) :=
  let* kind := read_bits 2 in
  if kind =? 0 then (let* page := read_temporal_page width pages shared in rd_ret [page])
  else if kind =? 1 then
    (let* previous := rd_lift (ok_or (last pages) (Failed (InvalidPayload "repeated page has no reference"))) in rd_ret [previous])
  else if kind =? 2 then
    (let* n := read_var_uint in let* page := rd_lift (referenced_page pages (n + 1) "page reference is invalid") in rd_ret [page])
  else
    let* previous := rd_lift (ok_or (last pages) (Failed (InvalidPayload "repeated page run has no reference"))) in
    let* n := read_var_uint in
    if Z.of_nat (page_count - length pages) <? n + 2 then rd_lift (invalid "repeated page run is invalid")
    else rd_ret (replicate (Z.to_nat (n + 2)) previous).

(** The loop of [read_temporal_pages]; every turn adds a page. *)
Fixpoint read_temporal_from (fuel width page_count : nat) (shared : option (list Z)) (pages : list NormalizedPage) : Reader (list NormalizedPage) :=
  if (page_count <=? length pages)%nat then rd_ret pages
  else
    match fuel with
    | O => rd_lift (Err CtkPanic)
    | S fuel =>
        let* more := read_temporal_step width page_count shared pages in
        read_temporal_from fuel width page_count shared (pages ++ more)
    end.

Definition read_temporal_pages (width page_count : nat) (shared : option (list Z)) : Reader (list NormalizedPage) :=
  read_temporal_from page_count width page_count shared [].

(** ** Round trips of the parts *)

Lemma wire_index_width p : in_width 3 (wire_index p).
Proof. by destruct p. Qed.

Lemma from_wire_index_back p : from_wire_index (wire_index p) = Some p.
Proof. by destruct p. Qed.

Lemma length_rotations p : (1 <= length (operation_rotations p) <= 4)%nat.
Proof. destruct p; simpl; lia. Qed.

Lemma zigzag_width v m : Z.abs v <= m -> 2 * m < 2 ^ 32 -> in_width 32 (zigzag v).
Proof. intros H1 H2. unfold zigzag, in_width. destruct (Z.leb_spec 0 v); lia. Qed.

Lemma coordinates_fit_spec op : coordinates_fit op = true <-> Z.abs (op_x op) <= MAX_OPERATION_COORDINATE /\ Z.abs (op_y op) <= MAX_OPERATION_COORDINATE.
Proof. unfold coordinates_fit. by rewrite andb_true_iff, !Z.leb_le. Qed.

Lemma rt_coordinate x : Z.abs x <= MAX_OPERATION_COORDINATE -> roundtrip (write_signed_var_int x) read_coordinate x.
Proof.
  intros H. unfold MAX_OPERATION_COORDINATE in *. eapply rt_last; [apply rt_signed; eapply zigzag_width; [exact H|lia]|].
  rewrite (proj2 (Z.ltb_ge _ _)) by (unfold MAX_OPERATION_COORDINATE; lia). unfold try_i32.
  rewrite (proj2 (Z.leb_le _ _)), (proj2 (Z.ltb_lt _ _)) by lia. apply reads_lift.
Qed.

Lemma normalize_decoded_ok op : operation_ok op -> normalize_decoded_operation op = Ok op.
Proof. intros [H1 H2]. unfold normalize_decoded_operation. rewrite H2, H1. cbn [negb ok_or rbind]. by rewrite H2. Qed.

Lemma rt_operation_body op : operation_ok op -> roundtrip (write_operation_body op) read_operation_body op.
Proof.
  intros Hop. pose proof Hop as [Hc Hf]. apply coordinates_fit_spec in Hf as [Hx Hy]. apply canonicalize_spec in Hc as (_ & Hrot & _).
  unfold write_operation_body, read_operation_body. eapply rt_seq; [apply rt_bits; [lia|apply wire_index_width]|]. rewrite from_wire_index_back. cbn [ok_or]. apply rt_pure.
  destruct (position_spec _ _ Hrot) as (i & -> & Hi). pose proof (lookup_lt_Some _ _ _ Hi) as Hlt. pose proof (length_rotations (op_piece op)).
  destruct (bits_for_choices_width (length (operation_rotations (op_piece op))) i Hlt) as [W1 W2]; [lia|].
  eapply rt_seq; [by apply rt_bits|]. rewrite Nat2Z.id, Hi. cbn [ok_or]. apply rt_pure. eapply rt_seq; [by apply rt_coordinate|]. eapply rt_last; [by apply rt_coordinate|].
  replace (mkOp (op_piece op) (op_rotation op) (op_x op) (op_y op)) with op by (by destruct op). rewrite normalize_decoded_ok by done. apply reads_lift.
Qed.

Lemma rt_comment_literal comment : string_ok comment -> Z.of_nat (length comment) <= MAX_COMMENT_BYTES ->
  roundtrip (write_comment_literal comment) read_comment_literal comment.
Proof.
  intros [Hb Hu] Hl. unfold MAX_COMMENT_BYTES in Hl. eapply rt_seq; [apply rt_var_uint; unfold in_width; lia|].
  rewrite (proj2 (Z.ltb_ge _ _)) by (unfold MAX_COMMENT_BYTES; lia). eapply rt_last; [apply rt_bytes; [lia|done]|]. rewrite Hu. apply reads_ret.
Qed.

Lemma small_field width height : (width <= MAX_WIDTH)%nat -> (height <= MAX_HEIGHT)%nat -> (width * height <= 961)%nat.
Proof. unfold MAX_WIDTH, MAX_HEIGHT. intros. nia. Qed.

Lemma checked_cells width height : (width <= MAX_WIDTH)%nat -> (height <= MAX_HEIGHT)%nat ->
  checked_mul 64 (Z.of_nat width) (Z.of_nat height) = Some (Z.of_nat width * Z.of_nat height).
Proof. intros H1 H2. apply checked_mul_Some. pose proof (small_field width height H1 H2). lia. Qed.

Lemma rt_field codes previous width height mw : field_ok (height * width) codes -> (width <= MAX_WIDTH)%nat -> (height <= MAX_HEIGHT)%nat -> (3 <= mw <= 32)%nat ->
  roundtrip (write_best_cell_encoding codes previous mw true) (read_cell_encoding (width * height) previous mw) codes.
Proof.
  intros [Hl Hc] Hw Hh Hm. pose proof (small_field width height Hw Hh). replace (width * height)%nat with (length codes) by lia. apply rt_best; [done|lia|done].
Qed.

Lemma rt_garbage g previous width mw : field_ok width g -> (width <= MAX_WIDTH)%nat -> (3 <= mw <= 32)%nat ->
  roundtrip (write_best_cell_encoding g previous mw true) (read_cell_encoding width previous mw) g.
Proof. intros [Hl Hc] Hw Hm. unfold MAX_WIDTH in Hw. rewrite <- Hl at 1. apply rt_best; [done|lia|done]. Qed.

(** ** The compact stream *)

Lemma rt_compact_height page (previous : option NormalizedPage) : (np_height page <= MAX_HEIGHT)%nat ->
  roundtrip (match previous with
    | Some previous =>
        let same_height := (np_height page =? np_height previous)%nat in
        wr_bit same_height ;; wr_if (negb same_height) (write_var_uint (Z.of_nat (np_height page))) wr_skip
    | None => write_var_uint (Z.of_nat (np_height page))
    end)
   (match previous with
    | Some previous => let* same := read_bit in if (same : bool) then rd_ret (Z.of_nat (np_height previous)) else read_var_uint
    | None => read_var_uint
    end) (Z.of_nat (np_height page)).
Proof.
  intros Hh. assert (in_width 32 (Z.of_nat (np_height page))) by (unfold in_width, MAX_HEIGHT in *; lia).
  destruct previous as [prev|]; [|by apply rt_var_uint]. cbn zeta. eapply rt_seq; [apply rt_bit|].
  destruct (Nat.eqb_spec (np_height page) (np_height prev)) as [->|]; cbn [negb wr_if]; [apply rt_skip, reads_ret|by apply rt_var_uint].
Qed.

Lemma rt_compact_page width page previous : (width <= MAX_WIDTH)%nat -> page_ok width page -> roundtrip (write_compact_page page previous) (read_compact_page width previous) page.
Proof.
  intros Hw (Hh & Hf & Hs & Hl & Hop & Hg). unfold write_compact_page, read_compact_page.
  set (flag_mode := if bool_decide (np_flags page = default_flags) then 0 else _).
  assert (in_width 2 flag_mode) as Hfm by (unfold flag_mode; by repeat case_bool_decide).
  eapply rt_seq; [apply rt_bits; [lia|done]|]. apply (rt_seq _ _ _ _ (np_flags page)).
  { unfold flag_mode. case_bool_decide as E1; cbn [Z.eqb Pos.eqb wr_if]; [rewrite E1; apply rt_skip, reads_ret|].
    case_bool_decide as E2; cbn [Z.eqb Pos.eqb wr_if]; [rewrite E2; apply rt_skip, reads_lift|].
    eapply rt_last; [apply rt_bits; [lia|apply flag_bits_width]|]. rewrite flags_roundtrip. apply reads_ret. }
  do 3 (eapply rt_seq; [apply rt_bit|]). eapply rt_seq; [by apply rt_compact_height|].
  rewrite (proj2 (Z.ltb_ge _ _)) by (unfold MAX_HEIGHT in *; lia). rewrite checked_cells by done. cbn [ok_or]. apply rt_pure. cbn zeta. rewrite Nat2Z.id.
  eapply rt_seq; [by apply rt_field; [..|lia]|]. apply (rt_seq _ _ _ _ (np_garbage page)).
  { destruct (np_garbage page) as [g|]; cbn [is_some]; [|apply rt_skip, reads_ret]. eapply rt_last; [apply rt_garbage; [by apply Hg|done|lia]|]. apply reads_ret. }
  apply (rt_seq _ _ _ _ (np_comment page)).
  { case_bool_decide as E; cbn [negb wr_if]; [rewrite E; apply rt_skip, reads_ret|]. by apply rt_comment_literal. }
  apply (rt_last _ _ _ (np_operation page)).
  { destruct (np_operation page) as [op|]; cbn [is_some]; [|apply rt_skip, reads_ret]. eapply rt_last; [by apply rt_operation_body, Hop|]. apply reads_ret. }
  destruct page. apply reads_ret.
Qed.

Lemma rt_compact_pages width pages acc : (width <= MAX_WIDTH)%nat -> Forall (page_ok width) pages ->
  roundtrip (write_compact_pages (last acc) pages) (read_linear_from (length pages) width COMPACT_SCHEMA_REVISION acc) (acc ++ pages).
Proof.
  intros Hw Hp. revert acc. induction Hp as [|page pages Hp _ IH]; intros acc; cbn [write_compact_pages length read_linear_from].
  - rewrite app_nil_r. apply rt_skip, reads_ret.
  - eapply rt_seq; [by apply rt_compact_page|]. replace (acc ++ page :: pages) with ((acc ++ [page]) ++ pages) by (by rewrite <- app_assoc).
    specialize (IH (acc ++ [page])). by rewrite last_snoc in IH.
Qed.
