(* ===== verification/CtkTemporal.v ===== *)
(** * The temporal page streams of the CTK3 codec

    What the reader of [clearra-ctk3/src/decoder.rs] gets from the bits the
    writer of [clearra-ctk3/src/codec.rs] produces for the temporal streams
    (revisions 2 and 3): every page is written with the shortest of several
    forms, each of which refers to pages the reader already has. *)

From Stdlib Require Import ZArith Lia.
From stdpp Require Import prelude strings.
From S2P Require Import Prelude Words CtkBigNat CtkBits CtkCells CtkPages CtkCodec.

Local Open Scope Z_scope.

(** ** Rules for tags and chosen candidates *)

Lemma rt_ext {A} (m m' : Writer) (rd : Reader A) a : (forall w, m w = m' w) -> roundtrip m' rd a -> roundtrip m rd a.
Proof. intros E (bs & W & R). exists bs. split; [|done]. intros w b0 Hw. rewrite E. by apply W. Qed.

(** A tag that the reader takes bit by bit. *)
Lemma rt_tag {A} v n bs' (rd : Reader A) a : (n <= 32)%nat -> in_width (Z.of_nat n) v -> bits_le v n = bs' -> reads rd bs' a -> roundtrip (write_bits v n) rd a.
Proof. intros Hn Hv <- R. exists (bits_le v n). split; [by apply write_bits_writes|done]. Qed.

Lemma rt_tagged {A} v n bs' (m : Writer) (rd rd' : Reader A) a : (n <= 32)%nat -> in_width (Z.of_nat n) v -> bits_le v n = bs' ->
  (forall bs, reads rd' bs a -> reads rd (bs' ++ bs) a) -> roundtrip m rd' a -> roundtrip (write_bits v n ;; m) rd a.
Proof. intros Hn Hv <- H (bs & W & R). exists (bits_le v n ++ bs). split; [apply writes_seq; [by apply write_bits_writes|done]|by apply H]. Qed.

Ltac tag_bits := let bs := fresh in let R := fresh in intros bs R; cbn [app]; repeat (apply reads_bit_then; cbn [negb]); exact R.

(** ** References to earlier pages *)

Lemma last_take (pages : list NormalizedPage) index : (index <= length pages)%nat -> last (take index pages) = previous_page pages index.
Proof.
  intros H. destruct index as [|i]; [done|]. destruct (lookup_lt_is_Some_2 pages i ltac:(lia)) as [p Hp]. cbn [previous_page]. rewrite Hp.
  erewrite take_S_r by exact Hp. apply last_snoc.
Qed.

Lemma referenced_take pages prior index p reason : (prior < index <= length pages)%nat -> pages !! prior = Some p ->
  referenced_page (take index pages) (Z.of_nat (index - prior - 1) + 1) reason = Ok p.
Proof.
  intros H Hp. unfold referenced_page. rewrite length_take_le by lia. rewrite (proj2 (Z.ltb_ge _ _)) by lia.
  replace (Z.to_nat _) with prior by lia. rewrite lookup_take_lt by lia. by rewrite Hp.
Qed.

Lemma latest_elem {K} `{EqDecision K} (key : K) entries i : latest key entries = Some i -> (key, i) ∈ entries.
Proof. induction entries as [|[k j] es IH]; [done|]. cbn [latest]. case_decide as E; [intros [= ->]; subst; left|intros; right; auto]. Qed.

(** The entries name pages before [index] that have the key. *)
Definition entries_ok {K} (pages : list NormalizedPage) (key : NormalizedPage -> K) (index : nat) (entries : list (K * nat)) : Prop :=
  Forall (fun e => (snd e < index)%nat /\ exists p, pages !! snd e = Some p /\ key p = fst e) entries.

Definition field_key (p : NormalizedPage) : nat * list Z := (np_height p, np_codes p).

Record context_ok (pages : list NormalizedPage) (shared : option SharedFieldPredictor) (index : nat) (context : TemporalContext) : Prop := {
  co_pages : ctx_pages context = pages;
  co_shared : ctx_shared context = shared;
  co_index : (index <= length pages)%nat;
  co_field : entries_ok pages field_key index (latest_field context);
  co_page : entries_ok pages id index (latest_page context);
  co_comment : entries_ok pages np_comment index (latest_comment context)
}.

Lemma entries_mono {K} pages (key : NormalizedPage -> K) i j entries : (i <= j)%nat -> entries_ok pages key i entries -> entries_ok pages key j entries.
Proof. intros Hij H. eapply Forall_impl; [exact H|]. intros e [H1 H2]. split; [lia|done]. Qed.

Lemma entries_latest {K} `{EqDecision K} pages (key : NormalizedPage -> K) index entries k i :
  entries_ok pages key index entries -> not_previous index (latest k entries) = Some i -> (i < index)%nat /\ exists p, pages !! i = Some p /\ key p = k.
Proof.
  intros Hok H. unfold not_previous in H. destruct (latest k entries) as [j|] eqn:E; [|done]. destruct (_ =? _)%nat; [done|]. injection H as ->.
  apply latest_elem in E. unfold entries_ok in Hok. rewrite Forall_forall in Hok. by apply (Hok (k, i)).
Qed.

Lemma context_init pages shared : context_ok pages shared 0 (mkContext pages shared [] [] []).
Proof. split; try done; try constructor. simpl. lia. Qed.

Lemma context_record pages shared index context : (index < length pages)%nat -> context_ok pages shared index context ->
  context_ok pages shared (index + 1) (record_temporal_page context index).
Proof.
  intros Hi [H1 H2 H3 H4 H5 H6]. unfold record_temporal_page. rewrite H1. destruct (lookup_lt_is_Some_2 pages index Hi) as [p Hp]. rewrite Hp.
  assert (forall K (key : NormalizedPage -> K) es, entries_ok pages key index es -> entries_ok pages key (index + 1) ((key p, index) :: es)) as Hadd.
  { intros K key es He. constructor; [split; [simpl; lia|by exists p]|]. eapply entries_mono; [|exact He]. lia. }
  split; cbn [ctx_pages ctx_shared latest_field latest_page latest_comment]; [done|done|lia|by apply (Hadd _ field_key)|by apply (Hadd _ id)|].
  case_bool_decide; [eapply entries_mono; [|done]; lia|by apply (Hadd _ np_comment)].
Qed.

Lemma context_records pages shared n index context : (index + n <= length pages)%nat -> context_ok pages shared index context ->
  context_ok pages shared (index + n) (foldl record_temporal_page context (seq index n)).
Proof.
  revert index context. induction n as [|n IH]; intros index context Hn H; cbn [seq foldl]; [by rewrite Nat.add_0_r|].
  replace (index + S n)%nat with (index + 1 + n)%nat by lia. replace (S index) with (index + 1)%nat by lia. apply IH; [lia|]. apply context_record; [lia|done].
Qed.

(** ** The parts of a page *)

Lemma rt_temporal_flags flags previous : roundtrip (write_temporal_flags flags previous) (read_temporal_flags previous) flags.
Proof.
  unfold write_temporal_flags, read_temporal_flags. case_bool_decide as E1; [rewrite E1; eapply rt_last; [apply rt_bit|apply reads_ret]|].
  case_bool_decide as E2.
  - apply (rt_tag 1 2 [true; false]); [lia|done|done|]. do 2 apply reads_bit_then. cbn [negb]. rewrite E2. apply reads_lift.
  - apply (rt_tagged 3 2 [true; true] _ _ (let* bits := read_bits 5 in rd_ret (flags_from_bits bits))); [lia|done|done| |].
    + intros bs R. do 2 apply reads_bit_then. exact R.
    + eapply rt_last; [apply rt_bits; [lia|apply flag_bits_width]|]. rewrite flags_roundtrip. apply reads_ret.
Qed.

Lemma rt_temporal_garbage width garbage previous : (width <= MAX_WIDTH)%nat -> (forall g, garbage = Some g -> field_ok width g) ->
  roundtrip (write_temporal_garbage garbage previous) (read_temporal_garbage width previous) garbage.
Proof.
  intros Hw Hg. unfold write_temporal_garbage, read_temporal_garbage. destruct garbage as [g|]; [|eapply rt_last; [apply rt_bit|apply reads_ret]].
  case_bool_decide as E.
  - apply (rt_tag 1 2 [true; false]); [lia|done|done|]. do 2 apply reads_bit_then. cbn [negb]. rewrite E. apply reads_pure, reads_ret.
  - apply (rt_tagged 3 2 [true; true] _ _ (let* codes := read_cell_encoding width previous 4 in rd_ret (Some codes))); [lia|done|done| |].
    + intros bs R. do 2 apply reads_bit_then. exact R.
    + eapply rt_last; [apply rt_garbage; [by apply Hg|done|lia]|]. apply reads_ret.
Qed.

Lemma rt_temporal_comment pages shared comment context index : Z.of_nat (length pages) < 2 ^ 32 -> context_ok pages shared index context ->
  string_ok comment -> Z.of_nat (length comment) <= MAX_COMMENT_BYTES ->
  roundtrip (write_temporal_comment comment context index) (read_temporal_comment (take index pages)) comment.
Proof.
  intros Hlen [H1 H2 H3 _ _ Hc] Hs Hl. unfold write_temporal_comment. case_bool_decide as E; [rewrite E; eapply rt_last; [apply rt_bit|apply reads_ret]|].
  set (rd := read_temporal_comment (take index pages)).
  destruct (candidate_run (write_bits 7 3 ;; write_comment_literal comment) rd comment) as (c1 & E1 & C1).
  { apply (rt_tagged 7 3 [true; true; true] _ _ read_comment_literal); [lia|done|done| |by apply rt_comment_literal].
    intros bs R. do 3 apply reads_bit_then. exact R. }
  assert (exists cs, (if bool_decide (np_comment <$> previous_page (ctx_pages context) index = Some comment) then
      let? copied := write_bits 1 2 BitWriter_default in Ok ([c1] ++ [copied]) else Ok [c1]) = Ok cs /\ cs <> [] /\ Forall (fun c => candidate c rd comment) cs)
    as (cs & Ecs & Hne & Hcs).
  { case_bool_decide as Ep; [|exists [c1]; split; [done|split; [done|by repeat constructor]]].
    destruct (candidate_run (write_bits 1 2) rd comment) as (c2 & -> & C2); [|exists [c1; c2]; split; [done|split; [done|by repeat constructor]]].
    apply (rt_tag 1 2 [true; false]); [lia|done|done|]. do 2 apply reads_bit_then. cbn [negb]. rewrite H1 in Ep. rewrite last_take, Ep by done. apply reads_lift. }
  assert (exists cs', (match not_previous index (latest comment (latest_comment context)) with
      | Some prior => let? referenced := (write_bits 3 3 ;; write_var_uint (Z.of_nat (index - prior - 1))) BitWriter_default in Ok (cs ++ [referenced])
      | None => Ok cs end) = Ok cs' /\ cs' <> [] /\ Forall (fun c => candidate c rd comment) cs') as (cs' & Ecs' & Hne' & Hcs').
  { destruct (not_previous _ _) as [prior|] eqn:En; [|by exists cs]. destruct (entries_latest _ _ _ _ _ _ Hc En) as (Hi & p & Hp & Hk).
    destruct (candidate_run (write_bits 3 3 ;; write_var_uint (Z.of_nat (index - prior - 1))) rd comment) as (c3 & -> & C3);
      [|exists (cs ++ [c3]); split; [done|split; [by destruct cs|apply Forall_app; split; [done|by repeat constructor]]]].
    apply (rt_tagged 3 3 [true; true; false] _ _ (let* n := read_var_uint in
        let* page := rd_lift (referenced_page (take index pages) (n + 1) "comment reference is invalid") in
        if bool_decide (np_comment page = []) then rd_lift (invalid "comment reference is empty") else rd_ret (np_comment page))); [lia|done|done| |].
    { intros bs R. do 3 apply reads_bit_then. exact R. }
    eapply rt_last; [apply rt_var_uint; unfold in_width; lia|]. erewrite referenced_take by (done || lia). apply reads_pure.
    rewrite Hk, bool_decide_false by done. apply reads_ret. }
  apply (rt_candidates _ cs'); [|done|done]. intros w. rewrite E1. cbn [rbind]. cbn zeta. rewrite Ecs. cbn [rbind]. by rewrite Ecs'.
Qed.

Lemma checked_i64_small x : Z.abs x < 2 ^ 62 -> checked_i64 x = Some x.
Proof. intros H. unfold checked_i64. by rewrite (proj2 (Z.leb_le _ _)), (proj2 (Z.ltb_lt _ _)) by lia. Qed.

Lemma try_i32_small x : Z.abs x <= MAX_OPERATION_COORDINATE -> try_i32 x = Some x.
Proof. unfold MAX_OPERATION_COORDINATE. intros H. unfold try_i32. by rewrite (proj2 (Z.leb_le _ _)), (proj2 (Z.ltb_lt _ _)) by lia. Qed.

(** The difference of two operations with the same piece and rotation. *)
Lemma rt_operation_delta previous op : operation_ok op -> operation_ok previous -> op_piece previous = op_piece op -> op_rotation previous = op_rotation op ->
  roundtrip (write_bits 3 3 ;; write_signed_var_int (op_x op - op_x previous) ;; write_signed_var_int (op_y op - op_y previous))
    (read_temporal_operation (Some previous)) (Some op).
Proof.
  intros Hop Hprev Hp Hr. pose proof Hop as [_ Hf]. apply coordinates_fit_spec in Hf as [Hx Hy]. destruct Hprev as [_ Hf]. apply coordinates_fit_spec in Hf as [Hx' Hy'].
  pose proof Hx as Bx. pose proof Hy as By. unfold MAX_OPERATION_COORDINATE in Hx, Hy, Hx', Hy'.
  eapply (rt_tagged 3 3 [true; true; false]); [lia|done|done|intros bs R; do 3 apply reads_bit_then; exact R|]. apply rt_pure.
  eapply rt_seq; [apply rt_signed; apply (zigzag_width _ (2 ^ 31 - 2)); lia|]. rewrite checked_i64_small by lia. cbn [ok_or]. apply rt_pure.
  eapply rt_last; [apply rt_signed; apply (zigzag_width _ (2 ^ 31 - 2)); lia|]. rewrite checked_i64_small by lia. cbn [ok_or]. apply reads_pure.
  replace (op_x previous + (op_x op - op_x previous)) with (op_x op) by lia. replace (op_y previous + (op_y op - op_y previous)) with (op_y op) by lia.
  rewrite !try_i32_small by done. cbn [ok_or]. do 2 apply reads_pure. rewrite Hp, Hr.
  replace (mkOp (op_piece op) (op_rotation op) (op_x op) (op_y op)) with op by (by destruct op). rewrite normalize_decoded_ok by done. apply reads_pure, reads_ret.
Qed.

Lemma rt_temporal_operation operation previous : (forall op, operation = Some op -> operation_ok op) -> (forall op, previous = Some op -> operation_ok op) ->
  roundtrip (write_temporal_operation operation previous) (read_temporal_operation previous) operation.
Proof.
  intros Hop Hprev. unfold write_temporal_operation. destruct operation as [op|]; [|eapply rt_last; [apply rt_bit|apply reads_ret]]. specialize (Hop op eq_refl).
  case_bool_decide as E. { apply (rt_tag 1 2 [true; false]); [lia|done|done|]. do 2 apply reads_bit_then. cbn [negb]. rewrite E. apply reads_pure, reads_ret. }
  set (rd := read_temporal_operation previous).
  destruct (candidate_run (write_bits 7 3 ;; write_operation_body op) rd (Some op)) as (c1 & E1 & C1).
  { apply (rt_tagged 7 3 [true; true; true] _ _ (let* op := read_operation_body in rd_ret (Some op))); [lia|done|done| |].
    - intros bs R. do 3 apply reads_bit_then. exact R.
    - eapply rt_last; [by apply rt_operation_body|apply reads_ret]. }
  assert (exists cs, (match previous with
      | Some previous => if bool_decide (op_piece previous = op_piece op) && bool_decide (op_rotation previous = op_rotation op) then
          let? delta := (write_bits 3 3 ;; write_signed_var_int (op_x op - op_x previous) ;; write_signed_var_int (op_y op - op_y previous)) BitWriter_default in
          Ok [c1; delta] else Ok [c1]
      | None => Ok [c1] end) = Ok cs /\ cs <> [] /\ Forall (fun c => candidate c rd (Some op)) cs) as (cs & Ecs & Hne & Hcs).
  { assert (exists cs, Ok (E := CtkFailure) [c1] = Ok cs /\ cs <> [] /\ Forall (fun c => candidate c rd (Some op)) cs) by (exists [c1]; split; [done|split; [done|by repeat constructor]]).
    destruct previous as [prev|]; [|done]. case_bool_decide as Ep; [|done]. case_bool_decide as Er; [|done]. cbn [andb].
    destruct (candidate_run _ _ _ (rt_operation_delta prev op Hop (Hprev prev eq_refl) Ep Er)) as (c2 & -> & C2).
    exists [c1; c2]. split; [done|split; [done|by repeat constructor]]. }
  apply (rt_candidates _ cs); [|done|done]. intros w. rewrite E1. cbn [rbind]. by rewrite Ecs.
Qed.

(** ** Fields *)

Lemma length_fit_codes codes n : length (fit_codes codes n) = n.
Proof. unfold fit_codes. by rewrite length_fmap, length_seq. Qed.

(** The writer of one candidate. *)
Definition field_writer (codes : list Z) (c : FieldCandidate) : Writer :=
  let '(mode, predictor, reference_distance) := c in
  write_bits mode 4 ;;
  match reference_distance with Some distance => write_var_uint (Z.of_nat (distance - 1)) | None => wr_skip end ;;
  match predictor with
  | Some predictor => write_best_predicted_cell_encoding codes predictor 4
  | None => write_best_cell_encoding codes None 4 true
  end.

Lemma rt_field_candidate width height history shared codes mode predictor distance :
  (width <= MAX_WIDTH)%nat -> (height <= MAX_HEIGHT)%nat -> field_ok (height * width) codes -> in_width 4 mode ->
  roundtrip (match distance with Some distance => write_var_uint (Z.of_nat (distance - 1)) | None => wr_skip end)
    (field_predictor width height history shared mode) predictor ->
  roundtrip (field_writer codes (mode, predictor, distance)) (read_temporal_field width height history shared) codes.
Proof.
  intros Hw Hh [Hl Hc] Hm Hp. pose proof (small_field width height Hw Hh). eapply rt_seq; [apply rt_bits; [lia|done]|].
  rewrite checked_cells by done. cbn [ok_or]. apply rt_pure. eapply rt_seq; [exact Hp|]. replace (width * height)%nat with (length codes) by lia.
  destruct predictor as [predictor|]; [apply rt_best_predicted; [done|lia|lia]|apply rt_best; [done|lia|lia]].
Qed.

Lemma add_field_candidates_ok codes cs (rd : Reader (list Z)) : Forall (fun c => roundtrip (field_writer codes c) rd codes) cs ->
  exists ws, add_field_candidates codes cs = Ok ws /\ length ws = length cs /\ Forall (fun w => candidate w rd codes) ws.
Proof.
  induction 1 as [|[[mode predictor] distance] cs Hc _ (ws & IH & Hl & Hws)]; [by exists []|]. destruct (candidate_run _ _ _ Hc) as (w & Ew & Cw).
  exists (w :: ws). cbn [add_field_candidates]. unfold add_field_candidate. cbn [field_writer] in Ew. rewrite Ew. cbn [rbind]. rewrite IH.
  split; [done|]. split; [simpl; lia|by constructor].
Qed.

(** The references are pages before the previous one. *)
Lemma field_references_ok pages shared index context page prior : context_ok pages shared index context -> prior ∈ field_references page context index -> (prior < index)%nat.
Proof.
  intros [_ _ _ Hf _ _] H. unfold field_references in H.
  assert (Forall (fun p => (p < index)%nat) (match not_previous index (latest (np_height page, np_codes page) (latest_field context)) with Some prior => [prior] | None => [] end)) as H0.
  { destruct (not_previous _ _) as [p|] eqn:En; [|constructor]. apply entries_latest with (pages := pages) (key := field_key) in En as [Hp _]; [by repeat constructor|done]. }
  set (start := (index - TEMPORAL_REFERENCE_WINDOW)%nat) in *. revert H. generalize dependent (match not_previous index (latest (np_height page, np_codes page) (latest_field context)) with Some prior => [prior] | None => [] end).
  assert (Forall (fun p => (p < index)%nat) (seq start (index - 1 - start))) as Hs by (apply Forall_forall; intros p Hp%elem_of_seq; lia).
  induction Hs as [|p ps Hp _ IH]; intros acc Hacc H; [rewrite Forall_forall in Hacc; by apply Hacc|]. cbn [foldl] in H. eapply IH; [|exact H].
  case_bool_decide; [done|]. apply Forall_app. split; [done|by repeat constructor].
Qed.

Section Field.
Context (pages : list NormalizedPage) (shared : option SharedFieldPredictor) (context : TemporalContext) (index width : nat) (page : NormalizedPage).
Context (Hlen : Z.of_nat (length pages) < 2 ^ 32) (Hctx : context_ok pages shared index context) (Hw : (width <= MAX_WIDTH)%nat) (Hpage : page_ok width page).

Lemma rt_field_candidates :
  Forall (fun c => roundtrip (field_writer (np_codes page) c) (read_temporal_field width (np_height page) (take index pages) (sh_codes <$> shared)) (np_codes page))
    (field_candidates page context index width).
Proof.
  destruct Hpage as (Hh & Hf & _). pose proof Hctx as [H1 H2 H3 _ _ _]. unfold field_candidates. rewrite H1, H2, (Nat.mul_comm (np_height page) width). repeat rewrite Forall_app.
  split; [|split; [|split]].
  - constructor; [|constructor]. apply rt_field_candidate; try done. apply rt_skip, reads_ret.
  - destruct (previous_page pages index) as [prev|] eqn:Ep; [|constructor].
    repeat constructor; (apply rt_field_candidate; [done|done|done|done|]); apply rt_skip; unfold field_predictor; cbn [Z.eqb Pos.eqb Z.leb Z.compare Pos.compare Pos.compare_cont];
      rewrite last_take, Ep by done; apply reads_pure, reads_ret.
  - apply Forall_forall. intros c (prior & Hc & Hin)%list_elem_of_bind. pose proof (field_references_ok _ _ _ _ _ _ Hctx Hin) as Hlt.
    destruct (lookup_lt_is_Some_2 pages prior ltac:(lia)) as [ref Href]. rewrite Href in Hc. revert c Hc. apply Forall_forall.
    repeat constructor; (apply rt_field_candidate; [done|done|done|done|]); unfold field_predictor; cbn [Z.eqb Pos.eqb Z.leb Z.compare Pos.compare Pos.compare_cont];
      (eapply rt_last; [apply rt_var_uint; unfold in_width; lia|]); (rewrite (referenced_take _ prior _ ref) by (done || lia)); apply reads_pure, reads_ret.
  - destruct shared as [sh|]; [|constructor]. constructor; [|constructor]. apply rt_field_candidate; [done|done|done|done|]. apply rt_skip. apply reads_pure, reads_ret.
Qed.

Lemma rt_temporal_field :
  roundtrip (write_temporal_field page context index width) (read_temporal_field width (np_height page) (take index pages) (sh_codes <$> shared)) (np_codes page).
Proof.
  destruct (add_field_candidates_ok _ _ _ rt_field_candidates) as (ws & Ews & Hl & Hws). apply (rt_candidates _ ws); [|by destruct ws|done].
  intros w. unfold write_temporal_field. by rewrite Ews.
Qed.

Lemma rt_temporal_page : Forall (page_ok width) pages ->
  roundtrip (write_temporal_page page context index width) (read_temporal_page width (take index pages) (sh_codes <$> shared)) page.
Proof.
  intros Hpages. pose proof Hpage as (Hh & Hf & Hs & Hl & Hop & Hg). pose proof (co_pages _ _ _ _ Hctx) as H1. pose proof (co_index _ _ _ _ Hctx) as H3.
  unfold write_temporal_page, read_temporal_page. cbn zeta. rewrite H1, last_take by done.
  assert (forall p, previous_page pages index = Some p -> page_ok width p) as Hprev.
  { intros p Hp. rewrite Forall_forall in Hpages. apply Hpages. destruct index as [|i]; [done|]. by eapply list_elem_of_lookup_2. }
  assert (in_width 32 (Z.of_nat (np_height page))) by (unfold in_width, MAX_HEIGHT in *; lia).
  eapply rt_seq; [apply rt_temporal_flags|]. apply (rt_seq _ _ _ _ (Z.of_nat (np_height page))).
  { destruct (previous_page pages index) as [prev|]; [|by apply rt_var_uint]. eapply rt_seq; [apply rt_bit|].
    destruct (Nat.eqb_spec (np_height page) (np_height prev)) as [->|]; cbn [negb wr_if]; [apply rt_skip, reads_ret|by apply rt_var_uint]. }
  rewrite (proj2 (Z.ltb_ge _ _)) by (unfold MAX_HEIGHT in *; lia). rewrite Nat2Z.id. eapply rt_seq; [apply rt_temporal_field|].
  eapply rt_seq; [by apply rt_temporal_garbage|]. eapply rt_seq; [by eapply rt_temporal_comment|].
  eapply rt_last; [apply rt_temporal_operation; [done|]|destruct page; apply reads_ret].
  intros op Ho. destruct (previous_page pages index) as [prev|]; [|done]. by apply (Hprev prev eq_refl).
Qed.
End Field.

(** ** The stream *)

Lemma equal_prefix_spec page pages : (equal_prefix page pages <= length pages)%nat /\ take (equal_prefix page pages) pages = replicate (equal_prefix page pages) page.
Proof.
  induction pages as [|p pages [IH1 IH2]]; [done|]. cbn [equal_prefix]. case_bool_decide as E; [|split; [simpl; lia|done]].
  cbn [length take replicate]. split; [lia|]. by rewrite IH2, E.
Qed.

(** A run of copies of the previous page. *)
Lemma repeat_run_ok pages page index width shared : Z.of_nat (length pages) < 2 ^ 32 -> pages !! index = Some page ->
  exists o, repeat_run pages page index = Ok o /\
    forall n run, o = Some (n, run) -> (2 <= n)%nat /\ (index + n <= length pages)%nat /\
      take (index + n) pages = take index pages ++ replicate n page /\
      candidate run (read_temporal_step width (length pages) shared (take index pages)) (replicate n page).
Proof.
  intros Hlen Hp. pose proof (lookup_lt_Some _ _ _ Hp) as Hi. unfold repeat_run. case_bool_decide as E; [|by exists None].
  destruct (equal_prefix_spec page (drop (index + 1) pages)) as [P1 P2]. rewrite length_drop in P1. cbn zeta. set (k := equal_prefix page _) in *.
  destruct (Nat.leb_spec 2 (1 + k)) as [Hk|]; [|by exists None].
  destruct (candidate_run (write_bits 3 2 ;; write_var_uint (Z.of_nat (1 + k - 2)))
    (read_temporal_step width (length pages) shared (take index pages)) (replicate (1 + k) page)) as (run & -> & Crun).
  { eapply rt_seq; [apply rt_bits; [lia|done]|]. cbn [Z.eqb Pos.eqb]. rewrite last_take, E by lia. apply rt_pure.
    eapply rt_last; [apply rt_var_uint; unfold in_width; lia|]. rewrite length_take_le by lia.
    rewrite (proj2 (Z.ltb_ge _ _)) by lia. replace (Z.to_nat (Z.of_nat (1 + k - 2) + 2)) with (1 + k)%nat by lia. apply reads_ret. }
  cbn [rbind]. eexists. split; [done|]. intros n run'. destruct (_ <? _)%nat; [|done]. intros [= <- <-]. split; [lia|]. split; [lia|]. split; [|done].
  cbn [Nat.add replicate]. rewrite <- P2.
  rewrite <- (take_drop_middle pages index page Hp) at 1. rewrite take_app_add' by (rewrite length_take_le; lia). by rewrite Nat.add_1_r.
Qed.

Lemma page_candidates_ok pages shared context index width page : Z.of_nat (length pages) < 2 ^ 32 -> context_ok pages shared index context ->
  (width <= MAX_WIDTH)%nat -> Forall (page_ok width) pages -> pages !! index = Some page ->
  exists cs, page_candidates page context index width = Ok cs /\ cs <> [] /\
    Forall (fun c => candidate c (read_temporal_step width (length pages) (sh_codes <$> shared) (take index pages)) [page]) cs.
Proof.
  intros Hlen Hctx Hw Hpages Hp. assert (page_ok width page) as Hpage by (rewrite Forall_forall in Hpages; by eapply Hpages, list_elem_of_lookup_2).
  set (rd := read_temporal_step width (length pages) (sh_codes <$> shared) (take index pages)). unfold page_candidates.
  destruct (candidate_run (write_bits 0 2 ;; write_temporal_page page context index width) rd [page]) as (c0 & -> & C0).
  { eapply rt_seq; [apply rt_bits; [lia|done]|]. cbn [Z.eqb]. eapply rt_last; [by apply rt_temporal_page|apply reads_ret]. }
  cbn [rbind]. pose proof Hctx as [H1 H2 H3 _ H5 _].
  assert (exists cs, (if bool_decide (previous_page (ctx_pages context) index = Some page) then
      let? copied := write_bits 1 2 BitWriter_default in Ok [c0; copied] else Ok [c0]) = Ok cs /\ cs <> [] /\ Forall (fun c => candidate c rd [page]) cs) as (cs & -> & Hne & Hcs).
  { case_bool_decide as Ep; [|exists [c0]; split; [done|split; [done|by repeat constructor]]].
    destruct (candidate_run (write_bits 1 2) rd [page]) as (c1 & -> & C1); [|exists [c0; c1]; split; [done|split; [done|by repeat constructor]]].
    eapply rt_last; [apply rt_bits; [lia|done]|]. cbn [Z.eqb Pos.eqb]. rewrite H1 in Ep. rewrite last_take, Ep by done. apply reads_pure, reads_ret. }
  cbn [rbind]. destruct (not_previous _ _) as [prior|] eqn:En; [|by exists cs]. destruct (entries_latest _ _ _ _ _ _ H5 En) as (Hi & p & Hpp & Hk). unfold id in Hk. subst p.
  destruct (candidate_run (write_bits 2 2 ;; write_var_uint (Z.of_nat (index - prior - 1))) rd [page]) as (c2 & -> & C2).
  { eapply rt_seq; [apply rt_bits; [lia|done]|]. cbn [Z.eqb Pos.eqb]. eapply rt_last; [apply rt_var_uint; unfold in_width; lia|].
    erewrite referenced_take by (done || lia). apply reads_pure, reads_ret. }
  cbn [rbind]. eexists. split; [done|]. split; [by destruct cs|]. apply Forall_app. split; [done|by repeat constructor].
Qed.

Lemma rt_temporal_from pages shared width : Z.of_nat (length pages) < 2 ^ 32 -> (width <= MAX_WIDTH)%nat -> Forall (page_ok width) pages ->
  forall fuel fuel' context index, context_ok pages shared index context -> (length pages - index <= fuel)%nat -> (length pages - index <= fuel')%nat ->
  roundtrip (write_temporal_from fuel context index width) (read_temporal_from fuel' width (length pages) (sh_codes <$> shared) (take index pages)) pages.
Proof.
  intros Hlen Hw Hpages. induction fuel as [|fuel IH]; intros fuel' context index Hctx Hf Hf'; pose proof Hctx as [H1 H2 H3 _ _ _].
  { assert (index = length pages) as -> by lia. rewrite take_ge by done. apply (rt_ext _ wr_skip).
    - intros w. cbn [write_temporal_from]. by rewrite H1, lookup_ge_None_2.
    - destruct fuel'; cbn [read_temporal_from]; rewrite Nat.leb_refl; apply rt_skip, reads_ret. }
  destruct (decide (index = length pages)) as [->|Hne].
  { rewrite take_ge by done. apply (rt_ext _ wr_skip).
    - intros w. cbn [write_temporal_from]. by rewrite H1, lookup_ge_None_2.
    - destruct fuel'; cbn [read_temporal_from]; rewrite Nat.leb_refl; apply rt_skip, reads_ret. }
  destruct fuel' as [|fuel']; [lia|]. destruct (lookup_lt_is_Some_2 pages index ltac:(lia)) as [page Hp].
  cbn [read_temporal_from]. rewrite length_take_le by lia. rewrite (proj2 (Nat.leb_gt _ _)) by lia.
  destruct (repeat_run_ok pages page index width (sh_codes <$> shared) Hlen Hp) as (o & Eo & Ho). destruct o as [[n run]|].
  - destruct (Ho n run eq_refl) as (Hn & Hin & Ht & Hc).
    apply (rt_ext _ (append run ;; write_temporal_from fuel (foldl record_temporal_page context (seq index n)) (index + n) width)).
    { intros w. cbn [write_temporal_from]. rewrite H1, Hp, Eo. done. }
    eapply rt_seq; [by apply candidate_append|]. rewrite <- Ht. apply IH; [by apply context_records|lia|lia].
  - destruct (page_candidates_ok pages shared context index width page Hlen Hctx Hw Hpages Hp) as (cs & Ecs & Hne' & Hcs).
    apply (rt_ext _ (append_shortest cs ;; write_temporal_from fuel (record_temporal_page context index) (index + 1) width)).
    { intros w. cbn [write_temporal_from]. rewrite H1, Hp, Eo. cbn [rbind]. rewrite Ecs. done. }
    eapply rt_seq; [by apply rt_shortest|]. rewrite Nat.add_1_r, <- (take_S_r _ _ _ Hp). rewrite <- Nat.add_1_r. apply IH; [apply context_record; [lia|done]|lia|lia].
Qed.

Lemma rt_temporal_pages pages width shared : Z.of_nat (length pages) < 2 ^ 32 -> (width <= MAX_WIDTH)%nat -> Forall (page_ok width) pages ->
  roundtrip (write_temporal_pages pages width shared) (read_temporal_pages width (length pages) (sh_codes <$> shared)) pages.
Proof. intros Hlen Hw Hp. apply (rt_temporal_from pages shared width Hlen Hw Hp _ _ _ 0); [apply context_init|lia|lia]. Qed.

(** ** What the page readers can return

    On any bits the readers do not panic, and the pages they return are well
    formed. *)

Lemma cell_at_ok codes i : Forall code_ok codes -> code_ok (cell_at codes i).
Proof. intros H. unfold cell_at. destruct (codes !! i) as [c|] eqn:E; [|apply code_ok_0]. rewrite Forall_forall in H. by eapply H, list_elem_of_lookup_2. Qed.

Lemma fit_codes_ok codes n : Forall code_ok codes -> Forall code_ok (fit_codes codes n).
Proof. intros H. apply Forall_fmap, Forall_forall. intros i _. by apply cell_at_ok. Qed.

Lemma grayscale_codes_ok codes n : Forall code_ok (grayscale_codes codes n).
Proof. apply Forall_fmap, Forall_forall. intros i _. cbn. destruct (_ =? 0); by split. Qed.

Lemma mirror_color_ok code : code_ok code -> code_ok (mirror_color code).
Proof. intros H. unfold mirror_color. repeat case_match; try done; by split. Qed.

Lemma foldl_ok {A B} (P : A -> Prop) (f : A -> B -> A) l a : (forall a b, P a -> P (f a b)) -> P a -> P (foldl f a l).
Proof. intros Hf. revert a. induction l as [|b l IH]; intros a Ha; cbn [foldl]; auto. Qed.

Lemma insert_ok codes i c : code_ok c -> Forall code_ok codes -> Forall code_ok (<[i := c]> codes).
Proof. intros Hc H. by apply Forall_insert. Qed.

Lemma mirror_codes_ok source h width th : Forall code_ok source -> Forall code_ok (mirror_codes source h width th).
Proof.
  intros H. unfold mirror_codes. apply foldl_ok; [|apply Forall_replicate, code_ok_0]. intros acc y Hacc. apply foldl_ok; [|done].
  intros acc' x Hacc'. apply insert_ok; [by apply mirror_color_ok, cell_at_ok|done].
Qed.

Lemma lock_operation_ok previous width h cells : Forall code_ok cells -> Forall code_ok (lock_operation previous width h cells).
Proof.
  intros H. unfold lock_operation. destruct (np_operation previous) as [op|]; [|done]. destruct (fl_lock _); [|done]. destruct (forallb _ _); [|done].
  apply foldl_ok; [|done]. intros acc c Hacc. apply insert_ok; [|done]. destruct (fl_colorize _); [destruct (op_piece op)|]; by split.
Qed.

Lemma chunks_ok width cells : Forall code_ok cells -> Forall (Forall code_ok) (chunks_exact width cells).
Proof. intros H. apply Forall_fmap, Forall_forall. intros r _. by apply Forall_take, Forall_drop. Qed.

Lemma predict_locked_codes_ok previous width th clear gray : Forall code_ok (np_codes previous) -> Forall code_ok (predict_locked_codes previous width th clear gray).
Proof.
  intros H. unfold predict_locked_codes. apply fit_codes_ok. apply Forall_bind. eapply Forall_impl; [apply chunks_ok, lock_operation_ok, fit_codes_ok, H|].
  intros row Hrow. unfold compose. case_match; [constructor|]. apply Forall_fmap. eapply Forall_impl; [exact Hrow|]. intros c Hc. unfold compose. case_match; [by split|done].
Qed.

Lemma normalize_decoded_post op : no_panic (normalize_decoded_operation op) operation_ok.
Proof.
  unfold normalize_decoded_operation. destruct (negb (coordinates_fit op)); [done|]. destruct (canonicalize_operation op) as [c|] eqn:Ec; [|done]. cbn [ok_or rbind].
  destruct (coordinates_fit c) eqn:Ef; [|done]. cbn. split; [by eapply canonicalize_spec|done].
Qed.

Lemma no_panic_ok_or {A} (o : option A) e (Q : A -> Prop) : (forall a, o = Some a -> Q a) -> no_panic (ok_or o (Failed e)) Q.
Proof. destruct o as [a|]; cbn; auto. Qed.

(** The next step reads or checks something whose value does not matter. *)
Ltac post_any := eapply (post_bind _ _ (fun _ => True)); [first [apply post_read_bit
  | eapply post_weaken; [apply post_read_bits|done] | eapply post_weaken; [apply post_read_signed|done] | apply post_lift, no_panic_ok_or; done]|]; intros ? _.

Lemma post_coordinate : rd_post read_coordinate (fun _ => True).
Proof. unfold read_coordinate. post_any. destruct (_ <? _); [apply post_fail|]. by apply post_lift, no_panic_ok_or. Qed.

Lemma post_some {A} (m : Reader A) (Q : A -> Prop) : rd_post m Q -> rd_post (let* a := m in rd_ret (Some a)) (fun o => forall a, o = Some a -> Q a).
Proof. intros H. eapply post_bind; [exact H|]. intros a Ha. apply post_ret. by intros ? [= <-]. Qed.

Lemma post_none {A} (Q : A -> Prop) : rd_post (rd_ret None) (fun o => forall a, o = Some a -> Q a).
Proof. by apply post_ret. Qed.

Lemma post_operation_body : rd_post read_operation_body operation_ok.
Proof.
  unfold read_operation_body. do 2 post_any. cbn zeta. do 2 post_any. do 2 (eapply post_bind; [apply post_coordinate|]; intros ? _). apply post_lift, normalize_decoded_post.
Qed.

Definition comment_ok (comment : list Z) : Prop := string_ok comment /\ Z.of_nat (length comment) <= MAX_COMMENT_BYTES.

Lemma comment_ok_nil : comment_ok [].
Proof. by repeat constructor. Qed.

Lemma post_comment_literal : rd_post read_comment_literal comment_ok.
Proof.
  eapply post_bind; [apply post_read_var_uint|]. intros n [Hn _]. destruct (Z.ltb_spec MAX_COMMENT_BYTES n); [apply post_fail|].
  eapply post_bind; [by apply post_read_bytes|]. intros bytes [Hl Hb]. destruct (utf8_valid bytes) eqn:E; [|apply post_fail]. apply post_ret. split; [done|lia].
Qed.

Lemma small_cells width h : (width <= MAX_WIDTH)%nat -> (h <= MAX_HEIGHT)%nat -> Z.of_nat (width * h) < 2 ^ 32 - 1.
Proof. intros H1 H2. pose proof (small_field width h H1 H2). lia. Qed.

Section Posts.
Context (width : nat) (Hw : (width <= MAX_WIDTH)%nat).

Lemma post_garbage previous mw : (forall p, previous = Some p -> Forall code_ok p) -> rd_post (read_cell_encoding width previous mw) (field_ok width).
Proof. intros H. apply post_cells; [unfold MAX_WIDTH in *; lia|done]. Qed.

(** The rest of a linear page, from its height. *)
Lemma post_linear_page (height : Z) previous mw (b : bool) (read_comment : Reader (list Z)) (read_operation : Reader (option Ctk3Operation)) flags :
  0 <= height -> (forall p, previous = Some p -> page_ok width p) -> rd_post read_comment comment_ok -> rd_post read_operation (fun o => forall op, o = Some op -> operation_ok op) ->
  rd_post (if Z.of_nat MAX_HEIGHT <? height then rd_lift (invalid "page height is invalid") else
    let* _ := rd_lift (ok_or (checked_mul 64 (Z.of_nat width) height) (Failed IntegerOverflow)) in
    let* codes := read_cell_encoding (width * Z.to_nat height) (np_codes <$> previous) mw in
    let* garbage_codes := if b then (let* g := read_cell_encoding width None mw in rd_ret (Some g)) else rd_ret None in
    let* comment := read_comment in
    let* operation := read_operation in
    rd_ret (mkNormalized (Z.to_nat height) codes comment operation flags garbage_codes)) (page_ok width).
Proof.
  intros H0 Hprev Hc Ho. destruct (Z.ltb_spec (Z.of_nat MAX_HEIGHT) height) as [|Hh]; [apply post_fail|]. assert (Z.to_nat height <= MAX_HEIGHT)%nat as Hh' by lia. post_any.
  eapply post_bind; [apply post_cells; [by apply small_cells|]|].
  { intros p Hp. destruct previous as [q|]; [|done]. injection Hp as <-. by destruct (Hprev q eq_refl) as (_ & [_ ?] & _). }
  intros codes Hcodes. apply (post_bind _ _ (fun o => forall g, o = Some g -> field_ok width g)).
  { destruct b; [|apply post_none]. by apply post_some, post_garbage. }
  intros g Hg. eapply post_bind; [exact Hc|]. intros comment [C1 C2]. eapply post_bind; [exact Ho|]. intros op Hop. apply post_ret.
  split; [done|]. split; [by rewrite Nat.mul_comm|]. done.
Qed.

Lemma post_var_height : rd_post read_var_uint (fun h => 0 <= h).
Proof. eapply post_weaken; [apply post_read_var_uint|]. by intros h [H _]. Qed.

Lemma post_compact_page previous : (forall p, previous = Some p -> page_ok width p) -> rd_post (read_compact_page width previous) (page_ok width).
Proof.
  intros Hprev. unfold read_compact_page. post_any. eapply (post_bind _ _ (fun _ => True)).
  { destruct (_ =? 0); [by apply post_ret|]. destruct (_ =? 1); [by apply post_lift, no_panic_ok_or|]. destruct (_ =? 2); [|apply post_fail]. post_any. by apply post_ret. }
  intros flags _. do 3 post_any. apply (post_bind _ _ (fun h => 0 <= h)).
  { destruct previous as [p|]; [|apply post_var_height]. post_any. case_match; [apply post_ret; lia|apply post_var_height]. }
  intros height Hh. apply post_linear_page; [done|done| |].
  - case_match; [apply post_comment_literal|apply post_ret, comment_ok_nil].
  - case_match; [apply post_some, post_operation_body|apply post_none].
Qed.

Lemma post_legacy_page previous : (forall p, previous = Some p -> page_ok width p) -> rd_post (read_legacy_page width previous) (page_ok width).
Proof.
  intros Hprev. unfold read_legacy_page. post_any. cbn zeta. eapply post_bind; [apply post_var_height|]. intros height Hh. apply post_linear_page; [done|done| |].
  - destruct (negb _); [apply post_comment_literal|apply post_ret, comment_ok_nil].
  - destruct (negb _); [|apply post_none]. do 4 post_any. do 2 (eapply post_bind; [apply post_coordinate|]; intros ? _). apply post_some. apply post_lift, normalize_decoded_post.
Qed.

Lemma last_ok (P : NormalizedPage -> Prop) l p : Forall P l -> last l = Some p -> P p.
Proof. intros H Hl. rewrite Forall_forall in H. apply H. by apply last_Some_elem_of. Qed.

Lemma post_linear_pages turns revision pages : Forall (page_ok width) pages ->
  rd_post (read_linear_from turns width revision pages) (fun ps => Forall (page_ok width) ps /\ length ps = (length pages + turns)%nat).
Proof.
  revert pages. induction turns as [|turns IH]; intros pages Hp; cbn [read_linear_from]; [apply post_ret; by rewrite Nat.add_0_r|].
  apply (post_bind _ _ (page_ok width)).
  { destruct (_ =? _); [apply post_legacy_page|apply post_compact_page]; intros p Hl; by apply (last_ok _ pages). }
  intros page Hpage. eapply post_weaken; [apply IH; apply Forall_app; split; [done|by apply Forall_singleton]|]. intros ps [H1 H2]. split; [done|]. rewrite H2, length_app. simpl. lia.
Qed.

(** *** Temporal pages *)

Lemma referenced_post history d reason : 1 <= d -> Forall (page_ok width) history -> no_panic (referenced_page history d reason) (page_ok width).
Proof using Type.
  clear Hw. intros Hd H. unfold referenced_page. destruct (Z.ltb_spec (Z.of_nat (length history)) d) as [|Hle]; [done|].
  destruct (lookup_lt_is_Some_2 history (Z.to_nat (Z.of_nat (length history) - d))) as [p Hp]; [lia|]. rewrite Hp. cbn. rewrite Forall_forall in H. by eapply H, list_elem_of_lookup_2.
Qed.

Lemma post_reference {B} history reason (k : NormalizedPage -> Reader B) Q : Forall (page_ok width) history -> (forall p, page_ok width p -> rd_post (k p) Q) ->
  rd_post (let* n := read_var_uint in let* p := rd_lift (referenced_page history (n + 1) reason) in k p) Q.
Proof.
  intros H Hk. eapply post_bind; [apply post_var_height|]. intros n Hn. cbn beta in Hn. eapply post_bind; [apply post_lift, referenced_post; [lia|done]|]. done.
Qed.

Lemma page_codes_ok p : page_ok width p -> Forall code_ok (np_codes p).
Proof. by intros (_ & [_ H] & _). Qed.

Lemma post_temporal_flags previous : rd_post (read_temporal_flags previous) (fun _ => True).
Proof.
  unfold read_temporal_flags. do 2 (post_any; case_match; [first [by apply post_ret|by apply post_lift, no_panic_ok_or]|]). post_any. by apply post_ret.
Qed.

Lemma post_temporal_garbage previous : (forall g, previous = Some g -> field_ok width g) -> rd_post (read_temporal_garbage width previous) (fun o => forall g, o = Some g -> field_ok width g).
Proof.
  intros Hp. unfold read_temporal_garbage. post_any. case_match; [apply post_none|]. post_any. case_match; [by apply post_some, post_lift, no_panic_ok_or|].
  apply post_some, post_garbage. intros g Hg. by destruct (Hp g Hg).
Qed.

Lemma post_temporal_comment history : Forall (page_ok width) history -> rd_post (read_temporal_comment history) comment_ok.
Proof.
  intros H. unfold read_temporal_comment. post_any. case_match; [apply post_ret, comment_ok_nil|]. post_any. case_match.
  { apply post_lift, no_panic_ok_or. intros c Hc. destruct (last history) as [p|] eqn:E; [|done]. injection Hc as <-.
    by destruct (last_ok _ _ _ H E) as (_ & _ & ? & ? & _). }
  post_any. case_match; [|apply post_comment_literal]. apply post_reference; [done|]. intros p (_ & _ & ? & ? & _). case_match; [apply post_fail|by apply post_ret].
Qed.

Lemma post_temporal_operation previous : (forall op, previous = Some op -> operation_ok op) -> rd_post (read_temporal_operation previous) (fun o => forall op, o = Some op -> operation_ok op).
Proof.
  intros Hp. unfold read_temporal_operation. post_any. case_match; [apply post_none|]. post_any. case_match; [by apply post_some, post_lift, no_panic_ok_or|].
  post_any. case_match; [|apply post_some, post_operation_body]. post_any. do 6 post_any. apply post_some, post_lift, normalize_decoded_post.
Qed.

Lemma post_predictor height history shared mode : Forall (page_ok width) history -> (forall c, shared = Some c -> Forall code_ok c) ->
  rd_post (field_predictor width height history shared mode) (fun o => forall c, o = Some c -> Forall code_ok c).
Proof.
  intros H Hs. unfold field_predictor. cbn zeta. case_match; [apply post_none|]. case_match.
  { eapply post_bind; [apply post_lift, no_panic_ok_or; intros p Hl; by apply (last_ok (page_ok width) history)|]. intros p Hp%page_codes_ok. apply post_ret. intros c [= <-].
    repeat case_match; auto using fit_codes_ok, grayscale_codes_ok, mirror_codes_ok, predict_locked_codes_ok. }
  case_match. { apply post_reference; [done|]. intros p Hp%page_codes_ok. apply post_ret. intros c [= <-]. case_match; auto using fit_codes_ok, mirror_codes_ok. }
  case_match; [|apply post_fail]. eapply post_bind; [by apply post_lift, no_panic_ok_or|]. intros c Hc. apply post_ret. intros d [= <-]. by apply fit_codes_ok.
Qed.

Lemma post_temporal_page history shared : Forall (page_ok width) history -> (forall c, shared = Some c -> Forall code_ok c) ->
  rd_post (read_temporal_page width history shared) (page_ok width).
Proof.
  intros H Hs. assert (forall p, last history = Some p -> page_ok width p) as Hlast by (intros p Hl; by apply (last_ok _ history)).
  unfold read_temporal_page. cbn zeta. eapply post_bind; [apply post_temporal_flags|]. intros flags _. apply (post_bind _ _ (fun h => 0 <= h)).
  { destruct (last history) as [p|]; [|apply post_var_height]. post_any. case_match; [apply post_var_height|apply post_ret; lia]. }
  intros height H0. destruct (Z.ltb_spec (Z.of_nat MAX_HEIGHT) height) as [|Hh]; [apply post_fail|]. assert (Z.to_nat height <= MAX_HEIGHT)%nat as Hh' by lia.
  apply (post_bind _ _ (field_ok (width * Z.to_nat height))).
  { unfold read_temporal_field. do 2 post_any. eapply post_bind; [by apply post_predictor|]. intros predictor Hp. apply post_cells; [by apply small_cells|done]. }
  intros codes Hc. eapply post_bind; [apply post_temporal_garbage|].
  { intros g Hg. destruct (last history) as [p|]; [|done]. by apply (Hlast p eq_refl). }
  intros g Hg. eapply post_bind; [by apply post_temporal_comment|]. intros comment [C1 C2]. eapply post_bind; [apply post_temporal_operation|].
  { intros op Hop. destruct (last history) as [p|]; [|done]. by apply (Hlast p eq_refl). }
  intros op Hop. apply post_ret. split; [done|]. split; [by rewrite Nat.mul_comm|done].
Qed.

(** One turn adds at least one page and no more than are missing. *)
Lemma post_temporal_step count shared pages : (length pages < count)%nat -> Forall (page_ok width) pages -> (forall c, shared = Some c -> Forall code_ok c) ->
  rd_post (read_temporal_step width count shared pages) (fun more => Forall (page_ok width) more /\ (1 <= length more <= count - length pages)%nat).
Proof.
  intros Hl H Hs. assert (forall p, page_ok width p -> rd_post (rd_ret [p]) (fun more => Forall (page_ok width) more /\ (1 <= length more <= count - length pages)%nat)) as Hone.
  { intros p Hp. apply post_ret. split; [by apply Forall_singleton|simpl; lia]. }
  assert (forall reason, rd_post (rd_lift (ok_or (last pages) (Failed (InvalidPayload reason)))) (page_ok width)) as Hlast.
  { intros reason. apply post_lift, no_panic_ok_or. intros p Hp. by apply (last_ok _ pages). }
  unfold read_temporal_step. post_any. case_match; [eapply post_bind; [by apply post_temporal_page|done]|]. case_match; [eapply post_bind; [apply Hlast|done]|].
  case_match; [by apply post_reference|]. eapply post_bind; [apply Hlast|]. intros p Hp. eapply post_bind; [apply post_var_height|]. intros n Hn. cbn beta in Hn.
  destruct (Z.ltb_spec (Z.of_nat (count - length pages)) (n + 2)); [apply post_fail|]. apply post_ret. split; [by apply Forall_replicate|rewrite length_replicate; lia].
Qed.

Lemma post_temporal_from count shared : (forall c, shared = Some c -> Forall code_ok c) -> forall fuel pages, (count - length pages <= fuel)%nat -> (length pages <= count)%nat ->
  Forall (page_ok width) pages -> rd_post (read_temporal_from fuel width count shared pages) (fun ps => Forall (page_ok width) ps /\ length ps = count).
Proof.
  intros Hs. induction fuel as [|fuel IH]; intros pages Hf Hl H; cbn [read_temporal_from]; destruct (Nat.leb_spec count (length pages)); [apply post_ret; split; [done|lia]|lia|apply post_ret; split; [done|lia]|].
  eapply post_bind; [by apply post_temporal_step|]. intros more [Hm1 Hm2]. apply IH; [rewrite length_app; lia|rewrite length_app; lia|by apply Forall_app].
Qed.
End Posts.
