(* ===== verification/CtkTransport.v ===== *)
(** * The text transport of the CTK3 codec

    [clearra-ctk3/src/transport.rs]: the CTK64 text of a payload (base 64,
    canonical: no padding, no stray bits), the older CTK85 text, the checksum,
    and the search for a value or a bundle in a string.

    A [&str] is the list of its UTF-8 bytes.  Arithmetic on [u32] and [u64]
    that would overflow, and an index out of range, is [CtkPanic]. *)

From Stdlib Require Import ZArith Lia.
From stdpp Require Import prelude strings.
From S2P Require Import Prelude Words CtkBigNat CtkBits CtkCells CtkPages.

Local Open Scope Z_scope.

(** The bytes of a string literal. *)
Fixpoint str (s : string) : list Z :=
  match s with
  | EmptyString => []
  | String a s => Z.of_N (Ascii.N_of_ascii a) :: str s
  end.

Definition MAX_PAYLOAD_BYTES : Z := 16777216.

Definition CTK3_PREFIX : list Z := Eval vm_compute in str "ctk3_".
Definition CTK3_LEGACY_PREFIX : list Z := Eval vm_compute in str "ctk3@".
Definition CTK3_BUNDLE_PREFIX : list Z := Eval vm_compute in str "ctk3b_".

Definition CTK64_ALPHABET : list Z := Eval vm_compute in str "ABCDEFGHIJKLMNOPQRSTUVWXYZabcdefghijklmnopqrstuvwxyz0123456789-_".
Definition CTK85_ALPHABET : list Z := Eval vm_compute in str "0123456789abcdefghijklmnopqrstuvwxyzABCDEFGHIJKLMNOPQRSTUVWXYZ.-:+=^!/*?&<>()[]{}@%$#".

(** [(MAX_PAYLOAD_BYTES * 8).div_ceil(6)]. *)
Definition MAX_CTK64_CHARACTERS : Z := 22369622.
(** [MAX_PAYLOAD_BYTES.div_ceil(4) * 5]. *)
Definition MAX_CTK85_CHARACTERS : Z := 20971520.

Inductive Transport := Ctk64 | Ctk85.

#[export] Instance Transport_eq_dec : EqDecision Transport.
Proof. solve_decision. Defined.

(** ** Base 64 *)

(** [value * base + digit] on [u32]. *)
Definition push_digit (base value digit : Z) : Result CtkFailure Z :=
  panic_none (product ← checked_mul 32 value base; checked_add 32 product digit).

(** [value & (1 << bit_count).wrapping_sub(1)]. *)
Definition low_part (value : Z) (bit_count : nat) : Z := Z.land value (wrap 32 (shl 32 1 (Z.of_nat bit_count) - 1)).

(** [while bit_count >= 6]: the count drops on every turn. *)
Fixpoint emit_digits (fuel : nat) (value : Z) (bit_count : nat) (output : list Z) : Result CtkFailure (Z * nat * list Z) :=
  if (bit_count <? 6)%nat then Ok (value, bit_count, output)
  else
    match fuel with
    | O => Err CtkPanic
    | S fuel =>
        let bit_count := (bit_count - 6)%nat in
        let? c := panic_none (CTK64_ALPHABET !! Z.to_nat (Z.shiftr value (Z.of_nat bit_count))) in
        emit_digits fuel (low_part value bit_count) bit_count (output ++ [c])
    end.

Definition encode_byte (state : Z * nat * list Z) (byte : Z) : Result CtkFailure (Z * nat * list Z) :=
  let '(value, bit_count, output) := state in
  let? value := push_digit 256 value byte in
  emit_digits (bit_count + 8) value (bit_count + 8) output.

(** [for x in xs { state = f(state, x)? }]. *)
Fixpoint rfold {S X} (f : S -> X -> Result CtkFailure S) (state : S) (xs : list X) : Result CtkFailure S :=
  match xs with
  | [] => Ok state
  | x :: xs => let? state := f state x in rfold f state xs
  end.

Definition encode_ctk64 (bytes : list Z) : Result CtkFailure (list Z) :=
  let? state := rfold encode_byte (0, 0%nat, []) bytes in
  let '(value, bit_count, output) := state in
  if (0 <? bit_count)%nat then
    let? c := panic_none (CTK64_ALPHABET !! Z.to_nat (shl 32 value (Z.of_nat (6 - bit_count)))) in
    Ok (output ++ [c])
  else Ok output.

Definition validate_exact_alphabet (payload : list Z) (transport : Transport) : Result CtkFailure unit :=
  let alphabet := match transport with Ctk64 => CTK64_ALPHABET | Ctk85 => CTK85_ALPHABET end in
  let maximum := match transport with Ctk64 => MAX_CTK64_CHARACTERS | Ctk85 => MAX_CTK85_CHARACTERS end in
  let modulus := match transport with Ctk64 => 4%nat | Ctk85 => 5%nat end in
  if bool_decide (payload = []) || (maximum <? Z.of_nat (length payload)) || (length payload mod modulus =? 1)%nat ||
     existsb (fun byte => negb (bool_decide (byte ∈ alphabet))) payload
  then invalid "transport payload is invalid"
  else Ok tt.

(** [while bit_count >= 8]. *)
Fixpoint emit_bytes (fuel : nat) (value : Z) (bit_count : nat) (bytes : list Z) : Result CtkFailure (Z * nat * list Z) :=
  if (bit_count <? 8)%nat then Ok (value, bit_count, bytes)
  else
    match fuel with
    | O => Err CtkPanic
    | S fuel =>
        let bit_count := (bit_count - 8)%nat in
        emit_bytes fuel (low_part value bit_count) bit_count (bytes ++ [wrap 8 (Z.shiftr value (Z.of_nat bit_count))])
    end.

Definition decode_char (state : Z * nat * list Z) (byte : Z) : Result CtkFailure (Z * nat * list Z) :=
  let '(value, bit_count, bytes) := state in
  let? digit := ok_or (position byte CTK64_ALPHABET) (Failed (InvalidPayload "CTK64 character is invalid")) in
  let? value := push_digit 64 value (Z.of_nat digit) in
  emit_bytes (bit_count + 6) value (bit_count + 6) bytes.

Definition decode_ctk64 (encoded : list Z) : Result CtkFailure (list Z) :=
  let? _ := validate_exact_alphabet encoded Ctk64 in
  let? state := rfold decode_char (0, 0%nat, []) encoded in
  let '(value, _, bytes) := state in
  if negb (value =? 0) then invalid "CTK64 trailing bits are non-zero"
  else
    let? canonical := encode_ctk64 bytes in
    if negb (bool_decide (canonical = encoded)) then invalid "CTK64 payload is not canonical" else Ok bytes.

(** ** Base 85 *)

Definition ctk85_digit (value byte : Z) : Result CtkFailure Z :=
  let? digit := ok_or (position byte CTK85_ALPHABET) (Failed (InvalidPayload "CTK85 character is invalid")) in
  ok_or (product ← checked_mul 64 value 85; checked_add 64 product (Z.of_nat digit)) (Failed IntegerOverflow).

Definition decode_ctk85_value (encoded : list Z) : Result CtkFailure Z := rfold ctk85_digit 0 encoded.

(** The [count] low bytes of a value, the most significant first. *)
Definition be_bytes (count : nat) (value : Z) : list Z :=
  (fun shift => Z.land (Z.shiftr value (Z.of_nat (shift * 8))) 255) <$> reverse (seq 0 count).

Definition decode_ctk85_block (bytes : list Z) (block : list Z) : Result CtkFailure (list Z) :=
  let? value := decode_ctk85_value block in
  if umax 32 <? value then invalid "CTK85 block overflows 32 bits" else Ok (bytes ++ be_bytes 4 value).

(** [as_chunks::<5>().0] of a slice whose length is a multiple of five. *)
Definition chunks_of_5 (encoded : list Z) : list (list Z) := (fun i => take 5 (drop (5 * i) encoded)) <$> seq 0 (length encoded / 5).

Definition decode_ctk85 (encoded : list Z) : Result CtkFailure (list Z) :=
  let? _ := validate_exact_alphabet encoded Ctk85 in
  let complete_length := (length encoded - length encoded mod 5)%nat in
  let? bytes := rfold decode_ctk85_block [] (chunks_of_5 (take complete_length encoded)) in
  let remaining := (length encoded - complete_length)%nat in
  if (0 <? remaining)%nat then
    let byte_count := (remaining - 1)%nat in
    let? value := decode_ctk85_value (drop complete_length encoded) in
    let limit := shl 64 1 (Z.of_nat (byte_count * 8)) in
    if limit <=? value then invalid "CTK85 partial block overflows" else Ok (bytes ++ be_bytes byte_count value)
  else Ok bytes.

Definition decode_payload (transport : Transport) (encoded : list Z) : Result CtkFailure (list Z) :=
  match transport with Ctk64 => decode_ctk64 encoded | Ctk85 => decode_ctk85 encoded end.

(** ** Checksum *)

Definition crc_shift (crc : Z) : Z := if negb (Z.land crc 32768 =? 0) then Z.lxor (shl 16 crc 1) 4129 else shl 16 crc 1.

Definition crc16 (bytes : list Z) : Z :=
  foldl (fun crc byte => Nat.iter 8 crc_shift (Z.lxor crc (shl 16 byte 8))) 65535 bytes.

(** ** Searching a string *)

(** The characters [char::is_whitespace] holds of, in UTF-8. *)
Definition whitespace : list (list Z) :=
  [[9]; [10]; [11]; [12]; [13]; [32]; [194; 133]; [194; 160]; [225; 154; 128]] ++
  ((fun k => [226; 128; 128 + Z.of_nat k]) <$> seq 0 11) ++
  [[226; 128; 168]; [226; 128; 169]; [226; 128; 175]; [226; 129; 159]; [227; 128; 128]].

Definition strips (w bytes : list Z) : bool := bool_decide (take (length w) bytes = w).

(** Drops the given characters from the front; every turn drops a byte. *)
Fixpoint trim_front (fuel : nat) (characters : list (list Z)) (bytes : list Z) : list Z :=
  match fuel with
  | O => bytes
  | S fuel =>
      match List.find (fun w => strips w bytes) characters with
      | Some w => trim_front fuel characters (drop (length w) bytes)
      | None => bytes
      end
  end.

(** [str::trim]. *)
Definition trim (bytes : list Z) : list Z :=
  let front := trim_front (length bytes) whitespace bytes in
  reverse (trim_front (length front) (reverse <$> whitespace) (reverse front)).

Definition to_ascii_lowercase (b : Z) : Z := if byte_in 65 90 b then b + 32 else b.

Definition eq_ignore_ascii_case (l1 l2 : list Z) : bool := bool_decide (to_ascii_lowercase <$> l1 = to_ascii_lowercase <$> l2).

(** [str::is_char_boundary]. *)
Definition is_char_boundary (bytes : list Z) (n : nat) : bool :=
  match bytes !! n with Some b => negb (byte_in 128 191 b) | None => (n =? length bytes)%nat end.

Definition starts_with_ignore_ascii_case (source prefix : list Z) : bool :=
  is_char_boundary source (length prefix) && eq_ignore_ascii_case (take (length prefix) source) prefix.

(** [windows(n).position(...)] from an index on. *)
Fixpoint find_window (index : nat) (source needle : list Z) : option nat :=
  if (length source <? length needle)%nat then None
  else if eq_ignore_ascii_case (take (length needle) source) needle then Some index
  else match source with [] => None | _ :: source => find_window (S index) source needle end.

Definition find_ignore_ascii_case (source needle : list Z) : option nat := find_window 0 source needle.

(** The longest prefix of bytes that satisfy the test. *)
Fixpoint bytes_while (f : Z -> bool) (bytes : list Z) : list Z :=
  match bytes with
  | b :: bytes => if f b then b :: bytes_while f bytes else []
  | [] => []
  end.

(** [split('.')]. *)
Fixpoint split_dots (bytes : list Z) : list (list Z) :=
  match bytes with
  | [] => [[]]
  | b :: bytes =>
      if b =? 46 then [] :: split_dots bytes
      else match split_dots bytes with part :: parts => (b :: part) :: parts | [] => [[b]] end
  end.

Definition extract_exact_payload (input : list Z) : Result CtkFailure (Transport * list Z) :=
  let source := trim input in
  if starts_with_ignore_ascii_case source CTK3_PREFIX then
    let payload := drop (length CTK3_PREFIX) source in
    let? _ := validate_exact_alphabet payload Ctk64 in Ok (Ctk64, payload)
  else if starts_with_ignore_ascii_case source CTK3_LEGACY_PREFIX then
    let payload := drop (length CTK3_LEGACY_PREFIX) source in
    let? _ := validate_exact_alphabet payload Ctk85 in Ok (Ctk85, payload)
  else invalid "no CTK3 header was found".

Definition extract_compatible_payload (input : list Z) : Result CtkFailure (Transport * list Z) :=
  let source := trim input in
  let ctk64 := find_ignore_ascii_case source CTK3_PREFIX in
  let ctk85 := find_ignore_ascii_case source CTK3_LEGACY_PREFIX in
  let? found :=
    match ctk64, ctk85 with
    | Some l, Some r => if (l <? r)%nat then Ok (Ctk64, (l + length CTK3_PREFIX)%nat) else Ok (Ctk85, (r + length CTK3_LEGACY_PREFIX)%nat)
    | Some l, None => Ok (Ctk64, (l + length CTK3_PREFIX)%nat)
    | None, Some r => Ok (Ctk85, (r + length CTK3_LEGACY_PREFIX)%nat)
    | None, None => invalid "no CTK3 header was found"
    end in
  let '(transport, start) := found in
  let alphabet := match transport with Ctk64 => CTK64_ALPHABET | Ctk85 => CTK85_ALPHABET end in
  let payload := bytes_while (fun byte => bool_decide (byte ∈ alphabet)) (drop start source) in
  if bool_decide (payload = []) then invalid "payload is empty" else Ok (transport, payload).

(** [for payload in &payloads { validate_exact_alphabet(payload)? }]. *)
Definition validate_all (payloads : list (list Z)) : Result CtkFailure unit :=
  rfold (fun _ payload => validate_exact_alphabet payload Ctk64) tt payloads.

Definition bundle_payloads (body : list Z) : Result CtkFailure (option (list (list Z))) :=
  let payloads := split_dots body in
  if (length payloads <? 2)%nat then invalid "bundle payload is invalid"
  else let? _ := validate_all payloads in Ok (Some payloads).

Definition extract_exact_bundle (input : list Z) : Result CtkFailure (option (list (list Z))) :=
  let source := trim input in
  if negb (starts_with_ignore_ascii_case source CTK3_BUNDLE_PREFIX) then Ok None
  else bundle_payloads (drop (length CTK3_BUNDLE_PREFIX) source).

Definition extract_compatible_bundle (input : list Z) : Result CtkFailure (option (list (list Z))) :=
  let source := trim input in
  match find_ignore_ascii_case source CTK3_BUNDLE_PREFIX with
  | None => Ok None
  | Some prefix => bundle_payloads (bytes_while (fun byte => (byte =? 46) || bool_decide (byte ∈ CTK64_ALPHABET)) (drop (prefix + length CTK3_BUNDLE_PREFIX) source))
  end.

(** ** Base 64: the groups

    Three bytes are four characters, one byte is two and two bytes are three;
    between groups the accumulator is empty. *)

Definition char64 (d : Z) : Z := default 0 (CTK64_ALPHABET !! Z.to_nat d).

Fixpoint ctk64_chars (bytes : list Z) : list Z :=
  match bytes with
  | a :: b :: c :: rest =>
      [char64 (a / 4); char64 (a mod 4 * 16 + b / 16); char64 (b mod 16 * 4 + c / 64); char64 (c mod 64)] ++ ctk64_chars rest
  | [a; b] => [char64 (a / 4); char64 (a mod 4 * 16 + b / 16); char64 (b mod 16 * 4)]
  | [a] => [char64 (a / 4); char64 (a mod 4 * 16)]
  | [] => []
  end.

Lemma list_ind3 {A} (P : list A -> Prop) : P [] -> (forall a, P [a]) -> (forall a b, P [a; b]) ->
  (forall a b c l, P l -> P (a :: b :: c :: l)) -> forall l, P l.
Proof. intros H0 H1 H2 H3. fix IH 1. intros [|a [|b [|c l]]]; [done|done|done|]. apply H3, IH. Qed.

Lemma position_lookup {A} `{EqDecision A} (l : list A) i x : NoDup l -> l !! i = Some x -> position x l = Some i.
Proof.
  intros Hnd. revert i. induction Hnd as [|y l Hy _ IH]; intros i Hi; [done|]. cbn [position]. destruct i as [|i]; [injection Hi as ->; by rewrite decide_True|].
  cbn in Hi. rewrite decide_False by (intros ->; by apply Hy; eapply list_elem_of_lookup_2). by rewrite (IH i Hi).
Qed.

Lemma position_Some {A} `{EqDecision A} (l : list A) i x : position x l = Some i -> l !! i = Some x.
Proof.
  revert i. induction l as [|y l IH]; intros i Hi; [done|]. cbn [position] in Hi. case_decide as E; [by injection Hi as <-; subst|].
  destruct (position x l) as [j|]; [|done]. injection Hi as <-. by apply IH.
Qed.

Lemma char64_spec d : 0 <= d < 64 -> CTK64_ALPHABET !! Z.to_nat d = Some (char64 d) /\ position (char64 d) CTK64_ALPHABET = Some (Z.to_nat d) /\ char64 d ∈ CTK64_ALPHABET.
Proof.
  intros Hd. destruct (lookup_lt_is_Some_2 CTK64_ALPHABET (Z.to_nat d)) as [c Hc]; [change (length CTK64_ALPHABET) with 64%nat; lia|].
  unfold char64. rewrite Hc. change (default 0 (Some c)) with c. split; [done|]. split; [|by eapply list_elem_of_lookup_2]. apply position_lookup; [decided|done].
Qed.

Lemma low_part_spec v n : (n <= 31)%nat -> low_part v n = v mod 2 ^ Z.of_nat n.
Proof.
  intros Hn. unfold low_part. rewrite low_mask_ones by lia. rewrite wrap_small; [apply Z.land_ones; lia|].
  eapply in_width_mono; [|apply in_width_ones]; lia.
Qed.

Lemma push_digit_ok base v d : 0 <= v -> 0 <= d -> 0 <= base -> v * base + d < 2 ^ 32 -> push_digit base v d = Ok (v * base + d).
Proof.
  intros Hv Hd Hb H. unfold push_digit. rewrite (proj2 (checked_mul_Some 32 v base (v * base))) by (split; [lia|done]). cbn [mbind option_bind].
  by rewrite (proj2 (checked_add_Some 32 (v * base) d _)) by (split; [lia|done]).
Qed.

Lemma emit_digits_done fuel v n out : (n < 6)%nat -> emit_digits fuel v n out = Ok (v, n, out).
Proof. intros H. destruct fuel; cbn [emit_digits]; by rewrite (proj2 (Nat.ltb_lt _ _)). Qed.

Lemma emit_digits_step n fuel v m out : m = (n + 6)%nat -> (n <= 25)%nat -> 0 <= v < 2 ^ Z.of_nat (n + 6) ->
  emit_digits (S fuel) v m out = emit_digits fuel (v mod 2 ^ Z.of_nat n) n (out ++ [char64 (v / 2 ^ Z.of_nat n)]).
Proof.
  intros -> Hn [Hv1 Hv2]. cbn [emit_digits]. rewrite (proj2 (Nat.ltb_ge _ _)) by lia. cbn zeta. replace (n + 6 - 6)%nat with n by lia. rewrite Z.shiftr_div_pow2 by lia.
  assert (0 <= v / 2 ^ Z.of_nat n < 64) as Hd.
  { split; [apply Z.div_pos; lia|]. apply Z.div_lt_upper_bound; [lia|]. rewrite Nat2Z.inj_add, Z.pow_add_r in Hv2 by lia. lia. }
  rewrite (proj1 (char64_spec _ Hd)). cbn [panic_none ok_or rbind]. by rewrite low_part_spec by lia.
Qed.

Lemma encode_byte_0 out a : in_width 8 a -> encode_byte (0, 0%nat, out) a = Ok (a mod 4, 2%nat, out ++ [char64 (a / 4)]).
Proof.
  intros [H1 H2]. unfold encode_byte. rewrite push_digit_ok by lia. cbn [rbind Nat.add].
  rewrite (emit_digits_step 2) by (done || lia). rewrite emit_digits_done by lia. done.
Qed.

Lemma encode_byte_2 out v b : 0 <= v < 4 -> in_width 8 b -> encode_byte (v, 2%nat, out) b = Ok (b mod 16, 4%nat, out ++ [char64 (v * 16 + b / 16)]).
Proof.
  intros H0 [H1 H2]. unfold encode_byte. rewrite push_digit_ok by lia. cbn [rbind Nat.add].
  rewrite (emit_digits_step 4) by (done || lia || change (2 ^ Z.of_nat (4 + 6)) with 1024; lia). rewrite emit_digits_done by lia. change (2 ^ Z.of_nat 4) with 16.
  replace (v * 256 + b) with (b + v * 16 * 16) by lia. rewrite Z.mod_add, Z.div_add by lia. do 4 f_equal. f_equal. lia.
Qed.

Lemma encode_byte_4 out v c : 0 <= v < 16 -> in_width 8 c -> encode_byte (v, 4%nat, out) c = Ok (0, 0%nat, out ++ [char64 (v * 4 + c / 64); char64 (c mod 64)]).
Proof.
  intros H0 [H1 H2]. unfold encode_byte. rewrite push_digit_ok by lia. cbn [rbind Nat.add].
  rewrite (emit_digits_step 6) by (done || lia || change (2 ^ Z.of_nat (6 + 6)) with 4096; lia). change (2 ^ Z.of_nat 6) with 64.
  replace (v * 256 + c) with (c + v * 4 * 64) by lia. rewrite Z.mod_add, Z.div_add by lia.
  pose proof (Z.mod_pos_bound c 64 ltac:(lia)). rewrite (emit_digits_step 0) by (done || lia || change (2 ^ Z.of_nat (0 + 6)) with 64; lia). rewrite emit_digits_done by lia.
  change (2 ^ Z.of_nat 0) with 1. rewrite Z.mod_1_r, Z.div_1_r, <- app_assoc. cbn [app]. do 4 f_equal. f_equal. lia.
Qed.

Lemma shl_small v k : 0 <= v < 16 -> 0 <= k < 16 -> shl 32 v k = v * 2 ^ k.
Proof.
  intros Hv Hk. unfold shl. rewrite Z.mod_small by lia. rewrite Z.shiftl_mul_pow2 by lia. rewrite Z.land_ones by lia. apply Z.mod_small. split; [lia|].
  assert (2 ^ k <= 2 ^ 16) by (apply Z.pow_le_mono_r; lia). nia.
Qed.

Definition encode_finish (state : Z * nat * list Z) : Result CtkFailure (list Z) :=
  let '(value, bit_count, output) := state in
  if (0 <? bit_count)%nat then
    let? c := panic_none (CTK64_ALPHABET !! Z.to_nat (shl 32 value (Z.of_nat (6 - bit_count)))) in
    Ok (output ++ [c])
  else Ok output.

Lemma encode_ctk64_from bytes out : Forall (in_width 8) bytes -> rbind (rfold encode_byte (0, 0%nat, out) bytes) encode_finish = Ok (out ++ ctk64_chars bytes).
Proof.
  revert out. induction bytes as [|a|a b|a b c l IH] using list_ind3; intros out Hb.
  - cbn. by rewrite app_nil_r.
  - apply Forall_cons in Hb as [Ha _]. cbn [rfold]. rewrite encode_byte_0 by done. cbn [rbind encode_finish]. change (0 <? 2)%nat with true. cbn iota.
    pose proof (Z.mod_pos_bound a 4 ltac:(lia)). rewrite shl_small by (simpl; lia). change (2 ^ Z.of_nat (6 - 2)) with 16.
    rewrite (proj1 (char64_spec (a mod 4 * 16) ltac:(lia))). cbn [panic_none ok_or rbind]. by rewrite <- app_assoc.
  - apply Forall_cons in Hb as [Ha Hb]. apply Forall_cons in Hb as [Hb _]. pose proof (Z.mod_pos_bound a 4 ltac:(lia)). pose proof (Z.mod_pos_bound b 16 ltac:(lia)).
    cbn [rfold]. rewrite encode_byte_0 by done. cbn [rbind]. rewrite encode_byte_2 by done. cbn [rbind encode_finish]. change (0 <? 4)%nat with true. cbn iota.
    rewrite shl_small by (simpl; lia). change (2 ^ Z.of_nat (6 - 4)) with 4. rewrite (proj1 (char64_spec (b mod 16 * 4) ltac:(lia))). cbn [panic_none ok_or rbind]. by rewrite <- !app_assoc.
  - apply Forall_cons in Hb as [Ha Hb]. apply Forall_cons in Hb as [Hb Hc]. apply Forall_cons in Hc as [Hc Hl]. pose proof (Z.mod_pos_bound a 4 ltac:(lia)). pose proof (Z.mod_pos_bound b 16 ltac:(lia)).
    cbn [rfold]. rewrite encode_byte_0 by done. cbn [rbind]. rewrite encode_byte_2 by done. cbn [rbind]. rewrite encode_byte_4 by done. cbn [rbind]. rewrite IH by done. cbn [ctk64_chars]. by rewrite <- !app_assoc.
Qed.

Lemma encode_ctk64_spec bytes : Forall (in_width 8) bytes -> encode_ctk64 bytes = Ok (ctk64_chars bytes).
Proof. intros H. exact (encode_ctk64_from bytes [] H). Qed.

Lemma emit_bytes_done fuel v n out : (n < 8)%nat -> emit_bytes fuel v n out = Ok (v, n, out).
Proof. intros H. destruct fuel; cbn [emit_bytes]; by rewrite (proj2 (Nat.ltb_lt _ _)). Qed.

Lemma emit_bytes_step fuel v n out : (n <= 23)%nat -> 0 <= v < 2 ^ Z.of_nat (n + 8) ->
  emit_bytes (S fuel) v (n + 8) out = emit_bytes fuel (v mod 2 ^ Z.of_nat n) n (out ++ [v / 2 ^ Z.of_nat n]).
Proof.
  intros Hn [Hv1 Hv2]. cbn [emit_bytes]. rewrite (proj2 (Nat.ltb_ge _ _)) by lia. cbn zeta. replace (n + 8 - 8)%nat with n by lia. rewrite Z.shiftr_div_pow2 by lia.
  rewrite low_part_spec by lia. rewrite wrap_small; [done|]. split; [apply Z.div_pos; lia|]. apply Z.div_lt_upper_bound; [lia|]. rewrite Nat2Z.inj_add, Z.pow_add_r in Hv2 by lia. lia.
Qed.

Lemma pow2_below n m : (n <= m)%nat -> 0 < 2 ^ Z.of_nat n <= 2 ^ Z.of_nat m.
Proof. intros H. split; [lia|apply Z.pow_le_mono_r; lia]. Qed.

(** One character: the accumulator stays below eight bits. *)
Lemma decode_char_low v n out d : (n < 2)%nat -> 0 <= v < 2 ^ Z.of_nat n -> 0 <= d < 64 ->
  decode_char (v, n, out) (char64 d) = Ok (v * 64 + d, (n + 6)%nat, out).
Proof.
  intros Hn Hv Hd. unfold decode_char. rewrite (proj1 (proj2 (char64_spec d Hd))). cbn [ok_or rbind]. rewrite Z2Nat.id by lia. pose proof (pow2_below n 2 ltac:(lia)). change (2 ^ Z.of_nat 2) with 4 in *.
  rewrite push_digit_ok by lia. cbn [rbind]. by rewrite emit_bytes_done by lia.
Qed.

Lemma decode_char_high v n out d : (2 <= n < 8)%nat -> 0 <= v < 2 ^ Z.of_nat n -> 0 <= d < 64 ->
  decode_char (v, n, out) (char64 d) = Ok ((v * 64 + d) mod 2 ^ Z.of_nat (n - 2), (n - 2)%nat, out ++ [(v * 64 + d) / 2 ^ Z.of_nat (n - 2)]).
Proof.
  intros Hn Hv Hd. unfold decode_char. rewrite (proj1 (proj2 (char64_spec d Hd))). cbn [ok_or rbind]. rewrite Z2Nat.id by lia. pose proof (pow2_below n 8 ltac:(lia)). change (2 ^ Z.of_nat 8) with 256 in *.
  rewrite push_digit_ok by lia. cbn [rbind]. replace (n + 6)%nat with ((n - 2) + 8)%nat at 2 by lia. replace (n + 6)%nat with (S (n + 5)) by lia. rewrite emit_bytes_step; [|lia|].
  - by rewrite emit_bytes_done by lia.
  - replace (n - 2 + 8)%nat with (n + 6)%nat by lia. rewrite Nat2Z.inj_add, Z.pow_add_r by lia. change (2 ^ Z.of_nat 6) with 64. lia.
Qed.

Lemma group_first out a d : in_width 8 a -> 0 <= d < 16 ->
  rfold decode_char (0, 0%nat, out) [char64 (a / 4); char64 (a mod 4 * 16 + d)] = Ok (d, 4%nat, out ++ [a]).
Proof.
  intros [H1 H2] Hd. pose proof (Z.mod_pos_bound a 4 ltac:(lia)). assert (0 <= a / 4 < 64) by (split; [apply Z.div_pos|apply Z.div_lt_upper_bound]; lia).
  cbn [rfold]. rewrite decode_char_low by (simpl; lia). cbn [rbind Nat.add]. rewrite Z.mul_0_l, Z.add_0_l. rewrite decode_char_high by (try change (2 ^ Z.of_nat 6) with 64; lia).
  cbn [rbind]. change (2 ^ Z.of_nat (6 - 2)) with 16. replace (a / 4 * 64 + (a mod 4 * 16 + d)) with (d + a * 16) by (pose proof (Z.div_mod a 4 ltac:(lia)); lia).
  rewrite Z.mod_add, Z.div_add, Z.mod_small, Z.div_small by lia. done.
Qed.

Lemma group_second out b d : in_width 8 b -> 0 <= d < 4 -> decode_char (b / 16, 4%nat, out) (char64 (b mod 16 * 4 + d)) = Ok (d, 2%nat, out ++ [b]).
Proof.
  intros [H1 H2] Hd. pose proof (Z.mod_pos_bound b 16 ltac:(lia)). assert (0 <= b / 16 < 16) by (split; [apply Z.div_pos|apply Z.div_lt_upper_bound]; lia).
  rewrite decode_char_high by (try change (2 ^ Z.of_nat 4) with 16; lia). change (2 ^ Z.of_nat (4 - 2)) with 4.
  replace (b / 16 * 64 + (b mod 16 * 4 + d)) with (d + b * 4) by (pose proof (Z.div_mod b 16 ltac:(lia)); lia).
  rewrite Z.mod_add, Z.div_add, Z.mod_small, Z.div_small by lia. done.
Qed.

Lemma group_third out c : in_width 8 c -> decode_char (c / 64, 2%nat, out) (char64 (c mod 64)) = Ok (0, 0%nat, out ++ [c]).
Proof.
  intros [H1 H2]. pose proof (Z.mod_pos_bound c 64 ltac:(lia)). assert (0 <= c / 64 < 4) by (split; [apply Z.div_pos|apply Z.div_lt_upper_bound]; lia).
  rewrite decode_char_high by (try change (2 ^ Z.of_nat 2) with 4; lia). change (2 ^ Z.of_nat (2 - 2)) with 1.
  rewrite Z.mod_1_r, Z.div_1_r. replace (c / 64 * 64 + c mod 64) with c by (pose proof (Z.div_mod c 64 ltac:(lia)); lia). done.
Qed.

Lemma rfold_app {S X} (f : S -> X -> Result CtkFailure S) s xs ys : rfold f s (xs ++ ys) = rbind (rfold f s xs) (fun s' => rfold f s' ys).
Proof. revert s. induction xs as [|x xs IH]; intros s; [done|]. cbn [app rfold]. destruct (f s x); [apply IH|done]. Qed.

Lemma decode_chars bytes out : Forall (in_width 8) bytes -> exists n, rfold decode_char (0, 0%nat, out) (ctk64_chars bytes) = Ok (0, n, out ++ bytes).
Proof.
  assert (forall a, in_width 8 a -> forall k, 0 < k -> 256 <= k * 64 -> 0 <= a / k < 64) as Hdiv by (intros a [H1 H2] k Hk Hm; split; [apply Z.div_pos|apply Z.div_lt_upper_bound]; lia).
  revert out. induction bytes as [|a|a b|a b c l IH] using list_ind3; intros out Hb.
  - exists 0%nat. cbn. by rewrite app_nil_r.
  - apply Forall_cons in Hb as [Ha _]. exists 4%nat. cbn [ctk64_chars]. replace (a mod 4 * 16) with (a mod 4 * 16 + 0) by lia. by rewrite group_first by (done || lia).
  - apply Forall_cons in Hb as [Ha Hb]. apply Forall_cons in Hb as [Hb _]. exists 2%nat. cbn [ctk64_chars].
    assert (0 <= b / 16 < 16) by (destruct Hb; split; [apply Z.div_pos|apply Z.div_lt_upper_bound]; lia).
    change [?x; ?y; ?z] with ([x; y] ++ [z]). rewrite rfold_app, group_first by done. cbn [rbind rfold]. replace (b mod 16 * 4) with (b mod 16 * 4 + 0) by lia.
    rewrite group_second by (done || lia). cbn [rbind]. by rewrite <- app_assoc.
  - apply Forall_cons in Hb as [Ha Hb]. apply Forall_cons in Hb as [Hb Hc]. apply Forall_cons in Hc as [Hc Hl].
    assert (0 <= b / 16 < 16) by (destruct Hb; split; [apply Z.div_pos|apply Z.div_lt_upper_bound]; lia).
    assert (0 <= c / 64 < 4) by (destruct Hc; split; [apply Z.div_pos|apply Z.div_lt_upper_bound]; lia).
    destruct (IH (out ++ [a; b; c]) Hl) as [n Hn]. exists n. cbn [ctk64_chars]. change ([?x; ?y; ?z; ?t] ++ ?r) with ([x; y] ++ z :: t :: r). rewrite rfold_app, group_first by done.
    cbn [rbind rfold]. rewrite group_second by done. cbn [rbind]. rewrite group_third by done. cbn [rbind]. rewrite <- !app_assoc. cbn [app]. rewrite Hn. by rewrite <- app_assoc.
Qed.

Lemma length_ctk64_chars bytes : Z.of_nat (length (ctk64_chars bytes)) = (8 * Z.of_nat (length bytes) + 5) / 6 /\ (length (ctk64_chars bytes) mod 4 <> 1)%nat.
Proof.
  induction bytes as [|a|a b|a b c l [IH1 IH2]] using list_ind3; [by split..|]. cbn [ctk64_chars]. rewrite length_app. cbn [length]. split.
  - rewrite Nat2Z.inj_add, IH1. replace (8 * Z.of_nat (S (S (S (length l)))) + 5) with (8 * Z.of_nat (length l) + 5 + 4 * 6) by lia. rewrite Z.div_add by lia. lia.
  - replace (4 + length (ctk64_chars l))%nat with (length (ctk64_chars l) + 1 * 4)%nat by lia. by rewrite Nat.Div0.mod_add.
Qed.

Lemma elem_of_ctk64_chars bytes : Forall (in_width 8) bytes -> Forall (fun c => c ∈ CTK64_ALPHABET) (ctk64_chars bytes).
Proof.
  assert (forall d, 0 <= d < 64 -> char64 d ∈ CTK64_ALPHABET) as Hd by (intros d Hd; by apply char64_spec).
  induction bytes as [|a|a b|a b c l IH] using list_ind3; intros Hb; cbn [ctk64_chars app]; [apply Forall_nil_2|..];
    repeat (let H := fresh in apply Forall_cons in Hb as [H Hb]; destruct H);
    repeat (apply Forall_cons_2; [apply Hd; Z.to_euclidean_division_equations; lia|]); [apply Forall_nil_2..|by apply IH].
Qed.

(** What the payload of a value must be for the transport to accept it. *)
Definition payload_ok (bytes : list Z) : Prop := bytes <> [] /\ Z.of_nat (length bytes) <= MAX_PAYLOAD_BYTES /\ Forall (in_width 8) bytes.

Lemma ctk64_chars_nil bytes : ctk64_chars bytes = [] -> bytes = [].
Proof. by destruct bytes as [|a [|b [|c l]]]. Qed.

Lemma validate_ctk64_chars bytes : payload_ok bytes -> validate_exact_alphabet (ctk64_chars bytes) Ctk64 = Ok tt.
Proof.
  intros (Hne & Hl & Hb). destruct (length_ctk64_chars bytes) as [L1 L2]. unfold validate_exact_alphabet. cbn zeta.
  rewrite bool_decide_false by (intros H%ctk64_chars_nil; done). rewrite (proj2 (Nat.eqb_neq _ _) L2). rewrite L1.
  rewrite (proj2 (Z.ltb_ge _ _)) by (unfold MAX_CTK64_CHARACTERS, MAX_PAYLOAD_BYTES in *; apply Z.lt_succ_r, Z.div_lt_upper_bound; lia). cbn [orb].
  replace (existsb _ _) with false; [done|]. symmetry. apply not_true_iff_false. intros (c & Hc & H)%existsb_exists. apply list_elem_of_In in Hc.
  pose proof (elem_of_ctk64_chars bytes Hb) as He. rewrite Forall_forall in He. rewrite bool_decide_true in H by (by apply He). done.
Qed.

Lemma decode_ctk64_chars bytes : payload_ok bytes -> decode_ctk64 (ctk64_chars bytes) = Ok bytes.
Proof.
  intros Hok. pose proof Hok as (Hne & Hl & Hb). unfold decode_ctk64. rewrite validate_ctk64_chars by done. cbn [rbind].
  destruct (decode_chars bytes [] Hb) as [n ->]. cbn [rbind app Z.eqb negb]. rewrite encode_ctk64_spec by done. cbn [rbind]. by rewrite bool_decide_true.
Qed.

(** ** What the transport decoders can return *)

Lemma no_panic_bind {A B} (c : Result CtkFailure A) (k : A -> Result CtkFailure B) (P : A -> Prop) (Q : B -> Prop) :
  no_panic c P -> (forall a, P a -> no_panic (k a) Q) -> no_panic (rbind c k) Q.
Proof. destruct c as [a|[]]; cbn; auto. Qed.

Lemma no_panic_weaken {A} (c : Result CtkFailure A) (P Q : A -> Prop) : no_panic c P -> (forall a, P a -> Q a) -> no_panic c Q.
Proof. destruct c as [a|[]]; cbn; auto. Qed.

Lemma no_panic_or_fail {A} (o : option A) e (Q : A -> Prop) : (forall a, o = Some a -> Q a) -> no_panic (ok_or o (Failed e)) Q.
Proof. destruct o as [a|]; cbn; auto. Qed.

Lemma rfold_post {S X} (f : S -> X -> Result CtkFailure S) (I : S -> Prop) xs s :
  (forall s x, I s -> no_panic (f s x) I) -> I s -> no_panic (rfold f s xs) I.
Proof. intros Hf. revert s. induction xs as [|x xs IH]; intros s Hs; [done|]. cbn [rfold]. eapply no_panic_bind; [by apply Hf|]. auto. Qed.

Lemma validate_post payload transport : no_panic (validate_exact_alphabet payload transport) (fun _ => True).
Proof. unfold validate_exact_alphabet. cbn zeta. by destruct (_ || _). Qed.

Definition decode_state_ok (state : Z * nat * list Z) : Prop :=
  let '(value, bit_count, bytes) := state in (bit_count < 8)%nat /\ 0 <= value < 2 ^ Z.of_nat bit_count /\ Forall (in_width 8) bytes.

Lemma decode_char_post state byte : decode_state_ok state -> no_panic (decode_char state byte) decode_state_ok.
Proof.
  destruct state as [[v n] out]. intros (Hn & Hv & Hout). destruct (position byte CTK64_ALPHABET) as [i|] eqn:E; [|unfold decode_char; by rewrite E].
  pose proof (position_Some _ _ _ E) as Hi. pose proof (lookup_lt_Some _ _ _ Hi) as Hlt. change (length CTK64_ALPHABET) with 64%nat in Hlt.
  assert (byte = char64 (Z.of_nat i)) as -> by (unfold char64; by rewrite Nat2Z.id, Hi). destruct (decide (n < 2)%nat) as [Hlow|Hhigh].
  - rewrite decode_char_low by (done || lia). cbn. split; [lia|]. split; [|done]. rewrite Nat2Z.inj_add, Z.pow_add_r by lia. change (2 ^ Z.of_nat 6) with 64. lia.
  - rewrite decode_char_high by (done || lia). cbn. split; [lia|]. pose proof (pow2_below (n - 2) 6 ltac:(lia)). split; [apply Z.mod_pos_bound; lia|].
    apply Forall_app. split; [done|]. apply Forall_singleton. split; [apply Z.div_pos; lia|]. apply Z.div_lt_upper_bound; [lia|].
    replace n with (2 + (n - 2))%nat in Hv by lia. rewrite Nat2Z.inj_add, Z.pow_add_r in Hv by lia. change (2 ^ Z.of_nat 2) with 4 in Hv. lia.
Qed.

Lemma decode_ctk64_post encoded : no_panic (decode_ctk64 encoded) (Forall (in_width 8)).
Proof.
  unfold decode_ctk64. eapply no_panic_bind; [apply validate_post|]. intros _ _.
  eapply no_panic_bind; [apply (rfold_post _ decode_state_ok); [intros; by apply decode_char_post|split; [lia|split; [simpl; lia|constructor]]]|].
  intros [[v n] out] (_ & _ & Hout). destruct (negb _); [done|]. rewrite encode_ctk64_spec by done. cbn [rbind]. by destruct (negb _).
Qed.

Lemma be_bytes_ok count value : Forall (in_width 8) (be_bytes count value).
Proof. apply Forall_fmap, Forall_forall. intros i _. cbn. change 255 with (Z.ones 8). rewrite Z.land_ones by lia. apply Z.mod_pos_bound. lia. Qed.

Lemma decode_ctk85_post encoded : no_panic (decode_ctk85 encoded) (Forall (in_width 8)).
Proof.
  assert (forall block, no_panic (decode_ctk85_value block) (fun _ => True)) as Hv.
  { intros block. apply rfold_post; [|done]. intros v b _. unfold ctk85_digit. eapply (no_panic_bind _ _ (fun _ => True)); [by apply no_panic_or_fail|]. intros d _. by apply no_panic_or_fail. }
  unfold decode_ctk85. eapply no_panic_bind; [apply validate_post|]. intros _ _. cbn zeta. eapply no_panic_bind; [apply (rfold_post _ (Forall (in_width 8))); [|constructor]|].
  { intros bytes block Hb. unfold decode_ctk85_block. eapply no_panic_bind; [apply Hv|]. intros v _. destruct (_ <? _); [done|]. cbn [no_panic]. apply Forall_app. split; [done|apply be_bytes_ok]. }
  intros bytes Hb. destruct (0 <? _)%nat; [|done]. eapply no_panic_bind; [apply Hv|]. intros v _. destruct (_ <=? _); [done|]. cbn [no_panic]. apply Forall_app. split; [done|apply be_bytes_ok].
Qed.

Lemma decode_payload_post transport encoded : no_panic (decode_payload transport encoded) (Forall (in_width 8)).
Proof. destruct transport; [apply decode_ctk64_post|apply decode_ctk85_post]. Qed.

Lemma in_width_lxor w x y : 0 <= w -> in_width w x -> in_width w y -> in_width w (Z.lxor x y).
Proof.
  intros Hw [Hx1 Hx2] [Hy1 Hy2]. apply in_width_of_bits; [done|by apply Z.lxor_nonneg|]. intros i Hi. rewrite Z.lxor_spec, !(in_width_testbit w) by (done || by split). done.
Qed.

Lemma crc16_width bytes : Forall (in_width 8) bytes -> in_width 16 (crc16 bytes).
Proof.
  assert (forall crc, in_width 16 crc -> in_width 16 (crc_shift crc)) as Hs.
  { intros crc [H1 H2]. unfold crc_shift. destruct (negb _); [apply in_width_lxor; [lia|by apply in_width_shl|by split]|by apply in_width_shl]. }
  unfold crc16. assert (in_width 16 65535) as H0 by (by split). revert H0. generalize 65535. induction bytes as [|b bytes IH]; intros crc Hc Hb; [done|]. apply Forall_cons in Hb as [[Hb1 Hb2] Hb].
  cbn [foldl]. apply IH; [|done]. assert (in_width 16 (Z.lxor crc (shl 16 b 8))) as Hx by (apply in_width_lxor; [lia|done|by apply in_width_shl]).
  revert Hx. generalize (Z.lxor crc (shl 16 b 8)). intros x Hx. cbn [Nat.iter]. by do 8 apply Hs.
Qed.

(** ** Values without an envelope *)

Definition graphic (b : Z) : Prop := 33 <= b <= 126.

(** No white space starts or ends with a graphic byte. *)
Lemma not_stripped characters b bytes : Forall (fun w => exists c w', w = c :: w' /\ ~ graphic c) characters -> graphic b ->
  forall fuel, trim_front fuel characters (b :: bytes) = b :: bytes.
Proof.
  intros Hc Hb fuel. destruct fuel as [|fuel]; [done|]. cbn [trim_front]. destruct (List.find _ _) as [w|] eqn:E; [|done]. apply find_some in E as [Hw E]. apply list_elem_of_In in Hw.
  rewrite Forall_forall in Hc. destruct (Hc w Hw) as (c & w' & -> & Hg). unfold strips in E. apply bool_decide_eq_true in E. cbn [length take] in E. by injection E as -> _.
Qed.

#[export] Instance graphic_dec b : Decision (graphic b).
Proof. unfold graphic. apply _. Defined.

Lemma check_characters (l : list (list Z)) : forallb (fun w => match w with c :: _ => negb (bool_decide (graphic c)) | [] => false end) l = true ->
  Forall (fun w => exists c w', w = c :: w' /\ ~ graphic c) l.
Proof.
  intros H. apply Forall_forall. intros w Hw. rewrite forallb_forall in H. specialize (H w (proj1 (list_elem_of_In _ _) Hw)). destruct w as [|c w]; [done|]. exists c, w. split; [done|].
  by case_bool_decide.
Qed.

Lemma whitespace_front : Forall (fun w => exists c w', w = c :: w' /\ ~ graphic c) whitespace.
Proof. by apply check_characters. Qed.

Lemma whitespace_back : Forall (fun w => exists c w', w = c :: w' /\ ~ graphic c) (reverse <$> whitespace).
Proof. by apply check_characters. Qed.

Lemma trim_graphic bytes : bytes <> [] -> Forall graphic bytes -> trim bytes = bytes.
Proof.
  intros Hne Hg. unfold trim. cbn zeta. rewrite Forall_forall in Hg.
  assert (trim_front (length bytes) whitespace bytes = bytes) as ->.
  { destruct bytes as [|b bytes]; [done|]. apply not_stripped; [apply whitespace_front|apply Hg; left]. }
  destruct (reverse bytes) as [|b rest] eqn:E.
  - apply (f_equal reverse) in E. rewrite reverse_involutive in E. done.
  - rewrite not_stripped; [rewrite <- E; apply reverse_involutive|apply whitespace_back|]. apply Hg. apply elem_of_reverse. rewrite E. left.
Qed.

Lemma alphabet_graphic c : c ∈ CTK64_ALPHABET -> graphic c /\ c <> 46.
Proof.
  intros Hc. assert (Forall (fun c => graphic c /\ c <> 46) CTK64_ALPHABET) as H by decided. rewrite Forall_forall in H. by apply H.
Qed.

(** The text of a payload that the alphabet allows. *)
Definition payload_text (text : list Z) : Prop := text <> [] /\ Forall (fun c => c ∈ CTK64_ALPHABET) text.

Lemma payload_text_graphic text : payload_text text -> Forall graphic text.
Proof. intros [_ H]. eapply Forall_impl; [exact H|]. intros c Hc. by apply alphabet_graphic. Qed.

Lemma graphic_ascii b : graphic b -> byte_in 128 191 b = false.
Proof. intros [H1 H2]. unfold byte_in. apply andb_false_iff. left. apply Z.leb_gt. lia. Qed.

Lemma starts_with_prefix prefix rest : Forall graphic rest -> starts_with_ignore_ascii_case (prefix ++ rest) prefix = true.
Proof.
  intros Hg. unfold starts_with_ignore_ascii_case, is_char_boundary, eq_ignore_ascii_case. rewrite take_app_length, bool_decide_true, andb_true_r by done.
  rewrite lookup_app_r by done. rewrite Nat.sub_diag, length_app. destruct rest as [|b rest]; cbn [lookup list_lookup length]; [rewrite Nat.add_0_r; apply Nat.eqb_refl|].
  apply Forall_cons in Hg as [Hb _]. by rewrite graphic_ascii.
Qed.

Lemma prefixes_graphic : Forall graphic CTK3_PREFIX /\ Forall graphic CTK3_BUNDLE_PREFIX.
Proof. split; decided. Qed.

Lemma trim_value text : Forall graphic text -> trim (CTK3_PREFIX ++ text) = CTK3_PREFIX ++ text.
Proof. intros H. apply trim_graphic; [done|]. apply Forall_app. split; [apply prefixes_graphic|done]. Qed.

Lemma trim_bundle text : Forall graphic text -> trim (CTK3_BUNDLE_PREFIX ++ text) = CTK3_BUNDLE_PREFIX ++ text.
Proof. intros H. apply trim_graphic; [done|]. apply Forall_app. split; [apply prefixes_graphic|done]. Qed.

Lemma extract_exact_value text : payload_text text -> validate_exact_alphabet text Ctk64 = Ok tt -> extract_exact_payload (CTK3_PREFIX ++ text) = Ok (Ctk64, text).
Proof.
  intros Ht Hv. pose proof (payload_text_graphic _ Ht) as Hg. unfold extract_exact_payload. cbn zeta. rewrite trim_value by done. rewrite starts_with_prefix by done.
  rewrite drop_app_length, Hv. done.
Qed.

Lemma value_is_not_bundle text : Forall graphic text -> extract_exact_bundle (CTK3_PREFIX ++ text) = Ok None.
Proof.
  intros Hg. unfold extract_exact_bundle. cbn zeta. rewrite trim_value by done. unfold starts_with_ignore_ascii_case.
  replace (eq_ignore_ascii_case _ _) with false; [by rewrite andb_false_r|]. symmetry. apply bool_decide_eq_false. destruct text as [|b text]; cbn; intros [=].
Qed.

(** [join]. *)
Fixpoint join_dots (parts : list (list Z)) : list Z :=
  match parts with
  | [] => []
  | [part] => part
  | part :: parts => part ++ [46] ++ join_dots parts
  end.

Lemma split_dots_one part : 46 ∉ part -> split_dots part = [part].
Proof.
  induction part as [|b part IH]; intros H; [done|]. cbn [split_dots]. destruct (Z.eqb_spec b 46) as [->|]; [exfalso; apply H; left|]. rewrite IH; [done|]. intros Hp. apply H. by right.
Qed.

Lemma split_dots_app part rest : 46 ∉ part -> split_dots (part ++ 46 :: rest) = part :: split_dots rest.
Proof.
  induction part as [|b part IH]; intros H; [done|]. cbn [app split_dots]. destruct (Z.eqb_spec b 46) as [->|]; [exfalso; apply H; left|]. rewrite IH; [done|]. intros Hp. apply H. by right.
Qed.

Lemma split_join parts : parts <> [] -> Forall (fun part => 46 ∉ part) parts -> split_dots (join_dots parts) = parts.
Proof.
  intros Hne H. induction H as [|part parts Hp H IH]; [done|]. destruct parts as [|q parts]; [by apply split_dots_one|].
  change (join_dots (part :: q :: parts)) with (part ++ 46 :: join_dots (q :: parts)). rewrite split_dots_app by done. by rewrite IH.
Qed.

Lemma join_graphic parts : Forall (Forall graphic) parts -> Forall graphic (join_dots parts).
Proof.
  induction 1 as [|part parts Hp H IH]; [constructor|]. destruct parts as [|q parts]; [done|]. change (join_dots (part :: q :: parts)) with (part ++ [46] ++ join_dots (q :: parts)).
  apply Forall_app. split; [done|]. apply Forall_app. split; [|done]. by apply Forall_singleton.
Qed.

Lemma extract_exact_bundle_join parts : (2 <= length parts)%nat -> Forall payload_text parts -> Forall (fun t => validate_exact_alphabet t Ctk64 = Ok tt) parts ->
  extract_exact_bundle (CTK3_BUNDLE_PREFIX ++ join_dots parts) = Ok (Some parts).
Proof.
  intros Hl Ht Hv. assert (Forall graphic (join_dots parts)) as Hg by (apply join_graphic; eapply Forall_impl; [exact Ht|]; apply payload_text_graphic).
  unfold extract_exact_bundle. cbn zeta. rewrite trim_bundle, starts_with_prefix by done. cbn [negb]. rewrite drop_app_length. unfold bundle_payloads. cbn zeta.
  rewrite split_join; [| |eapply Forall_impl; [exact Ht|]; intros t [_ H] H46; rewrite Forall_forall in H; by destruct (alphabet_graphic 46 (H 46 H46))]; [|by destruct parts; simpl in Hl; [lia|]].
  rewrite (proj2 (Nat.ltb_ge _ _)) by done. replace (validate_all parts) with (Ok (E := CtkFailure) tt); [done|]. unfold validate_all.
  clear -Hv. induction Hv as [|t ts Hv _ IH]; [done|]. cbn [rfold]. rewrite Hv. exact IH.
Qed.

(** ** The transport is canonical *)

Lemma decode_ctk64_inv encoded bytes : decode_ctk64 encoded = Ok bytes -> validate_exact_alphabet encoded Ctk64 = Ok tt /\ encode_ctk64 bytes = Ok encoded.
Proof.
  intros H. unfold decode_ctk64 in H. apply rbind_Ok in H as ([] & Hv & H). apply rbind_Ok in H as ([[v n] out] & _ & H). destruct (negb _); [done|].
  apply rbind_Ok in H as (canonical & Hc & H). case_bool_decide as E; [|done]. cbn [negb] in H. injection H as <-. by subst.
Qed.

(** C27: The text decoder accepts exactly the texts the encoder produces: it
    returns [bytes] for a text if and only if the text is the encoding of
    [bytes], for payloads that are not empty and not over the limit.  So every
    payload has one text, and every accepted text has one payload. *)
Theorem ctk64_canonical (encoded bytes : list Z) :
  decode_ctk64 encoded = Ok bytes <-> payload_ok bytes /\ encode_ctk64 bytes = Ok encoded.
Proof.
  split.
  - intros H. pose proof (decode_ctk64_post encoded) as Hb. rewrite H in Hb. cbn in Hb. destruct (decode_ctk64_inv _ _ H) as [Hv He]. split; [|done]. rewrite encode_ctk64_spec in He by done. apply Ok_inj in He. subst encoded.
    unfold validate_exact_alphabet in Hv. cbn zeta in Hv. destruct (_ || _) eqn:E; [done|]. apply orb_false_iff in E as [E _]. apply orb_false_iff in E as [E _]. apply orb_false_iff in E as [E1%bool_decide_eq_false E2%Z.ltb_ge].
    split; [by intros ->|]. split; [|done]. rewrite (proj1 (length_ctk64_chars bytes)) in E2. unfold MAX_CTK64_CHARACTERS in E2. unfold MAX_PAYLOAD_BYTES.
    pose proof (Z.mod_pos_bound (8 * Z.of_nat (length bytes) + 5) 6 ltac:(lia)). pose proof (Z.div_mod (8 * Z.of_nat (length bytes) + 5) 6 ltac:(lia)). lia.
  - intros [Hok He]. pose proof Hok as (_ & _ & Hb). rewrite encode_ctk64_spec in He by done. apply Ok_inj in He. subst encoded. by apply decode_ctk64_chars.
Qed.
