(* ===== verification/CtkDocument.v ===== *)
(** * Documents and bundles of the CTK3 codec

    The encoders of [clearra-ctk3/src/codec.rs] (whole documents in the
    shortest revision, compact segments, bundles and the incremental bundle
    writer) and the decoders of [clearra-ctk3/src/decoder.rs].

    The writers that take an [impl Write] are defined for any sink: its state
    and its [write_all] are parameters of the section [Sinks]. *)

From Stdlib Require Import ZArith Lia.
From stdpp Require Import prelude strings.
From S2P Require Import Prelude Words CtkBigNat CtkBits CtkCells CtkPages CtkCodec CtkTemporal CtkTransport.

Local Open Scope Z_scope.

Definition CTK3_MAX_BUNDLE_PAGES : Z := 1048576.
Definition MAGIC : Z := 195.
Definition TEMPORAL_SCHEMA_REVISION : Z := 2.
Definition SHARED_FIELD_SCHEMA_REVISION : Z := 3.

(** ** Encoding *)

Definition write_revision (width : nat) (pages : list NormalizedPage) (revision : Z) (shared_field : option SharedFieldPredictor) : Writer :=
  if revision =? COMPACT_SCHEMA_REVISION then write_compact_pages None pages
  else if revision =? TEMPORAL_SCHEMA_REVISION then write_temporal_pages pages width None
  else if revision =? SHARED_FIELD_SCHEMA_REVISION then
    match shared_field with
    | Some shared =>
        write_var_uint (Z.of_nat (sh_height shared)) ;;
        write_best_cell_encoding (sh_codes shared) None 4 true ;;
        write_temporal_pages pages width (Some shared)
    | None => wr_fail (InvalidPayload "shared field is missing")
    end
  else wr_fail (InvalidPayload "schema revision is unsupported").

(** [to_be_bytes] of a [u16]. *)
Definition be_u16 (x : Z) : list Z := [Z.shiftr x 8; Z.land x 255].

(** The width of a document is at least one here. *)
Definition encode_normalized (width : nat) (pages : list NormalizedPage) (revision : Z) (shared_field : option SharedFieldPredictor) :
    Result CtkFailure (Z * list Z) :=
  let? writer :=
    (write_bits MAGIC 8 ;; write_bits revision 3 ;; write_bits (Z.of_nat (width - 1)) 5 ;;
     write_var_uint (Z.of_nat (length pages)) ;; wr_bit false ;;
     write_revision width pages revision shared_field) BitWriter_default in
  let body := w_bytes writer in
  let? payload_size := ok_or (checked_add 64 (Z.of_nat (length body)) 2) (Failed IntegerOverflow) in
  if MAX_PAYLOAD_BYTES <? payload_size then fail (PayloadTooLarge (Z.to_nat payload_size))
  else Ok (revision, body ++ be_u16 (crc16 body)).

(** The candidate kept by the loop of [encode_ctk3]. *)
Fixpoint select_payload (selected : Z * list Z) (candidates : list (Z * list Z)) : Z * list Z :=
  match candidates with
  | [] => selected
  | c :: candidates =>
      select_payload
        (if (length (snd c) <? length (snd selected))%nat || ((length (snd c) =? length (snd selected))%nat && (fst c <? fst selected)) then c else selected)
        candidates
  end.

Definition segment_text (payload : list Z) : Result CtkFailure (list Z) :=
  let? text := encode_ctk64 payload in Ok (CTK3_PREFIX ++ text).

Definition encode_ctk3 (document : Ctk3Document) : Result CtkFailure (list Z) :=
  let? pages := normalize_document document in
  let? compact := encode_normalized (doc_width document) pages COMPACT_SCHEMA_REVISION None in
  let? temporal := encode_normalized (doc_width document) pages TEMPORAL_SCHEMA_REVISION None in
  let? candidates :=
    match build_shared_field pages (doc_width document) with
    | Some shared =>
        let? c := encode_normalized (doc_width document) pages SHARED_FIELD_SCHEMA_REVISION (Some shared) in Ok [temporal; c]
    | None => Ok [temporal]
    end in
  segment_text (snd (select_payload compact candidates)).

Definition encode_ctk3_compact (document : Ctk3Document) : Result CtkFailure (list Z) :=
  let? pages := normalize_document document in
  let? encoded := encode_normalized (doc_width document) pages COMPACT_SCHEMA_REVISION None in
  segment_text (snd encoded).

(** ** Decoding *)

Definition read_shared (width : nat) (revision : Z) : Reader (option (list Z)) :=
  if revision =? SHARED_FIELD_SCHEMA_REVISION then
    let* height := read_var_uint in
    if (height =? 0) || (Z.of_nat MAX_HEIGHT <? height) then rd_lift (invalid "shared field height is invalid")
    else
      let* _ := rd_lift (ok_or (checked_mul 64 (Z.of_nat width) height) (Failed IntegerOverflow)) in
      let* codes := read_cell_encoding (width * Z.to_nat height) None 4 in
      rd_ret (Some codes)
  else rd_ret None.

Definition read_revision (width page_count : nat) (revision : Z) : Reader (list NormalizedPage) :=
  if (revision =? TEMPORAL_SCHEMA_REVISION) || (revision =? SHARED_FIELD_SCHEMA_REVISION) then
    let* shared := read_shared width revision in
    read_temporal_pages width page_count shared
  else read_linear_pages width page_count revision.

(** The document in the body of a payload. *)
Definition read_document : Reader (nat * list NormalizedPage) :=
  let* magic := read_bits 8 in
  if negb (magic =? MAGIC) then rd_lift (invalid "payload header is invalid")
  else
    let* revision := read_bits 3 in
    if negb (bool_decide (revision ∈ [LEGACY_SCHEMA_REVISION; COMPACT_SCHEMA_REVISION; TEMPORAL_SCHEMA_REVISION; SHARED_FIELD_SCHEMA_REVISION]))
    then rd_lift (invalid "schema revision is unsupported")
    else
      let* w := read_bits 5 in
      let width := (Z.to_nat w + 1)%nat in
      if (width =? 0)%nat || (MAX_WIDTH <? width)%nat then rd_lift (fail (InvalidWidth width))
      else
        let* page_count := read_var_uint in
        if (page_count =? 0) || (CTK3_MAX_SEGMENT_PAGES <? page_count) then rd_lift (fail (InvalidPageCount page_count))
        else
          let* extension := read_bit in
          if (extension : bool) then rd_lift (invalid "extension block is unsupported")
          else
            let* normalized := read_revision width (Z.to_nat page_count) revision in
            let* _ := assert_zero_padding in
            rd_ret (width, normalized).

(** [iter().map(normalized_to_page).collect()]. *)
Fixpoint normalized_to_pages (pages : list NormalizedPage) : Result CtkFailure (list Ctk3Page) :=
  match pages with
  | [] => Ok []
  | page :: pages =>
      let? p := normalized_to_page page in
      let? ps := normalized_to_pages pages in
      Ok (p :: ps)
  end.

Definition decode_single_payload (transport : Transport) (encoded : list Z) : Result CtkFailure Ctk3Document :=
  let? payload := decode_payload transport encoded in
  if (length payload <? 4)%nat || (MAX_PAYLOAD_BYTES <? Z.of_nat (length payload)) then invalid "payload length is invalid"
  else
    let body_len := (length payload - 2)%nat in
    let body := take body_len payload in
    let? hi := panic_none (payload !! body_len) in
    let? lo := panic_none (payload !! (body_len + 1)%nat) in
    if negb (crc16 body =? hi * 256 + lo) then invalid "checksum does not match"
    else
      let? result := read_document (BitReader_new body) in
      let '(width, normalized) := fst result in
      let? pages := normalized_to_pages normalized in
      Ok (mkDocument width pages).

(** The loop of [decode_bundle_payloads]: the width and pages so far. *)
Fixpoint decode_segments (index : nat) (width : option nat) (pages : list Ctk3Page) (payloads : list (list Z)) :
    Result CtkFailure (option nat * list Ctk3Page) :=
  match payloads with
  | [] => Ok (width, pages)
  | payload :: payloads =>
      let? document := decode_single_payload Ctk64 payload in
      if bool_decide (width = None) || bool_decide (width = Some (doc_width document)) then
        if CTK3_MAX_BUNDLE_PAGES - Z.of_nat (length pages) <? Z.of_nat (length (doc_pages document)) then fail BundlePageLimitExceeded
        else decode_segments (index + 1) (Some (doc_width document)) (pages ++ doc_pages document) payloads
      else fail (BundleWidthMismatch index)
  end.

Definition decode_bundle_payloads (payloads : list (list Z)) : Result CtkFailure Ctk3Document :=
  if CTK3_MAX_BUNDLE_PAGES <? Z.of_nat (length payloads) then fail BundlePageLimitExceeded
  else
    let? state := decode_segments 0 None [] payloads in
    let? width := ok_or (fst state) (Failed (InvalidPayload "bundle is empty")) in
    Ok (mkDocument width (snd state)).

Definition decode_ctk3_exact (input : list Z) : Result CtkFailure Ctk3Document :=
  let? bundle := extract_exact_bundle input in
  match bundle with
  | Some payloads => decode_bundle_payloads payloads
  | None => let? found := extract_exact_payload input in decode_single_payload (fst found) (snd found)
  end.

Definition decode_ctk3 (input : list Z) : Result CtkFailure Ctk3Document :=
  let? bundle := extract_compatible_bundle input in
  match bundle with
  | Some payloads => decode_bundle_payloads payloads
  | None => let? found := extract_compatible_payload input in decode_single_payload (fst found) (snd found)
  end.

(** The second extraction runs only when the first found no bundle. *)
Definition decode_ctk3_segment (input : list Z) : Result CtkFailure Ctk3Document :=
  let? exact := extract_exact_bundle input in
  let? bundled :=
    match exact with
    | Some _ => Ok true
    | None => let? compatible := extract_compatible_bundle input in Ok (is_some compatible)
    end in
  if (bundled : bool) then invalid "a segment cannot contain a bundle"
  else let? found := extract_exact_payload input in decode_single_payload (fst found) (snd found).

Record Ctk3DocumentInfo := mkInfo {
  info_width : nat; info_page_count : Z; info_segment_count : nat; info_segment_page_counts : list nat; info_bundled : bool
}.

Fixpoint inspect_segments (index : nat) (width : option nat) (page_count : Z) (counts : list nat) (payloads : list (list Z)) :
    Result CtkFailure (option nat * Z * list nat) :=
  match payloads with
  | [] => Ok (width, page_count, counts)
  | payload :: payloads =>
      let? document := decode_single_payload Ctk64 payload in
      if bool_decide (width = None) || bool_decide (width = Some (doc_width document)) then
        let? page_count := ok_or (checked_add 64 page_count (Z.of_nat (length (doc_pages document)))) (Failed IntegerOverflow) in
        if CTK3_MAX_BUNDLE_PAGES <? page_count then fail BundlePageLimitExceeded
        else inspect_segments (index + 1) (Some (doc_width document)) page_count (counts ++ [length (doc_pages document)]) payloads
      else fail (BundleWidthMismatch index)
  end.

Definition inspect_ctk3_exact (input : list Z) : Result CtkFailure Ctk3DocumentInfo :=
  let? bundle := extract_exact_bundle input in
  match bundle with
  | Some payloads =>
      let? state := inspect_segments 0 None 0 [] payloads in
      let '(width, page_count, counts) := state in
      let? width := ok_or width (Failed (InvalidPayload "bundle is empty")) in
      Ok (mkInfo width page_count (length payloads) counts true)
  | None =>
      let? document := decode_ctk3_exact input in
      Ok (mkInfo (doc_width document) (Z.of_nat (length (doc_pages document))) 1 [length (doc_pages document)] false)
  end.

Definition split_ctk3_segments (input : list Z) : Result CtkFailure (list (list Z)) :=
  let? bundle := extract_exact_bundle input in
  match bundle with
  | Some payloads => Ok ((fun payload => CTK3_PREFIX ++ payload) <$> payloads)
  | None =>
      let source := trim input in
      let? _ := decode_ctk3_segment source in
      Ok [source]
  end.

(** ** Bundles *)

(** [map_err(|_| InvalidBundleSegment)]: a panic is not an error value. *)
Definition bundle_segment_error {A} (index : nat) (c : Result CtkFailure A) : Result CtkFailure A :=
  rmap_err (fun e => match e with Failed _ => Failed (InvalidBundleSegment index) | CtkPanic => CtkPanic end) c.

(** The loop both bundle encoders run: the payload texts of the segments. *)
Fixpoint bundle_loop (index : nat) (width : option nat) (page_count : Z) (payloads : list (list Z)) (segments : list (list Z)) :
    Result CtkFailure (list (list Z)) :=
  match segments with
  | [] => Ok payloads
  | segment :: segments =>
      let? found := bundle_segment_error index (extract_exact_payload segment) in
      if negb (bool_decide (fst found = Ctk64)) then fail (InvalidBundleSegment index)
      else
        let? document := bundle_segment_error index (decode_ctk3_segment segment) in
        if bool_decide (width = None) || bool_decide (width = Some (doc_width document)) then
          let? page_count := ok_or (checked_add 64 page_count (Z.of_nat (length (doc_pages document)))) (Failed IntegerOverflow) in
          if CTK3_MAX_BUNDLE_PAGES <? page_count then fail BundlePageLimitExceeded
          else bundle_loop (index + 1) (Some (doc_width document)) page_count (payloads ++ [snd found]) segments
        else fail (BundleWidthMismatch index)
  end.

Definition bundle_segments (segments : list (list Z)) : Result CtkFailure (list (list Z)) :=
  if bool_decide (segments = []) || (CTK3_MAX_BUNDLE_PAGES <? Z.of_nat (length segments)) then fail (InvalidBundleSegmentCount (length segments))
  else bundle_loop 0 None 0 [] segments.

Definition encode_ctk3_bundle (segments : list (list Z)) : Result CtkFailure (list Z) :=
  let? payloads := bundle_segments segments in
  match payloads with
  | [payload] => Ok (CTK3_PREFIX ++ payload)
  | _ => Ok (CTK3_BUNDLE_PREFIX ++ join_dots payloads)
  end.

(** *** Writing to a sink *)

(** [Ctk3WriteError], or a panic. *)
Inductive Ctk3WriteError (IoError : Type) := Codec (e : CtkFailure) | Io (e : IoError).
Arguments Codec {_} _.
Arguments Io {_} _.

Section Sinks.
Context {W IoError : Type}.
(** [write_all]: what was written stays in the sink also on an error. *)
Context (write_all : list Z -> W -> Result IoError unit * W).

Definition Sink : Type := W -> Result (Ctk3WriteError IoError) unit * W.

Definition sink_write (bytes : list Z) : Sink := fun w => let '(c, w) := write_all bytes w in (rmap_err Io c, w).

Definition sink_seq (m k : Sink) : Sink := fun w => match m w with (Ok _, w) => k w | (Err e, w) => (Err e, w) end.

Definition sink_return : Sink := fun w => (Ok tt, w).

Definition sink_fail (e : CtkFailure) : Sink := fun w => (Err (Codec e), w).

(** [codec_call?; k]. *)
Definition sink_bind {A} (c : Result CtkFailure A) (k : A -> Sink) : Sink := match c with Ok a => k a | Err e => sink_fail e end.

Definition encode_ctk3_into (document : Ctk3Document) : Sink := sink_bind (encode_ctk3 document) sink_write.

Definition encode_ctk3_compact_into (document : Ctk3Document) : Sink := sink_bind (encode_ctk3_compact document) sink_write.

Fixpoint write_payloads (index : nat) (payloads : list (list Z)) : Sink :=
  match payloads with
  | [] => sink_return
  | payload :: payloads =>
      sink_seq (if (index =? 0)%nat then sink_return else sink_write [46]) (sink_seq (sink_write payload) (write_payloads (index + 1) payloads))
  end.

Definition encode_ctk3_bundle_into (segments : list (list Z)) : Sink :=
  sink_bind (bundle_segments segments) (fun payloads =>
    match payloads with
    | [payload] => sink_seq (sink_write CTK3_PREFIX) (sink_write payload)
    | _ => sink_seq (sink_write CTK3_BUNDLE_PREFIX) (write_payloads 0 payloads)
    end).

(** [strip_prefix(CTK3_PREFIX)]. *)
Definition write_segment_payload (segment : list Z) : Sink :=
  if bool_decide (take (length CTK3_PREFIX) segment = CTK3_PREFIX) then sink_write (drop (length CTK3_PREFIX) segment)
  else sink_fail (Failed (InvalidPayload "native segment prefix is invalid")).

(** The loop over the documents after the first one. *)
Fixpoint write_segments (index expected_width : nat) (page_count : Z) (documents : list Ctk3Document) : Sink :=
  match documents with
  | [] => sink_return
  | document :: documents =>
      if negb (doc_width document =? expected_width)%nat then sink_fail (Failed (BundleWidthMismatch index))
      else
        sink_bind (ok_or (checked_add 64 page_count (Z.of_nat (length (doc_pages document)))) (Failed IntegerOverflow)) (fun page_count =>
          if CTK3_MAX_BUNDLE_PAGES <? page_count then sink_fail (Failed BundlePageLimitExceeded)
          else
            sink_bind (encode_ctk3_compact document) (fun segment =>
              sink_seq (sink_write [46]) (sink_seq (write_segment_payload segment)
                (write_segments (index + 1) expected_width page_count documents))))
  end.

(** An exact-size iterator is the list of its items. *)
Definition encode_ctk3_segmented_documents_iter_into (documents : list Ctk3Document) (segment_count : nat) : Sink :=
  if negb (length documents =? segment_count)%nat then sink_fail (Failed (BundleSegmentCountMismatch segment_count (length documents)))
  else if (segment_count =? 0)%nat || (CTK3_MAX_BUNDLE_PAGES <? Z.of_nat segment_count) then sink_fail (Failed (InvalidBundleSegmentCount segment_count))
  else
    match documents with
    | [] => sink_fail (Failed (InvalidBundleSegmentCount 0))
    | first :: documents =>
        let page_count := Z.of_nat (length (doc_pages first)) in
        if CTK3_MAX_BUNDLE_PAGES <? page_count then sink_fail (Failed BundlePageLimitExceeded)
        else
          sink_bind (encode_ctk3_compact first) (fun first_segment =>
            if (segment_count =? 1)%nat then sink_write first_segment
            else
              sink_seq (sink_write CTK3_BUNDLE_PREFIX) (sink_seq (write_segment_payload first_segment)
                (write_segments 1 (doc_width first) page_count documents)))
    end.

Definition encode_ctk3_segmented_documents_into (documents : list Ctk3Document) : Sink :=
  encode_ctk3_segmented_documents_iter_into documents (length documents).
End Sinks.

(** ** Reading to the end of the body *)

(** The reader consumes the bits and accepts only zero padding after them. *)
Definition reads_end {A} (rd : Reader A) (bs : list bool) (a : A) : Prop :=
  forall r n, rbits r = bs ++ replicate n false -> exists r', rd r = Ok (a, r').

Lemma reads_end_bind {A B} (m : Reader A) (k : A -> Reader B) bs1 bs2 a b : reads m bs1 a -> reads_end (k a) bs2 b -> reads_end (rd_bind m k) (bs1 ++ bs2) b.
Proof.
  intros Hm Hk r n Hr. rewrite <- app_assoc in Hr. destruct (Hm r _ Hr) as (r1 & E1 & H1). destruct (Hk r1 n H1) as (r2 & E2). exists r2. unfold rd_bind. by rewrite E1.
Qed.

Lemma reads_end_padding {A} (a : A) : reads_end (let* _ := assert_zero_padding in rd_ret a) [] a.
Proof. intros r n Hr. destruct (assert_zero_padding_ok n r Hr) as (r' & E). exists r'. unfold rd_bind. by rewrite E. Qed.

(** What was written, read to the end. *)
Definition roundtrip_end {A} (m : Writer) (rd : Reader A) (a : A) : Prop := exists bs, writes m bs /\ reads_end rd bs a.

Lemma rt_end_seq {A B} (m k : Writer) (rd : Reader A) (f : A -> Reader B) a b : roundtrip m rd a -> roundtrip_end k (f a) b -> roundtrip_end (m ;; k) (rd_bind rd f) b.
Proof. intros (bs1 & W1 & R1) (bs2 & W2 & R2). exists (bs1 ++ bs2). split; [by apply writes_seq|by eapply reads_end_bind]. Qed.

Lemma rt_end_last {A B} (m : Writer) (rd : Reader A) (f : A -> Reader B) a b : roundtrip m rd a -> reads_end (f a) [] b -> roundtrip_end m (rd_bind rd f) b.
Proof. intros (bs & W & R) Hf. exists bs. split; [done|]. rewrite <- (app_nil_r bs). by eapply reads_end_bind. Qed.

(** ** One payload *)

Definition shared_ok (width : nat) (shared : option SharedFieldPredictor) : Prop :=
  forall s, shared = Some s -> (1 <= sh_height s <= MAX_HEIGHT)%nat /\ field_ok (sh_height s * width) (sh_codes s).

(** The revisions that are written, with the field the last one needs. *)
Definition revision_ok (revision : Z) (shared : option SharedFieldPredictor) : Prop :=
  revision = COMPACT_SCHEMA_REVISION \/ revision = TEMPORAL_SCHEMA_REVISION \/ (revision = SHARED_FIELD_SCHEMA_REVISION /\ shared <> None).

Lemma rt_shared width s : (width <= MAX_WIDTH)%nat -> (1 <= sh_height s <= MAX_HEIGHT)%nat -> field_ok (sh_height s * width) (sh_codes s) ->
  roundtrip (write_var_uint (Z.of_nat (sh_height s)) ;; write_best_cell_encoding (sh_codes s) None 4 true) (read_shared width SHARED_FIELD_SCHEMA_REVISION) (Some (sh_codes s)).
Proof.
  intros Hw Hh Hf. unfold read_shared. rewrite Z.eqb_refl. eapply rt_seq; [apply rt_var_uint; unfold in_width, MAX_HEIGHT in *; lia|].
  rewrite (proj2 (Z.eqb_neq _ _)), (proj2 (Z.ltb_ge _ _)) by lia. cbn [orb]. rewrite checked_cells by lia. cbn [ok_or]. apply rt_pure. rewrite Nat2Z.id.
  eapply rt_last; [apply rt_field; [done|done|lia|lia]|]. apply reads_ret.
Qed.

Lemma rt_revision width pages revision shared : pages_ok width pages -> shared_ok width shared -> revision_ok revision shared ->
  roundtrip (write_revision width pages revision shared) (read_revision width (length pages) revision) pages.
Proof.
  intros (Hw & _ & Hl & Hp) Hs Hr. unfold CTK3_MAX_SEGMENT_PAGES in Hl. assert (Z.of_nat (length pages) < 2 ^ 32) as Hl' by lia. destruct Hr as [->|[->|[-> Hne]]].
  - apply (rt_compact_pages width pages []); [lia|done].
  - apply (rt_temporal_pages pages width None Hl'); [lia|done].
  - destruct shared as [s|]; [|done]. destruct (Hs s eq_refl) as [Hh Hf]. unfold write_revision, read_revision. cbn [Z.eqb Pos.eqb orb COMPACT_SCHEMA_REVISION TEMPORAL_SCHEMA_REVISION SHARED_FIELD_SCHEMA_REVISION].
    apply (rt_ext _ ((write_var_uint (Z.of_nat (sh_height s)) ;; write_best_cell_encoding (sh_codes s) None 4 true) ;; write_temporal_pages pages width (Some s))).
    { intros w. unfold wr_seq. by destruct (write_var_uint _ w). }
    eapply rt_seq; [apply rt_shared; [lia|done|done]|]. apply (rt_temporal_pages pages width (Some s) Hl'); [lia|done].
Qed.

Definition header_writer (width : nat) (pages : list NormalizedPage) (revision : Z) (shared : option SharedFieldPredictor) : Writer :=
  write_bits MAGIC 8 ;; write_bits revision 3 ;; write_bits (Z.of_nat (width - 1)) 5 ;;
  write_var_uint (Z.of_nat (length pages)) ;; wr_bit false ;; write_revision width pages revision shared.

(** The bits of a document: they are read back, and there are at least two
    bytes of them. *)
Lemma rt_document width pages revision shared : pages_ok width pages -> shared_ok width shared -> revision_ok revision shared ->
  exists bs, writes (header_writer width pages revision shared) bs /\ reads_end read_document bs (width, pages) /\ (16 <= length bs)%nat.
Proof.
  intros Hp Hs Hr. pose proof Hp as (Hw & Hne & Hl & _). pose proof Hw as Hw'. unfold MAX_WIDTH in Hw'. unfold CTK3_MAX_SEGMENT_PAGES in Hl.
  assert (in_width 3 revision /\ revision ∈ [LEGACY_SCHEMA_REVISION; COMPACT_SCHEMA_REVISION; TEMPORAL_SCHEMA_REVISION; SHARED_FIELD_SCHEMA_REVISION]) as [Hrev Hin]
    by (destruct Hr as [->|[->|[-> _]]]; (split; [by split|set_solver])).
  assert (1 <= length pages)%nat by (destruct pages; [done|simpl; lia]).
  destruct (rt_bits MAGIC 8 ltac:(lia) ltac:(by split)) as (b1 & W1 & R1). destruct (rt_bits revision 3 ltac:(lia) Hrev) as (b2 & W2 & R2).
  assert (in_width (Z.of_nat 5) (Z.of_nat (width - 1))) as Hw5 by (unfold in_width; change (2 ^ Z.of_nat 5) with 32; lia).
  set (rest := fun page_count => if (page_count =? 0) || (CTK3_MAX_SEGMENT_PAGES <? page_count) then rd_lift (fail (InvalidPageCount page_count)) else
    let* extension := read_bit in if (extension : bool) then rd_lift (invalid "extension block is unsupported") else
    let* normalized := read_revision width (Z.to_nat page_count) revision in let* _ := assert_zero_padding in rd_ret (width, normalized)).
  assert (roundtrip_end (write_var_uint (Z.of_nat (length pages)) ;; wr_bit false ;; write_revision width pages revision shared)
    (let* page_count := read_var_uint in rest page_count) (width, pages)) as (b4 & W4 & R4).
  { eapply rt_end_seq; [apply rt_var_uint; unfold in_width; lia|]. unfold rest. rewrite (proj2 (Z.eqb_neq _ _)), (proj2 (Z.ltb_ge _ _)) by (unfold CTK3_MAX_SEGMENT_PAGES; lia). cbn [orb].
    eapply rt_end_seq; [apply rt_bit|]. cbn iota. rewrite Nat2Z.id. eapply rt_end_last; [by apply rt_revision|]. apply reads_end_padding. }
  exists (bits_le MAGIC 8 ++ bits_le revision 3 ++ bits_le (Z.of_nat (width - 1)) 5 ++ b4). split; [|split].
  - repeat (apply writes_seq; [apply write_bits_writes; [lia|done]|]). exact W4.
  - unfold read_document. eapply reads_end_bind; [apply read_bits_reads; [lia|done]|]. rewrite Z.eqb_refl. cbn [negb].
    eapply reads_end_bind; [apply read_bits_reads; [lia|done]|]. rewrite bool_decide_true by done. cbn [negb].
    eapply reads_end_bind; [apply read_bits_reads; [lia|done]|]. cbn zeta. replace (Z.to_nat (Z.of_nat (width - 1)) + 1)%nat with width by lia.
    rewrite (proj2 (Nat.eqb_neq _ _)), (proj2 (Nat.ltb_ge _ _)) by lia. cbn [orb]. exact R4.
  - rewrite !length_app, !length_bits_le. lia.
Qed.

Lemma be_u16_spec x : in_width 16 x -> Forall (in_width 8) (be_u16 x) /\ exists hi lo, be_u16 x = [hi; lo] /\ hi * 256 + lo = x.
Proof.
  intros [H1 H2]. unfold be_u16. change 255 with (Z.ones 8). rewrite Z.land_ones, Z.shiftr_div_pow2 by lia. change (2 ^ 8) with 256.
  pose proof (Z.mod_pos_bound x 256 ltac:(lia)). pose proof (Z.div_mod x 256 ltac:(lia)).
  assert (0 <= x / 256 < 256) by (split; [apply Z.div_pos|apply Z.div_lt_upper_bound]; lia).
  split; [by repeat constructor; unfold in_width; change (2 ^ 8) with 256; lia|]. exists (x / 256), (x mod 256). split; [done|lia].
Qed.

Definition document_of (width : nat) (pages : list NormalizedPage) : Result CtkFailure Ctk3Document :=
  let? ps := normalized_to_pages pages in Ok (mkDocument width ps).

(** A payload with a valid checksum. *)
Lemma decode_checked_body body width pages : Forall (in_width 8) body -> (2 <= length body)%nat -> Z.of_nat (length body) + 2 <= MAX_PAYLOAD_BYTES ->
  (exists r', read_document (BitReader_new body) = Ok ((width, pages), r')) ->
  payload_ok (body ++ be_u16 (crc16 body)) /\ decode_single_payload Ctk64 (ctk64_chars (body ++ be_u16 (crc16 body))) = document_of width pages.
Proof.
  intros Hb Hl Hm (r' & Hr). destruct (be_u16_spec _ (crc16_width body Hb)) as (Hbe & hi & lo & Ebe & Hcrc).
  assert (payload_ok (body ++ be_u16 (crc16 body))) as Hok.
  { split; [by destruct body|]. rewrite length_app. split; [rewrite Ebe; simpl; lia|by apply Forall_app]. }
  split; [done|]. unfold decode_single_payload. cbn [decode_payload]. rewrite decode_ctk64_chars by done. cbn [rbind]. rewrite Ebe. rewrite length_app. cbn [length].
  rewrite (proj2 (Nat.ltb_ge _ _)), (proj2 (Z.ltb_ge _ _)) by lia. cbn [orb]. cbn zeta. replace (length body + 2 - 2)%nat with (length body) by lia. rewrite take_app_length.
  rewrite lookup_app_r by lia. rewrite Nat.sub_diag. rewrite lookup_app_r by lia. replace (length body + 1 - length body)%nat with 1%nat by lia. cbn [lookup list_lookup panic_none ok_or rbind].
  rewrite Hcrc, Z.eqb_refl. cbn [negb]. rewrite Hr. done.
Qed.

(** An error of size: all other errors are excluded. *)
Definition too_large {A} (c : Result CtkFailure A) : Prop := (exists n, c = fail (PayloadTooLarge n)) \/ c = fail IntegerOverflow.

Lemma encode_normalized_spec width pages revision shared : pages_ok width pages -> shared_ok width shared -> revision_ok revision shared ->
  (exists payload, encode_normalized width pages revision shared = Ok (revision, payload) /\ payload_ok payload /\
    decode_single_payload Ctk64 (ctk64_chars payload) = document_of width pages) \/
  too_large (encode_normalized width pages revision shared).
Proof.
  intros Hp Hs Hr. destruct (rt_document width pages revision shared Hp Hs Hr) as (bs & W & R & Hl16). destruct (W _ _ holds_default) as (w & Ew & Hw).
  unfold encode_normalized. unfold header_writer in Ew. rewrite Ew. cbn [rbind]. cbn zeta. destruct (checked_add 64 (Z.of_nat (length (w_bytes w))) 2) as [size|] eqn:Es; [|right; by right].
  apply checked_add_Some in Es as [_ ->]. cbn [ok_or rbind]. destruct (Z.ltb_spec MAX_PAYLOAD_BYTES (Z.of_nat (length (w_bytes w)) + 2)); [right; left; by eexists|]. left.
  destruct Hw as (Hb & Hlen & Hall). cbn [app] in Hall. pose proof (f_equal length Hall) as Hlb. rewrite length_all_bits, length_app in Hlb.
  destruct (decode_checked_body (w_bytes w) width pages Hb) as [D1 D2]; [lia|lia| |by eexists].
  destruct (R (BitReader_new (w_bytes w)) ((8 - length bs mod 8) mod 8)%nat) as (r' & Hr'); [|by exists r']. unfold rbits. cbn [r_bytes r_bit_offset BitReader_new]. by rewrite drop_0.
Qed.

(** ** The shared field *)

Lemma imap_codes_ok (f : nat -> Z -> Z) codes : (forall i c, code_ok c -> code_ok (f i c)) -> Forall code_ok codes -> Forall code_ok (imap f codes).
Proof.
  intros Hf H. apply Forall_forall. intros c Hc. apply elem_of_lookup_imap in Hc as (i & d & -> & Hd). rewrite Forall_forall in H. apply Hf, H. by eapply list_elem_of_lookup_2.
Qed.

Lemma shared_common_ok rest codes :
  let common := foldl (fun common page => imap (fun i code => if negb (code =? 0) && negb (code =? cell_at (np_codes page) i) then 0 else code) common) codes rest in
  Forall code_ok codes -> length common = length codes /\ Forall code_ok common.
Proof.
  cbn zeta. revert codes. induction rest as [|p rest IH]; intros codes H; [done|]. cbn [foldl]. destruct (IH (imap (fun i code => if negb (code =? 0) && negb (code =? cell_at (np_codes p) i) then 0 else code) codes)) as [I1 I2].
  { apply imap_codes_ok; [|done]. intros i c Hc. by destruct (_ && _); [apply code_ok_0|]. }
  rewrite I1, length_imap. done.
Qed.

Lemma build_shared_field_ok width pages : pages_ok width pages -> shared_ok width (build_shared_field pages width).
Proof.
  intros (Hw & Hne & _ & Hp) s Hs. unfold build_shared_field in Hs. destruct pages as [|first [|second rest]]; [done|done|]. case_bool_decide; [done|]. cbn zeta in Hs.
  apply Forall_cons in Hp as [(Hh & [Hl Hc] & _) _]. destruct (shared_common_ok (second :: rest) (np_codes first) Hc) as [C1 C2]. set (common := foldl _ _ _) in *.
  set (height := trim_height _ _ _) in *. destruct (Nat.eqb_spec height 0) as [|Hh0]; [done|]. injection Hs as <-. cbn [sh_height sh_codes].
  assert ((length common + width - 1) / width = np_height first)%nat as Hdiv.
  { rewrite C1, Hl. replace (np_height first * width + width - 1)%nat with ((width - 1) + np_height first * width)%nat by lia. rewrite Nat.div_add by lia. rewrite Nat.div_small by lia. lia. }
  assert (height <= np_height first)%nat by (rewrite <- Hdiv; apply trim_height_le). split; [lia|]. split; [|by apply Forall_take].
  rewrite length_take_le; [done|]. rewrite C1, Hl. apply Nat.mul_le_mono_r. lia.
Qed.

(** ** The shortest revision *)

Lemma select_payload_elem c cs : select_payload c cs ∈ c :: cs.
Proof.
  revert c. induction cs as [|d cs IH]; intros c; cbn [select_payload]; [by constructor|]. set (e := if _ || _ then d else c). specialize (IH e). unfold e in IH at 2.
  destruct (_ || _); set_solver.
Qed.

Lemma select_payload_least c cs d : d ∈ c :: cs -> (length (snd (select_payload c cs)) <= length (snd d))%nat.
Proof.
  revert c d. induction cs as [|x cs IH]; intros c d Hd; cbn [select_payload]; [by apply list_elem_of_singleton in Hd as ->|].
  set (e := if _ || _ then x else c). assert (length (snd e) <= length (snd x) /\ length (snd e) <= length (snd c))%nat as [He1 He2].
  { unfold e. destruct (Nat.ltb_spec (length (snd x)) (length (snd c))); cbn [orb]; [lia|]. destruct (Nat.eqb_spec (length (snd x)) (length (snd c))); cbn [andb]; [destruct (_ <? _)|]; lia. }
  pose proof (IH e e ltac:(constructor)). apply elem_of_cons in Hd as [->|[->|Hd]%elem_of_cons]; [lia|lia|]. apply IH. by constructor.
Qed.

Lemma segment_text_spec payload : payload_ok payload -> segment_text payload = Ok (CTK3_PREFIX ++ ctk64_chars payload).
Proof. intros (_ & _ & H). unfold segment_text. by rewrite encode_ctk64_spec. Qed.

(** ** Pages and their normal form *)

Lemma normalized_to_page_ok width p : page_ok width p -> exists q, normalized_to_page p = Ok q /\
  page_height q = np_height p /\ code_of_color <$> page_cells q = np_codes p /\ page_comment q = np_comment p /\ page_operation q = np_operation p /\
  page_flags q = np_flags p /\ (fun g : list Ctk3Color => code_of_color <$> g) <$> page_garbage q = np_garbage p.
Proof.
  intros (_ & [_ Hc] & _ & _ & _ & Hg). unfold normalized_to_page. destruct (colors_of_codes_spec "field color is invalid" _ Hc) as (cells & -> & Hcells). cbn [rbind].
  destruct (np_garbage p) as [g|]; cbn [rbind].
  - destruct (Hg g eq_refl) as [_ Hgc]. destruct (colors_of_codes_spec "garbage color is invalid" _ Hgc) as (gs & -> & Hgs). cbn [rmap rbind]. eexists. split; [done|]. cbn. by rewrite Hcells, <- Hgs.
  - eexists. split; [done|]. cbn. by rewrite Hcells.
Qed.

Lemma normalized_to_pages_ok width pages : Forall (page_ok width) pages -> exists qs, normalized_to_pages pages = Ok qs /\ Forall2 (fun p q => normalized_to_page p = Ok q) pages qs.
Proof.
  induction 1 as [|p pages Hp _ (qs & IH & Hqs)]; [by exists []|]. destruct (normalized_to_page_ok width p Hp) as (q & Hq & _). exists (q :: qs). cbn [normalized_to_pages].
  rewrite Hq. cbn [rbind]. rewrite IH. split; [done|by constructor].
Qed.

(** What [normalize_page] makes of a page, and leaves alone afterwards. *)
Definition page_normal (width : nat) (p : NormalizedPage) : Prop :=
  trim_height width (np_codes p) (np_height p) = np_height p /\
  (forall g, np_garbage p = Some g -> existsb (fun code => negb (code =? 0)) g = true) /\
  (is_quiz_comment (np_comment p) = true -> fl_quiz (np_flags p) = true).

Lemma trim_height_ext width codes codes' n : (forall r, (r < n)%nat -> take width (drop (r * width) codes) = take width (drop (r * width) codes')) ->
  trim_height width codes n = trim_height width codes' n.
Proof. induction n as [|n IH]; intros H; [done|]. cbn [trim_height]. rewrite H, IH by auto with lia. done. Qed.

Lemma trim_height_below width codes h n : (trim_height width codes h <= n <= h)%nat -> trim_height width codes n = trim_height width codes h.
Proof.
  induction h as [|h IH]; intros H; [by replace n with 0%nat by lia|]. destruct (decide (n = S h)) as [->|]; [done|]. cbn [trim_height] in *. destruct (forallb _ _); [apply IH; lia|lia].
Qed.

(** The rows above the trimmed height do not matter. *)
Lemma trim_height_take width codes h : let n := trim_height width codes h in trim_height width (take (n * width) codes) n = n.
Proof.
  cbn zeta. set (n := trim_height width codes h). rewrite (trim_height_ext _ _ codes).
  - apply trim_height_below. split; [done|apply trim_height_le].
  - intros r Hr. rewrite skipn_firstn_comm, take_take. f_equal. nia.
Qed.

Lemma normalize_page_normal width index page p : normalize_page width index page = Ok p -> page_normal width p.
Proof.
  intros H. unfold normalize_page in H. destruct (_ <? _)%nat; [done|]. apply rbind_Ok in H as (x & _ & H). destruct (negb _); [done|]. destruct (_ <? _); [done|].
  apply rbind_Ok in H as (operation & _ & H). apply rbind_Ok in H as (garbage & Hg & H). apply Ok_inj in H. subst p. split; [|split]; cbn [np_height np_codes np_comment np_garbage np_flags].
  - apply trim_height_take.
  - intros g ->. unfold normalize_garbage in Hg. destruct (page_garbage page) as [g0|]; [|done]. destruct (negb _); [done|]. destruct (existsb _ _) eqn:E; [|done]. by injection Hg as <-.
  - intros Hq. by rewrite Hq.
Qed.

(** A decoded page has the normal form it was decoded from. *)
Lemma normalize_decoded_page width index p q : (width <= MAX_WIDTH)%nat -> page_ok width p -> page_normal width p -> normalized_to_page p = Ok q -> normalize_page width index q = Ok p.
Proof.
  intros Hw Hok (N1 & N2 & N3) Hq. pose proof Hok as (Hh & [Hl Hc] & Hs & Hlen & Hop & Hg). destruct (normalized_to_page_ok width p Hok) as (q' & Hq' & F1 & F2 & F3 & F4 & F5 & F6).
  rewrite Hq in Hq'. apply Ok_inj in Hq'. subst q'. unfold normalize_page. rewrite F1, (proj2 (Nat.ltb_ge _ _)) by done.
  rewrite (proj2 (checked_mul_Some 64 (Z.of_nat (np_height p)) (Z.of_nat width) _)) by (split; [|done]; pose proof (small_field width (np_height p) Hw Hh); lia). cbn [ok_or rbind].
  assert (length (page_cells q) = (np_height p * width)%nat) as Hcells by (rewrite <- Hl, <- F2; by rewrite length_fmap). rewrite Hcells, Nat.eqb_refl. cbn [negb].
  rewrite F3, (proj2 (Z.ltb_ge _ _)) by done. cbn zeta. rewrite F2, F4, F5, N1, take_ge by lia.
  assert (normalize_operation index (np_operation p) = Ok (np_operation p)) as ->.
  { unfold normalize_operation. destruct (np_operation p) as [op|]; [|done]. destruct (Hop op eq_refl) as [Hcan Hfit]. rewrite Hfit. cbn [negb]. rewrite Hcan. cbn [ok_or rbind]. by rewrite Hfit. }
  assert (normalize_garbage width index (page_garbage q) = Ok (np_garbage p)) as ->.
  { unfold normalize_garbage. rewrite <- F6 in *. destruct (page_garbage q) as [g|]; [|done]. cbn [fmap option_fmap option_map] in *. destruct (Hg _ eq_refl) as [Hgl _]. rewrite length_fmap in Hgl.
    rewrite Hgl, Nat.eqb_refl. cbn [negb]. by rewrite (N2 _ eq_refl). }
  cbn [rbind]. f_equal. destruct p as [h codes comment op flags g]. cbn [np_height np_codes np_comment np_operation np_flags np_garbage] in *. f_equal.
  destruct (is_quiz_comment comment) eqn:Eq; [|done]. specialize (N3 eq_refl). destruct flags. cbn in *. by subst.
Qed.

Lemma normalize_pages_normal width index pages ps : normalize_pages width index pages = Ok ps -> Forall (page_normal width) ps.
Proof.
  revert index ps. induction pages as [|page pages IH]; intros index ps H; cbn [normalize_pages] in H; [by injection H as <-|].
  apply rbind_Ok in H as (p & Hp & H). apply rbind_Ok in H as (qs & Hqs & H). injection H as <-. constructor; [by eapply normalize_page_normal|by eapply IH].
Qed.

Lemma normalize_decoded_pages width index ps qs : (width <= MAX_WIDTH)%nat -> Forall (page_ok width) ps -> Forall (page_normal width) ps ->
  Forall2 (fun p q => normalized_to_page p = Ok q) ps qs -> normalize_pages width index qs = Ok ps.
Proof.
  intros Hw Hok Hn H. revert index. induction H as [|p q ps qs Hpq _ IH]; intros index; [done|]. apply Forall_cons in Hok as [Hok1 Hok2]. apply Forall_cons in Hn as [Hn1 Hn2]. cbn [normalize_pages].
  rewrite (normalize_decoded_page width index p q) by done. cbn [rbind]. by rewrite IH.
Qed.

Lemma normalize_decoded_document document ps qs : Forall (fun p => string_ok (page_comment p)) (doc_pages document) -> normalize_document document = Ok ps ->
  normalized_to_pages ps = Ok qs -> normalize_document (mkDocument (doc_width document) qs) = Ok ps.
Proof.
  intros Hs Hn Hq. pose proof (normalize_document_ok document ps Hs Hn) as (Hw & Hne & Hl & Hok). destruct (normalized_to_pages_ok _ _ Hok) as (qs' & Hq' & H2). rewrite Hq in Hq'. apply Ok_inj in Hq'. subst qs'.
  pose proof (Forall2_length _ _ _ H2) as Hlen. unfold normalize_document. cbn [doc_width doc_pages]. rewrite (proj2 (Nat.eqb_neq _ _)), (proj2 (Nat.ltb_ge _ _)) by lia. cbn [orb].
  rewrite bool_decide_false by (intros ->; by destruct ps). rewrite (proj2 (Z.ltb_ge _ _)) by lia. cbn [orb]. apply normalize_decoded_pages; [lia|done| |done].
  unfold normalize_document in Hn. destruct (_ || _); [done|]. destruct (_ || _); [done|]. by eapply normalize_pages_normal.
Qed.

(** ** Whole documents *)

Lemma payload_chars_text payload : payload_ok payload -> payload_text (ctk64_chars payload).
Proof. intros (Hne & _ & Hb). split; [by intros H%ctk64_chars_nil|by apply elem_of_ctk64_chars]. Qed.

Lemma decode_exact_text text : payload_text text -> validate_exact_alphabet text Ctk64 = Ok tt -> decode_ctk3_exact (CTK3_PREFIX ++ text) = decode_single_payload Ctk64 text.
Proof.
  intros Ht Hv. unfold decode_ctk3_exact. rewrite value_is_not_bundle by (by apply payload_text_graphic). cbn [rbind]. by rewrite extract_exact_value.
Qed.

Lemma decode_exact_payload payload : payload_ok payload -> decode_ctk3_exact (CTK3_PREFIX ++ ctk64_chars payload) = decode_single_payload Ctk64 (ctk64_chars payload).
Proof. intros H. apply decode_exact_text; [by apply payload_chars_text|by apply validate_ctk64_chars]. Qed.

(** An encoder of documents: it fails only on documents without a normal form
    or for reasons of size, and a text it returns decodes to the document's
    normal form. *)
Definition document_encoder (encode : Ctk3Document -> Result CtkFailure (list Z)) : Prop :=
  forall document, Forall (fun p => string_ok (page_comment p)) (doc_pages document) ->
  match normalize_document document with
  | Err e => encode document = Err e
  | Ok pages =>
      (exists payload, encode document = Ok (CTK3_PREFIX ++ ctk64_chars payload) /\ payload_ok payload /\
        decode_single_payload Ctk64 (ctk64_chars payload) = document_of (doc_width document) pages) \/
      too_large (encode document)
  end.

Lemma too_large_bind {A B} (c : Result CtkFailure A) (k : A -> Result CtkFailure B) : too_large c -> too_large (rbind c k).
Proof. intros [[n ->]| ->]; [left; by exists n|by right]. Qed.

Lemma encode_compact_spec : document_encoder encode_ctk3_compact.
Proof.
  intros document Hs. unfold encode_ctk3_compact. destruct (normalize_document document) as [pages|e] eqn:En; [|done]. cbn [rbind]. pose proof (normalize_document_ok _ _ Hs En) as Hp.
  destruct (encode_normalized_spec _ pages COMPACT_SCHEMA_REVISION None Hp) as [(payload & Ee & Hok & Hd)|H]; [done|by left| |right; by apply too_large_bind].
  left. exists payload. rewrite Ee. cbn [rbind snd]. by rewrite segment_text_spec.
Qed.

Lemma encode_ctk3_spec : document_encoder encode_ctk3.
Proof.
  intros document Hs. unfold encode_ctk3. destruct (normalize_document document) as [pages|e] eqn:En; [|done]. cbn [rbind]. pose proof (normalize_document_ok _ _ Hs En) as Hp.
  set (width := doc_width document) in *. set (good := fun c : Z * list Z => payload_ok (snd c) /\ decode_single_payload Ctk64 (ctk64_chars (snd c)) = document_of width pages).
  assert (forall revision shared, shared_ok width shared -> revision_ok revision shared ->
    (exists c, encode_normalized width pages revision shared = Ok c /\ good c) \/ too_large (encode_normalized width pages revision shared)) as Henc.
  { intros revision shared H1 H2. destruct (encode_normalized_spec width pages revision shared Hp H1 H2) as [(payload & E & Hok & Hd)|H]; [left; by exists (revision, payload)|by right]. }
  assert (forall c cs, good c -> Forall good cs -> exists payload, segment_text (snd (select_payload c cs)) = Ok (CTK3_PREFIX ++ ctk64_chars payload) /\ payload_ok payload /\
    decode_single_payload Ctk64 (ctk64_chars payload) = document_of width pages) as Hsel.
  { intros c cs Hc Hcs. assert (good (select_payload c cs)) as [G1 G2] by (assert (Forall good (c :: cs)) as HF by (by constructor); rewrite Forall_forall in HF; apply HF, select_payload_elem).
    exists (snd (select_payload c cs)). by rewrite segment_text_spec. }
  destruct (Henc COMPACT_SCHEMA_REVISION None) as [(c1 & -> & G1)|H]; [done|by left| |right; by apply too_large_bind]. cbn [rbind].
  destruct (Henc TEMPORAL_SCHEMA_REVISION None) as [(c2 & -> & G2)|H]; [done|by right; left| |right; by apply too_large_bind]. cbn [rbind].
  destruct (build_shared_field pages width) as [shared|] eqn:Esh; cbn [rbind]; [|left; apply Hsel; [done|by apply Forall_singleton]].
  pose proof (build_shared_field_ok _ _ Hp) as Hshok. rewrite Esh in Hshok.
  destruct (Henc SHARED_FIELD_SCHEMA_REVISION (Some shared)) as [(c3 & -> & G3)|H]; [done|by right; right| |right; do 2 apply too_large_bind; done]. cbn [rbind].
  left. apply Hsel; [done|by apply Forall_cons; split; [|apply Forall_singleton]].
Qed.

(** The document of a text. *)
Lemma encoder_roundtrip encode document text : document_encoder encode -> Forall (fun p => string_ok (page_comment p)) (doc_pages document) -> encode document = Ok text ->
  exists pages decoded payload, text = CTK3_PREFIX ++ ctk64_chars payload /\ payload_ok payload /\ decode_single_payload Ctk64 (ctk64_chars payload) = Ok decoded /\
    normalize_document document = Ok pages /\ doc_width decoded = doc_width document /\ normalized_to_pages pages = Ok (doc_pages decoded) /\ normalize_document decoded = Ok pages.
Proof.
  intros Henc Hs Ht. specialize (Henc document Hs). destruct (normalize_document document) as [pages|e] eqn:En; [|congruence].
  destruct Henc as [(payload & E & Hok & Hd)|[[n E]|E]]; rewrite Ht in E; [|discriminate E..]. apply Ok_inj in E. pose proof (normalize_document_ok _ _ Hs En) as (_ & _ & _ & Hp).
  destruct (normalized_to_pages_ok _ _ Hp) as (qs & Hq & _). exists pages, (mkDocument (doc_width document) qs), payload. unfold document_of in Hd. rewrite Hq in Hd. cbn [rbind] in Hd.
  split; [done|]. split; [done|]. split; [done|]. split; [done|]. split; [done|]. split; [done|]. by apply normalize_decoded_document.
Qed.

(** ** What the decoders can return *)

Definition decoded_page_ok (width : nat) (p : Ctk3Page) : Prop :=
  (page_height p <= MAX_HEIGHT)%nat /\ length (page_cells p) = (page_height p * width)%nat /\
  string_ok (page_comment p) /\ Z.of_nat (length (page_comment p)) <= MAX_COMMENT_BYTES /\
  (forall op, page_operation p = Some op -> operation_ok op) /\
  (forall g, page_garbage p = Some g -> length g = width).

Definition document_ok (limit : Z) (d : Ctk3Document) : Prop :=
  (1 <= doc_width d <= MAX_WIDTH)%nat /\ 1 <= Z.of_nat (length (doc_pages d)) <= limit /\ Forall (decoded_page_ok (doc_width d)) (doc_pages d).

Lemma decoded_page_post width p : page_ok width p -> no_panic (normalized_to_page p) (decoded_page_ok width).
Proof.
  intros Hok. pose proof Hok as (Hh & [Hl _] & Hs & Hlen & Hop & Hg). destruct (normalized_to_page_ok width p Hok) as (q & -> & F1 & F2 & F3 & F4 & F5 & F6). cbn [no_panic].
  unfold decoded_page_ok. rewrite F1, F3, F4. split; [done|]. split; [rewrite <- Hl, <- F2; by rewrite length_fmap|]. split; [done|]. split; [done|]. split; [done|].
  intros g Eg. rewrite Eg in F6. cbn in F6. symmetry in F6. destruct (Hg _ F6) as [Hgl _]. by rewrite length_fmap in Hgl.
Qed.

Lemma decoded_pages_post width pages : Forall (page_ok width) pages ->
  no_panic (normalized_to_pages pages) (fun qs => Forall (decoded_page_ok width) qs /\ length qs = length pages).
Proof.
  induction 1 as [|p pages Hp _ IH]; [by repeat constructor|]. cbn [normalized_to_pages]. eapply no_panic_bind; [by apply decoded_page_post|]. intros q Hq.
  eapply no_panic_bind; [exact IH|]. intros qs [H1 H2]. cbn. split; [by constructor|by rewrite H2].
Qed.

Lemma post_read_shared width revision : (width <= MAX_WIDTH)%nat -> rd_post (read_shared width revision) (fun o => forall c, o = Some c -> Forall code_ok c).
Proof.
  intros Hw. unfold read_shared. case_match; [|apply post_none]. eapply post_bind; [apply post_var_height|]. intros h Hh. destruct (_ || _) eqn:E; [apply post_fail|].
  apply orb_false_iff in E as [_ E%Z.ltb_ge]. post_any. apply post_some. eapply post_weaken; [apply post_cells; [apply small_cells; [done|lia]|done]|]. by intros c [_ Hc].
Qed.

Lemma post_read_document : rd_post read_document (fun d => (1 <= fst d <= MAX_WIDTH)%nat /\ Forall (page_ok (fst d)) (snd d) /\ 1 <= Z.of_nat (length (snd d)) <= CTK3_MAX_SEGMENT_PAGES).
Proof.
  unfold read_document. post_any. case_match; [apply post_fail|]. post_any. case_match; [apply post_fail|]. eapply post_bind; [apply post_read_bits|]. intros w _. cbn zeta.
  destruct (_ || _) eqn:E; [apply post_fail|]. apply orb_false_iff in E as [E1%Nat.eqb_neq E2%Nat.ltb_ge]. set (width := (Z.to_nat w + 1)%nat) in *. clearbody width.
  eapply post_bind; [apply post_var_height|]. intros n Hn. cbn beta in Hn. destruct (_ || _) eqn:E; [apply post_fail|]. apply orb_false_iff in E as [E3%Z.eqb_neq E4%Z.ltb_ge].
  post_any. case_match; [apply post_fail|]. apply (post_bind _ _ (fun ps => Forall (page_ok width) ps /\ length ps = Z.to_nat n)).
  { unfold read_revision. case_match.
    - eapply post_bind; [by apply post_read_shared|]. intros shared Hs. apply post_temporal_from; [done|done|simpl; lia|simpl; lia|constructor].
    - apply (post_linear_pages width E2 (Z.to_nat n) _ []). constructor. }
  intros ps [Hp Hl]. eapply post_bind; [apply post_zero_padding|]. intros _ _. apply post_ret. cbn [fst snd]. split; [lia|]. split; [done|]. lia.
Qed.

Lemma decode_single_post transport encoded : no_panic (decode_single_payload transport encoded) (document_ok CTK3_MAX_SEGMENT_PAGES).
Proof.
  unfold decode_single_payload. eapply no_panic_bind; [apply decode_payload_post|]. intros payload _. destruct (_ || _) eqn:E; [done|]. apply orb_false_iff in E as [E%Nat.ltb_ge _]. cbn zeta.
  destruct (lookup_lt_is_Some_2 payload (length payload - 2)) as [hi ->]; [lia|]. cbn [panic_none ok_or rbind].
  destruct (lookup_lt_is_Some_2 payload (length payload - 2 + 1)) as [lo ->]; [lia|]. cbn [panic_none ok_or rbind]. destruct (negb _); [done|].
  eapply no_panic_bind; [apply post_read_document|]. intros [[width pages] r] (Hw & Hp & Hl). cbn [fst snd] in *.
  eapply no_panic_bind; [by apply decoded_pages_post|]. intros qs [Hq Hlq]. cbn. split; [done|]. split; [simpl; lia|done].
Qed.

Lemma bundle_payloads_post body : no_panic (bundle_payloads body) (fun o => forall ps, o = Some ps -> (2 <= length ps)%nat).
Proof.
  unfold bundle_payloads. cbn zeta. destruct (Nat.ltb_spec (length (split_dots body)) 2); [done|]. eapply (no_panic_bind _ _ (fun _ => True)).
  - unfold validate_all. apply rfold_post; [|done]. intros [] x _. apply validate_post.
  - intros [] _. cbn. by intros ps [= <-].
Qed.

Lemma decode_segments_post index width pages payloads : Z.of_nat (length pages) <= CTK3_MAX_BUNDLE_PAGES ->
  (forall w, width = Some w -> document_ok CTK3_MAX_BUNDLE_PAGES (mkDocument w pages)) -> (width = None -> pages = []) ->
  no_panic (decode_segments index width pages payloads) (fun st => forall w, fst st = Some w -> document_ok CTK3_MAX_BUNDLE_PAGES (mkDocument w (snd st))).
Proof.
  revert index width pages. induction payloads as [|payload payloads IH]; intros index width pages Hl Hd Hn; cbn [decode_segments]; [done|].
  eapply no_panic_bind; [apply decode_single_post|]. intros d (Hw & Hlp & Hps). destruct (_ || _) eqn:E; [|done].
  destruct (Z.ltb_spec (CTK3_MAX_BUNDLE_PAGES - Z.of_nat (length pages)) (Z.of_nat (length (doc_pages d)))); [done|]. apply IH; [rewrite length_app; lia| |done].
  intros w [= <-]. split; [done|]. cbn [doc_pages doc_width]. split; [rewrite length_app; lia|]. apply Forall_app. split; [|done].
  apply orb_true_iff in E as [E%bool_decide_eq_true|E%bool_decide_eq_true]; [rewrite (Hn E); constructor|by apply (Hd _ E)].
Qed.

Lemma decode_bundle_post payloads : no_panic (decode_bundle_payloads payloads) (document_ok CTK3_MAX_BUNDLE_PAGES).
Proof.
  unfold decode_bundle_payloads. destruct (_ <? _); [done|]. eapply no_panic_bind; [by apply decode_segments_post|]. intros [width pages] H. cbn [fst snd] in *.
  eapply no_panic_bind; [apply no_panic_or_fail; exact H|]. done.
Qed.

Lemma extract_exact_post input : no_panic (extract_exact_payload input) (fun _ => True).
Proof.
  unfold extract_exact_payload. cbn zeta. destruct (starts_with_ignore_ascii_case _ _); [|destruct (starts_with_ignore_ascii_case _ _); [|done]]; (eapply no_panic_bind; [apply validate_post|]); done.
Qed.

Lemma extract_compatible_post input : no_panic (extract_compatible_payload input) (fun _ => True).
Proof.
  unfold extract_compatible_payload. cbn zeta. eapply (no_panic_bind _ _ (fun _ => True)); [repeat case_match; done|]. intros [t s] _. by case_match.
Qed.

Lemma extract_exact_bundle_post input : no_panic (extract_exact_bundle input) (fun _ => True).
Proof. unfold extract_exact_bundle. cbn zeta. case_match; [done|]. eapply no_panic_weaken; [apply bundle_payloads_post|done]. Qed.

Lemma extract_compatible_bundle_post input : no_panic (extract_compatible_bundle input) (fun _ => True).
Proof. unfold extract_compatible_bundle. cbn zeta. case_match; [|done]. eapply no_panic_weaken; [apply bundle_payloads_post|done]. Qed.

Lemma segment_limit_bundle d : document_ok CTK3_MAX_SEGMENT_PAGES d -> document_ok CTK3_MAX_BUNDLE_PAGES d.
Proof. intros (H1 & H2 & H3). split; [done|]. split; [unfold CTK3_MAX_SEGMENT_PAGES, CTK3_MAX_BUNDLE_PAGES in *; lia|done]. Qed.

(** ** Bundles *)

(** The text of a bundle of payload texts; a single one needs no bundle. *)
Definition framed (texts : list (list Z)) : list Z :=
  match texts with [text] => CTK3_PREFIX ++ text | _ => CTK3_BUNDLE_PREFIX ++ join_dots texts end.

Definition total_pages (documents : list Ctk3Document) : Z := Z.of_nat (length (documents ≫= doc_pages)).

(** A payload text of a document of the given width. *)
Definition segment_of (width : nat) (text : list Z) (document : Ctk3Document) : Prop :=
  payload_text text /\ validate_exact_alphabet text Ctk64 = Ok tt /\ decode_single_payload Ctk64 text = Ok document /\ doc_width document = width.

Lemma total_pages_cons d ds : total_pages (d :: ds) = Z.of_nat (length (doc_pages d)) + total_pages ds.
Proof. unfold total_pages. cbn [mbind list_bind]. rewrite length_app. lia. Qed.

Lemma total_pages_pos ds : 0 <= total_pages ds.
Proof. unfold total_pages. lia. Qed.

Lemma decode_segments_spec width texts documents : Forall2 (segment_of width) texts documents -> forall index w pages, (w = None \/ w = Some width) ->
  Z.of_nat (length pages) + total_pages documents <= CTK3_MAX_BUNDLE_PAGES ->
  decode_segments index w pages texts = Ok (match texts with [] => w | _ => Some width end, pages ++ (documents ≫= doc_pages)).
Proof.
  induction 1 as [|text d texts ds (_ & _ & Hd & Hw) _ IH]; intros index w pages Hww Hl; cbn [decode_segments]; [by rewrite app_nil_r|]. rewrite Hd. cbn [rbind]. rewrite Hw.
  replace (bool_decide (w = None) || bool_decide (w = Some width)) with true by (destruct Hww as [->| ->]; [done|by rewrite orb_comm, bool_decide_true]).
  rewrite total_pages_cons in Hl. pose proof (total_pages_pos ds). rewrite (proj2 (Z.ltb_ge _ _)) by lia. rewrite IH; [|by right|rewrite length_app; lia]. cbn [mbind list_bind]. rewrite app_assoc. by destruct texts.
Qed.

Lemma decode_framed width texts documents : texts <> [] -> Z.of_nat (length texts) <= CTK3_MAX_BUNDLE_PAGES -> total_pages documents <= CTK3_MAX_BUNDLE_PAGES ->
  Forall2 (segment_of width) texts documents -> decode_ctk3_exact (framed texts) = Ok (mkDocument width (documents ≫= doc_pages)).
Proof.
  intros Hne Hn Hl H2. destruct texts as [|t1 [|t2 texts]]; [done| |].
  - inversion H2 as [|? d ? ds (Ht & Hv & Hd & Hw) H2' E1 E2]. inversion H2'. subst. cbn [framed]. rewrite decode_exact_text by done. rewrite Hd. cbn [mbind list_bind]. rewrite app_nil_r. by destruct d.
  - cbn [framed]. unfold decode_ctk3_exact. rewrite extract_exact_bundle_join.
    + cbn [rbind]. unfold decode_bundle_payloads. rewrite (proj2 (Z.ltb_ge _ _)) by done. rewrite (decode_segments_spec width _ documents H2); [|by left|done]. done.
    + simpl. lia.
    + clear -H2. induction H2 as [|t d ts ds (Ht & _) _ IH]; by constructor.
    + clear -H2. induction H2 as [|t d ts ds (_ & Hv & _) _ IH]; by constructor.
Qed.

Lemma extract_exact_inv input text : extract_exact_payload input = Ok (Ctk64, text) -> payload_text text /\ validate_exact_alphabet text Ctk64 = Ok tt.
Proof.
  unfold extract_exact_payload. cbn zeta. destruct (starts_with_ignore_ascii_case _ _).
  - intros H. apply rbind_Ok in H as ([] & Hv & H). injection H as <-. split; [|done]. unfold validate_exact_alphabet in Hv. cbn zeta in Hv. destruct (_ || _) eqn:E; [done|].
    apply orb_false_iff in E as [E E4]. apply orb_false_iff in E as [E _]. apply orb_false_iff in E as [E1%bool_decide_eq_false _]. split; [done|].
    apply Forall_forall. intros c Hc. apply not_true_iff_false in E4. destruct (decide (c ∈ CTK64_ALPHABET)) as [|Hnot]; [done|]. exfalso. apply E4. apply existsb_exists. exists c.
    split; [by apply list_elem_of_In|]. by rewrite bool_decide_false.
  - destruct (starts_with_ignore_ascii_case _ _); [|done]. intros H. apply rbind_Ok in H as ([] & _ & H). discriminate H.
Qed.

Lemma decode_segment_inv input text document : extract_exact_payload input = Ok (Ctk64, text) -> decode_ctk3_segment input = Ok document -> decode_single_payload Ctk64 text = Ok document.
Proof.
  intros He H. unfold decode_ctk3_segment in H. apply rbind_Ok in H as (exact & _ & H). apply rbind_Ok in H as (bundled & _ & H). destruct bundled; [done|]. by rewrite He in H.
Qed.

Lemma bundle_segment_error_Ok {A} index (c : Result CtkFailure A) a : bundle_segment_error index c = Ok a -> c = Ok a.
Proof. unfold bundle_segment_error. destruct c as [a'|e]; [done|]. by destruct e. Qed.

Lemma bundle_loop_spec segments : forall index w count payloads result, bundle_loop index w count payloads segments = Ok result ->
  exists texts documents, result = payloads ++ texts /\ Forall2 (fun s d => decode_ctk3_segment s = Ok d) segments documents /\
    count + total_pages documents <= Z.max count CTK3_MAX_BUNDLE_PAGES /\
    (exists width, (forall w', w = Some w' -> width = w') /\ Forall2 (segment_of width) texts documents).
Proof.
  induction segments as [|segment segments IH]; intros index w count payloads result H; cbn [bundle_loop] in H.
  { injection H as <-. exists [], []. rewrite app_nil_r. split; [done|]. split; [done|]. split; [unfold total_pages; simpl; lia|]. exists (default 0%nat w). split; [by intros w' ->|done]. }
  apply rbind_Ok in H as ([transport text] & Ht & H). apply bundle_segment_error_Ok in Ht. cbn [fst snd] in H. case_bool_decide as Etr; [|done]. subst transport. cbn [negb] in H.
  apply rbind_Ok in H as (d & Hd & H). apply bundle_segment_error_Ok in Hd. destruct (_ || _) eqn:Ew; [|done]. apply rbind_Ok in H as (count' & Hc & H). apply ok_or_Ok, checked_add_Some in Hc as [_ ->].
  destruct (Z.ltb_spec CTK3_MAX_BUNDLE_PAGES (count + Z.of_nat (length (doc_pages d)))); [done|]. destruct (IH _ _ _ _ _ H) as (texts & ds & -> & H1 & H2 & width & H3 & H4).
  exists (text :: texts), (d :: ds). split; [by rewrite <- app_assoc|]. split; [by constructor|]. split; [rewrite total_pages_cons; lia|]. exists width. specialize (H3 _ eq_refl). subst width.
  split.
  - intros w' ->. apply orb_true_iff in Ew as [Ew|Ew]; [by apply bool_decide_eq_true in Ew|]. apply bool_decide_eq_true in Ew. by injection Ew.
  - constructor; [|done]. destruct (extract_exact_inv _ _ Ht) as [T1 T2]. split; [done|]. split; [done|]. split; [by eapply decode_segment_inv|done].
Qed.

Lemma encode_bundle_framed segments text : encode_ctk3_bundle segments = Ok text ->
  exists width texts documents, text = framed texts /\ texts <> [] /\ Z.of_nat (length texts) <= CTK3_MAX_BUNDLE_PAGES /\ total_pages documents <= CTK3_MAX_BUNDLE_PAGES /\
    Forall2 (fun s d => decode_ctk3_segment s = Ok d) segments documents /\ Forall2 (segment_of width) texts documents.
Proof.
  intros H. unfold encode_ctk3_bundle in H. apply rbind_Ok in H as (texts & Hb & H). unfold bundle_segments in Hb. destruct (_ || _) eqn:E; [done|]. apply orb_false_iff in E as [E1%bool_decide_eq_false E2%Z.ltb_ge].
  destruct (bundle_loop_spec _ _ _ _ _ _ Hb) as (texts' & ds & -> & H1 & H2 & width & _ & H3). cbn [app] in *. exists width, texts', ds.
  pose proof (Forall2_length _ _ _ H1). pose proof (Forall2_length _ _ _ H3). unfold CTK3_MAX_BUNDLE_PAGES in *.
  split; [by destruct texts' as [|? [|? ?]]; injection H as <-|]. split; [intros ->; by destruct segments, ds|]. split; [lia|]. split; [lia|done].
Qed.

(** *** The incremental writer *)

(** A sink in memory. *)
Definition memory_sink (bytes out : list Z) : Result Panic unit * list Z := (Ok tt, out ++ bytes).

(** Each text with a dot before it. *)
Definition dotted (texts : list (list Z)) : list Z := texts ≫= (fun text => 46 :: text).

Lemma join_dotted t texts : join_dots (t :: texts) = t ++ dotted texts.
Proof.
  revert t. induction texts as [|u texts IH]; intros t; [unfold dotted; simpl; by rewrite app_nil_r|]. change (join_dots (t :: u :: texts)) with (t ++ 46 :: join_dots (u :: texts)).
  by rewrite IH.
Qed.

Lemma write_payloads_dotted texts index out : (0 < index)%nat -> write_payloads memory_sink index texts out = (Ok tt, out ++ dotted texts).
Proof.
  revert index out. induction texts as [|t texts IH]; intros index out Hi; cbn [write_payloads]; [by rewrite app_nil_r|].
  rewrite (proj2 (Nat.eqb_neq _ _)) by lia. unfold sink_seq. cbn [sink_write memory_sink rmap_err]. rewrite IH by lia. unfold dotted. cbn [mbind list_bind]. by rewrite <- !app_assoc.
Qed.

Lemma write_payloads_join texts out : write_payloads memory_sink 0 texts out = (Ok tt, out ++ join_dots texts).
Proof.
  destruct texts as [|t texts]; [cbn; by rewrite app_nil_r|]. cbn [write_payloads Nat.eqb]. unfold sink_seq. cbn [sink_return sink_write memory_sink rmap_err].
  rewrite write_payloads_dotted by lia. by rewrite join_dotted, app_assoc.
Qed.

Lemma compact_segment_inv document segment : encode_ctk3_compact document = Ok segment -> exists text, segment = CTK3_PREFIX ++ text.
Proof.
  intros H. unfold encode_ctk3_compact in H. apply rbind_Ok in H as (pages & _ & H). apply rbind_Ok in H as (c & _ & H). unfold segment_text in H. apply rbind_Ok in H as (text & _ & H).
  injection H as <-. by exists text.
Qed.

Lemma write_segment_payload_memory text out : write_segment_payload memory_sink (CTK3_PREFIX ++ text) out = (Ok tt, out ++ text).
Proof. unfold write_segment_payload. rewrite take_app_length, bool_decide_true by done. rewrite drop_app_length. done. Qed.

Lemma write_segments_memory documents : forall index width count out out', write_segments memory_sink index width count documents out = (Ok tt, out') ->
  exists texts, out' = out ++ dotted texts /\ Forall2 (fun d t => encode_ctk3_compact d = Ok (CTK3_PREFIX ++ t) /\ doc_width d = width) documents texts /\
    count + total_pages documents <= Z.max count CTK3_MAX_BUNDLE_PAGES.
Proof.
  induction documents as [|d ds IH]; intros index width count out out' H; cbn [write_segments] in H.
  { injection H as <-. exists []. split; [by rewrite app_nil_r|]. split; [done|]. unfold total_pages. simpl. lia. }
  destruct (Nat.eqb_spec (doc_width d) width) as [Hw|]; cbn [negb] in H; [|done]. destruct (checked_add 64 count _) as [count'|] eqn:Ec; [|done]. apply checked_add_Some in Ec as [_ ->]. cbn [ok_or sink_bind] in H.
  destruct (Z.ltb_spec CTK3_MAX_BUNDLE_PAGES (count + Z.of_nat (length (doc_pages d)))); [done|]. destruct (encode_ctk3_compact d) as [segment|] eqn:Es; [|done]. cbn [sink_bind] in H.
  destruct (compact_segment_inv _ _ Es) as [text ->]. unfold sink_seq in H. cbn [sink_write memory_sink rmap_err] in H. rewrite write_segment_payload_memory in H.
  destruct (IH _ _ _ _ _ H) as (texts & -> & H1 & H2). exists (text :: texts). split; [unfold dotted; cbn [mbind list_bind]; by rewrite <- !app_assoc|]. split; [by constructor|]. rewrite total_pages_cons. lia.
Qed.

Lemma segmented_framed documents out : encode_ctk3_segmented_documents_into memory_sink documents [] = (Ok tt, out) ->
  exists width texts, out = framed texts /\ documents <> [] /\ Z.of_nat (length documents) <= CTK3_MAX_BUNDLE_PAGES /\ total_pages documents <= CTK3_MAX_BUNDLE_PAGES /\
    Forall2 (fun d t => encode_ctk3_compact d = Ok (CTK3_PREFIX ++ t) /\ doc_width d = width) documents texts.
Proof.
  intros H. unfold encode_ctk3_segmented_documents_into, encode_ctk3_segmented_documents_iter_into in H. rewrite Nat.eqb_refl in H. cbn [negb] in H.
  destruct (_ || _) eqn:E; [done|]. apply orb_false_iff in E as [_ E%Z.ltb_ge]. destruct documents as [|d ds]; [done|]. cbn zeta in H.
  destruct (Z.ltb_spec CTK3_MAX_BUNDLE_PAGES (Z.of_nat (length (doc_pages d)))); [done|]. destruct (encode_ctk3_compact d) as [segment|] eqn:Es; [|done]. cbn [sink_bind] in H.
  destruct (compact_segment_inv _ _ Es) as [text ->]. exists (doc_width d). destruct (Nat.eqb_spec (length (d :: ds)) 1) as [H1|H1].
  - destruct ds; [|done]. injection H as <-. exists [text]. split; [done|]. split; [done|]. split; [done|]. split; [rewrite total_pages_cons; unfold total_pages; simpl; lia|by repeat constructor].
  - unfold sink_seq in H. cbn [sink_write memory_sink rmap_err app] in H. rewrite write_segment_payload_memory in H. destruct (write_segments_memory _ _ _ _ _ _ H) as (texts & -> & H2 & H3).
    exists (text :: texts). pose proof (Forall2_length _ _ _ H2) as Hl. destruct texts as [|t texts]; [destruct ds; [simpl in H1; lia|done]|].
    split; [cbn [framed]; by rewrite join_dotted, <- app_assoc|]. split; [done|]. split; [done|]. split; [rewrite total_pages_cons; lia|by constructor].
Qed.

(** ** Errors of the encoder *)

Lemma normalize_page_post width index page : no_panic (normalize_page width index page) (fun _ => True).
Proof.
  unfold normalize_page. destruct (_ <? _)%nat; [done|]. eapply (no_panic_bind _ _ (fun _ => True)); [by apply no_panic_or_fail|]. intros _ _. destruct (negb _); [done|]. destruct (_ <? _); [done|]. cbn zeta.
  eapply (no_panic_bind _ _ (fun _ => True)).
  - unfold normalize_operation. destruct (page_operation page) as [op|]; [|done]. destruct (negb _); [done|]. eapply (no_panic_bind _ _ (fun _ => True)); [by apply no_panic_or_fail|]. intros c _. by destruct (negb _).
  - intros op _. eapply (no_panic_bind _ _ (fun _ => True)); [|done]. unfold normalize_garbage. destruct (page_garbage page); [|done]. by destruct (negb _).
Qed.

Lemma normalize_document_post document : no_panic (normalize_document document) (fun _ => True).
Proof.
  unfold normalize_document. destruct (_ || _); [done|]. destruct (_ || _); [done|]. generalize 0%nat. induction (doc_pages document) as [|page pages IH]; intros index; [done|]. cbn [normalize_pages].
  eapply no_panic_bind; [apply normalize_page_post|]. intros p _. eapply no_panic_bind; [apply IH|]. done.
Qed.

Lemma encoder_error encode document e : document_encoder encode -> Forall (fun p => string_ok (page_comment p)) (doc_pages document) -> encode document = Err e ->
  e <> CtkPanic /\ (normalize_document document = Err e \/ too_large (encode document)).
Proof.
  intros Henc Hs He. specialize (Henc document Hs). pose proof (normalize_document_post document) as Hn. destruct (normalize_document document) as [pages|e'] eqn:En.
  - destruct Henc as [(payload & E & _)|[[n E]|E]]; rewrite He in E; [discriminate E|..].
    + injection E as ->. split; [done|]. right. left. exists n. exact He.
    + injection E as ->. split; [done|]. right. right. exact He.
  - rewrite He in Henc. injection Henc as ->. split; [by intros ->|by left].
Qed.

Lemma chars_length_mono a b : (length a <= length b)%nat -> (length (ctk64_chars a) <= length (ctk64_chars b))%nat.
Proof. intros H. destruct (length_ctk64_chars a) as [La _]. destruct (length_ctk64_chars b) as [Lb _]. apply Nat2Z.inj_le. rewrite La, Lb. apply Z.div_le_mono; lia. Qed.

Lemma encode_ctk3_shortest document text compact : Forall (fun p => string_ok (page_comment p)) (doc_pages document) ->
  encode_ctk3 document = Ok text -> encode_ctk3_compact document = Ok compact -> (length text <= length compact)%nat.
Proof.
  intros Hs H1 H2. unfold encode_ctk3 in H1. unfold encode_ctk3_compact in H2. destruct (normalize_document document) as [pages|] eqn:En; [|done]. cbn [rbind] in *. pose proof (normalize_document_ok _ _ Hs En) as Hp.
  apply rbind_Ok in H2 as (c & Ec & H2). rewrite Ec in H1. cbn [rbind] in H1. apply rbind_Ok in H1 as (t & Et & H1). apply rbind_Ok in H1 as (cs & Ecs & H1).
  assert (forall revision shared d, shared_ok (doc_width document) shared -> revision_ok revision shared -> encode_normalized (doc_width document) pages revision shared = Ok d -> payload_ok (snd d)) as Hok.
  { intros revision shared d Hsh Hr Hd. destruct (encode_normalized_spec _ pages revision shared Hp Hsh Hr) as [(payload & E & Hpay & _)|[[n E]|E]]; rewrite Hd in E; [by injection E as ->|discriminate E..]. }
  assert (payload_ok (snd c)) as Hc by (by eapply (Hok _ None); [|left|]). rewrite segment_text_spec in H2 by done. apply Ok_inj in H2. subst compact.
  assert (Forall (fun d => payload_ok (snd d)) (c :: cs)) as Hall.
  { constructor; [done|]. assert (payload_ok (snd t)) as Ht by (by eapply (Hok _ None); [|right; left|]). destruct (build_shared_field pages (doc_width document)) as [sh|] eqn:Esh; [|injection Ecs as <-; by apply Forall_singleton].
    apply rbind_Ok in Ecs as (d & Ed & Ecs). injection Ecs as <-. apply Forall_cons. split; [done|]. apply Forall_singleton. pose proof (build_shared_field_ok _ _ Hp) as Hsh. rewrite Esh in Hsh.
    by eapply (Hok _ (Some sh)); [|right; right|]. }
  rewrite Forall_forall in Hall. rewrite segment_text_spec in H1 by (apply Hall, select_payload_elem). apply Ok_inj in H1. subst text. rewrite !length_app.
  apply Nat.add_le_mono_l, chars_length_mono, select_payload_least. constructor.
Qed.

(** ** The decoders *)

Lemma decode_one_safe transport encoded : no_panic (decode_single_payload transport encoded) (document_ok CTK3_MAX_BUNDLE_PAGES).
Proof. eapply no_panic_weaken; [apply decode_single_post|apply segment_limit_bundle]. Qed.

Lemma decode_exact_safe input : no_panic (decode_ctk3_exact input) (document_ok CTK3_MAX_BUNDLE_PAGES).
Proof.
  eapply no_panic_bind; [apply extract_exact_bundle_post|]. intros [payloads|] _; [apply decode_bundle_post|]. eapply no_panic_bind; [apply extract_exact_post|]. intros found _. apply decode_one_safe.
Qed.

(** ** The compatible decoder on a value *)

Lemma find_window_none b needle source index : (forall c, c ∈ source -> to_ascii_lowercase c <> b) -> b ∈ (to_ascii_lowercase <$> needle) -> find_window index source needle = None.
Proof.
  intros Hs Hb. revert index. induction source as [|c source IH]; intros index; cbn [find_window]; (destruct (_ <? _)%nat; [done|]).
  - replace (eq_ignore_ascii_case _ _) with false; [done|]. symmetry. apply bool_decide_eq_false. intros E. rewrite <- E in Hb. rewrite take_nil in Hb. by apply not_elem_of_nil in Hb.
  - replace (eq_ignore_ascii_case _ _) with false; [apply IH; intros d Hd; apply Hs; by right|]. symmetry. apply bool_decide_eq_false. intros E. rewrite <- E in Hb.
    apply list_elem_of_fmap in Hb as (d & -> & Hd). apply (Hs d); [|done]. apply elem_of_take in Hd as (i & Hi & _). by eapply list_elem_of_lookup_2.
Qed.

Lemma bytes_while_all f bytes : Forall (fun b => f b = true) bytes -> bytes_while f bytes = bytes.
Proof. induction 1 as [|b bytes Hb _ IH]; [done|]. cbn [bytes_while]. by rewrite Hb, IH. Qed.

Lemma find_window_head source needle index : eq_ignore_ascii_case (take (length needle) source) needle = true -> (length needle <= length source)%nat -> find_window index source needle = Some index.
Proof. intros H Hl. destruct source; cbn [find_window]; rewrite (proj2 (Nat.ltb_ge _ _)) by done; by rewrite H. Qed.

(** Where no bundle prefix occurs, the compatible decoder reads a value as the
    exact one does. *)
Lemma compatible_value text : payload_text text -> validate_exact_alphabet text Ctk64 = Ok tt -> find_ignore_ascii_case (CTK3_PREFIX ++ text) CTK3_BUNDLE_PREFIX = None ->
  decode_ctk3 (CTK3_PREFIX ++ text) = decode_ctk3_exact (CTK3_PREFIX ++ text) /\ decode_ctk3_segment (CTK3_PREFIX ++ text) = decode_ctk3_exact (CTK3_PREFIX ++ text).
Proof.
  intros Ht Hv Hf. pose proof (payload_text_graphic _ Ht) as Hg. rewrite (decode_exact_text text Ht Hv).
  assert (extract_compatible_bundle (CTK3_PREFIX ++ text) = Ok None) as Hb by (unfold extract_compatible_bundle; cbn zeta; by rewrite trim_value, Hf).
  split.
  - unfold decode_ctk3. rewrite Hb. cbn [rbind]. unfold extract_compatible_payload. cbn zeta. rewrite trim_value by done. unfold find_ignore_ascii_case.
    rewrite (find_window_head _ CTK3_PREFIX) by (by (rewrite take_app_length; apply bool_decide_eq_true) || (rewrite length_app; lia)). rewrite (find_window_none 64 CTK3_LEGACY_PREFIX); [| |decided].
    + cbn [rbind]. rewrite Nat.add_0_l, drop_app_length. destruct Ht as [Hne Hin]. rewrite bytes_while_all.
      * by rewrite bool_decide_false.
      * eapply Forall_impl; [exact Hin|]. intros c Hc. by apply bool_decide_eq_true.
    + intros c Hc. assert (Forall (fun c => to_ascii_lowercase c <> 64) (CTK3_PREFIX ++ text)) as HF; [|rewrite Forall_forall in HF; by apply HF].
      apply Forall_app. split; [decided|]. destruct Ht as [_ Hin]. eapply Forall_impl; [exact Hin|]. intros d Hd.
      assert (Forall (fun c => to_ascii_lowercase c <> 64) CTK64_ALPHABET) as HA by decided. rewrite Forall_forall in HA. by apply HA.
  - unfold decode_ctk3_segment. rewrite value_is_not_bundle by done. cbn [rbind]. rewrite Hb. cbn [rbind is_some]. by rewrite extract_exact_value.
Qed.

(** ** The properties of the codec *)

(** A document whose comments are strings. *)
Definition comments_ok (document : Ctk3Document) : Prop := Forall (fun p => string_ok (page_comment p)) (doc_pages document).

(** C15: A text of either encoder decodes, exactly, to a document of the same
    width whose normal form is the one of the encoded document. *)
Theorem ctk3_document_roundtrip (document : Ctk3Document) (text : list Z) :
  comments_ok document -> encode_ctk3 document = Ok text \/ encode_ctk3_compact document = Ok text ->
  exists pages decoded, normalize_document document = Ok pages /\ decode_ctk3_exact text = Ok decoded /\
    doc_width decoded = doc_width document /\ normalize_document decoded = Ok pages.
Proof.
  intros Hs Ht. assert (exists encode, document_encoder encode /\ encode document = Ok text) as (encode & Henc & He)
    by (destruct Ht; [by exists encode_ctk3; split; [apply encode_ctk3_spec|]|by exists encode_ctk3_compact; split; [apply encode_compact_spec|]]).
  destruct (encoder_roundtrip encode document text Henc Hs He) as (pages & decoded & payload & -> & Hok & Hd & Hn & Hw & _ & Hn'). exists pages, decoded.
  rewrite decode_exact_payload by done. done.
Qed.

(** The encoders never panic; on a document with a normal form they fail
    only when the payload is too large, and the chosen text is never longer
    than the compact one. *)
Theorem ctk3_encoding_errors (document : Ctk3Document) :
  comments_ok document ->
  (forall e, encode_ctk3 document = Err e -> e <> CtkPanic /\ (normalize_document document = Err e \/ too_large (encode_ctk3 document))) /\
  (forall e, encode_ctk3_compact document = Err e -> e <> CtkPanic /\ (normalize_document document = Err e \/ too_large (encode_ctk3_compact document))) /\
  (forall text compact, encode_ctk3 document = Ok text -> encode_ctk3_compact document = Ok compact -> (length text <= length compact)%nat).
Proof.
  intros Hs. split; [|split].
  - intros e. by apply encoder_error, Hs; apply encode_ctk3_spec.
  - intros e. by apply encoder_error, Hs; apply encode_compact_spec.
  - intros text compact. by apply encode_ctk3_shortest.
Qed.

(** C16: The decoders never panic, on any input, and a document they return is
    well formed: its dimensions are within the limits, every field has the
    announced size, comments are valid UTF-8 and operations are canonical. *)
Theorem ctk3_decoding_safe (input : list Z) :
  no_panic (decode_ctk3_exact input) (document_ok CTK3_MAX_BUNDLE_PAGES) /\
  no_panic (decode_ctk3 input) (document_ok CTK3_MAX_BUNDLE_PAGES) /\
  no_panic (decode_ctk3_segment input) (document_ok CTK3_MAX_SEGMENT_PAGES).
Proof.
  split; [apply decode_exact_safe|split].
  - eapply no_panic_bind; [apply extract_compatible_bundle_post|]. intros [payloads|] _; [apply decode_bundle_post|]. eapply no_panic_bind; [apply extract_compatible_post|]. intros found _. apply decode_one_safe.
  - eapply no_panic_bind; [apply extract_exact_bundle_post|]. intros exact _. eapply (no_panic_bind _ _ (fun _ => True)).
    { destruct exact; [done|]. by eapply no_panic_bind; [apply extract_compatible_bundle_post|]. }
    intros bundled _. destruct bundled; [done|]. eapply no_panic_bind; [apply extract_exact_post|]. intros found _. apply decode_single_post.
Qed.

(** C26: A bundle decodes, exactly, to one document of the segments' common
    width with the pages of all segments in order. *)
Theorem ctk3_bundle_roundtrip (segments : list (list Z)) (text : list Z) :
  encode_ctk3_bundle segments = Ok text ->
  exists width documents, Forall2 (fun s d => decode_ctk3_segment s = Ok d) segments documents /\ Forall (fun d => doc_width d = width) documents /\
    decode_ctk3_exact text = Ok (mkDocument width (documents ≫= doc_pages)).
Proof.
  intros H. destruct (encode_bundle_framed segments text H) as (width & texts & documents & -> & Hne & Hn & Hl & H1 & H2). exists width, documents. split; [done|].
  split; [|by apply decode_framed]. clear -H2. induction H2 as [|t d ts ds (_ & _ & _ & Hw) _ IH]; by constructor.
Qed.

(** The incremental bundle writer: what it writes to a sink decodes to the
    decoded pages of all the documents in order. *)
Theorem ctk3_segmented_roundtrip (documents : list Ctk3Document) (out : list Z) :
  Forall comments_ok documents -> encode_ctk3_segmented_documents_into memory_sink documents [] = (Ok tt, out) ->
  exists width parts, Forall (fun d => doc_width d = width) documents /\
    Forall2 (fun d part => exists pages, normalize_document d = Ok pages /\ normalized_to_pages pages = Ok part) documents parts /\
    decode_ctk3_exact out = Ok (mkDocument width (concat parts)).
Proof.
  intros Hs H. destruct (segmented_framed documents out H) as (width & texts & -> & Hne & Hn & Hl & H2). exists width.
  assert (exists decoded, Forall2 (segment_of width) texts decoded /\ total_pages decoded = total_pages documents /\
    Forall2 (fun d q => exists pages, normalize_document d = Ok pages /\ normalized_to_pages pages = Ok (doc_pages q)) documents decoded) as (decoded & D1 & D2 & D3).
  { clear Hne Hn Hl H. induction H2 as [|d t ds ts [Ht Hw] _ IH]; [by exists []|]. apply Forall_cons in Hs as [Hd Hs]. destruct (IH Hs) as (qs & Q1 & Q2 & Q3).
    destruct (encoder_roundtrip _ d _ encode_compact_spec Hd Ht) as (pages & q & payload & E & Hok & Hdec & Hnorm & Hqw & Hq & _). apply app_inv_head in E. subst t. exists (q :: qs). split; [|split].
    - constructor; [|done]. split; [by apply payload_chars_text|]. split; [by apply validate_ctk64_chars|]. split; [done|]. by rewrite Hqw.
    - rewrite !total_pages_cons, Q2. f_equal. pose proof (normalize_document_ok _ _ Hd Hnorm) as (_ & _ & _ & Hp). destruct (normalized_to_pages_ok _ _ Hp) as (q' & Hq' & H2). rewrite Hq in Hq'. apply Ok_inj in Hq'. subst q'.
      rewrite <- (Forall2_length _ _ _ H2). unfold normalize_document in Hnorm. destruct (_ || _) eqn:E1; [done|]. apply orb_false_iff in E1 as [_ E1%Nat.ltb_ge]. destruct (_ || _); [done|].
      destruct (normalize_pages_ok _ _ _ _ E1 Hd Hnorm) as [_ Hlen]. by rewrite Hlen.
    - constructor; [by exists pages|done]. }
  exists (doc_pages <$> decoded). split; [|split].
  - clear -H2. induction H2 as [|d t ds ts [_ Hw] _ IH]; by constructor.
  - clear -D3. induction D3 as [|d q ds qs Hd _ IH]; by constructor.
  - pose proof (Forall2_length _ _ _ H2). rewrite (decode_framed width texts decoded); [|by destruct texts, documents|lia|lia|done]. do 2 f_equal. clear. induction decoded as [|d ds IH]; [done|]. csimpl. by rewrite IH.
Qed.

(** C40: A value the exact decoder accepts, which the compatible decoder and
    the segment decoder reject: its payload happens to contain the letters of
    the bundle prefix, in some case.  Where it does not, all three agree. *)
Theorem compatible_decoder_needs_no_prefix :
  (exists document text, encode_ctk3 document = Ok text /\ decode_ctk3_exact text = Ok document /\
    decode_ctk3 text = invalid "bundle payload is invalid" /\ encode_ctk3_bundle [text] = fail (InvalidBundleSegment 0)) /\
  (forall document text, comments_ok document -> encode_ctk3 document = Ok text -> find_ignore_ascii_case text CTK3_BUNDLE_PREFIX = None ->
    decode_ctk3 text = decode_ctk3_exact text /\ decode_ctk3_segment text = decode_ctk3_exact text).
Proof.
  split.
  - exists (mkDocument 10 [mkPage 0 [] (str "aq97o" ++ [240; 159; 152; 128]) None default_flags None]), (str "ctk3_w0kCAZdhcTk3b_CfmIA45Q"). vm_compute. done.
  - intros document text Hs Ht Hf. destruct (encoder_roundtrip _ _ _ encode_ctk3_spec Hs Ht) as (pages & decoded & payload & -> & Hok & _).
    apply compatible_value; [by apply payload_chars_text|by apply validate_ctk64_chars|done].
Qed.

(** Writing a bundle to a sink in memory appends the text of the bundle,
    and nothing when the segments are rejected. *)
Theorem bundle_into_memory (segments : list (list Z)) (out : list Z) :
  encode_ctk3_bundle_into memory_sink segments out =
    match encode_ctk3_bundle segments with Ok text => (Ok tt, out ++ text) | Err e => (Err (Codec e), out) end.
Proof.
  unfold encode_ctk3_bundle_into, encode_ctk3_bundle. destruct (bundle_segments segments) as [payloads|e]; [|done]. cbn [sink_bind rbind]. destruct payloads as [|p [|q payloads]]; unfold sink_seq; cbn [sink_write memory_sink rmap_err].
  - rewrite write_payloads_join. by rewrite <- app_assoc.
  - by rewrite <- app_assoc.
  - rewrite write_payloads_join. by rewrite <- app_assoc.
Qed.

(** ** Examples

    The documents of [tests/fixtures/contracts/ctk3_native_interop.v1.tsv] and
    their texts. *)

Section Fixtures.
Let P := ColorPiece.
Let E := ColorEmpty.

Definition fixture_row (prefix : list Ctk3Color) : list Ctk3Color := prefix ++ replicate (10 - length prefix) ColorEmpty.

Definition fixture_page (height : nat) (cells : list Ctk3Color) (comment : list Z) : Ctk3Page := mkPage height cells comment None default_flags None.

Definition unicode_operation : Ctk3Document :=
  mkDocument 10 [mkPage 1 (fixture_row [ColorGray; E; E; E; P PieceI; P PieceI; P PieceI; P PieceI]) [236; 163; 188; 236; 132; 157; 32; 240; 159; 152; 128]
    (Some (mkOp PieceI Right 4 2)) (mkFlags true true true false false) (Some (fixture_row [E; ColorGray]))].

Definition temporal_repeat : Ctk3Document := mkDocument 10 (replicate 8 (fixture_page 1 (fixture_row [P PieceT; P PieceT; P PieceT]) (str "same"))).

Definition temporal_delta : Ctk3Document :=
  mkDocument 10 ((fun i => fixture_page 2 (fixture_row (replicate 4 (P PieceJ)) ++ fixture_row (replicate (i mod 10) E ++ [P PieceT]))
    (if (i mod 3 =? 0)%nat then str "A" else str "B")) <$> seq 0 12).

Definition shared_field : Ctk3Document :=
  mkDocument 10 ((fun i => fixture_page 2 (replicate 10 ColorGray ++ fixture_row (replicate (i mod 7) E ++ [P (if (i mod 2 =? 1)%nat then PieceS else PieceZ)])) []) <$> seq 0 10).
End Fixtures.

Example unicode_operation_text : encode_ctk3 unicode_operation = Ok (str "ctk3_w0mC52LiGfAcINGyj_KyE3aCwH9iAiJEEDE").
Proof. vm_compute. reflexivity. Qed.

Example temporal_repeat_text : encode_ctk3 temporal_repeat = Ok (str "ctk3_w0oQBECEAxzNhbWVWQGS3g").
Proof. vm_compute. reflexivity. Qed.

Example temporal_delta_text : encode_ctk3 temporal_delta = Ok (str "ctk3_w0uYKA-AQFQEJRdBQEVYciEEVAQmARWhyQhQEZxMABXhSUBFBEFGgIoogkwAFZEECaiIJsgIQGkmKAHF2Q").
Proof. vm_compute. reflexivity. Qed.

Example shared_field_text : encode_ctk3 shared_field = Ok (str "ctk3_w0uUAAEgKoIaQEXYAqgIbAAVoQugIrgBxgBJDKAiaAFUhDWAisAFV4U").
Proof. vm_compute. reflexivity. Qed.

Lemma unicode_comments : comments_ok unicode_operation.
Proof. by repeat constructor. Qed.

Lemma ctk3_document_roundtrip_witness : encode_ctk3 unicode_operation = Ok (str "ctk3_w0mC52LiGfAcINGyj_KyE3aCwH9iAiJEEDE") /\
  exists pages decoded, normalize_document unicode_operation = Ok pages /\ decode_ctk3_exact (str "ctk3_w0mC52LiGfAcINGyj_KyE3aCwH9iAiJEEDE") = Ok decoded /\
    doc_width decoded = doc_width unicode_operation /\ normalize_document decoded = Ok pages.
Proof.
  split; [vm_compute; reflexivity|]. apply (ctk3_document_roundtrip unicode_operation); [exact unicode_comments|left; vm_compute; reflexivity].
Defined.

Lemma repeat_comments : comments_ok temporal_repeat.
Proof. by repeat constructor. Qed.

Definition repeat_text : list Z := Eval vm_compute in match encode_ctk3 temporal_repeat with Ok text => text | Err _ => [] end.

Definition repeat_compact : list Z := Eval vm_compute in match encode_ctk3_compact temporal_repeat with Ok text => text | Err _ => [] end.

Lemma ctk3_encoding_errors_witness : encode_ctk3 temporal_repeat = Ok repeat_text /\ encode_ctk3_compact temporal_repeat = Ok repeat_compact /\
  (length repeat_text <= length repeat_compact)%nat.
Proof.
  split; [vm_compute; reflexivity|]. split; [vm_compute; reflexivity|].
  apply (proj2 (proj2 (ctk3_encoding_errors temporal_repeat repeat_comments))); vm_compute; reflexivity.
Defined.

Lemma ctk3_bundle_roundtrip_witness : exists width documents,
  Forall2 (fun s d => decode_ctk3_segment s = Ok d) [str "ctk3_w0oQBECEAxzNhbWVWQGS3g"; str "ctk3_w0kCAAdPCg"] documents /\ Forall (fun d => doc_width d = width) documents /\
    decode_ctk3_exact (str "ctk3b_w0oQBECEAxzNhbWVWQGS3g.w0kCAAdPCg") = Ok (mkDocument width (documents ≫= doc_pages)).
Proof. apply (ctk3_bundle_roundtrip [str "ctk3_w0oQBECEAxzNhbWVWQGS3g"; str "ctk3_w0kCAAdPCg"]). vm_compute. reflexivity. Defined.

Lemma ctk3_segmented_roundtrip_witness :
  exists width parts, Forall (fun d => doc_width d = width) [unicode_operation; unicode_operation] /\
    Forall2 (fun d part => exists pages, normalize_document d = Ok pages /\ normalized_to_pages pages = Ok part) [unicode_operation; unicode_operation] parts /\
    decode_ctk3_exact (str "ctk3b_w0mC52LiGfAcINGyj_KyE3aCwH9iAiJEEDE.w0mC52LiGfAcINGyj_KyE3aCwH9iAiJEEDE") = Ok (mkDocument width (concat parts)).
Proof.
  apply (ctk3_segmented_roundtrip [unicode_operation; unicode_operation] (str "ctk3b_w0mC52LiGfAcINGyj_KyE3aCwH9iAiJEEDE.w0mC52LiGfAcINGyj_KyE3aCwH9iAiJEEDE")).
  - constructor; [exact unicode_comments|]. constructor; [exact unicode_comments|constructor].
  - vm_compute. reflexivity.
Defined.
