(* ===== verification/CtkTransform.v ===== *)
(** * Transforms of CTK3 documents

    [clearra-ctk3/src/transform.rs]: bounded transforms of CTK3 texts.  Each
    decodes its sources, changes the document and encodes it again, and checks
    that the text decodes to the changed document. *)

From Stdlib Require Import ZArith Lia.
From stdpp Require Import prelude strings sorting.
From S2P Require Import Prelude Words CtkBigNat CtkBits CtkCells CtkPages CtkCodec CtkTemporal CtkTransport CtkDocument.

Local Open Scope Z_scope.

Definition MAX_TYPED_CTK3_TEXT_BYTES : Z := MAX_PAYLOAD_BYTES * 2.

(** [CodecFailed] is an error of the codec, or a panic in it. *)
Inductive TypedCtk3TransformError :=
| InputTooLarge (length : Z)
| OutputTooLarge (length : Z)
| TooManyPages (length : Z)
| EmptyDocumentSet
| EmptyDocument
| DocumentWidthMismatch (expected actual : nat)
| PageIndexOutOfRange (page_index page_count : nat)
| OperationMirrorUnavailable
| CapacityExceeded
| CodecFailed (e : CtkFailure)
| RoundTripMismatch.

Definition Transformed (A : Type) : Type := Result TypedCtk3TransformError A.

Definition codec {A} (c : Result CtkFailure A) : Transformed A := rmap_err CodecFailed c.

(** [usize::MAX]. *)
Definition USIZE_MAX : Z := 2 ^ 64 - 1.

Definition decode_bounded (source : list Z) : Transformed Ctk3Document :=
  if MAX_TYPED_CTK3_TEXT_BYTES <? Z.of_nat (length source) then Err (InputTooLarge (Z.of_nat (length source)))
  else
    let? document := codec (decode_ctk3_exact source) in
    if bool_decide (doc_pages document = []) then Err EmptyDocument
    else if CTK3_MAX_SEGMENT_PAGES <? Z.of_nat (length (doc_pages document)) then Err (TooManyPages (Z.of_nat (length (doc_pages document))))
    else Ok document.

Definition encode_checked (document : Ctk3Document) : Transformed (list Z) :=
  if bool_decide (doc_pages document = []) then Err EmptyDocument
  else if CTK3_MAX_SEGMENT_PAGES <? Z.of_nat (length (doc_pages document)) then Err (TooManyPages (Z.of_nat (length (doc_pages document))))
  else
    let? encoded := codec (encode_ctk3 document) in
    if MAX_TYPED_CTK3_TEXT_BYTES <? Z.of_nat (length encoded) then Err (OutputTooLarge (Z.of_nat (length encoded)))
    else
      let? decoded := codec (decode_ctk3_exact encoded) in
      if negb (bool_decide (decoded = document)) then Err RoundTripMismatch else Ok encoded.

Definition roundtrip_text (source : list Z) : Transformed (list Z) :=
  let? document := decode_bounded source in encode_checked document.

(** ** Combining and splitting *)

(** The fold of the source lengths. *)
Fixpoint total_input (total : Z) (sources : list (list Z)) : Transformed Z :=
  match sources with
  | [] => Ok total
  | source :: sources => let? total := ok_or (checked_add 64 total (Z.of_nat (length source))) (InputTooLarge USIZE_MAX) in total_input total sources
  end.

Fixpoint combine_rest (combined : Ctk3Document) (sources : list (list Z)) : Transformed Ctk3Document :=
  match sources with
  | [] => Ok combined
  | source :: sources =>
      let? document := decode_bounded source in
      if negb (doc_width document =? doc_width combined)%nat then Err (DocumentWidthMismatch (doc_width combined) (doc_width document))
      else
        let? page_count := ok_or (checked_add 64 (Z.of_nat (length (doc_pages combined))) (Z.of_nat (length (doc_pages document)))) (TooManyPages USIZE_MAX) in
        if CTK3_MAX_SEGMENT_PAGES <? page_count then Err (TooManyPages page_count)
        else combine_rest (mkDocument (doc_width combined) (doc_pages combined ++ doc_pages document)) sources
  end.

Definition combine_texts (sources : list (list Z)) : Transformed (list Z) :=
  match sources with
  | [] => Err EmptyDocumentSet
  | first :: rest =>
      let? total_input_bytes := total_input 0 sources in
      if MAX_TYPED_CTK3_TEXT_BYTES <? total_input_bytes then Err (InputTooLarge total_input_bytes)
      else
        let? combined := decode_bounded first in
        let? combined := combine_rest combined rest in
        encode_checked combined
  end.

(** The loop of [split]; a failed reservation of memory is not modelled. *)
Fixpoint split_pages (width : nat) (total_output_bytes : Z) (encoded_pages : list (list Z)) (pages : list Ctk3Page) : Transformed (list (list Z)) :=
  match pages with
  | [] => Ok encoded_pages
  | page :: pages =>
      let? encoded := encode_checked (mkDocument width [page]) in
      let? total_output_bytes := ok_or (checked_add 64 total_output_bytes (Z.of_nat (length encoded))) (OutputTooLarge USIZE_MAX) in
      if MAX_TYPED_CTK3_TEXT_BYTES <? total_output_bytes then Err (OutputTooLarge total_output_bytes)
      else split_pages width total_output_bytes (encoded_pages ++ [encoded]) pages
  end.

Definition split_text (source : list Z) : Transformed (list (list Z)) :=
  let? document := decode_bounded source in split_pages (doc_width document) 0 [] (doc_pages document).

Definition get_page (source : list Z) (page_index : nat) : Transformed (list Z) :=
  let? document := decode_bounded source in
  match doc_pages document !! page_index with
  | None => Err (PageIndexOutOfRange page_index (length (doc_pages document)))
  | Some page => encode_checked (mkDocument (doc_width document) [page])
  end.

(** ** Changes of the pages *)

(** [offset.rem_euclid(len)] and [rotate_left]; the length is not zero. *)
Definition shift_pages (offset : Z) (document : Ctk3Document) : Ctk3Document :=
  let amount := Z.to_nat (offset mod Z.of_nat (length (doc_pages document))) in
  mkDocument (doc_width document) (drop amount (doc_pages document) ++ take amount (doc_pages document)).

Definition page_shift (source : list Z) (offset : Z) : Transformed (list Z) :=
  let? document := decode_bounded source in encode_checked (shift_pages offset document).

Definition set_pages (f : Ctk3Page -> Ctk3Page) (document : Ctk3Document) : Ctk3Document := mkDocument (doc_width document) (f <$> doc_pages document).

Definition clean_page (p : Ctk3Page) : Ctk3Page :=
  mkPage (page_height p) (page_cells p) [] (page_operation p) (page_flags p) (page_garbage p).

Definition clean_comments (source : list Z) : Transformed (list Z) :=
  let? document := decode_bounded source in encode_checked (set_pages clean_page document).

Definition preserve_comments (source : list Z) : Transformed (list Z) := roundtrip_text source.

Definition gray_color (c : Ctk3Color) : Ctk3Color := match c with ColorEmpty => ColorEmpty | _ => ColorGray end.

Definition gray_page (p : Ctk3Page) : Ctk3Page :=
  mkPage (page_height p) (gray_color <$> page_cells p) (page_comment p) (page_operation p) (page_flags p)
    (match page_garbage p with Some garbage => Some (gray_color <$> garbage) | None => None end).

Definition to_gray (source : list Z) : Transformed (list Z) :=
  let? document := decode_bounded source in encode_checked (set_pages gray_page document).

(** ** Mirroring *)

Definition mirror_piece (p : Ctk3Piece) : Ctk3Piece :=
  match p with PieceJ => PieceL | PieceL => PieceJ | PieceS => PieceZ | PieceZ => PieceS | PieceI | PieceO | PieceT => p end.

Definition mirror_cell_color (c : Ctk3Color) : Ctk3Color := match c with ColorPiece p => ColorPiece (mirror_piece p) | ColorEmpty | ColorGray => c end.

(** [i64::try_from(width)] succeeds: a width is at most 31. *)
Definition mirror_operation (width : nat) (op : Ctk3Operation) : Transformed Ctk3Operation :=
  let target := (fun c : Z * Z => (Z.of_nat width - 1 - fst c, snd c)) <$> operation_cells op in
  ok_or (operation_from_cells (mirror_piece (op_piece op)) target) OperationMirrorUnavailable.

(** [chunks_exact_mut(width)]: each full row is reversed and recolored; a
    decoded page has no other cells. *)
Definition mirror_rows (width : nat) (cells : list Ctk3Color) : list Ctk3Color :=
  seq 0 (length cells / width) ≫= (fun row => mirror_cell_color <$> reverse (take width (drop (row * width) cells))).

Definition mirror_page (width : nat) (p : Ctk3Page) : Transformed Ctk3Page :=
  let cells := mirror_rows width (page_cells p) ++ drop (length (page_cells p) / width * width) (page_cells p) in
  let garbage := match page_garbage p with Some garbage => Some (mirror_cell_color <$> reverse garbage) | None => None end in
  let? operation := match page_operation p with Some op => rmap Some (mirror_operation width op) | None => Ok None end in
  Ok (mkPage (page_height p) cells (page_comment p) operation (page_flags p) garbage).

Fixpoint mirror_pages (width : nat) (pages : list Ctk3Page) : Transformed (list Ctk3Page) :=
  match pages with
  | [] => Ok []
  | page :: pages =>
      let? p := mirror_page width page in
      let? ps := mirror_pages width pages in
      Ok (p :: ps)
  end.

Definition mirror_document (document : Ctk3Document) : Transformed Ctk3Document :=
  let? pages := mirror_pages (doc_width document) (doc_pages document) in Ok (mkDocument (doc_width document) pages).

Definition mirror_text (source : list Z) : Transformed (list Z) :=
  let? document := decode_bounded source in
  let? document := mirror_document document in
  encode_checked document.

(** ** What the transforms return *)

Lemma codec_Ok {A} (c : Result CtkFailure A) a : codec c = Ok a -> c = Ok a.
Proof. by destruct c; [intros [= ->]|]. Qed.

Lemma encode_checked_Ok document text : encode_checked document = Ok text -> decode_ctk3_exact text = Ok document.
Proof.
  intros H. unfold encode_checked in H. destruct (bool_decide _); [done|]. destruct (_ <? _); [done|]. apply rbind_Ok in H as (encoded & _ & H). destruct (_ <? _); [done|].
  apply rbind_Ok in H as (decoded & Hd & H). apply codec_Ok in Hd. case_bool_decide as E; [|done]. cbn [negb] in H. injection H as <-. by subst.
Qed.

Lemma decode_bounded_Ok source document : decode_bounded source = Ok document -> decode_ctk3_exact source = Ok document /\ doc_pages document <> [] /\ Z.of_nat (length (doc_pages document)) <= CTK3_MAX_SEGMENT_PAGES.
Proof.
  intros H. unfold decode_bounded in H. destruct (_ <? _); [done|]. apply rbind_Ok in H as (d & Hd & H). apply codec_Ok in Hd. case_bool_decide; [done|].
  destruct (Z.ltb_spec CTK3_MAX_SEGMENT_PAGES (Z.of_nat (length (doc_pages d)))); [done|]. by injection H as <-.
Qed.

(** A transform by a change of the document. *)
Lemma transform_Ok (f : Ctk3Document -> Transformed Ctk3Document) source text :
  rbind (decode_bounded source) (fun document => rbind (f document) encode_checked) = Ok text ->
  exists before after, decode_ctk3_exact source = Ok before /\ f before = Ok after /\ decode_ctk3_exact text = Ok after /\ doc_pages before <> [].
Proof.
  intros H. apply rbind_Ok in H as (before & Hb & H). apply rbind_Ok in H as (after & Ha & H). apply decode_bounded_Ok in Hb as (Hb & Hne & _). apply encode_checked_Ok in H. by exists before, after.
Qed.

Lemma combine_rest_Ok sources combined result : combine_rest combined sources = Ok result ->
  exists documents, Forall2 (fun s d => decode_ctk3_exact s = Ok d /\ doc_width d = doc_width combined) sources documents /\
    result = mkDocument (doc_width combined) (doc_pages combined ++ (documents ≫= doc_pages)).
Proof.
  revert combined. induction sources as [|source sources IH]; intros combined H; cbn [combine_rest] in H.
  { injection H as <-. exists []. split; [done|]. rewrite app_nil_r. by destruct combined. }
  apply rbind_Ok in H as (d & Hd & H). apply decode_bounded_Ok in Hd as (Hd & _ & _). destruct (Nat.eqb_spec (doc_width d) (doc_width combined)) as [Hw|]; [|done]. cbn [negb] in H.
  apply rbind_Ok in H as (count & _ & H). destruct (_ <? _); [done|]. destruct (IH _ H) as (ds & Hds & ->). exists (d :: ds). cbn [doc_width doc_pages] in *. split; [by constructor|].
  cbn [mbind list_bind]. by rewrite app_assoc.
Qed.

Lemma split_pages_Ok width pages total acc texts : split_pages width total acc pages = Ok texts ->
  exists texts', texts = acc ++ texts' /\ Forall2 (fun p t => decode_ctk3_exact t = Ok (mkDocument width [p])) pages texts'.
Proof.
  revert total acc. induction pages as [|page pages IH]; intros total acc H; cbn [split_pages] in H.
  { injection H as <-. exists []. by rewrite app_nil_r. }
  apply rbind_Ok in H as (encoded & He & H). apply encode_checked_Ok in He. apply rbind_Ok in H as (total' & _ & H). destruct (_ <? _); [done|]. destruct (IH _ _ H) as (ts & -> & Hts).
  exists (encoded :: ts). split; [by rewrite <- app_assoc|by constructor].
Qed.

(** ** Mirroring is an involution *)

Lemma mirror_piece_invol p : mirror_piece (mirror_piece p) = p.
Proof. by destruct p. Qed.

Lemma mirror_cell_color_invol c : mirror_cell_color (mirror_cell_color c) = c.
Proof. destruct c; cbn; [done|done|by rewrite mirror_piece_invol]. Qed.

Lemma fmap_mirror_cell (l : list Ctk3Color) : mirror_cell_color <$> (mirror_cell_color <$> l) = l.
Proof. rewrite <- list_fmap_compose. rewrite <- (list_fmap_id l) at 2. apply list_fmap_ext. intros i c _. apply mirror_cell_color_invol. Qed.

Lemma operation_from_cells_spec piece target op : operation_from_cells piece target = Some op -> length target = 4%nat -> NoDup target -> op_piece op = piece /\ operation_cells op ≡ₚ target.
Proof.
  intros H Hl Hnd. unfold operation_from_cells in H. apply first_some_Some in H as (rotation & _ & H). apply first_some_Some in H as (cell & _ & H). apply first_some_Some in H as (offset & _ & H).
  unfold match_operation in H. destruct (try_i32 (fst cell - fst offset)) as [x|]; cbn [mbind option_bind] in H; [|done]. destruct (try_i32 (snd cell - snd offset)) as [y|]; cbn [mbind option_bind] in H; [|done].
  destruct (forallb _ _) eqn:E; [|done]. injection H as <-. split; [done|]. apply submseteq_length_Permutation; [|by rewrite length_cells, Hl].
  apply NoDup_submseteq; [apply NoDup_cells|]. intros p Hp. rewrite forallb_forall in E. specialize (E p (proj1 (list_elem_of_In _ _) Hp)). apply bool_decide_eq_true in E.
  unfold sort_cells in E. by rewrite merge_sort_Permutation in E.
Qed.

Lemma operation_from_cells_perm piece l1 l2 : l1 ≡ₚ l2 -> operation_from_cells piece l1 = operation_from_cells piece l2.
Proof. intros H. unfold operation_from_cells. by rewrite (sort_cells_perm _ _ H). Qed.

Definition mirror_target (width : nat) (cells : list (Z * Z)) : list (Z * Z) := (fun c : Z * Z => (Z.of_nat width - 1 - fst c, snd c)) <$> cells.

Lemma mirror_target_invol width cells : mirror_target width (mirror_target width cells) = cells.
Proof.
  unfold mirror_target. rewrite <- list_fmap_compose. rewrite <- (list_fmap_id cells) at 2. apply list_fmap_ext. intros i [x y] _. cbn. f_equal. lia.
Qed.

Lemma mirror_operation_invol width op op' : operation_ok op -> mirror_operation width op = Ok op' -> mirror_operation width op' = Ok op.
Proof.
  intros [Hcan _] H. unfold mirror_operation in *. apply ok_or_Ok in H. fold (mirror_target width (operation_cells op)) in H. fold (mirror_target width (operation_cells op')).
  destruct (operation_from_cells_spec _ _ _ H) as [Hp Hperm].
  - unfold mirror_target. by rewrite length_fmap, length_cells.
  - unfold mirror_target. apply NoDup_fmap; [|apply NoDup_cells]. intros [x1 y1] [x2 y2]. cbn. intros [= H1 H2]. f_equal; lia.
  - rewrite Hp, mirror_piece_invol. rewrite (operation_from_cells_perm _ _ (operation_cells op)).
    + unfold canonicalize_operation in Hcan. rewrite (operation_from_cells_perm _ _ (operation_cells op)) in Hcan by apply merge_sort_Permutation. by rewrite Hcan.
    + rewrite <- (mirror_target_invol width (operation_cells op)). by apply fmap_Permutation.
Qed.

(** The first row of the mirrored field is the first row, reversed and
    recolored. *)
Lemma mirror_rows_app width row rest : (1 <= width)%nat -> length row = width -> mirror_rows width (row ++ rest) = (mirror_cell_color <$> reverse row) ++ mirror_rows width rest.
Proof.
  intros Hw Hl. unfold mirror_rows. rewrite length_app, Hl. replace (width + length rest)%nat with (length rest + 1 * width)%nat by lia. rewrite Nat.div_add by lia.
  rewrite Nat.add_1_r. cbn [seq mbind list_bind]. f_equal; [rewrite Nat.mul_0_l, drop_0; do 2 f_equal; by rewrite take_app_length'|].
  rewrite <- fmap_S_seq. generalize (length rest / width)%nat. intros n. generalize 0%nat. induction n as [|n IH]; intros k; [done|].
  cbn [seq fmap list_fmap mbind list_bind]. f_equal; [|apply IH]. do 3 f_equal. rewrite drop_app_ge by (rewrite Hl; simpl; lia). f_equal. rewrite Hl. simpl. lia.
Qed.

Lemma mirror_rows_invol width h cells : (1 <= width)%nat -> length cells = (h * width)%nat -> mirror_rows width (mirror_rows width cells) = cells /\ length (mirror_rows width cells) = length cells.
Proof.
  intros Hw. revert cells. induction h as [|h IH]; intros cells Hl.
  { destruct cells; [|done]. assert (mirror_rows width [] = []) as E by (unfold mirror_rows; cbn [length]; by rewrite Nat.Div0.div_0_l). by rewrite !E. }
  rewrite <- (take_drop width cells). assert (length (take width cells) = width) as Ht by (rewrite length_take; simpl in Hl; lia).
  destruct (IH (drop width cells)) as [I1 I2]; [rewrite length_drop; simpl in Hl; lia|]. rewrite mirror_rows_app by done. split.
  - rewrite mirror_rows_app by (done || by rewrite length_fmap, length_reverse). rewrite I1. f_equal. rewrite <- fmap_reverse, fmap_mirror_cell. apply reverse_involutive.
  - rewrite !length_app, length_fmap, length_reverse, I2. done.
Qed.

(** A page whose mirror image is well defined. *)
Lemma mirror_page_invol width p q : (1 <= width)%nat -> decoded_page_ok width p -> mirror_page width p = Ok q -> mirror_page width q = Ok p.
Proof.
  intros Hw (_ & Hl & _ & _ & Hop & _) H. unfold mirror_page in H. cbn zeta in H. apply rbind_Ok in H as (op & Ho & H). injection H as <-. unfold mirror_page. cbn [page_height page_cells page_comment page_operation page_flags page_garbage]. cbn zeta.
  destruct (mirror_rows_invol width (page_height p) (page_cells p) Hw Hl) as [I1 I2]. rewrite (drop_ge (page_cells p)), app_nil_r by (rewrite Hl, Nat.div_mul by lia; done). rewrite I1, I2.
  rewrite (drop_ge (mirror_rows width (page_cells p))), app_nil_r by (rewrite I2, Hl, Nat.div_mul by lia; done).
  assert (match op with Some op => rmap Some (mirror_operation width op) | None => Ok None end = Ok (page_operation p)) as ->.
  { destruct (page_operation p) as [o|]; [|by injection Ho as <-]. destruct (mirror_operation width o) as [o'|] eqn:E; [|done]. injection Ho as <-. by rewrite (mirror_operation_invol width o o' (Hop o eq_refl) E). }
  cbn [rbind]. f_equal. destruct p as [h cells comment operation flags garbage]. cbn. f_equal. destruct garbage as [g|]; [|done]. by rewrite <- fmap_reverse, fmap_mirror_cell, reverse_involutive.
Qed.

Lemma mirror_pages_invol width ps qs : (1 <= width)%nat -> Forall (decoded_page_ok width) ps -> mirror_pages width ps = Ok qs -> mirror_pages width qs = Ok ps.
Proof.
  intros Hw Hp. revert qs. induction Hp as [|p ps Hp _ IH]; intros qs H; cbn [mirror_pages] in H; [by injection H as <-|]. apply rbind_Ok in H as (q & Hq & H). apply rbind_Ok in H as (qs' & Hqs & H).
  injection H as <-. cbn [mirror_pages]. rewrite (mirror_page_invol width p q) by done. cbn [rbind]. by rewrite (IH qs').
Qed.

Lemma decoded_exact_ok source document : decode_ctk3_exact source = Ok document -> document_ok CTK3_MAX_BUNDLE_PAGES document.
Proof. intros H. pose proof (decode_exact_safe source) as Hs. rewrite H in Hs. exact Hs. Qed.

Lemma mirror_document_invol source before after : decode_ctk3_exact source = Ok before -> mirror_document before = Ok after -> mirror_document after = Ok before.
Proof.
  intros Hd H. destruct (decoded_exact_ok _ _ Hd) as (Hw & _ & Hp). unfold mirror_document in *. apply rbind_Ok in H as (qs & Hq & H). injection H as <-. cbn [doc_width doc_pages].
  rewrite (mirror_pages_invol _ (doc_pages before) qs) by (done || lia). cbn [rbind]. by destruct before.
Qed.

(** ** The properties of the transforms *)

(** A transformed text decodes to the transformed document: the round
    trip keeps it, cleaning empties the comments, graying maps colors, the page
    taken is the one asked for, and pages are rotated by the offset modulo
    their number. *)
Theorem transforms_act_on_documents (source text : list Z) :
  (roundtrip_text source = Ok text -> decode_ctk3_exact text = decode_ctk3_exact source) /\
  (clean_comments source = Ok text -> exists d, decode_ctk3_exact source = Ok d /\ decode_ctk3_exact text = Ok (set_pages clean_page d)) /\
  (to_gray source = Ok text -> exists d, decode_ctk3_exact source = Ok d /\ decode_ctk3_exact text = Ok (set_pages gray_page d)) /\
  (forall i, get_page source i = Ok text -> exists d p, decode_ctk3_exact source = Ok d /\ doc_pages d !! i = Some p /\ decode_ctk3_exact text = Ok (mkDocument (doc_width d) [p])) /\
  (forall offset, page_shift source offset = Ok text -> exists d, decode_ctk3_exact source = Ok d /\ decode_ctk3_exact text = Ok (shift_pages offset d)).
Proof.
  assert (forall f : Ctk3Document -> Ctk3Document, rbind (decode_bounded source) (fun d => encode_checked (f d)) = Ok text ->
    exists d, decode_ctk3_exact source = Ok d /\ decode_ctk3_exact text = Ok (f d)) as Hf.
  { intros f H. destruct (transform_Ok (fun d => Ok (f d)) source text H) as (d & d' & H1 & [= <-] & H2 & _). by exists d. }
  split; [|split; [|split; [|split]]].
  - intros H. destruct (Hf (fun d => d) H) as (d & -> & ->). done.
  - apply (Hf (set_pages clean_page)).
  - apply (Hf (set_pages gray_page)).
  - intros i H. unfold get_page in H. apply rbind_Ok in H as (d & Hd & H). apply decode_bounded_Ok in Hd as (Hd & _). destruct (doc_pages d !! i) as [p|] eqn:Ep; [|done]. apply encode_checked_Ok in H. by exists d, p.
  - intros offset. apply (Hf (shift_pages offset)).
Qed.

(** Splitting a text into its pages and combining the parts gives a text
    of the same document. *)
Theorem split_then_combine (source text : list Z) (parts : list (list Z)) :
  split_text source = Ok parts -> combine_texts parts = Ok text -> decode_ctk3_exact text = decode_ctk3_exact source.
Proof.
  intros Hs Hc. unfold split_text in Hs. apply rbind_Ok in Hs as (d & Hd & Hs). apply decode_bounded_Ok in Hd as (Hd & Hne & _). destruct (split_pages_Ok _ _ _ _ _ Hs) as (ts & -> & H2). cbn [app] in *.
  unfold combine_texts in Hc. destruct ts as [|t ts]; [done|]. apply rbind_Ok in Hc as (total & _ & Hc). destruct (_ <? _); [done|]. apply rbind_Ok in Hc as (first & Hf & Hc). apply rbind_Ok in Hc as (result & Hr & Hc).
  apply encode_checked_Ok in Hc. rewrite Hc, Hd. f_equal. apply decode_bounded_Ok in Hf as (Hf & _). destruct (combine_rest_Ok _ _ _ Hr) as (ds & Hds & ->).
  inversion H2 as [|p t' ps ts' Ht Hts Ep Et]. subst. rewrite Hf in Ht. injection Ht as ->. cbn [doc_width doc_pages] in *.
  assert (ds ≫= doc_pages = ps) as ->; [|destruct d; cbn in *; by subst]. clear -Hds Hts. revert ds Hds. induction Hts as [|p t ps ts Ht _ IH]; intros ds Hds; inversion Hds as [|? e ? ds' [He _] Hds']; subst; [done|].
  rewrite Ht in He. injection He as <-. cbn [mbind list_bind doc_pages app]. f_equal. by apply IH.
Qed.

(** Mirroring twice gives a text of the same document. *)
Theorem mirror_text_involution (source once twice : list Z) :
  mirror_text source = Ok once -> mirror_text once = Ok twice -> decode_ctk3_exact twice = decode_ctk3_exact source.
Proof.
  intros H1 H2. destruct (transform_Ok mirror_document source once H1) as (d0 & d1 & A1 & A2 & A3 & _). destruct (transform_Ok mirror_document once twice H2) as (e1 & d2 & B1 & B2 & B3 & _).
  rewrite A3 in B1. injection B1 as <-. rewrite (mirror_document_invol _ _ _ A1 A2) in B2. injection B2 as <-. by rewrite A1, B3.
Qed.

(** ** Examples *)

(** The document of the unit tests. *)
Definition sample_pages : Ctk3Document :=
  mkDocument 4
    [mkPage 2 [ColorPiece PieceJ; ColorEmpty; ColorEmpty; ColorPiece PieceS; ColorEmpty; ColorPiece PieceI; ColorEmpty; ColorEmpty] (str "first")
       (Some (mkOp PieceJ Right 1 1)) (mkFlags true true true false false) (Some [ColorPiece PieceL; ColorEmpty; ColorEmpty; ColorEmpty]);
     mkPage 1 [ColorEmpty; ColorPiece PieceT; ColorEmpty; ColorEmpty] (str "second") None default_flags None].

Definition sample_text : list Z := Eval vm_compute in match encode_ctk3 sample_pages with Ok text => text | Err _ => [] end.

Definition sample_parts : list (list Z) := Eval vm_compute in match split_text sample_text with Ok parts => parts | Err _ => [] end.

Definition sample_mirrored : list Z := Eval vm_compute in match mirror_text sample_text with Ok text => text | Err _ => [] end.

Definition sample_cleaned : list Z := Eval vm_compute in match clean_comments sample_text with Ok text => text | Err _ => [] end.

Lemma transforms_act_on_documents_witness : exists d, decode_ctk3_exact sample_text = Ok d /\ decode_ctk3_exact sample_cleaned = Ok (set_pages clean_page d).
Proof. apply (proj1 (proj2 (transforms_act_on_documents sample_text sample_cleaned))). vm_compute. reflexivity. Defined.

Lemma split_then_combine_witness : length sample_parts = 2%nat /\ decode_ctk3_exact sample_text = decode_ctk3_exact sample_text.
Proof. split; [reflexivity|]. apply (split_then_combine sample_text sample_text sample_parts); vm_compute; reflexivity. Defined.

Lemma mirror_text_involution_witness : sample_mirrored <> sample_text /\ decode_ctk3_exact sample_text = decode_ctk3_exact sample_text.
Proof. split; [by vm_compute|]. apply (mirror_text_involution sample_text sample_mirrored sample_text); vm_compute; reflexivity. Defined.
