(* ===== verification/Kicks.v ===== *)
(** * Rotations, tetromino shapes and kick tables

    The rotation states of [clearra-core-domain/src/piece/rotation.rs], the
    shapes of [clearra-piece-registry/src/standard/tetromino_shapes.rs] with
    the registry that holds them, and the kick tables of
    [clearra-rules/src/kicks]: offsets, profiles, and the verification an
    imported profile goes through.  Coordinates are bottom up. *)

From Stdlib Require Import ZArith Lia.
From stdpp Require Import prelude gmap sorting strings.
From S2P Require Import Prelude Words Pieces.

Local Open Scope Z_scope.

(** ** Rotation states *)

Inductive RotationState := Zero | Right | Two | Left.

#[export] Instance RotationState_eq_dec : EqDecision RotationState.
Proof. solve_decision. Defined.

Definition ALL_ROTATIONS : list RotationState := [Zero; Right; Two; Left].

Definition rotation_from_turns (turns : Z) : option RotationState :=
  match turns with
  | 0 => Some Zero
  | 1 => Some Right
  | 2 => Some Two
  | 3 => Some Left
  | _ => None
  end.

Definition quarter_turns (r : RotationState) : Z :=
  match r with Zero => 0 | Right => 1 | Two => 2 | Left => 3 end.

Definition clockwise (r : RotationState) : RotationState :=
  match r with Zero => Right | Right => Two | Two => Left | Left => Zero end.

Definition counter_clockwise (r : RotationState) : RotationState :=
  match r with Zero => Left | Right => Zero | Two => Right | Left => Two end.

Definition rotated_180 (r : RotationState) : RotationState := clockwise (clockwise r).

Inductive RotationTransitionKind := NoTransition | Clockwise90 | CounterClockwise90 | OneEighty.

#[export] Instance RotationTransitionKind_eq_dec : EqDecision RotationTransitionKind.
Proof. solve_decision. Defined.

Definition transition_kind (from to : RotationState) : RotationTransitionKind :=
  if bool_decide (from = to) then NoTransition
  else if bool_decide (clockwise from = to) then Clockwise90
  else if bool_decide (counter_clockwise from = to) then CounterClockwise90
  else OneEighty.

Definition is_90 (from to : RotationState) : bool :=
  match transition_kind from to with Clockwise90 | CounterClockwise90 => true | _ => false end.

Definition is_180 (from to : RotationState) : bool := bool_decide (transition_kind from to = OneEighty).

(** ** Shapes *)

Notation ShapeCell := (Z * Z)%type.

Record PieceDefinition := mkDefinition { def_kind : PieceKind; def_rotations : list (list ShapeCell) }.

Definition I_DEFINITION : PieceDefinition := mkDefinition PI
  [[(0, 0); (1, 0); (2, 0); (3, 0)];
   [(0, 0); (0, 1); (0, 2); (0, 3)];
   [(0, 0); (1, 0); (2, 0); (3, 0)];
   [(0, 0); (0, 1); (0, 2); (0, 3)]].

Definition O_DEFINITION : PieceDefinition := mkDefinition PO
  [[(0, 0); (1, 0); (0, 1); (1, 1)];
   [(0, 0); (1, 0); (0, 1); (1, 1)];
   [(0, 0); (1, 0); (0, 1); (1, 1)];
   [(0, 0); (1, 0); (0, 1); (1, 1)]].

Definition T_DEFINITION : PieceDefinition := mkDefinition PT
  [[(0, 0); (1, 0); (2, 0); (1, 1)];
   [(0, 0); (0, 1); (0, 2); (1, 1)];
   [(0, 1); (1, 1); (2, 1); (1, 0)];
   [(1, 0); (1, 1); (1, 2); (0, 1)]].

Definition S_DEFINITION : PieceDefinition := mkDefinition PS
  [[(0, 0); (1, 0); (1, 1); (2, 1)];
   [(1, 0); (0, 1); (1, 1); (0, 2)];
   [(0, 0); (1, 0); (1, 1); (2, 1)];
   [(1, 0); (0, 1); (1, 1); (0, 2)]].

Definition Z_DEFINITION : PieceDefinition := mkDefinition PZ
  [[(1, 0); (2, 0); (0, 1); (1, 1)];
   [(0, 0); (0, 1); (1, 1); (1, 2)];
   [(1, 0); (2, 0); (0, 1); (1, 1)];
   [(0, 0); (0, 1); (1, 1); (1, 2)]].

Definition J_DEFINITION : PieceDefinition := mkDefinition PJ
  [[(0, 1); (0, 0); (1, 0); (2, 0)];
   [(0, 0); (0, 1); (0, 2); (1, 2)];
   [(0, 1); (1, 1); (2, 1); (2, 0)];
   [(0, 0); (1, 0); (1, 1); (1, 2)]].

Definition L_DEFINITION : PieceDefinition := mkDefinition PL
  [[(2, 1); (0, 0); (1, 0); (2, 0)];
   [(0, 0); (0, 1); (0, 2); (1, 0)];
   [(0, 1); (1, 1); (2, 1); (0, 0)];
   [(0, 2); (1, 0); (1, 1); (1, 2)]].

Definition STANDARD_TETROMINO_DEFINITIONS : list PieceDefinition :=
  [I_DEFINITION; O_DEFINITION; T_DEFINITION; S_DEFINITION; Z_DEFINITION; J_DEFINITION; L_DEFINITION].

(** [PieceRegistry::get]. *)
Definition registry_get (definitions : list PieceDefinition) (kind : PieceKind) : option PieceDefinition :=
  snd <$> list_find (fun d => def_kind d = kind) definitions.

(** [PieceDefinition::shape]; a definition has four rotations. *)
Definition shape (d : PieceDefinition) (r : RotationState) : list ShapeCell :=
  def_rotations d !!! Z.to_nat (quarter_turns r).

(** [PieceRotationShape::width] and [height]. *)
Definition shape_width (cells : list ShapeCell) : Z :=
  match cells with [] => 0 | c :: cells => foldl (fun m d => Z.max m (fst d)) (fst c) cells + 1 end.

Definition shape_height (cells : list ShapeCell) : Z :=
  match cells with [] => 0 | c :: cells => foldl (fun m d => Z.max m (snd d)) (snd c) cells + 1 end.

(** The shape of a standard piece; the registry holds every one of them. *)
Definition piece_shape (piece : PieceKind) (r : RotationState) : list ShapeCell :=
  match registry_get STANDARD_TETROMINO_DEFINITIONS piece with Some d => shape d r | None => [] end.

(** ** Kick tables *)

Notation KickOffset := (Z * Z)%type.

Record KickTransition := mkTransition { tr_piece : PieceKind; tr_from : RotationState; tr_to : RotationState }.

#[export] Instance KickTransition_eq_dec : EqDecision KickTransition.
Proof. solve_decision. Defined.

Definition transition_is_180 (t : KickTransition) : bool := is_180 (tr_from t) (tr_to t).

(** [unsupported_reason] holds a message; only its presence matters here. *)
Record KickTableEntry := mkEntry { entry_transition : KickTransition; entry_offsets : list KickOffset; unsupported_reason : option string }.

Definition entry_new (t : KickTransition) (offsets : list KickOffset) : KickTableEntry := mkEntry t offsets None.

Inductive KickTableProfileId := Srs90Id | NoKickId | SrsPlusId | SrsXId | Jstris180Id | AscId | ArsId | ImportedId | CustomId.

Inductive RuleProfileId := SrsPlus | Srs | SrsX | Jstris180 | Asc | Ars | RuleNoKick | RuleCustom.

#[export] Instance RuleProfileId_eq_dec : EqDecision RuleProfileId.
Proof. solve_decision. Defined.

Record KickTableProfile := mkProfile { profile_id : KickTableProfileId; source_rule : RuleProfileId; entries : list KickTableEntry }.

Definition sequence_for (profile : KickTableProfile) (t : KickTransition) : option (list KickOffset) :=
  (fun found => entry_offsets (snd found)) <$> list_find (fun e => entry_transition e = t) (entries profile).

Definition supports_180 (profile : KickTableProfile) : bool :=
  existsb (fun e => transition_is_180 (entry_transition e) && negb (bool_decide (entry_offsets e = []))) (entries profile).

Definition no_kick : list KickOffset := [(0, 0)].

(** ** The offsets *)

Definition jlstz_offsets (from to : RotationState) : list KickOffset :=
  match from, to with
  | Zero, Right => [(0, 0); (-1, 0); (-1, 1); (0, -2); (-1, -2)]
  | Right, Zero | Right, Two => [(0, 0); (1, 0); (1, -1); (0, 2); (1, 2)]
  | Two, Right => [(0, 0); (-1, 0); (-1, 1); (0, -2); (-1, -2)]
  | Two, Left | Zero, Left => [(0, 0); (1, 0); (1, 1); (0, -2); (1, -2)]
  | Left, Two | Left, Zero => [(0, 0); (-1, 0); (-1, -1); (0, 2); (-1, 2)]
  | _, _ => []
  end.

Definition srs_i_offsets (from to : RotationState) : list KickOffset :=
  match from, to with
  | Zero, Right | Left, Two => [(0, 0); (-2, 0); (1, 0); (-2, -1); (1, 2)]
  | Right, Zero | Two, Left => [(0, 0); (2, 0); (-1, 0); (2, 1); (-1, -2)]
  | Right, Two | Zero, Left => [(0, 0); (-1, 0); (2, 0); (-1, 2); (2, -1)]
  | Two, Right | Left, Zero => [(0, 0); (1, 0); (-2, 0); (1, -2); (-2, 1)]
  | _, _ => []
  end.

Definition srs_plus_i_offsets (from to : RotationState) : list KickOffset :=
  match from, to with
  | Zero, Right => [(0, 0); (1, 0); (-2, 0); (-2, -1); (1, 2)]
  | Right, Zero => [(0, 0); (-1, 0); (2, 0); (-1, -2); (2, 1)]
  | Right, Two => [(0, 0); (-1, 0); (2, 0); (-1, 2); (2, -1)]
  | Two, Right => [(0, 0); (-2, 0); (1, 0); (-2, 1); (1, -2)]
  | Zero, Left => [(0, 0); (-1, 0); (2, 0); (2, -1); (-1, 2)]
  | Left, Zero => [(0, 0); (1, 0); (-2, 0); (1, -2); (-2, 1)]
  | Left, Two => [(0, 0); (1, 0); (-2, 0); (1, 2); (-2, -1)]
  | Two, Left => [(0, 0); (2, 0); (-1, 0); (2, 1); (-1, -2)]
  | _, _ => []
  end.

Definition eight_direction_transitions : list (RotationState * RotationState) :=
  [(Zero, Right); (Right, Two); (Two, Left); (Left, Zero); (Zero, Left); (Left, Two); (Two, Right); (Right, Zero)].

Definition one_eighty_transitions : list (RotationState * RotationState) :=
  [(Zero, Two); (Right, Left); (Two, Zero); (Left, Right)].

Definition twelve_direction_transitions : list (RotationState * RotationState) :=
  eight_direction_transitions ++ one_eighty_transitions.

Definition srs_plus_jlstz_180_offsets (from to : RotationState) : list KickOffset :=
  match from, to with
  | Zero, Two => [(0, 0); (0, 1); (1, 1); (-1, 1); (1, 0); (-1, 0)]
  | Two, Zero => [(0, 0); (0, -1); (-1, -1); (1, -1); (-1, 0); (1, 0)]
  | Right, Left => [(0, 0); (1, 0); (1, 2); (1, 1); (0, 2); (0, 1)]
  | Left, Right => [(0, 0); (-1, 0); (-1, 2); (-1, 1); (0, 2); (0, 1)]
  | _, _ => []
  end.

Definition jstris_180_offsets (from to : RotationState) : list KickOffset :=
  match from, to with
  | Zero, Two => [(0, 0); (0, 1)]
  | Right, Left => [(0, 0); (1, 0)]
  | Two, Zero => [(0, 0); (0, -1)]
  | Left, Right => [(0, 0); (-1, 0)]
  | _, _ => []
  end.

Definition srs_plus_i_180_offsets (from to : RotationState) : list KickOffset := jstris_180_offsets from to.

Definition srs_x_jlstz_offsets (from to : RotationState) : list KickOffset :=
  match from, to with
  | Zero, Two => [(0, 0); (1, 0); (2, 0); (1, -1); (2, -1); (-1, 0); (-2, 0); (-1, -1); (-2, -1); (0, 1); (3, 0); (-3, 0)]
  | Right, Left => [(0, 0); (0, -1); (0, -2); (-1, -1); (-1, -2); (0, 1); (0, 2); (-1, 1); (-1, 2); (1, 0); (0, -3); (0, 3)]
  | Two, Zero => [(0, 0); (-1, 0); (-2, 0); (-1, 1); (-2, 1); (1, 0); (2, 0); (1, 1); (2, 1); (0, -1); (-3, 0); (3, 0)]
  | Left, Right => [(0, 0); (0, -1); (0, -2); (1, -1); (1, -2); (0, 1); (0, 2); (1, 1); (1, 2); (-1, 0); (0, -3); (0, 3)]
  | _, _ => jlstz_offsets from to
  end.

Definition srs_x_i_offsets (from to : RotationState) : list KickOffset :=
  match from, to with
  | Zero, Two => [(0, 0); (-1, 0); (-2, 0); (1, 0); (2, 0); (0, -1)]
  | Right, Left => [(0, 0); (0, -1); (0, -2); (0, 1); (0, 2); (-1, 0)]
  | Two, Zero => [(0, 0); (1, 0); (2, 0); (-1, 0); (-2, 0); (0, 1)]
  | Left, Right => [(0, 0); (0, -1); (0, -2); (0, 1); (0, 2); (1, 0)]
  | _, _ => srs_i_offsets from to
  end.

Definition srs_x_o_offsets (from to : RotationState) : list KickOffset :=
  if bool_decide ((from, to) ∈ twelve_direction_transitions) then [(0, 0)] else [].

(** ** The built-in profiles *)

(** [SrsKicks::sequence]. *)
Definition srs_sequence (t : KickTransition) : list KickOffset :=
  if bool_decide (tr_piece t = PO) then no_kick
  else if bool_decide (tr_piece t = PI) then srs_i_offsets (tr_from t) (tr_to t)
  else jlstz_offsets (tr_from t) (tr_to t).

(** [flat_map] over the pieces, [map] over the transitions. *)
Definition entries_for (pieces : list PieceKind) (transitions : list (RotationState * RotationState))
    (offsets : PieceKind -> RotationState -> RotationState -> list KickOffset) : list KickTableEntry :=
  pieces ≫= (fun piece => (fun '(from, to) => entry_new (mkTransition piece from to) (offsets piece from to)) <$> transitions).

Definition pieces_without_O : list PieceKind := filter (fun p => p <> PO) STANDARD_TETROMINOES.

Definition srs_profile_entries : list KickTableEntry :=
  entries_for STANDARD_TETROMINOES eight_direction_transitions (fun piece from to => srs_sequence (mkTransition piece from to)).

Definition srs_plus_profile_entries : list KickTableEntry :=
  entries_for STANDARD_TETROMINOES eight_direction_transitions
    (fun piece from to =>
       if bool_decide (piece = PO) then no_kick
       else if bool_decide (piece = PI) then srs_plus_i_offsets from to
       else jlstz_offsets from to) ++
  entries_for pieces_without_O one_eighty_transitions
    (fun piece from to => if bool_decide (piece = PI) then srs_plus_i_180_offsets from to else srs_plus_jlstz_180_offsets from to).

Definition srs_x_profile_entries : list KickTableEntry :=
  entries_for STANDARD_TETROMINOES twelve_direction_transitions
    (fun piece from to =>
       match piece with
       | PI => srs_x_i_offsets from to
       | PO => srs_x_o_offsets from to
       | PT | PS | PZ | PJ | PL => srs_x_jlstz_offsets from to
       end).

Definition jstris_180_profile_entries : list KickTableEntry :=
  pieces_without_O ≫= (fun piece =>
    ((fun '(from, to) => entry_new (mkTransition piece from to) (srs_sequence (mkTransition piece from to))) <$> eight_direction_transitions) ++
    ((fun '(from, to) => entry_new (mkTransition piece from to) (jstris_180_offsets from to)) <$> one_eighty_transitions)).

Definition srs_profile : KickTableProfile := mkProfile Srs90Id Srs srs_profile_entries.

Definition srs_plus_profile : KickTableProfile := mkProfile SrsPlusId SrsPlus srs_plus_profile_entries.

Definition srs_x_profile : KickTableProfile := mkProfile SrsXId SrsX srs_x_profile_entries.

Definition jstris_180_profile : KickTableProfile := mkProfile Jstris180Id Jstris180 jstris_180_profile_entries.

Definition no_kick_profile : KickTableProfile :=
  mkProfile NoKickId RuleNoKick (entries_for STANDARD_TETROMINOES eight_direction_transitions (fun _ _ _ => no_kick)).

(** ** Verification of a profile *)

#[export] Instance RotationState_countable : Countable RotationState.
Proof. apply (inj_countable' quarter_turns (fun n => default Zero (rotation_from_turns n))). by intros []. Defined.

#[export] Instance KickTransition_countable : Countable KickTransition.
Proof. apply (inj_countable' (fun t => (tr_piece t, tr_from t, tr_to t)) (fun '(p, f, t) => mkTransition p f t)). by intros []. Defined.

(** The key by which duplicates are sorted; pieces are compared in the order
    of their declaration. *)
Definition transition_key (t : KickTransition) : Z :=
  (Z.of_nat (piece_index (tr_piece t)) * 4 + quarter_turns (tr_from t)) * 4 + quarter_turns (tr_to t).

Definition transition_le (a b : KickTransition) : Prop := transition_key a <= transition_key b.

#[export] Instance transition_le_dec : RelDecision transition_le.
Proof. unfold transition_le. solve_decision. Defined.

(** The loop over the entries: what was seen, and what was seen twice. *)
Definition duplicate_step (state : gset KickTransition * gset KickTransition) (e : KickTableEntry) : gset KickTransition * gset KickTransition :=
  let '(seen, duplicates) := state in
  if bool_decide (entry_transition e ∈ seen) then (seen, {[ entry_transition e ]} ∪ duplicates)
  else ({[ entry_transition e ]} ∪ seen, duplicates).

Definition duplicate_transitions (profile : KickTableProfile) : list KickTransition :=
  merge_sort transition_le (elements (snd (foldl duplicate_step (∅, ∅) (entries profile)))).

Definition transitions_for (pieces : list PieceKind) (transitions : list (RotationState * RotationState)) : list KickTransition :=
  pieces ≫= (fun piece => (fun '(from, to) => mkTransition piece from to) <$> transitions).

Definition expected_transitions (profile : KickTableProfile) : list KickTransition :=
  let omit_o_rotations := bool_decide (source_rule profile = Jstris180) in
  let base := transitions_for (filter (fun p => negb omit_o_rotations || bool_decide (p <> PO)) STANDARD_TETROMINOES) eight_direction_transitions in
  if negb (supports_180 profile) then base
  else base ++ transitions_for pieces_without_O one_eighty_transitions.

Record KickProfileVerificationReport := mkReport {
  issue_count : nat;
  missing_transition_count : nat;
  duplicate_transition_count : nat;
  unsupported_annotation_count : nat;
  report_supports_180 : bool;
  transition_complete : bool
}.

Definition verify_imported_profile (profile : KickTableProfile) : KickProfileVerificationReport :=
  let missing := length (filter (fun t => sequence_for profile t = None) (expected_transitions profile)) in
  let duplicate := length (duplicate_transitions profile) in
  let unsupported := length (filter (fun e => is_Some (unsupported_reason e)) (entries profile)) in
  mkReport (missing + duplicate + unsupported) missing duplicate unsupported (supports_180 profile) (missing =? 0)%nat.

Record VerifiedKickTableProfile := mkVerified { verified_profile : KickTableProfile; verified_report : KickProfileVerificationReport }.

Definition VerifiedKickTableProfile_try_new (profile : KickTableProfile) : Result KickProfileVerificationReport VerifiedKickTableProfile :=
  let report := verify_imported_profile profile in
  if (0 <? issue_count report)%nat then Err report else Ok (mkVerified profile report).

(** [builtin_kick_profile] of [forward-search/src/reachability.rs]. *)
Definition builtin_kick_profile (rule : RuleProfileId) : Result string KickTableProfile :=
  match rule with
  | SrsPlus => Ok srs_plus_profile
  | Srs => Ok srs_profile
  | SrsX => Ok srs_x_profile
  | Jstris180 => Ok jstris_180_profile
  | RuleNoKick => Ok no_kick_profile
  | Asc | Ars | RuleCustom => Err "forward_search_rule_profile_not_connected"%string
  end.

(** [KickVerificationCase::verify]. *)
Inductive KickVerificationOutcome :=
| Passed
| MissingTransition
| SequenceMismatch (actual : list KickOffset).

Definition verify_case (profile : KickTableProfile) (t : KickTransition) (expected : list KickOffset) : KickVerificationOutcome :=
  match sequence_for profile t with
  | Some actual => if bool_decide (actual = expected) then Passed else SequenceMismatch actual
  | None => MissingTransition
  end.

(** ** Duplicates and verified profiles *)

(** [x] occurs at least twice in [l]. *)
Definition repeated {A} (x : A) (l : list A) : Prop := exists l1 l2 l3, l = l1 ++ x :: l2 ++ x :: l3.

Lemma repeated_snoc {A} (x y : A) l : repeated x (l ++ [y]) <-> repeated x l \/ (x = y /\ x ∈ l).
Proof.
  split.
  - intros (l1 & l2 & l3 & E). destruct l3 as [|z l3 _] using rev_ind.
    + rewrite app_comm_cons, app_assoc in E. apply app_inj_tail in E as [-> ->]. right. split; [done|]. apply elem_of_app. right. by left.
    + assert (l1 ++ x :: l2 ++ x :: l3 ++ [z] = (l1 ++ x :: l2 ++ x :: l3) ++ [z]) as E' by (simplify_list_eq; done).
      rewrite E' in E. apply app_inj_tail in E as [-> _]. left. by exists l1, l2, l3.
  - intros [(l1 & l2 & l3 & ->)|[-> Hin]].
    + exists l1, l2, (l3 ++ [y]). simplify_list_eq. done.
    + apply list_elem_of_split in Hin as (l1 & l2 & ->). exists l1, l2, []. simplify_list_eq. done.
Qed.

Lemma repeated_NoDup {A} (l : list A) : NoDup l <-> forall x, ~ repeated x l.
Proof.
  split.
  - intros Hn x (l1 & l2 & l3 & ->). apply NoDup_app in Hn as (_ & _ & Hn). apply NoDup_cons in Hn as [Hn _]. apply Hn. apply elem_of_app. right. by left.
  - induction l as [|y l IH] using rev_ind; intros H; [constructor|]. apply NoDup_app. split; [apply IH; intros x Hx; apply (H x), repeated_snoc; by left|].
    split; [|apply NoDup_singleton]. intros x Hx ->%list_elem_of_singleton. apply (H y), repeated_snoc. by right.
Qed.

Lemma duplicate_fold_spec es :
  let state := foldl duplicate_step (∅, ∅) es in
  (forall t, t ∈ fst state <-> t ∈ entry_transition <$> es) /\ (forall t, t ∈ snd state <-> repeated t (entry_transition <$> es)).
Proof.
  induction es as [|e es [IH1 IH2]] using rev_ind; cbn zeta in *.
  - split; intros t; [set_solver|]. split; [set_solver|]. by intros ([] & l2 & l3 & [=]).
  - rewrite foldl_snoc, fmap_app. destruct (foldl duplicate_step (∅, ∅) es) as [seen duplicates]. cbn [fst snd duplicate_step] in *. cbn [fmap list_fmap].
    case_bool_decide as Hs; cbn [fst snd]; split; intros t; rewrite ?repeated_snoc, ?elem_of_union, ?elem_of_app, ?list_elem_of_singleton, ?elem_of_singleton, ?IH1, ?IH2.
    + split; [tauto|]. intros [?| ->]; [done|by apply IH1].
    + split; [intros [->|?]; [right; split; [done|by apply IH1]|by left]|]. intros [?|[-> _]]; [by right|by left].
    + tauto.
    + split; [by left|]. intros [?|[-> Hin]]; [done|]. by apply IH1 in Hin.
Qed.

#[export] Instance transition_le_total : Total transition_le.
Proof. intros a b. unfold transition_le. lia. Qed.

#[export] Instance transition_le_trans : Transitive transition_le.
Proof. intros a b c. unfold transition_le. lia. Qed.

Lemma elem_of_duplicates profile t : t ∈ duplicate_transitions profile <-> repeated t (entry_transition <$> entries profile).
Proof. unfold duplicate_transitions. rewrite merge_sort_Permutation, elem_of_elements. apply duplicate_fold_spec. Qed.

Lemma duplicates_nil profile : duplicate_transitions profile = [] <-> NoDup (entry_transition <$> entries profile).
Proof.
  rewrite repeated_NoDup. split.
  - intros E t. rewrite <- elem_of_duplicates, E. apply not_elem_of_nil.
  - intros H. apply elem_of_nil_inv. intros t. rewrite elem_of_duplicates. apply H.
Qed.

Lemma sequence_for_entry profile e : NoDup (entry_transition <$> entries profile) -> e ∈ entries profile ->
  sequence_for profile (entry_transition e) = Some (entry_offsets e).
Proof.
  intros Hn He. unfold sequence_for. destruct (list_find _ _) as [[i e']|] eqn:E.
  - apply list_find_Some in E as (Hi & Et & _). cbn. f_equal. apply list_elem_of_lookup in He as [j Hj].
    assert (i = j) as ->; [|congruence]. apply (NoDup_lookup (entry_transition <$> entries profile) i j (entry_transition e)); [done| |].
    + rewrite list_lookup_fmap, Hi. cbn. by rewrite Et.
    + by rewrite list_lookup_fmap, Hj.
  - apply list_find_None in E. rewrite Forall_forall in E. by destruct (E e He).
Qed.

Lemma length_filter_0 {A} (P : A -> Prop) `{!forall x, Decision (P x)} (l : list A) :
  length (filter P l) = 0%nat <-> forall x, x ∈ l -> ~ P x.
Proof.
  split.
  - intros E%nil_length_inv x Hx Hp. assert (x ∈ filter P l) as Hf by (by apply list_elem_of_filter). rewrite E in Hf. by apply not_elem_of_nil in Hf.
  - intros Hl. destruct (filter P l) as [|x r] eqn:E; [done|]. assert (x ∈ filter P l) as Hx by (rewrite E; by left). apply list_elem_of_filter in Hx as [Hp Hx]. by destruct (Hl x Hx).
Qed.

(** A profile is accepted exactly when no transition has two entries, every
    expected transition has one and no entry is marked as unsupported; the
    duplicates reported for a rejected profile are, in order and once each,
    the transitions with several entries.  In an accepted profile a lookup
    finds every entry, and all built-in profiles are accepted. *)
Theorem verified_kick_profiles (profile : KickTableProfile) :
  ((exists v, VerifiedKickTableProfile_try_new profile = Ok v) <->
     NoDup (entry_transition <$> entries profile) /\
     (forall t, t ∈ expected_transitions profile -> is_Some (sequence_for profile t)) /\
     (forall e, e ∈ entries profile -> unsupported_reason e = None)) /\
  (StronglySorted transition_le (duplicate_transitions profile) /\ NoDup (duplicate_transitions profile) /\
     forall t, t ∈ duplicate_transitions profile <-> repeated t (entry_transition <$> entries profile)) /\
  (forall v, VerifiedKickTableProfile_try_new profile = Ok v ->
     verified_profile v = profile /\ forall e, e ∈ entries profile -> sequence_for profile (entry_transition e) = Some (entry_offsets e)) /\
  (forall rule builtin, builtin_kick_profile rule = Ok builtin -> exists v, VerifiedKickTableProfile_try_new builtin = Ok v).
Proof.
  assert ((exists v, VerifiedKickTableProfile_try_new profile = Ok v) <->
     NoDup (entry_transition <$> entries profile) /\
     (forall t, t ∈ expected_transitions profile -> is_Some (sequence_for profile t)) /\
     (forall e, e ∈ entries profile -> unsupported_reason e = None)) as Hiff.
  { unfold VerifiedKickTableProfile_try_new, verify_imported_profile. cbn [issue_count]. rewrite <- duplicates_nil.
    pose proof (length_filter_0 (fun t => sequence_for profile t = None) (expected_transitions profile)) as H1.
    pose proof (length_filter_0 (fun e => is_Some (unsupported_reason e)) (entries profile)) as H2.
    split.
    - intros [v H]. destruct (Nat.ltb_spec 0 (length (filter (fun t => sequence_for profile t = None) (expected_transitions profile)) + length (duplicate_transitions profile) +
        length (filter (fun e => is_Some (unsupported_reason e)) (entries profile)))); [done|]. split; [apply nil_length_inv; lia|]. split.
      + intros t Ht. apply not_eq_None_Some. apply H1; [lia|done].
      + intros e He. apply eq_None_not_Some. apply H2; [lia|done].
    - intros (E1 & E2 & E3). rewrite E1, (proj2 H1), (proj2 H2); [by eexists| |].
      + intros e He. rewrite E3 by done. by intros [? [=]].
      + intros t Ht. apply not_eq_None_Some. by apply E2. }
  split; [exact Hiff|]. split; [|split].
  - split; [apply StronglySorted_merge_sort; apply _|]. split; [|apply elem_of_duplicates]. unfold duplicate_transitions. rewrite merge_sort_Permutation. apply NoDup_elements.
  - intros v H. split; [|intros e; apply sequence_for_entry; apply Hiff; by exists v]. unfold VerifiedKickTableProfile_try_new in H. cbn zeta in H. destruct (_ <? _)%nat; [done|]. by injection H as <-.
  - intros rule builtin H. destruct rule; try discriminate H; injection H as <-; eexists; vm_compute; reflexivity.
Qed.

(** ** SRS kicks are differences of offsets

    The rotation system attaches to each rotation state of a piece a list of
    offsets; the kicks of a rotation are the differences of the two lists,
    taken relative to the first difference. *)

Definition srs_offset_data (piece : PieceKind) (r : RotationState) : list KickOffset :=
  match piece, r with
  | PO, _ => [(0, 0)]
  | PI, Zero => [(0, 0); (-1, 0); (2, 0); (-1, 0); (2, 0)]
  | PI, Right => [(-1, 0); (0, 0); (0, 0); (0, 1); (0, -2)]
  | PI, Two => [(-1, 1); (1, 1); (-2, 1); (1, 0); (-2, 0)]
  | PI, Left => [(0, 1); (0, 1); (0, 1); (0, -1); (0, 2)]
  | _, Right => [(0, 0); (1, 0); (1, -1); (0, 2); (1, 2)]
  | _, Left => [(0, 0); (-1, 0); (-1, -1); (0, 2); (-1, 2)]
  | _, _ => replicate 5 (0, 0)
  end.

Definition offset_sub (a b : KickOffset) : KickOffset := (fst a - fst b, snd a - snd b).

Definition offset_differences (a b : list KickOffset) : list KickOffset :=
  let ds := zip_with offset_sub a b in
  (fun d => offset_sub d (default (0, 0) (head ds))) <$> ds.

(** Every quarter turn of the SRS profile tries the differences of the
    offsets of its two rotation states, in the order of the offsets; hence the
    turn back tries the opposite displacements in the same order. *)
Theorem srs_kicks_are_offset_differences (piece : PieceKind) :
  Forall (fun '(from, to) =>
    sequence_for srs_profile (mkTransition piece from to) = Some (offset_differences (srs_offset_data piece from) (srs_offset_data piece to)) /\
    sequence_for srs_profile (mkTransition piece to from) = option_map (map (offset_sub (0, 0))) (sequence_for srs_profile (mkTransition piece from to)))
    eight_direction_transitions.
Proof. destruct piece; repeat (apply Forall_cons; split; [split; vm_compute; reflexivity|]); apply Forall_nil; exact I. Qed.
