(* ===== verification/ForwardBoard.v ===== *)
(** * Boards of the forward search

    [clearra-forward-search/src/board.rs]: the four-word board, clearing of
    full rows in its three variants, and the catalog that interns boards in a
    hash table with linear probing over a chunked arena. *)

From Stdlib Require Import ZArith Lia.
From stdpp Require Import prelude.
From S2P Require Import Prelude Words PcBoard.

Local Open Scope Z_scope.

(** ** Boards *)

(** The [[u64; 4]] array; every access below is to an index under four. *)
Record ForwardBoard := mkForward { fb_words : list Z }.

#[export] Instance ForwardBoard_eq_dec : EqDecision ForwardBoard.
Proof. solve_decision. Defined.

#[export] Instance ForwardBoard_inhabited : Inhabited ForwardBoard := populate (mkForward [0; 0; 0; 0]).

Definition ForwardBoard_EMPTY : ForwardBoard := mkForward [0; 0; 0; 0].

Definition ForwardBoard_from_mask (mask : Board256Mask) : ForwardBoard := mkForward (b256_words mask).

Definition ForwardBoard_is_empty (b : ForwardBoard) : bool :=
  let w := fb_words b in
  (w !!! 0%nat =? 0) && (w !!! 1%nat =? 0) && (w !!! 2%nat =? 0) && (w !!! 3%nat =? 0).

(** [zip] stops at the shorter slice; both have [active_words] words. *)
Definition intersects_words (active_words : nat) (a b : ForwardBoard) : bool :=
  existsb (fun '(x, y) => negb (Z.land x y =? 0)) (zip (take active_words (fb_words a)) (take active_words (fb_words b))).

Definition ForwardBoard_union (a b : ForwardBoard) : ForwardBoard :=
  let a := fb_words a in let b := fb_words b in
  mkForward [Z.lor (a !!! 0%nat) (b !!! 0%nat); Z.lor (a !!! 1%nat) (b !!! 1%nat);
             Z.lor (a !!! 2%nat) (b !!! 2%nat); Z.lor (a !!! 3%nat) (b !!! 3%nat)].

Definition union_for_height (a b : ForwardBoard) (height : Z) : ForwardBoard :=
  let x := fb_words a in let y := fb_words b in
  if height <=? 6 then mkForward [Z.lor (x !!! 0%nat) (y !!! 0%nat); 0; 0; 0]
  else if height <=? 12 then mkForward [Z.lor (x !!! 0%nat) (y !!! 0%nat); Z.lor (x !!! 1%nat) (y !!! 1%nat); 0; 0]
  else ForwardBoard_union a b.

Definition ForwardBoard_contains (b : ForwardBoard) (index : Z) : bool :=
  if 256 <=? index then false
  else negb (Z.land (fb_words b !!! Z.to_nat (index / 64)) (shl 64 1 (index mod 64)) =? 0).

(** The board after the call; the flag it returns is [index < 256]. *)
Definition ForwardBoard_insert (b : ForwardBoard) (index : Z) : ForwardBoard :=
  if 256 <=? index then b
  else
    let i := Z.to_nat (index / 64) in
    mkForward (<[i := Z.lor (fb_words b !!! i) (shl 64 1 (index mod 64))]> (fb_words b)).

Definition forward_row_bits (b : ForwardBoard) (width row : Z) : Z :=
  foldl (fun bits x => if ForwardBoard_contains b (row * width + x) then Z.lor bits (shl 16 1 x) else bits) 0 (seqZ 0 width).

(** ** Clearing full rows *)

(** The loop the three variants share: [read] gives a row of the board, a full
    row is recorded in [cleared_rows], any other is written to the next output
    row. *)
Definition clear_rows {S} (read : Z -> Z) (full : Z) (write : S -> Z -> Z -> S) (rows : list Z) (start : S) : S * Z * Z :=
  foldl (fun '(compacted, cleared_rows, output_row) input_row =>
    let row := read input_row in
    if row =? full then (compacted, Z.lor cleared_rows (shl 32 1 input_row), output_row)
    else (write compacted output_row row, cleared_rows, output_row + 1)) (start, 0, 0) rows.

Definition place_and_clear_10_u64 (height : Z) (board : ForwardBoard) : ForwardBoard * Z * nat :=
  let source := fb_words board !!! 0%nat in
  let '(compacted, cleared_rows, _) :=
    clear_rows (fun input_row => Z.land (Z.shiftr source (input_row * 10)) 1023) 1023
      (fun compacted output_row row => Z.lor compacted (shl 64 row (output_row * 10))) (seqZ 0 height) 0 in
  (mkForward [compacted; 0; 0; 0], cleared_rows, count_ones cleared_rows).

Definition read_packed_row_10 (active_words : Z) (words : list Z) (row : Z) : Z :=
  let bit := row * 10 in
  let word := bit / 64 in
  let shift := bit mod 64 in
  let packed := Z.shiftr (words !!! Z.to_nat word) shift in
  let packed :=
    if (54 <? shift) && (word + 1 <? active_words)
    then Z.lor packed (shl 64 (words !!! Z.to_nat (word + 1)) (64 - shift)) else packed in
  Z.land packed 1023.

Definition write_packed_row_10 (active_words : Z) (words : list Z) (row bits : Z) : list Z :=
  let bit := row * 10 in
  let word := Z.to_nat (bit / 64) in
  let shift := bit mod 64 in
  let words := <[word := Z.lor (words !!! word) (shl 64 bits shift)]> words in
  if (54 <? shift) && (bit / 64 + 1 <? active_words)
  then <[S word := Z.lor (words !!! S word) (Z.shiftr bits (64 - shift))]> words
  else words.

Definition place_and_clear_10_words (active_words height : Z) (board : ForwardBoard) : ForwardBoard * Z * nat :=
  let '(compacted, cleared_rows, _) :=
    clear_rows (read_packed_row_10 active_words (fb_words board)) 1023 (write_packed_row_10 active_words) (seqZ 0 height) [0; 0; 0; 0] in
  (mkForward compacted, cleared_rows, count_ones cleared_rows).

(** The inner loop of [place_and_clear_cells]. *)
Definition write_cells (width : Z) (compacted : ForwardBoard) (output_row row : Z) : ForwardBoard :=
  foldl (fun compacted x =>
    if negb (Z.land row (shl 16 1 x) =? 0) then ForwardBoard_insert compacted (output_row * width + x) else compacted)
    compacted (seqZ 0 width).

Definition place_and_clear_cells (width height : Z) (board : ForwardBoard) : ForwardBoard * Z * nat :=
  let full_row := shl 16 1 width - 1 in
  let '(compacted, cleared_rows, _) :=
    clear_rows (forward_row_bits board width) full_row (write_cells width) (seqZ 0 height) ForwardBoard_EMPTY in
  (compacted, cleared_rows, count_ones cleared_rows).

Definition place_and_clear (width height : Z) (board : ForwardBoard) : ForwardBoard * Z * nat :=
  if width =? 10 then
    if height <=? 6 then place_and_clear_10_u64 height board
    else if height <=? 12 then place_and_clear_10_words 2 height board
    else place_and_clear_10_words 4 height board
  else place_and_clear_cells width height board.

(** ** The arena of interned values *)

Definition BOARD_VALUE_CHUNK_SHIFT : Z := 16.
Definition BOARD_VALUE_CHUNK_LEN : Z := Z.shiftl 1 BOARD_VALUE_CHUNK_SHIFT.
Definition BOARD_VALUE_CHUNK_MASK : Z := BOARD_VALUE_CHUNK_LEN - 1.

Record BoardValueArena (K : Type) := mkArena { chunks : list (list K); arena_len : Z }.
Arguments mkArena {K}.
Arguments chunks {K}.
Arguments arena_len {K}.

Definition arena_default {K} : BoardValueArena K := mkArena [] 0.

Definition arena_push {K} (a : BoardValueArena K) (value : K) : Result Panic (BoardValueArena K) :=
  let chunk_index := Z.shiftr (arena_len a) BOARD_VALUE_CHUNK_SHIFT in
  let cs := if chunk_index =? Z.of_nat (length (chunks a)) then chunks a ++ [[]] else chunks a in
  let? chunk := expect_some (cs !! Z.to_nat chunk_index) in
  Ok (mkArena (<[Z.to_nat chunk_index := chunk ++ [value]]> cs) (arena_len a + 1)).

Definition arena_get {K} (a : BoardValueArena K) (index : Z) : Result Panic K :=
  let? chunk := expect_some (chunks a !! Z.to_nat (Z.shiftr index BOARD_VALUE_CHUNK_SHIFT)) in
  expect_some (chunk !! Z.to_nat (Z.land index BOARD_VALUE_CHUNK_MASK)).

Definition arena_iter {K} (a : BoardValueArena K) : list K := concat (chunks a).

(** ** The catalog *)

Class BoardCatalogKey (K : Type) := {
  catalog_hash : K -> Z;
  catalog_key_eq :: EqDecision K
}.

(** [u64::rotate_left]. *)
Definition rotate_left (x k : Z) : Z := Z.lor (shl 64 x k) (Z.shiftr x (64 - k)).

Definition HASH_SEED : Z := 0x9e3779b97f4a7c15.

Definition mix_board_word (hash word : Z) : Z :=
  wrapping_mul 64 (rotate_left (Z.lxor hash (wrap 64 (word + HASH_SEED))) 27) 0x94d049bb133111eb.

#[export] Instance key_u64 : BoardCatalogKey Z := { catalog_hash word := mix_board_word HASH_SEED word }.

#[export] Instance key_u64_2 : BoardCatalogKey (Z * Z) :=
  { catalog_hash words := mix_board_word (mix_board_word HASH_SEED (fst words)) (snd words) }.

#[export] Instance key_u64_4 : BoardCatalogKey (list Z) := { catalog_hash words := foldl mix_board_word HASH_SEED words }.

Record BoardCatalog (K : Type) := mkCatalog { values : BoardValueArena K; slots : list Z }.
Arguments mkCatalog {K}.
Arguments values {K}.
Arguments slots {K}.

Section Catalog.
Context {K : Type} `{!BoardCatalogKey K}.

Definition catalog_new : BoardCatalog K := mkCatalog arena_default (replicate 16 0).

Definition slot_mask (slots : list Z) : Z := Z.of_nat (length slots) - 1.

(** [while self.slots[slot] != 0]. *)
Fixpoint find_empty (fuel : nat) (slots : list Z) (slot : Z) : Result Panic Z :=
  match fuel with
  | O => Err Panicked
  | S fuel =>
      let? encoded := expect_some (slots !! Z.to_nat slot) in
      if encoded =? 0 then Ok slot else find_empty fuel slots (Z.land (slot + 1) (slot_mask slots))
  end.

(** The loop of [grow] over [values.iter().enumerate()]. *)
Fixpoint reinsert (slots : list Z) (id : Z) (keys : list K) : Result Panic (list Z) :=
  match keys with
  | [] => Ok slots
  | key :: keys =>
      let? slot := find_empty (length slots) slots (Z.land (catalog_hash key) (slot_mask slots)) in
      reinsert (<[Z.to_nat slot := wrap 32 (wrap 32 id + 1)]> slots) (id + 1) keys
  end.

Definition grow (c : BoardCatalog K) : Result Panic (BoardCatalog K) :=
  let? slots := reinsert (replicate (length (slots c) * 2) 0) 0 (arena_iter (values c)) in
  Ok (mkCatalog (values c) slots).

(** The loop of [intern]; the slot count bounds its turns. *)
Fixpoint intern_loop (fuel : nat) (c : BoardCatalog K) (key : K) (slot : Z) : Result Panic (Z * BoardCatalog K) :=
  match fuel with
  | O => Err Panicked
  | S fuel =>
      let? encoded := expect_some (slots c !! Z.to_nat slot) in
      if encoded =? 0 then
        let? id := expect_some (try_from 32 (arena_len (values c))) in
        let? values := arena_push (values c) key in
        Ok (id, mkCatalog values (<[Z.to_nat slot := wrap 32 (id + 1)]> (slots c)))
      else
        let id := encoded - 1 in
        let? found := arena_get (values c) id in
        if bool_decide (found = key) then Ok (id, c)
        else intern_loop fuel c key (Z.land (slot + 1) (slot_mask (slots c)))
  end.

Definition intern (c : BoardCatalog K) (key : K) : Result Panic (Z * BoardCatalog K) :=
  let? c := (if Z.of_nat (length (slots c)) * 7 <? (arena_len (values c) + 1) * 10 then grow c else Ok c) in
  intern_loop (length (slots c)) c key (Z.land (catalog_hash key) (slot_mask (slots c))).

Definition catalog_get (c : BoardCatalog K) (id : Z) : Result Panic K := arena_get (values c) id.
End Catalog.

Inductive ForwardBoardCatalog :=
| Catalog64 (catalog : BoardCatalog Z)
| Catalog128 (catalog : BoardCatalog (Z * Z))
| Catalog256 (catalog : BoardCatalog (list Z)).

Definition ForwardBoardCatalog_new (height : Z) : ForwardBoardCatalog :=
  if height <=? 6 then Catalog64 catalog_new
  else if height <=? 12 then Catalog128 catalog_new
  else Catalog256 catalog_new.

Definition ForwardBoardCatalog_intern (c : ForwardBoardCatalog) (board : ForwardBoard) : Result Panic (Z * ForwardBoardCatalog) :=
  let w := fb_words board in
  match c with
  | Catalog64 catalog =>
      if negb (Z.lor (Z.lor (w !!! 1%nat) (w !!! 2%nat)) (w !!! 3%nat) =? 0) then Err Panicked
      else let? '(id, catalog) := intern catalog (w !!! 0%nat) in Ok (id, Catalog64 catalog)
  | Catalog128 catalog =>
      if negb (Z.lor (w !!! 2%nat) (w !!! 3%nat) =? 0) then Err Panicked
      else let? '(id, catalog) := intern catalog (w !!! 0%nat, w !!! 1%nat) in Ok (id, Catalog128 catalog)
  | Catalog256 catalog => let? '(id, catalog) := intern catalog w in Ok (id, Catalog256 catalog)
  end.

Definition ForwardBoardCatalog_get (c : ForwardBoardCatalog) (id : Z) : Result Panic ForwardBoard :=
  match c with
  | Catalog64 catalog => let? word := catalog_get catalog id in Ok (mkForward [word; 0; 0; 0])
  | Catalog128 catalog => let? words := catalog_get catalog id in Ok (mkForward [fst words; snd words; 0; 0])
  | Catalog256 catalog => let? words := catalog_get catalog id in Ok (mkForward words)
  end.

(** ** Boards as sets of cells *)

(** [lia] with quotients and remainders. *)
Ltac divlia := Z.to_euclidean_division_equations; lia.

Definition fb_ok (b : ForwardBoard) : Prop := Board256Mask_ok (mkBoard256Mask (fb_words b)).

Definition fb_bit (b : ForwardBoard) (i : Z) : bool := b256_bit (mkBoard256Mask (fb_words b)) i.

Lemma fb_of_words w0 w1 w2 w3 : in_width 64 w0 -> in_width 64 w1 -> in_width 64 w2 -> in_width 64 w3 -> fb_ok (mkForward [w0; w1; w2; w3]).
Proof. apply b256_ok_of. Qed.

Lemma fb_destruct b : fb_ok b ->
  exists w0 w1 w2 w3, b = mkForward [w0; w1; w2; w3] /\ in_width 64 w0 /\ in_width 64 w1 /\ in_width 64 w2 /\ in_width 64 w3.
Proof. intros H. destruct (b256_destruct _ H) as (w0 & w1 & w2 & w3 & [= E] & ?). exists w0, w1, w2, w3. split; [|done]. destruct b. cbn in E. by subst. Qed.

Lemma fb_empty_ok : fb_ok ForwardBoard_EMPTY.
Proof. apply EMPTY_ok. Qed.

Lemma fb_empty_bit i : fb_bit ForwardBoard_EMPTY i = false.
Proof. apply EMPTY_bit. Qed.

Lemma fb_ext a b : fb_ok a -> fb_ok b -> (forall i, 0 <= i < 256 -> fb_bit a i = fb_bit b i) -> a = b.
Proof. intros Ha Hb H. pose proof (b256_ext _ _ Ha Hb H) as E. destruct a, b. cbn in E. by injection E as ->. Qed.

Lemma fb_bit_out b i : i < 0 \/ 256 <= i -> fb_bit b i = false.
Proof. apply b256_bit_out. Qed.

Lemma fb_contains_bit b i : 0 <= i -> ForwardBoard_contains b i = fb_bit b i.
Proof. apply (contains_index_bit (mkBoard256Mask (fb_words b))). Qed.

Lemma fb_insert_spec b t : fb_ok b -> 0 <= t < 256 ->
  fb_ok (ForwardBoard_insert b t) /\ forall j, fb_bit (ForwardBoard_insert b t) j = fb_bit b j || (j =? t).
Proof. intros Hb Ht. unfold ForwardBoard_insert. rewrite (proj2 (Z.leb_gt 256 t)) by lia. exact (set_bit_spec (fb_words b) t Hb Ht). Qed.

Lemma fb_union_ok a b : fb_ok a -> fb_ok b -> fb_ok (ForwardBoard_union a b).
Proof. apply (union_ok (mkBoard256Mask (fb_words a)) (mkBoard256Mask (fb_words b))). Qed.

Lemma fb_union_bit a b i : fb_bit (ForwardBoard_union a b) i = fb_bit a i || fb_bit b i.
Proof. apply (union_bit (mkBoard256Mask (fb_words a)) (mkBoard256Mask (fb_words b))). Qed.

(** The words a board of [height] rows of ten cells uses. *)
Definition words_for_height (height : Z) : nat := if height <=? 6 then 1 else if height <=? 12 then 2 else 4.

Lemma intersects_words_spec n a b : fb_ok a -> fb_ok b -> (n <= 4)%nat ->
  intersects_words n a b = true <-> exists i, i < 64 * Z.of_nat n /\ fb_bit a i = true /\ fb_bit b i = true.
Proof.
  intros Ha Hb Hn. unfold intersects_words.
  assert (forall i, 0 <= i < 256 -> fb_bit a i = Z.testbit (fb_words a !!! Z.to_nat (i / 64)) (i mod 64)) as Ba by (intros; by apply b256_bit_in).
  assert (forall i, 0 <= i < 256 -> fb_bit b i = Z.testbit (fb_words b !!! Z.to_nat (i / 64)) (i mod 64)) as Bb by (intros; by apply b256_bit_in).
  rewrite existsb_exists. destruct Ha as [La Wa], Hb as [Lb Wb]. cbn [b256_words] in *. split.
  - intros ([x y] & Hin%list_elem_of_In & Hxy). apply list_elem_of_lookup in Hin as [k Hk]. rewrite lookup_zip_Some in Hk. destruct Hk as [Hx Hy].
    apply lookup_take_Some in Hx as [Hx Hkn], Hy as [Hy _]. apply negb_true_iff, Z.eqb_neq in Hxy. pose proof (lookup_lt_Some _ _ _ Hx).
    assert (exists j, Z.testbit x j = true /\ Z.testbit y j = true) as (j & Jx & Jy).
    { destruct (Z.land x y =? 0) eqn:E; [by apply Z.eqb_eq in E|]. rewrite Forall_lookup in Wa, Wb. pose proof (Wa _ _ Hx) as [? _]. pose proof (Wb _ _ Hy) as [? _].
      assert (exists j, 0 <= j /\ Z.testbit (Z.land x y) j = true) as (j & _ & Hj).
      { exists (Z.log2 (Z.land x y)). split; [apply Z.log2_nonneg|]. apply Z.bit_log2. pose proof (proj2 (Z.land_nonneg x y) ltac:(lia)). lia. }
      rewrite Z.land_spec in Hj. apply andb_true_iff in Hj. by exists j. }
    rewrite Forall_lookup in Wa. pose proof (Wa _ _ Hx) as Wx. assert (0 <= j < 64) as Hj.
    { split; [destruct (Z.lt_ge_cases j 0); [by rewrite Z.testbit_neg_r in Jx|done]|]. destruct (Z.lt_ge_cases j 64); [done|]. by rewrite (in_width_testbit 64) in Jx by done. }
    exists (64 * Z.of_nat k + j). split; [lia|].
    rewrite Ba, Bb by lia. replace ((64 * Z.of_nat k + j) / 64) with (Z.of_nat k) by divlia.
    replace ((64 * Z.of_nat k + j) mod 64) with j by divlia. rewrite Nat2Z.id, (list_lookup_total_correct _ _ _ Hx), (list_lookup_total_correct _ _ _ Hy). done.
  - intros (i & Hi & Ai & Bi). assert (0 <= i < 256) as Hr.
    { destruct (decide (0 <= i < 256)); [done|]. rewrite fb_bit_out in Ai by lia. done. }
    rewrite Ba in Ai by done. rewrite Bb in Bi by done. exists (fb_words a !!! Z.to_nat (i / 64), fb_words b !!! Z.to_nat (i / 64)). split.
    + apply list_elem_of_In, list_elem_of_lookup. exists (Z.to_nat (i / 64)). apply lookup_zip_Some. split; apply lookup_take_Some; (split; [apply list_lookup_lookup_total_lt|]); divlia.
    + apply negb_true_iff, Z.eqb_neq. intros E. assert (Z.testbit (Z.land (fb_words a !!! Z.to_nat (i / 64)) (fb_words b !!! Z.to_nat (i / 64))) (i mod 64) = true) as Hl by (by rewrite Z.land_spec, Ai, Bi).
      by rewrite E, Z.testbit_0_l in Hl.
Qed.

(** ** Clearing rows, as a function on cells *)

Definition row_full (b : ForwardBoard) (width y : Z) : bool := forallb (fun x => fb_bit b (y * width + x)) (seqZ 0 width).

(** The rows that stay, bottom up. *)
Definition kept_rows (b : ForwardBoard) (width height : Z) : list Z := filter (fun y => negb (row_full b width y)) (seqZ 0 height).

(** Cell [i] of the board whose rows are those of [b] listed in [rows]. *)
Definition compacted_cell (b : ForwardBoard) (width : Z) (rows : list Z) (i : Z) : bool :=
  (0 <=? i) && match rows !! Z.to_nat (i / width) with Some y => fb_bit b (y * width + i mod width) | None => false end.

(** [row] holds the cells of row [y]. *)
Definition row_of (b : ForwardBoard) (width y row : Z) : Prop :=
  in_width width row /\ forall x, 0 <= x < width -> Z.testbit row x = fb_bit b (y * width + x).

Lemma row_of_full b width y row : 0 <= width -> row_of b width y row -> (row =? Z.ones width) = row_full b width y.
Proof.
  intros Hw [Hr Hb]. apply eq_bool_prop_intro. rewrite !Is_true_true. unfold row_full. rewrite Z.eqb_eq, forallb_forall. split.
  - intros -> x Hx. apply list_elem_of_In, elem_of_seqZ in Hx. rewrite <- Hb by lia. rewrite testbit_ones by done. apply andb_true_iff. split; [apply Z.leb_le|apply Z.ltb_lt]; lia.
  - intros H. apply (word_ext width); [done|by apply in_width_ones|]. intros x Hx. rewrite Hb, testbit_ones by done.
    rewrite (H x) by (apply list_elem_of_In, elem_of_seqZ; lia). symmetry. apply andb_true_iff. split; [apply Z.leb_le|apply Z.ltb_lt]; lia.
Qed.

Lemma seqZ_snoc n : 0 <= n -> seqZ 0 (n + 1) = seqZ 0 n ++ [n].
Proof. intros Hn. rewrite seqZ_app by lia. done. Qed.

Lemma kept_rows_snoc b width n : 0 <= n ->
  kept_rows b width (n + 1) = kept_rows b width n ++ (if row_full b width n then [] else [n]).
Proof.
  intros Hn. unfold kept_rows. rewrite seqZ_snoc, filter_app by done. f_equal. rewrite filter_cons, filter_nil.
  destruct (row_full b width n); cbn [negb]; by case_decide.
Qed.

Lemma length_kept_rows b width n : 0 <= n -> Z.of_nat (length (kept_rows b width n)) <= n.
Proof. intros Hn. unfold kept_rows. pose proof (length_filter (fun y => negb (row_full b width y)) (seqZ 0 n)) as H. rewrite length_seqZ in H. lia. Qed.

Section ClearRows.
Context {S : Type} (okS : S -> Prop) (bitS : S -> Z -> bool).
Context (b : ForwardBoard) (width height : Z) (read : Z -> Z) (write : S -> Z -> Z -> S).
Context (Hw : 0 < width) (Hh : height <= 32).
Context (Hread : forall y, 0 <= y < height -> row_of b width y (read y)).
Context (Hwrite : forall s k row, okS s -> 0 <= k < height -> in_width width row ->
  okS (write s k row) /\ forall i, bitS (write s k row) i = bitS s i || ((k * width <=? i) && (i <? k * width + width) && Z.testbit row (i - k * width))).

Lemma clear_rows_spec start n : okS start -> (forall i, bitS start i = false) -> 0 <= n <= height ->
  exists s cleared, clear_rows read (Z.ones width) write (seqZ 0 n) start = (s, cleared, Z.of_nat (length (kept_rows b width n))) /\
    okS s /\ (forall i, bitS s i = compacted_cell b width (kept_rows b width n) i) /\
    in_width 32 cleared /\ forall y, Z.testbit cleared y = (0 <=? y) && (y <? n) && row_full b width y.
Proof.
  intros Hok Hbit [Hn Hle]. revert Hle. pattern n. apply natlike_ind; [|clear n Hn; intros n Hn IH Hle|done].
  - intros _. exists start, 0. split; [done|]. split; [done|]. split; [intros i; rewrite Hbit; unfold compacted_cell; cbn; by rewrite andb_false_r|].
    split; [by apply in_width_0|]. intros y. rewrite Z.testbit_0_l. destruct (Z.leb_spec 0 y), (Z.ltb_spec y 0); try done; lia.
  - destruct IH as (s & cleared & E & Hs & Hc & H32 & Hcl); [lia|]. unfold Z.succ. rewrite kept_rows_snoc by done. unfold clear_rows in *. rewrite seqZ_snoc by done. rewrite foldl_snoc, E. cbn zeta.
    pose proof (Hread n ltac:(lia)) as Hrow. rewrite (row_of_full b width n) by (done || lia).
    assert (forall y, (y =? n) && row_full b width y = (y =? n) && row_full b width n) as Hyn by (intros y; destruct (Z.eqb_spec y n) as [->|]; done).
    assert (forall y, (0 <=? y) && (y <? n + 1) = ((0 <=? y) && (y <? n)) || (y =? n)) as Hlt.
    { intros y. destruct (Z.leb_spec 0 y), (Z.ltb_spec y (n + 1)), (Z.ltb_spec y n), (Z.eqb_spec y n); try done; lia. }
    destruct (row_full b width n) eqn:Ef.
    + rewrite app_nil_r. exists s, (Z.lor cleared (shl 32 1 n)). split; [done|]. split; [done|]. split; [done|]. split; [width|].
      intros y. rewrite Z.lor_spec, Hcl, testbit_bit, Hlt by lia. rewrite andb_orb_distrib_l, Hyn. by rewrite andb_true_r.
    + destruct (Hwrite s (Z.of_nat (length (kept_rows b width n))) (read n) Hs) as [Hs' Hb']; [pose proof (length_kept_rows b width n Hn); lia|apply Hrow|].
      exists (write s (Z.of_nat (length (kept_rows b width n))) (read n)), cleared. split; [rewrite length_app; cbn [length]; do 2 f_equal; lia|]. split; [done|]. split; [|split; [done|]].
      * intros i. rewrite Hb', Hc. set (k := Z.of_nat (length (kept_rows b width n))). unfold compacted_cell. destruct (Z.leb_spec 0 i) as [Hi|Hi]; cbn [andb].
        2:{ destruct (Z.leb_spec (k * width) i); [nia|done]. }
        destruct (Z.leb_spec (k * width) i) as [H1|H1]; [destruct (Z.ltb_spec i (k * width + width)) as [H2|H2]|]; cbn [andb]; rewrite ?orb_false_r.
        -- assert (i / width = k) as -> by (symmetry; apply (Z.div_unique _ _ _ (i - k * width)); lia). assert (i mod width = i - k * width) as -> by (symmetry; apply (Z.mod_unique _ _ k); lia).
           unfold k. rewrite Nat2Z.id, lookup_ge_None_2 by lia. rewrite list_lookup_middle by done. cbn [orb]. apply Hrow. lia.
        -- assert (k + 1 <= i / width) by (apply Z.div_le_lower_bound; lia). rewrite !lookup_ge_None_2; rewrite ?length_app; cbn [length]; lia || done.
        -- assert (i / width < k) by (apply Z.div_lt_upper_bound; lia). assert (0 <= i / width) by (apply Z.div_pos; lia). rewrite lookup_app_l by lia. done.
      * intros y. rewrite Hcl, Hlt, andb_orb_distrib_l, Hyn, andb_false_r. by rewrite orb_false_r.
Qed.
End ClearRows.

(** ** The three variants *)

Lemma in_width_bit w row i : 0 <= w -> in_width w row -> Z.testbit row i = true -> 0 <= i < w.
Proof.
  intros Hw Hr Hi. split; [destruct (Z.lt_ge_cases i 0); [by rewrite Z.testbit_neg_r in Hi|done]|].
  destruct (Z.lt_ge_cases i w); [done|]. by rewrite (in_width_testbit w) in Hi.
Qed.

(** A row shifted to its place lies inside it. *)
Lemma row_window w row i k : 0 <= w -> in_width w row -> (k <=? i) && (i <? k + w) && Z.testbit row (i - k) = Z.testbit row (i - k).
Proof.
  intros Hw Hr. destruct (Z.testbit row (i - k)) eqn:E; [|by rewrite andb_false_r]. pose proof (in_width_bit w row _ Hw Hr E).
  rewrite (proj2 (Z.leb_le k i)), (proj2 (Z.ltb_lt i (k + w))) by lia. done.
Qed.

Lemma fb_bit_word b i : 0 <= i < 256 -> fb_bit b i = Z.testbit (fb_words b !!! Z.to_nat (i / 64)) (i mod 64).
Proof. apply b256_bit_in. Qed.

Lemma land_1023_row x : 0 <= x -> in_width 10 (Z.land x 1023).
Proof. intros Hx. change 1023 with (Z.ones 10). rewrite Z.land_comm. apply in_width_land; [lia|by apply in_width_ones|done]. Qed.

Lemma testbit_1023 x i : 0 <= i < 10 -> Z.testbit (Z.land x 1023) i = Z.testbit x i.
Proof. intros Hi. change 1023 with (Z.ones 10). rewrite Z.land_spec, testbit_ones by lia. rewrite (proj2 (Z.leb_le 0 i)), (proj2 (Z.ltb_lt i 10)) by lia. apply andb_true_r. Qed.

Lemma clear_10_u64_spec b height : fb_ok b -> 0 <= height <= 6 ->
  exists s cleared, clear_rows (fun y => Z.land (Z.shiftr (fb_words b !!! 0%nat) (y * 10)) 1023) (Z.ones 10)
      (fun c k row => Z.lor c (shl 64 row (k * 10))) (seqZ 0 height) 0 = (s, cleared, Z.of_nat (length (kept_rows b 10 height))) /\
    in_width 64 s /\ (forall i, Z.testbit s i = compacted_cell b 10 (kept_rows b 10 height) i) /\
    in_width 32 cleared /\ forall y, Z.testbit cleared y = (0 <=? y) && (y <? height) && row_full b 10 y.
Proof.
  intros Hb Hh. destruct (fb_destruct b Hb) as (w0 & w1 & w2 & w3 & -> & W0 & _).
  apply (clear_rows_spec (in_width 64) Z.testbit _ 10 height); [lia|lia| | |by apply in_width_0|intros; apply Z.testbit_0_l|lia].
  - intros y Hy. cbn. split; [apply land_1023_row, Z.shiftr_nonneg, W0|]. intros x Hx. rewrite testbit_1023, Z.shiftr_spec by lia. rewrite fb_bit_word by lia.
    cbn [fb_words]. replace ((y * 10 + x) / 64) with 0 by divlia. replace ((y * 10 + x) mod 64) with (y * 10 + x) by divlia. cbn. f_equal. lia.
  - intros s k row Hs Hk Hrow. split; [apply in_width_lor; [lia|done|apply in_width_shl; [lia|apply Hrow]]|]. intros i. rewrite Z.lor_spec, testbit_shl by lia. f_equal.
    rewrite (row_window 10) by (done || lia). destruct (Z.testbit row (i - k * 10)) eqn:E; [|apply andb_false_r]. pose proof (in_width_bit 10 row _ ltac:(lia) Hrow E). by rewrite (proj2 (Z.ltb_lt i 64)) by lia.
Qed.

(** Combining a word of the array with [v]. *)
Lemma or_word_spec words k v : Board256Mask_ok (mkBoard256Mask words) -> 0 <= k < 4 -> in_width 64 v ->
  let words' := <[Z.to_nat k := Z.lor (words !!! Z.to_nat k) v]> words in
  Board256Mask_ok (mkBoard256Mask words') /\
  forall i, b256_bit (mkBoard256Mask words') i = b256_bit (mkBoard256Mask words) i || ((i / 64 =? k) && Z.testbit v (i mod 64)).
Proof.
  intros Hok Hk Hv. destruct (b256_destruct _ Hok) as (a0 & a1 & a2 & a3 & [= ->] & H0 & H1 & H2 & H3).
  assert (k = 0 \/ k = 1 \/ k = 2 \/ k = 3) as Hcases by lia. split.
  - destruct Hcases as [->|[->|[->| ->]]]; simpl; apply b256_ok_of; try done; by apply in_width_lor.
  - intros i. destruct (decide (0 <= i < 256)); cycle 1.
    { rewrite !b256_bit_out by lia. destruct (Z.eqb_spec (i / 64) k); [divlia|done]. }
    rewrite !b256_bit_in by done. cbn [b256_words].
    destruct Hcases as [->|[->|[->| ->]]]; simpl; cell_words i; by rewrite ?Z.lor_spec, ?orb_false_r.
Qed.

Lemma read_packed_spec active b y : fb_ok b -> 0 <= y -> y * 10 + 10 <= 64 * active -> active <= 4 ->
  row_of b 10 y (read_packed_row_10 active (fb_words b) y).
Proof.
  intros Hb Hy Ha H4. unfold read_packed_row_10. cbn zeta. destruct Hb as [Hl Hws]. cbn [b256_words] in *.
  assert (forall k, 0 <= k < 4 -> in_width 64 (fb_words b !!! Z.to_nat k)) as Hwk.
  { intros k Hk. rewrite Forall_lookup in Hws. apply (Hws (Z.to_nat k)). apply list_lookup_lookup_total_lt. lia. }
  assert (0 <= y * 10 / 64 < 4) as Hd by divlia. pose proof (Hwk _ Hd) as [? _].
  split.
  { apply land_1023_row. assert (0 <= Z.shiftr (fb_words b !!! Z.to_nat (y * 10 / 64)) (y * 10 mod 64)) by (by apply Z.shiftr_nonneg).
    destruct (_ && _) eqn:E; [|done]. apply Z.lor_nonneg. split; [done|]. apply (in_width_shl 64); [lia|]. apply andb_true_iff in E as [_ E%Z.ltb_lt]. apply Hwk. lia. }
  intros x Hx. rewrite testbit_1023 by done. rewrite fb_bit_word by lia.
  destruct (Z.lt_ge_cases (y * 10 mod 64 + x) 64) as [Hin|Hout].
  - replace ((y * 10 + x) / 64) with (y * 10 / 64) by divlia. replace ((y * 10 + x) mod 64) with (y * 10 mod 64 + x) by divlia.
    assert (Z.testbit (Z.shiftr (fb_words b !!! Z.to_nat (y * 10 / 64)) (y * 10 mod 64)) x = Z.testbit (fb_words b !!! Z.to_nat (y * 10 / 64)) (y * 10 mod 64 + x)) as E.
    { rewrite Z.shiftr_spec by lia. f_equal. lia. }
    destruct ((54 <? _) && _) eqn:E2; [|done]. apply andb_true_iff in E2 as [E2%Z.ltb_lt _]. rewrite Z.lor_spec, E, testbit_shl by divlia.
    rewrite (Z.testbit_neg_r _ (x - (64 - y * 10 mod 64))) by lia. by rewrite andb_false_r, orb_false_r.
  - replace ((y * 10 + x) / 64) with (y * 10 / 64 + 1) by divlia. replace ((y * 10 + x) mod 64) with (x - (64 - y * 10 mod 64)) by divlia.
    rewrite (proj2 (Z.ltb_lt 54 (y * 10 mod 64))), (proj2 (Z.ltb_lt (y * 10 / 64 + 1) active)) by divlia. cbn [andb].
    rewrite Z.lor_spec, testbit_shl, Z.shiftr_spec by divlia. rewrite (in_width_testbit 64) by (lia || by apply Hwk). rewrite (proj2 (Z.ltb_lt x 64)) by lia. done.
Qed.

Lemma write_packed_spec active words k row : Board256Mask_ok (mkBoard256Mask words) -> 0 <= k -> k * 10 + 10 <= 64 * active -> active <= 4 -> in_width 10 row ->
  Board256Mask_ok (mkBoard256Mask (write_packed_row_10 active words k row)) /\
  forall i, b256_bit (mkBoard256Mask (write_packed_row_10 active words k row)) i =
    b256_bit (mkBoard256Mask words) i || ((k * 10 <=? i) && (i <? k * 10 + 10) && Z.testbit row (i - k * 10)).
Proof.
  intros Hok Hk Ha H4 Hrow. unfold write_packed_row_10. cbn zeta. destruct (or_word_spec words (k * 10 / 64) (shl 64 row (k * 10 mod 64)) Hok) as [Hok1 Hb1]; [divlia|apply in_width_shl; [lia|apply Hrow]|]. cbn zeta in Hok1, Hb1.
  assert (forall i, 0 <= i < 256 -> (i / 64 =? k * 10 / 64) && Z.testbit (shl 64 row (k * 10 mod 64)) (i mod 64) = (i / 64 =? k * 10 / 64) && Z.testbit row (i - k * 10)) as Hfirst.
  { intros i Hi. destruct (Z.eqb_spec (i / 64) (k * 10 / 64)) as [E|E]; [|done]. cbn [andb]. rewrite testbit_shl by divlia. rewrite (proj2 (Z.ltb_lt (i mod 64) 64)) by divlia. cbn [andb]. f_equal. divlia. }
  set (words1 := <[Z.to_nat (k * 10 / 64) := _]> words) in *.
  destruct ((54 <? _) && _) eqn:E2.
  - apply andb_true_iff in E2 as [E2%Z.ltb_lt E3%Z.ltb_lt]. replace (S (Z.to_nat (k * 10 / 64))) with (Z.to_nat (k * 10 / 64 + 1)) by divlia.
    destruct (or_word_spec words1 (k * 10 / 64 + 1) (Z.shiftr row (64 - k * 10 mod 64)) Hok1) as [Hok2 Hb2]; [divlia| |].
    { apply (in_width_mono 10); [lia|]. apply in_width_of_bits; [lia|apply Z.shiftr_nonneg, Hrow|]. intros i Hi. rewrite Z.shiftr_spec by lia. apply (in_width_testbit 10); [done|divlia]. }
    split; [exact Hok2|]. intros i. rewrite Hb2, Hb1, (row_window 10) by (done || lia).
    destruct (decide (0 <= i < 256)) as [Hi|Hi].
    + rewrite Hfirst, <- orb_assoc by done. f_equal. rewrite Z.shiftr_spec by divlia. destruct (Z.eqb_spec (i / 64) (k * 10 / 64)) as [E|E].
      * destruct (Z.eqb_spec (i / 64) (k * 10 / 64 + 1)); [lia|]. apply orb_false_r.
      * destruct (Z.eqb_spec (i / 64) (k * 10 / 64 + 1)) as [E'|E']; cbn [andb orb]; [f_equal; divlia|]. symmetry. apply not_true_iff_false. intros Ht. pose proof (in_width_bit 10 row _ ltac:(lia) Hrow Ht). divlia.
    + rewrite b256_bit_out by lia. destruct (Z.testbit row (i - k * 10)) eqn:E; [pose proof (in_width_bit 10 row _ ltac:(lia) Hrow E); lia|].
      destruct (Z.eqb_spec (i / 64) (k * 10 / 64)); [divlia|]. destruct (Z.eqb_spec (i / 64) (k * 10 / 64 + 1)); [divlia|done].
  - split; [exact Hok1|]. intros i. rewrite Hb1, (row_window 10) by (done || lia).
    destruct (decide (0 <= i < 256)) as [Hi|Hi].
    + rewrite Hfirst by done. f_equal. destruct (Z.testbit row (i - k * 10)) eqn:E; [|apply andb_false_r]. pose proof (in_width_bit 10 row _ ltac:(lia) Hrow E).
      rewrite andb_true_r. apply Z.eqb_eq. apply andb_false_iff in E2 as [E2%Z.ltb_ge|E2%Z.ltb_ge]; divlia.
    + rewrite b256_bit_out by lia. destruct (Z.testbit row (i - k * 10)) eqn:E; [pose proof (in_width_bit 10 row _ ltac:(lia) Hrow E); lia|].
      destruct (Z.eqb_spec (i / 64) (k * 10 / 64)); [divlia|done].
Qed.

Lemma row_bits_spec b width y : fb_ok b -> 0 <= y -> 0 < width <= 15 -> row_of b width y (forward_row_bits b width y).
Proof.
  intros Hb Hy Hw. assert (forall n, 0 <= n <= width ->
    let r := foldl (fun bits x => if ForwardBoard_contains b (y * width + x) then Z.lor bits (shl 16 1 x) else bits) 0 (seqZ 0 n) in
    in_width n r /\ forall x, 0 <= x < n -> Z.testbit r x = fb_bit b (y * width + x)) as H; [|exact (H width ltac:(lia))].
  intros n [Hn Hle]. revert Hle. pattern n. apply natlike_ind; [|clear n Hn; intros n Hn IH Hle|done]; cbn zeta in *.
  - intros _. split; [by apply in_width_0|lia].
  - destruct IH as [H1 H2]; [lia|]. unfold Z.succ. rewrite seqZ_snoc, foldl_snoc by done. set (r := foldl _ 0 (seqZ 0 n)) in *.
    rewrite fb_contains_bit by nia. destruct (fb_bit b (y * width + n)) eqn:E.
    + split.
      * apply in_width_lor; [lia|apply (in_width_mono n); [lia|done]|]. rewrite shl1_pow2 by lia. split; [lia|]. apply Z.pow_lt_mono_r; lia.
      * intros x Hx. rewrite Z.lor_spec, testbit_bit by lia. destruct (Z.eqb_spec x n) as [->|]; [by rewrite E, orb_true_r|]. rewrite H2 by lia. apply orb_false_r.
    + split; [apply (in_width_mono n); [lia|done]|]. intros x Hx. destruct (decide (x = n)) as [->|]; [|apply H2; lia]. rewrite E. apply (in_width_testbit n); [done|lia].
Qed.

Lemma write_cells_spec width s k row : fb_ok s -> 0 <= k -> 0 < width <= 15 -> k * width + width <= 256 -> in_width width row ->
  fb_ok (write_cells width s k row) /\
  forall i, fb_bit (write_cells width s k row) i = fb_bit s i || ((k * width <=? i) && (i <? k * width + width) && Z.testbit row (i - k * width)).
Proof.
  intros Hs Hk Hw Hc Hrow. unfold write_cells. assert (forall n, 0 <= n <= width ->
    let r := foldl (fun c x => if negb (Z.land row (shl 16 1 x) =? 0) then ForwardBoard_insert c (k * width + x) else c) s (seqZ 0 n) in
    fb_ok r /\ forall i, fb_bit r i = fb_bit s i || ((k * width <=? i) && (i <? k * width + n) && Z.testbit row (i - k * width))) as H; [|exact (H width ltac:(lia))].
  intros n [Hn Hle]. revert Hle. pattern n. apply natlike_ind; [|clear n Hn; intros n Hn IH Hle|done]; cbn zeta in *.
  - intros _. split; [done|]. intros i. cbn. destruct (Z.leb_spec (k * width) i), (Z.ltb_spec i (k * width + 0)); cbn; rewrite ?orb_false_r; lia || done.
  - destruct IH as [H1 H2]; [lia|]. unfold Z.succ. rewrite seqZ_snoc, foldl_snoc by done. set (r := foldl _ s (seqZ 0 n)) in *.
    rewrite land_bit_eqb, negb_involutive by lia.
    assert (forall i, (k * width <=? i) && (i <? k * width + (n + 1)) = ((k * width <=? i) && (i <? k * width + n)) || (i =? k * width + n)) as Hlt.
    { intros i. destruct (Z.leb_spec (k * width) i), (Z.ltb_spec i (k * width + (n + 1))), (Z.ltb_spec i (k * width + n)), (Z.eqb_spec i (k * width + n)); try done; lia. }
    assert (forall i, (i =? k * width + n) && Z.testbit row (i - k * width) = (i =? k * width + n) && Z.testbit row n) as He.
    { intros i. destruct (Z.eqb_spec i (k * width + n)) as [->|]; [|done]. cbn [andb]. f_equal. lia. }
    destruct (Z.testbit row n) eqn:E.
    + destruct (fb_insert_spec r (k * width + n) H1) as [H3 H4]; [nia|]. split; [done|]. intros i. rewrite H4, H2, Hlt, andb_orb_distrib_l, He, andb_true_r. by rewrite orb_assoc.
    + split; [done|]. intros i. by rewrite H2, Hlt, andb_orb_distrib_l, He, andb_false_r, orb_false_r.
Qed.

Lemma count_cleared b width height cleared : 0 <= height <= 32 -> in_width 32 cleared ->
  (forall y, Z.testbit cleared y = (0 <=? y) && (y <? height) && row_full b width y) ->
  count_ones cleared = length (filter (fun y => row_full b width y) (seqZ 0 height)).
Proof.
  intros Hh Hc Hb. rewrite (count_ones_bits 32) by done. unfold bits. rewrite <- (length_fmap Z.of_nat).
  assert (filter (fun i => Z.testbit cleared (Z.of_nat i)) (seq 0 32) = filter (fun i => row_full b width (Z.of_nat i)) (seq 0 (Z.to_nat height))) as ->.
  - replace 32%nat with (Z.to_nat height + (32 - Z.to_nat height))%nat by lia. rewrite seq_app, filter_app. rewrite <- (app_nil_r (filter (fun i => row_full _ _ _) _)). f_equal.
    + apply filter_ext_bool. intros i [_ Hi]%elem_of_seq. rewrite Hb, (proj2 (Z.leb_le 0 (Z.of_nat i))), (proj2 (Z.ltb_lt (Z.of_nat i) height)) by lia. done.
    + apply elem_of_nil_inv. intros i [Hi [Hi2 _]%elem_of_seq]%list_elem_of_filter. rewrite Hb, (proj2 (Z.ltb_ge (Z.of_nat i) height)) in Hi by lia. by rewrite andb_false_r in Hi.
  - rewrite length_fmap. unfold seqZ.
    rewrite (filter_fmap_bool (fun i => Z.of_nat i + 0) (row_full b width)). rewrite length_fmap. f_equal. apply filter_ext_bool. intros i _. by rewrite Z.add_0_r.
Qed.

(** What [place_and_clear] promises. *)
Definition clears_rows (width height : Z) (b : ForwardBoard) (result : ForwardBoard * Z * nat) : Prop :=
  let '(r, cleared, lines) := result in
  fb_ok r /\ (forall i, fb_bit r i = compacted_cell b width (kept_rows b width height) i) /\
  (forall y, Z.testbit cleared y = (0 <=? y) && (y <? height) && row_full b width y) /\
  lines = length (filter (fun y => row_full b width y) (seqZ 0 height)).

(** The cells of the one-word variant. *)
Lemma one_word_bit s i : in_width 64 s -> fb_bit (mkForward [s; 0; 0; 0]) i = Z.testbit s i.
Proof.
  intros Hs. destruct (decide (0 <= i < 256)) as [Hi|Hi].
  - rewrite fb_bit_word by done. cbn [fb_words]. destruct (Z.lt_ge_cases i 64).
    + replace (i / 64) with 0 by divlia. replace (i mod 64) with i by divlia. done.
    + rewrite (in_width_testbit 64 s) by done. assert (i / 64 = 1 \/ i / 64 = 2 \/ i / 64 = 3) as [->|[->| ->]] by divlia; apply Z.testbit_0_l.
  - rewrite fb_bit_out by lia. destruct (Z.testbit s i) eqn:E; [|done]. pose proof (in_width_bit 64 s i ltac:(lia) Hs E). lia.
Qed.

(** C17: Clearing full rows.  For a board of [height] rows of [width] cells the
    result holds the rows that are not full, in order and without gaps, the
    mask marks exactly the full rows and the line count is their number,
    whichever of the one-word, packed and cell-by-cell variants the
    dimensions select. *)
Theorem place_and_clear_correct (width height : Z) (b : ForwardBoard) :
  fb_ok b -> 0 < width <= 15 -> 0 <= height <= 32 -> width * height <= 256 -> clears_rows width height b (place_and_clear width height b).
Proof.
  intros Hb Hw Hh Hc. unfold place_and_clear. destruct (Z.eqb_spec width 10) as [->|Hne].
  - destruct (Z.leb_spec height 6); [|assert (exists active, (if height <=? 12 then 2 else 4) = active /\ active <= 4 /\ height * 10 <= 64 * active) as (active & Ea & Ha & Hfit)].
    + unfold place_and_clear_10_u64. cbn zeta. change 1023 with (Z.ones 10) at 2. destruct (clear_10_u64_spec b height Hb ltac:(lia)) as (s & cleared & -> & Hs & Hbit & H32 & Hcl).
      split; [by apply fb_of_words; width|]. split; [intros i; by rewrite one_word_bit|]. split; [done|]. by apply count_cleared.
    + destruct (Z.leb_spec height 12); eexists; (split; [done|lia]).
    + assert ((if height <=? 12 then place_and_clear_10_words 2 height b else place_and_clear_10_words 4 height b) = place_and_clear_10_words active height b) as -> by (subst active; by destruct (height <=? 12)).
      unfold place_and_clear_10_words. change 1023 with (Z.ones 10).
      destruct (clear_rows_spec (fun ws => Board256Mask_ok (mkBoard256Mask ws)) (fun ws => b256_bit (mkBoard256Mask ws)) b 10 height
        (read_packed_row_10 active (fb_words b)) (write_packed_row_10 active)) with (start := [0; 0; 0; 0]) (n := height) as (s & cleared & -> & Hs & Hbit & H32 & Hcl); try lia.
      * intros y Hy. apply read_packed_spec; [done|lia..].
      * intros s k row Hs Hk Hrow. apply write_packed_spec; [done|lia..|done].
      * apply EMPTY_ok.
      * apply EMPTY_bit.
      * split; [done|]. split; [done|]. split; [done|]. by apply count_cleared.
  - unfold place_and_clear_cells. cbn zeta. rewrite low_mask_ones by lia.
    destruct (clear_rows_spec fb_ok fb_bit b width height (forward_row_bits b width) (write_cells width)) with (start := ForwardBoard_EMPTY) (n := height) as (s & cleared & -> & Hs & Hbit & H32 & Hcl); try lia.
    + intros y Hy. apply row_bits_spec; [done|lia..].
    + intros s k row Hs Hk Hrow. apply write_cells_spec; [done|lia|lia|nia|done].
    + apply fb_empty_ok.
    + apply fb_empty_bit.
    + split; [done|]. split; [done|]. split; [done|]. by apply count_cleared.
Qed.

Lemma place_and_clear_correct_witness :
  fb_bit (fst (fst (place_and_clear 10 4 (mkForward [Z.lor 1023 (Z.shiftl 5 10); 0; 0; 0])))) 2 = true.
Proof.
  pose proof (place_and_clear_correct 10 4 (mkForward [Z.lor 1023 (Z.shiftl 5 10); 0; 0; 0])) as H.
  destruct H as (_ & H & _); [apply fb_of_words; split; done|lia|lia|lia|]. cbn in H. exact (H 2).
Defined.

(** ** The arena stores a list *)

Fixpoint chunked {K} (cs : list (list K)) : Prop :=
  match cs with
  | [] => True
  | [c] => 0 < Z.of_nat (length c) <= 65536
  | c :: cs => Z.of_nat (length c) = 65536 /\ chunked cs
  end.

Definition arena_ok {K} (a : BoardValueArena K) (vs : list K) : Prop :=
  concat (chunks a) = vs /\ arena_len a = Z.of_nat (length vs) /\ chunked (chunks a).

Lemma chunked_lookup {K} (cs : list (list K)) i : chunked cs -> 0 <= i < Z.of_nat (length (concat cs)) ->
  exists c v, cs !! Z.to_nat (i / 65536) = Some c /\ c !! Z.to_nat (i mod 65536) = Some v /\ concat cs !! Z.to_nat i = Some v.
Proof.
  revert i. induction cs as [|c cs IH]; intros i Hc Hi; [cbn in Hi; lia|].
  assert (Z.of_nat (length c) <= 65536 /\ (cs = [] \/ Z.of_nat (length c) = 65536 /\ chunked cs)) as [Hle Hcs] by (cbn in Hc; destruct cs; [split; [lia|by left]|split; [lia|by right]]).
  cbn [concat] in *. rewrite length_app in Hi. destruct (Z.lt_ge_cases i (Z.of_nat (length c))) as [Hlt|Hge].
  - replace (i / 65536) with 0 by divlia. replace (i mod 65536) with i by divlia. destruct (lookup_lt_is_Some_2 c (Z.to_nat i)) as [v Hv]; [lia|].
    exists c, v. split; [done|]. split; [done|]. by apply lookup_app_l_Some.
  - destruct Hcs as [->|[Hl Hcs]]; [cbn in Hi; lia|]. destruct (IH (i - 65536)) as (d & v & H1 & H2 & H3); [done|lia|]. exists d, v.
    replace (Z.to_nat (i / 65536)) with (S (Z.to_nat ((i - 65536) / 65536))) by divlia. replace (i mod 65536) with ((i - 65536) mod 65536) by divlia.
    split; [done|]. split; [done|]. rewrite lookup_app_r by lia. by replace (Z.to_nat i - length c)%nat with (Z.to_nat (i - 65536)) by lia.
Qed.

Lemma chunked_cons {K} (c : list K) cs : cs <> [] -> Z.of_nat (length c) = 65536 -> chunked cs -> chunked (c :: cs).
Proof. by destruct cs. Qed.

Lemma chunked_push {K} (cs : list (list K)) (v : K) : chunked cs ->
  let k := Z.of_nat (length (concat cs)) / 65536 in
  let cs' := if k =? Z.of_nat (length cs) then cs ++ [[]] else cs in
  exists c, cs' !! Z.to_nat k = Some c /\ chunked (<[Z.to_nat k := c ++ [v]]> cs') /\ concat (<[Z.to_nat k := c ++ [v]]> cs') = concat cs ++ [v].
Proof.
  induction cs as [|c cs IH]; intros Hc; cbn zeta in *; [by exists []|]. destruct cs as [|d cs].
  - cbn [chunked concat length] in *. rewrite app_nil_r. destruct (Z.eq_dec (Z.of_nat (length c)) 65536) as [E|E].
    + rewrite E. change (65536 / 65536) with 1. exists []. split; [done|]. split; [split; [exact E|cbn; lia]|done].
    + replace (Z.of_nat (length c) / 65536) with 0 by divlia. change (if 0 =? Z.of_nat 1 then [c] ++ [[]] else [c]) with [c]. exists c. split; [done|]. split; [|apply app_nil_r]. change (0 < Z.of_nat (length (c ++ [v])) <= 65536). rewrite length_app. cbn [length]. lia.
  - destruct Hc as [Hl Hc]. destruct (IH Hc) as (e & H1 & H2 & H3). clear IH. remember (d :: cs) as L eqn:EL. assert (L <> []) as HL by (by subst L). clear EL Hc. cbn [concat length]. rewrite length_app.
    replace (Z.of_nat (length c + length (concat L)) / 65536) with (Z.of_nat (length (concat L)) / 65536 + 1) by (rewrite Nat2Z.inj_add, Hl; divlia).
    set (k := Z.of_nat (length (concat L)) / 65536) in *. assert (0 <= k) by (unfold k; divlia).
    assert ((if k + 1 =? Z.of_nat (S (length L)) then (c :: L) ++ [[]] else c :: L) = c :: (if k =? Z.of_nat (length L) then L ++ [[]] else L)) as ->.
    { destruct (Z.eqb_spec k (Z.of_nat (length L))), (Z.eqb_spec (k + 1) (Z.of_nat (S (length L)))); done || lia. }
    set (M := if k =? Z.of_nat (length L) then L ++ [[]] else L) in *. replace (Z.to_nat (k + 1)) with (S (Z.to_nat k)) by lia. exists e. split; [exact H1|].
    change (<[S (Z.to_nat k) := e ++ [v]]> (c :: M)) with (c :: <[Z.to_nat k := e ++ [v]]> M). split; [|cbn [concat]; by rewrite H3, app_assoc].
    apply chunked_cons; [|done|done]. intros E. pose proof (lookup_lt_Some _ _ _ H1) as Hlt. apply (f_equal length) in E. rewrite length_insert in E. cbn in E. lia.
Qed.

Lemma arena_get_spec {K} (a : BoardValueArena K) vs i v : arena_ok a vs -> 0 <= i -> vs !! Z.to_nat i = Some v -> arena_get a i = Ok v.
Proof.
  intros (Hc & Hl & Hch) Hi Hv. pose proof (lookup_lt_Some _ _ _ Hv). unfold arena_get. change BOARD_VALUE_CHUNK_MASK with (Z.ones 16). rewrite Z.land_ones by lia. unfold BOARD_VALUE_CHUNK_SHIFT.
  rewrite Z.shiftr_div_pow2 by lia. change (2 ^ 16) with 65536. subst vs. destruct (chunked_lookup _ i Hch) as (c & v' & -> & H2 & H3); [lia|]. cbn [rbind expect_some]. rewrite H2. cbn. congruence.
Qed.

Lemma arena_push_spec {K} (a : BoardValueArena K) vs v : arena_ok a vs -> exists a', arena_push a v = Ok a' /\ arena_ok a' (vs ++ [v]).
Proof.
  intros (Hc & Hl & Hch). unfold arena_push. cbn zeta. unfold BOARD_VALUE_CHUNK_SHIFT. rewrite Z.shiftr_div_pow2 by lia. change (2 ^ 16) with 65536. rewrite Hl, <- Hc.
  destruct (chunked_push (chunks a) v Hch) as (c & H1 & H2 & H3). rewrite H1. cbn [rbind expect_some]. eexists. split; [done|]. split; [done|]. split; [|done]. cbn [arena_len]. rewrite length_app. cbn. lia.
Qed.

Lemma arena_default_ok {K} : arena_ok (@arena_default K) [].
Proof. done. Qed.

(** ** The hash table *)

Section Table.
Context {K : Type} `{!BoardCatalogKey K}.

(** The [i]-th slot probed for a hash. *)
Definition probe (n h i : Z) : nat := Z.to_nat ((h + i) mod n).

(** The slots hold the ids of [vs], plus one, each once and where probing for
    its key finds it before an empty slot. *)
Definition table_ok (slots : list Z) (vs : list K) : Prop :=
  let n := Z.of_nat (length slots) in
  (forall j v, slots !! j = Some v -> v <> 0 -> 1 <= v <= Z.of_nat (length vs)) /\
  (forall i j v, slots !! i = Some v -> slots !! j = Some v -> v <> 0 -> i = j) /\
  (forall id key, vs !! id = Some key -> exists i, 0 <= i < n /\ slots !! probe n (catalog_hash key) i = Some (Z.of_nat id + 1) /\
     forall j, 0 <= j < i -> exists v, slots !! probe n (catalog_hash key) j = Some v /\ v <> 0).

Definition size_ok (slots : list Z) : Prop := exists k, 4 <= k /\ Z.of_nat (length slots) = 2 ^ k.

Lemma size_pos slots : size_ok slots -> 0 < Z.of_nat (length slots).
Proof. intros (k & Hk & ->). apply Z.pow_pos_nonneg; lia. Qed.

Lemma mask_mod slots x : size_ok slots -> Z.land x (slot_mask slots) = x mod Z.of_nat (length slots).
Proof. intros (k & Hk & E). unfold slot_mask. rewrite E, <- Z.land_ones by lia. f_equal. rewrite Z.ones_equiv. lia. Qed.

Lemma next_slot slots h i : size_ok slots ->
  Z.land ((h + i) mod Z.of_nat (length slots) + 1) (slot_mask slots) = (h + (i + 1)) mod Z.of_nat (length slots).
Proof. intros Hs. pose proof (size_pos _ Hs). rewrite mask_mod by done. rewrite Zplus_mod_idemp_l. f_equal. lia. Qed.

Lemma probe_lt slots h i : size_ok slots -> (probe (Z.of_nat (length slots)) h i < length slots)%nat.
Proof. intros Hs. pose proof (size_pos _ Hs). unfold probe. pose proof (Z.mod_pos_bound (h + i) (Z.of_nat (length slots)) ltac:(lia)). lia. Qed.

Lemma probe_reaches slots h p : size_ok slots -> (p < length slots)%nat -> exists i, 0 <= i < Z.of_nat (length slots) /\ probe (Z.of_nat (length slots)) h i = p.
Proof.
  intros Hs Hp. pose proof (size_pos _ Hs). exists ((Z.of_nat p - h) mod Z.of_nat (length slots)). split; [apply Z.mod_pos_bound; lia|].
  unfold probe. rewrite Zplus_mod_idemp_r. replace (h + (Z.of_nat p - h)) with (Z.of_nat p) by lia. rewrite Z.mod_small by lia. lia.
Qed.

(** A table with fewer ids than slots has an empty slot. *)
Lemma empty_slot slots vs : table_ok slots vs -> (length vs < length slots)%nat -> exists p, slots !! p = Some 0.
Proof.
  intros (H1 & H2 & _) Hlt. destruct (decide (0 ∈ slots)) as [Hin|Hout]; [by apply list_elem_of_lookup in Hin|]. exfalso.
  assert (NoDup slots) as Hn.
  { apply NoDup_alt. intros i j v Hi Hj. apply (H2 i j v); [done|done|]. intros ->. apply Hout. by apply list_elem_of_lookup_2 in Hi. }
  assert (slots ⊆ seqZ 1 (Z.of_nat (length vs))) as Hsub.
  { intros v [j Hj]%list_elem_of_lookup. apply elem_of_seqZ. assert (v <> 0) by (intros ->; apply Hout; by apply list_elem_of_lookup_2 in Hj). specialize (H1 _ _ Hj). lia. }
  pose proof (submseteq_length _ _ (NoDup_submseteq _ _ Hn Hsub)) as Hl. rewrite length_seqZ in Hl. lia.
Qed.

(** The first empty slot probed for a hash. *)
Definition first_empty (slots : list Z) (h i : Z) : Prop :=
  let n := Z.of_nat (length slots) in
  0 <= i < n /\ slots !! probe n h i = Some 0 /\ forall j, 0 <= j < i -> exists v, slots !! probe n h j = Some v /\ v <> 0.

Lemma find_empty_from slots h m fuel i : size_ok slots -> slots !! probe (Z.of_nat (length slots)) h m = Some 0 -> 0 <= i <= m -> m < Z.of_nat (length slots) ->
  m < i + Z.of_nat fuel ->
  (forall j, 0 <= j < i -> exists v, slots !! probe (Z.of_nat (length slots)) h j = Some v /\ v <> 0) ->
  exists e, first_empty slots h e /\ find_empty fuel slots ((h + i) mod Z.of_nat (length slots)) = Ok ((h + e) mod Z.of_nat (length slots)).
Proof.
  intros Hs Hm. revert i. induction fuel as [|fuel IH]; intros i Hi Hlt Hf Hbefore; [lia|]. cbn [find_empty].
  fold (probe (Z.of_nat (length slots)) h i). destruct (lookup_lt_is_Some_2 slots (probe (Z.of_nat (length slots)) h i) (probe_lt _ _ _ Hs)) as [v Hv]. rewrite Hv. cbn [expect_some rbind].
  destruct (Z.eqb_spec v 0) as [->|Hne].
  - exists i. split; [|done]. split; [lia|]. by split.
  - rewrite next_slot by done. destruct (decide (i = m)) as [->|]; [congruence|]. apply IH; [lia|lia|lia|]. intros j Hj. destruct (decide (j = i)) as [->|]; [by exists v|]. apply Hbefore. lia.
Qed.

Lemma find_empty_spec slots vs h : size_ok slots -> table_ok slots vs -> (length vs < length slots)%nat ->
  exists e, first_empty slots h e /\ find_empty (length slots) slots (Z.land h (slot_mask slots)) = Ok ((h + e) mod Z.of_nat (length slots)).
Proof.
  intros Hs Ht Hlt. destruct (empty_slot _ _ Ht Hlt) as [p Hp]. destruct (probe_reaches slots h p Hs (lookup_lt_Some _ _ _ Hp)) as (m & Hm & Ep).
  rewrite mask_mod by done. replace (h mod Z.of_nat (length slots)) with ((h + 0) mod Z.of_nat (length slots)) by (f_equal; lia). apply (find_empty_from slots h m); [done|by rewrite Ep|lia|lia|lia|]. intros j Hj. lia.
Qed.

Lemma table_insert slots vs key e : size_ok slots -> table_ok slots vs -> first_empty slots (catalog_hash key) e ->
  table_ok (<[probe (Z.of_nat (length slots)) (catalog_hash key) e := Z.of_nat (length vs) + 1]> slots) (vs ++ [key]).
Proof.
  intros Hs (H1 & H2 & H3) (He & Hz & Hb). set (p := probe _ _ e) in *. assert (p < length slots)%nat as Hp by (by apply lookup_lt_Some in Hz).
  unfold table_ok. cbn zeta. rewrite length_insert.
  assert (forall j v, <[p := Z.of_nat (length vs) + 1]> slots !! j = Some v -> v <> 0 -> (j = p /\ v = Z.of_nat (length vs) + 1) \/ (j <> p /\ slots !! j = Some v)) as Hlook.
  { intros j v Hj Hv. apply list_lookup_insert_Some in Hj as [(-> & -> & _)|[Hne Hj]]; [by left|right]. split; [congruence|done]. }
  assert (forall j v, slots !! j = Some v -> v <> 0 -> <[p := Z.of_nat (length vs) + 1]> slots !! j = Some v) as Hkeep.
  { intros j v Hj Hv. rewrite list_lookup_insert_ne; [done|]. intros <-. congruence. }
  split; [|split].
  - intros j v Hj Hv. rewrite length_app. cbn [length]. destruct (Hlook j v Hj Hv) as [[_ ->]|[_ Hj']]; [lia|]. specialize (H1 _ _ Hj' Hv). lia.
  - intros i j v Hi Hj Hv. destruct (Hlook i v Hi Hv) as [[-> ->]|[Hip Hi']], (Hlook j _ Hj ltac:(lia || done)) as [[-> E]|[Hjp Hj']]; [done| | |by apply (H2 i j v)].
    + specialize (H1 _ _ Hj' ltac:(lia)). lia.
    + subst v. specialize (H1 _ _ Hi' ltac:(lia)). lia.
  - intros id k' Hid. apply lookup_snoc_Some in Hid as [[Hlt Hid]|[-> <-]].
    + destruct (H3 id k' Hid) as (i & Hi & Hs1 & Hs2). exists i. split; [done|]. split; [apply Hkeep; [done|lia]|]. intros j Hj. destruct (Hs2 j Hj) as (v & Hv & Hne). exists v. split; [by apply Hkeep|done].
    + exists e. split; [done|]. split; [by apply list_lookup_insert_eq|]. intros j Hj. destruct (Hb j Hj) as (v & Hv & Hne). exists v. split; [by apply Hkeep|done].
Qed.

Lemma table_empty n : table_ok (replicate n 0) [].
Proof.
  split; [|split].
  - intros j v [-> _]%lookup_replicate Hv. done.
  - intros i j v [-> _]%lookup_replicate _ Hv. done.
  - intros id key H. by rewrite lookup_nil in H.
Qed.
End Table.

(** ** Interning *)

Section Interning.
Context {K : Type} `{!BoardCatalogKey K}.

(** The catalog holds the distinct keys [vs], in the order of their ids. *)
Definition catalog_ok (c : BoardCatalog K) (vs : list K) : Prop :=
  arena_ok (values c) vs /\ NoDup vs /\ size_ok (slots c) /\
  Z.of_nat (length vs) * 10 <= Z.of_nat (length (slots c)) * 7 /\ table_ok (slots c) vs.

Lemma catalog_new_ok : catalog_ok catalog_new [].
Proof.
  split; [apply arena_default_ok|]. split; [constructor|]. split; [by exists 4|]. split; [cbn; lia|]. apply table_empty.
Qed.

Lemma catalog_get_spec c vs id key : catalog_ok c vs -> 0 <= id -> vs !! Z.to_nat id = Some key -> catalog_get c id = Ok key.
Proof. intros (Ha & _) Hid Hk. by apply (arena_get_spec _ vs). Qed.

Lemma reinsert_spec slots vs keys : size_ok slots -> table_ok slots vs -> (length (vs ++ keys) < length slots)%nat -> Z.of_nat (length (vs ++ keys)) < 2 ^ 32 ->
  exists slots', reinsert slots (Z.of_nat (length vs)) keys = Ok slots' /\ length slots' = length slots /\ table_ok slots' (vs ++ keys).
Proof.
  revert slots vs. induction keys as [|key keys IH]; intros slots vs Hs Ht Hl H32; cbn [reinsert]; [rewrite app_nil_r; by exists slots|].
  rewrite length_app in Hl, H32. cbn [length] in Hl, H32. destruct (find_empty_spec slots vs (catalog_hash key) Hs Ht) as (e & He & ->); [lia|]. cbn [rbind].
  rewrite (wrap_small 32 (Z.of_nat (length vs))), wrap_small by (split; lia). pose proof (table_insert slots vs key e Hs Ht He) as Ht'.
  set (slots1 := <[_ := _]> slots) in Ht'. assert (length slots1 = length slots) as Hl1 by apply length_insert.
  destruct (IH slots1 (vs ++ [key])) as (slots' & E & Hlen & Hok); [unfold size_ok; by rewrite Hl1|exact Ht'|rewrite !length_app; cbn [length]; lia|rewrite !length_app; cbn [length]; lia|].
  exists slots'. rewrite length_app in E. replace (Z.of_nat (length vs + length [key])) with (Z.of_nat (length vs) + 1) in E by (cbn [length]; lia).
  rewrite <- app_assoc in Hok. split; [exact E|]. split; [lia|exact Hok].
Qed.

Lemma grow_spec c vs : catalog_ok c vs -> Z.of_nat (length vs) < 2 ^ 32 ->
  exists c', grow c = Ok c' /\ catalog_ok c' vs /\ length (slots c') = (length (slots c) * 2)%nat.
Proof.
  intros (Ha & Hn & Hs & Hl & Ht) H32. unfold grow, arena_iter. rewrite (proj1 Ha). pose proof (size_pos _ Hs).
  assert (size_ok (replicate (length (slots c) * 2) 0)) as Hs'.
  { destruct Hs as (k & Hk & E). exists (k + 1). split; [lia|]. rewrite length_replicate, Nat2Z.inj_mul, E, Z.pow_add_r by lia. done. }
  destruct (reinsert_spec (replicate (length (slots c) * 2) 0) [] vs Hs' (table_empty _)) as (slots' & E & Hlen & Hok); [rewrite length_replicate; cbn; lia|done|].
  cbn [length] in E. change (Z.of_nat 0) with 0 in E. rewrite E. cbn [rbind]. rewrite length_replicate in Hlen. eexists. split; [done|]. split; [|exact Hlen].
  split; [done|]. split; [done|]. cbn [slots]. split; [|split; [lia|exact Hok]]. unfold size_ok in *. by rewrite Hlen, <- (length_replicate (length (slots c) * 2) 0).
Qed.

(** A key that is there: the loop returns its id. *)
Lemma intern_found c vs key id fuel i : catalog_ok c vs -> vs !! id = Some key -> let n := Z.of_nat (length (slots c)) in
  forall m, slots c !! probe n (catalog_hash key) m = Some (Z.of_nat id + 1) ->
  (forall j, 0 <= j < m -> exists v, slots c !! probe n (catalog_hash key) j = Some v /\ v <> 0) ->
  0 <= i <= m -> m < i + Z.of_nat fuel -> intern_loop fuel c key ((catalog_hash key + i) mod n) = Ok (Z.of_nat id, c).
Proof.
  intros Hc Hid n m Hm Hb. pose proof Hc as (Ha & Hn & Hs & _ & Ht). revert i. induction fuel as [|fuel IH]; intros i Hi Hf; [lia|]. cbn [intern_loop]. fold (probe n (catalog_hash key) i).
  assert (exists v, slots c !! probe n (catalog_hash key) i = Some v /\ v <> 0) as (v & Hv & Hne).
  { destruct (decide (i = m)) as [->|]; [exists (Z.of_nat id + 1); split; [done|lia]|]. apply Hb. lia. }
  rewrite Hv. cbn [expect_some rbind]. destruct (Z.eqb_spec v 0); [done|]. destruct Ht as (H1 & _). specialize (H1 _ _ Hv Hne).
  destruct (lookup_lt_is_Some_2 vs (Z.to_nat (v - 1))) as [k' Hk']; [lia|]. rewrite (arena_get_spec _ vs (v - 1) k' Ha) by (done || lia). cbn [rbind].
  case_bool_decide as Ek.
  - subst k'. pose proof (NoDup_lookup vs _ _ key Hn Hk' Hid). f_equal. f_equal. lia.
  - destruct (decide (i = m)) as [->|].
    + exfalso. rewrite Hm in Hv. injection Hv as <-. replace (Z.to_nat (Z.of_nat id + 1 - 1)) with id in Hk' by lia. congruence.
    + unfold n. rewrite next_slot by done. apply IH; lia.
Qed.

(** A key that is not there: the loop stops at an empty slot and adds it. *)
Lemma intern_added c vs key fuel i : catalog_ok c vs -> key ∉ vs -> Z.of_nat (length vs) < 2 ^ 32 - 1 ->
  (Z.of_nat (length vs) + 1) * 10 <= Z.of_nat (length (slots c)) * 7 -> let n := Z.of_nat (length (slots c)) in
  forall e, first_empty (slots c) (catalog_hash key) e -> 0 <= i <= e -> e < i + Z.of_nat fuel ->
  exists c', intern_loop fuel c key ((catalog_hash key + i) mod n) = Ok (Z.of_nat (length vs), c') /\ catalog_ok c' (vs ++ [key]).
Proof.
  intros Hc Hk H32 Hload n e He. pose proof Hc as (Ha & Hn & Hs & _ & Ht). revert i. induction fuel as [|fuel IH]; intros i Hi Hf; [lia|]. cbn [intern_loop]. fold (probe n (catalog_hash key) i).
  pose proof He as (Hr & Hz & Hb). destruct (decide (i = e)) as [->|Hne].
  - unfold n. rewrite Hz. cbn [expect_some rbind]. rewrite Z.eqb_refl. pose proof Ha as (_ & Hal & _). rewrite Hal.
    unfold try_from. rewrite (proj2 (Z.ltb_lt (Z.of_nat (length vs)) (2 ^ 32))) by lia. cbn [expect_some rbind].
    destruct (arena_push_spec _ _ key Ha) as (a' & -> & Ha'). cbn [rbind]. rewrite wrap_small by (split; lia). eexists. split; [done|].
    split; [done|]. split; [apply NoDup_app; split; [done|]; split; [by intros x Hx ->%list_elem_of_singleton|apply NoDup_singleton]|].
    cbn [slots]. unfold size_ok. rewrite length_insert. split; [exact Hs|]. split; [rewrite length_app; cbn [length]; lia|]. by apply table_insert.
  - destruct (Hb i ltac:(lia)) as (v & Hv & Hv0). unfold n. rewrite Hv. cbn [expect_some rbind]. destruct (Z.eqb_spec v 0); [done|]. destruct Ht as (H1 & _). specialize (H1 _ _ Hv Hv0).
    destruct (lookup_lt_is_Some_2 vs (Z.to_nat (v - 1))) as [k' Hk']; [lia|]. rewrite (arena_get_spec _ vs (v - 1) k' Ha) by (done || lia). cbn [rbind].
    rewrite bool_decide_eq_false_2; [|intros ->; apply Hk; by apply list_elem_of_lookup_2 in Hk']. rewrite next_slot by done. apply IH; lia.
Qed.

Lemma intern_spec c vs key : catalog_ok c vs -> Z.of_nat (length vs) < 2 ^ 32 - 1 ->
  exists id c' vs', intern c key = Ok (id, c') /\ catalog_ok c' vs' /\ 0 <= id /\ vs' !! Z.to_nat id = Some key /\
    vs' = (if bool_decide (key ∈ vs) then vs else vs ++ [key]).
Proof.
  intros Hc H32. unfold intern.
  assert (exists c1, (if Z.of_nat (length (slots c)) * 7 <? (arena_len (values c) + 1) * 10 then grow c else Ok c) = Ok c1 /\ catalog_ok c1 vs /\
    (Z.of_nat (length vs) + 1) * 10 <= Z.of_nat (length (slots c1)) * 7) as (c1 & -> & Hc1 & Hload).
  { pose proof Hc as ((_ & -> & _) & _ & Hs & Hl & _). destruct (Z.ltb_spec (Z.of_nat (length (slots c)) * 7) ((Z.of_nat (length vs) + 1) * 10)).
    - destruct (grow_spec c vs Hc ltac:(lia)) as (c1 & E & H1 & H2). exists c1. split; [done|]. split; [done|]. rewrite H2. pose proof Hs as (k & Hk & E2). pose proof (Z.pow_le_mono_r 2 4 k ltac:(lia) Hk). lia.
    - exists c. split; [done|]. split; [done|lia]. }
  cbn [rbind]. clear Hc c. pose proof Hc1 as (Ha & Hn & Hs & _ & Ht). pose proof (size_pos _ Hs). rewrite mask_mod by done.
  replace (catalog_hash key mod Z.of_nat (length (slots c1))) with ((catalog_hash key + 0) mod Z.of_nat (length (slots c1))) by (f_equal; lia).
  case_bool_decide as Hk.
  - apply list_elem_of_lookup in Hk as [id Hid]. destruct Ht as (_ & _ & H3). destruct (H3 id key Hid) as (m & Hm & Hs1 & Hs2).
    exists (Z.of_nat id), c1, vs. rewrite (intern_found c1 vs key id _ 0 Hc1 Hid m) by (done || lia). rewrite Nat2Z.id. repeat (split; [done || lia|]). done.
  - destruct (find_empty_spec (slots c1) vs (catalog_hash key) Hs Ht) as (e & He & _); [lia|]. destruct (intern_added c1 vs key (length (slots c1)) 0 Hc1 Hk H32 Hload e He) as (c' & E & Hc'); [destruct He; lia|destruct He; lia|].
    exists (Z.of_nat (length vs)), c', (vs ++ [key]). split; [done|]. split; [done|]. split; [lia|]. split; [|done]. rewrite Nat2Z.id. by apply list_lookup_middle.
Qed.
End Interning.

(** ** The catalog of a search *)

Fixpoint intern_all (c : ForwardBoardCatalog) (boards : list ForwardBoard) : Result Panic (list Z * ForwardBoardCatalog) :=
  match boards with
  | [] => Ok ([], c)
  | board :: boards =>
      let? '(id, c) := ForwardBoardCatalog_intern c board in
      let? '(ids, c) := intern_all c boards in
      Ok (id :: ids, c)
  end.

(** The boards of the catalog, in the order of their ids. *)
Definition board_catalog_ok (c : ForwardBoardCatalog) (bs : list ForwardBoard) : Prop :=
  match c with
  | Catalog64 c => exists vs, catalog_ok c vs /\ bs = (fun w => mkForward [w; 0; 0; 0]) <$> vs
  | Catalog128 c => exists vs, catalog_ok c vs /\ bs = (fun w => mkForward [fst w; snd w; 0; 0]) <$> vs
  | Catalog256 c => exists vs, catalog_ok c vs /\ bs = mkForward <$> vs
  end.

(** A board the words of the catalog can hold. *)
Definition tier_ok (c : ForwardBoardCatalog) (b : ForwardBoard) : Prop :=
  match c with
  | Catalog64 _ => exists w, b = mkForward [w; 0; 0; 0]
  | Catalog128 _ => exists w0 w1, b = mkForward [w0; w1; 0; 0]
  | Catalog256 _ => True
  end.

Lemma lift_added {A} `{EqDecision A} (f : A -> ForwardBoard) `{!Inj (=) (=) f} vs key :
  f <$> (if bool_decide (key ∈ vs) then vs else vs ++ [key]) = if bool_decide (f key ∈ f <$> vs) then f <$> vs else (f <$> vs) ++ [f key].
Proof.
  rewrite (bool_decide_ext (f key ∈ f <$> vs) (key ∈ vs)) by apply list_elem_of_fmap_inj, _. case_bool_decide; [done|]. by rewrite fmap_app.
Qed.

Lemma board_intern_spec c bs b : board_catalog_ok c bs -> tier_ok c b -> Z.of_nat (length bs) < 2 ^ 32 - 1 ->
  exists id c' bs', ForwardBoardCatalog_intern c b = Ok (id, c') /\ board_catalog_ok c' bs' /\ (forall b', tier_ok c b' -> tier_ok c' b') /\
    0 <= id /\ bs' !! Z.to_nat id = Some b /\ bs' = (if bool_decide (b ∈ bs) then bs else bs ++ [b]).
Proof.
  assert (Inj (=) (=) (fun w : Z => mkForward [w; 0; 0; 0])) by (by intros ? ? [= ->]).
  assert (Inj (=) (=) (fun w : Z * Z => mkForward [fst w; snd w; 0; 0])) by (by intros [? ?] [? ?] [= -> ->]).
  assert (Inj (=) (=) mkForward) by (by intros ? ? [= ->]).
  destruct c as [c|c|c]; intros (vs & Hc & ->); rewrite length_fmap; cbn [tier_ok ForwardBoardCatalog_intern].
  - intros [w ->] H32. cbn. destruct (intern_spec c vs w Hc H32) as (id & c' & vs' & -> & Hc' & Hid & Hl & ->). cbn [rbind].
    exists id, (Catalog64 c'). eexists. split; [done|]. split; [by eexists|]. split; [done|]. split; [done|]. split; [|apply (lift_added (fun w => mkForward [w; 0; 0; 0]))]. by rewrite list_lookup_fmap, Hl.
  - intros (w0 & w1 & ->) H32. cbn. destruct (intern_spec c vs (w0, w1) Hc H32) as (id & c' & vs' & -> & Hc' & Hid & Hl & ->). cbn [rbind].
    exists id, (Catalog128 c'). eexists. split; [done|]. split; [by eexists|]. split; [done|]. split; [done|]. split; [|apply (lift_added (fun w => mkForward [fst w; snd w; 0; 0]) vs (w0, w1))]. by rewrite list_lookup_fmap, Hl.
  - intros _ H32. destruct b as [w]. cbn [fb_words]. destruct (intern_spec c vs w Hc H32) as (id & c' & vs' & -> & Hc' & Hid & Hl & ->). cbn [rbind].
    exists id, (Catalog256 c'). eexists. split; [done|]. split; [by eexists|]. split; [done|]. split; [done|]. split; [|apply (lift_added mkForward)]. by rewrite list_lookup_fmap, Hl.
Qed.

Lemma board_get_spec c bs id b : board_catalog_ok c bs -> 0 <= id -> bs !! Z.to_nat id = Some b -> ForwardBoardCatalog_get c id = Ok b.
Proof.
  destruct c as [c|c|c]; intros (vs & Hc & ->) Hid Hl; rewrite list_lookup_fmap in Hl; apply fmap_Some in Hl as (v & Hv & ->);
    cbn [ForwardBoardCatalog_get]; by rewrite (catalog_get_spec c vs id v Hc Hid Hv).
Qed.

Lemma board_catalog_NoDup c bs : board_catalog_ok c bs -> NoDup bs.
Proof.
  destruct c as [c|c|c]; intros (vs & (_ & Hn & _) & ->); apply NoDup_fmap_2; try done.
  - by intros ? ? [= ->].
  - by intros [? ?] [? ?] [= -> ->].
  - by intros ? ? [= ->].
Qed.

Lemma intern_all_spec c bs boards : board_catalog_ok c bs -> Forall (tier_ok c) boards -> Z.of_nat (length bs + length boards) < 2 ^ 32 ->
  exists ids c' bs', intern_all c boards = Ok (ids, c') /\ board_catalog_ok c' bs' /\ bs `prefix_of` bs' /\ (forall b, b ∈ bs' <-> b ∈ bs \/ b ∈ boards) /\
    Forall2 (fun b id => 0 <= id /\ bs' !! Z.to_nat id = Some b) boards ids.
Proof.
  revert c bs. induction boards as [|b boards IH]; intros c bs Hc Ht H32; cbn [intern_all].
  - exists [], c, bs. split; [done|]. split; [done|]. split; [done|]. split; [|constructor]. intros b. rewrite elem_of_nil. tauto.
  - apply Forall_cons in Ht as [Hb Ht]. cbn [length] in H32. destruct (board_intern_spec c bs b Hc Hb) as (id & c1 & bs1 & -> & Hc1 & Htier & Hid & Hl & E); [lia|]. cbn [rbind].
    assert (bs `prefix_of` bs1 /\ (length bs1 <= length bs + 1)%nat /\ forall b', b' ∈ bs1 <-> b' ∈ bs \/ b' = b) as (Hp & Hlen & Hin).
    { rewrite E. case_bool_decide as Hbs.
      - split; [done|]. split; [lia|]. intros b'. split; [by left|]. by intros [?| ->].
      - split; [by eexists|]. split; [rewrite length_app; cbn; lia|]. intros b'. by rewrite elem_of_app, list_elem_of_singleton. }
    destruct (IH c1 bs1) as (ids & c' & bs' & -> & Hc' & Hp' & Hin' & H2); [done|by apply (Forall_impl _ _ _ Ht)|lia|]. cbn [rbind].
    exists (id :: ids), c', bs'. split; [done|]. split; [done|]. split; [by etrans|]. split.
    + intros b'. rewrite Hin', Hin, elem_of_cons. tauto.
    + constructor; [|done]. split; [done|]. destruct Hp' as [rest ->]. by apply lookup_app_l_Some.
Qed.

(** The words above the cells of a board are zero. *)
Lemma board_fits_tier height b : fb_ok b -> 0 <= height -> (forall i, fb_bit b i = true -> i < 10 * height) -> tier_ok (ForwardBoardCatalog_new height) b.
Proof.
  intros Hb Hh Hi. destruct (fb_destruct b Hb) as (w0 & w1 & w2 & w3 & -> & H0 & H1 & H2 & H3).
  assert (forall k w, [w0; w1; w2; w3] !!! Z.to_nat k = w -> in_width 64 w -> 1 <= k < 4 -> 10 * height <= 64 * k -> w = 0) as Hz.
  { intros k w Ek Hw Hk Hfit. apply word_0_iff; [apply Hw|]. intros j Hj. destruct (Z.testbit w j) eqn:E; [|done]. pose proof (in_width_bit 64 w j ltac:(lia) Hw E).
    assert (fb_bit (mkForward [w0; w1; w2; w3]) (64 * k + j) = true) as Hbit.
    { rewrite fb_bit_word by lia. replace ((64 * k + j) / 64) with k by divlia. replace ((64 * k + j) mod 64) with j by divlia. cbn [fb_words]. by rewrite Ek. }
    apply Hi in Hbit. lia. }
  unfold ForwardBoardCatalog_new. destruct (Z.leb_spec height 6); [|destruct (Z.leb_spec height 12)]; cbn [tier_ok]; [| |done].
  - exists w0. rewrite (Hz 1 w1), (Hz 2 w2), (Hz 3 w3) by (done || lia). done.
  - exists w0, w1. rewrite (Hz 2 w2), (Hz 3 w3) by (done || lia). done.
Qed.

(** C18: Interning the boards of a search never panics and never loops while
    the ids fit.  The catalog then holds exactly the boards interned, each
    once; a board keeps one id, and reading an id gives its board back,
    through growth of the hash table and of the arena. *)
Theorem board_catalog_correct (height : Z) (boards : list ForwardBoard) :
  0 <= height -> Forall (fun b => fb_ok b /\ forall i, fb_bit b i = true -> i < 10 * height) boards -> Z.of_nat (length boards) < 2 ^ 32 ->
  exists ids c stored, intern_all (ForwardBoardCatalog_new height) boards = Ok (ids, c) /\
    NoDup stored /\ (forall b, b ∈ stored <-> b ∈ boards) /\
    Forall2 (fun b id => 0 <= id /\ stored !! Z.to_nat id = Some b) boards ids /\
    (forall id b, 0 <= id -> stored !! Z.to_nat id = Some b -> ForwardBoardCatalog_get c id = Ok b).
Proof.
  intros Hh Hb H32. destruct (intern_all_spec (ForwardBoardCatalog_new height) [] boards) as (ids & c & bs & E & Hc & _ & Hin & H2).
  - unfold ForwardBoardCatalog_new. repeat case_match; (exists []; split; [apply catalog_new_ok|done]).
  - apply (Forall_impl _ _ _ Hb). intros b [? ?]. by apply board_fits_tier.
  - cbn [length]. lia.
  - exists ids, c, bs. split; [done|]. split; [by apply (board_catalog_NoDup c)|]. split; [intros b; rewrite Hin, elem_of_nil; tauto|]. split; [done|]. intros id b. by apply board_get_spec.
Qed.

Definition sample_boards : list ForwardBoard := (fun i => mkForward [i mod 13; 0; 0; 0]) <$> seqZ 0 40.

Lemma board_catalog_correct_witness : exists ids c stored, intern_all (ForwardBoardCatalog_new 4) sample_boards = Ok (ids, c) /\
  NoDup stored /\ (forall b, b ∈ stored <-> b ∈ sample_boards) /\
  Forall2 (fun b id => 0 <= id /\ stored !! Z.to_nat id = Some b) sample_boards ids /\
  (forall id b, 0 <= id -> stored !! Z.to_nat id = Some b -> ForwardBoardCatalog_get c id = Ok b).
Proof.
  apply (board_catalog_correct 4 sample_boards); [lia| |vm_compute; reflexivity].
  apply Forall_forall. intros b (i & -> & Hi)%list_elem_of_fmap. assert (0 <= i mod 13 < 13) as Hm by (apply Z.mod_pos_bound; lia).
  assert (in_width 6 (i mod 13)) as Hw by (split; [lia|]; change (2 ^ 6) with 64; lia). assert (in_width 64 (i mod 13)) as Hw' by (apply (in_width_mono 6); [lia|done]).
  split; [apply fb_of_words; width|]. intros j Hj. rewrite one_word_bit in Hj by done. pose proof (in_width_bit 6 _ j ltac:(lia) Hw Hj). lia.
Defined.

(** The ids are handed out in the order of first use. *)
Example sample_ids : fst <$> rok (intern_all (ForwardBoardCatalog_new 4) sample_boards) = Some ((fun i => i mod 13) <$> seqZ 0 40).
Proof. vm_compute. reflexivity. Qed.
