(* ===== verification/Reachability.v ===== *)
(** * Reachable placements

    [clearra-forward-search/src/reachability.rs]: the search for the positions
    in which a piece can lock.  A template lists, for a piece and a height,
    the positions of the piece with their cells, the moves between them and
    the kick tests of each rotation; a breadth-first search over it marks the
    positions with a generation number, so that its vectors need not be
    cleared between searches, and a dense table collects one lock per position
    and class of evidence.

    This file holds the definitions and the lemmas on templates.  Coordinates
    are [i8] in the source; every sum below stays in its range for fields of
    at most 100 rows. *)

From Stdlib Require Import ZArith Lia.
From stdpp Require Import prelude strings sorting.
From S2P Require Import Prelude Words Pieces Kicks PcBoard ForwardBoard.

Local Open Scope Z_scope.

(** Indexing a vector: out of range is a panic. *)
Definition vec_at {A} (l : list A) (i : Z) : Result Panic A := expect_some (l !! Z.to_nat i).

Definition vec_set {A} (l : list A) (i : Z) (v : A) : Result Panic (list A) :=
  if (Z.to_nat i <? length l)%nat then Ok (<[Z.to_nat i := v]> l) else Err Panicked.

(** [Vec::resize] of a shorter vector. *)
Definition vec_resize {A} (l : list A) (n : nat) (v : A) : list A := l ++ replicate (n - length l) v.

(** ** Positions, targets, locks *)

Definition INVALID_STATE : Z := 65535.

Record State := mkState { st_rotation : RotationState; st_x : Z; st_y : Z }.

#[export] Instance State_eq_dec : EqDecision State.
Proof. solve_decision. Defined.

Record RotationTarget := mkTarget { rt_state : Z; kick_index : Z; kick_dx : Z; kick_dy : Z }.

#[export] Instance RotationTarget_eq_dec : EqDecision RotationTarget.
Proof. solve_decision. Defined.

Record ReachableRotationEdge := mkEdge { edge_source : Z; edge_slot : Z; edge_target : RotationTarget }.

#[export] Instance ReachableRotationEdge_eq_dec : EqDecision ReachableRotationEdge.
Proof. solve_decision. Defined.

Inductive RotationMove := MoveClockwise | MoveCounterClockwise | MoveHalfTurn.

#[export] Instance RotationMove_eq_dec : EqDecision RotationMove.
Proof. solve_decision. Defined.

Inductive LockEvidence :=
| NoRotation
| RotationEvidence (from : RotationState) (request : RotationMove) (index dx dy predecessor_x predecessor_y : Z).

#[export] Instance LockEvidence_eq_dec : EqDecision LockEvidence.
Proof. solve_decision. Defined.

Record ReachableLock := mkLock { lock_rotation : RotationState; lock_x : Z; lock_y : Z; lock_mask : ForwardBoard; lock_evidence : LockEvidence; lock_immobile : bool }.

#[export] Instance ReachableLock_eq_dec : EqDecision ReachableLock.
Proof. solve_decision. Defined.

Inductive ScoringEvidenceClass := ClassNoRotation | ClassRotation | ClassFinalKickOverride.

#[export] Instance ScoringEvidenceClass_eq_dec : EqDecision ScoringEvidenceClass.
Proof. solve_decision. Defined.

Definition scoring_class (e : LockEvidence) : ScoringEvidenceClass :=
  match e with
  | NoRotation => ClassNoRotation
  | RotationEvidence _ MoveClockwise 4 _ _ _ _ | RotationEvidence _ MoveCounterClockwise 4 _ _ _ _ => ClassFinalKickOverride
  | RotationEvidence _ _ _ _ _ _ _ => ClassRotation
  end.

Definition last_action_was_rotation (e : LockEvidence) : bool :=
  match e with NoRotation => false | RotationEvidence _ _ _ _ _ _ _ => true end.

Definition scoring_evidence_class_index (c : ScoringEvidenceClass) : Z :=
  match c with ClassNoRotation => 0 | ClassRotation => 1 | ClassFinalKickOverride => 2 end.

(** The key [(u8, u8, i8, i8)] by which the locks of a position are sorted,
    with its four bytes packed into one number in the same order. *)
Definition lock_evidence_sort_key (l : ReachableLock) : Z :=
  match lock_evidence l with
  | NoRotation => (0 * 256 + 0) * 65536 + (0 + 128) * 256 + (0 + 128)
  | RotationEvidence _ _ index _ _ px py => (1 * 256 + index) * 65536 + (px + 128) * 256 + (py + 128)
  end.

Definition replay_rotation_request (slot : Z) : RotationMove :=
  match slot with 0 => MoveClockwise | 1 => MoveCounterClockwise | _ => MoveHalfTurn end.

(** ** Positions as indices *)

Definition state_index (width ceiling : Z) (s : State) : option Z :=
  if (st_x s <? 0) || (width <=? st_x s) || (st_y s <? 0) || (ceiling <? st_y s) then None
  else Some ((quarter_turns (st_rotation s) * (ceiling + 1) + st_y s) * width + st_x s).

Definition state_from_index (width ceiling index : Z) : Result Panic State :=
  let rotation_stride := (ceiling + 1) * width in
  let? rotation := expect_some (rotation_from_turns (index / rotation_stride)) in
  let remainder := index mod rotation_stride in
  Ok (mkState rotation (remainder mod width) (remainder / width)).

Definition normalized_rotation_center (piece : PieceKind) (r : RotationState) : Z * Z :=
  match piece with
  | PI => [(0, 0); (-2, 2); (0, 1); (-1, 2)] !!! Z.to_nat (quarter_turns r)
  | PO => (0, 0)
  | PT | PS | PZ | PJ | PL => [(1, 0); (0, 1); (1, 1); (1, 1)] !!! Z.to_nat (quarter_turns r)
  end.

Definition normalized_kick_delta (piece : PieceKind) (from to : RotationState) (dx dy : Z) : Z * Z :=
  let '(from_x, from_y) := normalized_rotation_center piece from in
  let '(to_x, to_y) := normalized_rotation_center piece to in
  (dx + from_x - to_x, dy + from_y - to_y).

(** [x as i8] of a [u8]. *)
Definition as_i8 (x : Z) : Z := if x <? 128 then x else x - 256.

(** The greatest step down a kick makes. *)
Definition source_downward (piece : PieceKind) (allow_180 : bool) (profile : KickTableProfile) : Z :=
  let used := filter (fun e => tr_piece (entry_transition e) = piece /\ (allow_180 || negb (transition_is_180 (entry_transition e)) = true)) (entries profile) in
  let dys := used ≫= (fun e => (fun o => snd (normalized_kick_delta piece (tr_from (entry_transition e)) (tr_to (entry_transition e)) (fst o) (snd o))) <$> entry_offsets e) in
  foldl Z.max 0 (Z.opp <$> filter (fun dy => dy < 0) dys).

Definition source_ceiling (height : Z) (piece : PieceKind) (allow_180 : bool) (profile : KickTableProfile) : Z :=
  as_i8 (saturating_add 8 height (source_downward piece allow_180 profile)).

(** ** Templates *)

Record ReachabilityTemplate := mkTemplate {
  ceiling : Z;
  allow_180 : bool;
  state_masks : list ForwardBoard;
  valid_states : list bool;
  lock_inside_field : list bool;
  translations : list (list Z);
  upward_translations : list Z;
  sky_seeds : list Z;
  rotations : list (list (list RotationTarget))
}.

(** The cells of one position; [None] when one lies outside the columns or
    below the floor. *)
Fixpoint place_cells (height : Z) (x y : Z) (cells : list (Z * Z)) (mask : ForwardBoard) (inside : bool) : option (ForwardBoard * bool) :=
  match cells with
  | [] => Some (mask, inside)
  | (cx, cy) :: cells =>
      let cell_x := x + cx in
      let cell_y := y + cy in
      if (cell_x <? 0) || (10 <=? cell_x) || (cell_y <? 0) then None
      else if height <=? cell_y then place_cells height x y cells mask false
      else place_cells height x y cells (ForwardBoard_insert mask (cell_y * 10 + cell_x)) inside
  end.

(** The positions in the order of the three nested loops. *)
Definition template_states (ceiling : Z) : list State :=
  ALL_ROTATIONS ≫= (fun rotation => seqZ 0 (ceiling + 1) ≫= (fun y => (fun x => mkState rotation x y) <$> seqZ 0 10)).

Definition compile_state (height ceiling : Z) (piece : PieceKind) (arrays : list ForwardBoard * list bool * list bool) (s : State) :
    Result Panic (list ForwardBoard * list bool * list bool) :=
  let '(masks, valid, inside) := arrays in
  let? index := expect_some (state_index 10 ceiling s) in
  match place_cells height (st_x s) (st_y s) (piece_shape piece (st_rotation s)) ForwardBoard_EMPTY true with
  | Some (mask, within) =>
      let? masks := vec_set masks index mask in
      let? valid := vec_set valid index true in
      let? inside := vec_set inside index within in
      Ok (masks, valid, inside)
  | None => Ok arrays
  end.

(** [state_index(..).filter(|i| valid[*i])]. *)
Definition valid_index (ceiling : Z) (valid : list bool) (s : State) : Result Panic (option Z) :=
  match state_index 10 ceiling s with
  | Some index => let? ok := vec_at valid index in Ok (if (ok : bool) then Some index else None)
  | None => Ok None
  end.

(** [u16::try_from(index).unwrap_or(INVALID_STATE)]. *)
Definition translation_target (ceiling : Z) (valid : list bool) (s : State) : Result Panic Z :=
  let? found := valid_index ceiling valid s in
  Ok (match found with Some index => default INVALID_STATE (try_from 16 index) | None => INVALID_STATE end).

Definition compile_translation (ceiling : Z) (valid : list bool) (source : Z) : Result Panic (list Z * Z) :=
  let? s := state_from_index 10 ceiling source in
  let? down := translation_target ceiling valid (mkState (st_rotation s) (st_x s) (st_y s - 1)) in
  let? left_ := translation_target ceiling valid (mkState (st_rotation s) (st_x s - 1) (st_y s)) in
  let? right_ := translation_target ceiling valid (mkState (st_rotation s) (st_x s + 1) (st_y s)) in
  let? up := translation_target ceiling valid (mkState (st_rotation s) (st_x s) (st_y s + 1)) in
  Ok ([down; left_; right_], up).

(** The kicks of one sequence that end in a valid position. *)
Fixpoint compile_kicks (ceiling : Z) (piece : PieceKind) (valid : list bool) (s : State) (to : RotationState) (index : Z) (offsets : list (Z * Z)) :
    Result Panic (list RotationTarget) :=
  match offsets with
  | [] => Ok []
  | (ox, oy) :: offsets =>
      let '(dx, dy) := normalized_kick_delta piece (st_rotation s) to ox oy in
      let? found := valid_index ceiling valid (mkState to (st_x s + dx) (st_y s + dy)) in
      let? rest := compile_kicks ceiling piece valid s to (index + 1) offsets in
      Ok (match found ≫= try_from 16 with Some state_id => mkTarget state_id (wrap 8 index) ox oy :: rest | None => rest end)
  end.

Definition compile_slot (ceiling : Z) (piece : PieceKind) (allow_180 : bool) (profile : KickTableProfile) (valid : list bool) (s : State) (slot : Z) (to : RotationState) :
    Result Panic (list RotationTarget) :=
  if (slot =? 2) && negb allow_180 then Ok []
  else
    match sequence_for profile (mkTransition piece (st_rotation s) to) with
    | Some offsets => compile_kicks ceiling piece valid s to 0 offsets
    | None => Ok []
    end.

Definition compile_rotation (ceiling : Z) (piece : PieceKind) (allow_180 : bool) (profile : KickTableProfile) (valid : list bool) (source : Z) :
    Result Panic (list (list RotationTarget)) :=
  let? s := state_from_index 10 ceiling source in
  let? cw := compile_slot ceiling piece allow_180 profile valid s 0 (clockwise (st_rotation s)) in
  let? ccw := compile_slot ceiling piece allow_180 profile valid s 1 (counter_clockwise (st_rotation s)) in
  let? half := compile_slot ceiling piece allow_180 profile valid s 2 (rotated_180 (st_rotation s)) in
  Ok [cw; ccw; half].

(** [iter.map(f).collect()] of a function that may panic. *)
Fixpoint collect {A B} (f : A -> Result Panic B) (l : list A) : Result Panic (list B) :=
  match l with
  | [] => Ok []
  | a :: l => let? b := f a in let? bs := collect f l in Ok (b :: bs)
  end.

(** Whether an index is a position above the field. *)
Definition is_sky_seed (height ceiling : Z) (valid : list bool) (index : Z) : Result Panic bool :=
  let? s := state_from_index 10 ceiling index in
  if as_i8 height <=? st_y s then vec_at valid index else Ok false.

(** [ReachabilityTemplate::compile]; the outer error is the one of the
    profile, the inner one a panic. *)
Definition template_compile (height : Z) (piece : PieceKind) (rule : RuleProfileId) : Result string (Result Panic ReachabilityTemplate) :=
  let? profile := builtin_kick_profile rule in
  Ok (let allow := supports_180 profile in
      let top := source_ceiling height piece allow profile in
      let state_count := Z.to_nat (4 * (top + 1) * 10) in
      let? _ := expect_some (registry_get STANDARD_TETROMINO_DEFINITIONS piece) in
      let? '(masks, valid, inside) :=
        try_fold (compile_state height top piece) (replicate state_count ForwardBoard_EMPTY, replicate state_count false, replicate state_count false) (template_states top) in
      let indices := seqZ 0 (Z.of_nat state_count) in
      let? moves := collect (compile_translation top valid) indices in
      let? above := collect (is_sky_seed height top valid) indices in
      let seeds := omap (fun '(index, sky) => if (sky : bool) then try_from 16 index else None) (zip indices above) in
      let? turns := collect (compile_rotation top piece allow profile valid) indices in
      Ok (mkTemplate top allow masks valid inside (fst <$> moves) (snd <$> moves) seeds turns)).

(** ** The search *)

Record ReachabilityScratch := mkScratch {
  visited : list Z;
  non_rotation_arrival : list Z;
  first_rotation_arrival : list Z;
  first_rotation_edge : list (option ReachableRotationEdge);
  immobile_marks : list bool;
  generation : Z;
  queue : list Z;
  rotation_edges : list ReachableRotationEdge
}.

Definition scratch_default : ReachabilityScratch := mkScratch [] [] [] [] [] 0 [] [].

(** [ReachabilityScratch::begin]; the reserved capacity of the queue is not
    modelled. *)
Definition scratch_begin (s : ReachabilityScratch) (state_count : nat) : ReachabilityScratch :=
  let s :=
    if (length (visited s) <? state_count)%nat then
      mkScratch (vec_resize (visited s) state_count 0) (vec_resize (non_rotation_arrival s) state_count 0)
        (vec_resize (first_rotation_arrival s) state_count 0) (vec_resize (first_rotation_edge s) state_count None)
        (vec_resize (immobile_marks s) state_count false) (generation s) (queue s) (rotation_edges s)
    else s in
  let g := wrap 16 (generation s + 1) in
  if g =? 0 then
    mkScratch (replicate (length (visited s)) 0) (replicate (length (non_rotation_arrival s)) 0)
      (replicate (length (first_rotation_arrival s)) 0) (first_rotation_edge s) (immobile_marks s) 1 [] []
  else
    mkScratch (visited s) (non_rotation_arrival s) (first_rotation_arrival s) (first_rotation_edge s) (immobile_marks s) g [] [].

Definition blocked (active : nat) (t : ReachabilityTemplate) (board : ForwardBoard) (target : Z) : Result Panic bool :=
  if target =? INVALID_STATE then Ok true
  else let? mask := vec_at (state_masks t) target in Ok (intersects_words active board mask).

(** [iter.all(blocked)]. *)
Fixpoint all_blocked (active : nat) (t : ReachabilityTemplate) (board : ForwardBoard) (targets : list Z) : Result Panic bool :=
  match targets with
  | [] => Ok true
  | target :: targets => let? b := blocked active t board target in if (b : bool) then all_blocked active t board targets else Ok false
  end.

Definition immobile (active : nat) (t : ReachabilityTemplate) (board : ForwardBoard) (source : Z) : Result Panic bool :=
  let? targets := vec_at (translations t) source in
  let? around := all_blocked active t board targets in
  if (around : bool) then let? up := vec_at (upward_translations t) source in blocked active t board up else Ok false.

Definition push_if_placeable (active : nat) (t : ReachabilityTemplate) (board : ForwardBoard) (state : Z) (s : ReachabilityScratch) (non_rotation : bool) :
    Result Panic ReachabilityScratch :=
  let? valid := vec_at (valid_states t) state in
  let? mask := vec_at (state_masks t) state in
  if negb valid || intersects_words active board mask then Ok s
  else
    let? marks := (if non_rotation then vec_set (non_rotation_arrival s) state (generation s) else Ok (non_rotation_arrival s)) in
    let? seen := vec_at (visited s) state in
    if negb (seen =? generation s) then
      let? seen := vec_set (visited s) state (generation s) in
      Ok (mkScratch seen marks (first_rotation_arrival s) (first_rotation_edge s) (immobile_marks s) (generation s) (queue s ++ [state]) (rotation_edges s))
    else Ok (mkScratch (visited s) marks (first_rotation_arrival s) (first_rotation_edge s) (immobile_marks s) (generation s) (queue s) (rotation_edges s)).

Definition grounded (active : nat) (t : ReachabilityTemplate) (board : ForwardBoard) (source : Z) : Result Panic bool :=
  let? s := state_from_index 10 (ceiling t) source in
  if st_y s =? 0 then Ok true
  else
    let? targets := vec_at (translations t) source in
    let? down := vec_at targets 0 in
    blocked active t board down.

(** [iter.find(..)]. *)
Fixpoint find_kick (active : nat) (t : ReachabilityTemplate) (board : ForwardBoard) (targets : list RotationTarget) : Result Panic (option RotationTarget) :=
  match targets with
  | [] => Ok None
  | target :: targets =>
      let? mask := vec_at (state_masks t) (rt_state target) in
      if negb (intersects_words active board mask) then Ok (Some target) else find_kick active t board targets
  end.

Definition first_successful_kick (active : nat) (t : ReachabilityTemplate) (board : ForwardBoard) (source slot : Z) : Result Panic (option RotationTarget) :=
  let? slots := vec_at (rotations t) source in
  let? targets := vec_at slots slot in
  find_kick active t board targets.

(** [for &seed in &template.sky_seeds]. *)
Fixpoint push_seeds (active : nat) (t : ReachabilityTemplate) (board : ForwardBoard) (seeds : list Z) (s : ReachabilityScratch) : Result Panic ReachabilityScratch :=
  match seeds with
  | [] => Ok s
  | seed :: seeds => let? s := push_if_placeable active t board seed s true in push_seeds active t board seeds s
  end.

(** [for &target in &template.translations[index]]. *)
Fixpoint push_translations (active : nat) (t : ReachabilityTemplate) (board : ForwardBoard) (targets : list Z) (s : ReachabilityScratch) : Result Panic ReachabilityScratch :=
  match targets with
  | [] => Ok s
  | target :: targets =>
      let? s := (if negb (target =? INVALID_STATE) then push_if_placeable active t board target s true else Ok s) in
      push_translations active t board targets s
  end.

Definition record_rotation (retain : bool) (e : ReachableRotationEdge) (s : ReachabilityScratch) : Result Panic ReachabilityScratch :=
  let target := rt_state (edge_target e) in
  let? mark := vec_at (first_rotation_arrival s) target in
  let? '(marks, edges) :=
    (if negb (mark =? generation s) then
       let? marks := vec_set (first_rotation_arrival s) target (generation s) in
       let? edges := vec_set (first_rotation_edge s) target (Some e) in
       Ok (marks, edges)
     else Ok (first_rotation_arrival s, first_rotation_edge s)) in
  Ok (mkScratch (visited s) (non_rotation_arrival s) marks edges (immobile_marks s) (generation s) (queue s)
        (if retain then rotation_edges s ++ [e] else rotation_edges s)).

(** [for slot in 0..rotation_count]. *)
Fixpoint push_rotations (active : nat) (t : ReachabilityTemplate) (board : ForwardBoard) (retain : bool) (source : Z) (slots : list Z) (s : ReachabilityScratch) :
    Result Panic ReachabilityScratch :=
  match slots with
  | [] => Ok s
  | slot :: slots =>
      let? kicked := first_successful_kick active t board source slot in
      let? s :=
        match kicked with
        | Some target =>
            let? s := record_rotation retain (mkEdge source slot target) s in
            push_if_placeable active t board (rt_state target) s false
        | None => Ok s
        end in
      push_rotations active t board retain source slots s
  end.

Definition rotation_slots (t : ReachabilityTemplate) : list Z := seqZ 0 (if allow_180 t then 3 else 2).

(** [while cursor < scratch.queue.len()]; no position enters the queue twice,
    so the number of positions bounds the turns. *)
Fixpoint search_loop (fuel : nat) (active : nat) (t : ReachabilityTemplate) (board : ForwardBoard) (retain : bool) (cursor : nat) (s : ReachabilityScratch) :
    Result Panic ReachabilityScratch :=
  match queue s !! cursor with
  | None => Ok s
  | Some source =>
      match fuel with
      | O => Err Panicked
      | S fuel =>
          let? targets := vec_at (translations t) source in
          let? s := push_translations active t board targets s in
          let? s := push_rotations active t board retain source (rotation_slots t) s in
          search_loop fuel active t board retain (S cursor) s
      end
  end.

(** ** The table of locks *)

Definition LOCK_EVIDENCE_CLASS_COUNT : Z := 3.
Definition LOCK_PRESENCE_WORDS : Z := 4 * 10 * LOCK_EVIDENCE_CLASS_COUNT.

Record DenseLockTable := mkLockTable { lock_slots : list (option ReachableLock); presence_by_rotation_x_class : list Z }.

Definition locks_default : DenseLockTable := mkLockTable [] (replicate (Z.to_nat LOCK_PRESENCE_WORDS) 0).

Definition locks_begin (l : DenseLockTable) (state_count : nat) : DenseLockTable :=
  let slot_count := Z.to_nat (saturating_mul 64 (Z.of_nat state_count) LOCK_EVIDENCE_CLASS_COUNT) in
  mkLockTable (if (length (lock_slots l) <? slot_count)%nat then vec_resize (lock_slots l) slot_count None else lock_slots l)
    (replicate (length (presence_by_rotation_x_class l)) 0).

(** The word of a rotation, column and class. *)
Definition presence_index (r : RotationState) (x class : Z) : Z := (quarter_turns r * 10 + x) * LOCK_EVIDENCE_CLASS_COUNT + class.

Definition locks_insert (l : DenseLockTable) (index : Z) (s : State) (lock : ReachableLock) : Result Panic DenseLockTable :=
  let class := scoring_evidence_class_index (scoring_class (lock_evidence lock)) in
  let y_bit := shl 64 1 (st_y s) in
  let presence := presence_index (st_rotation s) (st_x s) class in
  let? word := vec_at (presence_by_rotation_x_class l) presence in
  if negb (Z.land word y_bit =? 0) then Ok l
  else
    let? words := vec_set (presence_by_rotation_x_class l) presence (Z.lor word y_bit) in
    let? slots := vec_set (lock_slots l) (index * LOCK_EVIDENCE_CLASS_COUNT + class) (Some lock) in
    Ok (mkLockTable slots words).

(** [while ys != 0 { y = ys.trailing_zeros(); ys &= ys - 1; .. }]: the values
    of [y]. *)
Fixpoint drain_bits (fuel : nat) (ys : Z) : list Z :=
  match fuel with
  | O => []
  | S fuel => if ys =? 0 then [] else Z.of_nat (trailing_zeros ys) :: drain_bits fuel (Z.land ys (ys - 1))
  end.

(** The key of an empty slot is the greatest one. *)
Definition slot_sort_key (slot : option ReachableLock) : Z :=
  match slot with Some l => lock_evidence_sort_key l | None => (255 * 256 + 255) * 65536 + (127 + 128) * 256 + (127 + 128) end.

Definition slot_le (a b : option ReachableLock) : Prop := slot_sort_key a <= slot_sort_key b.

#[export] Instance slot_le_dec : RelDecision slot_le.
Proof. unfold slot_le. solve_decision. Defined.

(** The slots of a position whose class is present, by class. *)
Fixpoint present_slots (l : DenseLockTable) (r : RotationState) (x y index : Z) (classes : list Z) : Result Panic (list (option ReachableLock)) :=
  match classes with
  | [] => Ok []
  | class :: classes =>
      let? word := vec_at (presence_by_rotation_x_class l) (presence_index r x class) in
      let? found :=
        (if negb (Z.land word (shl 64 1 y) =? 0) then
           let? slot := vec_at (lock_slots l) (index * LOCK_EVIDENCE_CLASS_COUNT + class) in Ok [slot]
         else Ok []) in
      let? rest := present_slots l r x y index classes in
      Ok (found ++ rest)
  end.

(** The locks of one position, sorted.  [sort_unstable_by_key] leaves the
    order of equal keys open; here it is the one of [merge_sort]. *)
Definition locks_at (l : DenseLockTable) (ceiling : Z) (r : RotationState) (x y : Z) : Result Panic (list ReachableLock) :=
  let? index := expect_some (state_index 10 ceiling (mkState r x y)) in
  let? candidates := present_slots l r x y index [0; 1; 2] in
  Ok (omap id (merge_sort slot_le candidates)).

Definition column_locks (l : DenseLockTable) (ceiling : Z) (r : RotationState) (x : Z) : Result Panic (list ReachableLock) :=
  let base := presence_index r x 0 in
  let? w0 := vec_at (presence_by_rotation_x_class l) base in
  let? w1 := vec_at (presence_by_rotation_x_class l) (base + 1) in
  let? w2 := vec_at (presence_by_rotation_x_class l) (base + 2) in
  let? found := collect (locks_at l ceiling r x) (drain_bits 64 (Z.lor (Z.lor w0 w1) w2)) in
  Ok (concat found).

Definition write_sorted (l : DenseLockTable) (ceiling : Z) : Result Panic (list ReachableLock) :=
  let? found := collect (fun '(r, x) => column_locks l ceiling r x) (ALL_ROTATIONS ≫= (fun r => (fun x => (r, x)) <$> seqZ 0 10)) in
  Ok (concat found).

(** ** Collecting the locks *)

(** The lock a rotation leads to. *)
Definition rotation_lock (t : ReachabilityTemplate) (s : State) (mask : ForwardBoard) (e : ReachableRotationEdge) (is_immobile : bool) : Result Panic ReachableLock :=
  let? source := state_from_index 10 (ceiling t) (edge_source e) in
  Ok (mkLock (st_rotation s) (st_x s) (st_y s) mask
        (RotationEvidence (st_rotation source) (replay_rotation_request (edge_slot e)) (kick_index (edge_target e)) (kick_dx (edge_target e)) (kick_dy (edge_target e)) (st_x source) (st_y source))
        is_immobile).

(** The body of [for &state_id in &scratch.queue]. *)
Definition lock_state (active : nat) (t : ReachabilityTemplate) (board : ForwardBoard) (retain measure : bool) (s : ReachabilityScratch) (l : DenseLockTable) (index : Z) :
    Result Panic (ReachabilityScratch * DenseLockTable) :=
  let? inside := vec_at (lock_inside_field t) index in
  let? ground := (if (inside : bool) then grounded active t board index else Ok false) in
  if negb ground then Ok (s, l)
  else
    let? state := state_from_index 10 (ceiling t) index in
    let? still := (if measure then immobile active t board index else Ok false) in
    let? marks := vec_set (immobile_marks s) index still in
    let s := mkScratch (visited s) (non_rotation_arrival s) (first_rotation_arrival s) (first_rotation_edge s) marks (generation s) (queue s) (rotation_edges s) in
    let? mask := vec_at (state_masks t) index in
    let? arrival := vec_at (non_rotation_arrival s) index in
    if arrival =? generation s then
      let? l := locks_insert l index state (mkLock (st_rotation state) (st_x state) (st_y state) mask NoRotation still) in
      Ok (s, l)
    else
      let? rotated := vec_at (first_rotation_arrival s) index in
      if negb retain && (rotated =? generation s) then
        let? stored := vec_at (first_rotation_edge s) index in
        let? e := expect_some stored in
        let? lock := rotation_lock t state mask e still in
        let? l := locks_insert l index state lock in
        Ok (s, l)
      else Ok (s, l).

Fixpoint lock_states (active : nat) (t : ReachabilityTemplate) (board : ForwardBoard) (retain measure : bool) (ids : list Z) (s : ReachabilityScratch) (l : DenseLockTable) :
    Result Panic (ReachabilityScratch * DenseLockTable) :=
  match ids with
  | [] => Ok (s, l)
  | index :: ids =>
      let? '(s, l) := lock_state active t board retain measure s l index in
      lock_states active t board retain measure ids s l
  end.

(** The body of [for &edge in &scratch.rotation_edges]. *)
Definition lock_edge (active : nat) (t : ReachabilityTemplate) (board : ForwardBoard) (s : ReachabilityScratch) (l : DenseLockTable) (e : ReachableRotationEdge) : Result Panic DenseLockTable :=
  let? _ := state_from_index 10 (ceiling t) (edge_source e) in
  let target := rt_state (edge_target e) in
  let? seen := vec_at (visited s) target in
  let? inside := (if seen =? generation s then vec_at (lock_inside_field t) target else Ok false) in
  let? ground := (if (inside : bool) then grounded active t board target else Ok false) in
  if negb ground then Ok l
  else
    let? state := state_from_index 10 (ceiling t) target in
    let? mask := vec_at (state_masks t) target in
    let? still := vec_at (immobile_marks s) target in
    let? lock := rotation_lock t state mask e still in
    locks_insert l target state lock.

Fixpoint lock_edges (active : nat) (t : ReachabilityTemplate) (board : ForwardBoard) (s : ReachabilityScratch) (edges : list ReachableRotationEdge) (l : DenseLockTable) : Result Panic DenseLockTable :=
  match edges with
  | [] => Ok l
  | e :: edges => let? l := lock_edge active t board s l e in lock_edges active t board s edges l
  end.

Definition search_reachable_locks (active : nat) (t : ReachabilityTemplate) (board : ForwardBoard) (s : ReachabilityScratch) (l : DenseLockTable) (retain measure : bool) :
    Result Panic (ReachabilityScratch * DenseLockTable * list ReachableLock) :=
  let state_count := length (state_masks t) in
  let s := scratch_begin s state_count in
  let? s := push_seeds active t board (sky_seeds t) s in
  let? s := search_loop (S state_count) active t board retain 0 s in
  let? '(s, l) := lock_states active t board retain measure (queue s) s (locks_begin l state_count) in
  let? l := (if retain then lock_edges active t board s (rotation_edges s) l else Ok l) in
  let? output := write_sorted l (ceiling t) in
  Ok (s, l, output).

(** ** The workspace *)

Record ReachabilityWorkspace := mkWorkspace {
  templates : list (option ReachabilityTemplate);
  scratch : ReachabilityScratch;
  locks : DenseLockTable;
  lock_output : list ReachableLock;
  rule_profile : RuleProfileId;
  ws_height : Z
}.

Definition ReachabilityWorkspace_new (height : Z) (rule : RuleProfileId) : Result string ReachabilityWorkspace :=
  let? _ := builtin_kick_profile rule in
  Ok (mkWorkspace (replicate 7 None) scratch_default locks_default [] rule height).

(** [ReachabilityWorkspace::reachable_locks]. *)
Definition reachable_locks (w : ReachabilityWorkspace) (board : ForwardBoard) (piece : PieceKind) (retain measure : bool) : Result Panic (ReachabilityWorkspace * list ReachableLock) :=
  let index := Z.of_nat (piece_index piece) in
  let? stored := vec_at (templates w) index in
  let? t := (match stored with Some t => Ok t | None => let? compiled := expect (template_compile (ws_height w) piece (rule_profile w)) in compiled end) in
  let? known := vec_set (templates w) index (Some t) in
  let? '(s, l, output) := search_reachable_locks (words_for_height (ws_height w)) t board (scratch w) (locks w) retain measure in
  Ok (mkWorkspace known s l output (rule_profile w) (ws_height w), output).

(** The T piece on an empty field of four rows locks flat on the floor in
    every column, and so does each of its turns. *)
Example empty_field_locks :
  match ReachabilityWorkspace_new 4 Srs with
  | Ok w => match reachable_locks w ForwardBoard_EMPTY PT false true with Ok (_, output) => length output | Err _ => 0%nat end
  | Err _ => 0%nat
  end = 34%nat.
Proof. vm_compute. reflexivity. Qed.
