(* ===== verification/ReachTemplate.v ===== *)
(** * What a reachability template holds

    [template_for] describes the compiled template of a piece in terms of
    cells: which positions are on the board, which cells they take, and where
    moves and kicks lead.  [template_compile] is shown to produce it. *)

From Stdlib Require Import ZArith Lia.
From stdpp Require Import prelude strings sorting.
From S2P Require Import Prelude Words Pieces Kicks PcBoard ForwardBoard Reachability.

Local Open Scope Z_scope.

(** ** Positions *)

Definition on_grid (top : Z) (s : State) : Prop := 0 <= st_x s < 10 /\ 0 <= st_y s <= top.

#[export] Instance on_grid_dec top s : Decision (on_grid top s).
Proof. unfold on_grid. apply _. Defined.

Definition sindex (top : Z) (s : State) : Z := (quarter_turns (st_rotation s) * (top + 1) + st_y s) * 10 + st_x s.

Definition position_count (top : Z) : Z := 4 * (top + 1) * 10.

Lemma quarter_turns_bound r : 0 <= quarter_turns r < 4.
Proof. destruct r; cbn; lia. Qed.

Lemma sindex_bound top s : 0 <= top -> on_grid top s -> 0 <= sindex top s < position_count top.
Proof. intros Ht [Hx Hy]. pose proof (quarter_turns_bound (st_rotation s)). unfold sindex, position_count. nia. Qed.

Lemma state_index_in top s : on_grid top s -> state_index 10 top s = Some (sindex top s).
Proof.
  intros [Hx Hy]. unfold state_index. rewrite (proj2 (Z.ltb_ge (st_x s) 0)), (proj2 (Z.leb_gt 10 (st_x s))), (proj2 (Z.ltb_ge (st_y s) 0)), (proj2 (Z.ltb_ge top (st_y s))) by lia. done.
Qed.

Lemma state_index_out top s : ~ on_grid top s -> state_index 10 top s = None.
Proof.
  intros H. unfold state_index, on_grid in *. destruct (Z.ltb_spec (st_x s) 0), (Z.leb_spec 10 (st_x s)), (Z.ltb_spec (st_y s) 0), (Z.ltb_spec top (st_y s)); try done. lia.
Qed.

Lemma rotation_from_turns_inv r : rotation_from_turns (quarter_turns r) = Some r.
Proof. by destruct r. Qed.

Lemma state_from_sindex top s : 0 <= top -> on_grid top s -> state_from_index 10 top (sindex top s) = Ok s.
Proof.
  intros Ht [Hx Hy]. unfold state_from_index, sindex. cbn zeta.
  assert (((quarter_turns (st_rotation s) * (top + 1) + st_y s) * 10 + st_x s) / ((top + 1) * 10) = quarter_turns (st_rotation s)) as ->
    by (symmetry; apply (Z.div_unique _ _ _ (st_y s * 10 + st_x s)); nia).
  assert (((quarter_turns (st_rotation s) * (top + 1) + st_y s) * 10 + st_x s) mod ((top + 1) * 10) = st_y s * 10 + st_x s) as ->
    by (symmetry; apply (Z.mod_unique _ _ (quarter_turns (st_rotation s))); nia).
  rewrite rotation_from_turns_inv. cbn [expect_some rbind]. f_equal. replace ((st_y s * 10 + st_x s) mod 10) with (st_x s) by divlia. replace ((st_y s * 10 + st_x s) / 10) with (st_y s) by divlia. by destruct s.
Qed.

Lemma sindex_inj top s s' : 0 <= top -> on_grid top s -> on_grid top s' -> sindex top s = sindex top s' -> s = s'.
Proof. intros Ht H1 H2 E. pose proof (state_from_sindex top s Ht H1) as F. rewrite E, state_from_sindex in F by done. by injection F. Qed.

Lemma sindex_surj top i : 0 <= top -> 0 <= i < position_count top -> exists s, on_grid top s /\ sindex top s = i.
Proof.
  intros Ht Hi. unfold position_count in Hi. set (stride := (top + 1) * 10). assert (0 < stride) by (unfold stride; lia).
  assert (0 <= i / stride < 4) as Hq by (split; [apply Z.div_pos; lia|apply Z.div_lt_upper_bound; unfold stride; lia]).
  pose proof (Z.mod_pos_bound i stride ltac:(lia)) as Hm. pose proof (Z.div_mod i stride ltac:(lia)) as Hd.
  assert (exists r, quarter_turns r = i / stride) as [r Hr].
  { assert (i / stride = 0 \/ i / stride = 1 \/ i / stride = 2 \/ i / stride = 3) as [->|[->|[->| ->]]] by lia; [by exists Zero|by exists Right|by exists Two|by exists Left]. }
  exists (mkState r (i mod stride mod 10) (i mod stride / 10)). split; [split; cbn; unfold stride in *; divlia|]. unfold sindex. cbn. rewrite Hr. unfold stride in *. 
  pose proof (Z.div_mod (i mod ((top + 1) * 10)) 10 ltac:(lia)). nia.
Qed.

Lemma elem_of_template_states top s : 0 <= top -> s ∈ template_states top <-> on_grid top s.
Proof.
  intros Ht. unfold template_states, on_grid. split.
  - intros (r & Hin & _)%list_elem_of_bind. apply list_elem_of_bind in Hin as (y & Hin & Hy%elem_of_seqZ). apply list_elem_of_fmap in Hin as (x & -> & Hx%elem_of_seqZ). cbn. lia.
  - intros [Hx Hy]. destruct s as [r x y]. cbn [st_x st_y] in *. apply list_elem_of_bind. exists r. split; [|destruct r; set_solver].
    apply list_elem_of_bind. exists y. split; [|apply elem_of_seqZ; lia]. apply list_elem_of_fmap. exists x. split; [done|]. apply elem_of_seqZ. lia.
Qed.

(** ** Cells *)

Definition piece_cells (piece : PieceKind) (s : State) : list (Z * Z) :=
  (fun c => (st_x s + fst c, st_y s + snd c)) <$> piece_shape piece (st_rotation s).

(** Between the walls and above the floor. *)
Definition on_board (piece : PieceKind) (s : State) : bool :=
  forallb (fun c => (0 <=? fst c) && (fst c <? 10) && (0 <=? snd c)) (piece_cells piece s).

(** Below the top row of the field. *)
Definition inside_field (height : Z) (piece : PieceKind) (s : State) : bool := forallb (fun c => snd c <? height) (piece_cells piece s).

(** Cell [i] of the field is taken. *)
Definition takes_cell (height : Z) (piece : PieceKind) (s : State) (i : Z) : bool :=
  existsb (fun c => (snd c <? height) && (snd c * 10 + fst c =? i)) (piece_cells piece s).

Lemma place_cells_spec height x y cells mask inside : 0 <= height <= 25 -> fb_ok mask ->
  let placed := (fun c => (x + fst c, y + snd c)) <$> cells in
  match place_cells height x y cells mask inside with
  | Some (mask', inside') =>
      forallb (fun c => (0 <=? fst c) && (fst c <? 10) && (0 <=? snd c)) placed = true /\ fb_ok mask' /\
      inside' = inside && forallb (fun c => snd c <? height) placed /\
      forall i, fb_bit mask' i = fb_bit mask i || existsb (fun c => (snd c <? height) && (snd c * 10 + fst c =? i)) placed
  | None => forallb (fun c => (0 <=? fst c) && (fst c <? 10) && (0 <=? snd c)) placed = false
  end.
Proof.
  intros Hh. revert mask inside. induction cells as [|[cx cy] cells IH]; intros mask inside Hm; cbn zeta in *.
  - cbn. split; [done|]. split; [done|]. split; [by rewrite andb_true_r|]. intros i. by rewrite orb_false_r.
  - cbn [place_cells fmap list_fmap forallb existsb fst snd].
    destruct (Z.ltb_spec (x + cx) 0), (Z.leb_spec 10 (x + cx)), (Z.ltb_spec (y + cy) 0); cbn [orb];
      try (rewrite ?(proj2 (Z.leb_gt 0 (x + cx))), ?(proj2 (Z.ltb_ge (x + cx) 10)), ?(proj2 (Z.leb_gt 0 (y + cy))) by lia; cbn [andb]; rewrite ?andb_false_r; done).
    rewrite (proj2 (Z.leb_le 0 (x + cx))), (proj2 (Z.ltb_lt (x + cx) 10)), (proj2 (Z.leb_le 0 (y + cy))) by lia. cbn [andb].
    destruct (Z.leb_spec height (y + cy)).
    + rewrite (proj2 (Z.ltb_ge (y + cy) height)) by lia. specialize (IH mask false Hm). destruct (place_cells _ _ _ _ _ _) as [[mask' inside']|]; [|done].
      destruct IH as (V1 & V2 & -> & V3). cbn [andb orb]. rewrite andb_false_r. done.
    + rewrite (proj2 (Z.ltb_lt (y + cy) height)) by lia. destruct (fb_insert_spec mask ((y + cy) * 10 + (x + cx)) Hm) as [Hm' Hb]; [lia|].
      specialize (IH _ inside Hm'). destruct (place_cells _ _ _ _ _ _) as [[mask' inside']|]; [|done].
      destruct IH as (V1 & V2 & -> & V3). cbn [andb]. split; [done|]. split; [done|]. split; [done|]. intros i. rewrite V3, Hb, <- orb_assoc. do 2 f_equal. by rewrite Z.eqb_sym.
Qed.

(** ** Templates *)

(** The index a move leads to. *)
Definition target_index (top : Z) (piece : PieceKind) (s : State) : Z :=
  if bool_decide (on_grid top s) && on_board piece s then sindex top s else INVALID_STATE.

Definition move_down (s : State) : State := mkState (st_rotation s) (st_x s) (st_y s - 1).
Definition move_left (s : State) : State := mkState (st_rotation s) (st_x s - 1) (st_y s).
Definition move_right (s : State) : State := mkState (st_rotation s) (st_x s + 1) (st_y s).
Definition move_up (s : State) : State := mkState (st_rotation s) (st_x s) (st_y s + 1).

(** The position a kick leads to. *)
Definition kicked (piece : PieceKind) (s : State) (to : RotationState) (o : Z * Z) : State :=
  let d := normalized_kick_delta piece (st_rotation s) to (fst o) (snd o) in
  mkState to (st_x s + fst d) (st_y s + snd d).

(** The kicks of a sequence, from number [index] on, that stay on the board
    and under the ceiling. *)
Fixpoint kick_targets (top : Z) (piece : PieceKind) (s : State) (to : RotationState) (index : Z) (offsets : list (Z * Z)) : list RotationTarget :=
  match offsets with
  | [] => []
  | o :: offsets =>
      let s' := kicked piece s to o in
      (if bool_decide (on_grid top s') && on_board piece s' then [mkTarget (sindex top s') index (fst o) (snd o)] else []) ++
      kick_targets top piece s to (index + 1) offsets
  end.

(** The sequence a rotation tries; none for a half turn that is not allowed. *)
Definition slot_offsets (piece : PieceKind) (profile : KickTableProfile) (s : State) (slot : Z) (to : RotationState) : list (Z * Z) :=
  if (slot =? 2) && negb (supports_180 profile) then [] else default [] (sequence_for profile (mkTransition piece (st_rotation s) to)).

Definition slot_rotation (r : RotationState) (slot : Z) : RotationState :=
  match slot with 0 => clockwise r | 1 => counter_clockwise r | _ => rotated_180 r end.

Definition slot_targets (top : Z) (piece : PieceKind) (profile : KickTableProfile) (s : State) (slot : Z) : list RotationTarget :=
  kick_targets top piece s (slot_rotation (st_rotation s) slot) 0 (slot_offsets piece profile s slot (slot_rotation (st_rotation s) slot)).

Record template_for (height : Z) (piece : PieceKind) (profile : KickTableProfile) (t : ReachabilityTemplate) : Prop := {
  tf_ceiling : 0 <= ceiling t <= 100 /\ ceiling t = height + source_downward piece (supports_180 profile) profile;
  tf_allow : allow_180 t = supports_180 profile;
  tf_count : Z.of_nat (length (state_masks t)) = position_count (ceiling t);
  tf_masks : forall s, on_grid (ceiling t) s -> exists m, state_masks t !! Z.to_nat (sindex (ceiling t) s) = Some m /\ fb_ok m /\
    (forall i, fb_bit m i = on_board piece s && takes_cell height piece s i);
  tf_valid : forall s, on_grid (ceiling t) s -> valid_states t !! Z.to_nat (sindex (ceiling t) s) = Some (on_board piece s);
  tf_inside : forall s, on_grid (ceiling t) s -> lock_inside_field t !! Z.to_nat (sindex (ceiling t) s) = Some (on_board piece s && inside_field height piece s);
  tf_translations : forall s, on_grid (ceiling t) s -> translations t !! Z.to_nat (sindex (ceiling t) s) =
    Some [target_index (ceiling t) piece (move_down s); target_index (ceiling t) piece (move_left s); target_index (ceiling t) piece (move_right s)];
  tf_upward : forall s, on_grid (ceiling t) s -> upward_translations t !! Z.to_nat (sindex (ceiling t) s) = Some (target_index (ceiling t) piece (move_up s));
  tf_seeds : forall i, i ∈ sky_seeds t <-> exists s, on_grid (ceiling t) s /\ i = sindex (ceiling t) s /\ height <= st_y s /\ on_board piece s = true;
  tf_rotations : forall s, on_grid (ceiling t) s -> rotations t !! Z.to_nat (sindex (ceiling t) s) =
    Some [slot_targets (ceiling t) piece profile s 0; slot_targets (ceiling t) piece profile s 1; slot_targets (ceiling t) piece profile s 2]
}.

(** ** Compiling *)

(** A vector holds [f s] at the index of every position [s]. *)
Definition tabulates {A} (top : Z) (f : State -> A) (l : list A) : Prop :=
  Z.of_nat (length l) = position_count top /\ forall s, on_grid top s -> l !! Z.to_nat (sindex top s) = Some (f s).

Lemma vec_set_Ok {A} (l : list A) i v : 0 <= i < Z.of_nat (length l) -> vec_set l i v = Ok (<[Z.to_nat i := v]> l).
Proof. intros Hi. unfold vec_set. by rewrite (proj2 (Nat.ltb_lt _ _)) by lia. Qed.

(** The first value is the default, the second is written when the position is
    visited. *)
Definition written {A} (top : Z) (default_value : A) (f : State -> option A) (done : list State) (l : list A) : Prop :=
  Z.of_nat (length l) = position_count top /\
  forall s, on_grid top s -> l !! Z.to_nat (sindex top s) = Some (if bool_decide (s ∈ done) then default default_value (f s) else default_value).

Lemma written_start {A} top (d : A) f : 0 <= top -> written top d f [] (replicate (Z.to_nat (position_count top)) d).
Proof.
  intros Ht. split; [rewrite length_replicate; unfold position_count; lia|]. intros s Hs. pose proof (sindex_bound top s Ht Hs). rewrite bool_decide_eq_false_2 by apply not_elem_of_nil.
  apply lookup_replicate_2. lia.
Qed.

Lemma written_step {A} top (d : A) f done l s : 0 <= top -> on_grid top s -> written top d f done l ->
  written top d f (done ++ [s]) (match f s with Some v => <[Z.to_nat (sindex top s) := v]> l | None => l end).
Proof.
  intros Ht Hs [Hl Hw]. pose proof (sindex_bound top s Ht Hs) as Hb. split; [destruct (f s); by rewrite ?length_insert|]. intros s' Hs'. pose proof (sindex_bound top s' Ht Hs') as Hb'.
  destruct (decide (s' = s)) as [->|Hne].
  - rewrite bool_decide_eq_true_2 by (apply elem_of_app; right; by left). destruct (f s) as [v|] eqn:E; cbn [default]; [apply list_lookup_insert_eq; lia|].
    rewrite Hw, E by done. by destruct (bool_decide _).
  - assert (bool_decide (s' ∈ done ++ [s]) = bool_decide (s' ∈ done)) as -> by (apply bool_decide_ext; rewrite elem_of_app, list_elem_of_singleton; tauto).
    rewrite <- Hw by done. destruct (f s); [|done]. apply list_lookup_insert_ne. intros E. apply Hne. apply (sindex_inj top); [done..|lia].
Qed.

Lemma written_end {A} top (d : A) f done l : (forall s, on_grid top s -> s ∈ done) -> written top d f done l -> tabulates top (fun s => default d (f s)) l.
Proof. intros Hd [Hl Hw]. split; [done|]. intros s Hs. rewrite Hw by done. by rewrite bool_decide_eq_true_2 by (by apply Hd). Qed.

Lemma compile_states_spec height top piece : 0 <= height <= 25 -> 0 <= top ->
  exists masks valid inside,
    try_fold (compile_state height top piece)
      (replicate (Z.to_nat (position_count top)) ForwardBoard_EMPTY, replicate (Z.to_nat (position_count top)) false, replicate (Z.to_nat (position_count top)) false) (template_states top) =
      Ok (masks, valid, inside) /\
    tabulates top (on_board piece) valid /\ tabulates top (fun s => on_board piece s && inside_field height piece s) inside /\
    Z.of_nat (length masks) = position_count top /\
    forall s, on_grid top s -> exists m, masks !! Z.to_nat (sindex top s) = Some m /\ fb_ok m /\ forall i, fb_bit m i = on_board piece s && takes_cell height piece s i.
Proof.
  intros Hh Ht.
  set (place := fun s => place_cells height (st_x s) (st_y s) (piece_shape piece (st_rotation s)) ForwardBoard_EMPTY true).
  assert (forall todo done masks valid inside, Forall (on_grid top) todo ->
    written top ForwardBoard_EMPTY (fun s => fst <$> place s) done masks -> written top false (fun s => (fun _ => true) <$> place s) done valid -> written top false (fun s => snd <$> place s) done inside ->
    exists masks' valid' inside', try_fold (compile_state height top piece) (masks, valid, inside) todo = Ok (masks', valid', inside') /\
      written top ForwardBoard_EMPTY (fun s => fst <$> place s) (done ++ todo) masks' /\ written top false (fun s => (fun _ => true) <$> place s) (done ++ todo) valid' /\
      written top false (fun s => snd <$> place s) (done ++ todo) inside') as Hfold.
  { induction todo as [|s todo IH]; intros done masks valid inside Htodo W1 W2 W3; cbn [try_fold]; [rewrite app_nil_r; by exists masks, valid, inside|].
    apply Forall_cons in Htodo as [Hs Htodo]. pose proof (sindex_bound top s Ht Hs). unfold compile_state at 1. rewrite state_index_in by done. cbn [expect_some rbind]. fold (place s).
    pose proof (written_step _ _ _ _ _ s Ht Hs W1) as V1. pose proof (written_step _ _ _ _ _ s Ht Hs W2) as V2. pose proof (written_step _ _ _ _ _ s Ht Hs W3) as V3. cbn beta in V1, V2, V3.
    destruct (place s) as [[m i]|]; cbn [fmap option_fmap option_map fst snd] in *.
    - rewrite !vec_set_Ok by (destruct W1, W2, W3; lia). cbn [rbind]. destruct (IH (done ++ [s]) _ _ _ Htodo V1 V2 V3) as (ms & vs & ins & E & R). rewrite <- app_assoc in R. by exists ms, vs, ins.
    - cbn [rbind]. destruct (IH (done ++ [s]) _ _ _ Htodo V1 V2 V3) as (ms & vs & ins & E & R). rewrite <- app_assoc in R. by exists ms, vs, ins. }
  assert (Forall (on_grid top) (template_states top)) as Hin by (apply Forall_forall; intros s; by apply elem_of_template_states).
  destruct (Hfold (template_states top) [] _ _ _ Hin (written_start top ForwardBoard_EMPTY (fun s => fst <$> place s) Ht) (written_start top false (fun s => (fun _ => true) <$> place s) Ht)
    (written_start top false (fun s => snd <$> place s) Ht)) as (masks & valid & inside & E & W1 & W2 & W3).
  assert (forall s, on_grid top s -> s ∈ [] ++ template_states top) as Hall by (intros s; by apply elem_of_template_states).
  pose proof (written_end _ _ _ _ _ Hall W1) as [L1 T1]. pose proof (written_end _ _ _ _ _ Hall W2) as [L2 T2]. pose proof (written_end _ _ _ _ _ Hall W3) as [L3 T3].
  exists masks, valid, inside. split; [done|]. cbn beta in T1, T2, T3.
  assert (forall s, match place s with
    | Some (m, i) => on_board piece s = true /\ fb_ok m /\ i = inside_field height piece s /\ forall j, fb_bit m j = takes_cell height piece s j
    | None => on_board piece s = false end) as Hplace.
  { intros s. pose proof (place_cells_spec height (st_x s) (st_y s) (piece_shape piece (st_rotation s)) ForwardBoard_EMPTY true Hh fb_empty_ok) as H. cbn zeta in H. unfold place. destruct (place_cells _ _ _ _ _ _) as [[m i]|]; [|exact H].
    destruct H as (H1 & H2 & H3 & H4). split; [exact H1|]. split; [done|]. split; [exact H3|]. intros j. rewrite H4, fb_empty_bit. done. }
  split; [split; [done|]|split; [split; [done|]|split; [done|]]].
  - intros s Hs. rewrite T2 by done. specialize (Hplace s). destruct (place s) as [[m i]|]; cbn; [by destruct Hplace as [-> _]|by rewrite Hplace].
  - intros s Hs. rewrite T3 by done. specialize (Hplace s). destruct (place s) as [[m i]|]; cbn; [by destruct Hplace as (-> & _ & -> & _)|by rewrite Hplace].
  - intros s Hs. specialize (Hplace s). rewrite T1 by done. destruct (place s) as [[m i]|]; cbn; eexists; (split; [done|]).
    + destruct Hplace as (-> & Hok & _ & Hb). done.
    + rewrite Hplace. split; [apply fb_empty_ok|]. intros j. apply fb_empty_bit.
Qed.

Lemma collect_Forall2 {A B} (f : A -> Result Panic B) (l : list A) :
  (forall a, a ∈ l -> exists b, f a = Ok b) -> exists bs, collect f l = Ok bs /\ Forall2 (fun a b => f a = Ok b) l bs.
Proof.
  induction l as [|a l IH]; intros H; [by exists []|]. destruct (H a) as [b Hb]; [by left|]. destruct IH as (bs & E & H2); [intros x Hx; apply H; by right|].
  cbn [collect]. rewrite Hb, E. cbn [rbind]. exists (b :: bs). split; [done|]. by constructor.
Qed.

Lemma collect_tabulates {A} top (f : Z -> Result Panic A) (h : State -> A) : 0 <= top -> (forall s, on_grid top s -> f (sindex top s) = Ok (h s)) ->
  exists l, collect f (seqZ 0 (position_count top)) = Ok l /\ tabulates top h l /\ Forall2 (fun i a => f i = Ok a) (seqZ 0 (position_count top)) l.
Proof.
  intros Ht Hf. destruct (collect_Forall2 f (seqZ 0 (position_count top))) as (l & E & H2).
  { intros i Hi%elem_of_seqZ. destruct (sindex_surj top i Ht ltac:(lia)) as (s & Hs & <-). exists (h s). by apply Hf. }
  exists l. split; [done|]. split; [|done]. pose proof (Forall2_length _ _ _ H2) as Hl. rewrite length_seqZ in Hl. split; [unfold position_count in *; lia|].
  intros s Hs. pose proof (sindex_bound top s Ht Hs) as Hb. destruct (lookup_lt_is_Some_2 l (Z.to_nat (sindex top s))) as [a Ha]; [lia|].
  destruct (Forall2_lookup_r _ _ _ _ _ H2 Ha) as (i & Hi & Hfa). apply lookup_seqZ in Hi as [-> _]. rewrite Z.add_0_l, Z2Nat.id, Hf in Hfa by (done || lia). rewrite Ha. congruence.
Qed.

Section Compile.
Context (top : Z) (piece : PieceKind) (valid : list bool).
Context (Ht : 0 <= top <= 100) (Hvalid : tabulates top (on_board piece) valid).

Lemma valid_index_spec s : valid_index top valid s = Ok (if bool_decide (on_grid top s) && on_board piece s then Some (sindex top s) else None).
Proof.
  unfold valid_index. case_bool_decide as Hs; cbn [andb].
  - rewrite state_index_in by done. unfold vec_at. rewrite (proj2 Hvalid) by done. done.
  - by rewrite state_index_out.
Qed.

Lemma sindex_u16 s : on_grid top s -> try_from 16 (sindex top s) = Some (sindex top s).
Proof. intros Hs. pose proof (sindex_bound top s ltac:(lia) Hs). unfold try_from. rewrite (proj2 (Z.ltb_lt _ _)); [done|]. unfold position_count in *. change (2 ^ 16) with 65536. lia. Qed.

Lemma translation_target_spec s : translation_target top valid s = Ok (target_index top piece s).
Proof. unfold translation_target, target_index. rewrite valid_index_spec. cbn [rbind]. case_bool_decide as Hs; cbn [andb]; [|done]. destruct (on_board piece s); [|done]. by rewrite sindex_u16. Qed.

Lemma compile_translation_spec s : on_grid top s ->
  compile_translation top valid (sindex top s) =
  Ok ([target_index top piece (move_down s); target_index top piece (move_left s); target_index top piece (move_right s)], target_index top piece (move_up s)).
Proof. intros Hs. unfold compile_translation. rewrite state_from_sindex by (done || lia). cbn [rbind]. by rewrite !translation_target_spec. Qed.

Lemma compile_kicks_spec s to index offsets : 0 <= index -> index + Z.of_nat (length offsets) <= 256 ->
  compile_kicks top piece valid s to index offsets = Ok (kick_targets top piece s to index offsets).
Proof.
  revert index. induction offsets as [|[ox oy] offsets IH]; intros index Hi Hl; [done|]. cbn [length] in Hl. cbn [compile_kicks kick_targets fst snd].
  unfold kicked. cbn [fst snd]. destruct (normalized_kick_delta piece (st_rotation s) to ox oy) as [dx dy] eqn:E. cbn [fst snd]. rewrite valid_index_spec, IH by lia. cbn [rbind].
  f_equal. case_bool_decide as Hs; cbn [andb mbind option_bind app]; [|done]. destruct (on_board piece _); cbn [mbind option_bind app]; [|done].
  rewrite sindex_u16 by done. rewrite wrap_small by (split; [lia|change (2 ^ 8) with 256; lia]). done.
Qed.

Lemma is_sky_seed_spec height s : 0 <= height <= 25 -> on_grid top s -> is_sky_seed height top valid (sindex top s) = Ok ((height <=? st_y s) && on_board piece s).
Proof.
  intros Hh Hs. unfold is_sky_seed. rewrite state_from_sindex by (done || lia). cbn [rbind]. unfold as_i8. rewrite (proj2 (Z.ltb_lt height 128)) by lia.
  destruct (height <=? st_y s); [|done]. unfold vec_at. by rewrite (proj2 Hvalid).
Qed.

Lemma compile_rotation_spec profile s : on_grid top s -> (forall tr offsets, sequence_for profile tr = Some offsets -> Z.of_nat (length offsets) <= 256) ->
  compile_rotation top piece (supports_180 profile) profile valid (sindex top s) =
  Ok [slot_targets top piece profile s 0; slot_targets top piece profile s 1; slot_targets top piece profile s 2].
Proof.
  intros Hs Hlen. unfold compile_rotation. rewrite state_from_sindex by (done || lia). cbn [rbind].
  assert (forall slot to, compile_slot top piece (supports_180 profile) profile valid s slot to = Ok (kick_targets top piece s to 0 (slot_offsets piece profile s slot to))) as Hslot.
  { intros slot to. unfold compile_slot, slot_offsets. destruct (_ && _); [done|]. destruct (sequence_for _ _) as [offsets|] eqn:E; [|done]. cbn [from_option]. apply compile_kicks_spec; [lia|]. specialize (Hlen _ _ E). unfold id. lia. }
  by rewrite !Hslot.
Qed.
End Compile.

(** The built-in profiles have short sequences, and no kick goes down by more
    than four rows. *)
Lemma builtin_profile_bounds rule profile : builtin_kick_profile rule = Ok profile ->
  (forall tr offsets, sequence_for profile tr = Some offsets -> Z.of_nat (length offsets) <= 256) /\
  forall piece, 0 <= source_downward piece (supports_180 profile) profile <= 4.
Proof.
  intros H. assert (Forall (fun e => (length (entry_offsets e) <= 12)%nat) (entries profile) /\ Forall (fun piece => 0 <= source_downward piece (supports_180 profile) profile <= 4) STANDARD_TETROMINOES) as [Hl Hd].
  { destruct rule; try discriminate H; injection H as <-; split; decided. }
  split.
  - intros tr offsets Hs. unfold sequence_for in Hs. apply fmap_Some in Hs as ([i e] & He & ->). apply list_find_Some in He as (He & _). rewrite Forall_lookup in Hl. specialize (Hl _ _ He). cbn. lia.
  - intros piece. rewrite Forall_forall in Hd. apply Hd. destruct piece; set_solver.
Qed.

Lemma source_ceiling_sum height piece rule profile : 0 <= height <= 25 -> builtin_kick_profile rule = Ok profile ->
  source_ceiling height piece (supports_180 profile) profile = height + source_downward piece (supports_180 profile) profile.
Proof.
  intros Hh Hp. destruct (builtin_profile_bounds rule profile Hp) as [_ Hdown]. specialize (Hdown piece).
  unfold source_ceiling, saturating_add, as_i8, umax. rewrite Z.min_l by lia. by rewrite (proj2 (Z.ltb_lt _ _)) by lia.
Qed.

Lemma template_compile_spec height piece rule profile : 0 <= height <= 25 -> builtin_kick_profile rule = Ok profile ->
  exists t, template_compile height piece rule = Ok (Ok t) /\ template_for height piece profile t.
Proof.
  intros Hh Hp. unfold template_compile. rewrite Hp. cbn [rbind]. destruct (builtin_profile_bounds rule profile Hp) as [Hlen Hdown]. specialize (Hdown piece).
  pose proof (source_ceiling_sum height piece rule profile Hh Hp) as Htop.
  rewrite Htop. set (top := height + _) in *. assert (0 <= top <= 100) as Ht by (unfold top; lia). fold (position_count top).
  assert (exists d, registry_get STANDARD_TETROMINO_DEFINITIONS piece = Some d) as [d ->] by (destruct piece; by eexists). cbn [expect_some rbind].
  destruct (compile_states_spec height top piece Hh ltac:(lia)) as (masks & valid & inside & -> & Hvalid & Hinside & Hcount & Hmasks). cbn [rbind].
  rewrite Z2Nat.id by (unfold position_count; lia).
  destruct (collect_tabulates top (compile_translation top valid) _ ltac:(lia) (fun s Hs => compile_translation_spec top piece valid Ht Hvalid s Hs)) as (moves & -> & [_ Hmoves] & _). cbn [rbind].
  destruct (collect_tabulates top (is_sky_seed height top valid) _ ltac:(lia) (fun s Hs => is_sky_seed_spec top piece valid Ht Hvalid height s Hh Hs)) as (above & -> & [Hla Habove] & _). cbn [rbind].
  destruct (collect_tabulates top (compile_rotation top piece (supports_180 profile) profile valid) _ ltac:(lia) (fun s Hs => compile_rotation_spec top piece valid Ht Hvalid profile s Hs Hlen)) as (turns & -> & [_ Hturns] & _). cbn [rbind].
  eexists. split; [done|]. split; cbn [ceiling allow_180 state_masks valid_states lock_inside_field translations upward_translations sky_seeds rotations]; try done.
  - apply Hvalid.
  - apply Hinside.
  - intros s Hs. rewrite list_lookup_fmap, Hmoves by done. done.
  - intros s Hs. rewrite list_lookup_fmap, Hmoves by done. done.
  - intros i. rewrite list_elem_of_omap. split.
    + intros ([j sky] & Hin & Hj). apply list_elem_of_lookup in Hin as [k Hk]. apply lookup_zip_Some in Hk as [Hk1 Hk2]. apply lookup_seqZ in Hk1 as [-> Hk1].
      destruct (sindex_surj top (Z.of_nat k) ltac:(lia) ltac:(lia)) as (s & Hs & Es). replace k with (Z.to_nat (sindex top s)) in Hk2 by lia. rewrite Habove in Hk2 by done. injection Hk2 as <-.
      destruct ((height <=? st_y s) && on_board piece s) eqn:E; [|done]. apply andb_true_iff in E as [E1%Z.leb_le E2]. rewrite Z.add_0_l, <- Es, (sindex_u16 top) in Hj by done. injection Hj as <-. by exists s.
    + intros (s & Hs & -> & Hy & Ho). exists (sindex top s, true). rewrite (sindex_u16 top) by done. split; [|done]. pose proof (sindex_bound top s ltac:(lia) Hs).
      apply list_elem_of_lookup. exists (Z.to_nat (sindex top s)). apply lookup_zip_Some. split; [apply lookup_seqZ; lia|]. rewrite Habove, Ho, (proj2 (Z.leb_le height (st_y s))) by done. done.
Qed.
