(* ===== verification/ReachSearch.v ===== *)
(** * The breadth-first search

    The search of [search_reachable_locks] over an abstract graph: positions
    [0..n], those that can be placed, the moves and the turns out of each.  The
    history of arrivals ([Arrival]) determines the whole scratch state
    ([scratch_log]); the search visits exactly the positions reachable from the
    seeds, and its marks are exact because no earlier search used the same
    generation number. *)

From Stdlib Require Import ZArith Lia.
From stdpp Require Import prelude sorting.
From S2P Require Import Prelude Words Kicks ForwardBoard Reachability ReachTemplate.

Local Open Scope Z_scope.

(** ** Generations *)

(** Marks never exceed the current generation. *)
Definition scratch_inv (s : ReachabilityScratch) : Prop :=
  in_width 16 (generation s) /\
  Forall (fun v => 0 <= v <= generation s) (visited s) /\ Forall (fun v => 0 <= v <= generation s) (non_rotation_arrival s) /\
  Forall (fun v => 0 <= v <= generation s) (first_rotation_arrival s) /\
  length (non_rotation_arrival s) = length (visited s) /\ length (first_rotation_arrival s) = length (visited s) /\
  length (first_rotation_edge s) = length (visited s) /\ length (immobile_marks s) = length (visited s).

(** A scratch ready for [n] positions: no mark is the generation. *)
Definition scratch_fresh (n : nat) (s : ReachabilityScratch) : Prop :=
  0 < generation s < 2 ^ 16 /\ queue s = [] /\ rotation_edges s = [] /\ (n <= length (visited s))%nat /\
  Forall (fun v => 0 <= v < generation s) (visited s) /\ Forall (fun v => 0 <= v < generation s) (non_rotation_arrival s) /\
  Forall (fun v => 0 <= v < generation s) (first_rotation_arrival s) /\
  length (non_rotation_arrival s) = length (visited s) /\ length (first_rotation_arrival s) = length (visited s) /\
  length (first_rotation_edge s) = length (visited s) /\ length (immobile_marks s) = length (visited s).

Lemma scratch_default_inv : scratch_inv scratch_default.
Proof. split; [split; done|]. repeat (split; [constructor|]). done. Qed.

Lemma length_vec_resize {A} (l : list A) n v : length (vec_resize l n v) = Nat.max n (length l).
Proof. unfold vec_resize. rewrite length_app, length_replicate. lia. Qed.

Lemma Forall_vec_resize {A} (P : A -> Prop) l n v : P v -> Forall P l -> Forall P (vec_resize l n v).
Proof. intros Hv Hl. apply Forall_app. split; [done|]. by apply Forall_replicate. Qed.

(** After [begin] no mark is current, also when the counter wraps. *)
Lemma scratch_begin_fresh s n : scratch_inv s -> scratch_fresh n (scratch_begin s n).
Proof.
  intros ([Hg0 Hg1] & V1 & V2 & V3 & L1 & L2 & L3 & L4). unfold scratch_begin.
  set (s1 := if (length (visited s) <? n)%nat then _ else s).
  assert (scratch_inv s1 /\ (n <= length (visited s1))%nat /\ generation s1 = generation s) as (([_ _] & W1 & W2 & W3 & M1 & M2 & M3 & M4) & Hn & Eg).
  { unfold s1. destruct (Nat.ltb_spec (length (visited s)) n); [|by repeat split]. split; [|split; [cbn; rewrite length_vec_resize; lia|done]].
    split; [done|]. cbn [generation visited non_rotation_arrival first_rotation_arrival first_rotation_edge immobile_marks]. rewrite !length_vec_resize.
    repeat (split; [apply Forall_vec_resize; [lia|done]|]). lia. }
  clearbody s1. rewrite Eg in *. cbn zeta. unfold wrap.
  assert (forall l, Forall (fun v => 0 <= v <= generation s) l -> Forall (fun v => 0 <= v < generation s + 1) l) as Hlt by (intros l Hl; eapply Forall_impl; [exact Hl|]; cbn beta; intros; lia).
  assert (forall k, Forall (fun v => 0 <= v < 1) (replicate k 0)) as Hz by (intros k; apply Forall_replicate; lia).
  destruct (Z.eqb_spec ((generation s + 1) mod 2 ^ 16) 0) as [E|E].
  - split; [done|]. cbn. rewrite !length_replicate. repeat (split; [done || apply Hz|]). done.
  - assert ((generation s + 1) mod 2 ^ 16 = generation s + 1) as ->.
    { destruct (decide (generation s + 1 = 2 ^ 16)) as [Ew|Hne]; [rewrite Ew, Z_mod_same in E by lia; done|]. apply Z.mod_small. lia. }
    unfold scratch_fresh. cbn. assert (generation s + 1 <> 2 ^ 16) by (intros Ew; by rewrite Ew, Z_mod_same in E by lia). change (2 ^ 16) with 65536 in *. split; [lia|]. repeat (split; [done || by apply Hlt|]). done.
Qed.

(** ** The graph *)

Inductive Arrival := ByMove (target : Z) | ByTurn (e : ReachableRotationEdge).

Definition arrival_target (a : Arrival) : Z := match a with ByMove i => i | ByTurn e => rt_state (edge_target e) end.

(** The turns of a history, and the first one into a position. *)
Definition turns (L : list Arrival) : list ReachableRotationEdge := omap (fun a => match a with ByMove _ => None | ByTurn e => Some e end) L.

Definition first_turn (L : list Arrival) (i : Z) : option ReachableRotationEdge := head (filter (fun e => rt_state (edge_target e) = i) (turns L)).

Lemma turns_app L1 L2 : turns (L1 ++ L2) = turns L1 ++ turns L2.
Proof. unfold turns. apply omap_app. Qed.

Lemma elem_of_turns L e : e ∈ turns L <-> ByTurn e ∈ L.
Proof.
  unfold turns. rewrite list_elem_of_omap. split.
  - intros ([i|e'] & Hin & [= ->]). done.
  - intros H. by exists (ByTurn e).
Qed.

Lemma first_turn_snoc L a i : first_turn (L ++ [a]) i =
  match first_turn L i with Some e => Some e | None => match a with ByTurn e => if bool_decide (rt_state (edge_target e) = i) then Some e else None | ByMove _ => None end end.
Proof.
  unfold first_turn. rewrite turns_app, filter_app. destruct (filter _ (turns L)) as [|e l]; [|done]. cbn [app]. destruct a as [j|e]; [done|]. change (turns [ByTurn e]) with [e]. rewrite filter_cons, filter_nil. case_decide; [by rewrite bool_decide_eq_true_2|by rewrite bool_decide_eq_false_2].
Qed.

Lemma first_turn_None L i : first_turn L i = None <-> forall e, ByTurn e ∈ L -> rt_state (edge_target e) <> i.
Proof.
  unfold first_turn. rewrite head_None. split.
  - intros E e He Ei. assert (e ∈ filter (fun e => rt_state (edge_target e) = i) (turns L)) as Hin by (apply list_elem_of_filter; split; [done|by apply elem_of_turns]). rewrite E in Hin. by apply not_elem_of_nil in Hin.
  - intros H. apply elem_of_nil_inv. intros e [Ei He]%list_elem_of_filter. apply elem_of_turns in He. by apply (H e).
Qed.

Lemma first_turn_Some L i e : first_turn L i = Some e -> ByTurn e ∈ L /\ rt_state (edge_target e) = i.
Proof. unfold first_turn. intros H%head_Some_elem_of. apply list_elem_of_filter in H as [Hi He]. by apply elem_of_turns in He. Qed.

Section Search.
Context (active : nat) (t : ReachabilityTemplate) (board : ForwardBoard) (retain : bool) (n : nat).
Context (place : Z -> bool) (moves : Z -> list Z) (turn : Z -> Z -> option RotationTarget).

Definition in_n (i : Z) : Prop := 0 <= i < Z.of_nat n.

Context (Hplace : forall i, in_n i -> exists v m, vec_at (valid_states t) i = Ok v /\ vec_at (state_masks t) i = Ok m /\ negb v || intersects_words active board m = negb (place i)).
Context (Hmoves : forall i, in_n i -> exists raw, vec_at (translations t) i = Ok raw /\ filter (fun j => j <> INVALID_STATE) raw = moves i).
Context (Hmoves_in : forall i j, in_n i -> j ∈ moves i -> in_n j).
Context (Hturn : forall i slot, in_n i -> slot ∈ rotation_slots t -> first_successful_kick active t board i slot = Ok (turn i slot)).
Context (Hturn_in : forall i slot r, in_n i -> slot ∈ rotation_slots t -> turn i slot = Some r -> in_n (rt_state r)).
Context (Hseeds : Forall in_n (sky_seeds t)).

(** What a history of arrivals leaves in the scratch. *)
Record scratch_log (g : Z) (L : list Arrival) (s : ReachabilityScratch) : Prop := {
  sl_generation : generation s = g;
  sl_bounds : Forall (fun v => 0 <= v <= g) (visited s) /\ Forall (fun v => 0 <= v <= g) (non_rotation_arrival s) /\ Forall (fun v => 0 <= v <= g) (first_rotation_arrival s);
  sl_lengths : (n <= length (visited s))%nat /\ length (non_rotation_arrival s) = length (visited s) /\ length (first_rotation_arrival s) = length (visited s) /\
    length (first_rotation_edge s) = length (visited s) /\ length (immobile_marks s) = length (visited s);
  sl_nodup : NoDup (queue s);
  sl_queue : forall i, i ∈ queue s <-> in_n i /\ place i = true /\ exists a, a ∈ L /\ arrival_target a = i;
  sl_visited : forall i, in_n i -> visited s !! Z.to_nat i = Some g <-> i ∈ queue s;
  sl_moved : forall i, in_n i -> non_rotation_arrival s !! Z.to_nat i = Some g <-> place i = true /\ ByMove i ∈ L;
  sl_turned : forall i, in_n i -> first_rotation_arrival s !! Z.to_nat i = Some g <-> is_Some (first_turn L i);
  sl_first : forall i e, in_n i -> first_turn L i = Some e -> first_rotation_edge s !! Z.to_nat i = Some (Some e);
  sl_edges : rotation_edges s = if retain then turns L else []
}.

Lemma scratch_log_start s : scratch_fresh n s -> scratch_log (generation s) [] s.
Proof.
  intros (Hg & Hq & He & Hn & V1 & V2 & V3 & L1 & L2 & L3 & L4).
  assert (forall l i, Forall (fun v => 0 <= v < generation s) l -> l !! i <> Some (generation s)) as Hne by (intros l i Hl E; rewrite Forall_lookup in Hl; specialize (Hl _ _ E); lia).
  split; try done.
  - split; [|split]; (eapply Forall_impl; [eassumption|]; cbn beta; intros; lia).
  - rewrite Hq. constructor.
  - intros i. rewrite Hq, elem_of_nil. split; [done|]. intros (_ & _ & a & Ha & _). by apply not_elem_of_nil in Ha.
  - intros i _. rewrite Hq, elem_of_nil. split; [by intros []%Hne|done].
  - intros i _. split; [by intros []%Hne|]. by intros [_ H%not_elem_of_nil].
  - intros i _. split; [by intros []%Hne|]. by intros [? [=]].
  - by destruct retain.
Qed.
(** [push_if_placeable] without its checks. *)
Definition pushed (i : Z) (non_rotation : bool) (s : ReachabilityScratch) : ReachabilityScratch :=
  if place i then
    mkScratch (<[Z.to_nat i := generation s]> (visited s)) (if non_rotation then <[Z.to_nat i := generation s]> (non_rotation_arrival s) else non_rotation_arrival s)
      (first_rotation_arrival s) (first_rotation_edge s) (immobile_marks s) (generation s)
      (if bool_decide (visited s !! Z.to_nat i = Some (generation s)) then queue s else queue s ++ [i]) (rotation_edges s)
  else s.

Lemma push_pushed i b s : in_n i -> (n <= length (visited s))%nat -> length (non_rotation_arrival s) = length (visited s) -> push_if_placeable active t board i s b = Ok (pushed i b s).
Proof.
  intros Hi Hn Hl. unfold push_if_placeable, pushed. destruct (Hplace i Hi) as (v & m & -> & -> & E). cbn [rbind]. rewrite E. destruct (place i); cbn [negb]; [|done]. unfold in_n in Hi.
  assert ((if b then vec_set (non_rotation_arrival s) i (generation s) else Ok (non_rotation_arrival s)) = Ok (if b then <[Z.to_nat i := generation s]> (non_rotation_arrival s) else non_rotation_arrival s)) as ->.
  { destruct b; [|done]. apply vec_set_Ok. lia. }
  cbn [rbind]. destruct (lookup_lt_is_Some_2 (visited s) (Z.to_nat i)) as [w Hw]; [lia|]. unfold vec_at. rewrite Hw. cbn [expect_some rbind]. destruct (Z.eqb_spec w (generation s)) as [->|Hne]; cbn [negb].
  - rewrite bool_decide_eq_true_2 by done. by rewrite (list_insert_id (visited s)).
  - rewrite vec_set_Ok by lia. cbn [rbind]. rewrite bool_decide_eq_false_2; [done|]. intros [= ->]. done.
Qed.

Lemma mark_set (l : list Z) g i j : in_n i -> in_n j -> (n <= length l)%nat -> <[Z.to_nat i := g]> l !! Z.to_nat j = Some g <-> l !! Z.to_nat j = Some g \/ j = i.
Proof.
  intros Hi Hj Hl. unfold in_n in *. destruct (decide (j = i)) as [->|Hne].
  - rewrite list_lookup_insert_eq by lia. tauto.
  - rewrite list_lookup_insert_ne by lia. tauto.
Qed.

(** The queue on its own. *)
Definition push_queue (q : list Z) (i : Z) : list Z := if place i && bool_decide (i ∉ q) then q ++ [i] else q.

Lemma queue_pushed g L s i b : scratch_log g L s -> in_n i -> queue (pushed i b s) = push_queue (queue s) i.
Proof.
  intros H Hi. unfold pushed, push_queue. destruct (place i); [|done]. cbn [queue andb]. rewrite (sl_generation _ _ _ H).
  rewrite (bool_decide_ext _ (i ∈ queue s)) by (by apply (sl_visited _ _ _ H)). rewrite bool_decide_not. by destruct (bool_decide (i ∈ queue s)).
Qed.

Lemma prefix_queue i b s : queue s `prefix_of` queue (pushed i b s).
Proof. unfold pushed. destruct (place i); [|done]. cbn. case_bool_decide; [done|by eexists]. Qed.

(** The fields that only depend on what was visited. *)
Lemma pushed_queue g L s i a b : scratch_log g L s -> in_n i -> arrival_target a = i ->
  NoDup (queue (pushed i b s)) /\
  (forall j, j ∈ queue (pushed i b s) <-> in_n j /\ place j = true /\ exists a', a' ∈ L ++ [a] /\ arrival_target a' = j) /\
  (forall j, in_n j -> visited (pushed i b s) !! Z.to_nat j = Some g <-> j ∈ queue (pushed i b s)).
Proof.
  intros [Hg _ (Hn & _) Hnd Hq Hv _ _ _ _] Hi Ha.
  assert (forall j, (exists a', a' ∈ L ++ [a] /\ arrival_target a' = j) <-> (exists a', a' ∈ L /\ arrival_target a' = j) \/ j = i) as Hex.
  { intros j. split.
    - intros (a' & [Hin| ->%list_elem_of_singleton]%elem_of_app & E); [left; by exists a'|right; congruence].
    - intros [(a' & Hin & E)| ->]; [exists a'|exists a]; (split; [apply elem_of_app|done]); [by left|right; by left]. }
  unfold pushed. destruct (place i) eqn:Ep; cbn [queue visited].
  - rewrite Hg. case_bool_decide as Hvis.
    + assert (i ∈ queue s) as Hin by (by apply Hv). split; [done|]. split; [|intros j Hj; rewrite mark_set, Hv by done; split; [by intros [?| ->]|by left]].
      intros j. rewrite Hq, Hex. split; [tauto|]. intros (Hj & Hpj & [?| ->]); [done|]. by apply Hq.
    + assert (i ∉ queue s) as Hni by (intros Hin; apply Hvis; by apply Hv). split; [|split].
      * apply NoDup_app. split; [done|]. split; [by intros j Hj ->%list_elem_of_singleton|apply NoDup_singleton].
      * intros j. rewrite elem_of_app, list_elem_of_singleton, Hq, Hex. split; [|tauto]. intros [(? & ? & ?)| ->]; tauto.
      * intros j Hj. rewrite mark_set, Hv, elem_of_app, list_elem_of_singleton by done. done.
  - split; [done|]. split; [|done]. intros j. rewrite Hq, Hex. split; [tauto|]. intros (Hj & Hpj & [?| ->]); [done|congruence].
Qed.

Lemma Forall_mark (l : list Z) g i : 0 <= g -> Forall (fun v => 0 <= v <= g) l -> Forall (fun v => 0 <= v <= g) (<[Z.to_nat i := g]> l).
Proof. intros Hg Hl. apply Forall_insert; [done|lia]. Qed.

Lemma log_move g L s i : 0 <= g -> scratch_log g L s -> in_n i -> scratch_log g (L ++ [ByMove i]) (pushed i true s).
Proof.
  intros Hg0 Hlog Hi. destruct (pushed_queue g L s i (ByMove i) true Hlog Hi eq_refl) as (Q1 & Q2 & Q3). destruct Hlog as [Hg (B1 & B2 & B3) (Hn & L1 & L2 & L3 & L4) Hnd Hq Hv Hm Ht Hf He].
  assert (forall j, first_turn (L ++ [ByMove i]) j = first_turn L j) as Hft by (intros j; rewrite first_turn_snoc; by destruct (first_turn L j)).
  assert (turns (L ++ [ByMove i]) = turns L) as Htl by (rewrite turns_app; apply app_nil_r).
  unfold pushed in *. destruct (place i) eqn:Ep; split; cbn [generation visited non_rotation_arrival first_rotation_arrival first_rotation_edge immobile_marks queue rotation_edges] in *; try done; rewrite ?Htl; try done.
  - rewrite Hg. split; [by apply Forall_mark|]. split; [by apply Forall_mark|done].
  - rewrite !length_insert. lia.
  - intros j Hj. rewrite Hg, mark_set, Hm, elem_of_app, list_elem_of_singleton by (done || lia). split; [|intros (? & [?|[= ->]]); tauto]. intros [[? ?]| ->]; tauto.
  - intros j Hj. rewrite Hft. by apply Ht.
  - intros j e Hj. rewrite Hft. by apply Hf.
  - intros j Hj. rewrite Hm, elem_of_app, list_elem_of_singleton by done. split; [tauto|]. intros (Hp & [?|[= ->]]); [done|congruence].
  - intros j Hj. rewrite Hft. by apply Ht.
  - intros j e Hj. rewrite Hft. by apply Hf.
Qed.

(** [record_rotation] without its checks. *)
Definition recorded (e : ReachableRotationEdge) (s : ReachabilityScratch) : ReachabilityScratch :=
  let i := Z.to_nat (rt_state (edge_target e)) in
  let fresh := negb (bool_decide (first_rotation_arrival s !! i = Some (generation s))) in
  mkScratch (visited s) (non_rotation_arrival s) (<[i := generation s]> (first_rotation_arrival s))
    (if fresh then <[i := Some e]> (first_rotation_edge s) else first_rotation_edge s) (immobile_marks s) (generation s) (queue s)
    (if retain then rotation_edges s ++ [e] else rotation_edges s).

Lemma record_recorded e s : in_n (rt_state (edge_target e)) -> (n <= length (visited s))%nat -> length (first_rotation_arrival s) = length (visited s) ->
  length (first_rotation_edge s) = length (visited s) -> record_rotation retain e s = Ok (recorded e s).
Proof.
  intros Hi Hn L1 L2. unfold record_rotation, recorded. cbn zeta. unfold in_n in Hi. destruct (lookup_lt_is_Some_2 (first_rotation_arrival s) (Z.to_nat (rt_state (edge_target e)))) as [w Hw]; [lia|].
  unfold vec_at. rewrite Hw. cbn [expect_some rbind]. destruct (Z.eqb_spec w (generation s)) as [->|Hne]; cbn [negb].
  - rewrite bool_decide_eq_true_2 by done. cbn [rbind negb]. by rewrite list_insert_id.
  - rewrite !vec_set_Ok by lia. cbn [rbind]. rewrite bool_decide_eq_false_2; [done|]. intros [= ->]. done.
Qed.

Lemma log_turn g L s e : 0 <= g -> scratch_log g L s -> in_n (rt_state (edge_target e)) ->
  scratch_log g (L ++ [ByTurn e]) (pushed (rt_state (edge_target e)) false (recorded e s)).
Proof.
  intros Hg0 Hlog Hi. set (i := rt_state (edge_target e)) in *. destruct (pushed_queue g L s i (ByTurn e) false Hlog Hi eq_refl) as (Q1 & Q2 & Q3).
  destruct Hlog as [Hg (B1 & B2 & B3) (Hn & L1 & L2 & L3 & L4) Hnd Hq Hv Hm Ht Hf He].
  assert (generation (pushed i false (recorded e s)) = g /\ visited (pushed i false (recorded e s)) = visited (pushed i false s) /\ queue (pushed i false (recorded e s)) = queue (pushed i false s) /\
    non_rotation_arrival (pushed i false (recorded e s)) = non_rotation_arrival s /\ first_rotation_arrival (pushed i false (recorded e s)) = <[Z.to_nat i := g]> (first_rotation_arrival s) /\
    first_rotation_edge (pushed i false (recorded e s)) = (if bool_decide (first_rotation_arrival s !! Z.to_nat i = Some g) then first_rotation_edge s else <[Z.to_nat i := Some e]> (first_rotation_edge s)) /\
    immobile_marks (pushed i false (recorded e s)) = immobile_marks s /\ rotation_edges (pushed i false (recorded e s)) = (if retain then rotation_edges s ++ [e] else rotation_edges s)) as (E1 & E2 & E3 & E4 & E5 & E6 & E7 & E8).
  { unfold pushed, recorded. rewrite <- Hg. destruct (place i); cbn; (split; [done|]); repeat (split; [done || by destruct (bool_decide _)|]); done. }
  assert (Forall (fun v => 0 <= v <= g) (visited (pushed i false s)) /\ length (visited (pushed i false s)) = length (visited s)) as [Bv Lv].
  { unfold pushed. destruct (place i); [|done]. cbn. rewrite length_insert, Hg. split; [by apply Forall_mark|done]. }
  split; rewrite ?E1, ?E2, ?E3, ?E4, ?E5, ?E6, ?E7, ?E8, ?Lv; try done.
  - split; [done|]. split; [done|]. by apply Forall_mark.
  - rewrite length_insert. destruct (bool_decide _); rewrite ?length_insert; lia.
  - intros j Hj. rewrite Hm, elem_of_app, list_elem_of_singleton by done. split; [tauto|]. intros (? & [?|[=]]). done.
  - intros j Hj. rewrite mark_set, Ht, first_turn_snoc by (done || lia). fold i. destruct (first_turn L j) as [e1|]; [split; intros _; [by exists e1|left; by exists e1]|]. destruct (decide (i = j)) as [E|E]; [rewrite bool_decide_eq_true_2 by done|rewrite bool_decide_eq_false_2 by done].
    { split; intros _; [by exists e|by right]. }
    split; [intros [[? [=]]| ->]; done|]. by intros [? [=]].
  - intros j e' Hj. rewrite first_turn_snoc. fold i. destruct (first_turn L j) as [e1|] eqn:Ej.
    + intros [= <-]. pose proof (Hf j e1 Hj Ej) as Hfj. case_bool_decide as Hb; [done|]. rewrite list_lookup_insert_ne; [done|]. intros Eij. apply Hb. rewrite Eij. apply Ht; [done|]. by rewrite Ej.
    + destruct (decide (i = j)) as [E|E]; [rewrite bool_decide_eq_true_2 by done|by rewrite bool_decide_eq_false_2]. intros [= <-]. rewrite <- E in *. clear E j. rewrite bool_decide_eq_false_2; [unfold in_n in Hi; apply list_lookup_insert_eq; lia|]. intros Hb. apply Ht in Hb; [|done]. rewrite Ej in Hb. by destruct Hb.
  - rewrite He. destruct retain; [|done]. by rewrite turns_app.
Qed.
(** ** The loops *)

Definition turn_edges (i : Z) : list ReachableRotationEdge := omap (fun slot => mkEdge i slot <$> turn i slot) (rotation_slots t).

Definition step_log (i : Z) : list Arrival := (ByMove <$> moves i) ++ (ByTurn <$> turn_edges i).

Definition seed_log : list Arrival := ByMove <$> sky_seeds t.

Lemma log_lengths g L s : scratch_log g L s -> (n <= length (visited s))%nat /\ length (non_rotation_arrival s) = length (visited s).
Proof. intros H. destruct (sl_lengths _ _ _ H) as (? & ? & _). done. Qed.

Lemma push_seeds_spec g L s seeds : 0 <= g -> scratch_log g L s -> Forall in_n seeds ->
  exists s', push_seeds active t board seeds s = Ok s' /\ scratch_log g (L ++ (ByMove <$> seeds)) s' /\ queue s' = foldl push_queue (queue s) seeds.
Proof.
  intros Hg. revert L s. induction seeds as [|i seeds IH]; intros L s Hlog Hs; cbn [push_seeds]; [exists s; by rewrite app_nil_r|].
  apply Forall_cons in Hs as [Hi Hs]. destruct (log_lengths _ _ _ Hlog). rewrite push_pushed by done. cbn [rbind].
  destruct (IH _ _ (log_move g L s i Hg Hlog Hi) Hs) as (s' & E & H' & Hq). exists s'. split; [done|]. split; [by rewrite <- app_assoc in H'|]. by rewrite Hq, (queue_pushed g L).
Qed.

Lemma push_translations_spec g L s raw : 0 <= g -> scratch_log g L s -> Forall in_n (filter (fun j => j <> INVALID_STATE) raw) ->
  exists s', push_translations active t board raw s = Ok s' /\ scratch_log g (L ++ (ByMove <$> filter (fun j => j <> INVALID_STATE) raw)) s' /\ queue s `prefix_of` queue s' /\
    queue s' = foldl push_queue (queue s) (filter (fun j => j <> INVALID_STATE) raw).
Proof.
  intros Hg. revert L s. induction raw as [|i raw IH]; intros L s Hlog Hs; cbn [push_translations]; [exists s; by rewrite app_nil_r|].
  rewrite filter_cons in Hs. rewrite filter_cons. destruct (Z.eqb_spec i INVALID_STATE) as [E|E]; cbn [negb]; rewrite ?(decide_False (P := i <> INVALID_STATE)), ?(decide_True (P := i <> INVALID_STATE)) in * by tauto.
  - cbn [rbind]. by apply IH.
  - apply Forall_cons in Hs as [Hi Hs]. destruct (log_lengths _ _ _ Hlog). rewrite push_pushed by done. cbn [rbind].
    destruct (IH _ _ (log_move g L s i Hg Hlog Hi) Hs) as (s' & E' & H' & Hp & Hq). exists s'. split; [done|]. split; [by rewrite <- app_assoc in H'|]. split; [etrans; [apply (prefix_queue i true)|exact Hp]|]. by rewrite Hq, (queue_pushed g L).
Qed.

Lemma push_rotations_spec g L s i slots : 0 <= g -> scratch_log g L s -> in_n i -> slots ⊆ rotation_slots t ->
  exists s', push_rotations active t board retain i slots s = Ok s' /\
    scratch_log g (L ++ (ByTurn <$> omap (fun slot => mkEdge i slot <$> turn i slot) slots)) s' /\ queue s `prefix_of` queue s' /\
    queue s' = foldl push_queue (queue s) ((fun e => rt_state (edge_target e)) <$> omap (fun slot => mkEdge i slot <$> turn i slot) slots).
Proof.
  intros Hg. revert L s. induction slots as [|slot slots IH]; intros L s Hlog Hi Hs; cbn [push_rotations]; [exists s; by rewrite app_nil_r|].
  assert (slot ∈ rotation_slots t) as Hslot by (apply Hs; by left). assert (slots ⊆ rotation_slots t) as Hs' by (intros x Hx; apply Hs; by right).
  rewrite Hturn by done. cbn [rbind omap list_omap]. destruct (turn i slot) as [r|] eqn:E; cbn [fmap option_fmap option_map].
  - pose proof (Hturn_in i slot r Hi Hslot E) as Hr. destruct (sl_lengths _ _ _ Hlog) as (Hn & L1 & L2 & L3 & L4). rewrite record_recorded by done. cbn [rbind]. rewrite push_pushed by done. cbn [rbind].
    destruct (IH _ _ (log_turn g L s (mkEdge i slot r) Hg Hlog Hr) Hi Hs') as (s' & E' & H' & Hp & Hq). exists s'. split; [done|]. split; [by rewrite <- app_assoc in H'|].
    split; [etrans; [apply (prefix_queue (rt_state r) false (recorded (mkEdge i slot r) s))|exact Hp]|]. rewrite Hq. cbn [fmap list_fmap foldl edge_target]. f_equal.
    transitivity (queue (pushed (rt_state r) false s)); [|by apply (queue_pushed g L)]. unfold pushed. by destruct (place (rt_state r)).
  - cbn [rbind]. by apply IH.
Qed.

(** The positions the rules reach. *)
Inductive reached : Z -> Prop :=
| reached_seed i : i ∈ sky_seeds t -> place i = true -> reached i
| reached_move i j : reached i -> j ∈ moves i -> place j = true -> reached j
| reached_turn i e : reached i -> e ∈ turn_edges i -> place (rt_state (edge_target e)) = true -> reached (rt_state (edge_target e)).

Lemma step_log_reached i a : reached i -> a ∈ step_log i -> place (arrival_target a) = true -> reached (arrival_target a).
Proof.
  intros Hi [(j & -> & Hj)%list_elem_of_fmap|(e & -> & He)%list_elem_of_fmap]%elem_of_app Hp; cbn [arrival_target] in *; [by apply (reached_move i)|by apply (reached_turn i)].
Qed.

Lemma queue_bound g L s : scratch_log g L s -> (length (queue s) <= n)%nat.
Proof.
  intros H. assert (queue s ⊆ seqZ 0 (Z.of_nat n)) as Hsub by (intros i Hi%(sl_queue _ _ _ H); apply elem_of_seqZ; unfold in_n in *; lia).
  pose proof (submseteq_length _ _ (NoDup_submseteq _ _ (sl_nodup _ _ _ H) Hsub)) as Hl. rewrite length_seqZ in Hl. lia.
Qed.

(** The search on its queue alone. *)
Fixpoint bfs (fuel c : nat) (q : list Z) : list Z :=
  match q !! c with
  | None => q
  | Some i =>
      match fuel with
      | O => q
      | S fuel => bfs fuel (S c) (foldl push_queue (foldl push_queue q (moves i)) ((fun e => rt_state (edge_target e)) <$> turn_edges i))
      end
  end.

Lemma search_loop_spec g fuel c s : 0 <= g -> scratch_log g (seed_log ++ (take c (queue s) ≫= step_log)) s -> Forall reached (queue s) -> (n < fuel + c)%nat ->
  exists s', search_loop fuel active t board retain c s = Ok s' /\ scratch_log g (seed_log ++ (queue s' ≫= step_log)) s' /\ Forall reached (queue s') /\ queue s' = bfs fuel c (queue s).
Proof.
  intros Hg. revert c s. induction fuel as [|fuel IH]; intros c s Hlog Hr Hf; cbn [search_loop bfs]; destruct (queue s !! c) as [i|] eqn:Ei.
  - pose proof (lookup_lt_Some _ _ _ Ei). pose proof (queue_bound _ _ _ Hlog). lia.
  - rewrite take_ge in Hlog by (by apply lookup_ge_None). by exists s.
  - assert (i ∈ queue s) as Hiq by (by apply list_elem_of_lookup_2 in Ei). assert (in_n i) as Hi by (by apply (sl_queue _ _ _ Hlog)). assert (reached i) as Hri by (rewrite Forall_forall in Hr; by apply Hr).
    destruct (Hmoves i Hi) as (raw & -> & Eraw). cbn [rbind].
    destruct (push_translations_spec g _ s raw Hg Hlog) as (s1 & -> & H1 & P1 & Q1); [rewrite Eraw; apply Forall_forall; intros j; by apply Hmoves_in|]. cbn [rbind]. rewrite Eraw in H1, Q1.
    destruct (push_rotations_spec g _ s1 i (rotation_slots t) Hg H1 Hi) as (s2 & -> & H2 & P2 & Q2); [done|]. cbn [rbind]. fold (turn_edges i) in H2, Q2. rewrite Q1 in Q2. rewrite <- Q2.
    assert (queue s `prefix_of` queue s2) as Hp by (by etrans).
    assert (queue s2 !! c = Some i) as Ei2 by (destruct Hp as [r ->]; by apply lookup_app_l_Some).
    assert (take (S c) (queue s2) = take c (queue s) ++ [i]) as Htake.
    { erewrite take_S_r by exact Ei2. f_equal. destruct Hp as [r ->]. pose proof (lookup_lt_Some _ _ _ Ei). rewrite take_app_le by lia. done. }
    rewrite <- !app_assoc in H2.
    assert (seed_log ++ (take c (queue s) ≫= step_log) ++ (ByMove <$> moves i) ++ (ByTurn <$> turn_edges i) = seed_log ++ (take (S c) (queue s2) ≫= step_log)) as EL.
    { rewrite Htake, bind_app. cbn [mbind list_bind]. unfold step_log at 3. by rewrite !app_nil_r. }
    rewrite EL in H2. apply IH; [done| |lia]. apply Forall_forall. intros j Hj. pose proof Hj as (Hj1 & Hj2 & a & Ha & Ea)%(sl_queue _ _ _ H2).
    rewrite <- EL in Ha. rewrite app_assoc in Ha. apply elem_of_app in Ha as [Ha|Ha].
    + rewrite Forall_forall in Hr. apply Hr. apply (sl_queue _ _ _ Hlog). split; [done|]. split; [done|]. by exists a.
    + subst j. by apply (step_log_reached i).
  - rewrite take_ge in Hlog by (by apply lookup_ge_None). by exists s.
Qed.

(** The history of a whole search. *)
Definition full_log (s : ReachabilityScratch) : list Arrival := seed_log ++ (queue s ≫= step_log).

Lemma breadth_search_spec s : scratch_fresh n s ->
  exists s', (let? s := push_seeds active t board (sky_seeds t) s in search_loop (S n) active t board retain 0 s) = Ok s' /\
    scratch_log (generation s) (full_log s') s' /\ (forall i, i ∈ queue s' <-> reached i) /\ queue s' = bfs (S n) 0 (foldl push_queue [] (sky_seeds t)).
Proof.
  intros Hfresh. assert (0 <= generation s) as Hg by (destruct Hfresh; lia). pose proof (scratch_log_start s Hfresh) as H0.
  destruct (push_seeds_spec _ _ _ (sky_seeds t) Hg H0 Hseeds) as (s1 & -> & H1 & Q1). rewrite (proj1 (proj2 Hfresh)) in Q1. cbn [rbind]. cbn [app] in H1. fold seed_log in H1.
  destruct (search_loop_spec (generation s) (S n) 0 s1) as (s2 & -> & H2 & Hr & Q2); [done|by rewrite take_0; cbn; rewrite app_nil_r| |lia|].
  { apply Forall_forall. intros i (Hi & Hp & a & Ha & E)%(sl_queue _ _ _ H1). apply list_elem_of_fmap in Ha as (j & -> & Hj). cbn in E. subst j. by apply reached_seed. }
  exists s2. split; [done|]. split; [done|]. split; [|by rewrite Q2, Q1]. intros i. split; [rewrite Forall_forall in Hr; apply Hr|].
  assert (forall a, a ∈ full_log s2 -> in_n (arrival_target a) -> place (arrival_target a) = true -> arrival_target a ∈ queue s2) as Hin.
  { intros a Ha Hn Hp. apply (sl_queue _ _ _ H2). split; [done|]. split; [done|]. by exists a. }
  assert (forall i, i ∈ queue s2 -> in_n i) as Hq by (intros j Hj; by apply (sl_queue _ _ _ H2)).
  induction 1 as [i Hs Hp|i j _ IH Hj Hp|i e _ IH He Hp].
  - apply (Hin (ByMove i)); [apply elem_of_app; left; apply list_elem_of_fmap; by exists i| |done]. rewrite Forall_forall in Hseeds. by apply Hseeds.
  - apply (Hin (ByMove j)); [|by apply (Hmoves_in i), Hj; apply Hq|done]. apply elem_of_app. right. apply list_elem_of_bind. exists i. split; [|done]. apply elem_of_app. left. apply list_elem_of_fmap. by exists j.
  - apply (Hin (ByTurn e)); [| |done].
    + apply elem_of_app. right. apply list_elem_of_bind. exists i. split; [|done]. apply elem_of_app. right. apply list_elem_of_fmap. by exists e.
    + apply list_elem_of_omap in He as (slot & Hs & E). destruct (turn i slot) as [r|] eqn:Er; [|done]. injection E as <-. by apply (Hturn_in i slot r (Hq i IH)).
Qed.

(** How a position was entered, in terms of what is reached. *)
Lemma full_log_move s i : (forall j, j ∈ queue s <-> reached j) -> ByMove i ∈ full_log s <-> i ∈ sky_seeds t \/ exists j, reached j /\ i ∈ moves j.
Proof.
  intros Hq. unfold full_log, seed_log. rewrite elem_of_app, list_elem_of_bind. split.
  - intros [(j & [= ->] & Hj)%list_elem_of_fmap|(j & Hin & Hj)]; [by left|right]. exists j. split; [by apply Hq|]. apply elem_of_app in Hin as [(k & [= ->] & Hk)%list_elem_of_fmap|(e & [=] & _)%list_elem_of_fmap]. done.
  - intros [Hi|(j & Hj & Hi)]; [left; apply list_elem_of_fmap; by exists i|right]. exists j. split; [|by apply Hq]. apply elem_of_app. left. apply list_elem_of_fmap. by exists i.
Qed.

Lemma full_log_turn s e : (forall j, j ∈ queue s <-> reached j) -> ByTurn e ∈ full_log s <-> exists j, reached j /\ e ∈ turn_edges j.
Proof.
  intros Hq. unfold full_log, seed_log. rewrite elem_of_app, list_elem_of_bind. split.
  - intros [(j & [=] & Hj)%list_elem_of_fmap|(j & Hin & Hj)]. exists j. split; [by apply Hq|]. apply elem_of_app in Hin as [(k & [=] & Hk)%list_elem_of_fmap|(e' & [= ->] & He)%list_elem_of_fmap]. done.
  - intros (j & Hj & He). right. exists j. split; [|by apply Hq]. apply elem_of_app. right. apply list_elem_of_fmap. by exists e.
Qed.
End Search.
