(* ===== verification/ReachLocks.v ===== *)
(** * The table of locks

    [DenseLockTable] keeps, for each position and class of evidence, the first
    lock inserted, and writes them out by rotation, column, row and sort key.
    The history of insertions determines the table ([table_log]) and the
    output ([sorted_output]), whatever the slots held before. *)

From Stdlib Require Import ZArith Lia.
From stdpp Require Import prelude sorting.
From S2P Require Import Prelude Words Kicks ForwardBoard Reachability ReachTemplate.

Local Open Scope Z_scope.

Definition ALL_CLASSES : list ScoringEvidenceClass := [ClassNoRotation; ClassRotation; ClassFinalKickOverride].

Notation class_index := scoring_evidence_class_index.

Lemma class_index_bound c : 0 <= class_index c < 3.
Proof. destruct c; cbn; lia. Qed.

Lemma class_index_inj c c' : class_index c = class_index c' -> c = c'.
Proof. by destruct c, c'. Qed.

Definition lock_class (l : ReachableLock) : ScoringEvidenceClass := scoring_class (lock_evidence l).

(** The first lock inserted for a position and a class. *)
Definition first_lock (ins : list (State * ReachableLock)) (s : State) (c : ScoringEvidenceClass) : option ReachableLock :=
  head (omap (fun '(s', l) => if bool_decide (s' = s /\ lock_class l = c) then Some l else None) ins).

Lemma first_lock_snoc ins s' l s c : first_lock (ins ++ [(s', l)]) s c =
  match first_lock ins s c with Some l' => Some l' | None => if bool_decide (s' = s /\ lock_class l = c) then Some l else None end.
Proof. unfold first_lock. rewrite omap_app. destruct (omap _ ins); [|done]. cbn [app omap list_omap]. by destruct (bool_decide _). Qed.

Lemma first_lock_Some ins s c l : first_lock ins s c = Some l -> (s, l) ∈ ins /\ lock_class l = c.
Proof. unfold first_lock. intros H%head_Some_elem_of. apply list_elem_of_omap in H as ([s' l'] & Hin & E). case_bool_decide as Hb; [|done]. destruct Hb as [-> Hc]. injection E as <-. done. Qed.

Lemma first_lock_None ins s c : first_lock ins s c = None <-> forall l, (s, l) ∈ ins -> lock_class l <> c.
Proof.
  unfold first_lock. rewrite head_None. split.
  - intros E l Hin Hc. assert (l ∈ omap (fun '(s', l) => if bool_decide (s' = s /\ lock_class l = c) then Some l else None) ins) as H.
    { apply list_elem_of_omap. exists (s, l). split; [done|]. by rewrite bool_decide_eq_true_2. }
    rewrite E in H. by apply not_elem_of_nil in H.
  - intros H. apply elem_of_nil_inv. intros l ([s' l'] & Hin & E)%list_elem_of_omap. case_bool_decide as Hb; [|done]. destruct Hb as [-> Hc]. by apply (H l').
Qed.

Section Table.
Context (top : Z) (Htop : 0 <= top < 64).

Record table_log (ins : list (State * ReachableLock)) (l : DenseLockTable) : Prop := {
  tl_words : length (presence_by_rotation_x_class l) = 120%nat;
  tl_slots : 3 * position_count top <= Z.of_nat (length (lock_slots l));
  tl_present : forall r x c, 0 <= x < 10 -> exists w, presence_by_rotation_x_class l !! Z.to_nat (presence_index r x (class_index c)) = Some w /\ in_width 64 w /\
    forall y, 0 <= y < 64 -> Z.testbit w y = (y <=? top) && bool_decide (is_Some (first_lock ins (mkState r x y) c));
  tl_first : forall s c l', on_grid top s -> first_lock ins s c = Some l' -> lock_slots l !! Z.to_nat (sindex top s * 3 + class_index c) = Some (Some l')
}.

Lemma presence_bound r x c : 0 <= x < 10 -> 0 <= presence_index r x (class_index c) < 120.
Proof. intros Hx. pose proof (quarter_turns_bound r). pose proof (class_index_bound c). unfold presence_index, LOCK_EVIDENCE_CLASS_COUNT. lia. Qed.

Lemma presence_inj r x c r' x' c' : 0 <= x < 10 -> 0 <= x' < 10 -> presence_index r x (class_index c) = presence_index r' x' (class_index c') -> r = r' /\ x = x' /\ c = c'.
Proof.
  intros Hx Hx' E. unfold presence_index, LOCK_EVIDENCE_CLASS_COUNT in E. pose proof (quarter_turns_bound r). pose proof (quarter_turns_bound r').
  assert (class_index c = class_index c' /\ quarter_turns r * 10 + x = quarter_turns r' * 10 + x') as [Ec E'] by (pose proof (class_index_bound c); pose proof (class_index_bound c'); lia).
  split; [|split; [lia|by apply class_index_inj]]. assert (quarter_turns r = quarter_turns r') as Eq by lia. by destruct r, r'.
Qed.

Lemma locks_begin_log l n : length (presence_by_rotation_x_class l) = 120%nat -> Z.of_nat n = position_count top -> table_log [] (locks_begin l n).
Proof.
  intros Hl Hn. unfold locks_begin. split; cbn [presence_by_rotation_x_class lock_slots].
  - by rewrite length_replicate.
  - unfold saturating_mul, LOCK_EVIDENCE_CLASS_COUNT, umax. rewrite Z.min_l by (unfold position_count in *; lia). destruct (Nat.ltb_spec (length (lock_slots l)) (Z.to_nat (Z.of_nat n * 3))); [unfold vec_resize; rewrite length_app, length_replicate|]; lia.
  - intros r x c Hx. exists 0. split; [apply lookup_replicate_2; pose proof (presence_bound r x c Hx); lia|]. split; [by apply in_width_0|]. intros y Hy. rewrite Z.testbit_0_l, bool_decide_eq_false_2; [by rewrite andb_false_r|]. by intros [? [=]].
  - done.
Qed.

Lemma sindex3_bound s c : on_grid top s -> 0 <= sindex top s * 3 + class_index c < 3 * position_count top.
Proof. intros Hs. pose proof (sindex_bound top s ltac:(lia) Hs). pose proof (class_index_bound c). lia. Qed.

Lemma locks_insert_log ins l s lock : table_log ins l -> on_grid top s -> exists l', locks_insert l (sindex top s) s lock = Ok l' /\ table_log (ins ++ [(s, lock)]) l'.
Proof.
  intros [H1 H2 H3 H4] Hs. unfold locks_insert. cbn zeta. fold (lock_class lock). set (c := lock_class lock). pose proof Hs as [Hx Hy].
  destruct (H3 (st_rotation s) (st_x s) c Hx) as (w & Hw & Hw64 & Hbit). unfold vec_at. rewrite Hw. cbn [expect_some rbind].
  assert (mkState (st_rotation s) (st_x s) (st_y s) = s) as Es by (by destruct s). pose proof (presence_bound (st_rotation s) (st_x s) c Hx) as Hp. pose proof (sindex3_bound s c Hs) as H3b.
  rewrite land_bit_eqb, negb_involutive, Hbit, Es, (proj2 (Z.leb_le (st_y s) top)) by lia. cbn [andb]. case_bool_decide as Hf.
  - exists l. split; [done|]. destruct Hf as [l0 Hl0].
    assert (forall s' c', first_lock (ins ++ [(s, lock)]) s' c' = first_lock ins s' c') as Hsame.
    { intros s' c'. rewrite first_lock_snoc. destruct (first_lock ins s' c') eqn:E; [done|]. rewrite bool_decide_eq_false_2; [done|]. intros [<- <-]. fold c in E. congruence. }
    split; try done.
    + intros r x c' Hx'. destruct (H3 r x c' Hx') as (w' & Hw' & Hww & Hb'). exists w'. split; [done|]. split; [done|]. intros y Hy'. by rewrite Hsame, Hb'.
    + intros s' c' l' Hs'. rewrite Hsame. by apply H4.
  - unfold LOCK_EVIDENCE_CLASS_COUNT in *. rewrite !vec_set_Ok by lia. cbn [rbind]. eexists. split; [done|].
    assert (first_lock ins s c = None) as Hnone by (by apply eq_None_not_Some).
    split; cbn [presence_by_rotation_x_class lock_slots].
    + by rewrite length_insert.
    + by rewrite length_insert.
    + intros r x c' Hx'. destruct (decide (r = st_rotation s /\ x = st_x s /\ c' = c)) as [(-> & -> & ->)|Hne].
      * exists (Z.lor w (shl 64 1 (st_y s))). split; [apply list_lookup_insert_eq; lia|]. split; [width|]. intros y Hy'. rewrite Z.lor_spec, testbit_bit, Hbit, first_lock_snoc by lia.
        destruct (Z.eqb_spec y (st_y s)) as [->|Hney].
        -- rewrite Es, Hnone. rewrite (bool_decide_eq_true_2 (s = s /\ _)) by done. rewrite (proj2 (Z.leb_le (st_y s) top)) by lia. cbn [andb]. by rewrite orb_true_r, bool_decide_eq_true_2 by (by eexists).
        -- rewrite orb_false_r. destruct (first_lock ins (mkState (st_rotation s) (st_x s) y) c); [done|]. rewrite (bool_decide_eq_false_2 (s = _ /\ _)); [done|]. intros [E _]. apply Hney. by rewrite E.
      * destruct (H3 r x c' Hx') as (w' & Hw' & Hww & Hb'). exists w'. split.
        { rewrite list_lookup_insert_ne; [done|]. intros E. apply Hne. pose proof (presence_bound r x c' Hx'). destruct (presence_inj (st_rotation s) (st_x s) c r x c' Hx Hx') as (-> & -> & ->); [lia|done]. }
        split; [done|]. intros y Hy'. rewrite Hb', first_lock_snoc by done. destruct (first_lock ins (mkState r x y) c'); [done|]. rewrite (bool_decide_eq_false_2 (s = _ /\ _)); [done|]. intros [-> E]. by apply Hne.
    + intros s' c' l' Hs'. rewrite first_lock_snoc. destruct (first_lock ins s' c') as [l0|] eqn:E.
      * intros [= <-]. rewrite list_lookup_insert_ne; [by apply H4|]. intros Ei. pose proof (sindex3_bound s' c' Hs'). pose proof (class_index_bound c). pose proof (class_index_bound c').
        assert (sindex top s = sindex top s' /\ class_index c = class_index c') as [E1 E2] by lia. apply sindex_inj in E1; [|lia|done|done]. apply class_index_inj in E2. subst s' c'. congruence.
      * case_bool_decide as Hb; [|done]. destruct Hb as [<- <-]. intros [= <-]. apply list_lookup_insert_eq. fold c. lia.
Qed.

(** ** The output *)

Definition locks_of (ins : list (State * ReachableLock)) (s : State) : list ReachableLock :=
  omap id (merge_sort slot_le (Some <$> omap (first_lock ins s) ALL_CLASSES)).

Definition sorted_output (ins : list (State * ReachableLock)) : list ReachableLock :=
  ALL_ROTATIONS ≫= (fun r => seqZ 0 10 ≫= (fun x => seqZ 0 (top + 1) ≫= (fun y => locks_of ins (mkState r x y)))).

#[export] Instance slot_le_total : Total slot_le.
Proof. intros a b. unfold slot_le. lia. Qed.

#[export] Instance slot_le_trans : Transitive slot_le.
Proof. intros a b c. unfold slot_le. lia. Qed.

Lemma omap_id_Some {A} (l : list A) : omap id (Some <$> l) = l.
Proof. induction l as [|a l IH]; [done|]. cbn. by rewrite IH. Qed.

Lemma locks_of_perm ins s : locks_of ins s ≡ₚ omap (first_lock ins s) ALL_CLASSES.
Proof. unfold locks_of. rewrite <- (omap_id_Some (omap (first_lock ins s) ALL_CLASSES)) at 2. by rewrite merge_sort_Permutation. Qed.

Lemma locks_of_sorted ins s : StronglySorted (fun a b => lock_evidence_sort_key a <= lock_evidence_sort_key b) (locks_of ins s).
Proof.
  unfold locks_of. pose proof (StronglySorted_merge_sort slot_le (Some <$> omap (first_lock ins s) ALL_CLASSES)) as Hs.
  assert (Forall is_Some (merge_sort slot_le (Some <$> omap (first_lock ins s) ALL_CLASSES))) as Hall by (rewrite merge_sort_Permutation; apply Forall_fmap, Forall_true; by eexists).
  induction Hs as [|a l Hs IH Ha]; [constructor|]. apply Forall_cons in Hall as [[x ->] Hall]. cbn. constructor; [by apply IH|]. apply Forall_forall. intros y (o & Ho & E)%list_elem_of_omap.
  cbn in E. subst o. rewrite Forall_forall in Ha. exact (Ha (Some y) Ho).
Qed.

Lemma elem_of_locks_of ins s l : l ∈ locks_of ins s <-> exists c, first_lock ins s c = Some l.
Proof. rewrite locks_of_perm, list_elem_of_omap. split; [intros (c & _ & E); by exists c|]. intros [c E]. exists c. split; [destruct c; set_solver|done]. Qed.

Lemma drain_bits_spec fuel w : in_width 64 w -> (count_ones w <= fuel)%nat -> drain_bits fuel w = Z.of_nat <$> bits 64 w.
Proof.
  revert w. induction fuel as [|fuel IH]; intros w Hw Hc; cbn [drain_bits].
  - rewrite (count_ones_bits 64) in Hc by done. destruct (bits 64 w); [done|cbn in Hc; lia].
  - destruct (Z.eqb_spec w 0) as [->|Hne]; [done|]. assert (0 < w) by (destruct Hw; lia). rewrite (count_ones_bits 64) in Hc by done. rewrite bits_lowest in * by done. cbn [length] in Hc. cbn [fmap list_fmap]. f_equal.
    assert (in_width 64 (Z.land w (w - 1))) as Hw' by (apply in_width_land; [lia|done|lia]). apply IH; [done|]. rewrite (count_ones_bits 64) by done. lia.
Qed.

Lemma present_slots_spec ins l r x y : table_log ins l -> 0 <= x < 10 -> 0 <= y <= top -> forall cs,
  present_slots l r x y (sindex top (mkState r x y)) (class_index <$> cs) = Ok (Some <$> omap (first_lock ins (mkState r x y)) cs).
Proof.
  intros [H1 H2 H3 H4] Hx Hy. induction cs as [|c cs IH]; [done|]. rewrite fmap_cons. cbn [present_slots]. destruct (H3 r x c Hx) as (w & Hw & Hw64 & Hb). unfold vec_at at 1. rewrite Hw. cbn [expect_some rbind].
  rewrite land_bit_eqb, negb_involutive, Hb, (proj2 (Z.leb_le y top)) by lia. cbn [andb]. rewrite IH. cbn [omap list_omap]. case_bool_decide as Hf.
  - destruct Hf as [l0 Hl0]. unfold vec_at, LOCK_EVIDENCE_CLASS_COUNT. rewrite (H4 (mkState r x y) c l0) by done. cbn [expect_some rbind]. rewrite Hl0. done.
  - assert (first_lock ins (mkState r x y) c = None) as -> by (by apply eq_None_not_Some). done.
Qed.

Lemma collect_Ok {A B} (f : A -> Result Panic B) (g : A -> B) l : (forall a, a ∈ l -> f a = Ok (g a)) -> collect f l = Ok (g <$> l).
Proof. induction l as [|a l IH]; intros H; [done|]. cbn [collect]. rewrite (H a) by (by left). rewrite IH by (intros x Hx; apply H; by right). done. Qed.

Lemma locks_of_empty ins s : (forall c, first_lock ins s c = None) -> locks_of ins s = [].
Proof. intros H. apply elem_of_nil_inv. intros l [c E]%elem_of_locks_of. by rewrite H in E. Qed.

Lemma column_locks_spec ins l r x : table_log ins l -> 0 <= x < 10 -> column_locks l top r x = Ok (seqZ 0 (top + 1) ≫= (fun y => locks_of ins (mkState r x y))).
Proof.
  intros Hl Hx. pose proof (tl_present _ _ Hl r x ClassNoRotation Hx) as (w0 & E0 & W0 & B0). pose proof (tl_present _ _ Hl r x ClassRotation Hx) as (w1 & E1 & W1 & B1). pose proof (tl_present _ _ Hl r x ClassFinalKickOverride Hx) as (w2 & E2 & W2 & B2).
  unfold column_locks. cbn zeta. unfold vec_at. cbn [class_index] in E0, E1, E2. rewrite E0. replace (presence_index r x 0 + 1) with (presence_index r x 1) by (unfold presence_index; lia). replace (presence_index r x 0 + 2) with (presence_index r x 2) by (unfold presence_index; lia).
  rewrite E1, E2. cbn [expect_some rbind]. set (w := Z.lor (Z.lor w0 w1) w2). assert (in_width 64 w) as Hw by (unfold w; width).
  assert (forall y, 0 <= y < 64 -> Z.testbit w y = true <-> y <= top /\ exists c, is_Some (first_lock ins (mkState r x y) c)) as Hbit.
  { intros y Hy. unfold w. rewrite !Z.lor_spec, B0, B1, B2 by done. rewrite !orb_true_iff, !andb_true_iff, !bool_decide_eq_true, Z.leb_le.
    split; [intros [[[? ?]|[? ?]]|[? ?]]; (split; [done|by eexists])|]. intros [? [[] ?]]; tauto. }
  rewrite drain_bits_spec; [|done|].
  2:{ rewrite (count_ones_bits 64) by done. unfold bits. etrans; [apply length_filter|]. by rewrite length_seq. }
  rewrite (collect_Ok _ (fun y => locks_of ins (mkState r x y))).
  2:{ intros y (k & -> & Hk)%list_elem_of_fmap. apply elem_of_bits in Hk as [Hk1 Hk2]. apply Hbit in Hk2 as [Hk2 _]; [|lia].
    unfold locks_at. rewrite state_index_in by (split; cbn; lia). cbn [expect_some rbind]. pose proof (present_slots_spec ins l r x (Z.of_nat k) Hl Hx ltac:(lia) ALL_CLASSES) as Hp. cbn [ALL_CLASSES fmap list_fmap class_index] in Hp. rewrite Hp. done. }
  cbn [rbind]. f_equal.
  assert (forall (f : Z -> list ReachableLock) ks, concat (f <$> ks) = ks ≫= f) as Hconcat by (intros f ks; induction ks as [|k ks IH]; [done|]; cbn; by rewrite IH). rewrite Hconcat.
  assert (Z.of_nat <$> bits 64 w = filter (fun y => Z.testbit w y) (seqZ 0 (top + 1))) as ->.
  { assert (seqZ 0 64 = seqZ 0 (top + 1) ++ seqZ (top + 1) (63 - top)) as Hsplit by (replace 64 with ((top + 1) + (63 - top)) by lia; by rewrite seqZ_app by lia).
    assert (filter (fun y => Z.testbit w y) (seqZ 0 64) = Z.of_nat <$> bits 64 w) as <-.
    { unfold seqZ, bits. rewrite (filter_fmap_bool (fun i => Z.of_nat i + 0) (Z.testbit w)). change (Z.to_nat 64) with 64%nat. rewrite (filter_ext_bool (fun i => Z.testbit w (Z.of_nat i + 0)) (fun i => Z.testbit w (Z.of_nat i))) by (intros i _; by rewrite Z.add_0_r).
      apply list_fmap_ext. intros i y _. lia. }
    rewrite Hsplit, filter_app. rewrite <- (app_nil_r (filter _ (seqZ 0 (top + 1)))) at 2. f_equal. apply elem_of_nil_inv. intros y [Hy Hin%elem_of_seqZ]%list_elem_of_filter. apply Is_true_true, Hbit in Hy; lia. }
  apply bind_filter. intros y Hy%elem_of_seqZ Hn. apply locks_of_empty. intros c. apply eq_None_not_Some. intros Hs. apply Hn. apply Is_true_true, Hbit; [lia|]. split; [lia|]. by exists c.
Qed.

Lemma write_sorted_spec ins l : table_log ins l -> write_sorted l top = Ok (sorted_output ins).
Proof.
  intros Hl. unfold write_sorted, sorted_output.
  rewrite (collect_Ok _ (fun '(r, x) => seqZ 0 (top + 1) ≫= (fun y => locks_of ins (mkState r x y)))).
  - cbn [rbind]. f_equal. generalize ALL_ROTATIONS. intros rs. induction rs as [|r rs IH]; [done|]. cbn [mbind list_bind]. rewrite fmap_app, concat_app, IH. f_equal.
  - intros [r x] (r' & (x' & [= <- <-] & Hx%elem_of_seqZ)%list_elem_of_fmap & _)%list_elem_of_bind. apply column_locks_spec; [done|lia].
Qed.

Lemma elem_of_sorted_output ins l : l ∈ sorted_output ins <-> exists s c, on_grid top s /\ first_lock ins s c = Some l.
Proof.
  unfold sorted_output. rewrite list_elem_of_bind. split.
  - intros (r & (x & (y & (c & E)%elem_of_locks_of & Hy%elem_of_seqZ)%list_elem_of_bind & Hx%elem_of_seqZ)%list_elem_of_bind & _). exists (mkState r x y), c. split; [split; cbn; lia|done].
  - intros ([r x y] & c & [Hx Hy] & E). cbn [st_x st_y] in *. exists r. split; [|destruct r; set_solver]. apply list_elem_of_bind. exists x. split; [|apply elem_of_seqZ; lia].
    apply list_elem_of_bind. exists y. split; [|apply elem_of_seqZ; lia]. apply elem_of_locks_of. by exists c.
Qed.
End Table.
