(* ===== verification/Reach.v ===== *)
(** * Reachable placements are the ones the rules allow

    The rules of the game as an inductive relation on positions: a piece
    enters above the field, moves one column or row at a time, and turns into
    the first kick that fits.  [reachable_locks] finds exactly the positions
    the rules reach in which the piece rests on something, with evidence that
    is true of the rules; the sky it searches is high enough, and its result
    does not depend on the searches before it. *)

From Stdlib Require Import ZArith Lia.
From stdpp Require Import prelude strings sorting.
From S2P Require Import Prelude Words Pieces Kicks PcBoard ForwardBoard Reachability ReachTemplate ReachSearch ReachLocks.

Local Open Scope Z_scope.

(** ** The rules *)

Section Rules.
Context (height : Z) (board : ForwardBoard) (piece : PieceKind) (profile : KickTableProfile).

(** The piece overlaps a filled cell of the field. *)
Definition hits (s : State) : bool := existsb (fun c => (snd c <? height) && fb_bit board (snd c * 10 + fst c)) (piece_cells piece s).

Definition piece_fits (s : State) : bool := on_board piece s && negb (hits s).

(** Under the ceiling, if there is one. *)
Definition under_bound (bound : option Z) (s : State) : bool := match bound with Some top => st_y s <=? top | None => true end.

(** The first kick that fits: where it leads, its number and its offset. *)
Fixpoint try_kicks (bound : option Z) (s : State) (to : RotationState) (index : Z) (offsets : list (Z * Z)) : option (State * Z * (Z * Z)) :=
  match offsets with
  | [] => None
  | o :: offsets =>
      let s' := kicked piece s to o in
      if under_bound bound s' && piece_fits s' then Some (s', index, o) else try_kicks bound s to (index + 1) offsets
  end.

(** A clockwise (0), counter-clockwise (1) or half turn (2). *)
Definition try_turn (bound : option Z) (s : State) (slot : Z) : option (State * Z * (Z * Z)) :=
  let to := slot_rotation (st_rotation s) slot in try_kicks bound s to 0 (slot_offsets piece profile s slot to).

Inductive reach (bound : option Z) : State -> Prop :=
| reach_sky s : height <= st_y s -> under_bound bound s = true -> on_board piece s = true -> reach bound s
| reach_shift s s' : reach bound s -> s' ∈ [move_down s; move_left s; move_right s] -> piece_fits s' = true -> reach bound s'
| reach_kick s slot s' k o : reach bound s -> 0 <= slot < 3 -> try_turn bound s slot = Some (s', k, o) -> reach bound s'.

(** The piece rests inside the field. *)
Definition lockable (s : State) : bool := inside_field height piece s && negb (piece_fits (move_down s)).

(** The last move into a position that evidence of a lock tells of: a shift,
    or a turn with its kick. *)
Definition arrives (bound : option Z) (s : State) (e : LockEvidence) : Prop :=
  match e with
  | NoRotation => exists s0, reach bound s0 /\ s ∈ [move_down s0; move_left s0; move_right s0]
  | RotationEvidence from request k dx dy px py =>
      exists slot, 0 <= slot < 3 /\ request = replay_rotation_request slot /\ reach bound (mkState from px py) /\ try_turn bound (mkState from px py) slot = Some (s, k, (dx, dy))
  end.

(** It cannot move in any direction. *)
Definition immobile_at (s : State) : bool := negb (piece_fits (move_down s)) && negb (piece_fits (move_left s)) && negb (piece_fits (move_right s)) && negb (piece_fits (move_up s)).

(** ** Positions on the board *)

Lemma shape_normal r : Exists (fun c => fst c = 0) (piece_shape piece r) /\ Exists (fun c => snd c = 0) (piece_shape piece r) /\ Forall (fun c => 0 <= fst c <= 3 /\ 0 <= snd c <= 3) (piece_shape piece r).
Proof using Type. destruct piece, r; (split; [decided|split; decided]). Qed.

Lemma on_board_position s : on_board piece s = true -> 0 <= st_x s < 10 /\ 0 <= st_y s.
Proof using Type.
  intros H. unfold on_board in H. rewrite forallb_forall in H. destruct (shape_normal (st_rotation s)) as (Hx & Hy & _). apply Exists_exists in Hx as (c & Hc & Ec), Hy as (d & Hd & Ed).
  assert (forall e, e ∈ piece_shape piece (st_rotation s) -> 0 <= st_x s + fst e < 10 /\ 0 <= st_y s + snd e) as Hcell.
  { intros e He. specialize (H (st_x s + fst e, st_y s + snd e)). cbn [fst snd] in H. rewrite !andb_true_iff, !Z.leb_le, Z.ltb_lt in H. apply H. apply list_elem_of_In, list_elem_of_fmap. by exists e. }
  pose proof (Hcell c Hc). pose proof (Hcell d Hd). lia.
Qed.

Lemma sky_never_hits s : height <= st_y s -> hits s = false.
Proof using Type.
  intros Hy. unfold hits, piece_cells. apply not_true_iff_false. intros H. apply existsb_exists in H as (c & Hc & Hb). apply list_elem_of_In, list_elem_of_fmap in Hc as (d & -> & Hd). cbn [fst snd] in Hb.
  apply andb_true_iff in Hb as [Hb%Z.ltb_lt _]. destruct (shape_normal (st_rotation s)) as (_ & _ & Hr). rewrite Forall_forall in Hr. specialize (Hr d Hd). lia.
Qed.

Lemma sky_fits s : height <= st_y s -> piece_fits s = on_board piece s.
Proof using Type. intros Hy. unfold piece_fits. rewrite sky_never_hits by done. by rewrite andb_true_r. Qed.

Lemma fits_on_board s : piece_fits s = true -> on_board piece s = true.
Proof using Type. unfold piece_fits. by intros [? _]%andb_true_iff. Qed.

Lemma reach_fits bound s : reach bound s -> piece_fits s = true.
Proof using Type.
  induction 1 as [s Hy _ Ho|s s' _ _ _ Hf|s slot s' k o _ _ _ Hk]; [by rewrite sky_fits|done|]. unfold try_turn in Hk. cbn zeta in Hk. revert Hk. generalize 0.
  generalize (slot_offsets piece profile s slot (slot_rotation (st_rotation s) slot)). intros offsets. induction offsets as [|o' offsets IH]; intros i; cbn [try_kicks]; [done|].
  destruct (_ && _) eqn:E; [|apply IH]. intros [= <- _ _]. by apply andb_true_iff in E as [_ E].
Qed.

Lemma try_kicks_under bound s to i offsets s' k o : try_kicks bound s to i offsets = Some (s', k, o) -> under_bound bound s' = true /\ piece_fits s' = true /\ s' = kicked piece s to o /\ o ∈ offsets.
Proof using Type.
  revert i. induction offsets as [|o' offsets IH]; intros i; cbn [try_kicks]; [done|]. destruct (_ && _) eqn:E.
  - intros [= <- <- <-]. apply andb_true_iff in E as [E1 E2]. split; [done|]. split; [done|]. split; [done|by left].
  - intros H. destruct (IH _ H) as (? & ? & ? & ?). repeat (split; [done|]). by right.
Qed.

Lemma shift_y s s' : s' ∈ [move_down s; move_left s; move_right s] -> st_y s - 1 <= st_y s' <= st_y s.
Proof using Type. intros H. rewrite !elem_of_cons in H. destruct H as [->|[->|[->|H%not_elem_of_nil]]]; cbn; lia || done. Qed.

Lemma reach_under top s : height <= top -> reach (Some top) s -> on_grid top s.
Proof using Type.
  intros Ht H. assert (st_y s <= top) as Hy.
  { induction H as [s _ Hu _|s s' _ IH Hs _|s slot s' k o _ _ _ Hk]; [by apply Z.leb_le|pose proof (shift_y s s' Hs); lia|]. apply try_kicks_under in Hk as (Hu & _). by apply Z.leb_le. }
  apply reach_fits, fits_on_board, on_board_position in H. split; lia.
Qed.
(** ** The ceiling is high enough *)

(** The rows a sequence of kicks moves the piece up. *)
Definition kick_rows (from to : RotationState) (offsets : list (Z * Z)) : list Z :=
  (fun o => snd (normalized_kick_delta piece from to (fst o) (snd o))) <$> offsets.

(** The rows a piece takes, and how far a later kick may go below an earlier
    one. *)
Definition shape_rows (r : RotationState) : Z := foldl Z.max 0 (snd <$> piece_shape piece r) + 1.

Definition kick_slack (to : RotationState) : Z := Z.min 2 (shape_rows to).

Fixpoint later_rows_ok (slack down row : Z) (rows : list Z) : bool :=
  match rows with [] => true | r :: rows => (- slack <=? down - row + r) && later_rows_ok slack down row rows end.

(** No kick goes down by more than [down], and one tried after another is not
    much lower. *)
Fixpoint kick_rows_ok (slack down : Z) (rows : list Z) : bool :=
  match rows with [] => true | row :: rows => (- down <=? row) && later_rows_ok slack down row rows && kick_rows_ok slack down rows end.

Lemma kicked_y s to o : st_y (kicked piece s to o) = st_y s + snd (normalized_kick_delta piece (st_rotation s) to (fst o) (snd o)).
Proof using Type. done. Qed.

Lemma kick_rows_down slack down from to offsets o : kick_rows_ok slack down (kick_rows from to offsets) = true -> o ∈ offsets -> - down <= snd (normalized_kick_delta piece from to (fst o) (snd o)).
Proof using Type.
  induction offsets as [|o' offsets IH]; intros H Hin; [by apply not_elem_of_nil in Hin|]. cbn in H. apply andb_true_iff in H as [[H1%Z.leb_le _]%andb_true_iff H3]. apply elem_of_cons in Hin as [->|Hin]; [done|by apply IH].
Qed.

Lemma later_rows_down slack down row from to offsets o : later_rows_ok slack down row (kick_rows from to offsets) = true -> o ∈ offsets -> - slack <= down - row + snd (normalized_kick_delta piece from to (fst o) (snd o)).
Proof using Type.
  induction offsets as [|o' offsets IH]; intros H Hin; [by apply not_elem_of_nil in Hin|]. cbn in H. apply andb_true_iff in H as [H1%Z.leb_le H2]. apply elem_of_cons in Hin as [->|Hin]; [done|by apply IH].
Qed.

(** A kick taken under the ceiling is taken without one, unless a kick above
    the ceiling comes first; then it does not end below the top row. *)
Lemma kicks_without_ceiling slack down s to i offsets s' k o : kick_rows_ok slack down (kick_rows (st_rotation s) to offsets) = true ->
  try_kicks (Some (height + down)) s to i offsets = Some (s', k, o) -> try_kicks None s to i offsets = Some (s', k, o) \/ height + 1 - slack <= st_y s'.
Proof using Type.
  revert i. induction offsets as [|o' offsets IH]; intros i Hok; [done|]. cbn [try_kicks]. cbn in Hok. apply andb_true_iff in Hok as [[_ H2]%andb_true_iff H3].
  destruct (piece_fits (kicked piece s to o')) eqn:Ef; rewrite ?andb_false_r, ?andb_true_r.
  - cbn [under_bound]. destruct (Z.leb_spec (st_y (kicked piece s to o')) (height + down)); [by left|]. intros H'. right. apply try_kicks_under in H' as (_ & _ & -> & Hin).
    pose proof (later_rows_down _ _ _ _ _ _ _ H2 Hin). rewrite kicked_y in *. lia.
  - by apply IH.
Qed.

Lemma kicks_with_ceiling top s to i offsets s' k o : st_y s' <= top -> try_kicks None s to i offsets = Some (s', k, o) -> try_kicks (Some top) s to i offsets = Some (s', k, o).
Proof using Type.
  intros Hy. revert i. induction offsets as [|o' offsets IH]; intros i; [done|]. cbn [try_kicks]. destruct (piece_fits (kicked piece s to o')) eqn:Ef; rewrite ?andb_false_r, ?andb_true_r.
  - cbn [under_bound]. intros [= <- <- <-]. by rewrite (proj2 (Z.leb_le _ _)).
  - apply IH.
Qed.

Lemma on_board_up s : on_board piece s = true -> on_board piece (move_up s) = true.
Proof using Type.
  unfold on_board, piece_cells. rewrite !forallb_forall. intros H c (d & -> & Hd)%list_elem_of_In%list_elem_of_fmap. specialize (H (st_x s + fst d, st_y s + snd d)). cbn [fst snd move_up st_x st_y st_rotation] in *.
  rewrite !andb_true_iff, !Z.leb_le, Z.ltb_lt in *. destruct H as [H1 H2]; [apply list_elem_of_In, list_elem_of_fmap; by exists d|]. lia.
Qed.

Lemma reach_top s : height - 1 <= st_y s -> piece_fits s = true -> reach None s.
Proof using Type.
  intros Hy Hf. destruct (Z.lt_ge_cases (st_y s) height) as [Hlt|Hge]; [|apply reach_sky; [lia|done|by apply fits_on_board]].
  assert (move_down (move_up s) = s) as E by (destruct s; unfold move_down, move_up; cbn; f_equal; lia). apply (reach_shift None (move_up s)); [|rewrite E; by left|done].
  apply reach_sky; [cbn; lia|done|]. by apply on_board_up, fits_on_board.
Qed.

Lemma shape_rows_last r : Exists (fun c => snd c = shape_rows r - 1) (piece_shape piece r).
Proof using Type. unfold shape_rows. destruct piece, r; decided. Qed.

Lemma inside_rows s : inside_field height piece s = true -> st_y s + shape_rows (st_rotation s) <= height.
Proof using Type.
  intros H. unfold inside_field, piece_cells in H. rewrite forallb_forall in H. pose proof (shape_rows_last (st_rotation s)) as Hl. apply Exists_exists in Hl as (c & Hc & Ec).
  specialize (H (st_x s + fst c, st_y s + snd c) ltac:(apply list_elem_of_In, list_elem_of_fmap; by exists c)). cbn [snd] in H. apply Z.ltb_lt in H. lia.
Qed.

Context (down : Z) (Hdown : 0 <= down) (Hrows : forall r slot, 0 <= slot < 3 -> kick_rows_ok (kick_slack (slot_rotation r slot)) down (kick_rows r (slot_rotation r slot) (slot_offsets piece profile (mkState r 0 0) slot (slot_rotation r slot))) = true).

Lemma reach_ceiling s : reach (Some (height + down)) s <-> reach None s /\ st_y s <= height + down.
Proof.
  split.
  - intros H. split.
    + induction H as [s Hy _ Ho|s s' _ IH Hs Hf|s slot s' k o _ IH Hslot Hk]; [by apply reach_sky|by apply (reach_shift None s)|].
      pose proof Hk as Hk'. apply (kicks_without_ceiling (kick_slack (slot_rotation (st_rotation s) slot)) down) in Hk as [Hk|Hy]; [by apply (reach_kick None s slot s' k o)| |exact (Hrows (st_rotation s) slot Hslot)].
      apply reach_top; [unfold kick_slack in Hy; lia|]. by apply try_kicks_under in Hk' as (_ & ? & _).
    + induction H as [s _ Hu _|s s' _ IH Hs _|s slot s' k o _ _ _ Hk]; [by apply Z.leb_le|pose proof (shift_y s s' Hs); lia|]. apply try_kicks_under in Hk as (Hu & _). by apply Z.leb_le.
  - intros [H Hy]. induction H as [s Hs _ Ho|s s' _ IH Hs Hf|s slot s' k o _ IH Hslot Hk].
    + apply reach_sky; [done|by apply Z.leb_le|done].
    + destruct (Z.le_gt_cases (st_y s) (height + down)) as [Hle|Hgt]; [by apply (reach_shift _ s); [apply IH| |]|]. pose proof (shift_y s s' Hs). apply reach_sky; [lia|by apply Z.leb_le|by apply fits_on_board].
    + destruct (Z.le_gt_cases (st_y s) (height + down)) as [Hle|Hgt].
      * apply (reach_kick _ s slot s' k o); [by apply IH|done|]. by apply kicks_with_ceiling.
      * pose proof (try_kicks_under _ _ _ _ _ _ _ _ Hk) as (_ & Hf & -> & Hin). apply reach_sky; [|by apply Z.leb_le|by apply fits_on_board].
        pose proof (kick_rows_down _ down _ _ _ o (Hrows (st_rotation s) slot Hslot) Hin). rewrite kicked_y. lia.
Qed.

(** A kick into the field is the same with and without the ceiling. *)
Lemma kick_into_field s slot s' k o : 0 <= slot < 3 -> inside_field height piece s' = true ->
  try_turn (Some (height + down)) s slot = Some (s', k, o) <-> try_turn None s slot = Some (s', k, o).
Proof using Hrows Hdown.
  intros Hslot Hin. pose proof (inside_rows _ Hin) as Hy. unfold try_turn. cbn zeta. split; intros Hk.
  - destruct (try_kicks_under _ _ _ _ _ _ _ _ Hk) as (_ & _ & Es & _). pose proof Hk as Hk'. apply (kicks_without_ceiling (kick_slack (slot_rotation (st_rotation s) slot)) down) in Hk' as [|Hlow]; [done| |exact (Hrows (st_rotation s) slot Hslot)].
    rewrite Es in Hy. cbn [kicked st_rotation] in Hy. rewrite <- Es in Hy. unfold kick_slack in Hlow. lia.
  - apply kicks_with_ceiling; [|done]. pose proof (shape_rows_last (st_rotation s')) as Hl. apply Exists_exists in Hl as (c & Hc & Ec). destruct (shape_normal (st_rotation s')) as (_ & _ & Hr). rewrite Forall_forall in Hr. specialize (Hr c Hc). lia.
Qed.

(** ... and starts under it. *)
Lemma kick_source_low s slot s' k o : 0 <= slot < 3 -> inside_field height piece s' = true -> try_turn None s slot = Some (s', k, o) -> st_y s <= height + down.
Proof using Hrows Hdown.
  intros Hslot Hin Hk. pose proof (inside_rows _ Hin) as Hy. destruct (try_kicks_under _ _ _ _ _ _ _ _ Hk) as (_ & _ & Es & Ho). pose proof (kick_rows_down _ down _ _ _ o (Hrows (st_rotation s) slot Hslot) Ho) as Hd.
  pose proof (shape_rows_last (st_rotation s')) as Hl. apply Exists_exists in Hl as (c & Hc & Ec). destruct (shape_normal (st_rotation s')) as (_ & _ & Hr). rewrite Forall_forall in Hr. specialize (Hr c Hc).
  assert (st_y s' = st_y s + snd (normalized_kick_delta piece (st_rotation s) (slot_rotation (st_rotation s) slot) (fst o) (snd o))) by (by rewrite Es). lia.
Qed.
End Rules.

Lemma builtin_kick_rows rule profile piece r slot : builtin_kick_profile rule = Ok profile -> 0 <= slot < 3 ->
  kick_rows_ok (kick_slack piece (slot_rotation r slot)) (source_downward piece (supports_180 profile) profile) (kick_rows piece r (slot_rotation r slot) (slot_offsets piece profile (mkState r 0 0) slot (slot_rotation r slot))) = true.
Proof.
  intros H Hslot. assert (Forall (fun piece => Forall (fun r => Forall (fun slot =>
    kick_rows_ok (kick_slack piece (slot_rotation r slot)) (source_downward piece (supports_180 profile) profile) (kick_rows piece r (slot_rotation r slot) (slot_offsets piece profile (mkState r 0 0) slot (slot_rotation r slot))) = true)
    [0; 1; 2]) ALL_ROTATIONS) STANDARD_TETROMINOES) as Hall by (destruct rule; try discriminate H; injection H as <-; decided).
  rewrite Forall_forall in Hall. specialize (Hall piece ltac:(destruct piece; set_solver)). rewrite Forall_forall in Hall. specialize (Hall r ltac:(destruct r; set_solver)). rewrite Forall_forall in Hall.
  apply Hall. assert (slot = 0 \/ slot = 1 \/ slot = 2) as [->|[->| ->]] by lia; set_solver.
Qed.

(** ** The search finds what the rules reach *)

#[export] Instance Arrival_eq_dec : EqDecision Arrival.
Proof. solve_decision. Defined.

Section Template.
Context (height : Z) (board : ForwardBoard) (piece : PieceKind) (profile : KickTableProfile) (t : ReachabilityTemplate).
Context (Hh : 0 <= height <= 25) (Hb : fb_ok board) (Ht : template_for height piece profile t).

Local Notation top := (ceiling t).
Local Notation count := (length (state_masks t)).
Local Notation active := (words_for_height height).
Local Notation fitsb := (piece_fits height board piece).

(** The position of an index. *)
Definition pos (i : Z) : option State := rok (state_from_index 10 (ceiling t) i).

Definition place (i : Z) : bool := match pos i with Some s => fitsb s | None => false end.

Definition shift_index (s : State) : option Z := if bool_decide (on_grid top s) && on_board piece s then Some (sindex top s) else None.

Definition moves (i : Z) : list Z := match pos i with Some s => omap shift_index [move_down s; move_left s; move_right s] | None => [] end.

Definition turn (i slot : Z) : option RotationTarget :=
  match pos i with Some s => head (filter (fun r => place (rt_state r) = true) (slot_targets top piece profile s slot)) | None => None end.

Lemma top_bounds : 0 <= top <= 100 /\ top = height + source_downward piece (supports_180 profile) profile.
Proof using Hh Ht. apply (tf_ceiling _ _ _ _ Ht). Qed.

Lemma source_downward_nonneg : 0 <= source_downward piece (supports_180 profile) profile.
Proof using Type.
  unfold source_downward. cbn zeta. generalize (Z.opp <$> filter (fun dy => dy < 0) (filter (fun e => tr_piece (entry_transition e) = piece /\ (supports_180 profile || negb (transition_is_180 (entry_transition e))) = true) (entries profile) ≫=
    (fun e => (fun o => snd (normalized_kick_delta piece (tr_from (entry_transition e)) (tr_to (entry_transition e)) (fst o) (snd o))) <$> entry_offsets e))).
  intros l. assert (forall a, a <= foldl Z.max a l) as H; [|apply H]. induction l as [|x l IH]; intros a; cbn; [lia|]. specialize (IH (Z.max a x)). lia.
Qed.

Lemma height_top : height <= top.
Proof using Hh Ht. pose proof top_bounds. pose proof source_downward_nonneg. lia. Qed.

Lemma n_count : Z.of_nat count = position_count top.
Proof using Hh Ht. apply (tf_count _ _ _ _ Ht). Qed.

Lemma pos_sindex s : on_grid top s -> pos (sindex top s) = Some s.
Proof using Hh Ht. intros Hs. unfold pos. pose proof top_bounds. by rewrite state_from_sindex by (done || lia). Qed.

Lemma in_n_pos i : in_n count i -> exists s, on_grid top s /\ i = sindex top s /\ pos i = Some s.
Proof using Hh Ht.
  intros Hi. pose proof top_bounds. unfold in_n in Hi. rewrite n_count in Hi. destruct (sindex_surj top i ltac:(lia) Hi) as (s & Hs & <-). exists s. split; [done|]. split; [done|]. by apply pos_sindex.
Qed.

Lemma in_n_sindex s : on_grid top s -> in_n count (sindex top s).
Proof using Hh Ht. intros Hs. unfold in_n. rewrite n_count. pose proof top_bounds. apply sindex_bound; [lia|done]. Qed.

Lemma place_sindex s : on_grid top s -> place (sindex top s) = fitsb s.
Proof using Hh Ht. intros Hs. unfold place. by rewrite pos_sindex. Qed.

(** The words compared are all the words a position takes. *)
Lemma mask_hits s m : on_grid top s -> on_board piece s = true -> fb_ok m -> (forall i, fb_bit m i = on_board piece s && takes_cell height piece s i) ->
  intersects_words active board m = hits height board piece s.
Proof using Hh Hb Ht.
  intros Hs Ho Hm Hbits. apply eq_bool_prop_intro. rewrite !Is_true_true. rewrite intersects_words_spec; [|done|done|unfold words_for_height; repeat case_match; lia].
  unfold hits. rewrite existsb_exists. split.
  - intros (i & _ & Hi & Hmi). rewrite Hbits, Ho in Hmi. cbn [andb] in Hmi. unfold takes_cell in Hmi. apply existsb_exists in Hmi as (c & Hc & E). exists c. split; [done|].
    apply andb_true_iff in E as [E1 E2%Z.eqb_eq]. rewrite E1, E2, Hi. done.
  - intros (c & Hc & [E1 E2]%andb_true_iff). exists (snd c * 10 + fst c). split; [|split; [done|rewrite Hbits, Ho; apply existsb_exists; exists c; split; [done|by rewrite E1, Z.eqb_refl]]].
    apply Z.ltb_lt in E1. unfold on_board in Ho. rewrite forallb_forall in Ho. specialize (Ho c Hc). rewrite !andb_true_iff, !Z.leb_le, Z.ltb_lt in Ho.
    unfold words_for_height. destruct (Z.leb_spec height 6); [lia|]. destruct (Z.leb_spec height 12); lia.
Qed.

Lemma place_spec i : in_n count i -> exists v m, vec_at (valid_states t) i = Ok v /\ vec_at (state_masks t) i = Ok m /\ negb v || intersects_words active board m = negb (place i).
Proof using Hh Hb Ht.
  intros Hi. destruct (in_n_pos i Hi) as (s & Hs & -> & _). destruct (tf_masks _ _ _ _ Ht s Hs) as (m & Em & Hm & Hbits). exists (on_board piece s), m. unfold vec_at.
  rewrite (tf_valid _ _ _ _ Ht s Hs), Em. split; [done|]. split; [done|]. rewrite place_sindex by done. unfold piece_fits. destruct (on_board piece s) eqn:Ho; [|done]. cbn [negb orb andb]. rewrite (mask_hits s m) by (done || by rewrite Ho). by rewrite negb_involutive.
Qed.

(** A valid target is blocked when it does not fit. *)
Lemma blocked_target s : blocked active t board (target_index top piece s) = Ok (negb (bool_decide (on_grid top s) && fitsb s)).
Proof using Hh Hb Ht.
  unfold blocked, target_index. case_bool_decide as Hs; cbn [andb]; [|done]. unfold piece_fits. destruct (on_board piece s) eqn:Ho; cbn [andb]; [|done].
  pose proof top_bounds. pose proof (sindex_bound top s ltac:(lia) Hs). unfold position_count in *. destruct (Z.eqb_spec (sindex top s) INVALID_STATE) as [E|_]; [unfold INVALID_STATE in E; lia|].
  destruct (tf_masks _ _ _ _ Ht s Hs) as (m & Em & Hm & Hbits). unfold vec_at. rewrite Em. cbn [expect_some rbind]. rewrite (mask_hits s m) by done. by rewrite negb_involutive.
Qed.

Lemma target_filter (ss : list State) : filter (fun j => j <> INVALID_STATE) (target_index top piece <$> ss) = omap shift_index ss.
Proof using Hh Ht.
  induction ss as [|s ss IH]; [done|]. rewrite fmap_cons, filter_cons. cbn [omap list_omap]. rewrite IH. unfold target_index, shift_index. pose proof top_bounds.
  case_bool_decide as Hs; cbn [andb]; [|by rewrite decide_False by tauto]. destruct (on_board piece s); [|by rewrite decide_False by tauto]. rewrite decide_True; [done|]. pose proof (sindex_bound top s ltac:(lia) Hs). unfold position_count, INVALID_STATE in *. lia.
Qed.

Lemma moves_spec i : in_n count i -> exists raw, vec_at (translations t) i = Ok raw /\ filter (fun j => j <> INVALID_STATE) raw = moves i.
Proof using Hh Ht.
  intros Hi. destruct (in_n_pos i Hi) as (s & Hs & -> & Ep). unfold vec_at. rewrite (tf_translations _ _ _ _ Ht s Hs). eexists. split; [done|].
  unfold moves. rewrite Ep. apply (target_filter [move_down s; move_left s; move_right s]).
Qed.

Lemma elem_of_moves s j : on_grid top s -> j ∈ moves (sindex top s) <-> exists s', s' ∈ [move_down s; move_left s; move_right s] /\ on_grid top s' /\ on_board piece s' = true /\ j = sindex top s'.
Proof using Hh Ht.
  intros Hs. unfold moves. rewrite pos_sindex, list_elem_of_omap by done. split; intros (s' & Hin & E); exists s'; (split; [done|]).
  - unfold shift_index in E. case_bool_decide; [|done]. cbn [andb] in E. destruct (on_board piece s'); [|done]. by injection E as <-.
  - destruct E as (Hr & Ho & ->). unfold shift_index. by rewrite bool_decide_eq_true_2, Ho.
Qed.

Lemma moves_in i j : in_n count i -> j ∈ moves i -> in_n count j.
Proof using Hh Ht. intros Hi Hj. destruct (in_n_pos i Hi) as (s & Hs & -> & _). apply elem_of_moves in Hj as (s' & _ & Hr & _ & ->); [|done]. by apply in_n_sindex. Qed.

Lemma kick_targets_valid s to i offsets : Forall (fun r => exists s', on_grid top s' /\ on_board piece s' = true /\ rt_state r = sindex top s') (kick_targets top piece s to i offsets).
Proof using Type.
  revert i. induction offsets as [|o offsets IH]; intros i; cbn [kick_targets]; [constructor|]. apply Forall_app. split; [|apply IH]. case_bool_decide; cbn [andb]; [|constructor]. destruct (on_board piece _) eqn:Ho; [|constructor].
  apply Forall_singleton. by exists (kicked piece s to o).
Qed.

Lemma find_kick_spec rs : Forall (fun r => exists s', on_grid top s' /\ on_board piece s' = true /\ rt_state r = sindex top s') rs ->
  find_kick active t board rs = Ok (head (filter (fun r => place (rt_state r) = true) rs)).
Proof using Hh Hb Ht.
  induction rs as [|r rs IH]; intros H; [done|]. apply Forall_cons in H as [(s & Hs & Ho & E) H]. cbn [find_kick]. destruct (tf_masks _ _ _ _ Ht s Hs) as (m & Em & Hm & Hbits). unfold vec_at. rewrite E. rewrite Em. cbn [expect_some rbind].
  rewrite (mask_hits s m) by done. rewrite filter_cons, E, place_sindex by done. unfold piece_fits. rewrite Ho. cbn [andb]. destruct (hits height board piece s); cbn [negb].
  - rewrite decide_False by done. by apply IH.
  - by rewrite decide_True.
Qed.

Lemma turn_spec i slot : in_n count i -> slot ∈ rotation_slots t -> first_successful_kick active t board i slot = Ok (turn i slot).
Proof using Hh Hb Ht.
  intros Hi Hslot. destruct (in_n_pos i Hi) as (s & Hs & -> & Ep). unfold first_successful_kick, turn. rewrite Ep. unfold vec_at. rewrite (tf_rotations _ _ _ _ Ht s Hs). cbn [expect_some rbind].
  assert (slot = 0 \/ slot = 1 \/ slot = 2) as Hcases. { unfold rotation_slots in Hslot. apply elem_of_seqZ in Hslot. destruct (allow_180 t); lia. }
  destruct Hcases as [->|[->| ->]]; cbn [expect_some rbind lookup list_lookup Z.to_nat Pos.to_nat]; apply find_kick_spec, kick_targets_valid.
Qed.

Lemma turn_target s slot r : on_grid top s -> turn (sindex top s) slot = Some r -> exists s', on_grid top s' /\ fitsb s' = true /\ rt_state r = sindex top s'.
Proof using Hh Ht.
  intros Hs. unfold turn. rewrite pos_sindex by done. intros H%head_Some_elem_of. apply list_elem_of_filter in H as [Hp Hin]. pose proof (kick_targets_valid s (slot_rotation (st_rotation s) slot) 0 (slot_offsets piece profile s slot (slot_rotation (st_rotation s) slot))) as Hv.
  rewrite Forall_forall in Hv. destruct (Hv r Hin) as (s' & Hs' & _ & E). exists s'. split; [done|]. split; [|done]. by rewrite E, place_sindex in Hp.
Qed.

Lemma turn_in i slot r : in_n count i -> slot ∈ rotation_slots t -> turn i slot = Some r -> in_n count (rt_state r).
Proof using Hh Ht. intros Hi _ Hr. destruct (in_n_pos i Hi) as (s & Hs & -> & _). apply turn_target in Hr as (s' & Hs' & _ & ->); [|done]. by apply in_n_sindex. Qed.

Lemma seeds_in : Forall (in_n count) (sky_seeds t).
Proof using Hh Ht. apply Forall_forall. intros i (s & Hs & -> & _)%(tf_seeds _ _ _ _ Ht). by apply in_n_sindex. Qed.

(** The turn of the template is the turn of the rules. *)
Lemma turn_try_turn s slot : on_grid top s -> turn (sindex top s) slot =
  (fun '(s', k, o) => mkTarget (sindex top s') k (fst o) (snd o)) <$> try_turn height board piece profile (Some top) s slot.
Proof using Hh Ht.
  intros Hs. unfold turn, try_turn, slot_targets. rewrite pos_sindex by done. cbn zeta. generalize 0. generalize (slot_offsets piece profile s slot (slot_rotation (st_rotation s) slot)). intros offsets.
  induction offsets as [|o offsets IH]; intros i; [done|]. cbn [kick_targets try_kicks]. rewrite filter_app. set (s' := kicked piece s (slot_rotation (st_rotation s) slot) o). cbn [under_bound].
  assert (bool_decide (on_grid top s') && on_board piece s' = (st_y s' <=? top) && on_board piece s') as E.
  { destruct (on_board piece s') eqn:Ho; [|by rewrite !andb_false_r]. apply on_board_position in Ho. rewrite !andb_true_r. apply eq_bool_prop_intro. rewrite !Is_true_true, bool_decide_eq_true, Z.leb_le. unfold on_grid. lia. }
  rewrite E. destruct (st_y s' <=? top) eqn:Ey; cbn [andb]; [|apply IH]. unfold piece_fits at 1. destruct (on_board piece s') eqn:Ho; cbn [andb]; [|apply IH].
  assert (on_grid top s') as Hr by (apply on_board_position in Ho; apply Z.leb_le in Ey; split; lia).
  rewrite filter_cons, filter_nil. cbn [rt_state]. rewrite place_sindex by done. unfold piece_fits. rewrite Ho. cbn [andb]. destruct (negb (hits height board piece s')); [by rewrite decide_True|]. rewrite decide_False by done. apply IH.
Qed.

Notation reached := (ReachSearch.reached t place moves turn).

Lemma slots_allowed s slot r : 0 <= slot < 3 -> try_turn height board piece profile (Some top) s slot = Some r -> slot ∈ rotation_slots t.
Proof using Hh Ht.
  intros Hslot H. unfold rotation_slots. rewrite (tf_allow _ _ _ _ Ht). apply elem_of_seqZ. destruct (supports_180 profile) eqn:E; [lia|]. destruct (Z.eqb_spec slot 2) as [->|]; [|lia]. unfold try_turn, slot_offsets in H. rewrite E in H. done.
Qed.

Lemma slots_bound slot : slot ∈ rotation_slots t -> 0 <= slot < 3.
Proof using Type. unfold rotation_slots. intros H%elem_of_seqZ. destruct (allow_180 t); lia. Qed.

Lemma elem_of_turn_edges s e : on_grid top s -> e ∈ turn_edges t turn (sindex top s) <->
  exists slot s' k o, 0 <= slot < 3 /\ try_turn height board piece profile (Some top) s slot = Some (s', k, o) /\ e = mkEdge (sindex top s) slot (mkTarget (sindex top s') k (fst o) (snd o)).
Proof using Hh Ht.
  intros Hs. unfold turn_edges. rewrite list_elem_of_omap. split.
  - intros (slot & Hslot & E). rewrite turn_try_turn in E by done. destruct (try_turn _ _ _ _ _ _ _) as [[[s' k] o]|] eqn:Et; [|done]. injection E as <-. exists slot, s', k, o. split; [by apply slots_bound|done].
  - intros (slot & s' & k & o & Hslot & Et & ->). exists slot. split; [by apply (slots_allowed s slot (s', k, o))|]. by rewrite turn_try_turn, Et by done.
Qed.

Lemma reached_reach i : reached i <-> exists s, i = sindex top s /\ reach height board piece profile (Some top) s.
Proof using Hh Ht.
  pose proof height_top as Hht. split.
  - induction 1 as [i Hi Hp|i j _ (s & -> & Hs) Hj Hp|i e _ (s & -> & Hs) He Hp].
    + apply (tf_seeds _ _ _ _ Ht) in Hi as (s & Hs & -> & Hy & Ho). exists s. split; [done|]. apply reach_sky; [done|apply Z.leb_le; apply Hs|done].
    + pose proof (reach_under _ _ _ _ _ _ Hht Hs) as Hr. apply elem_of_moves in Hj as (s' & Hin & Hr' & _ & ->); [|done]. exists s'. split; [done|]. apply (reach_shift _ _ _ _ _ s); [done|done|]. by rewrite place_sindex in Hp.
    + pose proof (reach_under _ _ _ _ _ _ Hht Hs) as Hr. apply elem_of_turn_edges in He as (slot & s' & k & o & Hslot & Et & ->); [|done]. exists s'. split; [done|]. by apply (reach_kick _ _ _ _ _ s slot s' k o).
  - intros (s & -> & H). induction H as [s Hy Hu Ho|s s' Hs IH Hin Hf|s slot s' k o Hs IH Hslot Et].
    + assert (on_grid top s) as Hr by (apply on_board_position in Ho; apply Z.leb_le in Hu; split; lia). apply reached_seed; [apply (tf_seeds _ _ _ _ Ht); by exists s|]. rewrite place_sindex by done.  by rewrite sky_fits.
    + pose proof (reach_under _ _ _ _ _ _ Hht Hs) as Hr. assert (on_grid top s') as Hr' by (apply (reach_under height board piece profile); [done|]; by apply (reach_shift _ _ _ _ _ s)).
      apply (reached_move _ _ _ _ (sindex top s)); [done| |by rewrite place_sindex]. apply elem_of_moves; [done|]. exists s'. split; [done|]. split; [done|]. split; [by apply fits_on_board in Hf|done].
    + pose proof (reach_under _ _ _ _ _ _ Hht Hs) as Hr. assert (reach height board piece profile (Some top) s') as Hs' by (by apply (reach_kick _ _ _ _ _ s slot s' k o)). pose proof (reach_under _ _ _ _ _ _ Hht Hs') as Hr'.
      apply (reached_turn _ _ _ _ (sindex top s) (mkEdge (sindex top s) slot (mkTarget (sindex top s') k (fst o) (snd o)))); [done| |].
      * apply elem_of_turn_edges; [done|]. by exists slot, s', k, o.
      * cbn [edge_target rt_state]. rewrite place_sindex by done. by apply (reach_fits _ _ _ profile (Some top)).
Qed.
(** ** The locks of a search *)

Context (retain measure : bool).

Local Notation lockableb := (lockable height board piece).
Local Notation log := (scratch_log retain count place).

Definition still (s : State) : bool := measure && immobile_at height board piece s.

Definition mask_of (s : State) : ForwardBoard := state_masks t !!! Z.to_nat (sindex (ceiling t) s).

Definition lock_with (s : State) (e : LockEvidence) : ReachableLock := mkLock (st_rotation s) (st_x s) (st_y s) (mask_of s) e (still s).

Definition evidence_of (e : ReachableRotationEdge) : LockEvidence :=
  match pos (edge_source e) with
  | Some source => RotationEvidence (st_rotation source) (replay_rotation_request (edge_slot e)) (kick_index (edge_target e)) (kick_dx (edge_target e)) (kick_dy (edge_target e)) (st_x source) (st_y source)
  | None => NoRotation
  end.

(** What the loop over the queue inserts for one index. *)
Definition queue_lock (L : list Arrival) (i : Z) : option (State * ReachableLock) :=
  s ← pos i;
  if lockableb s then
    if bool_decide (ByMove i ∈ L) then Some (s, lock_with s NoRotation)
    else if retain then None else (fun e => (s, lock_with s (evidence_of e))) <$> first_turn L i
  else None.

(** What the loop over the edges inserts for one edge. *)
Definition edge_lock (e : ReachableRotationEdge) : option (State * ReachableLock) :=
  s ← pos (rt_state (edge_target e)); if lockableb s then Some (s, lock_with s (evidence_of e)) else None.

Definition lock_history (L : list Arrival) (q : list Z) : list (State * ReachableLock) :=
  omap (queue_lock L) q ++ (if retain then omap edge_lock (turns L) else []).

Lemma fits_shift s s' : on_grid top s -> s' ∈ [move_down s; move_left s; move_right s] -> bool_decide (on_grid top s') && fitsb s' = fitsb s'.
Proof using Type.
  intros Hs Hin. destruct (fitsb s') eqn:E; [|apply andb_false_r]. rewrite andb_true_r. apply bool_decide_eq_true. apply fits_on_board, on_board_position in E. pose proof (shift_y s s' Hin). destruct Hs as [_ ?]. split; lia.
Qed.

Lemma grounded_spec s : on_grid top s -> grounded active t board (sindex top s) = Ok (negb (fitsb (move_down s))).
Proof using Hh Hb Ht.
  intros Hs. unfold grounded. pose proof top_bounds. rewrite state_from_sindex by (done || lia). cbn [rbind]. destruct (Z.eqb_spec (st_y s) 0) as [E|E].
  - assert (fitsb (move_down s) = false) as ->; [|done]. apply not_true_iff_false. intros Hf. apply fits_on_board, on_board_position in Hf. cbn in Hf. lia.
  - unfold vec_at at 1. rewrite (tf_translations _ _ _ _ Ht s Hs). cbn [expect_some rbind]. match goal with |- context [vec_at (?a :: _) 0] => change (vec_at _ 0) with (Ok (E := Panic) a) end. cbn [rbind].
    rewrite blocked_target, (fits_shift s) by (done || by left). done.
Qed.

Lemma immobile_spec s : on_grid top s -> st_y s < top -> immobile active t board (sindex top s) = Ok (immobile_at height board piece s).
Proof using Hh Hb Ht.
  intros Hs Hy. unfold immobile, immobile_at, vec_at. rewrite (tf_translations _ _ _ _ Ht s Hs). cbn [expect_some rbind all_blocked].
  rewrite blocked_target, (fits_shift s) by (done || by left). cbn [rbind]. destruct (fitsb (move_down s)); cbn [negb andb]; [done|].
  rewrite blocked_target, (fits_shift s) by (done || (right; by left)). cbn [rbind]. destruct (fitsb (move_left s)); cbn [negb andb]; [done|].
  rewrite blocked_target, (fits_shift s) by (done || (right; right; by left)). cbn [rbind]. destruct (fitsb (move_right s)); cbn [negb andb]; [done|].
  rewrite (tf_upward _ _ _ _ Ht s Hs). cbn [expect_some rbind]. rewrite blocked_target. rewrite bool_decide_eq_true_2; [done|]. destruct Hs. split; cbn; lia.
Qed.

Lemma inside_below s : on_board piece s = true -> inside_field height piece s = true -> st_y s < height.
Proof using Type.
  intros _ H. unfold inside_field, piece_cells in H. rewrite forallb_forall in H. destruct (shape_normal piece (st_rotation s)) as (_ & Hy & _). apply Exists_exists in Hy as (c & Hc & Ec).
  specialize (H (st_x s + fst c, st_y s + snd c) ltac:(apply list_elem_of_In, list_elem_of_fmap; by exists c)). cbn [snd] in H. apply Z.ltb_lt in H. lia.
Qed.

Definition with_marks (sc : ReachabilityScratch) (marks : list bool) : ReachabilityScratch :=
  mkScratch (visited sc) (non_rotation_arrival sc) (first_rotation_arrival sc) (first_rotation_edge sc) marks (generation sc) (queue sc) (rotation_edges sc).

Lemma log_with_marks g L sc marks : log g L sc -> length marks = length (immobile_marks sc) -> log g L (with_marks sc marks).
Proof using Type. intros [] Hl. split; try done. cbn. by rewrite Hl. Qed.

Lemma mask_lookup s : on_grid top s -> state_masks t !! Z.to_nat (sindex top s) = Some (mask_of s).
Proof using Hh Ht. intros Hs. destruct (tf_masks _ _ _ _ Ht s Hs) as (m & Em & _). unfold mask_of. by rewrite (list_lookup_total_correct _ _ _ Em). Qed.

Lemma rotation_lock_spec s e src : pos (edge_source e) = Some src -> rotation_lock t s (mask_of s) e (still s) = Ok (lock_with s (evidence_of e)).
Proof using Type.
  intros Hp. unfold rotation_lock, evidence_of, lock_with. rewrite Hp. unfold pos in Hp. destruct (state_from_index 10 (ceiling t) (edge_source e)) as [src'|] eqn:E; [|done]. injection Hp as ->. done.
Qed.

(** Every turn of the history starts at a position. *)
Definition sources_ok (L : list Arrival) : Prop := forall e, ByTurn e ∈ L -> is_Some (pos (edge_source e)) /\ exists s, on_grid top s /\ rt_state (edge_target e) = sindex top s.

Lemma lock_state_spec g L sc l ins s : log g L sc -> sources_ok L -> table_log top ins l -> 0 <= top < 64 -> on_grid top s -> fitsb s = true ->
  exists marks l', lock_state active t board retain measure sc l (sindex top s) = Ok (with_marks sc marks, l') /\
    table_log top (ins ++ option_list (queue_lock L (sindex top s))) l' /\ length marks = length (immobile_marks sc) /\
    (lockableb s = true -> marks !! Z.to_nat (sindex top s) = Some (still s)) /\ (forall j, j <> Z.to_nat (sindex top s) -> marks !! j = immobile_marks sc !! j).
Proof using Hh Hb Ht.
  intros Hlog Hsrc Htab Htop Hs Hf. pose proof (in_n_sindex s Hs) as Hi. unfold queue_lock. rewrite pos_sindex by done. cbn [mbind option_bind].
  unfold lock_state, vec_at at 1. rewrite (tf_inside _ _ _ _ Ht s Hs). pose proof (fits_on_board _ _ _ _ Hf) as Ho. rewrite Ho. cbn [expect_some rbind andb]. unfold lockable.
  assert (with_marks sc (immobile_marks sc) = sc) as Hid by (by destruct sc).
  destruct (inside_field height piece s) eqn:Ei; cbn [andb rbind negb].
  2:{ exists (immobile_marks sc), l. rewrite Hid, app_nil_r. done. }
  rewrite grounded_spec by done. cbn [rbind]. destruct (fitsb (move_down s)) eqn:Ed; cbn [negb].
  { exists (immobile_marks sc), l. rewrite Hid, app_nil_r. done. }
  pose proof (inside_below s Ho Ei). pose proof height_top. rewrite state_from_sindex by (done || lia). cbn [rbind].
  assert ((if measure then immobile active t board (sindex top s) else Ok false) = Ok (still s)) as ->.
  { unfold still. destruct measure; [|done]. apply immobile_spec; [done|lia]. }
  cbn [rbind]. pose proof (sl_lengths _ _ _ _ _ _ Hlog) as (L0 & L1 & L2 & L3 & L4). unfold in_n in Hi. rewrite vec_set_Ok by lia. cbn [rbind]. unfold vec_at at 1. rewrite mask_lookup by done. cbn [expect_some rbind].
  destruct (lookup_lt_is_Some_2 (non_rotation_arrival sc) (Z.to_nat (sindex top s))) as [v Hv]; [lia|]. unfold vec_at at 1. cbn [non_rotation_arrival]. rewrite Hv. cbn [expect_some rbind generation].
  set (marks := <[Z.to_nat (sindex top s) := still s]> (immobile_marks sc)). rewrite (sl_generation _ _ _ _ _ _ Hlog).
  assert (forall l0 : DenseLockTable, Ok (E := Panic) (mkScratch (visited sc) (non_rotation_arrival sc) (first_rotation_arrival sc) (first_rotation_edge sc) marks g (queue sc) (rotation_edges sc), l0) = Ok (with_marks sc marks, l0)) as Hsc by (intros; unfold with_marks; by rewrite (sl_generation _ _ _ _ _ _ Hlog)).
  assert (length marks = length (immobile_marks sc) /\ (true = true -> marks !! Z.to_nat (sindex top s) = Some (still s)) /\ (forall j, j <> Z.to_nat (sindex top s) -> marks !! j = immobile_marks sc !! j)) as Hmarks.
  { unfold marks. rewrite length_insert. split; [done|]. split; [intros _; apply list_lookup_insert_eq; lia|]. intros j Hj. by apply list_lookup_insert_ne. }
  pose proof (sl_moved _ _ _ _ _ _ Hlog (sindex top s) ltac:(unfold in_n; lia)) as Hmoved. rewrite place_sindex, Hv in Hmoved by done.
  assert (forall lock, exists l', locks_insert l (sindex top s) s lock = Ok l' /\ table_log top (ins ++ [(s, lock)]) l') as Hins by (intros lock; by apply locks_insert_log).
  destruct (Z.eqb_spec v g) as [->|Hne].
  - rewrite bool_decide_eq_true_2 by (by apply Hmoved). destruct (Hins (lock_with s NoRotation)) as (l' & E & Hl'). unfold lock_with in E. rewrite E. cbn [rbind]. exists marks, l'. split; [exact (Hsc l')|]. split; [exact Hl'|exact Hmarks].
  - rewrite bool_decide_eq_false_2 by (intros Hin; apply Hne; by injection (proj2 Hmoved (conj Hf Hin))).
    destruct (lookup_lt_is_Some_2 (first_rotation_arrival sc) (Z.to_nat (sindex top s))) as [u Hu]; [lia|]. unfold vec_at at 1. cbn [first_rotation_arrival]. rewrite Hu. cbn [expect_some rbind].
    destruct retain; cbn [negb andb]; [exists marks, l; split; [exact (Hsc l)|]; rewrite app_nil_r; done|].
    pose proof (sl_turned _ _ _ _ _ _ Hlog (sindex top s) ltac:(unfold in_n; lia)) as Hturned. rewrite Hu in Hturned. destruct (first_turn L (sindex top s)) as [e|] eqn:Ef.
    + assert (u = g) as -> by (by injection (proj2 Hturned (mk_is_Some _ _ eq_refl))). rewrite Z.eqb_refl. unfold vec_at at 1. cbn [first_rotation_edge].
      rewrite (sl_first _ _ _ _ _ _ Hlog (sindex top s) e ltac:(unfold in_n; lia) Ef). cbn [expect_some rbind]. pose proof (first_turn_Some _ _ _ Ef) as [Hin _]. destruct (Hsrc e Hin) as [[src Hp] _].
      rewrite (rotation_lock_spec s e src Hp). cbn [rbind fmap option_fmap option_map]. destruct (Hins (lock_with s (evidence_of e))) as (l' & -> & Hl'). cbn [rbind]. exists marks, l'. split; [exact (Hsc l')|]. split; [exact Hl'|exact Hmarks].
    + destruct (Z.eqb_spec u g) as [->|]; [by destruct (proj1 Hturned eq_refl)|]. exists marks, l. split; [exact (Hsc l)|]. rewrite app_nil_r. done.
Qed.

Lemma lock_states_spec g L sc l ins ids : log g L sc -> sources_ok L -> table_log top ins l -> 0 <= top < 64 -> Forall (fun i => exists s, i = sindex top s /\ on_grid top s /\ fitsb s = true) ids ->
  exists marks l', lock_states active t board retain measure ids sc l = Ok (with_marks sc marks, l') /\
    table_log top (ins ++ omap (queue_lock L) ids) l' /\ length marks = length (immobile_marks sc) /\
    (forall s, on_grid top s -> sindex top s ∈ ids -> lockableb s = true -> marks !! Z.to_nat (sindex top s) = Some (still s)) /\
    (forall j, (forall i, i ∈ ids -> j <> Z.to_nat i) -> marks !! j = immobile_marks sc !! j).
Proof using Hh Hb Ht.
  intros Hlog Hsrc Htab Htop Hids. revert sc l ins Hlog Htab. induction Hids as [|i ids (s & -> & Hs & Hf) Hids IH]; intros sc l ins Hlog Htab; cbn [lock_states omap list_omap].
  { exists (immobile_marks sc), l. rewrite app_nil_r. split; [by destruct sc|]. split; [done|]. split; [done|]. split; [|done]. intros s _ H. by apply not_elem_of_nil in H. }
  destruct (lock_state_spec g L sc l ins s) as (m1 & l1 & -> & Ht1 & Hl1 & Hm1 & Ho1); [done..|]. cbn [rbind].
  destruct (IH (with_marks sc m1) l1 _ (log_with_marks g L sc m1 Hlog Hl1) Ht1) as (m2 & l2 & -> & Ht2 & Hl2 & Hm2 & Ho2). exists m2, l2. split; [done|]. cbn [with_marks immobile_marks] in *.
  split; [rewrite <- app_assoc in Ht2; by destruct (queue_lock L (sindex top s))|]. split; [lia|]. split.
  - intros s' Hs' Hin Hlock. destruct (decide (sindex top s' ∈ ids)) as [|Hnot]; [by apply Hm2|]. apply elem_of_cons in Hin as [E|]; [|done]. apply sindex_inj in E as ->; [|lia|done|done].
    rewrite Ho2; [by apply Hm1|]. intros i Hi E. apply Hnot. assert (i = sindex top s) as <-; [|done]. rewrite Forall_forall in Hids. destruct (Hids i Hi) as (s' & -> & Hs'' & _). pose proof (sindex_bound top s ltac:(lia) Hs). pose proof (sindex_bound top s' ltac:(lia) Hs''). lia.
  - intros j Hj. rewrite Ho2 by (intros i Hi; apply Hj; by right). apply Ho1. apply Hj. by left.
Qed.

(** What the second loop needs of an edge. *)
Definition edge_ready (g : Z) (sc : ReachabilityScratch) (e : ReachableRotationEdge) : Prop :=
  is_Some (pos (edge_source e)) /\ exists s, on_grid top s /\ rt_state (edge_target e) = sindex top s /\ fitsb s = true /\
    visited sc !! Z.to_nat (sindex top s) = Some g /\ (lockableb s = true -> immobile_marks sc !! Z.to_nat (sindex top s) = Some (still s)).

Lemma lock_edges_spec g sc es l ins : generation sc = g -> Forall (edge_ready g sc) es -> table_log top ins l -> 0 <= top < 64 ->
  exists l', lock_edges active t board sc es l = Ok l' /\ table_log top (ins ++ omap edge_lock es) l'.
Proof using Hh Hb Ht.
  intros Hg Hes Htab Htop. revert l ins Htab. induction Hes as [|e es ([src Hsrc] & s & Hs & Et & Hf & Hv & Hm) _ IH]; intros l ins Htab; cbn [lock_edges omap list_omap]; [exists l; by rewrite app_nil_r|].
  assert (exists l1, lock_edge active t board sc l e = Ok l1 /\ table_log top (ins ++ option_list (edge_lock e)) l1) as (l1 & -> & H1).
  { unfold lock_edge, edge_lock. assert (exists src', state_from_index 10 top (edge_source e) = Ok src') as [src' ->] by (unfold pos in Hsrc; destruct (state_from_index 10 top (edge_source e)) as [src'|]; [by exists src'|done]). cbn [rbind].
    cbn zeta. rewrite Et. unfold vec_at at 1. rewrite Hv, pos_sindex by done. cbn [expect_some rbind mbind option_bind]. rewrite Hg, Z.eqb_refl. unfold vec_at at 1. rewrite (tf_inside _ _ _ _ Ht s Hs).
    pose proof (fits_on_board _ _ _ _ Hf) as Ho. rewrite Ho. cbn [expect_some rbind andb]. unfold lockable in *. destruct (inside_field height piece s); cbn [rbind negb andb] in *; [|exists l; by rewrite app_nil_r].
    rewrite grounded_spec by done. cbn [rbind]. destruct (fitsb (move_down s)); cbn [negb] in *; [exists l; by rewrite app_nil_r|]. rewrite state_from_sindex by (done || lia). cbn [rbind].
    unfold vec_at. rewrite mask_lookup, Hm by done. cbn [expect_some rbind]. rewrite (rotation_lock_spec s e src Hsrc). cbn [rbind]. by apply locks_insert_log. }
  cbn [rbind]. destruct (IH l1 _ H1) as (l2 & -> & H2). exists l2. split; [done|]. rewrite <- app_assoc in H2. by destruct (edge_lock e).
Qed.

(** ** A whole search *)

Definition search_queue : list Z := bfs t place moves turn (S (length (state_masks t))) 0 (foldl (push_queue place) [] (sky_seeds t)).

Definition search_log : list Arrival := seed_log t ++ (search_queue ≫= step_log t moves turn).

Definition search_history : list (State * ReachableLock) := lock_history search_log search_queue.

Lemma begin_search sc : scratch_inv sc -> exists s', rbind (push_seeds active t board (sky_seeds t) (scratch_begin sc count)) (search_loop (S count) active t board retain 0) = Ok s' /\
  log (generation (scratch_begin sc count)) search_log s' /\ (forall i, i ∈ queue s' <-> reached i) /\ queue s' = search_queue.
Proof using Hh Hb Ht.
  intros Hsc. destruct (breadth_search_spec active t board retain count place moves turn place_spec moves_spec moves_in turn_spec turn_in seeds_in _ (scratch_begin_fresh sc count Hsc)) as (s' & E & Hlog & Hq & Eq).
  exists s'. split; [done|]. unfold full_log in Hlog. rewrite Eq in Hlog. done.
Qed.

Lemma search_queue_reached i : i ∈ search_queue <-> reached i.
Proof using Hh Hb Ht retain. destruct (begin_search scratch_default scratch_default_inv) as (s' & _ & _ & Hq & <-). apply Hq. Qed.

Lemma search_log_move i : ByMove i ∈ search_log <-> i ∈ sky_seeds t \/ exists j, reached j /\ i ∈ moves j.
Proof using Hh Hb Ht retain.
  destruct (begin_search scratch_default scratch_default_inv) as (s' & _ & _ & Hq & E). rewrite <- (full_log_move t place moves turn s' i Hq). unfold full_log, search_log. by rewrite E.
Qed.

Lemma search_log_turn e : ByTurn e ∈ search_log <-> exists j, reached j /\ e ∈ turn_edges t turn j.
Proof using Hh Hb Ht retain.
  destruct (begin_search scratch_default scratch_default_inv) as (s' & _ & _ & Hq & E). rewrite <- (full_log_turn t place moves turn s' e Hq). unfold full_log, search_log. by rewrite E.
Qed.

Lemma reached_position i : reached i -> exists s, i = sindex top s /\ on_grid top s /\ fitsb s = true.
Proof using Hh Ht.
  intros (s & -> & Hr)%reached_reach. exists s. split; [done|]. split; [by apply (reach_under height board piece profile); [apply height_top|]|by apply (reach_fits _ _ _ profile (Some top))].
Qed.

Lemma turn_edge_position e : ByTurn e ∈ search_log -> is_Some (pos (edge_source e)) /\ exists s, on_grid top s /\ rt_state (edge_target e) = sindex top s /\ fitsb s = true /\ reached (sindex top s).
Proof using Hh Hb Ht retain.
  intros (j & Hj & He)%search_log_turn. destruct (reached_position j Hj) as (s & -> & Hs & _). pose proof He as (slot & s' & k & o & Hslot & Et & ->)%elem_of_turn_edges; [|done]. cbn [edge_source edge_target rt_state].
  split; [rewrite pos_sindex by done; by eexists|]. apply reached_reach in Hj as (s0 & E & Hr). assert (reached (sindex top s')) as Hr'.
  { apply reached_reach. exists s'. split; [done|]. assert (s0 = s) as <- by (pose proof top_bounds; eapply (sindex_inj top); [lia|apply (reach_under height board piece profile); [apply height_top|done]|done|done]). by apply (reach_kick _ _ _ _ _ s0 slot s' k o). }
  destruct (reached_position _ Hr') as (s'' & E' & Hs'' & Hf). exists s''. by rewrite <- E'.
Qed.

(** The search does not panic; its output is a function of the board and the
    template, and the scratch it leaves is good for the next one. *)
Lemma search_locks_spec sc l : scratch_inv sc -> length (presence_by_rotation_x_class l) = 120%nat -> top < 64 ->
  exists sc' l', search_reachable_locks active t board sc l retain measure = Ok (sc', l', sorted_output top search_history) /\
    scratch_inv sc' /\ length (presence_by_rotation_x_class l') = 120%nat.
Proof using Hh Hb Ht.
  intros Hsc Hl Htop. pose proof top_bounds as [Hb0 _]. assert (0 <= top < 64) as Htop' by lia. unfold search_reachable_locks. cbn zeta. rewrite <- rbind_assoc. destruct (begin_search sc Hsc) as (s1 & -> & Hlog & Hq & Eq). cbn [rbind].
  assert (sources_ok search_log) as Hsrc by (intros e He; apply turn_edge_position in He as (Hp & s & Hs & Et & _); split; [done|by exists s]).
  assert (Forall (fun i => exists s, i = sindex top s /\ on_grid top s /\ fitsb s = true) (queue s1)) as Hids by (apply Forall_forall; intros i Hi%Hq; by apply reached_position).
  destruct (lock_states_spec _ _ _ _ [] (queue s1) Hlog Hsrc (locks_begin_log top ltac:(lia) l count Hl ltac:(by apply n_count)) Htop' Hids) as (marks & l1 & -> & Htab & Hlen & Hmarks & _). cbn [rbind app] in *.
  set (s2 := with_marks s1 marks) in *. pose proof (log_with_marks _ _ _ _ Hlog Hlen) as Hlog2. fold s2 in Hlog2.
  assert (exists l2, (if retain then lock_edges active t board s2 (rotation_edges s2) l1 else Ok l1) = Ok l2 /\ table_log top search_history l2) as (l2 & -> & Htab2).
  { unfold search_history, lock_history. rewrite Eq in Htab. destruct retain eqn:Er; [|exists l1; rewrite app_nil_r; done]. rewrite (sl_edges _ _ _ _ _ _ Hlog2).
    apply (lock_edges_spec (generation (scratch_begin sc count))); [apply (sl_generation _ _ _ _ _ _ Hlog2)| |done|done].
    apply Forall_forall. intros e He%elem_of_turns. destruct (turn_edge_position e He) as (Hp & s & Hs & Et & Hf & Hr). split; [done|]. exists s. split; [done|]. split; [done|]. split; [done|].
    split; [apply (sl_visited _ _ _ _ _ _ Hlog2); [by apply in_n_sindex|by apply Hq]|]. intros Hlock. apply Hmarks; [done|by apply Hq|done]. }
  cbn [rbind]. rewrite (write_sorted_spec top Htop' _ _ Htab2). cbn [rbind]. exists s2, l2. split; [done|]. split; [|apply (tl_words _ _ _ Htab2)].
  destruct Hlog2 as [Hg (B1 & B2 & B3) (Hn & L1 & L2 & L3 & L4) _ _ _ _ _ _ _]. pose proof (scratch_begin_fresh sc count Hsc) as [Hgen _]. split; [rewrite Hg; unfold in_width; lia|]. rewrite Hg. done.
Qed.

(** ** The history tells what the rules allow *)

Local Notation reacht := (reach height board piece profile (Some top)).
Local Notation arrivest := (arrives height board piece profile (Some top)).

Lemma reached_sindex s : on_grid top s -> reached (sindex top s) <-> reacht s.
Proof using Hh Ht.
  intros Hs. rewrite reached_reach. split; [|intros H; by exists s]. intros (s' & E & H). pose proof top_bounds. apply (sindex_inj top) in E as ->; [done|lia|done|by apply (reach_under height board piece profile); [apply height_top|]].
Qed.

Lemma reacht_range s : reacht s -> on_grid top s.
Proof using Hh Ht. apply reach_under, height_top. Qed.

Lemma move_arrives s : on_grid top s -> fitsb s = true -> inside_field height piece s = true -> ByMove (sindex top s) ∈ search_log <-> arrivest s NoRotation.
Proof using Hh Hb Ht retain.
  intros Hs Hf Hin. rewrite search_log_move. pose proof top_bounds as [Hb0 _]. split.
  - intros [(s' & Hs' & E & Hy & _)%(tf_seeds _ _ _ _ Ht)|(j & Hj & Hm)].
    + apply (sindex_inj top) in E as ->; [|lia|done|done]. pose proof (inside_below s' (fits_on_board _ _ _ _ Hf) Hin). lia.
    + destruct (reached_position j Hj) as (s0 & -> & Hs0 & _). apply reached_sindex in Hj; [|done]. apply elem_of_moves in Hm as (s' & Hsh & Hs' & _ & E); [|done]. apply (sindex_inj top) in E as ->; [|lia|done|done]. by exists s0.
  - intros (s0 & Hr & Hsh). right. exists (sindex top s0). pose proof (reacht_range s0 Hr) as Hs0. split; [by apply reached_sindex|]. apply elem_of_moves; [done|]. exists s. split; [done|]. split; [done|]. split; [by apply fits_on_board in Hf|done].
Qed.

Lemma turn_arrives e : ByTurn e ∈ search_log -> exists s, on_grid top s /\ rt_state (edge_target e) = sindex top s /\ evidence_of e <> NoRotation /\ arrivest s (evidence_of e).
Proof using Hh Hb Ht retain.
  intros (j & Hj & He)%search_log_turn. destruct (reached_position j Hj) as (s0 & -> & Hs0 & _). apply reached_sindex in Hj; [|done]. apply elem_of_turn_edges in He as (slot & s & k & [dx dy] & Hslot & Et & ->); [|done].
  exists s. split; [apply reacht_range; by apply (reach_kick _ _ _ _ _ s0 slot s k (dx, dy))|]. split; [done|]. unfold evidence_of. cbn [edge_source edge_slot edge_target kick_index kick_dx kick_dy fst snd]. rewrite pos_sindex by done. split; [done|].
  exists slot. destruct s0. done.
Qed.

Lemma arrives_turn s ev : on_grid top s -> ev <> NoRotation -> arrivest s ev -> exists e, ByTurn e ∈ search_log /\ rt_state (edge_target e) = sindex top s /\ evidence_of e = ev.
Proof using Hh Hb Ht retain.
  intros Hs Hne. destruct ev as [|from request k dx dy px py]; [done|]. intros (slot & Hslot & -> & Hr & Et). pose proof (reacht_range _ Hr) as Hs0. exists (mkEdge (sindex top (mkState from px py)) slot (mkTarget (sindex top s) k dx dy)).
  split; [|split; [done|]].
  - apply search_log_turn. exists (sindex top (mkState from px py)). split; [by apply reached_sindex|]. apply elem_of_turn_edges; [done|]. by exists slot, s, k, (dx, dy).
  - unfold evidence_of. cbn [edge_source]. by rewrite pos_sindex.
Qed.

Lemma lockable_inside s : lockableb s = true -> inside_field height piece s = true.
Proof using Type. unfold lockable. by intros [? _]%andb_true_iff. Qed.

Lemma elem_of_queue_history s l : (s, l) ∈ omap (queue_lock search_log) search_queue <-> reacht s /\ queue_lock search_log (sindex top s) = Some (s, l).
Proof using Hh Hb Ht.
  rewrite list_elem_of_omap. split.
  - intros (i & Hi%search_queue_reached & E). destruct (reached_position i Hi) as (s' & -> & Hs' & _). assert (s' = s) as ->; [|split; [by apply reached_sindex|done]].
    unfold queue_lock in E. rewrite pos_sindex in E by done. cbn in E. destruct (lockableb s'); [|done]. destruct (bool_decide _); [by injection E|]. destruct retain; [done|]. destruct (first_turn _ _); [by injection E|done].
  - intros [Hr E]. exists (sindex top s). split; [|done]. apply search_queue_reached, reached_sindex; [by apply reacht_range|done].
Qed.

Lemma elem_of_edge_history s l : (s, l) ∈ omap edge_lock (turns search_log) <-> lockableb s = true /\ exists ev, l = lock_with s ev /\ ev <> NoRotation /\ on_grid top s /\ arrivest s ev.
Proof using Hh Hb Ht retain.
  rewrite list_elem_of_omap. split.
  - intros (e & He%elem_of_turns & E). destruct (turn_arrives e He) as (s' & Hs' & Et & Hne & Ha). unfold edge_lock in E. rewrite Et, pos_sindex in E by done. cbn in E. destruct (lockableb s') eqn:El; [|done]. injection E as <- <-. split; [done|]. by exists (evidence_of e).
  - intros (Hl & ev & -> & Hne & Hs & Ha). destruct (arrives_turn s ev Hs Hne Ha) as (e & He & Et & <-). exists e. split; [by apply elem_of_turns|]. unfold edge_lock. rewrite Et, pos_sindex by done. cbn. by rewrite Hl.
Qed.

(** What the first loop inserts. *)
Lemma queue_lock_spec s l : reacht s -> queue_lock search_log (sindex top s) = Some (s, l) <->
  lockableb s = true /\ (arrivest s NoRotation /\ l = lock_with s NoRotation \/
    ~ arrivest s NoRotation /\ retain = false /\ exists e, first_turn search_log (sindex top s) = Some e /\ l = lock_with s (evidence_of e)).
Proof using Hh Hb Ht.
  intros Hr. pose proof (reacht_range s Hr) as Hs. pose proof (reach_fits _ _ _ _ _ _ Hr) as Hf. unfold queue_lock. rewrite pos_sindex by done. cbn [mbind option_bind]. destruct (lockableb s) eqn:El; [|naive_solver].
  pose proof (move_arrives s Hs Hf (lockable_inside s El)) as Hm. case_bool_decide as Hd.
  - split; [intros [= <-]; split; [done|]; left; by rewrite <- Hm|]. intros (_ & [[_ ->]|[Hn _]]); [done|]. tauto.
  - destruct retain.
    + split; [done|]. intros (_ & [[Ha _]|(_ & [=] & _)]). tauto.
    + destruct (first_turn _ _) as [e|] eqn:Ef; cbn.
      * split; [intros [= <-]; split; [done|]; right; split; [tauto|]; split; [done|]; by exists e|]. intros (_ & [[Ha _]|(_ & _ & e' & [= <-] & ->)]); [tauto|done].
      * split; [done|]. intros (_ & [[Ha _]|(_ & _ & e & [=] & _)]). tauto.
Qed.

Lemma history_sound s l : (s, l) ∈ search_history -> reacht s /\ lockableb s = true /\
  exists ev, l = lock_with s ev /\ arrivest s ev /\ (retain = false -> ev <> NoRotation -> ~ arrivest s NoRotation).
Proof using Hh Hb Ht.
  unfold search_history, lock_history. intros [(Hr & E)%elem_of_queue_history|H]%elem_of_app.
  - split; [done|]. apply queue_lock_spec in E as (Hl & [[Ha ->]|(Hn & _ & e & Ef & ->)]); [split; [done|]; by exists NoRotation|split; [done|]|done]. apply first_turn_Some in Ef as [He Et]. destruct (turn_arrives e He) as (s' & Hs' & Et' & Hne & Ha).
    rewrite Et' in Et. pose proof top_bounds. apply (sindex_inj top) in Et as ->; [|lia|done|by apply reacht_range]. by exists (evidence_of e).
  - destruct retain; [|by apply not_elem_of_nil in H]. apply elem_of_edge_history in H as (Hl & ev & -> & Hne & Hs & Ha). split; [|split; [done|]; by exists ev].
    destruct ev as [|from request k dx dy px py]; [done|]. destruct Ha as (slot & Hslot & _ & Hr & Et). by apply (reach_kick _ _ _ _ _ (mkState from px py) slot s k (dx, dy)).
Qed.

Lemma history_moved s : reacht s -> lockableb s = true -> arrivest s NoRotation -> (s, lock_with s NoRotation) ∈ search_history.
Proof using Hh Hb Ht. intros Hr Hl Ha. apply elem_of_app. left. apply elem_of_queue_history. split; [done|]. apply queue_lock_spec; [done|]. tauto. Qed.

Lemma history_turned s ev : retain = true -> lockableb s = true -> on_grid top s -> ev <> NoRotation -> arrivest s ev -> (s, lock_with s ev) ∈ search_history.
Proof using Hh Hb Ht. intros Hret Hl Hs Hne Ha. apply elem_of_app. right. rewrite Hret. apply elem_of_edge_history. split; [done|]. by exists ev. Qed.

Lemma history_single s l l' : retain = false -> (s, l) ∈ search_history -> (s, l') ∈ search_history -> l = l'.
Proof using Hh Hb Ht.
  intros Hret. unfold search_history, lock_history. rewrite Hret, app_nil_r. intros [_ E]%elem_of_queue_history [_ E']%elem_of_queue_history. rewrite E in E'. by injection E'.
Qed.

Lemma history_complete s : reacht s -> lockableb s = true -> exists ev, (s, lock_with s ev) ∈ search_history.
Proof using Hh Hb Ht.
  intros Hr Hl. pose proof (reacht_range s Hr) as Hs. pose proof (reach_fits _ _ _ _ _ _ Hr) as Hf. destruct (decide (ByMove (sindex top s) ∈ search_log)) as [Hm|Hm]; rewrite move_arrives in Hm by (done || by apply lockable_inside).
  { exists NoRotation. by apply history_moved. }
  assert (exists ev, ev <> NoRotation /\ arrivest s ev) as (ev & Hne & Ha).
  { inversion Hr as [? Hy|s0 ? Hr0 Hsh|s0 slot ? k [dx dy] Hr0 Hslot Et]; subst.
    - pose proof (inside_below s (fits_on_board _ _ _ _ Hf) (lockable_inside s Hl)). lia.
    - exfalso. apply Hm. by exists s0.
    - exists (RotationEvidence (st_rotation s0) (replay_rotation_request slot) k dx dy (st_x s0) (st_y s0)). split; [done|]. exists slot. by destruct s0. }
  destruct (Bool.bool_dec retain true) as [Hret|Hret]; [exists ev; by apply history_turned|]. destruct (arrives_turn s ev Hs Hne Ha) as (e & He & Et & _).
  destruct (first_turn search_log (sindex top s)) as [e'|] eqn:Ef; [|by apply first_turn_None with (e := e) in Ef]. exists (evidence_of e'). apply elem_of_app. left. apply elem_of_queue_history. split; [done|].
  apply queue_lock_spec; [done|]. split; [done|]. right. split; [done|]. split; [by apply not_true_is_false|]. by exists e'.
Qed.

(** The position of a lock. *)
Definition lock_pos (l : ReachableLock) : State := mkState (lock_rotation l) (lock_x l) (lock_y l).

Local Notation found := (sorted_output top search_history).

Context (Htop : 0 <= top < 64).

Lemma lock_with_pos s ev : lock_pos (lock_with s ev) = s.
Proof using Type. by destruct s. Qed.

Lemma output_sound l : l ∈ found -> (lock_pos l, l) ∈ search_history /\ first_lock search_history (lock_pos l) (lock_class l) = Some l.
Proof using Hh Hb Ht Htop.
  intros (s & c & Hs & E)%(elem_of_sorted_output top Htop). pose proof (first_lock_Some _ _ _ _ E) as [Hin <-]. destruct (history_sound s l Hin) as (_ & _ & ev & -> & _). by rewrite lock_with_pos.
Qed.

Lemma output_complete s l : (s, l) ∈ search_history -> exists l', l' ∈ found /\ lock_pos l' = s /\ lock_class l' = lock_class l.
Proof using Hh Hb Ht Htop.
  intros Hin. destruct (history_sound s l Hin) as (Hr & _). destruct (first_lock search_history s (lock_class l)) as [l'|] eqn:E; [|by apply first_lock_None with (l := l) in E].
  exists l'. split; [apply (elem_of_sorted_output top Htop); exists s, (lock_class l); split; [by apply reacht_range|done]|]. apply first_lock_Some in E as [Hin' Ec]. split; [|done]. destruct (history_sound s l' Hin') as (_ & _ & ev & -> & _). apply lock_with_pos.
Qed.

Lemma output_unique l l' : l ∈ found -> l' ∈ found -> lock_pos l = lock_pos l' -> lock_class l = lock_class l' -> l = l'.
Proof using Hh Hb Ht Htop. intros [_ H]%output_sound [_ H']%output_sound Ep Ec. rewrite Ep, Ec, H' in H. by injection H. Qed.
End Template.

(** ** Built-in rules *)

Lemma builtin_downward rule profile piece : builtin_kick_profile rule = Ok profile -> source_downward piece (supports_180 profile) profile <= 3.
Proof.
  intros H. assert (Forall (fun piece => source_downward piece (supports_180 profile) profile <= 3) STANDARD_TETROMINOES) as Hall by (destruct rule; try discriminate H; injection H as <-; decided).
  rewrite Forall_forall in Hall. apply Hall. destruct piece; set_solver.
Qed.

Section Builtin.
Context (height : Z) (board : ForwardBoard) (piece : PieceKind) (rule : RuleProfileId) (profile : KickTableProfile) (Hh : 0 <= height <= 25) (Hp : builtin_kick_profile rule = Ok profile).

Local Notation down := (source_downward piece (supports_180 profile) profile).
Local Notation top := (height + source_downward piece (supports_180 profile) profile).
Local Notation free := (reach height board piece profile None).
Local Notation bounded := (reach height board piece profile (Some top)).

Lemma reach_below_ceiling s : bounded s <-> free s /\ st_y s <= top.
Proof using Hp. apply reach_ceiling; [apply source_downward_nonneg|]. intros r slot Hslot. by apply (builtin_kick_rows rule). Qed.

Lemma lockable_reach s : inside_field height piece s = true -> bounded s <-> free s.
Proof using Hh Hp.
  intros Hin. rewrite reach_below_ceiling. split; [tauto|]. intros H. split; [done|]. pose proof (reach_fits _ _ _ _ _ _ H) as Hf. pose proof (inside_below height piece s (fits_on_board _ _ _ _ Hf) Hin). pose proof (source_downward_nonneg piece profile). lia.
Qed.

Lemma arrives_free s ev : inside_field height piece s = true -> piece_fits height board piece s = true -> arrives height board piece profile (Some top) s ev <-> arrives height board piece profile None s ev.
Proof using Hh Hp.
  intros Hin Hf. pose proof (source_downward_nonneg piece profile) as Hd. pose proof (inside_below height piece s (fits_on_board _ _ _ _ Hf) Hin) as Hy.
  assert (forall r slot, 0 <= slot < 3 -> kick_rows_ok (kick_slack piece (slot_rotation r slot)) down (kick_rows piece r (slot_rotation r slot) (slot_offsets piece profile (mkState r 0 0) slot (slot_rotation r slot))) = true) as Hrows by (intros; by apply (builtin_kick_rows rule)).
  destruct ev as [|from request k dx dy px py]; cbn [arrives].
  - split; intros (s0 & Hr & Hsh); exists s0; (split; [|done]); [by apply reach_below_ceiling|]. apply reach_below_ceiling. split; [done|]. apply shift_y in Hsh. lia.
  - split; intros (slot & Hslot & -> & Hr & Et); exists slot; (split; [done|]); (split; [done|]).
    + split; [by apply reach_below_ceiling in Hr as [? _]|]. by apply (kick_into_field _ _ _ _ _ Hd Hrows).
    + split; [|by apply (kick_into_field _ _ _ _ _ Hd Hrows)]. apply reach_below_ceiling. split; [done|]. by apply (kick_source_low height board piece profile down Hd Hrows (mkState from px py) slot s k (dx, dy)).
Qed.
End Builtin.
