(* ===== verification/Placements.v ===== *)
(** * The placements a workspace finds

    [ReachabilityWorkspace::reachable_locks] against the rules of [Reach]: it
    never panics, finds exactly the positions the rules reach in which the
    piece rests on something, gives evidence that is true of the rules, and
    its result does not depend on the searches made before. *)

From Stdlib Require Import ZArith Lia.
From stdpp Require Import prelude strings sorting.
From S2P Require Import Prelude Words Pieces Kicks PcBoard ForwardBoard Reachability ReachTemplate ReachSearch ReachLocks Reach.

Local Open Scope Z_scope.

(** What a workspace keeps between searches: the templates it stores are the
    compiled ones, and no mark of the scratch is newer than its generation. *)
Record workspace_ok (w : ReachabilityWorkspace) : Prop := {
  wo_height : 0 <= ws_height w <= 25;
  wo_rule : exists profile, builtin_kick_profile (rule_profile w) = Ok profile;
  wo_templates : length (templates w) = 7%nat;
  wo_compiled : forall piece t, templates w !! piece_index piece = Some (Some t) -> template_compile (ws_height w) piece (rule_profile w) = Ok (Ok t);
  wo_scratch : scratch_inv (scratch w);
  wo_presence : length (presence_by_rotation_x_class (locks w)) = 120%nat
}.

(** The locks a search must find. *)
Definition expected_locks (height : Z) (rule : RuleProfileId) (board : ForwardBoard) (piece : PieceKind) (retain measure : bool) : list ReachableLock :=
  match builtin_kick_profile rule, template_compile height piece rule with
  | Ok profile, Ok (Ok t) => sorted_output (ceiling t) (search_history height board piece profile t retain measure)
  | _, _ => []
  end.

Lemma piece_index_bound p : (piece_index p < 7)%nat.
Proof. destruct p; cbn; lia. Qed.

Lemma new_workspace_ok height rule w : 0 <= height <= 25 -> ReachabilityWorkspace_new height rule = Ok w -> workspace_ok w /\ ws_height w = height /\ rule_profile w = rule.
Proof.
  intros Hh. unfold ReachabilityWorkspace_new. destruct (builtin_kick_profile rule) as [profile|] eqn:E; [|done]. cbn [rbind]. intros [= <-]. split; [|done]. split; cbn [ws_height rule_profile templates scratch locks]; try done.
  - by exists profile.
  - intros piece t Hl. by apply (list_elem_of_lookup_2 (replicate 7 None)), elem_of_replicate in Hl as [[=] _].
Qed.

(** A search runs to its end and leaves a workspace as good as before. *)
Lemma reachable_locks_run w board piece retain measure : workspace_ok w -> fb_ok board ->
  exists w', reachable_locks w board piece retain measure = Ok (w', expected_locks (ws_height w) (rule_profile w) board piece retain measure) /\
    workspace_ok w' /\ ws_height w' = ws_height w /\ rule_profile w' = rule_profile w.
Proof.
  intros [Hh [profile Hp] Hlen Hcomp Hsc Hpr] Hb. destruct (template_compile_spec _ piece _ _ Hh Hp) as (t & Et & Ht). unfold expected_locks, reachable_locks. rewrite Hp, Et. cbn zeta. unfold vec_at. rewrite Nat2Z.id.
  pose proof (piece_index_bound piece) as Hi. destruct (lookup_lt_is_Some_2 (templates w) (piece_index piece)) as [stored Hst]; [lia|]. rewrite Hst. cbn [expect_some rbind].
  assert ((match stored with Some t => Ok t | None => let? compiled := expect (Ok (E := string) (Ok t)) in compiled end) = Ok t) as Hstored.
  { destruct stored as [t'|]; [|done]. apply Hcomp in Hst. rewrite Et in Hst. by injection Hst as <-. }
  rewrite Hstored. cbn [rbind]. rewrite vec_set_Ok by lia. cbn [rbind]. rewrite Nat2Z.id. pose proof (builtin_downward _ _ piece Hp). destruct (tf_ceiling _ _ _ _ Ht) as [_ Ec].
  destruct (search_locks_spec _ board piece profile t Hh Hb Ht retain measure (scratch w) (locks w) Hsc Hpr ltac:(lia)) as (sc & l & -> & Hsc' & Hpr'). cbn [rbind]. eexists. split; [done|]. split; [|done].
  split; cbn [ws_height rule_profile templates scratch locks]; try done; [by exists profile|by rewrite length_insert|].
  intros p t' Hl. destruct (decide (p = piece)) as [->|Hne]; [rewrite list_lookup_insert_eq in Hl by lia; by injection Hl as <-|]. rewrite list_lookup_insert_ne in Hl by (intros E; apply Hne; by destruct p, piece). by apply Hcomp.
Qed.

Section Expected.
Context (height : Z) (rule : RuleProfileId) (profile : KickTableProfile) (board : ForwardBoard) (piece : PieceKind) (retain measure : bool).
Context (Hh : 0 <= height <= 25) (Hp : builtin_kick_profile rule = Ok profile) (Hb : fb_ok board).

Local Notation found := (expected_locks height rule board piece retain measure).
Local Notation free := (reach height board piece profile None).
Local Notation comes := (arrives height board piece profile None).

(** A lock found, in terms of the rules alone. *)
Definition true_lock (l : ReachableLock) : Prop :=
  free (lock_pos l) /\ lockable height board piece (lock_pos l) = true /\ comes (lock_pos l) (lock_evidence l) /\
  (forall i, fb_bit (lock_mask l) i = takes_cell height piece (lock_pos l) i) /\ lock_immobile l = measure && immobile_at height board piece (lock_pos l) /\
  (retain = false -> lock_evidence l <> NoRotation -> ~ comes (lock_pos l) NoRotation).

Lemma expected_template : exists t, template_for height piece profile t /\ 0 <= ceiling t < 64 /\ ceiling t = height + source_downward piece (supports_180 profile) profile /\
  found = sorted_output (ceiling t) (search_history height board piece profile t retain measure).
Proof using Hh Hp.
  destruct (template_compile_spec _ piece _ _ Hh Hp) as (t & Et & Ht). exists t. split; [done|]. unfold expected_locks. rewrite Hp, Et. destruct (tf_ceiling _ _ _ _ Ht) as [H1 H2]. pose proof (builtin_downward _ _ piece Hp). split; [lia|done].
Qed.

Lemma expected_sound l : l ∈ found -> true_lock l.
Proof using Hh Hp Hb.
  destruct expected_template as (t & Ht & Htop & Etop & ->). intros [Hin _]%(output_sound _ _ _ _ _ Hh Hb Ht _ _ Htop). destruct (history_sound _ _ _ _ _ Hh Hb Ht _ _ _ _ Hin) as (Hr & Hl & ev & El & Ha & Hpri). rewrite Etop in Hr, Ha, Hpri.
  set (s := lock_pos l) in *. pose proof (lockable_inside _ _ _ s Hl) as Hins. pose proof (reach_fits _ _ _ _ _ _ Hr) as Hf. assert (on_grid (ceiling t) s) as Hs by (rewrite Etop; apply (reach_under height board piece profile); [pose proof (source_downward_nonneg piece profile); lia|done]).
  split; [by apply (lockable_reach height board piece rule profile Hh Hp)|]. split; [done|]. rewrite El at 1 2. cbn [lock_with lock_evidence]. split; [by apply (arrives_free height board piece rule profile Hh Hp)|].
  split; [|split; [by rewrite El|]].
  - destruct (tf_masks _ _ _ _ Ht s Hs) as (m & Em & _ & Hbits). intros i. rewrite El. cbn [lock_with lock_mask]. unfold mask_of. rewrite (list_lookup_total_correct _ _ _ Em), Hbits. by rewrite (fits_on_board _ _ _ _ Hf).
  - intros Hret Hne Hc. apply Hpri; [done|by rewrite El in Hne|]. by apply (arrives_free height board piece rule profile Hh Hp).
Qed.

Lemma expected_complete s : free s -> lockable height board piece s = true -> exists l, l ∈ found /\ lock_pos l = s.
Proof using Hh Hp Hb.
  destruct expected_template as (t & Ht & Htop & Etop & ->). intros Hr Hl. apply (lockable_reach height board piece rule profile Hh Hp) in Hr; [|by apply lockable_inside in Hl]. rewrite <- Etop in Hr.
  destruct (history_complete _ _ _ _ _ Hh Hb Ht retain measure s Hr Hl) as (ev & Hin). destruct (output_complete _ _ _ _ _ Hh Hb Ht _ _ Htop _ _ Hin) as (l & ? & ? & _). by exists l.
Qed.

Lemma expected_class s ev : retain = true \/ ev = NoRotation -> piece_fits height board piece s = true -> lockable height board piece s = true -> comes s ev -> exists l, l ∈ found /\ lock_pos l = s /\ lock_class l = scoring_class ev.
Proof using Hh Hp Hb.
  destruct expected_template as (t & Ht & Htop & Etop & ->). intros Hmode Hf Hl Hc. pose proof (lockable_inside _ _ _ s Hl) as Hins.
  apply (arrives_free height board piece rule profile Hh Hp) in Hc; [|done|done]. rewrite <- Etop in Hc.
  assert (reach height board piece profile (Some (ceiling t)) s) as Hr.
  { destruct ev as [|from request k dx dy px py]; [destruct Hc as (s0 & Hr0 & Hsh); by apply (reach_shift _ _ _ _ _ s0)|]. destruct Hc as (slot & Hslot & _ & Hr0 & Et). by apply (reach_kick _ _ _ _ _ (mkState from px py) slot s k (dx, dy)). }
  assert ((s, lock_with height board piece t measure s ev) ∈ search_history height board piece profile t retain measure) as Hin.
  { destruct (decide (ev = NoRotation)) as [->|Hne]; [by apply (history_moved _ _ _ _ _ Hh Hb Ht)|]. destruct Hmode as [Hret|]; [|done]. apply (history_turned _ _ _ _ _ Hh Hb Ht); try done. by apply (reacht_range height board piece profile t Hh Ht). }
  destruct (output_complete _ _ _ _ _ Hh Hb Ht _ _ Htop _ _ Hin) as (l & ? & ? & ?). by exists l.
Qed.

Lemma expected_unique l l' : l ∈ found -> l' ∈ found -> lock_pos l = lock_pos l' -> retain = false \/ lock_class l = lock_class l' -> l = l'.
Proof using Hh Hp Hb.
  destruct expected_template as (t & Ht & Htop & Etop & ->). intros H H' Ep [Hret|Ec]; [|by apply (output_unique _ _ _ _ _ Hh Hb Ht retain measure Htop)].
  apply (output_sound _ _ _ _ _ Hh Hb Ht _ _ Htop) in H as [H _], H' as [H' _]. rewrite <- Ep in H'. by apply (history_single _ _ _ _ _ Hh Hb Ht retain measure (lock_pos l)).
Qed.
End Expected.

(** C2: A search of a workspace never panics, whatever was searched before.
    It finds exactly the positions the rules reach (entering above the field,
    moving by one cell, turning into the first kick that fits, with no ceiling)
    in which the piece rests inside the field; each lock holds the cells of
    its position and, when asked, whether the piece can move there; and the
    workspace it leaves is good for the next search. *)
Theorem reachable_locks_correct w profile board piece retain measure : workspace_ok w -> builtin_kick_profile (rule_profile w) = Ok profile -> fb_ok board ->
  exists w' output, reachable_locks w board piece retain measure = Ok (w', output) /\
    workspace_ok w' /\ ws_height w' = ws_height w /\ rule_profile w' = rule_profile w /\
    (forall s, (exists l, l ∈ output /\ lock_pos l = s) <-> reach (ws_height w) board piece profile None s /\ lockable (ws_height w) board piece s = true) /\
    Forall (fun l => (forall i, fb_bit (lock_mask l) i = takes_cell (ws_height w) piece (lock_pos l) i) /\ lock_immobile l = measure && immobile_at (ws_height w) board piece (lock_pos l)) output.
Proof.
  intros Hw Hp Hb. destruct (reachable_locks_run w board piece retain measure Hw Hb) as (w' & E & Hw' & Eh & Er). exists w', (expected_locks (ws_height w) (rule_profile w) board piece retain measure).
  pose proof (expected_sound _ _ _ _ piece retain measure (wo_height w Hw) Hp Hb) as Hsound. repeat (split; [done|]). split; [|apply Forall_forall; intros l Hl; by destruct (Hsound l Hl) as (_ & _ & _ & ? & ? & _)].
  intros s. split; [|intros [Hr Hl]; by apply (expected_complete _ _ profile _ _ _ _ (wo_height w Hw) Hp Hb)]. intros (l & Hl & <-). by destruct (Hsound l Hl) as (? & ? & _).
Qed.

(** An empty workspace for four rows under SRS. *)
Definition small_workspace : ReachabilityWorkspace := mkWorkspace (replicate 7 None) scratch_default locks_default [] Srs 4.

Lemma small_workspace_ok : workspace_ok small_workspace.
Proof. apply (new_workspace_ok 4 Srs small_workspace); [lia|reflexivity]. Qed.

(** Two columns of a field of four rows, filled but for a notch. *)
Definition notched_board : ForwardBoard := mkForward [Z.lor (Z.lor 1 (Z.shiftl 1 10)) (Z.lor (Z.shiftl 1 2) (Z.shiftl 1 20)); 0; 0; 0].

Lemma notched_board_ok : fb_ok notched_board.
Proof. by apply fb_of_words. Qed.

Lemma reachable_locks_correct_witness : exists w' output, reachable_locks small_workspace notched_board PT true true = Ok (w', output) /\
  workspace_ok w' /\ ws_height w' = 4 /\ rule_profile w' = Srs /\
  (forall s, (exists l, l ∈ output /\ lock_pos l = s) <-> reach 4 notched_board PT srs_profile None s /\ lockable 4 notched_board PT s = true) /\
  Forall (fun l => (forall i, fb_bit (lock_mask l) i = takes_cell 4 PT (lock_pos l) i) /\ lock_immobile l = true && immobile_at 4 notched_board PT (lock_pos l)) output.
Proof. exact (reachable_locks_correct small_workspace srs_profile notched_board PT true true small_workspace_ok eq_refl notched_board_ok). Defined.

(** C8: The evidence of a lock is true of the rules and complete: the
    position of a lock is reached by the last move its evidence tells of.
    When the rotations are retained there is a lock for every class of
    evidence the rules allow in a position, and one only; otherwise there is
    one lock per position, with rotation evidence only if no shift reaches
    it. *)
Theorem lock_evidence_correct w profile board piece retain measure w' output : workspace_ok w -> builtin_kick_profile (rule_profile w) = Ok profile -> fb_ok board ->
  reachable_locks w board piece retain measure = Ok (w', output) ->
  let comes := arrives (ws_height w) board piece profile None in
  (forall l, l ∈ output -> comes (lock_pos l) (lock_evidence l)) /\
  (forall l l', l ∈ output -> l' ∈ output -> lock_pos l = lock_pos l' -> retain = false \/ lock_class l = lock_class l' -> l = l') /\
  (retain = true -> forall s ev, piece_fits (ws_height w) board piece s = true -> lockable (ws_height w) board piece s = true -> comes s ev ->
    exists l, l ∈ output /\ lock_pos l = s /\ lock_class l = scoring_class ev) /\
  (retain = false -> forall l, l ∈ output -> lock_evidence l = NoRotation <-> comes (lock_pos l) NoRotation).
Proof.
  intros Hw Hp Hb E. cbn zeta. destruct (reachable_locks_run w board piece retain measure Hw Hb) as (w'' & E' & _). rewrite E in E'. injection E' as <- ->. pose proof (wo_height w Hw) as Hh.
  pose proof (expected_sound _ _ _ _ piece retain measure Hh Hp Hb) as Hsound. split; [intros l Hl; by destruct (Hsound l Hl) as (_ & _ & ? & _)|].
  split; [intros l l' Hl Hl'; by apply (expected_unique _ _ profile board piece retain measure Hh Hp Hb)|]. split; [intros Hret s ev Hf Hl Hc; apply (expected_class _ _ profile board piece retain measure Hh Hp Hb); (done || by left)|].
  intros Hret l Hl. destruct (Hsound l Hl) as (_ & _ & Hc & _ & _ & Hpri). split; [intros Ee; by rewrite Ee in Hc|]. intros Hn. destruct (decide (lock_evidence l = NoRotation)); [done|]. by destruct (Hpri Hret n).
Qed.

Lemma lock_evidence_correct_witness : exists w' output, reachable_locks small_workspace notched_board PT true false = Ok (w', output) /\
  Forall (fun l => arrives 4 notched_board PT srs_profile None (lock_pos l) (lock_evidence l)) output.
Proof.
  destruct (reachable_locks_run small_workspace notched_board PT true false small_workspace_ok notched_board_ok) as (w' & E & _).
  eexists w', _. split; [exact E|]. apply Forall_forall. exact (proj1 (lock_evidence_correct small_workspace srs_profile notched_board PT true false w' _ small_workspace_ok eq_refl notched_board_ok E)).
Defined.

(** The sky a template covers is high enough: the positions the rules
    reach under the ceiling of the template are the ones they reach at all,
    as far as these lie under the ceiling. *)
Theorem ceiling_is_high_enough rule profile height board piece s : 0 <= height <= 25 -> builtin_kick_profile rule = Ok profile ->
  let top := source_ceiling height piece (supports_180 profile) profile in
  reach height board piece profile (Some top) s <-> reach height board piece profile None s /\ st_y s <= top.
Proof.
  intros Hh Hp. cbn zeta. rewrite (source_ceiling_sum _ _ _ _ Hh Hp). by apply (reach_below_ceiling height board piece rule profile).
Qed.

Lemma ceiling_is_high_enough_witness : reach 4 notched_board PT srs_profile (Some (source_ceiling 4 PT (supports_180 srs_profile) srs_profile)) (mkState Zero 3 5).
Proof. apply (ceiling_is_high_enough Srs srs_profile 4 notched_board PT (mkState Zero 3 5)); [lia|reflexivity|]. split; [by apply reach_sky|]. by vm_compute. Defined.

(** A search does not depend on the ones before it: two workspaces of the
    same height and rule, whatever templates, marks and slots they hold, find
    the same locks in the same order. *)
Theorem searches_are_independent w1 w2 board piece retain measure : workspace_ok w1 -> workspace_ok w2 -> fb_ok board -> ws_height w1 = ws_height w2 -> rule_profile w1 = rule_profile w2 ->
  exists w1' w2' output, reachable_locks w1 board piece retain measure = Ok (w1', output) /\ reachable_locks w2 board piece retain measure = Ok (w2', output).
Proof.
  intros H1 H2 Hb Eh Er. destruct (reachable_locks_run w1 board piece retain measure H1 Hb) as (w1' & E1 & _). destruct (reachable_locks_run w2 board piece retain measure H2 Hb) as (w2' & E2 & _).
  rewrite Eh, Er in E1. by exists w1', w2', (expected_locks (ws_height w2) (rule_profile w2) board piece retain measure).
Qed.

(** A workspace whose generation counter is about to wrap. *)
Definition worn_workspace : ReachabilityWorkspace := mkWorkspace (replicate 7 None) (mkScratch [65535; 3] [65535; 1] [2; 65535] [None; None] [true; false] 65535 [1] []) locks_default [] Srs 4.

Lemma worn_workspace_ok : workspace_ok worn_workspace.
Proof.
  destruct small_workspace_ok as [A B C D _ F]. split; try done. split; [by split|]. repeat split; repeat constructor; cbn; lia.
Qed.

Lemma searches_are_independent_witness : exists w1' w2' output, reachable_locks small_workspace notched_board PT false false = Ok (w1', output) /\ reachable_locks worn_workspace notched_board PT false false = Ok (w2', output).
Proof. exact (searches_are_independent small_workspace worn_workspace notched_board PT false false small_workspace_ok worn_workspace_ok notched_board_ok eq_refl eq_refl). Defined.

(** ** Turns *)

(** Twice the point a piece turns about: the middle of its box. *)
Definition pivot (piece : PieceKind) (s : State) : Z * Z :=
  let c := normalized_rotation_center piece (st_rotation s) in
  let o := match piece with PI => (3, -1) | PO => (1, 1) | _ => (0, 0) end in
  (2 * (st_x s + fst c) + fst o, 2 * (st_y s + snd c) + snd o).

(** A cell turned clockwise (0), counter-clockwise (1) or by half (2) about a
    point given by its double. *)
Definition turn_cell (slot : Z) (p c : Z * Z) : Z * Z :=
  let dx := 2 * fst c - fst p in
  let dy := 2 * snd c - snd p in
  match slot with
  | 0 => ((fst p + dy) / 2, (snd p - dx) / 2)
  | 1 => ((fst p - dy) / 2, (snd p + dx) / 2)
  | _ => ((fst p - dx) / 2, (snd p - dy) / 2)
  end.

Definition shift_cell (d c : Z * Z) : Z * Z := (fst c + fst d, snd c + snd d).

Lemma piece_cells_shift piece r x y : piece_cells piece (mkState r x y) = shift_cell (x, y) <$> piece_shape piece r.
Proof. apply list_fmap_ext. intros i c _. unfold shift_cell. cbn. f_equal; lia. Qed.

Lemma turn_cell_shift slot p c x y : turn_cell slot (fst p + 2 * x, snd p + 2 * y) (shift_cell (x, y) c) = shift_cell (x, y) (turn_cell slot p c).
Proof.
  assert (forall a b k, a = b + k * 2 -> a / 2 = b / 2 + k) as Hdiv by (intros a b k ->; by apply Z.div_add).
  unfold turn_cell, shift_cell. cbn [fst snd]. destruct slot as [|[]|]; cbn [fst snd]; f_equal; apply Hdiv; lia.
Qed.

(** A turn at the origin without an offset. *)
Lemma turn_at_origin piece r slot : 0 <= slot < 3 ->
  let d := normalized_kick_delta piece r (slot_rotation r slot) 0 0 in
  shift_cell d <$> piece_shape piece (slot_rotation r slot) ≡ₚ turn_cell slot (pivot piece (mkState r 0 0)) <$> piece_shape piece r.
Proof.
  intros Hslot. cbn zeta. assert (Forall (fun piece => Forall (fun r => Forall (fun slot =>
    shift_cell (normalized_kick_delta piece r (slot_rotation r slot) 0 0) <$> piece_shape piece (slot_rotation r slot) ≡ₚ turn_cell slot (pivot piece (mkState r 0 0)) <$> piece_shape piece r)
    [0; 1; 2]) ALL_ROTATIONS) STANDARD_TETROMINOES) as Hall by decided.
  rewrite Forall_forall in Hall. specialize (Hall piece ltac:(destruct piece; set_solver)). rewrite Forall_forall in Hall. specialize (Hall r ltac:(destruct r; set_solver)). rewrite Forall_forall in Hall.
  apply Hall. assert (slot = 0 \/ slot = 1 \/ slot = 2) as [->|[->| ->]] by lia; set_solver.
Qed.

(** A kick turns the piece as a rigid body: the cells after it are the
    cells before it turned by the requested angle about the middle of the
    piece's box and then moved by the offset of the kick, although shapes are
    stored with their lower left corner at the origin. *)
Theorem kicks_turn_the_piece piece s slot offset : 0 <= slot < 3 ->
  piece_cells piece (kicked piece s (slot_rotation (st_rotation s) slot) offset) ≡ₚ (fun c => shift_cell offset (turn_cell slot (pivot piece s) c)) <$> piece_cells piece s.
Proof.
  intros Hslot. destruct s as [r x y], offset as [ox oy]. unfold kicked. cbn [st_rotation st_x st_y fst snd]. rewrite !piece_cells_shift.
  transitivity (shift_cell (x + ox, y + oy) <$> (shift_cell (normalized_kick_delta piece r (slot_rotation r slot) 0 0) <$> piece_shape piece (slot_rotation r slot))).
  - rewrite <- list_fmap_compose. apply Permutation_refl', list_fmap_ext. intros i c _. unfold shift_cell, compose, normalized_kick_delta.
    destruct (normalized_rotation_center piece r), (normalized_rotation_center piece (slot_rotation r slot)). cbn [fst snd]. f_equal; lia.
  - rewrite (turn_at_origin piece r slot Hslot), <- !list_fmap_compose. apply Permutation_refl', list_fmap_ext. intros i c _. unfold compose.
    replace (pivot piece (mkState r x y)) with (fst (pivot piece (mkState r 0 0)) + 2 * x, snd (pivot piece (mkState r 0 0)) + 2 * y) by (unfold pivot; cbn [st_x st_y st_rotation fst snd]; f_equal; lia).
    rewrite turn_cell_shift. unfold shift_cell. cbn [fst snd]. f_equal; lia.
Qed.

Lemma kicks_turn_the_piece_witness : piece_cells PI (kicked PI (mkState Zero 3 7) Right (1, -2)) ≡ₚ [(6, 4); (6, 5); (6, 6); (6, 3)].
Proof. etransitivity; [apply (kicks_turn_the_piece PI (mkState Zero 3 7) 0 (1, -2)); lia|]. decided. Defined.
