(* ===== verification/Finesse.v ===== *)
(** * Finesse: the fewest inputs that place a piece

    [clearra-finesse/src/lib.rs]: from its spawn a piece is moved by taps,
    auto-shift, rotations and soft drops and locked by a hard drop.  Breadth
    first searches over the poses of a piece find the least number of inputs
    for each of a list of lock poses, with or without a condition on the last
    input, and a shortest sequence of inputs for one of them.  The layouts a
    board is made from are those of [clearra-geometry/src/layout] and the
    spawn is the one of [clearra-rules/src/spawn].

    A closure that is called for each successor is the body of a fold over
    the list of successors.  Coordinates are [i16]; where the source checks
    an addition the model does. *)

From Stdlib Require Import ZArith Lia.
From stdpp Require Import prelude strings.
From S2P Require Import Prelude Words Board PcBoard Pieces Kicks Reachability.

Local Open Scope Z_scope.

(** [i16::checked_add] and [i16::saturating_add], on the exact sum. *)
Definition checked_i16 (v : Z) : option Z := if (-32768 <=? v) && (v <=? 32767) then Some v else None.

Definition saturating_i16 (v : Z) : Z := Z.max (-32768) (Z.min v 32767).

Definition UNREACHED : Z := umax 32.
Definition NO_TARGET : Z := umax 64.

(** ** Inputs, poses, targets *)

Inductive ClassicInputAction := TapLeft | TapRight | DasLeft | DasRight | RotateClockwise | RotateCounterClockwise | Rotate180 | SoftDrop | HardDrop.

#[export] Instance ClassicInputAction_eq_dec : EqDecision ClassicInputAction.
Proof. solve_decision. Defined.

Definition EXPANSION_ORDER : list ClassicInputAction :=
  [TapLeft; TapRight; DasLeft; DasRight; RotateClockwise; RotateCounterClockwise; Rotate180; SoftDrop].

Definition NON_ROTATION_EXPANSION_ORDER : list ClassicInputAction := [TapLeft; TapRight; DasLeft; DasRight; SoftDrop].

Definition rotation_target (a : ClassicInputAction) (from : RotationState) : option RotationState :=
  match a with
  | RotateClockwise => Some (clockwise from)
  | RotateCounterClockwise => Some (counter_clockwise from)
  | Rotate180 => Some (rotated_180 from)
  | _ => None
  end.

Record PiecePose := mkPose { pose_rotation : RotationState; pose_x : Z; pose_y : Z }.

#[export] Instance PiecePose_eq_dec : EqDecision PiecePose.
Proof. solve_decision. Defined.

Record FinesseTarget := mkTargetPose { target_pose : PiecePose }.

(** ** Boards *)

Inductive LayoutError := LayoutTooFewCells (area : Z) | LayoutTooManyCells (area : Z).

Record Board64Layout := mkLayout64 { layout64_size : BoardSize }.
Record Board128Layout := mkLayout128 { layout128_size : BoardSize }.
Record Board256Layout := mkLayout256 { layout256_size : BoardSize }.

Definition Board64Layout_new (size : BoardSize) : Result LayoutError Board64Layout :=
  let area := BoardSize_area size in
  if 64 <? area then Err (LayoutTooManyCells area) else Ok (mkLayout64 size).

Definition Board128Layout_new (size : BoardSize) : Result LayoutError Board128Layout :=
  let area := BoardSize_area size in
  if area <=? 64 then Err (LayoutTooFewCells area) else if 128 <? area then Err (LayoutTooManyCells area) else Ok (mkLayout128 size).

Definition Board256Layout_new (size : BoardSize) : Result LayoutError Board256Layout :=
  let area := BoardSize_area size in
  if area <=? 128 then Err (LayoutTooFewCells area) else if 256 <? area then Err (LayoutTooManyCells area) else Ok (mkLayout256 size).

Inductive FinesseError :=
| BoardTooLarge (area : Z)
| OccupiedOutsideLayout
| MissingStandardPiece (piece : PieceKind)
| NegativeSpawn (x y : Z)
| SpawnOutsideSearchSpace (pose : PiecePose)
| SpawnBlocked (pose : PiecePose)
| StateSpaceTooLarge
| CostOverflow
| TargetIndexOutOfBounds (index len : Z)
| TargetEvidenceLengthMismatch (targets evidence : Z)
| Cancelled.

(** A call fails with an error of the module or panics. *)
Inductive Failure := Fails (e : FinesseError) | Panics.

Definition unwrap {A} (o : option A) : Result Failure A := match o with Some a => Ok a | None => Err Panics end.

Definition fail_with {A} (o : option A) (e : FinesseError) : Result Failure A := match o with Some a => Ok a | None => Err (Fails e) end.

(** Indexing of vectors. *)
Definition get_at {A} (l : list A) (i : Z) : Result Failure A := unwrap (l !! Z.to_nat i).

Definition set_at {A} (l : list A) (i : Z) (v : A) : Result Failure (list A) :=
  if (Z.to_nat i <? length l)%nat then Ok (<[Z.to_nat i := v]> l) else Err Panics.

(** A board of at most 256 cells. *)
Record FinesseBoard := mkFinesseBoard { finesse_size : BoardSize; finesse_occupied : Board256Mask }.

Definition FinesseBoard_from_parts (size : BoardSize) (occupied : Board256Mask) : Result FinesseError FinesseBoard :=
  match Board256Mask_fits_cell_count occupied (wrap 16 (BoardSize_area size)) with
  | Err _ => Err (BoardTooLarge (BoardSize_area size))
  | Ok false => Err OccupiedOutsideLayout
  | Ok true => Ok (mkFinesseBoard size occupied)
  end.

Definition FinesseBoard_new (layout : Board64Layout) (occupied : Z) : Result FinesseError FinesseBoard :=
  FinesseBoard_from_parts (layout64_size layout) (mkBoard256Mask [occupied; 0; 0; 0]).

Definition FinesseBoard_from_board128 (layout : Board128Layout) (occupied : Z) : Result FinesseError FinesseBoard :=
  FinesseBoard_from_parts (layout128_size layout) (mkBoard256Mask [wrap 64 occupied; wrap 64 (Z.shiftr occupied 64); 0; 0]).

Definition FinesseBoard_from_board256 (layout : Board256Layout) (occupied : Board256Mask) : Result FinesseError FinesseBoard :=
  FinesseBoard_from_parts (layout256_size layout) occupied.

Definition FinesseBoard_from_standard_pc (board : StandardPcBoard) : Result Panic FinesseBoard :=
  let? size := expect (BoardSize_new STANDARD_PC_BOARD_WIDTH (pb_lines board)) in
  Ok (mkFinesseBoard size (mkBoard256Mask (StandardPcBoardMask_words (pb_occupied board)))).

Definition board_width (b : FinesseBoard) : Z := bs_width (finesse_size b).
Definition board_height (b : FinesseBoard) : Z := bs_height (finesse_size b).

Inductive SpawnProfileId := Standard10 | Arika | CustomSpawn.

Record SpawnProfile := mkSpawn { spawn_id : SpawnProfileId; spawn_x : Z; spawn_y : Z }.

Definition SpawnProfile_STANDARD_10 : SpawnProfile := mkSpawn Standard10 4 20.

(** A cell of a piece at [(x, y)] lies between the walls, above the floor, and
    is free.  A board has at most 256 cells, so the conversions of its size
    and of the index of a cell do not fail. *)
Definition cell_free (b : FinesseBoard) (x y : Z) (c : Z * Z) : bool :=
  match checked_i16 (x + fst c), checked_i16 (y + snd c) with
  | Some x, Some y =>
      if (x <? 0) || (board_width b <=? x) || (y <? 0) then false
      else if board_height b <=? y then true
      else negb (Board256Mask_contains_index (finesse_occupied b) (wrap 16 (y * board_width b + x)))
  | _, _ => false
  end.

Definition piece_can_spawn (b : FinesseBoard) (piece : PieceKind) (spawn : SpawnProfile) : bool :=
  match registry_get STANDARD_TETROMINO_DEFINITIONS piece with
  | None => false
  | Some d => forallb (cell_free b (spawn_x spawn) (spawn_y spawn)) (shape d Zero)
  end.

(** ** Evidence and results *)

Inductive TerminalEvidenceClass := EvidenceNoRotation | EvidenceRotation | EvidenceFinalKickOverride.

#[export] Instance TerminalEvidenceClass_eq_dec : EqDecision TerminalEvidenceClass.
Proof. solve_decision. Defined.

Definition evidence_index (c : TerminalEvidenceClass) : Z :=
  match c with EvidenceNoRotation => 0 | EvidenceRotation => 1 | EvidenceFinalKickOverride => 2 end.

Record RotationArrival := mkArrival {
  arrival_from : RotationState;
  arrival_to : RotationState;
  arrival_request : ClassicInputAction;
  arrival_kick_index : Z;
  arrival_kick_dx : Z;
  arrival_kick_dy : Z;
  arrival_predecessor : PiecePose
}.

#[export] Instance RotationArrival_eq_dec : EqDecision RotationArrival.
Proof. solve_decision. Defined.

(** [TerminalEvidenceLabel::Rotation] has the fields of an arrival. *)
Inductive TerminalEvidenceLabel := LabelNoRotation | LabelRotation (arrival : RotationArrival).

#[export] Instance TerminalEvidenceLabel_eq_dec : EqDecision TerminalEvidenceLabel.
Proof. solve_decision. Defined.

Definition label_class (l : TerminalEvidenceLabel) : TerminalEvidenceClass :=
  match l with
  | LabelNoRotation => EvidenceNoRotation
  | LabelRotation a =>
      match arrival_request a with
      | RotateClockwise | RotateCounterClockwise => if arrival_kick_index a =? 4 then EvidenceFinalKickOverride else EvidenceRotation
      | _ => EvidenceRotation
      end
  end.

Definition arrival_label (a : RotationArrival) : TerminalEvidenceLabel := LabelRotation a.

Definition arrival_class (a : RotationArrival) : TerminalEvidenceClass := label_class (arrival_label a).

(** [map_or(NoRotation, RotationArrival::label)]. *)
Definition label_of (r : option RotationArrival) : TerminalEvidenceLabel := match r with Some a => arrival_label a | None => LabelNoRotation end.

Record LabeledFinesseCost := mkLabeledCost { labeled_cost : Z; labeled_evidence : TerminalEvidenceLabel }.

Record FinesseWitness := mkWitness {
  witness_target : FinesseTarget;
  witness_cost : Z;
  witness_actions : list ClassicInputAction;
  witness_evidence : TerminalEvidenceLabel
}.

Record Successor := mkSuccessor { successor_pose : PiecePose; successor_rotation : option RotationArrival }.

Record Parent := mkParent { parent_previous : Z; parent_action : ClassicInputAction; parent_rotation : option RotationArrival }.

Record LabeledState := mkLabeled { labeled_pose : PiecePose; labeled_class : TerminalEvidenceClass }.

#[export] Instance LabeledState_eq_dec : EqDecision LabeledState.
Proof. solve_decision. Defined.

Record FrozenFinesseQuery := mkQuery { query_board : FinesseBoard; query_piece : PieceKind; query_spawn : SpawnProfile; query_kicks : KickTableProfile; query_targets : list FinesseTarget }.

(** ** The search kernel *)

Record SearchKernel := mkKernel {
  k_board : FinesseBoard;
  k_piece : PieceKind;
  k_kicks : KickTableProfile;
  k_shapes : list (list (Z * Z));
  k_spawn : PiecePose;
  k_ceiling : Z;
  k_interaction_ceiling : Z;
  k_state_count : Z
}.

(** The vertical displacements of the kicks of a piece. *)
Definition kick_heights (piece : PieceKind) (profile : KickTableProfile) : list Z :=
  filter (fun e => tr_piece (entry_transition e) = piece) (entries profile) ≫=
    (fun e => (fun o => snd (normalized_kick_delta piece (tr_from (entry_transition e)) (tr_to (entry_transition e)) (fst o) (snd o))) <$> entry_offsets e).

(** [iter.max().unwrap_or(0)] of numbers that are not negative. *)
Definition max_or_zero (l : list Z) : Z := foldl Z.max 0 l.

Definition finesse_source_ceiling (height : Z) (piece : PieceKind) (spawn_y : Z) (profile : KickTableProfile) : Z :=
  let vertical_margin := max_or_zero (Z.abs <$> kick_heights piece profile) in
  saturating_i16 (saturating_i16 (Z.max spawn_y height + vertical_margin) + 4).

(** The row above the highest filled cell. *)
Definition occupied_height (b : FinesseBoard) : Z :=
  default 0 (head (omap (fun '(word_index, word) => if word =? 0 then None else Some ((Z.of_nat word_index * 64 + Z.log2 word) / board_width b + 1))
    (reverse (imap (fun i w => (i, w)) (b256_words (finesse_occupied b)))))).

Definition soft_drop_interaction_ceiling (b : FinesseBoard) (piece : PieceKind) (profile : KickTableProfile) : Z :=
  let downward_kick_margin := max_or_zero (Z.abs <$> filter (fun dy => dy < 0) (kick_heights piece profile)) in
  saturating_i16 (occupied_height b + downward_kick_margin).

Definition kernel_shape (k : SearchKernel) (r : RotationState) : list (Z * Z) := k_shapes k !!! Z.to_nat (quarter_turns r).

Definition kernel_state_index (k : SearchKernel) (p : PiecePose) : option Z :=
  let width := board_width (k_board k) in
  if (pose_x p <? 0) || (width <=? pose_x p) || (pose_y p <? 0) || (k_ceiling k <? pose_y p) then None
  else Some ((quarter_turns (pose_rotation p) * (wrap 16 (k_ceiling k) + 1) + pose_y p) * width + pose_x p).

Definition labeled_state_index (k : SearchKernel) (s : LabeledState) : option Z :=
  index ← kernel_state_index k (labeled_pose s);
  product ← checked_mul 64 index 3;
  checked_add 64 product (evidence_index (labeled_class s)).

Definition kernel_placeable (k : SearchKernel) (p : PiecePose) : bool :=
  match kernel_state_index k p with
  | None => false
  | Some _ => forallb (cell_free (k_board k) (pose_x p) (pose_y p)) (kernel_shape k (pose_rotation p))
  end.

Definition cell_inside (b : FinesseBoard) (x y : Z) (c : Z * Z) : bool :=
  match checked_i16 (x + fst c), checked_i16 (y + snd c) with
  | Some x, Some y => (0 <=? x) && (x <? board_width b) && (0 <=? y) && (y <? board_height b)
  | _, _ => false
  end.

Definition inside_layout (k : SearchKernel) (p : PiecePose) : bool :=
  forallb (cell_inside (k_board k) (pose_x p) (pose_y p)) (kernel_shape k (pose_rotation p)).

Definition kernel_grounded (k : SearchKernel) (p : PiecePose) : bool :=
  if negb (kernel_placeable k p) then false
  else (pose_y p =? 0) || negb (kernel_placeable k (mkPose (pose_rotation p) (pose_x p) (saturating_i16 (pose_y p - 1)))).

(** The loop of [hard_drop]; a pose is placeable only at or above the floor. *)
Fixpoint drop_loop (fuel : nat) (k : SearchKernel) (lock : PiecePose) : PiecePose :=
  match fuel with
  | O => lock
  | S fuel =>
      match checked_i16 (pose_y lock - 1) with
      | None => lock
      | Some y =>
          let below := mkPose (pose_rotation lock) (pose_x lock) y in
          if kernel_placeable k below then drop_loop fuel k below else lock
      end
  end.

Definition hard_drop (k : SearchKernel) (source : PiecePose) : PiecePose := drop_loop (S (Z.to_nat (pose_y source))) k source.

Definition translation (k : SearchKernel) (source : PiecePose) (dx dy : Z) : option Successor :=
  x ← checked_i16 (pose_x source + dx);
  y ← checked_i16 (pose_y source + dy);
  let target := mkPose (pose_rotation source) x y in
  if kernel_placeable k target then Some (mkSuccessor target None) else None.

(** The loop of [das]: where the piece comes to rest; [None] when the column
    overflows. *)
Fixpoint das_loop (fuel : nat) (k : SearchKernel) (dx : Z) (target : PiecePose) : option PiecePose :=
  match fuel with
  | O => None
  | S fuel =>
      x ← checked_i16 (pose_x target + dx);
      let candidate := mkPose (pose_rotation target) x (pose_y target) in
      if kernel_placeable k candidate then das_loop fuel k dx candidate else Some target
  end.

Definition das (k : SearchKernel) (source : PiecePose) (dx : Z) : option Successor :=
  target ← das_loop (S (Z.to_nat (board_width (k_board k)))) k dx source;
  if bool_decide (target = source) then None else Some (mkSuccessor target None).

Fixpoint rotation_loop (k : SearchKernel) (source : PiecePose) (action : ClassicInputAction) (to : RotationState) (index : Z) (offsets : list (Z * Z)) : option Successor :=
  match offsets with
  | [] => None
  | (ox, oy) :: offsets =>
      let '(dx, dy) := normalized_kick_delta (k_piece k) (pose_rotation source) to ox oy in
      x ← checked_i16 (pose_x source + dx);
      y ← checked_i16 (pose_y source + dy);
      let target := mkPose to x y in
      if kernel_placeable k target
      then Some (mkSuccessor target (Some (mkArrival (pose_rotation source) to action (default 255 (try_from 8 index)) dx dy source)))
      else rotation_loop k source action to (index + 1) offsets
  end.

Definition kernel_rotation (k : SearchKernel) (source : PiecePose) (action : ClassicInputAction) : option Successor :=
  to ← rotation_target action (pose_rotation source);
  offsets ← sequence_for (k_kicks k) (mkTransition (k_piece k) (pose_rotation source) to);
  rotation_loop k source action to 0 offsets.

Definition single_successor (k : SearchKernel) (source : PiecePose) (action : ClassicInputAction) : option Successor :=
  match action with
  | TapLeft => translation k source (-1) 0
  | TapRight => translation k source 1 0
  | DasLeft => das k source (-1)
  | DasRight => das k source 1
  | RotateClockwise | RotateCounterClockwise | Rotate180 => kernel_rotation k source action
  | SoftDrop | HardDrop => None
  end.

(** The rows a soft drop may stop at. *)
Fixpoint soft_drop_loop (fuel : nat) (k : SearchKernel) (current : PiecePose) : list Successor :=
  match fuel with
  | O => []
  | S fuel =>
      match translation k current 0 (-1) with
      | None => []
      | Some successor =>
          (if pose_y (successor_pose successor) <=? k_interaction_ceiling k then [successor] else []) ++ soft_drop_loop fuel k (successor_pose successor)
      end
  end.

(** [for_each_successor]: the successors in the order of the visits. *)
Definition successors (k : SearchKernel) (source : PiecePose) (action : ClassicInputAction) : list Successor :=
  match action with
  | SoftDrop => soft_drop_loop (S (Z.to_nat (pose_y source))) k source
  | _ => option_list (single_successor k source action)
  end.

Definition SearchKernel_new (q : FrozenFinesseQuery) : Result Failure SearchKernel :=
  let? definition := fail_with (registry_get STANDARD_TETROMINO_DEFINITIONS (query_piece q)) (MissingStandardPiece (query_piece q)) in
  let spawn := mkPose Zero (spawn_x (query_spawn q)) (spawn_y (query_spawn q)) in
  if (pose_x spawn <? 0) || (pose_y spawn <? 0) then Err (Fails (NegativeSpawn (pose_x spawn) (pose_y spawn)))
  else
    let ceiling := finesse_source_ceiling (board_height (query_board q)) (query_piece q) (pose_y spawn) (query_kicks q) in
    let interaction := Z.min (soft_drop_interaction_ceiling (query_board q) (query_piece q) (query_kicks q)) ceiling in
    let? state_count := fail_with (rows ← checked_mul 64 4 (saturating_add 64 (wrap 16 ceiling) 1); checked_mul 64 rows (board_width (query_board q))) StateSpaceTooLarge in
    let k := mkKernel (query_board q) (query_piece q) (query_kicks q) (def_rotations definition) spawn ceiling interaction state_count in
    match kernel_state_index k spawn with
    | None => Err (Fails (SpawnOutsideSearchSpace spawn))
    | Some _ => if kernel_placeable k spawn then Ok k else Err (Fails (SpawnBlocked spawn))
    end.

(** A blocked spawn is no error: no target can be reached. *)
Definition search_kernel (q : FrozenFinesseQuery) : Result Failure (option SearchKernel) :=
  match SearchKernel_new q with
  | Ok k => Ok (Some k)
  | Err (Fails (SpawnBlocked _)) => Ok None
  | Err e => Err e
  end.

(** ** Targets *)

(** Chains of the targets of each pose: the first target of a pose and the
    next one after each target. *)
Definition compile_targets (k : SearchKernel) (targets : list FinesseTarget) : Result Failure (list Z * list Z * Z) :=
  try_fold (fun '(heads, next, count) '(target_index, target) =>
      match kernel_state_index k (target_pose target) with
      | None => Ok (heads, next, count)
      | Some state_index =>
          if negb (inside_layout k (target_pose target)) || negb (kernel_grounded k (target_pose target)) then Ok (heads, next, count)
          else
            let? head := get_at heads state_index in
            let? next := set_at next target_index head in
            let? heads := set_at heads state_index target_index in
            Ok (heads, next, count + 1)
      end)
    (replicate (Z.to_nat (k_state_count k)) NO_TARGET, replicate (length targets) NO_TARGET, 0)
    (reverse (imap (fun i t => (Z.of_nat i, t)) targets)).

(** [while target != NO_TARGET { body; target = next[target]; }]. *)
Fixpoint for_targets {A} (fuel : nat) (next : list Z) (target : Z) (body : A -> Z -> Result Failure A) (acc : A) : Result Failure A :=
  if target =? NO_TARGET then Ok acc
  else
    match fuel with
    | O => Err Panics
    | S fuel =>
        let? acc := body acc target in
        let? following := get_at next target in
        for_targets fuel next following body acc
    end.

(** ** The searches *)

Definition add_cost (distance n : Z) : Result Failure Z := fail_with (checked_add 32 distance n) CostOverflow.

(** The visit of a successor: first enqueue wins. *)
Definition visit (k : SearchKernel) (next_distance : Z) (st : list Z * list PiecePose) (s : Successor) : Result Failure (list Z * list PiecePose) :=
  let '(distance, queue) := st in
  let? index := unwrap (kernel_state_index k (successor_pose s)) in
  let? d := get_at distance index in
  if d =? UNREACHED then
    let? distance := set_at distance index next_distance in
    Ok (distance, queue ++ [successor_pose s])
  else Ok (distance, queue).

Definition expand (k : SearchKernel) (source : PiecePose) (next_distance : Z) (st : list Z * list PiecePose) : Result Failure (list Z * list PiecePose) :=
  try_fold (fun st action => try_fold (visit k next_distance) st (successors k source action)) st EXPANSION_ORDER.

Definition start_search (k : SearchKernel) : Result Failure (list Z * list PiecePose) :=
  let? spawn_index := unwrap (kernel_state_index k (k_spawn k)) in
  let? distance := set_at (replicate (Z.to_nat (k_state_count k)) UNREACHED) spawn_index 0 in
  Ok (distance, [k_spawn k]).

(** No pose enters a queue twice, so the number of states bounds the turns of
    every loop. *)
Definition search_fuel (k : SearchKernel) : nat := S (Z.to_nat (k_state_count k)).

(** [output[target] = Some(cost)] unless it is set. *)
Definition settle (cost : Z) (acc : list (option Z) * Z) (target : Z) : Result Failure (list (option Z) * Z) :=
  let '(output, remaining) := acc in
  let? slot := get_at output target in
  match slot with
  | Some _ => Ok (output, remaining)
  | None =>
      let? output := set_at output target (Some cost) in
      let? remaining := unwrap (checked_sub remaining 1) in
      Ok (output, remaining)
  end.

(** [while cursor < queue.len() && remaining != 0]. *)
Fixpoint costs_loop (fuel : nat) (k : SearchKernel) (heads next : list Z) (cursor : nat) (output : list (option Z)) (remaining : Z) (st : list Z * list PiecePose) : Result Failure (list (option Z)) :=
  let '(distance, queue) := st in
  match queue !! cursor with
  | None => Ok output
  | Some source =>
      if remaining =? 0 then Ok output
      else
        match fuel with
        | O => Err Panics
        | S fuel =>
            let? source_index := unwrap (kernel_state_index k source) in
            let lock := hard_drop k source in
            let? '(output, remaining) :=
              (if inside_layout k lock then
                 let? lock_index := unwrap (kernel_state_index k lock) in
                 let? target := get_at heads lock_index in
                 if target =? NO_TARGET then Ok (output, remaining)
                 else
                   let? d := get_at distance source_index in
                   let? cost := add_cost d 1 in
                   for_targets (length next) next target (settle cost) (output, remaining)
               else Ok (output, remaining)) in
            let? d := get_at distance source_index in
            let? next_distance := add_cost d 1 in
            let? st := expand k source next_distance (distance, queue) in
            costs_loop fuel k heads next (S cursor) output remaining st
        end
  end.

Definition kernel_costs (k : SearchKernel) (targets : list FinesseTarget) : Result Failure (list (option Z)) :=
  let output := replicate (length targets) None in
  match targets with
  | [] => Ok output
  | _ =>
      let? '(heads, next, remaining) := compile_targets k targets in
      if remaining =? 0 then Ok output
      else let? st := start_search k in costs_loop (search_fuel k) k heads next 0 output remaining st
  end.

(** [movement_distances]. *)
Fixpoint distances_loop (fuel : nat) (k : SearchKernel) (cursor : nat) (st : list Z * list PiecePose) : Result Failure (list Z * list PiecePose) :=
  let '(distance, queue) := st in
  match queue !! cursor with
  | None => Ok (distance, queue)
  | Some source =>
      match fuel with
      | O => Err Panics
      | S fuel =>
          let? source_index := unwrap (kernel_state_index k source) in
          let? d := get_at distance source_index in
          let? next_distance := add_cost d 1 in
          let? st := expand k source next_distance (distance, queue) in
          distances_loop fuel k (S cursor) st
      end
  end.

Definition movement_distances (k : SearchKernel) : Result Failure (list Z * list PiecePose) :=
  let? st := start_search k in distances_loop (search_fuel k) k 0 st.

(** [if output[target].is_none_or(|current| cost < current)]. *)
Definition improve (cost : Z) (output : list (option Z)) (target : Z) : Result Failure (list (option Z)) :=
  let? slot := get_at output target in
  match slot with
  | Some current => if cost <? current then set_at output target (Some cost) else Ok output
  | None => set_at output target (Some cost)
  end.

Definition is_no_rotation (e : option TerminalEvidenceLabel) : bool := bool_decide (e = Some LabelNoRotation).

(** The body of the loop over the queue in [costs_for_terminal_evidence]; the
    [continue] skips the successors too. *)
Definition evidence_source (k : SearchKernel) (heads next : list Z) (evidence : list (option TerminalEvidenceLabel)) (distance : list Z) (output : list (option Z)) (source : PiecePose) : Result Failure (list (option Z)) :=
  let? source_index := unwrap (kernel_state_index k source) in
  let lock := hard_drop k source in
  if negb (inside_layout k lock) then Ok output
  else
    let? lock_index := unwrap (kernel_state_index k lock) in
    let? d := get_at distance source_index in
    let? cost := add_cost d 1 in
    let? target := get_at heads lock_index in
    let? output := for_targets (length next) next target (fun output target =>
        let? wanted := get_at evidence target in
        if bool_decide (wanted = None) || negb (pose_y source =? pose_y lock) && is_no_rotation wanted then improve cost output target else Ok output) output in
    try_fold (fun output action =>
        let? cost := add_cost d 2 in
        try_fold (fun output s =>
            if negb (kernel_grounded k (successor_pose s)) then Ok output
            else
              let? index := unwrap (kernel_state_index k (successor_pose s)) in
              let? target := get_at heads index in
              for_targets (length next) next target (fun output target =>
                  let? wanted := get_at evidence target in
                  if is_no_rotation wanted then improve cost output target else Ok output) output)
          output (successors k source action))
      output NON_ROTATION_EXPANSION_ORDER.

(** The body of the loop over the targets that ask for a rotation. *)
Definition evidence_target (k : SearchKernel) (distance : list Z) (output : list (option Z)) (entry : Z * (FinesseTarget * option TerminalEvidenceLabel)) : Result Failure (list (option Z)) :=
  let '(index, (target, label)) := entry in
  match label with
  | Some (LabelRotation a) =>
      if negb (inside_layout k (target_pose target)) || negb (kernel_grounded k (target_pose target)) ||
         negb (bool_decide (pose_rotation (target_pose target) = arrival_to a)) || negb (bool_decide (pose_rotation (arrival_predecessor a) = arrival_from a))
      then Ok output
      else
        match single_successor k (arrival_predecessor a) (arrival_request a) with
        | None => Ok output
        | Some s =>
            if negb (bool_decide (successor_pose s = target_pose target)) || negb (bool_decide (arrival_label <$> successor_rotation s = Some (LabelRotation a))) then Ok output
            else
              match kernel_state_index k (arrival_predecessor a) with
              | None => Ok output
              | Some predecessor_index =>
                  let? predecessor_cost := get_at distance predecessor_index in
                  if predecessor_cost =? UNREACHED then Ok output
                  else let? cost := add_cost predecessor_cost 2 in set_at output index (Some cost)
              end
        end
  | _ => Ok output
  end.

Definition kernel_costs_for_terminal_evidence (k : SearchKernel) (targets : list FinesseTarget) (evidence : list (option TerminalEvidenceLabel)) : Result Failure (list (option Z)) :=
  let output := replicate (length targets) None in
  let? '(heads, next, mapped_targets) := compile_targets k targets in
  if mapped_targets =? 0 then Ok output
  else
    let? '(distance, queue) := movement_distances k in
    let? output := try_fold (evidence_source k heads next evidence distance) output queue in
    let? output :=
      (if kernel_grounded k (k_spawn k) then
         let? spawn_index := unwrap (kernel_state_index k (k_spawn k)) in
         let? target := get_at heads spawn_index in
         for_targets (length next) next target (fun output target =>
             let? wanted := get_at evidence target in
             if is_no_rotation wanted then set_at output target (Some 1) else Ok output) output
       else Ok output) in
    try_fold (evidence_target k distance) output (imap (fun i e => (Z.of_nat i, e)) (zip targets evidence)).

Definition kernel_cost_for_terminal_evidence (k : SearchKernel) (target : FinesseTarget) (evidence : TerminalEvidenceLabel) : Result Failure (option Z) :=
  let? costs := kernel_costs_for_terminal_evidence k [target] [Some evidence] in
  Ok (mjoin (costs !! 0%nat)).

(** ** Route labels: the search over poses and classes of evidence *)

Record LabelSearch := mkLabelSearch { ls_distance : list Z; ls_arrival : list (option RotationArrival); ls_queue : list LabeledState }.

Definition visit_labeled (k : SearchKernel) (next_distance : Z) (st : LabelSearch) (s : Successor) : Result Failure LabelSearch :=
  let class := match successor_rotation s with Some a => arrival_class a | None => EvidenceNoRotation end in
  let target := mkLabeled (successor_pose s) class in
  let? index := unwrap (labeled_state_index k target) in
  let? d := get_at (ls_distance st) index in
  if d =? UNREACHED then
    let? distance := set_at (ls_distance st) index next_distance in
    let? arrival := set_at (ls_arrival st) index (successor_rotation s) in
    Ok (mkLabelSearch distance arrival (ls_queue st ++ [target]))
  else Ok st.

Definition expand_labeled (k : SearchKernel) (source : PiecePose) (next_distance : Z) (st : LabelSearch) : Result Failure LabelSearch :=
  try_fold (fun st action => try_fold (visit_labeled k next_distance) st (successors k source action)) st EXPANSION_ORDER.

(** The labels of a target are an array with an entry for each class. *)
Definition settle_label (class : TerminalEvidenceClass) (cost : LabeledFinesseCost) (output : list (list (option LabeledFinesseCost))) (target : Z) : Result Failure (list (list (option LabeledFinesseCost))) :=
  let? labels := get_at output target in
  let? slot := get_at labels (evidence_index class) in
  match slot with
  | Some _ => Ok output
  | None => let? labels := set_at labels (evidence_index class) (Some cost) in set_at output target labels
  end.

(** The class and the evidence of locking a piece from a state. *)
Definition lock_label (st : LabelSearch) (source : LabeledState) (source_index : Z) (lock : PiecePose) : Result Failure (TerminalEvidenceClass * TerminalEvidenceLabel) :=
  if pose_y (labeled_pose source) =? pose_y lock then
    match labeled_class source with
    | EvidenceNoRotation => Ok (EvidenceNoRotation, LabelNoRotation)
    | class =>
        let? stored := get_at (ls_arrival st) source_index in
        let? a := unwrap stored in
        Ok (class, arrival_label a)
    end
  else Ok (EvidenceNoRotation, LabelNoRotation).

Fixpoint labels_loop (fuel : nat) (k : SearchKernel) (heads next : list Z) (cursor : nat) (output : list (list (option LabeledFinesseCost))) (st : LabelSearch) : Result Failure (list (list (option LabeledFinesseCost))) :=
  match ls_queue st !! cursor with
  | None => Ok output
  | Some source =>
      match fuel with
      | O => Err Panics
      | S fuel =>
          let? source_index := unwrap (labeled_state_index k source) in
          let lock := hard_drop k (labeled_pose source) in
          let? output :=
            (if inside_layout k lock then
               let? lock_index := unwrap (kernel_state_index k lock) in
               let? '(class, evidence) := lock_label st source source_index lock in
               let? d := get_at (ls_distance st) source_index in
               let? cost := add_cost d 1 in
               let? target := get_at heads lock_index in
               for_targets (length next) next target (settle_label class (mkLabeledCost cost evidence)) output
             else Ok output) in
          let? d := get_at (ls_distance st) source_index in
          let? next_distance := add_cost d 1 in
          let? st := expand_labeled k (labeled_pose source) next_distance st in
          labels_loop fuel k heads next (S cursor) output st
      end
  end.

Definition kernel_route_labels (k : SearchKernel) (targets : list FinesseTarget) : Result Failure (list (list (option LabeledFinesseCost))) :=
  let output := replicate (length targets) (replicate 3 None) in
  match targets with
  | [] => Ok output
  | _ =>
      let? '(heads, next, mapped_targets) := compile_targets k targets in
      if mapped_targets =? 0 then Ok output
      else
        let? product_count := fail_with (checked_mul 64 (k_state_count k) 3) StateSpaceTooLarge in
        let spawn := mkLabeled (k_spawn k) EvidenceNoRotation in
        let? spawn_index := unwrap (labeled_state_index k spawn) in
        let? distance := set_at (replicate (Z.to_nat product_count) UNREACHED) spawn_index 0 in
        labels_loop (S (Z.to_nat product_count)) k heads next 0 output (mkLabelSearch distance (replicate (Z.to_nat product_count) None) [spawn])
  end.

(** ** Witnesses: searches that keep parents

    The answers of the cancellation callback are given by the number of the
    call. *)

Record ParentSearch := mkParentSearch { ps_distance : list Z; ps_parents : list (option Parent); ps_queue : list PiecePose }.

Definition visit_parent (k : SearchKernel) (source_index next_distance : Z) (action : ClassicInputAction) (st : ParentSearch) (s : Successor) : Result Failure ParentSearch :=
  let? index := unwrap (kernel_state_index k (successor_pose s)) in
  let? d := get_at (ps_distance st) index in
  if d =? UNREACHED then
    let? distance := set_at (ps_distance st) index next_distance in
    let? parents := set_at (ps_parents st) index (Some (mkParent source_index action (successor_rotation s))) in
    Ok (mkParentSearch distance parents (ps_queue st ++ [successor_pose s]))
  else Ok st.

Definition expand_parent (k : SearchKernel) (source : PiecePose) (source_index next_distance : Z) (st : ParentSearch) : Result Failure ParentSearch :=
  try_fold (fun st action => try_fold (visit_parent k source_index next_distance action) st (successors k source action)) st EXPANSION_ORDER.

Definition start_parents (k : SearchKernel) : Result Failure (Z * ParentSearch) :=
  let? spawn_index := unwrap (kernel_state_index k (k_spawn k)) in
  let? distance := set_at (replicate (Z.to_nat (k_state_count k)) UNREACHED) spawn_index 0 in
  Ok (spawn_index, mkParentSearch distance (replicate (Z.to_nat (k_state_count k)) None) [k_spawn k]).

(** The loop of [reconstruct_actions]: the actions from the last one on. *)
Fixpoint parent_actions (fuel : nat) (state spawn : Z) (parents : list (option Parent)) : Result Failure (list ClassicInputAction) :=
  if state =? spawn then Ok []
  else
    match fuel with
    | O => Err Panics
    | S fuel =>
        let? stored := get_at parents state in
        let? parent := unwrap stored in
        let? rest := parent_actions fuel (parent_previous parent) spawn parents in
        Ok (parent_action parent :: rest)
    end.

Definition reconstruct_actions (state spawn : Z) (parents : list (option Parent)) : Result Failure (list ClassicInputAction) :=
  let? reversed := parent_actions (length parents) state spawn parents in
  Ok (reverse reversed).

Fixpoint witness_loop (fuel : nat) (k : SearchKernel) (target : FinesseTarget) (spawn_index : Z) (is_cancelled : nat -> bool) (cursor : nat) (st : ParentSearch) : Result Failure (option FinesseWitness) :=
  match ps_queue st !! cursor with
  | None => Ok None
  | Some source =>
      match fuel with
      | O => Err Panics
      | S fuel =>
          if is_cancelled cursor then Err (Fails Cancelled)
          else
            let? source_index := unwrap (kernel_state_index k source) in
            let lock := hard_drop k source in
            if bool_decide (lock = target_pose target) then
              let? d := get_at (ps_distance st) source_index in
              let? cost := add_cost d 1 in
              let? actions := reconstruct_actions source_index spawn_index (ps_parents st) in
              let? evidence :=
                (if pose_y source =? pose_y lock then
                   let? stored := get_at (ps_parents st) source_index in
                   Ok (label_of (stored ≫= parent_rotation))
                 else Ok LabelNoRotation) in
              Ok (Some (mkWitness target cost (actions ++ [HardDrop]) evidence))
            else
              let? d := get_at (ps_distance st) source_index in
              let? next_distance := add_cost d 1 in
              let? st := expand_parent k source source_index next_distance st in
              witness_loop fuel k target spawn_index is_cancelled (S cursor) st
      end
  end.

Definition kernel_witness (k : SearchKernel) (target : FinesseTarget) (is_cancelled : nat -> bool) : Result Failure (option FinesseWitness) :=
  match kernel_state_index k (target_pose target) with
  | None => Ok None
  | Some _ =>
      if negb (inside_layout k (target_pose target)) || negb (kernel_grounded k (target_pose target)) then Ok None
      else
        let? '(spawn_index, st) := start_parents k in
        witness_loop (search_fuel k) k target spawn_index is_cancelled 0 st
  end.

(** The loop of [witness_for_terminal_evidence_with_cancel] for a rotation. *)
Fixpoint rotation_witness_loop (fuel : nat) (k : SearchKernel) (target : FinesseTarget) (a : RotationArrival) (predecessor_index spawn_index : Z) (is_cancelled : nat -> bool) (cursor : nat) (st : ParentSearch) : Result Failure (option FinesseWitness) :=
  match ps_queue st !! cursor with
  | None => Ok None
  | Some source =>
      match fuel with
      | O => Err Panics
      | S fuel =>
          if is_cancelled cursor then Err (Fails Cancelled)
          else
            let? source_index := unwrap (kernel_state_index k source) in
            if source_index =? predecessor_index then
              let? actions := reconstruct_actions source_index spawn_index (ps_parents st) in
              let actions := actions ++ [arrival_request a; HardDrop] in
              let? cost := fail_with (try_from 32 (Z.of_nat (length actions))) CostOverflow in
              Ok (Some (mkWitness target cost actions (LabelRotation a)))
            else
              let? d := get_at (ps_distance st) source_index in
              let? next_distance := add_cost d 1 in
              let? st := expand_parent k source source_index next_distance st in
              rotation_witness_loop fuel k target a predecessor_index spawn_index is_cancelled (S cursor) st
      end
  end.

(** The best lock without rotation evidence: its cost, the state before the
    optional last input, and that input. *)
Definition BestLock : Type := option (Z * Z * option ClassicInputAction).

Definition better (best : BestLock) (cost : Z) : bool := match best with None => true | Some (current, _, _) => cost <? current end.

Definition visit_best (k : SearchKernel) (target : FinesseTarget) (source_index next_distance grounded_cost : Z) (action : ClassicInputAction) (st : ParentSearch * BestLock) (s : Successor) : Result Failure (ParentSearch * BestLock) :=
  let '(search, best) := st in
  let best := if bool_decide (successor_rotation s = None) && bool_decide (successor_pose s = target_pose target) && better best grounded_cost
              then Some (grounded_cost, source_index, Some action) else best in
  let? search := visit_parent k source_index next_distance action search s in
  Ok (search, best).

Fixpoint plain_witness_loop (fuel : nat) (k : SearchKernel) (target : FinesseTarget) (is_cancelled : nat -> bool) (cursor : nat) (st : ParentSearch * BestLock) : Result Failure (ParentSearch * BestLock) :=
  let '(search, best) := st in
  match ps_queue search !! cursor with
  | None => Ok (search, best)
  | Some source =>
      match fuel with
      | O => Err Panics
      | S fuel =>
          if is_cancelled cursor then Err (Fails Cancelled)
          else
            let? source_index := unwrap (kernel_state_index k source) in
            let? d := get_at (ps_distance search) source_index in
            let lock := hard_drop k source in
            let? best :=
              (if bool_decide (lock = target_pose target) && negb (pose_y source =? pose_y lock) then
                 let? cost := add_cost d 1 in
                 Ok (if better best cost then Some (cost, source_index, None) else best)
               else Ok best) in
            let? next_distance := add_cost d 1 in
            let? grounded_cost := add_cost next_distance 1 in
            let? st := try_fold (fun st action => try_fold (visit_best k target source_index next_distance grounded_cost action) st (successors k source action)) (search, best) EXPANSION_ORDER in
            plain_witness_loop fuel k target is_cancelled (S cursor) st
      end
  end.

(** [witness_without_terminal_rotation_with_cancel]. *)
Definition plain_witness (k : SearchKernel) (target : FinesseTarget) (is_cancelled : nat -> bool) : Result Failure (option FinesseWitness) :=
  if negb (inside_layout k (target_pose target)) || negb (kernel_grounded k (target_pose target)) then Ok None
  else
    let? '(spawn_index, st) := start_parents k in
    let best := if bool_decide (k_spawn k = target_pose target) then Some (1, spawn_index, None) else None in
    let? '(st, best) := plain_witness_loop (search_fuel k) k target is_cancelled 0 (st, best) in
    match best with
    | None => Ok None
    | Some (cost, source_index, terminal_action) =>
        let? actions := reconstruct_actions source_index spawn_index (ps_parents st) in
        let actions := actions ++ option_list terminal_action ++ [HardDrop] in
        let? len := fail_with (try_from 32 (Z.of_nat (length actions))) CostOverflow in
        if negb (len =? cost) then Err (Fails CostOverflow)
        else Ok (Some (mkWitness target cost actions LabelNoRotation))
    end.

Definition kernel_witness_for_terminal_evidence (k : SearchKernel) (target : FinesseTarget) (evidence : TerminalEvidenceLabel) (is_cancelled : nat -> bool) : Result Failure (option FinesseWitness) :=
  match evidence with
  | LabelNoRotation => plain_witness k target is_cancelled
  | LabelRotation a =>
      if negb (inside_layout k (target_pose target)) || negb (kernel_grounded k (target_pose target)) ||
         negb (bool_decide (pose_rotation (target_pose target) = arrival_to a)) || negb (bool_decide (pose_rotation (arrival_predecessor a) = arrival_from a))
      then Ok None
      else
        match single_successor k (arrival_predecessor a) (arrival_request a) with
        | None => Ok None
        | Some s =>
            if negb (bool_decide (successor_pose s = target_pose target)) || negb (bool_decide (arrival_label <$> successor_rotation s = Some evidence)) then Ok None
            else
              match kernel_state_index k (arrival_predecessor a) with
              | None => Ok None
              | Some predecessor_index =>
                  let? '(spawn_index, st) := start_parents k in
                  rotation_witness_loop (search_fuel k) k target a predecessor_index spawn_index is_cancelled 0 st
              end
        end
  end.

(** ** Queries *)

Definition query_costs (q : FrozenFinesseQuery) : Result Failure (list (option Z)) :=
  let? kernel := search_kernel q in
  match kernel with
  | None => Ok (replicate (length (query_targets q)) None)
  | Some k => kernel_costs k (query_targets q)
  end.

Definition query_route_labels (q : FrozenFinesseQuery) : Result Failure (list (list (option LabeledFinesseCost))) :=
  let? kernel := search_kernel q in
  match kernel with
  | None => Ok (replicate (length (query_targets q)) (replicate 3 None))
  | Some k => kernel_route_labels k (query_targets q)
  end.

Definition query_cost_for_terminal_evidence (q : FrozenFinesseQuery) (target_index : Z) (evidence : TerminalEvidenceLabel) : Result Failure (option Z) :=
  let? target := fail_with (query_targets q !! Z.to_nat target_index) (TargetIndexOutOfBounds target_index (Z.of_nat (length (query_targets q)))) in
  let? kernel := search_kernel q in
  match kernel with None => Ok None | Some k => kernel_cost_for_terminal_evidence k target evidence end.

Definition query_costs_for_terminal_evidence (q : FrozenFinesseQuery) (evidence : list (option TerminalEvidenceLabel)) : Result Failure (list (option Z)) :=
  if negb (length evidence =? length (query_targets q))%nat
  then Err (Fails (TargetEvidenceLengthMismatch (Z.of_nat (length (query_targets q))) (Z.of_nat (length evidence))))
  else
    let? kernel := search_kernel q in
    match kernel with
    | None => Ok (replicate (length (query_targets q)) None)
    | Some k => kernel_costs_for_terminal_evidence k (query_targets q) evidence
    end.

(** The first call of the callback is made before the search. *)
Definition query_witness_with_cancel (q : FrozenFinesseQuery) (target_index : Z) (is_cancelled : nat -> bool) : Result Failure (option FinesseWitness) :=
  if is_cancelled 0%nat then Err (Fails Cancelled)
  else
    let? target := fail_with (query_targets q !! Z.to_nat target_index) (TargetIndexOutOfBounds target_index (Z.of_nat (length (query_targets q)))) in
    let? kernel := search_kernel q in
    match kernel with None => Ok None | Some k => kernel_witness k target (fun n => is_cancelled (S n)) end.

Definition query_witness (q : FrozenFinesseQuery) (target_index : Z) : Result Failure (option FinesseWitness) := query_witness_with_cancel q target_index (fun _ => false).

Definition query_witness_for_terminal_evidence_with_cancel (q : FrozenFinesseQuery) (target_index : Z) (evidence : TerminalEvidenceLabel) (is_cancelled : nat -> bool) : Result Failure (option FinesseWitness) :=
  if is_cancelled 0%nat then Err (Fails Cancelled)
  else
    let? target := fail_with (query_targets q !! Z.to_nat target_index) (TargetIndexOutOfBounds target_index (Z.of_nat (length (query_targets q)))) in
    let? kernel := search_kernel q in
    match kernel with None => Ok None | Some k => kernel_witness_for_terminal_evidence k target evidence (fun n => is_cancelled (S n)) end.

Definition query_witness_for_terminal_evidence (q : FrozenFinesseQuery) (target_index : Z) (evidence : TerminalEvidenceLabel) : Result Failure (option FinesseWitness) :=
  query_witness_for_terminal_evidence_with_cancel q target_index evidence (fun _ => false).
