(* ===== verification/Bfs.v ===== *)
(** * Breadth-first search with distances

    A queue of entries, each a node with its distance and what is known of the
    edge it was first reached by.  As long as nodes are expanded in the order
    of the queue, the distance of every entry is the length of a shortest path
    to its node, also before the search has ended ([entry_minimal]); a path
    whose node is not in the queue is longer than the distances expanded so
    far ([path_found]).  [dist_rep] and [info_rep] relate the entries to the
    vectors in which a program keeps them. *)

From Stdlib Require Import ZArith Lia.
From stdpp Require Import prelude.
From S2P Require Import Prelude Words.

Section Bfs.
Context {N X : Type} `{EqDecision N} (edges : N -> list (N * X)) (root : N) (x0 : X).

Notation entry := (N * (nat * X))%type.

(** A path of [n] edges and the label of the last one. *)
Inductive path : nat -> N -> X -> Prop :=
| path_root : path 0 root x0
| path_edge n u x v y : path n u x -> (v, y) ∈ edges u -> path (S n) v y.

Fixpoint assoc (q : list entry) (v : N) : option (nat * X) :=
  match q with
  | [] => None
  | (u, e) :: q => if decide (u = v) then Some e else assoc q v
  end.

Lemma assoc_elem q v e : NoDup q.*1 -> assoc q v = Some e <-> (v, e) ∈ q.
Proof using Type.
  induction q as [|[u e'] q IH]; intros Hn; cbn [assoc].
  - split; [done|]. intros H. by apply not_elem_of_nil in H.
  - cbn in Hn. apply NoDup_cons in Hn as [Hu Hn]. rewrite elem_of_cons. destruct (decide (u = v)) as [->|Hne].
    + split; [intros [= ->]; by left|]. intros [[= ->]|Hin]; [done|]. exfalso. apply Hu. apply list_elem_of_fmap. by exists (v, e).
    + rewrite IH by done. split; [by right|]. intros [[= -> ->]|]; done.
Qed.

Lemma assoc_None q v : assoc q v = None <-> v ∉ q.*1.
Proof using Type.
  induction q as [|[u e'] q IH]; cbn [assoc]; [split; [intros _; apply not_elem_of_nil|done]|]. cbn. rewrite not_elem_of_cons. destruct (decide (u = v)) as [->|Hne]; [split; [done|]; by intros [? _]|]. rewrite IH. split; [intros H; split; [by intros ->|done]|by intros [_ H]].
Qed.

Definition push (d : nat) (q : list entry) (e : N * X) : list entry := if decide (e.1 ∈ q.*1) then q else q ++ [(e.1, (d, e.2))].

Definition expand_entry (q : list entry) (u : N) (d : nat) : list entry := foldl (push (S d)) q (edges u).

(** Entries are reached from entries before them that have been expanded. *)
Definition linked (c : nat) (q : list entry) : Prop :=
  forall i v d y, q !! i = Some (v, (d, y)) -> (i = 0%nat /\ v = root /\ d = 0%nat /\ y = x0) \/
    exists j u d' x, (j < i)%nat /\ (j < c)%nat /\ q !! j = Some (u, (d', x)) /\ d = S d' /\ (v, y) ∈ edges u.

Record bfs_inv (c : nat) (q : list entry) : Prop := {
  bi_nodup : NoDup q.*1;
  bi_root : q !! 0%nat = Some (root, (0%nat, x0));
  bi_linked : linked c q;
  bi_sorted : forall i j a b, (i <= j)%nat -> q !! i = Some a -> q !! j = Some b -> (a.2.1 <= b.2.1)%nat;
  bi_window : forall a b, q !! c = Some a -> b ∈ q -> (b.2.1 <= S a.2.1)%nat;
  bi_closed : forall i u d x v y, (i < c)%nat -> q !! i = Some (u, (d, x)) -> (v, y) ∈ edges u -> exists d' x', (v, (d', x')) ∈ q /\ (d' <= S d)%nat
}.

Lemma bfs_start : bfs_inv 0 [(root, (0%nat, x0))].
Proof.
  split; [apply NoDup_singleton|done| | | |intros; lia].
  - intros [|i] v d y [=]. left. naive_solver.
  - intros [|i] [|j] a b _ [=] [=]. by subst.
  - intros a b [= <-] ->%list_elem_of_singleton. cbn. lia.
Qed.

(** While node [c] is being expanded. *)
Record expanding (c : nat) (u : N) (d : nat) (done_edges : list (N * X)) (q0 q : list entry) : Prop := {
  ex_prefix : exists new, q = q0 ++ new /\ Forall (fun e => e.2.1 = S d) new;
  ex_nodup : NoDup q.*1;
  ex_linked : linked (S c) q;
  ex_done : forall v y, (v, y) ∈ done_edges -> exists d' x', (v, (d', x')) ∈ q /\ (d' <= S d)%nat
}.

Lemma push_expanding c u d x es q0 q e : bfs_inv c q0 -> q0 !! c = Some (u, (d, x)) -> e ∈ edges u -> expanding c u d es q0 q -> expanding c u d (es ++ [e]) q0 (push (S d) q e).
Proof.
  intros Hinv Hc He [(new & -> & Hnew) Hn Hl Hd]. destruct e as [v y]. unfold push. cbn [fst snd]. destruct (decide (v ∈ (q0 ++ new).*1)) as [Hin|Hin].
  - split; [by exists new|done|done|]. intros v' y' [H|[= -> ->]%list_elem_of_singleton]%elem_of_app; [by apply (Hd v' y')|].
    apply list_elem_of_fmap in Hin as ([v' [d' x']] & -> & Hin). exists d', x'. split; [done|]. apply elem_of_app in Hin as [Hin|Hin].
    + exact (bi_window _ _ Hinv _ _ Hc Hin).
    + rewrite Forall_forall in Hnew. specialize (Hnew _ Hin). cbn in Hnew. lia.
  - split.
    + exists (new ++ [(v, (S d, y))]). split; [by rewrite app_assoc|]. apply Forall_app. split; [done|]. by apply Forall_singleton.
    + rewrite fmap_app. apply NoDup_app. split; [done|]. split; [|apply NoDup_singleton]. intros w Hw ->%list_elem_of_singleton. done.
    + intros i w d' z Hi. apply lookup_app_Some in Hi as [Hi|[Hge Hi]].
      * destruct (Hl _ _ _ _ Hi) as [?|(j & w' & d2 & x2 & H1 & H2 & H3 & H4 & H5)]; [by left|right]. exists j, w', d2, x2. split; [done|]. split; [done|]. split; [by apply lookup_app_l_Some|done].
      * destruct (i - length (q0 ++ new))%nat as [|?] eqn:Ei; [|done]. injection Hi as <- <- <-. right. exists c, u, d, x. pose proof (lookup_lt_Some _ _ _ Hc). rewrite length_app in *. split; [lia|]. split; [lia|].
        split; [by do 2 apply lookup_app_l_Some|done].
    + intros v' y' [H|[= -> ->]%list_elem_of_singleton]%elem_of_app.
      * destruct (Hd v' y' H) as (d' & x' & Hin' & Hle). exists d', x'. split; [apply elem_of_app; by left|done].
      * exists (S d), y. split; [apply elem_of_app; right; by left|done].
Qed.

Lemma expand_expanding c u d x q0 : bfs_inv c q0 -> q0 !! c = Some (u, (d, x)) -> expanding c u d (edges u) q0 (expand_entry q0 u d).
Proof.
  intros Hinv Hc. unfold expand_entry.
  assert (forall es rest q, es ++ rest = edges u -> expanding c u d es q0 q -> expanding c u d (edges u) q0 (foldl (push (S d)) q rest)) as H.
  { intros es rest. revert es. induction rest as [|e rest IH]; intros es q Heq Hq; cbn [foldl]; [rewrite app_nil_r in Heq; by subst es|].
    apply (IH (es ++ [e])); [by rewrite <- app_assoc|]. apply (push_expanding c u d x); [done|done| |done]. rewrite <- Heq. apply elem_of_app. right. by left. }
  apply (H []); [done|]. split; [exists []; by rewrite app_nil_r|apply (bi_nodup _ _ Hinv)| |intros v y Hin; by apply not_elem_of_nil in Hin].
  intros i v d' y Hi. destruct (bi_linked _ _ Hinv _ _ _ _ Hi) as [?|(j & w & d2 & x2 & H1 & H2 & H3)]; [by left|right]. exists j, w, d2, x2. split; [done|]. split; [lia|done].
Qed.

Lemma bfs_step c u d x q : bfs_inv c q -> q !! c = Some (u, (d, x)) -> bfs_inv (S c) (expand_entry q u d).
Proof.
  intros Hinv Hc. destruct (expand_expanding c u d x q Hinv Hc) as [(new & E & Hnew) Hn Hl Hd]. rewrite E in *. rewrite Forall_forall in Hnew. pose proof (lookup_lt_Some _ _ _ Hc) as Hlt.
  assert (forall j b, (q ++ new) !! j = Some b -> (c <= j)%nat -> (d <= b.2.1 <= S d)%nat) as Hlate.
  { intros j b [Hj|[_ Hj]]%lookup_app_Some Hcj.
    - pose proof (bi_sorted _ _ Hinv c j _ b Hcj Hc Hj). pose proof (bi_window _ _ Hinv _ _ Hc (list_elem_of_lookup_2 _ _ _ Hj)). cbn in *. lia.
    - rewrite (Hnew b) by (by eapply list_elem_of_lookup_2). lia. }
  split; [done|by apply lookup_app_l_Some, bi_root with c|done| | |].
  - intros i j a b Hij Hi Hj. destruct (Nat.lt_ge_cases j (length q)) as [Hjq|Hjq].
    + rewrite lookup_app_l in Hi, Hj by lia. by apply (bi_sorted _ _ Hinv i j).
    + assert (b.2.1 = S d) as -> by (rewrite lookup_app_r in Hj by lia; apply Hnew; by eapply list_elem_of_lookup_2).
      destruct (Nat.lt_ge_cases i c); [|by apply (Hlate i)]. rewrite lookup_app_l in Hi by lia. pose proof (bi_sorted _ _ Hinv i c a _ ltac:(lia) Hi Hc). cbn in *. lia.
  - intros a b Ha Hb. pose proof (Hlate (S c) a Ha ltac:(lia)) as Hda. apply list_elem_of_lookup in Hb as [j Hj]. destruct (Nat.lt_ge_cases j c) as [Hjc|Hjc]; [|pose proof (Hlate j b Hj Hjc); lia].
    rewrite lookup_app_l in Hj by lia. pose proof (bi_sorted _ _ Hinv j c b _ ltac:(lia) Hj Hc). cbn in *. lia.
  - intros i w d' z v y Hi Hw Hv. destruct (decide (i = c)) as [->|Hne].
    + rewrite lookup_app_l in Hw by lia. rewrite Hc in Hw. injection Hw as <- <- <-. by apply (Hd v y).
    + rewrite lookup_app_l in Hw by lia. destruct (bi_closed _ _ Hinv i w d' z v y ltac:(lia) Hw Hv) as (d2 & x2 & H1 & H2). exists d2, x2. split; [apply elem_of_app; by left|done].
Qed.

(** ** Distances are shortest *)

Lemma entry_path c q i v d y : bfs_inv c q -> q !! i = Some (v, (d, y)) -> path d v y.
Proof.
  intros Hinv. revert v d y. induction (lt_wf i) as [i _ IH]. intros v d y Hi. destruct (bi_linked _ _ Hinv _ _ _ _ Hi) as [(-> & -> & -> & ->)|(j & u & d' & x & Hj & _ & Hu & -> & He)]; [constructor|].
  apply (path_edge d' u x); [by apply (IH j)|done].
Qed.

Lemma entry_depth c q i v d y : bfs_inv c q -> q !! i = Some (v, (d, y)) -> (d <= i)%nat.
Proof.
  intros Hinv. revert v d y. induction (lt_wf i) as [i _ IH]. intros v d y Hi. destruct (bi_linked _ _ Hinv _ _ _ _ Hi) as [(-> & _ & -> & _)|(j & u & d' & x & Hj & _ & Hu & -> & He)]; [done|]. specialize (IH j Hj _ _ _ Hu). lia.
Qed.

(** The node of a path is known, or the path is longer than what has been
    expanded. *)
Lemma path_found c q n v y : bfs_inv c q -> path n v y -> (exists d x, (v, (d, x)) ∈ q /\ (d <= n)%nat) \/ (exists a, q !! c = Some a /\ (S a.2.1 <= n)%nat).
Proof.
  intros Hinv. induction 1 as [|n u x v y _ IH He]; [left; exists 0%nat, x0; split; [|done]; by eapply list_elem_of_lookup_2, bi_root|].
  destruct IH as [(d & x' & Hin & Hd)|(a & Ha & Hn)]; [|right; exists a; split; [done|lia]].
  apply list_elem_of_lookup in Hin as [i Hi]. destruct (Nat.lt_ge_cases i c) as [Hic|Hic].
  - destruct (bi_closed _ _ Hinv i u d x' v y Hic Hi He) as (d' & x2 & H1 & H2). left. exists d', x2. split; [done|lia].
  - assert (c < length q)%nat as Hc by (apply lookup_lt_Some in Hi; lia). apply lookup_lt_is_Some in Hc as [a Ha]. right. exists a. split; [done|]. pose proof (bi_sorted _ _ Hinv c i a _ Hic Ha Hi). cbn in *. lia.
Qed.

Lemma entry_unique c q v e e' : bfs_inv c q -> (v, e) ∈ q -> (v, e') ∈ q -> e = e'.
Proof. intros Hinv H H'. pose proof (bi_nodup _ _ Hinv) as Hn. apply (assoc_elem q v _ Hn) in H, H'. congruence. Qed.

Lemma entry_minimal c q v d x n y : bfs_inv c q -> (v, (d, x)) ∈ q -> path n v y -> (d <= n)%nat.
Proof.
  intros Hinv Hin Hp. destruct (path_found c q n v y Hinv Hp) as [(d' & x' & Hin' & Hd)|(a & Ha & Hn)].
  - pose proof (entry_unique _ _ _ _ _ Hinv Hin Hin') as [= -> ->]. done.
  - pose proof (bi_window _ _ Hinv a _ Ha Hin). cbn in *. lia.
Qed.

(** A node nearer than the one about to be expanded has been expanded. *)
Lemma path_expanded c q n v y a : bfs_inv c q -> q !! c = Some a -> path n v y -> (n < a.2.1)%nat -> exists i d x, (i < c)%nat /\ q !! i = Some (v, (d, x)) /\ (d <= n)%nat.
Proof.
  intros Hinv Ha Hp Hn. destruct (path_found c q n v y Hinv Hp) as [(d & x & Hin & Hd)|(b & Hb & Hbn)]; [|rewrite Ha in Hb; injection Hb as <-; lia].
  apply list_elem_of_lookup in Hin as [i Hi]. exists i, d, x. split; [|done]. destruct (Nat.lt_ge_cases i c) as [|Hic]; [done|]. pose proof (bi_sorted _ _ Hinv c i a _ Hic Ha Hi). cbn in *. lia.
Qed.

(** After the search every path is known. *)
Lemma search_complete c q n v y : bfs_inv c q -> q !! c = None -> path n v y -> exists d x, (v, (d, x)) ∈ q /\ (d <= n)%nat.
Proof. intros Hinv Hc Hp. destruct (path_found c q n v y Hinv Hp) as [?|(a & Ha & _)]; [done|]. by rewrite Hc in Ha. Qed.

(** The first entry expanded with a property of nodes is nearest among the
    nodes with it, also while the search is running. *)
Lemma first_minimal c q j v d x (hit : N -> Prop) n w y : bfs_inv c q -> q !! j = Some (v, (d, x)) -> (j < c)%nat -> (forall j' e, (j' < j)%nat -> q !! j' = Some e -> ~ hit e.1) -> path n w y -> hit w -> (d <= n)%nat.
Proof.
  intros Hinv Hj Hjc Hfirst Hp Hw. destruct (path_found c q n w y Hinv Hp) as [(d' & x' & Hin & Hle)|(a & Ha & Hle)].
  - etrans; [|exact Hle]. apply list_elem_of_lookup in Hin as [j' Hj']. destruct (Nat.lt_ge_cases j' j) as [Hlt|Hge]; [|exact (bi_sorted _ _ Hinv j j' _ _ Hge Hj Hj')]. by destruct (Hfirst j' _ Hlt Hj').
  - pose proof (bi_sorted _ _ Hinv j c _ _ ltac:(lia) Hj Ha) as Hs. cbn in Hs. lia.
Qed.
End Bfs.

(** ** Entries in vectors *)

Section Vectors.
Context {N X : Type} `{EqDecision N} (idx : N -> option Z) (n : nat).
Context (Hidx : forall v i, idx v = Some i -> (0 <= i < Z.of_nat n)%Z) (Hinj : forall v w i, idx v = Some i -> idx w = Some i -> v = w).

(** A vector holds at the index of each node what [f] makes of its entry. *)
Definition vec_rep {Y} (f : option (nat * X) -> Y) (q : list (N * (nat * X))) (l : list Y) : Prop :=
  length l = n /\ forall v i, idx v = Some i -> l !! Z.to_nat i = Some (f (assoc q v)).

Lemma assoc_snoc (q : list (N * (nat * X))) v e w : assoc (q ++ [(v, e)]) w = match assoc q w with Some e' => Some e' | None => if decide (v = w) then Some e else None end.
Proof using Type. induction q as [|[u e'] q IH]; cbn [app assoc]; [done|]. by destruct (decide (u = w)). Qed.

Lemma vec_rep_start {Y} (f : option (nat * X) -> Y) : vec_rep f [] (replicate n (f None)).
Proof using Hidx. split; [apply length_replicate|]. intros v i Hi. cbn. apply lookup_replicate_2. specialize (Hidx v i Hi). lia. Qed.

Lemma vec_rep_snoc {Y} (f : option (nat * X) -> Y) q l v i e : vec_rep f q l -> idx v = Some i -> v ∉ q.*1 -> vec_rep f (q ++ [(v, e)]) (<[Z.to_nat i := f (Some e)]> l).
Proof using Hidx Hinj.
  intros [Hl Hf] Hi Hv. split; [by rewrite length_insert|]. intros w j Hj. rewrite assoc_snoc. destruct (decide (v = w)) as [->|Hne].
  - rewrite Hi in Hj. injection Hj as <-. apply assoc_None in Hv. rewrite Hv. apply list_lookup_insert_eq. specialize (Hidx w i Hi). lia.
  - rewrite list_lookup_insert_ne.
    + rewrite (Hf w j Hj). by destruct (assoc q w).
    + pose proof (Hidx v i Hi). pose proof (Hidx w j Hj). intros E. apply Hne. apply (Hinj v w i Hi). rewrite Hj. f_equal. lia.
Qed.

Lemma vec_rep_lookup {Y} (f : option (nat * X) -> Y) q l v i e : NoDup q.*1 -> vec_rep f q l -> idx v = Some i -> (v, e) ∈ q -> l !! Z.to_nat i = Some (f (Some e)).
Proof using Type. intros Hn [_ Hf] Hi Hin. rewrite (Hf v i Hi). by apply (assoc_elem q v e Hn) in Hin as ->. Qed.

(** The queue is no longer than the vectors. *)
Lemma queue_indexed (q : list (N * (nat * X))) : NoDup q.*1 -> (forall v, v ∈ q.*1 -> is_Some (idx v)) -> (length q <= n)%nat.
Proof using Hidx Hinj.
  intros Hn Hi. set (num := fun v => default 0%Z (idx v)). assert (NoDup (num <$> q.*1)) as Hnum.
  { apply NoDup_fmap_2_strong; [|done]. intros v w [i Ei]%Hi [j Ej]%Hi. unfold num. rewrite Ei, Ej. cbn. intros ->. by apply (Hinj v w j). }
  assert (num <$> q.*1 ⊆ seqZ 0 (Z.of_nat n)) as Hsub.
  { intros i (v & -> & [i' Ei]%Hi)%list_elem_of_fmap. unfold num. rewrite Ei. cbn. apply elem_of_seqZ. specialize (Hidx v i' Ei). lia. }
  pose proof (submseteq_length _ _ (NoDup_submseteq _ _ Hnum Hsub)) as Hl. rewrite !length_fmap, length_seqZ in Hl. lia.
Qed.
End Vectors.
