(* ===== verification/FinesseRules.v ===== *)
(** * The rules of classic inputs

    What an input does, as a relation on poses: a tap moves one column, an
    auto-shift moves until the piece is stopped, a rotation takes the first
    kick that fits, a soft drop stops at any row it passes, and a hard drop
    falls until something is below.  The rules may have a sky, a row above
    which a piece does not fit, and a highest row at which a soft drop stops;
    the rules of a query have neither.  The operations of the search kernel
    are shown to follow the rules with its two ceilings; that the ceilings
    change no answer is the subject of [FinessePruning]. *)

From Stdlib Require Import ZArith Lia.
From stdpp Require Import prelude strings.
From S2P Require Import Prelude Words Board PcBoard Pieces Kicks Reachability ReachTemplate Reach Finesse.

Local Open Scope Z_scope.

Record kernel_ok (k : SearchKernel) : Prop := {
  ko_size : 0 < board_width (k_board k) /\ 0 < board_height (k_board k) /\ board_width (k_board k) * board_height (k_board k) <= 256;
  ko_shapes : forall r, kernel_shape k r = piece_shape (k_piece k) r;
  ko_ceiling : 0 <= k_ceiling k <= 32600;
  ko_kicks : forall from to offsets o, sequence_for (k_kicks k) (mkTransition (k_piece k) from to) = Some offsets -> o ∈ offsets ->
    -127 <= fst (normalized_kick_delta (k_piece k) from to (fst o) (snd o)) <= 127 /\ -127 <= snd (normalized_kick_delta (k_piece k) from to (fst o) (snd o)) <= 127;
  ko_count : k_state_count k = 4 * (k_ceiling k + 1) * board_width (k_board k)
}.

(** ** Rules *)

Record InputRules := mkRules {
  r_board : FinesseBoard;
  r_piece : PieceKind;
  r_kicks : KickTableProfile;
  r_spawn : PiecePose;
  r_sky : option Z;
  r_stop : option Z
}.

(** The rules a kernel searches. *)
Definition kernel_rules (k : SearchKernel) : InputRules := mkRules (k_board k) (k_piece k) (k_kicks k) (k_spawn k) (Some (k_ceiling k)) (Some (k_interaction_ceiling k)).

Coercion kernel_rules : SearchKernel >-> InputRules.

Ltac kernel_simpl := cbn [kernel_rules r_board r_piece r_kicks r_spawn r_sky r_stop] in *.

(** Not above a ceiling, if there is one. *)
Definition not_above (ceiling : option Z) (y : Z) : bool := match ceiling with Some c => y <=? c | None => true end.

Section Rules.
Context (k : InputRules).

(** A cell between the walls and above the floor that is not filled. *)
Definition free_cell (x y : Z) : bool :=
  (0 <=? x) && (x <? board_width (r_board k)) && (0 <=? y) && ((board_height (r_board k) <=? y) || negb (b256_bit (finesse_occupied (r_board k)) (y * board_width (r_board k) + x))).

Definition pose_fits (p : PiecePose) : bool :=
  not_above (r_sky k) (pose_y p) && forallb (fun c => free_cell (pose_x p + fst c) (pose_y p + snd c)) (piece_shape (r_piece k) (pose_rotation p)).

Definition pose_inside (p : PiecePose) : bool :=
  forallb (fun c => (0 <=? pose_x p + fst c) && (pose_x p + fst c <? board_width (r_board k)) && (0 <=? pose_y p + snd c) && (pose_y p + snd c <? board_height (r_board k)))
    (piece_shape (r_piece k) (pose_rotation p)).

Definition shift_pose (p : PiecePose) (dx dy : Z) : PiecePose := mkPose (pose_rotation p) (pose_x p + dx) (pose_y p + dy).

Definition turn_pose (p : PiecePose) (to : RotationState) (o : Z * Z) : PiecePose :=
  let d := normalized_kick_delta (r_piece k) (pose_rotation p) to (fst o) (snd o) in mkPose to (pose_x p + fst d) (pose_y p + snd d).

(** Every pose on the way fits. *)
Definition free_way (p : PiecePose) (dx dy n : Z) : Prop := forall m, 1 <= m <= n -> pose_fits (shift_pose p (m * dx) (m * dy)) = true.

(** ... and the next one does not. *)
Definition stops_after (p : PiecePose) (dx dy n : Z) : Prop := free_way p dx dy n /\ pose_fits (shift_pose p ((n + 1) * dx) ((n + 1) * dy)) = false.

Definition rotation_evidence (p : PiecePose) (a : ClassicInputAction) (to : RotationState) (index : Z) (o : Z * Z) : RotationArrival :=
  let d := normalized_kick_delta (r_piece k) (pose_rotation p) to (fst o) (snd o) in
  mkArrival (pose_rotation p) to a (Z.min index 255) (fst d) (snd d) p.

Inductive input (p : PiecePose) : ClassicInputAction -> PiecePose -> option RotationArrival -> Prop :=
| input_tap_left : pose_fits (shift_pose p (-1) 0) = true -> input p TapLeft (shift_pose p (-1) 0) None
| input_tap_right : pose_fits (shift_pose p 1 0) = true -> input p TapRight (shift_pose p 1 0) None
| input_das_left n : 0 < n -> stops_after p (-1) 0 n -> input p DasLeft (shift_pose p (n * -1) (n * 0)) None
| input_das_right n : 0 < n -> stops_after p 1 0 n -> input p DasRight (shift_pose p (n * 1) (n * 0)) None
| input_soft_drop n : 0 < n -> free_way p 0 (-1) n -> not_above (r_stop k) (pose_y p - n) = true -> input p SoftDrop (shift_pose p (n * 0) (n * -1)) None
| input_rotate a to offsets i o : rotation_target a (pose_rotation p) = Some to -> sequence_for (r_kicks k) (mkTransition (r_piece k) (pose_rotation p) to) = Some offsets ->
    offsets !! i = Some o -> pose_fits (turn_pose p to o) = true -> (forall j o', (j < i)%nat -> offsets !! j = Some o' -> pose_fits (turn_pose p to o') = false) ->
    input p a (turn_pose p to o) (Some (rotation_evidence p a to (Z.of_nat i) o)).

(** Where a hard drop leaves the piece. *)
Definition lands (p q : PiecePose) : Prop := exists n, 0 <= n /\ stops_after p 0 (-1) n /\ q = shift_pose p (n * 0) (n * -1).

(** A sequence of inputs from the spawn, the pose it leads to and the last
    rotation if it ends with one. *)
Inductive route : list ClassicInputAction -> PiecePose -> option RotationArrival -> Prop :=
| route_spawn : pose_fits (r_spawn k) = true -> route [] (r_spawn k) None
| route_input actions p r a q r' : route actions p r -> input p a q r' -> route (actions ++ [a]) q r'.

(** The evidence of a hard drop after a route: a drop by a row or more erases
    a rotation. *)
Definition evidence_after (p : PiecePose) (r : option RotationArrival) (lock : PiecePose) : TerminalEvidenceLabel := if pose_y p =? pose_y lock then label_of r else LabelNoRotation.

(** A route and a hard drop lock the piece in the layout with some evidence. *)
Definition places (actions : list ClassicInputAction) (lock : PiecePose) (evidence : TerminalEvidenceLabel) : Prop :=
  exists p r, route actions p r /\ lands p lock /\ pose_inside lock = true /\ evidence = evidence_after p r lock.

(** ** Facts about poses *)

Lemma fits_inside p : pose_fits p = true -> 0 <= pose_x p < board_width (r_board k) /\ 0 <= pose_y p /\ not_above (r_sky k) (pose_y p) = true.
Proof using Type.
  unfold pose_fits. intros [Hy H]%andb_true_iff. rewrite forallb_forall in H. destruct (shape_normal (r_piece k) (pose_rotation p)) as (Hx & Hy' & _).
  apply Exists_exists in Hx as (c & Hc & Ec), Hy' as (d & Hd & Ed). apply list_elem_of_In in Hc, Hd. apply H in Hc, Hd. unfold free_cell in Hc, Hd. rewrite !andb_true_iff, !Z.leb_le, !Z.ltb_lt in *. split; [lia|]. split; [lia|done].
Qed.

Lemma shift_zero p : shift_pose p 0 0 = p.
Proof using Type. destruct p. unfold shift_pose. cbn. f_equal; lia. Qed.

Lemma shift_shift p a b c d : shift_pose (shift_pose p a b) c d = shift_pose p (a + c) (b + d).
Proof using Type. unfold shift_pose. cbn. f_equal; lia. Qed.

Lemma free_way_S p dx dy n : 0 <= n -> free_way p dx dy (n + 1) <-> pose_fits (shift_pose p dx dy) = true /\ free_way (shift_pose p dx dy) dx dy n.
Proof using Type.
  intros Hn. split.
  - intros H. split; [specialize (H 1 ltac:(lia)); by rewrite !Z.mul_1_l in H|]. intros m Hm. rewrite shift_shift. specialize (H (m + 1) ltac:(lia)). by replace (dx + m * dx) with ((m + 1) * dx) by lia; replace (dy + m * dy) with ((m + 1) * dy) by lia.
  - intros [H1 H] m Hm. destruct (decide (m = 1)) as [->|]; [by rewrite !Z.mul_1_l|]. specialize (H (m - 1) ltac:(lia)). rewrite shift_shift in H. by replace (dx + (m - 1) * dx) with (m * dx) in H by lia; replace (dy + (m - 1) * dy) with (m * dy) in H by lia.
Qed.

Lemma stops_after_S p dx dy n : 0 <= n -> stops_after p dx dy (n + 1) <-> pose_fits (shift_pose p dx dy) = true /\ stops_after (shift_pose p dx dy) dx dy n.
Proof using Type.
  intros Hn. unfold stops_after. rewrite free_way_S, shift_shift by done. replace (dx + (n + 1) * dx) with ((n + 1 + 1) * dx) by lia. replace (dy + (n + 1) * dy) with ((n + 1 + 1) * dy) by lia. tauto.
Qed.

Lemma stops_after_0 p dx dy : stops_after p dx dy 0 <-> pose_fits (shift_pose p dx dy) = false.
Proof using Type. unfold stops_after, free_way. rewrite Z.add_0_l, !Z.mul_1_l. split; [tauto|]. intros H. split; [intros m Hm; lia|done]. Qed.

Lemma stops_after_unique p dx dy n m : 0 <= n -> 0 <= m -> stops_after p dx dy n -> stops_after p dx dy m -> n = m.
Proof using Type.
  intros Hn Hm [H1 H2] [H3 H4]. destruct (Z.lt_trichotomy n m) as [Hlt|[->|Hlt]]; [|done|].
  - rewrite H3 in H2 by lia. done.
  - rewrite H1 in H4 by lia. done.
Qed.

Lemma lands_unique p q q' : lands p q -> lands p q' -> q = q'.
Proof using Type. intros (n & Hn & Hs & ->) (m & Hm & Hs' & ->). by rewrite (stops_after_unique _ _ _ _ _ Hn Hm Hs Hs'). Qed.

Lemma input_fits p a q r : input p a q r -> pose_fits q = true.
Proof using Type. destruct 1 as [H|H|n Hn [H _]|n Hn [H _]|n Hn H _|a to offsets i o _ _ _ H _]; try done; apply H; lia. Qed.

Lemma route_fits actions p r : route actions p r -> pose_fits p = true.
Proof using Type. destruct 1 as [H|actions p r a q r' _ H]; [done|by apply input_fits in H]. Qed.

Lemma lands_fits p q : pose_fits p = true -> lands p q -> pose_fits q = true.
Proof using Type. intros Hp (n & Hn & [Hw _] & ->). destruct (decide (n = 0)) as [->|]; [by rewrite !Z.mul_0_l, shift_zero|]. apply Hw. lia. Qed.

(** A pose that rests: a hard drop does not move it. *)
Definition rests (p : PiecePose) : bool := pose_fits p && negb (pose_fits (shift_pose p 0 (-1))).

Lemma lands_rests p q : pose_fits p = true -> lands p q -> rests q = true.
Proof using Type.
  intros Hp Hl. pose proof (lands_fits p q Hp Hl) as Hq. unfold rests. rewrite Hq. destruct Hl as (n & Hn & [_ Hs] & ->). rewrite shift_shift. replace (n * 0 + 0) with ((n + 1) * 0) by lia. replace (n * -1 + -1) with ((n + 1) * -1) by lia. by rewrite Hs.
Qed.

Lemma rests_lands p q : rests p = true -> lands p q <-> q = p.
Proof using Type.
  unfold rests. intros [Hp Hb]%andb_true_iff. apply negb_true_iff in Hb.
  assert (lands p p) as Hl by (exists 0; split; [done|]; split; [by apply stops_after_0|]; by rewrite !Z.mul_0_l, shift_zero). split; [intros H; by apply (lands_unique p)|by intros ->].
Qed.

(** A drop that keeps the row does not move. *)
Lemma lands_same_row p q : lands p q -> pose_y p = pose_y q <-> q = p.
Proof using Type.
  intros (n & Hn & _ & ->). split; [|by intros ->]. cbn. intros E. assert (n = 0) as -> by lia. by rewrite !Z.mul_0_l, shift_zero.
Qed.
End Rules.

(** ** The kernel follows the rules *)

Lemma fits_position (k : SearchKernel) p : pose_fits k p = true -> 0 <= pose_x p < board_width (k_board k) /\ 0 <= pose_y p <= k_ceiling k.
Proof. intros (Hx & Hy & Hc)%fits_inside. cbn in Hx, Hc. apply Z.leb_le in Hc. lia. Qed.

Section Kernel.
Context (k : SearchKernel) (Hk : kernel_ok k).

Local Notation width := (board_width (k_board k)).
Local Notation height := (board_height (k_board k)).
Local Notation ceil := (k_ceiling k).

Lemma width_bound : 0 < width <= 256 /\ 0 < height <= 256.
Proof using Hk. destruct (ko_size _ Hk) as (Hw & Hh & Ha). nia. Qed.

Lemma checked_i16_in v : -32768 <= v <= 32767 -> checked_i16 v = Some v.
Proof using Type. intros H. unfold checked_i16. by rewrite (proj2 (Z.leb_le _ _)), (proj2 (Z.leb_le _ _)) by lia. Qed.

Lemma kindex_in p : 0 <= pose_x p < width -> 0 <= pose_y p <= ceil -> kernel_state_index k p = Some ((quarter_turns (pose_rotation p) * (ceil + 1) + pose_y p) * width + pose_x p).
Proof using Hk.
  intros Hx Hy. pose proof (ko_ceiling _ Hk). unfold kernel_state_index. cbn zeta.
  rewrite (proj2 (Z.ltb_ge (pose_x p) 0)), (proj2 (Z.leb_gt width (pose_x p))), (proj2 (Z.ltb_ge (pose_y p) 0)), (proj2 (Z.ltb_ge ceil (pose_y p))) by lia. cbn [orb].
  by rewrite wrap_small by (unfold in_width; lia).
Qed.

Lemma kindex_Some p i : kernel_state_index k p = Some i -> (0 <= pose_x p < width /\ 0 <= pose_y p <= ceil) /\ i = (quarter_turns (pose_rotation p) * (ceil + 1) + pose_y p) * width + pose_x p.
Proof using Hk.
  intros H. assert (0 <= pose_x p < width /\ 0 <= pose_y p <= ceil) as Hp.
  { unfold kernel_state_index in H. cbn zeta in H. destruct (Z.ltb_spec (pose_x p) 0), (Z.leb_spec width (pose_x p)), (Z.ltb_spec (pose_y p) 0), (Z.ltb_spec ceil (pose_y p)); try done; lia. }
  split; [done|]. rewrite kindex_in in H by tauto. by injection H.
Qed.

Lemma kindex_bound p i : kernel_state_index k p = Some i -> 0 <= i < k_state_count k.
Proof using Hk.
  intros [[Hx Hy] ->]%kindex_Some. rewrite (ko_count _ Hk). pose proof (quarter_turns_bound (pose_rotation p)). set (r := quarter_turns (pose_rotation p) * (ceil + 1) + pose_y p).
  assert (0 <= r /\ r + 1 <= 4 * (ceil + 1)) as [Hr Hr'] by (unfold r; nia). pose proof (Z.mul_le_mono_nonneg_r (r + 1) (4 * (ceil + 1)) width ltac:(lia) Hr'). nia.
Qed.

Lemma kindex_inj p q i : kernel_state_index k p = Some i -> kernel_state_index k q = Some i -> p = q.
Proof using Hk.
  intros [[Hx Hy] ->]%kindex_Some [[Hx' Hy'] E]%kindex_Some. pose proof (quarter_turns_bound (pose_rotation p)). pose proof (quarter_turns_bound (pose_rotation q)).
  assert (quarter_turns (pose_rotation p) * (ceil + 1) + pose_y p = quarter_turns (pose_rotation q) * (ceil + 1) + pose_y q) as E' by nia. assert (pose_x p = pose_x q) by nia.
  assert (quarter_turns (pose_rotation p) = quarter_turns (pose_rotation q)) as Er by nia. assert (pose_y p = pose_y q) by nia. destruct p as [r x y], q as [r' x' y']. cbn [pose_rotation pose_x pose_y] in *. subst x' y'. f_equal. by destruct r, r'.
Qed.

Lemma fits_kindex p : pose_fits k p = true -> is_Some (kernel_state_index k p).
Proof using Hk. intros [Hx Hy]%fits_position. rewrite kindex_in by done. by eexists. Qed.

Lemma forallb_same {A} (f g : A -> bool) l : (forall x, x ∈ l -> f x = g x) -> forallb f l = forallb g l.
Proof using Type. induction l as [|a l IH]; intros H; [done|]. cbn. rewrite H by (by left). f_equal. apply IH. intros x Hx. apply H. by right. Qed.

Lemma shape_cell p c : c ∈ piece_shape (k_piece k) (pose_rotation p) -> 0 <= fst c <= 3 /\ 0 <= snd c <= 3.
Proof using Type. intros Hc. destruct (shape_normal (k_piece k) (pose_rotation p)) as (_ & _ & H). rewrite Forall_forall in H. by apply H. Qed.

Lemma placeable_fits p : kernel_placeable k p = pose_fits k p.
Proof using Hk.
  unfold kernel_placeable. destruct (kernel_state_index k p) as [i|] eqn:E.
  - apply kindex_Some in E as [[Hx Hy] _]. unfold pose_fits. kernel_simpl. cbn [not_above]. rewrite (proj2 (Z.leb_le _ _)) by lia. cbn [andb]. rewrite (ko_shapes _ Hk). pose proof (ko_ceiling _ Hk). pose proof width_bound. destruct (ko_size _ Hk) as (_ & _ & Ha).
    apply forallb_same. intros c Hc%shape_cell. unfold cell_free, free_cell. kernel_simpl. rewrite !checked_i16_in by lia. destruct (Z.ltb_spec (pose_x p + fst c) 0), (Z.leb_spec 0 (pose_x p + fst c)); try lia; cbn [orb andb]; try done.
    destruct (Z.leb_spec width (pose_x p + fst c)), (Z.ltb_spec (pose_x p + fst c) width); try lia; cbn [orb andb]; try done. destruct (Z.ltb_spec (pose_y p + snd c) 0), (Z.leb_spec 0 (pose_y p + snd c)); try lia; cbn [orb andb]; try done.
    destruct (Z.leb_spec height (pose_y p + snd c)); cbn [orb]; [done|]. assert (0 <= (pose_y p + snd c) * width + (pose_x p + fst c) < 256) by nia. rewrite wrap_small by (unfold in_width; lia). by rewrite contains_index_bit by lia.
  - symmetry. apply not_true_iff_false. intros [? H]%fits_kindex. congruence.
Qed.

Lemma inside_pose p : pose_fits k p = true -> inside_layout k p = pose_inside k p.
Proof using Hk.
  intros [Hx Hy]%fits_position. unfold inside_layout, pose_inside. rewrite (ko_shapes _ Hk). pose proof (ko_ceiling _ Hk). pose proof width_bound. apply forallb_same. intros c Hc%shape_cell. unfold cell_inside. by rewrite !checked_i16_in by lia.
Qed.

(** An unplaceable pose outside the range of coordinates is not inside
    either way. *)
Lemma inside_small p : inside_layout k p = true -> 0 <= pose_x p < width /\ 0 <= pose_y p < height /\ pose_inside k p = true.
Proof using Hk.
  unfold inside_layout, pose_inside. rewrite (ko_shapes _ Hk), !forallb_forall. intros H.
  assert (forall c, c ∈ piece_shape (k_piece k) (pose_rotation p) -> 0 <= pose_x p + fst c < width /\ 0 <= pose_y p + snd c < height) as Hcell.
  { intros c Hc. apply list_elem_of_In in Hc. specialize (H c Hc). unfold cell_inside, checked_i16 in H. destruct (_ && _); [|done]. destruct (_ && _); [|done]. rewrite !andb_true_iff, !Z.leb_le, !Z.ltb_lt in H. lia. }
  destruct (shape_normal (k_piece k) (pose_rotation p)) as (Hx & Hy & _). apply Exists_exists in Hx as (c & Hc & Ec), Hy as (d & Hd & Ed). apply Hcell in Hc, Hd. split; [lia|]. split; [lia|].
  intros e He. apply list_elem_of_In, Hcell in He. kernel_simpl. rewrite !andb_true_iff, !Z.leb_le, !Z.ltb_lt. lia.
Qed.

Lemma grounded_rests p : kernel_grounded k p = rests k p.
Proof using Hk.
  unfold kernel_grounded, rests. rewrite placeable_fits. destruct (pose_fits k p) eqn:Hp; [|done]. cbn [negb andb]. apply fits_position in Hp as [Hx Hy]. pose proof (ko_ceiling _ Hk).
  assert (mkPose (pose_rotation p) (pose_x p) (saturating_i16 (pose_y p - 1)) = shift_pose p 0 (-1)) as E by (unfold shift_pose, saturating_i16; f_equal; lia). rewrite placeable_fits, E.
  destruct (Z.eqb_spec (pose_y p) 0); [|done]. cbn [orb]. symmetry. apply negb_true_iff, not_true_iff_false. intros [_ H']%fits_position. cbn in H'. lia.
Qed.

Lemma drop_loop_lands fuel p : -1000 <= pose_y p <= 32700 -> (Z.to_nat (pose_y p) < fuel)%nat -> lands k p (drop_loop fuel k p).
Proof using Hk.
  revert p. induction fuel as [|fuel IH]; intros p Hp Hf; [lia|]. cbn [drop_loop]. rewrite checked_i16_in by lia. rewrite placeable_fits.
  assert (mkPose (pose_rotation p) (pose_x p) (pose_y p - 1) = shift_pose p 0 (-1)) as -> by (unfold shift_pose; f_equal; lia). destruct (pose_fits k (shift_pose p 0 (-1))) eqn:E.
  - pose proof (fits_position _ _ E) as [_ Hy]. cbn in Hy. destruct (IH (shift_pose p 0 (-1))) as (n & Hn & Hs & Hq); [cbn; lia|cbn; lia|]. exists (n + 1). split; [lia|]. split; [apply stops_after_S; done|].
    rewrite Hq, shift_shift. f_equal; lia.
  - exists 0. split; [done|]. split; [by apply stops_after_0|]. by rewrite !Z.mul_0_l, shift_zero.
Qed.

Lemma hard_drop_lands p : pose_fits k p = true -> lands k p (hard_drop k p).
Proof using Hk. intros [_ Hy]%fits_position. pose proof (ko_ceiling _ Hk). apply drop_loop_lands; lia. Qed.

Lemma hard_drop_eq p q : pose_fits k p = true -> hard_drop k p = q <-> lands k p q.
Proof using Hk. intros Hp. split; [intros <-; by apply hard_drop_lands|]. intros H. apply (lands_unique k p); [by apply hard_drop_lands|done]. Qed.

(** ** Inputs *)

Lemma translation_spec p dx dy : pose_fits k p = true -> -1 <= dx <= 1 -> -1 <= dy <= 1 ->
  translation k p dx dy = if pose_fits k (shift_pose p dx dy) then Some (mkSuccessor (shift_pose p dx dy) None) else None.
Proof using Hk.
  intros [Hx Hy]%fits_position Hdx Hdy. pose proof (ko_ceiling _ Hk). pose proof width_bound. unfold translation. rewrite !checked_i16_in by lia. cbn [mbind option_bind]. rewrite placeable_fits. done.
Qed.

Lemma das_loop_spec (fuel : nat) (dx : Z) p : pose_fits k p = true -> dx = 1 \/ dx = -1 -> (Z.to_nat (if dx =? 1 then width - pose_x p else pose_x p + 1)%Z < fuel)%nat ->
  exists n, 0 <= n /\ stops_after k p dx 0 n /\ das_loop fuel k dx p = Some (shift_pose p (n * dx) (n * 0)).
Proof using Hk.
  intros Hp Hdx. revert p Hp. induction fuel as [|fuel IH]; intros p Hp Hf; [lia|]. cbn [das_loop]. pose proof (fits_position _ _ Hp) as [Hx Hy]. pose proof width_bound.
  rewrite checked_i16_in by lia. cbn [mbind option_bind]. rewrite placeable_fits. assert (mkPose (pose_rotation p) (pose_x p + dx) (pose_y p) = shift_pose p dx 0) as -> by (unfold shift_pose; f_equal; lia).
  destruct (pose_fits k (shift_pose p dx 0)) eqn:E.
  - pose proof (fits_position _ _ E) as [Hx' _]. cbn in Hx'. destruct (IH (shift_pose p dx 0) E) as (n & Hn & Hs & ->); [cbn; destruct Hdx as [-> | ->]; cbn in *; lia|]. exists (n + 1). split; [lia|]. split; [by apply stops_after_S|]. rewrite shift_shift. do 2 f_equal; lia.
  - exists 0. split; [done|]. split; [by apply stops_after_0|]. by rewrite !Z.mul_0_l, shift_zero.
Qed.

Lemma das_spec p dx s : pose_fits k p = true -> dx = 1 \/ dx = -1 -> das k p dx = Some s <-> exists n, 0 < n /\ stops_after k p dx 0 n /\ s = mkSuccessor (shift_pose p (n * dx) (n * 0)) None.
Proof using Hk.
  intros Hp Hdx. pose proof (fits_position _ _ Hp) as [Hx Hy]. unfold das. destruct (das_loop_spec (S (Z.to_nat width)) dx p Hp Hdx) as (n & Hn & Hs & ->); [destruct Hdx as [-> | ->]; cbn; lia|]. cbn [mbind option_bind].
  case_bool_decide as E.
  - split; [done|]. intros (m & Hm & Hs' & _). rewrite (stops_after_unique k p dx 0 m n ltac:(lia) Hn Hs' Hs) in Hm. apply (f_equal pose_x) in E. cbn in E. destruct Hdx as [-> | ->]; lia.
  - assert (0 < n). { destruct (decide (n = 0)) as [->|]; [|lia]. by rewrite !Z.mul_0_l, shift_zero in E. } split; [intros [= <-]; by exists n|]. intros (m & Hm & Hs' & ->). by rewrite (stops_after_unique k p dx 0 m n ltac:(lia) Hn Hs' Hs).
Qed.

Lemma index_capped (i : Z) : 0 <= i -> default 255 (try_from 8 i) = Z.min i 255.
Proof using Type. intros Hi. unfold try_from. change (2 ^ 8) with 256. destruct (Z.ltb_spec i 256); cbn [from_option]; unfold id; lia. Qed.

Lemma rotation_loop_spec p a to index offsets s : pose_fits k p = true -> 0 <= index ->
  (forall o, o ∈ offsets -> -127 <= fst (normalized_kick_delta (k_piece k) (pose_rotation p) to (fst o) (snd o)) <= 127 /\ -127 <= snd (normalized_kick_delta (k_piece k) (pose_rotation p) to (fst o) (snd o)) <= 127) ->
  rotation_loop k p a to index offsets = Some s <->
  exists i o, offsets !! i = Some o /\ pose_fits k (turn_pose k p to o) = true /\ (forall j o', (j < i)%nat -> offsets !! j = Some o' -> pose_fits k (turn_pose k p to o') = false) /\
    s = mkSuccessor (turn_pose k p to o) (Some (rotation_evidence k p a to (index + Z.of_nat i) o)).
Proof using Hk.
  intros Hp. pose proof (fits_position _ _ Hp) as [Hx Hy]. pose proof (ko_ceiling _ Hk). pose proof width_bound. revert index. induction offsets as [|[ox oy] offsets IH]; intros index Hi Hb; cbn [rotation_loop].
  { split; [done|]. by intros (i & o & [=] & _). }
  pose proof (Hb (ox, oy) ltac:(by left)) as [Hdx Hdy]. destruct (normalized_kick_delta (k_piece k) (pose_rotation p) to ox oy) as [dx dy] eqn:Ed. cbn [fst snd] in Hdx, Hdy. rewrite Ed in Hdx, Hdy. cbn [fst snd] in Hdx, Hdy.
  rewrite !checked_i16_in by lia. cbn [mbind option_bind]. rewrite placeable_fits. assert (mkPose to (pose_x p + dx) (pose_y p + dy) = turn_pose k p to (ox, oy)) as Et by (unfold turn_pose; kernel_simpl; cbn [fst snd]; by rewrite Ed). rewrite Et.
  destruct (pose_fits k (turn_pose k p to (ox, oy))) eqn:Ef.
  - rewrite index_capped by done. split.
    + intros [= <-]. exists 0%nat, (ox, oy). split; [done|]. split; [done|]. split; [intros; lia|]. unfold rotation_evidence. kernel_simpl. cbn [fst snd]. rewrite Ed. cbn [fst snd]. by rewrite Z.add_0_r.
    + intros ([|i] & o & Ho & Hfo & Hj & ->); [|by rewrite (Hj 0%nat (ox, oy)) in Ef by (lia || done)]. injection Ho as <-. unfold rotation_evidence. kernel_simpl. cbn [fst snd]. rewrite Ed. cbn [fst snd]. by rewrite Z.add_0_r.
  - rewrite IH by (lia || (intros o Ho; apply Hb; by right)). split.
    + intros (i & o & Ho & Hfo & Hj & ->). exists (S i), o. split; [done|]. split; [done|]. split; [intros [|j] o' Hlt Ho'; [by injection Ho' as <-|by apply (Hj j); [lia|]]|]. do 3 f_equal. lia.
    + intros ([|i] & o & Ho & Hfo & Hj & ->); [injection Ho as <-; congruence|]. exists i, o. split; [done|]. split; [done|]. split; [intros j o' Hlt Ho'; by apply (Hj (S j)); [lia|]|]. do 3 f_equal. lia.
Qed.

Lemma kernel_rotation_spec p a s : pose_fits k p = true -> kernel_rotation k p a = Some s <->
  exists to offsets i o, rotation_target a (pose_rotation p) = Some to /\ sequence_for (k_kicks k) (mkTransition (k_piece k) (pose_rotation p) to) = Some offsets /\
    offsets !! i = Some o /\ pose_fits k (turn_pose k p to o) = true /\ (forall j o', (j < i)%nat -> offsets !! j = Some o' -> pose_fits k (turn_pose k p to o') = false) /\
    s = mkSuccessor (turn_pose k p to o) (Some (rotation_evidence k p a to (Z.of_nat i) o)).
Proof using Hk.
  intros Hp. unfold kernel_rotation. destruct (rotation_target a (pose_rotation p)) as [to|]; cbn [mbind option_bind]; [|split; [done|]; by intros (? & ? & ? & ? & [=] & _)].
  destruct (sequence_for (k_kicks k) (mkTransition (k_piece k) (pose_rotation p) to)) as [offsets|] eqn:Es; cbn [mbind option_bind].
  2:{ split; [done|]. intros (? & ? & ? & ? & [= <-] & Hs & _). congruence. }
  rewrite rotation_loop_spec by (done || (intros o Ho; by apply (ko_kicks _ Hk _ _ _ _ Es))). split.
  - intros (i & o & H1 & H2 & H3 & ->). exists to, offsets, i, o. by rewrite Z.add_0_l.
  - intros (to' & offsets' & i & o & [= <-] & Hs & H1 & H2 & H3 & ->). rewrite Es in Hs. injection Hs as <-. exists i, o. by rewrite Z.add_0_l.
Qed.

Lemma soft_drop_spec fuel p s : pose_fits k p = true -> (Z.to_nat (pose_y p) < fuel)%nat ->
  s ∈ soft_drop_loop fuel k p <-> exists n, 0 < n /\ free_way k p 0 (-1) n /\ pose_y p - n <= k_interaction_ceiling k /\ s = mkSuccessor (shift_pose p (n * 0) (n * -1)) None.
Proof using Hk.
  revert p. induction fuel as [|fuel IH]; intros p Hp Hf; [lia|]. cbn [soft_drop_loop]. rewrite translation_spec by (done || lia). destruct (pose_fits k (shift_pose p 0 (-1))) eqn:E.
  - pose proof (fits_position _ _ E) as [_ Hy]. cbn [successor_pose]. rewrite elem_of_app, IH by (done || (cbn in *; lia)). split.
    + intros [H|(n & Hn & Hw & Hi & ->)].
      * destruct (Z.leb_spec (pose_y (shift_pose p 0 (-1))) (k_interaction_ceiling k)) as [Hle|]; [|by apply not_elem_of_nil in H]. apply list_elem_of_singleton in H as ->. cbn in Hle. exists 1. split; [done|]. split; [intros m Hm; assert (m = 1) as -> by lia; by rewrite !Z.mul_1_l|]. split; [lia|done].
      * exists (n + 1). split; [lia|]. split; [apply free_way_S; [lia|done]|]. split; [cbn in Hi; lia|]. rewrite shift_shift. do 2 f_equal; lia.
    + intros (n & Hn & Hw & Hi & ->). destruct (decide (n = 1)) as [->|].
      * left. cbn. rewrite (proj2 (Z.leb_le _ _)) by lia. by left.
      * right. exists (n - 1). split; [lia|]. replace n with (n - 1 + 1) in Hw by lia. apply free_way_S in Hw as [_ Hw]; [|lia]. split; [done|]. split; [cbn; lia|]. rewrite shift_shift. do 2 f_equal; lia.
  - split; [intros H; by apply not_elem_of_nil in H|]. intros (n & Hn & Hw & _). specialize (Hw 1 ltac:(lia)). rewrite !Z.mul_1_l in Hw. congruence.
Qed.

(** The successors the kernel visits are the inputs of the rules. *)
Lemma successors_input p a s : pose_fits k p = true -> s ∈ successors k p a <-> input k p a (successor_pose s) (successor_rotation s).
Proof using Hk.
  intros Hp. assert (forall o : option Successor, s ∈ option_list o <-> o = Some s) as Hopt by (intros [s'|]; split; [intros ->%list_elem_of_singleton; done|intros [= ->]; by left|intros H; by apply not_elem_of_nil in H|done]).
  assert (forall b : bool, forall q, (if b then Some (mkSuccessor q None) else None) = Some s <-> b = true /\ s = mkSuccessor q None) as Htap by (intros [] q; naive_solver).
  unfold successors, single_successor. destruct a; rewrite ?Hopt, ?translation_spec, ?Htap, ?das_spec, ?kernel_rotation_spec, ?soft_drop_spec by (done || lia || tauto).
  - split; [intros [Hf ->]; by constructor|]. inversion 1; subst; [|done]. destruct s; cbn in *; by subst.
  - split; [intros [Hf ->]; by constructor|]. inversion 1; subst; [|done]. destruct s; cbn in *; by subst.
  - split; [intros (n & Hn & Hs & ->); by constructor|]. inversion 1; subst; [|done]. exists n. destruct s; cbn in *; by subst.
  - split; [intros (n & Hn & Hs & ->); by constructor|]. inversion 1; subst; [|done]. exists n. destruct s; cbn in *; by subst.
  - split; [intros (to & offsets & i & o & H1 & H2 & H3 & H4 & H5 & ->); by apply (input_rotate _ _ _ to offsets)|]. inversion 1; subst. exists to, offsets, i, o. destruct s; cbn in *; by subst.
  - split; [intros (to & offsets & i & o & H1 & H2 & H3 & H4 & H5 & ->); by apply (input_rotate _ _ _ to offsets)|]. inversion 1; subst. exists to, offsets, i, o. destruct s; cbn in *; by subst.
  - split; [intros (to & offsets & i & o & H1 & H2 & H3 & H4 & H5 & ->); by apply (input_rotate _ _ _ to offsets)|]. inversion 1; subst. exists to, offsets, i, o. destruct s; cbn in *; by subst.
  - split; [intros (n & Hn & Hs & Hi & ->); constructor; [done|done|by apply Z.leb_le]|]. inversion 1 as [| | | |n Hn Hs Hi|]; subst; [|done]. exists n. apply Z.leb_le in Hi. destruct s; cbn in *; by subst.
  - split; [done|]. inversion 1; subst. done.
Qed.
End Kernel.
