(* ===== verification/FinessePruning.v ===== *)
(** * The ceilings of the finesse search lose nothing

    The search keeps poses under a source ceiling and lets a soft drop stop
    only at or below an interaction ceiling.  Here the rules of classic inputs
    without any ceiling ([free_rules]) are compared with the rules a kernel
    searches.  A pose the free rules reach is never above the source ceiling;
    and a sequence of inputs that stops a soft drop in the empty sky is
    matched by one that is no longer and stays higher: the soft drop it saves
    is spent when the piece comes down to the interaction ceiling. *)

From Stdlib Require Import ZArith Lia.
From stdpp Require Import prelude strings.
From S2P Require Import Prelude Words Board PcBoard Pieces Kicks Reachability ReachTemplate Reach Finesse FinesseRules.

Local Open Scope Z_scope.

(** The same rules with no sky and no highest stop. *)
Definition free_rules (k : InputRules) : InputRules := mkRules (r_board k) (r_piece k) (r_kicks k) (r_spawn k) None None.

(** ** Kicks that do not climb in the open

    An upward kick is tried only after a kick that is not downward and that
    stays between the columns of the piece before the turn and after the
    upward kick, so that only a filled cell or the floor can refuse it. *)

Definition last_column (piece : PieceKind) (r : RotationState) : Z := max_or_zero (fst <$> piece_shape piece r).

(** The columns of a turn lie between those before it and those of another. *)
Definition turns_between (piece : PieceKind) (from to : RotationState) (o' o : KickOffset) : bool :=
  let dx' := fst (normalized_kick_delta piece from to (fst o') (snd o')) in
  let dx := fst (normalized_kick_delta piece from to (fst o) (snd o)) in
  (Z.min 0 dx <=? dx') && (dx' + last_column piece to <=? Z.max (last_column piece from) (dx + last_column piece to)).

Definition calm_offsets (piece : PieceKind) (from to : RotationState) (offsets : list KickOffset) : bool :=
  forallb (fun '(i, o) => (snd o <=? 0) || existsb (fun o' => (0 <=? snd o') && turns_between piece from to o' o) (take i offsets)) (imap pair offsets).

Definition calm_kicks (piece : PieceKind) (profile : KickTableProfile) : bool :=
  forallb (fun e => negb (bool_decide (tr_piece (entry_transition e) = piece)) || calm_offsets piece (tr_from (entry_transition e)) (tr_to (entry_transition e)) (entry_offsets e)) (entries profile).

(** The kick tables of the program are calm for every piece. *)
Lemma builtin_calm rule profile piece : builtin_kick_profile rule = Ok profile -> calm_kicks piece profile = true.
Proof. destruct rule; intros [= <-]; destruct piece; vm_compute; reflexivity. Qed.

Lemma calm_sequence piece profile from to offsets i o : calm_kicks piece profile = true -> sequence_for profile (mkTransition piece from to) = Some offsets -> offsets !! i = Some o -> 0 < snd o ->
  exists j o', (j < i)%nat /\ offsets !! j = Some o' /\ 0 <= snd o' /\ turns_between piece from to o' o = true.
Proof.
  unfold calm_kicks, sequence_for. rewrite forallb_forall. intros Hcalm Hs Ho Hup. destruct (list_find _ _) as [[n e]|] eqn:E; [|done]. injection Hs as <-. apply list_find_Some in E as (He & Et & _). apply list_elem_of_lookup_2, list_elem_of_In, Hcalm in He.
  rewrite Et in He. cbn [tr_piece tr_from tr_to] in He. rewrite bool_decide_true in He by done. cbn [negb orb] in He. unfold calm_offsets in He. rewrite forallb_forall in He. specialize (He (i, o)).
  lapply He; [|apply list_elem_of_In, list_elem_of_lookup; exists i; by rewrite list_lookup_imap, Ho]. rewrite (proj2 (Z.leb_gt _ _)) by lia. cbn [orb]. intros (o' & Hin & [H0 Hb]%andb_true_iff)%existsb_exists. apply list_elem_of_In, list_elem_of_lookup in Hin as [j Hj].
  apply lookup_take_Some in Hj as [Hj Hlt]. exists j, o'. apply Z.leb_le in H0. done.
Qed.

(** ** The highest filled cell *)

Lemma word_top m k : Board256Mask_ok m -> 0 <= k < 4 -> b256_words m !!! Z.to_nat k <> 0 -> (forall n, k < n < 4 -> b256_words m !!! Z.to_nat n = 0) ->
  let top := k * 64 + Z.log2 (b256_words m !!! Z.to_nat k) in 0 <= top < 256 /\ b256_bit m top = true /\ forall i, top < i -> b256_bit m i = false.
Proof.
  intros [Hlen Hw] Hk Hnz Hzero. set (w := b256_words m !!! Z.to_nat k) in *. assert (in_width 64 w) as Hwk by (rewrite Forall_forall in Hw; apply Hw, list_elem_of_lookup_2 with (Z.to_nat k), list_lookup_lookup_total_lt; lia).
  unfold in_width in Hwk. assert (0 <= Z.log2 w < 64) as Hl by (split; [apply Z.log2_nonneg|apply Z.log2_lt_pow2; lia]). cbn zeta. split; [lia|]. split.
  - rewrite b256_bit_in by lia. replace ((k * 64 + Z.log2 w) / 64) with k by (apply Z.div_unique with (Z.log2 w); lia). replace ((k * 64 + Z.log2 w) mod 64) with (Z.log2 w) by (apply Z.mod_unique with k; lia). apply Z.bit_log2. lia.
  - intros i Hi. destruct (decide (i < 256)); [|apply b256_bit_out; lia]. rewrite b256_bit_in by lia. pose proof (Z.div_mod i 64 ltac:(lia)). pose proof (Z.mod_pos_bound i 64 ltac:(lia)).
    destruct (decide (i / 64 = k)) as [E|]; [rewrite E in *; apply Z.bits_above_log2; fold w; lia|]. rewrite Hzero by lia. apply Z.testbit_0_l.
Qed.

(** The height is that of the highest filled cell, or zero. *)
Lemma occupied_height_top b : Board256Mask_ok (finesse_occupied b) ->
  ((forall i, b256_bit (finesse_occupied b) i = false) /\ occupied_height b = 0) \/
  exists top, 0 <= top < 256 /\ b256_bit (finesse_occupied b) top = true /\ (forall i, top < i -> b256_bit (finesse_occupied b) i = false) /\ occupied_height b = top / board_width b + 1.
Proof.
  intros Hok. pose proof (word_top _ 0 Hok ltac:(lia)) as T0. pose proof (word_top _ 1 Hok ltac:(lia)) as T1. pose proof (word_top _ 2 Hok ltac:(lia)) as T2. pose proof (word_top _ 3 Hok ltac:(lia)) as T3.
  destruct (b256_destruct _ Hok) as (w0 & w1 & w2 & w3 & Ew & _). unfold occupied_height. rewrite Ew in *. cbn in T0, T1, T2, T3 |- *.
  assert (forall n, n = 0 \/ n = 1 \/ n = 2 \/ n = 3 -> [w0; w1; w2; w3] !!! Z.to_nat n = match n with 0 => w0 | 1 => w1 | 2 => w2 | _ => w3 end) as Hn by (by intros n [->|[->|[->| ->]]]).
  destruct (Z.eqb_spec w3 0) as [E3|E3]; cbn; [|right; eexists; split_and!; try apply T3; try done; intros; lia].
  destruct (Z.eqb_spec w2 0) as [E2|E2]; cbn; [|right; eexists; split_and!; try apply T2; try done; intros n ?; rewrite Hn by lia; by assert (n = 3) as -> by lia].
  destruct (Z.eqb_spec w1 0) as [E1|E1]; cbn; [|right; eexists; split_and!; try apply T1; try done; intros n ?; rewrite Hn by lia; by assert (n = 2 \/ n = 3) as [-> | ->] by lia].
  destruct (Z.eqb_spec w0 0) as [E0|E0]; cbn; [|right; eexists; split_and!; try apply T0; try done; intros n ?; rewrite Hn by lia; by assert (n = 1 \/ n = 2 \/ n = 3) as [->|[-> | ->]] by lia].
  left. split; [|done]. subst. intros i. destruct (decide (0 <= i < 256)); [|apply b256_bit_out; lia]. rewrite b256_bit_in by done. cell_words i; apply Z.testbit_0_l.
Qed.

(** Every row from it on is empty, and it is a row of the layout. *)
Lemma occupied_height_sky b : 0 < board_width b -> 0 < board_height b -> Board256Mask_ok (finesse_occupied b) -> (forall i, b256_bit (finesse_occupied b) i = true -> i < board_width b * board_height b) ->
  0 <= occupied_height b <= board_height b /\ forall x y, 0 <= x < board_width b -> occupied_height b <= y -> b256_bit (finesse_occupied b) (y * board_width b + x) = false.
Proof.
  intros Hw Hh Hok Hin. destruct (occupied_height_top b Hok) as [[Hempty ->]|(top & Ht & Hbit & Habove & ->)]; [split; [lia|done]|]. specialize (Hin top Hbit). pose proof (Z.div_mod top (board_width b) ltac:(lia)). pose proof (Z.mod_pos_bound top (board_width b) Hw).
  split; [split; [pose proof (Z.div_pos top (board_width b)); lia|]; pose proof (Z.div_lt_upper_bound top (board_width b) (board_height b)); lia|]. intros x y Hx Hy. apply Habove. nia.
Qed.

(** ** Columns and centers of a piece *)

Lemma last_column_spec piece r : Exists (fun c => fst c = last_column piece r) (piece_shape piece r) /\ Forall (fun c => fst c <= last_column piece r) (piece_shape piece r).
Proof. destruct piece, r; (split; decided). Qed.

Definition center_y (piece : PieceKind) (r : RotationState) : Z := snd (normalized_rotation_center piece r).

Lemma center_y_bound piece r : 0 <= center_y piece r <= 2.
Proof. destruct piece, r; vm_compute; split; discriminate. Qed.

Lemma center_y_zero piece : center_y piece Zero = 0.
Proof. by destruct piece. Qed.

Lemma turn_y k p to o : pose_y (turn_pose k p to o) = pose_y p + snd o + center_y (r_piece k) (pose_rotation p) - center_y (r_piece k) to.
Proof.
  unfold turn_pose, center_y, normalized_kick_delta. cbn [pose_y]. destruct (normalized_rotation_center (r_piece k) (pose_rotation p)), (normalized_rotation_center (r_piece k) to). cbn [fst snd]. lia.
Qed.

(** What the ceilings of a kernel must allow for: nothing is filled from row
    [occ] on, a kick lowers a piece by at most [down] rows and its center rises
    by at most [rise]. *)
Record pruning_ok (k : SearchKernel) (occ down rise : Z) : Prop := {
  pr_floor : 0 <= occ /\ 0 <= down;
  pr_empty : forall x y, 0 <= x < board_width (k_board k) -> occ <= y -> b256_bit (finesse_occupied (k_board k)) (y * board_width (k_board k) + x) = false;
  pr_kicks : forall from to offsets o, sequence_for (k_kicks k) (mkTransition (k_piece k) from to) = Some offsets -> o ∈ offsets ->
    - down <= snd (normalized_kick_delta (k_piece k) from to (fst o) (snd o)) /\ snd o <= rise;
  pr_calm : calm_kicks (k_piece k) (k_kicks k) = true;
  pr_spawn : pose_rotation (k_spawn k) = Zero;
  pr_ceiling : Z.max (pose_y (k_spawn k)) (occ + 1 + rise) <= k_ceiling k;
  pr_stop : k_interaction_ceiling k = occ + down
}.

Section Pruning.
Context (k : SearchKernel) (occ down rise : Z) (Hpr : pruning_ok k occ down rise).

Local Notation F := (free_rules k).
Local Notation width := (board_width (k_board k)).

(** *** Fitting without a ceiling *)

Lemma fits_below p : pose_y p <= k_ceiling k -> pose_fits k p = pose_fits F p.
Proof using Type. intros Hy. unfold pose_fits, free_rules. cbn. by rewrite (proj2 (Z.leb_le _ _)). Qed.

Lemma fits_free p : pose_fits k p = true -> pose_fits F p = true /\ pose_y p <= k_ceiling k.
Proof using Type. intros Hp. pose proof (fits_position _ _ Hp) as [_ Hy]. rewrite fits_below in Hp by lia. split; [done|lia]. Qed.

Lemma fits_columns p : pose_fits F p = true -> 0 <= pose_x p /\ pose_x p + last_column (k_piece k) (pose_rotation p) < width.
Proof using Type.
  intros Hp. pose proof (fits_inside _ _ Hp) as (Hx & _). cbn in Hx. split; [lia|]. unfold pose_fits in Hp. apply andb_true_iff in Hp as [_ Hp]. rewrite forallb_forall in Hp.
  destruct (last_column_spec (k_piece k) (pose_rotation p)) as [(c & Hc & Ec)%Exists_exists _]. apply list_elem_of_In, Hp in Hc. unfold free_cell in Hc. cbn in Hc. rewrite !andb_true_iff, !Z.leb_le, !Z.ltb_lt in Hc. lia.
Qed.

(** In the sky only the walls stop a piece. *)
Lemma fits_in_sky p : occ <= pose_y p -> pose_fits F p = true <-> 0 <= pose_x p /\ pose_x p + last_column (k_piece k) (pose_rotation p) < width.
Proof using Hpr.
  intros Hy. destruct (pr_floor _ _ _ _ Hpr) as [Hocc _]. split; [apply fits_columns|]. intros [Hx Hx']. unfold pose_fits. cbn [free_rules r_sky not_above andb]. apply forallb_forall. intros c Hc%list_elem_of_In. cbn [free_rules r_piece] in Hc.
  destruct (shape_normal (k_piece k) (pose_rotation p)) as (_ & _ & Hn), (last_column_spec (k_piece k) (pose_rotation p)) as [_ Hlast]. rewrite Forall_forall in Hn, Hlast. specialize (Hn c Hc). specialize (Hlast c Hc). cbn in Hn, Hlast.
  unfold free_cell. cbn [free_rules r_board kernel_rules]. rewrite (pr_empty _ _ _ _ Hpr) by lia. rewrite !andb_true_iff, !Z.leb_le, !Z.ltb_lt. split; [lia|]. by rewrite orb_true_r.
Qed.

Lemma sky_shift p h : occ <= pose_y p -> 0 <= h -> pose_fits F (shift_pose p 0 h) = pose_fits F p.
Proof using Hpr. intros Hy Hh. apply eq_iff_eq_true. rewrite !fits_in_sky by (cbn; lia). cbn. by rewrite Z.add_0_r. Qed.

Lemma way_below p dx dy n : pose_y p <= k_ceiling k -> dy <= 0 -> free_way k p dx dy n <-> free_way F p dx dy n.
Proof using Type. intros Hy Hdy. unfold free_way. split; intros H m Hm; specialize (H m Hm); rewrite fits_below in * by (cbn; nia); done. Qed.

Lemma stops_below p dx dy n : pose_y p <= k_ceiling k -> dy <= 0 -> 0 <= n -> stops_after k p dx dy n <-> stops_after F p dx dy n.
Proof using Type. intros Hy Hdy Hn. unfold stops_after. rewrite way_below, fits_below by (cbn; nia). done. Qed.

Lemma lands_below p q : pose_y p <= k_ceiling k -> lands k p q <-> lands F p q.
Proof using Type. intros Hy. unfold lands. split; intros (n & Hn & Hs & ->); exists n; (split; [done|]; split; [by apply stops_below|done]). Qed.

(** *** Nothing rises above the source ceiling *)

(** The height of the center of a piece, which turns alone do not change. *)
Definition low (p : PiecePose) : Prop := pose_y p + center_y (k_piece k) (pose_rotation p) <= Z.max (pose_y (k_spawn k)) (occ + 1 + rise).

Lemma low_below p : low p -> pose_y p <= k_ceiling k.
Proof using Hpr. unfold low. pose proof (pr_ceiling _ _ _ _ Hpr). pose proof (center_y_bound (k_piece k) (pose_rotation p)). lia. Qed.

Lemma spawn_low : low (k_spawn k).
Proof using Hpr. unfold low. rewrite (pr_spawn _ _ _ _ Hpr), center_y_zero. lia. Qed.

(** A kick goes up only where a filled cell or the floor is in the way. *)
Lemma climb_blocked p to offsets i o : pose_fits F p = true -> sequence_for (k_kicks k) (mkTransition (k_piece k) (pose_rotation p) to) = Some offsets -> offsets !! i = Some o ->
  pose_fits F (turn_pose F p to o) = true -> (forall j o', (j < i)%nat -> offsets !! j = Some o' -> pose_fits F (turn_pose F p to o') = false) -> 0 < snd o -> pose_y (turn_pose F p to o) < occ + snd o.
Proof using Hpr.
  intros Hp Hs Ho Hq Hj Hup. destruct (calm_sequence _ _ _ _ _ _ _ (pr_calm _ _ _ _ Hpr) Hs Ho Hup) as (j & o' & Hlt & Ho' & H0 & Hb). specialize (Hj j o' Hlt Ho'). destruct (Z.lt_ge_cases (pose_y (turn_pose F p to o')) occ) as [Hy|Hy].
  { rewrite turn_y in Hy |- *. lia. }
  exfalso. apply not_true_iff_false in Hj. apply Hj, (fits_in_sky _ Hy). apply fits_columns in Hp, Hq. unfold turns_between in Hb. apply andb_true_iff in Hb as [Hb1%Z.leb_le Hb2%Z.leb_le]. cbn in *. lia.
Qed.

Lemma low_input p a q r : pose_fits F p = true -> low p -> input F p a q r -> low q.
Proof using Hpr.
  intros Hp Hl Hi. destruct Hi as [H|H|n Hn H|n Hn H|n Hn H Hi|a to offsets i o Ht Hs Ho Hf Hj]; unfold low in *; cbn [shift_pose pose_y pose_rotation]; try lia.
  change (pose_rotation (turn_pose F p to o)) with to. destruct (Z.lt_ge_cases 0 (snd o)) as [Hup|Hup]; [|rewrite turn_y; cbn [free_rules r_piece kernel_rules]; lia]. pose proof (climb_blocked p to offsets i o Hp Hs Ho Hf Hj Hup) as Hc.
  destruct (pr_kicks _ _ _ _ Hpr _ _ _ _ Hs (list_elem_of_lookup_2 _ _ _ Ho)) as [_ Hr]. pose proof (center_y_bound (k_piece k) to). lia.
Qed.

(** *** The inputs of the kernel are the free inputs it does not prune *)

(** The kicks tried before the one taken fit neither way. *)
Lemma first_kick p a to offsets i o : pose_fits F p = true -> low p -> rotation_target a (pose_rotation p) = Some to -> sequence_for (k_kicks k) (mkTransition (k_piece k) (pose_rotation p) to) = Some offsets ->
  (forall j o', (j < i)%nat -> offsets !! j = Some o' -> pose_fits k (turn_pose k p to o') = false) -> offsets !! i = Some o ->
  forall j o', (j < i)%nat -> offsets !! j = Some o' -> pose_fits F (turn_pose F p to o') = false.
Proof using Hpr.
  intros Hp Hl Ht Hs Hno Ho j. induction j as [j IH] using lt_wf_ind. intros o' Hj Ho'. apply not_true_iff_false. intros Hf. pose proof (Hno j o' Hj Ho') as Hk. change (turn_pose k p to o') with (turn_pose F p to o') in Hk. rewrite fits_below in Hk; [by rewrite Hf in Hk|]. apply low_below. apply (low_input p a _ _ Hp Hl (input_rotate F p a to offsets j o' Ht Hs Ho' Hf (fun j' o'' Hj' => IH j' Hj' o'' ltac:(lia)))).
Qed.

Lemma input_pruned p a q r : pose_fits F p = true -> low p -> input k p a q r <-> input F p a q r /\ (a = SoftDrop -> pose_y q <= occ + down).
Proof using Hpr.
  intros Hp Hl. pose proof (low_below p Hl) as Hy. split.
  - intros Hi. destruct Hi as [H|H|n Hn H|n Hn H|n Hn H Hi|a to offsets i o Ht Hs Ho Hf Hj].
    1-2: split; [constructor; by rewrite <- fits_below by (cbn; lia)|done].
    1-2: split; [constructor; [done|]; by apply stops_below; [lia|lia|lia|]|done].
    + split; [constructor; [done|by apply way_below; [lia|lia|]|done]|]. intros _. apply Z.leb_le in Hi. rewrite (pr_stop _ _ _ _ Hpr) in Hi. cbn. lia.
    + apply fits_free in Hf as [Hf _]. split; [|intros ->; done]. apply (input_rotate F p a to offsets i o Ht Hs Ho Hf). by apply (first_kick p a to offsets i o).
  - intros [Hi Hd]. pose proof (low_input p a q r Hp Hl Hi) as Hq%low_below. destruct Hi as [H|H|n Hn H|n Hn H|n Hn H Hi|a to offsets i o Ht Hs Ho Hf Hj].
    1-2: constructor; by rewrite fits_below by (cbn; lia).
    1-2: constructor; [done|]; by apply stops_below; [lia|lia|lia|].
    + constructor; [done|by apply way_below; [lia|lia|]|]. specialize (Hd eq_refl). apply Z.leb_le. rewrite (pr_stop _ _ _ _ Hpr). cbn in Hd. lia.
    + apply (input_rotate k p a to offsets i o Ht Hs Ho); [by rewrite fits_below|]. intros j o' Hlt Ho'. specialize (Hj j o' Hlt Ho'). apply not_true_iff_false in Hj. apply not_true_iff_false. by intros [Hf' _]%fits_free.
Qed.

(** What the kernel does is possible under the free rules. *)
Lemma route_free actions p r : route k actions p r -> route F actions p r /\ low p.
Proof using Hpr.
  induction 1 as [H|actions p r a q r' _ [IH Hl] Hi].
  - apply fits_free in H as [H _]. split; [exact (route_spawn F H)|apply spawn_low].
  - pose proof (route_fits _ _ _ _ IH) as Hp. apply input_pruned in Hi as [Hi _]; [|done|done]. split; [by apply (route_input F _ p r)|by apply (low_input p a q r')].
Qed.

Lemma places_free actions lock ev : places k actions lock ev -> places F actions lock ev.
Proof using Hpr. intros (p & r & [Hr Hl]%route_free & Hland & Hin & Hev). exists p, r. split; [done|]. split; [by apply lands_below; [apply low_below|]|done]. Qed.

(** *** Empty sky is the same at every height *)

Lemma lift_input p a q r h : occ + down < pose_y p -> 0 <= h -> a <> SoftDrop -> input F p a q r -> (exists r', input F (shift_pose p 0 h) a (shift_pose q 0 h) r') /\ occ < pose_y q.
Proof using Hpr.
  intros Hy Hh Ha Hi. destruct (pr_floor _ _ _ _ Hpr) as [Hocc Hdown]. assert (forall dx, pose_fits F (shift_pose (shift_pose p 0 h) dx 0) = pose_fits F (shift_pose p dx 0)) as Hrow.
  { intros dx. rewrite shift_shift, <- (sky_shift (shift_pose p dx 0) h), shift_shift by (cbn; lia). do 2 f_equal; lia. }
  assert (forall dx n, stops_after F p dx 0 n -> stops_after F (shift_pose p 0 h) dx 0 n) as Hstops.
  { intros dx n [H1 H2]. rewrite Z.mul_0_r in H2. split; [intros m Hm; specialize (H1 m Hm); rewrite Z.mul_0_r in *|rewrite Z.mul_0_r]; by rewrite Hrow. }
  assert (forall dx dy, shift_pose (shift_pose p dx dy) 0 h = shift_pose (shift_pose p 0 h) dx dy) as Hswap by (intros dx dy; rewrite !shift_shift; f_equal; lia).
  destruct Hi as [H|H|n Hn H|n Hn H|n Hn H Hi|a to offsets i o Ht Hs Ho Hf Hj].
  1-2: split; [|cbn; lia]; exists None; rewrite Hswap; constructor; by rewrite Hrow.
  1-2: split; [|cbn; lia]; exists None; rewrite Hswap; constructor; [done|by apply Hstops].
  { done. }
  assert (forall o', turn_pose F (shift_pose p 0 h) to o' = shift_pose (turn_pose F p to o') 0 h) as Hturn by (intros o'; unfold turn_pose, shift_pose; cbn; f_equal; lia).
  assert (forall o', o' ∈ offsets -> occ < pose_y (turn_pose F p to o')) as Hhigh by (intros o' Ho'; destruct (pr_kicks _ _ _ _ Hpr _ _ _ _ Hs Ho') as [Hd _]; unfold turn_pose; cbn [pose_y]; cbn in Hd |- *; lia).
  assert (forall o', o' ∈ offsets -> pose_fits F (turn_pose F (shift_pose p 0 h) to o') = pose_fits F (turn_pose F p to o')) as Hfit by (intros o' Ho'; rewrite Hturn; apply sky_shift; [specialize (Hhigh o' Ho'); lia|done]).
  split; [|apply Hhigh; by apply list_elem_of_lookup_2 in Ho]. eexists. rewrite <- Hturn. apply (input_rotate F (shift_pose p 0 h) a to offsets i o Ht Hs Ho).
  - rewrite Hfit; [done|by apply list_elem_of_lookup_2 in Ho].
  - intros j o' Hlt Ho'. rewrite Hfit by (by apply list_elem_of_lookup_2 in Ho'). by apply (Hj j).
Qed.

(** A drop from higher up in the sky passes through the same poses. *)
Lemma way_above p h n : pose_fits F p = true -> occ <= pose_y p -> 0 <= h -> free_way F p 0 (-1) n -> free_way F (shift_pose p 0 h) 0 (-1) (h + n).
Proof using Hpr.
  intros Hp Hy Hh Hw m Hm. rewrite shift_shift. destruct (Z.le_gt_cases m h) as [Hle|Hgt].
  - replace (0 + m * 0) with 0 by lia. rewrite sky_shift by lia. done.
  - specialize (Hw (m - h) ltac:(lia)). by replace ((m - h) * 0) with (0 + m * 0) in Hw by lia; replace ((m - h) * -1) with (h + m * -1) in Hw by lia.
Qed.

Lemma lands_above p h q : pose_fits F p = true -> occ <= pose_y p -> 0 <= h -> lands F p q -> lands F (shift_pose p 0 h) q.
Proof using Hpr.
  intros Hp Hy Hh (n & Hn & [Hw Hs] & ->). exists (h + n). split; [lia|]. split; [split; [by apply way_above|]|rewrite shift_shift; f_equal; lia]. rewrite shift_shift. by replace (0 + (h + n + 1) * 0) with ((n + 1) * 0) by lia; replace (h + (h + n + 1) * -1) with ((n + 1) * -1) by lia.
Qed.

(** A piece in the sky falls by a row or more, so its rotation is forgotten. *)
Lemma sky_falls p q r : pose_fits F p = true -> occ < pose_y p -> lands F p q -> evidence_after p r q = LabelNoRotation.
Proof using Hpr.
  intros Hp Hy Hl. unfold evidence_after. destruct (Z.eqb_spec (pose_y p) (pose_y q)) as [E|]; [|done]. apply (lands_same_row F p q Hl) in E as ->. exfalso. apply (lands_rests F p p Hp) in Hl. unfold rests in Hl. apply andb_true_iff in Hl as [_ Hl%negb_true_iff].
  rewrite <- (sky_shift _ 1) in Hl by (cbn; lia). rewrite shift_shift in Hl. replace (0 + 0) with 0 in Hl by lia. replace (-1 + 1) with 0 in Hl by lia. rewrite shift_zero in Hl. congruence.
Qed.

(** *** The simulation *)

(** How a route of the kernel stands to a free route: at the same pose with no
    more inputs, and with the same rotation unless the piece is in the sky
    where it will be forgotten; or higher in the same columns of the sky, with
    an input to spare. *)
Inductive matches (n : nat) (p : PiecePose) (r : option RotationArrival) (n' : nat) : PiecePose -> option RotationArrival -> Prop :=
| matches_same r' : (n' <= n)%nat -> r' = r \/ occ < pose_y p -> matches n p r n' p r'
| matches_above h r' : (n' < n)%nat -> 0 < h -> occ + down < pose_y p -> matches n p r n' (shift_pose p 0 h) r'.

(** A soft drop of the kernel from the sky to a pose it may stop at. *)
Lemma drop_to p h n : pose_fits F p = true -> low (shift_pose p 0 h) -> occ <= pose_y p -> 0 <= h -> 0 <= n -> 0 < h + n -> free_way F p 0 (-1) n -> pose_y p - n <= occ + down ->
  input k (shift_pose p 0 h) SoftDrop (shift_pose p (n * 0) (n * -1)) None.
Proof using Hpr.
  intros Hp Hl Hy Hh Hn Hpos Hw Hstop. apply input_pruned; [by rewrite sky_shift|done|]. split; [|intros _; cbn; lia].
  replace (shift_pose p (n * 0) (n * -1)) with (shift_pose (shift_pose p 0 h) ((h + n) * 0) ((h + n) * -1)) by (rewrite shift_shift; f_equal; lia). constructor; [done|by apply way_above|done].
Qed.

Lemma match_same_step p a q r2 n actions r' : pose_fits F p = true -> input F p a q r2 -> route k actions p r' -> (length actions <= n)%nat ->
  exists actions' q' r2', route k actions' q' r2' /\ matches (S n) q r2 (length actions') q' r2'.
Proof using Hpr.
  intros Hp Hi Hr Hn. destruct (route_free _ _ _ Hr) as [_ Hl]. destruct (decide (a = SoftDrop /\ occ + down < pose_y q)) as [[-> Hq]|Hno].
  - exists actions, p, r'. split; [done|]. inversion Hi as [| | | |m Hm Hw Hs|]; subst; [|done]. cbn in Hq. assert (shift_pose (shift_pose p (m * 0) (m * -1)) 0 m = p) as E by (rewrite shift_shift, <- (shift_zero p); rewrite shift_shift; f_equal; lia).
    pose proof (matches_above (S n) (shift_pose p (m * 0) (m * -1)) None (length actions) m r' ltac:(lia) ltac:(lia) ltac:(cbn; lia)) as Hm'. by rewrite E in Hm'.
  - exists (actions ++ [a]), q, r2. split; [|constructor; [rewrite length_app; cbn; lia|by left]]. apply (route_input k _ p r'); [done|]. apply input_pruned; [done|done|]. split; [done|]. intros ->. destruct (Z.le_gt_cases (pose_y q) (occ + down)); [done|tauto].
Qed.

Lemma match_above_step p a q r2 n actions h r' : pose_fits F p = true -> input F p a q r2 -> route k actions (shift_pose p 0 h) r' -> (length actions < n)%nat -> 0 < h -> occ + down < pose_y p ->
  exists actions' q' r2', route k actions' q' r2' /\ matches (S n) q r2 (length actions') q' r2'.
Proof using Hpr.
  intros Hp Hi Hr Hn Hh Hy. destruct (pr_floor _ _ _ _ Hpr) as [Hocc Hdown]. destruct (route_free _ _ _ Hr) as [Hrf Hl]. pose proof (route_fits _ _ _ _ Hrf) as Hp'. pose proof (input_fits _ _ _ _ _ Hi) as Hq. destruct (decide (a = SoftDrop)) as [->|Ha].
  - inversion Hi as [| | | |m Hm Hw Hs|]; subst; [|done]. destruct (Z.le_gt_cases (pose_y p - m) (occ + down)) as [Hle|Hgt].
    + exists (actions ++ [SoftDrop]), (shift_pose p (m * 0) (m * -1)), None. split; [|constructor; [rewrite length_app; cbn; lia|by left]]. apply (route_input k _ (shift_pose p 0 h) r'); [done|]. apply drop_to; try done; lia.
    + exists actions, (shift_pose p 0 h), r'. split; [done|]. replace (shift_pose p 0 h) with (shift_pose (shift_pose p (m * 0) (m * -1)) 0 (m + h)) by (rewrite shift_shift; f_equal; lia). constructor; [lia|lia|cbn; lia].
  - destruct (lift_input p a q r2 h Hy ltac:(lia) Ha Hi) as [[r3 Hi'] Hqy].
    assert (route k (actions ++ [a]) (shift_pose q 0 h) r3) as Hr' by (apply (route_input k _ (shift_pose p 0 h) r'); [done|by apply input_pruned]). destruct (Z.le_gt_cases (pose_y q) (occ + down)) as [Hle|Hgt].
    + exists ((actions ++ [a]) ++ [SoftDrop]), q, None. split; [|constructor; [rewrite !length_app; cbn; lia|by right]]. apply (route_input k _ (shift_pose q 0 h) r3); [done|]. rewrite <- (shift_zero q) at 2. apply (drop_to q h 0); try done; try lia; [apply (route_free _ _ _ Hr')|intros m Hm; lia].
    + exists (actions ++ [a]), (shift_pose q 0 h), r3. split; [done|]. constructor; [rewrite length_app; cbn; lia|done|done].
Qed.

Lemma route_matched actions p r : route F actions p r -> exists actions' p' r', route k actions' p' r' /\ matches (length actions) p r (length actions') p' r'.
Proof using Hpr.
  induction 1 as [H|actions p r a q r2 Hr (actions' & p' & r' & Hr' & Hm) Hi].
  - exists [], (k_spawn k), None. split; [|constructor; [done|by left]]. constructor. change (pose_fits F (k_spawn k) = true) in H. rewrite fits_below; [done|]. apply low_below, spawn_low.
  - apply route_fits in Hr. rewrite length_app, Nat.add_1_r. destruct Hm as [r' Hn _|h r' Hn Hh Hy]; [by apply (match_same_step p a q r2 _ actions' r')|by apply (match_above_step p a q r2 _ actions' h r')].
Qed.

(** A lock of the free rules is one of the kernel with no more inputs. *)
Lemma places_pruned actions lock ev : places F actions lock ev -> exists actions', (length actions' <= length actions)%nat /\ places k actions' lock ev.
Proof using Hpr.
  intros (p & r & Hr & Hl & Hin & ->). destruct (pr_floor _ _ _ _ Hpr) as [Hocc Hdown]. destruct (route_matched _ _ _ Hr) as (actions' & p' & r' & Hr' & Hm). exists actions'. apply route_fits in Hr. pose proof (proj2 (route_free _ _ _ Hr')) as Hlow%low_below.
  destruct Hm as [r' Hn Hev|h r' Hn Hh Hy].
  - split; [done|]. exists p, r'. split; [done|]. split; [by apply lands_below|]. split; [done|]. destruct Hev as [->|Hy]; [done|]. by rewrite !sky_falls by done.
  - split; [lia|]. assert (lands F (shift_pose p 0 h) lock) as Hl' by (apply lands_above; try done; lia). exists (shift_pose p 0 h), r'. split; [done|]. split; [by apply lands_below|]. split; [done|].
    rewrite (sky_falls p lock r) by (done || lia). by rewrite (sky_falls (shift_pose p 0 h) lock r'); [|rewrite sky_shift by lia|cbn; lia|].
Qed.
End Pruning.
