(* ===== verification/FinesseSearch.v ===== *)
(** * The searches as breadth-first searches

    The queues and vectors of the finesse searches represent the entries of a
    breadth-first search over poses ([Bfs]) whose paths are the routes of the
    rules.  The chains of targets and the loops over them are related to the
    list of targets of a pose. *)

From Stdlib Require Import ZArith Lia.
From stdpp Require Import prelude strings.
From S2P Require Import Prelude Words Board PcBoard Pieces Kicks Reachability ReachTemplate Reach Finesse FinesseRules Bfs.

Local Open Scope Z_scope.

(** ** Folds that may fail *)

Lemma try_fold_rel {E A B S} (R : A -> S -> Prop) (step : S -> B -> Result E S) (f : A -> B -> A) (l : list B) a s :
  (forall a s b, b ∈ l -> R a s -> exists s', step s b = Ok s' /\ R (f a b) s') -> R a s -> exists s', try_fold step s l = Ok s' /\ R (foldl f a l) s'.
Proof.
  revert a s. induction l as [|b l IH]; intros a s Hstep HR; cbn [try_fold foldl]; [by exists s|]. destruct (Hstep a s b ltac:(by left) HR) as (s1 & -> & H1). cbn [rbind]. apply IH; [|done]. intros a' s' b' Hb. apply Hstep. by right.
Qed.

Lemma foldl_bind {A B C} (f : A -> C -> A) (g : B -> list C) (l : list B) a : foldl f a (l ≫= g) = foldl (fun a b => foldl f a (g b)) a l.
Proof. revert a. induction l as [|b l IH]; intros a; [done|]. cbn [mbind list_bind foldl]. by rewrite foldl_app, IH. Qed.

Lemma foldl_fmap {A B C} (f : A -> C -> A) (g : B -> C) (l : list B) a : foldl f a (g <$> l) = foldl (fun a b => f a (g b)) a l.
Proof. revert a. induction l as [|b l IH]; intros a; [done|]. cbn. apply IH. Qed.

Lemma get_at_Some {A} (l : list A) i a : l !! Z.to_nat i = Some a -> get_at l i = Ok a.
Proof. unfold get_at. by intros ->. Qed.

Lemma set_at_Ok {A} (l : list A) i (a : A) : (Z.to_nat i < length l)%nat -> set_at l i a = Ok (<[Z.to_nat i := a]> l).
Proof. intros H. unfold set_at. by rewrite (proj2 (Nat.ltb_lt _ _)). Qed.

Lemma add_cost_Ok d n : 0 <= d + n < 2 ^ 32 -> add_cost d n = Ok (d + n).
Proof. intros H. unfold add_cost, checked_add, fail_with. by rewrite (proj2 (Z.ltb_lt _ _)) by lia. Qed.

Section Search.
Context (k : SearchKernel) (Hk : kernel_ok k) (Hspawn : pose_fits k (k_spawn k) = true).

Local Notation idx := (kernel_state_index k).
Local Notation count := (Z.to_nat (k_state_count k)).

(** ** The graph of poses *)

(** How a pose was first reached: from where, by which input. *)
Notation Via := (option (PiecePose * ClassicInputAction * option RotationArrival)).

Definition via_rotation (x : Via) : option RotationArrival := x ≫= snd.

Definition pose_edges (p : PiecePose) : list (PiecePose * Via) :=
  EXPANSION_ORDER ≫= (fun a => (fun s => (successor_pose s, Some (p, a, successor_rotation s))) <$> successors k p a).

Definition pose_path : nat -> PiecePose -> Via -> Prop := path pose_edges (k_spawn k) None.

Local Notation inv := (bfs_inv pose_edges (k_spawn k) None).
Local Notation entries_of := (list (PiecePose * (nat * Via))).

Lemma elem_of_pose_edges p q x : pose_fits k p = true -> (q, x) ∈ pose_edges p <-> exists a r, x = Some (p, a, r) /\ input k p a q r.
Proof using Hk Hspawn.
  intros Hp. unfold pose_edges. rewrite list_elem_of_bind. split.
  - intros (a & (s & [= -> ->] & Hs)%list_elem_of_fmap & _). exists a, (successor_rotation s). split; [done|]. by apply successors_input.
  - intros (a & r & -> & Hi). exists a. split; [apply list_elem_of_fmap; exists (mkSuccessor q r); split; [done|]; by apply successors_input|].
    unfold EXPANSION_ORDER. destruct Hi as [| | | | |a to offsets i o Ht _ _ _ _]; try set_solver. destruct a; cbn in Ht; try done; set_solver.
Qed.

Lemma path_route n p x : pose_path n p x -> exists actions, length actions = n /\ route k actions p (via_rotation x).
Proof using Hk Hspawn.
  induction 1 as [|n u x v y _ (actions & Hl & Hr) He]; [exists []; split; [done|by constructor]|]. apply elem_of_pose_edges in He as (a & r & -> & Hi); [|by apply route_fits in Hr].
  exists (actions ++ [a]). split; [rewrite length_app; cbn; lia|]. by apply (route_input k actions u (via_rotation x)).
Qed.

Lemma route_path actions p r : route k actions p r -> exists x, pose_path (length actions) p x /\ via_rotation x = r.
Proof using Hk Hspawn.
  induction 1 as [_|actions p r a q r' Hr (x & Hp & Hx) Hi]; [exists None; split; [constructor|done]|]. exists (Some (p, a, r')). split; [|done]. rewrite length_app, Nat.add_comm. cbn.
  apply (path_edge _ _ _ _ p x); [done|]. apply elem_of_pose_edges; [by apply route_fits in Hr|]. by exists a, r'.
Qed.

Lemma path_fits n p x : pose_path n p x -> pose_fits k p = true.
Proof using Hk Hspawn. intros (actions & _ & Hr)%path_route. by apply route_fits in Hr. Qed.

Lemma entry_fits c q p d x : inv c q -> (p, (d, x)) ∈ q -> pose_fits k p = true.
Proof using Hk Hspawn. intros Hinv [i Hi]%list_elem_of_lookup. by apply (path_fits d p x), (entry_path _ _ _ c q i). Qed.

(** ** Sizes *)

Lemma count_bound : 0 <= k_state_count k < 2 ^ 31.
Proof using Hk. rewrite (ko_count _ Hk). pose proof (ko_ceiling _ Hk). pose proof (width_bound k Hk). nia. Qed.

Lemma kidx_bound v i : idx v = Some i -> 0 <= i < Z.of_nat count.
Proof using Hk. intros H. pose proof (kindex_bound k Hk v i H). lia. Qed.

Lemma pose_queue_bound c q : inv c q -> (length q <= count)%nat.
Proof using Hk Hspawn.
  intros Hinv. apply (queue_indexed idx count kidx_bound (kindex_inj k Hk)); [apply (bi_nodup _ _ _ _ _ Hinv)|]. intros p ([p' [d x]] & -> & He)%list_elem_of_fmap. exact (fits_kindex k Hk _ (entry_fits _ _ _ _ _ Hinv He)).
Qed.

Lemma entry_small c q p d x : inv c q -> (p, (d, x)) ∈ q -> 0 <= Z.of_nat d < 2 ^ 31.
Proof using Hk Hspawn.
  intros Hinv [i Hi]%list_elem_of_lookup. pose proof (entry_depth _ _ _ _ _ _ _ _ _ Hinv Hi). pose proof (lookup_lt_Some _ _ _ Hi). pose proof (pose_queue_bound _ _ Hinv). pose proof count_bound. lia.
Qed.

(** ** Vectors *)

Definition dist_value (e : option (nat * Via)) : Z := match e with Some (d, _) => Z.of_nat d | None => UNREACHED end.

Local Notation rep f := (vec_rep (X := Via) idx count f).

Definition small_entries (q : entries_of) : Prop := Forall (fun e => Z.of_nat e.2.1 < UNREACHED) q.

Lemma small_inv c q : inv c q -> small_entries q.
Proof using Hk Hspawn. intros Hinv. apply Forall_forall. intros [p [d x]] He. pose proof (entry_small _ _ _ _ _ Hinv He). unfold UNREACHED, umax. cbn. lia. Qed.

Lemma dist_unreached q distance p i : rep dist_value q distance -> NoDup q.*1 -> small_entries q -> idx p = Some i ->
  exists d, distance !! Z.to_nat i = Some d /\ (d =? UNREACHED) = bool_decide (p ∉ q.*1).
Proof using Type.
  intros [Hl Hf] Hn Hs Hi. exists (dist_value (assoc q p)). split; [by apply Hf|]. destruct (assoc q p) as [[d x]|] eqn:E; cbn [dist_value].
  - apply assoc_elem in E; [|done]. unfold small_entries in Hs. rewrite Forall_forall in Hs. specialize (Hs _ E). cbn in Hs. rewrite bool_decide_eq_false_2; [apply Z.eqb_neq; lia|]. intros H. apply H. apply list_elem_of_fmap. by exists (p, (d, x)).
  - apply assoc_None in E. rewrite bool_decide_eq_true_2 by done. apply Z.eqb_refl.
Qed.

Lemma push_small d q e : Z.of_nat d < UNREACHED -> small_entries q -> small_entries (push d q e).
Proof using Type. intros Hd Hs. unfold push. destruct (decide _); [done|]. apply Forall_app. split; [done|]. by apply Forall_singleton. Qed.

Lemma push_nodup d (q : entries_of) e : NoDup q.*1 -> NoDup (push d q e).*1.
Proof using Type. intros Hn. unfold push. destruct (decide _) as [|H]; [done|]. rewrite fmap_app. apply NoDup_app. split; [done|]. split; [|apply NoDup_singleton]. intros w Hw ->%list_elem_of_singleton. done. Qed.

(** The state of a search without parents. *)
Definition search_rep (q : entries_of) (st : list Z * list PiecePose) : Prop := rep dist_value q (fst st) /\ snd st = q.*1 /\ NoDup q.*1 /\ small_entries q.

Lemma visit_rep q st d s x : search_rep q st -> Z.of_nat d < UNREACHED -> pose_fits k (successor_pose s) = true ->
  exists st', visit k (Z.of_nat d) st s = Ok st' /\ search_rep (push d q (successor_pose s, x)) st'.
Proof using Hk.
  intros (Hr & Hq & Hn & Hs) Hd Hf. destruct st as [distance queue]. cbn [fst snd] in *. subst queue. unfold visit. destruct (fits_kindex k Hk _ Hf) as [i Hi]. rewrite Hi. cbn [unwrap rbind].
  destruct (dist_unreached q distance _ i Hr Hn Hs Hi) as (d0 & Hd0 & Eb). rewrite (get_at_Some _ _ _ Hd0). cbn [rbind]. rewrite Eb. pose proof (push_small d q (successor_pose s, x) Hd Hs) as Hs'. pose proof (push_nodup d q (successor_pose s, x) Hn) as Hn'.
  unfold push in *. cbn [fst snd] in *. destruct (decide (successor_pose s ∈ q.*1)) as [Hin|Hin].
  - rewrite bool_decide_eq_false_2 by tauto. by exists (distance, q.*1).
  - rewrite bool_decide_eq_true_2 by done. pose proof (kidx_bound _ _ Hi). rewrite set_at_Ok by (destruct Hr; lia). cbn [rbind]. eexists. split; [done|]. split; [|split; [cbn; by rewrite fmap_app|done]]. cbn [fst].
    apply (vec_rep_snoc idx count kidx_bound (kindex_inj k Hk) dist_value q distance (successor_pose s) i (d, x)); done.
Qed.

Lemma expand_rep q st p d : search_rep q st -> Z.of_nat (S d) < UNREACHED -> pose_fits k p = true -> exists st', expand k p (Z.of_nat (S d)) st = Ok st' /\ search_rep (expand_entry pose_edges q p d) st'.
Proof using Hk.
  intros Hr Hd Hp. unfold expand, expand_entry, pose_edges. rewrite foldl_bind. apply (try_fold_rel search_rep); [|done]. intros q' st' a _ Hr'. rewrite foldl_fmap. apply (try_fold_rel search_rep); [|done].
  intros q2 st2 s Hs Hr2. apply visit_rep; [done|done|]. apply (successors_input k Hk) in Hs; [|done]. by apply input_fits in Hs.
Qed.

Definition start_entries : entries_of := [(k_spawn k, (0%nat, None))].

Lemma start_rep : exists st, start_search k = Ok st /\ search_rep start_entries st.
Proof using Hk Hspawn.
  unfold start_search. destruct (fits_kindex k Hk _ Hspawn) as [i Hi]. rewrite Hi. cbn [unwrap rbind]. pose proof (kidx_bound _ _ Hi). rewrite set_at_Ok by (rewrite length_replicate; lia). cbn [rbind]. eexists. split; [done|].
  split; [|split; [done|split; [apply NoDup_singleton|by apply Forall_singleton]]]. cbn [fst]. change UNREACHED with (dist_value None) at 1.
  apply (vec_rep_snoc idx count kidx_bound (kindex_inj k Hk) dist_value [] _ (k_spawn k) i (0%nat, None)); [|done|apply not_elem_of_nil]. exact (vec_rep_start idx count kidx_bound dist_value).
Qed.

Lemma start_inv : inv 0 start_entries.
Proof using Type. apply bfs_start. Qed.

(** Reading a distance. *)
Lemma entry_distance c q st i p d x : inv c q -> search_rep q st -> q !! i = Some (p, (d, x)) ->
  exists j, idx p = Some j /\ fst st !! Z.to_nat j = Some (Z.of_nat d).
Proof using Hk Hspawn.
  intros Hinv (Hr & _ & Hn & _) Hi. apply list_elem_of_lookup_2 in Hi. destruct (fits_kindex k Hk p (entry_fits _ _ _ _ _ Hinv Hi)) as [j Hj]. exists j. split; [done|]. exact (vec_rep_lookup idx count dist_value q _ p j (d, x) Hn Hr Hj Hi).
Qed.

(** One turn of a loop. *)
Lemma turn_rep c q st p d x : inv c q -> search_rep q st -> q !! c = Some (p, (d, x)) ->
  exists j st', idx p = Some j /\ get_at (fst st) j = Ok (Z.of_nat d) /\ add_cost (Z.of_nat d) 1 = Ok (Z.of_nat (S d)) /\ expand k p (Z.of_nat (S d)) st = Ok st' /\
    inv (S c) (expand_entry pose_edges q p d) /\ search_rep (expand_entry pose_edges q p d) st'.
Proof using Hk Hspawn.
  intros Hinv Hrep Hc. destruct (entry_distance c q st c p d x Hinv Hrep Hc) as (j & Hj & Hd). pose proof (list_elem_of_lookup_2 _ _ _ Hc) as He. pose proof (entry_small _ _ _ _ _ Hinv He).
  destruct (expand_rep q st p d Hrep) as (st' & Ee & Hr'); [unfold UNREACHED, umax; lia|exact (entry_fits _ _ _ _ _ Hinv He)|]. exists j, st'. split; [done|]. split; [by apply get_at_Some|]. split; [rewrite add_cost_Ok by lia; f_equal; lia|]. split; [done|].
  split; [by apply (bfs_step _ _ _ c p d x)|done].
Qed.

Lemma queue_lookup c q st : search_rep q st -> snd st !! c = (fst <$> q !! c).
Proof using Type. intros (_ & -> & _). by rewrite list_lookup_fmap. Qed.

Lemma movement_distances_spec : exists c q st, movement_distances k = Ok st /\ inv c q /\ q !! c = None /\ search_rep q st.
Proof using Hk Hspawn.
  unfold movement_distances. destruct start_rep as (st & -> & Hrep). cbn [rbind].
  assert (forall fuel c q st, inv c q -> search_rep q st -> (count < fuel + c)%nat -> exists c' q' st', distances_loop fuel k c st = Ok st' /\ inv c' q' /\ q' !! c' = None /\ search_rep q' st') as H.
  { intros fuel. induction fuel as [|fuel IH]; intros c q st' Hinv Hr Hf; destruct st' as [distance queue] eqn:Est; rewrite <- Est in *; cbn [distances_loop]; rewrite Est.
    all: pose proof (queue_lookup c q _ Hr) as Hl; rewrite Est in Hl; cbn [snd] in Hl; cbn [distances_loop]; rewrite Hl; destruct (q !! c) as [[p [d x]]|] eqn:Ec; cbn [fmap option_fmap option_map fst].
    2,4: exists c, q, (distance, queue); by subst.
    - pose proof (lookup_lt_Some _ _ _ Ec). pose proof (pose_queue_bound _ _ Hinv). lia.
    - destruct (turn_rep c q _ p d x Hinv Hr Ec) as (j & st2 & -> & Hd & Ha & He & Hinv' & Hr'). subst st'. cbn [fst] in Hd. cbn [unwrap rbind]. rewrite Hd. cbn [rbind]. rewrite Ha. cbn [rbind]. rewrite He. cbn [rbind]. apply (IH (S c) _ _ Hinv' Hr'). lia. }
  apply (H _ _ _ _ start_inv Hrep). unfold search_fuel. lia.
Qed.

(** ** Chains of targets *)

Inductive chain (next : list Z) : Z -> list Z -> Prop :=
| chain_nil : chain next NO_TARGET []
| chain_cons t t' l : 0 <= t < NO_TARGET -> next !! Z.to_nat t = Some t' -> chain next t' l -> chain next t (t :: l).

Lemma for_targets_chain {A} fuel next t l (body : A -> Z -> Result Failure A) acc : chain next t l -> (length l <= fuel)%nat -> for_targets fuel next t body acc = try_fold body acc l.
Proof using Type.
  intros Hc. revert fuel acc. induction Hc as [|t t' l Ht Hn _ IH]; intros fuel acc Hf.
  - destruct fuel; cbn [for_targets]; by rewrite Z.eqb_refl.
  - destruct fuel as [|fuel]; [cbn in Hf; lia|]. cbn [for_targets try_fold]. rewrite (proj2 (Z.eqb_neq t NO_TARGET)) by lia. destruct (body acc t) as [acc'|]; [|done]. cbn [rbind]. rewrite (get_at_Some _ _ _ Hn). cbn [rbind]. apply IH. cbn in Hf. lia.
Qed.

Lemma chain_insert next t l i h : chain next t l -> 0 <= i -> i ∉ l -> chain (<[Z.to_nat i := h]> next) t l.
Proof using Type.
  induction 1 as [|t t' l Ht Hn _ IH]; intros Hi Hl; [constructor|]. apply not_elem_of_cons in Hl as [Hne Hl]. apply (chain_cons _ t t'); [done| |by apply IH]. rewrite list_lookup_insert_ne; [done|]. lia.
Qed.

(** A target the kernel can lock. *)
Definition lockable_pose (p : PiecePose) : bool := pose_inside k p && rests k p.

Definition target_hits (ts : list (Z * FinesseTarget)) (p : PiecePose) : list Z :=
  omap (fun '(i, t) => if bool_decide (target_pose t = p) && lockable_pose p then Some i else None) ts.

Definition valid_indices (ts : list (Z * FinesseTarget)) : list Z := omap (fun '(i, t) => if lockable_pose (target_pose t) then Some i else None) ts.

Lemma target_hits_elem ts p i : i ∈ target_hits ts p <-> exists t, (i, t) ∈ ts /\ target_pose t = p /\ lockable_pose p = true.
Proof using Type.
  unfold target_hits. rewrite list_elem_of_omap. split.
  - intros ([j t] & Hin & E). case_bool_decide as Hb; cbn [andb] in E; [|done]. destruct (lockable_pose p) eqn:El; [|done]. injection E as <-. by exists t.
  - intros (t & Hin & Hp & Hl). exists (i, t). split; [done|]. by rewrite bool_decide_eq_true_2, Hl.
Qed.

Lemma target_hits_cons i t ts : lockable_pose (target_pose t) = true -> target_hits ((i, t) :: ts) (target_pose t) = i :: target_hits ts (target_pose t).
Proof using Type. intros Hl. change (target_hits ((i, t) :: ts) (target_pose t)) with (match (if bool_decide (target_pose t = target_pose t) && lockable_pose (target_pose t) then Some i else None) with Some y => y :: target_hits ts (target_pose t) | None => target_hits ts (target_pose t) end). by rewrite bool_decide_eq_true_2, Hl. Qed.

Lemma valid_elem ts i : i ∈ valid_indices ts <-> exists t, (i, t) ∈ ts /\ lockable_pose (target_pose t) = true.
Proof using Type.
  unfold valid_indices. rewrite list_elem_of_omap. split.
  - intros ([j t] & Hin & E). destruct (lockable_pose (target_pose t)) eqn:El; [|done]. injection E as <-. by exists t.
  - intros (t & Hin & Hl). exists (i, t). split; [done|]. by rewrite Hl.
Qed.

Lemma omap_length {A B} (f : A -> option B) l : (length (omap f l) <= length l)%nat.
Proof using Type. induction l as [|a l IH]; [done|]. cbn. destruct (f a); cbn; lia. Qed.

Lemma omap_key_sublist {A} (f : Z * A -> option Z) (l : list (Z * A)) : (forall i a j, f (i, a) = Some j -> j = i) -> omap f l `sublist_of` l.*1.
Proof using Type. intros Hf. induction l as [|[i a] l IH]; [done|]. cbn. destruct (f (i, a)) as [j|] eqn:E; [apply Hf in E as ->; by constructor|by constructor]. Qed.

Lemma target_hits_nodup ts p : NoDup ts.*1 -> NoDup (target_hits ts p).
Proof using Type. intros Hn. eapply sublist_NoDup; [exact Hn|]. apply omap_key_sublist. intros i t j. destruct (_ && _); [by intros [= ->]|done]. Qed.

Lemma valid_nodup ts : NoDup ts.*1 -> NoDup (valid_indices ts).
Proof using Type. intros Hn. eapply sublist_NoDup; [exact Hn|]. apply omap_key_sublist. intros i t j. destruct (lockable_pose _); [by intros [= ->]|done]. Qed.

(** The heads and links hold the chains of the targets handled so far. *)
Definition targets_inv (m : nat) (ts : list (Z * FinesseTarget)) (st : list Z * list Z * Z) : Prop :=
  let '(heads, next, c) := st in
  length heads = count /\ length next = m /\ c = Z.of_nat (length (valid_indices ts)) /\
  forall p j, idx p = Some j -> exists h, heads !! Z.to_nat j = Some h /\ chain next h (target_hits ts p).

Lemma skip_target p : negb (inside_layout k p) || negb (kernel_grounded k p) = negb (lockable_pose p).
Proof using Hk.
  rewrite grounded_rests by done. unfold lockable_pose, rests. destruct (pose_fits k p) eqn:E; cbn [andb]; [|by rewrite andb_false_r, orb_true_r]. rewrite inside_pose by done. by rewrite negb_andb.
Qed.

Lemma index_keys {A} (l : list A) : (imap (fun i t => (Z.of_nat i, t)) l).*1 = Z.of_nat <$> seq 0 (length l).
Proof using Type.
  apply list_eq. intros i. rewrite !list_lookup_fmap, list_lookup_imap. destruct (l !! i) eqn:E; cbn.
  - rewrite lookup_seq_lt; [done|]. by apply lookup_lt_Some in E.
  - rewrite lookup_seq_ge; [done|]. by apply lookup_ge_None in E.
Qed.

Lemma compile_targets_spec targets : Z.of_nat (length targets) < NO_TARGET ->
  exists heads next c, compile_targets k targets = Ok (heads, next, c) /\ targets_inv (length targets) (imap (fun i t => (Z.of_nat i, t)) targets) (heads, next, c).
Proof using Hk.
  intros Hlen. unfold compile_targets. set (all := imap (fun i t => (Z.of_nat i, t)) targets). set (step := fun '(heads, next, c) '(target_index, target) => _). set (m := length targets) in *.
  assert (forall todo ts st, NoDup (todo.*1 ++ ts.*1) -> Forall (fun e => 0 <= fst e < Z.of_nat m) todo -> Forall (fun e => 0 <= fst e < Z.of_nat m) ts -> targets_inv m ts st ->
    exists st', try_fold step st todo = Ok st' /\ targets_inv m (reverse todo ++ ts) st') as H.
  { intros todo. induction todo as [|[i t] todo IH]; intros ts st Hn Hb Hbt Hinv; cbn [try_fold]; [by exists st|]. apply Forall_cons in Hb as [Hi Hb]. cbn [fst] in Hi. cbn in Hn. apply NoDup_cons in Hn as [Hni Hn]. rewrite not_elem_of_app in Hni. destruct Hni as [Hti Hni].
    assert (exists st1, step st (i, t) = Ok st1 /\ targets_inv m ((i, t) :: ts) st1) as (st1 & -> & H1).
    { destruct st as [[heads next] c]. destruct Hinv as (Hh & Hnx & Hc & Hch). unfold step. 
      assert (forall p, lockable_pose (target_pose t) = false \/ target_pose t <> p -> target_hits ((i, t) :: ts) p = target_hits ts p) as Hsame.
      { intros p Hp. unfold target_hits. cbn [omap list_omap]. case_bool_decide as E; [|done]. destruct Hp as [Hp|]; [|done]. rewrite <- E, Hp. done. }
      destruct (idx (target_pose t)) as [j|] eqn:Ej.
      2:{ exists (heads, next, c). split; [done|]. assert (lockable_pose (target_pose t) = false) as Hnl. { apply not_true_iff_false. unfold lockable_pose, rests. intros [_ [Hf _]%andb_true_iff]%andb_true_iff. apply fits_kindex in Hf as [? Hf]; [|done]. congruence. }
        split; [done|]. split; [done|]. split; [unfold valid_indices; cbn [omap list_omap]; by rewrite Hnl|]. intros p j Hj. rewrite Hsame by (by left). by apply Hch. }
      rewrite skip_target. destruct (lockable_pose (target_pose t)) eqn:El; cbn [negb].
      2:{ exists (heads, next, c). split; [done|]. split; [done|]. split; [done|]. split; [unfold valid_indices; cbn [omap list_omap]; by rewrite El|]. intros p j' Hj. rewrite Hsame by (by left). by apply Hch. }
      destruct (Hch _ _ Ej) as (h & Hhj & Hchain). rewrite (get_at_Some _ _ _ Hhj). cbn [rbind]. pose proof (kidx_bound _ _ Ej). rewrite !set_at_Ok by lia. cbn [rbind]. eexists. split; [done|]. split; [by rewrite length_insert|]. split; [by rewrite length_insert|].
      split; [unfold valid_indices in *; cbn [omap list_omap]; rewrite El; cbn [length]; lia|]. intros p j' Hj'.
      assert (forall p', i ∉ target_hits ts p') as Hfresh. { intros p' Hin. apply target_hits_elem in Hin as (t' & Hin & _). apply Hni. apply list_elem_of_fmap. by exists (i, t'). }
      destruct (decide (target_pose t = p)) as [<-|Hne].
      - rewrite Ej in Hj'. injection Hj' as <-. exists i. split; [apply list_lookup_insert_eq; lia|]. rewrite target_hits_cons by done. apply (chain_cons _ i h); [lia|apply list_lookup_insert_eq; lia|]. apply chain_insert; [exact Hchain|lia|apply Hfresh].
      - destruct (Hch _ _ Hj') as (h' & Hh' & Hc'). exists h'. split; [rewrite list_lookup_insert_ne; [done|]|].
        + intros E. pose proof (kidx_bound _ _ Hj'). apply Hne. apply (kindex_inj k Hk _ _ j); [done|]. rewrite Hj'. f_equal. lia.
        + rewrite Hsame by (by right). apply chain_insert; [done|lia|apply Hfresh]. }
    cbn [rbind]. destruct (IH ((i, t) :: ts) st1) as (st2 & -> & H2); [|done|by constructor|done|].
    - cbn. apply NoDup_app in Hn as (N1 & N2 & N3). apply NoDup_app. split; [done|]. split; [|by constructor]. intros x Hx [->|Hx']%elem_of_cons; [by apply Hti|by apply (N2 x)].
    - exists st2. split; [done|]. by rewrite reverse_cons, <- app_assoc. }
  assert (all.*1 = Z.of_nat <$> seq 0 m) as Hkeys by apply index_keys.
  destruct (H (reverse all) [] (replicate count NO_TARGET, replicate m NO_TARGET, 0)) as ([[heads next] c] & E & Hinv).
  - cbn. rewrite app_nil_r, fmap_reverse, Hkeys. apply (NoDup_Permutation_proper _ _ (reverse_Permutation _)). apply NoDup_fmap_2; [apply _|apply NoDup_seq].
  - apply Forall_reverse, Forall_forall. intros e He. apply (list_elem_of_fmap_2 fst) in He. rewrite Hkeys in He. apply list_elem_of_fmap in He as (i & -> & [_ Hi]%elem_of_seq). lia.
  - constructor.
  - split; [apply length_replicate|]. split; [apply length_replicate|]. split; [done|]. intros p j Hj. exists NO_TARGET. split; [apply lookup_replicate_2; apply kidx_bound in Hj; lia|constructor].
  - rewrite reverse_involutive, app_nil_r in Hinv. by exists heads, next, c.
Qed.
End Search.
