(* ===== verification/FinesseCosts.v ===== *)
(** * The costs of targets

    [costs] of the finesse search: every target is given the length of a
    shortest sequence of inputs that ends with a hard drop onto it, and a
    target that no sequence reaches is given none.  The loop stops when every
    target has its cost. *)

From Stdlib Require Import ZArith Lia.
From stdpp Require Import prelude strings.
From S2P Require Import Prelude Words Board PcBoard Pieces Kicks Reachability ReachTemplate Reach Finesse FinesseRules Bfs FinesseSearch.

Local Open Scope Z_scope.

(** The least number with a property, if there is one. *)
Definition least_cost (P : nat -> Prop) (o : option Z) : Prop :=
  match o with
  | Some c => exists n, c = Z.of_nat n /\ P n /\ forall m, P m -> (n <= m)%nat
  | None => forall n, ~ P n
  end.

Lemma least_cost_unique P o o' : least_cost P o -> least_cost P o' -> o = o'.
Proof.
  destruct o as [c|], o' as [c'|]; cbn; [|naive_solver|naive_solver|done]. intros (n & -> & Hn & Hm) (n' & -> & Hn' & Hm'). do 2 f_equal. apply Nat.le_antisymm; [by apply Hm|by apply Hm'].
Qed.

(** ** The first result of a list *)

Lemma head_omap_snoc {A B} (f : A -> option B) l a : head (omap f (l ++ [a])) = match head (omap f l) with Some b => Some b | None => f a end.
Proof. rewrite omap_app. destruct (omap f l); cbn; [by destruct (f a)|done]. Qed.

Lemma head_omap_Some {A B} (f : A -> option B) l b : head (omap f l) = Some b -> exists j a, l !! j = Some a /\ f a = Some b /\ forall j' a', (j' < j)%nat -> l !! j' = Some a' -> f a' = None.
Proof.
  induction l as [|a l IH]; [done|]. cbn. destruct (f a) as [b'|] eqn:E; cbn.
  - intros [= ->]. exists 0%nat, a. split; [done|]. split; [done|]. intros; lia.
  - intros H. destruct (IH H) as (j & a' & H1 & H2 & H3). exists (S j), a'. split; [done|]. split; [done|]. intros [|j'] a2 Hj Ha2; [by injection Ha2 as <-|]. apply (H3 j'); [lia|done].
Qed.

Lemma head_omap_None {A B} (f : A -> option B) l : head (omap f l) = None -> forall j a, l !! j = Some a -> f a = None.
Proof. induction l as [|a l IH]; [done|]. cbn. destruct (f a) eqn:E; [done|]. intros H [|j] a' Ha'; [by injection Ha' as <-|]. by apply (IH H j). Qed.

(** ** Bodies that change one entry *)

Lemma fold_pointwise {E A} (good : A -> Prop) (g : Z -> A -> A) (body : list A -> Z -> Result E (list A)) (l : list Z) (out : list A) :
  (forall i a, good a -> good (g i a)) -> NoDup l -> Forall good out -> Forall (fun i => 0 <= i < Z.of_nat (length out)) l ->
  (forall out i a, i ∈ l -> out !! Z.to_nat i = Some a -> good a -> body out i = Ok (<[Z.to_nat i := g i a]> out)) ->
  exists out', try_fold body out l = Ok out' /\ length out' = length out /\
    forall i a, out !! i = Some a -> out' !! i = Some (if decide (Z.of_nat i ∈ l) then g (Z.of_nat i) a else a).
Proof.
  intros Hg Hn Ho Hb Hbody. revert out Ho Hb. induction l as [|j l IH]; intros out Ho Hb; cbn [try_fold].
  { exists out. split; [done|]. split; [done|]. intros i a Hi. destruct (decide _) as [H|]; [by apply not_elem_of_nil in H|done]. }
  apply NoDup_cons in Hn as [Hj Hn]. apply Forall_cons in Hb as [Hr Hb]. destruct (lookup_lt_is_Some_2 out (Z.to_nat j) ltac:(lia)) as [b Hb0].
  pose proof (Forall_lookup_1 _ _ _ _ Ho Hb0) as Hgb. rewrite (Hbody out j b ltac:(by left) Hb0 Hgb). cbn [rbind]. destruct (IH Hn) with (out := <[Z.to_nat j := g j b]> out) as (out' & -> & Hl & Hp); [intros out0 i a Hi; apply Hbody; by right|apply Forall_insert; [done|by apply Hg]|by rewrite length_insert|].
  exists out'. rewrite length_insert in Hl. split; [done|]. split; [done|]. intros i a Hi. destruct (decide (Z.of_nat i = j)) as [<-|Hne].
  - rewrite Nat2Z.id in Hb0, Hp. rewrite Hi in Hb0. injection Hb0 as <-. rewrite (Hp i (g (Z.of_nat i) a)) by (apply list_lookup_insert_eq; by apply lookup_lt_Some in Hi). rewrite decide_False by done. by rewrite decide_True by (by left).
  - rewrite (Hp i a) by (rewrite list_lookup_insert_ne by lia; done). destruct (decide (Z.of_nat i ∈ l)); [rewrite decide_True by (by right); done|]. rewrite decide_False; [done|]. by intros [?|?]%elem_of_cons.
Qed.

Lemma count_insert_ne (output : list (option Z)) (i : Z) (c : Z) (l : list Z) : i ∉ l -> Forall (fun j => 0 <= j) l -> 0 <= i ->
  filter (fun j => <[Z.to_nat i := Some c]> output !! Z.to_nat j = Some None) l = filter (fun j => output !! Z.to_nat j = Some None) l.
Proof.
  intros Hi Hp H0. induction l as [|j l IH]; [done|]. apply not_elem_of_cons in Hi as [Hne Hi]. apply Forall_cons in Hp as [Hj Hp]. rewrite !filter_cons, IH by done. by rewrite list_lookup_insert_ne by lia.
Qed.

Lemma kernel_costs_some k targets : targets <> [] -> kernel_costs k targets =
  let? '(heads, next, remaining) := compile_targets k targets in
  if remaining =? 0 then Ok (replicate (length targets) None) else let? st := start_search k in costs_loop (search_fuel k) k heads next 0 (replicate (length targets) None) remaining st.
Proof. by destruct targets. Qed.

(** The inputs of a route and the hard drop. *)
Definition places_in (k : InputRules) (lock : PiecePose) (n : nat) : Prop := exists actions evidence, n = S (length actions) /\ places k actions lock evidence.

Section Entries.
Context (k : SearchKernel) (Hk : kernel_ok k) (Hspawn : pose_fits k (k_spawn k) = true).

Notation Via := (option (PiecePose * ClassicInputAction * option RotationArrival)).
Local Notation entries_of := (list (PiecePose * (nat * Via))).
Local Notation inv := (bfs_inv (pose_edges k) (k_spawn k) None).

Definition lock_cost (p : PiecePose) (e : PiecePose * (nat * Via)) : option Z := if bool_decide (hard_drop k e.1 = p) then Some (Z.of_nat (S e.2.1)) else None.

(** The cost of the first entry that locks at a pose. *)
Definition first_cost (done : entries_of) (p : PiecePose) : option Z := head (omap (lock_cost p) done).

Lemma first_cost_snoc done p e : first_cost (done ++ [e]) p = match first_cost done p with Some c => Some c | None => lock_cost p e end.
Proof using Type. apply head_omap_snoc. Qed.

Definition cost_slot (done : entries_of) (t : FinesseTarget) : option Z := if lockable_pose k (target_pose t) then first_cost done (target_pose t) else None.

Lemma take_expand c (q : entries_of) p d x : inv c q -> q !! c = Some (p, (d, x)) -> take (S c) (expand_entry (pose_edges k) q p d) = take c q ++ [(p, (d, x))].
Proof using Type.
  intros Hinv Hc. destruct (ex_prefix _ _ _ _ _ _ _ _ _ (expand_expanding _ _ _ c p d x q Hinv Hc)) as (new & -> & _). pose proof (lookup_lt_Some _ _ _ Hc). rewrite take_app_le by lia. by apply take_S_r.
Qed.

(** ** First costs are least *)

Lemma first_cost_Some done p c : first_cost done p = Some c -> exists j e, done !! j = Some e /\ hard_drop k e.1 = p /\ c = Z.of_nat (S e.2.1) /\ forall j' e', (j' < j)%nat -> done !! j' = Some e' -> hard_drop k e'.1 <> p.
Proof using Type.
  intros (j & e & Hj & He & Hfirst)%head_omap_Some. exists j, e. unfold lock_cost in *. case_bool_decide; [|done]. injection He as <-. split; [done|]. split; [done|]. split; [done|]. intros j' e' Hlt Hj'. specialize (Hfirst j' e' Hlt Hj'). by case_bool_decide.
Qed.

Lemma first_cost_None done p : first_cost done p = None -> forall j e, done !! j = Some e -> hard_drop k e.1 <> p.
Proof using Type. intros H j e Hj. pose proof (head_omap_None _ _ H j e Hj) as Hn. unfold lock_cost in Hn. by case_bool_decide. Qed.

Lemma places_lockable actions p evidence : places k actions p evidence -> lockable_pose k p = true.
Proof using Type. intros (s & r & Hr & Hl & Hi & _). unfold lockable_pose. rewrite Hi. apply route_fits in Hr. by apply (lands_rests k s). Qed.

(** The first entry that locks at a pose is at a least distance, also while
    the search is still running. *)
Lemma first_cost_least c q p z : inv c q -> pose_inside k p = true -> first_cost (take c q) p = Some z -> least_cost (places_in k p) (Some z).
Proof using Hk Hspawn.
  intros Hinv Hins (j & [s [d x]] & [He Hjc]%lookup_take_Some & Hp & -> & Hfirst)%first_cost_Some. cbn [fst snd] in *. pose proof (entry_path _ _ _ _ _ _ _ _ _ Hinv He) as Hpath. pose proof (path_fits k Hk Hspawn _ _ _ Hpath) as Hfit.
  exists (S d). split; [done|]. split.
  - apply (path_route k Hk Hspawn) in Hpath as (actions & Hl & Hr). exists actions, (evidence_after s (via_rotation x) p). split; [by rewrite Hl|]. exists s, (via_rotation x). split; [done|]. split; [by apply (hard_drop_eq k Hk)|done].
  - intros m (actions & ev & -> & s' & r & Hr & Hlands & _). pose proof (route_fits k _ _ _ Hr) as Hfit'. apply (route_path k Hk Hspawn) in Hr as (x' & Hpath' & _). apply le_n_S.
    apply (first_minimal _ _ _ c q j s d x (fun v => hard_drop k v = p) _ s' x' Hinv He Hjc); [|done|by apply (hard_drop_eq k Hk)]. intros j' e' Hlt Hj'. apply (Hfirst j' e' Hlt). apply lookup_take_Some. split; [done|lia].
Qed.

Lemma first_cost_none c q p : inv c q -> q !! c = None -> first_cost (take c q) p = None -> least_cost (places_in k p) None.
Proof using Hk Hspawn.
  intros Hinv Hc Hn m (actions & ev & -> & s & r & Hr & Hlands & _). pose proof (route_fits k _ _ _ Hr) as Hfit. apply (route_path k Hk Hspawn) in Hr as (x & Hpath & _).
  destruct (search_complete _ _ _ c q _ _ _ Hinv Hc Hpath) as (d & y & [j Hj]%list_elem_of_lookup & _). apply (first_cost_None _ _ Hn j (s, (d, y))); [|by apply (hard_drop_eq k Hk)].
  rewrite take_ge; [done|]. by apply lookup_ge_None.
Qed.

Lemma unlockable_never p : lockable_pose k p = false -> least_cost (places_in k p) None.
Proof using Type. intros Hl m (actions & ev & _ & H%places_lockable). congruence. Qed.

End Entries.

Section Costs.
Context (k : SearchKernel) (Hk : kernel_ok k) (Hspawn : pose_fits k (k_spawn k) = true).
Context (targets : list FinesseTarget) (Hlen : Z.of_nat (length targets) < NO_TARGET).

Notation Via := (option (PiecePose * ClassicInputAction * option RotationArrival)).
Local Notation entries_of := (list (PiecePose * (nat * Via))).
Local Notation inv := (bfs_inv (pose_edges k) (k_spawn k) None).
Local Notation all := (imap (fun i t => (Z.of_nat i, t)) targets).
Local Notation valid := (valid_indices k all).

(** ** Indices of targets *)

Lemma all_elem i t : (i, t) ∈ all <-> 0 <= i /\ targets !! Z.to_nat i = Some t.
Proof using Type.
  rewrite elem_of_lookup_imap. split; [intros (j & t' & [= -> ->] & H); rewrite Nat2Z.id; split; [lia|done]|]. intros [Hi H]. exists (Z.to_nat i), t. by rewrite Z2Nat.id.
Qed.

Lemma all_nodup : NoDup all.*1.
Proof using Type. rewrite index_keys. apply NoDup_fmap_2; [apply _|apply NoDup_seq]. Qed.

Lemma target_hits_bound p : Forall (fun i => 0 <= i < Z.of_nat (length targets)) (target_hits k all p).
Proof using Type. apply Forall_forall. intros i (t & [Hi Ht]%all_elem & _)%target_hits_elem. apply lookup_lt_Some in Ht. lia. Qed.

Lemma target_hits_index i t p : targets !! i = Some t -> Z.of_nat i ∈ target_hits k all p <-> target_pose t = p /\ lockable_pose k p = true.
Proof using Type.
  intros Ht. rewrite target_hits_elem. split.
  - intros (t' & [_ Ht']%all_elem & H). rewrite Nat2Z.id, Ht in Ht'. by injection Ht' as ->.
  - intros [Hp Hl]. exists t. split; [apply all_elem; rewrite Nat2Z.id; split; [lia|done]|done].
Qed.

Lemma valid_target_index i t : targets !! i = Some t -> Z.of_nat i ∈ valid <-> lockable_pose k (target_pose t) = true.
Proof using Type.
  intros Ht. rewrite valid_elem. split.
  - intros (t' & [_ Ht']%all_elem & H). rewrite Nat2Z.id, Ht in Ht'. by injection Ht' as ->.
  - intros Hl. exists t. split; [apply all_elem; rewrite Nat2Z.id; split; [lia|done]|done].
Qed.

Lemma target_hits_length p : (length (target_hits k all p) <= length targets)%nat.
Proof using Type. etrans; [apply omap_length|]. by rewrite length_imap. Qed.

(** The targets a pose has are the ones the loop goes through. *)
Lemma loop_targets {A} heads next c p j (body : A -> Z -> Result Failure A) acc : targets_inv k (length targets) all (heads, next, c) -> kernel_state_index k p = Some j ->
  exists h, get_at heads j = Ok h /\ (h = NO_TARGET -> target_hits k all p = []) /\ for_targets (length next) next h body acc = try_fold body acc (target_hits k all p).
Proof using Hk.
  intros (_ & Hn & _ & Hch) Hj. destruct (Hch p j Hj) as (h & Hh & Hc). exists h. split; [by apply get_at_Some|]. split; [|apply for_targets_chain; [done|rewrite Hn; apply target_hits_length]].
  intros ->. inversion Hc; [done|]. lia.
Qed.

(** ** What the loop has settled *)

Definition unset (output : list (option Z)) : Z := Z.of_nat (length (filter (fun i => output !! Z.to_nat i = Some None) valid)).

Lemma unset_insert output i c : i ∈ valid -> output !! Z.to_nat i = Some None -> unset (<[Z.to_nat i := Some c]> output) = unset output - 1 /\ 0 < unset output.
Proof using Type.
  intros Hi Ho. pose proof (valid_nodup k all all_nodup) as Hn. assert (Forall (fun j => 0 <= j) valid) as Hp by (apply Forall_forall; intros j (t & [Hj _]%all_elem & _)%valid_elem; done).
  unfold unset. revert Hi Hn Hp. generalize valid. intros l Hi. apply list_elem_of_split in Hi as (l1 & l2 & ->). intros (_ & Hd & [Hi2 _]%NoDup_cons)%NoDup_app [Hp1 [H0 Hp2]%Forall_cons]%Forall_app.
  assert (i ∉ l1) as Hi1 by (intros H; by apply (Hd i H); left). rewrite !filter_app, !filter_cons, !count_insert_ne by done. rewrite list_lookup_insert_eq by (by apply lookup_lt_Some in Ho).
  rewrite decide_False by done. rewrite decide_True by done. rewrite !length_app. cbn [length]. lia.
Qed.

Definition set_first (c : Z) (o : option Z) : option Z := match o with Some c' => Some c' | None => Some c end.

Lemma settle_Ok c output i o : i ∈ valid -> output !! Z.to_nat i = Some o -> settle c (output, unset output) i = Ok (<[Z.to_nat i := set_first c o]> output, unset (<[Z.to_nat i := set_first c o]> output)).
Proof using Type.
  intros Hi Ho. unfold settle. rewrite (get_at_Some _ _ _ Ho). cbn [rbind]. destruct o as [c'|]; cbn [set_first].
  - by rewrite list_insert_id.
  - rewrite set_at_Ok by (by apply lookup_lt_Some in Ho). cbn [rbind]. destruct (unset_insert output i c Hi Ho) as [-> H]. unfold checked_sub. by rewrite (proj2 (Z.leb_le _ _)) by lia.
Qed.

Lemma settle_fold c l output : NoDup l -> l ⊆ valid -> Forall (fun i => 0 <= i < Z.of_nat (length output)) l ->
  exists output', try_fold (settle c) (output, unset output) l = Ok (output', unset output') /\ length output' = length output /\
    forall i o, output !! i = Some o -> output' !! i = Some (if decide (Z.of_nat i ∈ l) then set_first c o else o).
Proof using Type.
  intros Hn Hs Hb. set (body := fun (out : list (option Z)) (i : Z) => match out !! Z.to_nat i with Some o => Ok (E := unit) (<[Z.to_nat i := set_first c o]> out) | None => Ok out end).
  destruct (fold_pointwise (fun _ => True) (fun _ => set_first c) body l output) as (out' & He & Hl & Hp); [done|done|by apply Forall_true|done|intros out i a _ Ha _; unfold body; by rewrite Ha|]. exists out'. split; [|done]. clear Hp Hn Hl. revert output Hb He.
  induction l as [|i l IH]; intros output Hb He; cbn [try_fold] in *; [by injection He as ->|]. apply Forall_cons in Hb as [Hi Hb]. destruct (lookup_lt_is_Some_2 output (Z.to_nat i) ltac:(lia)) as [o Ho].
  rewrite (settle_Ok c output i o) by (done || (apply Hs; by left)). unfold body in He at 1. rewrite Ho in He. cbn [rbind] in He |- *. apply IH; [intros j Hj; apply Hs; by right|by rewrite length_insert|done].
Qed.

(** The outputs after the entries [done]. *)
Definition outputs (done : entries_of) (output : list (option Z)) : Prop := output = cost_slot k done <$> targets.

Lemma settle_entry done output e heads next c0 d : targets_inv k (length targets) all (heads, next, c0) -> pose_fits k e.1 = true -> outputs done output -> 0 <= Z.of_nat e.2.1 < 2 ^ 31 -> d = Z.of_nat e.2.1 ->
  exists output', (if inside_layout k (hard_drop k e.1) then
     let? lock_index := unwrap (kernel_state_index k (hard_drop k e.1)) in
     let? target := get_at heads lock_index in
     if target =? NO_TARGET then Ok (output, unset output)
     else let? d := Ok d in let? cost := add_cost d 1 in for_targets (length next) next target (settle cost) (output, unset output)
   else Ok (output, unset output)) = Ok (output', unset output') /\ outputs (done ++ [e]) output'.
Proof using Hk Hlen.
  intros Hti Hf Ho Hd ->. pose proof (hard_drop_lands k Hk e.1 Hf) as Hlands. pose proof (lands_fits k _ _ Hf Hlands) as Hlf. pose proof (lands_rests k _ _ Hf Hlands) as Hlr. rewrite inside_pose by done.
  assert (forall t, lockable_pose k (target_pose t) = true -> target_pose t <> hard_drop k e.1 -> cost_slot k (done ++ [e]) t = cost_slot k done t) as Hother.
  { intros t Ht Hne. unfold cost_slot. rewrite Ht, first_cost_snoc. unfold lock_cost. rewrite bool_decide_eq_false_2 by done. by destruct (first_cost k done (target_pose t)). }
  destruct (pose_inside k (hard_drop k e.1)) eqn:Ein.
  2:{ exists output. split; [done|]. unfold outputs in *. rewrite Ho. apply list_fmap_ext. intros i t _. unfold cost_slot at 1. destruct (lockable_pose k (target_pose t)) eqn:El; [|unfold cost_slot; by rewrite El]. rewrite Hother; [unfold cost_slot; by rewrite El|done|].
      intros E. unfold lockable_pose in El. by rewrite E, Ein in El. }
  assert (lockable_pose k (hard_drop k e.1) = true) as Hlock by (unfold lockable_pose; by rewrite Ein, Hlr).
  destruct (fits_kindex k Hk _ Hlf) as [j Hj]. rewrite Hj. cbn [unwrap rbind]. destruct (loop_targets heads next c0 _ j (settle (Z.of_nat (S e.2.1))) (output, unset output) Hti Hj) as (h & -> & Hnone & Hloop). cbn [rbind].
  rewrite add_cost_Ok by lia. cbn [rbind]. replace (Z.of_nat e.2.1 + 1) with (Z.of_nat (S e.2.1)) by lia.
  assert (exists output', try_fold (settle (Z.of_nat (S e.2.1))) (output, unset output) (target_hits k all (hard_drop k e.1)) = Ok (output', unset output') /\ outputs (done ++ [e]) output') as (output' & Hf' & Hout).
  { destruct (settle_fold (Z.of_nat (S e.2.1)) (target_hits k all (hard_drop k e.1)) output) as (output' & Hfold & Hl & Hp).
    - apply target_hits_nodup, all_nodup.
    - intros i (t & [Hi Ht]%all_elem & Hpt & _)%target_hits_elem. rewrite <- (Z2Nat.id i) by done. apply (valid_target_index _ t); [done|]. by rewrite Hpt.
    - rewrite Ho, length_fmap. apply target_hits_bound.
    - exists output'. split; [done|]. unfold outputs in *. apply list_eq_same_length with (length targets); [by rewrite length_fmap|by rewrite Hl, Ho, length_fmap|]. intros i x y Hi Hx Hy.
      rewrite list_lookup_fmap in Hy. destruct (targets !! i) as [t|] eqn:Ht; [|done]. cbn in Hy. injection Hy as <-. rewrite (Hp i (cost_slot k done t)) in Hx by (rewrite Ho, list_lookup_fmap, Ht; done). injection Hx as <-.
      destruct (decide _) as [[Hpt _]%(target_hits_index i t _ Ht)|Hnh].
      + unfold cost_slot. rewrite Hpt, Hlock, first_cost_snoc. unfold set_first, lock_cost. rewrite bool_decide_eq_true_2 by done. done.
      + destruct (lockable_pose k (target_pose t)) eqn:El; [|unfold cost_slot; by rewrite El]. symmetry. apply Hother; [done|]. intros E. apply Hnh. by apply (target_hits_index i t _ Ht). }
  exists output'. split; [|done]. destruct (Z.eqb_spec h NO_TARGET) as [->|]; [|by rewrite Hloop]. rewrite Hnone in Hf' by done. exact Hf'.
Qed.

Lemma costs_loop_spec heads next c0 fuel c q st output : targets_inv k (length targets) all (heads, next, c0) -> inv c q -> search_rep k q st -> outputs (take c q) output -> (Z.to_nat (k_state_count k) < fuel + c)%nat ->
  exists c' q' output', costs_loop fuel k heads next c output (unset output) st = Ok output' /\ inv c' q' /\ outputs (take c' q') output' /\ (q' !! c' = None \/ unset output' = 0).
Proof using Hk Hspawn Hlen.
  intros Hti. revert c q st output. induction fuel as [|fuel IH]; intros c q st output Hinv Hr Ho Hf; destruct st as [distance queue]; pose proof (queue_lookup k c q _ Hr) as Hl; cbn [snd] in Hl; cbn [costs_loop]; rewrite Hl.
  all: destruct (q !! c) as [[p [d x]]|] eqn:Ec; cbn [fmap option_fmap option_map fst]; [|exists c, q, output; tauto].
  all: destruct (Z.eqb_spec (unset output) 0); [exists c, q, output; tauto|].
  - pose proof (lookup_lt_Some _ _ _ Ec). pose proof (pose_queue_bound k Hk Hspawn _ _ Hinv). lia.
  - destruct (turn_rep k Hk Hspawn c q _ p d x Hinv Hr Ec) as (j & st2 & -> & Hd & Ha & He & Hinv' & Hr'). cbn [fst] in Hd. cbn [unwrap rbind]. rewrite Hd. pose proof (list_elem_of_lookup_2 _ _ _ Ec) as Hin.
    destruct (settle_entry (take c q) output (p, (d, x)) heads next c0 (Z.of_nat d) Hti) as (output' & Hs & Ho'); [exact (entry_fits k Hk Hspawn _ _ _ _ _ Hinv Hin)|done|exact (entry_small k Hk Hspawn _ _ _ _ _ Hinv Hin)|done|].
    cbn [fst snd] in Hs. rewrite Hs. cbn [rbind]. rewrite Ha. cbn [rbind]. rewrite He. cbn [rbind]. apply (IH _ _ _ _ Hinv' Hr'); [by rewrite (take_expand k c q p d x)|lia].
Qed.

Lemma unset_zero done output i t : outputs done output -> unset output = 0 -> targets !! i = Some t -> lockable_pose k (target_pose t) = true -> is_Some (cost_slot k done t).
Proof using Type.
  intros Ho Hu Ht Hl. destruct (cost_slot k done t) eqn:E; [done|]. exfalso. unfold unset in Hu. assert (Z.of_nat i ∈ filter (fun i => output !! Z.to_nat i = Some None) valid) as Hin.
  { apply list_elem_of_filter. split; [rewrite Nat2Z.id, Ho, list_lookup_fmap, Ht; cbn; by rewrite E|by apply (valid_target_index i t)]. }
  destruct (filter _ valid); [by apply not_elem_of_nil in Hin|cbn in Hu; lia].
Qed.

Lemma outputs_start : outputs [] (replicate (length targets) None).
Proof using Type.
  unfold outputs. apply list_eq. intros i. rewrite list_lookup_fmap. destruct (targets !! i) as [t|] eqn:Hi; cbn; [|apply lookup_replicate_None; by apply lookup_ge_None].
  rewrite lookup_replicate_2 by (by apply lookup_lt_Some in Hi). unfold cost_slot. by destruct (lockable_pose _ _).
Qed.

Lemma unset_start : unset (replicate (length targets) None) = Z.of_nat (length valid).
Proof using Type.
  assert (Forall (fun i => replicate (length targets) (None (A := Z)) !! Z.to_nat i = Some None) valid) as H.
  { apply Forall_forall. intros i (t & [_ Ht]%all_elem & _)%valid_elem. apply lookup_replicate_2. by apply lookup_lt_Some in Ht. }
  unfold unset. do 2 f_equal. induction valid as [|i l IH]; [done|]. apply Forall_cons in H as [Hi H]. rewrite filter_cons, decide_True by done. f_equal. by apply IH.
Qed.

(** Settled costs are least whether the queue has run out or every target has
    its cost. *)
Lemma outputs_least c q output i t : inv c q -> outputs (take c q) output -> q !! c = None \/ unset output = 0 -> targets !! i = Some t -> least_cost (places_in k (target_pose t)) (cost_slot k (take c q) t).
Proof using Hk Hspawn.
  intros Hinv Ho Hend Ht. unfold cost_slot. destruct (lockable_pose k (target_pose t)) eqn:El; [|by apply unlockable_never]. pose proof El as [Hin _]%andb_true_iff. destruct (first_cost k (take c q) (target_pose t)) as [z|] eqn:Ef; [by apply (first_cost_least k Hk Hspawn c q)|].
  destruct Hend as [Hc|Hu]; [by apply (first_cost_none k Hk Hspawn c q)|]. destruct (unset_zero (take c q) output i t Ho Hu Ht El) as [z Hz]. unfold cost_slot in Hz. by rewrite El, Ef in Hz.
Qed.

Lemma kernel_costs_spec : exists output, kernel_costs k targets = Ok output /\ Forall2 (fun t o => least_cost (places_in k (target_pose t)) o) targets output.
Proof using Hk Hspawn Hlen.
  assert (exists c q output, kernel_costs k targets = Ok output /\ inv c q /\ outputs (take c q) output /\ (q !! c = None \/ unset output = 0)) as (c & q & output & -> & Hinv & Ho & Hend).
  { destruct (compile_targets_spec k Hk targets Hlen) as (heads & next & c0 & Hct & Hti). pose proof Hti as (_ & _ & Hc0 & _). rewrite <- unset_start in Hc0. pose proof outputs_start as Ho. pose proof (start_inv k) as Hi.
    destruct (start_rep k Hk Hspawn) as (st & Hst & Hr). destruct (costs_loop_spec heads next c0 (search_fuel k) 0 (start_entries k) st _ Hti Hi Hr Ho ltac:(unfold search_fuel; lia)) as (c & q & output & Hloop & H1 & H2 & H3).
    destruct (decide (targets = [])) as [E|Hne]; [|rewrite (kernel_costs_some k targets Hne), Hct; cbn [rbind]; destruct (Z.eqb_spec c0 0) as [E|]].
    - exists 0%nat, (start_entries k), (replicate (length targets) None). split; [by rewrite E|]. split; [done|]. split; [done|]. right. rewrite unset_start. pose proof (omap_length (fun '(i, t) => if lockable_pose k (target_pose t) then Some i else None) all) as Hl. rewrite length_imap in Hl. fold valid in Hl. rewrite E in Hl at 2. cbn in Hl. lia.
    - exists 0%nat, (start_entries k), (replicate (length targets) None). split; [done|]. split; [done|]. split; [done|]. right. congruence.
    - rewrite Hst. cbn [rbind]. rewrite Hc0, Hloop. by exists c, q, output. }
  exists output. split; [done|]. rewrite Ho. apply Forall2_fmap_r, Forall_Forall2_diag, Forall_forall. intros t [i Ht]%list_elem_of_lookup. by apply (outputs_least c q output i).
Qed.
End Costs.
