(* ===== verification/FinesseEvidence.v ===== *)
(** * Costs with a condition on the last input

    [costs_for_terminal_evidence] of the finesse search: a target may ask for
    the evidence its lock must have.  A search over all poses is followed by
    loops that lower the cost of each target to the best candidate, so each
    entry of the output is the fold of a list of candidates ([slots]); the
    candidates are shown to be the routes of the rules with that evidence. *)

From Stdlib Require Import ZArith Lia.
From stdpp Require Import prelude strings.
From S2P Require Import Prelude Words Board PcBoard Pieces Kicks Reachability ReachTemplate Reach Finesse FinesseRules Bfs FinesseSearch FinesseCosts.

Local Open Scope Z_scope.

Lemma foldl_same {A B} (f g : A -> B -> A) (l : list B) a : (forall a b, f a b = g a b) -> foldl f a l = foldl g a l.
Proof. intros H. revert a. induction l as [|b l IH]; intros a; [done|]. cbn. by rewrite H, IH. Qed.

(** ** Loops that change every entry by a function of its key *)

Definition slots {K A} (keys : list K) (f : K -> A -> A) (out : list A) : list A := zip_with f keys out.

Section Slots.
Context {K A : Type} (keys : list K).

Lemma slots_length (f : K -> A -> A) out : length out = length keys -> length (slots keys f out) = length keys.
Proof using Type. intros H. unfold slots. rewrite length_zip_with. lia. Qed.

Lemma slots_lookup (f : K -> A -> A) out i key a : keys !! i = Some key -> out !! i = Some a -> slots keys f out !! i = Some (f key a).
Proof using Type. intros Hk Ha. unfold slots. rewrite lookup_zip_with, Hk, Ha. done. Qed.

Lemma slots_eq (f : K -> A -> A) out out' : length out = length keys -> length out' = length keys -> (forall i key a, keys !! i = Some key -> out !! i = Some a -> out' !! i = Some (f key a)) -> out' = slots keys f out.
Proof using Type.
  intros Hl Hl' H. apply list_eq_same_length with (length keys); [by apply slots_length|done|]. intros i x y Hi Hx Hy. destruct (lookup_lt_is_Some_2 keys i Hi) as [key Hkey], (lookup_lt_is_Some_2 out i ltac:(lia)) as [a Ha].
  rewrite (H i key a Hkey Ha) in Hx. rewrite (slots_lookup f out i key a Hkey Ha) in Hy. congruence.
Qed.

Lemma slots_ext (f g : K -> A -> A) out : (forall key a, key ∈ keys -> f key a = g key a) -> slots keys f out = slots keys g out.
Proof using Type.
  intros H. unfold slots. apply list_eq. intros i. rewrite !lookup_zip_with. destruct (keys !! i) as [key|] eqn:Hkey; cbn; [|done]. destruct (out !! i); cbn; [|done]. f_equal. apply H. by apply list_elem_of_lookup_2 in Hkey.
Qed.

Lemma slots_id (f : K -> A -> A) out : length out = length keys -> (forall key a, key ∈ keys -> f key a = a) -> slots keys f out = out.
Proof using Type. intros Hl H. symmetry. apply slots_eq; [done|done|]. intros i key a Hkey Ha. rewrite H; [done|]. by apply list_elem_of_lookup_2 in Hkey. Qed.

Lemma slots_slots (f g : K -> A -> A) out : length out = length keys -> slots keys g (slots keys f out) = slots keys (fun key a => g key (f key a)) out.
Proof using Type.
  intros Hl. apply slots_eq; [done|apply slots_length; by apply slots_length|]. intros i key a Hkey Ha. apply slots_lookup; [done|]. by apply slots_lookup.
Qed.

Lemma try_fold_slots {E B} (step : list A -> B -> Result E (list A)) (F : B -> K -> A -> A) (l : list B) out :
  (forall b out, b ∈ l -> length out = length keys -> step out b = Ok (slots keys (F b) out)) -> length out = length keys ->
  try_fold step out l = Ok (slots keys (fun key a => foldl (fun a b => F b key a) a l) out).
Proof using Type.
  revert out. induction l as [|b l IH]; intros out H Hl; cbn [try_fold]; [by rewrite slots_id by done|]. rewrite H by (done || by left). cbn [rbind]. rewrite IH by ((intros b' out' Hb'; apply H; by right) || by apply slots_length). by rewrite slots_slots.
Qed.
End Slots.

Lemma try_fold_fmap {E S B C} (step : S -> C -> Result E S) (g : B -> C) (l : list B) s : try_fold step s (g <$> l) = try_fold (fun s b => step s (g b)) s l.
Proof. revert s. induction l as [|b l IH]; intros s; [done|]. cbn. destruct (step s (g b)); [|done]. cbn. apply IH. Qed.

(** A loop over the entries that changes each of them. *)
Lemma try_fold_entries {E K A} (step : list A -> Z * K -> Result E (list A)) (g : K -> A -> A) (keys : list K) out :
  (forall out i key a, keys !! i = Some key -> out !! i = Some a -> step out (Z.of_nat i, key) = Ok (<[i := g key a]> out)) -> length out = length keys ->
  try_fold step out (imap (fun i key => (Z.of_nat i, key)) keys) = Ok (slots keys g out).
Proof.
  intros Hstep. assert (forall rest pre done out2, keys = pre ++ rest -> length done = length pre -> length out2 = length rest ->
    try_fold step (done ++ out2) (imap (fun i key => (Z.of_nat (length pre + i), key)) rest) = Ok (done ++ slots rest g out2)) as H; [|intros Hl; exact (H keys [] [] out eq_refl eq_refl Hl)].
  induction rest as [|key rest IH]; intros pre done out2 Hk Hd Hl.
  - destruct out2; [|done]. done.
  - destruct out2 as [|a out2]; [done|]. cbn [imap try_fold]. rewrite Nat.add_0_r. rewrite (Hstep (done ++ a :: out2) (length pre) key a); [|subst keys; by rewrite lookup_app_r, Nat.sub_diag by lia|by rewrite lookup_app_r, Hd, Nat.sub_diag by lia].
    cbn [rbind]. rewrite <- Hd, insert_app_r_alt by lia. rewrite Nat.sub_diag. cbn [insert list_insert].
    specialize (IH (pre ++ [key]) (done ++ [g key a]) out2). rewrite <- !app_assoc in IH. cbn [app] in IH. etrans; [|apply IH; [done|rewrite !length_app; cbn; lia|by injection Hl]]. f_equal. apply imap_ext. intros i x _. cbn. rewrite length_app. cbn. do 2 f_equal. lia.
Qed.

(** ** The best candidate *)

Definition improved (o : option Z) (cost : Z) : option Z := match o with Some current => if cost <? current then Some cost else Some current | None => Some cost end.

Definition best_of (o : option Z) (l : list Z) : option Z := foldl improved o l.

Definition is_best (l : list Z) (o : option Z) : Prop := match o with Some c => c ∈ l /\ forall c', c' ∈ l -> c <= c' | None => l = [] end.

Lemma best_of_spec l : is_best l (best_of None l).
Proof.
  assert (forall l l0 o, is_best l0 o -> is_best (l0 ++ l) (best_of o l)) as H; [|by apply (H l [] None)]. intros l'. induction l' as [|c l' IH]; intros l0 o Ho; cbn; [by rewrite app_nil_r|].
  rewrite cons_middle, app_assoc. apply IH. destruct o as [cur|]; cbn [improved is_best] in *; [|subst l0; split; [by left|]; intros c' ->%list_elem_of_singleton; done].
  destruct Ho as [Hin Hmin]. destruct (Z.ltb_spec c cur); cbn; (split; [set_solver|]); intros c' [Hc'|Hc'%list_elem_of_singleton]%elem_of_app; try (specialize (Hmin c' Hc')); lia.
Qed.

Lemma improve_Ok cost output i o : output !! Z.to_nat i = Some o -> improve cost output i = Ok (<[Z.to_nat i := improved o cost]> output).
Proof.
  intros Ho. pose proof (lookup_lt_Some _ _ _ Ho). unfold improve. rewrite (get_at_Some _ _ _ Ho). cbn [rbind]. destruct o as [c|]; cbn [improved]; [|by rewrite set_at_Ok].
  destruct (cost <? c); [by rewrite set_at_Ok|]. by rewrite list_insert_id.
Qed.

(** ** Loops over the targets of a pose *)

Section Loops.
Context (k : SearchKernel) (Hk : kernel_ok k) {K A : Type} (keys : list K) (tgt : K -> FinesseTarget).

Lemma target_loop (good : A -> Prop) heads next c p j (body : list A -> Z -> Result Failure (list A)) (g : K -> A -> A) out :
  targets_inv k (length keys) (imap (fun i t => (Z.of_nat i, t)) (tgt <$> keys)) (heads, next, c) -> kernel_state_index k p = Some j -> length out = length keys -> Forall good out -> (forall key a, good a -> good (g key a)) ->
  (forall out i key a, keys !! i = Some key -> out !! i = Some a -> good a -> body out (Z.of_nat i) = Ok (<[i := g key a]> out)) ->
  exists h, get_at heads j = Ok h /\ for_targets (length next) next h body out = Ok (slots keys (fun key a => if bool_decide (target_pose (tgt key) = p) && lockable_pose k p then g key a else a) out).
Proof using Hk.
  intros Hti Hj Hl Hgood Hg Hbody. replace (length keys) with (length (tgt <$> keys)) in Hti by apply length_fmap. destruct (loop_targets k Hk (tgt <$> keys) heads next c p j body out Hti Hj) as (h & Hh & _ & E). exists h. split; [done|]. rewrite E.
  set (g' := fun i a => match keys !! Z.to_nat i with Some key => g key a | None => a end). set (l := target_hits k _ p). pose proof (target_hits_bound k (tgt <$> keys) p) as Hb. rewrite length_fmap in Hb.
  destruct (fold_pointwise good g' body l out) as (out' & -> & Hl' & Hp).
  - intros i a Ha. unfold g'. destruct (keys !! Z.to_nat i); [by apply Hg|done].
  - apply target_hits_nodup. rewrite index_keys. apply NoDup_fmap_2; [apply _|apply NoDup_seq].
  - done.
  - by rewrite Hl.
  - intros out0 i a Hi Ha Hga. rewrite Forall_forall in Hb. specialize (Hb i Hi). destruct (lookup_lt_is_Some_2 keys (Z.to_nat i) ltac:(lia)) as [key Hkey]. unfold g'. rewrite Hkey. rewrite <- (Hbody out0 (Z.to_nat i) key a Hkey Ha Hga). by rewrite Z2Nat.id by lia.
  - f_equal. apply slots_eq; [done|congruence|]. intros i key a Hkey Ha. rewrite (Hp i a Ha). f_equal. unfold g'. rewrite Nat2Z.id, Hkey. pose proof (target_hits_index k (tgt <$> keys) i (tgt key) p) as Hh'. rewrite list_lookup_fmap, Hkey in Hh'. specialize (Hh' eq_refl). fold l in Hh'.
    destruct (decide _) as [H|H]; rewrite Hh' in H.
    + destruct H as [H1 H2]. by rewrite bool_decide_eq_true_2, H2.
    + case_bool_decide; [|done]. destruct (lockable_pose k p); [|done]. exfalso. by apply H.
Qed.
End Loops.

(** ** Candidates *)

Section Evidence.
Context (k : SearchKernel) (Hk : kernel_ok k) (Hspawn : pose_fits k (k_spawn k) = true).
Context (targets : list FinesseTarget) (evidence : list (option TerminalEvidenceLabel)).
Context (Hlen : Z.of_nat (length targets) < NO_TARGET) (Hev : length evidence = length targets).

Notation Via := (option (PiecePose * ClassicInputAction * option RotationArrival)).
Local Notation entries_of := (list (PiecePose * (nat * Via))).
Local Notation inv := (bfs_inv (pose_edges k) (k_spawn k) None).
Local Notation keys := (zip targets evidence).
Local Notation all := (imap (fun i t => (Z.of_nat i, t)) targets).

Lemma keys_fst : fst <$> keys = targets.
Proof using Hev. apply fst_zip. by rewrite Hev. Qed.

Lemma keys_length : length keys = length targets.
Proof using Hev. rewrite <- keys_fst at 2. by rewrite length_fmap. Qed.

Lemma keys_lookup i key : keys !! i = Some key <-> targets !! i = Some (fst key) /\ evidence !! i = Some (snd key).
Proof using Type. rewrite lookup_zip_with. destruct key as [t w], (targets !! i), (evidence !! i); cbn; naive_solver. Qed.

(** A loop that lowers the costs of the targets of a pose to [cost], where
    [guard] allows it. *)
Lemma guarded_loop heads next c p j (guard : option TerminalEvidenceLabel -> bool) cost out :
  targets_inv k (length targets) all (heads, next, c) -> kernel_state_index k p = Some j -> length out = length keys ->
  exists h, get_at heads j = Ok h /\
    for_targets (length next) next h (fun output target => let? wanted := get_at evidence target in if guard wanted then improve cost output target else Ok output) out =
    Ok (slots keys (fun tw o => best_of o (if bool_decide (target_pose (fst tw) = p) && lockable_pose k p && guard (snd tw) then [cost] else [])) out).
Proof using Hk Hev.
  intros Hti Hj Hl. set (body := fun output target => let? wanted := get_at evidence target in if guard wanted then improve cost output target else Ok output). rewrite <- keys_fst in Hti at 2. rewrite <- keys_length in Hti.
  destruct (target_loop k Hk keys fst (fun _ => True) heads next c p j body (fun tw o => if guard (snd tw) then improved o cost else o) out Hti Hj Hl) as (h & Hh & E); [by apply Forall_true|done| |].
  - intros out0 i key a [_ He]%keys_lookup Ha _. unfold body. rewrite (get_at_Some evidence (Z.of_nat i) (snd key)) by (by rewrite Nat2Z.id). cbn [rbind]. destruct (guard (snd key)); [|by rewrite list_insert_id]. rewrite (improve_Ok cost out0 (Z.of_nat i) a) by (by rewrite Nat2Z.id). by rewrite Nat2Z.id.
  - exists h. split; [done|]. rewrite E. f_equal. apply slots_ext. intros key a _. destruct (_ && _); cbn [andb]; [|done]. by destruct (guard (snd key)).
Qed.

Definition dropped_guard (p : PiecePose) (w : option TerminalEvidenceLabel) : bool := bool_decide (w = None) || negb (pose_y p =? pose_y (hard_drop k p)) && is_no_rotation w.

Definition drop_candidate (e : PiecePose * (nat * Via)) (tw : FinesseTarget * option TerminalEvidenceLabel) : list Z :=
  if bool_decide (target_pose (fst tw) = hard_drop k e.1) && lockable_pose k (hard_drop k e.1) && dropped_guard e.1 (snd tw) then [Z.of_nat (S e.2.1)] else [].

Definition moved_candidate (e : PiecePose * (nat * Via)) (tw : FinesseTarget * option TerminalEvidenceLabel) (s : Successor) : list Z :=
  if bool_decide (target_pose (fst tw) = successor_pose s) && lockable_pose k (successor_pose s) && is_no_rotation (snd tw) then [Z.of_nat (S (S e.2.1))] else [].

(** What a source offers a target. *)
Definition candidates (tw : FinesseTarget * option TerminalEvidenceLabel) (e : PiecePose * (nat * Via)) : list Z :=
  if pose_inside k (hard_drop k e.1) then drop_candidate e tw ++ (NON_ROTATION_EXPANSION_ORDER ≫= (fun a => successors k e.1 a ≫= moved_candidate e tw)) else [].

Lemma best_of_bind {B} (f : B -> list Z) l o : best_of o (l ≫= f) = foldl (fun o b => best_of o (f b)) o l.
Proof using Type. apply foldl_bind. Qed.

Lemma evidence_source_spec heads next c distance (q : entries_of) c' queue e out : targets_inv k (length targets) all (heads, next, c) -> inv c' q -> search_rep k q (distance, queue) -> e ∈ q -> length out = length keys ->
  evidence_source k heads next evidence distance out e.1 = Ok (slots keys (fun tw o => best_of o (candidates tw e)) out).
Proof using Hk Hspawn Hev.
  intros Hti Hinv Hrep He Hl. destruct e as [p [d x]]. cbn [fst]. pose proof (entry_fits k Hk Hspawn _ _ _ _ _ Hinv He) as Hf. pose proof (entry_small k Hk Hspawn _ _ _ _ _ Hinv He) as Hd. pose proof He as [i Hi]%list_elem_of_lookup.
  destruct (entry_distance k Hk Hspawn c' q _ i p d x Hinv Hrep Hi) as (j & Hj & Hdist). cbn [fst] in Hdist. unfold evidence_source. rewrite Hj. cbn [unwrap rbind]. pose proof (hard_drop_lands k Hk p Hf) as Hlands. pose proof (lands_fits k _ _ Hf Hlands) as Hlf.
  rewrite inside_pose by done. unfold candidates. cbn [fst]. destruct (pose_inside k (hard_drop k p)); cbn [negb]; [|by rewrite slots_id]. destruct (fits_kindex k Hk _ Hlf) as [lj Hlj]. rewrite Hlj. cbn [unwrap rbind]. rewrite (get_at_Some _ _ _ Hdist). cbn [rbind].
  rewrite add_cost_Ok by lia. cbn [rbind]. destruct (guarded_loop heads next c _ lj (dropped_guard p) (Z.of_nat d + 1) out Hti Hlj Hl) as (h & -> & Hloop). cbn [rbind]. unfold dropped_guard in Hloop at 1. rewrite Hloop. cbn [rbind].
  rewrite (try_fold_slots keys _ (fun a tw o => foldl (fun o s => best_of o (moved_candidate (p, (d, x)) tw s)) o (successors k p a))).
  - rewrite slots_slots by done. f_equal. apply slots_ext. intros tw o _. unfold best_of at 3. rewrite foldl_app. fold best_of. change (foldl improved (foldl improved o (drop_candidate (p, (d, x)) tw)) (NON_ROTATION_EXPANSION_ORDER ≫= fun a => successors k p a ≫= moved_candidate (p, (d, x)) tw)) with (best_of (best_of o (drop_candidate (p, (d, x)) tw)) (NON_ROTATION_EXPANSION_ORDER ≫= fun a => successors k p a ≫= moved_candidate (p, (d, x)) tw)).
    rewrite best_of_bind. unfold drop_candidate. cbn [fst snd]. replace (Z.of_nat d + 1) with (Z.of_nat (S d)) by lia. apply foldl_same. intros o' a. by rewrite best_of_bind.
  - intros a out' _ Hl'. rewrite add_cost_Ok by lia. cbn [rbind]. apply (try_fold_slots keys _ (fun s tw o => best_of o (moved_candidate (p, (d, x)) tw s))); [|done]. intros s out2 Hs Hl2. apply (successors_input k Hk) in Hs; [|done]. apply input_fits in Hs.
    rewrite grounded_rests by done. destruct (rests k (successor_pose s)) eqn:Er; cbn [negb].
    + destruct (fits_kindex k Hk _ Hs) as [sj Hsj]. rewrite Hsj. cbn [unwrap rbind]. destruct (guarded_loop heads next c _ sj is_no_rotation (Z.of_nat d + 2) out2 Hti Hsj Hl2) as (h' & -> & Hloop'). cbn [rbind]. rewrite Hloop'. unfold moved_candidate. cbn [fst snd]. by replace (Z.of_nat d + 2) with (Z.of_nat (S (S d))) by lia.
    + rewrite slots_id; [done|done|]. intros key o _. unfold moved_candidate, lockable_pose. rewrite Er, !andb_false_r. done.
  - by apply slots_length.
Qed.

(** ** The three passes *)

Definition spawn_slot (tw : FinesseTarget * option TerminalEvidenceLabel) (o : option Z) : option Z :=
  if bool_decide (target_pose (fst tw) = k_spawn k) && lockable_pose k (k_spawn k) then if is_no_rotation (snd tw) then Some 1 else o else o.

Definition turns_into (t : FinesseTarget) (a : RotationArrival) : bool :=
  lockable_pose k (target_pose t) && bool_decide (pose_rotation (target_pose t) = arrival_to a) && bool_decide (pose_rotation (arrival_predecessor a) = arrival_from a) &&
  match single_successor k (arrival_predecessor a) (arrival_request a) with
  | Some s => bool_decide (successor_pose s = target_pose t) && bool_decide (arrival_label <$> successor_rotation s = Some (LabelRotation a))
  | None => false
  end.

Definition rotation_slot (q : entries_of) (tw : FinesseTarget * option TerminalEvidenceLabel) (o : option Z) : option Z :=
  match snd tw with
  | Some (LabelRotation a) => if turns_into (fst tw) a then match assoc q (arrival_predecessor a) with Some (d, _) => Some (Z.of_nat (S (S d))) | None => o end else o
  | _ => o
  end.

Lemma evidence_target_spec c q distance queue out i key o : inv c q -> search_rep k q (distance, queue) -> out !! i = Some o ->
  evidence_target k distance out (Z.of_nat i, key) = Ok (<[i := rotation_slot q key o]> out).
Proof using Hk Hspawn.
  clear Hev Hlen. intros Hinv (Hr & _ & Hn & Hs) Ho. destruct key as [t w]. unfold evidence_target, rotation_slot. cbn [fst snd]. assert (Ok (E := Failure) out = Ok (<[i := o]> out)) as Hsame by (by rewrite list_insert_id). destruct w as [[|a]|]; [done| |done]. rewrite skip_target by done.
  unfold turns_into. destruct (lockable_pose k (target_pose t)); cbn [negb orb andb]; [|done]. case_bool_decide; cbn [negb orb andb]; [|done]. case_bool_decide; cbn [negb orb andb]; [|done].
  destruct (single_successor k (arrival_predecessor a) (arrival_request a)) as [s|]; [|done]. case_bool_decide; cbn [negb orb andb]; [|done]. case_bool_decide; cbn [negb orb andb]; [|done].
  destruct (kernel_state_index k (arrival_predecessor a)) as [j|] eqn:Ej.
  - destruct Hr as [_ Hf]. cbn [fst] in Hf. rewrite (get_at_Some _ _ _ (Hf _ _ Ej)). cbn [rbind]. destruct (assoc q (arrival_predecessor a)) as [[d x]|] eqn:Ea; cbn [dist_value]; [|by rewrite Z.eqb_refl].
    apply assoc_elem in Ea; [|done]. pose proof (entry_small k Hk Hspawn _ _ _ _ _ Hinv Ea). rewrite (proj2 (Z.eqb_neq _ _)) by (unfold UNREACHED, umax; lia). rewrite add_cost_Ok by lia. cbn [rbind]. rewrite set_at_Ok by (rewrite Nat2Z.id; by apply lookup_lt_Some in Ho). rewrite Nat2Z.id. do 3 f_equal. lia.
  - destruct (assoc q (arrival_predecessor a)) as [[d x]|] eqn:Ea; [|done]. apply assoc_elem in Ea; [|done]. apply (entry_fits k Hk Hspawn _ _ _ _ _ Hinv), (fits_kindex k Hk) in Ea as [? Ea]. congruence.
Qed.

Definition final_slot (q : entries_of) (tw : FinesseTarget * option TerminalEvidenceLabel) : option Z := rotation_slot q tw (spawn_slot tw (best_of None (q ≫= candidates tw))).

Lemma unlockable_slots q tw o : lockable_pose k (target_pose (fst tw)) = false -> rotation_slot q tw (spawn_slot tw (best_of o (q ≫= candidates tw))) = o.
Proof using Type.
  intros Hno. assert (forall p, bool_decide (target_pose (fst tw) = p) && lockable_pose k p = false) as Hp by (intros p; case_bool_decide as E; [by rewrite <- E, Hno|done]).
  assert (forall e, candidates tw e = []) as Hc.
  { intros e. unfold candidates. destruct (pose_inside k _); [|done]. unfold drop_candidate. rewrite Hp. cbn [andb app]. induction NON_ROTATION_EXPANSION_ORDER as [|a l IH]; [done|]. cbn. rewrite IH, app_nil_r. induction (successors k e.1 a) as [|s ss IHs]; [done|]. cbn. rewrite IHs. unfold moved_candidate. by rewrite Hp. }
  assert (q ≫= candidates tw = []) as -> by (induction q as [|e q IH]; [done|]; cbn; by rewrite Hc, IH). cbn. unfold spawn_slot. rewrite Hp. unfold rotation_slot, turns_into. rewrite Hno. cbn [andb]. by destruct (snd tw) as [[]|].
Qed.

Lemma kernel_evidence_run : exists c q, inv c q /\ q !! c = None /\ kernel_costs_for_terminal_evidence k targets evidence = Ok (final_slot q <$> keys).
Proof using Hk Hspawn Hlen Hev.
  unfold kernel_costs_for_terminal_evidence. destruct (compile_targets_spec k Hk targets Hlen) as (heads & next & c0 & -> & Hti). cbn [rbind]. destruct (movement_distances_spec k Hk Hspawn) as (c & q & [distance queue] & -> & Hinv & Hc & Hrep).
  exists c, q. split; [done|]. split; [done|]. set (out0 := replicate (length targets) None). assert (length out0 = length keys) as Hl0 by (by rewrite keys_length; apply length_replicate).
  assert (slots keys (fun tw o => rotation_slot q tw (spawn_slot tw (best_of o (q ≫= candidates tw)))) out0 = final_slot q <$> keys) as Hfinal.
  { symmetry. apply slots_eq; [done|by rewrite length_fmap|]. intros i key a Hkey Ha. apply lookup_replicate in Ha as [-> _]. by rewrite list_lookup_fmap, Hkey. }
  destruct (Z.eqb_spec c0 0) as [E0|_].
  { rewrite <- Hfinal. rewrite slots_id; [done|done|]. intros tw a [i [Ht _]%keys_lookup]%list_elem_of_lookup.
    apply unlockable_slots. apply not_true_iff_false. intros Hl%(valid_target_index k targets i _ Ht). destruct Hti as (_ & _ & Hc0 & _). destruct (valid_indices k all); [by apply not_elem_of_nil in Hl|]. cbn in Hc0. lia. }
  cbn [rbind]. pose proof Hrep as (_ & Hq & _). cbn [snd] in Hq. rewrite Hq, try_fold_fmap. rewrite (try_fold_slots keys _ (fun e tw o => best_of o (candidates tw e))); [|intros e out He Hl; by apply (evidence_source_spec heads next c0 distance q c queue)|done]. cbn [rbind].
  set (out1 := slots keys _ out0). assert (length out1 = length keys) as Hl1 by (by apply slots_length). set (second := if kernel_grounded k (k_spawn k) then _ else _). assert (second = Ok (slots keys spawn_slot out1)) as ->.
  { unfold second. rewrite grounded_rests by done. destruct (rests k (k_spawn k)) eqn:Er; [|rewrite slots_id; [done|done|intros; unfold spawn_slot, lockable_pose; by rewrite Er, !andb_false_r]]. destruct (fits_kindex k Hk _ Hspawn) as [j Hj]. rewrite Hj. cbn [unwrap rbind].
    set (body := fun output target => let? wanted := get_at evidence target in if is_no_rotation wanted then set_at output target (Some 1) else Ok output). pose proof Hti as Hti'. rewrite <- keys_fst in Hti' at 2. rewrite <- keys_length in Hti'.
    destruct (target_loop k Hk keys fst (fun _ => True) heads next c0 (k_spawn k) j body (fun tw o => if is_no_rotation (snd tw) then Some 1 else o) out1 Hti' Hj Hl1) as (h & -> & E); [by apply Forall_true|done| |by cbn [rbind]; rewrite E].
    intros out i key a [_ He]%keys_lookup Ha _. unfold body. rewrite (get_at_Some evidence (Z.of_nat i) (snd key)) by (by rewrite Nat2Z.id). cbn [rbind]. destruct (is_no_rotation (snd key)); [|by rewrite list_insert_id]. by rewrite set_at_Ok, Nat2Z.id by (rewrite Nat2Z.id; by apply lookup_lt_Some in Ha). }
  cbn [rbind]. rewrite (try_fold_entries _ (rotation_slot q)); [|intros out i key a _ Ha; by apply (evidence_target_spec c q distance queue)|by apply slots_length].
  rewrite <- Hfinal. unfold out1. rewrite !slots_slots by (done || by apply slots_length). f_equal. apply slots_ext. intros tw o _. by rewrite best_of_bind.
Qed.
End Evidence.

(** ** The best candidate is the least cost *)

(** A sequence of inputs that locks at a pose with evidence as wanted. *)
Definition places_wanted (k : InputRules) (lock : PiecePose) (wanted : option TerminalEvidenceLabel) (n : nat) : Prop :=
  exists actions evidence, n = S (length actions) /\ places k actions lock evidence /\ (wanted = None \/ wanted = Some evidence).

Section Least.
Context (k : SearchKernel) (Hk : kernel_ok k) (Hspawn : pose_fits k (k_spawn k) = true).

Notation Via := (option (PiecePose * ClassicInputAction * option RotationArrival)).
Local Notation inv := (bfs_inv (pose_edges k) (k_spawn k) None).
Context (c : nat) (q : list (PiecePose * (nat * Via))) (Hinv : inv c q) (Hc : q !! c = None).

Lemma entry_route p d x : (p, (d, x)) ∈ q -> exists actions, length actions = d /\ route k actions p (via_rotation x).
Proof using Hk Hspawn Hinv. intros [i Hi]%list_elem_of_lookup. by apply (path_route k Hk Hspawn), (entry_path _ _ _ c q i). Qed.

Lemma route_entry actions p r : route k actions p r -> exists d x, (p, (d, x)) ∈ q /\ (d <= length actions)%nat.
Proof using Hk Hspawn Hinv Hc. intros (x & Hp & _)%(route_path k Hk Hspawn). by apply (search_complete _ _ _ c q _ _ _ Hinv Hc) in Hp. Qed.

(** A move that is no rotation does not leave the layout's rows, so the source
    of a grounded pose of the layout locks in the layout too. *)
Lemma source_inside p a t : pose_fits k p = true -> input k p a t None -> pose_inside k t = true -> rests k t = true -> pose_inside k (hard_drop k p) = true.
Proof using Hk.
  clear Hspawn Hinv Hc.
  intros Hp Hi Hin Hr. pose proof (hard_drop_lands k Hk p Hp) as Hl. pose proof (lands_fits k _ _ Hp Hl) as Hf.
  assert (pose_rotation t = pose_rotation p -> pose_y t = pose_y p -> pose_inside k (hard_drop k p) = true) as Hrow.
  { intros Er Ey. destruct Hl as (n & Hn & _ & E). rewrite E in *. unfold pose_inside, pose_fits in *. apply andb_true_iff in Hf as [_ Hf]. rewrite forallb_forall in *. cbn in *. rewrite Er, Ey in Hin.
    intros cell Hcell. specialize (Hin cell Hcell). specialize (Hf cell Hcell). unfold free_cell in Hf. kernel_simpl. rewrite !andb_true_iff, !Z.leb_le, !Z.ltb_lt in *. lia. }
  inversion Hi; subst; try (apply Hrow; cbn; lia || done). assert (lands k p (shift_pose p (n * 0) (n * -1))) as Hl'.
  { exists n. split; [lia|]. split; [|done]. split; [done|]. unfold rests in Hr. apply andb_true_iff in Hr as [_ Hr%negb_true_iff]. rewrite shift_shift in Hr. by replace (n * 0 + 0) with ((n + 1) * 0) in Hr by lia; replace (n * -1 + -1) with ((n + 1) * -1) in Hr by lia. }
  by rewrite (lands_unique k p _ _ Hl Hl').
Qed.

Lemma candidate_sound tw e cost : e ∈ q -> cost ∈ candidates k tw e -> exists n, cost = Z.of_nat n /\ places_wanted k (target_pose (fst tw)) (snd tw) n.
Proof using Hk Hspawn Hinv.
  clear Hc. destruct tw as [t w], e as [p [d x]]. intros (actions & Hl & Hr)%entry_route. pose proof (route_fits k _ _ _ Hr) as Hf. pose proof (hard_drop_lands k Hk p Hf) as Hlands. unfold candidates. cbn [fst snd]. destruct (pose_inside k (hard_drop k p)) eqn:Ein; [|intros H; by apply not_elem_of_nil in H].
  rewrite elem_of_app, list_elem_of_bind. intros [H|(a & H & Ha)].
  - unfold drop_candidate in H. cbn [fst snd] in H. case_bool_decide as Et; [|by apply not_elem_of_nil in H]. destruct (lockable_pose k _); [|by apply not_elem_of_nil in H]. destruct (dropped_guard k p w) eqn:Eg; [|by apply not_elem_of_nil in H]. apply list_elem_of_singleton in H as ->.
    exists (S d). split; [done|]. exists actions, (evidence_after p (via_rotation x) (hard_drop k p)). split; [by rewrite Hl|]. rewrite Et. split; [exists p, (via_rotation x); done|].
    unfold dropped_guard in Eg. case_bool_decide; [by left|]. right. cbn [orb] in Eg. apply andb_true_iff in Eg as [Ey%negb_true_iff Ew%bool_decide_eq_true]. unfold evidence_after. by rewrite Ey.
  - apply list_elem_of_bind in H as (s & H & Hs). unfold moved_candidate in H. cbn [fst snd] in H. case_bool_decide as Et; [|by apply not_elem_of_nil in H]. destruct (lockable_pose k _) eqn:El; [|by apply not_elem_of_nil in H]. destruct (is_no_rotation w) eqn:Ew; [|by apply not_elem_of_nil in H]. apply list_elem_of_singleton in H as ->.
    apply (successors_input k Hk) in Hs; [|done]. apply andb_true_iff in El as [Hins Hrest]. apply bool_decide_eq_true in Ew as ->. rewrite Et. assert (successor_rotation s = None) as Hnone by (inversion Hs; subst; try done; exfalso; destruct a; cbn in *; try done; set_solver). rewrite Hnone in Hs.
    exists (S (S d)). split; [done|]. exists (actions ++ [a]), LabelNoRotation. split; [rewrite length_app, Hl; cbn; lia|]. split; [|by right]. exists (successor_pose s), None. split; [by apply (route_input k actions p (via_rotation x))|]. split; [by apply rests_lands|]. split; [done|]. unfold evidence_after. by rewrite Z.eqb_refl.
Qed.

Lemma label_of_plain r : label_of r = LabelNoRotation -> r = None.
Proof using Type. by destruct r. Qed.

Lemma label_of_arrival r a : label_of r = LabelRotation a -> r = Some a.
Proof using Type. destruct r; [|done]. by intros [= ->]. Qed.

(** How a lock comes about, by its evidence. *)
Lemma places_cases actions lock ev : places k actions lock ev ->
  (exists p r, route k actions p r /\ lands k p lock /\ pose_y p <> pose_y lock /\ ev = LabelNoRotation) \/
  (actions = [] /\ lock = k_spawn k /\ ev = LabelNoRotation) \/
  (exists before p r a r', actions = before ++ [a] /\ route k before p r /\ input k p a lock r' /\ ev = label_of r').
Proof using Type.
  intros (p & r & Hr & Hl & Hin & ->). unfold evidence_after. destruct (Z.eqb_spec (pose_y p) (pose_y lock)) as [E|E]; [|left; by exists p, r]. apply (lands_same_row k p lock Hl) in E as ->. right.
  destruct Hr as [_|before p r0 a q' r' Hr Hi]; [by left|]. right. exists before, p, r0, a, r'. done.
Qed.

Lemma lockable_candidate t w p d x : pose_inside k (target_pose t) = true -> lockable_pose k (target_pose t) = true -> pose_fits k p = true -> hard_drop k p = target_pose t -> dropped_guard k p w = true -> Z.of_nat (S d) ∈ candidates k (t, w) (p, (d, x)).
Proof using Type.
  intros Hin Hl Hf Hd Hg. unfold candidates. cbn [fst]. rewrite Hd, Hin. apply elem_of_app. left. unfold drop_candidate. cbn [fst snd]. rewrite Hd, bool_decide_eq_true_2, Hl, Hg by done. by left.
Qed.

Lemma candidate_complete t w n : (forall a, w <> Some (LabelRotation a)) -> places_wanted k (target_pose t) w n ->
  (exists e cost, e ∈ q /\ cost ∈ candidates k (t, w) e /\ cost <= Z.of_nat n) \/ (w = Some LabelNoRotation /\ target_pose t = k_spawn k).
Proof using Hk Hspawn Hinv Hc.
  intros Hw (actions & ev & -> & Hp & Hev). pose proof (places_lockable k _ _ _ Hp) as Hlock. pose proof Hlock as [Hin Hrest]%andb_true_iff.
  assert (forall p r, route k actions p r -> lands k p (target_pose t) -> dropped_guard k p w = true -> exists e cost, e ∈ q /\ cost ∈ candidates k (t, w) e /\ cost <= Z.of_nat (S (length actions))) as Hdrop.
  { intros p r Hr Hl Hg. destruct (route_entry _ _ _ Hr) as (d & x & He & Hle). apply route_fits in Hr. exists (p, (d, x)), (Z.of_nat (S d)). split; [done|]. split; [|lia]. apply lockable_candidate; [done|done|done|by apply hard_drop_eq|done]. }
  destruct Hev as [->| ->].
  { left. destruct Hp as (p & r & Hr & Hl & _). by apply (Hdrop p r). }
  assert (ev = LabelNoRotation) as -> by (destruct ev as [|a]; [done|]; by destruct (Hw a)). destruct (places_cases _ _ _ Hp) as [(p & r & Hr & Hl & Hy & _)|[(_ & E & _)|(before & p & r & a & r' & -> & Hr & Hi & E)]].
  - left. apply (Hdrop p r); [done|done|]. apply route_fits in Hr. apply (hard_drop_eq k Hk p _ Hr) in Hl. unfold dropped_guard. rewrite Hl. by rewrite (proj2 (Z.eqb_neq _ _)).
  - right. done.
  - left. symmetry in E. apply label_of_plain in E as ->. destruct (route_entry _ _ _ Hr) as (d & x & He & Hle). apply route_fits in Hr. exists (p, (d, x)), (Z.of_nat (S (S d))). split; [done|]. split; [|rewrite length_app; cbn; lia].
    unfold candidates. cbn [fst]. rewrite (source_inside p a (target_pose t)) by done. apply elem_of_app. right. apply list_elem_of_bind. exists a. split; [|inversion Hi; subst; unfold NON_ROTATION_EXPANSION_ORDER; set_solver].
    apply list_elem_of_bind. exists (mkSuccessor (target_pose t) None). split; [|by apply (successors_input k Hk)]. unfold moved_candidate. cbn. rewrite bool_decide_eq_true_2, Hlock by done. by left.
Qed.

(** The evidence of a rotation tells where it came from. *)
Lemma input_arrival p act t a : input k p act t (Some a) -> arrival_predecessor a = p /\ arrival_from a = pose_rotation p /\ arrival_to a = pose_rotation t /\ arrival_request a = act /\ is_Some (rotation_target act (pose_rotation p)).
Proof using Type. inversion 1; subst. cbn. split_and!; done. Qed.

Lemma arrival_successor p act t a : pose_fits k p = true -> input k p act t (Some a) -> single_successor k p act = Some (mkSuccessor t (Some a)).
Proof using Hk.
  intros Hf Hi. pose proof (input_arrival _ _ _ _ Hi) as (_ & _ & _ & _ & [to Ht]). apply (successors_input k Hk p act (mkSuccessor t (Some a)) Hf) in Hi. unfold successors in Hi. destruct act; try done; destruct (single_successor k p _); try (by apply not_elem_of_nil in Hi); by apply list_elem_of_singleton in Hi as ->.
Qed.

(** What the check of a wanted rotation decides. *)
Lemma turns_into_spec t a d x : (arrival_predecessor a, (d, x)) ∈ q ->
  turns_into k t a = true <-> lockable_pose k (target_pose t) = true /\ input k (arrival_predecessor a) (arrival_request a) (target_pose t) (Some a).
Proof using Hk Hspawn Hinv.
  clear Hc. intros (actions & Hl & Hr)%entry_route. pose proof (route_fits k _ _ _ Hr) as Hf. unfold turns_into. rewrite !andb_true_iff, !bool_decide_eq_true. split.
  - intros [[[Hlock Hto] Hfrom] H]. split; [done|]. destruct (single_successor k _ _) as [s|] eqn:Es; [|done]. apply andb_true_iff in H as [Hp%bool_decide_eq_true Hs%bool_decide_eq_true].
    assert (successor_rotation s = Some a) as Ha by (destruct (successor_rotation s); [by injection Hs as ->|done]). rewrite <- Hp, <- Ha. apply (successors_input k Hk); [done|]. unfold successors. destruct (arrival_request a); try done; rewrite Es; by left.
  - intros [Hlock Hi]. destruct (input_arrival _ _ _ _ Hi) as (_ & -> & -> & _ & _). rewrite (arrival_successor _ _ _ _ Hf Hi). cbn [successor_pose successor_rotation fmap option_fmap option_map]. by rewrite !bool_decide_eq_true_2.
Qed.

Lemma plain_slot_least t w : (forall a, w <> Some (LabelRotation a)) -> least_cost (places_wanted k (target_pose t) w) (spawn_slot k (t, w) (best_of None (q ≫= candidates k (t, w)))).
Proof using Hk Hspawn Hinv Hc.
  intros Hw. unfold spawn_slot. cbn [fst snd]. destruct (bool_decide (target_pose t = k_spawn k) && lockable_pose k (k_spawn k) && is_no_rotation w) eqn:Eb.
  - apply andb_true_iff in Eb as [[Et%bool_decide_eq_true Hl]%andb_true_iff Ew%bool_decide_eq_true]. subst w. rewrite Hl, Et, bool_decide_eq_true_2 by done. exists 1%nat. split; [done|]. apply andb_true_iff in Hl as [Hin Hr]. split; [|intros m (actions & _ & -> & _); lia].
    exists [], LabelNoRotation. split; [done|]. split; [|by right]. exists (k_spawn k), None. split; [by constructor|]. split; [by apply rests_lands|]. split; [done|]. unfold evidence_after. by rewrite Z.eqb_refl.
  - assert ((if bool_decide (target_pose t = k_spawn k) && lockable_pose k (k_spawn k) then if is_no_rotation w then Some 1 else best_of None (q ≫= candidates k (t, w)) else best_of None (q ≫= candidates k (t, w))) = best_of None (q ≫= candidates k (t, w))) as ->
      by (destruct (_ && lockable_pose k (k_spawn k)); [|done]; by destruct (is_no_rotation w)).
    assert (forall n, places_wanted k (target_pose t) w n -> exists cost, cost ∈ q ≫= candidates k (t, w) /\ cost <= Z.of_nat n) as Hcomplete.
    { intros n Hn. destruct (candidate_complete t w n Hw Hn) as [(e & cost & He & Hcost & Hle)|[-> Et]]; [exists cost; split; [apply list_elem_of_bind; by exists e|done]|]. exfalso. destruct Hn as (actions & ev & _ & Hp & _). apply places_lockable in Hp. rewrite Et in *. by rewrite bool_decide_eq_true_2, Hp in Eb by done. }
    pose proof (best_of_spec (q ≫= candidates k (t, w))) as Hbest. destruct (best_of None _) as [z|]; cbn [is_best least_cost] in *.
    + destruct Hbest as [Hz Hmin]. pose proof Hz as (e & Hz' & He)%list_elem_of_bind. destruct (candidate_sound (t, w) e z He Hz') as (n & -> & Hn). exists n. split; [done|]. split; [done|]. intros m (cost & Hcost & Hle)%Hcomplete. specialize (Hmin _ Hcost). lia.
    + intros n (cost & Hcost & _)%Hcomplete. rewrite Hbest in Hcost. by apply not_elem_of_nil in Hcost.
Qed.

Lemma rotation_places t a n : places_wanted k (target_pose t) (Some (LabelRotation a)) n <->
  exists before r, n = S (S (length before)) /\ route k before (arrival_predecessor a) r /\ input k (arrival_predecessor a) (arrival_request a) (target_pose t) (Some a) /\ lockable_pose k (target_pose t) = true.
Proof using Type.
  clear Hk Hspawn Hinv Hc. split.
  - intros (actions & ev & -> & Hp & [?|[= <-]]); [done|]. pose proof (places_lockable k _ _ _ Hp) as Hlock. destruct (places_cases _ _ _ Hp) as [(p & r & _ & _ & _ & ?)|[(_ & _ & ?)|(before & p & r & act & r' & -> & Hr & Hi & E)]]; [done|done|].
    symmetry in E. apply label_of_arrival in E as ->. destruct (input_arrival _ _ _ _ Hi) as (-> & _ & _ & -> & _). exists before, r. split; [rewrite length_app; cbn; lia|done].
  - intros (before & r & -> & Hr & Hi & [Hin Hrest]%andb_true_iff). exists (before ++ [arrival_request a]), (LabelRotation a). split; [rewrite length_app; cbn; lia|]. split; [|by right]. exists (target_pose t), (Some a). split; [by apply (route_input k before (arrival_predecessor a) r)|].
    split; [by apply rests_lands|]. split; [done|]. unfold evidence_after. by rewrite Z.eqb_refl.
Qed.

Lemma rotation_slot_least t a : least_cost (places_wanted k (target_pose t) (Some (LabelRotation a)))
  (if turns_into k t a then match assoc q (arrival_predecessor a) with Some (d, _) => Some (Z.of_nat (S (S d))) | None => None end else None).
Proof using Hk Hspawn Hinv Hc.
  pose proof (bi_nodup _ _ _ _ _ Hinv) as Hn. destruct (assoc q (arrival_predecessor a)) as [[d x]|] eqn:Ea.
  - apply (assoc_elem q _ _ Hn) in Ea. pose proof (turns_into_spec t a d x Ea) as Ht. destruct (turns_into k t a); cbn.
    + destruct Ht as [Ht _]. destruct (Ht eq_refl) as [Hlock Hi]. destruct (entry_route _ _ _ Ea) as (actions & Hl & Hr). exists (S (S d)). split; [done|]. split; [apply rotation_places; exists actions, (via_rotation x); by rewrite Hl|].
      intros m (before & r & -> & Hr' & _)%rotation_places. apply (route_path k Hk Hspawn) in Hr' as (y & Hp & _). pose proof (entry_minimal _ _ _ _ _ _ _ _ _ _ Hinv Ea Hp). lia.
    + intros n (before & r & _ & _ & Hi & Hlock)%rotation_places. destruct Ht as [_ Ht]. by specialize (Ht (conj Hlock Hi)).
  - assert (forall n, ~ places_wanted k (target_pose t) (Some (LabelRotation a)) n) as Hno; [|by destruct (turns_into k t a)]. intros n (before & r & _ & Hr & _)%rotation_places. apply route_entry in Hr as (d & x & He & _). apply assoc_None in Ea. apply Ea. apply list_elem_of_fmap. by exists (arrival_predecessor a, (d, x)).
Qed.

(** A target that asks for a rotation is left alone by the other passes. *)
Lemma rotation_no_candidates t a e : candidates k (t, Some (LabelRotation a)) e = [].
Proof using Type.
  assert (is_no_rotation (Some (LabelRotation a)) = false) as Hr by (by apply bool_decide_eq_false_2). assert (dropped_guard k e.1 (Some (LabelRotation a)) = false) as Hd by (unfold dropped_guard; by rewrite Hr, andb_false_r, bool_decide_eq_false_2).
  unfold candidates. destruct (pose_inside k _); [|done]. unfold drop_candidate. cbn [fst snd]. rewrite Hd, andb_false_r. cbn [app].
  induction NON_ROTATION_EXPANSION_ORDER as [|b l IH]; [done|]. cbn. rewrite IH, app_nil_r. induction (successors k e.1 b) as [|s ss IHs]; [done|]. cbn. rewrite IHs. unfold moved_candidate. cbn [fst snd]. by rewrite Hr, andb_false_r.
Qed.

Lemma final_slot_least tw : least_cost (places_wanted k (target_pose (fst tw)) (snd tw)) (final_slot k q tw).
Proof using Hk Hspawn Hinv Hc.
  destruct tw as [t w]. cbn [fst snd]. unfold final_slot, rotation_slot. cbn [fst snd]. destruct w as [[|a]|]; try (by apply plain_slot_least).
  assert (forall l, l ≫= candidates k (t, Some (LabelRotation a)) = []) as Hno by (induction l as [|e l IH]; [done|]; cbn; by rewrite rotation_no_candidates, IH). rewrite Hno. unfold spawn_slot. cbn [fst snd best_of foldl]. replace (is_no_rotation (Some (LabelRotation a))) with false by (symmetry; by apply bool_decide_eq_false_2).
  destruct (bool_decide _ && _); apply rotation_slot_least.
Qed.
End Least.
