(* ===== verification/FinesseParents.v ===== *)
(** * Searches that keep parents

    The witness searches store for every pose the pose and the input it was
    first reached by.  Following the parents back to the spawn gives the inputs
    of a shortest route. *)

From Stdlib Require Import ZArith Lia.
From stdpp Require Import prelude strings.
From S2P Require Import Prelude Words Board PcBoard Pieces Kicks Reachability ReachTemplate Reach Finesse FinesseRules Bfs FinesseSearch FinesseCosts FinesseEvidence.

Local Open Scope Z_scope.

Section Parents.
Context (k : SearchKernel) (Hk : kernel_ok k) (Hspawn : pose_fits k (k_spawn k) = true).

Notation Via := (option (PiecePose * ClassicInputAction * option RotationArrival)).
Local Notation entries_of := (list (PiecePose * (nat * Via))).
Local Notation inv := (bfs_inv (pose_edges k) (k_spawn k) None).
Local Notation idx := (kernel_state_index k).
Local Notation count := (Z.to_nat (k_state_count k)).

Definition parent_value (e : option (nat * Via)) : option Parent :=
  match e with Some (_, Some (p, a, r)) => Some (mkParent (default 0 (idx p)) a r) | _ => None end.

(** The state of a search with parents. *)
Definition parent_rep (q : entries_of) (st : ParentSearch) : Prop := search_rep k q (ps_distance st, ps_queue st) /\ vec_rep (X := Via) idx count parent_value q (ps_parents st).

Lemma visit_parent_rep q st p i d a s : parent_rep q st -> Z.of_nat d < UNREACHED -> idx p = Some i -> pose_fits k (successor_pose s) = true ->
  exists st', visit_parent k i (Z.of_nat d) a st s = Ok st' /\ parent_rep (push d q (successor_pose s, Some (p, a, successor_rotation s))) st'.
Proof using Hk.
  intros [Hr Hp] Hd Hi Hf. destruct (visit_rep k Hk q _ d s (Some (p, a, successor_rotation s)) Hr Hd Hf) as ([distance queue] & Hv & Hr'). unfold visit in Hv. unfold visit_parent.
  destruct (fits_kindex k Hk _ Hf) as [j Hj]. rewrite Hj in *. cbn [unwrap rbind] in *. destruct Hr as (Hrep & Hq & Hn & Hs). cbn [fst snd] in Hrep, Hq. destruct (dist_unreached k q _ _ j Hrep Hn Hs Hj) as (d0 & Hd0 & Eb). rewrite (get_at_Some _ _ _ Hd0) in *. cbn [rbind] in *. rewrite Eb in *.
  unfold push in *. cbn [fst snd] in *. destruct (decide (successor_pose s ∈ q.*1)) as [Hin|Hin].
  - rewrite bool_decide_eq_false_2 in Hv |- * by tauto. exists st. done.
  - rewrite bool_decide_eq_true_2 in Hv |- * by done. destruct (set_at (ps_distance st) j (Z.of_nat d)) as [distance'|] eqn:Es; [|done]. cbn [rbind] in *. injection Hv as <- <-. pose proof (kidx_bound k Hk _ _ Hj). rewrite set_at_Ok by (destruct Hp; lia). cbn [rbind]. eexists. split; [done|]. split; [exact Hr'|]. cbn [ps_parents].
    replace (Some (mkParent i a (successor_rotation s))) with (parent_value (Some (d, Some (p, a, successor_rotation s)))) by (cbn; by rewrite Hi). apply (vec_rep_snoc idx count (kidx_bound k Hk) (kindex_inj k Hk)); done.
Qed.

Lemma expand_parent_rep q st p i d : parent_rep q st -> Z.of_nat (S d) < UNREACHED -> idx p = Some i -> pose_fits k p = true -> exists st', expand_parent k p i (Z.of_nat (S d)) st = Ok st' /\ parent_rep (expand_entry (pose_edges k) q p d) st'.
Proof using Hk.
  intros Hr Hd Hi Hp. unfold expand_parent, expand_entry, pose_edges. rewrite foldl_bind. apply (try_fold_rel parent_rep); [|done]. intros q' st' a _ Hr'. rewrite foldl_fmap. apply (try_fold_rel parent_rep); [|done].
  intros q2 st2 s Hs Hr2. apply visit_parent_rep; [done|done|done|]. apply (successors_input k Hk) in Hs; [|done]. by apply input_fits in Hs.
Qed.

Lemma start_parents_rep : exists i st, idx (k_spawn k) = Some i /\ start_parents k = Ok (i, st) /\ parent_rep (start_entries k) st.
Proof using Hk Hspawn.
  destruct (start_rep k Hk Hspawn) as ([distance queue] & Hst & Hr). unfold start_search in Hst. unfold start_parents. destruct (fits_kindex k Hk _ Hspawn) as [i Hi]. rewrite Hi in *. cbn [unwrap rbind] in *. destruct (set_at _ i 0) as [distance'|] eqn:Es; [|done]. cbn [rbind] in *. injection Hst as <- <-.
  eexists i, _. split; [done|]. split; [done|]. split; [exact Hr|]. cbn [ps_parents]. pose proof (vec_rep_start (N := PiecePose) (X := Via) idx count (kidx_bound k Hk) parent_value) as [Hl Hv]. split; [done|]. intros v j Hj. etrans; [exact (Hv v j Hj)|]. f_equal. unfold start_entries. cbn. by destruct (decide _).
Qed.

(** One turn of a loop with parents. *)
Lemma turn_parent_rep c q st p d x : inv c q -> parent_rep q st -> q !! c = Some (p, (d, x)) ->
  exists j st', idx p = Some j /\ get_at (ps_distance st) j = Ok (Z.of_nat d) /\ add_cost (Z.of_nat d) 1 = Ok (Z.of_nat (S d)) /\ expand_parent k p j (Z.of_nat (S d)) st = Ok st' /\
    inv (S c) (expand_entry (pose_edges k) q p d) /\ parent_rep (expand_entry (pose_edges k) q p d) st'.
Proof using Hk Hspawn.
  intros Hinv Hrep Hc. pose proof Hrep as [Hs _]. destruct (entry_distance k Hk Hspawn c q _ c p d x Hinv Hs Hc) as (j & Hj & Hd). pose proof (list_elem_of_lookup_2 _ _ _ Hc) as He. pose proof (entry_small k Hk Hspawn _ _ _ _ _ Hinv He).
  destruct (expand_parent_rep q st p j d Hrep) as (st' & Ee & Hr'); [unfold UNREACHED, umax; lia|done|exact (entry_fits k Hk Hspawn _ _ _ _ _ Hinv He)|]. exists j, st'. split; [done|]. split; [by apply get_at_Some|]. split; [rewrite add_cost_Ok by lia; f_equal; lia|]. split; [done|].
  split; [by apply (bfs_step _ _ _ c p d x)|done].
Qed.

Lemma parent_queue c q st : parent_rep q st -> ps_queue st !! c = (fst <$> q !! c).
Proof using Type. intros [Hr _]. exact (queue_lookup k c q _ Hr). Qed.

(** ** Following the parents *)

Lemma spawn_entry c q d x : inv c q -> (k_spawn k, (d, x)) ∈ q -> d = 0%nat /\ x = None.
Proof using Type. intros Hinv Hin. pose proof (bi_root _ _ _ _ _ Hinv) as Hroot%list_elem_of_lookup_2. by pose proof (entry_unique _ _ _ _ _ _ _ _ Hinv Hin Hroot) as [= -> ->]. Qed.

Lemma parent_actions_spec c q st fuel i p d x j spawn : inv c q -> parent_rep q st -> idx (k_spawn k) = Some spawn -> q !! i = Some (p, (d, x)) -> idx p = Some j -> (d <= fuel)%nat ->
  exists actions, parent_actions fuel j spawn (ps_parents st) = Ok (reverse actions) /\ length actions = d /\ route k actions p (via_rotation x).
Proof using Hk Hspawn.
  intros Hinv Hrep Hs. revert i p d x j. induction fuel as [|fuel IH]; intros i p d x j Hi Hj Hd; cbn [parent_actions].
  all: destruct (Z.eqb_spec j spawn) as [->|Hne].
  1,3: assert (p = k_spawn k) as -> by (by apply (kindex_inj k Hk _ _ spawn)); apply list_elem_of_lookup_2, (spawn_entry c) in Hi as [-> ->]; [|done]; exists []; split; [done|]; split; [done|]; by constructor.
  all: destruct (bi_linked _ _ _ _ _ Hinv _ _ _ _ Hi) as [(_ & -> & _)|(i' & u & d' & x' & _ & _ & Hu & -> & He)]; [congruence|].
  - lia.
  - pose proof (list_elem_of_lookup_2 _ _ _ Hu) as Huq. pose proof (entry_fits k Hk Hspawn _ _ _ _ _ Hinv Huq) as Hfu. apply (elem_of_pose_edges k Hk Hspawn) in He as (a & r & -> & Hin); [|done]. destruct (fits_kindex k Hk u Hfu) as [ju Hju].
    pose proof Hrep as [(_ & _ & Hn & _) Hp]. pose proof (vec_rep_lookup idx count parent_value q _ p j _ Hn Hp Hj (list_elem_of_lookup_2 _ _ _ Hi)) as Hl. cbn in Hl. rewrite Hju in Hl. cbn in Hl. rewrite (get_at_Some _ _ _ Hl). cbn [rbind unwrap parent_previous parent_action].
    destruct (IH i' u d' x' ju Hu Hju ltac:(lia)) as (actions & -> & Hla & Hr). cbn [rbind]. exists (actions ++ [a]). split; [by rewrite reverse_snoc|]. split; [rewrite length_app; cbn; lia|]. by apply (route_input k actions u (via_rotation x')).
Qed.

Lemma reconstruct_spec c q st i p d x j spawn : inv c q -> parent_rep q st -> idx (k_spawn k) = Some spawn -> q !! i = Some (p, (d, x)) -> idx p = Some j ->
  exists actions, reconstruct_actions j spawn (ps_parents st) = Ok actions /\ length actions = d /\ route k actions p (via_rotation x).
Proof using Hk Hspawn.
  intros Hinv Hrep Hs Hi Hj. unfold reconstruct_actions. destruct (parent_actions_spec c q st (length (ps_parents st)) i p d x j spawn Hinv Hrep Hs Hi Hj) as (actions & -> & Hl & Hr).
  - destruct Hrep as [_ [-> _]]. pose proof (entry_depth _ _ _ _ _ _ _ _ _ Hinv Hi). pose proof (lookup_lt_Some _ _ _ Hi). pose proof (pose_queue_bound k Hk Hspawn _ _ Hinv). lia.
  - cbn [rbind]. exists actions. by rewrite reverse_involutive.
Qed.
End Parents.
