(* ===== verification/FinesseWitness.v ===== *)
(** * Witnesses

    The searches that return a sequence of inputs: for any lock, for a lock
    with a wanted rotation and for a lock without one.  The sequence they
    return is a route of the rules with the wanted evidence, no route is
    shorter, and none exists when they return none.  A cancellation callback
    can only turn the result into [Cancelled]. *)

From Stdlib Require Import ZArith Lia.
From stdpp Require Import prelude strings.
From S2P Require Import Prelude Words Board PcBoard Pieces Kicks Reachability ReachTemplate Reach Finesse FinesseRules Bfs FinesseSearch FinesseCosts FinesseEvidence FinesseParents.

Local Open Scope Z_scope.

(** What a witness for a target promises. *)
Definition witness_right (k : InputRules) (t : FinesseTarget) (wanted : option TerminalEvidenceLabel) (result : option FinesseWitness) : Prop :=
  match result with
  | None => forall n, ~ places_wanted k (target_pose t) wanted n
  | Some w => witness_target w = t /\ (wanted = None \/ wanted = Some (witness_evidence w)) /\
      (exists inputs, witness_actions w = inputs ++ [HardDrop] /\ places k inputs (target_pose t) (witness_evidence w)) /\
      witness_cost w = Z.of_nat (length (witness_actions w)) /\ forall n, places_wanted k (target_pose t) wanted n -> witness_cost w <= Z.of_nat n
  end.

Lemma places_in_wanted (k : InputRules) lock n : places_in k lock n <-> places_wanted k lock None n.
Proof. unfold places_in, places_wanted. split; intros (actions & ev & H); exists actions, ev; naive_solver. Qed.

(** A call that is cancelled at some point or gives the same result. *)
Definition cancels {A} (is_cancelled : nat -> bool) (result plain : Result Failure A) : Prop := result = plain \/ (result = Err (Fails Cancelled) /\ exists n, is_cancelled n = true).

Section Cancel.
Context (k : SearchKernel) (target : FinesseTarget) (is_cancelled : nat -> bool).

Lemma cancels_here {A} n (plain : Result Failure A) : is_cancelled n = true -> cancels is_cancelled (Err (Fails Cancelled)) plain.
Proof using Type. intros H. right. split; [done|by exists n]. Qed.

Lemma cancels_bind {A B} (r : Result Failure A) (f g : A -> Result Failure B) : (forall a, cancels is_cancelled (f a) (g a)) -> cancels is_cancelled (rbind r f) (rbind r g).
Proof using Type. intros H. destruct r; cbn; [apply H|by left]. Qed.

Lemma cancels_if {A} (b : bool) (r r' s : Result Failure A) : cancels is_cancelled r s -> cancels is_cancelled (if b then r' else r) (if b then r' else s).
Proof using Type. intros H. destruct b; [by left|done]. Qed.

Lemma witness_loop_cancels fuel spawn c st : cancels is_cancelled (witness_loop fuel k target spawn is_cancelled c st) (witness_loop fuel k target spawn (fun _ => false) c st).
Proof using Type.
  revert c st. induction fuel as [|fuel IH]; intros c st; cbn [witness_loop]; (destruct (ps_queue st !! c) as [p|]; [|by left]); [by left|]. destruct (is_cancelled c) eqn:E; [by apply (cancels_here c)|].
  apply cancels_bind. intros j. apply cancels_if. do 3 (apply cancels_bind; intros ?). apply IH.
Qed.

Lemma rotation_loop_cancels a pred fuel spawn c st : cancels is_cancelled (rotation_witness_loop fuel k target a pred spawn is_cancelled c st) (rotation_witness_loop fuel k target a pred spawn (fun _ => false) c st).
Proof using Type.
  revert c st. induction fuel as [|fuel IH]; intros c st; cbn [rotation_witness_loop]; (destruct (ps_queue st !! c) as [p|]; [|by left]); [by left|]. destruct (is_cancelled c) eqn:E; [by apply (cancels_here c)|].
  apply cancels_bind. intros j. apply cancels_if. do 3 (apply cancels_bind; intros ?). apply IH.
Qed.

Lemma plain_loop_cancels fuel c st : cancels is_cancelled (plain_witness_loop fuel k target is_cancelled c st) (plain_witness_loop fuel k target (fun _ => false) c st).
Proof using Type.
  revert c st. induction fuel as [|fuel IH]; intros c [search best]; cbn [plain_witness_loop]; (destruct (ps_queue search !! c) as [p|]; [|by left]); [by left|]. destruct (is_cancelled c) eqn:E; [by apply (cancels_here c)|].
  do 6 (apply cancels_bind; intros ?). apply IH.
Qed.

Lemma cancels_then {A B} (r s : Result Failure A) (f : A -> Result Failure B) : cancels is_cancelled r s -> cancels is_cancelled (rbind r f) (rbind s f).
Proof using Type. intros [->|[-> H]]; [by left|]. right. done. Qed.

Lemma kernel_witness_cancels : cancels is_cancelled (kernel_witness k target is_cancelled) (kernel_witness k target (fun _ => false)).
Proof using Type. unfold kernel_witness. destruct (kernel_state_index k _); [|by left]. apply cancels_if, cancels_bind. intros [spawn st]. apply witness_loop_cancels. Qed.

Lemma kernel_evidence_cancels evidence : cancels is_cancelled (kernel_witness_for_terminal_evidence k target evidence is_cancelled) (kernel_witness_for_terminal_evidence k target evidence (fun _ => false)).
Proof using Type.
  unfold kernel_witness_for_terminal_evidence. destruct evidence as [|a].
  - unfold plain_witness. apply cancels_if, cancels_bind. intros [spawn st]. apply cancels_then, plain_loop_cancels.
  - apply cancels_if. destruct (single_successor k _ _); [|by left]. apply cancels_if. destruct (kernel_state_index k _); [|by left]. apply cancels_bind. intros [spawn st]. apply rotation_loop_cancels.
Qed.
End Cancel.

Section Witness.
Context (k : SearchKernel) (Hk : kernel_ok k) (Hspawn : pose_fits k (k_spawn k) = true) (target : FinesseTarget).

Notation Via := (option (PiecePose * ClassicInputAction * option RotationArrival)).
Local Notation entries_of := (list (PiecePose * (nat * Via))).
Local Notation inv := (bfs_inv (pose_edges k) (k_spawn k) None).
Local Notation idx := (kernel_state_index k).
Local Notation goal := (target_pose target).
Local Notation never := (fun _ : nat => false).

Lemma unlockable_wanted w n : lockable_pose k goal = false -> ~ places_wanted k goal w n.
Proof using Type. intros Hl (actions & ev & _ & H%places_lockable & _). congruence. Qed.

(** ** Any lock *)

Lemma lock_evidence_parent q st p d x j lock : parent_rep k q st -> (p, (d, x)) ∈ q -> idx p = Some j ->
  (if pose_y p =? pose_y lock then let? stored := get_at (ps_parents st) j in Ok (label_of (stored ≫= parent_rotation)) else Ok LabelNoRotation) = Ok (evidence_after p (via_rotation x) lock).
Proof using Type.
  intros [(_ & _ & Hn & _) Hp] Hin Hj. unfold evidence_after. destruct (pose_y p =? pose_y lock); [|done]. rewrite (get_at_Some _ _ _ (vec_rep_lookup idx _ (parent_value k) q _ p j _ Hn Hp Hj Hin)). cbn [rbind]. do 2 f_equal. by destruct x as [[[u a] r]|].
Qed.

Lemma witness_loop_spec spawn fuel c q st : idx (k_spawn k) = Some spawn -> pose_inside k goal = true -> inv c q -> parent_rep k q st -> first_cost k (take c q) goal = None -> (Z.to_nat (k_state_count k) < fuel + c)%nat ->
  exists result, witness_loop fuel k target spawn never c st = Ok result /\ witness_right k target None result.
Proof using Hk Hspawn.
  intros Hs Hgoal. revert c q st. induction fuel as [|fuel IH]; intros c q st Hinv Hr Hnone Hf; cbn [witness_loop]; rewrite (parent_queue k c q st Hr); (destruct (q !! c) as [[p [d x]]|] eqn:Ec; cbn [fmap option_fmap option_map fst]).
  2,4: exists None; split; [done|]; intros n Hn%places_in_wanted; by apply (first_cost_none k Hk Hspawn c q goal Hinv Ec Hnone n).
  { pose proof (lookup_lt_Some _ _ _ Ec). pose proof (pose_queue_bound k Hk Hspawn _ _ Hinv). lia. }
  destruct (turn_parent_rep k Hk Hspawn c q st p d x Hinv Hr Ec) as (j & st2 & Hj & Hd & Ha & He & Hinv' & Hr'). rewrite Hj. cbn [unwrap rbind]. pose proof (list_elem_of_lookup_2 _ _ _ Ec) as Hin. pose proof (entry_fits k Hk Hspawn _ _ _ _ _ Hinv Hin) as Hfit.
  pose proof (first_cost_snoc k (take c q) goal (p, (d, x))) as Hsnoc. rewrite <- (take_expand k c q p d x Hinv Ec), Hnone in Hsnoc. unfold lock_cost in Hsnoc. cbn [fst snd] in Hsnoc. case_bool_decide as Hdrop.
  - rewrite Hd. cbn [rbind]. rewrite Ha. cbn [rbind]. destruct (reconstruct_spec k Hk Hspawn c q st c p d x j spawn Hinv Hr Hs Ec Hj) as (actions & -> & Hl & Hroute). cbn [rbind]. rewrite (lock_evidence_parent q st p d x j _ Hr Hin Hj). cbn [rbind].
    eexists. split; [done|]. pose proof (first_cost_least k Hk Hspawn _ _ goal _ Hinv' Hgoal Hsnoc) as (n & En & _ & Hmin). split; [done|]. split; [by left|]. cbn [witness_actions witness_evidence witness_cost]. split; [|split; [rewrite length_app, Hl; cbn; lia|intros m Hm%places_in_wanted; specialize (Hmin m Hm); lia]].
    exists actions. split; [done|]. exists p, (via_rotation x). rewrite Hdrop. split; [done|]. split; [by apply (hard_drop_eq k Hk)|done].
  - rewrite Hd. cbn [rbind]. rewrite Ha. cbn [rbind]. rewrite He. cbn [rbind]. apply (IH (S c) (expand_entry (pose_edges k) q p d)); [done|done|done|lia].
Qed.

Lemma kernel_witness_spec : exists result, kernel_witness k target never = Ok result /\ witness_right k target None result.
Proof using Hk Hspawn.
  unfold kernel_witness. destruct (idx goal) as [j|] eqn:Ej.
  - rewrite skip_target by done. destruct (lockable_pose k goal) eqn:El; cbn [negb]; [|exists None; split; [done|]; intros n; by apply unlockable_wanted]. destruct (start_parents_rep k Hk Hspawn) as (i & st & Hi & -> & Hr). cbn [rbind].
    apply andb_true_iff in El as [Hin _]. apply (witness_loop_spec i _ 0 (start_entries k)); [done|done|apply start_inv|done|done|unfold search_fuel; lia].
  - exists None. split; [done|]. intros n (actions & ev & _ & H%places_lockable & _). apply andb_true_iff in H as [_ [H _]%andb_true_iff]. apply fits_kindex in H as [? H]; [|done]. congruence.
Qed.

(** ** A wanted rotation *)

Lemma length_u32 n : Z.of_nat n < 2 ^ 32 -> fail_with (try_from 32 (Z.of_nat n)) CostOverflow = Ok (Z.of_nat n).
Proof using Type. intros H. unfold fail_with, try_from. by rewrite (proj2 (Z.ltb_lt _ _)) by lia. Qed.

Lemma rotation_witness_loop_spec a pred spawn fuel c q st : idx (k_spawn k) = Some spawn -> idx (arrival_predecessor a) = Some pred ->
  lockable_pose k goal = true -> (pose_fits k (arrival_predecessor a) = true -> input k (arrival_predecessor a) (arrival_request a) goal (Some a)) ->
  inv c q -> parent_rep k q st -> arrival_predecessor a ∉ (take c q).*1 -> (Z.to_nat (k_state_count k) < fuel + c)%nat ->
  exists result, rotation_witness_loop fuel k target a pred spawn never c st = Ok result /\ witness_right k target (Some (LabelRotation a)) result.
Proof using Hk Hspawn.
  intros Hs Hpred Hlock Hinput. revert c q st. induction fuel as [|fuel IH]; intros c q st Hinv Hr Hnone Hf; cbn [rotation_witness_loop]; rewrite (parent_queue k c q st Hr); (destruct (q !! c) as [[p [d x]]|] eqn:Ec; cbn [fmap option_fmap option_map fst]).
  2,4: exists None; split; [done|]; intros n (before & r & _ & Hroute & _)%rotation_places; destruct (route_entry k Hk Hspawn c q Hinv Ec _ _ _ Hroute) as (d & x & He & _); apply Hnone; rewrite take_ge by (by apply lookup_ge_None); apply list_elem_of_fmap; by exists (arrival_predecessor a, (d, x)).
  { pose proof (lookup_lt_Some _ _ _ Ec). pose proof (pose_queue_bound k Hk Hspawn _ _ Hinv). lia. }
  destruct (turn_parent_rep k Hk Hspawn c q st p d x Hinv Hr Ec) as (j & st2 & Hj & Hd & Ha & He & Hinv' & Hr'). rewrite Hj. cbn [unwrap rbind]. pose proof (list_elem_of_lookup_2 _ _ _ Ec) as Hin. pose proof (entry_fits k Hk Hspawn _ _ _ _ _ Hinv Hin) as Hfit.
  destruct (Z.eqb_spec j pred) as [->|Hne].
  - assert (p = arrival_predecessor a) as -> by (by apply (kindex_inj k Hk _ _ pred)). destruct (reconstruct_spec k Hk Hspawn c q st c _ d x pred spawn Hinv Hr Hs Ec Hj) as (actions & -> & Hl & Hroute). cbn [rbind]. pose proof (entry_small k Hk Hspawn _ _ _ _ _ Hinv Hin).
    rewrite length_u32 by (rewrite length_app; cbn; lia). cbn [rbind]. eexists. split; [done|]. split; [done|]. split; [by right|]. cbn [witness_actions witness_evidence witness_cost]. pose proof Hlock as [Hins Hrest]%andb_true_iff. split; [|split; [done|]].
    + exists (actions ++ [arrival_request a]). split; [by rewrite <- app_assoc|]. exists goal, (Some a). split; [by apply (route_input k actions (arrival_predecessor a) (via_rotation x)), Hinput|]. split; [by apply rests_lands|]. split; [done|]. unfold evidence_after. by rewrite Z.eqb_refl.
    + intros n (before & r & -> & Hr2 & _)%rotation_places. apply (route_path k Hk Hspawn) in Hr2 as (y & Hp & _). pose proof (entry_minimal _ _ _ _ _ _ _ _ _ _ Hinv Hin Hp). rewrite length_app. cbn. lia.
  - rewrite Hd. cbn [rbind]. rewrite Ha. cbn [rbind]. rewrite He. cbn [rbind]. apply (IH (S c) (expand_entry (pose_edges k) q p d)); [done|done| |lia]. rewrite (take_expand k c q p d x Hinv Ec), fmap_app. intros [H|H%list_elem_of_singleton]%elem_of_app; [done|]. cbn in H. subst p. congruence.
Qed.

Lemma rotation_witness_spec a : exists result, kernel_witness_for_terminal_evidence k target (LabelRotation a) never = Ok result /\ witness_right k target (Some (LabelRotation a)) result.
Proof using Hk Hspawn.
  cbn [kernel_witness_for_terminal_evidence]. rewrite skip_target by done. assert (forall n, places_wanted k goal (Some (LabelRotation a)) n -> lockable_pose k goal = true /\ pose_fits k (arrival_predecessor a) = true /\ input k (arrival_predecessor a) (arrival_request a) goal (Some a)) as Hneed by (intros n (before & r & _ & Hr & Hi & Hl)%rotation_places; apply route_fits in Hr; done).
  destruct (lockable_pose k goal) eqn:El; cbn [negb orb]; [|exists None; split; [done|]; intros n [? _]%Hneed; done].
  assert ((forall n, ~ places_wanted k goal (Some (LabelRotation a)) n) -> exists result, Ok None = Ok (E := Failure) result /\ witness_right k target (Some (LabelRotation a)) result) as Hno by (intros H; by exists None).
  assert (forall s, single_successor k (arrival_predecessor a) (arrival_request a) = s -> s <> Some (mkSuccessor goal (Some a)) -> forall n, ~ places_wanted k goal (Some (LabelRotation a)) n) as Hsucc.
  { intros s Es Hs n (_ & Hf & Hi)%Hneed. apply Hs. rewrite <- Es. by apply (arrival_successor k Hk). }
  case_bool_decide as Hto; cbn [negb orb]; [|apply Hno; intros n (_ & _ & Hi)%Hneed; by apply input_arrival in Hi as (_ & _ & ? & _)].
  case_bool_decide as Hfrom; cbn [negb orb]; [|apply Hno; intros n (_ & _ & Hi)%Hneed; apply input_arrival in Hi as (_ & ? & _); congruence].
  destruct (single_successor k (arrival_predecessor a) (arrival_request a)) as [s|] eqn:Es; [|apply Hno; by apply (Hsucc None)].
  case_bool_decide as Hp; cbn [negb orb]; [|apply Hno; apply (Hsucc _ eq_refl); intros [= ->]; done].
  case_bool_decide as Hl; cbn [negb orb]; [|apply Hno; apply (Hsucc _ eq_refl); intros [= ->]; done].
  assert (s = mkSuccessor goal (Some a)) as -> by (destruct s as [ps rs]; cbn in Hp, Hl; subst ps; destruct rs; [by injection Hl as ->|done]).
  destruct (idx (arrival_predecessor a)) as [pred|] eqn:Epred; [|apply Hno; intros n (_ & Hf & _)%Hneed; apply (fits_kindex k Hk) in Hf as [? Hf]; congruence].
  destruct (start_parents_rep k Hk Hspawn) as (i & st & Hi & -> & Hr). cbn [rbind]. apply (rotation_witness_loop_spec a pred i _ 0 (start_entries k)); [done|done|done| |apply start_inv|done|apply not_elem_of_nil|unfold search_fuel; lia].
  intros Hf. apply (successors_input k Hk _ _ (mkSuccessor goal (Some a)) Hf). unfold successors. destruct (arrival_request a); try done; rewrite Es; by left.
Qed.

(** ** A lock without a rotation

    The candidates of the search: the cost, the state before the last input
    and that input. *)

Notation Candidate := (Z * Z * option ClassicInputAction)%type.

Definition keep_better (best : BestLock) (new : Candidate) : BestLock := if better best (fst (fst new)) then Some new else best.

Definition drop_lock (j : Z) (e : PiecePose * (nat * Via)) : list Candidate :=
  if bool_decide (hard_drop k e.1 = goal) && negb (pose_y e.1 =? pose_y (hard_drop k e.1)) then [(Z.of_nat (S e.2.1), j, None)] else [].

Definition move_lock (j : Z) (e : PiecePose * (nat * Via)) (a : ClassicInputAction) (s : Successor) : list Candidate :=
  if bool_decide (successor_rotation s = None) && bool_decide (successor_pose s = goal) then [(Z.of_nat (S (S e.2.1)), j, Some a)] else [].

Definition source_locks (e : PiecePose * (nat * Via)) : list Candidate :=
  let j := default 0 (idx e.1) in drop_lock j e ++ (EXPANSION_ORDER ≫= (fun a => successors k e.1 a ≫= move_lock j e a)).

Definition best_kept (l : list Candidate) (b : BestLock) : Prop := match b with Some new => new ∈ l /\ forall new', new' ∈ l -> fst (fst new) <= fst (fst new') | None => l = [] end.

Lemma best_kept_fold l0 l b : best_kept l0 b -> best_kept (l0 ++ l) (foldl keep_better b l).
Proof using Type.
  clear Hk Hspawn. revert l0 b. induction l as [|x l IH]; intros l0 b Hb; cbn; [by rewrite app_nil_r|]. rewrite cons_middle, app_assoc. apply IH. unfold keep_better. destruct b as [[[z i] o]|]; cbn [better best_kept] in *; [|subst l0; split; [by left|]; intros new' ->%list_elem_of_singleton; done].
  destruct Hb as [Hin Hmin]. cbn [fst] in Hmin. destruct (Z.ltb_spec (fst (fst x)) z); cbn [best_kept]; (split; [set_solver|]); intros new' [Hn|Hn%list_elem_of_singleton]%elem_of_app; try (specialize (Hmin new' Hn)); subst; cbn [fst] in *; lia.
Qed.

Definition pair_rep (qb : entries_of * BestLock) (st : ParentSearch * BestLock) : Prop := parent_rep k (fst qb) (fst st) /\ snd qb = snd st.

Lemma visit_best_rep q st b p j d x a s : parent_rep k q st -> Z.of_nat (S d) < UNREACHED -> idx p = Some j -> pose_fits k (successor_pose s) = true ->
  exists st', visit_best k target j (Z.of_nat (S d)) (Z.of_nat (S (S d))) a (st, b) s = Ok (st', foldl keep_better b (move_lock j (p, (d, x)) a s)) /\ parent_rep k (push (S d) q (successor_pose s, Some (p, a, successor_rotation s))) st'.
Proof using Hk.
  intros Hr Hd Hj Hf. destruct (visit_parent_rep k Hk q st p j (S d) a s Hr Hd Hj Hf) as (st' & Hv & Hr'). exists st'. split; [|done]. unfold visit_best. rewrite Hv. cbn [rbind]. do 2 f_equal. unfold move_lock. cbn [fst snd].
  destruct (bool_decide (successor_rotation s = None) && bool_decide (successor_pose s = goal)); cbn; [|done]. unfold keep_better. cbn [fst]. by destruct (better b _).
Qed.

Lemma expand_best_rep q st b p j d x : parent_rep k q st -> Z.of_nat (S d) < UNREACHED -> idx p = Some j -> pose_fits k p = true ->
  exists st', try_fold (fun st action => try_fold (visit_best k target j (Z.of_nat (S d)) (Z.of_nat (S (S d))) action) st (successors k p action)) (st, b) EXPANSION_ORDER =
    Ok (st', foldl keep_better b (EXPANSION_ORDER ≫= (fun a => successors k p a ≫= move_lock j (p, (d, x)) a))) /\ parent_rep k (expand_entry (pose_edges k) q p d) st'.
Proof using Hk.
  intros Hr Hd Hj Hp. set (add := fun a (qb : entries_of * BestLock) s => (push (S d) (fst qb) (successor_pose s, Some (p, a, successor_rotation s)), foldl keep_better (snd qb) (move_lock j (p, (d, x)) a s))).
  destruct (try_fold_rel pair_rep (fun st action => try_fold (visit_best k target j (Z.of_nat (S d)) (Z.of_nat (S (S d))) action) st (successors k p action)) (fun qb a => foldl (add a) qb (successors k p a)) EXPANSION_ORDER (q, b) (st, b)) as ([st' b'] & -> & [Hr' Eb]).
  - intros qb0 st0 a _ H0. apply (try_fold_rel pair_rep); [|done]. intros [q1 b1] [st1 b1'] s Hs [H1 E1]. cbn [fst snd] in *. subst b1'. apply (successors_input k Hk) in Hs; [|done]. apply input_fits in Hs. destruct (visit_best_rep q1 st1 b1 p j d x a s H1 Hd Hj Hs) as (st2 & -> & H2). eexists. split; [done|]. by split.
  - by split.
  - cbn [fst snd] in *.
    assert (forall l qb, foldl (fun qb a => foldl (add a) qb (successors k p a)) qb l =
      (foldl (push (S d)) (fst qb) (l ≫= (fun a => (fun s => (successor_pose s, Some (p, a, successor_rotation s))) <$> successors k p a)), foldl keep_better (snd qb) (l ≫= (fun a => successors k p a ≫= move_lock j (p, (d, x)) a)))) as Hsplit.
    { assert (forall a ss q0 b0, foldl (add a) (q0, b0) ss = (foldl (push (S d)) q0 ((fun s => (successor_pose s, Some (p, a, successor_rotation s))) <$> ss), foldl keep_better b0 (ss ≫= move_lock j (p, (d, x)) a))) as Hone.
      { intros a ss. induction ss as [|s ss IH]; intros q0 b0; [done|]. cbn [foldl mbind list_bind]. unfold add at 2. cbn [fst snd]. by rewrite IH, foldl_app. }
      induction l as [|a l IH]; intros [q0 b0]; [done|]. cbn [foldl mbind list_bind]. rewrite IH, !foldl_app, Hone. done. }
    rewrite Hsplit in Hr', Eb. cbn [fst snd] in *. exists st'. by rewrite Eb.
Qed.

Lemma plain_loop_spec fuel c q st b l0 : inv c q -> parent_rep k q st -> best_kept (l0 ++ (take c q ≫= source_locks)) b -> (Z.to_nat (k_state_count k) < fuel + c)%nat ->
  exists c' q' st' b', plain_witness_loop fuel k target never c (st, b) = Ok (st', b') /\ inv c' q' /\ q' !! c' = None /\ parent_rep k q' st' /\ best_kept (l0 ++ (q' ≫= source_locks)) b'.
Proof using Hk Hspawn.
  revert c q st b. induction fuel as [|fuel IH]; intros c q st b Hinv Hr Hb Hf; cbn [plain_witness_loop]; rewrite (parent_queue k c q st Hr); (destruct (q !! c) as [[p [d x]]|] eqn:Ec; cbn [fmap option_fmap option_map fst]).
  2,4: exists c, q, st, b; rewrite take_ge in Hb by (by apply lookup_ge_None); done.
  { pose proof (lookup_lt_Some _ _ _ Ec). pose proof (pose_queue_bound k Hk Hspawn _ _ Hinv). lia. }
  destruct (turn_parent_rep k Hk Hspawn c q st p d x Hinv Hr Ec) as (j & _ & Hj & Hd & Ha & _ & Hinv' & _). rewrite Hj. cbn [unwrap rbind]. rewrite Hd. cbn [rbind]. pose proof (list_elem_of_lookup_2 _ _ _ Ec) as Hin. pose proof (entry_fits k Hk Hspawn _ _ _ _ _ Hinv Hin) as Hfit. pose proof (entry_small k Hk Hspawn _ _ _ _ _ Hinv Hin).
  set (drop := if bool_decide (hard_drop k p = goal) && _ then _ else _). assert (drop = Ok (foldl keep_better b (drop_lock j (p, (d, x))))) as ->.
  { unfold drop, drop_lock. cbn [fst snd]. destruct (_ && _); [|done]. rewrite Ha. cbn [rbind foldl]. unfold keep_better. cbn [fst]. by destruct (better b _). }
  cbn [rbind]. rewrite Ha. cbn [rbind]. rewrite add_cost_Ok by lia. cbn [rbind]. replace (Z.of_nat (S d) + 1) with (Z.of_nat (S (S d))) by lia.
  destruct (expand_best_rep q st (foldl keep_better b (drop_lock j (p, (d, x)))) p j d x Hr) as (st2 & E2 & Hr2); [unfold UNREACHED, umax; lia|done|done|].
  match goal with |- context [rbind ?r _] => replace r with (Ok (E := Failure) (st2, foldl keep_better (foldl keep_better b (drop_lock j (p, (d, x)))) (EXPANSION_ORDER ≫= (fun a => successors k p a ≫= move_lock j (p, (d, x)) a)))) by (symmetry; exact E2) end. cbn [rbind].
  apply (IH (S c) (expand_entry (pose_edges k) q p d)); [done|done| |lia]. rewrite (take_expand k c q p d x Hinv Ec), bind_app. cbn [mbind list_bind]. rewrite app_nil_r. unfold source_locks at 2. cbn [fst]. rewrite Hj. cbn [from_option]. unfold id. rewrite <- foldl_app, app_assoc. by apply best_kept_fold.
Qed.

(** Each candidate is a route, and each route has a candidate that is not
    worse. *)
Lemma lock_sound c q cost j act : inv c q -> q !! c = None -> lockable_pose k goal = true -> (cost, j, act) ∈ q ≫= source_locks ->
  exists i p d x, q !! i = Some (p, (d, x)) /\ idx p = Some j /\ cost = Z.of_nat (d + length (option_list act) + 1) /\
    forall actions, route k actions p (via_rotation x) -> places k (actions ++ option_list act) goal LabelNoRotation.
Proof using Hk Hspawn.
  intros Hinv Hc Hlock ([p [d x]] & H & He)%list_elem_of_bind. pose proof Hlock as [Hins Hrest]%andb_true_iff. pose proof (entry_fits k Hk Hspawn _ _ _ _ _ Hinv He) as Hf. destruct (fits_kindex k Hk p Hf) as [i' Hj]. apply list_elem_of_lookup in He as [i Hi]. exists i, p, d, x. split; [done|].
  unfold source_locks in H. cbn [fst] in H. rewrite Hj in H. cbn [from_option] in H. unfold id in H. apply elem_of_app in H as [H|(a & (s & H & Hs)%list_elem_of_bind & Ha)%list_elem_of_bind].
  - unfold drop_lock in H. cbn [fst snd] in H. destruct (_ && _) eqn:E; [|by apply not_elem_of_nil in H]. apply list_elem_of_singleton in H as [= -> -> ->]. apply andb_true_iff in E as [Ed%bool_decide_eq_true Ey%negb_true_iff]. split; [done|]. split; [cbn; lia|]. intros actions Hr. rewrite app_nil_r.
    exists p, (via_rotation x). split; [done|]. split; [by apply (hard_drop_eq k Hk)|]. split; [done|]. unfold evidence_after. rewrite <- Ed, Ey. done.
  - unfold move_lock in H. cbn [fst snd] in H. destruct (_ && _) eqn:E; [|by apply not_elem_of_nil in H]. apply list_elem_of_singleton in H as [= -> -> ->]. apply andb_true_iff in E as [En%bool_decide_eq_true Ep%bool_decide_eq_true]. split; [done|]. split; [cbn; lia|]. intros actions Hr.
    apply (successors_input k Hk) in Hs; [|done]. rewrite En, Ep in Hs. exists goal, None. split; [by apply (route_input k actions p (via_rotation x))|]. split; [by apply rests_lands|]. split; [done|]. unfold evidence_after. by rewrite Z.eqb_refl.
Qed.

Lemma lock_complete c q n : inv c q -> q !! c = None -> places_wanted k goal (Some LabelNoRotation) n -> goal = k_spawn k \/ exists new, new ∈ q ≫= source_locks /\ fst (fst new) <= Z.of_nat n.
Proof using Hk Hspawn.
  intros Hinv Hc (actions & ev & -> & Hp & [?|[= <-]]); [done|].
  assert (forall p d x new, (p, (d, x)) ∈ q -> pose_fits k p = true -> new ∈ source_locks (p, (d, x)) -> fst (fst new) <= Z.of_nat (S (length actions)) -> exists new, new ∈ q ≫= source_locks /\ fst (fst new) <= Z.of_nat (S (length actions))) as Hnew by (intros p d x new He _ Hn Hle; exists new; split; [apply list_elem_of_bind; by exists (p, (d, x))|done]).
  destruct (places_cases k _ _ _ Hp) as [(p & r & Hr & Hl & Hy & _)|[(_ & E & _)|(before & p & r & a & r' & -> & Hr & Hi & E)]]; [right|by left|right].
  - destruct (route_entry k Hk Hspawn c q Hinv Hc _ _ _ Hr) as (d & x & He & Hle). apply route_fits in Hr. apply (hard_drop_eq k Hk p _ Hr) in Hl. apply (Hnew p d x (Z.of_nat (S d), default 0 (idx p), None)); [done|done| |cbn; lia].
    unfold source_locks. apply elem_of_app. left. unfold drop_lock. cbn [fst snd]. rewrite Hl, bool_decide_eq_true_2, (proj2 (Z.eqb_neq _ _)) by done. by left.
  - symmetry in E. apply label_of_plain in E as ->. destruct (route_entry k Hk Hspawn c q Hinv Hc _ _ _ Hr) as (d & x & He & Hle). apply route_fits in Hr. apply (Hnew p d x (Z.of_nat (S (S d)), default 0 (idx p), Some a)); [done|done| |rewrite length_app; cbn; lia].
    unfold source_locks. apply elem_of_app. right. apply list_elem_of_bind. exists a. split; [|inversion Hi; subst; unfold EXPANSION_ORDER; set_solver]. apply list_elem_of_bind. exists (mkSuccessor goal None). split; [|by apply (successors_input k Hk)]. unfold move_lock. cbn. rewrite !bool_decide_eq_true_2 by done. by left.
Qed.

Lemma plain_witness_spec : exists result, plain_witness k target never = Ok result /\ witness_right k target (Some LabelNoRotation) result.
Proof using Hk Hspawn.
  unfold plain_witness. rewrite skip_target by done. destruct (lockable_pose k goal) eqn:El; cbn [negb]; [|exists None; split; [done|]; intros n; by apply unlockable_wanted]. destruct (start_parents_rep k Hk Hspawn) as (spawn & st & Hs & -> & Hr). cbn [rbind]. pose proof El as [Hins Hrest]%andb_true_iff.
  set (l0 := if bool_decide (k_spawn k = goal) then [(1, spawn, None)] else [] : list Candidate). set (b0 := if bool_decide (k_spawn k = goal) then _ else _).
  assert (best_kept l0 b0) as Hb0 by (unfold l0, b0; case_bool_decide; cbn; [split; [by left|]; intros new' ->%list_elem_of_singleton; done|done]).
  destruct (plain_loop_spec (search_fuel k) 0 (start_entries k) st b0 l0) as (c & q & st' & b & Eloop & Hinv & Hc & Hr' & Hb); [apply start_inv|done|cbn; by rewrite app_nil_r|unfold search_fuel; lia|]. match goal with |- context [rbind ?r _] => replace r with (Ok (E := Failure) (st', b)) by (symmetry; exact Eloop) end. cbn [rbind].
  assert (forall n, places_wanted k goal (Some LabelNoRotation) n -> exists new, new ∈ l0 ++ (q ≫= source_locks) /\ fst (fst new) <= Z.of_nat n) as Hcomplete.
  { intros n Hn. destruct (lock_complete c q n Hinv Hc Hn) as [E|(new & Hin & Hle)]; [|exists new; split; [apply elem_of_app; by right|done]]. exists (1, spawn, None). destruct Hn as (actions & _ & -> & _). split; [|cbn; lia]. apply elem_of_app. left. unfold l0. rewrite bool_decide_eq_true_2 by done. by left. }
  destruct b as [[[cost j] act]|]; cbn [best_kept] in Hb; [|exists None; split; [done|]; intros n (new & Hin & _)%Hcomplete; rewrite Hb in Hin; by apply not_elem_of_nil in Hin].
  destruct Hb as [Hin Hmin].
  assert (exists i p d x, q !! i = Some (p, (d, x)) /\ idx p = Some j /\ cost = Z.of_nat (d + length (option_list act) + 1) /\ forall actions, route k actions p (via_rotation x) -> places k (actions ++ option_list act) goal LabelNoRotation) as (i & p & d & x & Hi & Hj & -> & Hsound).
  { apply elem_of_app in Hin as [Hin|Hin]; [|by apply (lock_sound c q)]. unfold l0 in Hin. case_bool_decide as Eg; [|by apply not_elem_of_nil in Hin]. apply list_elem_of_singleton in Hin as [= -> -> ->]. exists 0%nat, (k_spawn k), 0%nat, None. split; [by apply (bi_root _ _ _ _ _ Hinv)|]. split; [done|]. split; [done|].
    intros actions Hroute. rewrite app_nil_r. exists (k_spawn k), None. split; [done|]. rewrite Eg. split; [by apply rests_lands|]. split; [done|]. unfold evidence_after. by rewrite Z.eqb_refl. }
  destruct (reconstruct_spec k Hk Hspawn c q st' i p d x j spawn Hinv Hr' Hs Hi Hj) as (actions & -> & Hl & Hroute). cbn [rbind]. pose proof (entry_small k Hk Hspawn _ _ _ _ _ Hinv (list_elem_of_lookup_2 _ _ _ Hi)).
  assert (length (actions ++ option_list act ++ [HardDrop]) = (d + length (option_list act) + 1)%nat) as Hlen by (rewrite !length_app, Hl; cbn; lia). assert (length (option_list act) <= 1)%nat by (destruct act; cbn; lia). rewrite Hlen, length_u32 by lia. cbn [rbind]. rewrite Z.eqb_refl. cbn [negb].
  eexists. split; [done|]. split; [done|]. split; [by right|]. cbn [witness_actions witness_evidence witness_cost]. split; [exists (actions ++ option_list act); split; [by rewrite app_assoc|by apply Hsound]|]. split; [by rewrite Hlen|]. intros n (new & Hnew & Hle)%Hcomplete. specialize (Hmin new Hnew). cbn [fst] in Hmin. lia.
Qed.

Lemma evidence_witness_spec evidence : exists result, kernel_witness_for_terminal_evidence k target evidence never = Ok result /\ witness_right k target (Some evidence) result.
Proof using Hk Hspawn. destruct evidence as [|a]; [exact plain_witness_spec|apply rotation_witness_spec]. Qed.
End Witness.
