(* ===== verification/FinesseLabels.v ===== *)
(** * Costs by class of evidence

    [route_labels] of the finesse search: a search over poses together with
    the class of the evidence they were reached with.  For every target and
    every class it gives a least cost and the evidence of a route that has
    it. *)

From Stdlib Require Import ZArith Lia.
From stdpp Require Import prelude strings.
From S2P Require Import Prelude Words Board PcBoard Pieces Kicks Reachability ReachTemplate Reach Finesse FinesseRules Bfs FinesseSearch FinesseCosts FinesseEvidence.

Local Open Scope Z_scope.

(** The class of the last input. *)
Definition class_of (r : option RotationArrival) : TerminalEvidenceClass := match r with Some a => arrival_class a | None => EvidenceNoRotation end.

Lemma class_of_label r : label_class (label_of r) = class_of r.
Proof. by destruct r. Qed.

Lemma class_of_plain r : class_of r = EvidenceNoRotation <-> r = None.
Proof. split; [|by intros ->]. destruct r as [a|]; [|done]. unfold class_of, arrival_class, label_class, arrival_label. destruct (arrival_request a), (arrival_kick_index a =? 4); done. Qed.

(** The answer for a target and a class. *)
Definition label_right (k : InputRules) (t : FinesseTarget) (class : TerminalEvidenceClass) (o : option LabeledFinesseCost) : Prop :=
  least_cost (fun n => exists actions ev, n = S (length actions) /\ places k actions (target_pose t) ev /\ label_class ev = class) (labeled_cost <$> o) /\
  forall lc, o = Some lc -> exists actions, labeled_cost lc = Z.of_nat (S (length actions)) /\ places k actions (target_pose t) (labeled_evidence lc) /\ label_class (labeled_evidence lc) = class.

Definition classes : list TerminalEvidenceClass := [EvidenceNoRotation; EvidenceRotation; EvidenceFinalKickOverride].

Lemma classes_lookup class : classes !! Z.to_nat (evidence_index class) = Some class.
Proof. by destruct class. Qed.

Section Labels.
Context (k : SearchKernel) (Hk : kernel_ok k).

Notation Arrival := (option RotationArrival).
Local Notation entries_of := (list (LabeledState * (nat * Arrival))).
Local Notation count := (Z.to_nat (k_state_count k * 3)).
Local Notation lidx := (labeled_state_index k).
Local Notation root := (mkLabeled (k_spawn k) EvidenceNoRotation).

(** ** The graph of labelled states *)

Definition label_edges (s : LabeledState) : list (LabeledState * Arrival) :=
  EXPANSION_ORDER ≫= (fun a => (fun s => (mkLabeled (successor_pose s) (class_of (successor_rotation s)), successor_rotation s)) <$> successors k (labeled_pose s) a).

Local Notation inv := (bfs_inv label_edges root None).
Local Notation label_path := (path label_edges root None).

Lemma elem_of_label_edges s s' r : pose_fits k (labeled_pose s) = true -> (s', r) ∈ label_edges s <-> labeled_class s' = class_of r /\ exists a, input k (labeled_pose s) a (labeled_pose s') r.
Proof using Hk.
  intros Hp. unfold label_edges. rewrite list_elem_of_bind. split.
  - intros (a & (x & [= -> ->] & Hs)%list_elem_of_fmap & _). split; [done|]. exists a. by apply successors_input.
  - intros [Hcl [a Hi]]. exists a. split; [|unfold EXPANSION_ORDER; destruct Hi as [| | | | |a to offsets i o Ht _ _ _ _]; try set_solver; destruct a; cbn in Ht; try done; set_solver].
    apply list_elem_of_fmap. exists (mkSuccessor (labeled_pose s') r). split; [destruct s'; cbn in *; by subst|by apply successors_input].
Qed.

Lemma route_label_path actions p r : route k actions p r -> label_path (length actions) (mkLabeled p (class_of r)) r.
Proof using Hk.
  induction 1 as [_|actions p r a q r' Hr IH Hi]; [constructor|]. rewrite length_app, Nat.add_comm. apply (path_edge _ _ _ _ (mkLabeled p (class_of r)) r); [done|]. apply elem_of_label_edges; [by apply route_fits in Hr|]. split; [done|by exists a].
Qed.

(** ** Indices *)

Lemma evidence_index_bound class : 0 <= evidence_index class < 3.
Proof using Type. destruct class; cbn; lia. Qed.

Lemma lidx_Some s i : lidx s = Some i <-> exists j, kernel_state_index k (labeled_pose s) = Some j /\ i = j * 3 + evidence_index (labeled_class s).
Proof using Hk.
  unfold labeled_state_index. pose proof (evidence_index_bound (labeled_class s)). pose proof (count_bound k Hk). destruct (kernel_state_index k (labeled_pose s)) as [j|] eqn:Ej; cbn [mbind option_bind]; [|split; [done|]; by intros (j & ? & _)].
  pose proof (kindex_bound k Hk _ _ Ej). unfold checked_mul, checked_add. rewrite (proj2 (Z.ltb_lt (j * 3) _)) by lia. cbn [mbind option_bind]. rewrite (proj2 (Z.ltb_lt _ _)) by lia. split; [intros [= <-]; by exists j|]. by intros (j' & [= <-] & ->).
Qed.

Lemma lidx_bound s i : lidx s = Some i -> 0 <= i < Z.of_nat count.
Proof using Hk. intros (j & Hj & ->)%lidx_Some. pose proof (kindex_bound k Hk _ _ Hj). pose proof (evidence_index_bound (labeled_class s)). lia. Qed.

Lemma lidx_inj s s' i : lidx s = Some i -> lidx s' = Some i -> s = s'.
Proof using Hk.
  intros (j & Hj & ->)%lidx_Some (j' & Hj' & E)%lidx_Some. pose proof (evidence_index_bound (labeled_class s)). pose proof (evidence_index_bound (labeled_class s')). assert (j = j') as <- by lia. assert (evidence_index (labeled_class s) = evidence_index (labeled_class s')) as Ec by lia.
  pose proof (kindex_inj k Hk _ _ _ Hj Hj') as Ep. destruct s as [p cl], s' as [p' cl']. cbn in *. subst p'. f_equal. by destruct cl, cl'.
Qed.

Lemma fits_lidx s : pose_fits k (labeled_pose s) = true -> is_Some (lidx s).
Proof using Hk. intros [j Hj]%(fits_kindex k Hk). eexists. apply lidx_Some. by exists j. Qed.

Context (Hspawn : pose_fits k (k_spawn k) = true).

Lemma label_path_route n s r : label_path n s r -> labeled_class s = class_of r /\ exists actions, length actions = n /\ route k actions (labeled_pose s) r.
Proof using Hk Hspawn.
  induction 1 as [|n u x v y _ [_ (actions & Hl & Hr)] He]; [split; [done|]; exists []; split; [done|by constructor]|]. apply elem_of_label_edges in He as [Hcl [a Hi]]; [|by apply route_fits in Hr]. split; [done|].
  exists (actions ++ [a]). split; [rewrite length_app; cbn; lia|]. by apply (route_input k actions (labeled_pose u) x).
Qed.

Lemma label_entry c q i s d r : inv c q -> q !! i = Some (s, (d, r)) -> pose_fits k (labeled_pose s) = true /\ labeled_class s = class_of r /\ exists actions, length actions = d /\ route k actions (labeled_pose s) r.
Proof using Hk Hspawn. intros Hinv Hi. apply (entry_path _ _ _ c q i s d r Hinv) in Hi. apply label_path_route in Hi as [Hcl (actions & Hl & Hr)]. split; [by apply route_fits in Hr|]. split; [done|by exists actions]. Qed.

Lemma label_queue_bound c q : inv c q -> (length q <= count)%nat.
Proof using Hk Hspawn.
  intros Hinv. apply (queue_indexed lidx count lidx_bound lidx_inj); [apply (bi_nodup _ _ _ _ _ Hinv)|]. intros s ([s' [d r]] & -> & [i Hi]%list_elem_of_lookup)%list_elem_of_fmap. by apply (label_entry c) in Hi as [Hf%fits_lidx _].
Qed.

Lemma label_small c q i s d r : inv c q -> q !! i = Some (s, (d, r)) -> 0 <= Z.of_nat d < 2 ^ 31.
Proof using Hk Hspawn. intros Hinv Hi. pose proof (entry_depth _ _ _ _ _ _ _ _ _ Hinv Hi). pose proof (lookup_lt_Some _ _ _ Hi). pose proof (label_queue_bound _ _ Hinv). rewrite (ko_count _ Hk) in *. pose proof (ko_ceiling _ Hk). pose proof (width_bound k Hk). nia. Qed.

(** ** Vectors *)

Definition label_dist (e : option (nat * Arrival)) : Z := match e with Some (d, _) => Z.of_nat d | None => UNREACHED end.

Definition label_arrival (e : option (nat * Arrival)) : Arrival := match e with Some (_, r) => r | None => None end.

Definition label_rep (q : entries_of) (st : LabelSearch) : Prop :=
  vec_rep (X := Arrival) lidx count label_dist q (ls_distance st) /\ vec_rep (X := Arrival) lidx count label_arrival q (ls_arrival st) /\ ls_queue st = q.*1 /\ NoDup q.*1 /\ Forall (fun e => Z.of_nat e.2.1 < UNREACHED) q.

Lemma visit_labeled_rep q st d s : label_rep q st -> Z.of_nat d < UNREACHED -> pose_fits k (successor_pose s) = true ->
  exists st', visit_labeled k (Z.of_nat d) st s = Ok st' /\ label_rep (push d q (mkLabeled (successor_pose s) (class_of (successor_rotation s)), successor_rotation s)) st'.
Proof using Hk.
  intros (Hd & Ha & Hq & Hn & Hs) Hlt Hf. unfold visit_labeled. fold (class_of (successor_rotation s)). set (target := mkLabeled (successor_pose s) (class_of (successor_rotation s))). destruct (fits_lidx target Hf) as [i Hi]. rewrite Hi. cbn [unwrap rbind]. pose proof (proj2 Hd _ _ Hi) as Hdi. rewrite (get_at_Some _ _ _ Hdi). cbn [rbind].
  unfold push. cbn [fst snd]. destruct (decide (target ∈ q.*1)) as [Hin|Hin].
  - destruct (assoc q target) as [[d' r']|] eqn:Ea; [|by apply assoc_None in Ea]. apply (assoc_elem q target _ Hn) in Ea. cbn [label_dist]. rewrite Forall_forall in Hs. pose proof (Hs _ Ea) as Hs'. cbn in Hs'. rewrite (proj2 (Z.eqb_neq _ _)) by lia. exists st. split; [done|]. split_and!; try done. by apply Forall_forall.
  - pose proof Hin as Ea%assoc_None. rewrite Ea. cbn [label_dist]. rewrite Z.eqb_refl. pose proof (lidx_bound _ _ Hi). destruct Hd as [Hdl Hdv], Ha as [Hal Hav]. rewrite !set_at_Ok by lia. cbn [rbind]. eexists. split; [done|]. split; [|split; [|split; [cbn; by rewrite Hq, fmap_app|split]]].
    + exact (vec_rep_snoc lidx count lidx_bound lidx_inj label_dist q _ target i (d, successor_rotation s) (conj Hdl Hdv) Hi Hin).
    + exact (vec_rep_snoc lidx count lidx_bound lidx_inj label_arrival q _ target i (d, successor_rotation s) (conj Hal Hav) Hi Hin).
    + rewrite fmap_app. apply NoDup_app. split; [done|]. split; [|apply NoDup_singleton]. intros w Hw ->%list_elem_of_singleton. done.
    + apply Forall_app. split; [done|]. by apply Forall_singleton.
Qed.

Lemma expand_labeled_rep q st s d : label_rep q st -> Z.of_nat (S d) < UNREACHED -> pose_fits k (labeled_pose s) = true -> exists st', expand_labeled k (labeled_pose s) (Z.of_nat (S d)) st = Ok st' /\ label_rep (expand_entry label_edges q s d) st'.
Proof using Hk.
  intros Hr Hd Hp. unfold expand_labeled, expand_entry, label_edges. rewrite foldl_bind. apply (try_fold_rel label_rep); [|done]. intros q' st' a _ Hr'. rewrite foldl_fmap. apply (try_fold_rel label_rep); [|done].
  intros q2 st2 x Hx Hr2. apply visit_labeled_rep; [done|done|]. apply (successors_input k Hk) in Hx; [|done]. by apply input_fits in Hx.
Qed.

(** The lock of an entry. *)
Definition state_lock_class (s : LabeledState) : TerminalEvidenceClass := if pose_y (labeled_pose s) =? pose_y (hard_drop k (labeled_pose s)) then labeled_class s else EvidenceNoRotation.

Definition entry_evidence (e : LabeledState * (nat * Arrival)) : TerminalEvidenceLabel := evidence_after (labeled_pose e.1) e.2.2 (hard_drop k (labeled_pose e.1)).

Lemma entry_evidence_class s d r : labeled_class s = class_of r -> label_class (entry_evidence (s, (d, r))) = state_lock_class s.
Proof using Type. intros Hcl. unfold entry_evidence, evidence_after, state_lock_class. cbn [fst snd]. destruct (_ =? _); [|done]. by rewrite class_of_label, Hcl. Qed.

Lemma lock_label_spec c q st i s d r j : inv c q -> label_rep q st -> q !! i = Some (s, (d, r)) -> lidx s = Some j -> lock_label st s j (hard_drop k (labeled_pose s)) = Ok (state_lock_class s, entry_evidence (s, (d, r))).
Proof using Hk Hspawn.
  intros Hinv (_ & Ha & _ & Hn & _) Hi Hj. destruct (label_entry c q i s d r Hinv Hi) as (_ & Hcl & _). unfold lock_label, state_lock_class, entry_evidence, evidence_after. cbn [fst snd]. destruct (_ =? _); [|done]. rewrite Hcl. destruct (class_of r) eqn:Er; [apply class_of_plain in Er as ->; done| |].
  all: rewrite (get_at_Some _ _ _ (vec_rep_lookup lidx count label_arrival q _ s j _ Hn Ha Hj (list_elem_of_lookup_2 _ _ _ Hi))); cbn [rbind label_arrival]; destruct r as [a|]; done.
Qed.

(** ** What the loop has settled *)

Definition label_cost (p : PiecePose) (class : TerminalEvidenceClass) (e : LabeledState * (nat * Arrival)) : option LabeledFinesseCost :=
  if bool_decide (hard_drop k (labeled_pose e.1) = p) && bool_decide (state_lock_class e.1 = class) then Some (mkLabeledCost (Z.of_nat (S e.2.1)) (entry_evidence e)) else None.

Definition first_label (done : entries_of) (p : PiecePose) (class : TerminalEvidenceClass) : option LabeledFinesseCost := head (omap (label_cost p class) done).

Definition label_slots (done : entries_of) (t : FinesseTarget) : list (option LabeledFinesseCost) :=
  (fun class => if lockable_pose k (target_pose t) then first_label done (target_pose t) class else None) <$> classes.

Definition settle_slot (class : TerminalEvidenceClass) (cost : LabeledFinesseCost) (labels : list (option LabeledFinesseCost)) : list (option LabeledFinesseCost) :=
  match labels !! Z.to_nat (evidence_index class) with Some None => <[Z.to_nat (evidence_index class) := Some cost]> labels | _ => labels end.

Lemma settle_label_Ok class cost output i labels : output !! Z.to_nat i = Some labels -> length labels = 3%nat -> settle_label class cost output i = Ok (<[Z.to_nat i := settle_slot class cost labels]> output).
Proof using Type.
  clear. intros Hi Hl. pose proof (evidence_index_bound class). unfold settle_label, settle_slot. rewrite (get_at_Some _ _ _ Hi). cbn [rbind]. destruct (lookup_lt_is_Some_2 labels (Z.to_nat (evidence_index class)) ltac:(lia)) as [o Ho]. rewrite (get_at_Some _ _ _ Ho). rewrite Ho. cbn [rbind].
  destruct o; [by rewrite list_insert_id|]. rewrite set_at_Ok by lia. cbn [rbind]. by rewrite set_at_Ok by (by apply lookup_lt_Some in Hi).
Qed.

Lemma settle_slot_length class cost labels : length labels = 3%nat -> length (settle_slot class cost labels) = 3%nat.
Proof using Type. intros Hl. unfold settle_slot. destruct (labels !! _) as [[]|]; [done|by rewrite length_insert|done]. Qed.

Lemma label_slots_hit done t e : lockable_pose k (target_pose t) = true -> hard_drop k (labeled_pose e.1) = target_pose t ->
  label_slots (done ++ [e]) t = settle_slot (state_lock_class e.1) (mkLabeledCost (Z.of_nat (S e.2.1)) (entry_evidence e)) (label_slots done t).
Proof using Type.
  intros Hl Hd. unfold label_slots, settle_slot. rewrite Hl, list_lookup_fmap, classes_lookup. cbn [fmap option_fmap option_map].
  assert (forall class, first_label (done ++ [e]) (target_pose t) class = match first_label done (target_pose t) class with Some lc => Some lc | None => if bool_decide (state_lock_class e.1 = class) then Some (mkLabeledCost (Z.of_nat (S e.2.1)) (entry_evidence e)) else None end) as Hsnoc.
  { intros class. unfold first_label. rewrite head_omap_snoc. unfold label_cost at 2. by rewrite (bool_decide_eq_true_2 (hard_drop _ _ = _)) by done. }
  destruct (first_label done (target_pose t) (state_lock_class e.1)) as [lc|] eqn:Ef.
  - apply list_fmap_ext. intros i class Hi. rewrite Hsnoc. destruct (first_label done (target_pose t) class) eqn:Ec; [done|]. case_bool_decide as E; [|done]. rewrite <- E in Ec. congruence.
  - cbn. rewrite !Hsnoc. destruct (state_lock_class e.1) eqn:El; rewrite Ef; cbn; repeat (rewrite bool_decide_eq_true_2 by done || rewrite bool_decide_eq_false_2 by done); by repeat destruct (first_label done (target_pose t) _).
Qed.

Lemma label_slots_miss done t e : lockable_pose k (target_pose t) = false \/ hard_drop k (labeled_pose e.1) <> target_pose t -> label_slots (done ++ [e]) t = label_slots done t.
Proof using Type.
  intros H. unfold label_slots. apply list_fmap_ext. intros i class _. destruct (lockable_pose k (target_pose t)); [|done]. destruct H as [?|H]; [done|]. unfold first_label. rewrite head_omap_snoc. unfold label_cost at 2. rewrite bool_decide_eq_false_2 by done. by destruct (head _).
Qed.

(** ** Settled labels are right *)

Lemma first_label_right c q t class lc : inv c q -> lockable_pose k (target_pose t) = true -> first_label (take c q) (target_pose t) class = Some lc -> label_right k t class (Some lc).
Proof using Hk Hspawn.
  intros Hinv [Hins Hrest]%andb_true_iff (j & [s [d r]] & [He Hjc]%lookup_take_Some & Hcost & Hfirst)%head_omap_Some. unfold label_cost in Hcost. cbn [fst snd] in Hcost. destruct (_ && _) eqn:E; [|done]. injection Hcost as <-. apply andb_true_iff in E as [Hd%bool_decide_eq_true Hcl%bool_decide_eq_true].
  destruct (label_entry c q j s d r Hinv He) as (Hf & Hsc & actions & Hl & Hr). assert (places k actions (target_pose t) (entry_evidence (s, (d, r)))) as Hplaces by (exists (labeled_pose s), r; split; [done|]; split; [by apply (hard_drop_eq k Hk)|]; split; [done|]; by rewrite <- Hd).
  pose proof (entry_evidence_class s d r Hsc) as Hec. rewrite Hcl in Hec. split; [|intros lc [= <-]; exists actions; cbn [labeled_cost labeled_evidence]; by rewrite Hl]. exists (S d). split; [done|]. split; [exists actions, (entry_evidence (s, (d, r))); by rewrite Hl|].
  intros m (actions' & ev & -> & (p & r' & Hr' & Hlands & _ & ->) & Hev). apply le_n_S. pose proof (route_fits k _ _ _ Hr') as Hf'. apply (hard_drop_eq k Hk p _ Hf') in Hlands.
  apply (first_minimal _ _ _ c q j s d r (fun v => hard_drop k (labeled_pose v) = target_pose t /\ state_lock_class v = class) _ (mkLabeled p (class_of r')) r' Hinv He Hjc); [|by apply route_label_path|].
  - intros j' e' Hlt Hj' [H1 H2]. assert (label_cost (target_pose t) class e' = None) as Hn by (apply (Hfirst j' e' Hlt); apply lookup_take_Some; split; [done|lia]). unfold label_cost in Hn. by rewrite !bool_decide_eq_true_2 in Hn by done.
  - split; [done|]. rewrite <- Hev. rewrite <- (entry_evidence_class _ 0 r') by done. unfold entry_evidence. cbn [fst snd labeled_pose]. by rewrite Hlands.
Qed.

Lemma first_label_none c q t class : inv c q -> q !! c = None -> first_label (take c q) (target_pose t) class = None -> label_right k t class None.
Proof using Hk Hspawn.
  intros Hinv Hc Hn. split; [|done]. intros n (actions & ev & -> & (p & r & Hr & Hlands & _ & ->) & Hev). pose proof (route_fits k _ _ _ Hr) as Hf. apply (hard_drop_eq k Hk p _ Hf) in Hlands. apply route_label_path in Hr.
  destruct (search_complete _ _ _ c q _ _ _ Hinv Hc Hr) as (d & r' & [j Hj]%list_elem_of_lookup & _). rewrite take_ge in Hn by (by apply lookup_ge_None). pose proof (head_omap_None _ _ Hn j _ Hj) as Hno. unfold label_cost in Hno. cbn [fst labeled_pose] in Hno.
  rewrite (bool_decide_eq_true_2 (hard_drop k p = _)) in Hno by done. rewrite bool_decide_eq_true_2 in Hno; [done|]. rewrite <- Hev. rewrite <- (entry_evidence_class _ 0 r) by done. unfold entry_evidence. cbn [fst snd labeled_pose]. by rewrite Hlands.
Qed.

Lemma label_slots_right c q t : inv c q -> q !! c = None -> Forall2 (label_right k t) classes (label_slots (take c q) t).
Proof using Hk Hspawn.
  intros Hinv Hc. unfold label_slots. apply Forall2_fmap_r, Forall_Forall2_diag, Forall_forall. intros class _. destruct (lockable_pose k (target_pose t)) eqn:El.
  - change (label_right k t class (first_label (take c q) (target_pose t) class)). destruct (first_label (take c q) (target_pose t) class) eqn:Ef; [by apply (first_label_right c q)|by apply (first_label_none c q)].
  - split; [|done]. intros n (actions & ev & _ & H%places_lockable & _). congruence.
Qed.

(** ** The loop *)

Context (targets : list FinesseTarget) (Hlen : Z.of_nat (length targets) < NO_TARGET).
Local Notation all := (imap (fun i t => (Z.of_nat i, t)) targets).

Lemma settle_labels heads next c0 c q st i s d r j output done : targets_inv k (length targets) all (heads, next, c0) -> inv c q -> label_rep q st -> q !! i = Some (s, (d, r)) -> lidx s = Some j -> output = label_slots done <$> targets ->
  (if inside_layout k (hard_drop k (labeled_pose s)) then
     let? lock_index := unwrap (kernel_state_index k (hard_drop k (labeled_pose s))) in
     let? '(class, evidence) := lock_label st s j (hard_drop k (labeled_pose s)) in
     let? d := get_at (ls_distance st) j in
     let? cost := add_cost d 1 in
     let? target := get_at heads lock_index in
     for_targets (length next) next target (settle_label class (mkLabeledCost cost evidence)) output
   else Ok output) = Ok (label_slots (done ++ [(s, (d, r))]) <$> targets).
Proof using Hk Hspawn.
  intros Hti Hinv Hr Hi Hj Ho. destruct (label_entry c q i s d r Hinv Hi) as (Hf & _). pose proof (hard_drop_lands k Hk _ Hf) as Hlands. pose proof (lands_fits k _ _ Hf Hlands) as Hlf. pose proof (lands_rests k _ _ Hf Hlands) as Hlr. rewrite inside_pose by done.
  destruct (pose_inside k (hard_drop k (labeled_pose s))) eqn:Ein.
  2:{ f_equal. rewrite Ho. apply list_fmap_ext. intros i' t _. symmetry. apply label_slots_miss. destruct (decide (hard_drop k (labeled_pose s) = target_pose t)) as [E|]; [left|by right]. unfold lockable_pose. by rewrite <- E, Ein. }
  destruct (fits_kindex k Hk _ Hlf) as [lj Hlj]. rewrite Hlj. cbn [unwrap rbind]. rewrite (lock_label_spec c q st i s d r j Hinv Hr Hi Hj). cbn [rbind]. pose proof Hr as (Hdr & _ & _ & Hn & _). rewrite (get_at_Some _ _ _ (vec_rep_lookup lidx count label_dist q _ s j _ Hn Hdr Hj (list_elem_of_lookup_2 _ _ _ Hi))). cbn [rbind label_dist].
  pose proof (label_small c q i s d r Hinv Hi). rewrite add_cost_Ok by lia. cbn [rbind]. replace (Z.of_nat d + 1) with (Z.of_nat (S d)) by lia. set (new := mkLabeledCost (Z.of_nat (S d)) (entry_evidence (s, (d, r)))).
  destruct (target_loop k Hk targets (fun t => t) (fun labels => length labels = 3%nat) heads next c0 (hard_drop k (labeled_pose s)) lj (settle_label (state_lock_class s) new) (fun _ => settle_slot (state_lock_class s) new) output) as (h & -> & E); [by rewrite list_fmap_id|done|by rewrite Ho, length_fmap|rewrite Ho; by apply Forall_fmap, Forall_true| | |].
  - intros _ a. apply settle_slot_length.
  - intros out i' t a _ Ha Hl. rewrite (settle_label_Ok _ _ out (Z.of_nat i') a) by (rewrite ?Nat2Z.id; done). by rewrite Nat2Z.id.
  - cbn [rbind]. rewrite E. f_equal. symmetry. apply slots_eq; [by rewrite Ho, length_fmap|by rewrite length_fmap|]. intros i' t a Ht Ha. rewrite Ho, list_lookup_fmap, Ht in Ha. injection Ha as <-. rewrite list_lookup_fmap, Ht. cbn [fmap option_fmap option_map]. f_equal.
    assert (lockable_pose k (hard_drop k (labeled_pose s)) = true) as Hlock by (unfold lockable_pose; by rewrite Ein, Hlr). rewrite Hlock, andb_true_r. case_bool_decide as Et; [apply (label_slots_hit done t (s, (d, r))); [by rewrite Et|done]|]. apply label_slots_miss. right. intros E'. apply Et. symmetry. exact E'.
Qed.

Lemma labels_loop_spec heads next c0 fuel c q st output : targets_inv k (length targets) all (heads, next, c0) -> inv c q -> label_rep q st -> output = label_slots (take c q) <$> targets -> (count < fuel + c)%nat ->
  exists c' q', labels_loop fuel k heads next c output st = Ok (label_slots (take c' q') <$> targets) /\ inv c' q' /\ q' !! c' = None.
Proof using Hk Hspawn.
  intros Hti. revert c q st output. induction fuel as [|fuel IH]; intros c q st output Hinv Hr Ho Hf; cbn [labels_loop]; pose proof Hr as (Hdr & _ & Hq & Hn & _); rewrite Hq, list_lookup_fmap; (destruct (q !! c) as [[s [d r]]|] eqn:Ec; cbn [fmap option_fmap option_map fst]).
  2,4: exists c, q; by rewrite Ho.
  { pose proof (lookup_lt_Some _ _ _ Ec). pose proof (label_queue_bound _ _ Hinv). lia. }
  destruct (label_entry c q c s d r Hinv Ec) as (Hfit & _). destruct (fits_lidx s Hfit) as [j Hj]. rewrite Hj. cbn [unwrap rbind]. rewrite (settle_labels heads next c0 c q st c s d r j output (take c q) Hti Hinv Hr Ec Hj Ho). cbn [rbind].
  rewrite (get_at_Some _ _ _ (vec_rep_lookup lidx count label_dist q _ s j _ Hn Hdr Hj (list_elem_of_lookup_2 _ _ _ Ec))). cbn [rbind label_dist]. pose proof (label_small c q c s d r Hinv Ec). rewrite add_cost_Ok by lia. cbn [rbind]. replace (Z.of_nat d + 1) with (Z.of_nat (S d)) by lia.
  destruct (expand_labeled_rep q st s d Hr) as (st' & -> & Hr'); [unfold UNREACHED, umax; lia|done|]. cbn [rbind]. apply (IH (S c) (expand_entry label_edges q s d)); [by apply (bfs_step _ _ _ c s d r)|done| |lia].
  destruct (ex_prefix _ _ _ _ _ _ _ _ _ (expand_expanding _ _ _ c s d r q Hinv Ec)) as (new & -> & _). pose proof (lookup_lt_Some _ _ _ Ec). rewrite take_app_le by lia. by rewrite (take_S_r _ _ _ Ec).
Qed.

Lemma label_start_rep i : lidx root = Some i -> label_rep [(root, (0%nat, None))] (mkLabelSearch (<[Z.to_nat i := 0]> (replicate count UNREACHED)) (replicate count None) [root]).
Proof using Hk.
  intros Hi. split; [|split; [|split; [done|split; [apply NoDup_singleton|by apply Forall_singleton]]]].
  - apply (vec_rep_snoc lidx count lidx_bound lidx_inj label_dist [] _ root i (0%nat, None)); [|done|apply not_elem_of_nil]. exact (vec_rep_start lidx count lidx_bound label_dist).
  - pose proof (vec_rep_start (N := LabeledState) (X := Arrival) lidx count lidx_bound label_arrival) as [Hl Hv]. split; [done|]. intros v j Hj. etrans; [exact (Hv v j Hj)|]. f_equal. cbn. by destruct (decide _).
Qed.

Lemma kernel_route_labels_some : targets <> [] -> kernel_route_labels k targets =
  let? '(heads, next, mapped) := compile_targets k targets in
  if mapped =? 0 then Ok (replicate (length targets) (replicate 3 None))
  else
    let? product_count := fail_with (checked_mul 64 (k_state_count k) 3) StateSpaceTooLarge in
    let? spawn_index := unwrap (lidx root) in
    let? distance := set_at (replicate (Z.to_nat product_count) UNREACHED) spawn_index 0 in
    labels_loop (S (Z.to_nat product_count)) k heads next 0 (replicate (length targets) (replicate 3 None)) (mkLabelSearch distance (replicate (Z.to_nat product_count) None) [root]).
Proof using Type. clear Hlen. by destruct targets. Qed.

Lemma labels_start : replicate (length targets) (replicate 3 None) = label_slots [] <$> targets.
Proof using Type.
  clear Hlen. assert (forall t, label_slots [] t = replicate 3 None) as H by (intros t; unfold label_slots; cbn; by destruct (lockable_pose k _)). induction targets as [|t ts IH]; [done|]. cbn [length replicate fmap list_fmap]. rewrite H. f_equal. apply IH.
Qed.

(** When no target can be locked every label is missing. *)
Lemma no_labels t : lockable_pose k (target_pose t) = false -> Forall2 (label_right k t) classes (replicate 3 None).
Proof using Type. intros Hl. assert (forall class, label_right k t class None) as H by (intros class; split; [intros n (actions & ev & _ & Hp%places_lockable & _); congruence|done]). repeat constructor; apply H. Qed.

Lemma kernel_route_labels_spec : exists output, kernel_route_labels k targets = Ok output /\ Forall2 (fun t labels => Forall2 (label_right k t) classes labels) targets output.
Proof using Hk Hspawn Hlen.
  destruct (decide (targets = [])) as [E|Hne]; [exists []; rewrite E; by split|]. rewrite kernel_route_labels_some by done. destruct (compile_targets_spec k Hk targets Hlen) as (heads & next & c0 & -> & Hti). cbn [rbind]. destruct (Z.eqb_spec c0 0) as [E|_].
  - exists (replicate (length targets) (replicate 3 None)). split; [done|]. apply Forall2_same_length_lookup_2; [by rewrite length_replicate|]. intros i t labels Ht [-> _]%lookup_replicate. apply no_labels. apply not_true_iff_false. intros Hl%(valid_target_index k targets i _ Ht). destruct Hti as (_ & _ & Hc0 & _). destruct (valid_indices k all); [by apply not_elem_of_nil in Hl|]. cbn in Hc0. lia.
  - pose proof (count_bound k Hk). unfold checked_mul. rewrite (proj2 (Z.ltb_lt _ _)) by lia. cbn [fail_with rbind]. destruct (fits_lidx root Hspawn) as [i Hi]. rewrite Hi. cbn [unwrap rbind]. pose proof (lidx_bound _ _ Hi). rewrite set_at_Ok by (rewrite length_replicate; lia). cbn [rbind].
    destruct (labels_loop_spec heads next c0 (S count) 0 [(root, (0%nat, None))] _ _ Hti (bfs_start _ _ _) (label_start_rep i Hi) labels_start ltac:(lia)) as (c & q & -> & Hinv & Hc). eexists. split; [done|]. apply Forall2_fmap_r, Forall_Forall2_diag, Forall_forall. intros t _. by apply label_slots_right.
Qed.
End Labels.
