(* ===== verification/FinesseQuery.v ===== *)
(** * Queries of the finesse search

    The entry points of [clearra-finesse]: a query is turned into a search
    kernel, and what its methods return is stated by the rules of classic
    inputs for that query, which have no ceiling: that the ceilings of the
    kernel change no answer is carried over from [FinessePruning].  None of
    the methods panics. *)

From Stdlib Require Import ZArith Lia.
From stdpp Require Import prelude strings.
From S2P Require Import Prelude Words Board PcBoard Pieces Kicks Reachability ReachTemplate Reach Finesse FinesseRules FinessePruning Bfs FinesseSearch FinesseCosts FinesseEvidence FinesseParents FinesseWitness FinesseLabels.

Local Open Scope Z_scope.

(** Kicks are small enough for a normalized kick to be an [i8]. *)
Definition small_kicks (profile : KickTableProfile) : Prop := Forall (fun e => Forall (fun o => -100 <= fst o <= 100 /\ -100 <= snd o <= 100) (entry_offsets e)) (entries profile).

(** A query over a board its constructors accept, with a spawn over the board,
    a kick table that does not climb in the open (the tables of the program do
    not, [builtin_calm]) and a number of targets that fits memory. *)
Record query_ok (q : FrozenFinesseQuery) : Prop := {
  qo_size : 0 < board_width (query_board q) /\ 0 < board_height (query_board q) /\ board_width (query_board q) * board_height (query_board q) <= 256;
  qo_board : Board256Mask_ok (finesse_occupied (query_board q)) /\ FinesseBoard_from_parts (finesse_size (query_board q)) (finesse_occupied (query_board q)) = Ok (query_board q);
  qo_spawn : 0 <= spawn_x (query_spawn q) < board_width (query_board q) /\ 0 <= spawn_y (query_spawn q) <= 32000;
  qo_kicks : small_kicks (query_kicks q);
  qo_calm : calm_kicks (query_piece q) (query_kicks q) = true;
  qo_targets : Z.of_nat (length (query_targets q)) < NO_TARGET
}.

(** The rules a query is about: its board, piece, kicks and spawn, and no
    ceiling. *)
Definition query_rules (q : FrozenFinesseQuery) : InputRules :=
  mkRules (query_board q) (query_piece q) (query_kicks q) (mkPose Zero (spawn_x (query_spawn q)) (spawn_y (query_spawn q))) None None.

(** The kernel built for a query. *)
Definition query_kernel (q : FrozenFinesseQuery) : SearchKernel :=
  let spawn := mkPose Zero (spawn_x (query_spawn q)) (spawn_y (query_spawn q)) in
  let ceiling := finesse_source_ceiling (board_height (query_board q)) (query_piece q) (pose_y spawn) (query_kicks q) in
  mkKernel (query_board q) (query_piece q) (query_kicks q) (piece_shape (query_piece q) <$> [Zero; Right; Two; Left]) spawn ceiling
    (Z.min (soft_drop_interaction_ceiling (query_board q) (query_piece q) (query_kicks q)) ceiling) (4 * (ceiling + 1) * board_width (query_board q)).

(** ** The kernel of a query *)

Lemma kick_delta_bound piece from to o : -100 <= fst o <= 100 /\ -100 <= snd o <= 100 ->
  -110 <= fst (normalized_kick_delta piece from to (fst o) (snd o)) <= 110 /\ -110 <= snd (normalized_kick_delta piece from to (fst o) (snd o)) <= 110.
Proof.
  intros H. assert (forall r, -5 <= fst (normalized_rotation_center piece r) <= 5 /\ -5 <= snd (normalized_rotation_center piece r) <= 5) as Hc by (intros r; destruct piece, r; vm_compute; repeat split; discriminate).
  pose proof (Hc from). pose proof (Hc to). unfold normalized_kick_delta. destruct (normalized_rotation_center piece from), (normalized_rotation_center piece to). cbn [fst snd] in *. lia.
Qed.

Lemma max_or_zero_bound l b : 0 <= b -> Forall (fun x => x <= b) l -> 0 <= max_or_zero l <= b.
Proof.
  intros Hb Hl. unfold max_or_zero. assert (forall l a, 0 <= a <= b -> Forall (fun x => x <= b) l -> 0 <= foldl Z.max a l <= b) as H; [|by apply H; [lia|]].
  clear l Hl. intros l. induction l as [|x l IH]; intros a Ha Hl; [done|]. apply Forall_cons in Hl as [Hx Hl]. cbn. apply IH; [lia|done].
Qed.

Lemma kick_heights_bound piece profile : small_kicks profile -> Forall (fun dy => -110 <= dy <= 110) (kick_heights piece profile).
Proof.
  intros Hs. apply Forall_forall. intros dy (e & (o & -> & Ho)%list_elem_of_fmap & [_ He]%list_elem_of_filter)%list_elem_of_bind. unfold small_kicks in Hs. rewrite Forall_forall in Hs. specialize (Hs e He). rewrite Forall_forall in Hs. apply kick_delta_bound. by apply Hs.
Qed.

Section Query.
Context (q : FrozenFinesseQuery) (Hq : query_ok q).

Local Notation k := (query_kernel q).

Lemma ceiling_bound : spawn_y (query_spawn q) <= k_ceiling k <= 32600 /\ 0 <= k_ceiling k.
Proof using Hq.
  destruct Hq as [Hs _ [_ Hy] Hk _ _]. cbn [query_kernel k_ceiling pose_y]. unfold finesse_source_ceiling. pose proof (kick_heights_bound (query_piece q) _ Hk) as Hh. assert (board_height (query_board q) <= 256) by nia.
  assert (0 <= max_or_zero (Z.abs <$> kick_heights (query_piece q) (query_kicks q)) <= 110) as Hm. { apply max_or_zero_bound; [lia|]. apply Forall_fmap. eapply Forall_impl; [exact Hh|]. intros x Hx. lazy beta in Hx. change (Z.abs x <= 110). lia. }
  unfold saturating_i16. lia.
Qed.

Lemma query_kernel_ok : kernel_ok k.
Proof using Hq.
  pose proof ceiling_bound as Hc. destruct Hq as [Hs _ [Hx Hy] Hk _ _]. split; [done|intros r; by destruct r|lia| |done].
  intros from to offsets o Hf Ho. cbn [query_kernel k_kicks k_piece] in *. unfold sequence_for in Hf. destruct (list_find _ _) as [[i e]|] eqn:E; [|done]. injection Hf as <-. apply list_find_Some in E as (He & _ & _). apply list_elem_of_lookup_2 in He. unfold small_kicks in Hk. rewrite Forall_forall in Hk. specialize (Hk e He). rewrite Forall_forall in Hk. pose proof (kick_delta_bound (query_piece q) from to o (Hk o Ho)). lia.
Qed.

Lemma query_definition : exists d, registry_get STANDARD_TETROMINO_DEFINITIONS (query_piece q) = Some d /\ def_rotations d = piece_shape (query_piece q) <$> [Zero; Right; Two; Left].
Proof using Type. destruct (query_piece q); eexists; split; reflexivity. Qed.

Lemma SearchKernel_new_ok : SearchKernel_new q = if pose_fits k (k_spawn k) then Ok k else Err (Fails (SpawnBlocked (k_spawn k))).
Proof using Hq.
  pose proof ceiling_bound as Hc. pose proof query_kernel_ok as Hko. destruct Hq as [Hs _ [Hx Hy] Hk _ _]. unfold SearchKernel_new. destruct query_definition as (d & -> & Hd). cbn [fail_with rbind pose_x pose_y]. rewrite (proj2 (Z.ltb_ge _ _)), (proj2 (Z.ltb_ge _ _)) by lia. cbn [orb].
  set (c := finesse_source_ceiling _ _ _ _). change (k_ceiling k) with c in Hc. rewrite wrap_small by (unfold in_width; lia). unfold saturating_add, checked_mul, umax. rewrite Z.min_l by lia. assert (board_width (query_board q) <= 256) by nia.
  rewrite (proj2 (Z.ltb_lt _ _)) by lia. cbn [mbind option_bind]. rewrite (proj2 (Z.ltb_lt _ _)) by nia. cbn [fail_with rbind]. rewrite Hd. change (mkKernel _ _ _ _ _ c _ _) with k.
  pose proof (kindex_in k Hko (k_spawn k) Hx) as Hi. cbn [query_kernel k_spawn pose_y] in Hi. specialize (Hi ltac:(change (k_ceiling k) with c; lia)). change (kernel_state_index k _) with (kernel_state_index k (k_spawn k)). change (mkPose Zero _ _) with (k_spawn k) in Hi |- *. rewrite Hi, placeable_fits by done. done.
Qed.

Lemma search_kernel_ok : search_kernel q = Ok (if pose_fits k (k_spawn k) then Some k else None).
Proof using Hq. unfold search_kernel. rewrite SearchKernel_new_ok. by destruct (pose_fits k (k_spawn k)). Qed.

(** Nothing can be placed when the spawn is blocked. *)
Lemma blocked_route actions p r : pose_fits k (k_spawn k) = false -> ~ route k actions p r.
Proof using Type. intros Hb. induction 1 as [H|]; [|done]. change (pose_fits k (k_spawn k) = true) in H. congruence. Qed.

Lemma blocked_places actions lock ev : pose_fits k (k_spawn k) = false -> ~ places k actions lock ev.
Proof using Type. intros Hb (p & r & Hr & _). by apply blocked_route in Hr. Qed.
End Query.

(** ** The ceilings of the kernel of a query *)

Lemma max_or_zero_above l x : x ∈ l -> x <= max_or_zero l.
Proof.
  unfold max_or_zero. assert (forall l a, a <= foldl Z.max a l /\ forall x, x ∈ l -> x <= foldl Z.max a l) as H; [|apply H].
  clear l x. intros l. induction l as [|b l IH]; intros a; cbn; [split; [lia|]; intros x Hx; by apply not_elem_of_nil in Hx|]. destruct (IH (Z.max a b)) as [H1 H2]. split; [lia|]. intros x [->|Hx]%elem_of_cons; [lia|by apply H2].
Qed.

Lemma sequence_heights piece profile from to offsets o : sequence_for profile (mkTransition piece from to) = Some offsets -> o ∈ offsets -> snd (normalized_kick_delta piece from to (fst o) (snd o)) ∈ kick_heights piece profile.
Proof.
  unfold sequence_for. destruct (list_find _ _) as [[i e]|] eqn:E; [|done]. intros [= <-] Ho. apply list_find_Some in E as (He & Et & _). apply list_elem_of_lookup_2 in He. unfold kick_heights. apply list_elem_of_bind. exists e. split; [|apply list_elem_of_filter; by rewrite Et].
  rewrite Et. cbn [tr_from tr_to]. apply list_elem_of_fmap. by exists o.
Qed.

Definition vertical_margin (q : FrozenFinesseQuery) : Z := max_or_zero (Z.abs <$> kick_heights (query_piece q) (query_kicks q)).

Definition downward_margin (q : FrozenFinesseQuery) : Z := max_or_zero (Z.abs <$> filter (fun dy => dy < 0) (kick_heights (query_piece q) (query_kicks q))).

Section Ceilings.
Context (q : FrozenFinesseQuery) (Hq : query_ok q).

Lemma margins : 0 <= downward_margin q <= vertical_margin q /\ vertical_margin q <= 110.
Proof using Hq.
  pose proof (kick_heights_bound (query_piece q) _ (qo_kicks q Hq)) as Hh. rewrite Forall_forall in Hh. unfold downward_margin, vertical_margin. assert (0 <= max_or_zero (Z.abs <$> kick_heights (query_piece q) (query_kicks q)) <= 110) as Hv.
  { apply max_or_zero_bound; [lia|]. apply Forall_fmap, Forall_forall. intros x Hx. specialize (Hh x Hx). change (Z.abs x <= 110). lia. }
  split; [|lia]. apply max_or_zero_bound; [lia|]. apply Forall_fmap, Forall_forall. intros x [_ Hx]%list_elem_of_filter. change (Z.abs x <= max_or_zero (Z.abs <$> kick_heights (query_piece q) (query_kicks q))). apply max_or_zero_above, list_elem_of_fmap. by exists x.
Qed.

Lemma kick_margins from to offsets o : sequence_for (query_kicks q) (mkTransition (query_piece q) from to) = Some offsets -> o ∈ offsets ->
  - downward_margin q <= snd (normalized_kick_delta (query_piece q) from to (fst o) (snd o)) /\ snd o <= vertical_margin q + 2.
Proof using Hq.
  intros Hs Ho. pose proof (sequence_heights _ _ _ _ _ _ Hs Ho) as Hin. set (dy := snd (normalized_kick_delta _ _ _ _ _)) in *. destruct margins as [[Hd _] _]. split.
  - destruct (Z.lt_ge_cases dy 0) as [Hneg|]; [|lia]. assert (Z.abs dy <= downward_margin q) by (apply max_or_zero_above, list_elem_of_fmap; exists dy; split; [done|by apply list_elem_of_filter]). lia.
  - assert (Z.abs dy <= vertical_margin q) by (apply max_or_zero_above, list_elem_of_fmap; by exists dy). assert (dy = snd o + center_y (query_piece q) from - center_y (query_piece q) to) as E.
    { unfold dy, normalized_kick_delta, center_y. by destruct (normalized_rotation_center (query_piece q) from), (normalized_rotation_center (query_piece q) to). }
    pose proof (center_y_bound (query_piece q) from). pose proof (center_y_bound (query_piece q) to). lia.
Qed.

Lemma query_pruning : pruning_ok (query_kernel q) (occupied_height (query_board q)) (downward_margin q) (vertical_margin q + 2).
Proof using Hq.
  destruct margins as [Hd Hv]. pose proof kick_margins as Hkick. destruct Hq as [(Hw & Hh & Ha) [Hok Hb] [_ Hy] _ Hcalm _].
  assert (forall i, b256_bit (finesse_occupied (query_board q)) i = true -> i < board_width (query_board q) * board_height (query_board q)) as Hin.
  { unfold FinesseBoard_from_parts in Hb. unfold board_width, board_height in Hw, Hh, Ha |- *. unfold BoardSize_area in Hb. destruct (fits_cell_count_spec (finesse_occupied (query_board q)) (bs_width (finesse_size (query_board q)) * bs_height (finesse_size (query_board q))) Hok ltac:(nia)) as (b & E & Hiff).
    rewrite wrap_small, E in Hb by (unfold in_width; nia). destruct b; [|done]. by apply Hiff. }
  destruct (occupied_height_sky _ Hw Hh Hok Hin) as [Hocc Hempty]. split; try done; cbn [query_kernel k_ceiling k_interaction_ceiling k_spawn pose_y]; try lia.
  - unfold finesse_source_ceiling. fold (vertical_margin q). unfold saturating_i16. assert (board_height (query_board q) <= 256) by nia. lia.
  - unfold soft_drop_interaction_ceiling, finesse_source_ceiling. fold (vertical_margin q) (downward_margin q). unfold saturating_i16. assert (board_height (query_board q) <= 256) by nia. lia.
Qed.

(** A lock of the rules is one the kernel finds with no more inputs, and
    conversely. *)
Lemma query_places actions lock ev : places (query_rules q) actions lock ev -> exists actions', (length actions' <= length actions)%nat /\ places (query_kernel q) actions' lock ev.
Proof using Hq. exact (places_pruned _ _ _ _ query_pruning actions lock ev). Qed.

Lemma kernel_places actions lock ev : places (query_kernel q) actions lock ev -> places (query_rules q) actions lock ev.
Proof using Hq. exact (places_free _ _ _ _ query_pruning actions lock ev). Qed.
End Ceilings.

(** ** What the methods return, by the rules of the kernel, whether the spawn
    is free or blocked *)

Section Answers.
Context (q : FrozenFinesseQuery) (Hq : query_ok q).

Local Notation k := (query_kernel q).

Lemma query_costs_answer : exists output, query_costs q = Ok output /\ Forall2 (fun t o => least_cost (places_in k (target_pose t)) o) (query_targets q) output.
Proof using Hq.
  unfold query_costs. rewrite search_kernel_ok by done. cbn [rbind]. destruct (pose_fits k (k_spawn k)) eqn:Hs; [apply (kernel_costs_spec k (query_kernel_ok q Hq) Hs); apply Hq|].
  eexists. split; [done|]. apply Forall2_same_length_lookup_2; [by rewrite length_replicate|]. intros i t o _ [-> _]%lookup_replicate n (actions & ev & _ & Hp). by apply blocked_places in Hp.
Qed.

Lemma query_evidence_answer evidence : length evidence = length (query_targets q) ->
  exists output, query_costs_for_terminal_evidence q evidence = Ok output /\ Forall2 (fun tw o => least_cost (places_wanted k (target_pose (fst tw)) (snd tw)) o) (zip (query_targets q) evidence) output.
Proof using Hq.
  intros Hl. unfold query_costs_for_terminal_evidence. rewrite Hl, Nat.eqb_refl. cbn [negb]. rewrite search_kernel_ok by done. cbn [rbind]. destruct (pose_fits k (k_spawn k)) eqn:Hs.
  - destruct (kernel_evidence_run k (query_kernel_ok q Hq) Hs (query_targets q) evidence (qo_targets q Hq) Hl) as (c & e & Hinv & Hc & ->). eexists. split; [done|]. apply Forall2_fmap_r, Forall_Forall2_diag, Forall_forall. intros tw _. by apply (final_slot_least k (query_kernel_ok q Hq) Hs c).
  - eexists. split; [done|]. apply Forall2_same_length_lookup_2; [rewrite length_replicate, length_zip_with; lia|]. intros i tw o _ [-> _]%lookup_replicate n (actions & ev & _ & Hp & _). by apply blocked_places in Hp.
Qed.

Lemma query_cost_answer i t evidence : query_targets q !! Z.to_nat i = Some t -> exists o, query_cost_for_terminal_evidence q i evidence = Ok o /\ least_cost (places_wanted k (target_pose t) (Some evidence)) o.
Proof using Hq.
  intros Ht. unfold query_cost_for_terminal_evidence. rewrite Ht. cbn [fail_with rbind]. rewrite search_kernel_ok by done. cbn [rbind]. destruct (pose_fits k (k_spawn k)) eqn:Hs.
  - unfold kernel_cost_for_terminal_evidence. destruct (kernel_evidence_run k (query_kernel_ok q Hq) Hs [t] [Some evidence]) as (c & e & Hinv & Hc & ->); [cbn; unfold NO_TARGET, umax; lia|done|]. eexists. split; [done|]. exact (final_slot_least k (query_kernel_ok q Hq) Hs c e Hinv Hc (t, Some evidence)).
  - exists None. split; [done|]. intros n (actions & ev & _ & Hp & _). by apply blocked_places in Hp.
Qed.

Lemma query_witness_answer i t is_cancelled : query_targets q !! Z.to_nat i = Some t ->
  exists result, query_witness q i = Ok result /\ witness_right k t None result /\ cancels is_cancelled (query_witness_with_cancel q i is_cancelled) (Ok result).
Proof using Hq.
  intros Ht. unfold query_witness, query_witness_with_cancel. rewrite Ht. cbn [fail_with rbind]. rewrite search_kernel_ok by done. cbn [rbind]. destruct (pose_fits k (k_spawn k)) eqn:Hs.
  - destruct (kernel_witness_spec k (query_kernel_ok q Hq) Hs t) as (result & E & Hr). exists result. split; [done|]. split; [done|]. destruct (is_cancelled 0%nat) eqn:E0; [by apply (cancels_here is_cancelled 0)|]. rewrite <- E. destruct (kernel_witness_cancels k t (fun n => is_cancelled (S n))) as [H|[H [n Hn]]]; [by left|right]. split; [done|by exists (S n)].
  - exists None. split; [done|]. split; [intros n (actions & ev & _ & Hp & _); by apply blocked_places in Hp|]. destruct (is_cancelled 0%nat) eqn:E0; [by apply (cancels_here is_cancelled 0)|by left].
Qed.

Lemma query_evidence_witness_answer i t evidence is_cancelled : query_targets q !! Z.to_nat i = Some t ->
  exists result, query_witness_for_terminal_evidence q i evidence = Ok result /\ witness_right k t (Some evidence) result /\ cancels is_cancelled (query_witness_for_terminal_evidence_with_cancel q i evidence is_cancelled) (Ok result).
Proof using Hq.
  intros Ht. unfold query_witness_for_terminal_evidence, query_witness_for_terminal_evidence_with_cancel. rewrite Ht. cbn [fail_with rbind]. rewrite search_kernel_ok by done. cbn [rbind]. destruct (pose_fits k (k_spawn k)) eqn:Hs.
  - destruct (evidence_witness_spec k (query_kernel_ok q Hq) Hs t evidence) as (result & E & Hr). exists result. split; [done|]. split; [done|]. destruct (is_cancelled 0%nat) eqn:E0; [by apply (cancels_here is_cancelled 0)|]. rewrite <- E. destruct (kernel_evidence_cancels k t (fun n => is_cancelled (S n)) evidence) as [H|[H [n Hn]]]; [by left|right]. split; [done|by exists (S n)].
  - exists None. split; [done|]. split; [intros n (actions & ev & _ & Hp & _); by apply blocked_places in Hp|]. destruct (is_cancelled 0%nat) eqn:E0; [by apply (cancels_here is_cancelled 0)|by left].
Qed.

Lemma query_labels_answer : exists output, query_route_labels q = Ok output /\ Forall2 (fun t labels => Forall2 (label_right k t) classes labels) (query_targets q) output.
Proof using Hq.
  unfold query_route_labels. rewrite search_kernel_ok by done. cbn [rbind]. destruct (pose_fits k (k_spawn k)) eqn:Hs; [apply (kernel_route_labels_spec k (query_kernel_ok q Hq) Hs); apply Hq|].
  eexists. split; [done|]. apply Forall2_same_length_lookup_2; [by rewrite length_replicate|]. intros i t labels _ [-> _]%lookup_replicate. assert (forall class, label_right k t class None) as H by (intros class; split; [intros n (actions & ev & _ & Hp & _); by apply blocked_places in Hp|done]). repeat constructor; apply H.
Qed.
End Answers.

(** ** From the rules of the kernel to the rules of the query *)

Lemma least_cost_same (P Q : nat -> Prop) o : (forall n, P n -> Q n) -> (forall n, Q n -> exists m, (m <= n)%nat /\ P m) -> least_cost P o -> least_cost Q o.
Proof.
  intros HPQ HQP. destruct o as [z|]; cbn.
  - intros (n & -> & Hn & Hmin). exists n. split; [done|]. split; [by apply HPQ|]. intros m (m' & Hle & Hm)%HQP. specialize (Hmin m' Hm). lia.
  - intros Hno n (m & _ & Hm)%HQP. by apply (Hno m).
Qed.

Section Transfer.
Context (q : FrozenFinesseQuery) (Hq : query_ok q).

Local Notation k := (query_kernel q).
Local Notation rules := (query_rules q).

(** Counting the locks with some property of their evidence. *)
Lemma count_kernel (W : TerminalEvidenceLabel -> Prop) lock n : (exists actions ev, n = S (length actions) /\ places k actions lock ev /\ W ev) -> exists actions ev, n = S (length actions) /\ places rules actions lock ev /\ W ev.
Proof using Hq. intros (actions & ev & -> & Hp & HW). exists actions, ev. split; [done|]. split; [by apply kernel_places|done]. Qed.

Lemma count_rules (W : TerminalEvidenceLabel -> Prop) lock n : (exists actions ev, n = S (length actions) /\ places rules actions lock ev /\ W ev) -> exists m, (m <= n)%nat /\ exists actions ev, m = S (length actions) /\ places k actions lock ev /\ W ev.
Proof using Hq. intros (actions & ev & -> & (actions' & Hle & Hp)%query_places & HW); [|done]. exists (S (length actions')). split; [lia|]. by exists actions', ev. Qed.

Lemma places_wanted_same lock wanted o : least_cost (places_wanted k lock wanted) o -> least_cost (places_wanted rules lock wanted) o.
Proof using Hq. apply least_cost_same; [apply (count_kernel (fun ev => wanted = None \/ wanted = Some ev))|apply (count_rules (fun ev => wanted = None \/ wanted = Some ev))]. Qed.

Lemma places_in_same lock o : least_cost (places_in k lock) o -> least_cost (places_in rules lock) o.
Proof using Hq.
  intros H. eapply least_cost_same; [intros n Hn; apply places_in_wanted, Hn| |]; [intros n Hn%places_in_wanted; exists n; split; [done|exact Hn]|]. apply places_wanted_same. revert H. apply least_cost_same; intros n Hn; [by apply places_in_wanted|exists n; split; [done|by apply places_in_wanted]].
Qed.

Lemma witness_same t wanted result : witness_right k t wanted result -> witness_right rules t wanted result.
Proof using Hq.
  destruct result as [w|]; cbn [witness_right].
  - intros (Ht & Hw & (inputs & Hi & Hp) & Hc & Hmin). split; [done|]. split; [done|]. split; [exists inputs; split; [done|by apply kernel_places]|]. split; [done|]. intros n (m & Hle & Hm)%(count_rules (fun ev => wanted = None \/ wanted = Some ev)). specialize (Hmin m Hm). lia.
  - intros Hno n (m & _ & Hm)%(count_rules (fun ev => wanted = None \/ wanted = Some ev)). by apply (Hno m).
Qed.

Lemma label_same t class o : label_right k t class o -> label_right rules t class o.
Proof using Hq.
  intros [Hl Hlc]. split; [revert Hl; apply least_cost_same; [apply (count_kernel (fun ev => label_class ev = class))|apply (count_rules (fun ev => label_class ev = class))]|].
  intros lc E. destruct (Hlc lc E) as (actions & Hc & Hp & Hcl). exists actions. split; [done|]. split; [by apply kernel_places|done].
Qed.
End Transfer.

(** ** Properties *)

(** A query that satisfies the conditions: a T on an empty board of four rows,
    with a target on the floor, one in the air and one twice. *)
Definition floor_query : FrozenFinesseQuery :=
  mkQuery (mkFinesseBoard (mkBoardSize 10 4) (mkBoard256Mask [0; 0; 0; 0])) PT (mkSpawn CustomSpawn 3 5) srs_profile
    [mkTargetPose (mkPose Zero 3 0); mkTargetPose (mkPose Two 0 0); mkTargetPose (mkPose Zero 3 2); mkTargetPose (mkPose Two 0 0)].

Lemma floor_query_ok : query_ok floor_query.
Proof.
  split; [cbn; lia|split; [by apply b256_ok_of|reflexivity]|cbn; lia| |exact (builtin_calm Srs srs_profile PT eq_refl)|cbn; unfold NO_TARGET, umax; lia]. change (small_kicks srs_profile). unfold small_kicks. apply Forall_forall. intros e He. apply Forall_forall. intros o Ho.
  assert (forallb (fun e => forallb (fun o => (-100 <=? fst o) && (fst o <=? 100) && (-100 <=? snd o) && (snd o <=? 100)) (entry_offsets e)) (entries srs_profile) = true) as H by (vm_compute; reflexivity).
  rewrite forallb_forall in H. apply list_elem_of_In in He. specialize (H e He). rewrite forallb_forall in H. apply list_elem_of_In in Ho. specialize (H o Ho). rewrite !andb_true_iff, !Z.leb_le in H. lia.
Qed.

(** C3: [costs] gives every target, in the order of the targets and with
    duplicates, the least number of inputs of a sequence of taps, auto-shifts,
    rotations and soft drops from the spawn whose hard drop locks the piece at
    the target.  The sequences are all those of the rules: a soft drop may stop
    at every row and a piece may be at any height, so the ceilings by which the
    search prunes cost no target an input.  A target gets no cost exactly when
    no sequence locks there, in particular when it lies outside the layout, is
    not grounded, or the spawn is blocked.  The search ends and does not
    panic. *)
Theorem finesse_costs_least q : query_ok q -> exists output, query_costs q = Ok output /\ Forall2 (fun t o => least_cost (places_in (query_rules q) (target_pose t)) o) (query_targets q) output.
Proof.
  intros Hq. destruct (query_costs_answer q Hq) as (output & E & H). exists output. split; [done|]. eapply Forall2_impl; [exact H|]. intros t o. by apply places_in_same.
Qed.

Lemma finesse_costs_least_witness : query_ok floor_query /\ exists output, query_costs floor_query = Ok output /\ Forall2 (fun t o => least_cost (places_in (query_rules floor_query) (target_pose t)) o) (query_targets floor_query) output.
Proof. split; [exact floor_query_ok|exact (finesse_costs_least floor_query floor_query_ok)]. Defined.

(** C9: [costs_for_terminal_evidence] gives every target the least number of
    inputs that locks the piece there with the wanted evidence: any lock when
    nothing is wanted, a lock whose last movement is not a rotation (or that
    fell by a row after it), or a lock by exactly the wanted rotation, with its
    predecessor, kick and request.  The sequences compared are those of the
    rules without ceilings.  Targets and evidence of different lengths are an
    error. *)
Theorem finesse_evidence_costs_least q evidence : query_ok q ->
  if bool_decide (length evidence = length (query_targets q))
  then exists output, query_costs_for_terminal_evidence q evidence = Ok output /\
    Forall2 (fun tw o => least_cost (places_wanted (query_rules q) (target_pose (fst tw)) (snd tw)) o) (zip (query_targets q) evidence) output
  else query_costs_for_terminal_evidence q evidence = Err (Fails (TargetEvidenceLengthMismatch (Z.of_nat (length (query_targets q))) (Z.of_nat (length evidence)))).
Proof.
  intros Hq. case_bool_decide as Hl.
  { destruct (query_evidence_answer q Hq evidence Hl) as (output & E & H). exists output. split; [done|]. eapply Forall2_impl; [exact H|]. intros tw o. by apply places_wanted_same. }
  unfold query_costs_for_terminal_evidence. by rewrite (proj2 (Nat.eqb_neq _ _)).
Qed.

Lemma finesse_evidence_costs_least_witness : exists output, query_costs_for_terminal_evidence floor_query [Some LabelNoRotation; None; None; Some LabelNoRotation] = Ok output /\
    Forall2 (fun tw o => least_cost (places_wanted (query_rules floor_query) (target_pose (fst tw)) (snd tw)) o) (zip (query_targets floor_query) [Some LabelNoRotation; None; None; Some LabelNoRotation]) output.
Proof. exact (finesse_evidence_costs_least floor_query [Some LabelNoRotation; None; None; Some LabelNoRotation] floor_query_ok). Defined.

(** C4: [witness] and [witness_for_terminal_evidence] return a sequence of
    inputs that ends with its only hard drop, locks the piece at the target
    with the evidence they report (the wanted one), has the reported cost as
    its length, and is as short as any sequence of the rules without ceilings;
    they return none exactly when there is no such sequence.  A cancellation callback changes nothing except that the
    search may end with [Cancelled] after the callback has answered true. *)
Theorem finesse_witness_shortest q i t wanted is_cancelled : query_ok q -> query_targets q !! Z.to_nat i = Some t ->
  let run := match wanted with None => query_witness q i | Some evidence => query_witness_for_terminal_evidence q i evidence end in
  let cancellable := match wanted with None => query_witness_with_cancel q i is_cancelled | Some evidence => query_witness_for_terminal_evidence_with_cancel q i evidence is_cancelled end in
  exists result, run = Ok result /\ witness_right (query_rules q) t wanted result /\ cancels is_cancelled cancellable (Ok result).
Proof.
  intros Hq Ht. assert (exists result, match wanted with None => query_witness q i | Some evidence => query_witness_for_terminal_evidence q i evidence end = Ok result /\ witness_right (query_kernel q) t wanted result /\
    cancels is_cancelled (match wanted with None => query_witness_with_cancel q i is_cancelled | Some evidence => query_witness_for_terminal_evidence_with_cancel q i evidence is_cancelled end) (Ok result)) as (result & E & Hr & Hc)
    by (destruct wanted as [evidence|]; [by apply query_evidence_witness_answer|by apply query_witness_answer]).
  exists result. split; [done|]. split; [by apply witness_same|done].
Qed.

Lemma finesse_witness_shortest_witness : exists result, query_witness floor_query 1 = Ok result /\ witness_right (query_rules floor_query) (mkTargetPose (mkPose Two 0 0)) None result /\ cancels (fun n => (n =? 3)%nat) (query_witness_with_cancel floor_query 1 (fun n => (n =? 3)%nat)) (Ok result).
Proof. exact (finesse_witness_shortest floor_query 1 (mkTargetPose (mkPose Two 0 0)) None (fun n => (n =? 3)%nat) floor_query_ok eq_refl). Defined.

(** C10: [route_labels] gives for every target and each of the three classes of
    evidence the least number of inputs of a lock with evidence of that class,
    among all sequences of the rules without ceilings, and evidence that a
    sequence of that length really leaves; a label is missing exactly when no
    lock has evidence of its class. *)
Theorem finesse_route_labels_right q : query_ok q -> exists output, query_route_labels q = Ok output /\ Forall2 (fun t labels => Forall2 (label_right (query_rules q) t) classes labels) (query_targets q) output.
Proof.
  intros Hq. destruct (query_labels_answer q Hq) as (output & E & H). exists output. split; [done|]. eapply Forall2_impl; [exact H|]. intros t labels Hl. eapply Forall2_impl; [exact Hl|]. intros class o. by apply label_same.
Qed.

Lemma finesse_route_labels_right_witness : exists output, query_route_labels floor_query = Ok output /\ Forall2 (fun t labels => Forall2 (label_right (query_rules floor_query) t) classes labels) (query_targets floor_query) output.
Proof. exact (finesse_route_labels_right floor_query floor_query_ok). Defined.

Lemma witness_least k t wanted result : witness_right k t wanted result -> least_cost (places_wanted k (target_pose t) wanted) (witness_cost <$> result).
Proof.
  destruct result as [w|]; [|done]. intros (_ & Hw & (inputs & Ha & Hp) & Hc & Hmin). exists (length (witness_actions w)). split; [done|]. split; [|intros m Hm; specialize (Hmin m Hm); lia].
  exists inputs, (witness_evidence w). split; [rewrite Ha, length_app; cbn; lia|]. split; [done|]. destruct Hw as [->| ->]; auto.
Qed.

Lemma labels_least k t labels : Forall2 (label_right k t) classes labels -> least_cost (places_in k (target_pose t)) (best_of None (omap (fmap labeled_cost) labels)).
Proof.
  intros Hl. assert (forall n, places_in k (target_pose t) n -> exists z, z ∈ omap (fmap labeled_cost) labels /\ z <= Z.of_nat n) as Hcomplete.
  { intros n (actions & ev & Hn & Hp). destruct (Forall2_lookup_l _ _ _ _ _ Hl (classes_lookup (label_class ev))) as (o & Ho & [Hleast _]). destruct (labeled_cost <$> o) as [z|] eqn:Ez; cbn in Hleast; [|exfalso; apply (Hleast n); by exists actions, ev].
    exists z. split; [apply list_elem_of_omap; exists o; split; [by apply list_elem_of_lookup_2 in Ho|done]|]. destruct Hleast as (m & -> & _ & Hmin). assert (m <= n)%nat by (apply Hmin; by exists actions, ev). lia. }
  pose proof (best_of_spec (omap (fmap labeled_cost) labels)) as Hb. destruct (best_of None _) as [z|]; cbn [is_best least_cost] in *.
  - destruct Hb as [Hz Hmin]. apply list_elem_of_omap in Hz as (o & [j Ho]%list_elem_of_lookup & Ez). destruct (Forall2_lookup_r _ _ _ _ _ Hl Ho) as (class & _ & [Hleast _]). change (fmap labeled_cost o = Some z) in Ez. rewrite Ez in Hleast. destruct Hleast as (n & -> & (actions & ev & Hn & Hp & _) & _). exists n. split; [done|]. split; [by exists actions, ev|]. intros m (z & Hz & Hle)%Hcomplete. specialize (Hmin z Hz). lia.
  - intros n (z & Hz & _)%Hcomplete. rewrite Hb in Hz. by apply not_elem_of_nil in Hz.
Qed.

(** The methods agree although each has a search of its own: the cost of a
    target is the cost of its witness and the least of its three labels, and
    the cost of a lock with wanted evidence is the cost of the witness for
    that evidence. *)
Theorem finesse_answers_agree q i t evidence : query_ok q -> query_targets q !! i = Some t ->
  exists costs labels witness ls wanted, query_costs q = Ok costs /\ query_route_labels q = Ok labels /\ query_witness q (Z.of_nat i) = Ok witness /\ labels !! i = Some ls /\
    costs !! i = Some (witness_cost <$> witness) /\ costs !! i = Some (best_of None (omap (fmap labeled_cost) ls)) /\
    query_witness_for_terminal_evidence q (Z.of_nat i) evidence = Ok wanted /\ query_cost_for_terminal_evidence q (Z.of_nat i) evidence = Ok (witness_cost <$> wanted).
Proof.
  intros Hq Ht. assert (query_targets q !! Z.to_nat (Z.of_nat i) = Some t) as Ht' by (by rewrite Nat2Z.id). destruct (query_costs_answer q Hq) as (costs & Ec & Hc), (query_labels_answer q Hq) as (labels & El & Hl).
  destruct (query_witness_answer q Hq (Z.of_nat i) t (fun _ => false) Ht') as (w & Ew & Hw & _), (query_evidence_witness_answer q Hq (Z.of_nat i) t evidence (fun _ => false) Ht') as (w' & Ew' & Hw' & _).
  destruct (Forall2_lookup_l _ _ _ _ _ Hc Ht) as (o & Ho & Hleast), (Forall2_lookup_l _ _ _ _ _ Hl Ht) as (ls & Hls & Hright). exists costs, labels, w, ls, w'. split_and!; try done.
  - rewrite Ho. f_equal. apply (least_cost_unique _ _ _ Hleast). apply witness_least in Hw. by destruct (witness_cost <$> w) as [z|]; cbn in *; [destruct Hw as (n & ? & Hn & Hm); exists n; setoid_rewrite places_in_wanted|setoid_rewrite places_in_wanted].
  - rewrite Ho. f_equal. apply (least_cost_unique _ _ _ Hleast). by apply labels_least.
  - destruct (query_cost_answer q Hq (Z.of_nat i) t evidence Ht') as (o' & -> & Ho'). f_equal. apply (least_cost_unique _ _ _ Ho'). by apply witness_least.
Qed.

Lemma finesse_answers_agree_witness : exists costs labels witness ls wanted, query_costs floor_query = Ok costs /\ query_route_labels floor_query = Ok labels /\ query_witness floor_query 1 = Ok witness /\ labels !! 1%nat = Some ls /\
    costs !! 1%nat = Some (witness_cost <$> witness) /\ costs !! 1%nat = Some (best_of None (omap (fmap labeled_cost) ls)) /\
    query_witness_for_terminal_evidence floor_query 1 LabelNoRotation = Ok wanted /\ query_cost_for_terminal_evidence floor_query 1 LabelNoRotation = Ok (witness_cost <$> wanted).
Proof. exact (finesse_answers_agree floor_query 1 (mkTargetPose (mkPose Two 0 0)) LabelNoRotation floor_query_ok eq_refl). Defined.

(** [piece_can_spawn] decides whether a search starts at all: it holds
    exactly when the spawn pose fits under the rules, and when it does not,
    every method answers, without an error, that nothing can be placed. *)
Theorem finesse_spawn_check q : query_ok q ->
  piece_can_spawn (query_board q) (query_piece q) (query_spawn q) = pose_fits (query_rules q) (r_spawn (query_rules q)) /\
  (piece_can_spawn (query_board q) (query_piece q) (query_spawn q) = false ->
    query_costs q = Ok (replicate (length (query_targets q)) None) /\ query_route_labels q = Ok (replicate (length (query_targets q)) (replicate 3 None)) /\
    forall i t, query_targets q !! Z.to_nat i = Some t -> query_witness q i = Ok None).
Proof.
  intros Hq. assert (piece_can_spawn (query_board q) (query_piece q) (query_spawn q) = pose_fits (query_kernel q) (k_spawn (query_kernel q))) as E.
  { pose proof (query_kernel_ok q Hq) as Hk. pose proof (ceiling_bound q Hq) as Hc. rewrite <- (placeable_fits (query_kernel q) Hk). unfold kernel_placeable, piece_can_spawn. rewrite (kindex_in _ Hk) by (destruct (qo_spawn _ Hq); cbn in *; lia).
    rewrite (ko_shapes _ Hk). change (k_piece (query_kernel q)) with (query_piece q). unfold piece_shape. destruct (query_definition q) as (d & -> & _). reflexivity. }
  assert (pose_fits (query_rules q) (r_spawn (query_rules q)) = pose_fits (query_kernel q) (k_spawn (query_kernel q))) as ->.
  { symmetry. exact (fits_below _ (k_spawn (query_kernel q)) (proj1 (proj1 (ceiling_bound q Hq)))). }
  split; [done|]. rewrite E. intros Hb. unfold query_costs, query_route_labels, query_witness, query_witness_with_cancel. rewrite search_kernel_ok, Hb by done. split; [done|]. split; [done|]. intros i t Ht. by rewrite Ht.
Qed.

(** A board whose top rows block the spawn. *)
Definition blocked_query : FrozenFinesseQuery :=
  mkQuery (mkFinesseBoard (mkBoardSize 10 6) (mkBoard256Mask [Z.shiftl 1023 50; 0; 0; 0])) PT (mkSpawn CustomSpawn 3 5) srs_profile [mkTargetPose (mkPose Zero 3 0)].

Lemma finesse_spawn_check_witness : piece_can_spawn (query_board floor_query) PT (query_spawn floor_query) = pose_fits (query_rules floor_query) (r_spawn (query_rules floor_query)) /\ query_costs blocked_query = Ok [None].
Proof.
  split; [exact (proj1 (finesse_spawn_check floor_query floor_query_ok))|]. refine (proj1 (proj2 (finesse_spawn_check blocked_query _) eq_refl)).
  split; [cbn; lia|split; [by apply b256_ok_of|reflexivity]|cbn; lia|exact (qo_kicks _ floor_query_ok)|exact (qo_calm _ floor_query_ok)|cbn; unfold NO_TARGET, umax; lia].
Defined.
