(* ===== verification/QueueExpression.v ===== *)
(** * Queue pattern expressions

    [clearra-supply/src/queue/queue_pattern_expression.rs]: the language in
    which a user describes queues of pieces.  A text is a list of alternatives
    separated by [;]; an alternative is a sequence of atoms; an atom draws
    pieces without repetition from a set of choices.  One alternative is kept
    as its atoms when it has many sequences, and everything else is kept as an
    explicit list.  The text parsers of [queue/queue_parser.rs] are here too.

    Characters are Unicode scalar values.  The parts of the Unicode tables
    beyond ASCII that [char::is_whitespace] and [char::to_uppercase] consult
    are the parameters [unicode_space] and [unicode_upper].  A [usize] has 64
    bits. *)

From Stdlib Require Import ZArith Lia Ascii.
From stdpp Require Import prelude strings.
From S2P Require Import Prelude Words PcBoard AllocationLedger Pieces.

Local Open Scope Z_scope.

(** ** Characters *)

Definition ch (c : ascii) : Z := Z.of_nat (nat_of_ascii c).

(** [PieceKind::from_ascii] of any character. *)
Definition piece_from_char (c : Z) : Result UnknownPieceKind PieceKind :=
  if c <? 128 then PieceKind_from_ascii (ascii_of_nat (Z.to_nat c)) else Err UnknownPiece.

(** [char::is_ascii_digit] and the value of a digit. *)
Definition is_digit (c : Z) : bool := (48 <=? c) && (c <=? 57).
Definition digit_value (c : Z) : Z := c - 48.

(** [char::len_utf8]. *)
Definition len_utf8 (c : Z) : Z := if c <? 128 then 1 else if c <? 2048 then 2 else if c <? 65536 then 3 else 4.

Definition str_len (s : list Z) : Z := foldr (fun c n => len_utf8 c + n) 0 s.

Section Unicode.
Context (unicode_space : Z -> bool) (unicode_upper : Z -> list Z).

Definition is_whitespace (c : Z) : bool := if c <? 128 then (9 <=? c) && (c <=? 13) || (c =? 32) else unicode_space c.

Definition to_uppercase (c : Z) : list Z := if c <? 128 then [if (97 <=? c) && (c <=? 122) then c - 32 else c] else unicode_upper c.

(** The normalized text of an expression. *)
Definition normalize_source (source : list Z) : list Z := filter (fun c => negb (is_whitespace c) && negb (c =? ch ",") = true) source ≫= to_uppercase.
End Unicode.

(** ** Errors *)

Inductive QueuePatternParseError :=
| PatternEmpty
| EmptyAlternative
| EmptySequence
| EmptyGroup (index : Z)
| UnclosedGroup
| UnexpectedCharacter (index value : Z)
| MissingPermutationCount (index : Z)
| InvalidPermutationCount (index : Z)
| PermutationCountOutOfRange (index count available : Z)
| MixedSequenceLengths
| PatternLimitExceeded (limit : Z).

Inductive PatternFailure := PatternError (e : QueuePatternParseError) | PatternPanic.

#[export] Instance QueuePatternParseError_eq_dec : EqDecision QueuePatternParseError.
Proof. solve_decision. Defined.
#[export] Instance PatternFailure_eq_dec : EqDecision PatternFailure.
Proof. solve_decision. Defined.

Definition pattern_err {A} (e : QueuePatternParseError) : Result PatternFailure A := Err (PatternError e).

Definition or_panic {A} (o : option A) : Result PatternFailure A := match o with Some a => Ok a | None => Err PatternPanic end.

(** ** Storage *)

Record FactorizedPatternAtom := mkAtom { atom_choices : list PieceKind; atom_draw_count : Z; atom_variant_count : Z }.

Record FactorizedQueuePatternSpace := mkPatternSpace {
  fs_atoms : list FactorizedPatternAtom;
  fs_pattern_count : Z;
  fs_full_sequence_len : Z;
  fs_visible_sequence_len : Z
}.

Inductive QueuePatternSequenceStorage :=
| Explicit (sequences : list (list PieceKind))
| Factorized (space : FactorizedQueuePatternSpace).

Record QueuePatternExpression := mkExpression { qe_source : list Z; qe_sequences : QueuePatternSequenceStorage; qe_sequence_len : Z }.

Definition FACTORIZED_PATTERN_THRESHOLD : Z := 4096.

(** ** Atoms *)

(** The loop of [falling_factorial_checked]: [value - offset] panics when it
    would be negative, and the product is checked. *)
Fixpoint falling_loop (n : nat) (value offset product : Z) : Result PatternFailure (option Z) :=
  match n with
  | O => Ok (Some product)
  | S n =>
      let? factor := or_panic (checked_sub value offset) in
      match checked_mul 64 product factor with
      | None => Ok None
      | Some product => falling_loop n value (offset + 1) product
      end
  end.

Definition falling_factorial_checked (value count : Z) : Result PatternFailure (option Z) := falling_loop (Z.to_nat count) value 0 1.

(** [sort_unstable] and [dedup] of pieces: the pieces in the order of their
    kind, neighbours that are equal once. *)
Fixpoint insert_piece (p : PieceKind) (l : list PieceKind) : list PieceKind :=
  match l with
  | [] => [p]
  | q :: l => if (piece_index p <=? piece_index q)%nat then p :: q :: l else q :: insert_piece p l
  end.

Definition sort_pieces (l : list PieceKind) : list PieceKind := foldr insert_piece [] l.

Fixpoint dedup_pieces (l : list PieceKind) : list PieceKind :=
  match l with
  | [] => []
  | p :: l => match dedup_pieces l with
              | q :: l' => if bool_decide (p = q) then q :: l' else p :: q :: l'
              | [] => [p]
              end
  end.

Definition FactorizedPatternAtom_new (choices : list PieceKind) (draw_count index : Z) : Result PatternFailure FactorizedPatternAtom :=
  let choices := dedup_pieces (sort_pieces choices) in
  let available := Z.of_nat (length choices) in
  if (draw_count =? 0) || (available <? draw_count) then pattern_err (PermutationCountOutOfRange index draw_count available)
  else
    let? variants := falling_factorial_checked available draw_count in
    match variants with
    | None => pattern_err (PatternLimitExceeded (umax 64))
    | Some variant_count => Ok (mkAtom choices draw_count variant_count)
    end.

(** [copy_within(from..upto, at)] on an array. *)
Definition copy_within {A} (l : list A) (from upto at_ : nat) : Result PatternFailure (list A) :=
  if (from <=? upto)%nat && (upto <=? length l)%nat && (at_ + (upto - from) <=? length l)%nat
  then Ok (take at_ l ++ drop from (take upto l) ++ drop (at_ + (upto - from)) l) else Err PatternPanic.

(** [a / b] and [a % b], which panic for a zero divisor. *)
Definition div_rem (a b : Z) : Result PatternFailure (Z * Z) := if b =? 0 then Err PatternPanic else Ok (a / b, a mod b).

(** The loop of [append_variant] with [n] pieces to draw. *)
Fixpoint variant_loop (n : nat) (available : list PieceKind) (available_len rank : Z) (output : list PieceKind) : Result PatternFailure (list PieceKind) :=
  match n with
  | O => Ok output
  | S n =>
      let? fewer := or_panic (checked_sub available_len 1) in
      let? size := falling_factorial_checked fewer (Z.of_nat n) in
      let? branch_size := or_panic size in
      let? '(selected, rank) := div_rem rank branch_size in
      let? piece := or_panic (available !! Z.to_nat selected) in
      let? available := copy_within available (Z.to_nat (selected + 1)) (Z.to_nat available_len) (Z.to_nat selected) in
      variant_loop n available fewer rank (output ++ [piece])
  end.

Definition append_variant (a : FactorizedPatternAtom) (rank : Z) (output : list PieceKind) : Result PatternFailure (list PieceKind) :=
  if (7 <? length (atom_choices a))%nat then Err PatternPanic
  else variant_loop (Z.to_nat (atom_draw_count a)) (atom_choices a ++ replicate (7 - length (atom_choices a)) PI) (Z.of_nat (length (atom_choices a))) rank output.

(** ** Parsing *)

(** The digits a list of characters starts with. *)
Fixpoint leading_digits (l : list Z) : list Z :=
  match l with
  | c :: l => if is_digit c then c :: leading_digits l else []
  | [] => []
  end.

(** [str::parse::<usize>] of digits. *)
Definition parse_usize (digits : list Z) : option Z :=
  foldl (fun value c => value ← value; product ← checked_mul 64 value 10; checked_add 64 product (digit_value c)) (Some 0) digits.

Definition parse_count (characters : list Z) (cursor index : nat) : Result PatternFailure (Z * nat) :=
  let digits := leading_digits (drop cursor characters) in
  match digits with
  | [] => pattern_err (MissingPermutationCount (Z.of_nat index))
  | _ => match parse_usize digits with
         | Some count => Ok (count, (cursor + length digits)%nat)
         | None => pattern_err (InvalidPermutationCount (Z.of_nat index))
         end
  end.

(** The loop of [parse_group] over the characters from the cursor on; the flag
    tells whether it ended at a bracket. *)
Fixpoint group_loop (rest : list Z) (cursor : nat) (choices : list PieceKind) : Result PatternFailure (list PieceKind * nat * bool) :=
  match rest with
  | [] => Ok (choices, cursor, false)
  | value :: rest =>
      if value =? ch "]" then Ok (choices, S cursor, true)
      else
        match piece_from_char value with
        | Err _ => pattern_err (UnexpectedCharacter (Z.of_nat cursor) value)
        | Ok piece => group_loop rest (S cursor) (if bool_decide (piece ∈ choices) then choices else choices ++ [piece])
        end
  end.

Definition parse_group (characters : list Z) (cursor : nat) : Result PatternFailure (list PieceKind * nat) :=
  let start := cursor in
  let cursor := S cursor in
  let complement := bool_decide (characters !! cursor = Some (ch "^")) in
  let cursor := if complement then S cursor else cursor in
  let? '(choices, cursor, _) := group_loop (drop cursor characters) cursor [] in
  if (length characters <? cursor)%nat || negb (bool_decide (characters !! (cursor - 1)%nat = Some (ch "]"))) then pattern_err UnclosedGroup
  else
    let choices := if complement then filter (fun p => p ∉ choices) STANDARD_TETROMINOES else choices in
    match sort_pieces choices with
    | [] => pattern_err (EmptyGroup (Z.of_nat start))
    | choices => Ok (choices, cursor)
    end.

(** The choices of an atom that is neither a piece nor a bag, whether it takes
    a count, and the cursor after it. *)
Definition parse_choices (characters : list Z) (start : nat) (value : Z) : Result PatternFailure (list PieceKind * bool * nat) :=
  if value =? ch "*" then Ok (STANDARD_TETROMINOES, false, S start)
  else if value =? ch "[" then let? '(choices, cursor) := parse_group characters start in Ok (choices, true, cursor)
  else pattern_err (UnexpectedCharacter (Z.of_nat start) value).

Definition digit_at (characters : list Z) (cursor : nat) : bool := match characters !! cursor with Some c => is_digit c | None => false end.

Definition parse_factorized_atom (characters : list Z) (cursor : nat) : Result PatternFailure (FactorizedPatternAtom * nat) :=
  let start := cursor in
  let? value := or_panic (characters !! start) in
  match piece_from_char value with
  | Ok piece => let? atom := FactorizedPatternAtom_new [piece] 1 (Z.of_nat start) in Ok (atom, S cursor)
  | Err _ =>
      if value =? ch "P" then
        let? '(count, cursor) := parse_count characters (S cursor) start in
        let? atom := FactorizedPatternAtom_new STANDARD_TETROMINOES count (Z.of_nat start) in
        Ok (atom, cursor)
      else
        let? '(choices, accepts_count_suffix, cursor) := parse_choices characters start value in
        let? '(draw_count, has_explicit_suffix, cursor) :=
          (if bool_decide (characters !! cursor = Some (ch "!")) then Ok (Z.of_nat (length choices), true, S cursor)
           else if accepts_count_suffix && digit_at characters cursor then
             let? '(count, cursor) := parse_count characters cursor start in Ok (count, true, cursor)
           else Ok (1, false, cursor)) in
        if negb has_explicit_suffix && bool_decide (characters !! cursor = Some (ch "P")) then pattern_err (UnexpectedCharacter (Z.of_nat cursor) (ch "P"))
        else
          let? atom := FactorizedPatternAtom_new choices draw_count (Z.of_nat start) in
          Ok (atom, cursor)
  end.

(** [while cursor < characters.len()]; every atom takes a character. *)
Fixpoint parse_space_loop (fuel : nat) (characters : list Z) (limit : Z) (cursor : nat) (atoms : list FactorizedPatternAtom) (pattern_count sequence_len : Z)
  : Result PatternFailure (list FactorizedPatternAtom * Z * Z) :=
  if negb (cursor <? length characters)%nat then Ok (atoms, pattern_count, sequence_len)
  else
    match fuel with
    | O => Err PatternPanic
    | S fuel =>
        let? '(atom, cursor) := parse_factorized_atom characters cursor in
        match checked_mul 64 pattern_count (atom_variant_count atom) with
        | None => pattern_err (PatternLimitExceeded limit)
        | Some pattern_count =>
            if limit <? pattern_count then pattern_err (PatternLimitExceeded limit)
            else
              match checked_add 64 sequence_len (atom_draw_count atom) with
              | None => pattern_err (PatternLimitExceeded limit)
              | Some sequence_len => parse_space_loop fuel characters limit cursor (atoms ++ [atom]) pattern_count sequence_len
              end
        end
    end.

Definition FactorizedQueuePatternSpace_parse (source : list Z) (limit : Z) : Result PatternFailure FactorizedQueuePatternSpace :=
  let? '(atoms, pattern_count, sequence_len) := parse_space_loop (length source) source limit 0 [] 1 0 in
  match atoms with
  | [] => pattern_err EmptySequence
  | _ => Ok (mkPatternSpace atoms pattern_count sequence_len sequence_len)
  end.

Definition space_prefix (s : FactorizedQueuePatternSpace) (sequence_len : Z) : FactorizedQueuePatternSpace :=
  mkPatternSpace (fs_atoms s) (fs_pattern_count s) (fs_full_sequence_len s) (Z.min sequence_len (fs_full_sequence_len s)).

(** The loop of [write_sequence], with its early end at the visible length. *)
Fixpoint sequence_loop (atoms : list FactorizedPatternAtom) (visible remaining_index suffix_count : Z) (output : list PieceKind) : Result PatternFailure (list PieceKind) :=
  match atoms with
  | [] => Ok output
  | atom :: atoms =>
      let? '(suffix_count, _) := div_rem suffix_count (atom_variant_count atom) in
      let? '(variant, remaining_index) := div_rem remaining_index suffix_count in
      let? output := append_variant atom variant output in
      if visible <=? Z.of_nat (length output) then Ok (take (Z.to_nat visible) output)
      else sequence_loop atoms visible remaining_index suffix_count output
  end.

Definition space_sequence (s : FactorizedQueuePatternSpace) (index : Z) : Result PatternFailure (list PieceKind) :=
  if negb (index <? fs_pattern_count s) then Err PatternPanic
  else sequence_loop (fs_atoms s) (fs_visible_sequence_len s) index (fs_pattern_count s) [].

(** ** Alternatives *)

Fixpoint scan_depth (source : list Z) (index depth : Z) : Result PatternFailure Z :=
  match source with
  | [] => Ok depth
  | c :: source =>
      if c =? ch "[" then scan_depth source (index + len_utf8 c) (saturating_add 64 depth 1)
      else if c =? ch "]" then
        if depth =? 0 then pattern_err (UnexpectedCharacter index (ch "]")) else scan_depth source (index + len_utf8 c) (depth - 1)
      else scan_depth source (index + len_utf8 c) depth
  end.

(** [str::split]. *)
Fixpoint split_on (separator : Z) (source : list Z) : list (list Z) :=
  match source with
  | [] => [[]]
  | c :: source =>
      if c =? separator then [] :: split_on separator source
      else match split_on separator source with
           | part :: parts => (c :: part) :: parts
           | [] => [[c]]
           end
  end.

Definition split_alternatives (source : list Z) : Result PatternFailure (list (list Z)) :=
  let? depth := scan_depth source 0 0 in
  if negb (depth =? 0) then pattern_err UnclosedGroup
  else
    let alternatives := split_on (ch ";") source in
    if existsb (fun alternative => bool_decide (alternative = [])) alternatives then pattern_err EmptyAlternative else Ok alternatives.

(** ** Explicit expansion *)

(** [append_permutations] with [n] pieces still to choose; the flags and the
    prefix are restored after each call. *)
Fixpoint append_permutations (n : nat) (choices : list PieceKind) (prefix : list PieceKind) (used : list bool) (output : list (list PieceKind)) : list (list PieceKind) :=
  match n with
  | O => output ++ [prefix]
  | S n =>
      foldl (fun output '(index, piece) =>
          if default true (used !! index) then output
          else append_permutations n choices (prefix ++ [piece]) (<[index := true]> used) output)
        output (imap pair choices)
  end.

Definition permutations (choices : list PieceKind) (count index : Z) : Result PatternFailure (list (list PieceKind)) :=
  if (count =? 0) || (Z.of_nat (length choices) <? count) then pattern_err (PermutationCountOutOfRange index count (Z.of_nat (length choices)))
  else Ok (append_permutations (Z.to_nat count) choices [] (replicate (length choices) false) []).

Definition parse_atom (characters : list Z) (cursor : nat) : Result PatternFailure (list (list PieceKind) * nat) :=
  let start := cursor in
  let? value := or_panic (characters !! start) in
  match piece_from_char value with
  | Ok piece => Ok ([[piece]], S cursor)
  | Err _ =>
      if value =? ch "P" then
        let? '(count, cursor) := parse_count characters (S cursor) start in
        let? sequences := permutations STANDARD_TETROMINOES count (Z.of_nat start) in
        Ok (sequences, cursor)
      else
        let? '(choices, accepts_count_suffix, cursor) := parse_choices characters start value in
        if bool_decide (characters !! cursor = Some (ch "!")) then
          let? sequences := permutations choices (Z.of_nat (length choices)) (Z.of_nat start) in Ok (sequences, S cursor)
        else if accepts_count_suffix && digit_at characters cursor then
          let? '(count, cursor) := parse_count characters cursor start in
          let? sequences := permutations choices count (Z.of_nat start) in
          Ok (sequences, cursor)
        else if bool_decide (characters !! cursor = Some (ch "P")) then pattern_err (UnexpectedCharacter (Z.of_nat cursor) (ch "P"))
        else Ok ((fun piece => [piece]) <$> choices, cursor)
  end.

(** The sequences followed by those of an atom, up to the limit. *)
Definition extend_sequences (limit : Z) (sequences atom : list (list PieceKind)) : Result PatternFailure (list (list PieceKind)) :=
  try_fold (fun next prefix =>
      try_fold (fun next suffix => if limit <=? Z.of_nat (length next) then pattern_err (PatternLimitExceeded limit) else Ok (next ++ [prefix ++ suffix])) next atom)
    [] sequences.

Fixpoint expand_loop (fuel : nat) (characters : list Z) (limit : Z) (cursor : nat) (sequences : list (list PieceKind)) : Result PatternFailure (list (list PieceKind)) :=
  if negb (cursor <? length characters)%nat then Ok sequences
  else
    match fuel with
    | O => Err PatternPanic
    | S fuel =>
        let? '(atom, cursor) := parse_atom characters cursor in
        let? sequences := extend_sequences limit sequences atom in
        expand_loop fuel characters limit cursor sequences
    end.

Definition expand_alternative (source : list Z) (limit : Z) : Result PatternFailure (list (list PieceKind)) := expand_loop (length source) source limit 0 [[]].

(** The order of [Vec<PieceKind>] and a [BTreeSet] as its increasing list. *)
Fixpoint seq_compare (v w : list PieceKind) : comparison :=
  match v, w with
  | [], [] => Eq
  | [], _ :: _ => Lt
  | _ :: _, [] => Gt
  | p :: v, q :: w => match Nat.compare (piece_index p) (piece_index q) with Eq => seq_compare v w | c => c end
  end.

Fixpoint set_insert (v : list PieceKind) (l : list (list PieceKind)) : list (list PieceKind) :=
  match l with
  | [] => [v]
  | w :: l => match seq_compare v w with Lt => v :: w :: l | Eq => w :: l | Gt => w :: set_insert v l end
  end.

(** ** Expressions *)

Definition storage_len (s : QueuePatternSequenceStorage) : Z :=
  match s with Explicit sequences => Z.of_nat (length sequences) | Factorized space => fs_pattern_count space end.

Definition storage_sequence_at (s : QueuePatternSequenceStorage) (index : Z) : Result PatternFailure (list PieceKind) :=
  match s with Explicit sequences => or_panic (sequences !! Z.to_nat index) | Factorized space => space_sequence space index end.

Definition has_mixed_sequence_lengths (s : QueuePatternSequenceStorage) (expected : Z) : bool :=
  match s with
  | Explicit sequences => existsb (fun sequence => negb (Z.of_nat (length sequence) =? expected)) sequences
  | Factorized space => negb (fs_visible_sequence_len space =? expected)
  end.

(** The sequences of several alternatives. *)
Definition union_alternatives (limit : Z) (alternatives : list (list Z)) : Result PatternFailure (list (list PieceKind)) :=
  try_fold (fun unique alternative =>
      let? expanded := expand_alternative alternative limit in
      try_fold (fun unique sequence =>
          let unique := set_insert sequence unique in
          if limit <? Z.of_nat (length unique) then pattern_err (PatternLimitExceeded limit) else Ok unique) unique expanded)
    [] alternatives.

Definition parse_storage (limit : Z) (alternatives : list (list Z)) : Result PatternFailure (QueuePatternSequenceStorage * Z) :=
  match alternatives with
  | [alternative] =>
      let? space := FactorizedQueuePatternSpace_parse alternative limit in
      if FACTORIZED_PATTERN_THRESHOLD <? fs_pattern_count space then Ok (Factorized space, fs_visible_sequence_len space)
      else
        let? sequences := try_fold (fun sequences index => let? sequence := space_sequence space index in Ok (sequences ++ [sequence])) [] (seqZ 0 (fs_pattern_count space)) in
        Ok (Explicit sequences, fs_visible_sequence_len space)
  | _ =>
      let? sequences := union_alternatives limit alternatives in
      match sequences with
      | [] => pattern_err PatternEmpty
      | first :: _ => Ok (Explicit sequences, Z.of_nat (length first))
      end
  end.

Section Expressions.
Context (unicode_space : Z -> bool) (unicode_upper : Z -> list Z).

Definition QueuePatternExpression_parse (source : list Z) (max_patterns : Z) : Result PatternFailure QueuePatternExpression :=
  let normalized := normalize_source unicode_space unicode_upper source in
  match normalized with
  | [] => pattern_err PatternEmpty
  | _ =>
      let limit := if max_patterns =? 0 then umax 64 else max_patterns in
      let? alternatives := split_alternatives normalized in
      let? '(sequences, sequence_len) := parse_storage limit alternatives in
      if sequence_len =? 0 then pattern_err EmptySequence
      else if has_mixed_sequence_lengths sequences sequence_len then pattern_err MixedSequenceLengths
      else Ok (mkExpression normalized sequences sequence_len)
  end.

(** The counts of the bags of a text [P7...P7Pn].  Their sum is not
    truncated: it passes [2^64] only for a text of more than [2^61]
    characters. *)
Fixpoint bag_counts (fuel : nat) (characters : list Z) (counts : list Z) : option (list Z) :=
  match characters with
  | [] => Some counts
  | c :: characters =>
      match fuel with
      | O => None
      | S fuel =>
          if negb (c =? ch "P") then None
          else
            let digits := leading_digits characters in
            match digits with
            | [] => None
            | _ =>
                count ← parse_usize digits;
                if (1 <=? count) && (count <=? 7) then bag_counts fuel (drop (length digits) characters) (counts ++ [count]) else None
            end
      end
  end.

Definition standard_7_bag_with_optional_leading_piece (source : list Z) : option (option PieceKind * Z) :=
  let normalized := normalize_source unicode_space unicode_upper source in
  match normalized with
  | [] => None
  | c :: rest =>
      '(leading_piece, rest) ← (if c =? ch "P" then Some (None, normalized) else match piece_from_char c with Ok piece => Some (Some piece, rest) | Err _ => None end);
      counts ← bag_counts (length rest) rest [];
      match counts with
      | [] => None
      | _ => if existsb (fun count => negb (count =? 7)) (take (length counts - 1) counts) then None else Some (leading_piece, foldl Z.add 0 counts)
      end
  end.

Definition standard_7_bag_draw_count (source : list Z) : option Z :=
  '(prefix, count) ← standard_7_bag_with_optional_leading_piece source; if bool_decide (prefix = None) then Some count else None.
End Expressions.

Definition sequence_at (e : QueuePatternExpression) (index : Z) : Result PatternFailure (list PieceKind) := storage_sequence_at (qe_sequences e) index.

(** The buffer is cleared first, so its contents do not matter. *)
Definition write_sequence_at (e : QueuePatternExpression) (index : Z) (output : list PieceKind) : Result PatternFailure (list PieceKind) :=
  let output := take 0 output in
  match qe_sequences e with
  | Explicit sequences => let? sequence := or_panic (sequences !! Z.to_nat index) in Ok (output ++ sequence)
  | Factorized space => space_sequence space index
  end.

Definition first_sequence (e : QueuePatternExpression) : Result PatternFailure (list PieceKind) := sequence_at e 0.

Definition explicit_sequences (e : QueuePatternExpression) : option (list (list PieceKind)) := match qe_sequences e with Explicit sequences => Some sequences | Factorized _ => None end.

Definition is_factorized (e : QueuePatternExpression) : bool := match qe_sequences e with Factorized _ => true | Explicit _ => false end.

Definition factorized_shape (e : QueuePatternExpression) : option FactorizedQueuePatternSpace := match qe_sequences e with Factorized space => Some space | Explicit _ => None end.

Definition pattern_count (e : QueuePatternExpression) : Z := storage_len (qe_sequences e).

(** The pieces an atom draws: no piece twice, each one of the choices. *)
Fixpoint draws_match (choices : list PieceKind) (draws : list PieceKind) (seen : Z) : bool :=
  match draws with
  | [] => true
  | piece :: draws =>
      let bit := shl 8 1 (Z.of_nat (piece_index piece)) in
      if negb (Z.land seen bit =? 0) || negb (bool_decide (piece ∈ choices)) then false else draws_match choices draws (Z.lor seen bit)
  end.

Fixpoint atoms_match (atoms : list FactorizedPatternAtom) (sequence : list PieceKind) (cursor : Z) : bool :=
  match atoms with
  | [] => cursor =? Z.of_nat (length sequence)
  | atom :: atoms =>
      let end_ := cursor + atom_draw_count atom in
      if Z.of_nat (length sequence) <? end_ then false
      else draws_match (atom_choices atom) (drop (Z.to_nat cursor) (take (Z.to_nat end_) sequence)) 0 && atoms_match atoms sequence end_
  end.

Definition matches_sequence (e : QueuePatternExpression) (sequence : list PieceKind) : bool :=
  if negb (Z.of_nat (length sequence) =? qe_sequence_len e) then false
  else
    match qe_sequences e with
    | Explicit sequences => existsb (fun candidate => bool_decide (candidate = sequence)) sequences
    | Factorized space => atoms_match (fs_atoms space) sequence 0
    end.

(** [&sequence[..n]]. *)
Definition slice_to (sequence : list PieceKind) (n : Z) : Result PatternFailure (list PieceKind) :=
  if Z.of_nat (length sequence) <? n then Err PatternPanic else Ok (take (Z.to_nat n) sequence).

Definition expression_prefix (e : QueuePatternExpression) (sequence_len : Z) : Result PatternFailure QueuePatternExpression :=
  let sequence_len := Z.min sequence_len (qe_sequence_len e) in
  let? sequences :=
    match qe_sequences e with
    | Explicit sequences => let? sequences := try_fold (fun acc sequence => let? s := slice_to sequence sequence_len in Ok (acc ++ [s])) [] sequences in Ok (Explicit sequences)
    | Factorized space => Ok (Factorized (space_prefix space sequence_len))
    end in
  Ok (mkExpression (qe_source e) sequences sequence_len).

(** ** Memory

    Sizes in bytes of [Vec<PieceKind>], [PieceKind] and
    [FactorizedPatternAtom], and the capacities of the buffers, are given by
    the caller. *)

Section Memory.
Context (reserve : Z -> Z -> option Z) (vec_size piece_size atom_size : Z).

Definition checked_item_bytes (count item_size : Z) : option Z := checked_mul 128 count item_size.

Definition add_capacity_bytes (item_size : Z) (bytes : option Z) (capacity : Z) : option Z :=
  bytes ← bytes; product ← checked_item_bytes capacity item_size; checked_add 128 bytes product.

(** [checked_retained_capacity_bytes], from the capacity of the text, of the
    outer buffer and of each inner one. *)
Definition retained_capacity_bytes (e : QueuePatternExpression) (source_capacity outer_capacity : Z) (inner_capacities : list Z) : option Z :=
  let outer_size := match qe_sequences e with Explicit _ => vec_size | Factorized _ => atom_size end in
  foldl (add_capacity_bytes piece_size) (add_capacity_bytes outer_size (Some source_capacity) outer_capacity) inner_capacities.

Definition checked_finite_duplicate_requested_bytes (e : QueuePatternExpression) (visible_sequence_len : Z) : option Z :=
  if qe_sequence_len e <? visible_sequence_len then None
  else
    let bytes := Some (str_len (qe_source e)) in
    match qe_sequences e with
    | Explicit sequences =>
        foldl (add_capacity_bytes piece_size) (add_capacity_bytes vec_size bytes (Z.of_nat (length sequences)))
          ((fun sequence => Z.min visible_sequence_len (Z.of_nat (length sequence))) <$> sequences)
    | Factorized space =>
        foldl (add_capacity_bytes piece_size) (add_capacity_bytes atom_size bytes (Z.of_nat (length (fs_atoms space))))
          ((fun atom => Z.of_nat (length (atom_choices atom))) <$> fs_atoms space)
    end.

(** Steps that allocate within a transaction. *)
Definition Allocates (A : Type) : Type := FiniteSupplyAllocationTransaction -> FiniteSupplyAllocationTransaction * Result FiniteSupplyAllocationError A.

Definition then_allocate {A B} (m : Allocates A) (f : A -> Allocates B) : Allocates B :=
  fun t => let '(t, r) := m t in match r with Ok a => f a t | Err e => (t, Err e) end.

Definition allocated {A} (a : A) : Allocates A := fun t => (t, Ok a).

Fixpoint allocate_each {A B} (f : A -> Allocates B) (l : list A) : Allocates (list B) :=
  match l with
  | [] => allocated []
  | a :: l => then_allocate (f a) (fun b => then_allocate (allocate_each f l) (fun bs => allocated (b :: bs)))
  end.

(** [debug_assert!(visible_sequence_len <= self.sequence_len)] is not part of
    a release build. *)
Definition duplicate_finite (e : QueuePatternExpression) (visible_sequence_len : Z) : Allocates QueuePatternExpression :=
  then_allocate (try_string_with_capacity reserve (str_len (qe_source e))) (fun _ =>
    then_allocate
      (match qe_sequences e with
       | Explicit sequences =>
           then_allocate (try_vec_with_capacity reserve vec_size (Z.of_nat (length sequences))) (fun _ =>
             then_allocate (allocate_each (fun sequence =>
                 let retained_len := Z.min visible_sequence_len (Z.of_nat (length sequence)) in
                 then_allocate (try_vec_with_capacity reserve piece_size retained_len) (fun _ => allocated (take (Z.to_nat retained_len) sequence))) sequences)
               (fun sequences => allocated (Explicit sequences)))
       | Factorized space =>
           then_allocate (try_vec_with_capacity reserve atom_size (Z.of_nat (length (fs_atoms space)))) (fun _ =>
             then_allocate (allocate_each (fun atom =>
                 then_allocate (try_vec_with_capacity reserve piece_size (Z.of_nat (length (atom_choices atom)))) (fun _ => allocated atom)) (fs_atoms space))
               (fun atoms => allocated (Factorized (mkPatternSpace atoms (fs_pattern_count space) (fs_full_sequence_len space) visible_sequence_len))))
       end)
      (fun sequences => allocated (mkExpression (qe_source e) sequences visible_sequence_len))).
End Memory.

(** ** Plain queues *)

Inductive QueueParseError := UnknownQueuePiece (index value : Z).

(** The characters skipped between pieces. *)
Definition queue_separator (unicode_space : Z -> bool) (value : Z) : bool := is_whitespace unicode_space value || existsb (fun c => value =? ch c) [","; "-"; "_"; "|"]%char.

(** [parse_piece_sequence]: separators are skipped; the index counts
    characters. *)
Fixpoint piece_sequence_loop (unicode_space : Z -> bool) (input : list Z) (index : Z) (pieces : list PieceKind) : Result QueueParseError (list PieceKind) :=
  match input with
  | [] => Ok pieces
  | value :: input =>
      if queue_separator unicode_space value then piece_sequence_loop unicode_space input (index + 1) pieces
      else
        match piece_from_char value with
        | Err _ => Err (UnknownQueuePiece index value)
        | Ok piece => piece_sequence_loop unicode_space input (index + 1) (pieces ++ [piece])
        end
  end.

Definition parse_piece_sequence (unicode_space : Z -> bool) (input : list Z) : Result QueueParseError (list PieceKind) := piece_sequence_loop unicode_space input 0 [].
