(* ===== verification/QueueLanguage.v ===== *)
(** * The sequences of a queue pattern expression

    The sequences an atom draws, and those of a list of atoms, as lists in
    lexicographic order ([draws], [atoms_words]).  Ranked access, the explicit
    expansion and the test of a single sequence are shown to agree with
    them. *)

From Stdlib Require Import ZArith Lia Ascii Sorting.Sorted.
From stdpp Require Import prelude strings.
From S2P Require Import Prelude Words PcBoard AllocationLedger Pieces SupplyAutomaton BagWindows BagSequences QueueExpression.

Local Open Scope Z_scope.

(** ** Draws without repetition *)

(** The pieces that may come first, with the choices left after each. *)
Definition removals (c : list PieceKind) : list (PieceKind * list PieceKind) := imap (fun i p => (p, delete i c)) c.

Definition draws (c : list PieceKind) (n : nat) : list (list PieceKind) := words removals n c.

Fixpoint falling (v n : nat) : nat := match n with O => 1 | S n => v * falling (v - 1) n end.

Lemma bind_uniform_length {A B} (f : A -> list B) l m : Forall (fun a => length (f a) = m) l -> length (l ≫= f) = (length l * m)%nat.
Proof. induction 1 as [|a l Ha _ IH]; [done|]. cbn. rewrite length_app. lia. Qed.

Lemma list_bind_assoc {A B C} (f : A -> list B) (g : B -> list C) l : (l ≫= f) ≫= g = l ≫= fun a => f a ≫= g.
Proof. induction l as [|a l IH]; [done|]. cbn [mbind list_bind]. rewrite bind_app. f_equal. exact IH. Qed.

Lemma bind_uniform_lookup {A B} (f : A -> list B) l m i j a : Forall (fun a => length (f a) = m) l -> l !! i = Some a -> (j < m)%nat -> (l ≫= f) !! (i * m + j)%nat = f a !! j.
Proof.
  intros Hl. revert i. induction Hl as [|b l Hb _ IH]; intros i Hi Hj; [done|]. destruct i as [|i]; cbn [mbind list_bind].
  - injection Hi as ->. rewrite Nat.mul_0_l, Nat.add_0_l, lookup_app_l by lia. done.
  - cbn in Hi. rewrite lookup_app_r by lia. replace (S i * m + j - length (f b))%nat with (i * m + j)%nat by lia. by apply IH.
Qed.

Lemma removals_elem c p c' : (p, c') ∈ removals c <-> exists i, c !! i = Some p /\ c' = delete i c.
Proof. unfold removals. rewrite elem_of_lookup_imap. split; [intros (i & x & [= -> ->] & Hx); by exists i|]. intros (i & Hi & ->). by exists i, p. Qed.

Lemma draws_length c n : length (draws c n) = falling (length c) n.
Proof.
  revert c. induction n as [|n IH]; intros c; [done|]. unfold draws. cbn [words falling]. rewrite (bind_uniform_length _ _ (falling (length c - 1) n)); [unfold removals; by rewrite length_imap|].
  apply Forall_forall. intros [p c'] (i & Hi & ->)%removals_elem. cbn [fst snd]. rewrite length_fmap. fold (draws (delete i c) n). rewrite IH. f_equal. rewrite length_delete; [done|by eexists].
Qed.

Lemma draws_elem c n w : NoDup c -> w ∈ draws c n <-> length w = n /\ NoDup w /\ w ⊆ c.
Proof.
  revert c w. induction n as [|n IH]; intros c w Hc; unfold draws; cbn [words].
  - rewrite list_elem_of_singleton. split; [intros ->; repeat split; [constructor|set_solver]|]. intros [H _]. by destruct w.
  - rewrite list_elem_of_bind. split.
    + intros ([p c'] & (v & -> & Hv)%list_elem_of_fmap & (i & Hi & ->)%removals_elem). cbn [fst snd] in *.
      pose proof (delete_Permutation c i p Hi) as Hp. rewrite Hp in Hc. apply NoDup_cons in Hc as [Hn Hc]. apply IH in Hv as (<- & Hv & Hs); [|done].
      split; [done|]. split; [constructor; [by intros ?%Hs|done]|]. rewrite Hp. set_solver.
    + intros (Hl & Hw & Hs). destruct w as [|p v]; [done|]. assert (p ∈ c) as [i Hi]%list_elem_of_lookup by (apply Hs; by left). exists (p, delete i c). split; [|apply removals_elem; by exists i].
      pose proof (delete_Permutation c i p Hi) as Hp. apply NoDup_cons in Hw as [Hn Hw]. apply list_elem_of_fmap. exists v. split; [done|]. apply IH; [rewrite Hp in Hc; by apply NoDup_cons in Hc as [_ Hc]|].
      split; [by injection Hl|]. split; [done|]. intros x Hx. assert (x ∈ c) as Hxc by (apply Hs; by right). rewrite Hp in Hxc. apply elem_of_cons in Hxc as [->|]; done.
Qed.

(** Choices in increasing order. *)
Definition increasing (c : list PieceKind) : Prop := StronglySorted (fun p q => (piece_index p < piece_index q)%nat) c.

Lemma draws_sorted c n : increasing c -> StronglySorted lex_lt (draws c n).
Proof.
  intros Hc. apply (words_sorted removals _ increasing); [|done]. clear c Hc. intros c Hc. split.
  - assert (forall l k c', increasing l -> StronglySorted (fun ps qt : PieceKind * list PieceKind => piece_index (fst ps) < piece_index (fst qt))%nat (imap (fun i p => (p, delete (k + i)%nat c')) l)) as H.
    { intros l. induction l as [|p l IH]; intros k c' Hl; [constructor|]. apply StronglySorted_inv in Hl as [Hl Hp]. cbn [imap]. constructor.
      - rewrite (imap_ext _ (fun i p => (p, delete (S k + i)%nat c'))) by (intros; unfold compose; do 2 f_equal; lia). by apply IH.
      - apply Forall_forall. intros [q c2] (i & q' & [= -> _] & Hq)%elem_of_lookup_imap. rewrite Forall_forall in Hp. apply Hp. by apply list_elem_of_lookup_2 in Hq. }
    exact (H c 0%nat c Hc).
  - apply Forall_forall. intros [p c'] (i & Hi & ->)%removals_elem. cbn [snd]. unfold increasing in *. clear p Hi. revert i. induction Hc as [|p l Hl IH Hp]; intros i; [constructor|]. destruct i as [|i]; cbn; [done|]. constructor; [apply IH|]. apply Forall_delete. done.
Qed.

(** ** Ranked variants *)

Lemma falling_pos v n : (n <= v)%nat -> (0 < falling v n)%nat.
Proof. revert v. induction n as [|n IH]; intros v Hv; cbn; [lia|]. specialize (IH (v - 1)%nat). nia. Qed.

Lemma falling_checked v n : (n <= v <= 7)%nat -> falling_factorial_checked (Z.of_nat v) (Z.of_nat n) = Ok (Some (Z.of_nat (falling v n))).
Proof. intros H. do 8 (destruct v as [|v]; [do 8 (destruct n as [|n]; [first [reflexivity|lia]|]); lia|]). lia. Qed.

Lemma removals_lookup c i p : c !! i = Some p -> removals c !! i = Some (p, delete i c).
Proof. intros H. unfold removals. by rewrite list_lookup_imap, H. Qed.

(** A draw at a rank starts with the choice the rank selects. *)
Lemma draws_lookup c n i j p : c !! i = Some p -> (j < falling (length c - 1) n)%nat ->
  draws c (S n) !! (i * falling (length c - 1) n + j)%nat = cons p <$> draws (delete i c) n !! j.
Proof.
  intros Hi Hj. unfold draws at 1. cbn [words]. rewrite (bind_uniform_lookup _ _ (falling (length c - 1) n) i j (p, delete i c)); [cbn [fst snd]; by rewrite list_lookup_fmap| |by apply removals_lookup|done].
  apply Forall_forall. intros [q c'] (k & Hk & ->)%removals_elem. cbn [fst snd]. rewrite length_fmap. fold (draws (delete k c) n). rewrite draws_length. f_equal. rewrite length_delete; [done|by eexists].
Qed.

Lemma copy_within_delete (c junk : list PieceKind) i : (i < length c)%nat ->
  exists junk', copy_within (c ++ junk) (S i) (length c) i = Ok (delete i c ++ junk').
Proof.
  intros Hi. unfold copy_within. rewrite length_app. rewrite !(proj2 (Nat.leb_le _ _)) by lia. cbn [andb]. rewrite take_app_length. rewrite take_app_le by lia.
  rewrite delete_take_drop. eexists. by rewrite <- app_assoc.
Qed.

Lemma variant_loop_draws n c junk rank output : (n <= length c <= 7)%nat -> 0 <= rank < Z.of_nat (falling (length c) n) ->
  exists w, draws c n !! Z.to_nat rank = Some w /\ variant_loop n (c ++ junk) (Z.of_nat (length c)) rank output = Ok (output ++ w).
Proof.
  revert c junk rank output. induction n as [|n IH]; intros c junk rank output Hc Hr.
  - exists []. cbn in Hr. replace rank with 0 by lia. split; [done|]. cbn. by rewrite app_nil_r.
  - cbn [falling] in Hr. set (b := falling (length c - 1) n) in *. pose proof (falling_pos (length c - 1) n ltac:(lia)) as Hb. fold b in Hb.
    assert (Z.to_nat rank / b < length c)%nat as Hi by (apply Nat.Div0.div_lt_upper_bound; nia). destruct (lookup_lt_is_Some_2 c _ Hi) as [p Hp].
    assert (length (delete (Z.to_nat rank / b)%nat c) = length c - 1)%nat as Hdl by (rewrite length_delete; [done|by eexists]).
    destruct (copy_within_delete c junk (Z.to_nat rank / b) Hi) as [junk' Hcopy].
    destruct (IH (delete (Z.to_nat rank / b)%nat c) junk' (rank mod Z.of_nat b) (output ++ [p])) as (w & Hw & Hrun); [lia|rewrite Hdl; fold b; apply Z.mod_pos_bound; lia|].
    assert (rank / Z.of_nat b = Z.of_nat (Z.to_nat rank / b)) as Hdiv by (rewrite Nat2Z.inj_div, Z2Nat.id by lia; done).
    exists (p :: w). split.
    + rewrite (Nat.div_mod_eq (Z.to_nat rank) b) at 1. rewrite Nat.mul_comm. rewrite (draws_lookup c n _ _ p Hp) by (fold b; apply Nat.mod_upper_bound; lia).
      replace (Z.to_nat rank mod b)%nat with (Z.to_nat (rank mod Z.of_nat b)) by (rewrite Z2Nat.inj_mod by lia; by rewrite Nat2Z.id). by rewrite Hw.
    + cbn [variant_loop]. unfold checked_sub. rewrite (proj2 (Z.leb_le _ _)) by lia. cbn [or_panic rbind]. replace (Z.of_nat (length c) - 1) with (Z.of_nat (length c - 1)) by lia.
      rewrite falling_checked by lia. cbn [or_panic rbind]. unfold div_rem. fold b. rewrite (proj2 (Z.eqb_neq _ _)) by lia. cbn [rbind]. rewrite Hdiv, Nat2Z.id. rewrite lookup_app_l by done. rewrite Hp. cbn [or_panic rbind].
      replace (Z.to_nat (Z.of_nat (Z.to_nat rank / b) + 1)) with (S (Z.to_nat rank / b)) by lia. rewrite Nat2Z.id, Hcopy. cbn [rbind]. rewrite <- Hdl, Hrun, <- app_assoc. done.
Qed.

(** ** Atoms *)

Record atom_ok (a : FactorizedPatternAtom) : Prop := {
  atom_increasing : increasing (atom_choices a);
  atom_draws : 1 <= atom_draw_count a <= Z.of_nat (length (atom_choices a));
  atom_variants : atom_variant_count a = Z.of_nat (falling (length (atom_choices a)) (Z.to_nat (atom_draw_count a)))
}.

Definition atom_words (a : FactorizedPatternAtom) : list (list PieceKind) := draws (atom_choices a) (Z.to_nat (atom_draw_count a)).

(** One draw of every atom, in order. *)
Fixpoint atoms_words (atoms : list FactorizedPatternAtom) : list (list PieceKind) :=
  match atoms with
  | [] => [[]]
  | a :: atoms => atom_words a ≫= fun w => app w <$> atoms_words atoms
  end.

Definition atoms_draws (atoms : list FactorizedPatternAtom) : Z := foldr (fun a n => atom_draw_count a + n) 0 atoms.

Lemma increasing_NoDup c : increasing c -> NoDup c.
Proof. induction 1 as [|p l _ IH Hp]; constructor; [|done]. intros Hin. rewrite Forall_forall in Hp. specialize (Hp p Hin). lia. Qed.

Lemma standard_increasing : increasing STANDARD_TETROMINOES.
Proof. repeat constructor. Qed.

Lemma choices_length (c : list PieceKind) : NoDup c -> (length c <= 7)%nat.
Proof. intros H. apply (submseteq_length c STANDARD_TETROMINOES). apply NoDup_submseteq; [done|]. intros p _. destruct p; set_solver. Qed.

Lemma atom_words_length a : atom_ok a -> Z.of_nat (length (atom_words a)) = atom_variant_count a.
Proof. intros [_ _ ->]. unfold atom_words. by rewrite draws_length. Qed.

Lemma atom_variants_pos a : atom_ok a -> 1 <= atom_variant_count a.
Proof. intros [_ Hd ->]. pose proof (falling_pos (length (atom_choices a)) (Z.to_nat (atom_draw_count a)) ltac:(lia)). lia. Qed.

Lemma atom_words_elem a (w : list PieceKind) : atom_ok a -> w ∈ atom_words a <-> Z.of_nat (length w) = atom_draw_count a /\ NoDup w /\ w ⊆ atom_choices a.
Proof. intros [Hi Hd _]. unfold atom_words. rewrite draws_elem by by apply increasing_NoDup. assert (length w = Z.to_nat (atom_draw_count a) <-> Z.of_nat (length w) = atom_draw_count a) as -> by (clear -Hd; lia). done. Qed.

Lemma atoms_draws_nonneg atoms : Forall atom_ok atoms -> 0 <= atoms_draws atoms.
Proof. induction 1 as [|a atoms Ha _ IH]; [done|]. change (atoms_draws (a :: atoms)) with (atom_draw_count a + atoms_draws atoms). pose proof (atom_draws a Ha). lia. Qed.

Lemma atoms_words_length a atoms : length (atoms_words (a :: atoms)) = (length (atom_words a) * length (atoms_words atoms))%nat.
Proof. cbn [atoms_words]. apply bind_uniform_length. apply Forall_forall. intros w _. by rewrite length_fmap. Qed.

Lemma atoms_words_pos atoms : Forall atom_ok atoms -> (0 < length (atoms_words atoms))%nat.
Proof.
  induction 1 as [|a atoms Ha _ IH]; [cbn; lia|]. rewrite atoms_words_length. pose proof (atom_words_length a Ha). pose proof (atom_variants_pos a Ha). nia.
Qed.

Lemma atoms_words_elem_length atoms (w : list PieceKind) : Forall atom_ok atoms -> w ∈ atoms_words atoms -> Z.of_nat (length w) = atoms_draws atoms.
Proof.
  intros H. revert w. induction H as [|a atoms Ha _ IH]; intros w; cbn [atoms_words atoms_draws foldr].
  - rewrite list_elem_of_singleton. by intros ->.
  - intros (v & (u & -> & Hu)%list_elem_of_fmap & (Hv & _)%(atom_words_elem _ _ Ha))%list_elem_of_bind. rewrite length_app. apply IH in Hu. unfold atoms_draws in Hu. lia.
Qed.

(** [append_variant] writes the draw at the rank. *)
Lemma append_variant_words a rank output : atom_ok a -> 0 <= rank < atom_variant_count a ->
  exists w, atom_words a !! Z.to_nat rank = Some w /\ append_variant a rank output = Ok (output ++ w).
Proof.
  intros [Hi Hd Hv] Hr. pose proof (choices_length _ (increasing_NoDup _ Hi)) as H7. unfold append_variant, atom_words. rewrite (proj2 (Nat.ltb_ge _ _)) by lia.
  apply variant_loop_draws; lia.
Qed.

(** [write_sequence] writes the visible part of the sequence at the index. *)
Lemma sequence_loop_words atoms visible index output : Forall atom_ok atoms -> 0 <= visible -> (atoms = [] -> Z.of_nat (length output) <= visible) -> 0 <= index < Z.of_nat (length (atoms_words atoms)) ->
  exists w, atoms_words atoms !! Z.to_nat index = Some w /\
    sequence_loop atoms visible index (Z.of_nat (length (atoms_words atoms))) output = Ok (take (Z.to_nat visible) (output ++ w)).
Proof.
  intros H Hv. revert index output. induction H as [|a atoms Ha Hatoms IH]; intros index output Ho Hi.
  - exists []. cbn in Hi. replace index with 0 by lia. split; [done|]. cbn. rewrite app_nil_r, take_ge; [done|]. specialize (Ho eq_refl). lia.
  - pose proof (atom_words_length a Ha) as Hla. pose proof (atom_variants_pos a Ha) as Hva. pose proof (atoms_words_pos atoms Hatoms) as Hpos. rewrite atoms_words_length in Hi |- *.
    set (m := length (atoms_words atoms)) in *. cbn [sequence_loop]. unfold div_rem at 1. rewrite (proj2 (Z.eqb_neq _ 0)) by lia. cbn [rbind].
    replace (Z.of_nat (length (atom_words a) * m) / atom_variant_count a) with (Z.of_nat m) by (rewrite Nat2Z.inj_mul, Hla, Z.mul_comm, Z.div_mul; lia).
    unfold div_rem. rewrite (proj2 (Z.eqb_neq _ 0)) by lia. cbn [rbind].
    assert (0 <= index / Z.of_nat m < atom_variant_count a) as Hq by (split; [apply Z.div_pos; lia|apply Z.div_lt_upper_bound; nia]).
    destruct (append_variant_words a (index / Z.of_nat m) output Ha Hq) as (v & Hvl & ->). cbn [rbind].
    pose proof (Z.mod_pos_bound index (Z.of_nat m) ltac:(lia)) as Hm.
    assert (forall u, atoms_words atoms !! Z.to_nat (index mod Z.of_nat m) = Some u -> atoms_words (a :: atoms) !! Z.to_nat index = Some (v ++ u)) as Hlook.
    { intros u Hu. cbn [atoms_words]. replace (Z.to_nat index) with (Z.to_nat (index / Z.of_nat m) * m + Z.to_nat (index mod Z.of_nat m))%nat by (pose proof (Z.div_mod index (Z.of_nat m) ltac:(lia)); nia).
      rewrite (bind_uniform_lookup _ _ m _ _ v); [by rewrite list_lookup_fmap, Hu| |done|lia]. apply Forall_forall. intros x _. by rewrite length_fmap. }
    destruct (Z.leb_spec visible (Z.of_nat (length (output ++ v)))) as [Hvis|Hvis].
    + destruct (lookup_lt_is_Some_2 (atoms_words atoms) (Z.to_nat (index mod Z.of_nat m)) ltac:(lia)) as [u Hu]. exists (v ++ u). split; [by apply Hlook|]. rewrite app_assoc. by rewrite (take_app_le (output ++ v)) by lia.
    + destruct (IH (index mod Z.of_nat m) (output ++ v) (fun _ => Z.lt_le_incl _ _ Hvis) Hm) as (u & Hu & ->). exists (v ++ u). split; [by apply Hlook|]. by rewrite app_assoc.
Qed.

(** ** The test of one sequence *)

Lemma draws_match_spec choices (w : list PieceKind) seen : draws_match choices w seen = true <->
  NoDup w /\ w ⊆ choices /\ Forall (fun p => Z.testbit seen (Z.of_nat (piece_index p)) = false) w.
Proof.
  revert seen. induction w as [|p w IH]; intros seen; cbn [draws_match].
  - split; [intros _; repeat split; [constructor|set_solver|constructor]|done].
  - pose proof (piece_index_lt p) as Hp. rewrite land_bit_eqb by lia. rewrite negb_involutive. rewrite NoDup_cons, Forall_cons.
    assert (forall q, Z.testbit (Z.lor seen (shl 8 1 (Z.of_nat (piece_index p)))) (Z.of_nat (piece_index q)) = false <-> Z.testbit seen (Z.of_nat (piece_index q)) = false /\ q <> p) as Hbit.
    { intros q. rewrite Z.lor_spec, orb_false_iff. assert (Z.testbit (shl 8 1 (Z.of_nat (piece_index p))) (Z.of_nat (piece_index q)) = false <-> q <> p) as ->; [|done].
      destruct p, q; vm_compute; split; try done; intros Hn; by destruct Hn. }
    destruct (Z.testbit seen (Z.of_nat (piece_index p))) eqn:Hs; cbn [orb]; [split; [done|]; intros (_ & _ & ? & _); done|].
    case_bool_decide as Hc; cbn [negb]; [|split; [done|]; intros (_ & Hsub & _); destruct Hc; apply Hsub; by left].
    rewrite IH, !Forall_forall. setoid_rewrite Hbit. set_solver.
Qed.

Lemma atoms_match_spec atoms (w : list PieceKind) cursor : Forall atom_ok atoms -> 0 <= cursor <= Z.of_nat (length w) ->
  atoms_match atoms w cursor = true <-> drop (Z.to_nat cursor) w ∈ atoms_words atoms.
Proof.
  intros H. revert cursor. induction H as [|a atoms Ha _ IH]; intros cursor Hc; cbn [atoms_match atoms_words].
  - rewrite list_elem_of_singleton, Z.eqb_eq. rewrite <- length_zero_iff_nil, length_drop. lia.
  - rewrite list_elem_of_bind. pose proof (atom_draws a Ha) as Hd. destruct (Z.ltb_spec (Z.of_nat (length w)) (cursor + atom_draw_count a)) as [Hl|Hl].
    + split; [done|]. intros (v & (u & Heq & _)%list_elem_of_fmap & (Hv & _)%(atom_words_elem _ _ Ha)). apply (f_equal length) in Heq. rewrite length_drop, length_app in Heq. lia.
    + assert (drop (Z.to_nat cursor) w = drop (Z.to_nat cursor) (take (Z.to_nat (cursor + atom_draw_count a)) w) ++ drop (Z.to_nat (cursor + atom_draw_count a)) w) as Hsplit.
      { rewrite <- (take_drop (Z.to_nat (cursor + atom_draw_count a)) w) at 1. rewrite drop_app_le; [done|]. rewrite length_take. lia. }
      set (d := drop (Z.to_nat cursor) (take (Z.to_nat (cursor + atom_draw_count a)) w)) in *. assert (Z.of_nat (length d) = atom_draw_count a) as Hdl by (unfold d; rewrite length_drop, length_take; lia).
      rewrite andb_true_iff, IH, draws_match_spec by lia. rewrite Hsplit. split.
      * intros ((Hn & Hs & _) & Hr). exists d. split; [apply list_elem_of_fmap; by eexists|]. by apply atom_words_elem.
      * intros (v & (u & Heq & Hu)%list_elem_of_fmap & (Hv & Hn & Hs)%(atom_words_elem _ _ Ha)). apply app_inj_1 in Heq as [-> ->]; [|lia].
        split; [|done]. split; [done|]. split; [done|]. apply Forall_forall. intros p _. apply Z.bits_0.
Qed.

(** ** The explicit permutations *)

(** The choices whose flag is not set. *)
Fixpoint unused (used : list bool) (choices : list PieceKind) : list PieceKind :=
  match used, choices with
  | b :: used, p :: choices => if b then unused used choices else p :: unused used choices
  | _, _ => []
  end.

Lemma removals_cons p c : removals (p :: c) = (p, c) :: ((fun qc => (fst qc, p :: snd qc)) <$> removals c).
Proof. unfold removals. cbn [imap]. f_equal. rewrite fmap_imap. apply imap_ext. done. Qed.

(** The choice at an index, with the choices unused after it. *)
Definition unused_step (used : list bool) (choices : list PieceKind) (ip : nat * PieceKind) : option (PieceKind * list PieceKind) :=
  if default true (used !! fst ip) then None else Some (snd ip, unused (<[fst ip := true]> used) choices).

Lemma removals_unused used choices : length used = length choices -> removals (unused used choices) = omap (unused_step used choices) (imap pair choices).
Proof.
  revert used. induction choices as [|p choices IH]; intros used Hl; destruct used as [|b used]; try done. injection Hl as Hl. cbn [imap omap list_omap unused].
  assert (imap (fun i => pair (S i)) choices = (fun ip : nat * PieceKind => (S (fst ip), snd ip)) <$> imap pair choices) as Hmap by (rewrite fmap_imap; by apply imap_ext).
  unfold compose. rewrite Hmap. unfold unused_step at 1. cbn [fst snd lookup list_lookup]. change (default true (Some b)) with b. destruct b.
  - rewrite (IH used Hl). apply list_omap_ext, Forall2_fmap_r, Forall_Forall2_diag, Forall_true. done.
  - rewrite removals_cons, (IH used Hl). cbn [insert list_insert unused]. f_equal. rewrite list_fmap_omap. apply list_omap_ext, Forall2_fmap_r, Forall_Forall2_diag, Forall_true.
    intros [i q]. unfold unused_step, compose. cbn. by destruct (default true (used !! i)).
Qed.

(** [append_permutations] appends the draws of the unused choices. *)
Lemma append_permutations_draws n choices prefix used output : length used = length choices ->
  append_permutations n choices prefix used output = output ++ (app prefix <$> draws (unused used choices) n).
Proof.
  revert prefix used output. induction n as [|n IH]; intros prefix used output Hl; [cbn; by rewrite app_nil_r|]. cbn [append_permutations]. unfold draws. cbn [words]. rewrite (removals_unused used choices Hl).
  generalize (imap pair choices) as l. intros l. revert output. induction l as [|[i p] l IHl]; intros output; cbn [foldl omap list_omap]; [cbn; by rewrite app_nil_r|]. rewrite IHl.
  unfold unused_step at 2. cbn [fst snd]. destruct (default true (used !! i)); [done|]. rewrite IH by by rewrite length_insert.
  cbn [mbind list_bind]. cbn [fst snd]. rewrite fmap_app, <- list_fmap_compose. rewrite <- app_assoc. f_equal. f_equal. unfold draws. apply list_fmap_ext. intros j w _. unfold compose. by rewrite <- app_assoc.
Qed.

Lemma unused_all choices : unused (replicate (length choices) false) choices = choices.
Proof. induction choices as [|p l IH]; cbn; [done|]. by rewrite IH. Qed.

Lemma permutations_draws choices count index : permutations choices count index =
  if (count =? 0) || (Z.of_nat (length choices) <? count) then pattern_err (PermutationCountOutOfRange index count (Z.of_nat (length choices))) else Ok (draws choices (Z.to_nat count)).
Proof.
  unfold permutations. destruct (_ || _); [done|]. f_equal. rewrite append_permutations_draws by by rewrite length_replicate. rewrite unused_all. cbn [app].
  rewrite <- (list_fmap_id (draws choices (Z.to_nat count))) at 2. by apply list_fmap_ext.
Qed.

(** The explicit product of sequences, or the limit is exceeded. *)
Lemma try_fold_limit {A} (f : A -> list PieceKind) limit (l : list A) next : 0 <= limit -> Z.of_nat (length next) <= limit ->
  try_fold (fun next x => if limit <=? Z.of_nat (length next) then pattern_err (PatternLimitExceeded limit) else Ok (next ++ [f x])) next l =
  if limit <? Z.of_nat (length next + length l) then pattern_err (PatternLimitExceeded limit) else Ok (next ++ (f <$> l)).
Proof.
  intros H0. revert next. induction l as [|x l IH]; intros next Hn; cbn [try_fold].
  - rewrite (proj2 (Z.ltb_ge _ _)) by (cbn; lia). cbn. by rewrite app_nil_r.
  - destruct (Z.leb_spec limit (Z.of_nat (length next))) as [H|H]; cbn [rbind].
    + unfold pattern_err at 1. cbn. rewrite (proj2 (Z.ltb_lt _ _)) by lia. done.
    + rewrite IH by (rewrite length_app; cbn; lia). rewrite length_app. cbn [length fmap list_fmap]. rewrite <- app_assoc. replace (length next + 1 + length l)%nat with (length next + S (length l))%nat by lia. done.
Qed.

Lemma extend_sequences_words limit sequences atom : 0 <= limit -> (0 < length atom)%nat ->
  extend_sequences limit sequences atom =
  if limit <? Z.of_nat (length sequences * length atom) then pattern_err (PatternLimitExceeded limit) else Ok (sequences ≫= fun w => app w <$> atom).
Proof.
  intros H0 Ha. unfold extend_sequences. enough (forall next, Z.of_nat (length next) <= limit ->
    try_fold (fun next prefix => try_fold (fun next suffix => if limit <=? Z.of_nat (length next) then pattern_err (PatternLimitExceeded limit) else Ok (next ++ [prefix ++ suffix])) next atom) next sequences =
    if limit <? Z.of_nat (length next + length sequences * length atom) then pattern_err (PatternLimitExceeded limit) else Ok (next ++ (sequences ≫= fun w => app w <$> atom))) as H by (by rewrite (H [])).
  induction sequences as [|w sequences IH]; intros next Hn; cbn [try_fold].
  - cbn [length]. rewrite (proj2 (Z.ltb_ge _ _)) by lia. cbn. by rewrite app_nil_r.
  - rewrite (try_fold_limit (app w)) by done. destruct (Z.ltb_spec limit (Z.of_nat (length next + length atom))) as [H|H].
    + unfold pattern_err at 1. cbn [rbind]. rewrite (proj2 (Z.ltb_lt _ _)) by (cbn [length]; lia). done.
    + cbn [rbind]. rewrite IH by (rewrite length_app, length_fmap; lia). rewrite length_app, length_fmap. cbn [length]. cbn [mbind list_bind]. rewrite <- app_assoc.
      replace (length next + length atom + length sequences * length atom)%nat with (length next + S (length sequences) * length atom)%nat by lia. done.
Qed.
