(* ===== verification/QueueParsing.v ===== *)
(** * Parsing queue pattern expressions

    The two readers of an alternative, the one that keeps the atoms and the one
    that expands them, read the same atoms and fail with the same errors.  No
    text makes the parser panic, and what it returns lists every sequence of
    the text once, in lexicographic order. *)

From Stdlib Require Import ZArith Lia Ascii Sorting.Sorted.
From stdpp Require Import prelude strings.
From S2P Require Import Prelude Words PcBoard AllocationLedger Pieces SupplyAutomaton BagWindows BagSequences QueueExpression QueueLanguage.

Local Open Scope Z_scope.

(** ** Sorted choices *)

Lemma insert_piece_perm p l : insert_piece p l ≡ₚ p :: l.
Proof. induction l as [|q l IH]; cbn; [done|]. destruct (_ <=? _)%nat; [done|]. rewrite IH. by rewrite Permutation_swap. Qed.

Lemma sort_pieces_perm l : sort_pieces l ≡ₚ l.
Proof. induction l as [|p l IH]; cbn; [done|]. fold (sort_pieces l). by rewrite insert_piece_perm, IH. Qed.

Lemma insert_piece_increasing p l : increasing l -> p ∉ l -> increasing (insert_piece p l).
Proof.
  induction 1 as [|q l Hl IH Hq]; intros Hp; cbn; [repeat constructor|]. destruct (Nat.leb_spec (piece_index p) (piece_index q)) as [H|H].
  - assert (piece_index p < piece_index q)%nat as Hlt by (assert (piece_index p <> piece_index q) by (intros ->%piece_index_inj; set_solver); lia).
    constructor; [by constructor|]. constructor; [done|]. eapply Forall_impl; [done|]. cbn. intros; lia.
  - constructor; [apply IH; set_solver|]. rewrite insert_piece_perm. constructor; done.
Qed.

Lemma sort_pieces_increasing l : NoDup l -> increasing (sort_pieces l).
Proof. induction 1 as [|p l Hp _ IH]; cbn; [constructor|]. fold (sort_pieces l). apply insert_piece_increasing; [done|]. by rewrite sort_pieces_perm. Qed.

Lemma sort_pieces_sorted l : increasing l -> sort_pieces l = l.
Proof.
  induction 1 as [|p l _ IH Hp]; [done|]. cbn. fold (sort_pieces l). rewrite IH. destruct l as [|q l]; cbn; [done|]. apply Forall_cons in Hp as [Hp _]. by rewrite (proj2 (Nat.leb_le _ _)) by lia.
Qed.

Lemma dedup_pieces_increasing l : increasing l -> dedup_pieces l = l.
Proof.
  induction 1 as [|p l _ IH Hp]; [done|]. cbn. rewrite IH. destruct l as [|q l]; [done|]. rewrite bool_decide_false; [done|]. intros ->. apply Forall_cons in Hp as [Hp _]. lia.
Qed.

Lemma filter_increasing (P : PieceKind -> Prop) `{!forall p, Decision (P p)} l : increasing l -> increasing (filter P l).
Proof.
  induction 1 as [|p l _ IH Hp]; [constructor|]. rewrite filter_cons. destruct (decide _); [|done]. constructor; [done|]. rewrite Forall_forall in Hp |- *. intros q Hq. apply Hp. by apply list_elem_of_filter in Hq as [_ Hq].
Qed.

(** ** Atoms *)

(** The atom of choices in order, if it can draw that many. *)
Lemma atom_new_increasing c n index : increasing c -> 0 <= n -> FactorizedPatternAtom_new c n index =
  if (n =? 0) || (Z.of_nat (length c) <? n) then pattern_err (PermutationCountOutOfRange index n (Z.of_nat (length c)))
  else Ok (mkAtom c n (Z.of_nat (falling (length c) (Z.to_nat n)))).
Proof.
  intros Hc Hn. unfold FactorizedPatternAtom_new. rewrite sort_pieces_sorted, dedup_pieces_increasing by done. destruct (Z.eqb_spec n 0), (Z.ltb_spec (Z.of_nat (length c)) n); try done. cbn [orb].
  pose proof (choices_length c (increasing_NoDup c Hc)). rewrite <- (Z2Nat.id n) at 1 by done. by rewrite falling_checked by lia.
Qed.

Lemma atom_new_ok c n index a : increasing c -> 0 <= n -> FactorizedPatternAtom_new c n index = Ok a -> atom_ok a /\ atom_choices a = c /\ atom_draw_count a = n.
Proof.
  intros Hc Hn. rewrite atom_new_increasing by done. destruct (Z.eqb_spec n 0), (Z.ltb_spec (Z.of_nat (length c)) n); try done. intros [= <-]. split; [|done]. split; cbn; [done|lia|done].
Qed.

(** Making an atom and listing its permutations succeed together. *)
Lemma atom_new_permutations c n index : increasing c -> 0 <= n -> permutations c n index = let? a := FactorizedPatternAtom_new c n index in Ok (atom_words a).
Proof. intros Hc Hn. rewrite permutations_draws, atom_new_increasing by done. by destruct (_ || _). Qed.

Lemma draws_one c : draws c 1 = (fun p => [p]) <$> c.
Proof.
  unfold draws. cbn [words]. unfold removals. assert (forall (f : nat -> list PieceKind) (l : list PieceKind), (imap (fun i p => (p, f i)) l ≫= fun ps : PieceKind * list PieceKind => cons ps.1 <$> [[]]) = (fun p : PieceKind => [p]) <$> l) as H; [|apply (H (fun i => delete i c))].
  intros f l. revert f. induction l as [|p l IH]; intros f; [done|]. cbn. f_equal. apply (IH (f ∘ S)).
Qed.

(** ** Counts *)

Lemma leading_digits_spec l : Forall (fun c => is_digit c = true) (leading_digits l) /\ exists rest, l = leading_digits l ++ rest.
Proof. induction l as [|c l [IH [rest Hr]]]; cbn; [split; [constructor|by exists []]|]. destruct (is_digit c) eqn:Hc; [split; [by constructor|]; exists rest; cbn; by f_equal|]. split; [constructor|]. by exists (c :: l). Qed.

Lemma parse_usize_range l : Forall (fun c => is_digit c = true) l -> forall v, parse_usize l = Some v -> 0 <= v < 2 ^ 64.
Proof.
  unfold parse_usize. induction l as [|c l IH] using rev_ind; intros Hl v; [intros [= <-]; lia|]. apply Forall_app in Hl as [Hl [Hc _]%Forall_cons]. rewrite foldl_snoc.
  destruct (foldl _ _ l) as [u|] eqn:Hu; [|done]. specialize (IH Hl u eq_refl). cbn. unfold checked_mul. destruct (Z.ltb_spec (u * 10) (2 ^ 64)); [|done]. cbn. unfold checked_add, digit_value. unfold is_digit in Hc. apply andb_prop in Hc as [Hc1%Z.leb_le Hc2%Z.leb_le].
  destruct (Z.ltb_spec (u * 10 + (c - 48)) (2 ^ 64)); [|done]. intros [= <-]. lia.
Qed.

Lemma parse_count_ok characters cursor index count cursor' : parse_count characters cursor index = Ok (count, cursor') ->
  0 <= count < 2 ^ 64 /\ (cursor < cursor' <= length characters)%nat.
Proof.
  unfold parse_count. destruct (leading_digits_spec (drop cursor characters)) as [Hd [rest Hr]]. destruct (leading_digits (drop cursor characters)) as [|d ds]; [done|].
  destruct (parse_usize (d :: ds)) as [v|] eqn:Hv; [|done]. intros [= -> <-]. split; [by apply (parse_usize_range _ Hd)|]. apply (f_equal length) in Hr. rewrite length_drop, length_app in Hr. cbn [length] in *. lia.
Qed.

(** ** Groups *)

Lemma group_loop_spec rest cursor choices choices' cursor' closed : NoDup choices -> group_loop rest cursor choices = Ok (choices', cursor', closed) -> NoDup choices' /\ (cursor <= cursor')%nat.
Proof.
  revert cursor choices. induction rest as [|c rest IH]; intros cursor choices Hn; cbn [group_loop]; [intros [= -> -> _]; split; [done|lia]|]. destruct (c =? ch "]"); [intros [= -> <- _]; split; [done|lia]|].
  destruct (piece_from_char c) as [p|]; [|done]. intros H. apply IH in H as [H1 H2]; [split; [done|lia]|]. case_bool_decide; [done|]. apply NoDup_app. split; [done|]. split; [set_solver|apply NoDup_singleton].
Qed.

Lemma parse_group_ok characters cursor choices cursor' : parse_group characters cursor = Ok (choices, cursor') -> increasing choices /\ choices <> [] /\ (cursor < cursor' <= length characters)%nat.
Proof.
  unfold parse_group. set (complement := bool_decide _). set (from := if complement then S (S cursor) else S cursor).
  destruct (group_loop _ _ _) as [[[cs c] closed]|] eqn:Hg; cbn [rbind]; [|done]. apply group_loop_spec in Hg as [Hn Hc]; [|constructor].
  destruct (Nat.ltb_spec (length characters) c); cbn [orb]; [done|]. destruct (negb _); [done|].
  assert (increasing (sort_pieces (if complement then filter (fun p => p ∉ cs) STANDARD_TETROMINOES else cs))) as Hi.
  { destruct complement; apply sort_pieces_increasing; [|done]. apply NoDup_filter, increasing_NoDup, standard_increasing. }
  destruct (sort_pieces _) as [|p ps]; [done|]. intros [= <- <-]. split; [done|]. split; [done|]. unfold from in Hc. destruct complement; lia.
Qed.

Lemma parse_choices_ok characters start value choices suffix cursor : characters !! start = Some value -> parse_choices characters start value = Ok (choices, suffix, cursor) ->
  increasing choices /\ choices <> [] /\ (start < cursor <= length characters)%nat.
Proof.
  intros Hv%lookup_lt_Some. unfold parse_choices. destruct (value =? ch "*"); [intros [= <- <- <-]; split; [apply standard_increasing|split; [done|lia]]|]. destruct (value =? ch "["); [|done].
  destruct (parse_group characters start) as [[cs c]|] eqn:Hg; cbn [rbind]; [|done]. intros [= <- <- <-]. by eapply parse_group_ok.
Qed.

(** ** One atom *)

Lemma parse_factorized_atom_ok characters cursor a cursor' : parse_factorized_atom characters cursor = Ok (a, cursor') -> atom_ok a /\ (cursor < cursor' <= length characters)%nat.
Proof.
  unfold parse_factorized_atom. destruct (characters !! cursor) as [value|] eqn:Hv; cbn [or_panic rbind]; [|done]. pose proof (lookup_lt_Some _ _ _ Hv) as Hlt. destruct (piece_from_char value) as [p|].
  { destruct (FactorizedPatternAtom_new [p] 1 _) eqn:Ha; cbn [rbind]; [|done]. intros [= <- <-]. apply atom_new_ok in Ha as [Ha _]; [split; [done|lia]|repeat constructor|lia]. }
  destruct (value =? ch "P").
  { destruct (parse_count _ _ _) as [[count c]|] eqn:Hc; cbn [rbind]; [|done]. apply parse_count_ok in Hc as [Hc Hc2]. destruct (FactorizedPatternAtom_new _ _ _) eqn:Ha; cbn [rbind]; [|done]. intros [= <- <-].
    apply atom_new_ok in Ha as [Ha _]; [split; [done|lia]|apply standard_increasing|lia]. }
  destruct (parse_choices _ _ _) as [[[choices suffix] c]|] eqn:Hch; cbn [rbind]; [|done]. destruct (parse_choices_ok _ _ _ _ _ _ Hv Hch) as (Hi & _ & Hc).
  assert (forall n b c', (let? a := FactorizedPatternAtom_new choices n (Z.of_nat cursor) in Ok (a, c')) = Ok (a, cursor') -> 0 <= n -> (c <= c' <= length characters)%nat -> b -> atom_ok a /\ (cursor < cursor' <= length characters)%nat) as Hnew.
  { intros n b c' H Hn Hc' _. destruct (FactorizedPatternAtom_new _ _ _) eqn:Ha; cbn [rbind] in H; [|done]. injection H as -> ->. apply atom_new_ok in Ha as [Ha _]; [split; [done|lia]|done|done]. }
  case_bool_decide as He; cbn [rbind negb andb].
  { intros H. apply (Hnew _ True _ H); [lia| |done]. apply lookup_lt_Some in He. lia. }
  destruct (suffix && digit_at characters c); cbn [rbind negb andb].
  { destruct (parse_count _ _ _) as [[count c']|] eqn:Hcount; cbn [rbind negb andb]; [|done]. apply parse_count_ok in Hcount as [Hcount Hc2]. intros H. apply (Hnew _ True _ H); [lia|lia|done]. }
  case_bool_decide; [done|]. intros H'. apply (Hnew _ True _ H'); [lia|lia|done].
Qed.

(** Both readers of an atom read the same draws, stop at the same place and
    fail with the same errors. *)
Lemma parse_atom_factorized characters cursor : parse_atom characters cursor = let? '(a, cursor') := parse_factorized_atom characters cursor in Ok (atom_words a, cursor').
Proof.
  unfold parse_atom, parse_factorized_atom. destruct (characters !! cursor) as [value|] eqn:Hv; cbn [or_panic rbind]; [|done]. destruct (piece_from_char value) as [p|].
  { rewrite atom_new_increasing by (repeat constructor || lia). done. }
  destruct (value =? ch "P").
  { destruct (parse_count _ _ _) as [[count c]|] eqn:Hc; cbn [rbind]; [|done]. apply parse_count_ok in Hc as [Hc Hc2]. rewrite atom_new_permutations by (apply standard_increasing || lia).
    by destruct (FactorizedPatternAtom_new _ _ _). }
  destruct (parse_choices _ _ _) as [[[choices suffix] c]|] eqn:Hch; cbn [rbind]; [|done]. destruct (parse_choices_ok _ _ _ _ _ _ Hv Hch) as (Hi & Hne & Hc).
  case_bool_decide as He; cbn [rbind negb andb].
  { rewrite atom_new_permutations by (done || lia). by destruct (FactorizedPatternAtom_new _ _ _). }
  destruct (suffix && digit_at characters c); cbn [rbind negb andb].
  { destruct (parse_count _ _ _) as [[count c']|] eqn:Hcount; cbn [rbind negb andb]; [|done]. apply parse_count_ok in Hcount as [Hcount Hc2]. rewrite atom_new_permutations by (done || lia). by destruct (FactorizedPatternAtom_new _ _ _). }
  case_bool_decide; [done|]. rewrite atom_new_increasing by (done || lia). destruct choices as [|p choices]; [done|]. rewrite (proj2 (Z.ltb_ge _ _)) by (cbn [length]; lia). cbn [Z.eqb orb rbind]. unfold atom_words. cbn [atom_choices atom_draw_count].
  change (Z.to_nat 1) with 1%nat. by rewrite draws_one.
Qed.

(** ** Errors *)

(** An error in the text at one place: no panic, and neither of the errors that
    are about all its sequences. *)
Definition local_error (e : PatternFailure) : bool :=
  match e with PatternPanic | PatternError (PatternLimitExceeded _) | PatternError MixedSequenceLengths => false | _ => true end.

Definition reports_local {A} (m : Result PatternFailure A) : Prop := match m with Ok _ => True | Err e => local_error e = true end.

Lemma rbind_local {A B} (m : Result PatternFailure A) (k : A -> Result PatternFailure B) :
  reports_local m -> (forall a, m = Ok a -> reports_local (k a)) -> reports_local (rbind m k).
Proof. intros Hm Hk. destruct m as [a|e]; cbn; [by apply Hk|done]. Qed.

Lemma atom_new_local c n index : increasing c -> 0 <= n -> reports_local (FactorizedPatternAtom_new c n index).
Proof. intros Hc Hn. rewrite atom_new_increasing by done. by destruct (_ || _). Qed.

Lemma parse_count_local characters cursor index : reports_local (parse_count characters cursor index).
Proof. unfold parse_count. destruct (leading_digits _); [done|]. by destruct (parse_usize _). Qed.

Lemma group_loop_local rest cursor choices : reports_local (group_loop rest cursor choices).
Proof. revert cursor choices. induction rest as [|v rest IH]; intros cursor choices; [done|]. cbn [group_loop]. destruct (v =? ch "]"); [done|]. destruct (piece_from_char v); [apply IH|done]. Qed.

Lemma parse_choices_local characters start value : reports_local (parse_choices characters start value).
Proof.
  unfold parse_choices, parse_group. destruct (value =? ch "*"); [done|]. destruct (value =? ch "["); [|done]. apply rbind_local; [|by intros []]. apply rbind_local; [apply group_loop_local|].
  intros [[cs c] b] _. destruct (_ || _); [done|]. by destruct (sort_pieces _).
Qed.

(** Reading an atom within the text fails, if at all, for what is written there. *)
Lemma parse_factorized_atom_local characters cursor : (cursor < length characters)%nat -> reports_local (parse_factorized_atom characters cursor).
Proof.
  intros Hlt. unfold parse_factorized_atom. destruct (lookup_lt_is_Some_2 _ _ Hlt) as [value Hv]. rewrite Hv. cbn [or_panic rbind].
  destruct (piece_from_char value) as [p|]; [apply rbind_local; [apply atom_new_local; [repeat constructor|lia]|done]|]. destruct (value =? ch "P").
  { apply rbind_local; [apply parse_count_local|]. intros [n c] [Hn _]%parse_count_ok. apply rbind_local; [|done]. apply atom_new_local; [apply standard_increasing|lia]. }
  apply rbind_local; [apply parse_choices_local|]. intros [[choices suffix] c] Hch. destruct (parse_choices_ok _ _ _ _ _ _ Hv Hch) as (Hi & _ & Hc). apply rbind_local.
  - case_bool_decide; [done|]. destruct (suffix && _); [|done]. apply rbind_local; [apply parse_count_local|by intros []].
  - intros [[n b] c'] Hn. destruct (negb b && _); [done|]. apply rbind_local; [|done]. apply atom_new_local; [done|]. revert Hn. case_bool_decide; [intros [= <- _ _]; lia|]. destruct (suffix && _); [|intros [= <- _ _]; lia].
    destruct (parse_count _ _ _) as [[n' c'']|] eqn:Hcn; cbn [rbind]; [|done]. apply parse_count_ok in Hcn as [Hcn _]. intros [= <- _ _]. lia.
Qed.

Lemma parse_factorized_atom_no_panic characters cursor : (cursor < length characters)%nat -> parse_factorized_atom characters cursor <> Err PatternPanic.
Proof. intros Hlt E. pose proof (parse_factorized_atom_local characters cursor Hlt) as H. by rewrite E in H. Qed.

(** ** One alternative *)

Lemma atoms_words_snoc atoms a : atoms_words (atoms ++ [a]) = atoms_words atoms ≫= fun w => app w <$> atom_words a.
Proof.
  induction atoms as [|b atoms IH]; cbn [atoms_words app].
  - cbn [mbind list_bind]. rewrite app_nil_r, list_fmap_id. induction (atom_words a) as [|w l IHl]; [done|]. cbn. rewrite app_nil_r. by f_equal.
  - rewrite IH. rewrite list_bind_assoc. apply list_bind_ext; [|done]. intros w. unfold compose. generalize (atoms_words atoms) as l. induction l as [|v l IHl]; [done|]. cbn. rewrite fmap_app, IHl. f_equal.
    rewrite <- list_fmap_compose. apply list_fmap_ext. intros i u _. unfold compose. by rewrite app_assoc.
Qed.

Lemma atoms_draws_snoc atoms a : atoms_draws (atoms ++ [a]) = atoms_draws atoms + atom_draw_count a.
Proof. unfold atoms_draws. induction atoms as [|b atoms IH]; cbn; [lia|]. rewrite IH. lia. Qed.

Lemma falling_pow2 v n : (n < v)%nat -> 2 ^ Z.of_nat n <= Z.of_nat (falling v (S n)).
Proof.
  revert v. induction n as [|n IH]; intros v Hv; [cbn; lia|]. specialize (IH (v - 1)%nat ltac:(lia)). change (falling v (S (S n))) with (v * falling (v - 1) (S n))%nat.
  rewrite Nat2Z.inj_succ, Z.pow_succ_r by lia. nia.
Qed.

(** The state of either reader: an atom that draws several pieces has as many
    variants, which bounds the length of the sequences. *)
Record reading (cs : list Z) (limit : Z) (cursor : nat) (atoms : list FactorizedPatternAtom) : Prop := {
  reading_atoms : Forall atom_ok atoms;
  reading_count : Z.of_nat (length (atoms_words atoms)) <= limit;
  reading_cursor : (cursor <= length cs)%nat;
  reading_draws : 0 <= atoms_draws atoms;
  reading_length : 2 ^ atoms_draws atoms <= Z.of_nat (length (atoms_words atoms)) * 2 ^ Z.of_nat cursor
}.

Lemma atom_pow2 a : atom_ok a -> 2 ^ (atom_draw_count a - 1) <= atom_variant_count a.
Proof.
  intros [_ Hd ->]. replace (atom_draw_count a - 1) with (Z.of_nat (Z.to_nat (atom_draw_count a) - 1)) by lia.
  replace (Z.to_nat (atom_draw_count a)) with (S (Z.to_nat (atom_draw_count a) - 1)) at 2 by lia. apply falling_pow2. lia.
Qed.

Lemma atoms_words_snoc_length atoms a : length (atoms_words (atoms ++ [a])) = (length (atoms_words atoms) * length (atom_words a))%nat.
Proof. rewrite atoms_words_snoc. apply bind_uniform_length, Forall_true. intros w. by rewrite length_fmap. Qed.

Lemma reading_snoc cs limit cursor atoms a cursor' : reading cs limit cursor atoms -> atom_ok a -> (cursor < cursor' <= length cs)%nat ->
  Z.of_nat (length (atoms_words atoms)) * atom_variant_count a <= limit -> reading cs limit cursor' (atoms ++ [a]).
Proof.
  intros [Ha Hc Hcur Hd Hl] Hok Hlt Hcount. pose proof (atom_draws a Hok) as Had. pose proof (atom_words_length a Hok) as Hw. pose proof (atom_pow2 a Hok) as Hp.
  split; [apply Forall_app_2; [done|by constructor]|rewrite atoms_words_snoc_length; lia|lia|rewrite atoms_draws_snoc; lia|].
  rewrite atoms_draws_snoc, atoms_words_snoc_length, Nat2Z.inj_mul, Hw. replace (atoms_draws atoms + atom_draw_count a) with (atoms_draws atoms + (1 + (atom_draw_count a - 1))) by lia.
  rewrite !Z.pow_add_r by lia. assert (2 ^ Z.of_nat cursor * 2 <= 2 ^ Z.of_nat cursor') as Hpow by (rewrite Z.mul_comm, <- Z.pow_succ_r by lia; apply Z.pow_le_mono_r; lia).
  pose proof (Z.pow_pos_nonneg 2 (atoms_draws atoms) ltac:(lia) Hd). pose proof (Z.pow_pos_nonneg 2 (atom_draw_count a - 1) ltac:(lia) ltac:(lia)).
  transitivity ((Z.of_nat (length (atoms_words atoms)) * 2 ^ Z.of_nat cursor) * (2 * atom_variant_count a)); [apply Z.mul_le_mono_nonneg; lia|]. nia.
Qed.

Lemma reading_length_bound cs limit cursor atoms : reading cs limit cursor atoms -> limit < 2 ^ 64 -> atoms_draws atoms < 64 + Z.of_nat (length cs).
Proof.
  intros [Ha Hc Hcur Hd Hl] H64. apply (Z.pow_lt_mono_r_iff 2); [lia|lia|]. eapply Z.le_lt_trans; [exact Hl|]. rewrite Z.pow_add_r by lia.
  assert (2 ^ Z.of_nat cursor <= 2 ^ Z.of_nat (length cs)) by (apply Z.pow_le_mono_r; lia). pose proof (Z.pow_pos_nonneg 2 (Z.of_nat cursor) ltac:(lia) ltac:(lia)). nia.
Qed.

Lemma space_loop_step cs limit fuel cursor atoms a cursor' : reading cs limit cursor atoms -> limit < 2 ^ 64 -> Z.of_nat (length cs) <= 2 ^ 63 -> (cursor < length cs)%nat ->
  parse_factorized_atom cs cursor = Ok (a, cursor') ->
  parse_space_loop (S fuel) cs limit cursor atoms (Z.of_nat (length (atoms_words atoms))) (atoms_draws atoms) =
  if limit <? Z.of_nat (length (atoms_words (atoms ++ [a]))) then pattern_err (PatternLimitExceeded limit)
  else parse_space_loop fuel cs limit cursor' (atoms ++ [a]) (Z.of_nat (length (atoms_words (atoms ++ [a])))) (atoms_draws (atoms ++ [a])).
Proof.
  intros Hr H64 H63 Hlt Ha. destruct (parse_factorized_atom_ok _ _ _ _ Ha) as [Hok Hc]. cbn [parse_space_loop]. rewrite (proj2 (Nat.ltb_lt _ _) Hlt). cbn [negb]. rewrite Ha. cbn [rbind].
  rewrite atoms_words_snoc_length, Nat2Z.inj_mul, (atom_words_length a Hok). unfold checked_mul. destruct (Z.ltb_spec (Z.of_nat (length (atoms_words atoms)) * atom_variant_count a) (2 ^ 64)) as [H|H].
  - destruct (Z.ltb_spec limit (Z.of_nat (length (atoms_words atoms)) * atom_variant_count a)) as [Hlim|Hlim]; [done|].
    pose proof (reading_length_bound _ _ _ _ (reading_snoc _ _ _ _ _ _ Hr Hok Hc Hlim) H64) as Hb. rewrite atoms_draws_snoc in *. unfold checked_add. rewrite (proj2 (Z.ltb_lt _ _)) by lia. done.
  - rewrite (proj2 (Z.ltb_lt _ _)) by lia. done.
Qed.

Lemma expand_loop_step cs limit fuel cursor atoms a cursor' : 0 <= limit -> (cursor < length cs)%nat -> parse_factorized_atom cs cursor = Ok (a, cursor') ->
  expand_loop (S fuel) cs limit cursor (atoms_words atoms) =
  if limit <? Z.of_nat (length (atoms_words (atoms ++ [a]))) then pattern_err (PatternLimitExceeded limit) else expand_loop fuel cs limit cursor' (atoms_words (atoms ++ [a])).
Proof.
  intros H0 Hlt Ha. destruct (parse_factorized_atom_ok _ _ _ _ Ha) as [Hok Hc]. cbn [expand_loop]. rewrite (proj2 (Nat.ltb_lt _ _) Hlt). cbn [negb]. rewrite parse_atom_factorized, Ha. cbn [rbind].
  pose proof (atom_words_length a Hok). pose proof (atom_variants_pos a Hok). rewrite extend_sequences_words by lia. rewrite atoms_words_snoc_length, atoms_words_snoc. by destruct (limit <? _).
Qed.

(** The loops that read an alternative: they agree, do not panic, and what
    they return is a state of the reader at the end of the text. *)
Lemma loops_agree fuel cs limit cursor atoms : reading cs limit cursor atoms -> 0 <= limit < 2 ^ 64 -> Z.of_nat (length cs) <= 2 ^ 63 -> (length cs - cursor <= fuel)%nat ->
  let r := parse_space_loop fuel cs limit cursor atoms (Z.of_nat (length (atoms_words atoms))) (atoms_draws atoms) in
  r <> Err PatternPanic /\
  expand_loop fuel cs limit cursor (atoms_words atoms) = (let? '(atoms', _, _) := r in Ok (atoms_words atoms')) /\
  forall atoms' count len, r = Ok (atoms', count, len) ->
    reading cs limit (length cs) atoms' /\ count = Z.of_nat (length (atoms_words atoms')) /\ len = atoms_draws atoms' /\
    exists more, atoms' = atoms ++ more /\ ((cursor < length cs)%nat -> more <> []).
Proof.
  intros Hr Hlim H63. revert cursor atoms Hr. induction fuel as [|fuel IH]; intros cursor atoms Hr Hf; cbv zeta.
  - assert (cursor = length cs) as -> by (pose proof (reading_cursor _ _ _ _ Hr); lia). cbn [parse_space_loop expand_loop]. rewrite Nat.ltb_irrefl. cbn. split; [done|]. split; [done|].
    intros ? ? ? [= <- <- <-]. split; [done|]. split; [done|]. split; [done|]. exists []. rewrite app_nil_r. split; [done|lia].
  - destruct (decide (cursor < length cs)%nat) as [Hlt|Hge].
    + destruct (parse_factorized_atom cs cursor) as [[a cursor']|e] eqn:Ha.
      * destruct (parse_factorized_atom_ok _ _ _ _ Ha) as [Hok Hc]. rewrite (space_loop_step _ _ _ _ _ _ _ Hr) by (done || lia). rewrite (expand_loop_step _ _ _ _ _ _ _) by (done || lia).
        destruct (Z.ltb_spec limit (Z.of_nat (length (atoms_words (atoms ++ [a]))))) as [Hl|Hl]; [done|].
        assert (reading cs limit cursor' (atoms ++ [a])) as Hr' by (apply (reading_snoc _ _ cursor); [done|done|done|]; rewrite atoms_words_snoc_length in Hl; rewrite <- (atom_words_length a Hok); lia).
        destruct (IH cursor' (atoms ++ [a]) Hr' ltac:(lia)) as (H1 & H2 & H3). split; [exact H1|]. split; [exact H2|]. intros atoms' count len H. destruct (H3 _ _ _ H) as (Hrd & -> & -> & more & -> & _).
        split; [done|]. split; [done|]. split; [done|]. exists (a :: more). split; [by rewrite <- app_assoc|done].
      * cbn [parse_space_loop expand_loop]. rewrite (proj2 (Nat.ltb_lt _ _) Hlt). cbn [negb]. rewrite parse_atom_factorized, Ha. cbn [rbind]. split; [|done]. intros [= ->]. by apply (parse_factorized_atom_no_panic cs cursor).
    + assert (cursor = length cs) as -> by (pose proof (reading_cursor _ _ _ _ Hr); lia). cbn [parse_space_loop expand_loop]. rewrite Nat.ltb_irrefl. cbn. split; [done|]. split; [done|].
      intros ? ? ? [= <- <- <-]. split; [done|]. split; [done|]. split; [done|]. exists []. rewrite app_nil_r. split; [done|lia].
Qed.

(** What a space read from a text satisfies. *)
Record space_ok (limit : Z) (s : FactorizedQueuePatternSpace) : Prop := {
  space_atoms : Forall atom_ok (fs_atoms s);
  space_atoms_ne : fs_atoms s <> [];
  space_count : fs_pattern_count s = Z.of_nat (length (atoms_words (fs_atoms s)));
  space_limit : fs_pattern_count s <= limit;
  space_full : fs_full_sequence_len s = atoms_draws (fs_atoms s)
}.

Lemma reading_start cs limit : 1 <= limit -> reading cs limit 0 [].
Proof. intros H. split; cbn; [constructor|lia|lia|lia|lia]. Qed.

Lemma space_parse_spec cs limit : 1 <= limit < 2 ^ 64 -> Z.of_nat (length cs) <= 2 ^ 63 ->
  FactorizedQueuePatternSpace_parse cs limit <> Err PatternPanic /\
  (cs <> [] -> expand_alternative cs limit = let? s := FactorizedQueuePatternSpace_parse cs limit in Ok (atoms_words (fs_atoms s))) /\
  forall s, FactorizedQueuePatternSpace_parse cs limit = Ok s -> space_ok limit s /\ fs_visible_sequence_len s = fs_full_sequence_len s.
Proof.
  intros Hlim H63. destruct (loops_agree (length cs) cs limit 0 [] (reading_start cs limit ltac:(lia)) ltac:(lia) H63 ltac:(lia)) as (H1 & H2 & H3).
  unfold FactorizedQueuePatternSpace_parse, expand_alternative. change (Z.of_nat (length (atoms_words []))) with 1 in *. change (atoms_draws []) with 0 in *. change (atoms_words []) with [@nil PieceKind] in H2. rewrite H2.
  destruct (parse_space_loop _ _ _ _ _ _ _) as [[[atoms count] len]|e]; cbn [rbind] in *; [|split; [by intros [= ->]|]; done]. destruct (H3 _ _ _ eq_refl) as (Hr & -> & -> & more & Hmore & Hne). cbn [app] in Hmore. subst more.
  destruct atoms as [|a atoms].
  - split; [done|]. split; [|done]. intros Hcs. exfalso. apply Hne; [|done]. destruct cs; [done|cbn; lia].
  - split; [done|]. split; [done|]. intros s [= <-]. split; [|done]. split; cbn [fs_atoms fs_pattern_count fs_full_sequence_len]; [apply Hr|done|done|apply Hr|done].
Qed.
