(* ===== verification/QueueGrammar.v ===== *)
(** * The grammar of queue pattern expressions

    A grammar for one alternative of a queue pattern text ([spells]): which
    sequences of pieces a text stands for, without a parser.  The parser of
    [queue_pattern_expression.rs] accepts exactly the texts that stand for some
    sequence, and reads exactly their sequences. *)

From Stdlib Require Import ZArith Lia Ascii Sorting.Sorted.
From stdpp Require Import prelude strings.
From S2P Require Import Prelude Words PcBoard AllocationLedger Pieces SupplyAutomaton BagWindows BagSequences QueueExpression QueueLanguage QueueParsing.

Local Open Scope Z_scope.

(** ** Grammar *)

Definition number (digits : list Z) : Z := foldl (fun v c => 10 * v + digit_value c) 0 digits.

(** The pieces of a group: those named between the brackets, or after a [^]
    all others. *)
Definition group_pieces (complement : bool) (named : list PieceKind) : list PieceKind := filter (fun p => xorb complement (bool_decide (p ∈ named)) = true) STANDARD_TETROMINOES.

Inductive group_text : list Z -> list PieceKind -> Prop :=
| group_of (complement : bool) names named :
    Forall2 (fun c p => piece_from_char c = Ok p) names named -> group_pieces complement named <> [] ->
    group_text ([ch "["] ++ (if complement then [ch "^"] else []) ++ names ++ [ch "]"]) (group_pieces complement named).

Definition is_number (digits : list Z) : Prop := digits <> [] /\ Forall (fun c => is_digit c = true) digits.

(** [atom_text t choices n bare]: the text draws [n] of the choices; it is
    bare when it could have carried a count. *)
Inductive atom_text : list Z -> list PieceKind -> Z -> bool -> Prop :=
| atom_piece c p : piece_from_char c = Ok p -> atom_text [c] [p] 1 false
| atom_bag digits : is_number digits -> atom_text (ch "P" :: digits) STANDARD_TETROMINOES (number digits) false
| atom_any : atom_text [ch "*"] STANDARD_TETROMINOES 1 true
| atom_any_all : atom_text [ch "*"; ch "!"] STANDARD_TETROMINOES 7 false
| atom_group t choices : group_text t choices -> atom_text t choices 1 true
| atom_group_all t choices : group_text t choices -> atom_text (t ++ [ch "!"]) choices (Z.of_nat (length choices)) false
| atom_group_count t choices digits : group_text t choices -> is_number digits -> atom_text (t ++ digits) choices (number digits) false.

(** The sequences a text of atoms stands for.  A bag may not follow a bare
    atom. *)
Inductive spells : list Z -> list PieceKind -> Prop :=
| spells_nil : spells [] []
| spells_atom t choices n bare draw rest w :
    atom_text t choices n bare -> (bare = true -> head rest <> Some (ch "P")) ->
    1 <= n -> Z.of_nat (length draw) = n -> NoDup draw -> draw ⊆ choices ->
    spells rest w -> spells (t ++ rest) (draw ++ w).

(** ** Numbers *)

Lemma number_snoc l c : number (l ++ [c]) = 10 * number l + digit_value c.
Proof. unfold number. by rewrite foldl_snoc. Qed.

Lemma number_nonneg l : Forall (fun c => is_digit c = true) l -> 0 <= number l.
Proof.
  induction l as [|c l IH] using rev_ind; intros Hl; [done|]. rewrite number_snoc. apply Forall_app in Hl as [Hl [Hc _]%Forall_cons]. specialize (IH Hl). unfold is_digit in Hc. apply andb_prop in Hc as [Hc1%Z.leb_le Hc2%Z.leb_le]. unfold digit_value. lia.
Qed.

Lemma parse_usize_number l : Forall (fun c => is_digit c = true) l -> parse_usize l = if number l <? 2 ^ 64 then Some (number l) else None.
Proof.
  induction l as [|c l IH] using rev_ind; intros Hl; [done|]. apply Forall_app in Hl as [Hl [Hc _]%Forall_cons]. pose proof (number_nonneg l Hl) as H0. unfold is_digit in Hc. apply andb_prop in Hc as [Hc1%Z.leb_le Hc2%Z.leb_le].
  rewrite number_snoc. unfold parse_usize in *. rewrite foldl_snoc, (IH Hl). unfold digit_value, checked_mul, checked_add.
  destruct (Z.ltb_spec (number l) (2 ^ 64)); cbn [mbind option_bind].
  - destruct (Z.ltb_spec (number l * 10) (2 ^ 64)); cbn [mbind option_bind]; [|rewrite (proj2 (Z.ltb_ge _ _)) by lia; done]. rewrite (Z.mul_comm 10). by destruct (_ <? _).
  - rewrite (proj2 (Z.ltb_ge _ _)) by lia. done.
Qed.

Lemma leading_digits_number digits rest : Forall (fun c => is_digit c = true) digits -> (forall c, head rest = Some c -> is_digit c = false) -> leading_digits (digits ++ rest) = digits.
Proof.
  induction 1 as [|c digits Hc _ IH]; intros Hr; cbn; [|rewrite Hc; by rewrite IH]. destruct rest as [|c rest]; [done|]. cbn. by rewrite (Hr c).
Qed.

(** A count is the number of the digits at the cursor. *)
Lemma parse_count_number cs cursor index digits rest : drop cursor cs = digits ++ rest -> is_number digits -> (forall c, head rest = Some c -> is_digit c = false) -> number digits < 2 ^ 64 ->
  parse_count cs cursor index = Ok (number digits, (cursor + length digits)%nat).
Proof.
  intros Hd [Hne Hdig] Hr H64. unfold parse_count. rewrite Hd, leading_digits_number by done. rewrite (parse_usize_number digits Hdig), (proj2 (Z.ltb_lt _ _) H64). by destruct digits.
Qed.

Lemma parse_count_inv cs cursor index count cursor' : parse_count cs cursor index = Ok (count, cursor') ->
  exists digits, is_number digits /\ count = number digits /\ drop cursor cs = digits ++ drop cursor' cs.
Proof.
  unfold parse_count. destruct (leading_digits_spec (drop cursor cs)) as [Hd [rest Hr]]. rewrite (parse_usize_number _ Hd). destruct (leading_digits (drop cursor cs)) as [|d ds] eqn:Hds; [done|].
  destruct (_ <? _); [|done]. intros [= <- <-]. exists (d :: ds). split; [done|]. split; [done|]. rewrite Hr. f_equal. rewrite <- drop_drop, Hr.
  cbn. by rewrite drop_app_length.
Qed.

(** ** Groups *)

Lemma group_pieces_increasing b named : increasing (group_pieces b named).
Proof. apply filter_increasing, standard_increasing. Qed.

Lemma increasing_ext c d : increasing c -> increasing d -> (forall p, p ∈ c <-> p ∈ d) -> c = d.
Proof.
  intros Hc. revert d. induction Hc as [|p c Hc IH Hp]; intros d Hd Heq.
  - destruct d as [|q d]; [done|]. exfalso. apply (not_elem_of_nil q), Heq. by left.
  - destruct Hd as [|q d Hd Hq]; [exfalso; apply (not_elem_of_nil p), Heq; by left|]. rewrite Forall_forall in Hp, Hq.
    assert (p = q) as ->. { assert (p ∈ q :: d) as [|Hpd]%elem_of_cons by (apply Heq; by left); [done|]. assert (q ∈ p :: c) as [|Hqc]%elem_of_cons by (apply Heq; by left); [done|]. specialize (Hp q Hqc). specialize (Hq p Hpd). lia. }
    f_equal. apply IH; [done|]. intros x. specialize (Heq x). rewrite !elem_of_cons in Heq. split; intros Hx.
    + destruct (proj1 Heq (or_intror Hx)) as [->|]; [|done]. specialize (Hp q Hx). lia.
    + destruct (proj2 Heq (or_intror Hx)) as [->|]; [|done]. specialize (Hq q Hx). lia.
Qed.

Lemma standard_all p : p ∈ STANDARD_TETROMINOES.
Proof. destruct p; set_solver. Qed.

Lemma group_loop_inv rest cursor choices choices' cursor' closed : group_loop rest cursor choices = Ok (choices', cursor', closed) ->
  exists names named, Forall2 (fun c p => piece_from_char c = Ok p) names named /\ (forall p, p ∈ choices' <-> p ∈ choices \/ p ∈ named) /\
    if closed then rest = names ++ ch "]" :: drop (S (length names)) rest /\ cursor' = (cursor + S (length names))%nat else rest = names /\ cursor' = (cursor + length names)%nat.
Proof.
  revert cursor choices. induction rest as [|c rest IH]; intros cursor choices; cbn [group_loop].
  - intros [= <- <- <-]. exists [], []. split; [constructor|]. split; [set_solver|]. cbn. split; [done|lia].
  - destruct (Z.eqb_spec c (ch "]")) as [->|]; [intros [= <- <- <-]; exists [], []; split; [constructor|]; split; [set_solver|]; cbn; split; [done|lia]|].
    destruct (piece_from_char c) as [p|] eqn:Hp; [|done]. intros (names & named & Hf & He & Hend)%IH. exists (c :: names), (p :: named). split; [by constructor|]. split.
    + intros q. rewrite He. case_bool_decide; set_solver.
    + destruct closed; destruct Hend as [Hrest ->]; cbn [length app drop]; (split; [by f_equal|lia]).
Qed.

Lemma group_loop_names names named rest cursor choices : Forall2 (fun c p => piece_from_char c = Ok p) names named ->
  exists choices', group_loop (names ++ ch "]" :: rest) cursor choices = Ok (choices', (cursor + S (length names))%nat, true) /\ forall p, p ∈ choices' <-> p ∈ choices \/ p ∈ named.
Proof.
  intros Hf. revert cursor choices. induction Hf as [|c p names named Hp _ IH]; intros cursor choices; cbn [app group_loop].
  - rewrite Z.eqb_refl. exists choices. split; [do 3 f_equal; cbn; lia|set_solver].
  - destruct (Z.eqb_spec c (ch "]")) as [->|]; [done|]. rewrite Hp. destruct (IH (S cursor) (if bool_decide (p ∈ choices) then choices else choices ++ [p])) as (choices' & -> & He). exists choices'. split; [do 3 f_equal; cbn [length]; lia|].
    intros q. rewrite He. case_bool_decide; set_solver.
Qed.

(** The choices of a group in order. *)
Lemma group_choices (complement : bool) named choices : NoDup choices -> (forall p, p ∈ choices <-> p ∈ named) ->
  sort_pieces (if complement then filter (fun p => p ∉ choices) STANDARD_TETROMINOES else choices) = group_pieces complement named.
Proof.
  intros Hn He. apply increasing_ext; [|apply group_pieces_increasing|].
  - destruct complement; apply sort_pieces_increasing; [|done]. apply NoDup_filter, increasing_NoDup, standard_increasing.
  - intros p. rewrite sort_pieces_perm. unfold group_pieces. rewrite list_elem_of_filter. pose proof (standard_all p) as Hp. destruct complement; [rewrite list_elem_of_filter|]; rewrite He; case_bool_decide; cbn; naive_solver.
Qed.

Lemma drop_app_cursor {A} (cs t rest : list A) cursor : drop cursor cs = t ++ rest -> drop (cursor + length t) cs = rest.
Proof. intros H. by rewrite <- drop_drop, H, drop_app_length. Qed.

Lemma parse_group_text cs cursor t choices rest : group_text t choices -> drop cursor cs = t ++ rest -> parse_group cs cursor = Ok (choices, (cursor + length t)%nat).
Proof.
  intros [complement names named Hf Hne] Hd. unfold parse_group. rewrite <- !app_assoc in Hd. assert (drop (S cursor) cs = (if complement then [ch "^"] else []) ++ names ++ ch "]" :: rest) as Hd1.
  { replace (S cursor) with (cursor + length [ch "["])%nat by (cbn; lia). by apply drop_app_cursor. }
  set (body := (cursor + length ([ch "["] ++ (if complement then [ch "^"] else [])))%nat). assert (drop body cs = names ++ ch "]" :: rest) as Hd2.
  { unfold body. apply drop_app_cursor. rewrite Hd. by rewrite <- app_assoc. }
  assert (bool_decide (cs !! S cursor = Some (ch "^")) = complement) as ->.
  { replace (S cursor) with (S cursor + 0)%nat by lia. rewrite <- lookup_drop, Hd1. destruct complement; [done|]. cbn [app]. apply bool_decide_false. destruct Hf as [|c p names named Hp _]; cbn; [done|]. intros [= ->]. done. }
  assert ((if complement then S (S cursor) else S cursor) = body) as -> by (unfold body; destruct complement; cbn; lia). rewrite Hd2. destruct (group_loop_names names named rest body [] Hf) as (choices' & Hg & He). rewrite Hg. cbn [rbind].
  assert (NoDup choices') as Hn by (eapply group_loop_spec; [|exact Hg]; constructor). rewrite (group_choices complement named choices' Hn) by set_solver.
  assert (length (drop body cs) = length names + 1 + length rest)%nat as Hlen by (rewrite Hd2, length_app; cbn; lia). rewrite length_drop in Hlen. rewrite (proj2 (Nat.ltb_ge _ _)) by lia. cbn [orb].
  replace (body + S (length names) - 1)%nat with (body + length names)%nat by lia. rewrite bool_decide_true by (rewrite <- lookup_drop, Hd2; by rewrite list_lookup_middle). cbn [negb].
  destruct (group_pieces complement named) eqn:Hgp; [done|]. do 2 f_equal. unfold body. rewrite !length_app. cbn. destruct complement; cbn; lia.
Qed.

Lemma parse_group_inv cs cursor choices cursor' : cs !! cursor = Some (ch "[") -> parse_group cs cursor = Ok (choices, cursor') -> exists t, group_text t choices /\ drop cursor cs = t ++ drop cursor' cs.
Proof.
  intros Hc. unfold parse_group. set (complement := bool_decide (cs !! S cursor = Some (ch "^"))). set (body := if complement then S (S cursor) else S cursor).
  assert (drop cursor cs = ([ch "["] ++ (if complement then [ch "^"] else [])) ++ drop body cs /\ body = (cursor + length ([ch "["] ++ (if complement then [ch "^"] else [])))%nat) as [Hd Hbody].
  { rewrite (drop_S _ _ _ Hc). unfold body, complement. case_bool_decide as Hx; cbn; [|split; [done|lia]]. rewrite (drop_S _ _ _ Hx). split; [done|lia]. }
  destruct (group_loop (drop body cs) body []) as [[[cs' c] closed]|] eqn:Hg; cbn [rbind]; [|done]. pose proof (group_loop_spec _ _ _ _ _ _ ltac:(constructor) Hg) as [Hn _]. apply group_loop_inv in Hg as (names & named & Hf & He & Hend).
  destruct (Nat.ltb_spec (length cs) c) as [|Hlen]; [done|]. cbn [orb]. case_bool_decide as Hlast; cbn [negb]; [|done]. rewrite (group_choices complement named cs' Hn) by (intros p; rewrite He; set_solver).
  destruct closed; destruct Hend as [Hrest ->].
  - destruct (group_pieces complement named) as [|p ps] eqn:Hgp; [done|]. intros [= <- <-]. exists ([ch "["] ++ (if complement then [ch "^"] else []) ++ names ++ [ch "]"]). split; [rewrite <- Hgp; constructor; [done|by rewrite Hgp]|].
    rewrite Hd, Hrest at 1. rewrite drop_drop. rewrite <- !app_assoc. done.
  - exfalso. assert (cs !! (body + length names - 1)%nat <> Some (ch "]")); [|done]. destruct (decide (names = [])) as [->|Hne].
    + cbn [length]. rewrite Nat.add_0_r. unfold body, complement. case_bool_decide as Hx; cbn [Nat.sub]; [rewrite Hx; done|]. rewrite Nat.sub_0_r, Hc. done.
    + replace (body + length names - 1)%nat with (body + (length names - 1))%nat by (destruct names; [done|cbn; lia]). rewrite <- lookup_drop, Hrest. intros Hl. eapply Forall2_lookup_l in Hf as (p & _ & Hp); [|exact Hl]. done.
Qed.

(** ** Atoms *)

(** What may follow a number or an atom that has no count. *)
Definition starts_atom (rest : list Z) : Prop := forall c, head rest = Some c -> is_digit c = false /\ c <> ch "!".

Lemma digit_no_piece c p : piece_from_char c = Ok p -> is_digit c = false /\ c <> ch "!".
Proof.
  intros Hp. split; [|by intros ->]. destruct (is_digit c) eqn:Hc; [|done]. unfold is_digit in Hc. apply andb_prop in Hc as [Hc1%Z.leb_le Hc2%Z.leb_le].
  assert (c = 48 \/ c = 49 \/ c = 50 \/ c = 51 \/ c = 52 \/ c = 53 \/ c = 54 \/ c = 55 \/ c = 56 \/ c = 57) as H by lia. repeat (destruct H as [->|H]; [done|]). by subst c.
Qed.

Lemma group_text_head t choices : group_text t choices -> exists t', t = ch "[" :: t'.
Proof. intros []. cbn. by eexists. Qed.

Lemma atom_text_head t choices n bare rest : atom_text t choices n bare -> starts_atom (t ++ rest).
Proof.
  intros [c p Hp| | | |t' ? Hg|t' ? Hg|t' ? ? Hg _]; intros x Hx; cbn in Hx; try (apply group_text_head in Hg as [? ->]; cbn in Hx); try (injection Hx as <-); try done. by eapply digit_no_piece.
Qed.

Lemma spells_head t w : spells t w -> starts_atom t.
Proof. intros [|? ? ? ? ? ? ? H]; [intros ? Hc; done|]. by eapply atom_text_head. Qed.

Lemma atom_text_increasing t choices n bare : atom_text t choices n bare -> increasing choices.
Proof. intros [| | | |? ? []|? ? []|? ? ? []]; try apply group_pieces_increasing; try apply standard_increasing. repeat constructor. Qed.

Lemma atom_new_in_range c n index : increasing c -> 1 <= n <= Z.of_nat (length c) -> FactorizedPatternAtom_new c n index = Ok (mkAtom c n (Z.of_nat (falling (length c) (Z.to_nat n)))).
Proof. intros Hc Hn. rewrite atom_new_increasing by (done || lia). by rewrite (proj2 (Z.eqb_neq _ _)), (proj2 (Z.ltb_ge _ _)) by lia. Qed.

Lemma digit_at_rest cs cursor rest : drop cursor cs = rest -> digit_at cs cursor = match head rest with Some c => is_digit c | None => false end.
Proof. intros <-. unfold digit_at. rewrite <- (Nat.add_0_r cursor) at 1. rewrite <- lookup_drop. by destruct (drop cursor cs). Qed.

Lemma lookup_rest (cs : list Z) cursor rest : drop cursor cs = rest -> cs !! cursor = head rest.
Proof. intros <-. rewrite <- (Nat.add_0_r cursor) at 1. rewrite <- lookup_drop. by destruct (drop cursor cs). Qed.

(** The suffix of a group or [*] with its choices read. *)
Lemma parse_suffix cs start value choices suffix cursor (count : option (list Z)) all rest n :
  cs !! start = Some value -> piece_from_char value = Err UnknownPiece -> (value =? ch "P") = false -> parse_choices cs start value = Ok (choices, suffix, cursor) -> increasing choices -> 1 <= n <= Z.of_nat (length choices) ->
  starts_atom rest ->
  match count with
  | Some digits => all = false /\ suffix = true /\ is_number digits /\ n = number digits /\ drop cursor cs = digits ++ rest
  | None => if all : bool then n = Z.of_nat (length choices) /\ drop cursor cs = ch "!" :: rest else n = 1 /\ drop cursor cs = rest /\ head rest <> Some (ch "P")
  end ->
  parse_factorized_atom cs start = Ok (mkAtom choices n (Z.of_nat (falling (length choices) (Z.to_nat n))), (cursor + length (default [] count) + if all then 1 else 0)%nat).
Proof.
  intros Hv Hp HP Hch Hi Hn Hs H. pose proof (choices_length _ (increasing_NoDup _ Hi)) as H7. unfold parse_factorized_atom. rewrite Hv. cbn [or_panic rbind]. rewrite Hp, HP, Hch. cbn [rbind]. destruct count as [digits|].
  - destruct H as (-> & -> & Hdig & -> & Hd). pose proof Hdig as [Hne Hall]. destruct digits as [|d digits]; [done|]. apply Forall_cons in Hall as [Hd0 _]. rewrite (lookup_rest _ _ _ Hd). cbn [app head]. rewrite bool_decide_false by (intros [= ->]; done).
    rewrite (digit_at_rest _ _ _ Hd). cbn [app head]. rewrite Hd0. cbn [andb]. rewrite (parse_count_number _ _ _ _ _ Hd Hdig) by (lia || (intros c Hc; by apply Hs)). cbn [rbind negb andb]. rewrite atom_new_in_range by done. cbn [rbind from_option]. unfold id. by rewrite Nat.add_0_r.
  - cbn [from_option length]. unfold id. rewrite Nat.add_0_r. destruct all.
    + destruct H as [-> Hd]. rewrite (lookup_rest _ _ _ Hd). rewrite bool_decide_true by done. cbn [rbind negb andb]. rewrite atom_new_in_range by done. cbn [rbind]. by rewrite Nat.add_1_r.
    + destruct H as (-> & Hd & HnP). rewrite (lookup_rest _ _ _ Hd). rewrite bool_decide_false by (intros Hx; by destruct (Hs _ Hx)). rewrite (digit_at_rest _ _ _ Hd).
      replace (match head rest with Some c => is_digit c | None => false end) with false by (destruct (head rest) as [c|] eqn:Hc; [|done]; by destruct (Hs c Hc)). rewrite andb_false_r. cbn [rbind negb andb].
      rewrite (lookup_rest _ _ _ Hd), bool_decide_false by done. rewrite atom_new_in_range by done. cbn [rbind]. by rewrite Nat.add_0_r.
Qed.

Lemma parse_atom_text cs cursor t choices n bare rest : atom_text t choices n bare -> drop cursor cs = t ++ rest -> 1 <= n <= Z.of_nat (length choices) -> starts_atom rest -> (bare = true -> head rest <> Some (ch "P")) ->
  parse_factorized_atom cs cursor = Ok (mkAtom choices n (Z.of_nat (falling (length choices) (Z.to_nat n))), (cursor + length t)%nat).
Proof.
  intros Ht Hd Hn Hs Hb. pose proof (atom_text_increasing _ _ _ _ Ht) as Hi. pose proof (lookup_rest _ _ _ Hd) as Hv.
  assert (forall t, group_text t choices -> forall rest', drop cursor cs = t ++ rest' -> cs !! cursor = Some (ch "[") /\ parse_choices cs cursor (ch "[") = Ok (choices, true, (cursor + length t)%nat) /\ drop (cursor + length t) cs = rest') as Hgroup.
  { intros g Hg rest' Hd'. split; [rewrite (lookup_rest _ _ _ Hd'); by destruct (group_text_head _ _ Hg) as [? ->]|]. split; [|by apply drop_app_cursor]. unfold parse_choices. cbn [Z.eqb]. change (ch "[" =? ch "*") with false. change (ch "[" =? ch "[") with true.
    cbv iota. by rewrite (parse_group_text _ _ _ _ _ Hg Hd'). }
  destruct Ht as [c p Hp|digits Hdig| | |t choices Hg|t choices Hg|t choices digits Hg Hdig]; cbn [app head] in Hv.
  - unfold parse_factorized_atom. rewrite Hv. cbn [or_panic rbind]. rewrite Hp. rewrite atom_new_in_range by done. cbn. by rewrite Nat.add_1_r.
  - unfold parse_factorized_atom. rewrite Hv. cbn [or_panic rbind]. change (piece_from_char (ch "P")) with (Err (A := PieceKind) UnknownPiece). cbv iota. rewrite Z.eqb_refl.
    rewrite (parse_count_number cs (S cursor) cursor digits rest); [|by rewrite <- Nat.add_1_r, <- drop_drop, Hd|done|intros c Hc; by apply Hs|cbn in Hn; lia]. cbn [rbind]. rewrite atom_new_in_range by done. cbn [rbind length]. by rewrite Nat.add_succ_r.
  - rewrite (parse_suffix cs cursor (ch "*") STANDARD_TETROMINOES false (S cursor) None false rest 1); try done; [cbn; do 2 f_equal; lia|]. split; [done|]. split; [by rewrite <- Nat.add_1_r, <- drop_drop, Hd|by apply Hb].
  - rewrite (parse_suffix cs cursor (ch "*") STANDARD_TETROMINOES false (S cursor) None true rest 7); try done; [cbn; do 2 f_equal; lia|]. split; [done|]. by rewrite <- Nat.add_1_r, <- drop_drop, Hd.
  - destruct (Hgroup t Hg rest Hd) as (Hv' & Hch & Hd'). rewrite (parse_suffix cs cursor (ch "[") choices true (cursor + length t) None false rest 1); try done; [cbn; do 2 f_equal; lia|]. by split; [|split; [|apply Hb]].
  - rewrite <- app_assoc in Hd. destruct (Hgroup t Hg _ Hd) as (Hv' & Hch & Hd'). rewrite (parse_suffix cs cursor (ch "[") choices true (cursor + length t) None true rest (Z.of_nat (length choices))); try done. rewrite length_app. cbn. do 2 f_equal. lia.
  - rewrite <- app_assoc in Hd. destruct (Hgroup t Hg _ Hd) as (Hv' & Hch & Hd'). rewrite (parse_suffix cs cursor (ch "[") choices true (cursor + length t) (Some digits) false rest (number digits)); try done. rewrite length_app. cbn. do 2 f_equal. lia.
Qed.

Lemma atom_new_fields c n index a : FactorizedPatternAtom_new c n index = Ok a -> increasing c -> 0 <= n -> a = mkAtom c n (atom_variant_count a).
Proof. intros H Hc Hn. destruct (atom_new_ok c n index a Hc Hn H) as (_ & <- & <-). by destruct a. Qed.

Lemma parse_choices_inv cs start value choices suffix cursor : cs !! start = Some value -> parse_choices cs start value = Ok (choices, suffix, cursor) ->
  (exists t, drop start cs = t ++ drop cursor cs /\ if suffix : bool then group_text t choices else t = [ch "*"] /\ choices = STANDARD_TETROMINOES).
Proof.
  intros Hv. unfold parse_choices. destruct (Z.eqb_spec value (ch "*")) as [->|].
  - intros [= <- <- <-]. exists [ch "*"]. split; [by apply drop_S|done].
  - destruct (Z.eqb_spec value (ch "[")) as [->|]; [|done]. destruct (parse_group cs start) as [[cs' c]|] eqn:Hg; cbn [rbind]; [|done]. intros [= <- <- <-]. destruct (parse_group_inv _ _ _ _ Hv Hg) as (t & Ht & Hd). by exists t.
Qed.

Lemma parse_atom_inv cs cursor a cursor' : parse_factorized_atom cs cursor = Ok (a, cursor') ->
  exists t bare, atom_text t (atom_choices a) (atom_draw_count a) bare /\ drop cursor cs = t ++ drop cursor' cs /\ (bare = true -> head (drop cursor' cs) <> Some (ch "P")).
Proof.
  unfold parse_factorized_atom. destruct (cs !! cursor) as [value|] eqn:Hv; cbn [or_panic rbind]; [|done]. destruct (piece_from_char value) as [p|] eqn:Hp.
  { rewrite (atom_new_in_range [p] 1) by ((by repeat constructor) || (cbn; lia)). cbn [rbind]. intros [= <- <-]. exists [value], false. split; [by constructor|]. split; [by apply drop_S|done]. }
  destruct (Z.eqb_spec value (ch "P")) as [->|].
  { destruct (parse_count _ _ _) as [[count c]|] eqn:Hc; cbn [rbind]; [|done]. pose proof (parse_count_ok _ _ _ _ _ Hc) as [Hc0 _]. apply parse_count_inv in Hc as (digits & Hdig & -> & Hd). destruct (FactorizedPatternAtom_new _ _ _) as [a'|] eqn:Ha; cbn [rbind]; [|done]. intros [= <- <-].
    rewrite (atom_new_fields _ _ _ _ Ha standard_increasing ltac:(lia)). exists (ch "P" :: digits), false. split; [by constructor|]. split; [|done]. cbn [app]. rewrite <- Hd. by apply drop_S. }
  destruct (parse_choices _ _ _) as [[[choices suffix] c]|] eqn:Hch; cbn [rbind]; [|done]. destruct (parse_choices_ok _ _ _ _ _ _ Hv Hch) as (Hi & _ & Hc). destruct (parse_choices_inv _ _ _ _ _ _ Hv Hch) as (t & Hd & Ht).
  case_bool_decide as He; cbn [rbind negb andb].
  { destruct (FactorizedPatternAtom_new _ _ _) as [a'|] eqn:Ha; cbn [rbind]; [|done]. intros [= <- <-]. rewrite (atom_new_fields _ _ _ _ Ha Hi ltac:(lia)). exists (t ++ [ch "!"]), false. cbn [atom_choices atom_draw_count]. split; [|split; [|done]].
    - destruct suffix; [by apply atom_group_all|]. destruct Ht as [-> ->]. apply atom_any_all.
    - rewrite Hd, <- app_assoc. f_equal. by apply drop_S. }
  destruct (suffix && digit_at cs c) eqn:Hsd; cbn [rbind negb andb].
  { destruct (parse_count _ _ _) as [[count c']|] eqn:Hcount; cbn [rbind negb andb]; [|done]. pose proof (parse_count_ok _ _ _ _ _ Hcount) as [Hc0 _]. apply parse_count_inv in Hcount as (digits & Hdig & -> & Hd'). destruct (FactorizedPatternAtom_new _ _ _) as [a'|] eqn:Ha; cbn [rbind]; [|done]. intros [= <- <-].
    rewrite (atom_new_fields _ _ _ _ Ha Hi ltac:(lia)). exists (t ++ digits), false. cbn [atom_choices atom_draw_count]. split; [|split; [by rewrite Hd, Hd', <- app_assoc|done]]. apply andb_prop in Hsd as [-> _]. by apply atom_group_count. }
  case_bool_decide as HP; [done|]. destruct (FactorizedPatternAtom_new _ _ _) as [a'|] eqn:Ha; cbn [rbind]; [|done]. intros [= <- <-]. rewrite (atom_new_fields _ _ _ _ Ha Hi ltac:(lia)). exists t, true. cbn [atom_choices atom_draw_count].
  split; [destruct suffix; [by apply atom_group|destruct Ht as [-> ->]; apply atom_any]|]. split; [done|]. intros _. by rewrite <- (lookup_rest cs c).
Qed.

(** ** Alternatives *)

(** A text that stands for a sequence is read to atoms that draw it, unless
    the limit is exceeded. *)
Lemma spells_read cs limit fuel cursor atoms w : 1 <= limit < 2 ^ 64 -> Z.of_nat (length cs) <= 2 ^ 63 -> reading cs limit cursor atoms -> (length cs - cursor <= fuel)%nat -> spells (drop cursor cs) w ->
  match parse_space_loop fuel cs limit cursor atoms (Z.of_nat (length (atoms_words atoms))) (atoms_draws atoms) with
  | Ok (atoms', _, _) => exists more, atoms' = atoms ++ more /\ w ∈ atoms_words more
  | Err e => e = PatternError (PatternLimitExceeded limit)
  end.
Proof.
  intros Hlim H63 Hr Hf Hw. remember (drop cursor cs) as text eqn:Hd. symmetry in Hd. revert fuel cursor atoms Hr Hf Hd. induction Hw as [|t choices n bare draw rest w Ht Hb Hn Hl Hnd Hsub Hw IH]; intros fuel cursor atoms Hr Hf Hd.
  - apply (f_equal length) in Hd. rewrite length_drop in Hd. cbn in Hd. destruct fuel; cbn [parse_space_loop]; rewrite (proj2 (Nat.ltb_ge _ _)) by lia; cbn; exists []; rewrite app_nil_r; (split; [done|by left]).
  - assert (n <= Z.of_nat (length choices)) as Hle by (rewrite <- Hl; apply inj_le, submseteq_length, NoDup_submseteq; done). pose proof (parse_atom_text cs cursor t choices n bare rest Ht Hd ltac:(lia) (spells_head _ _ Hw) Hb) as Ha.
    destruct (parse_factorized_atom_ok _ _ _ _ Ha) as [Hok Hc]. destruct fuel as [|fuel]; [lia|]. rewrite (space_loop_step _ _ _ _ _ _ _ Hr) by (done || lia). set (a := mkAtom choices n _) in *.
    destruct (Z.ltb_spec limit (Z.of_nat (length (atoms_words (atoms ++ [a]))))) as [|Hlen]; [done|].
    assert (reading cs limit (cursor + length t) (atoms ++ [a])) as Hr' by (apply (reading_snoc _ _ cursor); [done|done|done|]; rewrite atoms_words_snoc_length in Hlen; rewrite <- (atom_words_length _ Hok); lia).
    specialize (IH fuel (cursor + length t)%nat (atoms ++ [a]) Hr' ltac:(lia) (drop_app_cursor _ _ _ _ Hd)). destruct (parse_space_loop _ _ _ _ _ _ _) as [[[atoms' ?] ?]|]; [|done]. destruct IH as (more & -> & Hm). exists (a :: more).
    split; [by rewrite <- app_assoc|]. cbn [atoms_words]. apply list_elem_of_bind. exists draw. split; [apply list_elem_of_fmap; by exists w|]. by apply atom_words_elem.
Qed.

(** The sequences of the atoms that are read are those of the text. *)
Lemma read_spells cs limit fuel cursor atoms atoms' count len : 1 <= limit < 2 ^ 64 -> Z.of_nat (length cs) <= 2 ^ 63 -> reading cs limit cursor atoms ->
  parse_space_loop fuel cs limit cursor atoms (Z.of_nat (length (atoms_words atoms))) (atoms_draws atoms) = Ok (atoms', count, len) ->
  exists more, atoms' = atoms ++ more /\ forall w, w ∈ atoms_words more -> spells (drop cursor cs) w.
Proof.
  intros Hlim H63. revert cursor atoms. induction fuel as [|fuel IH]; intros cursor atoms Hr.
  - cbn [parse_space_loop]. destruct (Nat.ltb_spec cursor (length cs)); cbn; [done|]. intros [= <- <- <-]. exists []. rewrite app_nil_r. split; [done|]. rewrite drop_ge by lia. intros w ->%list_elem_of_singleton. constructor.
  - destruct (decide (cursor < length cs)%nat) as [Hlt|]; [|cbn [parse_space_loop]; rewrite (proj2 (Nat.ltb_ge _ _)) by lia; cbn; intros [= <- <- <-]; exists []; rewrite app_nil_r; split; [done|]; rewrite drop_ge by lia; intros w ->%list_elem_of_singleton; constructor].
    destruct (parse_factorized_atom cs cursor) as [[a cursor']|] eqn:Ha; [|cbn [parse_space_loop]; rewrite (proj2 (Nat.ltb_lt _ _) Hlt), Ha; done].
    destruct (parse_factorized_atom_ok _ _ _ _ Ha) as [Hok Hc]. rewrite (space_loop_step _ _ _ _ _ _ _ Hr) by (done || lia). destruct (Z.ltb_spec limit (Z.of_nat (length (atoms_words (atoms ++ [a]))))) as [|Hlen]; [done|].
    assert (reading cs limit cursor' (atoms ++ [a])) as Hr' by (apply (reading_snoc _ _ cursor); [done|done|done|]; rewrite atoms_words_snoc_length in Hlen; rewrite <- (atom_words_length _ Hok); lia).
    intros (more & -> & Hm)%IH; [|done]. exists (a :: more). split; [by rewrite <- app_assoc|]. intros w (v & (u & -> & Hu)%list_elem_of_fmap & (Hl & Hnd & Hsub)%(atom_words_elem _ _ Hok))%list_elem_of_bind.
    destruct (parse_atom_inv _ _ _ _ Ha) as (t & bare & Ht & -> & Hb). econstructor; try done; [apply (atom_draws _ Hok)|]. by apply Hm.
Qed.

(** The parser and the grammar. *)
Lemma parse_spells cs limit : 1 <= limit < 2 ^ 64 -> Z.of_nat (length cs) <= 2 ^ 63 -> cs <> [] ->
  match FactorizedQueuePatternSpace_parse cs limit with
  | Ok s => forall w, w ∈ atoms_words (fs_atoms s) <-> spells cs w
  | Err e => e = PatternError (PatternLimitExceeded limit) \/ forall w, ~ spells cs w
  end.
Proof.
  intros Hlim H63 Hne. pose proof (reading_start cs limit ltac:(lia)) as Hr. unfold FactorizedQueuePatternSpace_parse.
  pose proof (fun w => spells_read cs limit (length cs) 0 [] w Hlim H63 Hr ltac:(lia)) as Hread. pose proof (fun a b c => read_spells cs limit (length cs) 0 [] a b c Hlim H63 Hr) as Hspell.
  destruct (loops_agree (length cs) cs limit 0 [] Hr ltac:(lia) H63 ltac:(lia)) as (_ & _ & Hend). change (Z.of_nat (length (atoms_words []))) with 1 in *. change (atoms_draws []) with 0 in *. rewrite drop_0 in *.
  destruct (parse_space_loop _ _ _ _ _ _ _) as [[[atoms count] len]|e]; cbn [rbind].
  - destruct (Hend _ _ _ eq_refl) as (_ & _ & _ & more & Hm & Hmne). cbn [app] in Hm. subst more. destruct atoms as [|a atoms]; [exfalso; apply Hmne; [destruct cs; [done|cbn; lia]|done]|]. intros w. cbn [fs_atoms]. split.
    + destruct (Hspell _ _ _ eq_refl) as (more & Hm & Hs). cbn [app] in Hm. subst more. apply Hs.
    + intros Hw. destruct (Hread w Hw) as (more & Hm & Hx). cbn [app] in Hm. by subst more.
  - destruct (decide (e = PatternError (PatternLimitExceeded limit))) as [|Hx]; [by left|]. right. intros w Hw. by specialize (Hread w Hw).
Qed.

(** ** Failing on the limit *)

(** More sequences than the limit have a property. *)
Definition too_many (limit : Z) (P : list PieceKind -> Prop) : Prop := exists ws : list (list PieceKind), NoDup ws /\ limit < Z.of_nat (length ws) /\ forall w, w ∈ ws -> P w.

Lemma too_many_mono limit (P Q : list PieceKind -> Prop) : (forall w, P w -> Q w) -> too_many limit P -> too_many limit Q.
Proof. intros H (ws & Hn & Hl & Hw). exists ws. split; [done|]. split; [done|]. intros w Hin. by apply H, Hw. Qed.

(** What an alternative that cannot be read is refused for: the part of it read
    so far spells too many sequences, or something is wrong at one place. *)
Lemma loop_failure cs limit fuel cursor atoms e : 1 <= limit < 2 ^ 64 -> Z.of_nat (length cs) <= 2 ^ 63 -> reading cs limit cursor atoms -> (length cs - cursor <= fuel)%nat ->
  parse_space_loop fuel cs limit cursor atoms (Z.of_nat (length (atoms_words atoms))) (atoms_draws atoms) = Err e ->
  local_error e = true \/ (e = PatternError (PatternLimitExceeded limit) /\ exists more u rest, drop cursor cs = u ++ rest /\ Forall atom_ok (atoms ++ more) /\
    limit < Z.of_nat (length (atoms_words (atoms ++ more))) /\ forall w, w ∈ atoms_words more -> spells u w).
Proof.
  intros Hlim H63. revert cursor atoms. induction fuel as [|fuel IH]; intros cursor atoms Hr Hf.
  { cbn [parse_space_loop]. rewrite (proj2 (Nat.ltb_ge _ _)) by lia. done. }
  destruct (decide (cursor < length cs)%nat) as [Hlt|]; [|cbn [parse_space_loop]; rewrite (proj2 (Nat.ltb_ge _ _)) by lia; done]. pose proof (parse_factorized_atom_local cs cursor Hlt) as Hlocal.
  destruct (parse_factorized_atom cs cursor) as [[a cursor']|e'] eqn:Ha; [|cbn [parse_space_loop]; rewrite (proj2 (Nat.ltb_lt _ _) Hlt), Ha; cbn [negb rbind]; intros [= <-]; by left].
  destruct (parse_factorized_atom_ok _ _ _ _ Ha) as [Hok Hc]. rewrite (space_loop_step _ _ _ _ _ _ _ Hr) by (done || lia). destruct (parse_atom_inv _ _ _ _ Ha) as (t & bare & Ht & Hd & Hb).
  assert (forall u rest w, drop cursor' cs = u ++ rest -> (exists v x, v ∈ atom_words a /\ spells u x /\ w = v ++ x) -> spells (t ++ u) w) as Hstep.
  { intros u rest w Hu (v & x & (Hl & Hnd & Hsub)%(atom_words_elem _ _ Hok) & Hx & ->). econstructor; try done; [|apply (atom_draws _ Hok)]. intros Hbare E. apply (Hb Hbare). rewrite Hu. by destruct u. }
  assert (forall more w, w ∈ atoms_words (a :: more) -> exists v x, v ∈ atom_words a /\ x ∈ atoms_words more /\ w = v ++ x) as Hsplit.
  { intros more w (v & (x & -> & Hx)%list_elem_of_fmap & Hv)%list_elem_of_bind. by exists v, x. }
  destruct (Z.ltb_spec limit (Z.of_nat (length (atoms_words (atoms ++ [a]))))) as [Hover|Hlen].
  - intros [= <-]. right. split; [done|]. exists [a], t, (drop cursor' cs). split; [done|]. split; [apply Forall_app_2; [apply Hr|by constructor]|]. split; [done|]. intros w (v & x & Hv & ->%list_elem_of_singleton & ->)%Hsplit. rewrite <- (app_nil_r t). apply (Hstep [] (drop cursor' cs)); [done|]. exists v, []. split; [done|]. split; [constructor|done].
  - assert (reading cs limit cursor' (atoms ++ [a])) as Hr' by (apply (reading_snoc _ _ cursor); [done|done|done|]; rewrite atoms_words_snoc_length in Hlen; rewrite <- (atom_words_length _ Hok); lia).
    intros [He|(-> & more & u & rest & Hu & Hall & Hover & Hw)]%IH; [by left| |done|lia]. right. split; [done|]. exists (a :: more), (t ++ u), rest. rewrite <- app_assoc in Hall, Hover. split; [by rewrite Hd, Hu, app_assoc|]. split; [done|]. split; [done|].
    intros w (v & x & Hv & Hx & ->)%Hsplit. apply (Hstep u rest); [done|]. exists v, x. split; [done|]. split; [by apply Hw|done].
Qed.
