(* ===== verification/QueueLaws.v ===== *)
(** * What queue pattern expressions denote

    The sequences of an expression ([sequences_of]) and the guarantees of
    [QueuePatternExpression]: parsing returns the sequences of the text's
    alternatives once each and in order, without panicking; ranked access, the
    test of a single sequence, prefixes and copies agree with them; a text of
    bags denotes the sequences a 7-bag randomizer deals. *)

From Stdlib Require Import ZArith Lia Ascii Sorting.Sorted.
From stdpp Require Import prelude strings.
From S2P Require Import Prelude Words PcBoard AllocationLedger Pieces SupplyAutomaton BagWindows BagSequences QueueExpression QueueLanguage QueueParsing QueueGrammar.

Local Open Scope Z_scope.

(** ** The order of sequences *)

Lemma seq_compare_eq v w : seq_compare v w = Eq <-> v = w.
Proof.
  revert w. induction v as [|p v IH]; intros [|q w]; cbn; try done. destruct (Nat.compare_spec (piece_index p) (piece_index q)) as [H%piece_index_inj|H|H].
  - subst q. rewrite IH. split; [by intros ->|by intros [= ->]].
  - split; [done|]. intros [= -> ->]. lia.
  - split; [done|]. intros [= -> ->]. lia.
Qed.

Lemma seq_compare_gt v w : seq_compare v w = Gt <-> seq_compare w v = Lt.
Proof.
  revert w. induction v as [|p v IH]; intros [|q w]; cbn; try done. rewrite (Nat.compare_antisym (piece_index p) (piece_index q)). destruct (Nat.compare (piece_index p) (piece_index q)); cbn; [apply IH|done|done].
Qed.

Definition seq_lt (v w : list PieceKind) : Prop := seq_compare v w = Lt.

Lemma seq_lt_trans u v w : seq_lt u v -> seq_lt v w -> seq_lt u w.
Proof.
  unfold seq_lt. revert v w. induction u as [|p u IH]; intros [|q v] [|r w]; cbn; try done.
  destruct (Nat.compare_spec (piece_index p) (piece_index q)), (Nat.compare_spec (piece_index q) (piece_index r)), (Nat.compare_spec (piece_index p) (piece_index r)); try done; try lia. apply IH.
Qed.

Lemma seq_lt_irrefl v : ~ seq_lt v v.
Proof. unfold seq_lt. by rewrite (proj2 (seq_compare_eq v v) eq_refl). Qed.

Lemma lex_seq_lt v w : lex_lt v w -> seq_lt v w.
Proof. unfold seq_lt. induction 1 as [p q w v H|p w v _ IH]; cbn; [by rewrite (proj2 (Nat.compare_lt_iff _ _) H)|by rewrite Nat.compare_refl]. Qed.

Lemma seq_lt_NoDup l : StronglySorted seq_lt l -> NoDup l.
Proof. induction 1 as [|v l _ IH Hv]; constructor; [|done]. intros Hin. rewrite Forall_forall in Hv. by apply (seq_lt_irrefl v), Hv. Qed.

(** [BTreeSet::insert]. *)
Lemma set_insert_elem v l w : w ∈ set_insert v l <-> w = v \/ w ∈ l.
Proof.
  induction l as [|u l IH]; cbn; [set_solver|]. destruct (seq_compare v u) eqn:Hc; [apply seq_compare_eq in Hc as ->; set_solver|set_solver|]. rewrite !elem_of_cons, IH. set_solver.
Qed.

Lemma set_insert_sorted v l : StronglySorted seq_lt l -> StronglySorted seq_lt (set_insert v l).
Proof.
  induction 1 as [|u l Hl IH Hu]; cbn; [repeat constructor|]. destruct (seq_compare v u) eqn:Hc; [by constructor|constructor; [by constructor|]|constructor; [done|]].
  - constructor; [done|]. eapply Forall_impl; [exact Hu|]. intros w. by apply seq_lt_trans.
  - apply Forall_forall. intros w [->|Hw]%set_insert_elem; [by apply seq_compare_gt|]. rewrite Forall_forall in Hu. by apply Hu.
Qed.

(** ** Ordered sequences of one alternative *)

Lemma app_sorted w l : StronglySorted seq_lt l -> StronglySorted seq_lt (app w <$> l).
Proof.
  intros Hl. induction Hl as [|v l _ IH Hv]; [constructor|]. cbn. constructor; [done|]. apply Forall_fmap. eapply Forall_impl; [exact Hv|]. intros u Hu. unfold compose.
  clear -Hu. induction w as [|p w IH]; [done|]. unfold seq_lt in *. cbn. by rewrite Nat.compare_refl.
Qed.

Lemma seq_lt_app v w u u' : length v = length w -> seq_lt v w -> seq_lt (v ++ u) (w ++ u').
Proof.
  unfold seq_lt. revert w. induction v as [|p v IH]; intros [|q w]; cbn; try done. intros [= Hl]. destruct (Nat.compare _ _); [by apply IH|done|done].
Qed.

Lemma StronglySorted_app_2 {A} (R : A -> A -> Prop) l k : StronglySorted R l -> StronglySorted R k -> (forall x y, x ∈ l -> y ∈ k -> R x y) -> StronglySorted R (l ++ k).
Proof.
  induction 1 as [|x l _ IH Hx]; intros Hk Hlk; [done|]. cbn. constructor; [apply IH; [done|]; intros; apply Hlk; set_solver|]. apply Forall_app_2; [done|]. apply Forall_forall. intros y Hy. apply Hlk; [by left|done].
Qed.

Lemma product_sorted n l k : Forall (fun v => length v = n) l -> StronglySorted seq_lt l -> StronglySorted seq_lt k -> StronglySorted seq_lt (l ≫= fun v => app v <$> k).
Proof.
  intros Hn Hl Hk. induction Hl as [|v l _ IH Hv]; [constructor|]. apply Forall_cons in Hn as [Hvn Hn]. cbn [mbind list_bind]. apply StronglySorted_app_2; [by apply app_sorted|by apply IH|].
  intros x y (u & -> & Hu)%list_elem_of_fmap (w & (u' & -> & Hu')%list_elem_of_fmap & Hw)%list_elem_of_bind. rewrite Forall_forall in Hn, Hv. apply seq_lt_app; [rewrite Hvn; symmetry; by apply Hn|by apply Hv].
Qed.

Lemma atoms_words_sorted atoms : Forall atom_ok atoms -> StronglySorted seq_lt (atoms_words atoms).
Proof.
  induction 1 as [|a atoms Ha _ IH]; [repeat constructor|]. cbn [atoms_words]. apply (product_sorted (Z.to_nat (atom_draw_count a))); [| |done].
  - apply Forall_forall. intros v (Hv & _)%(atom_words_elem _ _ Ha). lia.
  - pose proof (draws_sorted (atom_choices a) (Z.to_nat (atom_draw_count a)) (atom_increasing a Ha)) as Hs. unfold atom_words. induction Hs as [|v l _ IHs Hv]; constructor; [done|]. eapply Forall_impl; [exact Hv|]. apply lex_seq_lt.
Qed.

(** ** Several alternatives *)

(** A sequence of an alternative. *)
Definition denotes (limit : Z) (alternative : list Z) (w : list PieceKind) : Prop :=
  exists s, FactorizedQueuePatternSpace_parse alternative limit = Ok s /\ w ∈ atoms_words (fs_atoms s).

Definition insert_step (limit : Z) (unique : list (list PieceKind)) (sequence : list PieceKind) : Result PatternFailure (list (list PieceKind)) :=
  let unique := set_insert sequence unique in
  if limit <? Z.of_nat (length unique) then pattern_err (PatternLimitExceeded limit) else Ok unique.

Lemma insert_steps limit l unique : StronglySorted seq_lt unique -> Z.of_nat (length unique) <= limit ->
  (forall e, try_fold (insert_step limit) unique l = Err e -> e = PatternError (PatternLimitExceeded limit) /\ too_many limit (fun w => w ∈ unique \/ w ∈ l)) /\
  forall unique', try_fold (insert_step limit) unique l = Ok unique' ->
    StronglySorted seq_lt unique' /\ Z.of_nat (length unique') <= limit /\ forall w, w ∈ unique' <-> w ∈ unique \/ w ∈ l.
Proof.
  revert unique. induction l as [|v l IH]; intros unique Hs Hl; cbn [try_fold].
  - split; [done|]. intros ? [= <-]. split; [done|]. split; [done|]. set_solver.
  - unfold insert_step at 1 3. destruct (Z.ltb_spec limit (Z.of_nat (length (set_insert v unique)))) as [H|H]; cbn [rbind pattern_err].
    { split; [|done]. intros ? [= <-]. split; [done|]. exists (set_insert v unique). split; [by apply seq_lt_NoDup, set_insert_sorted|]. split; [done|]. intros w. rewrite set_insert_elem. set_solver. }
    destruct (IH (set_insert v unique) (set_insert_sorted v unique Hs) H) as [H1 H2].
    split; [intros e He; destruct (H1 e He) as [-> Hm]; split; [done|]; revert Hm; apply too_many_mono; intros w; rewrite set_insert_elem; set_solver|]. intros unique' Hu. destruct (H2 _ Hu) as (Hs' & Hl' & He). split; [done|]. split; [done|].
    intros w. rewrite He, set_insert_elem. set_solver.
Qed.

Lemma union_steps limit alternatives unique : 1 <= limit < 2 ^ 64 -> Forall (fun t => t <> [] /\ Z.of_nat (length t) <= 2 ^ 63) alternatives -> StronglySorted seq_lt unique -> Z.of_nat (length unique) <= limit ->
  let r := try_fold (fun unique alternative => let? expanded := expand_alternative alternative limit in try_fold (insert_step limit) unique expanded) unique alternatives in
  (forall e, r = Err e -> (e = PatternError (PatternLimitExceeded limit) /\ too_many limit (fun w => w ∈ unique \/ exists t, t ∈ alternatives /\ denotes limit t w)) \/ exists t, t ∈ alternatives /\ FactorizedQueuePatternSpace_parse t limit = Err e) /\
  forall unique', r = Ok unique' -> StronglySorted seq_lt unique' /\ Z.of_nat (length unique') <= limit /\
    (forall w, w ∈ unique' <-> w ∈ unique \/ exists t, t ∈ alternatives /\ denotes limit t w) /\ Forall (fun t => exists s, FactorizedQueuePatternSpace_parse t limit = Ok s) alternatives.
Proof.
  intros Hlim Ht. revert unique. induction Ht as [|t alternatives [Hne H63] _ IH]; intros unique Hs Hl; cbv zeta; cbn [try_fold].
  - split; [done|]. intros ? [= <-]. split; [done|]. split; [done|]. split; [set_solver|constructor].
  - destruct (space_parse_spec t limit Hlim H63) as (H1 & H2 & _). rewrite (H2 Hne). unfold denotes. destruct (FactorizedQueuePatternSpace_parse t limit) as [s|e] eqn:Hparse; cbn [rbind]; [|split; [intros ? [= <-]; right; exists t; split; [by left|done]|done]].
    destruct (insert_steps limit (atoms_words (fs_atoms s)) unique Hs Hl) as [H3 H4]. destruct (try_fold (insert_step limit) unique _) as [unique1|e] eqn:Hin; cbn [rbind].
    2:{ split; [|done]. intros ? [= <-]. left. destruct (H3 _ eq_refl) as [-> Hm]. split; [done|]. revert Hm. apply too_many_mono. intros w [Hw|Hw]; [by left|right]. exists t. split; [by left|by exists s]. }
    destruct (H4 _ eq_refl) as (Hs1 & Hl1 & He1). destruct (IH unique1 Hs1 Hl1) as [H5 H6]. split.
    { intros e He. destruct (H5 e He) as [[-> Hm]|(t' & Ht' & Hx)]; [left|right; exists t'; split; [by right|done]]. split; [done|]. revert Hm. apply too_many_mono. intros w [[Hw|Hw]%He1|(t' & Ht' & Hw)]; [by left|right; exists t; split; [by left|by exists s]|right; exists t'; split; [by right|done]]. }
    intros unique' Hu. destruct (H6 _ Hu) as (Hs' & Hl' & He' & Hall). split; [done|]. split; [done|].
    split; [|constructor; [by exists s|done]]. intros w. rewrite He', He1. setoid_rewrite elem_of_cons. unfold denotes. split.
    + intros [[Hw|Hw]|(t' & Ht' & Hw)]; [by left|right; exists t; split; [by left|]; by exists s|right; exists t'; split; [by right|done]].
    + intros [Hw|(t' & [->|Ht'] & (s' & Hs'' & Hw))]; [by do 2 left| |right; exists t'; split; [done|by exists s']]. rewrite Hparse in Hs''. injection Hs'' as <-. by left; right.
Qed.

Lemma try_fold_ok_map {E A B} (f : A -> B) (g : A -> Result E B) l acc : (forall a, a ∈ l -> g a = Ok (f a)) -> try_fold (fun acc a => let? b := g a in Ok (acc ++ [b])) acc l = Ok (acc ++ (f <$> l)).
Proof.
  revert acc. induction l as [|a l IH]; intros acc Hg; cbn [try_fold fmap list_fmap]; [by rewrite app_nil_r|]. rewrite (Hg a) by by left. cbn [rbind]. rewrite IH by (intros; apply Hg; by right). by rewrite <- app_assoc.
Qed.

(** ** The sequences of an expression *)

Definition sequences_of (e : QueuePatternExpression) : list (list PieceKind) :=
  match qe_sequences e with
  | Explicit sequences => sequences
  | Factorized s => take (Z.to_nat (fs_visible_sequence_len s)) <$> atoms_words (fs_atoms s)
  end.

(** Every expression the parser, [prefix] and [duplicate_finite] build. *)
Record expression_ok (limit : Z) (e : QueuePatternExpression) : Prop := {
  expression_len : 0 <= qe_sequence_len e;
  expression_sequences : Forall (fun w => Z.of_nat (length w) = qe_sequence_len e) (sequences_of e);
  expression_space : forall s, qe_sequences e = Factorized s -> space_ok limit s /\ fs_visible_sequence_len s = qe_sequence_len e /\ qe_sequence_len e <= fs_full_sequence_len s
}.

Lemma space_sequence_words limit s index : space_ok limit s -> 0 <= fs_visible_sequence_len s -> 0 <= index < fs_pattern_count s ->
  exists w, atoms_words (fs_atoms s) !! Z.to_nat index = Some w /\ space_sequence s index = Ok (take (Z.to_nat (fs_visible_sequence_len s)) w).
Proof.
  intros [Ha Hne Hc _ _] Hv Hi. unfold space_sequence. rewrite (proj2 (Z.ltb_lt _ _)) by lia. cbn [negb]. rewrite Hc in Hi |- *.
  destruct (sequence_loop_words (fs_atoms s) (fs_visible_sequence_len s) index [] Ha Hv) as (w & Hw & Hrun); [done|done|]. by exists w.
Qed.

Lemma pattern_count_sequences limit e : expression_ok limit e -> pattern_count e = Z.of_nat (length (sequences_of e)).
Proof.
  intros [_ _ Hs]. unfold pattern_count, sequences_of. destruct (qe_sequences e) as [l|s]; [done|]. cbn. rewrite length_fmap. destruct (Hs s eq_refl) as [[_ _ -> _ _] _]. done.
Qed.

(** Ranked access. *)
Lemma sequence_at_sequences limit e index : expression_ok limit e -> 0 <= index < pattern_count e ->
  exists w, sequences_of e !! Z.to_nat index = Some w /\ sequence_at e index = Ok w.
Proof.
  intros Hok Hi. pose proof (pattern_count_sequences limit e Hok) as Hc. destruct (lookup_lt_is_Some_2 (sequences_of e) (Z.to_nat index) ltac:(lia)) as [w Hw]. exists w. split; [done|].
  destruct Hok as [Hl _ Hs]. unfold sequence_at, sequences_of, pattern_count in *. destruct (qe_sequences e) as [l|s]; cbn [storage_sequence_at storage_len] in *; [by rewrite Hw|].
  destruct (Hs s eq_refl) as [Hsp [Hv Hf]]. destruct (space_sequence_words limit s index Hsp ltac:(lia) Hi) as (u & Hu & ->). rewrite list_lookup_fmap, Hu in Hw. by injection Hw as <-.
Qed.

(** ** Parsing *)

Lemma take_draws atoms n : Forall atom_ok atoms -> atoms_draws atoms <= n -> take (Z.to_nat n) <$> atoms_words atoms = atoms_words atoms.
Proof.
  intros Ha Hn. rewrite <- (list_fmap_id (atoms_words atoms)) at 2. apply list_fmap_ext. intros i w Hw. apply take_ge. apply list_elem_of_lookup_2 in Hw. pose proof (atoms_words_elem_length atoms w Ha Hw).
  unfold id. lia.
Qed.

Lemma space_sequences limit s : space_ok limit s -> fs_visible_sequence_len s = fs_full_sequence_len s ->
  try_fold (fun sequences index => let? sequence := space_sequence s index in Ok (sequences ++ [sequence])) [] (seqZ 0 (fs_pattern_count s)) = Ok (atoms_words (fs_atoms s)).
Proof.
  intros Hs Hv. destruct (Hs) as [Ha _ Hc _ Hf]. pose proof (atoms_draws_nonneg _ Ha) as Hd.
  rewrite (try_fold_ok_map (fun i => default [] (atoms_words (fs_atoms s) !! Z.to_nat i))).
  - cbn [app]. f_equal. apply list_eq. intros i. rewrite list_lookup_fmap. destruct (decide (i < length (atoms_words (fs_atoms s)))%nat) as [Hi|Hi].
    + rewrite lookup_seqZ_lt by lia. cbn [fmap option_fmap option_map]. rewrite Z.add_0_l, Nat2Z.id. destruct (lookup_lt_is_Some_2 _ _ Hi) as [w ->]. done.
    + rewrite lookup_seqZ_ge by lia. rewrite lookup_ge_None_2 by lia. done.
  - intros i Hi%elem_of_seqZ. destruct (space_sequence_words limit s i Hs ltac:(lia) ltac:(lia)) as (w & Hw & ->). rewrite Hw. cbn [from_option]. unfold id. f_equal. apply take_ge.
    apply list_elem_of_lookup_2 in Hw. pose proof (atoms_words_elem_length _ w Ha Hw). lia.
Qed.

Lemma split_on_spec sep source : Forall (fun t => Z.of_nat (length t) <= Z.of_nat (length source)) (split_on sep source).
Proof.
  induction source as [|c source IH]; cbn [split_on]; [by repeat constructor|]. destruct (c =? sep).
  - constructor; [cbn; lia|]. eapply Forall_impl; [exact IH|]. cbn. intros; lia.
  - destruct (split_on sep source) as [|t ts]; [constructor; [cbn; lia|constructor]|]. apply Forall_cons in IH as [Ht IH]. constructor; [cbn; lia|]. eapply Forall_impl; [exact IH|]. cbn. intros; lia.
Qed.

Lemma scan_depth_local source index depth : reports_local (scan_depth source index depth).
Proof. revert index depth. induction source as [|c source IH]; intros index depth; cbn; [done|]. destruct (c =? ch "["); [apply IH|]. destruct (c =? ch "]"); [|apply IH]. by destruct (depth =? 0). Qed.

Lemma split_alternatives_spec source : Z.of_nat (length source) <= 2 ^ 63 -> split_alternatives source <> Err PatternPanic /\
  forall alternatives, split_alternatives source = Ok alternatives -> alternatives = split_on (ch ";") source /\ Forall (fun t => t <> [] /\ Z.of_nat (length t) <= 2 ^ 63) alternatives.
Proof.
  intros H63. unfold split_alternatives. pose proof (scan_depth_local source 0 0) as Hp. destruct (scan_depth source 0 0) as [d|e]; cbn [rbind]; [|split; [intros [= ->]; done|done]]. destruct (negb (d =? 0)); [done|].
  destruct (existsb _ _) eqn:Hex; [done|]. split; [done|]. intros ? [= <-]. split; [done|]. pose proof (split_on_spec (ch ";") source) as Hl. rewrite Forall_forall in Hl |- *. intros t Ht. split; [|specialize (Hl t Ht); lia].
  intros ->. assert (existsb (fun alternative : list Z => bool_decide (alternative = [])) (split_on (ch ";") source) = true) as Ht'; [|by rewrite Ht' in Hex]. apply existsb_exists. exists []. split; [by apply list_elem_of_In|done].
Qed.

(** What [parse] has stored before its last checks. *)
Record parsed (limit : Z) (alternatives : list (list Z)) (e : QueuePatternExpression) : Prop := {
  parsed_len : 1 <= qe_sequence_len e;
  parsed_first : exists w, w ∈ sequences_of e /\ Z.of_nat (length w) = qe_sequence_len e;
  parsed_sorted : StronglySorted seq_lt (sequences_of e);
  parsed_elem : forall w, w ∈ sequences_of e <-> exists t, t ∈ alternatives /\ denotes limit t w;
  parsed_all : Forall (fun t => exists s, FactorizedQueuePatternSpace_parse t limit = Ok s) alternatives;
  parsed_limit : Z.of_nat (length (sequences_of e)) <= limit;
  parsed_space : forall s, qe_sequences e = Factorized s -> space_ok limit s /\ fs_visible_sequence_len s = qe_sequence_len e /\ qe_sequence_len e = fs_full_sequence_len s
}.

Lemma space_words limit s : space_ok limit s -> 1 <= atoms_draws (fs_atoms s) /\ exists w, w ∈ atoms_words (fs_atoms s).
Proof.
  intros [Ha Hne _ _ _]. split; [|destruct (lookup_lt_is_Some_2 _ _ (atoms_words_pos _ Ha)) as [w Hw%list_elem_of_lookup_2]; by exists w].
  destruct Ha as [|a atoms Ha Hat]; [done|]. change (atoms_draws (a :: atoms)) with (atom_draw_count a + atoms_draws atoms). pose proof (atoms_draws_nonneg _ Hat). pose proof (atom_draws a Ha). lia.
Qed.

(** A failure to store: the limit is exceeded, or an alternative cannot be
    read. *)
Definition storage_failure (limit : Z) (alternatives : list (list Z)) (e : PatternFailure) : Prop :=
  (e = PatternError (PatternLimitExceeded limit) /\ too_many limit (fun w => exists t, t ∈ alternatives /\ denotes limit t w)) \/ exists t, t ∈ alternatives /\ FactorizedQueuePatternSpace_parse t limit = Err e.

(** Several alternatives. *)
Lemma parse_union_spec limit alternatives source : 1 <= limit < 2 ^ 64 -> alternatives <> [] -> Forall (fun t => t <> [] /\ Z.of_nat (length t) <= 2 ^ 63) alternatives ->
  let r := let? sequences := union_alternatives limit alternatives in match sequences with [] => pattern_err PatternEmpty | first :: _ => Ok (Explicit sequences, Z.of_nat (length first)) end in
  (forall e, r = Err e -> storage_failure limit alternatives e) /\ forall storage len, r = Ok (storage, len) -> parsed limit alternatives (mkExpression source storage len).
Proof.
  intros Hlim Hne Ht. cbv zeta. destruct (union_steps limit alternatives [] Hlim Ht ltac:(constructor) ltac:(cbn; lia)) as [H1 H2].
  change (union_alternatives limit alternatives) with (try_fold (fun unique alternative => let? expanded := expand_alternative alternative limit in try_fold (insert_step limit) unique expanded) [] alternatives).
  destruct (try_fold _ _ _) as [l|e]; cbn [rbind].
  2:{ split; [|done]. intros ? [= <-]. destruct (H1 e eq_refl) as [[-> Hm]|Hx]; [left|by right]. split; [done|]. revert Hm. apply too_many_mono. intros w [Hw|Hw]; [by apply not_elem_of_nil in Hw|done]. }
  destruct (H2 _ eq_refl) as (Hs & Hl & He & Hall).
  assert (forall w, w ∈ l <-> exists t, t ∈ alternatives /\ denotes limit t w) as Hden by (intros w; rewrite He; set_solver).
  assert (forall t s, t ∈ alternatives -> FactorizedQueuePatternSpace_parse t limit = Ok s -> space_ok limit s) as Hsp.
  { intros t s Hin Hp. rewrite Forall_forall in Ht. destruct (Ht t Hin) as [_ H63]. destruct (space_parse_spec t limit Hlim H63) as (_ & _ & H3). by apply H3. }
  destruct l as [|first l].
  - exfalso. destruct alternatives as [|t alternatives]; [done|]. apply Forall_cons in Hall as [[s Hp] _]. destruct (space_words limit s (Hsp t s ltac:(by left) Hp)) as [_ [w Hw]]. apply (not_elem_of_nil w), Hden. exists t. split; [by left|]. by exists s.
  - split; [done|]. intros storage len [= <- <-]. split; cbn [qe_sequence_len qe_sequences sequences_of]; [|exists first; split; [by left|done]|done|done|done|done|done].
    destruct (proj1 (Hden first) ltac:(by left)) as (t & Hin & s & Hp & Hw). specialize (Hsp t s Hin Hp). destruct (space_words limit s Hsp) as [Hd _]. destruct Hsp as [Ha _ _ _ _]. rewrite (atoms_words_elem_length _ _ Ha Hw). done.
Qed.

Lemma parse_storage_spec limit alternatives source : 1 <= limit < 2 ^ 64 -> alternatives <> [] -> Forall (fun t => t <> [] /\ Z.of_nat (length t) <= 2 ^ 63) alternatives ->
  (forall e, parse_storage limit alternatives = Err e -> storage_failure limit alternatives e) /\
  forall storage len, parse_storage limit alternatives = Ok (storage, len) -> parsed limit alternatives (mkExpression source storage len).
Proof.
  intros Hlim Halt Ht. destruct alternatives as [|t [|t' alternatives]]; [done| |by apply parse_union_spec]. cbn [parse_storage]. apply Forall_cons in Ht as [[Hne H63] _].
  destruct (space_parse_spec t limit Hlim H63) as (H1 & _ & H3). destruct (FactorizedQueuePatternSpace_parse t limit) as [s|e] eqn:Hparse; cbn [rbind]; [|split; [intros ? [= <-]; right; exists t; split; [by left|done]|done]]. destruct (H3 _ eq_refl) as [Hs Hv]. clear H3.
  assert (forall storage, sequences_of (mkExpression source storage (fs_visible_sequence_len s)) = atoms_words (fs_atoms s) -> (forall s', storage = Factorized s' -> s' = s) -> parsed limit [t] (mkExpression source storage (fs_visible_sequence_len s))) as Hone.
  { intros storage Hseq Hst. destruct (space_words limit s Hs) as [Hpos [w0 Hw0]]. destruct (Hs) as [Ha _ Hc Hl Hf]. split; cbn [qe_sequence_len qe_sequences]; rewrite ?Hseq.
    - lia.
    - exists w0. split; [done|]. rewrite (atoms_words_elem_length _ _ Ha Hw0). lia.
    - by apply atoms_words_sorted.
    - intros w. split; [intros Hw; exists t; split; [by left|]; by exists s|]. intros (t' & ->%list_elem_of_singleton & s' & Hs' & Hw). rewrite Hparse in Hs'. by injection Hs' as <-.
    - constructor; [by exists s|constructor].
    - lia.
    - intros s' ->%Hst. done. }
  destruct (_ <? _).
  - split; [done|]. intros storage len [= <- <-]. apply Hone; [|by intros ? [= ->]]. cbn. apply take_draws; [apply Hs|]. destruct Hs as [_ _ _ _ Hf]. lia.
  - rewrite (space_sequences limit s Hs Hv). cbn [rbind]. split; [done|]. intros storage len [= <- <-]. by apply Hone.
Qed.

Lemma parsed_expression_ok limit alternatives e : parsed limit alternatives e -> has_mixed_sequence_lengths (qe_sequences e) (qe_sequence_len e) = false -> expression_ok limit e.
Proof.
  intros [Hl _ Hs _ _ _ Hsp] Hm. split; [lia| |intros s H; destruct (Hsp s H) as (? & ? & ?); split; [done|lia]]. unfold sequences_of. destruct (qe_sequences e) as [l|s] eqn:Hq; cbn [has_mixed_sequence_lengths] in Hm.
  - apply Forall_forall. intros w Hw. destruct (Z.eqb_spec (Z.of_nat (length w)) (qe_sequence_len e)) as [|Hne]; [done|]. exfalso. apply not_true_iff_false in Hm. apply Hm, existsb_exists. exists w. split; [by apply list_elem_of_In|].
    by rewrite (proj2 (Z.eqb_neq _ _) Hne).
  - destruct (Hsp s eq_refl) as (Hok & Hv & Hf). destruct Hok as [Ha _ _ _ Hful]. rewrite take_draws by (done || lia). apply Forall_forall. intros w Hw. rewrite (atoms_words_elem_length _ w Ha Hw). lia.
Qed.

(** The test of one sequence. *)
Lemma matches_parsed limit alternatives e w : parsed limit alternatives e -> expression_ok limit e -> matches_sequence e w = true <-> w ∈ sequences_of e.
Proof.
  intros Hp [_ Hl _]. unfold matches_sequence. destruct (Z.eqb_spec (Z.of_nat (length w)) (qe_sequence_len e)) as [Hlen|Hlen]; cbn [negb].
  - destruct Hp as [_ _ _ _ _ _ Hsp]. unfold sequences_of. destruct (qe_sequences e) as [l|s].
    + rewrite existsb_exists. setoid_rewrite bool_decide_eq_true. split; [intros (? & ?%list_elem_of_In & ->); done|]. intros Hw. exists w. split; [by apply list_elem_of_In|done].
    + destruct (Hsp s eq_refl) as ([Ha _ _ _ Hful] & Hv & Hf). rewrite take_draws by (done || lia). rewrite atoms_match_spec by (done || lia). done.
  - split; [done|]. intros Hw. rewrite Forall_forall in Hl. by specialize (Hl w Hw).
Qed.

Definition expression_limit (max_patterns : Z) : Z := if max_patterns =? 0 then umax 64 else max_patterns.

Lemma expression_limit_range max_patterns : in_width 64 max_patterns -> 1 <= expression_limit max_patterns < 2 ^ 64.
Proof. intros H. unfold in_width in H. unfold expression_limit. destruct (Z.eqb_spec max_patterns 0); [by vm_compute|lia]. Qed.

(** ** Prefixes *)

Lemma prefix_sequences limit e n : expression_ok limit e -> 0 <= n -> exists e',
  expression_prefix e n = Ok e' /\ expression_ok limit e' /\ sequences_of e' = take (Z.to_nat n) <$> sequences_of e /\ qe_sequence_len e' = Z.min n (qe_sequence_len e) /\ qe_source e' = qe_source e.
Proof.
  intros [Hl Hs Hsp] Hn. unfold expression_prefix. set (m := Z.min n (qe_sequence_len e)). unfold sequences_of in Hs |- *. destruct (qe_sequences e) as [l|s] eqn:Hq.
  - rewrite Forall_forall in Hs. rewrite (try_fold_ok_map (take (Z.to_nat m))) by (intros w Hw; specialize (Hs w Hw); unfold slice_to; rewrite (proj2 (Z.ltb_ge _ _)); [done|lia]). cbn [rbind app].
    eexists. split; [done|]. cbn [qe_sequences qe_sequence_len qe_source]. assert (take (Z.to_nat m) <$> l = take (Z.to_nat n) <$> l) as Heq.
    { apply list_fmap_ext. intros i w Hw%list_elem_of_lookup_2. specialize (Hs w Hw). unfold m. destruct (Z.min_spec n (qe_sequence_len e)) as [[_ ->]|[? ->]]; [done|]. rewrite !take_ge by lia. done. }
    split; [|split; [done|split; done]]. split; cbn [qe_sequences qe_sequence_len sequences_of]; [lia| |done]. apply Forall_fmap, Forall_forall. intros w Hw. specialize (Hs w Hw). unfold compose. rewrite length_take. lia.
  - destruct (Hsp s eq_refl) as (Hok & Hv & Hf). cbn [rbind]. eexists. split; [done|]. unfold space_prefix. cbn [qe_sequences qe_sequence_len qe_source]. cbn [fs_visible_sequence_len fs_atoms].
    replace (Z.min m (fs_full_sequence_len s)) with m by lia. assert (take (Z.to_nat m) <$> atoms_words (fs_atoms s) = take (Z.to_nat n) <$> (take (Z.to_nat (fs_visible_sequence_len s)) <$> atoms_words (fs_atoms s))) as Heq.
    { rewrite <- list_fmap_compose. apply list_fmap_ext. intros i w _. unfold compose. rewrite take_take. f_equal. lia. }
    split; [|split; [done|split; done]]. destruct Hok as [Ha Hne Hc Hlim Hfull]. split; cbn [qe_sequences qe_sequence_len sequences_of]; [lia| |].
    + cbn [fs_visible_sequence_len fs_atoms]. apply Forall_fmap, Forall_forall. intros w Hw. unfold compose. rewrite length_take. pose proof (atoms_words_elem_length _ w Ha Hw). lia.
    + intros s' [= <-]. cbn [fs_visible_sequence_len fs_full_sequence_len]. split; [by split|]. lia.
Qed.

(** ** Texts of bags *)

Definition no_bracket (c : Z) : Prop := c <> ch "[" /\ c <> ch "]".

Definition bag_atom (n : Z) : FactorizedPatternAtom := mkAtom STANDARD_TETROMINOES n (Z.of_nat (falling 7 (Z.to_nat n))).

Lemma bag_atom_ok n : 1 <= n <= 7 -> atom_ok (bag_atom n).
Proof. intros H. split; [apply standard_increasing|done|done]. Qed.

Lemma bag_atom_read cs cursor count rest : drop cursor cs = ch "P" :: rest -> leading_digits rest <> [] -> parse_usize (leading_digits rest) = Some count -> 1 <= count <= 7 ->
  parse_factorized_atom cs cursor = Ok (bag_atom count, (S cursor + length (leading_digits rest))%nat).
Proof.
  intros Hd Hne Hu Hc. unfold parse_factorized_atom. assert (cs !! cursor = Some (ch "P")) as -> by (rewrite <- (Nat.add_0_r cursor), <- lookup_drop, Hd; done). cbn [or_panic rbind].
  change (piece_from_char (ch "P")) with (Err (A := PieceKind) UnknownPiece). cbv iota. rewrite Z.eqb_refl. unfold parse_count. assert (drop (S cursor) cs = rest) as -> by (replace (S cursor) with (cursor + 1)%nat by lia; rewrite <- drop_drop, Hd; done).
  destruct (leading_digits rest) as [|d ds] eqn:Hds; [done|]. rewrite Hu. cbn [rbind]. rewrite atom_new_increasing by (apply standard_increasing || lia).
  rewrite (proj2 (Z.eqb_neq _ _)), (proj2 (Z.ltb_ge _ _)) by (cbn [length STANDARD_TETROMINOES]; lia). done.
Qed.

(** One step of [bag_counts]. *)
Lemma bag_counts_step fuel rest counts counts' : bag_counts (S fuel) (ch "P" :: rest) counts = Some counts' -> leading_digits rest <> [] /\
  exists count, parse_usize (leading_digits rest) = Some count /\ 1 <= count <= 7 /\ bag_counts fuel (drop (length (leading_digits rest)) rest) (counts ++ [count]) = Some counts'.
Proof.
  cbn [bag_counts]. rewrite Z.eqb_refl. cbn [negb]. destruct (leading_digits rest) as [|d ds] eqn:Hds; [done|]. destruct (parse_usize (d :: ds)) as [count|] eqn:Hu; [|done]. cbn [mbind option_bind].
  destruct (Z.leb_spec 1 count), (Z.leb_spec count 7); cbn [andb]; try done. intros Hb. split; [done|]. by exists count.
Qed.

Lemma bag_counts_head fuel c rest counts counts' : bag_counts fuel (c :: rest) counts = Some counts' -> c = ch "P" /\ exists fuel', fuel = S fuel'.
Proof. destruct fuel as [|fuel]; [done|]. cbn [bag_counts]. destruct (Z.eqb_spec c (ch "P")) as [->|]; [|done]. by eauto. Qed.

Lemma bag_counts_more fuel text counts counts' : bag_counts fuel text counts = Some counts' ->
  exists more, counts' = counts ++ more /\ Forall (fun n => 1 <= n <= 7) more /\ Forall (fun c => c <> ch ";" /\ no_bracket c) text.
Proof.
  revert text counts. induction fuel as [|fuel IH]; intros [|c rest] counts H; try done.
  1, 2: injection H as <-; exists []; rewrite app_nil_r; by repeat constructor.
  destruct (bag_counts_head _ _ _ _ _ H) as [-> _]. apply bag_counts_step in H as (_ & count & _ & Hc & H). destruct (IH _ _ H) as (more & -> & Hm & Hs). exists (count :: more). rewrite <- app_assoc. split; [done|]. split; [by constructor|].
  constructor; [by repeat split|]. rewrite <- (take_drop (length (leading_digits rest)) rest). apply Forall_app_2; [|done]. destruct (leading_digits_spec rest) as [Hd [rest' Hr]].
  assert (take (length (leading_digits rest)) rest = leading_digits rest) as -> by (rewrite Hr at 2; apply take_app_length). eapply Forall_impl; [exact Hd|]. intros x Hx. split; [|split]; by intros ->.
Qed.

(** Reading a text of bags gives their atoms, within the limit. *)
Lemma bag_counts_read cs limit : 1 <= limit < 2 ^ 64 -> Z.of_nat (length cs) <= 2 ^ 63 -> forall more fuel fuel' cursor counts atoms, reading cs limit cursor atoms -> (length cs - cursor <= fuel')%nat ->
  bag_counts fuel (drop cursor cs) counts = Some (counts ++ more) ->
  match parse_space_loop fuel' cs limit cursor atoms (Z.of_nat (length (atoms_words atoms))) (atoms_draws atoms) with
  | Ok (atoms', _, _) => atoms' = atoms ++ (bag_atom <$> more)
  | Err e => e = PatternError (PatternLimitExceeded limit)
  end.
Proof.
  intros Hlim H63 more. induction more as [|n more IH]; intros fuel fuel' cursor counts atoms Hr Hf H; destruct (drop cursor cs) as [|c rest] eqn:Hd.
  - apply (f_equal length) in Hd. rewrite length_drop in Hd. cbn in Hd. destruct fuel'; cbn [parse_space_loop]; rewrite (proj2 (Nat.ltb_ge _ _)) by lia; cbn; by rewrite app_nil_r.
  - destruct (bag_counts_head _ _ _ _ _ H) as [-> [fuel1 ->]]. apply bag_counts_step in H as (_ & count & _ & _ & H). destruct (bag_counts_more _ _ _ _ H) as (more & Heq & _). apply (f_equal length) in Heq. rewrite !length_app in Heq. cbn in Heq. lia.
  - exfalso. destruct fuel; cbn in H; injection H as H; apply (f_equal length) in H; rewrite length_app in H; cbn in H; lia.
  - destruct (bag_counts_head _ _ _ _ _ H) as [-> [fuel1 ->]]. apply bag_counts_step in H as (Hne & count & Hu & Hc & H). destruct (bag_counts_more _ _ _ _ H) as (more' & Heq & _). rewrite <- app_assoc in Heq. apply (inj (app counts)) in Heq. injection Heq as -> ->.
    pose proof (bag_atom_read cs cursor count rest Hd Hne Hu Hc) as Ha. set (cursor' := (S cursor + length (leading_digits rest))%nat) in *. destruct (parse_factorized_atom_ok _ _ _ _ Ha) as [Hok Hc'].
    assert (drop (length (leading_digits rest)) rest = drop cursor' cs) as Hd' by (unfold cursor'; replace (S cursor + length (leading_digits rest))%nat with (cursor + (1 + length (leading_digits rest)))%nat by lia; rewrite <- drop_drop, Hd; done).
    assert (cursor < length cs)%nat as Hlt by lia. destruct fuel' as [|fuel']; [lia|]. rewrite (space_loop_step _ _ _ _ _ _ _ Hr) by (done || lia). destruct (Z.ltb_spec limit (Z.of_nat (length (atoms_words (atoms ++ [bag_atom count]))))) as [Hl|Hl]; [done|].
    assert (reading cs limit cursor' (atoms ++ [bag_atom count])) as Hr' by (apply (reading_snoc _ _ cursor); [done|done|done|]; rewrite atoms_words_snoc_length in Hl; rewrite <- (atom_words_length _ Hok); lia).
    rewrite Hd' in H. replace (counts ++ count :: more') with ((counts ++ [count]) ++ more') in H by by rewrite <- app_assoc. specialize (IH fuel1 fuel' cursor' (counts ++ [count]) _ Hr' ltac:(lia) H).
    destruct (parse_space_loop _ _ _ _ _ _ _) as [[[atoms' ?] ?]|]; [|done]. rewrite IH, <- app_assoc. done.
Qed.

(** The draws of the seven pieces. *)
Lemma standard_draws (w : list PieceKind) : w ⊆+ STANDARD_TETROMINOES <-> NoDup w.
Proof.
  split.
  - intros [k Hk]%submseteq_Permutation. pose proof (increasing_NoDup _ standard_increasing) as Hn. rewrite Hk in Hn. by apply NoDup_app in Hn as [Hn _].
  - intros Hw. apply NoDup_submseteq; [done|]. intros p _. destruct p; set_solver.
Qed.

Lemma bag_atom_words n (w : list PieceKind) : 1 <= n <= 7 -> w ∈ atom_words (bag_atom n) <-> Z.of_nat (length w) = n /\ w ⊆+ STANDARD_TETROMINOES.
Proof.
  intros Hn. rewrite (atom_words_elem _ _ (bag_atom_ok n Hn)), standard_draws. cbn [bag_atom atom_draw_count atom_choices]. split; [by intros (? & ? & _)|]. intros (? & ?). split; [done|]. split; [done|]. intros p _. destruct p; set_solver.
Qed.

(** The sequences of full bags followed by a part of one. *)
Lemma bag_atoms_words counts m (w : list PieceKind) : Forall (fun n => n = 7) counts -> 1 <= m <= 7 ->
  w ∈ atoms_words (bag_atom <$> (counts ++ [m])) <-> Z.of_nat (length w) = 7 * Z.of_nat (length counts) + m /\ bag_sequence STANDARD_TETROMINOES w.
Proof.
  intros Hc Hm. revert w. induction Hc as [|n counts -> Hc IH]; intros w; cbn [app fmap list_fmap atoms_words]; rewrite list_elem_of_bind.
  - split.
    + intros (v & ->%list_elem_of_singleton & [Hl Hv]%(bag_atom_words m _ Hm)). rewrite app_nil_r. split; [cbn; lia|]. exists [], v. split; [done|]. split; [constructor|done].
    + intros [Hl (bags & last & -> & Hb & Hlast)]. exists (concat bags ++ last). split; [rewrite app_nil_r; by left|]. apply bag_atom_words; [done|]. split; [cbn in Hl; lia|]. destruct Hb as [|b bags Hb Hbs]; [done|]. rewrite concat_cons, <- app_assoc in *.
      rewrite length_app, (Permutation_length Hb) in Hl. cbn [length STANDARD_TETROMINOES] in Hl. assert (concat bags ++ last = []) as -> by (apply length_zero_iff_nil; lia). rewrite app_nil_r. by rewrite Hb.
  - split.
    + intros (v & (u & -> & [Hu (bags & last & -> & Hb & Hlast)]%IH)%list_elem_of_fmap & [Hl Hv]%bag_atom_words); [|lia]. split; [rewrite length_app; cbn [length]; lia|]. exists (v :: bags), last. split; [by rewrite concat_cons, app_assoc|]. split; [|done].
      constructor; [|done]. apply submseteq_length_Permutation; [done|]. cbn [length STANDARD_TETROMINOES]. lia.
    + intros [Hl (bags & last & -> & Hb & Hlast)]. destruct Hb as [|b bags Hb Hbs]; [apply submseteq_length in Hlast; cbn in Hl, Hlast; lia|]. rewrite concat_cons, <- app_assoc in *.
      rewrite length_app, (Permutation_length Hb) in Hl. exists b. split; [apply list_elem_of_fmap; eexists; split; [done|]; apply IH; split; [cbn [length STANDARD_TETROMINOES] in Hl; lia|by exists bags, last]|].
      apply bag_atom_words; [lia|]. rewrite (Permutation_length Hb), Hb. done.
Qed.

Lemma sum_sevens counts acc : Forall (fun n => n = 7) counts -> foldl Z.add acc counts = acc + 7 * Z.of_nat (length counts).
Proof. intros H. revert acc. induction H as [|n l -> _ IH]; intros acc; cbn [foldl]; [cbn; lia|]. rewrite IH. cbn [length]. lia. Qed.

Lemma split_on_none sep source : Forall (fun c => c <> sep) source -> split_on sep source = [source].
Proof. induction 1 as [|c source Hc _ IH]; [done|]. cbn. rewrite (proj2 (Z.eqb_neq _ _) Hc), IH. done. Qed.

(** ** Brackets *)

Lemma scan_no_bracket l rest index depth : Forall no_bracket l -> exists index', scan_depth (l ++ rest) index depth = scan_depth rest index' depth.
Proof.
  intros H. revert index. induction H as [|c l [H1 H2] _ IH]; intros index; cbn [app scan_depth]; [by eexists|]. rewrite (proj2 (Z.eqb_neq _ _) H1), (proj2 (Z.eqb_neq _ _) H2). apply IH.
Qed.

Lemma piece_no_bracket c p : piece_from_char c = Ok p -> no_bracket c.
Proof. intros Hp. split; intros ->; done. Qed.

Lemma digits_no_bracket digits : Forall (fun c => is_digit c = true) digits -> Forall no_bracket digits.
Proof. intros H. eapply Forall_impl; [exact H|]. intros c Hc. split; intros ->; done. Qed.

(** Scanning a group comes back to the depth before it. *)
Lemma scan_group t choices rest index : group_text t choices -> exists index', scan_depth (t ++ rest) index 0 = scan_depth rest index' 0.
Proof.
  intros [complement names named Hf _]. rewrite <- !app_assoc. cbn [app scan_depth]. change (ch "[" =? ch "[") with true. cbv iota. change (saturating_add 64 0 1) with 1.
  destruct (scan_no_bracket ((if complement then [ch "^"] else []) ++ names) (ch "]" :: rest) (index + len_utf8 (ch "[")) 1) as [index' Hscan].
  { apply Forall_app_2; [destruct complement; by repeat constructor|]. clear -Hf. induction Hf as [|c p names named Hp _ IH]; constructor; [by eapply piece_no_bracket|done]. }
  rewrite <- app_assoc in Hscan. rewrite Hscan. cbn [scan_depth]. change (ch "]" =? ch "[") with false. change (ch "]" =? ch "]") with true. cbn [Z.eqb]. by eexists.
Qed.

Lemma scan_atom t choices n bare rest index : atom_text t choices n bare -> exists index', scan_depth (t ++ rest) index 0 = scan_depth rest index' 0.
Proof.
  intros [c p Hp|digits [_ Hd]| | |g cs Hg|g cs Hg|g cs digits Hg [_ Hd]]; try (apply scan_no_bracket; by repeat constructor).
  - apply scan_no_bracket. constructor; [by eapply piece_no_bracket|constructor].
  - apply scan_no_bracket. constructor; [done|by apply digits_no_bracket].
  - by eapply scan_group.
  - rewrite <- app_assoc. destruct (scan_group g cs ([ch "!"] ++ rest) index Hg) as [index' ->]. apply scan_no_bracket. by repeat constructor.
  - rewrite <- app_assoc. destruct (scan_group g cs (digits ++ rest) index Hg) as [index' ->]. by apply scan_no_bracket, digits_no_bracket.
Qed.

Lemma scan_spells t w rest index : spells t w -> exists index', scan_depth (t ++ rest) index 0 = scan_depth rest index' 0.
Proof.
  intros H. revert index. induction H as [|t choices n bare draw text w Ht _ _ _ _ _ _ IH]; intros index; [by eexists|]. rewrite <- app_assoc. destruct (scan_atom _ _ _ _ (text ++ rest) index Ht) as [index' ->]. apply IH.
Qed.

Lemma split_on_cases sep source : (split_on sep source = [source]) \/ exists t source', split_on sep source = t :: split_on sep source' /\ source = t ++ sep :: source'.
Proof.
  induction source as [|c source IH]; [by left|]. cbn [split_on]. destruct (Z.eqb_spec c sep) as [->|]; [right; by exists [], source|]. destruct IH as [->|(t & source' & -> & ->)]; [by left|]. right. by exists (c :: t), source'.
Qed.

(** A text whose alternatives stand for sequences has balanced brackets. *)
Lemma scan_alternatives source index : Forall (fun t => exists w, spells t w) (split_on (ch ";") source) -> scan_depth source index 0 = Ok 0.
Proof.
  revert index. induction source as [source IH] using (well_founded_induction (Wf_nat.well_founded_ltof _ (@length Z))). unfold Wf_nat.ltof in IH. intros index. destruct (split_on_cases (ch ";") source) as [->|(t & source' & -> & Hsrc)].
  - intros [[w Hw] _]%Forall_cons. destruct (scan_spells _ _ [] index Hw) as [index' Hscan]. rewrite app_nil_r in Hscan. by rewrite Hscan.
  - intros [[w Hw] Hrest]%Forall_cons. rewrite Hsrc. destruct (scan_spells _ _ (ch ";" :: source') index Hw) as [index' ->]. cbn [scan_depth]. change (ch ";" =? ch "[") with false. change (ch ";" =? ch "]") with false. cbv iota.
    apply IH; [|done]. rewrite Hsrc, length_app. cbn. lia.
Qed.

(** ** The parser and the texts it accepts *)

Section Parse.
Context (unicode_space : Z -> bool) (unicode_upper : Z -> list Z).

(** The alternatives of a text. *)
Definition alternatives_of (source : list Z) : list (list Z) := split_on (ch ";") (normalize_source unicode_space unicode_upper source).

(** An alternative that stands for some sequence. *)
Definition meaningful (t : list Z) : Prop := t <> [] /\ exists w, spells t w.

Lemma denotes_spells limit t w : 1 <= limit < 2 ^ 64 -> t <> [] -> Z.of_nat (length t) <= 2 ^ 63 -> (exists s, FactorizedQueuePatternSpace_parse t limit = Ok s) -> denotes limit t w <-> spells t w.
Proof using.
  intros Hlim Hne H63 [s Hs]. pose proof (parse_spells t limit Hlim H63 Hne) as H. unfold denotes. rewrite Hs in *. rewrite <- H. split; [by intros (? & [= <-] & ?)|]. intros. by exists s.
Qed.

Lemma split_failure text e : split_alternatives text = Err e -> local_error e = true /\ ~ Forall meaningful (split_on (ch ";") text).
Proof using.
  unfold split_alternatives. pose proof (scan_depth_local text 0 0) as Hp. intros H. assert (local_error e = true) as He.
  { destruct (scan_depth text 0 0) as [d|]; cbn [rbind] in H; [|by injection H as ->]. destruct (negb (d =? 0)); [by injection H as <-|]. destruct (existsb _ _); [by injection H as <-|done]. }
  split; [done|]. intros Hall. rewrite scan_alternatives in H by (eapply Forall_impl; [exact Hall|]; by intros t [_ ?]). cbn [rbind] in H. change (negb (0 =? 0)) with false in H. cbv iota in H.
  destruct (existsb _ _) eqn:Hex; [|done]. apply existsb_exists in Hex as (t & Ht%list_elem_of_In & Hx%bool_decide_eq_true). rewrite Forall_forall in Hall. by destruct (Hall t Ht).
Qed.

(** The limit is exceeded: the alternatives spell more sequences than it, or
    already a part at the start of one of them does. *)
Definition over_limit (limit : Z) (alternatives : list (list Z)) : Prop :=
  too_many limit (fun w => exists t, t ∈ alternatives /\ spells t w) \/
  exists t u rest, t ∈ alternatives /\ t = u ++ rest /\ too_many limit (spells u).

(** What an error of [parse] says of its text. *)
Definition explains (limit : Z) (alternatives : list (list Z)) (e : PatternFailure) : Prop :=
  match e with
  | PatternPanic => False
  | PatternError (PatternLimitExceeded l) => l = limit /\ over_limit limit alternatives
  | PatternError MixedSequenceLengths => exists t w t' w', t ∈ alternatives /\ t' ∈ alternatives /\ spells t w /\ spells t' w' /\ length w <> length w'
  | PatternError _ => ~ Forall meaningful alternatives
  end.

Lemma local_explains limit alternatives e : local_error e = true -> ~ Forall meaningful alternatives -> explains limit alternatives e.
Proof using. by destruct e as [[]|]. Qed.

Lemma storage_failure_explains limit alternatives e : 1 <= limit < 2 ^ 64 -> Forall (fun t => t <> [] /\ Z.of_nat (length t) <= 2 ^ 63) alternatives -> storage_failure limit alternatives e -> explains limit alternatives e.
Proof using.
  intros Hlim Ht [[-> Hm]|(t & Hin & Hp)]; rewrite Forall_forall in Ht.
  - split; [done|]. left. revert Hm. apply too_many_mono. intros w (t & Hin & Hd). exists t. split; [done|]. destruct (Ht t Hin) as [Hne H63]. apply (denotes_spells limit t w Hlim Hne H63); [|done]. destruct Hd as (s & Hs & _). by exists s.
  - destruct (Ht t Hin) as [Hne H63]. pose proof (parse_spells t limit Hlim H63 Hne) as H. rewrite Hp in H.
    assert (local_error e = true \/ (e = PatternError (PatternLimitExceeded limit) /\ exists u rest, t = u ++ rest /\ too_many limit (spells u))) as [Hl|(-> & u & rest & Hu & Hm)].
    { unfold FactorizedQueuePatternSpace_parse in Hp. destruct (parse_space_loop _ _ _ _ _ _ _) as [[[[|a atoms] ?] ?]|e'] eqn:Hloop; cbn [rbind] in Hp; [left; by injection Hp as <-|done|]. injection Hp as ->.
      destruct (loop_failure t limit (length t) 0 [] e Hlim H63 (reading_start t limit ltac:(lia)) ltac:(lia) Hloop) as [|(-> & more & u & rest & Hu & Hall & Hover & Hw)]; [by left|right]. split; [done|]. exists u, rest. rewrite drop_0 in Hu. split; [done|].
      exists (atoms_words more). split; [by apply seq_lt_NoDup, atoms_words_sorted|]. done. }
    + apply local_explains; [done|]. intros Hall. rewrite Forall_forall in Hall. destruct (Hall t Hin) as [_ [w Hw]]. destruct H as [->|H]; [done|]. by apply (H w).
    + split; [done|]. right. by exists t, u, rest.
Qed.

Lemma mixed_explains limit alternatives e : 1 <= limit < 2 ^ 64 -> Forall (fun t => t <> [] /\ Z.of_nat (length t) <= 2 ^ 63) alternatives -> parsed limit alternatives e ->
  has_mixed_sequence_lengths (qe_sequences e) (qe_sequence_len e) = true -> explains limit alternatives (PatternError MixedSequenceLengths).
Proof using.
  intros Hlim Ht [_ (w & Hw & Hl) _ Hel Hall _ Hsp] Hm. cbn.
  assert (forall w, w ∈ sequences_of e -> exists t, t ∈ alternatives /\ spells t w) as Hspell.
  { intros v (t & Hin & Hd)%Hel. exists t. split; [done|]. rewrite Forall_forall in Ht, Hall. destruct (Ht t Hin). by apply (denotes_spells limit); [..|apply Hall|]. }
  unfold sequences_of in *. destruct (qe_sequences e) as [l|s]; cbn [has_mixed_sequence_lengths] in Hm.
  - apply existsb_exists in Hm as (v & Hv%list_elem_of_In & Hne%negb_true_iff%Z.eqb_neq). destruct (Hspell w Hw) as (t & Hin & Hs). destruct (Hspell v Hv) as (t' & Hin' & Hs'). exists t, w, t', v. split; [done|]. split; [done|]. split; [done|]. split; [done|]. lia.
  - destruct (Hsp s eq_refl) as (_ & Hv & _). rewrite Hv, Z.eqb_refl in Hm. done.
Qed.

Lemma split_on_ne sep source : split_on sep source <> [].
Proof using. destruct (split_on_cases sep source) as [->|(? & ? & -> & _)]; done. Qed.

Lemma parse_stages source max_patterns : in_width 64 max_patterns -> Z.of_nat (length (normalize_source unicode_space unicode_upper source)) <= 2 ^ 63 ->
  match QueuePatternExpression_parse unicode_space unicode_upper source max_patterns with
  | Ok e => parsed (expression_limit max_patterns) (alternatives_of source) e /\ expression_ok (expression_limit max_patterns) e /\ Forall (fun t => t <> [] /\ Z.of_nat (length t) <= 2 ^ 63) (alternatives_of source)
  | Err e => explains (expression_limit max_patterns) (alternatives_of source) e
  end.
Proof using.
  intros Hmax H63. pose proof (expression_limit_range max_patterns Hmax) as Hlim. unfold QueuePatternExpression_parse, alternatives_of. fold (expression_limit max_patterns). set (text := normalize_source _ _ source) in *. set (limit := expression_limit max_patterns) in *.
  assert (forall r, match text with [] => pattern_err PatternEmpty | _ :: _ => r end = (if decide (text = []) then pattern_err PatternEmpty else r : Result PatternFailure QueuePatternExpression)) as -> by (by destruct text).
  destruct (decide (text = [])) as [->|Hne]; [intros [[H _] _]%Forall_cons; done|]. destruct (split_alternatives_spec text H63) as [_ Hsplit].
  destruct (split_alternatives text) as [alternatives|e] eqn:Halt; cbn [rbind]; [|destruct (split_failure _ _ Halt); by apply local_explains]. destruct (Hsplit _ eq_refl) as [-> Ht].
  destruct (parse_storage_spec limit _ text Hlim (split_on_ne _ _) Ht) as [Hfail Hok]. destruct (parse_storage limit _) as [[storage len]|e]; cbn [rbind]; [|apply storage_failure_explains; [done|done|by apply Hfail]].
  specialize (Hok _ _ eq_refl). pose proof (parsed_len _ _ _ Hok) as Hl. cbn [qe_sequence_len] in Hl. rewrite (proj2 (Z.eqb_neq _ _)) by lia. destruct (has_mixed_sequence_lengths storage len) eqn:Hm.
  - by eapply mixed_explains.
  - split; [done|]. split; [by eapply parsed_expression_ok|done].
Qed.
End Parse.
