(* ===== verification/QueuePatterns.v ===== *)
(** * Guarantees of queue pattern expressions

    The theorems on [QueuePatternExpression]: the sequences of a parsed text,
    access to them, the errors of the parser, prefixes, copies within a finite
    budget and the texts of bags. *)

From Stdlib Require Import ZArith Lia Ascii String Sorting.Sorted.
From stdpp Require Import prelude strings.
From S2P Require Import Prelude Words PcBoard AllocationLedger Pieces SupplyAutomaton BagWindows BagSequences QueueExpression QueueLanguage QueueParsing QueueGrammar QueueLaws.

Local Open Scope Z_scope.

(** ** Texts of bags *)

Definition piece_atom (p : PieceKind) : FactorizedPatternAtom := mkAtom [p] 1 1.

Lemma piece_atom_words p : atom_words (piece_atom p) = [[p]].
Proof. unfold atom_words, piece_atom. cbn [atom_choices atom_draw_count]. change (Z.to_nat 1) with 1%nat. by rewrite draws_one. Qed.

Lemma init_last_sevens counts : counts <> [] -> existsb (fun count => negb (count =? 7)) (take (length counts - 1) counts) = false -> Forall (fun n => 1 <= n <= 7) counts ->
  exists init m, counts = init ++ [m] /\ Forall (fun n => n = 7) init /\ 1 <= m <= 7.
Proof.
  intros Hne Hex Hr. destruct counts as [|m init _] using rev_ind; [done|]. exists init, m. rewrite length_app in Hex. cbn [length] in Hex. rewrite Nat.add_sub, take_app_length in Hex. apply Forall_app in Hr as [_ [Hm _]%Forall_cons].
  split; [done|]. split; [|done]. apply Forall_forall. intros n Hn. destruct (Z.eqb_spec n 7) as [|Hx]; [done|]. apply not_true_iff_false in Hex. destruct Hex. apply existsb_exists. exists n. split; [by apply list_elem_of_In|]. by rewrite (proj2 (Z.eqb_neq _ _) Hx).
Qed.

Section Texts.
Context (unicode_space : Z -> bool) (unicode_upper : Z -> list Z).
Notation normalize := (normalize_source unicode_space unicode_upper).
Notation parse := (QueuePatternExpression_parse unicode_space unicode_upper).

(** The shape of a text of bags. *)
Lemma bag_text_shape source lead n : standard_7_bag_with_optional_leading_piece unicode_space unicode_upper source = Some (lead, n) ->
  exists rest counts m, Forall (fun n => n = 7) counts /\ 1 <= m <= 7 /\ n = 7 * Z.of_nat (length counts) + m /\ bag_counts (length rest) rest [] = Some (counts ++ [m]) /\
    match lead with Some p => exists c, normalize source = c :: rest /\ piece_from_char c = Ok p | None => normalize source = rest end.
Proof using.
  unfold standard_7_bag_with_optional_leading_piece. destruct (normalize source) as [|c text] eqn:Htext; [done|].
  assert (forall rest lead', (counts ← bag_counts (length rest) rest []; match counts with [] => None | _ => if existsb (fun count => negb (count =? 7)) (take (length counts - 1) counts) then None else Some (lead', foldl Z.add 0 counts) end) = Some (lead, n) ->
    lead' = lead /\ exists counts m, Forall (fun n => n = 7) counts /\ 1 <= m <= 7 /\ n = 7 * Z.of_nat (length counts) + m /\ bag_counts (length rest) rest [] = Some (counts ++ [m])) as H.
  { intros rest lead'. destruct (bag_counts (length rest) rest []) as [counts|] eqn:Hb; [|done]. cbn [mbind option_bind]. destruct (bag_counts_more _ _ _ _ Hb) as (more & Hm & Hr & _). cbn [app] in Hm. subst more. destruct (existsb _ _) eqn:Hex; [by destruct counts|].
    destruct (decide (counts = [])) as [->|Hne]; [done|]. destruct (init_last_sevens counts Hne Hex Hr) as (init & m & -> & Hi & Hm). intros Hx. assert (Some (lead', foldl Z.add 0 (init ++ [m])) = Some (lead, n)) as [= -> <-] by (by destruct init).
    split; [done|]. exists init, m. split; [done|]. split; [done|]. split; [|done]. rewrite foldl_snoc, sum_sevens by done. lia. }
  destruct (c =? ch "P"); cbn [mbind option_bind].
  - intros (<- & counts & m & ? & ? & ? & ?)%H. by exists (c :: text), counts, m.
  - destruct (piece_from_char c) as [p|] eqn:Hp; cbn [mbind option_bind]; [|done]. intros (<- & counts & m & ? & ? & ? & ?)%H. exists text, counts, m. split; [done|]. split; [done|]. split; [done|]. split; [done|]. by exists c.
Qed.

(** Reading it gives the leading piece and the bags, within the limit. *)
Lemma bag_text_atoms text rest lead counts limit : 1 <= limit < 2 ^ 64 -> Z.of_nat (length text) <= 2 ^ 63 -> bag_counts (length rest) rest [] = Some counts -> counts <> [] ->
  match lead with Some p => exists c, text = c :: rest /\ piece_from_char c = Ok p | None => text = rest end ->
  match FactorizedQueuePatternSpace_parse text limit with
  | Ok s => fs_atoms s = (piece_atom <$> option_list lead) ++ (bag_atom <$> counts)
  | Err e => e = PatternError (PatternLimitExceeded limit)
  end.
Proof using.
  intros Hlim H63 Hb Hne Htext. unfold FactorizedQueuePatternSpace_parse. enough (match parse_space_loop (length text) text limit 0 [] 1 0 with Ok (atoms, _, _) => atoms = (piece_atom <$> option_list lead) ++ (bag_atom <$> counts) | Err e => e = PatternError (PatternLimitExceeded limit) end) as H.
  { destruct (parse_space_loop _ _ _ _ _ _ _) as [[[atoms ?] ?]|]; cbn [rbind]; [|done]. subst atoms. destruct lead, counts; done. }
  pose proof (reading_start text limit ltac:(lia)) as Hr. destruct lead as [p|].
  - destruct Htext as (c & -> & Hp). assert (parse_factorized_atom (c :: rest) 0 = Ok (piece_atom p, 1%nat)) as Ha by (unfold parse_factorized_atom; cbn [lookup list_lookup or_panic rbind]; by rewrite Hp).
    pose proof (space_loop_step (c :: rest) limit (length rest) 0 [] _ _ Hr ltac:(lia) H63 ltac:(cbn; lia) Ha) as Hstep. destruct (parse_factorized_atom_ok _ _ _ _ Ha) as [Hok _]. cbn [app] in Hstep.
    assert (length (atoms_words [piece_atom p]) = 1%nat) as Hone by (cbn [atoms_words]; by rewrite piece_atom_words). rewrite Hone in Hstep. rewrite (proj2 (Z.ltb_ge _ _)) in Hstep by (cbn; lia). cbn [length]. change (Z.of_nat (length (atoms_words []))) with 1 in Hstep. change (atoms_draws []) with 0 in Hstep. rewrite Hstep.
    assert (reading (c :: rest) limit 1 [piece_atom p]) as Hr1 by (apply (reading_snoc _ _ 0 []); [done|done|cbn; lia|cbn; lia]).
    pose proof (bag_counts_read (c :: rest) limit Hlim H63 counts (length rest) (length rest) 1 [] [piece_atom p] Hr1 ltac:(cbn; lia) Hb) as H. rewrite Hone in H. exact H.
  - subst text. exact (bag_counts_read rest limit Hlim H63 counts (length rest) (length rest) 0 [] [] Hr ltac:(lia) Hb).
Qed.

Lemma bag_text_split text rest lead counts : bag_counts (length rest) rest [] = Some counts -> counts <> [] -> match lead with Some p => exists c, text = c :: rest /\ piece_from_char c = Ok p | None => text = rest end ->
  text <> [] /\ split_on (ch ";") text = [text] /\ split_alternatives text = Ok [text].
Proof using.
  intros Hb Hne Htext. destruct (bag_counts_more _ _ _ _ Hb) as (more & _ & _ & Hc). assert (rest <> []) as Hrest by (intros ->; cbn in Hb; congruence).
  assert (text <> [] /\ Forall (fun c => c <> ch ";" /\ no_bracket c) text) as [Htne Hf].
  { destruct lead as [p|]; [|by subst text]. destruct Htext as (c & -> & Hp). split; [done|]. constructor; [|done]. split; [by intros ->|]. by eapply piece_no_bracket. }
  assert (split_on (ch ";") text = [text]) as Hs by (apply split_on_none; eapply Forall_impl; [exact Hf|]; by intros ? []). split; [done|]. split; [done|]. unfold split_alternatives.
  destruct (scan_no_bracket text [] 0 0) as [index' Hscan]; [eapply Forall_impl; [exact Hf|]; by intros ? []|]. rewrite app_nil_r in Hscan. rewrite Hscan. cbn [scan_depth rbind]. change (negb (0 =? 0)) with false. cbv iota. rewrite Hs. cbn [existsb]. rewrite bool_decide_false by done. done.
Qed.

(** ** Copies *)

Lemma allocate_each_map {A B} (g : A -> B) (f : A -> Allocates B) l t t' bs : (forall a, a ∈ l -> forall t t' b, f a t = (t', Ok b) -> b = g a) -> allocate_each f l t = (t', Ok bs) -> bs = g <$> l.
Proof using.
  revert t t' bs. induction l as [|a l IH]; intros t t' bs Hf; cbn [allocate_each].
  - unfold allocated. intros [= _ <-]. done.
  - unfold then_allocate at 1. destruct (f a t) as [t1 [b|e]] eqn:Ha; [|done]. unfold then_allocate. destruct (allocate_each f l t1) as [t2 [bs'|e]] eqn:Hl; [|done]. unfold allocated. intros [= _ <-].
    rewrite (Hf a ltac:(by left) _ _ _ Ha). rewrite (IH t1 t2 bs' ltac:(intros; eapply Hf; [by right|done]) Hl). done.
Qed.

Lemma then_allocate_ok {A B} (m : Allocates A) (f : A -> Allocates B) t t' b : then_allocate m f t = (t', Ok b) -> exists t1 a, m t = (t1, Ok a) /\ f a t1 = (t', Ok b).
Proof using. unfold then_allocate. destruct (m t) as [t1 [a|e]]; [|done]. intros H. by exists t1, a. Qed.
End Texts.

(** The characters of an ASCII text. *)
Definition text (s : string) : list Z := ch <$> list_ascii_of_string s.

(** ** Parsing *)

Section Guarantees.
Context (unicode_space : Z -> bool) (unicode_upper : Z -> list Z).

(** C11: [QueuePatternExpression::parse].  A parsed expression lists exactly the
    sequences its text stands for by the grammar [spells]: a sequence is listed
    when one of the alternatives between the [;] spells it.  Each is listed
    once, in increasing order; all have the same positive length, and there are
    at most [max_patterns] of them ([usize::MAX] for 0).  Every alternative is
    a nonempty text that spells something. *)
Theorem queue_expression_denotes source max_patterns e :
  in_width 64 max_patterns -> Z.of_nat (length (normalize_source unicode_space unicode_upper source)) <= 2 ^ 63 ->
  QueuePatternExpression_parse unicode_space unicode_upper source max_patterns = Ok e ->
  Forall meaningful (alternatives_of unicode_space unicode_upper source) /\
  (forall w, w ∈ sequences_of e <-> exists t, t ∈ alternatives_of unicode_space unicode_upper source /\ spells t w) /\
  StronglySorted seq_lt (sequences_of e) /\
  1 <= qe_sequence_len e /\ Forall (fun w => Z.of_nat (length w) = qe_sequence_len e) (sequences_of e) /\
  pattern_count e = Z.of_nat (length (sequences_of e)) /\ pattern_count e <= expression_limit max_patterns.
Proof.
  intros Hmax H63 He. pose proof (parse_stages unicode_space unicode_upper source max_patterns Hmax H63) as H. rewrite He in H. destruct H as (Hp & Hok & Ht). pose proof (expression_limit_range max_patterns Hmax) as Hlim.
  pose proof (pattern_count_sequences _ _ Hok) as Hc. pose proof (expression_sequences _ _ Hok) as Hl. destruct Hp as [Hlen _ Hs Hel Hall Hcount _]. rewrite Forall_forall in Ht, Hall.
  assert (forall t, t ∈ alternatives_of unicode_space unicode_upper source -> forall w, denotes (expression_limit max_patterns) t w <-> spells t w) as Hden by (intros t Hin w; destruct (Ht t Hin); by apply denotes_spells; [..|apply Hall]).
  split; [|split; [|split; [done|split; [done|split; [done|lia]]]]].
  - apply Forall_forall. intros t Hin. destruct (Ht t Hin) as [Hne Hlen3]. split; [done|]. destruct (Hall t Hin) as [s Hs']. destruct (space_parse_spec t _ Hlim Hlen3) as (_ & _ & Hsp). destruct (Hsp s Hs') as [Hsok _]. destruct (space_words _ s Hsok) as [_ [w Hw]]. exists w. apply Hden; [done|]. by exists s.
  - intros w. rewrite Hel. split; intros (t & Hin & Hw); exists t; (split; [done|]); by apply (Hden t Hin).
Qed.

(** C12: [sequence_at], [write_sequence_at] and [matches_sequence].  For a parsed expression every
    rank below the count has its sequence, the one at that place of the ordered
    list; writing it to a buffer replaces what was there; and a sequence
    matches exactly when it is listed.  This holds for
    explicit and for factorized storage, which rebuilds sequences from their
    rank and tests them atom by atom. *)
Theorem queue_expression_access source max_patterns e :
  in_width 64 max_patterns -> Z.of_nat (length (normalize_source unicode_space unicode_upper source)) <= 2 ^ 63 ->
  QueuePatternExpression_parse unicode_space unicode_upper source max_patterns = Ok e ->
  (forall rank, 0 <= rank < pattern_count e -> exists w, sequences_of e !! Z.to_nat rank = Some w /\ sequence_at e rank = Ok w) /\
  (forall rank output, write_sequence_at e rank output = sequence_at e rank) /\
  (forall w, matches_sequence e w = true <-> w ∈ sequences_of e).
Proof.
  intros Hmax H63 He. pose proof (parse_stages unicode_space unicode_upper source max_patterns Hmax H63) as H. rewrite He in H. destruct H as (Hp & Hok & _).
  split; [intros rank; by eapply sequence_at_sequences|]. split; [|intros w; by eapply matches_parsed].
  intros rank output. unfold write_sequence_at, sequence_at. destruct (qe_sequences e) as [l|s]; [|done]. cbn [storage_sequence_at]. by destruct (l !! Z.to_nat rank).
Qed.

(** C13: the errors of [QueuePatternExpression::parse].  It never panics, and
    each error is true of the text: the limit is reported only when the
    alternatives spell more sequences than [max_patterns] ([usize::MAX] for 0),
    or the part of one alternative read so far already does; mixed lengths only
    when two alternatives spell sequences of different lengths; and every other
    error, unbalanced brackets among them, only when some alternative is empty
    or spells nothing. *)
Theorem queue_expression_errors source max_patterns e :
  in_width 64 max_patterns -> Z.of_nat (length (normalize_source unicode_space unicode_upper source)) <= 2 ^ 63 ->
  QueuePatternExpression_parse unicode_space unicode_upper source max_patterns = Err e ->
  match e with
  | PatternPanic => False
  | PatternError (PatternLimitExceeded limit) => limit = expression_limit max_patterns /\ over_limit limit (alternatives_of unicode_space unicode_upper source)
  | PatternError MixedSequenceLengths =>
      exists t w t' w', t ∈ alternatives_of unicode_space unicode_upper source /\ t' ∈ alternatives_of unicode_space unicode_upper source /\ spells t w /\ spells t' w' /\ length w <> length w'
  | PatternError _ => ~ Forall meaningful (alternatives_of unicode_space unicode_upper source)
  end.
Proof.
  intros Hmax H63 He. pose proof (parse_stages unicode_space unicode_upper source max_patterns Hmax H63) as H. rewrite He in H. destruct e as [[]|]; try done. by destruct H as [-> H].
Qed.

(** C28: [QueuePatternExpression::prefix].  The prefix of a parsed expression is
    built without a panic; it has the prefix of each sequence at the same rank,
    and as many of them. *)
Theorem queue_expression_prefix source max_patterns e n :
  in_width 64 max_patterns -> Z.of_nat (length (normalize_source unicode_space unicode_upper source)) <= 2 ^ 63 -> 0 <= n ->
  QueuePatternExpression_parse unicode_space unicode_upper source max_patterns = Ok e ->
  exists e', expression_prefix e n = Ok e' /\ qe_sequence_len e' = Z.min n (qe_sequence_len e) /\ pattern_count e' = pattern_count e /\
    forall rank, 0 <= rank < pattern_count e -> exists w, sequence_at e rank = Ok w /\ sequence_at e' rank = Ok (take (Z.to_nat n) w).
Proof.
  intros Hmax H63 Hn He. pose proof (parse_stages unicode_space unicode_upper source max_patterns Hmax H63) as H. rewrite He in H. destruct H as (_ & Hok & _).
  destruct (prefix_sequences _ e n Hok Hn) as (e' & Hpre & Hok' & Hseq & Hlen & _). exists e'. split; [done|]. split; [done|]. assert (pattern_count e' = pattern_count e) as Hc by (rewrite (pattern_count_sequences _ _ Hok), (pattern_count_sequences _ _ Hok'), Hseq; by rewrite length_fmap).
  split; [done|]. intros rank Hr. destruct (sequence_at_sequences _ e rank Hok Hr) as (w & Hw & ->). destruct (sequence_at_sequences _ e' rank Hok' ltac:(lia)) as (w' & Hw' & ->). exists w. split; [done|]. rewrite Hseq, list_lookup_fmap, Hw in Hw'. by injection Hw' as <-.
Qed.

(** C38: a shortened factorized expression matches nothing.  After [prefix] with
    fewer pieces than the text has, [matches_sequence] of a factorized
    expression is false for every sequence, also for those [sequence_at]
    returns; it still walks all the atoms. *)
Theorem shortened_factorized_matches_nothing source max_patterns e s n e' :
  in_width 64 max_patterns -> Z.of_nat (length (normalize_source unicode_space unicode_upper source)) <= 2 ^ 63 -> 0 <= n < qe_sequence_len e ->
  QueuePatternExpression_parse unicode_space unicode_upper source max_patterns = Ok e -> qe_sequences e = Factorized s -> expression_prefix e n = Ok e' ->
  (exists w, sequence_at e' 0 = Ok w) /\ forall w, matches_sequence e' w = false.
Proof.
  intros Hmax H63 Hn He Hs Hpre. pose proof (parse_stages unicode_space unicode_upper source max_patterns Hmax H63) as H. rewrite He in H. destruct H as (Hp & Hok & _).
  destruct (prefix_sequences _ e n Hok ltac:(lia)) as (e2 & Hpre2 & Hok' & Hseq & Hlen & _). rewrite Hpre in Hpre2. injection Hpre2 as <-. split.
  - destruct (parsed_first _ _ _ Hp) as (w0 & Hw0 & _). destruct (sequence_at_sequences _ e' 0 Hok') as (w & _ & Hw); [|by exists w]. rewrite (pattern_count_sequences _ _ Hok'), Hseq, length_fmap. apply list_elem_of_lookup in Hw0 as [i Hi%lookup_lt_Some]. lia.
  - intros w. unfold matches_sequence. destruct (Z.eqb_spec (Z.of_nat (length w)) (qe_sequence_len e')) as [Hw|]; cbn [negb]; [|done].
    destruct (parsed_space _ _ _ Hp s Hs) as ([Ha _ _ _ Hf] & Hv & Hfull). unfold expression_prefix in Hpre. rewrite Hs in Hpre. cbn [rbind] in Hpre. injection Hpre as <-. cbn [qe_sequences space_prefix fs_atoms] in *.
    apply not_true_iff_false. rewrite atoms_match_spec by (done || lia). intros Hin. apply (atoms_words_elem_length _ _ Ha) in Hin. rewrite drop_0 in Hin. lia.
Qed.

(** [duplicate_finite].  Whenever the copy of a parsed expression fits the budget
    of its transaction, it is the expression [prefix] gives for the same
    length; the transaction decides only whether there is a copy. *)
Lemma duplicate_is_prefix source max_patterns e reserve vec_size piece_size atom_size n t t' e' :
  in_width 64 max_patterns -> Z.of_nat (length (normalize_source unicode_space unicode_upper source)) <= 2 ^ 63 ->
  QueuePatternExpression_parse unicode_space unicode_upper source max_patterns = Ok e ->
  0 <= n <= qe_sequence_len e -> duplicate_finite reserve vec_size piece_size atom_size e n t = (t', Ok e') -> expression_prefix e n = Ok e'.
Proof.
  intros Hmax H63 He Hn. pose proof (parse_stages unicode_space unicode_upper source max_patterns Hmax H63) as Hst0. rewrite He in Hst0. destruct Hst0 as (_ & [Hl Hs Hsp] & _). clear He. unfold duplicate_finite. intros (t1 & ? & _ & H)%then_allocate_ok. apply then_allocate_ok in H as (t2 & storage & Hst & H). unfold allocated in H. injection H as _ <-.
  unfold expression_prefix. rewrite Z.min_l by lia. unfold sequences_of in Hs. destruct (qe_sequences e) as [l|s] eqn:Hq.
  - apply then_allocate_ok in Hst as (t3 & ? & _ & Hst). apply then_allocate_ok in Hst as (t4 & bs & Hbs & Hst). unfold allocated in Hst. injection Hst as _ <-. apply (allocate_each_map (take (Z.to_nat n))) in Hbs as ->.
    + rewrite Forall_forall in Hs. rewrite (try_fold_ok_map (take (Z.to_nat n))) by (intros w Hw; specialize (Hs w Hw); unfold slice_to; rewrite (proj2 (Z.ltb_ge _ _)); [done|lia]). done.
    + rewrite Forall_forall in Hs. intros w Hw ? ? b (t5 & ? & _ & Hb)%then_allocate_ok. unfold allocated in Hb. injection Hb as _ <-. specialize (Hs w Hw). f_equal. lia.
  - apply then_allocate_ok in Hst as (t3 & ? & _ & Hst). apply then_allocate_ok in Hst as (t4 & bs & Hbs & Hst). unfold allocated in Hst. injection Hst as _ <-. apply (allocate_each_map id) in Hbs as ->.
    + destruct (Hsp s eq_refl) as (_ & Hv & Hf). cbn [rbind]. unfold space_prefix. rewrite list_fmap_id, Z.min_l by lia. done.
    + intros a _ ? ? b (t5 & ? & _ & Hb)%then_allocate_ok. unfold allocated in Hb. by injection Hb as _ <-.
Qed.

(** C14: [standard_7_bag_with_optional_leading_piece] recognizes texts of bags.
    When it returns a leading piece (or none) and a number of draws, parsing the
    text gives the leading piece followed by exactly the sequences of that
    length that a 7-bag randomizer deals, or exceeds the limit. *)
Theorem bag_text_denotes_bags source max_patterns lead n :
  in_width 64 max_patterns -> Z.of_nat (length (normalize_source unicode_space unicode_upper source)) <= 2 ^ 63 ->
  standard_7_bag_with_optional_leading_piece unicode_space unicode_upper source = Some (lead, n) ->
  match QueuePatternExpression_parse unicode_space unicode_upper source max_patterns with
  | Ok e => forall w, w ∈ sequences_of e <-> exists v, w = option_list lead ++ v /\ Z.of_nat (length v) = n /\ bag_sequence STANDARD_TETROMINOES v
  | Err e => e = PatternError (PatternLimitExceeded (expression_limit max_patterns))
  end.
Proof.
  intros Hmax H63 Hbag. destruct (bag_text_shape _ _ _ _ _ Hbag) as (rest & counts & m & Hc & Hm & -> & Hb & Htext). pose proof (expression_limit_range max_patterns Hmax) as Hlim.
  assert (counts ++ [m] <> []) as Hne by (by destruct counts). destruct (bag_text_split _ rest lead _ Hb Hne Htext) as (Htne & Hsplit & Halt). pose proof (bag_text_atoms _ rest lead _ _ Hlim H63 Hb Hne Htext) as Hatoms.
  pose proof (parse_stages unicode_space unicode_upper source max_patterns Hmax H63) as Hst. unfold alternatives_of in Hst. rewrite Hsplit in Hst.
  destruct (FactorizedQueuePatternSpace_parse (normalize_source unicode_space unicode_upper source) (expression_limit max_patterns)) as [s|e] eqn:Hp.
  - pose proof (parse_spells _ _ Hlim H63 Htne) as Hsp. rewrite Hp in Hsp. destruct (space_parse_spec _ _ Hlim H63) as (_ & _ & Hsok). destruct (Hsok s Hp) as [Hok _]. destruct (QueuePatternExpression_parse _ _ source max_patterns) as [e|e].
    + destruct Hst as ([_ _ _ Hel _ _ _] & _ & _). intros w. rewrite Hel. transitivity (w ∈ atoms_words (fs_atoms s)).
      * split; [intros (t & ->%list_elem_of_singleton & s' & Hs' & Hw); rewrite Hp in Hs'; by injection Hs' as <-|]. intros Hw. eexists. split; [by left|]. by exists s.
      * rewrite Hatoms. destruct lead as [p|]; [|change (piece_atom <$> option_list None) with (@nil FactorizedPatternAtom); cbn [app option_list]; rewrite bag_atoms_words by done; split; [intros [? ?]; by exists w|by intros (? & -> & ?)]].
        change (piece_atom <$> option_list (Some p)) with [piece_atom p]. cbn [app atoms_words option_list]. rewrite piece_atom_words. cbn [mbind list_bind]. rewrite app_nil_r, list_elem_of_fmap.
        split; intros (v & -> & Hv); exists v; (split; [done|]); by apply bag_atoms_words.
    + assert (Forall meaningful [normalize_source unicode_space unicode_upper source]) as Hall by (constructor; [|constructor]; split; [done|]; destruct (space_words _ s Hok) as [_ [w Hw]]; exists w; by apply Hsp).
      assert (forall t w t' w', t ∈ [normalize_source unicode_space unicode_upper source] -> t' ∈ [normalize_source unicode_space unicode_upper source] -> spells t w -> spells t' w' -> length w = length w') as Hsame.
      { intros t w t' w' ->%list_elem_of_singleton ->%list_elem_of_singleton Hw%Hsp Hw'%Hsp. apply (atoms_words_elem_length _ _ (space_atoms _ _ Hok)) in Hw, Hw'. lia. }
      destruct e as [[]|]; cbn [explains] in Hst; try done; [|by destruct Hst as [-> _]]. destruct Hst as (t & w & t' & w' & Ht & Ht' & Hw & Hw' & Hl). by destruct (Hl (Hsame t w t' w' Ht Ht' Hw Hw')).
  - unfold QueuePatternExpression_parse. rewrite Halt. fold (expression_limit max_patterns). cbn [rbind parse_storage]. rewrite Hp. cbn [rbind]. by destruct (normalize_source unicode_space unicode_upper source).
Qed.
End Guarantees.

(** The two readers of an alternative.  The expansion used for several
    alternatives returns the same sequences in the same order as the ranked
    space used for one, and fails with the same error. *)
Theorem alternative_readers_agree alternative limit :
  1 <= limit < 2 ^ 64 -> Z.of_nat (length alternative) <= 2 ^ 63 -> alternative <> [] ->
  expand_alternative alternative limit =
  let? s := FactorizedQueuePatternSpace_parse alternative limit in
  try_fold (fun sequences index => let? sequence := space_sequence s index in Ok (sequences ++ [sequence])) [] (seqZ 0 (fs_pattern_count s)).
Proof.
  intros Hlim H63 Hne. destruct (space_parse_spec alternative limit Hlim H63) as (_ & H & Hok). rewrite (H Hne). destruct (FactorizedQueuePatternSpace_parse alternative limit) as [s|]; cbn [rbind]; [|done]. destruct (Hok s eq_refl) as [Hs Hv]. by rewrite (space_sequences limit s Hs Hv).
Qed.

(** ** Plain queues *)

(** [parse_piece_sequence] reads the characters that are not separators as
    pieces; an error names the first of them that is no piece, with its
    index. *)
Lemma piece_sequence_spec unicode_space input :
  match parse_piece_sequence unicode_space input with
  | Ok pieces => Forall2 (fun c p => piece_from_char c = Ok p) (filter (fun c => queue_separator unicode_space c = false) input) pieces
  | Err (UnknownQueuePiece index value) =>
      0 <= index /\ input !! Z.to_nat index = Some value /\ queue_separator unicode_space value = false /\ piece_from_char value = Err UnknownPiece /\
      Forall (fun c => queue_separator unicode_space c = true \/ exists p, piece_from_char c = Ok p) (take (Z.to_nat index) input)
  end.
Proof.
  unfold parse_piece_sequence. enough (forall k pieces, match piece_sequence_loop unicode_space input (Z.of_nat k) pieces with
    | Ok pieces' => exists more, pieces' = pieces ++ more /\ Forall2 (fun c p => piece_from_char c = Ok p) (filter (fun c => queue_separator unicode_space c = false) input) more
    | Err (UnknownQueuePiece index value) => exists i, index = Z.of_nat (k + i) /\ input !! i = Some value /\ queue_separator unicode_space value = false /\ piece_from_char value = Err UnknownPiece /\
        Forall (fun c => queue_separator unicode_space c = true \/ exists p, piece_from_char c = Ok p) (take i input) end) as H.
  { specialize (H 0%nat []). change (Z.of_nat 0) with 0 in H. destruct (piece_sequence_loop _ _ _ _) as [ps|[index value]]; [by destruct H as (more & -> & ?)|]. destruct H as (i & -> & ?). rewrite Nat2Z.id, Nat.add_0_l. split; [lia|done]. }
  induction input as [|c input IH]; intros k pieces; cbn [piece_sequence_loop]; [exists []; by rewrite app_nil_r|]. replace (Z.of_nat k + 1) with (Z.of_nat (S k)) by lia. rewrite filter_cons. destruct (queue_separator unicode_space c) eqn:Hs.
  - specialize (IH (S k) pieces). destruct (piece_sequence_loop _ _ _ _) as [ps|[index value]]; [done|]. destruct IH as (i & -> & Hi & Hv & Hp & Hf). exists (S i). split; [lia|]. split; [done|]. split; [done|]. split; [done|]. cbn [take]. constructor; [by left|done].
  - cbn [decide]. destruct (piece_from_char c) as [p|[]] eqn:Hp.
    + specialize (IH (S k) (pieces ++ [p])). destruct (piece_sequence_loop _ _ _ _) as [ps|[index value]].
      * destruct IH as (more & -> & Hf). exists (p :: more). split; [by rewrite <- app_assoc|]. by constructor.
      * destruct IH as (i & -> & Hi & Hv & Hpv & Hf). exists (S i). split; [lia|]. split; [done|]. split; [done|]. split; [done|]. cbn [take]. constructor; [right; by exists p|done].
    + exists 0%nat. split; [lia|]. split; [done|]. split; [done|]. split; [done|]. constructor.
Qed.

(** ** The guarantees at concrete texts *)

(** A reading of the Unicode tables, irrelevant for ASCII texts. *)
Definition no_space (c : Z) : bool := false.
Definition same_case (c : Z) : list Z := [c].

(** [[ioz]2; LJ] has seven sequences. *)
Lemma queue_expression_denotes_witness : exists e, QueuePatternExpression_parse no_space same_case (text "[ioz]2; LJ") 100 = Ok e /\ pattern_count e = 7 /\ Forall meaningful (alternatives_of no_space same_case (text "[ioz]2; LJ")).
Proof.
  eexists. split; [vm_compute; reflexivity|]. split; [reflexivity|]. eapply (queue_expression_denotes no_space same_case (text "[ioz]2; LJ") 100); [split; vm_compute; congruence|vm_compute; congruence|vm_compute; reflexivity].
Defined.

(** [P7] is factorized, as it has 5040 sequences. *)
Lemma queue_expression_access_witness : exists e, QueuePatternExpression_parse no_space same_case (text "p7") 0 = Ok e /\ exists w, sequences_of e !! Z.to_nat 3 = Some w /\ sequence_at e 3 = Ok w.
Proof.
  eexists. split; [vm_compute; reflexivity|]. eapply (queue_expression_access no_space same_case (text "p7") 0); [split; vm_compute; congruence|vm_compute; congruence|vm_compute; reflexivity|vm_compute; intuition congruence].
Defined.

(** [[IOT];S] has four sequences. *)
Lemma queue_expression_errors_witness : QueuePatternExpression_parse no_space same_case (text "[IOT];S") 3 = Err (PatternError (PatternLimitExceeded 3)) /\ over_limit 3 (alternatives_of no_space same_case (text "[IOT];S")).
Proof.
  split; [vm_compute; reflexivity|]. exact (proj2 (queue_expression_errors no_space same_case (text "[IOT];S") 3 (PatternError (PatternLimitExceeded 3)) ltac:(split; vm_compute; congruence) ltac:(vm_compute; congruence) ltac:(vm_compute; reflexivity))).
Defined.

Lemma queue_expression_prefix_witness : exists e, QueuePatternExpression_parse no_space same_case (text "p7") 0 = Ok e /\ exists e', expression_prefix e 4 = Ok e' /\ qe_sequence_len e' = 4.
Proof.
  eexists. split; [vm_compute; reflexivity|]. edestruct (queue_expression_prefix no_space same_case (text "p7") 0) as (e' & He & Hl & _); [split; vm_compute; congruence|vm_compute; congruence|instantiate (1 := 4); lia|vm_compute; reflexivity|]. exists e'. split; [exact He|exact Hl].
Defined.

Lemma shortened_factorized_matches_nothing_witness : exists e s e', QueuePatternExpression_parse no_space same_case (text "p7") 0 = Ok e /\ qe_sequences e = Factorized s /\ expression_prefix e 4 = Ok e' /\
  sequence_at e' 0 = Ok [PI; PO; PT; PS] /\ matches_sequence e' [PI; PO; PT; PS] = false.
Proof.
  eexists _, _, _. split; [vm_compute; reflexivity|]. split; [reflexivity|]. split; [vm_compute; reflexivity|]. split; [vm_compute; reflexivity|].
  eapply (shortened_factorized_matches_nothing no_space same_case (text "p7") 0 _ _ 4 _); [split; vm_compute; congruence|vm_compute; congruence| |vm_compute; reflexivity|reflexivity|vm_compute; reflexivity]. vm_compute. split; congruence.
Defined.

Lemma duplicate_is_prefix_witness : exists e t' e', QueuePatternExpression_parse no_space same_case (text "[IO]2") 0 = Ok e /\
  duplicate_finite rounding_reserve 24 1 40 e 1 (ledger_transaction (mkLedger 1000 0 0)) = (t', Ok e') /\ expression_prefix e 1 = Ok e'.
Proof.
  eexists _, _, _. split; [vm_compute; reflexivity|]. split; [vm_compute; reflexivity|].
  eapply (duplicate_is_prefix no_space same_case (text "[IO]2") 0 _ rounding_reserve 24 1 40 1 (ledger_transaction (mkLedger 1000 0 0)) _ _); [split; vm_compute; congruence|vm_compute; congruence|vm_compute; reflexivity| |vm_compute; reflexivity]. vm_compute. split; congruence.
Defined.

Lemma bag_text_denotes_bags_witness : standard_7_bag_with_optional_leading_piece no_space same_case (text "T p3") = Some (Some PT, 3) /\
  match QueuePatternExpression_parse no_space same_case (text "T p3") 0 with
  | Ok e => forall w, w ∈ sequences_of e <-> exists v, w = option_list (Some PT) ++ v /\ Z.of_nat (length v) = 3 /\ bag_sequence STANDARD_TETROMINOES v
  | Err e => e = PatternError (PatternLimitExceeded (expression_limit 0))
  end.
Proof.
  split; [vm_compute; reflexivity|]. apply (bag_text_denotes_bags no_space same_case (text "T p3") 0 (Some PT) 3); [split; vm_compute; congruence|vm_compute; congruence|vm_compute; reflexivity].
Defined.

Lemma alternative_readers_agree_witness : expand_alternative (text "[IOZ]2T") 10 =
  let? s := FactorizedQueuePatternSpace_parse (text "[IOZ]2T") 10 in
  try_fold (fun sequences index => let? sequence := space_sequence s index in Ok (sequences ++ [sequence])) [] (seqZ 0 (fs_pattern_count s)).
Proof. apply (alternative_readers_agree (text "[IOZ]2T") 10); [split; vm_compute; congruence|vm_compute; congruence|discriminate]. Defined.
