(* ===== verification/PcGraph.v ===== *)
(** * Checkpoints of a perfect clear

    The partitions of a perfect-clear target into phases and the graph of
    checkpoints built from them: core-domain [pc/pc_target.rs] and, of
    [clearra-pc-graph/src], [partition/], [dag/checkpoint_schedule.rs],
    [dag/checkpoint_dag.rs], [dag/checkpoint_node.rs],
    [dag/continuation_edge.rs], [dag/continuation_token.rs],
    [dag/continuation_hint.rs] and [classification/].

    Line counts are [u8] values and identifiers [u32] values as [Z].  Sums
    that would overflow panic, as in a build with overflow checks; for the
    partitions of a target they do not. *)

From Stdlib Require Import ZArith Lia Sorting.Sorted.
From stdpp Require Import prelude strings pretty.
From S2P Require Import Prelude Words PcBoard.

Local Open Scope Z_scope.

(** ** Targets and increments *)

Record PcTarget := mkPcTarget { target_lines : Z }.

Inductive PcTargetError := PcZeroLines | PcOddLineCount (lines : Z) | PcTooManyLines (lines maximum : Z).

Definition PcTarget_new (lines : Z) : Result PcTargetError PcTarget :=
  if lines =? 0 then Err PcZeroLines
  else if negb (lines mod 2 =? 0) then Err (PcOddLineCount lines)
  else if STANDARD_PC_MAX_LINES <? lines then Err (PcTooManyLines lines STANDARD_PC_MAX_LINES)
  else Ok (mkPcTarget lines).

Record PhaseIncrement := mkIncrement { increment_lines : Z }.

Inductive PhaseIncrementError := UnsupportedLineCount (lines : Z).

Definition PhaseIncrement_new (lines : Z) : Result PhaseIncrementError PhaseIncrement :=
  match PcTarget_new lines with Ok _ => Ok (mkIncrement lines) | Err _ => Err (UnsupportedLineCount lines) end.

(** ** Partitions *)

Record LinePartition := mkPartition { increments : list PhaseIncrement }.

Inductive LinePartitionError := UnsupportedTarget (lines : Z) | UnsupportedIncrement (e : PhaseIncrementError).

(** [collect] into a [Result] stops at the first error. *)
Fixpoint collect_increments (lines : list Z) : Result PhaseIncrementError (list PhaseIncrement) :=
  match lines with
  | [] => Ok []
  | l :: lines => let? i := PhaseIncrement_new l in let? incs := collect_increments lines in Ok (i :: incs)
  end.

Definition LinePartition_new (lines : list Z) : Result LinePartitionError LinePartition :=
  match collect_increments lines with Ok incs => Ok (mkPartition incs) | Err e => Err (UnsupportedIncrement e) end.

Definition total_lines (p : LinePartition) : option Z := foldl (fun total i => total ← total; checked_add 8 total (increment_lines i)) (Some 0) (increments p).

Definition show_lines (lines : Z) : string := pretty (Z.to_N lines).

Definition partition_label (p : LinePartition) : string := String.concat "+" ((fun i => show_lines (increment_lines i)) <$> increments p).

(** [(2..=remaining).step_by(2)]. *)
Definition even_steps (remaining : Z) : list Z := (fun k => 2 * Z.of_nat k + 2) <$> seq 0 (Z.to_nat (remaining / 2)).

(** What is left shrinks at every level, so [remaining] levels are enough. *)
Fixpoint append_partitions (fuel : nat) (remaining : Z) (prefix : list Z) (partitions : list LinePartition) : Result LinePartitionError (list LinePartition) :=
  if remaining =? 0 then let? p := LinePartition_new prefix in Ok (partitions ++ [p])
  else
    match fuel with
    | O => Ok partitions
    | S fuel => try_fold (fun partitions lines => append_partitions fuel (remaining - lines) (prefix ++ [lines]) partitions) partitions (even_steps remaining)
    end.

Fixpoint lines_compare (v w : list PhaseIncrement) : comparison :=
  match v, w with
  | [], [] => Eq
  | [], _ :: _ => Lt
  | _ :: _, [] => Gt
  | a :: v, b :: w => match Z.compare (increment_lines a) (increment_lines b) with Eq => lines_compare v w | c => c end
  end.

(** By length, then lexicographically. *)
Definition partition_compare (p q : LinePartition) : comparison :=
  match Nat.compare (length (increments p)) (length (increments q)) with Eq => lines_compare (increments p) (increments q) | c => c end.

(** [sort_unstable_by]; partitions are distinct, so the order is total on
    them. *)
Fixpoint insert_partition (p : LinePartition) (l : list LinePartition) : list LinePartition :=
  match l with
  | [] => [p]
  | q :: l => match partition_compare p q with Gt => q :: insert_partition p l | _ => p :: q :: l end
  end.

Definition sort_partitions (l : list LinePartition) : list LinePartition := foldr insert_partition [] l.

Definition partitions_for_target (target : PcTarget) : Result LinePartitionError (list LinePartition) :=
  let? partitions := append_partitions (Z.to_nat (target_lines target)) (target_lines target) [] [] in
  Ok (sort_partitions partitions).

(** ** Schedules *)

Record CheckpointSchedule := mkSchedule { schedule_target : PcTarget; schedule_label : string; schedule_partitions : list LinePartition }.

Definition for_opening_target (target : PcTarget) : Result LinePartitionError CheckpointSchedule :=
  let? partitions := partitions_for_target target in
  Ok (mkSchedule target (show_lines (target_lines target) +:+ "L") partitions).

Definition partition_labels (s : CheckpointSchedule) : list string := partition_label <$> schedule_partitions s.

Definition checkpoint_count (s : CheckpointSchedule) : nat := foldr Nat.add 0%nat ((fun p => length (increments p)) <$> schedule_partitions s).

(** ** The graph of checkpoints *)

Record CheckpointNode := mkNode { node_id : Z; node_partition_index : Z; node_phase_index : Z; lines_to_clear : Z; cumulative_lines : Z }.

Definition ContinuationToken_new (partition_index from to : Z) : Z := Z.lor (Z.lor (shl 64 partition_index 48) (shl 64 from 24)) to.

Record ContinuationEdge := mkEdge { edge_from : Z; edge_to : Z; edge_token : Z }.

Definition ContinuationEdge_new (partition_index from to : Z) : ContinuationEdge := mkEdge from to (ContinuationToken_new partition_index from to).

Record CheckpointDag := mkDag { dag_partitions : list LinePartition; dag_nodes : list CheckpointNode; dag_edges : list ContinuationEdge }.

Definition build_node (id partition_index phase_index : Z) (increment : PhaseIncrement) (cumulative : Z) : option (CheckpointNode * Z) :=
  cumulative ← checked_add 8 cumulative (increment_lines increment);
  Some (mkNode id partition_index phase_index (increment_lines increment) cumulative, cumulative).

(** The loop over the increments of a partition. *)
Fixpoint phase_loop (partition_index phase_index : Z) (incs : list PhaseIncrement) (next_id : Z) (previous : option CheckpointNode) (cumulative : Z) (nodes : list CheckpointNode) (edges : list ContinuationEdge)
  : option (Z * list CheckpointNode * list ContinuationEdge) :=
  match incs with
  | [] => Some (next_id, nodes, edges)
  | i :: incs =>
      '(node, cumulative) ← build_node next_id partition_index (wrap 32 phase_index) i cumulative;
      next_id ← checked_add 32 next_id 1;
      let edges := match previous with Some previous_node => edges ++ [ContinuationEdge_new partition_index (node_id previous_node) (node_id node)] | None => edges end in
      phase_loop partition_index (phase_index + 1) incs next_id (Some node) cumulative (nodes ++ [node]) edges
  end.

Fixpoint partition_loop (partition_index : Z) (ps : list LinePartition) (next_id : Z) (nodes : list CheckpointNode) (edges : list ContinuationEdge) : option (list CheckpointNode * list ContinuationEdge) :=
  match ps with
  | [] => Some (nodes, edges)
  | p :: ps =>
      '(next_id, nodes, edges) ← phase_loop (wrap 32 partition_index) 0 (increments p) next_id None 0 nodes edges;
      partition_loop (partition_index + 1) ps next_id nodes edges
  end.

(** [None] is a panic. *)
Definition from_partitions (ps : list LinePartition) : option CheckpointDag :=
  '(nodes, edges) ← partition_loop 0 ps 0 [] []; Some (mkDag ps nodes edges).

Definition find_node (d : CheckpointDag) (id : Z) : option CheckpointNode := List.find (fun n => node_id n =? id) (dag_nodes d).

Definition nodes_for_partition (d : CheckpointDag) (partition_index : Z) : list CheckpointNode := List.filter (fun n => node_partition_index n =? partition_index) (dag_nodes d).

(** [CheckpointDag::from_opening_query], from the target of the query. *)
Definition from_opening_target (target : PcTarget) : Result LinePartitionError (option CheckpointDag) :=
  let? partitions := partitions_for_target target in Ok (from_partitions partitions).

(** ** Classification and hints *)

Inductive ChainClass := Opening2L | Opening4L | Opening6L | OpeningExtended (lines : Z) | Scenario | UnsupportedOpening.

Definition classify_opening (target : PcTarget) : ChainClass :=
  let lines := target_lines target in
  if lines =? 2 then Opening2L else if lines =? 4 then Opening4L else if lines =? 6 then Opening6L
  else if (8 <=? lines) && (lines <=? 24) then OpeningExtended lines else UnsupportedOpening.

Record BagPhase := mkBagPhase { phase_bag_index : Z; phase_offset : Z }.

Definition classify_bag_phase (queue_index bag_size : Z) : option BagPhase :=
  if bag_size =? 0 then None else Some (mkBagPhase (queue_index / bag_size) (queue_index mod bag_size)).

Record ContinuationHint := mkHint { next_target : option PcTarget; min_required_pieces : Z }.

Definition for_remaining_queue (remaining_queue_len : Z) : ContinuationHint :=
  if 15 <=? remaining_queue_len then mkHint (Some (mkPcTarget 6)) 15
  else if 10 <=? remaining_queue_len then mkHint (Some (mkPcTarget 4)) 10
  else if 5 <=? remaining_queue_len then mkHint (Some (mkPcTarget 2)) 5
  else mkHint None 5.

(** The labels of a six-line schedule, as the tests of the repository have
    them. *)
Example six_line_labels : (partition_labels <$> match for_opening_target (mkPcTarget 6) with Ok s => Some s | Err _ => None end) = Some ["6"; "2+4"; "4+2"; "2+2+2"]%string.
Proof. vm_compute. reflexivity. Qed.

(** ** Compositions into even parts *)

Definition sum_lines (l : list Z) : Z := foldr Z.add 0 l.

Definition phase_lines (x : Z) : Prop := 2 <= x /\ x mod 2 = 0.

Definition lines_of (p : LinePartition) : list Z := increment_lines <$> increments p.

Definition partition_of (l : list Z) : LinePartition := mkPartition (mkIncrement <$> l).

Fixpoint compositions (fuel : nat) (n : Z) : list (list Z) :=
  if n =? 0 then [[]] else match fuel with O => [] | S fuel => even_steps n ≫= fun x => cons x <$> compositions fuel (n - x) end.

Lemma partition_of_lines p : partition_of (lines_of p) = p.
Proof. destruct p as [l]. unfold partition_of, lines_of. cbn. f_equal. rewrite <- list_fmap_compose. rewrite <- (list_fmap_id l) at 2. apply list_fmap_ext. by intros i []. Qed.

Lemma lines_of_partition l : lines_of (partition_of l) = l.
Proof. unfold partition_of, lines_of. cbn. rewrite <- list_fmap_compose. rewrite <- (list_fmap_id l) at 2. by apply list_fmap_ext. Qed.

Lemma even_steps_elem n x : x ∈ even_steps n <-> phase_lines x /\ x <= n.
Proof.
  unfold even_steps, phase_lines. rewrite list_elem_of_fmap. split.
  - intros (k & -> & Hk%elem_of_seq). assert (Z.of_nat k < n / 2) as Hn by lia. rewrite Z.add_comm, Z.mul_comm, Z.mod_add by lia. split; [split; [lia|done]|]. pose proof (Z.mul_div_le n 2 ltac:(lia)). lia.
  - intros [[H2 He] Hn]. exists (Z.to_nat (x / 2 - 1)). pose proof (Z.div_mod x 2 ltac:(lia)) as Hx. split; [lia|]. apply elem_of_seq. pose proof (Z.div_le_mono x n 2 ltac:(lia) Hn). lia.
Qed.

Lemma sum_lines_bound l : Forall phase_lines l -> 0 <= sum_lines l.
Proof. induction 1 as [|x l [Hx _] _ IH]; cbn; [lia|]. unfold sum_lines in IH. lia. Qed.

Lemma compositions_elem fuel n w : 0 <= n <= Z.of_nat fuel -> w ∈ compositions fuel n <-> Forall phase_lines w /\ sum_lines w = n.
Proof.
  revert n w. induction fuel as [|fuel IH]; intros n w Hn; cbn [compositions]; destruct (Z.eqb_spec n 0) as [->|Hne]; try lia.
  1, 2: rewrite list_elem_of_singleton; split; [intros ->; by split; [constructor|]|]; intros [Hf Hs]; destruct Hf as [|x l [Hx _] Hf]; [done|]; apply sum_lines_bound in Hf; cbn in Hs; unfold sum_lines in Hf; lia.
  rewrite list_elem_of_bind. split.
  - intros (x & (v & -> & Hv)%list_elem_of_fmap & [Hx Hle]%even_steps_elem). pose proof Hx as [H2 _]. apply IH in Hv as [Hf Hs]; [|lia]. split; [by constructor|]. change (sum_lines (x :: v)) with (x + sum_lines v). lia.
  - intros [Hf Hs]. destruct Hf as [|x v Hx Hf]; [cbn in Hs; lia|]. pose proof Hx as [H2 _]. pose proof (sum_lines_bound v Hf). change (sum_lines (x :: v)) with (x + sum_lines v) in Hs.
    exists x. split; [|apply even_steps_elem; split; [done|lia]]. apply list_elem_of_fmap. exists v. split; [done|]. apply IH; [lia|]. split; [done|lia].
Qed.

Lemma even_steps_NoDup n : NoDup (even_steps n).
Proof. unfold even_steps. apply NoDup_fmap_2; [intros a b H; lia|apply NoDup_seq]. Qed.

Lemma compositions_NoDup fuel n : NoDup (compositions fuel n).
Proof.
  revert n. induction fuel as [|fuel IH]; intros n; cbn [compositions]; destruct (n =? 0); try apply NoDup_singleton; [constructor|]. apply NoDup_bind.
  - intros x y w _ _ (v & -> & _)%list_elem_of_fmap (u & [= -> ->] & _)%list_elem_of_fmap. done.
  - intros x _. apply NoDup_fmap_2; [intros a b; by intros [=]|apply IH].
  - apply even_steps_NoDup.
Qed.

(** ** The partitions of a target *)

Definition part_ok (x : Z) : Prop := phase_lines x /\ x <= STANDARD_PC_MAX_LINES.

Lemma PhaseIncrement_new_ok x : part_ok x -> PhaseIncrement_new x = Ok (mkIncrement x).
Proof. intros [[H2 He] Hle]. unfold PhaseIncrement_new, PcTarget_new. rewrite (proj2 (Z.eqb_neq _ _)) by lia. rewrite He. cbn [Z.eqb negb]. by rewrite (proj2 (Z.ltb_ge _ _)) by lia. Qed.

Lemma LinePartition_new_ok l : Forall part_ok l -> LinePartition_new l = Ok (partition_of l).
Proof.
  intros H. unfold LinePartition_new, partition_of. assert (collect_increments l = Ok (mkIncrement <$> l)) as ->; [|done]. induction H as [|x l Hx _ IH]; cbn; [done|]. rewrite (PhaseIncrement_new_ok x Hx), IH. done.
Qed.

Lemma append_partitions_compositions fuel n prefix partitions : 0 <= n <= STANDARD_PC_MAX_LINES -> Forall part_ok prefix ->
  append_partitions fuel n prefix partitions = Ok (partitions ++ ((fun w => partition_of (prefix ++ w)) <$> compositions fuel n)).
Proof.
  revert n prefix partitions. induction fuel as [|fuel IH]; intros n prefix partitions Hn Hp; cbn [append_partitions compositions]; destruct (n =? 0); try (rewrite (LinePartition_new_ok prefix Hp); cbn; by rewrite app_nil_r).
  { cbn. by rewrite app_nil_r. }
  assert (Forall (fun x => part_ok x /\ x <= n) (even_steps n)) as Hsteps by (apply Forall_forall; intros x [Hx Hle]%even_steps_elem; split; [split; [done|lia]|done]). revert partitions. induction Hsteps as [|x l [Hx Hle] _ IHl]; intros partitions; [cbn; by rewrite app_nil_r|].
  cbn [try_fold]. pose proof Hx as [[H2 _] _]. rewrite IH; [|lia|apply Forall_app_2; [done|by constructor]]. cbn [rbind]. rewrite IHl. cbn [mbind list_bind]. rewrite fmap_app, <- app_assoc. do 3 f_equal. rewrite <- list_fmap_compose. apply list_fmap_ext. intros i w _. unfold compose. by rewrite <- app_assoc.
Qed.

Lemma PcTarget_new_ok n t : PcTarget_new n = Ok t -> target_lines t = n /\ n mod 2 = 0 /\ n <> 0 /\ n <= STANDARD_PC_MAX_LINES.
Proof. unfold PcTarget_new. destruct (Z.eqb_spec n 0), (Z.eqb_spec (n mod 2) 0), (Z.ltb_spec STANDARD_PC_MAX_LINES n); cbn; try done. intros [= <-]. done. Qed.

(** *** Order *)

Lemma lines_compare_eq v w : lines_compare v w = Eq <-> v = w.
Proof.
  revert w. induction v as [|[a] v IH]; intros [|[b] w]; cbn; try done. destruct (Z.compare_spec a b) as [->|H|H]; [rewrite IH; split; [by intros ->|by intros [= ->]]| |]; (split; [done|]; intros [= -> ->]; lia).
Qed.

Lemma lines_compare_gt v w : lines_compare v w = Gt <-> lines_compare w v = Lt.
Proof. revert w. induction v as [|[a] v IH]; intros [|[b] w]; cbn; try done. rewrite (Z.compare_antisym a b). destruct (Z.compare a b); cbn; [apply IH|done|done]. Qed.

Lemma lines_compare_trans u v w : lines_compare u v = Lt -> lines_compare v w = Lt -> lines_compare u w = Lt.
Proof.
  revert v w. induction u as [|[a] u IH]; intros [|[b] v] [|[c] w]; cbn; try done. destruct (Z.compare_spec a b), (Z.compare_spec b c), (Z.compare_spec a c); try done; try lia. apply IH.
Qed.

Definition partition_lt (p q : LinePartition) : Prop := partition_compare p q = Lt.

Lemma partition_compare_eq p q : partition_compare p q = Eq -> p = q.
Proof. unfold partition_compare. destruct (Nat.compare_spec (length (increments p)) (length (increments q))); try done. intros H'%lines_compare_eq. destruct p, q. cbn in H'. by subst. Qed.

Lemma partition_compare_gt p q : partition_compare p q = Gt -> partition_lt q p.
Proof. unfold partition_lt, partition_compare. rewrite (Nat.compare_antisym (length (increments p))). destruct (Nat.compare _ _); cbn; [by intros ?%lines_compare_gt|done|done]. Qed.

Lemma partition_lt_trans p q r : partition_lt p q -> partition_lt q r -> partition_lt p r.
Proof.
  unfold partition_lt, partition_compare. destruct (Nat.compare_spec (length (increments p)) (length (increments q))), (Nat.compare_spec (length (increments q)) (length (increments r))), (Nat.compare_spec (length (increments p)) (length (increments r))); try done; try lia. apply lines_compare_trans.
Qed.

Lemma insert_partition_perm p l : insert_partition p l ≡ₚ p :: l.
Proof. induction l as [|q l IH]; cbn; [done|]. destruct (partition_compare p q); [done|done|]. rewrite IH. apply Permutation_swap. Qed.

Lemma sort_partitions_perm l : sort_partitions l ≡ₚ l.
Proof. induction l as [|p l IH]; cbn; [done|]. fold (sort_partitions l). by rewrite insert_partition_perm, IH. Qed.

Lemma insert_partition_sorted p l : StronglySorted partition_lt l -> p ∉ l -> StronglySorted partition_lt (insert_partition p l).
Proof.
  induction 1 as [|q l Hl IH Hq]; intros Hp; cbn; [repeat constructor|]. destruct (partition_compare p q) eqn:Hc.
  - apply partition_compare_eq in Hc as ->. set_solver.
  - constructor; [by constructor|]. constructor; [done|]. eapply Forall_impl; [exact Hq|]. intros r. by apply partition_lt_trans.
  - constructor; [apply IH; set_solver|]. rewrite insert_partition_perm. constructor; [by apply partition_compare_gt|done].
Qed.

Lemma sort_partitions_sorted l : NoDup l -> StronglySorted partition_lt (sort_partitions l).
Proof. induction 1 as [|p l Hp _ IH]; cbn; [constructor|]. fold (sort_partitions l). apply insert_partition_sorted; [done|]. by rewrite sort_partitions_perm. Qed.

Lemma sum_lines_parts l : Forall phase_lines l -> Forall (fun x => x <= sum_lines l) l.
Proof.
  induction 1 as [|x l Hx Hl IH]; constructor; change (sum_lines (x :: l)) with (x + sum_lines l); pose proof (sum_lines_bound l Hl); [lia|]. destruct Hx. eapply Forall_impl; [exact IH|]. cbn. intros; lia.
Qed.

Lemma total_lines_sum p : Forall phase_lines (lines_of p) -> sum_lines (lines_of p) < 256 -> total_lines p = Some (sum_lines (lines_of p)).
Proof.
  unfold total_lines, lines_of. generalize (increments p) as l. intros l. enough (forall acc, 0 <= acc -> Forall phase_lines (increment_lines <$> l) -> acc + sum_lines (increment_lines <$> l) < 256 ->
    foldl (fun total i => total ← total; checked_add 8 total (increment_lines i)) (Some acc) l = Some (acc + sum_lines (increment_lines <$> l))) as H by (intros; by apply (H 0)).
  induction l as [|i l IH]; intros acc Ha Hf Hs; [cbn; f_equal; lia|]. rewrite fmap_cons in Hf, Hs |- *. apply Forall_cons in Hf as [[Hi _] Hf]. pose proof (sum_lines_bound _ Hf) as Hb.
  change (sum_lines (increment_lines i :: (increment_lines <$> l))) with (increment_lines i + sum_lines (increment_lines <$> l)) in *. cbn [foldl mbind option_bind]. unfold checked_add at 2. rewrite (proj2 (Z.ltb_lt _ _)) by lia.
  rewrite IH by (done || lia). f_equal. lia.
Qed.

(** The partitions of a target as a permutation of its compositions. *)
Lemma partitions_for_target_spec n t : PcTarget_new n = Ok t -> 0 <= n ->
  exists l, partitions_for_target t = Ok l /\ l ≡ₚ partition_of <$> compositions (Z.to_nat n) n /\ StronglySorted partition_lt l.
Proof.
  intros (Ht & _ & _ & Hle)%PcTarget_new_ok Hn. unfold partitions_for_target. rewrite Ht, append_partitions_compositions by (done || constructor). cbn [rbind app].
  change (fun w => partition_of w) with partition_of. eexists. split; [done|]. split; [apply sort_partitions_perm|].
  apply sort_partitions_sorted, NoDup_fmap_2; [|apply compositions_NoDup]. intros a b H. apply (f_equal lines_of) in H. by rewrite !lines_of_partition in H.
Qed.

Lemma compositions_count n : 0 < n <= 24 -> n mod 2 = 0 -> length (compositions (Z.to_nat n) n) = Z.to_nat (2 ^ (n / 2 - 1)).
Proof.
  intros Hn He. assert (n = 2 \/ n = 4 \/ n = 6 \/ n = 8 \/ n = 10 \/ n = 12 \/ n = 14 \/ n = 16 \/ n = 18 \/ n = 20 \/ n = 22 \/ n = 24) as H.
  { pose proof (Z.div_mod n 2 ltac:(lia)). lia. }
  repeat (destruct H as [->|H]; [vm_compute; reflexivity|]). subst n. vm_compute. reflexivity.
Qed.

Definition is_partition (n : Z) (p : LinePartition) : Prop := Forall phase_lines (lines_of p) /\ sum_lines (lines_of p) = n.

(** C29: [partitions_for_target].  For every target the partitions are exactly
    the ways to write its lines as a sum of even phases, in every order and
    once each, [2^(n/2 - 1)] of them, sorted by the number of phases and then
    lexicographically; no phase is refused and the lines of each partition add
    up to the target within a [u8]. *)
Theorem partitions_for_target_correct n t : 0 <= n -> PcTarget_new n = Ok t ->
  exists l, partitions_for_target t = Ok l /\ (forall p, p ∈ l <-> is_partition n p) /\ StronglySorted partition_lt l /\
    Z.of_nat (length l) = 2 ^ (n / 2 - 1) /\ Forall (fun p => total_lines p = Some n) l.
Proof.
  intros Hn Ht. destruct (partitions_for_target_spec n t Ht Hn) as (l & Hl & Hp & Hs). apply PcTarget_new_ok in Ht as (_ & He & Hne & Hle). unfold STANDARD_PC_MAX_LINES in Hle. exists l. split; [done|].
  assert (forall p, p ∈ l <-> is_partition n p) as Helem.
  { intros p. rewrite Hp, list_elem_of_fmap. unfold is_partition. split.
    - intros (w & -> & Hw). rewrite lines_of_partition. by apply (compositions_elem (Z.to_nat n)); [lia|].
    - intros H. exists (lines_of p). rewrite partition_of_lines. split; [done|]. apply compositions_elem; [lia|done]. }
  split; [done|]. split; [done|]. split.
  - rewrite Hp, length_fmap, compositions_count by lia. rewrite Z2Nat.id; [done|]. apply Z.pow_nonneg. lia.
  - apply Forall_forall. intros p [Hf Hsum]%Helem. rewrite <- Hsum. apply total_lines_sum; [done|lia].
Qed.

Lemma partitions_for_target_correct_witness : PcTarget_new 8 = Ok (mkPcTarget 8) /\ exists l, partitions_for_target (mkPcTarget 8) = Ok l /\ Z.of_nat (length l) = 2 ^ (8 / 2 - 1).
Proof. split; [reflexivity|]. destruct (partitions_for_target_correct 8 (mkPcTarget 8)) as (l & Hl & _ & _ & Hc & _); [lia|reflexivity|]. exists l. split; [exact Hl|exact Hc]. Defined.

(** ** The checkpoints of a list of partitions *)

Fixpoint phase_nodes (partition_index id phase cumulative : Z) (incs : list PhaseIncrement) : list CheckpointNode :=
  match incs with
  | [] => []
  | i :: incs => mkNode id partition_index phase (increment_lines i) (cumulative + increment_lines i) :: phase_nodes partition_index (id + 1) (phase + 1) (cumulative + increment_lines i) incs
  end.

Fixpoint phase_chain (partition_index : Z) (l : list CheckpointNode) : list ContinuationEdge :=
  match l with
  | a :: ((b :: _) as rest) => ContinuationEdge_new partition_index (node_id a) (node_id b) :: phase_chain partition_index rest
  | _ => []
  end.

Fixpoint all_nodes (partition_index id : Z) (ps : list LinePartition) : list CheckpointNode :=
  match ps with
  | [] => []
  | p :: ps => phase_nodes partition_index id 0 0 (increments p) ++ all_nodes (partition_index + 1) (id + Z.of_nat (length (increments p))) ps
  end.

Fixpoint all_edges (partition_index id : Z) (ps : list LinePartition) : list ContinuationEdge :=
  match ps with
  | [] => []
  | p :: ps => phase_chain partition_index (phase_nodes partition_index id 0 0 (increments p)) ++ all_edges (partition_index + 1) (id + Z.of_nat (length (increments p))) ps
  end.

Lemma phase_nodes_length pi id phase c incs : length (phase_nodes pi id phase c incs) = length incs.
Proof. revert id phase c. induction incs as [|i incs IH]; intros; cbn; [done|]. by rewrite IH. Qed.

Lemma phase_nodes_partition pi id phase c incs : Forall (fun n => node_partition_index n = pi) (phase_nodes pi id phase c incs).
Proof. revert id phase c. induction incs as [|i incs IH]; intros; cbn; constructor; [done|apply IH]. Qed.

Lemma phase_nodes_lookup pi id phase c incs k n : phase_nodes pi id phase c incs !! k = Some n ->
  node_id n = id + Z.of_nat k /\ node_phase_index n = phase + Z.of_nat k /\ cumulative_lines n = c + sum_lines (take (S k) (increment_lines <$> incs)) /\ (increment_lines <$> incs) !! k = Some (lines_to_clear n).
Proof.
  revert id phase c k. induction incs as [|i incs IH]; intros id phase c k; [done|]. rewrite fmap_cons. destruct k as [|k].
  - intros [= <-]. cbn [node_id node_phase_index cumulative_lines lines_to_clear]. split; [lia|]. split; [lia|]. split; [|done]. change (take 1 (increment_lines i :: (increment_lines <$> incs))) with [increment_lines i]. cbn. lia.
  - intros (H1 & H2 & H3 & H4)%IH. rewrite H1, H2, H3. split; [lia|]. split; [lia|]. split; [|done]. change (take (S (S k)) (increment_lines i :: (increment_lines <$> incs))) with (increment_lines i :: take (S k) (increment_lines <$> incs)).
    change (sum_lines (increment_lines i :: take (S k) (increment_lines <$> incs))) with (increment_lines i + sum_lines (take (S k) (increment_lines <$> incs))). lia.
Qed.

Lemma phase_loop_spec pi phase incs next_id prev c nodes edges :
  0 <= next_id -> next_id + Z.of_nat (length incs) < 2 ^ 32 -> 0 <= phase -> phase + Z.of_nat (length incs) < 2 ^ 32 -> 0 <= c -> Forall phase_lines (increment_lines <$> incs) -> c + sum_lines (increment_lines <$> incs) < 256 ->
  phase_loop pi phase incs next_id prev c nodes edges =
  Some (next_id + Z.of_nat (length incs), nodes ++ phase_nodes pi next_id phase c incs, edges ++ phase_chain pi (option_list prev ++ phase_nodes pi next_id phase c incs)).
Proof.
  revert phase next_id prev c nodes edges. induction incs as [|i incs IH]; intros phase next_id prev c nodes edges Hid Hid2 Hph Hph2 Hc Hf Hs; cbn [phase_loop].
  - cbn [phase_nodes length]. rewrite !app_nil_r, Z.add_0_r. destruct prev; cbn; by rewrite app_nil_r.
  - rewrite fmap_cons in Hf, Hs. apply Forall_cons in Hf as [[Hi _] Hf]. pose proof (sum_lines_bound _ Hf) as Hb. change (sum_lines (increment_lines i :: (increment_lines <$> incs))) with (increment_lines i + sum_lines (increment_lines <$> incs)) in Hs. cbn [length] in Hid2, Hph2.
    unfold build_node, checked_add. rewrite !(proj2 (Z.ltb_lt _ _)) by lia. cbn [mbind option_bind]. rewrite wrap_small by (unfold in_width; lia). rewrite IH by (done || lia). cbn [node_id length phase_nodes option_list]. rewrite <- !app_assoc.
    replace (next_id + 1 + Z.of_nat (length incs)) with (next_id + Z.of_nat (S (length incs))) by lia.
    destruct prev as [a|]; cbn [option_list app]; rewrite <- ?app_assoc; reflexivity.
Qed.

Definition total_phases (ps : list LinePartition) : nat := foldr Nat.add 0%nat ((fun p => length (increments p)) <$> ps).

Definition within_u8 (p : LinePartition) : Prop := Forall phase_lines (lines_of p) /\ sum_lines (lines_of p) < 256.

Lemma partition_loop_spec pi ps next_id nodes edges : Forall within_u8 ps -> 0 <= next_id -> next_id + Z.of_nat (total_phases ps) < 2 ^ 32 -> 0 <= pi -> pi + Z.of_nat (length ps) < 2 ^ 32 ->
  partition_loop pi ps next_id nodes edges = Some (nodes ++ all_nodes pi next_id ps, edges ++ all_edges pi next_id ps).
Proof.
  intros Hps. revert pi next_id nodes edges. induction Hps as [|p ps [Hf Hs] _ IH]; intros pi next_id nodes edges Hid Hid2 Hpi Hpi2; cbn [partition_loop all_nodes all_edges]; [by rewrite !app_nil_r|].
  change (total_phases (p :: ps)) with (length (increments p) + total_phases ps)%nat in Hid2. cbn [length] in Hpi2. rewrite wrap_small by (unfold in_width; lia). rewrite phase_loop_spec by (done || lia). cbn [mbind option_bind]. rewrite IH by lia. by rewrite <- !app_assoc.
Qed.

(** *** Nodes *)

Lemma all_nodes_partition pi id ps : Forall (fun n => pi <= node_partition_index n) (all_nodes pi id ps).
Proof.
  revert pi id. induction ps as [|p ps IH]; intros pi id; cbn; [constructor|]. apply Forall_app_2; [eapply Forall_impl; [apply phase_nodes_partition|]; cbn; intros; lia|]. eapply Forall_impl; [apply IH|]. cbn. intros; lia.
Qed.

Lemma all_nodes_length pi id ps : length (all_nodes pi id ps) = total_phases ps.
Proof. revert pi id. induction ps as [|p ps IH]; intros; cbn; [done|]. by rewrite length_app, phase_nodes_length, IH. Qed.

Lemma all_nodes_id pi id ps k n : all_nodes pi id ps !! k = Some n -> node_id n = id + Z.of_nat k.
Proof.
  revert pi id k. induction ps as [|p ps IH]; intros pi id k; cbn [all_nodes]; [done|]. rewrite lookup_app_Some. intros [(H & _)%phase_nodes_lookup|[Hk H%IH]]; [done|]. rewrite phase_nodes_length in *. lia.
Qed.

Lemma filter_all {A} (f : A -> bool) l : Forall (fun a => f a = true) l -> List.filter f l = l.
Proof. induction 1 as [|a l Ha _ IH]; cbn; [done|]. by rewrite Ha, IH. Qed.

Lemma filter_none {A} (f : A -> bool) l : Forall (fun a => f a = false) l -> List.filter f l = [].
Proof. induction 1 as [|a l Ha _ IH]; cbn; [done|]. by rewrite Ha. Qed.

Lemma all_nodes_filter pi id ps i p : ps !! i = Some p -> exists id', List.filter (fun n => node_partition_index n =? pi + Z.of_nat i) (all_nodes pi id ps) = phase_nodes (pi + Z.of_nat i) id' 0 0 (increments p).
Proof.
  revert pi id i. induction ps as [|q ps IH]; intros pi id i; [done|]. cbn [all_nodes]. rewrite List.filter_app. destruct i as [|i]; cbn [lookup list_lookup].
  - intros [= ->]. exists id. rewrite Z.add_0_r. rewrite filter_all by (eapply Forall_impl; [apply phase_nodes_partition|]; cbn; intros n ->; apply Z.eqb_refl).
    rewrite filter_none, app_nil_r; [done|]. eapply Forall_impl; [apply all_nodes_partition|]. cbn. intros n Hn. apply Z.eqb_neq. lia.
  - intros Hp. rewrite filter_none by (eapply Forall_impl; [apply phase_nodes_partition|]; cbn; intros n ->; apply Z.eqb_neq; lia). cbn [app]. replace (pi + Z.of_nat (S i)) with (pi + 1 + Z.of_nat i) by lia. by apply IH.
Qed.

(** *** Edges *)

Lemma phase_chain_elem pi l e : e ∈ phase_chain pi l <-> exists k a b, l !! k = Some a /\ l !! S k = Some b /\ e = ContinuationEdge_new pi (node_id a) (node_id b).
Proof.
  induction l as [|a l IH]; [split; [set_solver|by intros (? & ? & ? & ? & _)]|]. destruct l as [|b l].
  - split; [set_solver|]. intros (k & ? & ? & _ & H & _). by destruct k.
  - change (phase_chain pi (a :: b :: l)) with (ContinuationEdge_new pi (node_id a) (node_id b) :: phase_chain pi (b :: l)). rewrite elem_of_cons, IH. split.
    + intros [->|(k & x & y & Hx & Hy & ->)]; [by exists 0%nat, a, b|by exists (S k), x, y].
    + intros ([|k] & x & y & Hx & Hy & ->); [cbn in Hx, Hy; injection Hx as <-; injection Hy as <-; by left|]. right. by exists k, x, y.
Qed.

Lemma all_edges_elem pi id ps e : e ∈ all_edges pi id ps <->
  exists k a b, all_nodes pi id ps !! k = Some a /\ all_nodes pi id ps !! S k = Some b /\ node_partition_index a = node_partition_index b /\ e = ContinuationEdge_new (node_partition_index a) (node_id a) (node_id b).
Proof.
  revert pi id. induction ps as [|p ps IH]; intros pi id; cbn [all_edges all_nodes]; [split; [set_solver|by intros (? & ? & ? & ? & _)]|]. set (l := phase_nodes pi id 0 0 (increments p)). set (r := all_nodes (pi + 1) _ ps).
  assert (forall n, n ∈ l -> node_partition_index n = pi) as Hl by (intros n Hn; pose proof (phase_nodes_partition pi id 0 0 (increments p)) as H; rewrite Forall_forall in H; by apply H).
  assert (forall n, n ∈ r -> pi + 1 <= node_partition_index n) as Hr by (intros n Hn; pose proof (all_nodes_partition (pi + 1) (id + Z.of_nat (length (increments p))) ps) as H; rewrite Forall_forall in H; by apply H).
  rewrite elem_of_app, phase_chain_elem, IH. fold r. split.
  - intros [(k & a & b & Ha & Hb & ->)|(k & a & b & Ha & Hb & Heq & ->)].
    + exists k, a, b. rewrite !lookup_app_l by (by eapply lookup_lt_Some). split; [done|]. split; [done|]. rewrite (Hl a), (Hl b) by (by eapply list_elem_of_lookup_2). done.
    + exists (length l + k)%nat, a, b. rewrite <- Nat.add_succ_r, !lookup_app_r by lia. replace (length l + k - length l)%nat with k by lia. replace (length l + S k - length l)%nat with (S k) by lia. done.
  - intros (k & a & b & Ha & Hb & Heq & ->). rewrite lookup_app_Some in Ha, Hb. destruct Ha as [Ha|[Hka Ha]], Hb as [Hb|[Hkb Hb]].
    + left. exists k, a, b. by rewrite (Hl a) by (by eapply list_elem_of_lookup_2).
    + apply list_elem_of_lookup_2, Hl in Ha. apply list_elem_of_lookup_2, Hr in Hb. lia.
    + apply lookup_lt_Some in Hb. lia.
    + right. exists (k - length l)%nat, a, b. replace (S (k - length l)) with (S k - length l)%nat by lia. done.
Qed.

(** *** Tokens *)

Lemma shl_in_range x k : 0 <= x -> 0 <= k < 64 -> x * 2 ^ k < 2 ^ 64 -> shl 64 x k = Z.shiftl x k.
Proof. intros Hx Hk H. unfold shl. rewrite (Z.mod_small k) by lia. rewrite Z.land_ones, Z.mod_small by (rewrite ?Z.shiftl_mul_pow2; nia). done. Qed.

(** The fields of a token do not overlap. *)
Lemma token_value pi from to : 0 <= pi < 2 ^ 16 -> 0 <= from < 2 ^ 24 -> 0 <= to < 2 ^ 24 -> ContinuationToken_new pi from to = 2 ^ 24 * (2 ^ 24 * pi + from) + to.
Proof.
  intros Hp Hf Ht. unfold ContinuationToken_new. rewrite !shl_in_range by nia. replace (Z.shiftl pi 48) with (Z.shiftl (Z.shiftl pi 24) 24) by (rewrite Z.shiftl_shiftl by lia; done).
  rewrite <- Z.shiftl_lor, !lor_shiftl_low by (unfold in_width; lia). done.
Qed.

Lemma token_inj pi from to pi' from' to' : 0 <= pi < 2 ^ 16 -> 0 <= from < 2 ^ 24 -> 0 <= to < 2 ^ 24 -> 0 <= pi' < 2 ^ 16 -> 0 <= from' < 2 ^ 24 -> 0 <= to' < 2 ^ 24 ->
  ContinuationToken_new pi from to = ContinuationToken_new pi' from' to' -> pi = pi' /\ from = from' /\ to = to'.
Proof. intros. rewrite !token_value in H5 by done. lia. Qed.

(** ** The checkpoints of a target *)

Lemma phases_bound n p : is_partition n p -> 2 * Z.of_nat (length (increments p)) <= n.
Proof.
  intros [Hf <-]. unfold lines_of in *. induction (increments p) as [|i l IH]; [done|]. rewrite fmap_cons in *. apply Forall_cons in Hf as [[Hi _] Hf]. specialize (IH Hf). change (sum_lines (increment_lines i :: (increment_lines <$> l))) with (increment_lines i + sum_lines (increment_lines <$> l)). cbn [length]. lia.
Qed.

Lemma total_phases_bound m ps : Forall (fun p => Z.of_nat (length (increments p)) <= m) ps -> Z.of_nat (total_phases ps) <= m * Z.of_nat (length ps).
Proof. induction 1 as [|p ps Hp _ IH]; [cbn; lia|]. change (total_phases (p :: ps)) with (length (increments p) + total_phases ps)%nat. cbn [length]. lia. Qed.

Lemma all_nodes_partition_upper pi id ps : Forall (fun n => node_partition_index n < pi + Z.of_nat (length ps)) (all_nodes pi id ps).
Proof.
  revert pi id. induction ps as [|p ps IH]; intros pi id; cbn [all_nodes length]; [constructor|]. apply Forall_app_2; [eapply Forall_impl; [apply phase_nodes_partition|]; cbn; intros; lia|]. eapply Forall_impl; [apply IH|]. cbn. intros; lia.
Qed.

Lemma find_by_id l k a : (forall k a, l !! k = Some a -> node_id a = Z.of_nat k) -> l !! k = Some a -> List.find (fun n => node_id n =? Z.of_nat k) l = Some a.
Proof.
  intros Hid Hk. assert (forall m, (forall k a, l !! k = Some a -> node_id a = Z.of_nat (m + k)) -> List.find (fun n => node_id n =? Z.of_nat (m + k)) l = Some a) as H; [|by apply (H 0%nat)]. clear Hid. revert k Hk.
  induction l as [|b l IH]; intros k Hk m Hid; [done|]. cbn [List.find]. rewrite (Hid 0%nat b eq_refl). destruct k as [|k].
  - injection Hk as ->. by rewrite Z.eqb_refl.
  - rewrite (proj2 (Z.eqb_neq _ _)) by lia. rewrite <- Nat.add_succ_comm. apply IH; [done|]. intros k' a' H. rewrite Nat.add_succ_comm. by apply (Hid (S k')).
Qed.

(** The graph of a target, from its partitions. *)
Lemma from_opening_target_spec n t : 0 <= n -> PcTarget_new n = Ok t -> exists ps, partitions_for_target t = Ok ps /\
  from_opening_target t = Ok (Some (mkDag ps (all_nodes 0 0 ps) (all_edges 0 0 ps))) /\ Z.of_nat (length ps) < 2 ^ 16 /\ Z.of_nat (total_phases ps) < 2 ^ 24.
Proof.
  intros Hn Ht. destruct (partitions_for_target_spec n t Ht Hn) as (ps & Hps & Hperm & _). apply PcTarget_new_ok in Ht as (_ & He & Hne & Hle). unfold STANDARD_PC_MAX_LINES in Hle. exists ps. split; [done|].
  assert (Forall (is_partition n) ps) as Hall.
  { rewrite Hperm. apply Forall_fmap, Forall_forall. intros w Hw. unfold compose, is_partition. rewrite lines_of_partition. by apply (compositions_elem (Z.to_nat n)); [lia|]. }
  assert (Z.of_nat (length ps) <= 2 ^ 11) as Hlen.
  { rewrite Hperm, length_fmap, compositions_count by lia. rewrite Z2Nat.id by (apply Z.pow_nonneg; lia). apply Z.pow_le_mono_r; [lia|]. 
    assert (n / 2 <= 12) by (apply Z.div_le_upper_bound; lia). lia. }
  assert (Z.of_nat (total_phases ps) <= 12 * 2 ^ 11) as Htot.
  { transitivity (12 * Z.of_nat (length ps)); [|lia]. apply total_phases_bound. eapply Forall_impl; [exact Hall|]. intros p Hp%phases_bound. lia. }
  split; [|lia]. unfold from_opening_target, from_partitions. rewrite Hps. cbn [rbind]. rewrite partition_loop_spec; [done| |lia|lia|lia|lia]. eapply Forall_impl; [exact Hall|]. intros p [Hf Hs]. split; [done|lia].
Qed.

(** C30: [CheckpointDag::from_opening_query].  For every target the graph is
    built without overflow.  Nodes are numbered by their position; those of a
    partition are its phases in order, with the lines of the phase and the
    lines cleared so far; exactly the consecutive nodes of one partition are
    joined by an edge; no two edges share a token; and the schedule of the
    target counts the nodes. *)
Theorem checkpoint_dag_correct n t : 0 <= n -> PcTarget_new n = Ok t -> exists ps d s, partitions_for_target t = Ok ps /\ from_opening_target t = Ok (Some d) /\ for_opening_target t = Ok s /\
  (forall k a, dag_nodes d !! k = Some a -> node_id a = Z.of_nat k /\ find_node d (Z.of_nat k) = Some a) /\
  (forall i p, ps !! i = Some p -> lines_to_clear <$> nodes_for_partition d (Z.of_nat i) = lines_of p /\
     forall k a, nodes_for_partition d (Z.of_nat i) !! k = Some a -> node_phase_index a = Z.of_nat k /\ cumulative_lines a = sum_lines (take (S k) (lines_of p))) /\
  (forall e, e ∈ dag_edges d <-> exists k a b, dag_nodes d !! k = Some a /\ dag_nodes d !! S k = Some b /\ node_partition_index a = node_partition_index b /\ e = ContinuationEdge_new (node_partition_index a) (node_id a) (node_id b)) /\
  (forall e e', e ∈ dag_edges d -> e' ∈ dag_edges d -> edge_token e = edge_token e' -> e = e') /\
  checkpoint_count s = length (dag_nodes d).
Proof.
  intros Hn Ht. destruct (from_opening_target_spec n t Hn Ht) as (ps & Hps & Hd & Hlen & Htot). exists ps. eexists _, _. split; [exact Hps|]. split; [exact Hd|]. split; [unfold for_opening_target; rewrite Hps; reflexivity|]. cbn [dag_nodes dag_edges].
  assert (forall k a, all_nodes 0 0 ps !! k = Some a -> node_id a = Z.of_nat k) as Hid by (intros k a H%all_nodes_id; done).
  split; [|split; [|split; [|split]]].
  - intros k a Hk. split; [by apply Hid|]. unfold find_node. cbn [dag_nodes]. by apply find_by_id.
  - intros i p Hp. unfold nodes_for_partition. cbn [dag_nodes]. destruct (all_nodes_filter 0 0 ps i p Hp) as [id' Hf]. rewrite Z.add_0_l in Hf. rewrite Hf. split.
    + apply list_eq. intros k. rewrite list_lookup_fmap. unfold lines_of. destruct (phase_nodes _ _ _ _ _ !! k) as [a|] eqn:Ha; cbn; [apply phase_nodes_lookup in Ha as (_ & _ & _ & Ha); done|]. apply lookup_ge_None_1 in Ha. rewrite phase_nodes_length in Ha. symmetry. apply lookup_ge_None_2. by rewrite length_fmap.
    + intros k a (_ & H2 & H3 & _)%phase_nodes_lookup. split; [lia|]. unfold lines_of. lia.
  - intros e. apply all_edges_elem.
  - assert (forall k a, all_nodes 0 0 ps !! k = Some a -> 0 <= node_partition_index a < 2 ^ 16 /\ 0 <= node_id a < 2 ^ 24) as Hrange.
    { intros k a Ha. rewrite (Hid k a Ha). pose proof (lookup_lt_Some _ _ _ Ha) as Hk. rewrite all_nodes_length in Hk. pose proof (all_nodes_partition 0 0 ps) as H1. pose proof (all_nodes_partition_upper 0 0 ps) as H2. rewrite Forall_forall in H1, H2.
      apply list_elem_of_lookup_2 in Ha. specialize (H1 a Ha). specialize (H2 a Ha). cbn in H1, H2. lia. }
    intros e e' (k & a & b & Ha & Hb & _ & ->)%all_edges_elem (k' & a' & b' & Ha' & Hb' & _ & ->)%all_edges_elem. cbn [edge_token ContinuationEdge_new]. destruct (Hrange _ _ Ha), (Hrange _ _ Hb), (Hrange _ _ Ha'), (Hrange _ _ Hb').
    intros (-> & -> & ->)%token_inj; done.
  - unfold checkpoint_count. cbn [schedule_partitions]. by rewrite all_nodes_length.
Qed.

Lemma checkpoint_dag_correct_witness : PcTarget_new 6 = Ok (mkPcTarget 6) /\ exists ps d s, partitions_for_target (mkPcTarget 6) = Ok ps /\ from_opening_target (mkPcTarget 6) = Ok (Some d) /\ for_opening_target (mkPcTarget 6) = Ok s /\ checkpoint_count s = length (dag_nodes d).
Proof.
  split; [reflexivity|]. destruct (checkpoint_dag_correct 6 (mkPcTarget 6)) as (ps & d & s & H1 & H2 & H3 & _ & _ & _ & _ & H4); [lia|reflexivity|]. exists ps, d, s. split; [exact H1|]. split; [exact H2|]. split; [exact H3|exact H4].
Defined.
