(* ===== verification/AreaFeasibility.v ===== *)
(** * Feasibility of areas

    [clearra-geometry/src/area/area_multiset_feasibility.rs],
    [standard_tetromino_area_rule.rs] and [area_model.rs], with the fingerprint
    of [clearra-piece-registry/src/registry/piece_registry_bridge.rs]: whether
    a component of a board can be filled by some of the pieces at hand, judged
    by areas alone.

    Areas are [usize] values as [nat]; a table of [target + 1] flags is assumed
    to fit the address space.  A piece of a mixed set is its identifier and its
    area, an entry of a bag profile its identifier and multiplicity. *)

From Stdlib Require Import ZArith Lia Ascii String.
From stdpp Require Import prelude strings gmap sorting.
From S2P Require Import Prelude Words PcBoard Pieces SupplyAutomaton.

Local Open Scope nat_scope.

(** ** Fingerprints *)

Definition mix_str (hash : Z) (s : string) : Z := foldl (fun hash c => mix_u8 hash (Z.of_nat (nat_of_ascii c))) hash (list_ascii_of_string s).

Definition piece_area_multiset_fingerprint (piece_areas : list nat) : Z :=
  foldl (fun hash area => mix_u64 hash (Z.of_nat area)) (mix_str fnv_seed "piece-area-multiset:v1") (merge_sort (≤)%nat piece_areas).

(** ** Feasibility *)

Record AreaMultisetFeasibility := mkFeasibility { active_piece_area_multiset : list nat; area_fingerprint : Z }.

Inductive AreaMultisetFeasibilityError := EmptyPieceAreas | ZeroPieceArea | UnknownPieceId (piece_id : string).

Definition AreaMultisetFeasibility_new (areas : list nat) : Result AreaMultisetFeasibilityError AreaMultisetFeasibility :=
  if bool_decide (areas = []) then Err EmptyPieceAreas
  else if bool_decide (0 ∈ areas) then Err ZeroPieceArea
  else Ok (mkFeasibility areas (piece_area_multiset_fingerprint areas)).

Definition PIECE_AREA : nat := 4.

Definition piece_areas (piece_count : nat) : list nat := replicate piece_count PIECE_AREA.

Definition can_fill_component_area (component_area : nat) : bool := component_area `mod` PIECE_AREA =? 0.

Definition standard_tetrominoes (piece_count : nat) : Result AreaMultisetFeasibilityError AreaMultisetFeasibility := AreaMultisetFeasibility_new (piece_areas piece_count).

Definition from_mixed_piece_set (piece_set : list (string * nat)) : Result AreaMultisetFeasibilityError AreaMultisetFeasibility := AreaMultisetFeasibility_new (piece_set.*2).

(** The last entry of an identifier is the one the map keeps. *)
Definition area_by_id (piece_set : list (string * nat)) : gmap string nat := foldl (fun m entry => <[fst entry := snd entry]> m) ∅ piece_set.

Definition from_mixed_bag_profile (piece_set bag_profile : list (string * nat)) : Result AreaMultisetFeasibilityError AreaMultisetFeasibility :=
  let? areas := try_fold (fun areas entry =>
      match area_by_id piece_set !! fst entry with
      | None => Err (UnknownPieceId (fst entry))
      | Some area => Ok (areas ++ replicate (snd entry) area)
      end) [] bag_profile in
  AreaMultisetFeasibility_new areas.

(** The inner loop of [bounded_area_subset_sum], from the target down; an
    index past the table would panic. *)
Definition reach_area (area : nat) (reachable : list bool) (candidate : nat) : list bool :=
  <[candidate := default false (reachable !! candidate) || default false (reachable !! (candidate - area)%nat)]> reachable.

Definition area_step (target : nat) (reachable : list bool) (area : nat) : list bool :=
  if target <? area then reachable else foldl (reach_area area) reachable (rev (seq area (target + 1 - area))).

Definition geometry_area_subset_sum (target : nat) (areas : list nat) : bool :=
  let reachable := <[0%nat := true]> (replicate (target + 1) false) in
  default false (foldl (area_step target) reachable areas !! target).

Definition can_fill_exactly (f : AreaMultisetFeasibility) (component_area : nat) : bool := geometry_area_subset_sum component_area (active_piece_area_multiset f).

Inductive AreaFeasibilityDecision := RejectAreaInfeasible (component_area : nat) | SearchMayContinue.

Definition check_component_area (f : AreaMultisetFeasibility) (component_area : nat) : AreaFeasibilityDecision :=
  if can_fill_exactly f component_area then SearchMayContinue else RejectAreaInfeasible component_area.

(** [AreaModel]: the occupied cells of a mask, a [u8]. *)
Definition area_occupied_cells (mask : Z) : Z := wrap 8 (Z.of_nat (count_ones mask)).

Definition is_tetromino_tileable (cells : Z) : bool := (cells mod 4 =? 0)%Z.

Definition tetromino_count (cells : Z) : option Z := if is_tetromino_tileable cells then Some (cells / 4)%Z else None.

(** ** The table of reachable sums *)

Definition sum_areas (l : list nat) : nat := foldr Nat.add 0 l.

(** Some of the areas add up to [s]. *)
Definition fills (l : list nat) (s : nat) : Prop := exists k, k `sublist_of` l /\ sum_areas k = s.

Lemma sum_areas_app k l : sum_areas (k ++ l) = sum_areas k + sum_areas l.
Proof. unfold sum_areas. induction k as [|a k IH]; cbn; [done|]. lia. Qed.

Lemma fills_snoc l a s : fills (l ++ [a]) s <-> fills l s \/ (a <= s /\ fills l (s - a)).
Proof.
  unfold fills. split.
  - intros (k & (k1 & k2 & -> & H1 & H2)%sublist_app_r & <-). apply sublist_cons_r in H2 as [H2|(k3 & -> & H2)]; apply sublist_nil_r in H2 as ->.
    + left. exists k1. rewrite app_nil_r. done.
    + right. rewrite sum_areas_app. cbn. split; [lia|]. exists k1. split; [done|]. lia.
  - intros [(k & H & Hs)|[Ha (k & H & Hs)]]; [exists k; split; [by apply sublist_inserts_r|done]|]. exists (k ++ [a]). split; [by apply sublist_app|]. rewrite sum_areas_app. cbn. lia.
Qed.

Lemma reach_loop area reachable m c : 1 <= area -> area + m <= length reachable ->
  foldl (reach_area area) reachable (rev (seq area m)) !! c =
  if (area <=? c) && (c <? area + m) then Some (default false (reachable !! c) || default false (reachable !! (c - area))) else reachable !! c.
Proof.
  intros Ha. revert reachable. induction m as [|m IH]; intros reachable Hl.
  - cbn [seq rev foldl]. destruct (Nat.leb_spec area c), (Nat.ltb_spec c (area + 0)); cbn [andb]; (done || lia).
  - rewrite seq_S, rev_app_distr. cbn [rev app foldl]. rewrite IH by (unfold reach_area; rewrite length_insert; lia). unfold reach_area.
    destruct (Nat.leb_spec area c), (Nat.ltb_spec c (area + m)), (Nat.ltb_spec c (area + S m)); cbn [andb]; try lia.
    + rewrite !list_lookup_insert_ne by lia. done.
    + replace c with (area + m) by lia. by rewrite list_lookup_insert_eq by lia.
    + by rewrite list_lookup_insert_ne by lia.
    + by rewrite list_lookup_insert_ne by lia.
Qed.

Definition reach_table_ok (target : nat) (l : list nat) (reachable : list bool) : Prop :=
  length reachable = target + 1 /\ forall s, s <= target -> reachable !! s = Some true <-> fills l s.

Lemma area_step_ok target l reachable area : 1 <= area -> reach_table_ok target l reachable -> reach_table_ok target (l ++ [area]) (area_step target reachable area).
Proof.
  intros Ha [Hlen H]. unfold area_step. destruct (Nat.ltb_spec target area) as [Hlt|Hle].
  - split; [done|]. intros s Hs. rewrite H, fills_snoc by done. split; [by left|]. intros [|[? _]]; [done|lia].
  - split.
    + assert (forall cs r, length (foldl (reach_area area) r cs) = length r) as ->; [|done]. intros cs. induction cs as [|c cs IH]; intros r; cbn; [done|]. rewrite IH. unfold reach_area. by rewrite length_insert.
    + intros s Hs. rewrite reach_loop by lia. rewrite fills_snoc. rewrite <- (H s Hs), <- (H (s - area)) by lia. rewrite (proj2 (Nat.ltb_lt s (area + (target + 1 - area)))) by lia. rewrite andb_true_r.
      destruct (lookup_lt_is_Some_2 reachable s ltac:(lia)) as [b Hb]. destruct (lookup_lt_is_Some_2 reachable (s - area) ltac:(lia)) as [b' Hb']. rewrite Hb, Hb'. cbn [from_option]. unfold id.
      destruct (Nat.leb_spec area s); [|split; [by left|]; intros [|[? _]]; [done|lia]]. destruct b, b'; cbn; naive_solver lia.
Qed.

Lemma area_steps_ok target l areas reachable : Forall (fun a => 1 <= a) areas -> reach_table_ok target l reachable -> reach_table_ok target (l ++ areas) (foldl (area_step target) reachable areas).
Proof.
  intros Ha. revert l reachable. induction Ha as [|a areas Ha _ IH]; intros l reachable H; cbn [foldl]; [by rewrite app_nil_r|]. rewrite cons_middle, app_assoc. apply IH. by apply area_step_ok.
Qed.

Lemma subset_sum_fills target areas : Forall (fun a => 1 <= a) areas -> geometry_area_subset_sum target areas = true <-> fills areas target.
Proof.
  intros Ha. unfold geometry_area_subset_sum. destruct (area_steps_ok target [] areas (<[0 := true]> (replicate (target + 1) false)) Ha) as [Hl H].
  - split; [by rewrite length_insert, length_replicate|]. intros s Hs. unfold fills. destruct s as [|s].
    + rewrite list_lookup_insert_eq by (rewrite length_replicate; lia). split; [intros _; by exists []|done].
    + rewrite list_lookup_insert_ne by lia. rewrite lookup_replicate_2 by lia. split; [done|]. intros (k & ->%sublist_nil_r & Hk). done.
  - cbn [app] in H. rewrite <- (H target) by lia. destruct (lookup_lt_is_Some_2 _ target ltac:(rewrite Hl; lia)) as [b ->]. cbn. unfold id. by destruct b.
Qed.

Lemma new_areas areas f : AreaMultisetFeasibility_new areas = Ok f -> active_piece_area_multiset f = areas /\ areas <> [] /\ Forall (fun a => 1 <= a) areas.
Proof.
  unfold AreaMultisetFeasibility_new. case_bool_decide; [done|]. case_bool_decide as H0; [done|]. intros [= <-]. split; [done|]. split; [done|]. apply Forall_forall. intros a Ha. destruct a; [done|lia].
Qed.

Lemma fingerprint_perm k l : k ≡ₚ l -> piece_area_multiset_fingerprint k = piece_area_multiset_fingerprint l.
Proof.
  intros H. unfold piece_area_multiset_fingerprint. f_equal. apply (Sorted_unique (≤)); [apply Sorted_merge_sort; apply _|apply Sorted_merge_sort; apply _|]. by rewrite !merge_sort_Permutation.
Qed.

Lemma fills_replicate n s : fills (replicate n 4) s <-> s mod 4 = 0 /\ s / 4 <= n.
Proof.
  unfold fills. split.
  - intros (k & Hk & <-). assert (exists m, m <= n /\ k = replicate m 4) as (m & Hm & ->).
    { pose proof (sublist_length _ _ Hk) as Hl. rewrite length_replicate in Hl. exists (length k). split; [done|]. symmetry. apply replicate_as_elem_of. split; [done|]. intros x Hx. apply (sublist_submseteq) in Hk. eapply elem_of_submseteq in Hx; [|exact Hk]. by apply elem_of_replicate_inv in Hx. }
    assert (sum_areas (replicate m 4) = m * 4) as -> by (clear; induction m as [|m IH]; [done|]; cbn; unfold sum_areas in IH; lia). rewrite Nat.Div0.mod_mul, Nat.div_mul by lia. done.
  - intros [Hm Hd]. exists (replicate (s / 4) 4). split.
    + replace n with (s / 4 + (n - s / 4)) by lia. rewrite replicate_add. by apply sublist_inserts_r.
    + assert (forall m, sum_areas (replicate m 4) = m * 4) as -> by (intros m; induction m as [|m IH]; [done|]; cbn; unfold sum_areas in IH; lia). pose proof (Nat.div_mod_eq s 4). lia.
Qed.

(** C31: [AreaMultisetFeasibility].  A multiset of positive areas that is not
    empty is accepted, whatever its order, and the search is let through for an
    area exactly when some of the pieces have that area in total, each used at
    most once: the table of partial sums, updated in place, is right.  For [n]
    tetrominoes these are the multiples of four up to [4 n]. *)
Theorem area_feasibility_correct areas f : AreaMultisetFeasibility_new areas = Ok f ->
  (forall area, check_component_area f area = SearchMayContinue <-> exists k, k `sublist_of` areas /\ sum_areas k = area) /\
  (forall l, l ≡ₚ areas -> exists f', AreaMultisetFeasibility_new l = Ok f' /\ area_fingerprint f' = area_fingerprint f) /\
  (forall n, areas = piece_areas n -> forall area, check_component_area f area = SearchMayContinue <-> can_fill_component_area area = true /\ area / 4 <= n).
Proof.
  intros Hf. destruct (new_areas areas f Hf) as (Hm & Hne & Hpos). assert (forall area, check_component_area f area = SearchMayContinue <-> fills areas area) as H.
  { intros area. unfold check_component_area, can_fill_exactly. rewrite Hm, <- subset_sum_fills by done. by destruct (geometry_area_subset_sum area areas). }
  split; [exact H|]. split.
  - intros l Hl. unfold AreaMultisetFeasibility_new in *. rewrite bool_decide_false by (intros ->; by apply Permutation_nil_l in Hl). rewrite bool_decide_false in Hf by done. destruct (decide (0 ∈ areas)) as [H0|H0]; [by rewrite bool_decide_true in Hf|]. rewrite bool_decide_false in Hf by done. injection Hf as <-.
    rewrite bool_decide_false by by rewrite Hl. eexists. split; [done|]. cbn. by apply fingerprint_perm.
  - intros n -> area. rewrite H. unfold piece_areas, PIECE_AREA, can_fill_component_area. rewrite fills_replicate, Nat.eqb_eq. done.
Qed.

Lemma area_feasibility_correct_witness : exists f, AreaMultisetFeasibility_new [4; 3; 3] = Ok f /\ (check_component_area f 7 = SearchMayContinue <-> exists k, k `sublist_of` [4; 3; 3] /\ sum_areas k = 7).
Proof. eexists. split; [reflexivity|]. eapply (area_feasibility_correct [4; 3; 3]). reflexivity. Defined.
