(* ===== verification/PruningLedger.v ===== *)
(** * The ledger of pruning evidence

    [clearra-core-domain/src/pruning/]: reasons, contexts and decisions, and
    [pruning_proof_ledger.rs], which keeps a bounded record of why candidates
    were dropped.  Counters are [usize] values as [Z] at 64 bits. *)

From Stdlib Require Import ZArith Lia.
From stdpp Require Import prelude.
From S2P Require Import Prelude Words.

Local Open Scope Z_scope.

Inductive PruneReason :=
| AreaOverflow
| PieceCountOverflow
| PlacementCollision
| TargetMaskOverflow
| RowCapacityOverflow
| CellDomainEmptyUnderClearState
| CellDomainEmptyForAllReachableClearStates
| ForcedPieceFamilyUnderClearState
| ForcedPieceFamilyForAllReachableClearStates
| CandidateViolatesGloballyForcedPieceFamily
| ComponentExactCoverImpossible
| HoldAutomatonImpossible
| ReachabilityImpossible
| BuildOrdersHoldReachableIntersectionEmpty
| ResourceBudgetExceeded
| LineClearOrderImpossible
| ColumnDemandOverflow
| FullParentDomainEmpty
| SameTileParentDomainEmpty
| AdditiveInvariantMismatch
| SeparatorComponentInfeasible
| ParentDomainHallViolation
| ColumnDemandUnreachable
| BumperDomainEmpty
| BumperBridgeIncompatible
| RealizationDomainEmpty.

#[export] Instance PruneReason_eq_dec : EqDecision PruneReason.
Proof. solve_decision. Defined.

Inductive FallbackAction := KeepCandidate | RunBuildUp | DisableDomainPruning.

Inductive ProofLevel := LocalOnly | ClearStateConditional | AllReachableClearStates | GlobalSafe.

Inductive PruningEvidencePolicy := BestEffort | CompleteRequired.

#[export] Instance PruningEvidencePolicy_eq_dec : EqDecision PruningEvidencePolicy.
Proof. solve_decision. Defined.

Inductive PruningEvidenceDecision :=
| EvidenceRecorded (reason : PruneReason)
| CandidateKeptForCompleteEvidence (reason : PruneReason) (fallback : FallbackAction)
| EvidenceRejectedUnconnectedReason (reason : PruneReason) (fallback : FallbackAction).

(** ** Contexts *)

Record PruneEvidenceContext := mkContext { ctx_batch_id : Z; ctx_state_layer : Z; ctx_affected_candidate_count : Z; ctx_evidence_digest : Z }.

Inductive PruneEvidenceError := MissingBatchId | NoAffectedCandidates | MissingEvidenceDigest.

Definition PruneEvidenceContext_new (batch_id state_layer affected_candidate_count evidence_digest : Z) : Result PruneEvidenceError PruneEvidenceContext :=
  if batch_id =? 0 then Err MissingBatchId
  else if affected_candidate_count =? 0 then Err NoAffectedCandidates
  else if evidence_digest =? 0 then Err MissingEvidenceDigest
  else Ok (mkContext batch_id state_layer affected_candidate_count evidence_digest).

(** ** The ledger *)

Record PruningProofLedgerEntry := mkEntry {
  le_batch_id : Z;
  le_state_layer : Z;
  le_prune_reason : PruneReason;
  le_affected_candidate_count : Z;
  le_proof_level : ProofLevel;
  le_clear_state_key : option Z;
  le_fallback_if_invalid : FallbackAction;
  le_evidence_digest : Z
}.

Definition from_engine_evidence (reason : PruneReason) (context : PruneEvidenceContext) (fallback_if_invalid : FallbackAction) : PruningProofLedgerEntry :=
  mkEntry (ctx_batch_id context) (ctx_state_layer context) reason (ctx_affected_candidate_count context) GlobalSafe None fallback_if_invalid (ctx_evidence_digest context).

Record PruningProofLedger := mkPruningLedger {
  pl_entries : list PruningProofLedgerEntry;
  pl_max_entries : nat;
  pl_evidence_policy : PruningEvidencePolicy;
  pl_evidence_truncated : bool;
  pl_dropped_evidence_count : Z;
  pl_complete_required_capacity_hit : bool;
  pl_candidates_kept_due_to_evidence_capacity : Z;
  pl_prune_reason_counts : list (PruneReason * Z)
}.

Definition DEFAULT_MAX_RETAINED_EVIDENCE_ENTRIES : nat := 64.

Definition with_entry_limit_and_policy (max_entries : nat) (evidence_policy : PruningEvidencePolicy) : PruningProofLedger :=
  mkPruningLedger [] max_entries evidence_policy false 0 false 0 [].

Definition PruningProofLedger_default : PruningProofLedger := with_entry_limit_and_policy DEFAULT_MAX_RETAINED_EVIDENCE_ENTRIES BestEffort.

Definition with_entry_limit (max_entries : nat) : PruningProofLedger := with_entry_limit_and_policy max_entries BestEffort.

(** The first count of the reason is raised, or a new one is added. *)
Fixpoint bump_reason (reason : PruneReason) (counts : list (PruneReason * Z)) : list (PruneReason * Z) :=
  match counts with
  | [] => [(reason, 1)]
  | (candidate, count) :: counts => if bool_decide (candidate = reason) then (candidate, saturating_add 64 count 1) :: counts else (candidate, count) :: bump_reason reason counts
  end.

Definition record_truncated_evidence (l : PruningProofLedger) (reason : PruneReason) : PruningProofLedger :=
  mkPruningLedger (pl_entries l) (pl_max_entries l) (pl_evidence_policy l) true (saturating_add 64 (pl_dropped_evidence_count l) 1)
    (pl_complete_required_capacity_hit l) (pl_candidates_kept_due_to_evidence_capacity l) (bump_reason reason (pl_prune_reason_counts l)).

Definition record (l : PruningProofLedger) (entry : PruningProofLedgerEntry) : PruningProofLedger :=
  if (pl_max_entries l <=? length (pl_entries l))%nat then record_truncated_evidence l (le_prune_reason entry)
  else mkPruningLedger (pl_entries l ++ [entry]) (pl_max_entries l) (pl_evidence_policy l) (pl_evidence_truncated l) (pl_dropped_evidence_count l)
    (pl_complete_required_capacity_hit l) (pl_candidates_kept_due_to_evidence_capacity l) (pl_prune_reason_counts l).

(** The reasons the engine is connected to. *)
Definition connected (reason : PruneReason) : bool :=
  match reason with
  | PieceCountOverflow | PlacementCollision | TargetMaskOverflow | ComponentExactCoverImpossible | LineClearOrderImpossible | ColumnDemandOverflow
  | FullParentDomainEmpty | SameTileParentDomainEmpty | AdditiveInvariantMismatch | SeparatorComponentInfeasible | ParentDomainHallViolation
  | ColumnDemandUnreachable | BumperDomainEmpty | BumperBridgeIncompatible | RealizationDomainEmpty => true
  | _ => false
  end.

Definition record_engine_drop_evidence (l : PruningProofLedger) (reason : PruneReason) (context : PruneEvidenceContext) (fallback_if_invalid : FallbackAction) : PruningProofLedger * PruningEvidenceDecision :=
  if negb (connected reason) then (l, EvidenceRejectedUnconnectedReason reason fallback_if_invalid)
  else
    let entry := from_engine_evidence reason context fallback_if_invalid in
    if (pl_max_entries l <=? length (pl_entries l))%nat && bool_decide (pl_evidence_policy l = CompleteRequired) then
      (mkPruningLedger (pl_entries l) (pl_max_entries l) (pl_evidence_policy l) (pl_evidence_truncated l) (pl_dropped_evidence_count l) true
         (saturating_add 64 (pl_candidates_kept_due_to_evidence_capacity l) (le_affected_candidate_count entry)) (pl_prune_reason_counts l),
       CandidateKeptForCompleteEvidence reason (le_fallback_if_invalid entry))
    else (record l entry, EvidenceRecorded reason).

Definition prune_reason_count (l : PruningProofLedger) (reason : PruneReason) : Z :=
  match List.find (fun rc => bool_decide (fst rc = reason)) (pl_prune_reason_counts l) with Some rc => snd rc | None => 0 end.

(** ** What a ledger knows of its history *)

Record Evidence := mkEvidence { ev_reason : PruneReason; ev_context : PruneEvidenceContext; ev_fallback : FallbackAction }.

Definition record_all (l : PruningProofLedger) (history : list Evidence) : PruningProofLedger :=
  foldl (fun l e => (record_engine_drop_evidence l (ev_reason e) (ev_context e) (ev_fallback e)).1) l history.

Definition entry_of (e : Evidence) : PruningProofLedgerEntry := from_engine_evidence (ev_reason e) (ev_context e) (ev_fallback e).

Definition accepted (history : list Evidence) : list Evidence := filter (fun e => connected (ev_reason e) = true) history.

(** The evidence past the limit. *)
Definition beyond (max_entries : nat) (history : list Evidence) : list Evidence := drop max_entries (accepted history).

Definition saturate (n : Z) : Z := Z.min n (umax 64).

Definition affected_total (l : list Evidence) : Z := foldr (fun e n => ctx_affected_candidate_count (ev_context e) + n) 0 l.

Definition with_reason (reason : PruneReason) (l : list Evidence) : list Evidence := filter (fun e => ev_reason e = reason) l.

Lemma find_bump reason r counts :
  match List.find (fun rc => bool_decide (fst rc = r)) (bump_reason reason counts) with Some rc => snd rc | None => 0 end =
  let old := match List.find (fun rc => bool_decide (fst rc = r)) counts with Some rc => snd rc | None => 0 end in
  if bool_decide (r = reason) then saturating_add 64 old 1 else old.
Proof.
  cbv zeta. induction counts as [|[c n] counts IH]; cbn [bump_reason List.find fst snd].
  - destruct (decide (reason = r)) as [->|Hne]; [by rewrite !bool_decide_true|]. by rewrite !bool_decide_false by congruence.
  - destruct (decide (c = reason)) as [->|Hc]; [rewrite (bool_decide_true (reason = reason)) by done|rewrite (bool_decide_false (c = reason)) by done]; cbn [List.find fst snd].
    + destruct (decide (reason = r)) as [->|Hr]; [by rewrite !bool_decide_true|]. rewrite (bool_decide_false (reason = r)), (bool_decide_false (r = reason)) by congruence. done.
    + destruct (decide (c = r)) as [->|Hr]; [rewrite (bool_decide_true (r = r)), (bool_decide_false (r = reason)) by done; done|]. by rewrite (bool_decide_false (c = r)) by done.
Qed.

Lemma saturate_add a b : 0 <= b -> saturating_add 64 (saturate a) b = saturate (a + b).
Proof. unfold saturating_add, saturate. lia. Qed.

(** The state of a ledger, from what was reported to it. *)
Record remembers (max_entries : nat) (policy : PruningEvidencePolicy) (history : list Evidence) (l : PruningProofLedger) : Prop := {
  rem_max : pl_max_entries l = max_entries;
  rem_policy : pl_evidence_policy l = policy;
  rem_entries : pl_entries l = entry_of <$> take max_entries (accepted history);
  rem_state : match policy with
    | BestEffort => pl_evidence_truncated l = bool_decide (beyond max_entries history <> []) /\ pl_dropped_evidence_count l = saturate (Z.of_nat (length (beyond max_entries history))) /\
        pl_complete_required_capacity_hit l = false /\ pl_candidates_kept_due_to_evidence_capacity l = 0 /\
        forall reason, prune_reason_count l reason = saturate (Z.of_nat (length (with_reason reason (beyond max_entries history))))
    | CompleteRequired => pl_evidence_truncated l = false /\ pl_dropped_evidence_count l = 0 /\
        pl_complete_required_capacity_hit l = bool_decide (beyond max_entries history <> []) /\ pl_candidates_kept_due_to_evidence_capacity l = saturate (affected_total (beyond max_entries history)) /\
        forall reason, prune_reason_count l reason = 0
    end
}.

Lemma affected_total_app k l : affected_total (k ++ l) = affected_total k + affected_total l.
Proof. unfold affected_total. induction k as [|e k IH]; cbn; [done|]. rewrite IH. lia. Qed.

Lemma accepted_snoc h e : accepted (h ++ [e]) = accepted h ++ if connected (ev_reason e) then [e] else [].
Proof. unfold accepted. rewrite filter_app. f_equal. rewrite filter_cons. destruct (connected (ev_reason e)); done. Qed.

Lemma remembers_start max_entries policy : remembers max_entries policy [] (with_entry_limit_and_policy max_entries policy).
Proof. split; [done|done|cbn; by rewrite take_nil|]. unfold beyond. change (accepted []) with (@nil Evidence). rewrite drop_nil. destruct policy; done. Qed.

(** While there is room evidence is kept; nothing else changes. *)
Lemma remembers_room max_entries policy h l e : remembers max_entries policy h l -> connected (ev_reason e) = true -> (length (accepted h) < max_entries)%nat ->
  remembers max_entries policy (h ++ [e]) (record l (entry_of e)) /\ (length (pl_entries l) < max_entries)%nat.
Proof.
  intros [Hmax Hpol Hent Hst] Hc Hlen. assert (length (pl_entries l) < max_entries)%nat as Hl by (rewrite Hent, length_fmap, length_take; lia). split; [|done]. unfold record. rewrite Hmax, (proj2 (Nat.leb_gt _ _)) by lia.
  assert (beyond max_entries (h ++ [e]) = beyond max_entries h) as Hb by (unfold beyond; rewrite accepted_snoc, Hc, !drop_ge by (rewrite ?length_app; cbn; lia); done). split; cbn [pl_max_entries pl_evidence_policy pl_entries]; [done|done| |].
  - rewrite accepted_snoc, Hc, Hent, !take_ge by (rewrite ?length_app; cbn; lia). by rewrite fmap_app.
  - rewrite Hb. exact Hst.
Qed.

Lemma remembers_full max_entries policy h l e : remembers max_entries policy h l -> connected (ev_reason e) = true -> (max_entries <= length (accepted h))%nat ->
  length (pl_entries l) = max_entries /\ beyond max_entries (h ++ [e]) = beyond max_entries h ++ [e] /\ pl_entries l = entry_of <$> take max_entries (accepted (h ++ [e])).
Proof.
  intros [Hmax Hpol Hent Hst] Hc Hlen. split; [rewrite Hent, length_fmap, length_take; lia|]. unfold beyond. rewrite accepted_snoc, Hc. split; [by rewrite drop_app_le by lia|]. by rewrite take_app_le by lia.
Qed.

Lemma bool_decide_snoc {A} (l : list A) a : bool_decide (l ++ [a] <> []) = true.
Proof. apply bool_decide_true. by destruct l. Qed.

Lemma remembers_step max_entries policy h l e : remembers max_entries policy h l -> 0 <= ctx_affected_candidate_count (ev_context e) ->
  remembers max_entries policy (h ++ [e]) (record_engine_drop_evidence l (ev_reason e) (ev_context e) (ev_fallback e)).1.
Proof.
  intros H Haff. pose proof H as [Hmax Hpol Hent Hst]. unfold record_engine_drop_evidence. destruct (connected (ev_reason e)) eqn:Hc; cbn [negb].
  2: { assert (accepted (h ++ [e]) = accepted h) as Ha by (by rewrite accepted_snoc, Hc, app_nil_r). split; [done|done|cbn [fst]; by rewrite Ha|]. unfold beyond in *. rewrite Ha. exact Hst. }
  fold (entry_of e). destruct (decide (length (accepted h) < max_entries)%nat) as [Hlt|Hge].
  { destruct (remembers_room _ _ _ _ e H Hc Hlt) as [Hr Hl]. rewrite Hmax, (proj2 (Nat.leb_gt _ _)) by lia. exact Hr. }
  destruct (remembers_full _ _ _ _ e H Hc ltac:(lia)) as (Hl & Hb & He). rewrite Hmax, Hl, Nat.leb_refl, Hpol. cbn [andb]. destruct policy; cbn [bool_decide fst snd].
  - rewrite bool_decide_false by done. cbn [fst]. unfold record. rewrite Hmax, Hl, Nat.leb_refl. unfold record_truncated_evidence. destruct Hst as (_ & Hd & Hh & Hk & Hr). split; cbn [pl_max_entries pl_evidence_policy pl_entries]; [done|done|done|].
    rewrite Hb, bool_decide_snoc, length_app. cbn [length pl_evidence_truncated pl_dropped_evidence_count pl_complete_required_capacity_hit pl_candidates_kept_due_to_evidence_capacity]. split; [done|]. split; [rewrite Hd, saturate_add by lia; f_equal; lia|]. split; [done|]. split; [done|].
    intros reason. unfold prune_reason_count in *. cbn [pl_prune_reason_counts le_prune_reason entry_of from_engine_evidence record_truncated_evidence]. rewrite find_bump. cbv zeta. rewrite Hr. unfold with_reason. rewrite filter_app, filter_cons, length_app. destruct (decide (ev_reason e = reason)) as [->|Hne].
    + rewrite bool_decide_true by done. rewrite saturate_add by lia. cbn [length filter list_filter]. f_equal. cbn. lia.
    + rewrite bool_decide_false by congruence. cbn. by rewrite Nat.add_0_r.
  - rewrite bool_decide_true by done. cbn [fst]. destruct Hst as (Ht & Hd & _ & Hk & Hr). split; cbn [pl_max_entries pl_evidence_policy pl_entries]; [done|done|done|].
    rewrite Hb, bool_decide_snoc, affected_total_app. cbn [pl_evidence_truncated pl_dropped_evidence_count pl_complete_required_capacity_hit pl_candidates_kept_due_to_evidence_capacity]. split; [done|]. split; [done|]. split; [done|]. split; [|exact Hr].
    rewrite Hk. cbn [le_affected_candidate_count entry_of from_engine_evidence]. rewrite saturate_add by done. f_equal. cbn. lia.
Qed.

Lemma remembers_all max_entries policy h h' l : remembers max_entries policy h l -> Forall (fun e => 0 <= ctx_affected_candidate_count (ev_context e)) h' -> remembers max_entries policy (h ++ h') (record_all l h').
Proof.
  intros H Hf. revert h l H. induction Hf as [|e h' He _ IH]; intros h l H; [by rewrite app_nil_r|]. rewrite cons_middle, app_assoc. apply IH. by apply remembers_step.
Qed.

(** C32: [PruningProofLedger].  After any history of reports a ledger holds the
    first [max_entries] of those with a connected reason, in order and marked
    as global, and knows exactly what it left out: a best-effort ledger counts
    the rest, in total and by reason, and says that it is truncated; a ledger
    that must be complete is never truncated, it counts the candidates it kept
    instead.  Counters saturate.  A reason that is not connected is rejected
    and changes nothing. *)
Theorem pruning_ledger_remembers max_entries policy history :
  Forall (fun e => 0 <= ctx_affected_candidate_count (ev_context e)) history ->
  remembers max_entries policy history (record_all (with_entry_limit_and_policy max_entries policy) history) /\
  Forall (fun entry => connected (le_prune_reason entry) = true /\ le_proof_level entry = GlobalSafe) (pl_entries (record_all (with_entry_limit_and_policy max_entries policy) history)).
Proof.
  intros Hf. pose proof (remembers_all max_entries policy [] history _ (remembers_start max_entries policy) Hf) as H. cbn [app] in H. split; [exact H|]. rewrite (rem_entries _ _ _ _ H). apply Forall_fmap, Forall_take. unfold accepted. apply Forall_forall. intros e He%list_elem_of_filter. split; [apply He|done].
Qed.

Definition sample_history : list Evidence :=
  [mkEvidence PlacementCollision (mkContext 1 0 3 7) KeepCandidate; mkEvidence AreaOverflow (mkContext 1 0 3 7) KeepCandidate; mkEvidence BumperDomainEmpty (mkContext 2 0 5 7) RunBuildUp].

Lemma pruning_ledger_remembers_witness : remembers 1 CompleteRequired sample_history (record_all (with_entry_limit_and_policy 1 CompleteRequired) sample_history) /\
  pl_candidates_kept_due_to_evidence_capacity (record_all (with_entry_limit_and_policy 1 CompleteRequired) sample_history) = 5.
Proof. split; [|reflexivity]. apply (pruning_ledger_remembers 1 CompleteRequired sample_history). unfold sample_history. repeat constructor; cbn; lia. Defined.
